(* ===== verification/_CoqProject ===== *)
-Q . S2P
Prelude.v
Bump.v
Pipe.v
Task.v
Sched.v
SchedInv.v
SchedProps.v
Mutex.v
Axalloc.v
Axmm.v
AxmmProps.v
AxmmSpace.v
AxmmCalls.v
AxmmDemo.v
Ramfs.v
RamfsProps.v
Vfs.v
Root.v
RootProps.v
RamfsVfs.v
AxfsRamfs.v
Fops.v
FopsProps.v
FdTable.v
SysMap.v
PosixFs.v
PosixProps.v
AxfsDemo.v
PipeFile.v
Select.v
Epoll.v
MpxDemo.v
Net.v
NetSockets.v
NetInv.v
NetSafe.v
NetProps.v
NetLocks.v
NetDemo.v
PosixNet.v
PosixNetProps.v
PosixNetDemo.v
ElfParse.v
ElfHash.v
ElfNote.v
ElfSymver.v
ElfBytes.v
SysLoader.v
SysDemo.v
ElfStream.v
CString.v
CStringProps.v
CTwoWay.v
CStrstr.v
CStdlib.v
CMalloc.v
CTime.v
CPrintf.v
CPrintfProps.v
CDemo.v
CStdio.v
CFopen.v
CStdioDemo.v
Riscv.v
RiscvContext.v
RiscvTrap.v
Vcpu.v
VcpuExit.v
SimpleHv.v
RiscvDemo.v
Dma.v
DmaDemo.v
Pthread.v
KernelGuard.v
