(* ===== verification/Prelude.v ===== *)
(** * ArceOS: a verification development

    ArceOS is a component kernel in Rust with a C library.  The same modules make a
    unikernel (an application linked with the kernel), a small monolithic kernel (the
    exercise [sys_map], whose user programs run in an address space of their own) and a
    small hypervisor (the exercise [simple_hv]).  This library models the modules as Rocq
    functions and proves what each promises, up to statements about the whole stack of
    components.  All paths below are relative to [src/arceos/], but for [src/crates/].

    ** How code is modelled

    - A function that can panic has the type [outcome] ([Ret] or [Panic]); a Rust [Result] is
      [result]; a method on shared state is a function of the state, or a computation of the
      monad [SM] (state, error, panic) with the notations [let!] and [do!].  Indexing out of
      range, [unwrap] of nothing and failed assertions are panics; where C code has no defined
      behaviour the result is [Panic] or none.
    - Integers are [Z] with their width and wrap-around written out ([wrap], [uadd], [usub], [umul],
      [to_signed]).  Strings of C are bytes in a memory, a function from addresses to bytes.
    - Values shared by reference ([Arc], [Weak], raw pointers) live in a store and are named by
      their key, with the reference counts the code depends on.
    - Code that other tasks interleave with is cut at the points where they can run; the
      pieces are definitions, and a step relation or a schedule puts them together.
    - Crates that are not part of the repository are classes: the operations one class, the
      documented behaviour a class of laws.  The theorems hold for every instance; the files
      named [...Demo.v] give instances that satisfy the laws and apply the theorems to them.
    - A loop that need not end has fuel, and no result ([None]) says that it is still running.
      The theorems about such loops say how much fuel is enough: a round for each page,
      character, entry or year the loop passes over.  Loops over a count or a list recurse on it.

    ** The parts and their files

    Memory management.  [Bump.v]: the early allocator [modules/bump_allocator] and
    [modules/alt_axalloc] on it.  [Axalloc.v]: the two-level global allocator
    [modules/axalloc] ([GlobalAllocator], [GlobalPage]) over the external byte and page
    allocators.  [Axmm.v]: address spaces and mapping backends [modules/axmm] ([aspace.rs],
    [backend/]) on pages of that allocator, with [axhal/src/mem.rs] and [paging.rs];
    [AxmmProps.v], [AxmmSpace.v] and [AxmmCalls.v] have the lemmas on page tables, on one
    method and on sequences of calls, [AxmmDemo.v] the instances.  [Dma.v], [DmaDemo.v]:
    coherent memory [modules/axdma], a client of both allocators and of the kernel's address
    space.

    Tasks.  [Task.v]: tasks, run queue and timers of [modules/axtask] ([task.rs],
    [run_queue.rs], [timers.rs]) as operations on one system state; [Sched.v]: the API and the
    wait queues ([api.rs], [wait_queue.rs]) and the step relation; [SchedInv.v] and
    [SchedProps.v]: the invariant and the theorems.  [Mutex.v]: [modules/axsync/src/mutex.rs]
    on the wait queues.  [KernelGuard.v]: [src/crates/kernel_guard].  [Pthread.v]: the threads
    of [api/arceos_posix_api/src/imp/pthread/mod.rs].

    Files.  [Ramfs.v], [RamfsProps.v]: [axfs_ramfs].  [Vfs.v]: the interfaces of the crate
    [axfs_vfs].  [Root.v], [RootProps.v]: mounts and paths, [modules/axfs/src/root.rs].
    [RamfsVfs.v], [AxfsRamfs.v]: the RAM file system as an instance of the interfaces, and the
    references between the two.  [Fops.v], [FopsProps.v]: open files, [fops.rs] and
    [api/dir.rs].  [FdTable.v], [PosixFs.v], [PosixProps.v]: descriptors and the system calls
    on files, [api/arceos_posix_api/src/imp/fd_ops.rs], [io.rs], [fs.rs].  [Pipe.v],
    [PipeFile.v]: [pipe.rs].  [Select.v], [Epoll.v]: [io_mpx/].  [AxfsDemo.v], [MpxDemo.v]:
    instances and runs.

    Network.  [Net.v], [NetSockets.v]: [modules/axnet/src/smoltcp_impl], over the crate
    [smoltcp]; [NetInv.v], [NetSafe.v], [NetProps.v]: its invariant and theorems;
    [NetLocks.v]: the order of its locks.  [PosixNet.v], [PosixNetProps.v]: the socket calls,
    [api/arceos_posix_api/src/imp/net.rs].  [NetDemo.v], [PosixNetDemo.v]: a small protocol
    stack.

    Programs.  [ElfParse.v], [ElfHash.v], [ElfNote.v], [ElfSymver.v], [ElfBytes.v],
    [ElfStream.v]: the ELF parser [modules/elf].  [SysMap.v], [SysLoader.v], [SysDemo.v]: the
    system calls and the loader of [exercises/sys_map], on the address spaces and the ELF
    parser.

    The C library [ulib/axlibc].  [CString.v], [CStringProps.v]: [c/string.c], [c/ctype.c];
    [CTwoWay.v], [CStrstr.v]: the two-way search of [strstr].  [CStdlib.v]: [c/stdlib.c];
    [CMalloc.v]: [src/malloc.rs] on the global allocator.  [CTime.v]: [c/time.c] and
    [src/mktime.rs].  [CPrintf.v], [CPrintfProps.v]: [c/printf.c].  [CStdio.v],
    [CFopen.v]: streams, [c/stdio.c], on the descriptors and system calls, with
    [src/errno.rs].  [CDemo.v], [CStdioDemo.v]: memories and runs.

    RISC-V.  [Riscv.v]: the machine and a symbolic evaluator for its assembly code, with its
    soundness.  [RiscvContext.v]: the task switch of [axhal/src/arch/riscv/context.rs] and
    [ulib/axlibc/src/setjmp.rs].  [RiscvTrap.v]: [trap.S], [trap.rs] and the way into user
    mode.  [Vcpu.v], [VcpuExit.v]: the virtual CPU [modules/riscv_vcpu] ([guest.S], [regs.rs],
    [vcpu.rs], [csrs.rs], [sbi/]).  [SimpleHv.v]: [exercises/simple_hv] with its guest
    [payload/skernel2], and [tour/h_4_0/src/vmdev.rs].  [RiscvDemo.v]: runs.

    ** What the theorems show

    - Memory: live blocks are in memory of the allocator and disjoint after every sequence of
      allocations and frees ([early_heap_safe], [global_heap_safe], [c_heap_safe],
      [coherent_memory_safe]); an address space has a frame of its own for every page through
      all calls, what is written is read back, lazy pages are served by the page fault handler
      ([uspace_calls_safe], [space_write_then_read], [lazy_page_served]).
    - Tasks: in every reachable state a ready task is in the run queue once, a blocked one is
      in a wait queue or has a timer, and no assertion fails ([sched_reachable_consistent],
      [sched_ops_return]); the mutex excludes and loses no wakeup ([mutex_exclusion],
      [mutex_no_lost_wakeup]); nested guards protect their section and restore the state
      before it ([guards_protect]); a join gets the value its thread left ([pthread_join_value]).
    - Files and descriptors: what is created is found, reference counts are the references,
      modes are enforced, every system call on every state in order returns and leaves it in
      order ([create_then_lookup], [axfs_ramfs_safe], [handle_respects_mode],
      [posix_calls_safe]); the table of descriptors refines a finite map
      ([fd_calls_refine_map]); pipes refine a queue ([pipe_fifo]); [select] and [epoll] report
      what is ready ([sys_select_refines], [epoll_wait_exact]).
    - Network: no call refers to a socket that is gone ([net_calls_safe],
      [socket_calls_safe]); a bound listener serves ([bind_listen_serves]); calls in the order
      of the locks finish and two that are not do not ([ordered_calls_finish],
      [net_lock_deadlock]).
    - Programs: tables parse to what was encoded, the accessors stay in the file and the two
      interfaces agree ([table_roundtrip], [table_entries_typed], [stream_accessors_agree]); the loader
      puts every segment in memory ([user_app_prepared]) and [mmap] the bytes of the file
      ([mmap_maps]).
    - C library: [strstr] finds the first occurrence ([strstr_first]), printed numbers are read
      back ([printf_strtol_roundtrip]), [snprintf] cuts at the buffer ([snprintf_truncates]),
      dates and seconds are inverse ([time_conversions_exact]).  Output through a stream is
      delivered in order and blocks completely ([stream_output_exact], [block_io_exact]), but a
      failing descriptor is retried for ever ([io_errors_hang]).
    - RISC-V: the assembly saves and restores what the records say, whatever the values
      ([context_switch_resumes], [user_traps_exact], [guest_switch_exact]); a guest's calls and
      timer get the answers of the firmware ([sbi_calls_exact], [timer_injection]); the
      guest of [simple_hv] leaves twice and the program exits with 0 ([simple_hv_exits]).

    Theorems that show a defect of the code state what the code does and under which
    conditions; the comment before each says what was meant.

    ** Bounds

    The system is 64-bit.  The kernel model has one CPU and the features [multitask], [irq]
    and [preempt].  Constants of the build ([axconfig]) are fields of classes.  Theorems about
    machine integers assume sizes below the width only where the code does not check them, and
    say so.

    ** Not modelled

    - Drivers, boards and boot code ([modules/axdriver], [axhal/src/platform], the other
      architectures of [axhal/src/arch], [axruntime]): their effect is the hardware.
      [axhal/src/cpu.rs], [tls.rs], [time.rs] and [axconfig], [axdisplay], [axlog] wrap the
      platform, an external crate or generated constants.
    - [modules/axfs/src/fs/fatfs.rs] and [dev.rs]: the external FAT implementation over blocks
      of a driver; every theorem on paths and open files is over any file system.
    - [arceos_api], [axfeat], [axstd] and the calls of the POSIX layer on time, limits and the
      console: they forward to modules that are modelled, or to the platform.
    - In [axlibc]: floating point ([math.c], [pow.c], [strtod.rs], the conversions of
      [printf.c] with [AX_CONFIG_FP_SIMD]), wrappers of system calls, stubs, and
      the formatting of dates ([strftime.rs]).
    - [sys_getaddrinfo] and [sys_freeaddrinfo], linked lists in raw memory; the device buffers
      and the benchmark of [axnet]; [detect.rs] of [riscv_vcpu], which probes by trapping.
    - Stacks, thread-local storage and entry closures of tasks in [Task.v] (the registers of a
      switch are in [RiscvContext.v]); more than one CPU.
    - Demonstration programs of [tour/], [examples/], [exercises/] and [payload/] other than
      those named above, and the host tools. *)

From stdpp Require Import prelude.
From stdpp Require Import gmap list.
From Stdlib Require Import ZArith Lia.

(** * Outcomes and results *)

(** A Rust computation either returns or panics ([panic!], a failed [assert!],
    an out-of-range index, [unwrap] of an empty option, [unimplemented!]). *)
Inductive outcome (A : Type) : Type :=
| Ret (a : A)
| Panic.
Arguments Ret {A} a.
Arguments Panic {A}.

(** [core::result::Result]. *)
Inductive result (A E : Type) : Type :=
| Ok (a : A)
| Err (e : E).
Arguments Ok {A E} a.
Arguments Err {A E} e.

#[export] Instance outcome_ret : MRet outcome := λ A a, Ret a.
#[export] Instance outcome_bind : MBind outcome := λ A B f m,
  match m with Ret a => f a | Panic => Panic end.
#[export] Instance outcome_fmap : FMap outcome := λ A B f m,
  match m with Ret a => Ret (f a) | Panic => Panic end.

#[export] Instance result_eq_dec {A E} `{EqDecision A, EqDecision E} :
  EqDecision (result A E).
Proof. solve_decision. Defined.
#[export] Instance outcome_eq_dec {A} `{EqDecision A} : EqDecision (outcome A).
Proof. solve_decision. Defined.

Definition is_ok {A E} (r : result A E) : bool :=
  match r with Ok _ => true | Err _ => false end.

Definition unwrap {A E} (r : result A E) : outcome A :=
  match r with Ok a => Ret a | Err _ => Panic end.

Definition opt_unwrap {A} (o : option A) : outcome A :=
  match o with Some a => Ret a | None => Panic end.

Definition ok_or {A E} (o : option A) (e : E) : result A E :=
  match o with Some a => Ok a | None => Err e end.

Definition map_err {A E F} (f : E → F) (r : result A E) : result A F :=
  match r with Ok a => Ok a | Err e => Err (f e) end.

Definition map_ok {A B E} (f : A → B) (r : result A E) : result B E :=
  match r with Ok a => Ok (f a) | Err e => Err e end.

(** * Error codes *)

(** [axerrno::AxError] (also [axfs_vfs::VfsError]), the constructors the sources
    name. *)
Module AxError.
Inductive t : Type :=
| AddrInUse | AlreadyExists | BadAddress | BadState | ConnectionRefused | ConnectionReset
| DirectoryNotEmpty | InvalidData | InvalidInput | Io | IsADirectory | NoMemory
| NotADirectory | NotConnected | NotFound | PermissionDenied | ResourceBusy | StorageFull
| UnexpectedEof | Unsupported | WouldBlock | WriteZero.
#[export] Instance t_eq_dec : EqDecision t.
Proof. solve_decision. Defined.
End AxError.
#[export] Existing Instance AxError.t_eq_dec.

(** [axerrno::LinuxError], the constructors the sources name and those an [AxError]
    may be turned into. *)
Module LinuxError.
Inductive t : Type :=
| EACCES | EAGAIN | EBADF | EDEADLK | EEXIST | EFAULT | EINTR | EINVAL | EISCONN | EMFILE
| ENOENT | ENOMEM | ENOSYS | EOPNOTSUPP | EPERM | ERANGE
| EADDRINUSE | EBUSY | ECONNREFUSED | ECONNRESET | EIO | EISDIR | ENOSPC | ENOTCONN | ENOTDIR | ENOTEMPTY.
#[export] Instance t_eq_dec : EqDecision t.
Proof. solve_decision. Defined.
End LinuxError.
#[export] Existing Instance LinuxError.t_eq_dec.

(** * A state, error and panic monad *)

(** A method on [&mut self] that returns a [Result]: the state it leaves behind
    is kept on both the [Ok] and the [Err] path, as Rust does not roll back. *)
Definition SM (S E A : Type) : Type := S → outcome (result A E * S).

Definition sm_ret {S E A} (a : A) : SM S E A := λ s, Ret (Ok a, s).
Definition sm_err {S E A} (e : E) : SM S E A := λ s, Ret (Err e, s).
Definition sm_panic {S E A} : SM S E A := λ _, Panic.
Definition sm_bind {S E A B} (m : SM S E A) (f : A → SM S E B) : SM S E B := λ s,
  match m s with
  | Ret (Ok a, s') => f a s'
  | Ret (Err e, s') => Ret (Err e, s')
  | Panic => Panic
  end.
(** Run [m] and look at its [Result] instead of propagating it. *)
Definition sm_catch {S E F A B} (m : SM S E A) (f : result A E → SM S F B) : SM S F B := λ s,
  match m s with
  | Ret (r, s') => f r s'
  | Panic => Panic
  end.
Definition sm_get {S E} : SM S E S := λ s, Ret (Ok s, s).
Definition sm_put {S E} (s : S) : SM S E unit := λ _, Ret (Ok tt, s).
Definition sm_modify {S E} (f : S → S) : SM S E unit := λ s, Ret (Ok tt, f s).
Definition sm_lift {S E A} (r : result A E) : SM S E A := λ s, Ret (r, s).

Declare Scope kernel_scope.
Delimit Scope kernel_scope with kernel.

(** [let? x := r in k] is Rust's [let x = r?; k] on a pure result. *)
Notation "'let?' x ':=' r 'in' k" :=
  (match r with Ok x => k | Err e_ => Err e_ end)
  (at level 10, x pattern, r at level 100, k at level 200) : kernel_scope.
(** [let! x := m in k] is the same in the state monad. *)
Notation "'let!' x ':=' m 'in' k" := (sm_bind m (λ x, k))
  (at level 10, x name, m at level 100, k at level 200) : kernel_scope.
Notation "'do!' m 'in' k" := (sm_bind m (λ _, k))
  (at level 10, m at level 100, k at level 200) : kernel_scope.

(** * Machine integers *)

(** [usize]/[u64] values are [Z]s below [2^64].  The kernel is built with the
    release profile, where [+], [-] and [*] wrap around. *)
Definition usize_mod : Z := 2 ^ 64.
Definition usize_max : Z := 2 ^ 64 - 1.
Definition in_usize (x : Z) : Prop := (0 ≤ x < 2 ^ 64)%Z.

Section machine_ints.
Local Open Scope Z_scope.

Definition wrap (x : Z) : Z := x mod 2 ^ 64.
Definition uadd (x y : Z) : Z := wrap (x + y).
Definition usub (x y : Z) : Z := wrap (x - y).
Definition umul (x y : Z) : Z := wrap (x * y).
Definition checked_add (x y : Z) : option Z :=
  if x + y <? 2 ^ 64 then Some (x + y) else None.
Definition checked_sub (x y : Z) : option Z :=
  if y <=? x then Some (x - y) else None.
Definition checked_mul (x y : Z) : option Z :=
  if x * y <? 2 ^ 64 then Some (x * y) else None.
(** [u64::checked_add_signed]. *)
Definition checked_add_signed (x off : Z) : option Z :=
  if (0 <=? x + off) && (x + off <? 2 ^ 64) then Some (x + off) else None.
Definition saturating_sub (x y : Z) : Z := if y <=? x then x - y else 0.
Definition saturating_add (x y : Z) : Z := if x + y <? 2 ^ 64 then x + y else 2 ^ 64 - 1.
(** 64-bit complement: the bits [0..63] that are not set in [x]. *)
Definition unot (x : Z) : Z := Z.ldiff (Z.ones 64) x.
(** A [usize] reinterpreted as [isize], and an [i32] sign-extended to [usize]. *)
Definition to_signed (w x : Z) : Z :=
  let y := x mod 2 ^ w in if y <? 2 ^ (w - 1) then y else y - 2 ^ w.

(** [x % y] panics for [y = 0]. *)
Definition urem (x y : Z) : outcome Z := if y =? 0 then Panic else Ret (x mod y).

Definition is_pow2 (x : Z) : Prop := ∃ k, 0 ≤ k < 64 ∧ x = 2 ^ k.

End machine_ints.

(** * Automation *)

#[global] Arguments Nat.modulo : simpl never.
#[global] Arguments Nat.div : simpl never.

Create HintDb kernel.
#[export] Hint Unfold in_usize : kernel.

(** Case analysis on the integer comparisons a definition branches on. *)
Ltac case_Z1 :=
  match goal with
  | |- context [Z.leb ?a ?b] => destruct (Z.leb_spec a b)
  | |- context [Z.ltb ?a ?b] => destruct (Z.ltb_spec a b)
  | |- context [Z.eqb ?a ?b] => destruct (Z.eqb_spec a b)
  | H : context [Z.leb ?a ?b] |- _ => destruct (Z.leb_spec a b)
  | H : context [Z.ltb ?a ?b] |- _ => destruct (Z.ltb_spec a b)
  | H : context [Z.eqb ?a ?b] |- _ => destruct (Z.eqb_spec a b)
  end.
Ltac case_Z := repeat (case_Z1; simpl in *; simplify_eq/=).

Ltac case_nat1 :=
  match goal with
  | |- context [Nat.leb ?a ?b] => destruct (Nat.leb_spec a b)
  | |- context [Nat.ltb ?a ?b] => destruct (Nat.ltb_spec a b)
  | |- context [Nat.eqb ?a ?b] => destruct (Nat.eqb_spec a b)
  | H : context [Nat.leb ?a ?b] |- _ => destruct (Nat.leb_spec a b)
  | H : context [Nat.ltb ?a ?b] |- _ => destruct (Nat.ltb_spec a b)
  | H : context [Nat.eqb ?a ?b] |- _ => destruct (Nat.eqb_spec a b)
  end.
Ltac case_nat := repeat (case_nat1; simpl in *; simplify_eq/=).

(** Invert a monadic equation [m s = Ret (r, s')] one bind at a time. *)
Ltac inv_sm1 :=
  match goal with
  | H : sm_bind _ _ _ = Ret _ |- _ => unfold sm_bind at 1 in H
  | H : sm_catch _ _ _ = Ret _ |- _ => unfold sm_catch at 1 in H
  | H : match ?m with Ret _ => _ | Panic => _ end = Ret _ |- _ =>
      let E := fresh "Hm" in destruct m as [[[]]|] eqn:E; simplify_eq/=
  | H : Ret _ = Ret _ |- _ => simplify_eq/=
  | H : (sm_ret _) _ = Ret _ |- _ => unfold sm_ret in H
  | H : (sm_err _) _ = Ret _ |- _ => unfold sm_err in H
  | H : sm_panic _ = Ret _ |- _ => discriminate H
  | H : sm_get _ = Ret _ |- _ => unfold sm_get in H
  | H : (sm_put _) _ = Ret _ |- _ => unfold sm_put in H
  | H : (sm_modify _) _ = Ret _ |- _ => unfold sm_modify in H
  | H : (sm_lift _) _ = Ret _ |- _ => unfold sm_lift in H
  end.
Ltac inv_sm := repeat inv_sm1.

(** * Lemmas on machine integers *)

Section machine_int_lemmas.
Local Open Scope Z_scope.

Lemma wrap_range x : in_usize (wrap x).
Proof. unfold in_usize, wrap. apply Z.mod_pos_bound. lia. Qed.

Lemma wrap_small x : in_usize x → wrap x = x.
Proof. unfold in_usize, wrap. intros. apply Z.mod_small. lia. Qed.

Lemma uadd_small x y : 0 ≤ x → 0 ≤ y → x + y < 2 ^ 64 → uadd x y = x + y.
Proof. intros. apply wrap_small. unfold in_usize. lia. Qed.

Lemma usub_small x y : 0 ≤ y ≤ x → x < 2 ^ 64 → usub x y = x - y.
Proof. intros. apply wrap_small. unfold in_usize. lia. Qed.

Lemma land_ldiff_swap x a b : Z.land x (Z.ldiff a b) = Z.ldiff (Z.land x a) b.
Proof.
  apply Z.bits_inj'. intros n _.
  rewrite Z.ldiff_spec, !Z.land_spec, Z.ldiff_spec. apply andb_assoc.
Qed.

Lemma unot_land x k :
  in_usize x → 0 ≤ k → Z.land x (unot (2 ^ k - 1)) = x - x mod 2 ^ k.
Proof.
  unfold in_usize. intros Hx Hk.
  assert (Hones : 2 ^ k - 1 = Z.ones k) by (rewrite Z.ones_equiv; lia).
  unfold unot. rewrite Hones, land_ldiff_swap.
  rewrite Z.land_ones by lia. rewrite (Z.mod_small x (2 ^ 64)) by lia.
  rewrite Z.ldiff_ones_r by lia.
  rewrite Z.shiftr_div_pow2, Z.shiftl_mul_pow2 by lia.
  pose proof (Z.div_mod x (2 ^ k)). lia.
Qed.

Lemma is_pow2_pos a : is_pow2 a → 0 < a.
Proof. intros (k & ? & ->). lia. Qed.

Lemma is_pow2_range a : is_pow2 a → 1 ≤ a ≤ 2 ^ 63.
Proof.
  intros (k & ? & ->). split; [lia|]. apply Z.pow_le_mono_r; lia.
Qed.

Lemma pow2_max_divide a b : is_pow2 a → is_pow2 b → (a | Z.max a b).
Proof.
  intros (i & ? & ->) (j & ? & ->).
  destruct (Z.le_gt_cases (2 ^ i) (2 ^ j)) as [Hij|Hij].
  - rewrite Z.max_r by lia.
    assert (i ≤ j) by (apply (Z.pow_le_mono_r_iff 2); lia).
    exists (2 ^ (j - i)). rewrite <- Z.pow_add_r by lia. f_equal. lia.
  - rewrite Z.max_l by lia. apply Z.divide_refl.
Qed.

Lemma pow2_max a b : is_pow2 a → is_pow2 b → is_pow2 (Z.max a b).
Proof. intros. destruct (Z.max_spec a b) as [[? ->]|[? ->]]; done. Qed.

End machine_int_lemmas.

#[export] Hint Resolve wrap_range is_pow2_pos pow2_max pow2_max_divide : kernel.

(** * Lemmas on the monad *)

Lemma sm_bind_ret {S E A B} (a : A) (f : A → SM S E B) s :
  sm_bind (sm_ret a) f s = f a s.
Proof. done. Qed.

Lemma sm_bind_assoc {S E A B C} (m : SM S E A) (f : A → SM S E B) (g : B → SM S E C) s :
  sm_bind (sm_bind m f) g s = sm_bind m (λ a, sm_bind (f a) g) s.
Proof. unfold sm_bind. destruct (m s) as [[[]]|]; done. Qed.

Lemma sm_get_bind {S E A} (f : S → SM S E A) s : sm_bind sm_get f s = f s s.
Proof. done. Qed.

Lemma sm_bind_inv {S E A B} (m : SM S E A) (f : A → SM S E B) s r s' :
  sm_bind m f s = Ret (r, s') →
  (∃ a s1, m s = Ret (Ok a, s1) ∧ f a s1 = Ret (r, s')) ∨ (∃ e, m s = Ret (Err e, s') ∧ r = Err e).
Proof. unfold sm_bind. destruct (m s) as [[[a|e] s1]|]; intros H; simplify_eq; [left|right]; by repeat eexists. Qed.

Lemma sm_catch_inv {S E F A B} (m : SM S E A) (f : result A E → SM S F B) s r s' :
  sm_catch m f s = Ret (r, s') → ∃ a s1, m s = Ret (a, s1) ∧ f a s1 = Ret (r, s').
Proof. unfold sm_catch. destruct (m s) as [[a s1]|]; intros H; simplify_eq. by repeat eexists. Qed.

(** * Lemmas on lists *)

Lemma take_min_length {A} (l : list A) n : take (length l `min` n) l = take n l.
Proof.
  destruct (Nat.le_ge_cases n (length l)); [by rewrite Nat.min_r by done|].
  rewrite Nat.min_l by done. by rewrite !take_ge by lia.
Qed.

Lemma drop_min_length {A} (l : list A) n : drop (length l `min` n) l = drop n l.
Proof.
  destruct (Nat.le_ge_cases n (length l)); [by rewrite Nat.min_r by done|].
  rewrite Nat.min_l by done. by rewrite !drop_ge by lia.
Qed.

Lemma find_app {A} (f : A → bool) (l1 l2 : list A) :
  List.find f (l1 ++ l2) = match List.find f l1 with Some x => Some x | None => List.find f l2 end.
Proof. induction l1 as [|x l1 IH]; simpl; [done|]. by destruct (f x). Qed.

(** * Pairwise relations on the elements of a list *)

Abbreviation pairwise := ForallOrdPairs.

Lemma pairwise_cons {A} (R : A → A → Prop) x l :
  pairwise R (x :: l) ↔ (∀ y, y ∈ l → R x y) ∧ pairwise R l.
Proof.
  split.
  - intros Hp. inversion Hp as [|? ? Hx Hl]; subst. split; [|done]. by apply Forall_forall.
  - intros [Hx Hl]. constructor; [by apply Forall_forall|done].
Qed.

Lemma pairwise_perm {A} (R : A → A → Prop) `{!Symmetric R} l l' :
  l ≡ₚ l' → pairwise R l → pairwise R l'.
Proof.
  intros Hp. induction Hp as [|x l l' Hp IH|x y l|l1 l2 l3 _ IH1 _ IH2]; try tauto.
  - rewrite !pairwise_cons. intros [Hx Hl]. split; [|by apply IH]. intros y. rewrite <- Hp. apply Hx.
  - rewrite !pairwise_cons. intros (Hy & Hx & Hl). split_and!; [|set_solver|done].
    intros z [->|Hz]%elem_of_cons; [|by apply Hx]. symmetry. apply Hy. by left.
Qed.

Lemma pairwise_app_cross {A} (R : A → A → Prop) l1 l2 x y :
  pairwise R (l1 ++ l2) → x ∈ l1 → y ∈ l2 → R x y.
Proof.
  induction l1 as [|z l1 IH]; simpl; [intros _ Hx; by apply not_elem_of_nil in Hx|].
  rewrite pairwise_cons. intros [Hz Hl] [->|Hx]%elem_of_cons Hy; [apply Hz; set_solver|by apply IH].
Qed.

Lemma pairwise_app_l {A} (R : A → A → Prop) l1 l2 : pairwise R (l1 ++ l2) → pairwise R l1.
Proof.
  induction l1 as [|z l1 IH]; simpl; [constructor|]. rewrite !pairwise_cons. intros [Hz Hl].
  split; [set_solver|by apply IH].
Qed.
