(* ===== verification/Bump.v ===== *)
(** The early ("bump") allocator of [modules/bump_allocator] and the global
    allocator [modules/alt_axalloc] built on it.

    [EarlyAllocator] is the Rust struct without its arena bytes, which the
    allocator never reads or writes: the arena is its address [arena] and its
    length [SIZE].  Offsets into the arena are what the struct stores; addresses
    are what it returns. *)

From S2P Require Import Prelude.
From stdpp Require Import prelude gmap strings.
From Stdlib Require Import ZArith Lia.
Local Open Scope Z_scope.

(** ** Data *)

(** [allocator::AllocError], the constructors the sources name. *)
Inductive AllocError : Type :=
| InvalidParam
| MemoryOverlap
| NoMemory
| NotAllocated.

(** [core::alloc::Layout] and the invariant its constructors establish. *)
Record Layout : Type := { layout_size : Z; layout_align : Z }.

Definition layout_valid (l : Layout) : Prop :=
  is_pow2 (layout_align l) ∧ 0 ≤ layout_size l ∧ layout_size l + layout_align l ≤ 2 ^ 63.

Record EarlyAllocator : Type := {
  b_start : Z;
  b_pos : Z;
  p_pos : Z;
  p_end : Z;
  b_count : Z;
}.

Definition PAGE_SIZE : Z := 4096.

Definition align_down (pos align : Z) : Z := Z.land pos (unot (usub align 1)).

Definition align_up (pos align : Z) : Z :=
  Z.land (usub (uadd pos align) 1) (unot (usub align 1)).

(** ** Operations of [EarlyAllocator<SIZE>] *)

Section early_allocator.
(** [SIZE] is the const generic, [arena] the address of the [arena] field. *)
Context (SIZE arena : Z).

Definition new : EarlyAllocator :=
  {| b_start := 0; b_pos := 0; p_pos := SIZE; p_end := 0; b_count := 0 |}.

(** [init] ignores its two arguments; the [assert!(end <= SIZE)] compares
    [SIZE] with itself. *)
Definition init (_start _size : Z) (s : EarlyAllocator) : outcome EarlyAllocator :=
  let start := 0 in
  let end_ := SIZE in
  if end_ <=? SIZE then
    Ret {| b_start := start; b_pos := start; p_pos := end_; p_end := end_; b_count := 0 |}
  else Panic.

Definition add_memory (start size : Z) (s : EarlyAllocator) :
    result unit AllocError * EarlyAllocator := (Err InvalidParam, s).

Definition alloc (layout : Layout) (s : EarlyAllocator) :
    result Z AllocError * EarlyAllocator :=
  let aligned_b_pos := align_up (b_pos s) (layout_align layout) in
  match checked_add aligned_b_pos (layout_size layout) with
  | None => (Err NoMemory, s)
  | Some new_b_pos =>
      if p_pos s <? new_b_pos then (Err NoMemory, s)
      else
        (Ok (uadd arena aligned_b_pos),
         {| b_start := b_start s; b_pos := new_b_pos; p_pos := p_pos s; p_end := p_end s;
            b_count := uadd (b_count s) 1 |})
  end.

Definition dealloc (pos : Z) (layout : Layout) (s : EarlyAllocator) : EarlyAllocator :=
  if b_count s =? 0 then s
  else
    let c := usub (b_count s) 1 in
    {| b_start := b_start s;
       b_pos := if c =? 0 then b_start s else b_pos s;
       p_pos := p_pos s; p_end := p_end s; b_count := c |}.

Definition total_bytes (s : EarlyAllocator) : Z := usub (p_end s) (b_start s).

Definition used_bytes (s : EarlyAllocator) : Z :=
  uadd (usub (b_pos s) (b_start s)) (usub (p_end s) (p_pos s)).

Definition available_bytes (s : EarlyAllocator) : Z := saturating_sub (p_pos s) (b_pos s).

Definition alloc_pages (num_pages align_pow2 : Z) (s : EarlyAllocator) :
    result Z AllocError * EarlyAllocator :=
  if num_pages =? 0 then (Err NoMemory, s)
  else match checked_mul num_pages PAGE_SIZE with
  | None => (Err NoMemory, s)
  | Some total_size =>
      let align := Z.max PAGE_SIZE align_pow2 in
      match checked_sub (p_pos s) total_size with
      | None => (Err NoMemory, s)
      | Some new_p_pos_unaligned =>
          let new_p_pos_aligned := align_down new_p_pos_unaligned align in
          if new_p_pos_aligned <? b_pos s then (Err NoMemory, s)
          else
            (Ok (uadd arena new_p_pos_aligned),
             {| b_start := b_start s; b_pos := b_pos s; p_pos := new_p_pos_aligned;
                p_end := p_end s; b_count := b_count s |})
      end
  end.

Definition dealloc_pages (pos num_pages : Z) (s : EarlyAllocator) : EarlyAllocator :=
  if num_pages =? 0 then s
  else match checked_mul num_pages PAGE_SIZE with
  | None => s
  | Some total_size =>
      let arena_base := arena in
      let arena_end := uadd arena_base SIZE in
      if (pos <? arena_base) || (arena_end <? uadd pos total_size) then s
      else
        let offset := usub pos arena_base in
        if offset =? p_pos s then
          let new_pos := saturating_add offset total_size in
          {| b_start := b_start s; b_pos := b_pos s; p_pos := Z.min new_pos (p_end s);
             p_end := p_end s; b_count := b_count s |}
        else s
  end.

Definition total_pages (s : EarlyAllocator) : Z := usub (p_end s) (b_start s) / PAGE_SIZE.
Definition used_pages (s : EarlyAllocator) : Z := usub (p_end s) (p_pos s) / PAGE_SIZE.
Definition available_pages (s : EarlyAllocator) : Z :=
  saturating_sub (p_pos s) (b_pos s) / PAGE_SIZE.

(** ** The allocator and what its clients hold *)

(** The blocks clients hold, by arena offset: live byte blocks and live page
    blocks, each with its length in bytes. *)
Record heap : Type := {
  allocator : EarlyAllocator;
  live_bytes : gmap Z Z;
  live_pages : gmap Z Z;
}.

(** One call by a client that follows the contract of the traits: layouts are
    valid and not empty, and only a block the client holds is given back. *)
Inductive heap_step : heap → heap → Prop :=
| step_alloc_ok a bs ps layout p a' :
    layout_valid layout → 0 < layout_size layout →
    alloc layout a = (Ok p, a') →
    heap_step {| allocator := a; live_bytes := bs; live_pages := ps |}
              {| allocator := a'; live_bytes := <[p - arena := layout_size layout]> bs; live_pages := ps |}
| step_alloc_err a bs ps layout e a' :
    layout_valid layout →
    alloc layout a = (Err e, a') →
    heap_step {| allocator := a; live_bytes := bs; live_pages := ps |}
              {| allocator := a'; live_bytes := bs; live_pages := ps |}
| step_dealloc a bs ps p layout :
    bs !! (p - arena) = Some (layout_size layout) →
    heap_step {| allocator := a; live_bytes := bs; live_pages := ps |}
              {| allocator := dealloc p layout a; live_bytes := delete (p - arena) bs;
                 live_pages := ps |}
| step_alloc_pages_ok a bs ps n al p a' :
    0 ≤ n → is_pow2 al →
    alloc_pages n al a = (Ok p, a') →
    heap_step {| allocator := a; live_bytes := bs; live_pages := ps |}
              {| allocator := a'; live_bytes := bs;
                 live_pages := <[p - arena := n * PAGE_SIZE]> ps |}
| step_alloc_pages_err a bs ps n al e a' :
    0 ≤ n → is_pow2 al →
    alloc_pages n al a = (Err e, a') →
    heap_step {| allocator := a; live_bytes := bs; live_pages := ps |}
              {| allocator := a'; live_bytes := bs; live_pages := ps |}
| step_dealloc_pages a bs ps p n :
    ps !! (p - arena) = Some (n * PAGE_SIZE) →
    heap_step {| allocator := a; live_bytes := bs; live_pages := ps |}
              {| allocator := dealloc_pages p n a; live_bytes := bs;
                 live_pages := delete (p - arena) ps |}.

(** The heap after [new] and [init]. *)
Definition initial : heap :=
  {| allocator := {| b_start := 0; b_pos := 0; p_pos := SIZE; p_end := SIZE; b_count := 0 |};
     live_bytes := ∅; live_pages := ∅ |}.

Definition blocks_disjoint (m : gmap Z Z) : Prop :=
  ∀ o1 n1 o2 n2, m !! o1 = Some n1 → m !! o2 = Some n2 → o1 ≠ o2 →
    o1 + n1 ≤ o2 ∨ o2 + n2 ≤ o1.

Definition blocks_within (lo hi : Z) (m : gmap Z Z) : Prop :=
  ∀ o n, m !! o = Some n → lo ≤ o ∧ 0 < n ∧ o + n ≤ hi.

(** The double-ended layout of the arena: [0 <= b_pos <= p_pos <= SIZE]. *)
Definition early_wf (s : EarlyAllocator) : Prop :=
  b_start s = 0 ∧ 0 ≤ b_pos s ≤ p_pos s ∧ p_pos s ≤ SIZE ∧ p_end s = SIZE ∧
  0 ≤ b_count s ≤ b_pos s ∧ (b_count s = 0 → b_pos s = 0).

Definition heap_inv (h : heap) : Prop :=
  early_wf (allocator h) ∧
  b_count (allocator h) = Z.of_nat (size (live_bytes h)) ∧
  blocks_within 0 (b_pos (allocator h)) (live_bytes h) ∧
  blocks_disjoint (live_bytes h) ∧
  blocks_within (p_pos (allocator h)) SIZE (live_pages h) ∧
  blocks_disjoint (live_pages h).

End early_allocator.

(** ** [modules/alt_axalloc]: the global allocator over [EarlyAllocator] *)

Definition HEAP_SIZE : Z := 96 * 1024 * 1024.

(** [GlobalAllocator::new]; the [SpinNoIrq] lock makes each method below one
    atomic step on the wrapped allocator. *)
Definition global_new : EarlyAllocator := new HEAP_SIZE.

Definition global_name : string := "early".

Definition global_init_method (start_vaddr size : Z) (s : EarlyAllocator) : outcome EarlyAllocator :=
  init HEAP_SIZE start_vaddr size s.

Definition global_add_memory_method (_start_vaddr _size : Z) (s : EarlyAllocator) :
    outcome (result unit AllocError * EarlyAllocator) := Panic.

Section alt_global_allocator.
Context (arena : Z).

Definition global_alloc_method (layout : Layout) : EarlyAllocator → result Z AllocError * EarlyAllocator :=
  alloc arena layout.
Definition global_dealloc_method (pos : Z) (layout : Layout) : EarlyAllocator → EarlyAllocator :=
  dealloc pos layout.
Definition global_alloc_pages_method (num_pages align_pow2 : Z) :
    EarlyAllocator → result Z AllocError * EarlyAllocator :=
  alloc_pages arena num_pages align_pow2.
Definition global_dealloc_pages_method (pos num_pages : Z) : EarlyAllocator → EarlyAllocator :=
  dealloc_pages HEAP_SIZE arena pos num_pages.

(** The [GlobalAlloc] impl: a failed allocation calls [handle_alloc_error],
    a null pointer given back panics. *)
Definition GlobalAlloc_alloc (layout : Layout) (s : EarlyAllocator) : outcome (Z * EarlyAllocator) :=
  match global_alloc_method layout s with
  | (Ok ptr, s') => Ret (ptr, s')
  | (Err _, _) => Panic
  end.
Definition GlobalAlloc_dealloc (ptr : Z) (layout : Layout) (s : EarlyAllocator) : outcome EarlyAllocator :=
  if ptr =? 0 then Panic else Ret (global_dealloc_method ptr layout s).

End alt_global_allocator.

Definition global_init (start_vaddr size : Z) (s : EarlyAllocator) : outcome EarlyAllocator :=
  global_init_method start_vaddr size s.
Definition global_add_memory (_start_vaddr _size : Z) (s : EarlyAllocator) :
    outcome (result unit AllocError * EarlyAllocator) := Panic.

(** ** Lemmas *)

Lemma align_down_eq pos a : in_usize pos → is_pow2 a → align_down pos a = pos - pos mod a.
Proof.
  intros Hp Ha. pose proof (is_pow2_range a Ha). destruct Ha as (k & Hk & ->).
  unfold align_down. rewrite usub_small by lia. apply unot_land; [done|lia].
Qed.

Lemma align_down_spec pos a :
  in_usize pos → is_pow2 a →
  (a | align_down pos a) ∧ 0 ≤ align_down pos a ≤ pos ∧ pos < align_down pos a + a.
Proof.
  intros Hp Ha. rewrite align_down_eq by done.
  pose proof (is_pow2_pos a Ha). unfold in_usize in Hp.
  pose proof (Z.mod_pos_bound pos a). pose proof (Z.mod_le pos a).
  split; [|lia]. exists (pos / a). pose proof (Z.div_mod pos a). lia.
Qed.

Lemma align_up_spec pos a :
  0 ≤ pos → is_pow2 a → pos + a < 2 ^ 64 →
  (a | align_up pos a) ∧ pos ≤ align_up pos a < pos + a.
Proof.
  intros Hp Ha Hlt. pose proof (is_pow2_range a Ha).
  assert (align_up pos a = align_down (pos + a - 1) a) as ->.
  { unfold align_up, align_down. by rewrite uadd_small, (usub_small (pos + a)) by lia. }
  pose proof (align_down_spec (pos + a - 1) a) as [? ?]; [unfold in_usize; lia|done|].
  split; [done|lia].
Qed.

Lemma align_up_aligned pos a :
  0 ≤ pos → is_pow2 a → pos + a < 2 ^ 64 → (a | pos) → align_up pos a = pos.
Proof.
  intros Hp Ha Hlt [q Hq]. destruct (align_up_spec pos a) as [[r Hr] ?]; [done..|].
  pose proof (is_pow2_pos a Ha). rewrite Hr in *. subst pos.
  assert (r = q) by nia. by subst.
Qed.

Lemma align_down_aligned pos a :
  in_usize pos → is_pow2 a → (a | pos) → align_down pos a = pos.
Proof.
  intros Hp Ha Hd. rewrite align_down_eq by done.
  apply Z.mod_divide in Hd; [lia|]. pose proof (is_pow2_pos a Ha). lia.
Qed.

Lemma page_size_pow2 : is_pow2 PAGE_SIZE.
Proof. exists 12. done. Qed.
#[export] Hint Resolve page_size_pow2 : kernel.

Lemma blocks_within_weaken lo hi lo' hi' m :
  blocks_within lo hi m → lo' ≤ lo → hi ≤ hi' → blocks_within lo' hi' m.
Proof. intros H ? ? o n Hn. specialize (H o n Hn). lia. Qed.

Lemma blocks_within_insert lo hi m o n :
  blocks_within lo hi m → lo ≤ o → 0 < n → o + n ≤ hi → blocks_within lo hi (<[o:=n]> m).
Proof.
  intros H ? ? ? o' n'. rewrite lookup_insert. case_decide; [intros; simplify_eq; lia|apply H].
Qed.

Lemma blocks_within_delete lo hi m o : blocks_within lo hi m → blocks_within lo hi (delete o m).
Proof. intros H o' n' [_ ?]%lookup_delete_Some. by apply H. Qed.

Lemma blocks_disjoint_delete m o : blocks_disjoint m → blocks_disjoint (delete o m).
Proof.
  intros H o1 n1 o2 n2 [_ ?]%lookup_delete_Some [_ ?]%lookup_delete_Some. by apply H.
Qed.

(** A block below or above every block of [m] keeps [m] disjoint. *)
Lemma blocks_disjoint_insert m o n :
  blocks_disjoint m →
  (∀ o' n', m !! o' = Some n' → o' ≠ o → o' + n' ≤ o ∨ o + n ≤ o') →
  blocks_disjoint (<[o:=n]> m).
Proof.
  intros Hd Hout o1 n1 o2 n2. rewrite !lookup_insert. intros H1 H2 Hne.
  destruct (decide (o = o1)), (decide (o = o2)); simplify_eq.
  - apply or_comm. eapply Hout; [done|congruence].
  - eapply Hout; [done|congruence].
  - by eapply Hd.
Qed.

#[export] Hint Resolve blocks_within_insert blocks_within_delete blocks_disjoint_delete : kernel.

Section early_proofs.
Context (SIZE arena : Z).
(** The arena is a static object: it is not empty, smaller than [isize::MAX],
    not at address 0 and does not wrap around the address space. *)
Hypothesis arena_ok : 0 < SIZE < 2 ^ 63 ∧ 0 < arena ∧ arena + SIZE < 2 ^ 64.

Abbreviation wf := (early_wf SIZE).

Lemma alloc_eq layout s :
  wf s → layout_valid layout →
  alloc arena layout s =
    let a := align_up (b_pos s) (layout_align layout) in
    if a + layout_size layout <=? p_pos s then
      (Ok (arena + a),
       {| b_start := b_start s; b_pos := a + layout_size layout; p_pos := p_pos s;
          p_end := p_end s; b_count := b_count s + 1 |})
    else (Err NoMemory, s).
Proof.
  intros (? & ? & ? & ? & ? & ?) (Ha & ? & ?). pose proof (is_pow2_range _ Ha).
  destruct (align_up_spec (b_pos s) (layout_align layout)) as [_ ?]; [lia|done|lia|].
  unfold alloc, checked_add. cbv zeta. case_Z; try lia; try done.
  rewrite !uadd_small by lia. done.
Qed.

Lemma alloc_pages_eq n al s :
  wf s → 0 ≤ n → is_pow2 al →
  alloc_pages arena n al s =
    if (n =? 0) || (p_pos s <? n * PAGE_SIZE) then (Err NoMemory, s)
    else
      let a := align_down (p_pos s - n * PAGE_SIZE) (Z.max PAGE_SIZE al) in
      if a <? b_pos s then (Err NoMemory, s)
      else (Ok (arena + a),
            {| b_start := b_start s; b_pos := b_pos s; p_pos := a;
               p_end := p_end s; b_count := b_count s |}).
Proof.
  intros (? & ? & ? & ? & ? & ?) ? Ha.
  unfold alloc_pages, checked_mul, checked_sub. cbv zeta.
  destruct (Z.eqb_spec n 0) as [->|]; [done|]. simpl.
  case_Z; try lia; try done.
  destruct (align_down_spec (p_pos s - n * PAGE_SIZE) (Z.max PAGE_SIZE al)) as [_ ?];
    [unfold in_usize; unfold PAGE_SIZE in *; lia|auto with kernel|].
  rewrite uadd_small by (unfold PAGE_SIZE in *; lia). done.
Qed.

Lemma dealloc_pages_eq off n s :
  wf s → 0 < n → 0 ≤ off → off + n * PAGE_SIZE ≤ SIZE →
  dealloc_pages SIZE arena (arena + off) n s =
    if off =? p_pos s then
      {| b_start := b_start s; b_pos := b_pos s; p_pos := off + n * PAGE_SIZE;
         p_end := p_end s; b_count := b_count s |}
    else s.
Proof.
  intros (? & ? & ? & He & ? & ?) ? ? ?.
  unfold dealloc_pages, checked_mul, saturating_add, PAGE_SIZE in *. cbv zeta.
  assert (usub (arena + off) arena = off) as -> by (rewrite usub_small; lia).
  assert (uadd arena SIZE = arena + SIZE) as -> by (apply uadd_small; lia).
  destruct (Z.ltb_spec (n * 4096) (2 ^ 64)); [|lia].
  rewrite uadd_small by lia. rewrite He.
  case_Z; try lia; try done. rewrite Z.min_l by lia. done.
Qed.

Lemma dealloc_eq p layout s :
  wf s →
  dealloc p layout s =
    {| b_start := b_start s;
       b_pos := if b_count s <=? 1 then (if b_count s =? 0 then b_pos s else b_start s) else b_pos s;
       p_pos := p_pos s; p_end := p_end s; b_count := Z.max 0 (b_count s - 1) |}.
Proof.
  intros (? & ? & ? & ? & ? & ?). unfold dealloc. destruct s as [bs bp pp pe bc]. simpl in *.
  destruct (Z.eqb_spec bc 0) as [->|]; [done|].
  rewrite usub_small by lia. rewrite Z.max_r by lia. case_Z; try lia; done.
Qed.

(** *** Preservation, one lemma per operation *)

Lemma alloc_wf layout s r s' :
  wf s → layout_valid layout → 0 < layout_size layout →
  alloc arena layout s = (r, s') → wf s'.
Proof.
  intros Hwf Hl Hpos. rewrite alloc_eq by done. cbv zeta.
  pose proof Hwf as (? & ? & ? & ? & ? & ?). pose proof Hl as (Ha & ? & ?).
  pose proof (is_pow2_range _ Ha).
  destruct (align_up_spec (b_pos s) (layout_align layout)) as [_ ?]; [lia|done|lia|].
  case_Z; intros; simplify_eq; [|done]. repeat split; simpl; lia.
Qed.

Lemma alloc_pages_wf n al s r s' :
  wf s → 0 ≤ n → is_pow2 al → alloc_pages arena n al s = (r, s') → wf s'.
Proof.
  intros Hwf Hn Ha. rewrite alloc_pages_eq by done. cbv zeta.
  pose proof Hwf as (? & ? & ? & ? & ? & ?).
  destruct (_ || _) eqn:Hb; [by intros; simplify_eq|].
  apply orb_false_iff in Hb as [? Hb%Z.ltb_ge].
  destruct (align_down_spec (p_pos s - n * PAGE_SIZE) (Z.max PAGE_SIZE al)) as [_ ?];
    [unfold in_usize; unfold PAGE_SIZE in *; lia|auto with kernel|].
  case_Z; intros; simplify_eq; [done|]. repeat split; simpl; unfold PAGE_SIZE in *; lia.
Qed.

Lemma dealloc_wf p layout s : wf s → wf (dealloc p layout s).
Proof.
  intros Hwf. rewrite dealloc_eq by done. pose proof Hwf as (? & ? & ? & ? & ? & ?).
  unfold early_wf; simpl. case_Z; lia.
Qed.

Lemma heap_inv_alloc a bs ps layout p a' :
  heap_inv SIZE {| allocator := a; live_bytes := bs; live_pages := ps |} →
  layout_valid layout → 0 < layout_size layout → alloc arena layout a = (Ok p, a') →
  heap_inv SIZE {| allocator := a'; live_bytes := <[p - arena := layout_size layout]> bs;
                   live_pages := ps |}.
Proof.
  intros (Hwf & Hc & Hb & Hbd & Hp & Hpd) Hl Hpos Ha. unfold heap_inv in *; simpl in *.
  pose proof (alloc_wf _ _ _ _ Hwf Hl Hpos Ha) as Hwf'.
  rewrite alloc_eq in Ha by done. cbv zeta in Ha.
  pose proof Hwf as (? & ? & ? & ? & ? & ?). pose proof Hl as (Hal & ? & ?).
  pose proof (is_pow2_range _ Hal).
  destruct (align_up_spec (b_pos a) (layout_align layout)) as [_ ?]; [lia|done|lia|].
  destruct (Z.leb_spec (align_up (b_pos a) (layout_align layout) + layout_size layout) (p_pos a));
    simplify_eq.
  set (off := align_up _ _) in *.
  replace (arena + off - arena) with off by lia. simpl in *.
  assert (bs !! off = None) as Hfresh.
  { destruct (bs !! off) eqn:E; [|done]. specialize (Hb _ _ E). lia. }
  split_and!; try done.
  - rewrite map_size_insert_None by done. lia.
  - apply blocks_within_insert; try lia. eapply blocks_within_weaken; [done|lia..].
  - apply blocks_disjoint_insert; [done|]. intros o' n' E _. specialize (Hb _ _ E). lia.
Qed.

Lemma heap_inv_dealloc a bs ps p layout :
  heap_inv SIZE {| allocator := a; live_bytes := bs; live_pages := ps |} →
  bs !! (p - arena) = Some (layout_size layout) →
  heap_inv SIZE {| allocator := dealloc p layout a; live_bytes := delete (p - arena) bs;
                   live_pages := ps |}.
Proof.
  intros (Hwf & Hc & Hb & Hbd & Hp & Hpd) Hl. unfold heap_inv in *; simpl in *.
  assert (size (delete (p - arena) bs) = pred (size bs)) as Hsz.
  { apply map_size_delete_Some. by eexists. }
  assert (size bs ≠ 0%nat).
  { intros E%map_size_empty_inv. subst. by rewrite lookup_empty in Hl. }
  pose proof (dealloc_wf p layout a Hwf) as Hwf'. rewrite dealloc_eq in * by done. simpl.
  split_and!; auto with kernel; [lia|].
  destruct (Z.leb_spec (b_count a) 1); [|by apply blocks_within_delete].
  destruct (Z.eqb_spec (b_count a) 0); [by apply blocks_within_delete|].
  assert (size (delete (p - arena) bs) = 0%nat) as ->%map_size_empty_inv by lia.
  intros o k. by rewrite lookup_empty.
Qed.

Lemma heap_inv_alloc_pages a bs ps n al p a' :
  heap_inv SIZE {| allocator := a; live_bytes := bs; live_pages := ps |} →
  0 ≤ n → is_pow2 al → alloc_pages arena n al a = (Ok p, a') →
  heap_inv SIZE {| allocator := a'; live_bytes := bs;
                   live_pages := <[p - arena := n * PAGE_SIZE]> ps |}.
Proof.
  intros (Hwf & Hc & Hb & Hbd & Hp & Hpd) Hn Hal Ha. unfold heap_inv in *; simpl in *.
  pose proof (alloc_pages_wf _ _ _ _ _ Hwf Hn Hal Ha) as Hwf'.
  rewrite alloc_pages_eq in Ha by done. cbv zeta in Ha.
  pose proof Hwf as (? & ? & ? & ? & ? & ?).
  destruct (_ || _) eqn:Hor; [done|]. apply orb_false_iff in Hor as [Hn0%Z.eqb_neq Hor%Z.ltb_ge].
  destruct (align_down_spec (p_pos a - n * PAGE_SIZE) (Z.max PAGE_SIZE al)) as [_ ?];
    [unfold in_usize; unfold PAGE_SIZE in *; lia|auto with kernel|].
  set (off := align_down _ _) in *. case_Z; simplify_eq.
  replace (arena + off - arena) with off by lia. simpl in *. unfold PAGE_SIZE in *.
  split_and!; try done.
  - apply blocks_within_insert; try lia. eapply blocks_within_weaken; [done|lia..].
  - apply blocks_disjoint_insert; [done|]. intros o' n' E _. specialize (Hp _ _ E). lia.
Qed.

Lemma heap_inv_dealloc_pages a bs ps p n :
  heap_inv SIZE {| allocator := a; live_bytes := bs; live_pages := ps |} →
  ps !! (p - arena) = Some (n * PAGE_SIZE) →
  heap_inv SIZE {| allocator := dealloc_pages SIZE arena p n a; live_bytes := bs;
                   live_pages := delete (p - arena) ps |}.
Proof.
  intros (Hwf & Hc & Hb & Hbd & Hp & Hpd) Hl. unfold heap_inv in *; simpl in *.
  pose proof Hwf as (? & ? & ? & ? & ? & ?). pose proof (Hp _ _ Hl) as (? & ? & ?).
  remember (p - arena) as off eqn:Hoff. assert (p = arena + off) as -> by lia.
  assert (0 < n) by (unfold PAGE_SIZE in *; lia).
  rewrite dealloc_pages_eq by (done || lia).
  destruct (Z.eqb_spec off (p_pos a)) as [->|]; simpl.
  - split_and!; auto with kernel; [repeat split; simpl; lia|].
    intros o k [Hne Hk]%lookup_delete_Some. pose proof (Hp _ _ Hk).
    destruct (Hpd _ _ _ _ Hl Hk); [done|lia..].
  - split_and!; auto with kernel.
Qed.

Lemma heap_inv_initial : heap_inv SIZE (initial SIZE).
Proof.
  unfold heap_inv, initial, early_wf; simpl. rewrite map_size_empty.
  split_and!; try lia; repeat intro; by rewrite lookup_empty in *.
Qed.

Lemma heap_inv_step h h' : heap_inv SIZE h → heap_step SIZE arena h h' → heap_inv SIZE h'.
Proof.
  intros Hinv Hs. destruct Hs as [| a bs ps ly e a' Hl Ha | | | a bs ps n al e a' Hn Hal Ha |];
    eauto using heap_inv_alloc, heap_inv_dealloc, heap_inv_alloc_pages, heap_inv_dealloc_pages.
  - pose proof Hinv as (Hwf & _). simpl in Hwf. rewrite alloc_eq in Ha by done.
    cbv zeta in Ha. case_Z; simplify_eq; done.
  - pose proof Hinv as (Hwf & _). simpl in Hwf. rewrite alloc_pages_eq in Ha by done.
    cbv zeta in Ha. destruct (_ || _); [by simplify_eq|]. case_Z; simplify_eq; done.
Qed.

Lemma heap_inv_reachable h : rtc (heap_step SIZE arena) (initial SIZE) h → heap_inv SIZE h.
Proof.
  intros Hr. pose proof heap_inv_initial as Hi. revert Hi.
  induction Hr; eauto using heap_inv_step.
Qed.

End early_proofs.

(** ** Theorems *)

(** C20: memory safety of the early allocator.  Whatever sequence of allocations
    and deallocations clients make, the blocks they hold lie inside the arena,
    no two byte blocks and no two page blocks overlap, and every byte block ends
    before every page block starts; and once no byte block is held, the whole
    byte area is free again. *)
Theorem early_heap_safe SIZE arena h :
  0 < SIZE < 2 ^ 63 ∧ 0 < arena ∧ arena + SIZE < 2 ^ 64 →
  rtc (heap_step SIZE arena) (initial SIZE) h →
  blocks_disjoint (live_bytes h) ∧ blocks_disjoint (live_pages h) ∧
  blocks_within 0 SIZE (live_bytes h) ∧ blocks_within 0 SIZE (live_pages h) ∧
  (∀ o1 n1 o2 n2, live_bytes h !! o1 = Some n1 → live_pages h !! o2 = Some n2 → o1 + n1 ≤ o2) ∧
  (live_bytes h = ∅ → b_pos (allocator h) = b_start (allocator h)).
Proof.
  intros Har Hr. destruct (heap_inv_reachable _ _ Har h Hr) as (Hwf & Hc & Hb & Hbd & Hp & Hpd).
  destruct Hwf as (? & ? & ? & ? & ? & Hz).
  split_and!; try done.
  - eapply blocks_within_weaken; [done|lia..].
  - eapply blocks_within_weaken; [done|lia..].
  - intros o1 n1 o2 n2 L1 L2. specialize (Hb _ _ L1). specialize (Hp _ _ L2). lia.
  - intros He. rewrite He, map_size_empty in Hc. lia.
Qed.

Lemma early_heap_safe_witness :
  let h := {| allocator := {| b_start := 0; b_pos := 24; p_pos := 4096; p_end := 8192; b_count := 1 |};
              live_bytes := <[65536 - 65536 := 24]> ∅;
              live_pages := <[69632 - 65536 := 1 * PAGE_SIZE]> ∅ |} in
  rtc (heap_step 8192 65536) (initial 8192) h ∧ blocks_disjoint (live_bytes h).
Proof.
  intros h. assert (rtc (heap_step 8192 65536) (initial 8192) h) as Hr.
  { eapply rtc_l.
    { apply (step_alloc_ok 8192 65536 _ ∅ ∅ {| layout_size := 24; layout_align := 8 |} 65536
        {| b_start := 0; b_pos := 24; p_pos := 8192; p_end := 8192; b_count := 1 |});
        [repeat split; [by exists 3|simpl; lia..]|done|reflexivity]. }
    apply rtc_once. subst h. eapply (step_alloc_pages_ok 8192 65536 _ _ ∅ 1 4096 69632);
      [done|by exists 12|reflexivity]. }
  split; [exact Hr|]. eapply (early_heap_safe 8192 65536); [lia|exact Hr].
Defined.

(** byte allocation on every branch.  It succeeds exactly when the first
    aligned offset at or after [b_pos] leaves room below the page area, returns
    the address of that offset and counts the block; otherwise it reports
    [NoMemory] and changes nothing. *)
Theorem early_alloc_spec SIZE arena layout s :
  0 < SIZE < 2 ^ 63 ∧ 0 < arena ∧ arena + SIZE < 2 ^ 64 →
  early_wf SIZE s → layout_valid layout →
  ∃ a, (layout_align layout | a) ∧ b_pos s ≤ a < b_pos s + layout_align layout ∧
    ((a + layout_size layout ≤ p_pos s ∧
      alloc arena layout s =
        (Ok (arena + a),
         {| b_start := b_start s; b_pos := a + layout_size layout; p_pos := p_pos s;
            p_end := p_end s; b_count := b_count s + 1 |})) ∨
     (p_pos s < a + layout_size layout ∧ alloc arena layout s = (Err NoMemory, s))).
Proof.
  intros Har Hwf Hl. exists (align_up (b_pos s) (layout_align layout)).
  rewrite (alloc_eq SIZE arena) by done. cbv zeta.
  pose proof Hwf as (? & ? & ? & ? & ? & ?). pose proof Hl as (Ha & ? & ?).
  pose proof (is_pow2_range _ Ha).
  destruct (align_up_spec (b_pos s) (layout_align layout)) as [? ?]; [lia|done|lia|].
  split; [done|]. split; [done|]. case_Z; [by left|by right].
Qed.

Lemma early_alloc_spec_witness :
  ∃ a, (8 | a) ∧ 3 ≤ a < 3 + 8 ∧
   ((a + 16 ≤ 64 ∧ alloc 4096 {| layout_size := 16; layout_align := 8 |}
        {| b_start := 0; b_pos := 3; p_pos := 64; p_end := 64; b_count := 1 |} =
      (Ok (4096 + a), {| b_start := 0; b_pos := a + 16; p_pos := 64; p_end := 64; b_count := 2 |})) ∨
    (64 < a + 16 ∧ alloc 4096 {| layout_size := 16; layout_align := 8 |}
        {| b_start := 0; b_pos := 3; p_pos := 64; p_end := 64; b_count := 1 |} =
      (Err NoMemory, {| b_start := 0; b_pos := 3; p_pos := 64; p_end := 64; b_count := 1 |}))).
Proof.
  apply (early_alloc_spec 64 4096 {| layout_size := 16; layout_align := 8 |}
    {| b_start := 0; b_pos := 3; p_pos := 64; p_end := 64; b_count := 1 |}).
  - lia.
  - repeat split; simpl; lia.
  - repeat split; simpl; [by exists 3|lia..].
Defined.

(** page allocation is aligned only relative to the arena: on success the
    page block is the highest aligned offset below the page area, and the
    returned address is a multiple of the requested alignment exactly when the
    arena's own address is. *)
Theorem early_alloc_pages_alignment SIZE arena n al s p s' :
  0 < SIZE < 2 ^ 63 ∧ 0 < arena ∧ arena + SIZE < 2 ^ 64 →
  early_wf SIZE s → 0 ≤ n → is_pow2 al →
  alloc_pages arena n al s = (Ok p, s') →
  let a := Z.max PAGE_SIZE al in
  p = arena + p_pos s' ∧ (a | p_pos s') ∧
  p_pos s' + n * PAGE_SIZE ≤ p_pos s < p_pos s' + n * PAGE_SIZE + a ∧
  ((a | p) ↔ (a | arena)).
Proof.
  intros Har Hwf Hn Hal Ha a. pose proof Hwf as (? & ? & ? & ? & ? & ?).
  rewrite (alloc_pages_eq SIZE arena) in Ha by done. cbv zeta in Ha.
  destruct (_ || _) eqn:Hor; [done|]. apply orb_false_iff in Hor as [Hn0%Z.eqb_neq Hor%Z.ltb_ge].
  destruct (align_down_spec (p_pos s - n * PAGE_SIZE) a) as [Hd ?];
    [unfold in_usize, PAGE_SIZE in *; lia|subst a; auto with kernel|].
  fold a in Ha. case_Z; simplify_eq. simpl.
  split; [done|]. split; [done|]. split; [lia|].
  split; intros Hx; [|by apply Z.divide_add_r].
  replace arena with (arena + align_down (p_pos s - n * PAGE_SIZE) a -
    align_down (p_pos s - n * PAGE_SIZE) a) by lia. by apply Z.divide_sub_r.
Qed.

Lemma early_alloc_pages_alignment_witness :
  ¬ (4096 | 8 + 4096) ∧ (∃ s', alloc_pages 8 1 4096 (allocator (initial 8192)) = (Ok (8 + 4096), s')).
Proof.
  assert (alloc_pages 8 1 4096 (allocator (initial 8192)) =
     (Ok (8 + 4096), {| b_start := 0; b_pos := 0; p_pos := 4096; p_end := 8192; b_count := 0 |}))
    as He by reflexivity.
  split; [|by eexists].
  destruct (early_alloc_pages_alignment 8192 8 1 4096 (allocator (initial 8192)) (8 + 4096) _
    ltac:(lia) ltac:(repeat split; simpl; lia) ltac:(lia) ltac:(by exists 12) He)
    as (_ & _ & _ & Hiff).
  change (Z.max PAGE_SIZE 4096) with 4096 in Hiff.
  intros Hd%Hiff. destruct Hd as [q Hq]. lia.
Defined.

(** giving the last page block back restores the allocator, and the byte
    counters always add up: what is used and what is available make the total. *)
Theorem early_pages_roundtrip SIZE arena n s p s' :
  0 < SIZE < 2 ^ 63 ∧ 0 < arena ∧ arena + SIZE < 2 ^ 64 →
  early_wf SIZE s → 0 ≤ n → (PAGE_SIZE | p_pos s) →
  alloc_pages arena n PAGE_SIZE s = (Ok p, s') →
  dealloc_pages SIZE arena p n s' = s ∧
  used_bytes s' = used_bytes s + n * PAGE_SIZE ∧
  used_bytes s' + available_bytes s' = total_bytes s'.
Proof.
  intros Har Hwf Hn Hd Ha. pose proof Hwf as (? & ? & ? & ? & ? & ?).
  pose proof (alloc_pages_wf _ _ Har n PAGE_SIZE s _ s' Hwf Hn page_size_pow2 Ha) as Hwf'.
  rewrite (alloc_pages_eq SIZE arena) in Ha by auto with kernel. cbv zeta in Ha.
  destruct (_ || _) eqn:Hor; [done|]. apply orb_false_iff in Hor as [Hn0%Z.eqb_neq Hor%Z.ltb_ge].
  rewrite Z.max_id in Ha.
  assert (align_down (p_pos s - n * PAGE_SIZE) PAGE_SIZE = p_pos s - n * PAGE_SIZE) as Heq.
  { apply align_down_aligned; [unfold in_usize, PAGE_SIZE in *; lia|auto with kernel|].
    apply Z.divide_sub_r; [done|]. by exists n. }
  rewrite Heq in Ha. case_Z; simplify_eq. pose proof Hwf' as (? & ? & ? & ? & ? & ?); simpl in *.
  rewrite dealloc_pages_eq by (done || (unfold PAGE_SIZE in *; lia)). simpl.
  rewrite Z.eqb_refl. unfold used_bytes, available_bytes, total_bytes, saturating_sub. simpl.
  unfold PAGE_SIZE in *.
  rewrite !usub_small, !uadd_small by lia. destruct s; simpl in *. case_Z; try lia.
  split; [f_equal; lia|lia].
Qed.

Lemma early_pages_roundtrip_witness :
  dealloc_pages 16384 65536 (65536 + 4096) 3
    {| b_start := 0; b_pos := 24; p_pos := 4096; p_end := 16384; b_count := 1 |} =
    {| b_start := 0; b_pos := 24; p_pos := 16384; p_end := 16384; b_count := 1 |}.
Proof.
  eapply (early_pages_roundtrip 16384 65536 3
    {| b_start := 0; b_pos := 24; p_pos := 16384; p_end := 16384; b_count := 1 |}).
  - lia.
  - repeat split; simpl; lia.
  - lia.
  - by exists 4.
  - reflexivity.
Defined.
