(* ===== verification/Pipe.v ===== *)
(** Pipes: [api/arceos_posix_api/src/imp/pipe.rs].

    [PipeRingBuffer] is the 256-byte ring; a [Pipe] end shares it behind an
    [Arc<Mutex<_>>].  A blocking [read]/[write] is a loop whose body runs with the
    buffer locked and gives the lock up between iterations, so one iteration is
    one atomic step ([read_iter], [write_iter]) and a system of readers and
    writers is an interleaving of such steps ([pipe_step]). *)

From S2P Require Import Prelude.
From stdpp Require Import prelude list.
From Stdlib Require Import ZArith Lia ZifyNat.

(** [lia] on [mod RING_BUFFER_SIZE]. *)
Local Ltac Zify.zify_post_hook ::= Z.to_euclidean_division_equations.

(** ** The ring buffer *)

Inductive RingBufferStatus : Type := Full | Empty | Normal.
#[export] Instance status_eq_dec : EqDecision RingBufferStatus.
Proof. solve_decision. Defined.

Definition RING_BUFFER_SIZE : nat := 256.

Record PipeRingBuffer : Type := {
  arr : list Z;
  head : nat;
  tail : nat;
  status : RingBufferStatus;
}.

Definition ring_new : PipeRingBuffer :=
  {| arr := replicate RING_BUFFER_SIZE 0%Z; head := 0; tail := 0; status := Empty |}.

(** [arr[i] = b] and [arr[i]] panic out of range. *)
Definition write_byte (byte : Z) (rb : PipeRingBuffer) : outcome PipeRingBuffer :=
  if tail rb <? length (arr rb) then
    let tail' := (tail rb + 1) mod RING_BUFFER_SIZE in
    Ret {| arr := <[tail rb := byte]> (arr rb); head := head rb; tail := tail';
           status := if tail' =? head rb then Full else Normal |}
  else Panic.

Definition read_byte (rb : PipeRingBuffer) : outcome (Z * PipeRingBuffer) :=
  match arr rb !! head rb with
  | Some c =>
      let head' := (head rb + 1) mod RING_BUFFER_SIZE in
      Ret (c, {| arr := arr rb; head := head'; tail := tail rb;
                 status := if head' =? tail rb then Empty else Normal |})
  | None => Panic
  end.

Definition available_read (rb : PipeRingBuffer) : nat :=
  match status rb with
  | Empty => 0
  | _ => if head rb <? tail rb then tail rb - head rb
         else tail rb + RING_BUFFER_SIZE - head rb
  end.

Definition available_write (rb : PipeRingBuffer) : nat :=
  match status rb with
  | Full => 0
  | _ => RING_BUFFER_SIZE - available_read rb
  end.

(** ** A pipe end *)

(** The shared buffer and the strong count of the [Arc] that holds it: one per
    pipe end that is still open. *)
Record PipeShared : Type := {
  buffer : PipeRingBuffer;
  strong_count : nat;
}.

Record Pipe : Type := { readable : bool }.

Definition pipe_new : (Pipe * Pipe) * PipeShared :=
  (({| readable := true |}, {| readable := false |}),
   {| buffer := ring_new; strong_count := 2 |}).

Definition writable (p : Pipe) : bool := negb (readable p).

Definition write_end_close (sh : PipeShared) : bool := strong_count sh =? 1.

(** What one iteration of the loop of [read] or [write] does: it returns, or the
    loop goes round again, after [sys_sched_yield] when [yielded]. *)
Inductive loop_result : Type :=
| Return (n : nat)
| Again (yielded : bool).

(** The [for _ in 0..loop_read] of [read]: [done] says whether it returned. *)
Fixpoint read_for (loop_read max_len : nat) (buf : list Z) (rb : PipeRingBuffer) :
    outcome (bool * list Z * PipeRingBuffer) :=
  match loop_read with
  | O => Ret (false, buf, rb)
  | S k =>
      if length buf =? max_len then Ret (true, buf, rb)
      else match read_byte rb with
           | Ret (c, rb') => read_for k max_len (buf ++ [c]) rb'
           | Panic => Panic
           end
  end.

(** One iteration of the loop of [Pipe::read]; [buf] is the filled prefix
    [buf[..read_size]] of a buffer of [max_len] bytes. *)
Definition read_iter (max_len : nat) (buf : list Z) (sh : PipeShared) :
    outcome (loop_result * list Z * PipeShared) :=
  let loop_read := available_read (buffer sh) in
  if loop_read =? 0 then
    if write_end_close sh then Ret (Return (length buf), buf, sh)
    else Ret (Again true, buf, sh)
  else match read_for loop_read max_len buf (buffer sh) with
       | Ret (true, buf', rb') =>
           Ret (Return (length buf'), buf', {| buffer := rb'; strong_count := strong_count sh |})
       | Ret (false, buf', rb') =>
           Ret (Again false, buf', {| buffer := rb'; strong_count := strong_count sh |})
       | Panic => Panic
       end.

(** The [for _ in 0..loop_write] of [write]. *)
Fixpoint write_for (loop_write : nat) (buf : list Z) (write_size : nat) (rb : PipeRingBuffer) :
    outcome (bool * nat * PipeRingBuffer) :=
  match loop_write with
  | O => Ret (false, write_size, rb)
  | S k =>
      if write_size =? length buf then Ret (true, write_size, rb)
      else match buf !! write_size with
           | Some b =>
               match write_byte b rb with
               | Ret rb' => write_for k buf (S write_size) rb'
               | Panic => Panic
               end
           | None => Panic
           end
  end.

Definition write_iter (buf : list Z) (write_size : nat) (sh : PipeShared) :
    outcome (loop_result * nat * PipeShared) :=
  let loop_write := available_write (buffer sh) in
  if loop_write =? 0 then Ret (Again true, write_size, sh)
  else match write_for loop_write buf write_size (buffer sh) with
       | Ret (true, n, rb') =>
           Ret (Return n, n, {| buffer := rb'; strong_count := strong_count sh |})
       | Ret (false, n, rb') =>
           Ret (Again false, n, {| buffer := rb'; strong_count := strong_count sh |})
       | Panic => Panic
       end.

(** The whole call when no other task touches the pipe meanwhile; [None] when
    the fuel runs out with the loop still going round. *)
Fixpoint read_loop (fuel max_len : nat) (buf : list Z) (sh : PipeShared) :
    option (outcome (nat * list Z * PipeShared)) :=
  match fuel with
  | O => None
  | S k =>
      match read_iter max_len buf sh with
      | Ret (Return n, buf', sh') => Some (Ret (n, buf', sh'))
      | Ret (Again _, buf', sh') => read_loop k max_len buf' sh'
      | Panic => Some Panic
      end
  end.

Definition pipe_read (p : Pipe) (fuel max_len : nat) (sh : PipeShared) :
    option (outcome (result (nat * list Z) LinuxError.t * PipeShared)) :=
  if negb (readable p) then Some (Ret (Err LinuxError.EPERM, sh))
  else match read_loop fuel max_len [] sh with
       | Some (Ret (n, buf, sh')) => Some (Ret (Ok (n, buf), sh'))
       | Some Panic => Some Panic
       | None => None
       end.

Fixpoint write_loop (fuel : nat) (buf : list Z) (write_size : nat) (sh : PipeShared) :
    option (outcome (nat * PipeShared)) :=
  match fuel with
  | O => None
  | S k =>
      match write_iter buf write_size sh with
      | Ret (Return n, _, sh') => Some (Ret (n, sh'))
      | Ret (Again _, n, sh') => write_loop k buf n sh'
      | Panic => Some Panic
      end
  end.

Definition pipe_write (p : Pipe) (fuel : nat) (buf : list Z) (sh : PipeShared) :
    option (outcome (result nat LinuxError.t * PipeShared)) :=
  if negb (writable p) then Some (Ret (Err LinuxError.EPERM, sh))
  else match write_loop fuel buf 0 sh with
       | Some (Ret (n, sh')) => Some (Ret (Ok n, sh'))
       | Some Panic => Some Panic
       | None => None
       end.

(** [poll]: the [PollState] (readable, writable). *)
Definition pipe_poll (p : Pipe) (sh : PipeShared) : bool * bool :=
  (readable p && (0 <? available_read (buffer sh)),
   writable p && (0 <? available_write (buffer sh))).

(** ** Interleavings *)

(** The shared pipe with the bytes written to it and read from it so far. *)
Record PipeSystem : Type := {
  shared : PipeShared;
  written : list Z;
  taken : list Z;
}.

(** A step is one loop iteration of some reader or writer call. *)
Inductive pipe_step : PipeSystem → PipeSystem → Prop :=
| pipe_step_read sh w t max_len buf r buf' sh' :
    length buf ≤ max_len →
    read_iter max_len buf sh = Ret (r, buf', sh') →
    pipe_step {| shared := sh; written := w; taken := t |}
              {| shared := sh'; written := w; taken := t ++ drop (length buf) buf' |}
| pipe_step_write sh w t buf n r n' sh' :
    n ≤ length buf →
    write_iter buf n sh = Ret (r, n', sh') →
    pipe_step {| shared := sh; written := w; taken := t |}
              {| shared := sh'; written := w ++ take (n' - n) (drop n buf); taken := t |}
| pipe_step_close sh w t :
    1 < strong_count sh →
    pipe_step {| shared := sh; written := w; taken := t |}
              {| shared := {| buffer := buffer sh; strong_count := strong_count sh - 1 |};
                 written := w; taken := t |}.

Definition pipe_initial : PipeSystem :=
  {| shared := snd pipe_new; written := []; taken := [] |}.

(** ** Abstraction: the ring buffer as a queue *)

Definition contents (rb : PipeRingBuffer) : list Z :=
  (λ i, default 0%Z (arr rb !! ((head rb + i) mod RING_BUFFER_SIZE))) <$>
    seq 0 (available_read rb).

Definition ring_wf (rb : PipeRingBuffer) : Prop :=
  length (arr rb) = RING_BUFFER_SIZE ∧
  head rb < RING_BUFFER_SIZE ∧ tail rb < RING_BUFFER_SIZE ∧
  (status rb = Normal ↔ head rb ≠ tail rb).

(** ** Lemmas *)

Lemma ring_new_wf : ring_wf ring_new.
Proof. repeat split; simpl; try done; try (unfold RING_BUFFER_SIZE; lia). Qed.

(** The four shapes a well-formed ring can have. *)
Lemma ring_cases rb :
  ring_wf rb →
  (status rb = Empty ∧ head rb = tail rb ∧ available_read rb = 0) ∨
  (status rb = Full ∧ head rb = tail rb ∧ available_read rb = 256) ∨
  (status rb = Normal ∧ head rb < tail rb ∧ available_read rb = tail rb - head rb) ∨
  (status rb = Normal ∧ tail rb < head rb ∧ available_read rb = tail rb + 256 - head rb).
Proof.
  intros (_ & ? & ? & Hs). unfold available_read, RING_BUFFER_SIZE in *.
  destruct (decide (head rb = tail rb)) as [He|He].
  - assert (status rb ≠ Normal) by (by intros ?%Hs). clear Hs.
    destruct (status rb); case_nat; naive_solver lia.
  - assert (status rb = Normal) as Hn by (by apply Hs). rewrite Hn. clear Hs Hn.
    case_nat; naive_solver lia.
Qed.

Lemma available_read_bound rb : ring_wf rb → available_read rb ≤ RING_BUFFER_SIZE.
Proof.
  intros Hwf. pose proof Hwf as (_ & ? & ? & _). unfold RING_BUFFER_SIZE in *.
  destruct (ring_cases rb Hwf) as [?|[?|[?|?]]]; lia.
Qed.

Lemma available_read_tail rb :
  ring_wf rb → (head rb + available_read rb) mod RING_BUFFER_SIZE = tail rb.
Proof.
  intros Hwf. pose proof Hwf as (_ & ? & ? & _). unfold RING_BUFFER_SIZE in *.
  destruct (ring_cases rb Hwf) as [?|[?|[?|?]]]; lia.
Qed.

Lemma available_write_eq rb :
  ring_wf rb → available_write rb = RING_BUFFER_SIZE - available_read rb.
Proof.
  intros Hwf. unfold available_write.
  destruct (ring_cases rb Hwf) as [(-> & _ & ?)|[(-> & _ & ->)|[(-> & _)|(-> & _)]]]; done.
Qed.

Lemma contents_length rb : length (contents rb) = available_read rb.
Proof. unfold contents. by rewrite length_fmap, length_seq. Qed.

Lemma write_byte_spec b rb :
  ring_wf rb → available_read rb < RING_BUFFER_SIZE →
  ∃ rb', write_byte b rb = Ret rb' ∧ ring_wf rb' ∧ contents rb' = contents rb ++ [b].
Proof.
  intros Hwf Hav. pose proof (available_read_tail rb Hwf) as Ht.
  pose proof Hwf as (Hl & Hh & Htl & _). unfold write_byte.
  destruct (Nat.ltb_spec (tail rb) (length (arr rb))); [|lia].
  eexists; split; [done|]. set (rb' := Build_PipeRingBuffer _ _ _ _).
  assert (ring_wf rb') as Hwf'.
  { subst rb'. split; simpl; [by rewrite length_insert|]. unfold RING_BUFFER_SIZE in *.
    split; [done|]. split; [lia|]. case_nat; split; intros; done || lia. }
  assert (available_read rb' = S (available_read rb)) as Hav'.
  { unfold available_read at 1. subst rb'. simpl. unfold RING_BUFFER_SIZE in *.
    destruct (ring_cases rb Hwf) as [?|[?|[?|?]]]; case_nat; lia. }
  split; [done|]. unfold contents. rewrite Hav', seq_S, fmap_app. simpl. f_equal.
  - apply list_fmap_ext. intros i x [-> Hi]%lookup_seq. simpl.
    rewrite list_lookup_insert_ne; [done|]. unfold RING_BUFFER_SIZE in *. lia.
  - rewrite Ht, list_lookup_insert_eq by lia. done.
Qed.

Lemma read_byte_spec rb c q :
  ring_wf rb → contents rb = c :: q →
  ∃ rb', read_byte rb = Ret (c, rb') ∧ ring_wf rb' ∧ contents rb' = q.
Proof.
  intros Hwf Hc. pose proof (contents_length rb) as Hlen. rewrite Hc in Hlen. simpl in Hlen.
  pose proof Hwf as (Hl & Hh & Htl & _). unfold read_byte.
  destruct (arr rb !! head rb) as [c'|] eqn:Hlk; [|apply lookup_ge_None in Hlk; lia].
  unfold contents in Hc. rewrite <- Hlen in Hc. simpl in Hc.
  rewrite Nat.add_0_r, Nat.mod_small, Hlk in Hc by lia. simpl in Hc. injection Hc as -> Hq.
  eexists; split; [done|]. set (rb' := Build_PipeRingBuffer _ _ _ _).
  assert (ring_wf rb') as Hwf'.
  { subst rb'. split; simpl; [done|]. unfold RING_BUFFER_SIZE in *.
    split; [lia|]. split; [lia|]. case_nat; split; intros; done || lia. }
  assert (available_read rb' = length q) as Hav'.
  { unfold available_read. subst rb'. simpl. unfold RING_BUFFER_SIZE in *.
    destruct (ring_cases rb Hwf) as [?|[?|[?|?]]]; case_nat; lia. }
  split; [done|]. unfold contents. rewrite Hav'. etransitivity; [|exact Hq].
  rewrite <- fmap_S_seq. change (list_fmap ?A ?B ?f ?l) with (f <$> l).
  rewrite <- list_fmap_compose. apply list_fmap_ext. intros i x [-> Hi]%lookup_seq. simpl.
  do 2 f_equal. unfold RING_BUFFER_SIZE. lia.
Qed.

Lemma read_for_spec k max_len buf rb :
  ring_wf rb → k ≤ length (contents rb) → length buf ≤ max_len →
  let m := k `min` (max_len - length buf) in
  ∃ rb', read_for k max_len buf rb =
           Ret (max_len - length buf <? k, buf ++ take m (contents rb), rb') ∧
         ring_wf rb' ∧ contents rb' = drop m (contents rb).
Proof.
  revert buf rb. induction k as [|k IH]; intros buf rb Hwf Hk Hb m; subst m; simpl.
  { exists rb. by rewrite app_nil_r. }
  destruct (Nat.eqb_spec (length buf) max_len) as [He|He].
  { exists rb. replace (max_len - length buf) with 0 by lia. simpl.
    by rewrite app_nil_r. }
  destruct (contents rb) as [|c q] eqn:Hc; simpl in Hk; [lia|].
  destruct (read_byte_spec rb c q Hwf Hc) as (rb1 & -> & Hwf1 & Hc1). simpl.
  destruct (IH (buf ++ [c]) rb1) as (rb2 & -> & Hwf2 & Hc2); rewrite ?Hc1; try done.
  { lia. } { rewrite length_app. simpl. lia. }
  rewrite length_app in *. simpl in *. rewrite Hc1 in Hc2.
  replace (max_len - length buf) with (S (max_len - (length buf + 1))) by lia. simpl.
  exists rb2. rewrite Hc2, <- app_assoc. done.
Qed.

Lemma write_for_spec k buf n rb :
  ring_wf rb → k + length (contents rb) ≤ RING_BUFFER_SIZE → n ≤ length buf →
  let m := k `min` (length buf - n) in
  ∃ rb', write_for k buf n rb = Ret (length buf - n <? k, n + m, rb') ∧
         ring_wf rb' ∧ contents rb' = contents rb ++ take m (drop n buf).
Proof.
  revert n rb. induction k as [|k IH]; intros n rb Hwf Hk Hb m; subst m; simpl.
  { exists rb. by rewrite Nat.add_0_r, app_nil_r. }
  destruct (Nat.eqb_spec n (length buf)) as [->|He].
  { exists rb. rewrite Nat.sub_diag. simpl. by rewrite Nat.add_0_r, app_nil_r. }
  destruct (lookup_lt_is_Some_2 buf n) as [b Hbn]; [lia|]. rewrite Hbn.
  destruct (write_byte_spec b rb Hwf) as (rb1 & -> & Hwf1 & Hc1).
  { rewrite <- contents_length. unfold RING_BUFFER_SIZE in *. lia. }
  destruct (IH (S n) rb1) as (rb2 & -> & Hwf2 & Hc2); try done.
  { rewrite Hc1, length_app. simpl. lia. } { lia. }
  replace (length buf - n) with (S (length buf - S n)) by lia. simpl.
  exists rb2. split; [do 3 f_equal; lia|]. split; [done|].
  rewrite Hc2, Hc1, <- app_assoc. f_equal. rewrite (drop_S _ _ _ Hbn). done.
Qed.

(** One iteration of [read] takes as much of the queue as fits, and returns
    exactly when the buffer filled up before the queue ran dry, or the queue was
    empty and no other end is open. *)
Lemma read_iter_spec max_len buf sh :
  ring_wf (buffer sh) → length buf ≤ max_len →
  let q := contents (buffer sh) in
  let m := length q `min` (max_len - length buf) in
  ∃ rb', read_iter max_len buf sh =
      Ret (if length q =? 0 then (if strong_count sh =? 1 then Return (length buf) else Again true)
           else if max_len - length buf <? length q then Return max_len else Again false,
           buf ++ take m q, {| buffer := rb'; strong_count := strong_count sh |}) ∧
    ring_wf rb' ∧ contents rb' = drop m q.
Proof.
  intros Hwf Hb q m. unfold read_iter. rewrite <- contents_length. fold q.
  destruct (Nat.eqb_spec (length q) 0) as [Hq|Hq].
  { apply nil_length_inv in Hq. exists (buffer sh). unfold m, write_end_close.
    unfold q in *. rewrite Hq. simpl. rewrite app_nil_r. by destruct sh, (_ =? 1). }
  destruct (read_for_spec (length q) max_len buf (buffer sh)) as (rb' & -> & ? & ?); try done.
  exists rb'. split; [|done]. fold q m.
  destruct (Nat.ltb_spec (max_len - length buf) (length q)); [|done].
  assert (length (buf ++ take m q) = max_len) as -> by (rewrite length_app, length_take; lia).
  done.
Qed.

Lemma write_iter_spec buf n sh :
  ring_wf (buffer sh) → n ≤ length buf →
  let q := contents (buffer sh) in
  let room := RING_BUFFER_SIZE - length q in
  let m := room `min` (length buf - n) in
  ∃ rb', write_iter buf n sh =
      Ret (if room =? 0 then Again true
           else if length buf - n <? room then Return (length buf) else Again false,
           n + m, {| buffer := rb'; strong_count := strong_count sh |}) ∧
    ring_wf rb' ∧ contents rb' = q ++ take m (drop n buf).
Proof.
  intros Hwf Hb q room m. unfold write_iter.
  rewrite available_write_eq, <- contents_length by done. fold q room.
  destruct (Nat.eqb_spec room 0) as [Hq|Hq].
  { exists (buffer sh). assert (m = 0) as -> by lia. simpl.
    rewrite app_nil_r, Nat.add_0_r. by destruct sh. }
  destruct (write_for_spec room buf n (buffer sh)) as (rb' & -> & ? & ?); try done.
  { fold q. lia. }
  exists rb'. split; [|done]. fold m.
  destruct (Nat.ltb_spec (length buf - n) room); [|done].
  assert (n + m = length buf) as -> by lia. done.
Qed.

Definition pipe_inv (s : PipeSystem) : Prop :=
  ring_wf (buffer (shared s)) ∧
  written s = taken s ++ contents (buffer (shared s)).

Lemma pipe_inv_step s s' : pipe_inv s → pipe_step s s' → pipe_inv s'.
Proof.
  intros [Hwf Hw] Hs. destruct Hs as [sh w t ml buf r buf' sh' Hb Hi|sh w t buf n r n' sh' Hb Hi|];
    unfold pipe_inv in *; simpl in *; [| |done].
  - destruct (read_iter_spec ml buf sh Hwf Hb) as (rb' & He & Hwf' & Hc).
    rewrite Hi in He. injection He as -> -> ->. simpl. split; [done|].
    rewrite Hc, drop_app_length, <- app_assoc, take_drop. done.
  - destruct (write_iter_spec buf n sh Hwf Hb) as (rb' & He & Hwf' & Hc).
    rewrite Hi in He. injection He as -> -> ->. simpl. split; [done|].
    rewrite Hc, Hw, <- app_assoc. do 3 f_equal. lia.
Qed.

Lemma pipe_inv_reachable s : rtc pipe_step pipe_initial s → pipe_inv s.
Proof.
  intros Hr. assert (pipe_inv pipe_initial) as Hi by (split; [apply ring_new_wf|done]).
  revert Hi. induction Hr; eauto using pipe_inv_step.
Qed.

(** A read of the whole call alone on the pipe, starting with [buf] filled. *)
Lemma read_loop_short k max_len buf sh :
  ring_wf (buffer sh) → length buf ≤ max_len →
  max_len - length buf < length (contents (buffer sh)) →
  ∃ sh', read_loop (S k) max_len buf sh =
    Some (Ret (max_len, buf ++ take (max_len - length buf) (contents (buffer sh)), sh')) ∧
    contents (buffer sh') = drop (max_len - length buf) (contents (buffer sh)) ∧
    ring_wf (buffer sh') ∧ strong_count sh' = strong_count sh.
Proof.
  intros Hwf Hb Hlt. destruct (read_iter_spec max_len buf sh Hwf Hb) as (rb' & Hit & Hwf' & Hc).
  simpl. rewrite Hit, take_min_length. rewrite drop_min_length in Hc.
  destruct (Nat.eqb_spec (length (contents (buffer sh))) 0); [lia|].
  destruct (Nat.ltb_spec (max_len - length buf) (length (contents (buffer sh)))); [|lia].
  eexists. done.
Qed.

Lemma read_loop_closed k max_len buf sh :
  ring_wf (buffer sh) → length buf ≤ max_len → strong_count sh = 1 →
  length (contents (buffer sh)) ≤ max_len - length buf →
  ∃ sh', read_loop (S (S k)) max_len buf sh =
    Some (Ret (length buf + length (contents (buffer sh)), buf ++ contents (buffer sh), sh')) ∧
    contents (buffer sh') = [] ∧ ring_wf (buffer sh') ∧ strong_count sh' = strong_count sh.
Proof.
  intros Hwf Hb Hsc Hle. set (q := contents (buffer sh)) in *.
  destruct (read_iter_spec max_len buf sh Hwf Hb) as (rb' & Hit & Hwf' & Hc).
  fold q in Hit, Hc. rewrite take_min_length, Hsc in Hit. rewrite drop_min_length in Hc.
  rewrite take_ge in Hit by lia. rewrite drop_ge in Hc by lia.
  cbn [read_loop]. rewrite Hit.
  destruct (Nat.eqb_spec (length q) 0) as [Hq|Hq]; simpl.
  { exists {| buffer := rb'; strong_count := 1 |}. split; [|done]. do 4 f_equal. lia. }
  destruct (Nat.ltb_spec (max_len - length buf) (length q)); [lia|].
  destruct (read_iter_spec max_len (buf ++ q) {| buffer := rb'; strong_count := 1 |})
    as (rb2 & Hit2 & Hwf2 & Hc2); [done|rewrite length_app; lia|].
  simpl in Hit2, Hc2. rewrite Hc in Hit2, Hc2. simpl in Hit2, Hc2. rewrite Hit2.
  rewrite app_nil_r, length_app. by exists {| buffer := rb2; strong_count := 1 |}.
Qed.

Lemma read_loop_exact_blocks fuel max_len buf sh :
  ring_wf (buffer sh) → length buf ≤ max_len → strong_count sh ≠ 1 →
  length (contents (buffer sh)) ≤ max_len - length buf →
  read_loop fuel max_len buf sh = None.
Proof.
  revert buf sh. induction fuel as [|k IH]; intros buf sh Hwf Hb Hsc Hle; [done|].
  destruct (read_iter_spec max_len buf sh Hwf Hb) as (rb' & Hit & Hwf' & Hc).
  cbn [read_loop]. rewrite Hit, take_min_length. rewrite drop_min_length in Hc.
  destruct (Nat.eqb_spec (strong_count sh) 1); [done|].
  destruct (Nat.ltb_spec (max_len - length buf) (length (contents (buffer sh)))); [lia|].
  assert (read_loop k max_len (buf ++ take (max_len - length buf) (contents (buffer sh)))
    {| buffer := rb'; strong_count := strong_count sh |} = None) as Hn.
  { apply IH; simpl; try done.
    - rewrite length_app, length_take. lia.
    - rewrite Hc, drop_ge by lia. simpl. lia. }
  by destruct (_ =? 0).
Qed.

(** ** Theorems *)

(** C24: a pipe is a FIFO under every interleaving.  After any sequence of loop
    iterations of concurrent readers and writers (and closes), the bytes written
    so far are the bytes taken so far followed by the bytes in the ring: nothing
    is lost, duplicated or reordered, and no iteration panics. *)
Theorem pipe_fifo s :
  rtc pipe_step pipe_initial s →
  written s = taken s ++ contents (buffer (shared s)) ∧
  length (contents (buffer (shared s))) ≤ RING_BUFFER_SIZE ∧
  (∀ max_len buf, length buf ≤ max_len → read_iter max_len buf (shared s) ≠ Panic) ∧
  (∀ buf n, n ≤ length buf → write_iter buf n (shared s) ≠ Panic).
Proof.
  intros [Hwf Hw]%pipe_inv_reachable. split; [done|].
  split; [rewrite contents_length; by apply available_read_bound|]. split.
  - intros ml buf Hb. by destruct (read_iter_spec ml buf (shared s) Hwf Hb) as (? & -> & _).
  - intros buf n Hb. by destruct (write_iter_spec buf n (shared s) Hwf Hb) as (? & -> & _).
Qed.

Lemma pipe_fifo_witness :
  let sh := {| buffer := {| arr := <[1 := 8%Z]> (<[0 := 7%Z]> (replicate 256 0%Z)); head := 0;
                            tail := 2; status := Normal |}; strong_count := 2 |} in
  [7%Z; 8%Z] = [] ++ contents (buffer sh).
Proof.
  intros sh. eapply (pipe_fifo {| shared := sh; written := [] ++ take (2 - 0) (drop 0 [7%Z; 8%Z]);
                                   taken := [] |}).
  apply rtc_once. eapply (pipe_step_write _ _ _ [7%Z; 8%Z] 0 (Return 2) 2); [simpl; lia|].
  vm_compute. reflexivity.
Defined.

(** a blocking [read] that asks for fewer bytes than the ring holds returns
    them at once, oldest first; when every other end is closed it returns all
    that is left (0 bytes being the end of file); the write end refuses to be
    read. *)
Theorem pipe_read_returns p fuel max_len sh :
  ring_wf (buffer sh) →
  max_len < length (contents (buffer sh)) ∨ strong_count sh = 1 →
  2 ≤ fuel →
  ∃ sh', pipe_read p fuel max_len sh =
    Some (Ret (if readable p
               then (Ok (length (take max_len (contents (buffer sh))),
                         take max_len (contents (buffer sh))), sh')
               else (Err LinuxError.EPERM, sh))) ∧
    contents (buffer sh') = drop max_len (contents (buffer sh)) ∧
    ring_wf (buffer sh') ∧ strong_count sh' = strong_count sh.
Proof.
  intros Hwf Hcase Hf. destruct fuel as [|[|k]]; try lia. unfold pipe_read.
  set (q := contents (buffer sh)) in *. rewrite length_take.
  destruct (Nat.lt_ge_cases max_len (length q)) as [Hlt|Hge].
  - destruct (read_loop_short (S k) max_len [] sh) as (sh' & Hl & Hc & Hk); [done|simpl; fold q; lia..|].
    fold q in Hl, Hc. simpl in Hc. rewrite Nat.sub_0_r in Hc. exists sh'.
    split; [|done]. rewrite Hl, Nat.min_l by lia. simpl. rewrite Nat.sub_0_r.
    by destruct (readable p).
  - destruct Hcase as [?|Hsc]; [lia|].
    destruct (read_loop_closed k max_len [] sh) as (sh' & Hl & Hc & Hk); [done|simpl; lia|done|simpl; fold q; lia|].
    fold q in Hl. cbn [length Nat.add app] in Hl. exists sh'. rewrite Hl, Nat.min_r, take_ge, drop_ge by lia.
    by destruct (readable p).
Qed.

Lemma pipe_read_returns_witness :
  ∃ sh', pipe_read {| readable := true |} 2 4 {| buffer := ring_new; strong_count := 1 |} =
    Some (Ret (Ok (0, []), sh')) ∧ contents (buffer sh') = [] ∧ ring_wf (buffer sh') ∧ strong_count sh' = 1.
Proof.
  exact (pipe_read_returns {| readable := true |} 2 4 {| buffer := ring_new; strong_count := 1 |}
    ring_new_wf (or_intror eq_refl) (le_n 2)).
Defined.

(** a blocking [read] of [max_len] bytes does not return while another end is
    open and the ring holds at most [max_len] bytes, even when it holds exactly
    [max_len] and the caller's buffer is full: the length test comes before each
    byte, so after the last byte the loop goes round and waits for one more. *)
Theorem pipe_read_exact_blocks p fuel max_len sh :
  ring_wf (buffer sh) → readable p = true → strong_count sh ≠ 1 →
  length (contents (buffer sh)) ≤ max_len →
  pipe_read p fuel max_len sh = None.
Proof.
  intros Hwf Hr Hsc Hle. unfold pipe_read. rewrite Hr. simpl.
  rewrite read_loop_exact_blocks; simpl; try done; lia.
Qed.

Lemma pipe_read_exact_blocks_witness :
  pipe_read {| readable := true |} 1000 1
    {| buffer := {| arr := replicate 256 7%Z; head := 0; tail := 1; status := Normal |};
       strong_count := 2 |} = None.
Proof.
  apply (pipe_read_exact_blocks {| readable := true |} 1000 1); simpl; try done.
  repeat split; simpl; unfold RING_BUFFER_SIZE; lia || done.
Defined.
