(* ===== verification/Task.v ===== *)
(** Tasks, the run queue, wait queues and timers: [modules/axtask].

    The configuration modelled is the one with the features [multitask], [irq]
    and [preempt], on one CPU.  Every operation below that takes [RUN_QUEUE.lock()]
    runs with interrupts and preemption off, so it is one atomic transformer of
    the system state [sys]; a context switch in it changes [current], and what the
    operation does after being switched back in is a separate operation
    ([cancel_events] after [wait_block], and so on).

    The scheduler ([scheduler::BaseScheduler]) and the timer list
    ([timer_list::TimerList]) are crates outside the repository: they are the type
    classes [BaseScheduler] and [TimerList], with their documented laws. *)

From S2P Require Import Prelude.
From stdpp Require Import prelude gmap strings sorting.
From Stdlib Require Import ZArith Lia.
Local Open Scope Z_scope.

(** ** Interfaces of the external crates *)

(** [scheduler::BaseScheduler]; [queued] is the collection of tasks it holds. *)
Class BaseScheduler (Sch : Type) : Type := {
  queued : Sch → list Z;
  sched_new : Sch;
  sched_add_task : Z → Sch → Sch;
  sched_pick_next_task : Sch → option Z * Sch;
  sched_put_prev_task : Z → bool → Sch → Sch;
  sched_task_tick : Z → Sch → bool * Sch;
  sched_set_priority : Z → Z → Sch → bool * Sch;
}.

(** What the scheduler documents: adding or putting back a task makes it ready to
    be picked, picking takes one held task out and fails only when none is held,
    ticks and priorities do not change which tasks are held. *)
Class BaseSchedulerLaws (Sch : Type) `{BaseScheduler Sch} : Prop := {
  queued_new : queued sched_new = [];
  queued_add t s : queued (sched_add_task t s) ≡ₚ t :: queued s;
  queued_put t b s : queued (sched_put_prev_task t b s) ≡ₚ t :: queued s;
  queued_pick_Some t s s' : sched_pick_next_task s = (Some t, s') → queued s ≡ₚ t :: queued s';
  queued_pick_None s s' : sched_pick_next_task s = (None, s') → queued s = [] ∧ queued s' = [];
  queued_tick t s : queued (sched_task_tick t s).2 ≡ₚ queued s;
  queued_prio t p s : queued (sched_set_priority t p s).2 ≡ₚ queued s;
}.

(** [timer_list::TimerList<TaskWakeupEvent>]; [timer_events] lists the pending
    events as (deadline, task). *)
Class TimerList (Tim : Type) : Type := {
  timer_events : Tim → list (Z * Z);
  timer_new : Tim;
  timer_set : Z → Z → Tim → Tim;
  timer_cancel : Z → Tim → Tim;
  timer_expire_one : Z → Tim → option (Z * Z) * Tim;
}.

Class TimerListLaws (Tim : Type) `{TimerList Tim} : Prop := {
  timer_events_new : timer_events timer_new = [];
  timer_events_set d t l : timer_events (timer_set d t l) ≡ₚ (d, t) :: timer_events l;
  timer_events_cancel t l e : e ∈ timer_events (timer_cancel t l) ↔ e ∈ timer_events l ∧ e.2 ≠ t;
  timer_expire_Some now l d t l' :
    timer_expire_one now l = (Some (d, t), l') → d ≤ now ∧ timer_events l ≡ₚ (d, t) :: timer_events l';
  timer_expire_None now l l' :
    timer_expire_one now l = (None, l') → l' = l ∧ ∀ e, e ∈ timer_events l → now < e.1;
}.

(** ** Tasks *)

Inductive TaskState : Type := Running | Ready | Blocked | Exited.
#[export] Instance TaskState_eq_dec : EqDecision TaskState.
Proof. solve_decision. Defined.

(** [TaskState as u8] and [From<u8> for TaskState], whose last arm is
    [unreachable!()]. *)
Definition TaskState_as_u8 (s : TaskState) : Z :=
  match s with Running => 1 | Ready => 2 | Blocked => 3 | Exited => 4 end.
Definition TaskState_from (state : Z) : outcome TaskState :=
  if state =? 1 then Ret Running
  else if state =? 2 then Ret Ready
  else if state =? 3 then Ret Blocked
  else if state =? 4 then Ret Exited
  else Panic.

(** Where the saved context of a task resumes: not saved yet, at [task_entry], or
    inside [switch_to]. *)
Inductive TaskContext : Type := CtxNew | CtxEntry | CtxSwitch.
#[export] Instance TaskContext_eq_dec : EqDecision TaskContext.
Proof. solve_decision. Defined.

Record TaskInner : Type := {
  name : string;
  is_idle : bool;
  is_init : bool;
  state : TaskState;
  in_wait_queue : bool;
  in_timer_list : bool;
  need_resched : bool;
  preempt_disable_count : Z;
  exit_code : Z;
  ctx : TaskContext;
}.

Definition new_common (name : string) : TaskInner :=
  {| name := name; is_idle := false; is_init := false; state := Ready;
     in_wait_queue := false; in_timer_list := false; need_resched := false;
     preempt_disable_count := 0; exit_code := 0; ctx := CtxNew |}.

Definition set_state (st : TaskState) (t : TaskInner) : TaskInner :=
  {| name := name t; is_idle := is_idle t; is_init := is_init t; state := st;
     in_wait_queue := in_wait_queue t; in_timer_list := in_timer_list t;
     need_resched := need_resched t; preempt_disable_count := preempt_disable_count t;
     exit_code := exit_code t; ctx := ctx t |}.
Definition set_in_wait_queue (b : bool) (t : TaskInner) : TaskInner :=
  {| name := name t; is_idle := is_idle t; is_init := is_init t; state := state t;
     in_wait_queue := b; in_timer_list := in_timer_list t;
     need_resched := need_resched t; preempt_disable_count := preempt_disable_count t;
     exit_code := exit_code t; ctx := ctx t |}.
Definition set_in_timer_list (b : bool) (t : TaskInner) : TaskInner :=
  {| name := name t; is_idle := is_idle t; is_init := is_init t; state := state t;
     in_wait_queue := in_wait_queue t; in_timer_list := b;
     need_resched := need_resched t; preempt_disable_count := preempt_disable_count t;
     exit_code := exit_code t; ctx := ctx t |}.
Definition set_preempt_pending (b : bool) (t : TaskInner) : TaskInner :=
  {| name := name t; is_idle := is_idle t; is_init := is_init t; state := state t;
     in_wait_queue := in_wait_queue t; in_timer_list := in_timer_list t;
     need_resched := b; preempt_disable_count := preempt_disable_count t;
     exit_code := exit_code t; ctx := ctx t |}.
Definition set_preempt_count (n : Z) (t : TaskInner) : TaskInner :=
  {| name := name t; is_idle := is_idle t; is_init := is_init t; state := state t;
     in_wait_queue := in_wait_queue t; in_timer_list := in_timer_list t;
     need_resched := need_resched t; preempt_disable_count := n;
     exit_code := exit_code t; ctx := ctx t |}.
Definition set_exit_code (c : Z) (t : TaskInner) : TaskInner :=
  {| name := name t; is_idle := is_idle t; is_init := is_init t; state := state t;
     in_wait_queue := in_wait_queue t; in_timer_list := in_timer_list t;
     need_resched := need_resched t; preempt_disable_count := preempt_disable_count t;
     exit_code := c; ctx := ctx t |}.
Definition set_ctx (c : TaskContext) (t : TaskInner) : TaskInner :=
  {| name := name t; is_idle := is_idle t; is_init := is_init t; state := state t;
     in_wait_queue := in_wait_queue t; in_timer_list := in_timer_list t;
     need_resched := need_resched t; preempt_disable_count := preempt_disable_count t;
     exit_code := exit_code t; ctx := c |}.
Definition set_is_idle (b : bool) (t : TaskInner) : TaskInner :=
  {| name := name t; is_idle := b; is_init := is_init t; state := state t;
     in_wait_queue := in_wait_queue t; in_timer_list := in_timer_list t;
     need_resched := need_resched t; preempt_disable_count := preempt_disable_count t;
     exit_code := exit_code t; ctx := ctx t |}.
Definition set_is_init (b : bool) (t : TaskInner) : TaskInner :=
  {| name := name t; is_idle := is_idle t; is_init := b; state := state t;
     in_wait_queue := in_wait_queue t; in_timer_list := in_timer_list t;
     need_resched := need_resched t; preempt_disable_count := preempt_disable_count t;
     exit_code := exit_code t; ctx := ctx t |}.

(** [TaskInner::new] (entry, stack and TLS are not modelled: the context starts
    at [task_entry]) and [TaskInner::new_init]. *)
Definition new (nm : string) : TaskInner :=
  let t := set_ctx CtxEntry (new_common nm) in
  if String.eqb nm "idle" then set_is_idle true t else t.
Definition new_init (nm : string) : TaskInner :=
  let t := set_is_init true (new_common nm) in
  if String.eqb nm "idle" then set_is_idle true t else t.

(** ** System state *)

(** The wait queues: [WAIT_FOR_EXIT] of the GC task, the [wait_for_exit] of each
    task, and any other [WaitQueue]. *)
Inductive WaitQueueId : Type :=
| WAIT_FOR_EXIT
| wait_for_exit (t : Z)
| other_queue (n : Z).
#[export] Instance WaitQueueId_eq_dec : EqDecision WaitQueueId.
Proof. solve_decision. Defined.
#[export] Instance WaitQueueId_countable : Countable WaitQueueId.
Proof.
  refine (inj_countable' (λ q, match q with
    | WAIT_FOR_EXIT => inl tt | wait_for_exit t => inr (inl t) | other_queue n => inr (inr n) end)
    (λ x, match x with
    | inl _ => WAIT_FOR_EXIT | inr (inl t) => wait_for_exit t | inr (inr n) => other_queue n end) _).
  by intros [].
Defined.

Section axtask.
Context {Sch Tim : Type} `{BaseScheduler Sch, TimerList Tim}.

Record sys : Type := {
  tasks : gmap Z TaskInner;
  scheduler : Sch;
  wqs : gmap WaitQueueId (list Z);
  timers : Tim;
  EXITED_TASKS : list Z;
  current : Z;
  IDLE_TASK : Z;
  ID_COUNTER : Z;
  handles : gmap Z nat;
  wall_time : Z;
  halted : bool;
}.

Definition set_tasks (m : gmap Z TaskInner) (s : sys) : sys :=
  {| tasks := m; scheduler := scheduler s; wqs := wqs s; timers := timers s;
     EXITED_TASKS := EXITED_TASKS s; current := current s; IDLE_TASK := IDLE_TASK s;
     ID_COUNTER := ID_COUNTER s; handles := handles s; wall_time := wall_time s; halted := halted s |}.
Definition set_scheduler (x : Sch) (s : sys) : sys :=
  {| tasks := tasks s; scheduler := x; wqs := wqs s; timers := timers s;
     EXITED_TASKS := EXITED_TASKS s; current := current s; IDLE_TASK := IDLE_TASK s;
     ID_COUNTER := ID_COUNTER s; handles := handles s; wall_time := wall_time s; halted := halted s |}.
Definition set_wqs (x : gmap WaitQueueId (list Z)) (s : sys) : sys :=
  {| tasks := tasks s; scheduler := scheduler s; wqs := x; timers := timers s;
     EXITED_TASKS := EXITED_TASKS s; current := current s; IDLE_TASK := IDLE_TASK s;
     ID_COUNTER := ID_COUNTER s; handles := handles s; wall_time := wall_time s; halted := halted s |}.
Definition set_timers (x : Tim) (s : sys) : sys :=
  {| tasks := tasks s; scheduler := scheduler s; wqs := wqs s; timers := x;
     EXITED_TASKS := EXITED_TASKS s; current := current s; IDLE_TASK := IDLE_TASK s;
     ID_COUNTER := ID_COUNTER s; handles := handles s; wall_time := wall_time s; halted := halted s |}.
Definition set_exited (x : list Z) (s : sys) : sys :=
  {| tasks := tasks s; scheduler := scheduler s; wqs := wqs s; timers := timers s;
     EXITED_TASKS := x; current := current s; IDLE_TASK := IDLE_TASK s;
     ID_COUNTER := ID_COUNTER s; handles := handles s; wall_time := wall_time s; halted := halted s |}.
Definition set_current (x : Z) (s : sys) : sys :=
  {| tasks := tasks s; scheduler := scheduler s; wqs := wqs s; timers := timers s;
     EXITED_TASKS := EXITED_TASKS s; current := x; IDLE_TASK := IDLE_TASK s;
     ID_COUNTER := ID_COUNTER s; handles := handles s; wall_time := wall_time s; halted := halted s |}.
Definition set_halted (s : sys) : sys :=
  {| tasks := tasks s; scheduler := scheduler s; wqs := wqs s; timers := timers s;
     EXITED_TASKS := EXITED_TASKS s; current := current s; IDLE_TASK := IDLE_TASK s;
     ID_COUNTER := ID_COUNTER s; handles := handles s; wall_time := wall_time s; halted := true |}.

(** Update one task in place (the fields are atomics behind the [Arc]). *)
Definition upd (t : Z) (f : TaskInner → TaskInner) (s : sys) : sys :=
  set_tasks (alter f t (tasks s)) s.

Definition test (p : TaskInner → bool) (t : Z) (s : sys) : bool :=
  match tasks s !! t with Some x => p x | None => false end.
Definition is_running : Z → sys → bool := test (λ x, bool_decide (state x = Running)).
Definition is_ready : Z → sys → bool := test (λ x, bool_decide (state x = Ready)).
Definition is_blocked : Z → sys → bool := test (λ x, bool_decide (state x = Blocked)).
Definition can_preempt (n t : Z) (s : sys) : bool :=
  test (λ x, preempt_disable_count x =? n) t s.

Definition wq_get (q : WaitQueueId) (s : sys) : list Z := default [] (wqs s !! q).
Definition wq_set (q : WaitQueueId) (l : list Z) (s : sys) : sys := set_wqs (<[q := l]> (wqs s)) s.

(** [Arc::strong_count] of a task: the references held by [current], by the
    scheduler, wait queues, timer list, [EXITED_TASKS], [IDLE_TASK] and by
    [AxTaskRef]s elsewhere in the kernel ([handles]). *)
Definition occurrences (t : Z) (l : list Z) : nat := length (filter (λ x, x = t) l).
Definition strong_count (t : Z) (s : sys) : nat :=
  (if current s =? t then 1 else 0) + occurrences t (queued (scheduler s)) +
  map_fold (λ _ l n, (occurrences t l + n)%nat) 0%nat (wqs s) +
  occurrences t (snd <$> timer_events (timers s)) +
  occurrences t (EXITED_TASKS s) + (if IDLE_TASK s =? t then 1 else 0) +
  default 0%nat (handles s !! t).

(** ** [AxRunQueue], with the run queue locked *)

Definition add_task (t : Z) (s : sys) : outcome sys :=
  if is_ready t s then Ret (set_scheduler (sched_add_task t (scheduler s)) s) else Panic.

(** [next_task] is an owned [Arc], so the second assert of [switch_to] holds by
    itself; the first asks for a reference to [prev] besides the current one. *)
Definition switch_to (prev next : Z) (s : sys) : outcome sys :=
  let s := upd next (set_preempt_pending false) s in
  let s := upd next (set_state Running) s in
  if prev =? next then Ret s
  else if (1 <? strong_count prev s)%nat then
    Ret (set_current next (upd prev (set_ctx CtxSwitch) s))
  else Panic.

Definition resched (preempt : bool) (s : sys) : outcome sys :=
  let prev := current s in
  let s :=
    if is_running prev s then
      let s := upd prev (set_state Ready) s in
      if test is_idle prev s then s
      else set_scheduler (sched_put_prev_task prev preempt (scheduler s)) s
    else s in
  let (picked, sch) := sched_pick_next_task (scheduler s) in
  switch_to prev (default (IDLE_TASK s) picked) (set_scheduler sch s).

Definition scheduler_timer_tick (s : sys) : sys :=
  let curr := current s in
  if test is_idle curr s then s
  else
    let (b, sch) := sched_task_tick curr (scheduler s) in
    let s := set_scheduler sch s in
    if b then upd curr (set_preempt_pending true) s else s.

Definition yield_current (s : sys) : outcome sys :=
  if is_running (current s) s then resched false s else Panic.

Definition set_current_priority (prio : Z) (s : sys) : bool * sys :=
  let (b, sch) := sched_set_priority (current s) prio (scheduler s) in
  (b, set_scheduler sch s).

Definition preempt_resched (s : sys) : outcome sys :=
  let curr := current s in
  if is_running curr s then
    if can_preempt 1 curr s then resched true s
    else Ret (upd curr (set_preempt_pending true) s)
  else Panic.

Definition block_current (wait_queue_push : Z → sys → sys) (s : sys) : outcome sys :=
  let curr := current s in
  if is_running curr s && negb (test is_idle curr s) && can_preempt 1 curr s then
    resched false (wait_queue_push curr (upd curr (set_state Blocked) s))
  else Panic.

Definition unblock_task (t : Z) (resched : bool) (s : sys) : sys :=
  if is_blocked t s then
    let s := upd t (set_state Ready) s in
    let s := set_scheduler (sched_add_task t (scheduler s)) s in
    if resched then upd (current s) (set_preempt_pending true) s else s
  else s.

(** ** Timers *)

Definition set_alarm_wakeup (deadline : Z) (t : Z) (s : sys) : sys :=
  let s := upd t (set_in_timer_list true) s in
  set_timers (timer_set deadline t (timers s)) s.

Definition cancel_alarm (t : Z) (s : sys) : sys :=
  let s := upd t (set_in_timer_list false) s in
  set_timers (timer_cancel t (timers s)) s.

Definition sleep_until_locked (deadline : Z) (s : sys) : outcome sys :=
  let curr := current s in
  if is_running curr s && negb (test is_idle curr s) then
    if wall_time s <? deadline then
      resched false (upd curr (set_state Blocked) (set_alarm_wakeup deadline curr s))
    else Ret s
  else Panic.

(** ** Wait queues, with the run queue locked *)

Definition notify_one_locked (q : WaitQueueId) (resched : bool) (s : sys) : bool * sys :=
  match wq_get q s with
  | t :: l => (true, unblock_task t resched (upd t (set_in_wait_queue false) (wq_set q l s)))
  | [] => (false, s)
  end.

(** [while let Some(task) = queue.pop_front()]: one round per queued task. *)
Fixpoint notify_all_loop (fuel : nat) (q : WaitQueueId) (resched : bool) (s : sys) : sys :=
  match fuel with
  | O => s
  | S n =>
      match wq_get q s with
      | t :: l =>
          notify_all_loop n q resched
            (unblock_task t resched (upd t (set_in_wait_queue false) (wq_set q l s)))
      | [] => s
      end
  end.
Definition notify_all_locked (q : WaitQueueId) (resched : bool) (s : sys) : sys :=
  notify_all_loop (length (wq_get q s)) q resched s.

Definition notify_exit (t code : Z) (s : sys) : sys :=
  notify_all_locked (wait_for_exit t) false (upd t (set_exit_code code) s).

(** [terminate] powers the machine off: no operation runs any more. *)
Definition exit_current_locked (code : Z) (s : sys) : outcome sys :=
  let curr := current s in
  if is_running curr s && negb (test is_idle curr s) then
    if test is_init curr s then Ret (set_halted (set_exited [] s))
    else
      let s := upd curr (set_state Exited) s in
      let s := notify_exit curr code s in
      let s := set_exited (EXITED_TASKS s ++ [curr]) s in
      let (_, s) := notify_one_locked WAIT_FOR_EXIT false s in
      resched false s
  else Panic.

(** ** Locking the run queue *)

(** [disable_preempt] and [enable_preempt], called by the guard of every
    [SpinNoIrq] lock through [KernelGuardIf]. *)
Definition disable_preempt (s : sys) : sys :=
  upd (current s) (λ x, set_preempt_count (uadd (preempt_disable_count x) 1) x) s.

(** [enable_preempt] may find a pending preemption, lock the run queue again and
    switch; the switched-in task then returns from its own [switch_to] and drops
    its own guard ([leave]), unless it starts at [task_entry], which only forces
    the lock open.  A pending request is cleared by the switch, so [fuel] 2 is
    enough; running out of it counts as a panic. *)
Fixpoint enable_preempt (fuel : nat) (s : sys) : outcome sys :=
  match fuel with
  | O => Panic
  | S n =>
      let curr := current s in
      let s1 := upd curr (λ x, set_preempt_count (usub (preempt_disable_count x) 1) x) s in
      if can_preempt 1 curr s && test need_resched curr s1 && can_preempt 0 curr s1 then
        let s2 := disable_preempt s1 in
        match (if test need_resched curr s2 then preempt_resched s2 else Ret s2) with
        | Ret s3 =>
            if test (λ x, bool_decide (ctx x = CtxEntry)) (current s3) s3
            then Ret (upd (current s3) (set_ctx CtxNew) s3)
            else enable_preempt n s3
        | Panic => Panic
        end
      else Ret s1
  end.

(** Dropping the guard of the run queue lock, in whichever task is running now. *)
Definition leave (s : sys) : outcome sys :=
  if test (λ x, bool_decide (ctx x = CtxEntry)) (current s) s
  then Ret (upd (current s) (set_ctx CtxNew) s)
  else enable_preempt 2 s.

Definition with_rq (body : sys → outcome sys) (s : sys) : outcome sys :=
  s' ← body (disable_preempt s); leave s'.

End axtask.
Arguments sys : clear implicits.
