(* ===== verification/Sched.v ===== *)
(** The task API ([axtask/src/api.rs], [wait_queue.rs], [timers.rs], the GC task
    and initialisation of [run_queue.rs]) on top of the locked operations of
    [Task], the interleavings of kernel code that follow it, and the invariants of
    the scheduler. *)

From S2P Require Import Prelude Task.
From stdpp Require Import prelude gmap strings sorting.
From Stdlib Require Import ZArith Lia.
Local Open Scope Z_scope.

Section api.
Context {Sch Tim : Type} `{BaseScheduler Sch, TimerList Tim}.
Abbreviation sys := (sys Sch Tim).

(** ** Wait queues *)

(** The closure [wait], [wait_until] and [wait_timeout] pass to [block_current]. *)
Definition wait_queue_push (q : WaitQueueId) (t : Z) (s : sys) : sys :=
  let s := upd t (set_in_wait_queue true) s in
  wq_set q (wq_get q s ++ [t]) s.

(** [wait] up to the context switch; after it, [cancel_events]. *)
Definition wait_block (q : WaitQueueId) (s : sys) : outcome sys :=
  with_rq (block_current (wait_queue_push q)) s.

Definition cancel_events (q : WaitQueueId) (s : sys) : sys :=
  let curr := current s in
  let s :=
    if test in_wait_queue curr s then
      upd curr (set_in_wait_queue false) (wq_set q (filter (λ t, t ≠ curr) (wq_get q s)) s)
    else s in
  if test in_timer_list curr s then cancel_alarm curr s else s.

(** One round of the loop of [wait_until]: the condition is tested and the task
    blocked under one run queue lock; [true] means the loop broke, and the caller
    goes on with [cancel_events]. *)
Definition wait_until_iter (q : WaitQueueId) (condition : sys → bool) (s : sys) :
    outcome (bool * sys) :=
  let s1 := disable_preempt s in
  if condition s1 then s' ← leave s1; Ret (true, s')
  else
    s2 ← block_current (wait_queue_push q) s1;
    s' ← leave s2; Ret (false, s').

(** [wait_timeout] sets its alarm before it takes the run queue lock; the task is
    blocked by [wait_block], and after it the result is whether the task is
    still in the wait queue. *)
Definition wait_timeout_alarm (dur : Z) (s : sys) : sys :=
  set_alarm_wakeup (wall_time s + dur) (current s) s.
Definition wait_timeout_finish (q : WaitQueueId) (s : sys) : bool * sys :=
  (test in_wait_queue (current s) s, cancel_events q s).

(** One round of the loop of [wait_timeout_until] after its alarm is set:
    [Some true] timed out, [Some false] the condition held, [None] blocked. *)
Definition wait_timeout_until_iter (q : WaitQueueId) (deadline : Z) (condition : sys → bool) (s : sys) :
    outcome (option bool * sys) :=
  if wall_time s <? deadline then
    r ← wait_until_iter q condition s;
    Ret (if fst r : bool then Some false else None, snd r)
  else Ret (Some true, s).

Definition notify_one (q : WaitQueueId) (resched : bool) (s : sys) : outcome (bool * sys) :=
  let s1 := disable_preempt s in
  let '(b, s2) := (if decide (wq_get q s1 = []) then (false, s1) else notify_one_locked q resched s1) in
  s' ← leave s2; Ret (b, s').

(** One round of the loop of [notify_all]; [false] when the queue was empty. *)
Definition notify_all_iter (q : WaitQueueId) (resched : bool) (s : sys) : outcome (bool * sys) :=
  let s1 := disable_preempt s in
  let '(b, s2) := notify_one_locked q resched s1 in
  s' ← leave s2; Ret (b, s').

Definition notify_task (q : WaitQueueId) (resched : bool) (t : Z) (s : sys) : outcome (bool * sys) :=
  let s1 := disable_preempt s in
  let '(b, s2) :=
    match list_find (λ x, x = t) (wq_get q s1) with
    | Some (i, _) =>
        (true, unblock_task t resched
                 (wq_set q (delete i (wq_get q s1)) (upd t (set_in_wait_queue false) s1)))
    | None => (false, s1)
    end in
  s' ← leave s2; Ret (b, s').

(** [join]: the condition its [wait_until] waits for, and what it returns. *)
Definition join_condition (t : Z) (s : sys) : bool :=
  test (λ x, bool_decide (state x = Exited)) t s.
Definition join_result (t : Z) (s : sys) : option Z := exit_code <$> tasks s !! t.

(** ** Timer interrupts *)

(** [TaskWakeupEvent::callback]. *)
Definition callback (t : Z) (s : sys) : outcome sys :=
  with_rq (λ s, Ret (unblock_task t true (upd t (set_in_timer_list false) s))) s.

(** One round of the loop of [check_events]; [false] when nothing had expired. *)
Definition check_events_iter (s : sys) : outcome (bool * sys) :=
  match timer_expire_one (wall_time s) (timers s) with
  | (Some (_, t), l) => s' ← callback t (set_timers l s); Ret (true, s')
  | (None, l) => Ret (false, set_timers l s)
  end.

(** The loop, for at most as many rounds as there are events. *)
Fixpoint check_events_loop (fuel : nat) (s : sys) : outcome sys :=
  match fuel with
  | O => Ret s
  | S n => r ← check_events_iter s; if fst r : bool then check_events_loop n (snd r) else Ret (snd r)
  end.
Definition check_events (s : sys) : outcome sys :=
  check_events_loop (S (length (timer_events (timers s)))) s.

Definition on_timer_tick (s : sys) : outcome sys :=
  s1 ← check_events s; with_rq (λ s, Ret (scheduler_timer_tick s)) s1.

(** [axhal]'s [handler_irq] for the timer: preemption is off while the handlers
    run and a pending one is served when it is enabled again. *)
Definition timer_irq (s : sys) : outcome sys :=
  s1 ← on_timer_tick (disable_preempt s); leave s1.

(** ** Task management *)

Definition alloc_id (s : sys) : Z * sys :=
  (ID_COUNTER s,
   {| tasks := tasks s; scheduler := scheduler s; wqs := wqs s; timers := timers s;
      EXITED_TASKS := EXITED_TASKS s; current := current s; IDLE_TASK := IDLE_TASK s;
      ID_COUNTER := uadd (ID_COUNTER s) 1; handles := handles s;
      wall_time := wall_time s; halted := halted s |}).

(** [spawn_raw]: a new task, added to the run queue; the caller keeps the
    returned [AxTaskRef]. *)
Definition spawn_raw (nm : string) (s : sys) : outcome (Z * sys) :=
  let '(t, s) := alloc_id s in
  let s := set_tasks (<[t := new nm]> (tasks s)) s in
  let s := {| tasks := tasks s; scheduler := scheduler s; wqs := wqs s; timers := timers s;
              EXITED_TASKS := EXITED_TASKS s; current := current s; IDLE_TASK := IDLE_TASK s;
              ID_COUNTER := ID_COUNTER s; handles := <[t := 1%nat]> (handles s);
              wall_time := wall_time s; halted := halted s |} in
  s' ← with_rq (add_task t) s; Ret (t, s').

Definition yield_now (s : sys) : outcome sys := with_rq yield_current s.
Definition set_priority (prio : Z) (s : sys) : outcome sys :=
  with_rq (λ s, Ret (snd (set_current_priority prio s))) s.
Definition sleep_until (deadline : Z) (s : sys) : outcome sys :=
  with_rq (sleep_until_locked deadline) s.
Definition sleep (dur : Z) (s : sys) : outcome sys := sleep_until (wall_time s + dur) s.
Definition exit (code : Z) (s : sys) : outcome sys :=
  s' ← exit_current_locked code (disable_preempt s);
  if halted s' then Ret s' else leave s'.

(** The sweep of [gc_entry] over the exited tasks: [pop_front], then drop the task
    when this was the last reference and push it back otherwise.  Tasks may exit
    between two rounds of the loop, so a step of the system runs any number. *)
Fixpoint gc_sweep (n : nat) (s : sys) : sys :=
  match n with
  | O => s
  | S k =>
      match EXITED_TASKS s with
      | [] => gc_sweep k s
      | t :: l =>
          let s1 := set_exited l s in
          if (strong_count t s1 =? 0)%nat
          then gc_sweep k (set_tasks (delete t (tasks s1)) s1)
          else gc_sweep k (set_exited (EXITED_TASKS s1 ++ [t]) s1)
      end
  end.
Definition gc_round (s : sys) : sys := gc_sweep (length (EXITED_TASKS s)) s.

(** [run_queue::init]: the idle task (1), the main task (2), then the run queue
    with the GC task (3). *)
Definition init : sys :=
  let idle := 1 in let main := 2 in let gc := 3 in
  {| tasks := {[ idle := new "idle"; main := set_state Running (new_init "main"); gc := new "gc" ]};
     scheduler := sched_add_task gc sched_new;
     wqs := ∅; timers := timer_new; EXITED_TASKS := []; current := main; IDLE_TASK := idle;
     ID_COUNTER := 4; handles := ∅; wall_time := 0; halted := false |}.

Definition tick_clock (d : Z) (s : sys) : sys :=
  {| tasks := tasks s; scheduler := scheduler s; wqs := wqs s; timers := timers s;
     EXITED_TASKS := EXITED_TASKS s; current := current s; IDLE_TASK := IDLE_TASK s;
     ID_COUNTER := ID_COUNTER s; handles := handles s; wall_time := wall_time s + d; halted := halted s |}.
Definition drop_handle (t : Z) (s : sys) : sys :=
  {| tasks := tasks s; scheduler := scheduler s; wqs := wqs s; timers := timers s;
     EXITED_TASKS := EXITED_TASKS s; current := current s; IDLE_TASK := IDLE_TASK s;
     ID_COUNTER := ID_COUNTER s; handles := delete t (handles s);
     wall_time := wall_time s; halted := halted s |}.

(** ** Interleavings *)

(** One step of the system: the running task enters the kernel through the API,
    a timer interrupt arrives, or time passes. *)
Inductive sched_step : sys → sys → Prop :=
| step_spawn nm t s s' :
    nm ≠ "idle"%string → ID_COUNTER s < 2 ^ 64 - 1 → halted s = false →
    spawn_raw nm s = Ret (t, s') → sched_step s s'
| step_yield s s' : halted s = false → yield_now s = Ret s' → sched_step s s'
| step_set_priority p s s' : halted s = false → set_priority p s = Ret s' → sched_step s s'
| step_sleep_until d s s' : halted s = false → sleep_until d s = Ret s' → sched_step s s'
| step_exit c s s' : halted s = false → exit c s = Ret s' → sched_step s s'
| step_wait_block q s s' : halted s = false → wait_block q s = Ret s' → sched_step s s'
| step_wait_until q cond b s s' :
    halted s = false → wait_until_iter q cond s = Ret (b, s') → sched_step s s'
| step_cancel_events q s : halted s = false → sched_step s (cancel_events q s)
| step_alarm d s : halted s = false → sched_step s (set_alarm_wakeup d (current s) s)
| step_notify_one q r b s s' : halted s = false → notify_one q r s = Ret (b, s') → sched_step s s'
| step_notify_all q r b s s' : halted s = false → notify_all_iter q r s = Ret (b, s') → sched_step s s'
| step_notify_task q r t b s s' : halted s = false → notify_task q r t s = Ret (b, s') → sched_step s s'
| step_timer_irq s s' : halted s = false → timer_irq s = Ret s' → sched_step s s'
| step_gc_sweep n s : halted s = false → sched_step s (gc_sweep n s)
| step_disable_preempt s :
    halted s = false → sched_step s (disable_preempt s)
| step_enable_preempt s s' :
    halted s = false → test (λ x, 0 <? preempt_disable_count x) (current s) s = true →
    leave s = Ret s' → sched_step s s'
| step_drop_handle t s : halted s = false → sched_step s (drop_handle t s)
| step_time d s : halted s = false → 0 ≤ d → sched_step s (tick_clock d s).

(** ** Invariant *)

(** Task [t] is known to some queue that will make it ready again. *)
Definition wakeable (t : Z) (s : sys) : Prop :=
  (∃ q, t ∈ wq_get q s) ∨ (∃ d, (d, t) ∈ timer_events (timers s)).

Definition status (t : Z) (s : sys) : option TaskState := state <$> tasks s !! t.
Definition idleness (t : Z) (s : sys) : option bool := is_idle <$> tasks s !! t.

(** What holds of every task and queue, whatever the current task is doing. *)
Record sched_base (s : sys) : Prop := {
  base_one_running t : status t s = Some Running → t = current s;
  base_nodup : NoDup (queued (scheduler s));
  base_queue t : t ∈ queued (scheduler s) ↔ status t s = Some Ready ∧ t ≠ IDLE_TASK s;
  base_blocked t : status t s = Some Blocked → wakeable t s;
  base_idle t : idleness t s = Some true ↔ t = IDLE_TASK s;
  base_idle_state : status (IDLE_TASK s) s = Some Running ∨ status (IDLE_TASK s) s = Some Ready;
  base_exited t : t ∈ EXITED_TASKS s → status t s = Some Exited;
  base_ids t : is_Some (tasks s !! t) → 0 < t < ID_COUNTER s;
}.

(** Between two operations the current task is running. *)
Definition sched_inv (s : sys) : Prop :=
  sched_base s ∧ status (current s) s = Some Running.

(** What [resched] is called with: a running task, a task that was just blocked
    where it can be woken, or one that just exited. *)
Definition resched_pre (s : sys) : Prop :=
  sched_base s ∧
  (status (current s) s = Some Running ∨
   status (current s) s = Some Blocked ∨
   (status (current s) s = Some Exited ∧ current s ∈ EXITED_TASKS s)).

End api.
