(* ===== verification/SchedInv.v ===== *)
(** Invariants of the scheduler: every operation of [Sched] returns without an
    assertion failing, and keeps the run queue, the wait queues, the timers and
    the states of the tasks consistent. *)

From S2P Require Import Prelude Task Sched.
From stdpp Require Import prelude gmap strings sorting.
From Stdlib Require Import ZArith Lia.
Local Open Scope Z_scope.

(** ** Lemmas *)

Section proofs.
Context {Sch Tim : Type} `{BaseSchedulerLaws Sch, TimerListLaws Tim}.
Abbreviation sys := (sys Sch Tim).
Implicit Types s : sys.

Lemma test_status st t s :
  test (λ x, bool_decide (state x = st)) t s = bool_decide (status t s = Some st).
Proof.
  unfold test, status. destruct (tasks s !! t); simpl; [|done].
  apply bool_decide_ext. naive_solver.
Qed.

Lemma test_idle t s : test is_idle t s = bool_decide (idleness t s = Some true).
Proof.
  unfold test, idleness. destruct (tasks s !! t) as [x|]; simpl; [|done].
  by destruct (is_idle x).
Qed.

(** Updates of fields other than the state and idleness are invisible here. *)
Definition core_eq (f : TaskInner → TaskInner) : Prop :=
  ∀ x, state (f x) = state x ∧ is_idle (f x) = is_idle x.

Lemma test_upd p t t' f s : (∀ x, p (f x) = p x) → test p t (upd t' f s) = test p t s.
Proof.
  intros Hp. unfold test, upd; simpl. rewrite lookup_alter. case_decide; [|done].
  subst. destruct (tasks s !! t); [apply Hp|done].
Qed.
Lemma set_current_id t s : current s = t → set_current t s = s.
Proof. intros <-. by destruct s. Qed.
Lemma lookup_upd_ne t t' f s : t ≠ t' → tasks (upd t' f s) !! t = tasks s !! t.
Proof. intros. simpl. by apply lookup_alter_ne. Qed.
Lemma status_upd t t' f s :
  status t (upd t' f s) = if decide (t = t') then (λ x, state (f x)) <$> tasks s !! t else status t s.
Proof.
  unfold status, upd; simpl. rewrite lookup_alter. repeat case_decide; simplify_eq; try done.
  by rewrite <- option_fmap_compose.
Qed.
Lemma idleness_upd t t' f s :
  (∀ x, is_idle (f x) = is_idle x) → idleness t (upd t' f s) = idleness t s.
Proof.
  intros Hf. unfold idleness, upd; simpl. rewrite lookup_alter. case_decide; [|done].
  subst. rewrite <- option_fmap_compose. by apply option_fmap_ext.
Qed.
Lemma status_upd_core t t' f s : core_eq f → status t (upd t' f s) = status t s.
Proof.
  intros Hf. rewrite status_upd. case_decide; [|done]. subst. unfold status.
  apply option_fmap_ext. intros x. apply Hf.
Qed.
Lemma status_upd_ne t t' f s : t ≠ t' → status t (upd t' f s) = status t s.
Proof. intros. rewrite status_upd. by case_decide. Qed.
Lemma status_upd_set t st s :
  is_Some (tasks s !! t) → status t (upd t (set_state st) s) = Some st.
Proof. intros [x Hx]. rewrite status_upd, decide_True, Hx by done. done. Qed.

Lemma status_is_Some t s st : status t s = Some st → is_Some (tasks s !! t).
Proof. unfold status. destruct (tasks s !! t); [by eexists|done]. Qed.

(** Two states that only differ in what the invariants do not look at, and in
    how the tasks of [D] can be woken. *)
Record same_view_but (D : Z → Prop) s s' : Prop := {
  sv_status t : status t s' = status t s;
  sv_idle t : idleness t s' = idleness t s;
  sv_queue : queued (scheduler s') ≡ₚ queued (scheduler s);
  sv_wake t : ¬ D t → wakeable t s → status t s = Some Blocked → wakeable t s';
  sv_exited t : t ∈ EXITED_TASKS s' ↔ t ∈ EXITED_TASKS s;
  sv_current : current s' = current s;
  sv_IDLE : IDLE_TASK s' = IDLE_TASK s;
  sv_ids : ID_COUNTER s' = ID_COUNTER s;
}.
Abbreviation same_view := (same_view_but (λ _, False)).

Lemma same_view_base s s' : same_view s s' → sched_base s → sched_base s'.
Proof.
  intros [Hst Hid Hq Hw Hex Hc HI Hids] [B1 B2 B3 B4 B5 B6 B7 B8]. split.
  - intros t. rewrite Hst, Hc. apply B1.
  - by rewrite Hq.
  - intros t. rewrite Hq, Hst, HI. apply B3.
  - intros t. rewrite Hst. intros Hb. apply Hw; [auto|by apply B4|done].
  - intros t. rewrite Hid, HI. apply B5.
  - rewrite HI, !Hst. done.
  - intros t. rewrite Hex, Hst. apply B7.
  - intros t [x Hx]. rewrite Hids. apply B8. apply (status_is_Some _ _ (state x)).
    rewrite <- Hst. unfold status. by rewrite Hx.
Qed.

Lemma same_view_inv s s' : same_view s s' → sched_inv s → sched_inv s'.
Proof.
  intros Hv [Hb Hc]. split; [by eapply same_view_base|].
  by rewrite (sv_current _ _ _ Hv), (sv_status _ _ _ Hv).
Qed.

Lemma same_view_pre s s' : same_view s s' → resched_pre s → resched_pre s'.
Proof.
  intros Hv [Hb Hc]. split; [by eapply same_view_base|].
  by rewrite (sv_current _ _ _ Hv), (sv_status _ _ _ Hv), (sv_exited _ _ _ Hv).
Qed.

Lemma same_view_refl s : same_view s s.
Proof. by split. Qed.

Lemma same_view_upd t f s : core_eq f → same_view s (upd t f s).
Proof.
  intros Hf. split; try done.
  - intros. by apply status_upd_core.
  - intros. apply idleness_upd. apply Hf.
Qed.

Lemma same_view_trans s1 s2 s3 : same_view s1 s2 → same_view s2 s3 → same_view s1 s3.
Proof.
  intros [A1 A2 A3 A4 A5 A6 A7 A8] [B1 B2 B3 B4 B5 B6 B7 B8]. split; intros; try congruence.
  - by rewrite B3.
  - apply B4; [auto|by apply A4|by rewrite A1].
  - by rewrite B5.
Qed.


(** ** [resched] *)

(** The state [resched] picks from: nobody runs. *)
Definition pool (s : sys) : Prop :=
  sched_base s ∧ (∀ t, status t s ≠ Some Running) ∧
  is_Some (status (current s) s) ∧
  (status (current s) s = Some Exited → current s ∈ EXITED_TASKS s).

Definition put_back (preempt : bool) (s : sys) : sys :=
  let prev := current s in
  if is_running prev s then
    let s := upd prev (set_state Ready) s in
    if test is_idle prev s then s
    else set_scheduler (sched_put_prev_task prev preempt (scheduler s)) s
  else s.

Lemma status_put_back preempt s t :
  status (current s) s = Some Running →
  status t (put_back preempt s) = if decide (t = current s) then Some Ready else status t s.
Proof.
  intros Hr. unfold put_back, is_running. rewrite test_status, bool_decide_true by done.
  cbv zeta. destruct (test is_idle _ _);
    (unfold status at 1; simpl; change (state <$> _) with (status t (upd (current s) (set_state Ready) s));
     destruct (decide (t = current s)) as [->|];
     [apply status_upd_set; by eapply status_is_Some|by apply status_upd_ne]).
Qed.

Lemma queued_put_back preempt s :
  status (current s) s = Some Running → sched_base s →
  (current s = IDLE_TASK s ∧ queued (scheduler (put_back preempt s)) = queued (scheduler s)) ∨
  (current s ≠ IDLE_TASK s ∧ queued (scheduler (put_back preempt s)) ≡ₚ current s :: queued (scheduler s)).
Proof.
  intros Hr HB. unfold put_back, is_running. rewrite test_status, bool_decide_true by done.
  cbv zeta. rewrite test_idle, idleness_upd by done. case_bool_decide as Hi.
  - left. split; [by apply HB|done].
  - right. split; [by rewrite <- (base_idle _ HB)|apply queued_put].
Qed.

Lemma put_back_others preempt s :
  let s' := put_back preempt s in
  (∀ t, idleness t s' = idleness t s) ∧ wqs s' = wqs s ∧ timers s' = timers s ∧
  EXITED_TASKS s' = EXITED_TASKS s ∧ current s' = current s ∧ IDLE_TASK s' = IDLE_TASK s ∧
  ID_COUNTER s' = ID_COUNTER s ∧ (∀ t, is_Some (tasks s' !! t) → is_Some (tasks s !! t)).
Proof.
  assert (Hal : ∀ t, is_Some (tasks (upd (current s) (set_state Ready) s) !! t) →
                     is_Some (tasks s !! t)).
  { intros t. simpl. rewrite lookup_alter. case_decide; [subst; by rewrite fmap_is_Some|done]. }
  unfold put_back. destruct (is_running _ _); [|done].
  cbv zeta. destruct (test is_idle _ _); split_and!; try done; intros; by apply idleness_upd.
Qed.

Lemma pool_put_back preempt s : resched_pre s → pool (put_back preempt s).
Proof.
  intros [HB Hc]. destruct (decide (status (current s) s = Some Running)) as [Hr|Hr].
  - destruct (put_back_others preempt s) as (Hid & Hw & Ht & He & Hcu & HI & Hids & Hex).
    assert (Hst : ∀ t, status t (put_back preempt s) =
      if decide (t = current s) then Some Ready else status t s) by (intros; by apply status_put_back).
    split_and!; [split|..].
    + intros t. rewrite Hst. case_decide; [done|]. rewrite Hcu. apply HB.
    + destruct (queued_put_back preempt s Hr HB) as [[_ ->]|[_ ->]]; [apply HB|].
      constructor; [rewrite (base_queue _ HB); naive_solver|apply HB].
    + intros t. rewrite Hst, HI. destruct (queued_put_back preempt s Hr HB) as [[Hci ->]|[Hci ->]];
        [|rewrite elem_of_cons]; rewrite (base_queue _ HB); case_decide; naive_solver.
    + intros t. rewrite Hst. case_decide; [done|]. unfold wakeable, wq_get. rewrite Hw, Ht. apply HB.
    + intros t. rewrite Hid, HI. apply HB.
    + rewrite HI, !Hst. case_decide; [by right|]. destruct (base_idle_state _ HB); [left|right]; done.
    + intros t. rewrite He, Hst. case_decide; [|apply HB].
      intros Hin%(base_exited _ HB). subst. congruence.
    + intros t Hx. rewrite Hids. apply HB. by apply Hex.
    + intros t. rewrite Hst. case_decide; [done|]. intros Hrt%(base_one_running _ HB). done.
    + rewrite Hcu, Hst, decide_True by done. by eexists.
    + rewrite Hcu, Hst, decide_True by done. done.
  - assert (put_back preempt s = s) as ->.
    { unfold put_back, is_running. by rewrite test_status, bool_decide_false. }
    split_and!; [done| |naive_solver..].
    intros t Ht. pose proof (base_one_running _ HB _ Ht). naive_solver.
Qed.

Lemma occurrences_elem t l : t ∈ l → (1 ≤ occurrences t l)%nat.
Proof.
  intros Ht. unfold occurrences. assert (t ∈ filter (λ x, x = t) l) as Hf by by apply list_elem_of_filter.
  destruct (filter _ l); [by apply not_elem_of_nil in Hf|simpl; lia].
Qed.
Lemma occurrences_0 t l : occurrences t l = 0%nat → t ∉ l.
Proof. intros Ho Hin%occurrences_elem. lia. Qed.

Lemma wq_count_elem t (m : gmap WaitQueueId (list Z)) q l :
  m !! q = Some l → t ∈ l → (1 ≤ map_fold (λ _ l n, (occurrences t l + n)%nat) 0%nat m)%nat.
Proof.
  intros Hq Hin. rewrite (map_fold_delete_L _ _ _ _ _) by (done || intros; lia).
  pose proof (occurrences_elem _ _ Hin). lia.
Qed.

Lemma strong_count_wakeable t s :
  wakeable t s → ((if (current s =? t)%Z then 1 else 0) < strong_count t s)%nat.
Proof.
  unfold strong_count. intros [[q Hq]|[d Hd]].
  - unfold wq_get in Hq. destruct (wqs s !! q) as [l|] eqn:Hl; [|by apply not_elem_of_nil in Hq].
    pose proof (wq_count_elem _ _ _ _ Hl Hq). lia.
  - assert (t ∈ snd <$> timer_events (timers s)) as Hin by (apply list_elem_of_fmap; by exists (d, t)).
    pose proof (occurrences_elem _ _ Hin). lia.
Qed.


(** [switch_to] never trips over its reference count: the task switched away
    from is held by the queue it is in. *)
Lemma strong_count_held t s :
  wakeable t s ∨ t ∈ queued (scheduler s) ∨ t ∈ EXITED_TASKS s ∨ t = IDLE_TASK s →
  ((if (current s =? t)%Z then 1 else 0) < strong_count t s)%nat.
Proof.
  intros [Hw|[Hq|[He|Hi]]]; [by apply strong_count_wakeable|..]; unfold strong_count.
  - pose proof (occurrences_elem _ _ Hq). lia.
  - pose proof (occurrences_elem _ _ He). lia.
  - rewrite (proj2 (Z.eqb_eq (IDLE_TASK s) t)) by done. lia.
Qed.

(** The state after picking [next] and marking it running. *)
Definition picked (next : Z) (sch : Sch) (s : sys) : sys :=
  upd next (set_state Running) (upd next (set_preempt_pending false) (set_scheduler sch s)).

Lemma status_picked next sch s t :
  is_Some (tasks s !! next) →
  status t (picked next sch s) = if decide (t = next) then Some Running else status t s.
Proof.
  intros Hn. unfold picked. case_decide as Heq.
  - subst. apply status_upd_set. simpl. rewrite lookup_alter_eq. by apply fmap_is_Some.
  - rewrite !status_upd_ne by done. done.
Qed.

Lemma pool_picked s next sch s' :
  pool s →
  (queued (scheduler s) ≡ₚ next :: queued sch ∨
   next = IDLE_TASK s ∧ queued (scheduler s) = [] ∧ queued sch = []) →
  s' = picked next sch s → sched_base (set_current next s') ∧ status next s' = Some Running ∧
  (next ≠ current s → wakeable (current s) s' ∨ current s ∈ queued (scheduler s') ∨
     current s ∈ EXITED_TASKS s' ∨ current s = IDLE_TASK s').
Proof.
  intros (HB & Hnr & [st Hst0] & Hcx) Hpick ->.
  assert (Hnext : status next s = Some Ready ∧ next ∉ queued sch ∧ NoDup (queued sch)).
  { pose proof (base_nodup _ HB) as Hnd. destruct Hpick as [Hp|(->&_&->)].
    - rewrite Hp in Hnd. apply NoDup_cons in Hnd as [??]. split_and!; [|done..].
      apply (base_queue _ HB). rewrite Hp. by left.
    - split_and!; [|apply not_elem_of_nil|constructor]. destruct (base_idle_state _ HB) as [Hi|]; [|done].
      by apply Hnr in Hi. }
  destruct Hnext as (Hn & Hnin & Hnd).
  assert (Hq : ∀ t, t ∈ queued sch ↔ t ∈ queued (scheduler s) ∧ t ≠ next).
  { intros t. destruct Hpick as [->|(->&->&->)]; [|set_solver]. rewrite elem_of_cons. naive_solver. }
  assert (Hst : ∀ t, status t (picked next sch s) = if decide (t = next) then Some Running else status t s).
  { intros. apply status_picked. by eapply status_is_Some. }
  split_and!; [split|..].
  - intros t Ht. simpl. change (status t (picked next sch s) = Some Running) in Ht.
    rewrite Hst in Ht. case_decide; [done|]. by apply Hnr in Ht.
  - done.
  - intros t. change (t ∈ queued sch ↔ status t (picked next sch s) = Some Ready ∧ t ≠ IDLE_TASK s).
    rewrite Hq, Hst, (base_queue _ HB). case_decide; naive_solver.
  - intros t Ht. change (status t (picked next sch s) = Some Blocked) in Ht.
    rewrite Hst in Ht. case_decide; [done|]. by apply (base_blocked _ HB).
  - intros t. change (idleness t (picked next sch s) = Some true ↔ t = IDLE_TASK s).
    unfold picked. rewrite !idleness_upd by done. apply (base_idle _ HB).
  - change (status (IDLE_TASK s) (picked next sch s) = Some Running ∨
            status (IDLE_TASK s) (picked next sch s) = Some Ready).
    rewrite !Hst. case_decide; [by left|]. apply HB.
  - intros t Ht. change (status t (picked next sch s) = Some Exited). rewrite Hst.
    apply (base_exited _ HB) in Ht. case_decide; [congruence|done].
  - intros t [x Hx]. apply (base_ids _ HB). change (tasks (picked next sch s) !! t = Some x) in Hx.
    pose proof (Hst t) as Ht. unfold status in Ht at 1. rewrite Hx in Ht. simpl in Ht.
    case_decide; [subst; by eapply status_is_Some|]. by eapply status_is_Some.
  - rewrite Hst. by rewrite decide_True.
  - intros Hne. destruct st.
    + by apply Hnr in Hst0.
    + destruct (decide (current s = IDLE_TASK s)); [by do 3 right|].
      right; left. apply Hq. split; [|done]. by apply (base_queue _ HB).
    + left. by apply (base_blocked _ HB).
    + right; right; left. by apply Hcx.
Qed.

(** [resched] always finds a task to run, never trips its assertion, and leaves
    the new current task running with no preemption pending. *)
Lemma resched_ok preempt s :
  resched_pre s →
  ∃ s', resched preempt s = Ret s' ∧ sched_inv s' ∧ test need_resched (current s') s' = false.
Proof.
  intros Hpre. pose proof (pool_put_back preempt _ Hpre) as Hpool.
  pose proof (put_back_others preempt s) as (_ & _ & _ & _ & Hcu & _ & _ & _).
  unfold resched. fold (put_back preempt s). cbv zeta.
  destruct (sched_pick_next_task (scheduler (put_back preempt s))) as [o sch] eqn:Hp.
  set (s1 := put_back preempt s) in *. set (next := default (IDLE_TASK s1) o).
  assert (Hpick : queued (scheduler s1) ≡ₚ next :: queued sch ∨
    next = IDLE_TASK s1 ∧ queued (scheduler s1) = [] ∧ queued sch = []).
  { destruct o as [t|]; [left; by apply queued_pick_Some in Hp|right].
    apply queued_pick_None in Hp as [??]. done. }
  destruct (pool_picked s1 next sch _ Hpool Hpick eq_refl) as (HB & Hrun & Hheld).
  assert (Hnr : test need_resched next (picked next sch s1) = false).
  { unfold test. simpl. rewrite !lookup_alter_eq. by destruct (tasks s1 !! next). }
  change (∃ s', switch_to (current s) next (set_scheduler sch s1) = Ret s' ∧ sched_inv s' ∧
    test need_resched (current s') s' = false).
  unfold switch_to. cbv zeta. fold (picked next sch s1). rewrite <- Hcu in *.
  destruct (Z.eqb_spec (current s1) next) as [Heq|Hne].
  - eexists. split; [done|]. rewrite <- (set_current_id next (picked next sch s1)) by done.
    split; [split; [exact HB|exact Hrun]|exact Hnr].
  - rewrite (proj2 (Nat.ltb_lt _ _)).
    + eexists. split; [done|]. split.
      * apply (same_view_inv (set_current next (picked next sch s1))); [|by split].
        apply (same_view_upd (current s1) (set_ctx CtxSwitch) (set_current next (picked next sch s1))). by split.
      * change (test need_resched next (upd (current s1) (set_ctx CtxSwitch) (picked next sch s1)) = false).
        unfold test in Hnr |- *. rewrite lookup_upd_ne by done. done.
    + pose proof (strong_count_held (current s1) (picked next sch s1)) as Hsc.
      change (current (picked next sch s1)) with (current s1) in Hsc.
      rewrite Z.eqb_refl in Hsc. apply Hsc, Hheld. congruence.
Qed.


(** ** Dropping the run queue lock *)

Lemma core_eq_count n : core_eq (λ x, set_preempt_count (n x) x).
Proof. by split. Qed.
Hint Resolve core_eq_count : kernel.

Lemma inv_pre s : sched_inv s → resched_pre s.
Proof. intros [??]. split; [done|by left]. Qed.

Lemma inv_running s : sched_inv s → is_running (current s) s = true.
Proof. intros [_ Hr]. unfold is_running. rewrite test_status. by rewrite bool_decide_true. Qed.

Lemma same_view_disable s : same_view s (disable_preempt s).
Proof. apply same_view_upd. apply core_eq_count. Qed.

Lemma inv_disable s : sched_inv s → sched_inv (disable_preempt s).
Proof. apply same_view_inv, same_view_disable. Qed.

Lemma pre_disable s : resched_pre s → resched_pre (disable_preempt s).
Proof. apply same_view_pre, same_view_disable. Qed.

Lemma preempt_resched_ok s :
  sched_inv s → ∃ s', preempt_resched s = Ret s' ∧ sched_inv s' ∧
    (can_preempt 1 (current s) s = true → test need_resched (current s') s' = false).
Proof.
  intros Hi. unfold preempt_resched. rewrite inv_running by done.
  destruct (can_preempt 1 (current s) s).
  - destruct (resched_ok true s) as (s' & -> & ? & ?); [by apply inv_pre|]. by eexists.
  - eexists. split; [done|]. split; [|done]. apply (same_view_inv s); [|done].
    apply same_view_upd. by split.
Qed.

Lemma can_preempt_disable n s :
  0 ≤ n < usize_max → can_preempt n (current s) s = true →
  can_preempt (n + 1) (current s) (disable_preempt s) = true.
Proof.
  intros Hn. unfold can_preempt, test, disable_preempt. simpl. rewrite lookup_alter_eq.
  destruct (tasks s !! current s) as [x|]; [simpl|done].
  intros ->%Z.eqb_eq. apply Z.eqb_eq. apply uadd_small; unfold in_usize, usize_max in *; lia.
Qed.

Lemma enable_preempt_unfold n s :
  enable_preempt (S n) s =
    let s1 := upd (current s) (λ x, set_preempt_count (usub (preempt_disable_count x) 1) x) s in
    if can_preempt 1 (current s) s && test need_resched (current s) s1 && can_preempt 0 (current s) s1 then
      let s2 := disable_preempt s1 in
      match (if test need_resched (current s) s2 then preempt_resched s2 else Ret s2) with
      | Ret s3 =>
          if test (λ x, bool_decide (ctx x = CtxEntry)) (current s3) s3
          then Ret (upd (current s3) (set_ctx CtxNew) s3)
          else enable_preempt n s3
      | Panic => Panic
      end
    else Ret s1.
Proof. done. Qed.

Lemma enable_preempt_quiet n s :
  test need_resched (current s) s = false →
  enable_preempt (S n) s = Ret (upd (current s) (λ x, set_preempt_count (usub (preempt_disable_count x) 1) x) s).
Proof.
  intros Hq. rewrite enable_preempt_unfold. cbv zeta.
  set (s1 := upd _ _ s). assert (test need_resched (current s) s1 = false) as ->.
  { unfold s1. by rewrite test_upd. }
  by rewrite andb_false_r.
Qed.

(** Dropping the lock serves at most one pending preemption: two rounds are
    always enough, and no assertion fails on the way. *)
Lemma enable_preempt_ok s : sched_inv s → ∃ s', enable_preempt 2 s = Ret s' ∧ sched_inv s'.
Proof.
  intros Hi. rewrite enable_preempt_unfold. cbv zeta.
  set (s1 := upd _ _ s).
  assert (Hi1 : sched_inv s1) by (apply (same_view_inv s), Hi; apply same_view_upd, core_eq_count).
  destruct (can_preempt 1 (current s) s && _ && can_preempt 0 (current s) s1) eqn:Hc;
    [|by eexists].
  apply andb_true_iff in Hc as [[_ Hn]%andb_true_iff H0c].
  assert (Hi2 : sched_inv (disable_preempt s1)) by by apply inv_disable.
  assert (test need_resched (current s) (disable_preempt s1) = true) as ->.
  { rewrite <- Hn. unfold disable_preempt. by rewrite test_upd. }
  destruct (preempt_resched_ok _ Hi2) as (s3 & Hs3 & Hi3 & Hq). rewrite Hs3.
  assert (test need_resched (current s3) s3 = false) as Hq'.
  { apply Hq. apply (can_preempt_disable 0 s1); [unfold usize_max, usize_mod; lia|done]. }
  destruct (test (λ x, bool_decide (ctx x = CtxEntry)) (current s3) s3).
  - eexists. split; [done|]. apply (same_view_inv s3); [|done]. apply same_view_upd. by split.
  - rewrite enable_preempt_quiet by done. eexists. split; [done|].
    apply (same_view_inv s3); [|done]. apply same_view_upd, core_eq_count.
Qed.

Lemma leave_ok s : sched_inv s → ∃ s', leave s = Ret s' ∧ sched_inv s'.
Proof.
  intros Hi. unfold leave. destruct (test _ (current s) s); [|by apply enable_preempt_ok].
  eexists. split; [done|]. apply (same_view_inv s); [|done]. apply same_view_upd. by split.
Qed.

Lemma with_rq_ok (body : sys → outcome sys) s :
  sched_inv s → (∀ s1, s1 = disable_preempt s → sched_inv s1 → ∃ s2, body s1 = Ret s2 ∧ sched_inv s2) →
  ∃ s', with_rq body s = Ret s' ∧ sched_inv s'.
Proof.
  intros Hi Hbody. destruct (Hbody _ eq_refl (inv_disable _ Hi)) as (s2 & Hs2 & Hi2).
  unfold with_rq. rewrite Hs2. simpl. by apply leave_ok.
Qed.


(** ** Waking tasks *)

Lemma same_view_but_not t s s' :
  same_view_but (λ t', t' = t) s s' → status t s ≠ Some Blocked → same_view s s'.
Proof.
  intros [A1 A2 A3 A4 A5 A6 A7 A8] Hnb. split; try done.
  intros t' _ Hw Hb. apply A4; [|done..]. by intros ->.
Qed.

(** Unblocking [t] after removing it from a wait queue or the timers. *)
Lemma unblock_base t r s s1 :
  same_view_but (λ t', t' = t) s s1 → sched_base s → sched_base (unblock_task t r s1).
Proof.
  intros Hv HB. unfold unblock_task, is_blocked. rewrite test_status, (sv_status _ _ _ Hv).
  case_bool_decide as Hb; [|by eapply same_view_base; [eapply same_view_but_not|]].
  destruct Hv as [A1 A2 A3 A4 A5 A6 A7 A8]. destruct HB as [B1 B2 B3 B4 B5 B6 B7 B8].
  set (s2 := upd t (set_state Ready) s1).
  assert (Hst : ∀ t', status t' s2 = if decide (t' = t) then Some Ready else status t' s).
  { intros t'. unfold s2. destruct (decide (t' = t)) as [->|].
    - apply status_upd_set. apply (status_is_Some _ _ Blocked). by rewrite A1.
    - rewrite status_upd_ne by done. apply A1. }
  assert (HB : sched_base (set_scheduler (sched_add_task t (scheduler s2)) s2)).
  { assert (Hid : ∀ t', idleness t' s2 = idleness t' s) by (intros; unfold s2; by rewrite idleness_upd).
    assert (Hti : t ≠ IDLE_TASK s) by (intros ->; destruct B6; congruence).
    split; intros; change (scheduler (set_scheduler ?x _)) with x in *;
      change (status ?u (set_scheduler _ s2)) with (status u s2) in *;
      change (idleness ?u (set_scheduler _ s2)) with (idleness u s2) in *; simpl.
    - rewrite A6. apply B1. rewrite Hst in *. by case_decide.
    - rewrite queued_add, A3. constructor; [|done]. rewrite B3. naive_solver.
    - rewrite queued_add, elem_of_cons, A3, B3, Hst, A7. case_decide; naive_solver.
    - rewrite Hst in *. case_decide; [done|]. by apply A4; [..|apply B4|].
    - rewrite Hid, A7. apply B5.
    - rewrite A7, !Hst. case_decide; [by right|done].
    - rewrite Hst. apply A5, B7 in H3. case_decide; [congruence|done].
    - rewrite A8. apply B8. destruct H3 as [x Hx].
      apply (f_equal (fmap state)) in Hx. change (status t0 s2 = Some (state x)) in Hx.
      rewrite Hst in Hx. case_decide; [subst|]; by eapply status_is_Some. }
  destruct r; [|done]. eapply same_view_base; [|exact HB]. apply same_view_upd. by split.
Qed.

Lemma unblock_current t r s : current (unblock_task t r s) = current s.
Proof. unfold unblock_task. by destruct (is_blocked t s), r. Qed.

Lemma unblock_status t r s u :
  status u (unblock_task t r s) =
  if decide (u = t ∧ status t s = Some Blocked) then Some Ready else status u s.
Proof.
  unfold unblock_task, is_blocked. rewrite test_status. case_bool_decide as Hb.
  - transitivity (status u (upd t (set_state Ready) s)).
    { destruct r; [|done]. rewrite status_upd_core by by split. done. }
    destruct (decide (u = t)) as [->|].
    + rewrite decide_True by done. apply status_upd_set. by eapply status_is_Some.
    + rewrite decide_False by naive_solver. by apply status_upd_ne.
  - rewrite decide_False by naive_solver. done.
Qed.

Lemma unblock_inv t r s s1 :
  same_view_but (λ t', t' = t) s s1 → sched_inv s → sched_inv (unblock_task t r s1).
Proof.
  intros Hv [HB Hr]. split; [by eapply unblock_base|].
  rewrite unblock_current, unblock_status, (sv_current _ _ _ Hv), !(sv_status _ _ _ Hv).
  rewrite decide_False; [done|]. intros [<- ?]. congruence.
Qed.

(** Removing occurrences of [t] from one wait queue. *)
Lemma same_view_wq_set t q l s :
  (∀ u, u ≠ t → u ∈ wq_get q s → u ∈ l) → same_view_but (λ t', t' = t) s (wq_set q l s).
Proof.
  intros Hl. split; try done. intros u Hu [[q' Hq]|Hd] _; [|by right]. left.
  exists q'. unfold wq_get, wq_set in *. simpl. destruct (decide (q = q')) as [->|].
  - rewrite lookup_insert_eq. by apply Hl.
  - by rewrite lookup_insert_ne.
Qed.

Lemma same_view_but_upd D t f s s' : core_eq f → same_view_but D s s' → same_view_but D s (upd t f s').
Proof.
  intros Hf [A1 A2 A3 A4 A5 A6 A7 A8]. split; try done.
  - intros. rewrite status_upd_core by done. apply A1.
  - intros. rewrite idleness_upd by apply Hf. apply A2.
Qed.


Lemma same_view_but_trans D s1 s2 s3 : same_view s1 s2 → same_view_but D s2 s3 → same_view_but D s1 s3.
Proof.
  intros [A1 A2 A3 A4 A5 A6 A7 A8] [B1 B2 B3 B4 B5 B6 B7 B8]. split; intros; try congruence.
  - by rewrite B3.
  - apply B4; [done|apply A4; auto|by rewrite A1].
  - by rewrite B5.
Qed.

Lemma notify_one_locked_base q r s : sched_base s → sched_base (notify_one_locked q r s).2.
Proof.
  intros HB. unfold notify_one_locked. destruct (wq_get q s) as [|t l] eqn:Hq; [done|].
  apply (unblock_base t r s); [|done]. apply same_view_but_upd; [by split|].
  apply same_view_wq_set. rewrite Hq. set_solver.
Qed.

(** What waking leaves alone: the current task, the exited tasks, and the state of
    every task that is not blocked. *)
Record woken s s' : Prop := {
  wo_current : current s' = current s;
  wo_exited : EXITED_TASKS s' = EXITED_TASKS s;
  wo_status t : status t s ≠ Some Blocked → status t s' = status t s;
  wo_code t : exit_code <$> tasks s' !! t = exit_code <$> tasks s !! t;
  wo_halted : halted s' = halted s;
  wo_blocked t : status t s = Some Blocked → status t s' = Some Blocked ∨ status t s' = Some Ready;
}.
Lemma woken_refl s : woken s s.
Proof. split; auto. Qed.
Lemma woken_trans s1 s2 s3 : woken s1 s2 → woken s2 s3 → woken s1 s3.
Proof.
  intros [A1 A2 A3 A4 A5 A6] [B1 B2 B3 B4 B5 B6]. split; intros; try congruence.
  - rewrite B3 by (by rewrite A3). by apply A3.
  - destruct (A6 t) as [?|Hr]; [done|by apply B6|]. rewrite B3; rewrite Hr; auto.
Qed.
Lemma exit_code_upd t u f s :
  (∀ x, exit_code (f x) = exit_code x) → exit_code <$> tasks (upd t f s) !! u = exit_code <$> tasks s !! u.
Proof.
  intros Hf. simpl. rewrite lookup_alter. case_decide; [|done]. subst.
  destruct (tasks s !! u); simpl; [by rewrite Hf|done].
Qed.
Lemma woken_upd t f s :
  core_eq f → (∀ x, exit_code (f x) = exit_code x) → woken s (upd t f s).
Proof.
  split; try done; intros; [by apply status_upd_core|by apply exit_code_upd|].
  rewrite status_upd_core by done. by left.
Qed.
Lemma woken_unblock t r s : woken s (unblock_task t r s).
Proof.
  split.
  - apply unblock_current.
  - unfold unblock_task. by destruct (is_blocked t s), r.
  - intros u Hu. rewrite unblock_status. rewrite decide_False; [done|]. naive_solver.
  - intros u. unfold unblock_task. destruct (is_blocked t s), r; try done;
      rewrite ?exit_code_upd by done; cbv zeta; unfold set_scheduler; simpl tasks; by apply exit_code_upd.
  - unfold unblock_task. by destruct (is_blocked t s), r.
  - intros u Hu. rewrite unblock_status. case_decide; [by right|by left].
Qed.
Lemma woken_notify_one_locked q r s : woken s (notify_one_locked q r s).2.
Proof.
  unfold notify_one_locked. destruct (wq_get q s) as [|t l]; [apply woken_refl|]. simpl.
  eapply woken_trans, woken_unblock. apply (woken_trans _ (wq_set q l s)); [split; auto|by apply woken_upd].
Qed.

Lemma notify_all_loop_unfold n q r s :
  notify_all_loop (S n) q r s =
    if decide (wq_get q s = []) then s else notify_all_loop n q r (notify_one_locked q r s).2.
Proof. simpl. unfold notify_one_locked. by destruct (wq_get q s). Qed.

Lemma woken_notify_all_loop n q r s : woken s (notify_all_loop n q r s).
Proof.
  revert s. induction n as [|n IH]; intros s; [apply woken_refl|].
  rewrite notify_all_loop_unfold. case_decide; [apply woken_refl|].
  eapply woken_trans, IH. apply woken_notify_one_locked.
Qed.

Lemma notify_all_loop_base n q r s : sched_base s → sched_base (notify_all_loop n q r s).
Proof.
  revert s. induction n as [|n IH]; intros s HB; [done|].
  rewrite notify_all_loop_unfold. case_decide; [done|]. by apply IH, notify_one_locked_base.
Qed.

Lemma inv_woken s s' : sched_inv s → sched_base s' → woken s s' → sched_inv s'.
Proof.
  intros [HB Hr] HB' Hw. split; [done|]. rewrite (wo_current _ _ Hw).
  rewrite (wo_status _ _ Hw); congruence.
Qed.

Lemma notify_one_locked_inv q r s : sched_inv s → sched_inv (notify_one_locked q r s).2.
Proof.
  intros Hi. eapply inv_woken; [done| |apply woken_notify_one_locked].
  apply notify_one_locked_base, Hi.
Qed.

(** The current task stops: it was blocked or it exited. *)
Lemma base_stop st s s1 :
  sched_inv s → current s ≠ IDLE_TASK s → st ≠ Running → st ≠ Ready →
  (∀ t, status t s1 = if decide (t = current s) then Some st else status t s) →
  (∀ t, idleness t s1 = idleness t s) → scheduler s1 = scheduler s →
  (∀ t, wakeable t s → wakeable t s1) → (st = Blocked → wakeable (current s) s1) →
  EXITED_TASKS s1 = EXITED_TASKS s → current s1 = current s → IDLE_TASK s1 = IDLE_TASK s →
  ID_COUNTER s1 = ID_COUNTER s → sched_base s1.
Proof.
  intros [[B1 B2 B3 B4 B5 B6 B7 B8] Hr] Hni Hn1 Hn2 Hst Hid Hsch Hw Hb He Hc HI Hids. split.
  - intros t. rewrite Hst, Hc. case_decide; [congruence|auto].
  - by rewrite Hsch.
  - intros t. rewrite Hsch, B3, Hst, HI. case_decide; naive_solver.
  - intros t. rewrite Hst. case_decide; naive_solver.
  - intros t. rewrite Hid, HI. apply B5.
  - rewrite HI, !Hst, !decide_False by congruence. done.
  - intros t. rewrite He, Hst. intros Hx%B7. case_decide; [congruence|done].
  - intros t [x Hx]. rewrite Hids. apply B8. apply (f_equal (fmap state)) in Hx.
    change (status t s1 = Some (state x)) in Hx. rewrite Hst in Hx.
    case_decide; [subst|]; by eapply status_is_Some.
Qed.


(** ** What a context switch leaves alone *)

Record switched s s' : Prop := {
  sw_wqs : wqs s' = wqs s;
  sw_timers : timers s' = timers s;
  sw_EXITED : EXITED_TASKS s' = EXITED_TASKS s;
  sw_IDLE : IDLE_TASK s' = IDLE_TASK s;
  sw_time : wall_time s' = wall_time s;
  sw_halted : halted s' = halted s;
  sw_blocked t : status t s' = Some Blocked ↔ status t s = Some Blocked;
  sw_exited t : status t s' = Some Exited ↔ status t s = Some Exited;
  sw_code t : exit_code <$> tasks s' !! t = exit_code <$> tasks s !! t;
}.
Lemma switched_refl s : switched s s.
Proof. by split. Qed.
Lemma switched_trans s1 s2 s3 : switched s1 s2 → switched s2 s3 → switched s1 s3.
Proof.
  intros [A1 A2 A3 A4 A5 A6 A7 A8 A9] [B1 B2 B3 B4 B5 B6 B7 B8 B9]. split; intros; try congruence.
  - by rewrite B7.
  - by rewrite B8.
Qed.
Lemma switched_upd t f s :
  core_eq f → (∀ x, exit_code (f x) = exit_code x) → switched s (upd t f s).
Proof.
  intros Hf Hc. split; try done; intros; [by rewrite status_upd_core..|by apply exit_code_upd].
Qed.

Lemma switched_put_back b s : switched s (put_back b s).
Proof.
  pose proof (put_back_others b s) as (_ & Hw & Ht & He & _ & HI & _).
  assert (Hst : ∀ t, status t (put_back b s) = status t s ∨
    (status t s = Some Running ∧ status t (put_back b s) = Some Ready)).
  { intros t. destruct (decide (status (current s) s = Some Running)) as [Hr|Hr].
    - rewrite (status_put_back _ _ _ Hr). case_decide; [subst; by right|by left].
    - left. unfold put_back, is_running. by rewrite test_status, bool_decide_false. }
  split; try done.
  - unfold put_back. destruct (is_running _ s); [|done]. cbv zeta. by destruct (test _ _ _).
  - unfold put_back. destruct (is_running _ s); [|done]. cbv zeta. by destruct (test _ _ _).
  - intros t. destruct (Hst t) as [->|[-> ->]]; done.
  - intros t. destruct (Hst t) as [->|[-> ->]]; done.
  - intros t. unfold put_back. destruct (is_running _ s); [|done]. cbv zeta.
    destruct (test is_idle _ _); [by apply exit_code_upd|].
    change (exit_code <$> tasks (upd (current s) (set_state Ready) s) !! t = exit_code <$> tasks s !! t).
    by apply exit_code_upd.
Qed.

Lemma switched_picked next sch s :
  status next s = Some Ready → switched s (picked next sch s).
Proof.
  intros Hn. assert (Hst := λ t, status_picked next sch s t (status_is_Some _ _ _ Hn)).
  split; try done; intros t.
  - rewrite Hst. case_decide; naive_solver.
  - rewrite Hst. case_decide; naive_solver.
  - unfold picked. rewrite !exit_code_upd by done. done.
Qed.

Lemma pool_pick_ready s o sch :
  pool s → sched_pick_next_task (scheduler s) = (o, sch) → status (default (IDLE_TASK s) o) s = Some Ready.
Proof.
  intros (HB & Hnr & _) Hp. destruct o as [t|]; simpl.
  - apply (base_queue _ HB). rewrite (queued_pick_Some _ _ _ Hp). by left.
  - destruct (base_idle_state _ HB) as [Hi|]; [by apply Hnr in Hi|done].
Qed.

Lemma resched_switched b s s' : resched_pre s → resched b s = Ret s' → switched s s'.
Proof.
  intros Hpre. pose proof (pool_put_back b _ Hpre) as Hpool.
  unfold resched. fold (put_back b s). cbv zeta.
  destruct (sched_pick_next_task (scheduler (put_back b s))) as [o sch] eqn:Hp.
  pose proof (pool_pick_ready _ _ _ Hpool Hp) as Hn.
  change (switch_to (current s) (default (IDLE_TASK (put_back b s)) o)
    (set_scheduler sch (put_back b s)) = Ret s' → switched s s').
  set (s1 := put_back b s) in *. set (next := default (IDLE_TASK s1) o) in *.
  assert (Hsw : switched s (picked next sch s1)).
  { eapply switched_trans; [apply switched_put_back|by apply switched_picked]. }
  unfold switch_to. cbv zeta. fold (picked next sch s1).
  case_match; [intros [= <-]; done|]. case_match; [|done]. intros [= <-].
  eapply switched_trans; [exact Hsw|].
  eapply (switched_trans _ (upd (current s) (set_ctx CtxSwitch) (picked next sch s1)));
    [by apply switched_upd|by split].
Qed.

Lemma preempt_resched_switched s s' : sched_inv s → preempt_resched s = Ret s' → switched s s'.
Proof.
  intros Hi. unfold preempt_resched. rewrite inv_running by done. case_match.
  - by apply resched_switched, inv_pre.
  - intros [= <-]. by apply switched_upd.
Qed.

Lemma enable_preempt_switched n s s' : sched_inv s → enable_preempt n s = Ret s' → switched s s'.
Proof.
  revert s. induction n as [|n IH]; intros s Hi; [done|]. rewrite enable_preempt_unfold. cbv zeta.
  set (s1 := upd _ _ s).
  assert (Hi1 : sched_inv s1) by (apply (same_view_inv s), Hi; apply same_view_upd, core_eq_count).
  assert (Hw1 : switched s s1) by by apply switched_upd.
  case_match; [|by intros [= <-]].
  assert (Hi2 := inv_disable _ Hi1).
  assert (Hw2 : switched s (disable_preempt s1)) by (eapply switched_trans; [done|by apply switched_upd]).
  assert (∀ s3, (if test need_resched (current s) (disable_preempt s1) then preempt_resched (disable_preempt s1)
    else Ret (disable_preempt s1)) = Ret s3 → sched_inv s3 ∧ switched s s3) as Hs3.
  { intros s3. case_match; [|by intros [= <-]]. intros Hs3. split.
    - destruct (preempt_resched_ok _ Hi2) as (?&?&?&_). congruence.
    - eapply switched_trans; [done|]. by apply preempt_resched_switched. }
  destruct (if test need_resched (current s) (disable_preempt s1) then _ else _) as [s3|]; [|done].
  destruct (Hs3 _ eq_refl) as [Hi3 Hw3].
  case_match; [intros [= <-]|intros Hs'%IH; [|done]]; (eapply switched_trans; [done|]); [|done].
  by apply switched_upd.
Qed.

Lemma leave_switched s s' : sched_inv s → leave s = Ret s' → switched s s'.
Proof.
  intros Hi. unfold leave. case_match; [|by apply enable_preempt_switched].
  intros [= <-]. by apply switched_upd.
Qed.


(** ** The operations, with the run queue locked *)

Lemma not_idle s : sched_inv s → test is_idle (current s) s = bool_decide (current s = IDLE_TASK s).
Proof. intros [HB _]. rewrite test_idle. apply bool_decide_ext, (base_idle _ HB). Qed.

Lemma status_set_current st s t :
  sched_inv s →
  status t (upd (current s) (set_state st) s) = if decide (t = current s) then Some st else status t s.
Proof.
  intros [_ Hr]. case_decide; [subst|by apply status_upd_ne].
  apply status_upd_set. by eapply status_is_Some.
Qed.

Lemma wakeable_push q t u s : wakeable u s → wakeable u (wait_queue_push q t s).
Proof.
  intros [[q' Hq]|Hd]; [left|by right]. exists q'. unfold wq_get, wait_queue_push in *. simpl.
  destruct (decide (q = q')) as [->|]; [|by rewrite lookup_insert_ne].
  rewrite lookup_insert_eq. simpl. by apply elem_of_app; left.
Qed.
Lemma wakeable_pushed q t s : wakeable t (wait_queue_push q t s).
Proof.
  left. exists q. unfold wq_get, wait_queue_push. simpl. rewrite lookup_insert_eq.
  apply elem_of_app. right. by left.
Qed.

Lemma block_current_ok q s :
  sched_inv s → current s ≠ IDLE_TASK s → can_preempt 1 (current s) s = true →
  ∃ s', block_current (wait_queue_push q) s = Ret s' ∧ sched_inv s' ∧
        switched (wait_queue_push q (current s) (upd (current s) (set_state Blocked) s)) s'.
Proof.
  intros Hi Hni Hp. unfold block_current. cbv zeta.
  rewrite inv_running, not_idle, bool_decide_false, Hp by done. simpl.
  set (s1 := wait_queue_push q (current s) (upd (current s) (set_state Blocked) s)).
  assert (Hst : ∀ t, status t s1 = if decide (t = current s) then Some Blocked else status t s).
  { intros t. rewrite <- status_set_current by done. unfold s1.
    transitivity (status t (upd (current s) (set_in_wait_queue true) (upd (current s) (set_state Blocked) s)));
      [done|]. by apply status_upd_core. }
  assert (Hpre : resched_pre s1).
  { split; [|right; left; change (current s1) with (current s); by rewrite Hst, decide_True].
    apply (base_stop Blocked s); try done.
    - intros t. transitivity (idleness t (upd (current s) (set_in_wait_queue true)
        (upd (current s) (set_state Blocked) s))); [done|]. by rewrite !idleness_upd.
    - intros t Hw. by apply wakeable_push.
    - intros _. apply wakeable_pushed. }
  destruct (resched_ok false s1 Hpre) as (s' & Hs' & Hi' & _). exists s'.
  split_and!; [done..|]. by eapply resched_switched.
Qed.

Lemma block_current_panic f s :
  sched_inv s → current s = IDLE_TASK s ∨ can_preempt 1 (current s) s = false → block_current f s = Panic.
Proof.
  intros Hi Hc. unfold block_current. cbv zeta. rewrite inv_running, not_idle by done.
  destruct Hc as [Hc| ->]; [rewrite bool_decide_true by done; done|by rewrite andb_false_r].
Qed.

Lemma block_current_inv q s s' :
  sched_inv s → block_current (wait_queue_push q) s = Ret s' → sched_inv s'.
Proof.
  intros Hi Hb. destruct (decide (current s = IDLE_TASK s)).
  { rewrite block_current_panic in Hb by auto. done. }
  destruct (can_preempt 1 (current s) s) eqn:Hp.
  - destruct (block_current_ok q s) as (?&?&?&_); [done..|]. congruence.
  - rewrite block_current_panic in Hb by auto. done.
Qed.

Lemma wakeable_alarm d t u s : wakeable u s → wakeable u (set_alarm_wakeup d t s).
Proof.
  intros [Hq|[d' Hd]]; [by left|right]. exists d'. simpl. rewrite timer_events_set. by right.
Qed.

Lemma set_alarm_inv d t s : sched_inv s → sched_inv (set_alarm_wakeup d t s).
Proof.
  apply same_view_inv. split; try done.
  - intros u. transitivity (status u (upd t (set_in_timer_list true) s)); [done|].
    apply status_upd_core. by split.
  - intros u. transitivity (idleness u (upd t (set_in_timer_list true) s)); [done|]. by apply idleness_upd.
  - intros u _ Hw _. by apply wakeable_alarm.
Qed.

Lemma sleep_until_locked_ok d s :
  sched_inv s → current s ≠ IDLE_TASK s →
  ∃ s', sleep_until_locked d s = Ret s' ∧ sched_inv s' ∧
    (wall_time s < d → switched (upd (current s) (set_state Blocked) (set_alarm_wakeup d (current s) s)) s').
Proof.
  intros Hi Hni. unfold sleep_until_locked. cbv zeta.
  rewrite inv_running, not_idle, bool_decide_false by done. simpl.
  destruct (Z.ltb_spec (wall_time s) d); [|eexists; split_and!; [done..|lia]].
  set (s0 := set_alarm_wakeup d (current s) s). set (s1 := upd _ _ s0).
  assert (Hi0 : sched_inv s0) by by apply set_alarm_inv.
  assert (Hst : ∀ t, status t s1 = if decide (t = current s) then Some Blocked else status t s0).
  { intros t. by apply (status_set_current Blocked s0). }
  assert (Hpre : resched_pre s1).
  { split; [|right; left; change (current s1) with (current s); by rewrite Hst, decide_True].
    apply (base_stop Blocked s0); try done.
    - intros t. unfold s1. by rewrite idleness_upd.
    - intros _. right. exists d. change (timers s1) with (timer_set d (current s) (timers s)).
      rewrite timer_events_set. by left. }
  destruct (resched_ok false s1 Hpre) as (s' & Hs' & Hi' & _). exists s'.
  split_and!; [done..|]. intros _. by eapply resched_switched.
Qed.


(** ** Waking everybody, and [exit] *)

Lemma wqs_unblock t r s : wqs (unblock_task t r s) = wqs s.
Proof. unfold unblock_task. by destruct (is_blocked t s), r. Qed.

Lemma notify_one_locked_cons q r s t l :
  wq_get q s = t :: l →
  let s' := (notify_one_locked q r s).2 in wq_get q s' = l ∧ status t s' ≠ Some Blocked.
Proof.
  intros Hq. unfold notify_one_locked. rewrite Hq. simpl. split.
  - unfold wq_get. rewrite wqs_unblock. simpl. by rewrite lookup_insert_eq.
  - rewrite unblock_status. case_decide as Hd; [done|]. intros Hb. naive_solver.
Qed.

Lemma notify_all_loop_wakes n q r s :
  (length (wq_get q s) ≤ n)%nat →
  let s' := notify_all_loop n q r s in
  wq_get q s' = [] ∧ (∀ t, t ∈ wq_get q s → status t s' ≠ Some Blocked).
Proof.
  revert s. induction n as [|n IH]; intros s Hn; cbv zeta.
  { destruct (wq_get q s) eqn:Hq; [|simpl in Hn; lia]. simpl. rewrite Hq. split; [done|].
    intros t Ht. by apply not_elem_of_nil in Ht. }
  rewrite notify_all_loop_unfold. destruct (wq_get q s) as [|t l] eqn:Hq; simpl.
  { rewrite Hq. split; [done|]. intros t Ht. by apply not_elem_of_nil in Ht. }
  destruct (notify_one_locked_cons q r _ _ _ Hq) as [Hl Ht].
  set (s1 := (notify_one_locked q r s).2) in *.
  destruct (IH s1) as [He Hw]; [rewrite Hl; simpl in Hn; lia|]. split; [done|].
  intros u [->|Hu]%elem_of_cons; [|by apply Hw; rewrite Hl].
  assert (Hwo : woken s1 (notify_all_loop n q r s1)).
  { apply woken_notify_all_loop. }
  by rewrite (wo_status _ _ Hwo).
Qed.

Lemma halted_notify_one q r s : halted (notify_one_locked q r s).2 = halted s.
Proof. apply (wo_halted _ _ (woken_notify_one_locked q r s)). Qed.

(** The state [exit_current] reschedules from. *)
Definition exited_state (code : Z) (s : sys) : sys :=
  let s1 := notify_exit (current s) code (upd (current s) (set_state Exited) s) in
  (notify_one_locked WAIT_FOR_EXIT false (set_exited (EXITED_TASKS s1 ++ [current s]) s1)).2.

Lemma exit_base code s :
  sched_inv s → current s ≠ IDLE_TASK s →
  let s1 := upd (current s) (set_exit_code code) (upd (current s) (set_state Exited) s) in
  sched_base s1 ∧ status (current s) s1 = Some Exited.
Proof.
  intros Hi Hni s1.
  assert (Hst : ∀ t, status t s1 = if decide (t = current s) then Some Exited else status t s).
  { intros t. unfold s1. rewrite status_upd_core by by split. by apply status_set_current. }
  split; [|by rewrite Hst, decide_True].
  apply (base_stop Exited s); try done. intros t. unfold s1. by rewrite !idleness_upd.
Qed.

Lemma exited_state_pre code s :
  sched_inv s → current s ≠ IDLE_TASK s →
  resched_pre (exited_state code s) ∧ current (exited_state code s) = current s ∧
  status (current s) (exited_state code s) = Some Exited.
Proof.
  intros Hi Hni. destruct (exit_base code s Hi Hni) as [HB Hx]. unfold exited_state, notify_exit.
  change (current (upd _ _ _)) with (current s) in *. set (s1 := upd _ (set_exit_code code) _) in *.
  pose proof (notify_all_loop_base (length (wq_get (wait_for_exit (current s)) s1))
    (wait_for_exit (current s)) false _ HB) as HB2.
  pose proof (woken_notify_all_loop (length (wq_get (wait_for_exit (current s)) s1))
    (wait_for_exit (current s)) false s1) as Hw2.
  unfold notify_all_locked. set (s2 := notify_all_loop _ _ _ _) in *. cbv zeta.
  set (s3 := set_exited _ s2).
  assert (Hx2 : status (current s) s2 = Some Exited) by (rewrite (wo_status _ _ Hw2); congruence).
  assert (HB3 : sched_base s3).
  { destruct HB2 as [B1 B2 B3 B4 B5 B6 B7 B8]. split; try done.
    intros t [Ht|Ht%list_elem_of_singleton]%elem_of_app; [by apply B7|subst; done]. }
  pose proof (woken_notify_one_locked WAIT_FOR_EXIT false s3) as Hw4.
  pose proof (notify_one_locked_base WAIT_FOR_EXIT false _ HB3) as HB4.
  set (s4 := (notify_one_locked WAIT_FOR_EXIT false s3).2) in *.
  assert (Hx4 : status (current s) s4 = Some Exited).
  { rewrite (wo_status _ _ Hw4); [done|]. change (status (current s) s2 ≠ Some Blocked). congruence. }
  assert (Hc4 : current s4 = current s) by (rewrite (wo_current _ _ Hw4); apply (wo_current _ _ Hw2)).
  split_and!; [|done..]. split; [done|]. rewrite Hc4. do 2 right. split; [done|].
  rewrite (wo_exited _ _ Hw4). simpl. apply elem_of_app. right. by left.
Qed.

Lemma exit_current_locked_ok code s :
  sched_inv s → current s ≠ IDLE_TASK s → test is_init (current s) s = false →
  ∃ s', exit_current_locked code s = Ret s' ∧ sched_inv s' ∧ switched (exited_state code s) s'.
Proof.
  intros Hi Hni Hin. unfold exit_current_locked. cbv zeta.
  rewrite inv_running, not_idle, bool_decide_false, Hin by done. simpl.
  destruct (exited_state_pre code s Hi Hni) as [Hpre _]. unfold exited_state in *. cbv zeta in *.
  destruct (notify_one_locked _ _ _) as [b s4]. simpl in *.
  destruct (resched_ok false s4 Hpre) as (s' & Hs' & Hi' & _). exists s'.
  split_and!; [done..|]. by eapply resched_switched.
Qed.

Lemma exit_current_locked_inv code s s' :
  sched_inv s → exit_current_locked code s = Ret s' → sched_inv s'.
Proof.
  intros Hi He. destruct (decide (current s = IDLE_TASK s)) as [Hc|Hc].
  { unfold exit_current_locked in He. cbv zeta in He.
    rewrite inv_running, not_idle, bool_decide_true in He by done. done. }
  destruct (test is_init (current s) s) eqn:Hin.
  - unfold exit_current_locked in He. cbv zeta in He.
    rewrite inv_running, not_idle, bool_decide_false, Hin in He by done. simplify_eq/=.
    destruct Hi as [[B1 B2 B3 B4 B5 B6 B7 B8] Hr]. split; [split; try done|done].
    intros t Ht. by apply not_elem_of_nil in Ht.
  - destruct (exit_current_locked_ok code s) as (?&?&?&_); [done..|]. congruence.
Qed.


(** ** The other operations *)


(** The state [spawn_raw] takes the run queue lock in. *)
Definition spawned (nm : string) (s : sys) : sys :=
  let s := (alloc_id s).2 in
  let t := ID_COUNTER s - 1 in
  {| tasks := <[t := new nm]> (tasks s); scheduler := scheduler s; wqs := wqs s; timers := timers s;
     EXITED_TASKS := EXITED_TASKS s; current := current s; IDLE_TASK := IDLE_TASK s;
     ID_COUNTER := ID_COUNTER s; handles := <[t := 1%nat]> (handles s);
     wall_time := wall_time s; halted := halted s |}.

Lemma spawn_raw_spawned nm s :
  0 ≤ ID_COUNTER s < 2 ^ 64 - 1 →
  spawn_raw nm s = s' ← with_rq (add_task (ID_COUNTER s)) (spawned nm s); Ret (ID_COUNTER s, s').
Proof.
  intros. unfold spawn_raw, spawned, alloc_id. simpl.
  assert (uadd (ID_COUNTER s) 1 - 1 = ID_COUNTER s) as -> by (rewrite uadd_small by lia; lia). done.
Qed.

Lemma new_not_idle nm : nm ≠ "idle"%string → is_idle (new nm) = false.
Proof. intros Hn. unfold new. by destruct (String.eqb_spec nm "idle"). Qed.
Lemma new_ready nm : state (new nm) = Ready.
Proof. unfold new. by destruct (String.eqb nm "idle"). Qed.

Lemma spawned_ready nm s u :
  0 ≤ ID_COUNTER s < 2 ^ 64 - 1 →
  status u (spawned nm s) = if decide (u = ID_COUNTER s) then Some Ready else status u s.
Proof.
  intros. unfold status, spawned, alloc_id. simpl. rewrite uadd_small by lia.
  rewrite Z.add_simpl_r. case_decide as Hu.
  - subst. rewrite lookup_insert_eq. simpl. by rewrite new_ready.
  - by rewrite lookup_insert_ne.
Qed.

Lemma spawned_idle nm s u :
  0 ≤ ID_COUNTER s < 2 ^ 64 - 1 → nm ≠ "idle"%string →
  idleness u (spawned nm s) = if decide (u = ID_COUNTER s) then Some false else idleness u s.
Proof.
  intros ? Hnm. unfold idleness, spawned, alloc_id. simpl. rewrite uadd_small by lia.
  rewrite Z.add_simpl_r. case_decide as Hu.
  - subst. rewrite lookup_insert_eq. simpl. by rewrite new_not_idle.
  - by rewrite lookup_insert_ne.
Qed.

Lemma inv_ids s : sched_inv s → 0 < ID_COUNTER s ∧ tasks s !! ID_COUNTER s = None.
Proof.
  intros [HB Hr]. pose proof (base_ids _ HB _ (status_is_Some _ _ _ Hr)). split; [lia|].
  destruct (tasks s !! ID_COUNTER s) eqn:Ht; [|done].
  assert (0 < ID_COUNTER s < ID_COUNTER s) by (by apply (base_ids _ HB); eexists). lia.
Qed.

Lemma spawned_inv nm s sch :
  sched_inv s → nm ≠ "idle"%string → ID_COUNTER s < 2 ^ 64 - 1 →
  queued sch ≡ₚ ID_COUNTER s :: queued (scheduler s) → sched_inv (set_scheduler sch (spawned nm s)).
Proof.
  intros Hi Hnm Hid Hq. destruct (inv_ids _ Hi) as [H0id Hf].
  assert (H0id' : 0 ≤ ID_COUNTER s) by lia.
  destruct Hi as [[B1 B2 B3 B4 B5 B6 B7 B8] Hr]. set (s1 := set_scheduler sch (spawned nm s)).
  assert (Hst : ∀ u, status u s1 = if decide (u = ID_COUNTER s) then Some Ready else status u s).
  { intros u. by apply spawned_ready. }
  assert (Hno : ∀ u, u = ID_COUNTER s → status u s = None) by (intros u ->; unfold status; by rewrite Hf).
  assert (Hsc : ∀ u st, status u s = Some st → status u s1 = Some st).
  { intros u st Hu. rewrite Hst. case_decide as Hd; [apply Hno in Hd; congruence|done]. }
  split; [split|].
  - intros t. rewrite Hst. case_decide; [done|apply B1].
  - change (NoDup (queued sch)). rewrite Hq. constructor; [|done]. rewrite B3. naive_solver.
  - intros t. change (t ∈ queued sch ↔ status t s1 = Some Ready ∧ t ≠ IDLE_TASK s).
    rewrite Hq, elem_of_cons, B3, Hst. case_decide as Hd; [|naive_solver].
    apply Hno in Hd as Hn. subst. split; [intros _|naive_solver]. split; [done|].
    intros He. rewrite He in Hn. naive_solver.
  - intros t. rewrite Hst. case_decide; [done|apply B4].
  - intros t. change (idleness t (spawned nm s) = Some true ↔ t = IDLE_TASK s).
    rewrite spawned_idle by done. case_decide as Hd; [|apply B5]. apply Hno in Hd.
    split; [done|]. intros ->. naive_solver.
  - destruct B6 as [B6|B6]; [left|right]; by apply Hsc.
  - intros t Ht. by apply Hsc, B7.
  - intros t [x Hx]. change (0 < t < uadd (ID_COUNTER s) 1). rewrite uadd_small by lia.
    apply (f_equal (fmap state)) in Hx. change (status t s1 = Some (state x)) in Hx.
    rewrite Hst in Hx. case_decide; [lia|]. apply status_is_Some, B8 in Hx. lia.
  - by apply Hsc.
Qed.

Lemma spawn_raw_ok nm s :
  sched_inv s → nm ≠ "idle"%string → ID_COUNTER s < 2 ^ 64 - 1 →
  ∃ s', spawn_raw nm s = Ret (ID_COUNTER s, s') ∧ sched_inv s'.
Proof.
  intros Hi Hnm Hids. destruct (inv_ids _ Hi) as [Hid0 _].
  assert (Hid0' : 0 ≤ ID_COUNTER s) by lia. rewrite spawn_raw_spawned by done.
  unfold with_rq, add_task, is_ready. rewrite test_status.
  rewrite (sv_status _ _ _ (same_view_disable (spawned nm s))), spawned_ready, decide_True by done.
  rewrite bool_decide_true by done. simpl.
  destruct (leave_ok (set_scheduler (sched_add_task (ID_COUNTER s) (scheduler s))
    (disable_preempt (spawned nm s)))) as (s' & Hs' & Hi').
  { apply (same_view_inv (set_scheduler (sched_add_task (ID_COUNTER s) (scheduler s)) (spawned nm s))).
    - exact (same_view_disable (set_scheduler (sched_add_task (ID_COUNTER s) (scheduler s)) (spawned nm s))).
    - apply spawned_inv; [done..|]. apply queued_add. }
  exists s'. split; [|done]. unfold mbind, outcome_bind. by rewrite Hs'.
Qed.

Lemma same_view_wq_filter q s :
  sched_inv s → same_view s (wq_set q (filter (λ t, t ≠ current s) (wq_get q s)) s).
Proof.
  intros [_ Hr]. apply (same_view_but_not (current s)); [apply same_view_wq_set|congruence].
  intros u Hu Hin. by apply list_elem_of_filter.
Qed.

Lemma same_view_cancel_alarm t s :
  status t s ≠ Some Blocked → same_view s (cancel_alarm t s).
Proof.
  intros Hb. apply (same_view_but_not t); [|done]. unfold cancel_alarm.
  split; try done.
  - intros u. transitivity (status u (upd t (set_in_timer_list false) s)); [done|].
    apply status_upd_core. by split.
  - intros u. transitivity (idleness u (upd t (set_in_timer_list false) s)); [done|]. by apply idleness_upd.
  - intros u Hu [Hq|[d Hd]] _; [by left|right]. exists d. simpl. by apply timer_events_cancel.
Qed.

Lemma cancel_events_inv q s : sched_inv s → sched_inv (cancel_events q s).
Proof.
  intros Hi. unfold cancel_events. cbv zeta.
  set (s1 := if test in_wait_queue (current s) s then _ else s).
  assert (Hv : same_view s s1).
  { unfold s1. case_match; [|apply same_view_refl]. apply same_view_but_upd; [by split|].
    by apply same_view_wq_filter. }
  assert (Hi1 : sched_inv s1) by by eapply same_view_inv. case_match; [|done].
  eapply same_view_inv; [|exact Hi1]. apply same_view_cancel_alarm.
  rewrite (sv_status _ _ _ Hv). destruct Hi as [_ Hr]. congruence.
Qed.


(** Operations that return whether they woke a task. *)
Lemma locked_pair (b : bool) s : sched_inv s → ∃ s', (s' ← leave s; Ret (b, s')) = Ret (b, s') ∧ sched_inv s' ∧ switched s s'.
Proof.
  intros Hi. destruct (leave_ok s Hi) as (s' & Hs' & Hi'). exists s'.
  split_and!; [by rewrite Hs'|done|by apply leave_switched].
Qed.

Lemma notify_one_ok q r s :
  sched_inv s → ∃ b s', notify_one q r s = Ret (b, s') ∧ sched_inv s'.
Proof.
  intros Hi%inv_disable. unfold notify_one. cbv zeta. case_decide.
  - destruct (locked_pair false _ Hi) as (s' & -> & ? & _). by do 2 eexists.
  - pose proof (notify_one_locked_inv q r _ Hi) as Hi2. destruct (notify_one_locked _ _ _) as [b s2]; simpl in Hi2.
    destruct (locked_pair b _ Hi2) as (s' & -> & ? & _). by do 2 eexists.
Qed.

Lemma notify_all_iter_ok q r s :
  sched_inv s → ∃ b s', notify_all_iter q r s = Ret (b, s') ∧ sched_inv s'.
Proof.
  intros Hi%inv_disable. unfold notify_all_iter. cbv zeta.
  pose proof (notify_one_locked_inv q r _ Hi) as Hi2. destruct (notify_one_locked _ _ _) as [b s2]; simpl in Hi2.
  destruct (locked_pair b _ Hi2) as (s' & -> & ? & _). by do 2 eexists.
Qed.

Lemma notify_task_ok q r t s :
  sched_inv s → ∃ b s', notify_task q r t s = Ret (b, s') ∧ sched_inv s'.
Proof.
  intros Hi%inv_disable. unfold notify_task. cbv zeta. set (s1 := disable_preempt s) in *.
  destruct (list_find _ _) as [[i u]|] eqn:Hf.
  - apply list_find_Some in Hf as (Hu & -> & _).
    destruct (locked_pair true (unblock_task t r
      (wq_set q (delete i (wq_get q s1)) (upd t (set_in_wait_queue false) s1)))) as (s' & -> & ? & _);
      [|by do 2 eexists].
    apply (unblock_inv _ _ s1); [|done].
    apply (same_view_but_trans _ _ (upd t (set_in_wait_queue false) s1)); [apply same_view_upd; by split|].
    apply same_view_wq_set. intros u Hut Hin. change (u ∈ wq_get q s1) in Hin.
    rewrite <- (take_drop_middle _ _ _ Hu) in Hin. rewrite delete_take_drop. set_solver.
  - destruct (locked_pair false _ Hi) as (s' & -> & ? & _). by do 2 eexists.
Qed.

Lemma yield_now_ok s : sched_inv s → ∃ s', yield_now s = Ret s' ∧ sched_inv s'.
Proof.
  intros Hi. apply with_rq_ok; [done|]. intros s1 _ Hi1. unfold yield_current.
  rewrite inv_running by done. destruct (resched_ok false s1) as (?&?&?&_); [by apply inv_pre|]. by eexists.
Qed.

Lemma same_view_sched sch s :
  queued sch ≡ₚ queued (scheduler s) → same_view s (set_scheduler sch s).
Proof. by split. Qed.

Lemma set_priority_ok p s : sched_inv s → ∃ s', set_priority p s = Ret s' ∧ sched_inv s'.
Proof.
  intros Hi. apply with_rq_ok; [done|]. intros s1 _ Hi1. eexists. split; [done|].
  unfold set_current_priority. pose proof (queued_prio (current s1) p (scheduler s1)).
  destruct (sched_set_priority _ _ _) as [b sch]. simpl in *.
  eapply same_view_inv; [by apply same_view_sched|done].
Qed.

Lemma scheduler_timer_tick_inv s : sched_inv s → sched_inv (scheduler_timer_tick s).
Proof.
  intros Hi. unfold scheduler_timer_tick. case_match; [done|].
  pose proof (queued_tick (current s) (scheduler s)). destruct (sched_task_tick _ _) as [b sch]. simpl in *.
  eapply same_view_inv; [|exact Hi]. destruct b; [|by apply same_view_sched].
  eapply same_view_trans; [by apply same_view_sched|apply same_view_upd; by split].
Qed.

(** ** Timer events *)

Lemma blocked_unblock t r s u : status u (unblock_task t r s) = Some Blocked → status u s = Some Blocked.
Proof. rewrite unblock_status. by case_decide. Qed.

Lemma callback_ok t l d now s :
  sched_inv s → timer_expire_one now (timers s) = (Some (d, t), l) →
  ∃ s', callback t (set_timers l s) = Ret s' ∧ sched_inv s' ∧ timers s' = l ∧
        wall_time s' = wall_time s ∧ status t s' ≠ Some Blocked ∧
        (∀ u, status u s' = Some Blocked → status u s = Some Blocked).
Proof.
  intros Hi Hx. unfold callback, with_rq. simpl.
  set (s1 := upd t (set_in_timer_list false) (disable_preempt (set_timers l s))).
  assert (Hv : same_view_but (λ t', t' = t) s s1).
  { apply same_view_but_upd; [by split|]. apply same_view_but_upd; [apply core_eq_count|].
    split; try done. intros u Hu [Hq|[d' Hd]] _; [by left|right]. exists d'. simpl.
    apply timer_expire_Some in Hx as [_ Hp]. rewrite Hp in Hd. apply elem_of_cons in Hd as [|]; [congruence|done]. }
  pose proof (unblock_inv t true _ _ Hv Hi) as Hi2.
  destruct (leave_ok _ Hi2) as (s' & Hs' & Hi'). exists s'.
  pose proof (leave_switched _ _ Hi2 Hs') as Hsw. split_and!; [done|done|..].
  - rewrite (sw_timers _ _ Hsw). unfold unblock_task. by destruct (is_blocked t s1).
  - rewrite (sw_time _ _ Hsw). unfold unblock_task. by destruct (is_blocked t s1).
  - rewrite (sw_blocked _ _ Hsw), unblock_status. case_decide; [done|]. naive_solver.
  - intros u. rewrite (sw_blocked _ _ Hsw). intros Hu%blocked_unblock.
    by rewrite (sv_status _ _ _ Hv) in Hu.
Qed.

Lemma check_events_loop_ok n s :
  sched_inv s → (length (timer_events (timers s)) < n)%nat →
  ∃ s', check_events_loop n s = Ret s' ∧ sched_inv s' ∧ wall_time s' = wall_time s ∧
        (∀ e, e ∈ timer_events (timers s') → e ∈ timer_events (timers s) ∧ wall_time s < e.1) ∧
        (∀ t, status t s' = Some Blocked → status t s = Some Blocked ∧
              ∀ d, (d, t) ∈ timer_events (timers s) → wall_time s < d).
Proof.
  revert s. induction n as [|n IH]; intros s Hi Hn; [lia|]. simpl. unfold check_events_iter.
  destruct (timer_expire_one _ _) as [[[d t]|] l] eqn:Hx.
  - destruct (callback_ok _ _ _ _ _ Hi Hx) as (s1 & -> & Hi1 & Ht1 & Hw1 & Hnb & Hb1). simpl.
    apply timer_expire_Some in Hx as [_ Hp].
    destruct (IH s1 Hi1) as (s' & -> & Hi' & Hw & He & Hb).
    + rewrite Ht1. apply Permutation_length in Hp. simpl in Hp. lia.
    + exists s'. rewrite Hw1, Ht1 in *. split_and!; try done.
      * intros e He'. rewrite Hp. destruct (He e He'). split; [by right|done].
      * intros u [Hu Hd]%Hb. split; [by apply Hb1|]. intros d' Hd'. rewrite Hp in Hd'.
        apply elem_of_cons in Hd' as [[= -> ->]|]; [done|by apply Hd].
  - apply timer_expire_None in Hx as [-> He]. eexists. split; [done|]. split_and!; try done.
    + apply (same_view_inv s); [|done]. by split.
    + intros e He'. split; [done|by apply He].
    + intros t Ht. split; [done|]. intros d Hd. by apply (He (d, t)).
Qed.

Lemma on_timer_tick_ok s :
  sched_inv s → ∃ s', on_timer_tick s = Ret s' ∧ sched_inv s'.
Proof.
  intros Hi. unfold on_timer_tick, check_events.
  destruct (check_events_loop_ok (S (length (timer_events (timers s)))) s Hi) as (s1 & -> & Hi1 & _); [lia|].
  simpl. apply with_rq_ok; [done|]. intros s2 _ Hi2. eexists. split; [done|].
  by apply scheduler_timer_tick_inv.
Qed.

Lemma timer_irq_ok s : sched_inv s → ∃ s', timer_irq s = Ret s' ∧ sched_inv s'.
Proof.
  intros Hi. unfold timer_irq. destruct (on_timer_tick_ok _ (inv_disable _ Hi)) as (s1 & -> & Hi1). simpl.
  by apply leave_ok.
Qed.


(** ** The GC task *)

Lemma base_drop_exited l s :
  (∀ t, t ∈ l → t ∈ EXITED_TASKS s) → sched_inv s → sched_inv (set_exited l s).
Proof.
  intros Hl [[B1 B2 B3 B4 B5 B6 B7 B8] Hr]. split; [split; try done|done].
  intros t Ht. by apply B7, Hl.
Qed.

Lemma strong_count_0 t s :
  strong_count t s = 0%nat →
  t ≠ current s ∧ t ∉ queued (scheduler s) ∧ ¬ wakeable t s ∧ t ∉ EXITED_TASKS s ∧
  t ≠ IDLE_TASK s ∧ default 0%nat (handles s !! t) = 0%nat.
Proof.
  intros H0s. split_and!; [..|unfold strong_count in H0s; lia];
    [|intros Hin; exfalso; eapply Nat.nlt_0_r; rewrite <- H0s;
      eapply Nat.le_lt_trans; [apply Nat.le_0_l|apply strong_count_held; eauto]..].
  intros ->. unfold strong_count in H0s. rewrite Z.eqb_refl in H0s. lia.
Qed.

(** Dropping the last reference of an exited task. *)
Lemma free_task_inv t s :
  sched_inv s → strong_count t s = 0%nat → status t s = Some Exited →
  sched_inv (set_tasks (delete t (tasks s)) s).
Proof.
  intros [[B1 B2 B3 B4 B5 B6 B7 B8] Hr] (Hc & Hq & Hw & He & HI & _)%strong_count_0 Hx.
  set (s1 := set_tasks _ s).
  assert (Hst : ∀ u, u ≠ t → status u s1 = status u s).
  { intros u Hu. unfold status, s1. simpl. by rewrite lookup_delete_ne. }
  assert (Hid : ∀ u, u ≠ t → idleness u s1 = idleness u s).
  { intros u Hu. unfold idleness, s1. simpl. by rewrite lookup_delete_ne. }
  assert (Hno : status t s1 = None ∧ idleness t s1 = None).
  { unfold status, idleness, s1. simpl. by rewrite lookup_delete_eq. }
  destruct Hno as [Hn1 Hn2]. split; [split|].
  - intros u Hu. destruct (decide (u = t)); [congruence|]. apply B1. by rewrite <- Hst.
  - done.
  - intros u. change (u ∈ queued (scheduler s) ↔ status u s1 = Some Ready ∧ u ≠ IDLE_TASK s).
    destruct (decide (u = t)) as [->|]; [split; [done|]; intros [? _]; congruence|].
    rewrite Hst by done. apply B3.
  - intros u Hu. destruct (decide (u = t)); [congruence|]. apply B4. by rewrite <- Hst.
  - intros u. change (idleness u s1 = Some true ↔ u = IDLE_TASK s).
    destruct (decide (u = t)) as [->|]; [split; congruence|]. rewrite Hid by done. apply B5.
  - change (status (IDLE_TASK s) s1 = Some Running ∨ status (IDLE_TASK s) s1 = Some Ready).
    rewrite !Hst by congruence. done.
  - intros u Hu. change (u ∈ EXITED_TASKS s) in Hu. rewrite Hst; [by apply B7|]. by intros ->.
  - intros u Hu. apply B8. unfold s1 in Hu. simpl in Hu. destruct Hu as [x Hx'].
    apply lookup_delete_Some in Hx' as [_ ?]. by eexists.
  - change (status (current s) s1 = Some Running). by rewrite Hst.
Qed.

Lemma gc_sweep_inv n s : sched_inv s → sched_inv (gc_sweep n s).
Proof.
  revert s. induction n as [|n IH]; intros s Hi; [done|]. simpl.
  destruct (EXITED_TASKS s) as [|t l] eqn:He; [by apply IH|].
  assert (Hi1 : sched_inv (set_exited l s)).
  { apply base_drop_exited; [|done]. rewrite He. by right. }
  destruct (Nat.eqb_spec (strong_count t (set_exited l s)) 0).
  - apply IH. apply (free_task_inv t (set_exited l s)); [done..|]. change (status t s = Some Exited).
    apply Hi. rewrite He. by left.
  - apply IH. change (set_exited _ (set_exited l s)) with (set_exited (l ++ [t]) s).
    apply base_drop_exited; [|done]. rewrite He. set_solver.
Qed.

(** ** Initial state, and all reachable states *)

Lemma init_inv : sched_inv init.
Proof.
  assert (Hst : ∀ t, status t init =
    if decide (t = 1) then Some Ready else if decide (t = 2) then Some Running
    else if decide (t = 3) then Some Ready else None).
  { intros t. unfold status, init. simpl. repeat (case_decide; subst; try done).
    rewrite !lookup_insert_ne, lookup_singleton_ne by done. done. }
  assert (Hid : ∀ t, idleness t init =
    if decide (t = 1) then Some true else if decide (t = 2) then Some false
    else if decide (t = 3) then Some false else None).
  { intros t. unfold idleness, init. simpl. repeat (case_decide; subst; try done).
    rewrite !lookup_insert_ne, lookup_singleton_ne by done. done. }
  assert (Hq : queued (scheduler (init : sys)) ≡ₚ [3]).
  { unfold init. simpl. by rewrite queued_add, queued_new. }
  split; [split|].
  - intros t. rewrite Hst. repeat case_decide; naive_solver.
  - rewrite Hq. apply NoDup_singleton.
  - intros t. rewrite Hq, Hst, list_elem_of_singleton. change (IDLE_TASK init) with 1.
    repeat case_decide; naive_solver.
  - intros t. rewrite Hst. repeat case_decide; naive_solver.
  - intros t. rewrite Hid. change (IDLE_TASK init) with 1. repeat case_decide; naive_solver.
  - right. by rewrite Hst.
  - intros t Ht. by apply not_elem_of_nil in Ht.
  - intros t [x Hx]. change (ID_COUNTER init) with 4. apply (f_equal (fmap state)) in Hx.
    change (status t init = Some (state x)) in Hx. rewrite Hst in Hx. repeat case_decide; subst; try done; lia.
  - by rewrite Hst.
Qed.

Lemma leave_inv s s' : sched_inv s → leave s = Ret s' → sched_inv s'.
Proof. intros Hi Hl. destruct (leave_ok s Hi) as (?&?&?). congruence. Qed.

Lemma with_rq_inv body s s' :
  with_rq body s = Ret s' → (∀ s1, body (disable_preempt s) = Ret s1 → sched_inv s1) → sched_inv s'.
Proof.
  unfold with_rq. intros Hr Hb. destruct (body (disable_preempt s)) as [s1|]; [|done].
  eapply leave_inv; [|done]. by apply Hb.
Qed.

Lemma wait_until_inv q cond b s s' :
  sched_inv s → wait_until_iter q cond s = Ret (b, s') → sched_inv s'.
Proof.
  intros Hi%inv_disable. unfold wait_until_iter. cbv zeta. case_match.
  - destruct (leave_ok _ Hi) as (s1 & -> & ?). by intros [= <- <-].
  - destruct (block_current _ _) as [s2|] eqn:Hb; [|done].
    apply block_current_inv in Hb; [|done]. simpl.
    destruct (leave_ok _ Hb) as (s1 & -> & ?). by intros [= <- <-].
Qed.

Lemma sleep_until_locked_inv d s s' : sched_inv s → sleep_until_locked d s = Ret s' → sched_inv s'.
Proof.
  intros Hi Hs. destruct (decide (current s = IDLE_TASK s)).
  - unfold sleep_until_locked in Hs. rewrite inv_running, not_idle, bool_decide_true in Hs by done. done.
  - destruct (sleep_until_locked_ok d s) as (?&?&?&_); [done..|]. congruence.
Qed.

Lemma sched_step_inv s s' : sched_step s s' → sched_inv s → sched_inv s'.
Proof.
  intros Hstep Hi. destruct Hstep as
    [nm t s s' ??? Hop|s s' _ Hop|p s s' _ Hop|d s s' _ Hop|c s s' _ Hop|q s s' _ Hop|q cond b s s' _ Hop
    |q s _|d s _|q r b s s' _ Hop|q r b s s' _ Hop|q r t b s s' _ Hop|s s' _ Hop|n s _|s _|s s' _ _ Hop
    |t s _|d s _ _].
  - destruct (spawn_raw_ok nm s) as (?&?&?); [done..|]. congruence.
  - destruct (yield_now_ok s) as (?&?&?); [done..|]. congruence.
  - destruct (set_priority_ok p s) as (?&?&?); [done..|]. congruence.
  - eapply with_rq_inv; [done|]. intros s1. by apply sleep_until_locked_inv, inv_disable.
  - unfold exit in Hop. destruct (exit_current_locked _ _) as [s1|] eqn:He; [|done].
    apply exit_current_locked_inv in He; [|by apply inv_disable].
    change ((if halted s1 then Ret s1 else leave s1) = Ret s') in Hop.
    destruct (halted s1); [by simplify_eq|by apply (leave_inv s1)].
  - eapply with_rq_inv; [done|]. intros s1. by apply block_current_inv, inv_disable.
  - by eapply wait_until_inv.
  - by apply cancel_events_inv.
  - by apply set_alarm_inv.
  - destruct (notify_one_ok q r s) as (?&?&?&?); [done..|]. congruence.
  - destruct (notify_all_iter_ok q r s) as (?&?&?&?); [done..|]. congruence.
  - destruct (notify_task_ok q r t s) as (?&?&?&?); [done..|]. congruence.
  - destruct (timer_irq_ok s) as (?&?&?); [done..|]. congruence.
  - by apply gc_sweep_inv.
  - by apply inv_disable.
  - by eapply leave_inv.
  - apply (same_view_inv s); [by split|done].
  - apply (same_view_inv s); [by split|done].
Qed.

Lemma reachable_inv s : rtc sched_step init s → sched_inv s.
Proof.
  intros Hr. cut (sched_inv (init : sys)); [|apply init_inv].
  induction Hr as [|s1 s2 s3 Hst _ IH]; [done|]. intros Hi. apply IH. by eapply sched_step_inv.
Qed.


(** ** [exit] as a whole *)

Lemma is_init_disable s t : test is_init t (disable_preempt s) = test is_init t s.
Proof. by apply test_upd. Qed.

Lemma exited_state_halted c s : halted (exited_state c s) = halted s.
Proof.
  unfold exited_state. rewrite halted_notify_one.
  exact (wo_halted _ _ (woken_notify_all_loop _ (wait_for_exit (current s)) false
    (upd (current s) (set_exit_code c) (upd (current s) (set_state Exited) s)))).
Qed.

Lemma exit_ok c s :
  sched_inv s → current s ≠ IDLE_TASK s → test is_init (current s) s = false → halted s = false →
  ∃ s', exit c s = Ret s' ∧ sched_inv s' ∧ switched (exited_state c (disable_preempt s)) s'.
Proof.
  intros Hi Hc Hin Hh.
  destruct (exit_current_locked_ok c (disable_preempt s)) as (s1 & Hs1 & Hi1 & Hsw);
    [by apply inv_disable|done|by rewrite <- Hin; apply is_init_disable|].
  destruct (leave_ok s1 Hi1) as (s' & Hs' & Hi'). exists s'. split_and!; [|done|].
  - unfold exit. rewrite Hs1. simpl.
    rewrite (sw_halted _ _ Hsw), exited_state_halted. simpl. by rewrite Hh.
  - eapply switched_trans; [done|]. by apply leave_switched.
Qed.

Lemma exit_returns c s :
  sched_inv s → current s ≠ IDLE_TASK s → ∃ s', exit c s = Ret s'.
Proof.
  intros Hi Hc. assert (Hd := inv_disable _ Hi). unfold exit.
  destruct (test is_init (current s) s) eqn:Hin.
  - unfold exit_current_locked. cbv zeta. rewrite inv_running, not_idle, bool_decide_false by done.
    change (current (disable_preempt s)) with (current s). rewrite is_init_disable, Hin. by eexists.
  - destruct (exit_current_locked_ok c (disable_preempt s)) as (s1 & -> & Hi1 & _);
      [done|done|by rewrite <- Hin; apply is_init_disable|]. simpl.
    destruct (halted s1); [by eexists|]. destruct (leave_ok s1 Hi1) as (s' & ? & _). by exists s'.
Qed.

Lemma exited_state_spec c s :
  sched_inv s → current s ≠ IDLE_TASK s →
  let s' := exited_state c s in
  status (current s) s' = Some Exited ∧ exit_code <$> tasks s' !! current s = Some c ∧
  current s ∈ EXITED_TASKS s' ∧ wq_get (wait_for_exit (current s)) s' = [] ∧
  (∀ t, t ∈ wq_get (wait_for_exit (current s)) s → status t s' ≠ Some Blocked).
Proof.
  intros Hi Hc s'. destruct (exited_state_pre c s Hi Hc) as ([HB Hp] & Hcu & Hst). fold s' in HB, Hp, Hcu, Hst.
  unfold s', exited_state, notify_exit, notify_all_locked in *. cbv zeta in *.
  set (s1 := upd (current s) (set_exit_code c) _) in *.
  destruct (notify_all_loop_wakes (length (wq_get (wait_for_exit (current s)) s1))
    (wait_for_exit (current s)) false s1) as [Hq Hw]; [done|].
  pose proof (woken_notify_all_loop (length (wq_get (wait_for_exit (current s)) s1))
    (wait_for_exit (current s)) false s1) as Hw2.
  set (s2 := notify_all_loop _ _ _ s1) in *. set (s3 := set_exited _ s2) in *.
  pose proof (woken_notify_one_locked WAIT_FOR_EXIT false s3) as Hw3.
  set (s4 := (notify_one_locked WAIT_FOR_EXIT false s3).2) in *. split_and!; [done|..].
  - rewrite (wo_code _ _ Hw3). change (exit_code <$> tasks s2 !! current s = Some c).
    rewrite (wo_code _ _ Hw2). destruct Hi as [_ [x Hx]%status_is_Some].
    unfold s1. simpl. by rewrite !lookup_alter_eq, Hx.
  - rewrite (wo_exited _ _ Hw3). simpl. apply elem_of_app. right. by left.
  - rewrite <- Hq. unfold s4, notify_one_locked. destruct (wq_get WAIT_FOR_EXIT s3); [done|].
    unfold wq_get. simpl. rewrite wqs_unblock. simpl. by rewrite lookup_insert_ne.
  - intros t Ht. rewrite (wo_status _ _ Hw3); by apply Hw.
Qed.


(** ** Effects of the operations on queues and timers *)

Lemma with_rq_switched body s s' :
  with_rq body s = Ret s' → (∀ s1, body (disable_preempt s) = Ret s1 → sched_inv s1) →
  ∃ s1, body (disable_preempt s) = Ret s1 ∧ switched s1 s'.
Proof.
  unfold with_rq. intros Hr Hb. destruct (body (disable_preempt s)) as [s1|]; [|done].
  exists s1. split; [done|]. apply leave_switched; [by apply Hb|done].
Qed.

Lemma wait_block_effect q s s' :
  sched_inv s → wait_block q s = Ret s' →
  status (current s) s' = Some Blocked ∧ wq_get q s' = wq_get q s ++ [current s] ∧
  timers s' = timers s ∧ current s' ≠ current s.
Proof.
  intros Hi Hb. assert (Hd := inv_disable _ Hi).
  assert (Hi' : sched_inv s') by (eapply with_rq_inv; [done|intros s1; by apply block_current_inv]).
  apply with_rq_switched in Hb as (s1 & Hb & Hsw); [|intros s1; by apply block_current_inv].
  destruct (decide (current s = IDLE_TASK s)).
  { rewrite block_current_panic in Hb by auto. done. }
  destruct (can_preempt 1 (current s) (disable_preempt s)) eqn:Hp;
    [|rewrite block_current_panic in Hb by auto; done].
  destruct (block_current_ok q (disable_preempt s) Hd) as (s1' & Hb' & _ & Hsw1); [done..|].
  rewrite Hb' in Hb. simplify_eq. assert (Hsw2 := switched_trans _ _ _ Hsw1 Hsw).
  assert (Hst : status (current s) s' = Some Blocked).
  { apply (sw_blocked _ _ Hsw2). change (status (current s)
      (upd (current s) (set_in_wait_queue true) (upd (current s) (set_state Blocked) (disable_preempt s))) = Some Blocked).
    rewrite status_upd_core by by split. rewrite (status_set_current Blocked (disable_preempt s)) by done.
    by rewrite decide_True. }
  split_and!; [done|..].
  - unfold wq_get. rewrite (sw_wqs _ _ Hsw2). simpl. by rewrite lookup_insert_eq.
  - by rewrite (sw_timers _ _ Hsw2).
  - intros Heq. destruct Hi' as [_ Hr]. congruence.
Qed.

Lemma notify_one_effect q r b s s' :
  sched_inv s → notify_one q r s = Ret (b, s') →
  match wq_get q s with
  | [] => b = false ∧ wqs s' = wqs s ∧ ∀ u, status u s' = Some Blocked ↔ status u s = Some Blocked
  | t :: l => b = true ∧ wq_get q s' = l ∧ status t s' ≠ Some Blocked ∧
              ∀ u, u ≠ t → status u s' = Some Blocked ↔ status u s = Some Blocked
  end.
Proof.
  intros Hi Hn. assert (Hd := inv_disable _ Hi). unfold notify_one in Hn. cbv zeta in Hn.
  assert (Hst := λ u, sv_status _ _ _ (same_view_disable s) u).
  change (wq_get q (disable_preempt s)) with (wq_get q s) in Hn.
  destruct (wq_get q s) as [|t l] eqn:Hq.
  - rewrite decide_True in Hn by done. destruct (locked_pair false _ Hd) as (s1 & Hs1 & _ & Hsw).
    rewrite Hs1 in Hn. simplify_eq. split_and!; [done|by rewrite (sw_wqs _ _ Hsw)|].
    intros u. by rewrite (sw_blocked _ _ Hsw), Hst.
  - rewrite decide_False in Hn by done.
    pose proof (notify_one_locked_cons q r (disable_preempt s) t l Hq) as [Hl Ht].
    pose proof (notify_one_locked_inv q r _ Hd) as Hi2.
    assert (Hu : ∀ u, u ≠ t → status u (notify_one_locked q r (disable_preempt s)).2 = status u s).
    { intros u Hu. unfold notify_one_locked. change (wq_get q (disable_preempt s)) with (wq_get q s).
      rewrite Hq. simpl. rewrite unblock_status, decide_False by naive_solver.
      rewrite status_upd_ne by done. apply Hst. }
    assert (Hb : (notify_one_locked q r (disable_preempt s)).1 = true).
    { unfold notify_one_locked. change (wq_get q (disable_preempt s)) with (wq_get q s). by rewrite Hq. }
    destruct (notify_one_locked q r (disable_preempt s)) as [b2 s2]. simpl in Hl, Ht, Hi2, Hu, Hb.
    destruct (locked_pair b2 _ Hi2) as (s1 & Hs1 & _ & Hsw). rewrite Hs1 in Hn. simplify_eq.
    split_and!; [done|unfold wq_get; by rewrite (sw_wqs _ _ Hsw)|by rewrite (sw_blocked _ _ Hsw)|].
    intros u Hut. by rewrite (sw_blocked _ _ Hsw), Hu.
Qed.

Lemma tick_timers s : timers (scheduler_timer_tick s) = timers s.
Proof.
  unfold scheduler_timer_tick. case_match; [done|]. destruct (sched_task_tick _ _) as [[] sch]; done.
Qed.
Lemma tick_status s t : status t (scheduler_timer_tick s) = status t s.
Proof.
  unfold scheduler_timer_tick. case_match; [done|]. destruct (sched_task_tick _ _) as [[] sch]; [|done].
  by rewrite status_upd_core.
Qed.

(** A timer interrupt leaves no expired event, and nobody blocked who had one. *)
Lemma timer_irq_effect s s' :
  sched_inv s → timer_irq s = Ret s' →
  (∀ e, e ∈ timer_events (timers s') → e ∈ timer_events (timers s) ∧ wall_time s < e.1) ∧
  (∀ t, status t s' = Some Blocked → status t s = Some Blocked ∧
        ∀ d, (d, t) ∈ timer_events (timers s) → wall_time s < d).
Proof.
  intros Hi Ht. assert (Hd := inv_disable _ Hi). unfold timer_irq, on_timer_tick, check_events in Ht.
  destruct (check_events_loop_ok (S (length (timer_events (timers (disable_preempt s)))))
    (disable_preempt s) Hd) as (s1 & Hs1 & Hi1 & Hw & He & Hb); [lia|]. rewrite Hs1 in Ht. simpl in Ht.
  destruct (with_rq _ s1) as [s2|] eqn:Hs2; [|done]. simpl in Ht.
  assert (Hi2 : sched_inv s2).
  { eapply with_rq_inv; [done|]. intros ? [= <-]. by apply scheduler_timer_tick_inv, inv_disable. }
  apply with_rq_switched in Hs2 as (s3 & [= <-] & Hsw2);
    [|intros ? [= <-]; by apply scheduler_timer_tick_inv, inv_disable].
  assert (Hsw := switched_trans _ _ _ Hsw2 (leave_switched _ _ Hi2 Ht)). split.
  - intros e. rewrite (sw_timers _ _ Hsw), tick_timers. apply He.
  - intros t. rewrite (sw_blocked _ _ Hsw), tick_status, (sv_status _ _ _ (same_view_disable s1)).
    intros Hbt%Hb. by rewrite (sv_status _ _ _ (same_view_disable s)) in Hbt.
Qed.


Lemma gc_sweep_mono n s t : tasks s !! t = None → tasks (gc_sweep n s) !! t = None.
Proof.
  revert s. induction n as [|n IH]; intros s Hn; [done|]. simpl.
  destruct (EXITED_TASKS s); [by apply IH|]. case_match; apply IH; simpl; [|done].
  apply lookup_delete_None. by right.
Qed.

Lemma occurrences_app t l l' : occurrences t (l ++ l') = (occurrences t l + occurrences t l')%nat.
Proof. unfold occurrences. by rewrite filter_app, length_app. Qed.
Lemma occurrences_cons_ne t u l : u ≠ t → occurrences t (u :: l) = occurrences t l.
Proof. intros. unfold occurrences. by rewrite filter_cons_False. Qed.
Lemma occurrences_cons_eq t l : occurrences t (t :: l) = S (occurrences t l).
Proof. unfold occurrences. by rewrite filter_cons_True. Qed.

Lemma strong_count_exited t l s :
  (strong_count t (set_exited l s) + occurrences t (EXITED_TASKS s) =
   strong_count t s + occurrences t l)%nat.
Proof. unfold strong_count. simpl. lia. Qed.
Lemma strong_count_tasks t m s : strong_count t (set_tasks m s) = strong_count t s.
Proof. done. Qed.

(** What a sweep removes: only exited tasks nothing refers to any more. *)
Lemma gc_sweep_sound n s t :
  sched_inv s →
  tasks (gc_sweep n s) !! t = tasks s !! t ∨
  (tasks (gc_sweep n s) !! t = None ∧ status t s = Some Exited ∧
   default 0%nat (handles s !! t) = 0%nat ∧ ¬ wakeable t s ∧ t ∉ queued (scheduler s)).
Proof.
  revert s. induction n as [|n IH]; intros s Hi; [by left|]. simpl.
  destruct (EXITED_TASKS s) as [|u l] eqn:He; [by apply IH|].
  assert (Hi1 : sched_inv (set_exited l s)).
  { apply base_drop_exited; [|done]. rewrite He. by right. }
  assert (Hu : status u s = Some Exited) by (apply Hi; rewrite He; by left).
  destruct (Nat.eqb_spec (strong_count u (set_exited l s)) 0) as [H0u|].
  - destruct (decide (t = u)) as [->|Hne].
    + right. apply strong_count_0 in H0u as (_ & Hq & Hw & _ & _ & Hh).
      split_and!; [|done..]. apply gc_sweep_mono. simpl. apply lookup_delete_eq.
    + destruct (IH (set_tasks (delete u (tasks s)) (set_exited l s))
        (free_task_inv u (set_exited l s) Hi1 H0u Hu)) as [Heq|(?&Hst&?&?&?)].
      * left. rewrite Heq. simpl. by rewrite lookup_delete_ne.
      * right. split_and!; [done| |done..]. rewrite <- Hst. unfold status. simpl. by rewrite lookup_delete_ne.
  - apply (IH (set_exited (l ++ [u]) s)). apply base_drop_exited; [|done]. rewrite He. set_solver.
Qed.

(** And it removes all of those it looks at. *)
Lemma gc_sweep_complete n s t i :
  EXITED_TASKS s !! i = Some t → (i < n)%nat → strong_count t s = 1%nat →
  tasks (gc_sweep n s) !! t = None.
Proof.
  revert s i. induction n as [|n IH]; intros s i Hi Hn Hc; [lia|]. simpl.
  destruct (EXITED_TASKS s) as [|u l] eqn:He; [done|].
  pose proof (strong_count_exited t l s) as Hl. rewrite He in Hl.
  destruct (decide (u = t)) as [->|Hne].
  - rewrite occurrences_cons_eq in Hl.
    rewrite (proj2 (Nat.eqb_eq _ _)) by (pose proof (strong_count_exited t l s); lia).
    apply gc_sweep_mono. simpl. apply lookup_delete_eq.
  - rewrite occurrences_cons_ne in Hl by done.
    destruct i as [|i]; [simpl in Hi; congruence|]. simpl in Hi.
    case_match; [apply (IH (set_tasks (delete u (tasks s)) (set_exited l s)) i)|
                 apply (IH (set_exited (l ++ [u]) s) i)].
    + done.
    + lia.
    + rewrite strong_count_tasks. lia.
    + simpl. by apply lookup_app_l_Some.
    + lia.
    + pose proof (strong_count_exited t (l ++ [u]) s) as Hl2.
      rewrite He, occurrences_app, !occurrences_cons_ne in Hl2 by done. unfold occurrences at 3 in Hl2.
      simpl in Hl2. lia.
Qed.

(** A running task marked idle that is not [IDLE_TASK] is in no queue after it
    gave up the CPU. *)
Lemma resched_idle_lost b s s' :
  status (current s) s = Some Running → test is_idle (current s) s = true →
  current s ≠ IDLE_TASK s → current s ∉ queued (scheduler s) → resched b s = Ret s' →
  status (current s) s' = Some Ready ∧ current s ∉ queued (scheduler s') ∧ current s' ≠ current s.
Proof.
  intros Hr Hid Hni Hq. unfold resched, is_running. cbv zeta.
  rewrite test_status, bool_decide_true by done. rewrite test_upd, Hid by done.
  set (s1 := upd (current s) (set_state Ready) s).
  assert (Hs1 : status (current s) s1 = Some Ready) by (apply status_upd_set; by eapply status_is_Some).
  change (scheduler s1) with (scheduler s). change (IDLE_TASK s1) with (IDLE_TASK s).
  destruct (sched_pick_next_task (scheduler s)) as [o sch] eqn:Hp.
  assert (Hsch : current s ∉ queued sch ∧ default (IDLE_TASK s) o ≠ current s).
  { destruct o as [t|]; simpl.
    - apply queued_pick_Some in Hp. rewrite Hp in Hq. apply not_elem_of_cons in Hq as [??]. by split.
    - apply queued_pick_None in Hp as [_ ->]. split; [apply not_elem_of_nil|done]. }
  destruct Hsch as [Hsch Hne]. set (next := default (IDLE_TASK s) o) in *.
  unfold switch_to. cbv zeta. fold (picked next sch s1). rewrite (proj2 (Z.eqb_neq _ _)) by congruence.
  case_match; [|done]. intros [= <-]. split_and!; [|done|done].
  change (status (current s) (upd (current s) (set_ctx CtxSwitch) (picked next sch s1)) = Some Ready).
  rewrite status_upd_core by by split. unfold picked. rewrite !status_upd_ne by congruence. done.
Qed.


(** ** Effects, for clients that keep invariants of their own *)

Definition alive (t : Z) (s : sys) : Prop := is_Some (status t s) ∧ status t s ≠ Some Exited.

Lemma code_is_Some s s' t :
  exit_code <$> tasks s' !! t = exit_code <$> tasks s !! t → is_Some (status t s) → is_Some (status t s').
Proof.
  unfold status. rewrite !fmap_is_Some. intros Hc Hs. rewrite <- (fmap_is_Some exit_code), Hc.
  by apply fmap_is_Some.
Qed.
Lemma switched_alive s s' t : switched s s' → alive t s → alive t s'.
Proof.
  intros Hsw [Hs He]. split; [by eapply code_is_Some; [apply (sw_code _ _ Hsw)|]|].
  by rewrite (sw_exited _ _ Hsw).
Qed.
Lemma woken_alive s s' t : woken s s' → alive t s → alive t s'.
Proof.
  intros Hw [Hs He]. split; [by eapply code_is_Some; [apply (wo_code _ _ Hw)|]|].
  destruct (decide (status t s = Some Blocked)) as [Hb|Hb].
  - destruct (wo_blocked _ _ Hw _ Hb) as [->| ->]; done.
  - by rewrite (wo_status _ _ Hw).
Qed.
Lemma same_view_alive s s' t : same_view s s' → alive t s → alive t s'.
Proof. intros Hv. unfold alive. by rewrite (sv_status _ _ _ Hv). Qed.

Lemma wait_until_effect q cond b s s' :
  sched_inv s → wait_until_iter q cond s = Ret (b, s') →
  if b then cond (disable_preempt s) = true ∧ switched s s'
  else cond (disable_preempt s) = false ∧
       wq_get q s' = wq_get q s ++ [current s] ∧ status (current s) s' = Some Blocked ∧
       (∀ u, u ≠ current s → status u s' = Some Blocked ↔ status u s = Some Blocked) ∧
       (∀ u, alive u s → alive u s').
Proof.
  intros Hi Hw. assert (Hd := inv_disable _ Hi). unfold wait_until_iter in Hw. cbv zeta in Hw.
  destruct (cond (disable_preempt s)) eqn:Hc.
  - destruct (locked_pair true _ Hd) as (s1 & Hs1 & _ & Hsw). rewrite Hs1 in Hw. simplify_eq.
    split; [done|]. eapply switched_trans; [|done]. by apply switched_upd.
  - destruct (block_current _ _) as [s2|] eqn:Hb; [|done]. change ((s' ← leave s2; Ret (false, s')) = Ret (b, s')) in Hw.
    destruct (locked_pair false s2) as (s1 & Hs1 & _ & Hsw1); [by eapply block_current_inv|].
    rewrite Hs1 in Hw. simplify_eq. split; [done|].
    assert (Hwb : wait_block q s = Ret s').
    { unfold wait_block, with_rq. rewrite Hb. simpl. destruct (leave s2); [by simplify_eq/=|done]. }
    destruct (wait_block_effect _ _ _ Hi Hwb) as (Hst & Hq & _ & _).
    destruct (decide (current s = IDLE_TASK s)); [rewrite block_current_panic in Hb by auto; done|].
    destruct (can_preempt 1 (current s) (disable_preempt s)) eqn:Hp;
      [|rewrite block_current_panic in Hb by auto; done].
    destruct (block_current_ok q (disable_preempt s) Hd) as (s2' & Hb' & _ & Hsw); [done..|].
    rewrite Hb' in Hb. simplify_eq. assert (Hsw2 := switched_trans _ _ _ Hsw Hsw1).
    set (s3 := wait_queue_push q _ _) in *.
    assert (Hs3 : ∀ u, status u s3 = if decide (u = current s) then Some Blocked else status u s).
    { intros u. transitivity (status u (upd (current s) (set_in_wait_queue true)
        (upd (current s) (set_state Blocked) (disable_preempt s)))); [done|].
      rewrite status_upd_core by by split. rewrite (status_set_current Blocked (disable_preempt s)) by done.
      change (current (disable_preempt s)) with (current s).
      case_decide; [done|]. apply (sv_status _ _ _ (same_view_disable s)). }
    split; [done|]. split; [done|]. split.
    + intros u Hu. by rewrite (sw_blocked _ _ Hsw2), Hs3, decide_False.
    + intros u Hu. apply (switched_alive _ _ _ Hsw2). unfold alive. rewrite Hs3.
      case_decide; [split; [by eexists|done]|apply Hu].
Qed.

Lemma cancel_events_effect q s :
  sched_inv s →
  (∀ t, status t (cancel_events q s) = status t s) ∧ current (cancel_events q s) = current s ∧
  (∀ t, t ∈ wq_get q (cancel_events q s) → t ∈ wq_get q s) ∧
  (∀ t, t ≠ current s → t ∈ wq_get q s → t ∈ wq_get q (cancel_events q s)).
Proof.
  intros Hi. unfold cancel_events. cbv zeta.
  set (s1 := if test in_wait_queue (current s) s then _ else s).
  assert (Hs1 : (∀ t, status t s1 = status t s) ∧ current s1 = current s ∧
    (∀ t, t ∈ wq_get q s1 → t ∈ wq_get q s) ∧
    (∀ t, t ≠ current s → t ∈ wq_get q s → t ∈ wq_get q s1)).
  { unfold s1. case_match; [|done]. split_and!; [|done|..].
    - intros t. by rewrite status_upd_core.
    - intros t. unfold wq_get, wq_set. simpl. rewrite lookup_insert_eq. simpl.
      rewrite list_elem_of_filter. naive_solver.
    - intros t Ht Hin. unfold wq_get, wq_set. simpl. rewrite lookup_insert_eq. simpl.
      by apply list_elem_of_filter. }
  destruct Hs1 as (A1 & A2 & A3 & A4). case_match; [|done]. split_and!; [|done..].
  intros t. rewrite <- A1. transitivity (status t (upd (current s) (set_in_timer_list false) s1)); [done|].
  by apply status_upd_core.
Qed.

Lemma cancel_events_nodup q s : NoDup (wq_get q s) → NoDup (wq_get q (cancel_events q s)).
Proof.
  intros Hnd. unfold cancel_events. cbv zeta. set (s1 := if test in_wait_queue (current s) s then _ else s).
  assert (NoDup (wq_get q s1)).
  { unfold s1. case_match; [|done]. unfold wq_get. simpl. rewrite lookup_insert_eq. simpl.
    by apply NoDup_filter. }
  by case_match.
Qed.

Lemma notify_one_alive q r b s s' u :
  sched_inv s → notify_one q r s = Ret (b, s') → alive u s → alive u s'.
Proof.
  intros Hi Hn Hu. assert (Hd := inv_disable _ Hi). unfold notify_one in Hn. cbv zeta in Hn.
  apply (same_view_alive _ _ _ (same_view_disable s)) in Hu. case_decide.
  - destruct (locked_pair false _ Hd) as (s1 & Hs1 & _ & Hsw). rewrite Hs1 in Hn. simplify_eq.
    by eapply switched_alive.
  - pose proof (notify_one_locked_inv q r _ Hd) as Hi2. pose proof (woken_notify_one_locked q r (disable_preempt s)) as Hw.
    destruct (notify_one_locked _ _ _) as [b2 s2]; simpl in Hi2, Hw.
    destruct (locked_pair b2 _ Hi2) as (s1 & Hs1 & _ & Hsw). rewrite Hs1 in Hn. simplify_eq.
    eapply switched_alive, woken_alive; done.
Qed.

End proofs.
