(* ===== verification/SchedProps.v ===== *)
(** Properties of the task scheduler, over any scheduler and timer list that keep
    their laws, and concrete instances of the two interfaces. *)

From S2P Require Import Prelude Task Sched SchedInv.
From stdpp Require Import prelude gmap strings sorting.
From Stdlib Require Import ZArith Lia.
Local Open Scope Z_scope.

(** ** A FIFO scheduler and a list of timer events *)

#[export] Instance fifo_scheduler : BaseScheduler (list Z) := {|
  queued l := l;
  sched_new := [];
  sched_add_task t l := l ++ [t];
  sched_pick_next_task l := match l with t :: l' => (Some t, l') | [] => (None, []) end;
  sched_put_prev_task t _ l := l ++ [t];
  sched_task_tick _ l := (false, l);
  sched_set_priority _ _ l := (false, l);
|}.
#[export] Instance fifo_scheduler_laws : BaseSchedulerLaws (list Z).
Proof.
  split; try done.
  - intros t l. simpl. by rewrite Permutation_app_comm.
  - intros t b l. simpl. by rewrite Permutation_app_comm.
  - intros t [|u l] l'; simpl; by intros [= -> ->].
  - intros [|u l] l'; simpl; by intros [=].
Qed.

Fixpoint take_expired (now : Z) (l : list (Z * Z)) : option (Z * Z) * list (Z * Z) :=
  match l with
  | [] => (None, [])
  | e :: l' =>
      if e.1 <=? now then (Some e, l')
      else let (o, r) := take_expired now l' in (o, e :: r)
  end.
#[export] Instance list_timer : TimerList (list (Z * Z)) := {|
  timer_events l := l;
  timer_new := [];
  timer_set d t l := (d, t) :: l;
  timer_cancel t l := filter (λ e, e.2 ≠ t) l;
  timer_expire_one := take_expired;
|}.
Lemma take_expired_Some now l e l' :
  take_expired now l = (Some e, l') → e.1 ≤ now ∧ l ≡ₚ e :: l'.
Proof.
  revert l'. induction l as [|x l IH]; intros l'; simpl; [done|].
  destruct (Z.leb_spec x.1 now); [by intros [= <- <-]|].
  destruct (take_expired now l) as [o r]. intros [= -> <-].
  destruct (IH r eq_refl) as [? Hp]. split; [done|]. rewrite Hp. by constructor.
Qed.
Lemma take_expired_None now l l' :
  take_expired now l = (None, l') → l' = l ∧ ∀ e, e ∈ l → now < e.1.
Proof.
  revert l'. induction l as [|x l IH]; intros l'; simpl.
  { intros [= <-]. split; [done|]. intros e He. by apply not_elem_of_nil in He. }
  destruct (Z.leb_spec x.1 now); [done|].
  destruct (take_expired now l) as [o r]. intros [= -> <-].
  destruct (IH r eq_refl) as [-> He]. split; [done|]. intros e [->|]%elem_of_cons; [done|by apply He].
Qed.
#[export] Instance list_timer_laws : TimerListLaws (list (Z * Z)).
Proof.
  split; try done.
  - intros t l e. simpl. rewrite list_elem_of_filter. naive_solver.
  - intros now l d t l' Hx. by apply take_expired_Some in Hx.
  - intros now l l'. apply take_expired_None.
Qed.

(** A run of that instance: the main task spawns a worker and blocks on a queue. *)
Abbreviation fsys := (sys (list Z) (list (Z * Z))).
Definition ret_or {A} (a : A) (o : outcome A) : A := match o with Ret x => x | Panic => a end.
Definition run_spawned : fsys := (ret_or (0, init) (spawn_raw "worker" init)).2.
Definition run_blocked : fsys := ret_or init (wait_block (other_queue 0) run_spawned).
(** The GC task yields, and the worker runs. *)
Definition run_worker : fsys := ret_or init (yield_now run_blocked).
(** Another: the worker joined by the main task. *)
Definition run_joining : fsys := ret_or init (wait_block (wait_for_exit 4) run_spawned).
Definition run_joined : fsys := ret_or init (yield_now run_joining).

Lemma run_spawned_reachable : rtc sched_step init run_spawned.
Proof. eapply rtc_once, (step_spawn "worker" 4); by vm_compute. Qed.
Lemma run_blocked_reachable : rtc sched_step init run_blocked.
Proof.
  eapply rtc_r; [apply run_spawned_reachable|]. apply (step_wait_block (other_queue 0)); by vm_compute.
Qed.
Lemma run_worker_reachable : rtc sched_step init run_worker.
Proof. eapply rtc_r; [apply run_blocked_reachable|]. apply step_yield; by vm_compute. Qed.
Lemma run_joined_reachable : rtc sched_step init run_joined.
Proof.
  apply (rtc_r _ run_joining); [|apply step_yield; by vm_compute].
  eapply rtc_r; [apply run_spawned_reachable|]. apply (step_wait_block (wait_for_exit 4)); by vm_compute.
Qed.

(** ** Properties *)

Section properties.
Context {Sch Tim : Type} `{BaseSchedulerLaws Sch, TimerListLaws Tim}.
Implicit Types s : sys Sch Tim.



(** When a task other than the main one exits, its exit code is stored, it is
    queued for the GC task, and every task waiting in its [wait_for_exit] queue is
    made ready: the queue is empty afterwards and none of them is blocked. *)
Theorem exit_wakes_joiners c s :
  rtc sched_step init s → current s ≠ IDLE_TASK s → test is_init (current s) s = false → halted s = false →
  ∃ s', exit c s = Ret s' ∧ status (current s) s' = Some Exited ∧
    join_result (current s) s' = Some c ∧ current s ∈ EXITED_TASKS s' ∧
    wq_get (wait_for_exit (current s)) s' = [] ∧
    (∀ t, t ∈ wq_get (wait_for_exit (current s)) s → status t s' ≠ Some Blocked).
Proof.
  intros Hi%reachable_inv Hc Hin Hh. destruct (exit_ok c s Hi Hc Hin Hh) as (s' & He & _ & Hsw).
  exists s'. split; [done|]. destruct (exited_state_spec c (disable_preempt s)) as (Hst & Hcode & Hx & Hq & Hw);
    [by apply inv_disable|done|]. change (current (disable_preempt s)) with (current s) in *.
  split_and!.
  - by apply (sw_exited _ _ Hsw).
  - unfold join_result. by rewrite (sw_code _ _ Hsw).
  - by rewrite (sw_EXITED _ _ Hsw).
  - unfold wq_get. by rewrite (sw_wqs _ _ Hsw).
  - intros t Ht. rewrite (sw_blocked _ _ Hsw). by apply Hw.
Qed.

(** A timer interrupt serves every expired alarm: afterwards no event with a
    deadline in the past is left, no task that had one is blocked, and no task was
    blocked by the interrupt. *)
Theorem timer_irq_wakes_expired s s' :
  rtc sched_step init s → timer_irq s = Ret s' →
  (∀ e, e ∈ timer_events (timers s') → wall_time s < e.1) ∧
  (∀ d t, (d, t) ∈ timer_events (timers s) → d ≤ wall_time s → status t s' ≠ Some Blocked) ∧
  (∀ t, status t s' = Some Blocked → status t s = Some Blocked).
Proof.
  intros Hi%reachable_inv Ht. destruct (timer_irq_effect _ _ Hi Ht) as [He Hb]. split_and!.
  - intros e Hin. by apply He.
  - intros d t Hin Hd Hbt. apply Hb in Hbt as [_ Hbt]. apply Hbt in Hin. lia.
  - intros t Hbt. by apply Hb.
Qed.

(** [wait] puts the caller at the tail of the queue, blocked, and another task
    runs; [notify_one] takes the task at the head, which is blocked no more, leaves
    every other task blocked as it was, and returns whether there was one. *)
Theorem wait_notify_fifo q r s :
  rtc sched_step init s →
  (∀ s', wait_block q s = Ret s' →
     status (current s) s' = Some Blocked ∧ wq_get q s' = wq_get q s ++ [current s] ∧
     current s' ≠ current s) ∧
  (∀ b s', notify_one q r s = Ret (b, s') →
     match wq_get q s with
     | [] => b = false ∧ wqs s' = wqs s ∧ ∀ u, status u s' = Some Blocked ↔ status u s = Some Blocked
     | t :: l => b = true ∧ wq_get q s' = l ∧ status t s' ≠ Some Blocked ∧
                 ∀ u, u ≠ t → status u s' = Some Blocked ↔ status u s = Some Blocked
     end).
Proof.
  intros Hi%reachable_inv. split.
  - intros s' Hw. destruct (wait_block_effect _ _ _ Hi Hw) as (?&?&_&?). done.
  - intros b s'. by apply notify_one_effect.
Qed.

(** One round of the GC task frees an exited task whose only reference is the
    one in [EXITED_TASKS], and frees no task that is not exited, or that a handle,
    the run queue, a wait queue or the timer list still refers to. *)
Theorem gc_round_frees s t :
  rtc sched_step init s →
  (t ∈ EXITED_TASKS s → strong_count t s = 1%nat → tasks (gc_round s) !! t = None) ∧
  (tasks (gc_round s) !! t = tasks s !! t ∨
   tasks (gc_round s) !! t = None ∧ status t s = Some Exited ∧
   default 0%nat (handles s !! t) = 0%nat ∧ ¬ wakeable t s ∧ t ∉ queued (scheduler s)).
Proof.
  intros Hi%reachable_inv. split; [|by apply gc_sweep_sound].
  intros [i Hti]%list_elem_of_lookup Hc. eapply gc_sweep_complete; [done| |done].
  by eapply lookup_lt_Some.
Qed.

(** [wait_timeout] sets its alarm before it blocks.  When the timer interrupt
    that serves the alarm comes in between, the task is blocked with no event of
    its own left in the timer list: the timeout does not happen. *)
Theorem wait_timeout_alarm_lost q dur elapsed s s3 s4 :
  rtc sched_step init s → dur ≤ elapsed →
  (∀ d, (d, current s) ∉ timer_events (timers s)) →
  rtc sched_step init (tick_clock elapsed (wait_timeout_alarm dur s)) →
  timer_irq (tick_clock elapsed (wait_timeout_alarm dur s)) = Ret s3 → current s3 = current s →
  wait_block q s3 = Ret s4 →
  status (current s) s4 = Some Blocked ∧ ∀ d, (d, current s) ∉ timer_events (timers s4).
Proof.
  intros Hi Hd Hno Hi2%reachable_inv Ht Hcu Hw.
  assert (Hi3 : sched_inv s3).
  { destruct (timer_irq_ok _ Hi2) as (?&?&?). congruence. }
  destruct (timer_irq_effect _ _ Hi2 Ht) as [He _].
  destruct (wait_block_effect _ _ _ Hi3 Hw) as (Hst & _ & Htm & _). rewrite Hcu in Hst.
  split; [done|]. intros d Hin. rewrite Htm in Hin. apply He in Hin as [Hin Hlt]. simpl in Hin, Hlt.
  rewrite timer_events_set in Hin. apply elem_of_cons in Hin as [[= ->]|Hin]; [lia|by apply Hno in Hin].
Qed.

(** [TaskInner::new] marks every task named [idle] as the idle task.  Such a
    task, when it is not the one in [IDLE_TASK], is in no queue after it yields:
    it is ready but is never picked again. *)
Theorem idle_named_task_lost s s' :
  is_idle (new "idle") = true ∧
  (status (current s) s = Some Running → test is_idle (current s) s = true →
   current s ≠ IDLE_TASK s → current s ∉ queued (scheduler s) → yield_current s = Ret s' →
   status (current s) s' = Some Ready ∧ current s ∉ queued (scheduler s') ∧ current s' ≠ current s).
Proof.
  split; [done|]. intros Hr Hid Hni Hq. unfold yield_current, is_running.
  rewrite test_status, bool_decide_true by done. by apply resched_idle_lost.
Qed.

End properties.

(** ** Witnesses *)



Lemma exit_wakes_joiners_witness :
  status 2 run_joined = Some Blocked ∧
  ∃ s', exit 7 run_joined = Ret s' ∧ status 2 s' ≠ Some Blocked ∧ join_result 4 s' = Some 7.
Proof.
  split; [by vm_compute|].
  destruct (exit_wakes_joiners 7 run_joined run_joined_reachable) as (s' & He & _ & Hj & _ & _ & Hw);
    [by vm_compute..|].
  exists s'. split; [exact He|]. split; [apply Hw; vm_compute; by left|exact Hj].
Defined.

(** The main task sleeps until 10, and the clock reaches 12. *)
Definition run_asleep : fsys := ret_or init (sleep_until 10 run_spawned).
Definition run_expired : fsys := tick_clock 12 run_asleep.
Lemma run_expired_reachable : rtc sched_step init run_expired.
Proof.
  apply (rtc_r _ run_asleep); [|by apply step_time; [vm_compute|lia]].
  eapply rtc_r; [apply run_spawned_reachable|]. apply (step_sleep_until 10); by vm_compute.
Qed.
Definition run_woken : fsys := ret_or init (timer_irq run_expired).

Lemma timer_irq_wakes_expired_witness :
  status 2 run_expired = Some Blocked ∧ status 2 run_woken ≠ Some Blocked.
Proof.
  split; [by vm_compute|].
  destruct (timer_irq_wakes_expired run_expired run_woken run_expired_reachable) as (_ & Hw & _);
    [by vm_compute|]. apply (Hw 10); vm_compute; [by left|done].
Defined.

Definition run_notified : fsys := (ret_or (false, init) (notify_one (other_queue 0) false run_worker)).2.
Lemma wait_notify_fifo_witness :
  wq_get (other_queue 0) run_worker = [2] ∧ wq_get (other_queue 0) run_notified = [] ∧
  status 2 run_notified ≠ Some Blocked.
Proof.
  destruct (wait_notify_fifo (other_queue 0) false run_worker run_worker_reachable) as [_ Hn].
  specialize (Hn true run_notified). assert (Hq : wq_get (other_queue 0) run_worker = [2]) by by vm_compute.
  split; [exact Hq|]. destruct (wq_get (other_queue 0) run_worker) as [|t l]; [discriminate Hq|].
  injection Hq as -> ->. destruct Hn as (_ & Hl & Hb & _); [by vm_compute|]. split; [exact Hl|exact Hb].
Defined.

(** The worker exited and its handle was dropped. *)
Definition run_dead : fsys := drop_handle 4 (ret_or init (exit 7 run_joined)).
Lemma run_dead_reachable : rtc sched_step init run_dead.
Proof.
  apply (rtc_r _ (ret_or init (exit 7 run_joined))); [|by apply step_drop_handle; vm_compute].
  eapply rtc_r; [apply run_joined_reachable|]. apply (step_exit 7); by vm_compute.
Qed.
Lemma gc_round_frees_witness :
  status 4 run_dead = Some Exited ∧ tasks (gc_round run_dead) !! 4 = None.
Proof.
  split; [by vm_compute|]. destruct (gc_round_frees run_dead 4 run_dead_reachable) as [Hf _].
  apply Hf; vm_compute; [by left|done].
Defined.

(** The main task waits with a timeout of 5, and 6 pass before it blocks. *)
Definition run_alarm : fsys := tick_clock 6 (wait_timeout_alarm 5 run_spawned).
Definition run_served : fsys := ret_or init (timer_irq run_alarm).
Definition run_stuck : fsys := ret_or init (wait_block (other_queue 1) run_served).
Lemma wait_timeout_alarm_lost_witness :
  status 2 run_stuck = Some Blocked ∧ ∀ d, (d, 2) ∉ timer_events (timers run_stuck).
Proof.
  apply (wait_timeout_alarm_lost (other_queue 1) 5 6 run_spawned run_served run_stuck);
    [apply run_spawned_reachable|lia|vm_compute; intros d Hin; by apply not_elem_of_nil in Hin| |by vm_compute..].
  apply (rtc_r _ (wait_timeout_alarm 5 run_spawned)); [|by apply step_time; [vm_compute|lia]].
  eapply rtc_r; [apply run_spawned_reachable|]. apply step_alarm; by vm_compute.
Defined.

(** A user task named [idle] runs after two yields. *)
Definition run_idle_named : fsys :=
  ret_or init (yield_now (ret_or init (yield_now (ret_or (0, init) (spawn_raw "idle" init)).2))).
Definition run_idle_lost : fsys := ret_or init (yield_current run_idle_named).
Lemma idle_named_task_lost_witness :
  current run_idle_named = 4 ∧ status 4 run_idle_lost = Some Ready ∧ 4 ∉ queued (scheduler run_idle_lost).
Proof.
  split; [by vm_compute|].
  destruct (idle_named_task_lost run_idle_named run_idle_lost) as [_ Hl].
  destruct Hl as (Hst & Hq & _); [by vm_compute|by vm_compute|by vm_compute| |by vm_compute|].
  - apply (bool_decide_unpack _). by vm_compute.
  - split; [exact Hst|exact Hq].
Defined.
