(* ===== verification/Mutex.v ===== *)
(** The sleeping mutex of [modules/axsync/src/mutex.rs], on top of the wait queues
    and the run queue of [Sched].

    [lock], [try_lock] and [force_unlock] are split at the points where another
    task can run: between the compare-and-exchange, the test of [is_locked] made
    under the run queue lock, and the notification.  Each piece is a definition on
    the whole system state; [mutex_step] interleaves the pieces of all tasks with
    any other kernel activity. *)

From S2P Require Import Prelude Task Sched SchedInv SchedProps.
From stdpp Require Import prelude gmap strings sorting.
From Stdlib Require Import ZArith Lia.
Local Open Scope Z_scope.

(** Where a task is: not using the mutex, about to compare and exchange, in the
    loop of [wait_until], behind that loop and about to [cancel_events], holding
    the guard, or between the swap and [notify_one]. *)
Inductive mutex_pc : Type := Out | Locking | Waiting | Leaving | Holding | Unlocking.
#[export] Instance mutex_pc_eq_dec : EqDecision mutex_pc.
Proof. solve_decision. Defined.

Section mutex.
Context {Sch Tim : Type} `{BaseScheduler Sch, TimerList Tim}.
Context (wq : WaitQueueId).

Record MutexSys : Type := {
  owner_id : Z;
  pcs : gmap Z mutex_pc;
  kernel : sys Sch Tim;
}.
Definition pc_of (t : Z) (m : MutexSys) : mutex_pc := default Out (pcs m !! t).
Definition goto (t : Z) (p : mutex_pc) (m : MutexSys) : MutexSys :=
  {| owner_id := owner_id m; pcs := <[t := p]> (pcs m); kernel := kernel m |}.
Definition set_owner (o : Z) (m : MutexSys) : MutexSys :=
  {| owner_id := o; pcs := pcs m; kernel := kernel m |}.
Definition set_kernel (s : sys Sch Tim) (m : MutexSys) : MutexSys :=
  {| owner_id := owner_id m; pcs := pcs m; kernel := s |}.

Definition is_locked (m : MutexSys) : bool := negb (owner_id m =? 0).

(** The compare-and-exchange of [lock]; [spurious] is the failure the weak one is
    allowed.  A task that already owns the mutex panics. *)
Definition lock_cas (spurious : bool) (m : MutexSys) : outcome MutexSys :=
  let current_id := current (kernel m) in
  if (owner_id m =? 0) && negb spurious then Ret (goto current_id Holding (set_owner current_id m))
  else if owner_id m =? current_id then Panic
  else Ret (goto current_id Waiting m).

(** One round of [self.wq.wait_until(|| !self.is_locked())]; dropping the run
    queue lock may switch to another task, so what follows the loop,
    [cancel_events] and the next round of [lock], is a step of its own. *)
Definition lock_wait (m : MutexSys) : outcome MutexSys :=
  let current_id := current (kernel m) in
  r ← wait_until_iter wq (λ _, negb (is_locked m)) (kernel m);
  let m' := set_kernel (snd r) m in
  Ret (if fst r : bool then goto current_id Leaving m' else m').
Definition lock_cancel (m : MutexSys) : MutexSys :=
  goto (current (kernel m)) Locking (set_kernel (cancel_events wq (kernel m)) m).

Definition try_lock (m : MutexSys) : MutexSys * bool :=
  let current_id := current (kernel m) in
  if owner_id m =? 0 then (goto current_id Holding (set_owner current_id m), true) else (m, false).

Definition unlock_swap (m : MutexSys) : outcome MutexSys :=
  let current_id := current (kernel m) in
  if owner_id m =? current_id then Ret (goto current_id Unlocking (set_owner 0 m)) else Panic.
Definition unlock_notify (m : MutexSys) : outcome MutexSys :=
  let current_id := current (kernel m) in
  r ← notify_one wq true (kernel m);
  Ret (goto current_id Out (set_kernel (snd r) m)).

(** ** Interleavings *)

(** Any other kernel activity: it leaves the queue of the mutex alone and wakes
    nobody in it ([lock] sets no alarm), does not block a task that is inside
    [lock] or [force_unlock] (only the task itself could), and no task inside the
    mutex code exits. *)
Definition env_ok (m : MutexSys) (s' : sys Sch Tim) : Prop :=
  wq_get wq s' = wq_get wq (kernel m) ∧
  (∀ t, t ∈ wq_get wq s' → status t s' = Some Blocked) ∧
  (∀ t, pc_of t m ≠ Out → pc_of t m ≠ Holding →
        status t s' = Some Blocked → status t (kernel m) = Some Blocked) ∧
  (∀ t, pc_of t m ≠ Out → is_Some (status t s') ∧ status t s' ≠ Some Exited).

Inductive mutex_step : MutexSys → MutexSys → Prop :=
| step_lock m :
    pc_of (current (kernel m)) m = Out → mutex_step m (goto (current (kernel m)) Locking m)
| step_cas spurious m m' :
    pc_of (current (kernel m)) m = Locking → lock_cas spurious m = Ret m' → mutex_step m m'
| step_wait m m' :
    pc_of (current (kernel m)) m = Waiting → lock_wait m = Ret m' → mutex_step m m'
| step_cancel m :
    pc_of (current (kernel m)) m = Leaving → mutex_step m (lock_cancel m)
| step_try_lock m :
    pc_of (current (kernel m)) m = Out → mutex_step m (try_lock m).1
| step_swap m m' :
    pc_of (current (kernel m)) m = Holding → unlock_swap m = Ret m' → mutex_step m m'
| step_notify m m' :
    pc_of (current (kernel m)) m = Unlocking → unlock_notify m = Ret m' → mutex_step m m'
| step_env m s' :
    sched_step (kernel m) s' → env_ok m s' → mutex_step m (set_kernel s' m).

(** A new mutex, in a system nobody uses it in yet. *)
Definition mutex_new (s : sys Sch Tim) : MutexSys := {| owner_id := 0; pcs := ∅; kernel := s |}.

(** A task on its way to taking or passing on the lock, which will run again. *)
Definition active (t : Z) (m : MutexSys) : Prop :=
  (pc_of t m = Locking ∨ pc_of t m = Leaving ∨ pc_of t m = Unlocking ∨ pc_of t m = Waiting) ∧
  (status t (kernel m) = Some Running ∨ status t (kernel m) = Some Ready).

Record mutex_inv (m : MutexSys) : Prop := {
  mi_sched : sched_inv (kernel m);
  mi_owner : owner_id m ≠ 0 → pc_of (owner_id m) m = Holding;
  mi_hold t : pc_of t m = Holding → owner_id m = t;
  mi_queue t : t ∈ wq_get wq (kernel m) → pc_of t m = Waiting ∧ status t (kernel m) = Some Blocked;
  mi_nodup : NoDup (wq_get wq (kernel m));
  mi_alive t : pc_of t m ≠ Out → is_Some (status t (kernel m)) ∧ status t (kernel m) ≠ Some Exited;
  mi_busy t : pc_of t m ≠ Out → pc_of t m ≠ Holding → status t (kernel m) = Some Blocked →
              t ∈ wq_get wq (kernel m);
  mi_wakeup : owner_id m = 0 → wq_get wq (kernel m) ≠ [] → ∃ t, active t m;
}.

End mutex.
Arguments MutexSys : clear implicits.

(** ** Lemmas *)

Section mutex_proofs.
Context {Sch Tim : Type} `{BaseSchedulerLaws Sch, TimerListLaws Tim}.
Context (wq : WaitQueueId).
Abbreviation msys := (MutexSys Sch Tim).
Implicit Types m : msys.

Lemma pc_of_goto t u p m : pc_of t (goto u p m) = if decide (t = u) then p else pc_of t m.
Proof.
  unfold pc_of, goto. simpl. case_decide; [subst; by rewrite lookup_insert_eq|by rewrite lookup_insert_ne].
Qed.

Lemma current_running m : mutex_inv wq m → status (current (kernel m)) (kernel m) = Some Running.
Proof. intros Hm. apply (mi_sched _ _ Hm). Qed.

Lemma current_not_queued m : mutex_inv wq m → current (kernel m) ∉ wq_get wq (kernel m).
Proof.
  intros Hm Hin. apply (mi_queue _ _ Hm) in Hin as [_ Hb]. rewrite current_running in Hb; done.
Qed.

Lemma current_nonzero m : mutex_inv wq m → current (kernel m) ≠ 0.
Proof.
  intros Hm. destruct (mi_sched _ _ Hm) as [HB Hr].
  pose proof (base_ids _ HB _ (status_is_Some _ _ _ Hr)). lia.
Qed.

Lemma running_alive m : mutex_inv wq m →
  is_Some (status (current (kernel m)) (kernel m)) ∧ status (current (kernel m)) (kernel m) ≠ Some Exited.
Proof. intros Hm. rewrite current_running by done. split; [by eexists|done]. Qed.

(** The current task moves on without touching the kernel. *)
Lemma inv_goto p o m :
  mutex_inv wq m →
  (o = owner_id m ∧ p ≠ Holding ∧ owner_id m ≠ current (kernel m) ∨
   o = current (kernel m) ∧ p = Holding ∧ owner_id m = 0 ∨
   o = 0 ∧ p ≠ Holding ∧ owner_id m = current (kernel m)) →
  (o = 0 → p = Out → False) →
  mutex_inv wq (goto (current (kernel m)) p (set_owner o m)).
Proof.
  intros Hm Ho Hout. pose proof (current_running _ Hm) as Hr. pose proof (current_nonzero _ Hm) as Hnz.
  pose proof (current_not_queued _ Hm) as Hnq. pose proof (running_alive _ Hm).
  assert (Hpo : ∀ t, pc_of t (set_owner o m) = pc_of t m) by done.
  assert (H0pc : pc_of 0 m ≠ Holding).
  { intros H0h. destruct (mi_alive _ _ Hm 0) as [[st Hst] _]; [congruence|].
    destruct (mi_sched _ _ Hm) as [HB _]. apply status_is_Some, (base_ids _ HB) in Hst. lia. }
  destruct Hm as [M1 M2 M3 M4 Mnd M5 M6 M7].
  split; simpl; try done; intros t; rewrite ?pc_of_goto, ?Hpo.
  - destruct Ho as [(->&?&?)|[(->&->&?)|(->&_)]]; [|by rewrite decide_True|done].
    rewrite decide_False by done. by apply M2.
  - case_decide; subst; intros Hh.
    + destruct Ho as [(_&?&_)|[(->&_)|(_&?&_)]]; done.
    + apply M3 in Hh as Ht. destruct Ho as [(->&_)|[(_&_&Ho)|(_&_&Ho)]]; congruence.
  - intros Hin. case_decide; subst; [done|by apply M4].
  - case_decide; subst; [done|apply M5].
  - case_decide; subst; [congruence|apply M6].
  - intros Hq. exists (current (kernel m)). split; [|by left].
    rewrite pc_of_goto, decide_True by done.
    destruct p; [by destruct Hout|auto..| |auto].
    destruct Ho as [(_&?&_)|[(->&_)|(_&?&_)]]; done.
Qed.

Lemma inv_step_cas sp m m' :
  mutex_inv wq m → pc_of (current (kernel m)) m = Locking → lock_cas sp m = Ret m' → mutex_inv wq m'.
Proof.
  intros Hm Hpc. unfold lock_cas. cbv zeta.
  assert (Hne : owner_id m ≠ current (kernel m)).
  { intros Heq. pose proof (current_nonzero _ Hm). rewrite <- Heq in Hpc.
    rewrite (mi_owner _ _ Hm) in Hpc by congruence. done. }
  case_match eqn:Hc.
  - intros [= <-]. apply andb_true_iff in Hc as [Ho%Z.eqb_eq _]. apply inv_goto; [done|naive_solver|].
    intros Hcz. by apply (current_nonzero _ Hm) in Hcz.
  - rewrite (proj2 (Z.eqb_neq _ _) Hne). intros [= <-].
    apply (inv_goto Waiting (owner_id m)); [done|naive_solver|done].
Qed.

Lemma owner_not_current m :
  mutex_inv wq m → pc_of (current (kernel m)) m ≠ Holding → owner_id m ≠ current (kernel m).
Proof.
  intros Hm Hpc Heq. pose proof (current_nonzero _ Hm). rewrite <- Heq in Hpc.
  apply Hpc, (mi_owner _ _ Hm). congruence.
Qed.

(** The kernel moved on, and the task [c] that was running is at [p] now, while the
    other tasks are where they were. *)
Lemma inv_kernel c p s' m :
  mutex_inv wq m → pc_of c m ≠ Out → pc_of c m ≠ Holding → p ≠ Holding → sched_inv s' →
  (∀ t, alive t (kernel m) → alive t s') →
  NoDup (wq_get wq s') →
  (∀ t, t ∈ wq_get wq s' →
     pc_of t m = Waiting ∧ (t = c → p = Waiting) ∧ status t s' = Some Blocked) →
  (∀ t, pc_of t m ≠ Out → pc_of t m ≠ Holding → (t = c → p ≠ Out) →
     status t s' = Some Blocked → t ∈ wq_get wq s') →
  (owner_id m = 0 → wq_get wq s' ≠ [] → ∃ t, active t (goto c p (set_kernel s' m))) →
  mutex_inv wq (goto c p (set_kernel s' m)).
Proof.
  intros Hm Hc1 Hc2 Hp Hs Ha Hnd Hq Hb Hw.
  assert (Hpk : ∀ t, pc_of t (set_kernel s' m) = pc_of t m) by done.
  assert (Hoc : owner_id m ≠ 0 → owner_id m ≠ c).
  { intros Hnz Heq. apply (mi_owner _ _ Hm) in Hnz. congruence. }
  split; try done; simpl.
  - intros Hnz. rewrite pc_of_goto, Hpk, decide_False by auto. by apply (mi_owner _ _ Hm).
  - intros t. rewrite pc_of_goto, Hpk. case_decide; [congruence|apply (mi_hold _ _ Hm)].
  - intros t Hin. rewrite pc_of_goto, Hpk. apply Hq in Hin as (?&?&?). case_decide; auto.
  - intros t. rewrite pc_of_goto, Hpk. case_decide; subst; intros ?; apply Ha, (mi_alive _ _ Hm); congruence.
  - intros t. rewrite pc_of_goto, Hpk. case_decide; subst; intros ???; apply Hb; congruence.
Qed.

Lemma alive_ready t (s : sys Sch Tim) :
  alive t s → status t s ≠ Some Blocked → status t s = Some Running ∨ status t s = Some Ready.
Proof.
  intros [[st Hst] He] Hb. rewrite Hst in *. destruct st; [by left|by right|done|done].
Qed.

Lemma goto_id c p m : pc_of c m = p → p ≠ Out → goto c p m = m.
Proof.
  unfold pc_of, goto. intros Hp Ho. destruct m as [o pc k]; simpl in *. f_equal. apply insert_id.
  destruct (pc !! c); simpl in Hp; congruence.
Qed.

Lemma inv_lock_wait m m' :
  mutex_inv wq m → pc_of (current (kernel m)) m = Waiting → lock_wait wq m = Ret m' → mutex_inv wq m'.
Proof.
  intros Hm Hpc. unfold lock_wait. cbv zeta.
  destruct (wait_until_iter _ _ _) as [[b s']|] eqn:Hw; [|done]. intros [= <-].
  pose proof (mi_sched _ _ Hm) as Hs. pose proof (wait_until_inv _ _ _ _ _ Hs Hw) as Hs'.
  pose proof (current_not_queued _ Hm) as Hnq. pose proof (current_running _ Hm) as Hr.
  apply wait_until_effect in Hw; [|done]. destruct b; simpl.
  - destruct Hw as [Hfree Hsw].
    assert (Hwq : wq_get wq s' = wq_get wq (kernel m)) by (unfold wq_get; by rewrite (sw_wqs _ _ Hsw)).
    apply inv_kernel; rewrite ?Hwq; try done; try congruence.
    + intros t. by apply switched_alive.
    + apply (mi_nodup _ _ Hm).
    + intros t Hin. destruct (mi_queue _ _ Hm t Hin). split_and!; [done|congruence|].
      by apply (sw_blocked _ _ Hsw).
    + intros t ?? _ Hb. apply (mi_busy _ _ Hm); [done..|]. by apply (sw_blocked _ _ Hsw).
    + intros _ _. exists (current (kernel m)). split; [rewrite pc_of_goto, decide_True by done; auto|].
      apply alive_ready; [|rewrite (sw_blocked _ _ Hsw); simpl; congruence].
      apply (switched_alive _ _ _ Hsw), (mi_alive _ _ Hm). congruence.
  - destruct Hw as (Hlk & Hwq & Hst & Hoth & Hal).
    rewrite <- (goto_id (current (kernel m)) Waiting (set_kernel s' m)) by done.
    apply inv_kernel; rewrite ?Hwq; try done; try congruence.
    + apply NoDup_app. split_and!; [apply (mi_nodup _ _ Hm)| |apply NoDup_singleton].
      intros x Hx Hx'%list_elem_of_singleton. congruence.
    + intros t [Hin| ->%list_elem_of_singleton]%elem_of_app; [|done].
      destruct (mi_queue _ _ Hm t Hin). split_and!; [done..|]. apply Hoth; [congruence|done].
    + intros t ?? _ Hb. apply elem_of_app. destruct (decide (t = current (kernel m))) as [->|];
        [right; by left|left]. apply (mi_busy _ _ Hm); [done..|]. by apply Hoth.
    + intros Ho. unfold is_locked in Hlk. by rewrite Ho in Hlk.
Qed.

Lemma inv_lock_cancel m :
  mutex_inv wq m → pc_of (current (kernel m)) m = Leaving → mutex_inv wq (lock_cancel wq m).
Proof.
  intros Hm Hpc. pose proof (mi_sched _ _ Hm) as Hs. pose proof (current_running _ Hm) as Hr.
  destruct (cancel_events_effect wq _ Hs) as (Hst & Hcu & Hin1 & Hin2).
  pose proof (current_not_queued _ Hm) as Hnq. unfold lock_cancel.
  apply inv_kernel; try done; try congruence.
  - by apply cancel_events_inv.
  - intros t. unfold alive. by rewrite Hst.
  - apply cancel_events_nodup, (mi_nodup _ _ Hm).
  - intros t Hin%Hin1. destruct (mi_queue _ _ Hm t Hin). rewrite Hst. split_and!; [done| |done].
    intros ->. done.
  - intros t ?? _. rewrite Hst. intros Hb. apply Hin2; [congruence|]. by apply (mi_busy _ _ Hm).
  - intros _ _. exists (current (kernel m)). split; [rewrite pc_of_goto, decide_True by done; auto|].
    left. simpl. by rewrite Hst.
Qed.

Lemma inv_unlock_notify m m' :
  mutex_inv wq m → pc_of (current (kernel m)) m = Unlocking → unlock_notify wq m = Ret m' → mutex_inv wq m'.
Proof.
  intros Hm Hpc. unfold unlock_notify. cbv zeta.
  destruct (notify_one _ _ _) as [[b s']|] eqn:Hn; [|done]. intros [= <-]. simpl.
  pose proof (mi_sched _ _ Hm) as Hs. pose proof (current_running _ Hm) as Hr.
  assert (Hs' : sched_inv s').
  { destruct (notify_one_ok wq true _ Hs) as (?&?&?&?). congruence. }
  assert (Hal : ∀ t, alive t (kernel m) → alive t s') by (intros t; by eapply notify_one_alive).
  apply notify_one_effect in Hn; [|done]. pose proof (mi_nodup _ _ Hm) as Hnd.
  assert (HQ := mi_queue _ _ Hm). assert (HB := mi_busy _ _ Hm).
  destruct (wq_get wq (kernel m)) as [|t l] eqn:Hq.
  - destruct Hn as (_ & Hwq & Hb).
    assert (Hwq' : wq_get wq s' = []) by (unfold wq_get in *; by rewrite Hwq).
    apply inv_kernel; rewrite ?Hwq'; try done; try congruence.
    + intros u Hu. by apply not_elem_of_nil in Hu.
    + intros u ?? _ Hbu. apply HB; [done..|]. by apply Hb.
  - destruct Hn as (_ & Hwq & Hnb & Hb). apply NoDup_cons in Hnd as [Htl Hnd].
    destruct (HQ t) as [Htw Htb]; [by left|].
    apply inv_kernel; rewrite ?Hwq; try done; try congruence.
    + intros u Hu. destruct (HQ u) as [? Hbu]; [by right|]. split_and!; [done|intros ->; congruence|].
      apply Hb; [by intros ->|done].
    + intros u Hu1 Hu2 _ Hbu. assert (u ≠ t) as Hut by (by intros ->).
      destruct (proj1 (elem_of_cons l u t) (HB u Hu1 Hu2 (proj1 (Hb u Hut) Hbu))); done.
    + intros _ _. exists t. split.
      * rewrite pc_of_goto, decide_False by (intros ->; congruence). auto.
      * simpl. apply alive_ready; [|done]. apply Hal, (mi_alive _ _ Hm). congruence.
Qed.

Lemma mutex_step_inv m m' : mutex_step wq m m' → mutex_inv wq m → mutex_inv wq m'.
Proof.
  intros Hst Hm. destruct Hst as [m Hpc|sp m m' Hpc Hop|m m' Hpc Hop|m Hpc|m Hpc|m m' Hpc Hop|m m' Hpc Hop|m s' Hst Hok].
  - apply (inv_goto Locking (owner_id m)); [done| |done]. left. split_and!; [done..|].
    apply owner_not_current; [done|congruence].
  - by eapply inv_step_cas.
  - by eapply inv_lock_wait.
  - by apply inv_lock_cancel.
  - unfold try_lock. cbv zeta. destruct (Z.eqb_spec (owner_id m) 0); [|done].
    apply inv_goto; [done|auto|]. intros Hcz. by apply (current_nonzero _ Hm) in Hcz.
  - unfold unlock_swap in Hop. cbv zeta in Hop. destruct (Z.eqb_spec (owner_id m) (current (kernel m))); [|done].
    simplify_eq. apply inv_goto; [done|auto|done].
  - by eapply inv_unlock_notify.
  - destruct Hok as (Hwq & Hq & Hb & Ha). pose proof (sched_step_inv _ _ Hst (mi_sched _ _ Hm)) as Hs'.
    assert (Hpk : ∀ t, pc_of t (set_kernel s' m) = pc_of t m) by done.
    destruct Hm as [M1 M2 M3 M4 Mnd M5 M6 M7]. split; simpl; try done.
    + intros t Hin. split; [|by apply Hq]. rewrite Hwq in Hin. by apply M4.
    + by rewrite Hwq.
    + intros t ???. rewrite Hwq. apply M6; [done..|]. by apply Hb.
    + rewrite Hwq. intros Ho Hne. destruct (M7 Ho Hne) as (t & Hpc & Hr). exists t. split; [done|]. simpl.
      assert (pc_of t m ≠ Out ∧ pc_of t m ≠ Holding) as [Ho1 Ho2]
        by (destruct Hpc as [->|[->|[->| ->]]]; done).
      apply alive_ready; [by apply Ha|]. intros Hbt. apply Hb in Hbt; [|done..]. destruct Hr; congruence.
Qed.

Lemma mutex_new_inv (s : sys Sch Tim) : sched_inv s → wq_get wq s = [] → mutex_inv wq (mutex_new s).
Proof.
  intros Hs Hq. assert (Hpc : ∀ t, pc_of t (mutex_new s) = Out) by (intros t; unfold pc_of; simpl; by rewrite lookup_empty).
  split; simpl; rewrite ?Hq; try done; try (intros t; rewrite Hpc; done).
  - intros t Hin. by apply not_elem_of_nil in Hin.
  - constructor.
Qed.

Lemma mutex_reachable_inv (s : sys Sch Tim) m :
  sched_inv s → wq_get wq s = [] → rtc (mutex_step wq) (mutex_new s) m → mutex_inv wq m.
Proof.
  intros Hs Hq Hr. assert (Hm := mutex_new_inv s Hs Hq). revert Hm.
  induction Hr as [|m1 m2 m3 Hst _ IH]; [done|]. intros Hm. apply IH. by eapply mutex_step_inv.
Qed.

End mutex_proofs.

(** ** Properties *)

Section mutex_properties.
Context {Sch Tim : Type} `{BaseSchedulerLaws Sch, TimerListLaws Tim}.
Context (wq : WaitQueueId).


(** C29: No wakeup is lost: a task blocked in [lock] is in the wait queue of the
    mutex, and whenever the mutex is free with tasks in the queue, some task inside
    [lock] or [force_unlock] is running or ready, so it takes the mutex or
    notifies the next one. *)
Theorem mutex_no_lost_wakeup (s : sys Sch Tim) m :
  rtc sched_step init s → wq_get wq s = [] → rtc (mutex_step wq) (mutex_new s) m →
  (∀ t, pc_of t m = Waiting → status t (kernel m) = Some Blocked → t ∈ wq_get wq (kernel m)) ∧
  (is_locked m = false → wq_get wq (kernel m) ≠ [] → ∃ t, active t m).
Proof.
  intros Hs%reachable_inv Hq Hr. pose proof (mutex_reachable_inv wq s m Hs Hq Hr) as Hm. split.
  - intros t Hpc. apply (mi_busy _ _ Hm); congruence.
  - unfold is_locked. intros Ho%negb_false_iff%Z.eqb_eq. by apply (mi_wakeup _ _ Hm).
Qed.

End mutex_properties.

(** ** Witness: the main task holds the mutex and is preempted, the worker blocks
    on it, the main task unlocks *)

Definition demo_wq : WaitQueueId := other_queue 5.
Abbreviation fmutex := (MutexSys (list Z) (list (Z * Z))).
Definition demo_held : fmutex :=
  ret_or (mutex_new init) (lock_cas false (goto 2 Locking (mutex_new run_spawned))).
Definition demo_gc : fmutex := set_kernel (ret_or init (yield_now (kernel demo_held))) demo_held.
Definition demo_worker : fmutex := set_kernel (ret_or init (yield_now (kernel demo_gc))) demo_gc.
Definition demo_waiting : fmutex := ret_or (mutex_new init) (lock_cas false (goto 4 Locking demo_worker)).
Definition demo_blocked : fmutex := ret_or (mutex_new init) (lock_wait demo_wq demo_waiting).
Definition demo_unlocked : fmutex := ret_or (mutex_new init) (unlock_swap demo_blocked).

Lemma env_ok_held (m : fmutex) s' :
  pcs m = {[ 2 := Holding ]} → wq_get demo_wq s' = [] → wq_get demo_wq (kernel m) = [] →
  status 2 s' = Some Ready ∨ status 2 s' = Some Running → env_ok demo_wq m s'.
Proof.
  intros Hp Hq Hq' H2.
  assert (Hpc : ∀ t, pc_of t m ≠ Out → t = 2 ∧ pc_of t m = Holding).
  { intros t. unfold pc_of. rewrite Hp. destruct (decide (t = 2)) as [->|]; [|by rewrite lookup_singleton_ne].
    by rewrite lookup_singleton_eq. }
  split_and!; [congruence|..].
  - intros t. rewrite Hq. intros Hin. by apply not_elem_of_nil in Hin.
  - intros t [_ Hh]%Hpc. done.
  - intros t [-> _]%Hpc. destruct H2 as [->| ->]; (split; [by eexists|done]).
Qed.

Lemma demo_unlocked_reachable : rtc (mutex_step demo_wq) (mutex_new run_spawned) demo_unlocked.
Proof.
  apply (rtc_l _ _ (goto 2 Locking (mutex_new run_spawned))).
  { apply (step_lock demo_wq (mutex_new run_spawned)). by vm_compute. }
  apply (rtc_l _ _ demo_held). { apply (step_cas _ false); by vm_compute. }
  apply (rtc_l _ _ demo_gc).
  { apply step_env; [apply step_yield; by vm_compute|]. apply env_ok_held; [by vm_compute..|]. left. by vm_compute. }
  apply (rtc_l _ _ demo_worker).
  { apply step_env; [apply step_yield; by vm_compute|]. apply env_ok_held; [by vm_compute..|]. left. by vm_compute. }
  apply (rtc_l _ _ (goto 4 Locking demo_worker)).
  { apply (step_lock demo_wq demo_worker). by vm_compute. }
  apply (rtc_l _ _ demo_waiting). { apply (step_cas _ false); by vm_compute. }
  apply (rtc_l _ _ demo_blocked). { apply step_wait; by vm_compute. }
  apply rtc_once. apply step_swap; by vm_compute.
Qed.


Lemma mutex_no_lost_wakeup_witness :
  wq_get demo_wq (kernel demo_unlocked) = [4] ∧ ∃ t, active t demo_unlocked.
Proof.
  split; [by vm_compute|].
  destruct (mutex_no_lost_wakeup demo_wq run_spawned demo_unlocked run_spawned_reachable) as [_ Hw];
    [by vm_compute|apply demo_unlocked_reachable|]. apply Hw; by vm_compute.
Defined.
