(* ===== verification/Axalloc.v ===== *)
(** The two-level global allocator of [modules/axalloc]: a byte allocator that asks
    a page allocator for more memory.

    The two allocators are those of the [allocator] crate, which is not part of the
    repository: they are the classes [ByteAllocator] and [PageAllocator].  Their
    laws are the contract of the traits, stated over a view: the regions of memory
    the byte allocator was given, and the live blocks of each. *)

From S2P Require Import Prelude Bump.
From stdpp Require Import prelude gmap list sorting.
From Stdlib Require Import ZArith Lia.
Local Open Scope Z_scope.

(** A range of addresses: its first address and its length. *)
Abbreviation range := (Z * Z)%type.
Definition covers (r : range) (x : Z) : Prop := r.1 ≤ x < r.1 + r.2.
Definition ranges_disjoint (r1 r2 : range) : Prop := ∀ x, covers r1 x → covers r2 x → False.
Definition range_within (r1 r2 : range) : Prop := ∀ x, covers r1 x → covers r2 x.

Definition PAGE_SIZE : Z := 0x1000.
Definition MIN_HEAP_SIZE : Z := 0x8000.
Definition page_range (b : Z * Z) : range := (b.1, b.2 * PAGE_SIZE).

(** ** Interfaces of the [allocator] crate *)

Class ByteAllocator (B : Type) : Type := {
  balloc_new : B;
  balloc_init : Z → Z → B → B;
  balloc_add_memory : Z → Z → B → result unit AllocError * B;
  balloc_alloc : Layout → B → result Z AllocError * B;
  balloc_dealloc : Z → Layout → B → B;
  balloc_total_bytes : B → Z;
  balloc_used_bytes : B → Z;
  balloc_available_bytes : B → Z;
  balloc_ok : B → Prop;
  balloc_regions : B → list range;
  balloc_blocks : B → list range;
}.

Class ByteAllocatorLaws (B : Type) `{ByteAllocator B} : Prop := {
  balloc_init_law start size b :
    0 ≤ start → 0 < size → start + size ≤ usize_mod →
    let b' := balloc_init start size b in
    balloc_ok b' ∧ balloc_regions b' = [(start, size)] ∧ balloc_blocks b' = [];
  balloc_add_law start size b r b' :
    balloc_ok b → (∀ rg, rg ∈ balloc_regions b → ranges_disjoint rg (start, size)) →
    balloc_add_memory start size b = (r, b') →
    balloc_ok b' ∧ balloc_blocks b' = balloc_blocks b ∧
    balloc_regions b' = (if is_ok r then [(start, size)] else []) ++ balloc_regions b;
  balloc_alloc_law layout b r b' :
    balloc_ok b → balloc_alloc layout b = (r, b') →
    balloc_ok b' ∧ balloc_regions b' = balloc_regions b ∧
    match r with
    | Ok p =>
        balloc_blocks b' = (p, layout_size layout) :: balloc_blocks b ∧ p mod layout_align layout = 0 ∧
        (∃ rg, rg ∈ balloc_regions b ∧ range_within (p, layout_size layout) rg) ∧
        ∀ bl, bl ∈ balloc_blocks b → ranges_disjoint bl (p, layout_size layout)
    | Err _ => balloc_blocks b' = balloc_blocks b
    end;
  balloc_dealloc_law p layout b :
    balloc_ok b → (p, layout_size layout) ∈ balloc_blocks b →
    let b' := balloc_dealloc p layout b in
    balloc_ok b' ∧ balloc_regions b' = balloc_regions b ∧
    balloc_blocks b ≡ₚ (p, layout_size layout) :: balloc_blocks b';
  balloc_total_law b : in_usize (balloc_total_bytes b);
}.

Class PageAllocator (P : Type) : Type := {
  palloc_new : P;
  palloc_init : Z → Z → P → P;
  palloc_alloc_pages : Z → Z → P → result Z AllocError * P;
  palloc_dealloc_pages : Z → Z → P → P;
  palloc_used_pages : P → Z;
  palloc_available_pages : P → Z;
  palloc_ok : P → Prop;
  palloc_arena : P → range;
  palloc_blocks : P → list (Z * Z);
}.

Class PageAllocatorLaws (P : Type) `{PageAllocator P} : Prop := {
  palloc_init_law start size p :
    0 < start → 0 < size → start + size < usize_mod → start mod PAGE_SIZE = 0 → size mod PAGE_SIZE = 0 →
    let p' := palloc_init start size p in
    palloc_ok p' ∧ palloc_arena p' = (start, size) ∧ palloc_blocks p' = [];
  palloc_arena_law p : palloc_ok p → 0 ≤ (palloc_arena p).1 ∧ (palloc_arena p).1 + (palloc_arena p).2 < usize_mod;
  palloc_alloc_law n al p r p' :
    palloc_ok p → 0 < n → palloc_alloc_pages n al p = (r, p') →
    palloc_ok p' ∧ palloc_arena p' = palloc_arena p ∧
    match r with
    | Ok a =>
        palloc_blocks p' = (a, n) :: palloc_blocks p ∧ a mod al = 0 ∧
        0 ≤ palloc_available_pages p' ≤ palloc_available_pages p - n ∧
        range_within (page_range (a, n)) (palloc_arena p) ∧
        ∀ bl, bl ∈ palloc_blocks p → ranges_disjoint (page_range bl) (page_range (a, n))
    | Err _ => palloc_blocks p' = palloc_blocks p
    end;
  palloc_dealloc_law a n p :
    palloc_ok p → (a, n) ∈ palloc_blocks p →
    let p' := palloc_dealloc_pages a n p in
    palloc_ok p' ∧ palloc_arena p' = palloc_arena p ∧
    palloc_blocks p ≡ₚ (a, n) :: palloc_blocks p';
}.

(** [usize::next_power_of_two]; in a release build it wraps to 0. *)
Definition next_power_of_two (x : Z) : Z := wrap (2 ^ Z.log2_up x).

(** ** [GlobalAllocator] *)

Section axalloc.
Context {B P : Type} `{ByteAllocator B, PageAllocator P}.

Record GlobalAllocator : Type := { balloc : B; palloc : P }.
Definition set_balloc (b : B) (g : GlobalAllocator) : GlobalAllocator :=
  {| balloc := b; palloc := palloc g |}.
Definition set_palloc (p : P) (g : GlobalAllocator) : GlobalAllocator :=
  {| balloc := balloc g; palloc := p |}.

Definition new : GlobalAllocator := {| balloc := balloc_new; palloc := palloc_new |}.

Definition alloc_pages (num_pages align_pow2 : Z) (g : GlobalAllocator) :
    result Z AllocError * GlobalAllocator :=
  let (r, p) := palloc_alloc_pages num_pages align_pow2 (palloc g) in (r, set_palloc p g).

Definition dealloc_pages (pos num_pages : Z) (g : GlobalAllocator) : GlobalAllocator :=
  set_palloc (palloc_dealloc_pages pos num_pages (palloc g)) g.

Definition init (start_vaddr size : Z) (g : GlobalAllocator) : outcome GlobalAllocator :=
  if MIN_HEAP_SIZE <? size then
    let init_heap_size := MIN_HEAP_SIZE in
    let g := set_palloc (palloc_init start_vaddr size (palloc g)) g in
    let (r, g) := alloc_pages (init_heap_size / PAGE_SIZE) PAGE_SIZE g in
    heap_ptr ← unwrap r;
    Ret (set_balloc (balloc_init heap_ptr init_heap_size (balloc g)) g)
  else Panic.

Definition add_memory (start_vaddr size : Z) (g : GlobalAllocator) : result unit AllocError * GlobalAllocator :=
  let (r, b) := balloc_add_memory start_vaddr size (balloc g) in (r, set_balloc b g).

Definition expand_size (layout : Layout) (g : GlobalAllocator) : Z :=
  Z.max (next_power_of_two (Z.max (balloc_total_bytes (balloc g)) (layout_size layout))) PAGE_SIZE.

(** The body of the loop of [alloc]: [Some] when it returns. *)
Definition alloc_iter (layout : Layout) (g : GlobalAllocator) :
    option (result Z AllocError) * GlobalAllocator :=
  let (r, b) := balloc_alloc layout (balloc g) in
  let g := set_balloc b g in
  match r with
  | Ok ptr => (Some (Ok ptr), g)
  | Err _ =>
      let size := expand_size layout g in
      let (rp, g) := alloc_pages (size / PAGE_SIZE) PAGE_SIZE g in
      match rp with
      | Err e => (Some (Err e), g)
      | Ok heap_ptr =>
          let (ra, g) := add_memory heap_ptr size g in
          match ra with
          | Err e => (Some (Err e), g)
          | Ok _ => (None, g)
          end
      end
  end.

(** The loop, with at most [fuel] rounds; [None] when it is still looping. *)
Fixpoint alloc_loop (fuel : nat) (layout : Layout) (g : GlobalAllocator) :
    option (result Z AllocError * GlobalAllocator) :=
  match fuel with
  | O => None
  | S n =>
      let (o, g) := alloc_iter layout g in
      match o with
      | Some r => Some (r, g)
      | None => alloc_loop n layout g
      end
  end.

Definition dealloc (pos : Z) (layout : Layout) (g : GlobalAllocator) : GlobalAllocator :=
  set_balloc (balloc_dealloc pos layout (balloc g)) g.

Definition used_bytes (g : GlobalAllocator) : Z := balloc_used_bytes (balloc g).
Definition available_bytes (g : GlobalAllocator) : Z := balloc_available_bytes (balloc g).
Definition used_pages (g : GlobalAllocator) : Z := palloc_used_pages (palloc g).
Definition available_pages (g : GlobalAllocator) : Z := palloc_available_pages (palloc g).

(** Every round but the last takes at least one page, so this much fuel is
    enough. *)
Definition alloc (layout : Layout) (g : GlobalAllocator) : option (result Z AllocError * GlobalAllocator) :=
  alloc_loop (S (Z.to_nat (available_pages g))) layout g.

(** [GlobalAlloc] for [GlobalAllocator]: [handle_alloc_error] and [expect] panic. *)
Definition GlobalAlloc_alloc (layout : Layout) (g : GlobalAllocator) : option (outcome Z * GlobalAllocator) :=
  r ← alloc layout g; Some (unwrap r.1, r.2).
Definition GlobalAlloc_dealloc (ptr : Z) (layout : Layout) (g : GlobalAllocator) : outcome GlobalAllocator :=
  if ptr =? 0 then Panic else Ret (dealloc ptr layout g).

(** ** [GlobalPage] *)

Record GlobalPage : Type := { start_vaddr : Z; num_pages : Z }.

Definition alloc_err_to_ax_err (e : AllocError) : AxError.t :=
  match e with
  | InvalidParam | MemoryOverlap | NotAllocated => AxError.InvalidInput
  | NoMemory => AxError.NoMemory
  end.

Definition page_alloc_contiguous (n align_pow2 : Z) (g : GlobalAllocator) :
    result GlobalPage AxError.t * GlobalAllocator :=
  let (r, g) := alloc_pages n align_pow2 g in
  (map_err alloc_err_to_ax_err (map_ok (λ vaddr, {| start_vaddr := vaddr; num_pages := n |}) r), g).
Definition page_alloc (g : GlobalAllocator) : result GlobalPage AxError.t * GlobalAllocator :=
  let (r, g) := alloc_pages 1 PAGE_SIZE g in
  (map_err alloc_err_to_ax_err (map_ok (λ vaddr, {| start_vaddr := vaddr; num_pages := 1 |}) r), g).
Definition page_size (p : GlobalPage) : Z := umul (num_pages p) PAGE_SIZE.
Definition page_drop (p : GlobalPage) (g : GlobalAllocator) : GlobalAllocator :=
  dealloc_pages (start_vaddr p) (num_pages p) g.

(** [fill] and [alloc_zero], on a memory of bytes. *)
Definition page_fill (byte : Z) (p : GlobalPage) (mem : gmap Z Z) : gmap Z Z :=
  list_to_map ((λ x, (x, byte)) <$> seqZ (start_vaddr p) (page_size p)) ∪ mem.
Definition page_alloc_zero (g : GlobalAllocator) (mem : gmap Z Z) :
    result GlobalPage AxError.t * GlobalAllocator * gmap Z Z :=
  match page_alloc g with
  | (Ok p, g) => (Ok p, g, page_fill 0 p mem)
  | (Err e, g) => (Err e, g, mem)
  end.

(** ** Clients *)

(** What the rest of the kernel does with the allocator; [client_pages] are the
    page blocks it got and has not given back. *)
Record ga_state : Type := { galloc : GlobalAllocator; client_pages : list (Z * Z) }.

Inductive ga_step : ga_state → ga_state → Prop :=
| ga_alloc layout r g g' cp :
    layout_valid layout → alloc layout g = Some (r, g') →
    ga_step {| galloc := g; client_pages := cp |} {| galloc := g'; client_pages := cp |}
| ga_dealloc p layout g cp :
    (p, layout_size layout) ∈ balloc_blocks (balloc g) →
    ga_step {| galloc := g; client_pages := cp |} {| galloc := dealloc p layout g; client_pages := cp |}
| ga_alloc_pages n al a g g' cp :
    0 < n → alloc_pages n al g = (Ok a, g') →
    ga_step {| galloc := g; client_pages := cp |} {| galloc := g'; client_pages := (a, n) :: cp |}
| ga_alloc_pages_err n al e g g' cp :
    0 < n → alloc_pages n al g = (Err e, g') →
    ga_step {| galloc := g; client_pages := cp |} {| galloc := g'; client_pages := cp |}
| ga_dealloc_pages a n g cp cp' :
    cp ≡ₚ (a, n) :: cp' →
    ga_step {| galloc := g; client_pages := cp |} {| galloc := dealloc_pages a n g; client_pages := cp' |}.

(** The byte allocator's regions are page blocks of the page allocator that no
    client has; [leaked] are blocks the byte allocator refused. *)
Record ga_inv (s : ga_state) : Prop := {
  ga_bok : balloc_ok (balloc (galloc s));
  ga_pok : palloc_ok (palloc (galloc s));
  ga_pages : ∃ heap leaked,
    palloc_blocks (palloc (galloc s)) ≡ₚ client_pages s ++ heap ++ leaked ∧
    balloc_regions (balloc (galloc s)) ≡ₚ page_range <$> heap;
  ga_disjoint : pairwise (λ b1 b2, ranges_disjoint (page_range b1) (page_range b2))
                  (palloc_blocks (palloc (galloc s)));
  ga_arena b : b ∈ palloc_blocks (palloc (galloc s)) →
    range_within (page_range b) (palloc_arena (palloc (galloc s)));
  ga_blocks_disjoint : pairwise ranges_disjoint (balloc_blocks (balloc (galloc s)));
  ga_blocks bl : bl ∈ balloc_blocks (balloc (galloc s)) →
    ∃ rg, rg ∈ balloc_regions (balloc (galloc s)) ∧ range_within bl rg;
}.

End axalloc.
Arguments GlobalAllocator : clear implicits.
Arguments ga_state : clear implicits.

(** ** Lemmas *)

#[export] Instance ranges_disjoint_sym : Symmetric ranges_disjoint.
Proof. intros r1 r2 Hd x H1 H2. by apply (Hd x). Qed.

#[export] Instance page_disjoint_sym : Symmetric (λ b1 b2, ranges_disjoint (page_range b1) (page_range b2)).
Proof. intros b1 b2 Hd. by symmetry. Qed.

Section axalloc_proofs.
Context {B P : Type} `{ByteAllocatorLaws B, PageAllocatorLaws P}.
Abbreviation GA := (GlobalAllocator B P).
Implicit Types g : GA.

Lemma page_pow2 : PAGE_SIZE = 2 ^ 12.
Proof. done. Qed.

(** The heap grows by whole pages, at least one, and by a power of two. *)
Lemma expand_size_pow2 layout g :
  in_usize (layout_size layout) →
  ∃ k, 12 ≤ k ∧ expand_size layout g = 2 ^ k ∧ expand_size layout g / PAGE_SIZE * PAGE_SIZE = expand_size layout g.
Proof.
  intros Hl. pose proof (balloc_total_law (balloc g)) as Ht. unfold expand_size, next_power_of_two.
  set (m := Z.max (balloc_total_bytes (balloc g)) (layout_size layout)).
  assert (Hm : in_usize m) by (unfold m, in_usize in *; lia).
  assert (Hk : ∃ k, 12 ≤ k ∧ Z.max (wrap (2 ^ Z.log2_up m)) PAGE_SIZE = 2 ^ k).
  { rewrite page_pow2. pose proof (Z.log2_up_nonneg m).
    destruct (decide (Z.log2_up m < 64)) as [Hlt|Hge].
    - rewrite wrap_small by (split; [apply Z.pow_nonneg; lia|apply Z.pow_lt_mono_r; lia]).
      destruct (decide (Z.log2_up m ≤ 12)).
      + exists 12. split; [done|]. apply Z.max_r. by apply Z.pow_le_mono_r.
      + exists (Z.log2_up m). split; [lia|]. apply Z.max_l. apply Z.pow_le_mono_r; lia.
    - exists 12. split; [done|]. assert (wrap (2 ^ Z.log2_up m) = 0) as ->; [|done].
      unfold wrap. replace (Z.log2_up m) with (Z.log2_up m - 64 + 64) by lia. rewrite Z.pow_add_r by lia.
      by apply Z.mod_mul. }
  destruct Hk as (k & Hk & ->). exists k. split_and!; [done..|].
  rewrite page_pow2, <- (Z.sub_add 12 k) at 1 2. rewrite Z.pow_add_r by lia.
  rewrite Z.div_mul by done. done.
Qed.


Abbreviation inv g cp := (ga_inv {| galloc := g; client_pages := cp |}).

(** A page block handed to a client or to the byte allocator. *)
Lemma inv_pages n al g r p' cp :
  inv g cp → 0 < n → palloc_alloc_pages n al (palloc g) = (r, p') →
  match r with
  | Ok a => inv (set_palloc p' g) ((a, n) :: cp) ∧ 0 ≤ palloc_available_pages p' ≤ available_pages g - n ∧
            a mod al = 0
  | Err _ => inv (set_palloc p' g) cp
  end.
Proof.
  intros [I1 I2 (heap & leaked & Hp & Hr) I4 I5 I6 I7] Hn Ha. simpl in *.
  destruct (palloc_alloc_law _ _ _ _ _ I2 Hn Ha) as (Hok & Har & Hres). destruct r as [a|e].
  - destruct Hres as (Hb & Hal & Hav & Hw & Hd). split; [|done]. split; simpl; try done.
    + exists heap, leaked. split; [|done]. rewrite Hb, Hp. done.
    + rewrite Hb. apply pairwise_cons. split; [|done]. intros b Hin. symmetry. by apply Hd.
    + intros b. rewrite Hb, Har. intros [->|Hin]%elem_of_cons; [done|by apply I5].
  - split; simpl; rewrite ?Hres, ?Har; try done. by exists heap, leaked.
Qed.

Lemma region_fresh a n g cp :
  inv g ((a, n) :: cp) →
  ∀ rg, rg ∈ balloc_regions (balloc g) → ranges_disjoint rg (a, n * PAGE_SIZE).
Proof.
  intros [_ _ (heap & leaked & Hp & Hr) I4 _ _ _] rg Hin. simpl in *. rewrite Hr in Hin.
  apply list_elem_of_fmap in Hin as (b & -> & Hin). apply (pairwise_perm _ _ _ Hp) in I4. symmetry.
  apply (pairwise_cons _ (a, n)) in I4 as [I4 _]. apply (I4 b). set_solver.
Qed.

(** A client's block becomes a region of the byte allocator, or is leaked. *)
Lemma inv_add_memory a n g r b' cp :
  inv g ((a, n) :: cp) → balloc_add_memory a (n * PAGE_SIZE) (balloc g) = (r, b') → inv (set_balloc b' g) cp.
Proof.
  intros Hi Ha. assert (Hfresh := region_fresh _ _ _ _ Hi).
  destruct Hi as [I1 I2 (heap & leaked & Hp & Hr) I4 I5 I6 I7]. simpl in *.
  destruct (balloc_add_law _ _ _ _ _ I1 Hfresh Ha) as (Hok & Hb & Hrg).
  split; simpl; rewrite ?Hb; try done.
  - destruct (is_ok r); simpl in Hrg.
    + exists ((a, n) :: heap), leaked. rewrite Hp, Hrg. simpl. rewrite Hr. split; [|done].
      by rewrite Permutation_middle.
    + exists heap, ((a, n) :: leaked). rewrite Hp, Hrg. split; [|done].
      simpl. rewrite <- !Permutation_middle. done.
  - intros bl (rg & Hin & Hw)%I7. exists rg. split; [|done]. rewrite Hrg. apply elem_of_app. by right.
Qed.

Lemma add_memory_blocks a n g r b' cp :
  inv g ((a, n) :: cp) → balloc_add_memory a (n * PAGE_SIZE) (balloc g) = (r, b') →
  balloc_blocks b' = balloc_blocks (balloc g).
Proof.
  intros Hi Ha. destruct (balloc_add_law _ _ _ _ _ (ga_bok _ Hi) (region_fresh _ _ _ _ Hi) Ha) as (_ & Hb & _).
  done.
Qed.

Lemma inv_balloc layout g r b' cp :
  inv g cp → balloc_alloc layout (balloc g) = (r, b') →
  inv (set_balloc b' g) cp ∧
  match r with
  | Ok p => p mod layout_align layout = 0 ∧ balloc_blocks b' = (p, layout_size layout) :: balloc_blocks (balloc g)
  | Err _ => balloc_blocks b' = balloc_blocks (balloc g)
  end.
Proof.
  intros [I1 I2 (heap & leaked & Hp & Hr) I4 I5 I6 I7] Ha. simpl in *.
  destruct (balloc_alloc_law _ _ _ _ I1 Ha) as (Hok & Hrg & Hres). destruct r as [p|e].
  - destruct Hres as (Hb & Hal & (rg & Hrin & Hrw) & Hd). split; [|done]. split; simpl; rewrite ?Hrg; try done.
    + by exists heap, leaked.
    + rewrite Hb. apply pairwise_cons. split; [|done]. intros b Hin. symmetry. by apply Hd.
    + intros bl. rewrite Hb. intros [->|Hin]%elem_of_cons; [by exists rg|by apply I7].
  - split; [|done]. split; simpl; rewrite ?Hrg, ?Hres; try done. by exists heap, leaked.
Qed.

Lemma alloc_iter_ok layout g o g' cp :
  inv g cp → layout_valid layout → alloc_iter layout g = (o, g') →
  inv g' cp ∧
  match o with
  | Some (Ok p) => p mod layout_align layout = 0 ∧
                   balloc_blocks (balloc g') = (p, layout_size layout) :: balloc_blocks (balloc g)
  | Some (Err _) => balloc_blocks (balloc g') = balloc_blocks (balloc g)
  | None => balloc_blocks (balloc g') = balloc_blocks (balloc g) ∧
            0 ≤ available_pages g' < available_pages g
  end.
Proof.
  intros Hi Hl. unfold alloc_iter. destruct (balloc_alloc layout (balloc g)) as [r b] eqn:Hb.
  destruct (inv_balloc _ _ _ _ _ Hi Hb) as [Hi1 Hr]. destruct r as [p|e]; [by intros [= <- <-]|].
  set (g1 := set_balloc b g) in *.
  destruct (expand_size_pow2 layout g1) as (k & Hk & Hks & Hdiv).
  { destruct Hl as (Hpw & ? & ?). pose proof (is_pow2_pos _ Hpw). unfold in_usize. lia. }
  set (sz := expand_size layout g1) in *. unfold alloc_pages. cbv zeta.
  destruct (palloc_alloc_pages (sz / PAGE_SIZE) PAGE_SIZE (palloc g1)) as [rp p'] eqn:Hp.
  assert (Hpos : 0 < sz / PAGE_SIZE).
  { apply Z.div_str_pos. rewrite page_pow2, Hks. split; [done|]. by apply Z.pow_le_mono_r. }
  pose proof (inv_pages _ _ _ _ _ _ Hi1 Hpos Hp) as Hi2. destruct rp as [a|e']; [|by intros [= <- <-]].
  destruct Hi2 as (Hi2 & Hav & _). unfold add_memory. simpl.
  destruct (balloc_add_memory a sz b) as [ra b2] eqn:Hm. rewrite <- Hdiv in Hm.
  pose proof (inv_add_memory _ _ _ _ _ _ Hi2 Hm) as Hi3. simpl in Hi3.
  assert (Hb2 : balloc_blocks b2 = balloc_blocks b).
  { exact (add_memory_blocks _ _ _ _ _ _ Hi2 Hm). }
  destruct ra; intros [= <- <-]; (split; [done|]); simpl in *.
  - split; [congruence|]. unfold available_pages in *. simpl in *. lia.
  - congruence.
Qed.


(** What [alloc] returned: an aligned block that is live from now on, or an error
    and no change of the live blocks. *)
Definition alloc_result (layout : Layout) (r : result Z AllocError) g g' : Prop :=
  match r with
  | Ok p => p mod layout_align layout = 0 ∧
            balloc_blocks (balloc g') = (p, layout_size layout) :: balloc_blocks (balloc g)
  | Err _ => balloc_blocks (balloc g') = balloc_blocks (balloc g)
  end.

Lemma alloc_loop_ok n layout g cp :
  inv g cp → layout_valid layout → available_pages g < Z.of_nat n →
  (0 < n)%nat →
  ∃ r g', alloc_loop n layout g = Some (r, g') ∧ inv g' cp ∧ alloc_result layout r g g'.
Proof.
  revert g. induction n as [|n IH]; intros g Hi Hl Hn H0n; [lia|]. simpl.
  destruct (alloc_iter layout g) as [o g1] eqn:Hit.
  destruct (alloc_iter_ok _ _ _ _ _ Hi Hl Hit) as [Hi1 Ho]. destruct o as [r|].
  - exists r, g1. split_and!; [done..|]. by destruct r.
  - destruct Ho as [Hb Hav]. destruct (IH g1) as (r & g' & Hr & Hi' & Hres); [done|done|lia|lia|].
    exists r, g'. split_and!; [done..|]. unfold alloc_result in *. by rewrite <- Hb.
Qed.

Lemma alloc_ok layout g cp :
  inv g cp → layout_valid layout →
  ∃ r g', alloc layout g = Some (r, g') ∧ inv g' cp ∧ alloc_result layout r g g'.
Proof. intros Hi Hl. unfold alloc. apply alloc_loop_ok; [done|done|lia|lia]. Qed.

Lemma inv_dealloc p layout g cp :
  inv g cp → (p, layout_size layout) ∈ balloc_blocks (balloc g) → inv (dealloc p layout g) cp.
Proof.
  intros [I1 I2 (heap & leaked & Hp & Hr) I4 I5 I6 I7] Hin. simpl in *.
  destruct (balloc_dealloc_law _ _ _ I1 Hin) as (Hok & Hrg & Hb).
  split; simpl; rewrite ?Hrg; try done.
  - by exists heap, leaked.
  - apply (pairwise_perm _ _ _ Hb), pairwise_cons in I6. apply I6.
  - intros bl Hbl. apply I7. rewrite Hb. by right.
Qed.

Lemma inv_dealloc_pages a n g cp cp' :
  inv g cp → cp ≡ₚ (a, n) :: cp' → inv (dealloc_pages a n g) cp'.
Proof.
  intros [I1 I2 (heap & leaked & Hp & Hr) I4 I5 I6 I7] Hcp. simpl in *.
  assert (Hin : (a, n) ∈ palloc_blocks (palloc g)) by (rewrite Hp, Hcp; set_solver).
  destruct (palloc_dealloc_law _ _ _ I2 Hin) as (Hok & Har & Hb).
  split; simpl; rewrite ?Har; try done.
  - exists heap, leaked. split; [|done]. apply (Permutation_cons_inv (a := (a, n))).
    rewrite <- Hb, Hp, Hcp. done.
  - apply (pairwise_perm _ _ _ Hb), pairwise_cons in I4. apply I4.
  - intros b Hbin. apply I5. rewrite Hb. by right.
Qed.

Lemma ga_step_inv s s' : ga_step s s' → ga_inv s → ga_inv s'.
Proof.
  intros Hst Hi. destruct Hst as [layout r g g' cp Hl Ha|p layout g cp Hin|n al a g g' cp Hn Ha
    |n al e g g' cp Hn Ha|a n g cp cp' Hcp].
  - destruct (alloc_ok layout g cp) as (?&?&?&?&_); [done..|]. congruence.
  - by apply inv_dealloc.
  - unfold alloc_pages in Ha. destruct (palloc_alloc_pages _ _ _) as [r p'] eqn:Hp. simplify_eq.
    by apply (inv_pages _ _ _ _ _ _ Hi Hn Hp).
  - unfold alloc_pages in Ha. destruct (palloc_alloc_pages _ _ _) as [r p'] eqn:Hp. simplify_eq.
    apply (inv_pages _ _ _ _ _ _ Hi Hn Hp).
  - by eapply inv_dealloc_pages.
Qed.

(** A region [init] accepts: page aligned, and inside the address space. *)
Definition init_region (start size : Z) : Prop :=
  0 < start ∧ 0 < size ∧ start + size < usize_mod ∧ start mod PAGE_SIZE = 0 ∧ size mod PAGE_SIZE = 0.

Lemma ga_init_inv start size g0 g :
  init_region start size → init start size g0 = Ret g → inv g [].
Proof.
  intros (Hs & Hz & Hse & Hsa & Hza). unfold init.
  case_match; [|done]. unfold alloc_pages. cbv zeta. simpl.
  destruct (palloc_init_law start size (palloc g0)) as (Hok & Har & Hbl); [done..|].
  destruct (palloc_alloc_pages _ _ _) as [r p'] eqn:Hp. apply palloc_alloc_law in Hp as (Hok' & Har' & Hres);
    [|done|done]. destruct r as [a|]; [|done]. simpl. intros [= <-].
  destruct Hres as (Hb & Ha & _ & Hw & _). rewrite Hbl in Hb. rewrite Har in Har'.
  assert (Haw : 0 ≤ a ∧ a + MIN_HEAP_SIZE ≤ usize_mod).
  { pose proof (Hw a) as Hw1. pose proof (Hw (a + MIN_HEAP_SIZE - 1)) as Hw2.
    unfold covers, page_range in Hw1, Hw2. rewrite Har in Hw1, Hw2. simpl in Hw1, Hw2.
    change (MIN_HEAP_SIZE / PAGE_SIZE * PAGE_SIZE) with MIN_HEAP_SIZE in *. unfold MIN_HEAP_SIZE in *. lia. }
  destruct (balloc_init_law a MIN_HEAP_SIZE (balloc g0)) as (Hbok & Hrg & Hbb); [lia|done|lia|].
  split; simpl; rewrite ?Hb, ?Hrg, ?Hbb; try done.
  - exists [(a, MIN_HEAP_SIZE / PAGE_SIZE)], []. done.
  - apply pairwise_cons. split; [|constructor]. intros y Hy. by apply not_elem_of_nil in Hy.
  - intros b ->%list_elem_of_singleton. by rewrite Har', <- Har.
  - constructor.
  - intros bl Hin. by apply not_elem_of_nil in Hin.
Qed.

Lemma ga_reachable_inv start size g s :
  init_region start size → init start size new = Ret g →
  rtc ga_step {| galloc := g; client_pages := [] |} s → ga_inv s.
Proof.
  intros Hr Hg%ga_init_inv Hst; [|done]. induction Hst as [|s1 s2 s3 Hs _ IH]; [done|].
  apply IH. by eapply ga_step_inv.
Qed.

End axalloc_proofs.

(** ** Properties *)

Section axalloc_properties.
Context {B P : Type} `{ByteAllocatorLaws B, PageAllocatorLaws P}.

(** C6: The two levels never overlap: after any sequence of allocations and
    deallocations from an initialised allocator, live byte blocks are pairwise
    disjoint and inside the arena, page blocks of clients are pairwise disjoint and
    inside the arena, and no byte block overlaps a client's pages. *)
Theorem global_heap_safe start size (g : GlobalAllocator B P) s :
  init_region start size → init start size new = Ret g →
  rtc ga_step {| galloc := g; client_pages := [] |} s →
  pairwise ranges_disjoint (balloc_blocks (balloc (galloc s))) ∧
  pairwise (λ b1 b2, ranges_disjoint (page_range b1) (page_range b2)) (client_pages s) ∧
  (∀ bl b, bl ∈ balloc_blocks (balloc (galloc s)) → b ∈ client_pages s → ranges_disjoint bl (page_range b)) ∧
  (∀ b, b ∈ client_pages s → range_within (page_range b) (palloc_arena (palloc (galloc s)))) ∧
  (∀ bl, bl ∈ balloc_blocks (balloc (galloc s)) → range_within bl (palloc_arena (palloc (galloc s)))).
Proof.
  intros Hr Hg Hst. pose proof (ga_reachable_inv _ _ _ _ Hr Hg Hst) as [I1 I2 (heap & leaked & Hp & Hrg) I4 I5 I6 I7].
  assert (Hpw := pairwise_perm _ _ _ Hp I4). split_and!; [done|by eapply pairwise_app_l|..].
  - intros bl b (rg & Hin & Hw)%I7 Hb. rewrite Hrg in Hin. apply list_elem_of_fmap in Hin as (hb & -> & Hin).
    intros x Hx1%Hw Hx2. apply (pairwise_app_cross _ _ _ b hb Hpw Hb) with x; [set_solver|done..].
  - intros b Hb. apply I5. rewrite Hp. set_solver.
  - intros bl (rg & Hin & Hw)%I7. rewrite Hrg in Hin. apply list_elem_of_fmap in Hin as (hb & -> & Hin).
    intros x Hx%Hw. apply (I5 hb); [|done]. rewrite Hp. set_solver.
Qed.

(** [alloc] terminates: each round of its loop that does not return takes at
    least one page from the page allocator.  It returns an aligned block that is
    added to the live blocks, or an error that leaves them unchanged. *)
Theorem global_alloc_returns start size (g : GlobalAllocator B P) s layout :
  init_region start size → init start size new = Ret g →
  rtc ga_step {| galloc := g; client_pages := [] |} s → layout_valid layout →
  ∃ r g', alloc layout (galloc s) = Some (r, g') ∧ alloc_result layout r (galloc s) g'.
Proof.
  intros Hr Hg Hst Hl. pose proof (ga_reachable_inv _ _ _ _ Hr Hg Hst) as Hi. destruct s as [gs cp].
  destruct (alloc_ok layout gs cp Hi Hl) as (r & g' & ? & _ & ?). by exists r, g'.
Qed.

End axalloc_properties.

(** ** Concrete allocators *)

(** A byte allocator that hands out the newest region from its start, and a page
    allocator that hands out its arena from its start; freed blocks are not
    reused. *)
Record region_alloc : Type := {
  ra_regions : list range; ra_next : Z; ra_end : Z; ra_blocks : list range }.
Definition ra_ok (b : region_alloc) : Prop :=
  ∃ start size rest, ra_regions b = (start, size) :: rest ∧ start ≤ ra_next b ∧ ra_end b = start + size ∧
    (∀ bl, bl ∈ ra_blocks b → (bl.1 + bl.2 ≤ Z.min (ra_next b) (ra_end b) ∧ start ≤ bl.1) ∨
       ∃ rg, rg ∈ rest ∧ range_within bl rg) ∧
    (∀ rg, rg ∈ rest → ranges_disjoint rg (start, size)).
Definition ra_alloc (layout : Layout) (b : region_alloc) : result Z AllocError * region_alloc :=
  let p := ra_next b + (- ra_next b) mod layout_align layout in
  if (0 <? layout_align layout) && (0 <=? layout_size layout) && (p + layout_size layout <=? ra_end b) then
    (Ok p, {| ra_regions := ra_regions b; ra_next := p + layout_size layout; ra_end := ra_end b;
              ra_blocks := (p, layout_size layout) :: ra_blocks b |})
  else (Err NoMemory, b).
Definition ra_dealloc (p : Z) (layout : Layout) (b : region_alloc) : region_alloc :=
  {| ra_regions := ra_regions b; ra_next := ra_next b; ra_end := ra_end b;
     ra_blocks := match list_find (λ bl, bl = (p, layout_size layout)) (ra_blocks b) with
                  | Some (i, _) => delete i (ra_blocks b) | None => ra_blocks b end |}.
#[export] Instance region_byte_allocator : ByteAllocator region_alloc := {|
  balloc_new := {| ra_regions := []; ra_next := 0; ra_end := 0; ra_blocks := [] |};
  balloc_init start size _ :=
    {| ra_regions := [(start, size)]; ra_next := start; ra_end := start + size; ra_blocks := [] |};
  balloc_add_memory start size b :=
    (Ok tt, {| ra_regions := (start, size) :: ra_regions b; ra_next := start; ra_end := start + size;
               ra_blocks := ra_blocks b |});
  balloc_alloc := ra_alloc;
  balloc_dealloc := ra_dealloc;
  balloc_total_bytes b := wrap (ra_end b);
  balloc_used_bytes b := wrap (ra_next b);
  balloc_available_bytes b := wrap (ra_end b - ra_next b);
  balloc_ok := ra_ok;
  balloc_regions := ra_regions;
  balloc_blocks := ra_blocks;
|}.

Lemma align_mod x a : 0 < a → (x + (- x) mod a) mod a = 0.
Proof.
  intros Ha. rewrite Z.add_mod_idemp_r by lia. rewrite Z.add_opp_diag_r. apply Z.mod_0_l. lia.
Qed.

Lemma list_remove_perm {A} `{EqDecision A} (x : A) l :
  x ∈ l → match list_find (λ y, y = x) l with Some (i, _) => l ≡ₚ x :: delete i l | None => False end.
Proof.
  intros Hx. destruct (list_find _ l) as [[i y]|] eqn:Hf.
  - apply list_find_Some in Hf as (Hi & -> & _). by apply delete_Permutation.
  - apply list_find_None in Hf. rewrite Forall_forall in Hf. by apply (Hf x).
Qed.

#[export] Instance region_byte_allocator_laws : ByteAllocatorLaws region_alloc.
Proof.
  split.
  - intros start size b ? ? ?. split_and!; [|done..]. exists start, size, []. split_and!; [done|simpl; lia|done|..].
    + intros bl Hin. by apply not_elem_of_nil in Hin.
    + intros rg Hin. by apply not_elem_of_nil in Hin.
  - intros start size b r b' (st & sz & rest & Hr & Hn & He & Hb & Hd) Hf [= <- <-]. split_and!; [|done..].
    exists start, size, (ra_regions b). split_and!; [done|simpl; lia|done| |done].
    intros bl Hin. right. simpl in Hin. destruct (Hb bl Hin) as [[? ?]|(rg & Hrg & Hw)].
    + exists (st, sz). rewrite Hr. split; [by left|]. intros x. unfold covers. simpl. lia.
    + exists rg. rewrite Hr. split; [by right|done].
  - intros layout b r b' (st & sz & rest & Hr & Hn & He & Hb & Hd). unfold balloc_alloc. simpl. unfold ra_alloc.
    cbv zeta. set (p := ra_next b + _).
    destruct (_ && _ && _) eqn:Hc; intros [= <- <-]; [|split_and!; [|done..]; by exists st, sz, rest].
    apply andb_true_iff in Hc as [[Ha%Z.ltb_lt Hs%Z.leb_le]%andb_true_iff Hfit%Z.leb_le].
    assert (Hp : ra_next b ≤ p) by (unfold p; pose proof (Z.mod_pos_bound (- ra_next b) _ Ha); lia).
    split_and!; [|done|done|by apply align_mod|..].
    + exists st, sz, rest. split_and!; [done|simpl; lia|done| |done].
      intros bl [->|Hin]%elem_of_cons; [left; simpl; lia|].
      destruct (Hb bl Hin) as [[? ?]|?]; [left; simpl; lia|by right].
    + exists (st, sz). simpl. rewrite Hr. split; [by left|]. intros x. unfold covers. simpl. lia.
    + intros bl Hin x Hx1 Hx2. unfold covers in Hx1, Hx2. simpl in Hx2.
      destruct (Hb bl Hin) as [[? ?]|(rg & Hrg & Hw)]; [lia|].
      apply (Hd rg Hrg x); [by apply Hw|unfold covers; simpl; lia].
  - intros p layout b (st & sz & rest & Hr & Hn & He & Hb & Hd) Hin. simpl in *.
    pose proof (list_remove_perm _ _ Hin) as Hp. unfold ra_dealloc. simpl.
    destruct (list_find _ _) as [[i y]|]; [|done]. split_and!; [|done|done].
    exists st, sz, rest. split_and!; try done. intros bl Hbl. apply Hb. rewrite Hp. by right.
  - intros b. apply wrap_range.
Qed.

Record page_bump : Type := { pb_arena : range; pb_next : Z; pb_blocks : list (Z * Z) }.
Definition pb_ok (p : page_bump) : Prop :=
  0 ≤ (pb_arena p).1 ∧ (pb_arena p).1 + (pb_arena p).2 < usize_mod ∧ (pb_arena p).1 ≤ pb_next p ∧
  pb_next p ≤ (pb_arena p).1 + (pb_arena p).2 ∧
  ∀ b, b ∈ pb_blocks p → b.1 + b.2 * PAGE_SIZE ≤ pb_next p.
Definition pb_alloc_pages (n al : Z) (p : page_bump) : result Z AllocError * page_bump :=
  let a := pb_next p + (- pb_next p) mod al in
  if (0 <? al) && (0 <? n) && (a + n * PAGE_SIZE <=? (pb_arena p).1 + (pb_arena p).2) then
    (Ok a, {| pb_arena := pb_arena p; pb_next := a + n * PAGE_SIZE; pb_blocks := (a, n) :: pb_blocks p |})
  else (Err NoMemory, p).
Definition pb_dealloc_pages (a n : Z) (p : page_bump) : page_bump :=
  {| pb_arena := pb_arena p; pb_next := pb_next p;
     pb_blocks := match list_find (λ b, b = (a, n)) (pb_blocks p) with
                  | Some (i, _) => delete i (pb_blocks p) | None => pb_blocks p end |}.
#[export] Instance bump_page_allocator : PageAllocator page_bump := {|
  palloc_new := {| pb_arena := (0, 0); pb_next := 0; pb_blocks := [] |};
  palloc_init start size _ := {| pb_arena := (start, size); pb_next := start; pb_blocks := [] |};
  palloc_alloc_pages := pb_alloc_pages;
  palloc_dealloc_pages := pb_dealloc_pages;
  palloc_used_pages p := (pb_next p - (pb_arena p).1) / PAGE_SIZE;
  palloc_available_pages p := ((pb_arena p).1 + (pb_arena p).2 - pb_next p) / PAGE_SIZE;
  palloc_ok := pb_ok;
  palloc_arena := pb_arena;
  palloc_blocks := pb_blocks;
|}.
#[export] Instance bump_page_allocator_laws : PageAllocatorLaws page_bump.
Proof.
  split.
  - intros start size p ?????. split_and!; [|done..]. split_and!; simpl; try lia.
    intros b Hin. by apply not_elem_of_nil in Hin.
  - intros p (?&?&_). done.
  - intros n al p r p' (H0a & Hau & Hn1 & Hn2 & Hb) Hn. unfold palloc_alloc_pages. simpl. unfold pb_alloc_pages.
    cbv zeta. set (a := pb_next p + _). destruct (_ && _ && _) eqn:Hc; intros [= <- <-]; [|by split_and!].
    apply andb_true_iff in Hc as [[Ha%Z.ltb_lt _]%andb_true_iff Hfit%Z.leb_le].
    assert (Hp : pb_next p ≤ a) by (unfold a; pose proof (Z.mod_pos_bound (- pb_next p) _ Ha); lia).
    unfold PAGE_SIZE in *. split_and!; [|done|done|by apply align_mod|..]; simpl.
    + split_and!; simpl; try lia. intros b [->|Hin]%elem_of_cons; simpl; [unfold PAGE_SIZE; lia|].
      apply Hb in Hin. unfold PAGE_SIZE in *. lia.
    + apply Z.div_pos; lia.
    + set (e := (pb_arena p).1 + (pb_arena p).2) in *.
      replace (e - (a + n * 4096)) with (e - a + (- n) * 4096) by lia. rewrite Z.div_add by lia.
      pose proof (Z.div_le_mono (e - a) (e - pb_next p) 4096). lia.
    + intros x. unfold covers, page_range, PAGE_SIZE. simpl. lia.
    + intros bl Hin x. unfold covers, page_range, PAGE_SIZE. simpl. apply Hb in Hin. unfold PAGE_SIZE in *. lia.
  - intros a n p (H0a & Hau & Hn1 & Hn2 & Hb) Hin. simpl in *.
    pose proof (list_remove_perm _ _ Hin) as Hp. unfold pb_dealloc_pages. simpl.
    destruct (list_find _ _) as [[i y]|]; [|done]. split_and!; [|done|done].
    split_and!; try done. intros b Hbin. apply Hb. rewrite Hp. by right.
Qed.

(** A run: 16 pages; two byte blocks of which the second makes the heap grow, and
    a page for a client. *)
Abbreviation demo_ga := (GlobalAllocator region_alloc page_bump).
Definition run_init : demo_ga :=
  match init 0x10000 0x40000 new with Ret g => g | Panic => new end.
Definition big : Layout := {| layout_size := 0x8000; layout_align := 16 |}.
Definition run_alloc (layout : Layout) (g : demo_ga) : demo_ga :=
  match alloc layout g with Some (_, g') => g' | None => g end.
Definition run_big : demo_ga := run_alloc big (run_alloc big run_init).
Definition run_page : demo_ga := (alloc_pages 1 PAGE_SIZE run_big).2.

Lemma big_valid : layout_valid big.
Proof. split_and!; simpl; [exists 4; split; [lia|done]|lia|lia]. Qed.
Lemma run_page_reachable :
  rtc ga_step {| galloc := run_init; client_pages := [] |}
    {| galloc := run_page; client_pages := [(0x38000, 1)] |}.
Proof.
  eapply rtc_l; [eapply (ga_alloc big), (eq_refl (Some (Ok 0x10000, _))); apply big_valid|].
  eapply rtc_l; [eapply (ga_alloc big), (eq_refl (Some (Ok 0x18000, _))); apply big_valid|].
  apply rtc_once, (ga_alloc_pages 1 PAGE_SIZE); by vm_compute.
Qed.

Lemma run_init_region : init_region 0x10000 0x40000.
Proof. by split_and!. Qed.

Lemma run_init_eq : init 0x10000 0x40000 new = Ret run_init.
Proof. by vm_compute. Qed.

Lemma global_heap_safe_witness :
  balloc_blocks (balloc run_page) = [(0x18000, 0x8000); (0x10000, 0x8000)] ∧
  ranges_disjoint (0x18000, 0x8000) (page_range (0x38000, 1)).
Proof.
  split; [by vm_compute|].
  destruct (global_heap_safe 0x10000 0x40000 run_init _ run_init_region run_init_eq run_page_reachable)
    as (_ & _ & Hd & _). apply Hd; simpl; [apply (bool_decide_unpack _); by vm_compute|by left].
Defined.

Lemma global_alloc_returns_witness :
  ∃ r g', alloc big run_page = Some (r, g') ∧ alloc_result big r run_page g'.
Proof.
  apply (global_alloc_returns 0x10000 0x40000 run_init _ big run_init_region run_init_eq run_page_reachable big_valid).
Defined.
