(* ===== verification/Axmm.v ===== *)
(** Virtual memory: [modules/axmm] (address spaces and mapping backends), with the
    address conversions and memory regions of [axhal/src/mem.rs] and the paging glue of
    [axhal/src/paging.rs].

    Page tables ([page_table_multiarch]), sets of memory areas ([memory_set]) and address
    arithmetic ([memory_addr]) are crates outside the repository: they are the classes
    [PageTable], [MemorySet] and [MemoryAddr], whose laws state the documented behaviour
    over a view, the pages that are present with their frames and the areas of a set.
    Frames come from the global allocator of [Axalloc.v].  Memory is a function from
    addresses of the kernel's linear mapping to bytes. *)

From stdpp Require Import prelude gmap list.
From Stdlib Require Import ZArith Lia.
From S2P Require Import Prelude Axalloc.
Local Open Scope Z_scope.
Local Open Scope kernel_scope.

Definition PAGE_SIZE_4K : Z := 0x1000.

(** [contains] of a [bitflags] type. *)
Definition contains (a b : Z) : bool := Z.land a b =? b.

(** ** [memory_addr] *)

(** [AddrRange]: start and end. *)
Record addr_range : Type := { ar_start : Z; ar_end : Z }.

Class MemoryAddr : Type := {
  align_down : Z → Z → Z;
  align_up_4k : Z → Z;
  align_offset_4k : Z → Z;
  is_aligned_4k : Z → bool;
  from_start_size : Z → Z → outcome addr_range;
  range_size : addr_range → Z;
  range_contains : addr_range → Z → bool;
  contains_range_op : addr_range → addr_range → bool;
  range_overlaps : addr_range → addr_range → bool;
  page_iter_4k : Z → Z → option (list Z);
}.
Definition align_down_4k `{MemoryAddr} (a : Z) : Z := align_down a PAGE_SIZE_4K.

(** The pages of a range that starts at [start]. *)
Definition pages_from (start : Z) (n : nat) : list Z := (λ i, start + PAGE_SIZE_4K * Z.of_nat i) <$> seq 0 n.

Class MemoryAddrLaws `{MemoryAddr} : Prop := {
  align_down_law a al : in_usize a → is_pow2 al → align_down a al = a - a mod al;
  align_up_law a : 0 ≤ a → a + (PAGE_SIZE_4K - 1) < 2 ^ 64 → align_up_4k a = (a + (PAGE_SIZE_4K - 1)) / PAGE_SIZE_4K * PAGE_SIZE_4K;
  align_offset_law a : in_usize a → align_offset_4k a = a mod PAGE_SIZE_4K;
  is_aligned_law a : in_usize a → is_aligned_4k a = (a mod PAGE_SIZE_4K =? 0);
  from_start_size_law start size : in_usize start → in_usize size →
    from_start_size start size = if start + size <? 2 ^ 64 then Ret {| ar_start := start; ar_end := start + size |} else Panic;
  range_size_law r : ar_start r ≤ ar_end r → range_size r = ar_end r - ar_start r;
  range_contains_law r a : range_contains r a = (ar_start r <=? a) && (a <? ar_end r);
  contains_range_law r1 r2 : contains_range_op r1 r2 = (ar_start r1 <=? ar_start r2) && (ar_end r2 <=? ar_end r1);
  range_overlaps_law r1 r2 : range_overlaps r1 r2 = (ar_start r1 <? ar_end r2) && (ar_start r2 <? ar_end r1);
  page_iter_law start n : in_usize start → start mod PAGE_SIZE_4K = 0 → start + PAGE_SIZE_4K * Z.of_nat n < 2 ^ 64 →
    page_iter_4k start (start + PAGE_SIZE_4K * Z.of_nat n) = Some (pages_from start n);
}.

(** ** [page_table_multiarch] *)

Inductive PageSize : Type := Size4K | Size2M | Size1G.
Definition page_size_usize (s : PageSize) : Z := match s with Size4K => 0x1000 | Size2M => 0x200000 | Size1G => 0x40000000 end.
Definition is_huge (s : PageSize) : bool := match s with Size4K => false | _ => true end.
Inductive PagingError : Type := PtNoMemory | NotAligned | NotMapped | AlreadyMapped | MappedToHugePage.

(** [MappingFlags]: [empty] is 0. *)
Class MappingFlags : Type := { mf_READ : Z; mf_WRITE : Z; mf_EXECUTE : Z; mf_USER : Z; mf_DEVICE : Z; mf_UNCACHED : Z }.

(** [G] is the state of the allocator that provides the tables.  The view: [pt_page]
    gives, for the address of a 4K page, its frame, flags and the size of the mapping it
    belongs to, when it is present; [pt_ready] says that the tables that lead to its
    entry exist. *)
Class PageTable (PT G : Type) : Type := {
  pt_try_new : G → result PT PagingError * G;
  pt_root_paddr : PT → Z;
  pt_map : Z → Z → PageSize → Z → PT → G → result unit PagingError * PT * G;
  pt_remap : Z → Z → Z → PT → result PageSize PagingError * PT;
  pt_unmap : Z → PT → result (Z * PageSize) PagingError * PT;
  pt_query : PT → Z → result (Z * Z * PageSize) PagingError;
  pt_map_region : Z → (Z → Z) → Z → Z → bool → PT → G → result unit PagingError * PT * G;
  pt_unmap_region : Z → Z → PT → result unit PagingError * PT;
  pt_protect_region : Z → Z → Z → PT → result unit PagingError * PT;
  pt_copy_from : PT → Z → Z → PT → PT;
  pt_page : PT → Z → option (Z * Z * PageSize);
  pt_ready : PT → Z → Prop;
}.

(** ** [memory_set] *)

Inductive MappingError : Type := InvalidParam | AlreadyExists | BadState.

Inductive Backend : Type :=
| Linear (pa_va_offset : Z)
| Alloc (populate : bool).
Definition new_linear (pa_va_offset : Z) : Backend := Linear pa_va_offset.
Definition new_alloc (populate : bool) : Backend := Alloc populate.

Record MemoryArea : Type := { area_start : Z; area_size : Z; area_flags : Z; area_backend : Backend }.
Definition area_has (a : MemoryArea) (va : Z) : Prop := area_start a ≤ va < area_start a + area_size a.
Definition areas_overlap (a b : MemoryArea) : bool :=
  (area_start a <? area_start b + area_size b) && (area_start b <? area_start a + area_size a).

(** [ms_map] is [MemorySet::map] without [unmap_overlap]; its second argument is the
    backend's [map] on the area. *)
Class MemorySet (MS : Type) : Type := {
  ms_new : MS;
  ms_map : ∀ {S : Type}, MemoryArea → (S → outcome (bool * S)) → MS → S → outcome (result unit MappingError * MS * S);
  ms_find : MS → Z → option MemoryArea;
  ms_find_free_area : MS → Z → Z → addr_range → option Z;
  ms_areas : MS → list MemoryArea;
}.
Class MemorySetLaws (MS : Type) `{MemorySet MS} : Prop := {
  ms_new_law : ms_areas ms_new = [];
  ms_map_law (S : Type) area (map : S → outcome (bool * S)) ms s :
    if area_size area =? 0 then ms_map area map ms s = Ret (Err InvalidParam, ms, s)
    else if existsb (areas_overlap area) (ms_areas ms) then ms_map area map ms s = Ret (Err AlreadyExists, ms, s)
    else match map s with
         | Panic => ms_map area map ms s = Panic
         | Ret (false, s') => ms_map area map ms s = Ret (Err BadState, ms, s')
         | Ret (true, s') => ∃ ms', ms_map area map ms s = Ret (Ok tt, ms', s') ∧ ms_areas ms' ≡ₚ area :: ms_areas ms
         end;
  ms_find_Some ms va a : ms_find ms va = Some a → a ∈ ms_areas ms ∧ area_has a va;
  ms_find_None ms va a : ms_find ms va = None → a ∈ ms_areas ms → ¬ area_has a va;
  ms_free_law ms hint size limit a : ms_find_free_area ms hint size limit = Some a →
    hint ≤ a ∧ ar_start limit ≤ a ∧ a + size ≤ ar_end limit ∧
    ∀ x, x ∈ ms_areas ms → a + size ≤ area_start x ∨ area_start x + area_size x ≤ a;
}.

(** The kernel heap has room for a [Vec] of that many bytes; without it the allocation
    stops the kernel. *)
Class KernelHeap : Type := { heap_room : Z → bool }.

(** ** [axhal::mem] *)

(** [axconfig::PHYS_VIRT_OFFSET] and the other constants of the platform. *)
Class MemConfig : Type := {
  PHYS_VIRT_OFFSET : Z;
  PHYS_MEMORY_END : Z;
  KERNEL_ASPACE_BASE : Z;
  KERNEL_ASPACE_SIZE : Z;
  MMIO_REGIONS : list (Z * Z);
}.

Definition virt_to_phys `{MemConfig} (vaddr : Z) : Z := usub vaddr PHYS_VIRT_OFFSET.
Definition phys_to_virt `{MemConfig} (paddr : Z) : Z := uadd paddr PHYS_VIRT_OFFSET.

Definition MRF_READ : Z := Z.shiftl 1 0.
Definition MRF_WRITE : Z := Z.shiftl 1 1.
Definition MRF_EXECUTE : Z := Z.shiftl 1 2.
Definition MRF_DEVICE : Z := Z.shiftl 1 4.
Definition MRF_UNCACHED : Z := Z.shiftl 1 5.
Definition MRF_RESERVED : Z := Z.shiftl 1 6.
Definition MRF_FREE : Z := Z.shiftl 1 7.

Record MemRegion : Type := { mr_paddr : Z; mr_size : Z; mr_flags : Z }.

(** The linker's symbols. *)
Record linker_symbols : Type := {
  stext : Z; etext : Z; srodata : Z; erodata : Z; sdata : Z; edata : Z; sbss : Z; ebss : Z; ekernel : Z;
  boot_stack : Z; boot_stack_top : Z;
}.
Definition kernel_image_regions `{MemConfig} (l : linker_symbols) : list MemRegion :=
  let or3 a b c := Z.lor (Z.lor a b) c in
  [ {| mr_paddr := virt_to_phys (stext l); mr_size := usub (etext l) (stext l); mr_flags := or3 MRF_RESERVED MRF_READ MRF_EXECUTE |};
    {| mr_paddr := virt_to_phys (srodata l); mr_size := usub (erodata l) (srodata l); mr_flags := Z.lor MRF_RESERVED MRF_READ |};
    {| mr_paddr := virt_to_phys (sdata l); mr_size := usub (edata l) (sdata l); mr_flags := or3 MRF_RESERVED MRF_READ MRF_WRITE |};
    {| mr_paddr := virt_to_phys (boot_stack l); mr_size := usub (boot_stack_top l) (boot_stack l); mr_flags := or3 MRF_RESERVED MRF_READ MRF_WRITE |};
    {| mr_paddr := virt_to_phys (sbss l); mr_size := usub (ebss l) (sbss l); mr_flags := or3 MRF_RESERVED MRF_READ MRF_WRITE |} ].
Definition default_mmio_regions `{MemConfig} : list MemRegion :=
  (λ reg, {| mr_paddr := reg.1; mr_size := reg.2; mr_flags := Z.lor (Z.lor (Z.lor MRF_RESERVED MRF_DEVICE) MRF_READ) MRF_WRITE |}) <$> MMIO_REGIONS.
Definition default_free_regions `{MemConfig, MemoryAddr} (l : linker_symbols) : list MemRegion :=
  let start := align_up_4k (virt_to_phys (ekernel l)) in
  let end_ := align_down_4k PHYS_MEMORY_END in
  [ {| mr_paddr := start; mr_size := usub end_ start; mr_flags := Z.lor (Z.lor MRF_FREE MRF_READ) MRF_WRITE |} ].
(** [platform_regions] is the platform's own list. *)
Definition memory_regions `{MemConfig} (l : linker_symbols) (platform_regions : list MemRegion) : list MemRegion :=
  kernel_image_regions l ++ platform_regions.

(** [From<MemRegionFlags> for MappingFlags]. *)
Definition mapping_flags_from `{MappingFlags} (f : Z) : Z :=
  let add b m ret := if contains f b then Z.lor ret m else ret in
  add MRF_UNCACHED mf_UNCACHED (add MRF_DEVICE mf_DEVICE (add MRF_EXECUTE mf_EXECUTE (add MRF_WRITE mf_WRITE (add MRF_READ mf_READ 0)))).

(** ** Memory *)

Definition memory : Type := Z → Z.
Definition mem_read (m : memory) (addr : Z) (n : nat) : list Z := (λ i, m (addr + Z.of_nat i)) <$> seq 0 n.
Definition mem_write (m : memory) (addr : Z) (bs : list Z) : memory := λ a,
  if (addr <=? a) && (a <? addr + Z.of_nat (length bs)) then default 0 (bs !! Z.to_nat (a - addr)) else m a.

Section axmm.
Context {B P PT MS : Type} `{PageAllocator P}.
Abbreviation G := (GlobalAllocator B P).
Context `{MemoryAddr, MappingFlags, MemConfig, !PageTable PT G, !MemorySet MS}.

(** What the backends work on: the page table, the memory and the allocator. *)
Record paging : Type := { pg_pt : PT; pg_mem : memory; pg_alloc : G }.
Definition set_pt (pt : PT) (g : paging) : paging := {| pg_pt := pt; pg_mem := pg_mem g; pg_alloc := pg_alloc g |}.

(** ** [backend/alloc.rs] *)

Definition alloc_frame (zeroed : bool) (g : paging) : option Z * paging :=
  match alloc_pages 1 PAGE_SIZE_4K (pg_alloc g) with
  | (Err _, a) => (None, {| pg_pt := pg_pt g; pg_mem := pg_mem g; pg_alloc := a |})
  | (Ok vaddr, a) =>
      let mem := if zeroed then mem_write (pg_mem g) vaddr (replicate (Z.to_nat PAGE_SIZE_4K) 0) else pg_mem g in
      (Some (virt_to_phys vaddr), {| pg_pt := pg_pt g; pg_mem := mem; pg_alloc := a |})
  end.
Definition dealloc_frame (frame : Z) (g : paging) : paging :=
  {| pg_pt := pg_pt g; pg_mem := pg_mem g; pg_alloc := dealloc_pages (phys_to_virt frame) 1 (pg_alloc g) |}.

(** The loop of [map_alloc]; a page for which there is no frame is passed over. *)
Fixpoint populate_pages (pages : list Z) (flags : Z) (g : paging) : bool * paging :=
  match pages with
  | [] => (true, g)
  | addr :: pages =>
      match alloc_frame true g with
      | (None, g) => populate_pages pages flags g
      | (Some frame, g) =>
          match pt_map addr frame Size4K flags (pg_pt g) (pg_alloc g) with
          | (r, pt, a) =>
              let g := {| pg_pt := pt; pg_mem := pg_mem g; pg_alloc := a |} in
              if is_ok r then populate_pages pages flags g else (false, g)
          end
      end
  end.
(** [pt.map_region], [true] when it succeeds. *)
Definition map_region_ok (start : Z) (f : Z → Z) (size flags : Z) (g : paging) : bool * paging :=
  match pt_map_region start f size flags false (pg_pt g) (pg_alloc g) with
  | (r, pt, a) => (is_ok r, {| pg_pt := pt; pg_mem := pg_mem g; pg_alloc := a |})
  end.
Definition map_alloc_backend (start size flags : Z) (populate : bool) (g : paging) : outcome (bool * paging) :=
  if populate then
    match page_iter_4k start (uadd start size) with
    | None => Panic
    | Some pages => Ret (populate_pages pages flags g)
    end
  else Ret (map_region_ok start (λ _, 0) size 0 g).

Fixpoint unmap_pages (pages : list Z) (g : paging) : bool * paging :=
  match pages with
  | [] => (true, g)
  | addr :: pages =>
      match pt_unmap addr (pg_pt g) with
      | (Ok (frame, page_size), pt) =>
          let g := set_pt pt g in
          if is_huge page_size then (false, g) else unmap_pages pages (dealloc_frame frame g)
      | (Err _, pt) => unmap_pages pages (set_pt pt g)
      end
  end.
Definition unmap_alloc (start size : Z) (g : paging) : outcome (bool * paging) :=
  match page_iter_4k start (uadd start size) with
  | None => Panic
  | Some pages => Ret (unmap_pages pages g)
  end.

Definition handle_page_fault_alloc (vaddr orig_flags : Z) (populate : bool) (g : paging) : bool * paging :=
  if populate then (false, g)
  else
    match alloc_frame true g with
    | (Some frame, g) => let (r, pt) := pt_remap vaddr frame orig_flags (pg_pt g) in (is_ok r, set_pt pt g)
    | (None, g) => (false, g)
    end.

(** ** [backend/linear.rs] *)

Definition map_linear_backend (start size flags pa_va_offset : Z) (g : paging) : bool * paging :=
  map_region_ok start (λ va, usub va pa_va_offset) size flags g.
Definition unmap_linear (start size : Z) (g : paging) : bool * paging :=
  let (r, pt) := pt_unmap_region start size (pg_pt g) in (is_ok r, set_pt pt g).

(** ** [backend/mod.rs] *)

Definition backend_map (b : Backend) (start size flags : Z) (g : paging) : outcome (bool * paging) :=
  match b with
  | Linear pa_va_offset => Ret (map_linear_backend start size flags pa_va_offset g)
  | Alloc pop => map_alloc_backend start size flags pop g
  end.
Definition backend_unmap (b : Backend) (start size : Z) (g : paging) : outcome (bool * paging) :=
  match b with
  | Linear _ => Ret (unmap_linear start size g)
  | Alloc _ => unmap_alloc start size g
  end.
Definition backend_protect (b : Backend) (start size new_flags : Z) (g : paging) : bool * paging :=
  let (r, pt) := pt_protect_region start size new_flags (pg_pt g) in (is_ok r, set_pt pt g).
Definition backend_handle_page_fault (b : Backend) (vaddr orig_flags : Z) (g : paging) : bool * paging :=
  match b with
  | Linear _ => (false, g)
  | Alloc pop => handle_page_fault_alloc vaddr orig_flags pop g
  end.

(** ** [aspace.rs] *)

Record AddrSpace : Type := { va_range : addr_range; areas : MS; pt : PT }.

(** The address space, with the memory and the allocator its methods reach. *)
Record space : Type := { sp_as : AddrSpace; sp_mem : memory; sp_alloc : G }.
Abbreviation M := (SM space AxError.t).
Definition sp_paging (s : space) : paging := {| pg_pt := pt (sp_as s); pg_mem := sp_mem s; pg_alloc := sp_alloc s |}.
Definition with_paging (g : paging) (s : space) : space :=
  {| sp_as := {| va_range := va_range (sp_as s); areas := areas (sp_as s); pt := pg_pt g |}; sp_mem := pg_mem g; sp_alloc := pg_alloc g |}.

Definition base (a : AddrSpace) : Z := ar_start (va_range a).
Definition end_ (a : AddrSpace) : Z := ar_end (va_range a).
Definition aspace_size (a : AddrSpace) : Z := range_size (va_range a).
Definition page_table_root (a : AddrSpace) : Z := pt_root_paddr (pt a).

Definition contains_range (a : AddrSpace) (start sz : Z) : outcome bool :=
  match from_start_size start sz with
  | Ret r => Ret (contains_range_op (va_range a) r)
  | Panic => Panic
  end.

(** The memory is not touched: the tables are the allocator's. *)
Definition new_empty (base_ sz : Z) (g : G) : outcome (result AddrSpace AxError.t * G) :=
  match from_start_size base_ sz with
  | Panic => Panic
  | Ret r =>
      match pt_try_new g with
      | (Ok p, g) => Ret (Ok {| va_range := r; areas := ms_new; pt := p |}, g)
      | (Err _, g) => Ret (Err AxError.NoMemory, g)
      end
  end.
Definition copy_mappings_from (other a : AddrSpace) : result AddrSpace AxError.t :=
  if range_overlaps (va_range a) (va_range other) then Err AxError.InvalidInput
  else Ok {| va_range := va_range a; areas := areas a; pt := pt_copy_from (pt other) (base other) (aspace_size other) (pt a) |}.
Definition find_free_area (a : AddrSpace) (hint sz : Z) (limit : addr_range) : option Z := ms_find_free_area (areas a) hint sz limit.

(** [lib.rs] *)
Definition mapping_err_to_ax_err (e : MappingError) : AxError.t :=
  match e with InvalidParam => AxError.InvalidInput | AlreadyExists => AxError.AlreadyExists | BadState => AxError.BadState end.
Definition paging_err_to_ax_err (e : PagingError) : AxError.t :=
  match e with
  | PtNoMemory => AxError.NoMemory
  | NotAligned => AxError.InvalidInput
  | NotMapped => AxError.NotFound
  | AlreadyMapped => AxError.AlreadyExists
  | MappedToHugePage => AxError.InvalidInput
  end.

(** The checks that the methods start with. *)
Definition check_range (start sz : Z) : M unit := λ s,
  match contains_range (sp_as s) start sz with
  | Panic => Panic
  | Ret true => Ret (Ok tt, s)
  | Ret false => Ret (Err AxError.InvalidInput, s)
  end.
Definition check_aligned (b : bool) : M unit := if b then sm_ret tt else sm_err AxError.InvalidInput.
Definition on_pt {A} (f : PT → result A PagingError * PT) : M A := λ s,
  let (r, p) := f (pt (sp_as s)) in Ret (map_err paging_err_to_ax_err r, with_paging (set_pt p (sp_paging s)) s).

Definition map_linear (start_vaddr start_paddr sz flags : Z) : M unit :=
  do! check_range start_vaddr sz in
  do! check_aligned (is_aligned_4k start_vaddr && is_aligned_4k start_paddr && is_aligned_4k sz) in
  λ s,
    let offset := usub start_vaddr start_paddr in
    match pt_map_region start_vaddr (λ va, usub va offset) sz flags false (pt (sp_as s)) (sp_alloc s) with
    | (r, p, a) => Ret (map_err paging_err_to_ax_err r, with_paging {| pg_pt := p; pg_mem := sp_mem s; pg_alloc := a |} s)
    end.

Definition map_alloc (start sz flags : Z) (populate : bool) : M unit :=
  do! check_range start sz in
  do! check_aligned (is_aligned_4k start && is_aligned_4k sz) in
  λ s,
    let area := {| area_start := start; area_size := sz; area_flags := flags; area_backend := new_alloc populate |} in
    match ms_map area (backend_map (new_alloc populate) start sz flags) (areas (sp_as s)) (sp_paging s) with
    | Panic => Panic
    | Ret (r, ars, g) =>
        Ret (map_err mapping_err_to_ax_err r,
             {| sp_as := {| va_range := va_range (sp_as s); areas := ars; pt := pg_pt g |}; sp_mem := pg_mem g; sp_alloc := pg_alloc g |})
    end.

Definition unmap (start sz : Z) : M unit :=
  do! check_range start sz in
  do! check_aligned (is_aligned_4k start && is_aligned_4k sz) in
  on_pt (pt_unmap_region start sz).

Definition protect (start sz flags : Z) : M unit :=
  do! check_range start sz in
  do! check_aligned (is_aligned_4k start && is_aligned_4k sz) in
  on_pt (pt_protect_region start sz flags).

(** The loop of [process_area_data] over the pages; [f] is the closure, on a state of
    its own. *)
Fixpoint process_pages {T} (p : PT) (start sz : Z) (f : Z → Z → Z → T → T) (pages : list Z) (cnt : Z) (t : T) : result unit AxError.t * T :=
  match pages with
  | [] => (Ok tt, t)
  | vaddr :: pages =>
      match pt_query p vaddr with
      | Err _ => (Err AxError.BadAddress, t)
      | Ok (paddr, _, _) =>
          let copy_size := Z.min (usub sz cnt) PAGE_SIZE_4K in
          if copy_size =? 0 then (Ok tt, t)
          else
            let off := align_offset_4k start in
            let (copy_size, paddr) :=
              if (vaddr =? align_down_4k start) && negb (off =? 0)
              then (Z.min copy_size (usub PAGE_SIZE_4K off), uadd paddr off) else (copy_size, paddr) in
            process_pages p start sz f pages (uadd cnt copy_size) (f (phys_to_virt paddr) cnt copy_size t)
      end
  end.
Definition process_area_data {T} (start sz : Z) (f : Z → Z → Z → T → T) (t : T) (s : space) : outcome (result unit AxError.t * T) :=
  match contains_range (sp_as s) start sz with
  | Panic => Panic
  | Ret false => Ret (Err AxError.InvalidInput, t)
  | Ret true =>
      match page_iter_4k (align_down_4k start) (align_up_4k (uadd start sz)) with
      | None => Panic
      | Some pages => Ret (process_pages (pt (sp_as s)) start sz f pages 0 t)
      end
  end.

(** The bytes [l] stored at index [off] of a buffer. *)
Definition buf_write (buf : list Z) (off : nat) (l : list Z) : list Z := take off buf ++ l ++ drop (off + length l) buf.
Definition read (start : Z) (buf : list Z) (s : space) : outcome (result unit AxError.t * list Z) :=
  process_area_data start (Z.of_nat (length buf))
    (λ src offset n b, buf_write b (Z.to_nat offset) (mem_read (sp_mem s) src (Z.to_nat n))) buf s.
Definition write (start : Z) (buf : list Z) : M unit := λ s,
  match process_area_data start (Z.of_nat (length buf))
          (λ dst offset n m, mem_write m dst (take (Z.to_nat n) (drop (Z.to_nat offset) buf))) (sp_mem s) s with
  | Panic => Panic
  | Ret (r, m) => Ret (r, {| sp_as := sp_as s; sp_mem := m; sp_alloc := sp_alloc s |})
  end.

Definition handle_page_fault (vaddr access_flags : Z) (s : space) : bool * space :=
  if negb (range_contains (va_range (sp_as s)) vaddr) then (false, s)
  else match ms_find (areas (sp_as s)) vaddr with
       | Some area =>
           let orig_flags := area_flags area in
           if contains orig_flags access_flags
           then let (r, g) := backend_handle_page_fault (area_backend area) vaddr orig_flags (sp_paging s) in (r, with_paging g s)
           else (false, s)
       | None => (false, s)
       end.

(** The loop of [translated_byte_buffer]: the slices, as address and length. *)
Fixpoint translate_loop (fuel : nat) (p : PT) (start last : Z) : outcome (list (Z * Z)) :=
  if start <? last then
    match fuel with
    | O => Panic
    | S fuel =>
        match pt_query p start with
        | Err _ => Panic
        | Ok (start_paddr, _, page_size) =>
            let end_va := Z.min (uadd (align_down start (page_size_usize page_size)) (page_size_usize page_size)) last in
            match translate_loop fuel p end_va last with
            | Ret v => Ret ((phys_to_virt start_paddr, usub end_va start) :: v)
            | Panic => Panic
            end
        end
    end
  else Ret [].
(** A slice ends at a page boundary or at the end: [len / 4096 + 2] rounds. *)
Definition translated_byte_buffer (vaddr len : Z) (s : space) : outcome (option (list (Z * Z))) :=
  if negb (range_contains (va_range (sp_as s)) vaddr) then Ret None
  else match ms_find (areas (sp_as s)) vaddr with
       | None => Ret None
       | Some area =>
           if area_size area <? len then Ret None
           else match translate_loop (Z.to_nat (len / PAGE_SIZE_4K) + 2) (pt (sp_as s)) vaddr (uadd vaddr len) with
                | Ret v => Ret (Some v)
                | Panic => Panic
                end
       end.

(** ** [lib.rs] *)

Definition USER_ASPACE_BASE : Z := 0x0000.
Definition USER_ASPACE_SIZE : Z := 0x4000000000.

(** [kernel] is the kernel's address space. *)
Definition new_user_aspace (kernel : AddrSpace) (g : G) : outcome (result AddrSpace AxError.t * G) :=
  match new_empty USER_ASPACE_BASE USER_ASPACE_SIZE g with
  | Panic => Panic
  | Ret (Err e, g) => Ret (Err e, g)
  | Ret (Ok a, g) => Ret (copy_mappings_from kernel a, g)
  end.

Fixpoint map_regions (rs : list MemRegion) : M unit :=
  match rs with
  | [] => sm_ret tt
  | r :: rs =>
      do! map_linear (phys_to_virt (mr_paddr r)) (mr_paddr r) (mr_size r) (mapping_flags_from (mr_flags r)) in
      map_regions rs
  end.
Definition new_kernel_aspace (regions : list MemRegion) (mem : memory) (g : G) : outcome (result AddrSpace AxError.t * G) :=
  match new_empty KERNEL_ASPACE_BASE KERNEL_ASPACE_SIZE g with
  | Panic => Panic
  | Ret (Err e, g) => Ret (Err e, g)
  | Ret (Ok a, g) =>
      match map_regions regions {| sp_as := a; sp_mem := mem; sp_alloc := g |} with
      | Panic => Panic
      | Ret (r, s) => Ret (map_ok (λ _, sp_as s) r, sp_alloc s)
      end
  end.

(** The statics [KERNEL_ASPACE] and [KERNEL_PAGE_TABLE_ROOT], and the root register of
    the processor. *)
Record kernel_mm : Type := { KERNEL_ASPACE : option AddrSpace; KERNEL_PAGE_TABLE_ROOT : option Z; root_register : Z; km_alloc : G }.
Definition kernel_page_table_root (k : kernel_mm) : outcome Z := opt_unwrap (page_table_root <$> KERNEL_ASPACE k).
Definition set_kernel_page_table_root (root : Z) (k : kernel_mm) : kernel_mm :=
  {| KERNEL_ASPACE := KERNEL_ASPACE k; root_register := root; km_alloc := km_alloc k;
     KERNEL_PAGE_TABLE_ROOT := match KERNEL_PAGE_TABLE_ROOT k with Some r => Some r | None => Some root end |}.
(** [init_once] panics on the second call. *)
Definition init_memory_management (regions : list MemRegion) (mem : memory) (k : kernel_mm) : outcome kernel_mm :=
  match new_kernel_aspace regions mem (km_alloc k) with
  | Ret (Ok a, g) =>
      match KERNEL_ASPACE k with
      | Some _ => Panic
      | None =>
          let k := {| KERNEL_ASPACE := Some a; KERNEL_PAGE_TABLE_ROOT := KERNEL_PAGE_TABLE_ROOT k; root_register := root_register k; km_alloc := g |} in
          root ← kernel_page_table_root k;
          Ret (set_kernel_page_table_root root k)
      end
  | _ => Panic
  end.
Definition init_memory_management_secondary (k : kernel_mm) : outcome kernel_mm :=
  root ← kernel_page_table_root k;
  Ret {| KERNEL_ASPACE := KERNEL_ASPACE k; KERNEL_PAGE_TABLE_ROOT := KERNEL_PAGE_TABLE_ROOT k; root_register := root; km_alloc := km_alloc k |}.
End axmm.
Arguments AddrSpace PT MS : clear implicits.
Arguments space B P PT MS : clear implicits.
Arguments paging B P PT : clear implicits.
