(* ===== verification/AxmmProps.v ===== *)
(** Properties of the address spaces of [Axmm.v].

    [PageTableLaws] is what the documentation of [page_table_multiarch] promises, over
    the pages that are present.  The invariant [uspace_ok] of an address space says that
    every page present in its range is a 4K page on a frame of its own, taken from the
    global allocator.  The theorems: every method keeps it and returns; what is written
    through the address space is read back, and nothing else changes; a lazily mapped
    page is served by the page fault handler; populating passes over pages for which
    there is no frame. *)

From stdpp Require Import prelude gmap list.
From Stdlib Require Import ZArith Lia.
From S2P Require Import Prelude Axalloc Axmm.
Local Open Scope Z_scope.
Local Open Scope kernel_scope.

(** [lia] with the page size. *)
Ltac plia := unfold PAGE_SIZE_4K in *; lia.

Definition page_of (va : Z) : Z := va - va mod PAGE_SIZE_4K.
Definition aligned (a : Z) : Prop := a mod PAGE_SIZE_4K = 0.

(** An entry with empty flags is not present. *)
Definition entry (frame flags : Z) (sz : PageSize) : option (Z * Z * PageSize) := if flags =? 0 then None else Some (frame, flags, sz).

Lemma page_of_aligned va : aligned (page_of va).
Proof. unfold aligned, page_of. rewrite Zminus_mod_idemp_r, Z.sub_diag. done. Qed.
Lemma page_of_id b : aligned b → page_of b = b.
Proof. unfold aligned, page_of. lia. Qed.
Lemma page_of_bounds va : page_of va ≤ va < page_of va + PAGE_SIZE_4K.
Proof. unfold page_of. pose proof (Z.mod_pos_bound va PAGE_SIZE_4K). unfold PAGE_SIZE_4K in *. lia. Qed.
Lemma page_of_nonneg va : 0 ≤ va → 0 ≤ page_of va.
Proof. intros. unfold page_of. pose proof (Z.mod_le va PAGE_SIZE_4K). unfold PAGE_SIZE_4K in *. lia. Qed.
Lemma aligned_add b k : aligned b → aligned (b + PAGE_SIZE_4K * k).
Proof. unfold aligned. intros Hb. rewrite Z.mul_comm, Z.mod_add; [done|by unfold PAGE_SIZE_4K]. Qed.
Lemma aligned_sep a b : aligned a → aligned b → a ≠ b → a + PAGE_SIZE_4K ≤ b ∨ b + PAGE_SIZE_4K ≤ a.
Proof.
  unfold aligned. intros Ha%Z.mod_divide Hb%Z.mod_divide Hne; [|by unfold PAGE_SIZE_4K..].
  destruct Ha as [x ->], Hb as [y ->]. unfold PAGE_SIZE_4K in *. lia.
Qed.
Lemma page_of_in b va : aligned b → b ≤ va < b + PAGE_SIZE_4K → page_of va = b.
Proof.
  intros Hb Hva. pose proof (page_of_bounds va). destruct (decide (page_of va = b)) as [|Hne]; [done|].
  destruct (aligned_sep _ _ (page_of_aligned va) Hb Hne); lia.
Qed.
Lemma elem_of_pages_from x start n : x ∈ pages_from start n ↔ ∃ i, 0 ≤ i < Z.of_nat n ∧ x = start + PAGE_SIZE_4K * i.
Proof.
  unfold pages_from. rewrite list_elem_of_fmap. split.
  - intros (i & -> & Hi%elem_of_seq). exists (Z.of_nat i). lia.
  - intros (i & Hi & ->). exists (Z.to_nat i). rewrite elem_of_seq. rewrite Z2Nat.id by lia. split; [done|lia].
Qed.
Lemma pages_from_S start n : pages_from start (S n) = start :: pages_from (start + PAGE_SIZE_4K) n.
Proof.
  unfold pages_from. cbn [seq fmap list_fmap]. f_equal; [lia|]. rewrite <-fmap_S_seq.
  change (list_fmap ?A ?B ?f ?l) with (f <$> l). rewrite <-list_fmap_compose. apply list_fmap_ext. intros i x _. cbn. lia.
Qed.

(** The pages of [start, start + sz). *)
Definition in_region (start sz b : Z) : Prop := start ≤ b < start + sz.

Section laws.
Context {B P PT : Type} `{PageAllocator P, !PageTable PT (GlobalAllocator B P)}.
Abbreviation G := (GlobalAllocator B P).

(** The allocator has given away pages, and got none back. *)
Definition grown (g g' : G) : Prop :=
  palloc_ok (palloc g) →
  palloc_ok (palloc g') ∧ palloc_arena (palloc g') = palloc_arena (palloc g) ∧ ∃ new, palloc_blocks (palloc g') = new ++ palloc_blocks (palloc g).

(** The region has only 4K pages. *)
Definition small_pages (p : PT) (start sz : Z) : Prop :=
  ∀ b f fl s, aligned b → in_region start sz b → pt_page p b = Some (f, fl, s) → s = Size4K.

Class PageTableLaws : Prop := {
  pt_new_law g r g' : pt_try_new g = (r, g') → grown g g' ∧ match r with Ok p => ∀ b, pt_page p b = None | Err _ => True end;
  pt_query_law p va : in_usize va →
    match pt_page p (page_of va) with
    | Some (f, fl, s) => pt_query p va = Ok (f + va mod PAGE_SIZE_4K, fl, s)
    | None => ∃ e, pt_query p va = Err e
    end;
  pt_map_law va pa fl p g r p' g' : aligned va → aligned pa → pt_map va pa Size4K fl p g = (r, p', g') →
    grown g g' ∧ (∀ b, pt_ready p b → pt_ready p' b) ∧
    match r with
    | Ok _ => pt_page p va = None ∧ ∀ b, pt_page p' b = if bool_decide (b = va) then entry pa fl Size4K else pt_page p b
    | Err _ => ∀ b, pt_page p' b = pt_page p b
    end;
  pt_remap_law va pa fl p r p' : in_usize va → aligned pa → pt_remap va pa fl p = (r, p') →
    (∀ b, pt_ready p b → pt_ready p' b) ∧ (pt_ready p (page_of va) → r = Ok Size4K) ∧
    match r with
    | Ok Size4K => ∀ b, pt_page p' b = if bool_decide (b = page_of va) then entry pa fl Size4K else pt_page p b
    | Ok s => ∃ f fl, pt_page p (page_of va) = Some (f, fl, s)
    | Err _ => ∀ b, pt_page p' b = pt_page p b
    end;
  pt_unmap_law va p r p' : aligned va → pt_unmap va p = (r, p') →
    match r with
    | Ok (f, s) => (∃ fl, pt_page p va = Some (f, fl, s)) ∧
        (s = Size4K → ∀ b, pt_page p' b = if bool_decide (b = va) then None else pt_page p b)
    | Err _ => pt_page p va = None ∧ ∀ b, pt_page p' b = pt_page p b
    end;
  pt_map_region_law start f sz fl p g r p' g' : aligned start → aligned sz → 0 ≤ sz → (∀ b, in_region start sz b → aligned b → aligned (f b)) →
    pt_map_region start f sz fl false p g = (r, p', g') →
    grown g g' ∧ (∀ b, pt_ready p b → pt_ready p' b) ∧
    (∀ b, aligned b → ¬ in_region start sz b → pt_page p' b = pt_page p b) ∧
    match r with
    | Ok _ => ∀ b, aligned b → in_region start sz b → pt_page p b = None ∧ pt_page p' b = entry (f b) fl Size4K ∧ pt_ready p' b
    | Err _ => ∀ b, aligned b → in_region start sz b → pt_page p' b = pt_page p b ∨ (pt_page p b = None ∧ pt_page p' b = entry (f b) fl Size4K)
    end;
  pt_unmap_region_law start sz p r p' : aligned start → aligned sz → 0 ≤ sz → small_pages p start sz →
    pt_unmap_region start sz p = (r, p') →
    (∀ b, pt_ready p b → pt_ready p' b) ∧
    (∀ b, aligned b → ¬ in_region start sz b → pt_page p' b = pt_page p b) ∧
    ∀ b, aligned b → in_region start sz b → pt_page p' b = None ∨ (r ≠ Ok tt ∧ pt_page p' b = pt_page p b);
  pt_protect_region_law start sz fl p r p' : aligned start → aligned sz → 0 ≤ sz → small_pages p start sz →
    pt_protect_region start sz fl p = (r, p') →
    (∀ b, pt_ready p b → pt_ready p' b) ∧
    (∀ b, aligned b → ¬ in_region start sz b → pt_page p' b = pt_page p b) ∧
    ∀ b, aligned b → in_region start sz b →
      pt_page p' b = match pt_page p b with Some (f, _, s) => entry f fl s | None => None end ∨ (r ≠ Ok tt ∧ pt_page p' b = pt_page p b);
  pt_copy_law other start sz p b : 0 ≤ start → 0 ≤ sz → aligned b →
    (in_region start sz b → pt_page (pt_copy_from other start sz p) b = pt_page other b) ∧
    (b + 2 ^ 39 ≤ start → pt_page (pt_copy_from other start sz p) b = pt_page p b);
}.
End laws.
Arguments PageTableLaws B P PT {_ _}.

(** * The invariant *)

Section invariant.
Context {B P PT : Type} {pa : PageAllocator P} {pal : PageAllocatorLaws P} {cfg : MemConfig}.
Context {ptab : PageTable PT (GlobalAllocator B P)} {ptl : PageTableLaws B P PT}.
Implicit Types (g : paging B P PT) (a : GlobalAllocator B P).

(** The frame is a page of the allocator, and its address in the linear mapping does
    not wrap around. *)
Definition owned a (f : Z) : Prop :=
  0 ≤ f ∧ aligned f ∧ (f + PHYS_VIRT_OFFSET, 1) ∈ palloc_blocks (palloc a) ∧
  range_within (page_range (f + PHYS_VIRT_OFFSET, 1)) (palloc_arena (palloc a)).
Definition alloc_ok a : Prop :=
  palloc_ok (palloc a) ∧ 0 ≤ PHYS_VIRT_OFFSET ≤ (palloc_arena (palloc a)).1 ∧ aligned PHYS_VIRT_OFFSET.

(** Every page present between [lo] and [hi] is small and has a frame of its own. *)
Record frames_ok (lo hi : Z) g : Prop := {
  fo_alloc : alloc_ok (pg_alloc g);
  fo_page b f fl sz : aligned b → lo ≤ b < hi → pt_page (pg_pt g) b = Some (f, fl, sz) → sz = Size4K ∧ owned (pg_alloc g) f;
  fo_inj b1 b2 f fl1 fl2 s1 s2 : aligned b1 → aligned b2 → lo ≤ b1 < hi → lo ≤ b2 < hi →
    pt_page (pg_pt g) b1 = Some (f, fl1, s1) → pt_page (pg_pt g) b2 = Some (f, fl2, s2) → b1 = b2;
}.

Lemma grown_refl a : grown a a.
Proof. intros Hok. split_and!; [done..|]. by exists []. Qed.
Lemma grown_trans a1 a2 a3 : grown a1 a2 → grown a2 a3 → grown a1 a3.
Proof.
  intros H12 H23 Hok. destruct (H12 Hok) as (Hok2 & Ha2 & n1 & Hb1). destruct (H23 Hok2) as (Hok3 & Ha3 & n2 & Hb2).
  split_and!; [done|congruence|]. exists (n2 ++ n1). by rewrite Hb2, Hb1, app_assoc.
Qed.
Lemma grown_alloc_ok a a' : grown a a' → alloc_ok a → alloc_ok a'.
Proof. intros Hg (Hok & Hd & Hal). destruct (Hg Hok) as (Hok' & Ha & _). split; [done|]. split; [by rewrite Ha|done]. Qed.
Lemma grown_owned a a' f : grown a a' → alloc_ok a → owned a f → owned a' f.
Proof.
  intros Hg (Hok & _) (Hnn & Hal & Hin & Hw). destruct (Hg Hok) as (_ & Ha & new & Hb).
  split_and!; [done|done|rewrite Hb; apply elem_of_app; by right|by rewrite Ha].
Qed.
Lemma owned_direct a f : alloc_ok a → owned a f →
  0 ≤ f + PHYS_VIRT_OFFSET ∧ f + PHYS_VIRT_OFFSET + PAGE_SIZE_4K < 2 ^ 64.
Proof.
  intros (Hok & Hd & _) (Hnn & _ & _ & Hw). pose proof (palloc_arena_law _ Hok) as [Ha1 Ha2]. split; [lia|].
  destruct (Hw (f + PHYS_VIRT_OFFSET + (PAGE_SIZE_4K - 1))) as [_ Hc].
  - unfold covers, page_range. cbn [fst snd]. unfold PAGE_SIZE_4K, PAGE_SIZE. lia.
  - unfold usize_mod in Ha2. lia.
Qed.
Lemma owned_phys_to_virt a f i : alloc_ok a → owned a f → 0 ≤ i < PAGE_SIZE_4K → phys_to_virt (uadd f i) = f + PHYS_VIRT_OFFSET + i.
Proof.
  intros Hok Ho Hi. pose proof (owned_direct a f Hok Ho). destruct Ho as (Hnn & _). destruct Hok as (_ & Hd & _).
  unfold phys_to_virt. rewrite (uadd_small f i) by lia. rewrite uadd_small by lia. lia.
Qed.

(** ** Changes of the page table *)

(** The pages of [p'] in the range are pages of [p], with other flags perhaps. *)
Definition subview (lo hi : Z) (p p' : PT) : Prop :=
  ∀ b f fl sz, aligned b → lo ≤ b < hi → pt_page p' b = Some (f, fl, sz) → ∃ fl', pt_page p b = Some (f, fl', sz).
Lemma frames_ok_subview lo hi g g' :
  frames_ok lo hi g → grown (pg_alloc g) (pg_alloc g') → subview lo hi (pg_pt g) (pg_pt g') → frames_ok lo hi g'.
Proof.
  intros [Ha Hp Hi] Hg Hs. split; [by eapply grown_alloc_ok| |].
  - intros b f fl sz Hb Hr Hpg. destruct (Hs b f fl sz Hb Hr Hpg) as [fl' Hpg']. destruct (Hp b f fl' sz Hb Hr Hpg') as [-> Ho].
    split; [done|]. by eapply grown_owned.
  - intros b1 b2 f fl1 fl2 s1 s2 Hb1 Hb2 Hr1 Hr2 Hq1 Hq2. destruct (Hs _ _ _ _ Hb1 Hr1 Hq1) as [x1 Hx1], (Hs _ _ _ _ Hb2 Hr2 Hq2) as [x2 Hx2].
    by eapply (Hi b1 b2 f).
Qed.

(** A page gets a frame that no page had. *)
Lemma frames_ok_new_page lo hi g g' va f fl :
  frames_ok lo hi g → grown (pg_alloc g) (pg_alloc g') → owned (pg_alloc g') f → (f + PHYS_VIRT_OFFSET, 1) ∉ palloc_blocks (palloc (pg_alloc g)) →
  (∀ b, pt_page (pg_pt g') b = if bool_decide (b = va) then entry f fl Size4K else pt_page (pg_pt g) b) →
  frames_ok lo hi g'.
Proof.
  intros [Ha Hp Hi] Hg Hf Hnew Hv. assert (∀ b f' fl' sz, pt_page (pg_pt g') b = Some (f', fl', sz) →
    b = va ∧ f' = f ∧ sz = Size4K ∨ b ≠ va ∧ pt_page (pg_pt g) b = Some (f', fl', sz)) as Hcase.
  { intros b f' fl' sz. rewrite Hv. case_bool_decide as Hb; [|by right]. unfold entry. destruct (fl =? 0); [done|]. intros [= -> -> ->]. by left. }
  split; [by eapply grown_alloc_ok| |].
  - intros b f' fl' sz Hb Hr Hpg. destruct (Hcase _ _ _ _ Hpg) as [(-> & -> & ->)|[Hne Hpg']]; [done|].
    destruct (Hp b f' fl' sz Hb Hr Hpg') as [-> Ho]. split; [done|]. by eapply grown_owned.
  - intros b1 b2 f' fl1 fl2 s1 s2 Hb1 Hb2 Hr1 Hr2 Hq1 Hq2.
    destruct (Hcase _ _ _ _ Hq1) as [(-> & -> & ->)|[Hn1 Hq1']], (Hcase _ _ _ _ Hq2) as [(-> & He & _)|[Hn2 Hq2']]; [done| | |by eapply (Hi b1 b2)].
    + exfalso. destruct (Hp _ _ _ _ Hb2 Hr2 Hq2') as [_ (_ & _ & Hin & _)]. done.
    + subst f'. exfalso. destruct (Hp _ _ _ _ Hb1 Hr1 Hq1') as [_ (_ & _ & Hin & _)]. done.
Qed.

(** ** The backends *)

Lemma alloc_frame_spec g o g' :
  alloc_ok (pg_alloc g) → alloc_frame true g = (o, g') →
  pg_pt g' = pg_pt g ∧ grown (pg_alloc g) (pg_alloc g') ∧
  match o with
  | Some f => owned (pg_alloc g') f ∧ (f + PHYS_VIRT_OFFSET, 1) ∉ palloc_blocks (palloc (pg_alloc g)) ∧
      pg_mem g' = mem_write (pg_mem g) (f + PHYS_VIRT_OFFSET) (replicate (Z.to_nat PAGE_SIZE_4K) 0)
  | None => pg_mem g' = pg_mem g
  end.
Proof.
  intros (Hok & Hd & Hal). unfold alloc_frame, alloc_pages. destruct (palloc_alloc_pages 1 PAGE_SIZE_4K (palloc (pg_alloc g))) as [r p] eqn:Hpa.
  pose proof (palloc_alloc_law 1 _ _ _ _ Hok ltac:(lia) Hpa) as (Hok' & Har & Hr). pose proof (palloc_arena_law _ Hok) as [Ha1 Ha2].
  destruct r as [v|e]; intros [= <- <-]; cbn [pg_pt pg_alloc pg_mem set_palloc palloc].
  - destruct Hr as (Hb & Hm & _ & Hw & Hdis). assert (covers (page_range (v, 1)) v) as Hv by (unfold covers, page_range, PAGE_SIZE; cbn; lia).
    pose proof (Hw v Hv) as [Hv1 Hv2]. unfold usize_mod in Ha2.
    assert (virt_to_phys v = v - PHYS_VIRT_OFFSET) as He by (unfold virt_to_phys; apply usub_small; lia). rewrite He.
    replace (v - PHYS_VIRT_OFFSET + PHYS_VIRT_OFFSET) with v by lia. split; [done|]. split; [|split; [|split; [|done]]].
    + intros _. split_and!; [done..|]. by exists [(v, 1)].
    + unfold owned. cbn. replace (v - PHYS_VIRT_OFFSET + PHYS_VIRT_OFFSET) with v by lia. rewrite Har, Hb. split_and!; [lia| |by left|done].
      unfold aligned in *. rewrite Zminus_mod, Hm, Hal. done.
    + intros Hin. by apply (Hdis _ Hin v).
  - split; [done|]. split; [|done]. intros _. split_and!; [done..|]. exists []. done.
Qed.

(** What was in the frames that were taken is still there. *)
Definition keeps_mem g g' : Prop :=
  ∀ f i, owned (pg_alloc g) f → 0 ≤ i < PAGE_SIZE_4K → pg_mem g' (f + PHYS_VIRT_OFFSET + i) = pg_mem g (f + PHYS_VIRT_OFFSET + i).
Definition zeroed g (f : Z) : Prop := ∀ i, 0 ≤ i < PAGE_SIZE_4K → pg_mem g (f + PHYS_VIRT_OFFSET + i) = 0.
Definition keeps_ready (p p' : PT) : Prop := ∀ b, pt_ready p b → pt_ready p' b.

Lemma keeps_mem_trans g1 g2 g3 :
  alloc_ok (pg_alloc g1) → grown (pg_alloc g1) (pg_alloc g2) → keeps_mem g1 g2 → keeps_mem g2 g3 → keeps_mem g1 g3.
Proof. intros Hok Hg H12 H23 f i Ho Hi. rewrite H23 by (done || by eapply grown_owned). by apply H12. Qed.
Lemma mem_write_out m addr bs x : x < addr ∨ addr + Z.of_nat (length bs) ≤ x → mem_write m addr bs x = m x.
Proof. intros Hx. unfold mem_write. repeat case_Z1; cbn; done || lia. Qed.
Lemma mem_write_in m addr bs i : (i < length bs)%nat → mem_write m addr bs (addr + Z.of_nat i) = default 0 (bs !! i).
Proof.
  intros Hi. unfold mem_write. rewrite (proj2 (Z.leb_le _ _)), (proj2 (Z.ltb_lt _ _)) by lia. cbn.
  by replace (Z.to_nat (addr + Z.of_nat i - addr)) with i by lia.
Qed.

Lemma alloc_frame_mem g f g' :
  alloc_ok (pg_alloc g) → alloc_frame true g = (Some f, g') → keeps_mem g g' ∧ zeroed g' f.
Proof.
  intros Hok Ha. destruct (alloc_frame_spec g _ g' Hok Ha) as (_ & _ & Ho & Hnew & Hm).
  split.
  - intros f' i Ho' Hi. rewrite Hm. apply mem_write_out. rewrite length_replicate, Z2Nat.id by done.
    assert (f ≠ f') as Hne by (intros <-; by destruct Ho' as (_ & _ & ? & _)).
    destruct (aligned_sep f f') as [Hs|Hs]; [apply Ho|apply Ho'|done|lia..].
  - intros i Hi. rewrite Hm. rewrite <-(Z2Nat.id i) by lia. rewrite mem_write_in; [|rewrite length_replicate; lia].
    by rewrite lookup_replicate_2 by lia.
Qed.

(** One populated page. *)
Lemma populate_page lo hi g f g1 va flags r pt' a' :
  frames_ok lo hi g → aligned va → alloc_frame true g = (Some f, g1) →
  pt_map va f Size4K flags (pg_pt g1) (pg_alloc g1) = (r, pt', a') →
  let g2 := {| pg_pt := pt'; pg_mem := pg_mem g1; pg_alloc := a' |} in
  frames_ok lo hi g2 ∧ grown (pg_alloc g) a' ∧ keeps_ready (pg_pt g) pt' ∧ keeps_mem g g2 ∧
  (∀ b, b ≠ va → pt_page pt' b = pt_page (pg_pt g) b) ∧
  if is_ok r then pt_page (pg_pt g) va = None ∧ pt_page pt' va = entry f flags Size4K ∧ zeroed g2 f ∧ owned a' f
  else pt_page pt' va = pt_page (pg_pt g) va.
Proof.
  intros Hfo Hva Hal Hmap g2. pose proof (fo_alloc _ _ _ Hfo) as Hok.
  destruct (alloc_frame_spec g _ g1 Hok Hal) as (Hpt & Hg1 & Ho & Hnew & _). destruct (alloc_frame_mem g f g1 Hok Hal) as [Hk Hz].
  rewrite Hpt in Hmap. destruct (pt_map_law _ _ _ _ _ _ _ _ Hva (proj1 (proj2 Ho)) Hmap) as (Hg2 & Hrd & Hr).
  pose proof (grown_trans _ _ _ Hg1 Hg2) as Hg. pose proof (grown_alloc_ok _ _ Hg1 Hok) as Hok1.
  assert (owned a' f) as Ho2 by (by apply (grown_owned (pg_alloc g1))). split; [|split; [done|split; [done|split; [done|]]]].
  - destruct r as [[]|e].
    + destruct Hr as [_ Hv]. by eapply (frames_ok_new_page lo hi g g2 va f flags).
    + apply (frames_ok_subview lo hi g g2); [done..|]. intros b f' fl sz _ _ Hp. exists fl. cbn in Hp. by rewrite Hr in Hp.
  - destruct r as [[]|e]; cbn [is_ok].
    + destruct Hr as [Hn Hv]. split; [|by rewrite Hv, bool_decide_true]. intros b Hb. by rewrite Hv, bool_decide_false.
    + split; [|done]. intros b _. apply Hr.
Qed.

Lemma populate_pages_spec lo hi pages flags g r g' :
  frames_ok lo hi g → Forall aligned pages → NoDup pages → populate_pages pages flags g = (r, g') →
  frames_ok lo hi g' ∧ grown (pg_alloc g) (pg_alloc g') ∧ keeps_ready (pg_pt g) (pg_pt g') ∧ keeps_mem g g' ∧
  (∀ b, b ∉ pages → pt_page (pg_pt g') b = pt_page (pg_pt g) b) ∧
  ∀ b, b ∈ pages → pt_page (pg_pt g') b = pt_page (pg_pt g) b ∨
    pt_page (pg_pt g) b = None ∧ ∃ f, pt_page (pg_pt g') b = entry f flags Size4K ∧ zeroed g' f.
Proof.
  revert g. induction pages as [|va pages IH]; intros g Hfo Hal Hnd Hp; cbn [populate_pages] in Hp.
  { injection Hp as <- <-. split_and!; [done|apply grown_refl|by intros ? ?|by intros ? ?|done|]. intros b Hb%not_elem_of_nil. done. }
  apply Forall_cons in Hal as [Hva Hal]. apply NoDup_cons in Hnd as [Hnin Hnd]. pose proof (fo_alloc _ _ _ Hfo) as Hok.
  destruct (alloc_frame true g) as [[f|] g1] eqn:Ha.
  - destruct (pt_map va f Size4K flags (pg_pt g1) (pg_alloc g1)) as [[r1 p1] a1] eqn:Hm.
    destruct (populate_page lo hi g f g1 va flags r1 p1 a1 Hfo Hva Ha Hm) as (Hfo2 & Hg2 & Hr2 & Hk2 & Ho2 & Hres).
    set (g2 := {| pg_pt := p1; pg_mem := pg_mem g1; pg_alloc := a1 |}) in *. destruct (is_ok r1).
    + destruct Hres as (Hn & Hpg & Hz & Hown).
      destruct (IH g2 Hfo2 Hal Hnd Hp) as (Hfo3 & Hg3 & Hr3 & Hk3 & Ho3 & Hin3). split_and!; [done| | | | |].
      * by eapply grown_trans.
      * intros b Hb. by apply Hr3, Hr2.
      * by eapply (keeps_mem_trans g g2).
      * intros b [Hb1 Hb2]%not_elem_of_cons. rewrite Ho3 by done. by apply Ho2.
      * intros b [->|Hb]%elem_of_cons.
        -- right. split; [done|]. exists f. rewrite Ho3 by done. split; [done|]. intros i Hi. rewrite (Hk3 f i) by done. by apply Hz.
        -- assert (b ≠ va) by (by intros ->). rewrite <-(Ho2 b) by done. by apply Hin3.
    + injection Hp as <- <-. split_and!; [done..| |].
      * intros b [Hb1 Hb2]%not_elem_of_cons. by apply Ho2.
      * intros b _. left. destruct (decide (b = va)) as [->|]; [done|by apply Ho2].
  - destruct (alloc_frame_spec g _ g1 Hok Ha) as (Hpt & Hg1 & Hm1).
    assert (frames_ok lo hi g1) as Hfo1.
    { apply (frames_ok_subview lo hi g g1); [done..|]. intros b f fl sz _ _. rewrite Hpt. by exists fl. }
    destruct (IH g1 Hfo1 Hal Hnd Hp) as (Hfo3 & Hg3 & Hr3 & Hk3 & Ho3 & Hin3). rewrite Hpt in Hr3, Ho3, Hin3. split_and!; [done| |done| | |].
    + by eapply grown_trans.
    + eapply (keeps_mem_trans g g1); [done..| |done]. intros f i _ _. by rewrite Hm1.
    + intros b [_ Hb]%not_elem_of_cons. by apply Ho3.
    + intros b [->|Hb]%elem_of_cons; [left; by apply Ho3|by apply Hin3].
Qed.

(** A page fault on a page whose tables exist. *)
Lemma page_fault_spec lo hi va flags g r g' :
  frames_ok lo hi g → in_usize va → lo ≤ va < hi → aligned lo → handle_page_fault_alloc va flags false g = (r, g') →
  frames_ok lo hi g' ∧ grown (pg_alloc g) (pg_alloc g') ∧ keeps_ready (pg_pt g) (pg_pt g') ∧ keeps_mem g g' ∧
  (∀ b, b ≠ page_of va → aligned b → lo ≤ b < hi → pt_page (pg_pt g') b = pt_page (pg_pt g) b) ∧
  match alloc_frame true g with
  | (None, _) => r = false
  | (Some f, _) => pt_ready (pg_pt g) (page_of va) → r = true ∧ pt_page (pg_pt g') (page_of va) = entry f flags Size4K ∧ zeroed g' f
  end.
Proof.
  intros Hfo Hva Hr Hlo Hf. pose proof (fo_alloc _ _ _ Hfo) as Hok. unfold handle_page_fault_alloc in Hf. destruct (alloc_frame true g) as [[f|] g1] eqn:Ha.
  - destruct (alloc_frame_spec g _ g1 Hok Ha) as (Hpt & Hg1 & Ho & Hnew & _). destruct (alloc_frame_mem g f g1 Hok Ha) as [Hk Hz].
    destruct (pt_remap va f flags (pg_pt g1)) as [r1 p1] eqn:Hrm. injection Hf as <- <-. rewrite Hpt in Hrm.
    destruct (pt_remap_law _ _ _ _ _ _ Hva (proj1 (proj2 Ho)) Hrm) as (Hrd & Hsm & Hv).
    assert (lo ≤ page_of va < hi) as Hrp.
    { pose proof (page_of_bounds va). destruct (decide (lo ≤ page_of va)); [lia|]. exfalso.
      destruct (aligned_sep lo (page_of va)); [done|apply page_of_aligned|lia..]. }
    assert (∀ s, r1 = Ok s → s = Size4K) as Hsmall.
    { intros s ->. destruct s; [done|..]; destruct Hv as (f' & fl' & Hpg); by destruct (fo_page _ _ _ Hfo _ _ _ _ (page_of_aligned va) Hrp Hpg). }
    destruct r1 as [s|e].
    + rewrite (Hsmall s eq_refl) in *. cbn [is_ok]. split_and!; [|done..| |].
      * by eapply (frames_ok_new_page lo hi g _ (page_of va) f flags).
      * intros b Hb _ _. cbn. by rewrite Hv, bool_decide_false.
      * intros _. split; [done|]. cbn. split; [by rewrite Hv, bool_decide_true|done].
    + split_and!; [|done..| |].
      * apply (frames_ok_subview lo hi g (set_pt p1 g1)); [done..|]. intros b f' fl sz _ _. cbn. rewrite Hv. by exists fl.
      * intros b _ _ _. cbn. apply Hv.
      * intros Hready. discriminate (Hsm Hready).
  - destruct (alloc_frame_spec g _ g1 Hok Ha) as (Hpt & Hg1 & Hm1). injection Hf as <- <-. split_and!; [|done| | | |done].
    + apply (frames_ok_subview lo hi g g1); [done..|]. intros b f fl sz _ _. rewrite Hpt. by exists fl.
    + intros b. by rewrite Hpt.
    + intros f i _ _. by rewrite Hm1.
    + intros b _ _ _. by rewrite Hpt.
Qed.
End invariant.

(** * Reading and writing through the page table *)

Section bytes.
Context {B P PT : Type} {pa : PageAllocator P} {pal : PageAllocatorLaws P} {cfg : MemConfig} {ma : MemoryAddr} {mal : MemoryAddrLaws}.
Context {ptab : PageTable PT (GlobalAllocator B P)} {ptl : PageTableLaws B P PT}.

(** Where the byte at [va] is in the linear mapping. *)
Definition kaddr (p : PT) (va : Z) : Z :=
  match pt_page p (page_of va) with Some (f, _, _) => f + PHYS_VIRT_OFFSET + va mod PAGE_SIZE_4K | None => 0 end.
(** The page is present and its frame can be addressed. *)
Definition reachable (p : PT) (b : Z) : Prop :=
  ∃ f fl s, pt_page p b = Some (f, fl, s) ∧ 0 ≤ f ∧ 0 ≤ PHYS_VIRT_OFFSET ∧ f + PHYS_VIRT_OFFSET + PAGE_SIZE_4K < 2 ^ 64.

Lemma kaddr_page p b f fl s i : aligned b → 0 ≤ i < PAGE_SIZE_4K → pt_page p b = Some (f, fl, s) → kaddr p (b + i) = f + PHYS_VIRT_OFFSET + i.
Proof.
  intros Hb Hi Hp. unfold kaddr. rewrite (page_of_in b) by (done || lia). rewrite Hp.
  assert (page_of (b + i) = b) as Hpo by (apply page_of_in; [done|lia]). unfold page_of in Hpo. lia.
Qed.

Lemma process_pages_steps {T} p start sz (f : Z → Z → Z → T → T) (I : Z → T → Prop) n v cnt t :
  in_usize start → 0 ≤ sz → start + sz < 2 ^ 64 → 0 ≤ v → v + PAGE_SIZE_4K * Z.of_nat n < 2 ^ 64 → aligned v → 0 ≤ cnt ≤ sz →
  start + sz ≤ v + PAGE_SIZE_4K * Z.of_nat n → (n ≠ 0%nat → v + PAGE_SIZE_4K * (Z.of_nat n - 1) < start + sz) →
  cnt = 0 ∧ v = page_of start ∨ 0 < cnt ∧ start + cnt = v ∨ n = 0%nat ∧ cnt = sz →
  (∀ b, b ∈ pages_from v n → pt_page p b = None ∨ reachable p b) →
  (∀ cnt n t, 0 ≤ cnt → 0 < n → cnt + n ≤ sz → (∀ i, 0 ≤ i < n → kaddr p (start + (cnt + i)) = kaddr p (start + cnt) + i) →
     I cnt t → I (cnt + n) (f (kaddr p (start + cnt)) cnt n t)) →
  I cnt t → ∃ r t' c, process_pages p start sz f (pages_from v n) cnt t = (r, t') ∧ I c t' ∧ 0 ≤ c ≤ sz ∧
    match r with
    | Ok _ => c = sz ∧ ∀ b, b ∈ pages_from v n → pt_page p b ≠ None
    | Err e => e = AxError.BadAddress ∧ ∃ b, b ∈ pages_from v n ∧ pt_page p b = None
    end.
Proof.
  intros Hst Hsz Hend. unfold in_usize in Hst. revert v cnt t. induction n as [|n IH]; intros v cnt t Hv Hvn Hal Hcnt Hcov Hlast Hpos Hreach Hstep HI.
  { exists (Ok tt), t, cnt. pose proof (page_of_bounds start). split_and!; [done|done|lia|lia|lia|]. by intros b Hb%not_elem_of_nil. }
  rewrite pages_from_S in *. cbn [process_pages]. pose proof (pt_query_law p v) as Hq. rewrite page_of_id in Hq by done.
  destruct (Hreach v) as [Hnone|(fr & fl & s & Hpg & Hf0 & Hoff & Hfw)]; [by left| |].
  { rewrite Hnone in Hq. destruct Hq as [e ->]; [unfold in_usize; plia|]. exists (Err AxError.BadAddress), t, cnt. split_and!; [done|done|lia|lia|done|].
    exists v. split; [by left|done]. }
  rewrite Hpg in Hq. rewrite Hq by (unfold in_usize; plia).
  rewrite Hal, Z.add_0_r. rewrite usub_small by lia.
  destruct (Z.eqb_spec (Z.min (sz - cnt) PAGE_SIZE_4K) 0) as [He|He].
  { exists (Ok tt), t, cnt. split_and!; [done|done|lia|lia|plia|]. assert (n = 0%nat) as ->.
    { specialize (Hlast ltac:(lia)). pose proof (page_of_bounds start). plia. }
    intros b [->|Hb%not_elem_of_nil]%elem_of_cons; [by rewrite Hpg|done]. }
  set (o := start + cnt - v). assert (0 ≤ o < PAGE_SIZE_4K ∧ (0 < cnt → o = 0)) as [Ho Ho0].
  { unfold o. pose proof (page_of_bounds start). destruct Hpos as [[-> ->]|[[? ?]|[? ?]]]; [lia| |done]. unfold PAGE_SIZE_4K. lia. }
  unfold align_down_4k. rewrite align_offset_law, (align_down_law start PAGE_SIZE_4K) by (done || by exists 12). fold (page_of start).
  assert (start + cnt = v + o) as Hso by lia. 
  assert ((if (v =? page_of start) && negb (start mod PAGE_SIZE_4K =? 0)
    then (Z.min (Z.min (sz - cnt) PAGE_SIZE_4K) (usub PAGE_SIZE_4K (start mod PAGE_SIZE_4K)), uadd fr (start mod PAGE_SIZE_4K))
    else (Z.min (sz - cnt) PAGE_SIZE_4K, fr)) = (Z.min (sz - cnt) (PAGE_SIZE_4K - o), fr + o)) as ->.
  { destruct Hpos as [[-> ->]|[[Hc Hsv]|[? ?]]]; [| |done].
    - rewrite Z.eqb_refl. assert (start mod PAGE_SIZE_4K = o) as -> by (unfold o, page_of; lia). destruct (Z.eqb_spec o 0) as [->|Hone]; cbn [negb andb].
      + by rewrite Z.sub_0_r, Z.add_0_r.
      + rewrite usub_small, uadd_small by (unfold PAGE_SIZE_4K in *; lia). f_equal. lia.
    - rewrite (proj2 (Z.eqb_neq v (page_of start))) by (pose proof (page_of_bounds start); lia). cbn. rewrite Ho0 by done. by rewrite Z.sub_0_r, Z.add_0_r. }
  set (k := Z.min (sz - cnt) (PAGE_SIZE_4K - o)). assert (0 < k) as Hk by lia. rewrite uadd_small by lia.
  assert (∀ i, 0 ≤ i < k → kaddr p (start + (cnt + i)) = fr + PHYS_VIRT_OFFSET + o + i) as Hka.
  { intros i Hi. replace (start + (cnt + i)) with (v + (o + i)) by lia. rewrite (kaddr_page p v fr fl s) by (done || lia). lia. }
  assert (kaddr p (start + cnt) = fr + PHYS_VIRT_OFFSET + o) as Hk0 by (pose proof (Hka 0); rewrite !Z.add_0_r in *; lia).
  assert (phys_to_virt (fr + o) = kaddr p (start + cnt)) as ->.
  { rewrite Hk0. unfold phys_to_virt. rewrite uadd_small by lia. lia. }
  edestruct (IH (v + PAGE_SIZE_4K) (cnt + k)) as (r & t' & c & Hpp & HIc & Hc & Hr);
    [plia|plia| |plia|plia| | |intros b Hb; apply Hreach; by right|done| |].
  - rewrite <-(Z.mul_1_r PAGE_SIZE_4K). by apply aligned_add.
  - intros Hn. specialize (Hlast ltac:(lia)). plia.
  - destruct n as [|n]; [|specialize (Hlast ltac:(lia)); right; left; plia]. destruct (decide (k = sz - cnt)); [right; right; lia|]. right. left. plia.
  - apply Hstep; [lia..| |exact HI]. intros i Hi. rewrite Hka, Hk0 by done. lia.
  - exists r, t', c. split; [exact Hpp|]. split; [done|]. split; [done|]. destruct r as [[]|e].
    + destruct Hr as [-> Hall]. split; [done|]. intros b [->|Hb]%elem_of_cons; [by rewrite Hpg|by apply Hall].
    + destruct Hr as (-> & b & Hb & Hn). split; [done|]. exists b. split; [by right|done].
Qed.
End bytes.
