(* ===== verification/AxmmSpace.v ===== *)
(** The theorems on whole address spaces: the invariant [uspace_ok] and what the methods
    of [AddrSpace] do to it, on top of the lemmas of [AxmmProps.v]. *)

From stdpp Require Import prelude gmap list.
From Stdlib Require Import ZArith Lia.
From S2P Require Import Prelude Axalloc Axmm AxmmProps.
Local Open Scope Z_scope.
Local Open Scope kernel_scope.

Section space.
Context {B P PT MS : Type} {pa : PageAllocator P} {pal : PageAllocatorLaws P} {cfg : MemConfig} {ma : MemoryAddr} {mal : MemoryAddrLaws}.
Context {ptab : PageTable PT (GlobalAllocator B P)} {ptl : PageTableLaws B P PT} {mset : MemorySet MS} {msl : MemorySetLaws MS}.
Implicit Types (s : space B P PT MS).

Abbreviation lo s := (base (sp_as s)).
Abbreviation hi s := (end_ (sp_as s)).
Abbreviation page s b := (pt_page (pt (sp_as s)) b).
Abbreviation area_list s := (ms_areas (areas (sp_as s))).

Definition area_ok s (x : MemoryArea) : Prop :=
  lo s ≤ area_start x ∧ area_start x + area_size x ≤ hi s ∧ aligned (area_start x) ∧ aligned (area_size x) ∧ 0 < area_size x.
Record uspace_ok s : Prop := {
  uo_frames : frames_ok (lo s) (hi s) (sp_paging s);
  uo_range : 0 ≤ lo s ∧ lo s ≤ hi s ∧ hi s < 2 ^ 64 ∧ aligned (lo s) ∧ aligned (hi s);
  uo_areas x : x ∈ area_list s → area_ok s x;
  uo_disjoint : pairwise (λ x y, areas_overlap x y = false) (area_list s);
  uo_ready x b : x ∈ area_list s → area_backend x = Alloc false → aligned b → area_has x b → pt_ready (pt (sp_as s)) b;
}.

(** Nothing but the page table, memory and allocator has changed, and the table keeps
    its own tables. *)
Lemma uspace_ok_paging s g :
  uspace_ok s → frames_ok (lo s) (hi s) g → keeps_ready (pt (sp_as s)) (pg_pt g) → uspace_ok (with_paging g s).
Proof. intros [Hf Hr Ha Hd Hrd] Hf' Hk. split; [by destruct g|done|done|done|]. intros x b Hx Hb Hal Hin. by apply Hk, (Hrd x b). Qed.

(** ** The checks *)

Definition in_space s (start sz : Z) : bool := (lo s <=? start) && (start + sz <=? hi s).
Lemma check_range_eq s start sz :
  in_usize start → in_usize sz → start + sz < 2 ^ 64 →
  check_range start sz s = Ret (if in_space s start sz then Ok tt else Err AxError.InvalidInput, s).
Proof.
  intros Hst Hsz Hend. unfold check_range, contains_range. rewrite from_start_size_law by done. rewrite (proj2 (Z.ltb_lt _ _)) by done.
  rewrite contains_range_law. cbn. fold (base (sp_as s)). fold (end_ (sp_as s)). unfold in_space. by destruct (_ && _).
Qed.
Lemma check_range_overflow s start sz : in_usize start → in_usize sz → 2 ^ 64 ≤ start + sz → check_range start sz s = Panic.
Proof.
  intros Hst Hsz Hend. unfold check_range, contains_range. rewrite from_start_size_law by done. by rewrite (proj2 (Z.ltb_ge _ _)).
Qed.

(** The range and the alignment that [map_alloc], [unmap] and [protect] check. *)
Definition good_range s (start sz : Z) : bool := in_space s start sz && ((start mod PAGE_SIZE_4K =? 0) && (sz mod PAGE_SIZE_4K =? 0)).
Lemma checked s start sz (k : SM (space B P PT MS) AxError.t unit) :
  in_usize start → in_usize sz → start + sz < 2 ^ 64 →
  (do! check_range start sz in do! check_aligned (is_aligned_4k start && is_aligned_4k sz) in k) s =
  if good_range s start sz then k s else Ret (Err AxError.InvalidInput, s).
Proof.
  intros Hst Hsz Hend. unfold sm_bind at 1. rewrite check_range_eq by done. unfold good_range.
  destruct (in_space s start sz); [|done]. cbn [andb]. unfold sm_bind. rewrite !is_aligned_law by done. by destruct (_ && _).
Qed.
Lemma good_range_spec s start sz : uspace_ok s → 0 ≤ start → 0 ≤ sz → good_range s start sz = true →
  lo s ≤ start ∧ start + sz ≤ hi s ∧ aligned start ∧ aligned sz.
Proof.
  intros Hu Hst Hsz. unfold good_range, in_space. rewrite !andb_true_iff. intros [[H1%Z.leb_le H2%Z.leb_le] [H3%Z.eqb_eq H4%Z.eqb_eq]]. done.
Qed.
Lemma region_in s start sz b : lo s ≤ start → start + sz ≤ hi s → in_region start sz b → lo s ≤ b < hi s.
Proof. unfold in_region. lia. Qed.

(** ** [map_alloc] *)

Lemma pages_from_props start n : aligned start →
  Forall aligned (pages_from start n) ∧ NoDup (pages_from start n) ∧
  ∀ b, b ∈ pages_from start n ↔ aligned b ∧ in_region start (PAGE_SIZE_4K * Z.of_nat n) b.
Proof.
  intros Hal. split_and!.
  - apply Forall_forall. intros x (i & _ & ->)%elem_of_pages_from. by apply aligned_add.
  - apply NoDup_fmap; [|apply NoDup_seq]. intros i j Hij. plia.
  - intros b. rewrite elem_of_pages_from. unfold in_region. split.
    + intros (i & Hi & ->). split; [by apply aligned_add|plia].
    + intros [Hb Hr]. unfold aligned in *. exists ((b - start) / PAGE_SIZE_4K).
      assert ((b - start) mod PAGE_SIZE_4K = 0) as Hm by (rewrite Zminus_mod, Hal, Hb; done).
      apply Z.div_exact in Hm; [|done]. split; [|lia]. split; [apply Z.div_pos; plia|apply Z.div_lt_upper_bound; plia].
Qed.
Lemma size_pages sz : 0 ≤ sz → aligned sz → sz = PAGE_SIZE_4K * Z.of_nat (Z.to_nat (sz / PAGE_SIZE_4K)).
Proof. intros Hsz Hal. rewrite Z2Nat.id by (apply Z.div_pos; plia). apply Z.div_exact; [done|exact Hal]. Qed.

(** The pages of the region after a populated mapping: new ones are zero. *)
Definition populated (start sz flags : Z) (g g' : paging B P PT) : Prop :=
  ∀ b, aligned b → in_region start sz b → pt_page (pg_pt g') b = pt_page (pg_pt g) b ∨
    pt_page (pg_pt g) b = None ∧ ∃ f, pt_page (pg_pt g') b = entry f flags Size4K ∧ zeroed g' f.
(** What [map] of the allocating backend may do. *)
Record mapped_by (l h start sz flags : Z) (pop : bool) (r : bool) (g g' : paging B P PT) : Prop := {
  mb_frames : frames_ok l h g';
  mb_ready : keeps_ready (pg_pt g) (pg_pt g');
  mb_mem : keeps_mem g g';
  mb_out b : aligned b → ¬ in_region start sz b → pt_page (pg_pt g') b = pt_page (pg_pt g) b;
  mb_in : if pop then populated start sz flags g g'
          else ∀ b, aligned b → in_region start sz b → pt_page (pg_pt g') b = pt_page (pg_pt g) b;
  mb_lazy b : pop = false → r = true → aligned b → in_region start sz b → pt_ready (pg_pt g') b;
}.
Lemma backend_map_spec l h start sz flags pop g :
  frames_ok l h g → in_usize start → 0 ≤ sz → start + sz < 2 ^ 64 → aligned start → aligned sz →
  ∃ r g', backend_map (new_alloc pop) start sz flags g = Ret (r, g') ∧ mapped_by l h start sz flags pop r g g'.
Proof.
  intros Hfo Hst Hsz Hend Has Haz. unfold in_usize in Hst. cbn [backend_map new_alloc]. unfold map_alloc_backend. destruct pop.
  - rewrite uadd_small by lia. rewrite (size_pages sz) by done. set (n := Z.to_nat _). assert (sz = PAGE_SIZE_4K * Z.of_nat n) as Hn by (by apply size_pages).
    rewrite page_iter_law by (done || lia || unfold in_usize; lia). destruct (pages_from_props start n Has) as (Hal & Hnd & Hin). rewrite <-Hn in Hin |- *.
    destruct (populate_pages (pages_from start n) flags g) as [r g'] eqn:Hp. exists r, g'. split; [done|].
    destruct (populate_pages_spec l h _ flags g r g' Hfo Hal Hnd Hp) as (Hfo' & _ & Hr & Hk & Ho & Hi).
    split; [done..| | |done].
    + intros b Hb Hnr. apply Ho. rewrite Hin. tauto.
    + intros b Hb Hir. apply Hi. by rewrite Hin.
  - unfold map_region_ok. destruct (pt_map_region start (λ _, 0) sz 0 false (pg_pt g) (pg_alloc g)) as [[r p] a] eqn:Hm.
    apply pt_map_region_law in Hm as (Hg & Hrd & Hout & Hin); [|done..|by intros]. 
    assert (∀ b, aligned b → in_region start sz b → pt_page p b = pt_page (pg_pt g) b) as Hsame.
    { intros b Hb Hir. destruct r as [[]|e]; [by destruct (Hin b Hb Hir) as (-> & -> & _)|]. destruct (Hin b Hb Hir) as [->|[-> ->]]; done. }
    eexists _, _. split; [done|]. split; [|done|by intros ? ?|done|done|].
    + apply (frames_ok_subview l h g); [done..|]. intros b f fl s Hb _ Hp. exists fl. cbn in Hp.
      destruct (decide (in_region start sz b)); [by rewrite Hsame in Hp|by rewrite Hout in Hp].
    + intros b _ Hr Hb Hir. destruct r as [[]|e]; [|done]. by apply Hin.
Qed.

Lemma overlap_none x l : existsb (areas_overlap x) l = false → ∀ y, y ∈ l → areas_overlap x y = false.
Proof.
  intros He y Hy. destruct (areas_overlap x y) eqn:Hxy; [|done]. exfalso. apply not_true_iff_false in He. apply He, existsb_exists.
  exists y. split; [by apply list_elem_of_In|done].
Qed.
Lemma areas_overlap_sym x y : areas_overlap x y = areas_overlap y x.
Proof. unfold areas_overlap. apply andb_comm. Qed.

Lemma same_space s :
  {| sp_as := {| va_range := va_range (sp_as s); areas := areas (sp_as s); pt := pg_pt (sp_paging s) |};
     sp_mem := pg_mem (sp_paging s); sp_alloc := pg_alloc (sp_paging s) |} = s.
Proof. by destruct s as [[]]. Qed.

Lemma map_alloc_spec s start sz flags pop :
  uspace_ok s → in_usize start → in_usize sz → start + sz < 2 ^ 64 →
  let area := {| area_start := start; area_size := sz; area_flags := flags; area_backend := Alloc pop |} in
  ∃ r s', map_alloc start sz flags pop s = Ret (r, s') ∧ uspace_ok s' ∧ va_range (sp_as s') = va_range (sp_as s) ∧
    (if good_range s start sz
     then ∃ ok, mapped_by (lo s) (hi s) start sz flags pop ok (sp_paging s) (sp_paging s') ∧ (r = Ok tt → ok = true) ∨ sp_paging s' = sp_paging s ∧ r ≠ Ok tt
     else s' = s ∧ r = Err AxError.InvalidInput) ∧
    (r = Ok tt → good_range s start sz = true ∧ 0 < sz ∧ area_list s' ≡ₚ area :: area_list s ∧ existsb (areas_overlap area) (area_list s) = false) ∧
    (r ≠ Ok tt → areas (sp_as s') = areas (sp_as s)).
Proof.
  intros Hu Hst Hsz Hend area. unfold map_alloc. rewrite checked by done. destruct (good_range s start sz) eqn:Hgr.
  2: { eexists _, s. split; [done|]. by split_and!. }
  destruct (good_range_spec s start sz Hu) as (Hlo & Hhi & Has & Haz); [unfold in_usize in *; lia..|done|].
  pose proof (ms_map_law _ area (backend_map (new_alloc pop) start sz flags) (areas (sp_as s)) (sp_paging s)) as Hm.
  cbn [area_size area] in Hm. change (new_alloc pop) with (Alloc pop) in *. fold area.
  destruct (Z.eqb_spec sz 0) as [->|Hne].
  { rewrite Hm, same_space. eexists _, s. split; [done|]. split; [done|]. split; [done|]. split; [exists true; by right|]. split; [intros [=]|done]. }
  destruct (existsb (areas_overlap area) (ms_areas (areas (sp_as s)))) eqn:Hov.
  { rewrite Hm, same_space. eexists _, s. split; [done|]. split; [done|]. split; [done|]. split; [exists true; by right|]. split; [intros [=]|done]. }
  destruct (backend_map_spec (lo s) (hi s) start sz flags pop (sp_paging s)) as (r & g' & Hb & Hmb); [apply Hu|done|unfold in_usize in *; lia|done..|].
  change (new_alloc pop) with (Alloc pop) in Hb. rewrite Hb in Hm. pose proof (uspace_ok_paging s g' Hu (mb_frames _ _ _ _ _ _ _ _ _ Hmb) (mb_ready _ _ _ _ _ _ _ _ _ Hmb)) as Hu'.
  destruct r.
  - destruct Hm as (ms' & -> & Hperm). eexists _, _. split; [done|]. split; [|split; [done|split; [|split; [|by intros []]]]].
    + destruct Hu' as [Hf Hr Ha Hd Hrd]. split; [by destruct g'|done| | |]; cbn.
      * intros x. rewrite Hperm. intros [->|Hx]%elem_of_cons; [|by apply Ha]. unfold in_usize in Hsz. split_and!; cbn; done || lia.
      * assert (Symmetric (λ x y, areas_overlap x y = false)) by (intros x y; by rewrite areas_overlap_sym).
        apply (pairwise_perm _ (area :: area_list s)); [done|]. apply pairwise_cons. split; [by apply overlap_none|apply Hu].
      * intros x b. rewrite Hperm. intros [->|Hx]%elem_of_cons Hbk Hb' Hin; [|by apply (Hrd x b)].
        cbn in Hbk. injection Hbk as ->. by apply (mb_lazy _ _ _ _ _ _ _ _ _ Hmb).
    + exists true. left. split; [by destruct g'|done].
    + intros _. split_and!; [done| |done|done]. unfold in_usize in Hsz. lia.
  - rewrite Hm. eexists _, _. split; [done|]. split; [done|]. split; [done|]. split; [|by split].
    exists false. left. split; [by destruct g'|done].
Qed.

(** ** [unmap] and [protect] *)

Lemma space_small s start sz : uspace_ok s → lo s ≤ start → start + sz ≤ hi s → small_pages (pt (sp_as s)) start sz.
Proof. intros Hu Hlo Hhi b f fl x Hb Hin Hp. by eapply (fo_page _ _ _ (uo_frames s Hu)), Hp; [|eapply region_in]. Qed.

(** A change of the page table that only takes pages away or changes their flags. *)
Lemma on_pt_spec s (f : PT → result unit PagingError * PT) :
  uspace_ok s →
  (∀ r p, f (pt (sp_as s)) = (r, p) → keeps_ready (pt (sp_as s)) p ∧ subview (lo s) (hi s) (pt (sp_as s)) p) →
  ∃ r p, f (pt (sp_as s)) = (r, p) ∧
    on_pt f s = Ret (map_err paging_err_to_ax_err r, with_paging (set_pt p (sp_paging s)) s) ∧ uspace_ok (with_paging (set_pt p (sp_paging s)) s).
Proof.
  intros Hu Hf. unfold on_pt. destruct (f (pt (sp_as s))) as [r p] eqn:Hfp. destruct (Hf r p eq_refl) as [Hk Hs]. exists r, p. split; [done|]. split; [done|].
  apply uspace_ok_paging; [done| |done]. by apply (frames_ok_subview _ _ (sp_paging s)); [apply Hu|apply grown_refl|].
Qed.

Lemma unmap_spec s start sz :
  uspace_ok s → in_usize start → in_usize sz → start + sz < 2 ^ 64 →
  ∃ r s', unmap start sz s = Ret (r, s') ∧ uspace_ok s' ∧ sp_mem s' = sp_mem s ∧ sp_alloc s' = sp_alloc s ∧ areas (sp_as s') = areas (sp_as s) ∧ va_range (sp_as s') = va_range (sp_as s) ∧
    (∀ b, aligned b → ¬ (good_range s start sz = true ∧ in_region start sz b) → page s' b = page s b) ∧
    (r = Ok tt → ∀ b, aligned b → in_region start sz b → page s' b = None).
Proof.
  intros Hu Hst Hsz Hend. unfold unmap. rewrite checked by done. destruct (good_range s start sz) eqn:Hg; [|eexists _, s; by split_and!].
  destruct (good_range_spec s start sz Hu) as (Hlo & Hhi & Has & Haz); [unfold in_usize in *; lia..|done|].
  assert (0 ≤ sz) as Hsz0 by (unfold in_usize in *; lia). pose proof (space_small s start sz Hu Hlo Hhi) as Hsm.
  destruct (on_pt_spec s (pt_unmap_region start sz) Hu) as (r & p & Hp & -> & Hu').
  { intros r p Hp. apply pt_unmap_region_law in Hp as (Hk & Hout & Hin); [|done..]. split; [done|]. intros b f fl x Hb _ Hpg.
    destruct (decide (in_region start sz b)) as [Hir|]; [|exists fl; by rewrite <-Hout]. destruct (Hin b Hb Hir) as [Hn|[_ Hs]]; [congruence|].
    exists fl. congruence. }
  apply pt_unmap_region_law in Hp as (Hk & Hout & Hin); [|done..]. eexists _, _. split; [done|]. split; [done|]. split_and!; [done..| |].
  - intros b Hb Hnot. apply Hout; [done|]. tauto.
  - intros Hr b Hb Hir. destruct r as [[]|e]; [|done]. by destruct (Hin b Hb Hir) as [|[? _]].
Qed.

Lemma protect_spec s start sz flags :
  uspace_ok s → in_usize start → in_usize sz → start + sz < 2 ^ 64 →
  ∃ r s', protect start sz flags s = Ret (r, s') ∧ uspace_ok s' ∧ sp_mem s' = sp_mem s ∧ sp_alloc s' = sp_alloc s ∧ areas (sp_as s') = areas (sp_as s) ∧ va_range (sp_as s') = va_range (sp_as s) ∧
    (∀ b, aligned b → ¬ (good_range s start sz = true ∧ in_region start sz b) → page s' b = page s b) ∧
    (r = Ok tt → ∀ b, aligned b → in_region start sz b → page s' b = match page s b with Some (f, _, x) => entry f flags x | None => None end).
Proof.
  intros Hu Hst Hsz Hend. unfold protect. rewrite checked by done. destruct (good_range s start sz) eqn:Hg; [|eexists _, s; by split_and!].
  destruct (good_range_spec s start sz Hu) as (Hlo & Hhi & Has & Haz); [unfold in_usize in *; lia..|done|].
  assert (0 ≤ sz) as Hsz0 by (unfold in_usize in *; lia). pose proof (space_small s start sz Hu Hlo Hhi) as Hsm.
  destruct (on_pt_spec s (pt_protect_region start sz flags) Hu) as (r & p & Hp & -> & Hu').
  { intros r p Hp. apply pt_protect_region_law in Hp as (Hk & Hout & Hin); [|done..]. split; [done|]. intros b f fl x Hb _ Hpg.
    destruct (decide (in_region start sz b)) as [Hir|]; [|exists fl; by rewrite <-Hout]. destruct (Hin b Hb Hir) as [Hn|[_ Hs]]; [|exists fl; congruence].
    rewrite Hn in Hpg. destruct (pt_page (pt (sp_as s)) b) as [[[f' fl'] x']|]; [|done]. unfold entry in Hpg. destruct (flags =? 0); [done|].
    injection Hpg as -> _ ->. by exists fl'. }
  apply pt_protect_region_law in Hp as (Hk & Hout & Hin); [|done..]. eexists _, _. split; [done|]. split; [done|]. split_and!; [done..| |].
  - intros b Hb Hnot. apply Hout; [done|]. tauto.
  - intros Hr b Hb Hir. destruct r as [[]|e]; [|done]. by destruct (Hin b Hb Hir) as [|[? _]].
Qed.

(** ** Page faults *)

Lemma with_same_paging s : with_paging (sp_paging s) s = s.
Proof. by destruct s as [[]]. Qed.
Lemma area_unique s x y va : uspace_ok s → x ∈ area_list s → y ∈ area_list s → area_has x va → area_has y va → x = y.
Proof.
  intros Hu Hx Hy Hxv Hyv. assert (∀ a b, area_has a va → area_has b va → areas_overlap a b = true) as Hov.
  { unfold area_has, areas_overlap. intros a b ? ?. apply andb_true_iff. rewrite !Z.ltb_lt. lia. }
  destruct (ForallOrdPairs_In (uo_disjoint s Hu) x y) as [?|[Hd|Hd]]; [by apply list_elem_of_In..|done| |]; by rewrite Hov in Hd.
Qed.
(** The page of an address of an area is in the area. *)
Lemma area_page s x va : uspace_ok s → x ∈ area_list s → area_has x va → area_has x (page_of va).
Proof.
  intros Hu Hx Hh. destruct (uo_areas s Hu x Hx) as (_ & _ & Hal & _). unfold area_has in *. pose proof (page_of_bounds va).
  destruct (decide (area_start x ≤ page_of va)); [lia|]. destruct (aligned_sep (area_start x) (page_of va)); [done|apply page_of_aligned|lia..].
Qed.

Lemma handle_page_fault_spec s va access :
  uspace_ok s → in_usize va →
  ∃ r s', handle_page_fault va access s = (r, s') ∧ uspace_ok s' ∧ areas (sp_as s') = areas (sp_as s) ∧ va_range (sp_as s') = va_range (sp_as s) ∧
    keeps_mem (sp_paging s) (sp_paging s') ∧
    (∀ b, aligned b → lo s ≤ b < hi s → b ≠ page_of va → page s' b = page s b) ∧
    (r = true → ∃ x, x ∈ area_list s ∧ area_has x va ∧ area_backend x = Alloc false ∧ contains (area_flags x) access = true ∧
       ∃ f, page s' (page_of va) = entry f (area_flags x) Size4K ∧ zeroed (sp_paging s') f) ∧
    (∀ x, x ∈ area_list s → area_has x va → area_backend x = Alloc false → contains (area_flags x) access = true →
       fst (alloc_frame true (sp_paging s)) ≠ None → r = true).
Proof.
  intros Hu Hva. unfold handle_page_fault. rewrite range_contains_law. fold (lo s) (hi s).
  assert (∀ x, x ∈ area_list s → area_has x va → lo s ≤ va < hi s) as Hin.
  { intros x Hx Hh. destruct (uo_areas s Hu x Hx) as (? & ? & _). unfold area_has in Hh. lia. }
  destruct ((lo s <=? va) && (va <? hi s)) eqn:Hr; cbn [negb].
  2: { eexists false, s. split; [done|]. split_and!; [done..|by intros ? ?|done|done|]. intros x Hx Hh.
       pose proof (Hin x Hx Hh). apply andb_false_iff in Hr as [?%Z.leb_gt|?%Z.ltb_ge]; lia. }
  apply andb_true_iff in Hr as [Hr1%Z.leb_le Hr2%Z.ltb_lt]. destruct (ms_find (areas (sp_as s)) va) as [x|] eqn:Hfind.
  2: { eexists false, s. split; [done|]. split_and!; [done..|by intros ? ?|done|done|]. intros x Hx Hh. by destruct (ms_find_None _ _ _ Hfind Hx). }
  apply ms_find_Some in Hfind as [Hx Hxva].
  destruct (contains (area_flags x) access) eqn:Hacc.
  2: { eexists false, s. split; [done|]. split_and!; [done..|by intros ? ?|done|done|]. intros y Hy Hyva _ Hc.
       rewrite (area_unique s x y va Hu) in Hacc by done. congruence. }
  destruct (area_backend x) as [off|pop] eqn:Hbk; cbn [backend_handle_page_fault].
  { eexists false, _. split; [done|]. rewrite with_same_paging. split_and!; [done..|by intros ? ?|done|done|]. intros y Hy Hyva Hb.
    rewrite (area_unique s x y va Hu) in Hbk by done. congruence. }
  destruct pop.
  { eexists false, _. split; [done|]. rewrite with_same_paging. split_and!; [done..|by intros ? ?|done|done|]. intros y Hy Hyva Hb.
    rewrite (area_unique s x y va Hu) in Hbk by done. congruence. }
  destruct (handle_page_fault_alloc va (area_flags x) false (sp_paging s)) as [r g] eqn:Hpf.
  destruct (page_fault_spec (lo s) (hi s) va (area_flags x) (sp_paging s) r g) as (Hfo & _ & Hk & Hm & Ho & Hres); [apply Hu|done|done|apply Hu|done|].
  assert (pt_ready (pg_pt (sp_paging s)) (page_of va)) as Hready.
  { apply (uo_ready s Hu x); [done..|apply page_of_aligned|]. by apply (area_page s). }
  exists r, (with_paging g s). split; [done|]. split; [by apply uspace_ok_paging|]. split; [done|]. split; [done|]. split; [by destruct g|].
  split; [intros b Hb Hrb Hne; by apply Ho|]. destruct (alloc_frame true (sp_paging s)) as [[f|] g1] eqn:Haf.
  - destruct (Hres Hready) as (-> & Hp & Hz). split; [|done]. intros _. exists x. split_and!; [done..|]. exists f. by destruct g.
  - subst r. done.
Qed.

(** ** Reading and writing *)

(** The pages that hold the bytes [start, start + sz) are present. *)
Definition mapped_range s (start sz : Z) : Prop := ∀ b, aligned b → page_of start ≤ b < start + sz → page s b ≠ None.

Lemma access_pages {T} s start sz (f : Z → Z → Z → T → T) (I : Z → T → Prop) t :
  uspace_ok s → in_usize start → in_usize sz → in_space s start sz = true →
  (∀ cnt n t, 0 ≤ cnt → 0 < n → cnt + n ≤ sz →
     (∀ i, 0 ≤ i < n → kaddr (pt (sp_as s)) (start + (cnt + i)) = kaddr (pt (sp_as s)) (start + cnt) + i) →
     I cnt t → I (cnt + n) (f (kaddr (pt (sp_as s)) (start + cnt)) cnt n t)) →
  I 0 t →
  ∃ r t' c, process_area_data start sz f t s = Ret (r, t') ∧ I c t' ∧ 0 ≤ c ≤ sz ∧
    match r with Ok _ => c = sz ∧ mapped_range s start sz | Err e => e = AxError.BadAddress ∧ ¬ mapped_range s start sz end.
Proof.
  intros Hu Hst Hsz Hin Hstep HI. unfold in_usize in *. destruct (uo_range s Hu) as (H0 & H1 & H2 & Ha1 & Ha2).
  unfold in_space in Hin. apply andb_true_iff in Hin as [Hlo%Z.leb_le Hhi%Z.leb_le].
  assert (hi s + PAGE_SIZE_4K ≤ 2 ^ 64) as Htop.
  { destruct (aligned_sep (hi s) (2 ^ 64)); [done|done|lia|lia|]. plia. }
  unfold process_area_data, contains_range. rewrite from_start_size_law by (unfold in_usize; lia). rewrite (proj2 (Z.ltb_lt _ _)) by lia.
  rewrite contains_range_law. cbn [ar_start ar_end]. fold (base (sp_as s)). fold (end_ (sp_as s)).
  rewrite (proj2 (Z.leb_le _ _)), (proj2 (Z.leb_le _ _)) by lia. cbn [andb].
  unfold align_down_4k. rewrite align_down_law by (first [by exists 12 | unfold in_usize; lia]). fold (page_of start).
  rewrite uadd_small by lia. rewrite align_up_law by plia.
  set (q := (start + sz + (PAGE_SIZE_4K - 1)) / PAGE_SIZE_4K). set (k := start / PAGE_SIZE_4K).
  assert (page_of start = PAGE_SIZE_4K * k) as Hpk by (unfold page_of; pose proof (Z.div_mod start PAGE_SIZE_4K ltac:(done)); lia).
  assert (start + sz ≤ q * PAGE_SIZE_4K < start + sz + PAGE_SIZE_4K) as Hq.
  { pose proof (Z.div_mod (start + sz + (PAGE_SIZE_4K - 1)) PAGE_SIZE_4K ltac:(done)).
    pose proof (Z.mod_pos_bound (start + sz + (PAGE_SIZE_4K - 1)) PAGE_SIZE_4K ltac:(done)). fold q in H. lia. }
  pose proof (page_of_bounds start) as Hpb. pose proof (page_of_nonneg start ltac:(lia)) as Hpn.
  assert (k ≤ q) as Hkq by plia. set (n := Z.to_nat (q - k)).
  assert (q * PAGE_SIZE_4K = page_of start + PAGE_SIZE_4K * Z.of_nat n) as Hqn by (unfold n; plia). rewrite Hqn in Hq |- *.
  rewrite page_iter_law by (first [apply page_of_aligned | unfold in_usize; plia | plia]). destruct (pages_from_props (page_of start) n (page_of_aligned start)) as (_ & _ & Hpages).
  assert (∀ b, aligned b → page_of start ≤ b < start + sz ↔ b ∈ pages_from (page_of start) n) as Hequiv.
  { intros b Hb. rewrite Hpages. unfold in_region. split; [intros; split; [done|lia]|]. intros [_ Hbr]. split; [lia|].
    destruct (decide (b < start + sz)); [done|]. exfalso.
    destruct (aligned_sep b (page_of start + PAGE_SIZE_4K * Z.of_nat n)) as [?|?]; [done|by apply aligned_add, page_of_aligned|lia|plia|plia]. }
  edestruct (process_pages_steps (pt (sp_as s)) start sz f I n (page_of start) 0 t) as (r & t' & c & Hpp & HIc & Hc & Hr);
    [unfold in_usize; lia|lia|lia|done|plia|apply page_of_aligned|lia|lia|plia|by left| |done|done|].
  { intros b Hbp. assert (aligned b) as Hb by (by apply Hpages). apply Hequiv in Hbp; [|done]. destruct (pt_page (pt (sp_as s)) b) as [[[fr fl] x]|] eqn:Hpg; [right|by left].
    destruct (fo_page _ _ _ (uo_frames s Hu) b fr fl x Hb) as [_ Ho]; [|done|].
    - split; [|lia]. destruct (decide (lo s ≤ b)); [done|]. destruct (aligned_sep (lo s) b); [done..|lia|lia|plia].
    - exists fr, fl, x. split; [done|]. pose proof (owned_direct _ _ (fo_alloc _ _ _ (uo_frames s Hu)) Ho) as [? ?]. destruct Ho as (? & _).
      destruct (fo_alloc _ _ _ (uo_frames s Hu)) as (_ & ? & _). split; [lia|]. split; lia. }
  exists r, t', c. rewrite Hpp. split; [done|]. split; [done|]. split; [done|].
  destruct r as [[]|e].
  - destruct Hr as [-> Hall]. split; [done|]. intros b Hb Hr. apply Hall. by apply Hequiv.
  - destruct Hr as (-> & b & Hb & Hn). split; [done|]. intros Hm. assert (aligned b) as Hal by (by apply Hpages). apply (Hm b Hal); [by apply Hequiv|done].
Qed.

Abbreviation at_ s va := (kaddr (pt (sp_as s)) va).

(** Two addresses of the space are two bytes of memory. *)
Lemma kaddr_inj s va1 va2 :
  uspace_ok s → lo s ≤ va1 < hi s → lo s ≤ va2 < hi s → page s (page_of va1) ≠ None → page s (page_of va2) ≠ None →
  at_ s va1 = at_ s va2 → va1 = va2.
Proof.
  intros Hu Hr1 Hr2. destruct (uo_range s Hu) as (_ & _ & _ & Ha1 & _). unfold kaddr.
  destruct (page s (page_of va1)) as [[[f1 fl1] x1]|] eqn:Hp1; [|done]. destruct (page s (page_of va2)) as [[[f2 fl2] x2]|] eqn:Hp2; [|done]. intros _ _ Heq.
  assert (∀ va, lo s ≤ va < hi s → lo s ≤ page_of va < hi s) as Hpo.
  { intros va Hva. pose proof (page_of_bounds va). split; [|lia]. destruct (decide (lo s ≤ page_of va)); [done|].
    destruct (aligned_sep (lo s) (page_of va)); [done|apply page_of_aligned|lia..]. }
  pose proof (fo_page _ _ _ (uo_frames s Hu) _ _ _ _ (page_of_aligned va1) (Hpo _ Hr1) Hp1) as [_ (_ & Hf1 & _)].
  pose proof (fo_page _ _ _ (uo_frames s Hu) _ _ _ _ (page_of_aligned va2) (Hpo _ Hr2) Hp2) as [_ (_ & Hf2 & _)].
  pose proof (Z.mod_pos_bound va1 PAGE_SIZE_4K ltac:(done)). pose proof (Z.mod_pos_bound va2 PAGE_SIZE_4K ltac:(done)).
  destruct (decide (f1 = f2)) as [->|Hne]; [|destruct (aligned_sep f1 f2); [done..|lia|lia]].
  assert (page_of va1 = page_of va2) as Hpe by (eapply (fo_inj _ _ _ (uo_frames s Hu)); [apply page_of_aligned|apply page_of_aligned|by apply Hpo|by apply Hpo|done|done]).
  unfold page_of in Hpe. lia.
Qed.

Lemma mapped_page s start sz j : mapped_range s start sz → 0 ≤ j < sz → page s (page_of (start + j)) ≠ None.
Proof.
  intros Hm Hj. apply Hm; [apply page_of_aligned|]. pose proof (page_of_bounds (start + j)). split; [|lia].
  pose proof (page_of_bounds start). destruct (decide (page_of start ≤ page_of (start + j))); [done|].
  destruct (aligned_sep (page_of start) (page_of (start + j))); [apply page_of_aligned..|lia|lia|lia].
Qed.

Lemma write_spec s start buf :
  let sz := Z.of_nat (length buf) in
  uspace_ok s → in_usize start → in_usize sz → in_space s start sz = true →
  ∃ r s', write start buf s = Ret (r, s') ∧ sp_as s' = sp_as s ∧ sp_alloc s' = sp_alloc s ∧
    (∀ a, (∀ j, 0 ≤ j < sz → a ≠ at_ s (start + j)) → sp_mem s' a = sp_mem s a) ∧
    match r with
    | Ok _ => mapped_range s start sz ∧ ∀ j, (j < length buf)%nat → sp_mem s' (at_ s (start + Z.of_nat j)) = default 0 (buf !! j)
    | Err e => e = AxError.BadAddress ∧ ¬ mapped_range s start sz
    end.
Proof.
  intros sz Hu Hst Hsz Hin. unfold write. fold sz.
  set (ka j := at_ s (start + j)).
  set (I := λ (c : Z) (m : memory), (∀ a, (∀ j, 0 ≤ j < c → a ≠ ka j) → m a = sp_mem s a) ∧
    (mapped_range s start sz → ∀ j, (Z.of_nat j < c) → m (ka (Z.of_nat j)) = default 0 (buf !! j))).
  destruct (access_pages s start sz (λ dst offset n m, mem_write m dst (take (Z.to_nat n) (drop (Z.to_nat offset) buf))) I (sp_mem s)) as (r & m & c & -> & [HI1 HI2] & Hc & Hr); [done..| | |].
  { intros cnt n m Hcnt Hn Hle Hlin [HI1 HI2]. fold (ka cnt) in *.
    assert (length (take (Z.to_nat n) (drop (Z.to_nat cnt) buf)) = Z.to_nat n) as Hlen by (rewrite length_take, length_drop; lia).
    split.
    - intros a Ha. rewrite mem_write_out; [apply HI1; intros j Hj; apply Ha; lia|]. rewrite Hlen, Z2Nat.id by lia.
      destruct (decide (ka cnt ≤ a < ka cnt + n)); [|lia]. destruct (Ha (cnt + (a - ka cnt))); [lia|].
      change (a = at_ s (start + (cnt + (a - ka cnt)))). rewrite Hlin by lia. lia.
    - intros Hm j Hj. destruct (decide (Z.of_nat j < cnt)) as [Hlt|Hge].
      + rewrite mem_write_out; [by apply HI2|]. rewrite Hlen, Z2Nat.id by lia.
        destruct (decide (ka cnt ≤ ka (Z.of_nat j) < ka cnt + n)) as [Hk|]; [|lia]. exfalso.
        pose proof (Hlin (ka (Z.of_nat j) - ka cnt) ltac:(lia)) as He. unfold in_space in Hin. apply andb_true_iff in Hin as [?%Z.leb_le ?%Z.leb_le].
        assert (start + (cnt + (ka (Z.of_nat j) - ka cnt)) = start + Z.of_nat j); [|lia].
        apply (kaddr_inj s); [done|lia|lia|apply (mapped_page s start sz); [done|lia]|apply (mapped_page s start sz); [done|lia]|].
        rewrite He. change (at_ s (start + Z.of_nat j)) with (ka (Z.of_nat j)). lia.
      + replace (ka (Z.of_nat j)) with (ka cnt + Z.of_nat (j - Z.to_nat cnt)).
        * rewrite mem_write_in by lia. rewrite lookup_take_lt by lia. rewrite lookup_drop. do 2 f_equal. lia.
        * rewrite <-Hlin by lia. change (ka (Z.of_nat j)) with (at_ s (start + Z.of_nat j)). f_equal. lia. }
  { split; [done|]. intros _ j Hj. lia. }
  eexists _, _. split; [done|]. split; [done|]. split; [done|]. cbn. split.
  - intros a Ha. apply HI1. intros j Hj. apply Ha. lia.
  - destruct r as [[]|e]; [|done]. destruct Hr as [-> Hm]. split; [done|]. intros j Hj. apply HI2; [done|lia].
Qed.

Lemma read_spec s start buf :
  let sz := Z.of_nat (length buf) in
  uspace_ok s → in_usize start → in_usize sz → in_space s start sz = true →
  ∃ r buf', read start buf s = Ret (r, buf') ∧ length buf' = length buf ∧
    match r with
    | Ok _ => mapped_range s start sz ∧ ∀ j, (j < length buf)%nat → buf' !! j = Some (sp_mem s (at_ s (start + Z.of_nat j)))
    | Err e => e = AxError.BadAddress ∧ ¬ mapped_range s start sz
    end.
Proof.
  intros sz Hu Hst Hsz Hin. unfold read. fold sz.
  set (I := λ (c : Z) (b : list Z), length b = length buf ∧ ∀ j, (Z.of_nat j < c) → b !! j = Some (sp_mem s (at_ s (start + Z.of_nat j)))).
  destruct (access_pages s start sz (λ src offset n b, buf_write b (Z.to_nat offset) (mem_read (sp_mem s) src (Z.to_nat n))) I buf) as (r & b & c & -> & [HI1 HI2] & Hc & Hr); [done..| | |].
  { intros cnt n b Hcnt Hn Hle Hlin [HI1 HI2]. unfold buf_write. set (l := mem_read _ _ _).
    assert (length l = Z.to_nat n) as Hl by (unfold l, mem_read; by rewrite length_fmap, length_seq). split.
    - rewrite !length_app, length_take, length_drop. lia.
    - intros j Hj. destruct (decide (Z.of_nat j < cnt)).
      + rewrite lookup_app_l by (rewrite length_take; lia). rewrite lookup_take_lt by lia. by apply HI2.
      + rewrite lookup_app_r, length_take by (rewrite length_take; lia). rewrite Nat.min_l by lia. rewrite lookup_app_l by lia.
        unfold l, mem_read. rewrite list_lookup_fmap, lookup_seq_lt by lia. cbn. do 2 f_equal.
        rewrite <-Hlin by lia. f_equal. lia. }
  { split; [done|]. intros j Hj. lia. }
  eexists _, _. split; [done|]. split; [done|]. destruct r as [[]|e]; [|done]. destruct Hr as [-> Hm]. split; [done|]. intros j Hj. apply HI2. lia.
Qed.
End space.
