(* ===== verification/AxmmCalls.v ===== *)
(** The properties of the address spaces of [modules/axmm], from the lemmas of
    [AxmmSpace.v]: sequences of calls on a user address space, data written and read
    back, lazy and populated mappings, unmapping, and the kernel's linear mapping. *)

From stdpp Require Import prelude gmap list.
From Stdlib Require Import ZArith Lia.
From S2P Require Import Prelude Axalloc Axmm AxmmProps AxmmSpace.
Local Open Scope Z_scope.
Local Open Scope kernel_scope.

(** Calls on an address space. *)
Inductive space_call : Type :=
| CallMapAlloc (start sz flags : Z) (populate : bool)
| CallUnmap (start sz : Z)
| CallProtect (start sz flags : Z)
| CallFault (vaddr access : Z)
| CallWrite (start : Z) (buf : list Z)
| CallRead (start : Z) (buf : list Z).

Section calls.
Context {B P PT MS : Type} {pa : PageAllocator P} {pal : PageAllocatorLaws P} {cfg : MemConfig} {ma : MemoryAddr} {mal : MemoryAddrLaws} {mf : MappingFlags}.
Context {ptab : PageTable PT (GlobalAllocator B P)} {ptl : PageTableLaws B P PT} {mset : MemorySet MS} {msl : MemorySetLaws MS}.
Implicit Types (s : space B P PT MS) (a : AddrSpace PT MS) (g : GlobalAllocator B P).

Definition run_call (c : space_call) s : outcome (space B P PT MS) :=
  match c with
  | CallMapAlloc start sz flags pop => snd <$> map_alloc start sz flags pop s
  | CallUnmap start sz => snd <$> unmap start sz s
  | CallProtect start sz flags => snd <$> protect start sz flags s
  | CallFault vaddr access => Ret (snd (handle_page_fault vaddr access s))
  | CallWrite start buf => snd <$> write start buf s
  | CallRead start buf => (λ _, s) <$> read start buf s
  end.
Fixpoint run_calls (cs : list space_call) s : outcome (space B P PT MS) :=
  match cs with
  | [] => Ret s
  | c :: cs => match run_call c s with Ret s => run_calls cs s | Panic => Panic end
  end.
(** The range a call names does not wrap around. *)
Definition range_fits (start sz : Z) : Prop := in_usize start ∧ in_usize sz ∧ start + sz < 2 ^ 64.
Definition call_ok (c : space_call) : Prop :=
  match c with
  | CallMapAlloc start sz _ _ | CallUnmap start sz | CallProtect start sz _ => range_fits start sz
  | CallFault vaddr _ => in_usize vaddr
  | CallWrite start buf | CallRead start buf => range_fits start (Z.of_nat (length buf))
  end.

Lemma outside_space {T} s start sz (f : Z → Z → Z → T → T) t :
  range_fits start sz → in_space s start sz = false → process_area_data start sz f t s = Ret (Err AxError.InvalidInput, t).
Proof.
  intros (Hst & Hsz & Hend) Hout. unfold process_area_data, contains_range. rewrite from_start_size_law by done. rewrite (proj2 (Z.ltb_lt _ _)) by done.
  rewrite contains_range_law. cbn [ar_start ar_end]. fold (base (sp_as s)). fold (end_ (sp_as s)). unfold in_space in Hout. by rewrite Hout.
Qed.
Lemma uspace_ok_mem s s' : uspace_ok s → sp_as s' = sp_as s → sp_alloc s' = sp_alloc s → uspace_ok s'.
Proof.
  destruct s as [as1 m1 a1], s' as [as2 m2 a2]. intros [[Ha Hp Hi] Hr Hx Hd Hrd] Has Hal. cbn in Has, Hal. subst as2 a2. split; [by split|done..].
Qed.
Lemma run_call_ok c s : uspace_ok s → call_ok c → ∃ s', run_call c s = Ret s' ∧ uspace_ok s' ∧ va_range (sp_as s') = va_range (sp_as s).
Proof.
  intros Hu Hc. destruct c as [start sz flags pop|start sz|start sz flags|va acc|start buf|start buf]; cbn [run_call call_ok] in *.
  - destruct Hc as (? & ? & ?). destruct (map_alloc_spec s start sz flags pop Hu) as (r & s' & -> & Hu' & Hv & _); [done..|]. by exists s'.
  - destruct Hc as (? & ? & ?). destruct (unmap_spec s start sz Hu) as (r & s' & -> & Hu' & _ & _ & _ & Hv & _); [done..|]. by exists s'.
  - destruct Hc as (? & ? & ?). destruct (protect_spec s start sz flags Hu) as (r & s' & -> & Hu' & _ & _ & _ & Hv & _); [done..|]. by exists s'.
  - destruct (handle_page_fault_spec s va acc Hu Hc) as (r & s' & -> & Hu' & _ & Hv & _). by exists s'.
  - destruct (in_space s start (Z.of_nat (length buf))) eqn:Hin.
    + destruct (write_spec s start buf Hu) as (r & s' & -> & Has & Hal & _); [by destruct Hc as (? & ? & ?)..|done|]. exists s'. split; [done|]. split; [by eapply uspace_ok_mem|by rewrite Has].
    + unfold write. rewrite outside_space by done. eexists. split; [done|]. split; [by eapply uspace_ok_mem|done].
  - exists s. split; [|done]. destruct (in_space s start (Z.of_nat (length buf))) eqn:Hin.
    + by destruct (read_spec s start buf Hu) as (r & b & -> & _); [by destruct Hc as (? & ? & ?)..|done|].
    + unfold read. by rewrite outside_space.
Qed.

(** A user address space, as [new_user_aspace] makes it. *)
Lemma new_user_aspace_ok kernel g a g' mem :
  alloc_ok g → USER_ASPACE_SIZE + 2 ^ 39 ≤ base kernel → base kernel ≤ end_ kernel →
  new_user_aspace kernel g = Ret (Ok a, g') →
  uspace_ok {| sp_as := a; sp_mem := mem; sp_alloc := g' |} ∧ va_range a = {| ar_start := 0; ar_end := USER_ASPACE_SIZE |}.
Proof.
  intros Hok Hkb Hke. unfold new_user_aspace, new_empty. rewrite from_start_size_law by done. change (USER_ASPACE_BASE + USER_ASPACE_SIZE <? 2 ^ 64) with true. cbv iota.
  destruct (pt_try_new g) as [[p|e] g1] eqn:Hn; [|done]. destruct (pt_new_law g _ g1 Hn) as [Hg Hp]. unfold copy_mappings_from. cbn [va_range areas pt].
  destruct (range_overlaps _ _); [done|]. intros [= <- <-]. change (USER_ASPACE_BASE + USER_ASPACE_SIZE) with USER_ASPACE_SIZE. split; [|done].
  assert (∀ b, aligned b → 0 ≤ b < USER_ASPACE_SIZE → pt_page (pt_copy_from (pt kernel) (base kernel) (aspace_size kernel) p) b = None) as Hnone.
  { intros b Hb Hr. assert (0 ≤ aspace_size kernel) as Hsz.
    { unfold aspace_size. rewrite range_size_law by done. fold (base kernel) (end_ kernel). unfold base, end_ in *. lia. }
    destruct (pt_copy_law (pt kernel) (base kernel) (aspace_size kernel) p b) as [_ Ho]; [unfold USER_ASPACE_SIZE in *; lia|done|done|].
    rewrite Ho by lia. apply Hp. }
  split; unfold sp_paging, base, end_; cbn [sp_as va_range ar_start ar_end areas pt sp_mem sp_alloc].
  - split; cbn [pg_pt pg_alloc pg_mem].
    + by apply (grown_alloc_ok g).
    + intros b f fl sz Hb Hr. by rewrite Hnone.
    + intros b1 b2 f fl1 fl2 s1 s2 Hb1 Hb2 Hr1 Hr2. by rewrite Hnone.
  - done.
  - rewrite ms_new_law. by intros x Hx%not_elem_of_nil.
  - rewrite ms_new_law. constructor.
  - rewrite ms_new_law. by intros x b Hx%not_elem_of_nil.
Qed.


(** C8: What is written is read back: on a range whose pages are present, [write]
    succeeds, [read] of the range then gives the bytes written, every other byte of the
    space is as before, and so is its page table; on a range with a page that is not
    present both fail with [BadAddress]. *)
Theorem space_write_then_read s start buf old :
  let sz := Z.of_nat (length buf) in
  uspace_ok s → in_usize start → in_usize sz → in_space s start sz = true → length old = length buf →
  (mapped_range s start sz →
   ∃ s', write start buf s = Ret (Ok tt, s') ∧ uspace_ok s' ∧ sp_as s' = sp_as s ∧ read start old s' = Ret (Ok tt, buf) ∧
     ∀ va, base (sp_as s) ≤ va < end_ (sp_as s) → ¬ (start ≤ va < start + sz) → pt_page (pt (sp_as s)) (page_of va) ≠ None →
       sp_mem s' (kaddr (pt (sp_as s')) va) = sp_mem s (kaddr (pt (sp_as s)) va)) ∧
  (¬ mapped_range s start sz →
   (∃ s', write start buf s = Ret (Err AxError.BadAddress, s')) ∧ ∃ old', read start old s = Ret (Err AxError.BadAddress, old')).
Proof.
  intros sz Hu Hst Hsz Hin Hold. destruct (write_spec s start buf Hu Hst Hsz Hin) as (r & s' & Hw & Has & Hal & Hout & Hr).
  assert (uspace_ok s') as Hu' by (by eapply uspace_ok_mem). split; intros Hm.
  - destruct r as [[]|e]; [|tauto]. destruct Hr as [_ Hbytes]. exists s'. split; [done|]. split; [done|]. split; [done|].
    unfold sz in *. rewrite <-Hold in Hin, Hsz. split.
    + destruct (read_spec s' start old Hu' Hst Hsz) as (r & b & -> & Hlen & Hrd); [by unfold in_space in *; rewrite Has|].
      destruct r as [[]|e]; [|destruct Hrd as [_ Hn]; exfalso; apply Hn; unfold mapped_range in *; by rewrite Has, Hold].
      do 2 f_equal. apply list_eq_same_length with (n := length buf); [done|lia|]. intros i x y Hi Hx Hy.
      destruct Hrd as [_ Hrd]. rewrite Hrd in Hx by lia. injection Hx as <-. rewrite Has, Hbytes by done. by rewrite Hy.
    + intros va Hva Hno Hpg. rewrite Has. apply Hout. intros j Hj Heq. apply Hno.
      unfold in_space in Hin. apply andb_true_iff in Hin as [?%Z.leb_le ?%Z.leb_le]. rewrite Hold in *.
      apply (kaddr_inj s) in Heq; [lia|done|done|lia|done|]. by apply (mapped_page s start (Z.of_nat (length buf))).
  - destruct r as [[]|e]; [tauto|]. destruct Hr as [-> _]. split; [by exists s'|]. unfold sz in *. rewrite <-Hold in *.
    destruct (read_spec s start old Hu Hst Hsz Hin) as (r & b & -> & _ & Hrd). destruct r as [[]|e]; [tauto|]. destruct Hrd as [-> _]. by exists b.
Qed.

(** C33: A lazy mapping is served on demand: after [map_alloc] without [populate] has
    succeeded, no page of it is present, and a page fault in it, for an access its flags
    allow, is handled whenever the allocator has a frame; the page is then present with
    the flags of the mapping on a zeroed frame, and every other page is as before. *)
Theorem lazy_page_served s start sz flags s' va access :
  uspace_ok s → range_fits start sz → (∀ b, aligned b → in_region start sz b → pt_page (pt (sp_as s)) b = None) →
  map_alloc start sz flags false s = Ret (Ok tt, s') →
  start ≤ va < start + sz → contains flags access = true → flags ≠ 0 → fst (alloc_frame true (sp_paging s')) ≠ None →
  pt_page (pt (sp_as s')) (page_of va) = None ∧
  ∃ s'' f, handle_page_fault va access s' = (true, s'') ∧ uspace_ok s'' ∧
    pt_page (pt (sp_as s'')) (page_of va) = Some (f, flags, Size4K) ∧ zeroed (sp_paging s'') f ∧
    ∀ b, aligned b → base (sp_as s) ≤ b < end_ (sp_as s) → b ≠ page_of va → pt_page (pt (sp_as s'')) b = pt_page (pt (sp_as s')) b.
Proof.
  intros Hu (Hst & Hsz & Hend) Hfree Hmap Hva Hacc Hfl Hfr. destruct (map_alloc_spec s start sz flags false Hu Hst Hsz Hend) as (r & s1 & Hm & Hu' & Hv & Hpg & Hok & _).
  rewrite Hmap in Hm. injection Hm as <- <-. destruct (Hok eq_refl) as (Hgr & Hpos & Hperm & _). rewrite Hgr in Hpg.
  destruct (good_range_spec s start sz Hu) as (Hlo & Hhi & Has & Haz); [unfold in_usize in *; lia..|done|].
  destruct Hpg as [ok [[Hmb _]|[_ []]]]; [|done]. set (area := {| area_start := start |}) in *.
  assert (area ∈ ms_areas (areas (sp_as s'))) as Hin by (rewrite Hperm; by left).
  assert (area_has area (page_of va)) as Hpa by (by apply (area_page s')).
  split; [rewrite <-(Hfree (page_of va)); [apply (mb_in _ _ _ _ _ _ _ _ _ Hmb); [apply page_of_aligned|done]|apply page_of_aligned|done]|].
  destruct (handle_page_fault_spec s' va access Hu') as (r & s2 & Hf & Hu2 & _ & _ & _ & Hoth & Hserved & Hwill); [unfold in_usize in *; lia|].
  assert (r = true) as -> by (by apply (Hwill area)). destruct (Hserved eq_refl) as (x & Hx & Hxva & _ & _ & f & Hp & Hz).
  rewrite (area_unique s' x area va Hu') in Hp by done. cbn [area_flags area] in Hp. unfold entry in Hp. rewrite (proj2 (Z.eqb_neq flags 0)) in Hp by done.
  exists s2, f. split; [done|]. split; [done|]. split; [done|]. split; [done|]. intros b Hb Hr Hne. apply Hoth; [done| |done]. unfold base, end_ in *. by rewrite Hv.
Qed.

(** The allocator has no page left. *)
Definition exhausted g : Prop := ∃ e, palloc_alloc_pages 1 PAGE_SIZE_4K (palloc g) = (Err e, palloc g).
Lemma populate_exhausted pages flags (g : paging B P PT) : exhausted (pg_alloc g) → populate_pages pages flags g = (true, g).
Proof.
  intros [e He]. assert (alloc_frame true g = (None, g)) as Ha.
  { unfold alloc_frame, alloc_pages. rewrite He. by destruct g as [? ? []]. }
  induction pages as [|va pages IH]; [done|]. cbn [populate_pages]. by rewrite Ha.
Qed.

(** [map_alloc] with [populate] reports success when there are no frames: with an
    exhausted allocator it maps no page at all and returns [Ok], and the page faults
    that follow are refused, since populated mappings are not served on demand. *)
Theorem populate_without_frames s start sz flags :
  uspace_ok s → range_fits start sz → good_range s start sz = true → 0 < sz → exhausted (sp_alloc s) →
  (∀ x, x ∈ ms_areas (areas (sp_as s)) → areas_overlap {| area_start := start; area_size := sz; area_flags := flags; area_backend := Alloc true |} x = false) →
  ∃ s', map_alloc start sz flags true s = Ret (Ok tt, s') ∧ pt (sp_as s') = pt (sp_as s) ∧
    ∀ va access, start ≤ va < start + sz → fst (handle_page_fault va access s') = false.
Proof.
  intros Hu (Hst & Hsz & Hend) Hgr Hpos Hex Hno. pose proof (map_alloc_spec s start sz flags true Hu Hst Hsz Hend) as (r & s1 & Hm & Hu1 & _ & _ & Hok & _).
  destruct (good_range_spec s start sz Hu) as (Hlo & Hhi & Has & Haz); [unfold in_usize in *; lia..|done|].
  set (area := {| area_start := start |}) in *. unfold in_usize in *.
  assert (backend_map (new_alloc true) start sz flags (sp_paging s) = Ret (true, sp_paging s)) as Hb.
  { cbn [backend_map new_alloc]. unfold map_alloc_backend. rewrite uadd_small by lia. rewrite (size_pages sz) by (done || lia).
    rewrite page_iter_law; [|done|done|rewrite <-size_pages by (done || lia); lia]. by rewrite populate_exhausted. }
  unfold map_alloc in Hm |- *. rewrite checked, Hgr in Hm |- * by done. change (new_alloc true) with (Alloc true) in *. fold area in Hm |- *.
  pose proof (ms_map_law _ area (backend_map (Alloc true) start sz flags) (areas (sp_as s)) (sp_paging s)) as Hl. cbn [area_size area] in Hl.
  rewrite (proj2 (Z.eqb_neq sz 0)) in Hl by lia. assert (existsb (areas_overlap area) (ms_areas (areas (sp_as s))) = false) as Hex'.
  { apply not_true_iff_false. rewrite existsb_exists. intros (x & Hx & Hxo). rewrite Hno in Hxo; [done|by apply list_elem_of_In]. }
  rewrite Hex', Hb in Hl. destruct Hl as (ms' & Hl & Hperm). rewrite Hl in Hm |- *. injection Hm as <- <-. eexists. split; [done|]. split; [done|].
  intros va access Hva. set (s1 := {| sp_as := _ |}) in *. destruct (handle_page_fault_spec s1 va access Hu1) as (r & s2 & -> & _ & _ & _ & _ & _ & Hserved & _); [unfold in_usize; lia|].
  destruct r; [|done]. destruct (Hserved eq_refl) as (x & Hx & Hxva & Hbk & _). exfalso.
  rewrite (area_unique s1 x area va Hu1) in Hbk; [done|done|cbn; rewrite Hperm; by left|done|done].
Qed.

(** [unmap] takes the pages away and keeps the rest: the frames stay allocated,
    and the area stays in the set, so that the range cannot be mapped again. *)
Theorem unmap_keeps_area_and_frames s start sz flags pop s1 s2 flags' pop' :
  uspace_ok s → range_fits start sz →
  map_alloc start sz flags pop s = Ret (Ok tt, s1) → unmap start sz s1 = Ret (Ok tt, s2) →
  (∀ b, aligned b → in_region start sz b → pt_page (pt (sp_as s2)) b = None) ∧ sp_alloc s2 = sp_alloc s1 ∧
  map_alloc start sz flags' pop' s2 = Ret (Err AxError.AlreadyExists, s2).
Proof.
  intros Hu (Hst & Hsz & Hend) Hmap Hunmap. destruct (map_alloc_spec s start sz flags pop Hu Hst Hsz Hend) as (r & s' & Hm & Hu1 & Hv & _ & Hok & _).
  rewrite Hmap in Hm. injection Hm as <- <-. destruct (Hok eq_refl) as (Hgr & Hpos & Hperm & _).
  destruct (unmap_spec s1 start sz Hu1 Hst Hsz Hend) as (r & s' & Hm & Hu2 & _ & Hal & Har & Hv2 & _ & Hnone). rewrite Hunmap in Hm. injection Hm as <- <-.
  split; [by apply Hnone|]. split; [done|]. unfold map_alloc. rewrite checked by done.
  assert (good_range s2 start sz = true) as ->. { unfold good_range, in_space, base, end_ in *. by rewrite Hv2, Hv. }
  set (area := {| area_start := start |}).
  pose proof (ms_map_law _ area (backend_map (new_alloc pop') start sz flags') (areas (sp_as s2)) (sp_paging s2)) as Hl.
  cbn [area_size area] in Hl. rewrite (proj2 (Z.eqb_neq sz 0)) in Hl by lia. assert (existsb (areas_overlap area) (ms_areas (areas (sp_as s2))) = true) as Hex.
  { apply existsb_exists. exists {| area_start := start; area_size := sz; area_flags := flags; area_backend := Alloc pop |}. split.
    - apply list_elem_of_In. rewrite Har, Hperm. by left.
    - unfold areas_overlap. cbn. rewrite (proj2 (Z.ltb_lt _ _)) by lia. done. }
  rewrite Hex in Hl. rewrite Hl. by rewrite same_space.
Qed.

(** A range that runs past the end of the 64-bit addresses makes [map_alloc],
    [unmap], [protect], [read] and [write] panic: the check of the range itself does. *)
Theorem range_overflow_panics s start sz flags pop buf :
  in_usize start → in_usize sz → 2 ^ 64 ≤ start + sz →
  map_alloc start sz flags pop s = Panic ∧ unmap start sz s = Panic ∧ protect start sz flags s = Panic ∧
  (Z.of_nat (length buf) = sz → read start buf s = Panic ∧ write start buf s = Panic).
Proof.
  intros Hst Hsz Hov. pose proof (check_range_overflow s start sz Hst Hsz Hov) as Hc.
  split; [unfold map_alloc, sm_bind; by rewrite Hc|]. split; [unfold unmap, sm_bind; by rewrite Hc|]. split; [unfold protect, sm_bind; by rewrite Hc|].
  intros Hl. unfold read, write, process_area_data. rewrite Hl. unfold check_range in Hc. by destruct (contains_range (sp_as s) start sz) as [[]|].
Qed.

(** ** The kernel's linear mapping *)

Lemma map_linear_ok s start paddr sz flags s' :
  in_usize start → in_usize paddr → in_usize sz → paddr + sz ≤ 2 ^ 64 → map_linear start paddr sz flags s = Ret (Ok tt, s') →
  aligned start ∧ aligned paddr ∧ start + sz < 2 ^ 64 ∧
  (∀ b, aligned b → ¬ in_region start sz b → pt_page (pt (sp_as s')) b = pt_page (pt (sp_as s)) b) ∧
  ∀ b, aligned b → in_region start sz b → pt_page (pt (sp_as s)) b = None ∧ pt_page (pt (sp_as s')) b = entry (paddr + (b - start)) flags Size4K.
Proof.
  intros Hst Hpa Hsz Hfit. unfold map_linear, sm_bind at 1. destruct (decide (start + sz < 2 ^ 64)) as [Hend|]; [|by rewrite check_range_overflow by (done || lia)].
  rewrite check_range_eq by done. destruct (in_space s start sz); [|done]. unfold sm_bind. rewrite !is_aligned_law by done.
  destruct (Z.eqb_spec (start mod PAGE_SIZE_4K) 0) as [Has|]; [|done]. destruct (Z.eqb_spec (paddr mod PAGE_SIZE_4K) 0) as [Hap|]; [|done].
  destruct (Z.eqb_spec (sz mod PAGE_SIZE_4K) 0) as [Haz|]; [|done]. cbn [andb check_aligned].
  unfold sm_ret. destruct (pt_map_region _ _ _ _ _ _ _) as [[r p] g] eqn:Hm. unfold in_usize in *.
  assert (∀ b, in_region start sz b → usub b (usub start paddr) = paddr + (b - start)) as Hf.
  { intros b Hb. unfold in_region in Hb. unfold usub at 2. unfold wrap. unfold usub, wrap. rewrite Zminus_mod_idemp_r.
    replace (b - (start - paddr)) with (paddr + (b - start)) by lia. apply Z.mod_small. lia. }
  apply pt_map_region_law in Hm as (_ & _ & Hout & Hin); [|done|done|lia|].
  - destruct r as [[]|e]; [|done]. intros [= <-]. split; [done|]. split; [done|]. split; [done|]. split; [exact Hout|].
    intros b Hb Hir. destruct (Hin b Hb Hir) as (Hn & He & _). split; [done|]. cbn. by rewrite He, Hf.
  - intros b Hir Hb. rewrite Hf by done. unfold aligned in *. rewrite Zplus_mod, Zminus_mod, Hb, Has, Hap. done.
Qed.

Definition region_fits (r : MemRegion) : Prop := in_usize (mr_paddr r) ∧ in_usize (mr_size r) ∧ mr_paddr r + mr_size r ≤ 2 ^ 64.
Definition linear_at (p : PT) (r : MemRegion) : Prop :=
  let start := phys_to_virt (mr_paddr r) in
  aligned start ∧ aligned (mr_paddr r) ∧ start + mr_size r < 2 ^ 64 ∧
  ∀ b, aligned b → in_region start (mr_size r) b → pt_page p b = entry (mr_paddr r + (b - start)) (mapping_flags_from (mr_flags r)) Size4K.
Lemma map_regions_linear rs s s' done_ :
  (∀ r, r ∈ done_ → mapping_flags_from (mr_flags r) ≠ 0 → linear_at (pt (sp_as s)) r) → Forall region_fits rs → map_regions rs s = Ret (Ok tt, s') →
  ∀ r, r ∈ done_ ++ rs → mapping_flags_from (mr_flags r) ≠ 0 → linear_at (pt (sp_as s')) r.
Proof.
  revert done_ s. induction rs as [|x rs IH]; intros done_ s Hd Hfit; cbn [map_regions].
  { intros [= <-] r. rewrite app_nil_r. apply Hd. }
  apply Forall_cons in Hfit as [(Hx1 & Hx2 & Hx3) Hfit]. unfold sm_bind. destruct (map_linear _ _ _ _ s) as [[[[]|e] s1]|] eqn:Hm; [|done..].
  apply map_linear_ok in Hm as (Ha & Hap & Hend & Hout & Hin); [|apply wrap_range|done..]. intros Hrs r. rewrite cons_middle, app_assoc. apply (IH (done_ ++ [x]) s1); [|done|done].
  clear r. intros r [Hr|Hr]%elem_of_app Hfl.
  - destruct (Hd r Hr Hfl) as (Hr1 & Hr2 & Hr3 & Hr4). split_and!; [done..|]. intros b Hb Hir.
    destruct (decide (in_region (phys_to_virt (mr_paddr x)) (mr_size x) b)) as [Hix|]; [|rewrite Hout by done; by apply Hr4].
    destruct (Hin b Hb Hix) as [Hn _]. rewrite Hr4 in Hn by done. unfold entry in Hn. by rewrite (proj2 (Z.eqb_neq _ 0)) in Hn.
  - apply list_elem_of_singleton in Hr as ->. split_and!; [done..|]. intros b Hb Hir. by apply Hin.
Qed.

(** After [new_kernel_aspace] the whole of every memory region with access flags is
    at its place in the linear mapping: the address [phys_to_virt] gives for a physical
    address is translated back to it by the page table, with the flags of the region. *)
Theorem kernel_linear_mapping regions mem g a g' r x :
  Forall region_fits regions → new_kernel_aspace regions mem g = Ret (Ok a, g') →
  r ∈ regions → mapping_flags_from (mr_flags r) ≠ 0 → 0 ≤ x < mr_size r →
  pt_query (pt a) (phys_to_virt (mr_paddr r + x)) = Ok (mr_paddr r + x, mapping_flags_from (mr_flags r), Size4K).
Proof.
  intros Hfit Hnew Hr Hfl Hx. unfold new_kernel_aspace in Hnew. destruct (new_empty _ _ _) as [[[a0|e] g0]|]; [|done..].
  destruct (map_regions regions _) as [[[[]|e] s]|] eqn:Hm; [|done..]. injection Hnew as <- <-.
  destruct (map_regions_linear regions _ s [] ltac:(by intros ? ?%not_elem_of_nil) Hfit Hm r Hr Hfl) as (Has & Hap & Hend & Hpg).
  set (start := phys_to_virt (mr_paddr r)) in *. assert (in_usize start) as Hs by apply wrap_range. unfold in_usize in Hs.
  assert (phys_to_virt (mr_paddr r + x) = start + x) as ->.
  { unfold start, phys_to_virt, uadd, wrap in *. replace (mr_paddr r + x + PHYS_VIRT_OFFSET) with (mr_paddr r + PHYS_VIRT_OFFSET + x) by lia.
    rewrite <-Zplus_mod_idemp_l. apply Z.mod_small. lia. }
  pose proof (pt_query_law (pt (sp_as s)) (start + x) ltac:(unfold in_usize; lia)) as Hq. pose proof (page_of_bounds (start + x)) as Hb.
  assert (start ≤ page_of (start + x)) as Hge.
  { destruct (decide (start ≤ page_of (start + x))); [done|]. destruct (aligned_sep start (page_of (start + x))); [done|apply page_of_aligned|lia..]. }
  rewrite Hpg in Hq by (apply page_of_aligned || unfold in_region; lia). unfold entry in Hq. rewrite (proj2 (Z.eqb_neq _ 0)) in Hq by done.
  rewrite Hq. do 3 f_equal. unfold page_of. lia.
Qed.

(** ** [translated_byte_buffer] *)

(** The addresses of the bytes of the slices. *)
Definition slice_bytes (v : list (Z * Z)) : list Z := concat ((λ x, (λ i, x.1 + i) <$> seqZ 0 x.2) <$> v).

Lemma slice_bytes_cons x v : slice_bytes (x :: v) = ((λ i, x.1 + i) <$> seqZ 0 x.2) ++ slice_bytes v.
Proof. done. Qed.
Lemma seqZ_split m n : 0 ≤ m → 0 ≤ n → seqZ 0 (m + n) = seqZ 0 m ++ ((λ i, m + i) <$> seqZ 0 n).
Proof. intros Hm Hn. rewrite seqZ_app by done. f_equal. replace (0 + m) with (m + 0) by lia. symmetry. apply fmap_add_seqZ. Qed.
Lemma translate_loop_spec s start last fuel :
  uspace_ok s → base (sp_as s) ≤ start → start ≤ last → last ≤ end_ (sp_as s) →
  (start < last → last - page_of start ≤ PAGE_SIZE_4K * Z.of_nat fuel) →
  (mapped_range s start (last - start) → ∃ v, translate_loop fuel (pt (sp_as s)) start last = Ret v ∧
     slice_bytes v = (λ j, kaddr (pt (sp_as s)) (start + j)) <$> seqZ 0 (last - start)) ∧
  (start < last → ¬ mapped_range s start (last - start) → translate_loop fuel (pt (sp_as s)) start last = Panic).
Proof.
  intros Hu Hlo Hle Hhi. destruct (uo_range s Hu) as (Hb0 & Hb1 & Hb2 & Hal & _). revert start Hlo Hle. induction fuel as [|fuel IH]; intros start Hlo Hle Hf; cbn [translate_loop].
  { pose proof (page_of_bounds start). destruct (Z.ltb_spec start last) as [Hl|]; [specialize (Hf Hl); lia|]. split; [|lia]. intros _. exists []. replace (last - start) with 0 by lia. done. }
  destruct (Z.ltb_spec start last) as [Hlt|Hge].
  2: { split; [|lia]. intros _. exists []. replace (last - start) with 0 by lia. done. }
  pose proof (page_of_bounds start) as Hpb. pose proof (pt_query_law (pt (sp_as s)) start ltac:(unfold in_usize; lia)) as Hq.
  destruct (pt_page (pt (sp_as s)) (page_of start)) as [[[f fl] x]|] eqn:Hpg.
  2: { destruct Hq as [e ->]. split; [|done]. intros Hm. by destruct (Hm (page_of start) (page_of_aligned start) ltac:(lia)). }
  assert (base (sp_as s) ≤ page_of start) as Hpl.
  { destruct (decide (base (sp_as s) ≤ page_of start)); [done|]. destruct (aligned_sep (base (sp_as s)) (page_of start)); [done|apply page_of_aligned|lia..]. }
  destruct (fo_page _ _ _ (uo_frames s Hu) _ _ _ _ (page_of_aligned start) ltac:(lia) Hpg) as [-> Ho]. rewrite Hq.
  pose proof (owned_direct _ _ (fo_alloc _ _ _ (uo_frames s Hu)) Ho) as [Hd1 Hd2]. cbn [page_size_usize]. change 0x1000 with PAGE_SIZE_4K.
  rewrite align_down_law by (first [by exists 12 | unfold in_usize; lia]). fold (page_of start).
  assert (page_of start + PAGE_SIZE_4K < 2 ^ 64 ∨ page_of start + PAGE_SIZE_4K = 2 ^ 64) as Htop.
  { destruct (decide (page_of start + PAGE_SIZE_4K ≤ 2 ^ 64)); [lia|]. destruct (aligned_sep (page_of start) (2 ^ 64)); [apply page_of_aligned|done|lia|lia|plia]. }
  assert (hiT : end_ (sp_as s) + PAGE_SIZE_4K ≤ 2 ^ 64).
  { destruct (uo_range s Hu) as (_ & _ & _ & _ & Hae). destruct (aligned_sep (end_ (sp_as s)) (2 ^ 64)); [done|done|lia|lia|plia]. }
  rewrite uadd_small by plia. set (e := Z.min (page_of start + PAGE_SIZE_4K) last). assert (start < e ≤ last) as He by lia.
  rewrite usub_small by lia. pose proof (page_of_bounds e) as Hpe. destruct (IH e) as [IH1 IH2]; [lia|lia| |].
  { intros Hel. rewrite (page_of_in (page_of start + PAGE_SIZE_4K) e); [specialize (Hf Hlt); plia| |unfold e in *; plia].
    rewrite <-(Z.mul_1_r PAGE_SIZE_4K). apply aligned_add, page_of_aligned. }
  assert (mapped_range s start (last - start) ↔ mapped_range s e (last - e)) as Hmr.
  { unfold mapped_range. split; intros Hm b Hb Hr.
    - apply Hm; [done|]. destruct (decide (page_of start ≤ b)); [lia|]. destruct (aligned_sep (page_of start) b); [apply page_of_aligned|done|lia|lia|plia].
    - destruct (decide (b = page_of start)) as [->|Hne]; [by rewrite Hpg|]. apply Hm; [done|].
      destruct (aligned_sep (page_of start) b); [apply page_of_aligned|done|lia| |lia]. split; [|lia]. rewrite (page_of_in (page_of start + PAGE_SIZE_4K)); [done| |].
      + rewrite <-(Z.mul_1_r PAGE_SIZE_4K). apply aligned_add, page_of_aligned.
      + unfold e. plia. }
  split; intros Hm.
  - destruct (IH1 ltac:(by apply Hmr)) as (v & -> & Hv). eexists. split; [done|]. rewrite slice_bytes_cons, Hv. cbn [fst snd].
    replace (last - start) with ((e - start) + (last - e)) by lia. rewrite seqZ_split, fmap_app by lia. f_equal.
    + apply list_fmap_ext. intros i j Hj%lookup_seqZ. unfold kaddr. rewrite (page_of_in (page_of start)) by (apply page_of_aligned || lia). rewrite Hpg.
      assert (page_of (start + j) = page_of start) as Hpj by (apply page_of_in; [apply page_of_aligned|lia]). unfold page_of in Hpj.
      destruct (fo_alloc _ _ _ (uo_frames s Hu)) as (_ & Hof & _). destruct Ho as (Hf0 & _).
      unfold phys_to_virt. pose proof (Z.mod_pos_bound start PAGE_SIZE_4K ltac:(done)). rewrite (uadd_small (f + start mod PAGE_SIZE_4K)) by lia.
      lia.
    + rewrite <-list_fmap_compose. apply list_fmap_ext. intros i j _. cbn. f_equal. lia.
  - intros Hn. destruct (decide (e < last)) as [Hel|]; [rewrite IH2; [done|done|by rewrite <-Hmr]|].
    exfalso. apply Hn. intros b Hb Hr. destruct (decide (b = page_of start)) as [->|]; [by rewrite Hpg|].
    destruct (aligned_sep (page_of start) b); [apply page_of_aligned|done|lia|lia|lia].
Qed.

(** [translated_byte_buffer] gives slices that are, one after the other, exactly
    the bytes of the range in the linear mapping when the pages are present; when one is
    not, as in a lazy mapping that has not been touched, it panics.  Its only check of
    the length is against the size of the whole area, not of what is left of it. *)
Theorem translated_buffer_exact s vaddr len area :
  uspace_ok s → in_space s vaddr len = true → 0 < len → ms_find (areas (sp_as s)) vaddr = Some area → len ≤ area_size area →
  (mapped_range s vaddr len → ∃ v, translated_byte_buffer vaddr len s = Ret (Some v) ∧
     slice_bytes v = (λ j, kaddr (pt (sp_as s)) (vaddr + j)) <$> seqZ 0 len) ∧
  (¬ mapped_range s vaddr len → translated_byte_buffer vaddr len s = Panic).
Proof.
  intros Hu Hin Hlen Hfind Hsz. destruct (uo_range s Hu) as (Hb0 & Hb1 & Hb2 & _). unfold in_space in Hin. apply andb_true_iff in Hin as [Hlo%Z.leb_le Hhi%Z.leb_le].
  unfold translated_byte_buffer. rewrite range_contains_law. fold (base (sp_as s)) (end_ (sp_as s)).
  rewrite (proj2 (Z.leb_le _ _)), (proj2 (Z.ltb_lt _ _)) by lia. cbn [andb negb]. rewrite Hfind, (proj2 (Z.ltb_ge _ _)) by lia. rewrite uadd_small by lia.
  destruct (translate_loop_spec s vaddr (vaddr + len) (Z.to_nat (len / PAGE_SIZE_4K) + 2) Hu) as [H1 H2]; [lia|lia|lia| |].
  { intros _. pose proof (page_of_bounds vaddr). pose proof (Z.div_mod len PAGE_SIZE_4K ltac:(done)). pose proof (Z.mod_pos_bound len PAGE_SIZE_4K ltac:(done)).
    pose proof (Z.div_pos len PAGE_SIZE_4K ltac:(lia) ltac:(done)). plia. }
  replace (vaddr + len - vaddr) with len in * by lia. split; intros Hm.
  - destruct (H1 Hm) as (v & -> & Hv). by exists v.
  - by rewrite H2 by (done || lia).
Qed.
End calls.
