(* ===== verification/AxmmDemo.v ===== *)
(** Address spaces that run: a page table as a function from pages to entries, a memory
    set as a list of areas, the operations of [memory_addr] on numbers, and the page
    allocator of [Axalloc.v].  They satisfy the laws of [Axmm.v] and [AxmmProps.v], and
    the theorems of [AxmmCalls.v] are applied to them. *)

From stdpp Require Import prelude gmap list.
From Stdlib Require Import ZArith Lia.
From S2P Require Import Prelude Axalloc Axmm AxmmProps AxmmSpace AxmmCalls.
Local Open Scope Z_scope.
Local Open Scope kernel_scope.

(** ** [memory_addr] *)

#[export] Instance demo_addr : MemoryAddr := {|
  align_down a al := a - a mod al;
  align_up_4k a := wrap ((a + (PAGE_SIZE_4K - 1)) / PAGE_SIZE_4K * PAGE_SIZE_4K);
  align_offset_4k a := a mod PAGE_SIZE_4K;
  is_aligned_4k a := a mod PAGE_SIZE_4K =? 0;
  from_start_size start size := if start + size <? 2 ^ 64 then Ret {| ar_start := start; ar_end := start + size |} else Panic;
  range_size r := ar_end r - ar_start r;
  range_contains r a := (ar_start r <=? a) && (a <? ar_end r);
  contains_range_op r1 r2 := (ar_start r1 <=? ar_start r2) && (ar_end r2 <=? ar_end r1);
  range_overlaps r1 r2 := (ar_start r1 <? ar_end r2) && (ar_start r2 <? ar_end r1);
  page_iter_4k start end_ := Some (pages_from start (Z.to_nat ((end_ - start) / PAGE_SIZE_4K)));
|}.
#[export] Instance demo_addr_laws : MemoryAddrLaws.
Proof.
  split; try done.
  - intros a Ha Hl. cbn. apply Z.mod_small. pose proof (Z.div_mod (a + (PAGE_SIZE_4K - 1)) PAGE_SIZE_4K ltac:(done)).
    pose proof (Z.mod_pos_bound (a + (PAGE_SIZE_4K - 1)) PAGE_SIZE_4K ltac:(done)). unfold usize_mod. split; [|lia]. apply Z.mul_nonneg_nonneg; [|done]. apply Z.div_pos; plia.
  - intros start n Hs Ha He. cbn. replace (start + _ - start) with (Z.of_nat n * PAGE_SIZE_4K) by lia. by rewrite Z.div_mul, Nat2Z.id by done.
Qed.

(** ** The page table *)

(** The frame and the flags of the pages that are present. *)
Definition demo_pt : Type := Z → option (Z * Z).
Definition demo_entry (pa fl : Z) : option (Z * Z) := if fl =? 0 then None else Some (pa, fl).
Definition with_size (e : option (Z * Z)) : option (Z * Z * PageSize) := (λ x, (x.1, x.2, Size4K)) <$> e.
Definition in_regionb (start sz b : Z) : bool := (start <=? b) && (b <? start + sz).
Definition absentb (p : demo_pt) (b : Z) : bool := match p b with None => true | _ => false end.
#[export] Instance demo_table {B P} : PageTable demo_pt (GlobalAllocator B P) := {|
  pt_try_new g := (Ok (λ _, None), g);
  pt_root_paddr _ := 0;
  pt_map va pa s fl p g :=
    if is_huge s then (Err NotAligned, p, g)
    else if absentb p va then (Ok tt, λ b, if b =? va then demo_entry pa fl else p b, g) else (Err AlreadyMapped, p, g);
  pt_remap va pa fl p := (Ok Size4K, λ b, if b =? page_of va then demo_entry pa fl else p b);
  pt_unmap va p := match p va with Some (f, _) => (Ok (f, Size4K), λ b, if b =? va then None else p b) | None => (Err NotMapped, p) end;
  pt_query p va := match p (page_of va) with Some (f, fl) => Ok (f + va mod PAGE_SIZE_4K, fl, Size4K) | None => Err NotMapped end;
  pt_map_region start f sz fl huge p g :=
    if forallb (absentb p) (pages_from start (Z.to_nat (sz / PAGE_SIZE_4K)))
    then (Ok tt, λ b, if in_regionb start sz b then demo_entry (f b) fl else p b, g) else (Err AlreadyMapped, p, g);
  pt_unmap_region start sz p := (Ok tt, λ b, if in_regionb start sz b then None else p b);
  pt_protect_region start sz fl p := (Ok tt, λ b, if in_regionb start sz b then match p b with Some (f, _) => demo_entry f fl | None => None end else p b);
  pt_copy_from other start sz p := λ b, if in_regionb start sz b then other b else p b;
  pt_page p b := with_size (p b);
  pt_ready _ _ := True;
|}.

Lemma in_regionb_spec start sz b : if in_regionb start sz b then in_region start sz b else ¬ in_region start sz b.
Proof. unfold in_regionb, in_region. destruct (Z.leb_spec start b), (Z.ltb_spec b (start + sz)); cbn; lia. Qed.
Lemma with_size_entry pa fl : with_size (demo_entry pa fl) = entry pa fl Size4K.
Proof. unfold demo_entry, entry. by destruct (fl =? 0). Qed.
Lemma if_eqb_decide {A} (a b : Z) (x y : A) : (if a =? b then x else y) = if bool_decide (a = b) then x else y.
Proof. destruct (Z.eqb_spec a b); first [by rewrite bool_decide_true|by rewrite bool_decide_false]. Qed.

#[export] Instance demo_table_laws {B P} `{PageAllocator P} : PageTableLaws B P demo_pt.
Proof.
  split.
  - intros g r g' [= <- <-]. split; [apply grown_refl|done].
  - intros p va _. cbn. destruct (p (page_of va)) as [[f fl]|]; cbn; [done|by eexists].
  - intros va pa' fl p g r p' g' _ _. cbn. unfold absentb. destruct (p va) as [[f x]|] eqn:Hp; intros [= <- <- <-]; (split; [apply grown_refl|]); (split; [done|]); [done|].
    split; [done|]. intros b. rewrite <-if_eqb_decide. destruct (b =? va); [apply with_size_entry|done].
  - intros va pa' fl p r p' _ _ [= <- <-]. split; [done|]. split; [done|]. intros b. cbn. rewrite <-if_eqb_decide. destruct (b =? _); [apply with_size_entry|done].
  - intros va p r p' _. cbn. destruct (p va) as [[f x]|] eqn:Hp; intros [= <- <-]; [|done]. split; [by exists x|]. intros _ b. rewrite <-if_eqb_decide. by destruct (b =? va).
  - intros start f sz fl p g r p' g' Hst Hsz Hz _. cbn. destruct (forallb _ _) eqn:Hall; intros [= <- <- <-].
    2: { split; [apply grown_refl|]. split; [done|]. split; [done|]. intros b _ _. by left. }
    split; [apply grown_refl|]. split; [done|]. split; [|]; intros b Hb Hr; pose proof (in_regionb_spec start sz b) as Hs; destruct (in_regionb start sz b); try done.
    split_and!; [|apply with_size_entry|done]. rewrite forallb_forall in Hall. specialize (Hall b). unfold absentb in Hall. destruct (p b); [|done].
    discriminate Hall. apply list_elem_of_In, (pages_from_props start _ Hst). split; [done|]. by rewrite <-size_pages.
  - intros start sz p r p' _ _ _ _ [= <- <-]. split; [done|]. split; intros b Hb Hr; pose proof (in_regionb_spec start sz b) as Hs; cbn; destruct (in_regionb start sz b); by try left.
  - intros start sz fl p r p' _ _ _ _ [= <- <-]. split; [done|]. split; intros b Hb Hr; pose proof (in_regionb_spec start sz b) as Hs; cbn; destruct (in_regionb start sz b); try done.
    left. destruct (p b) as [[f x]|]; [apply with_size_entry|done].
  - intros other start sz p b H0 H1 Hb. pose proof (in_regionb_spec start sz b) as Hs. cbn. destruct (in_regionb start sz b); split; try done. unfold in_region in Hs. lia.
Qed.

(** ** The memory set *)

Definition demo_set : Type := list MemoryArea.
Definition area_hasb (va : Z) (a : MemoryArea) : bool := (area_start a <=? va) && (va <? area_start a + area_size a).
(** The first place at or after the hint: the hint itself or the end of an area. *)
Definition demo_free (ms : demo_set) (hint size : Z) (limit : addr_range) : option Z :=
  List.find (λ a, (hint <=? a) && (ar_start limit <=? a) && (a + size <=? ar_end limit) &&
                  forallb (λ x, (a + size <=? area_start x) || (area_start x + area_size x <=? a)) ms)
            (Z.max hint (ar_start limit) :: ((λ x, area_start x + area_size x) <$> ms)).
#[export] Instance demo_memory_set : MemorySet demo_set := {|
  ms_new := [];
  ms_map S area map ms s :=
    if area_size area =? 0 then Ret (Err InvalidParam, ms, s)
    else if existsb (areas_overlap area) ms then Ret (Err AlreadyExists, ms, s)
    else match map s with
         | Panic => Panic
         | Ret (false, s') => Ret (Err BadState, ms, s')
         | Ret (true, s') => Ret (Ok tt, area :: ms, s')
         end;
  ms_find ms va := List.find (area_hasb va) ms;
  ms_find_free_area := demo_free;
  ms_areas ms := ms;
|}.
#[export] Instance demo_memory_set_laws : MemorySetLaws demo_set.
Proof.
  split.
  - done.
  - intros S area map ms s. cbn. destruct (_ =? 0); [done|]. destruct (existsb _ _); [done|]. destruct (map s) as [[[] s']|]; [|done..]. by eexists.
  - intros ms va a [Hin Hh]%List.find_some. split; [by apply list_elem_of_In|]. unfold area_hasb in Hh. apply andb_true_iff in Hh as [?%Z.leb_le ?%Z.ltb_lt]. done.
  - intros ms va a Hn Hin%list_elem_of_In [H1 H2]. apply (List.find_none _ _ Hn) in Hin. unfold area_hasb in Hin. apply andb_false_iff in Hin as [?%Z.leb_gt|?%Z.ltb_ge]; lia.
  - intros ms hint size limit a [_ Hf]%List.find_some. rewrite !andb_true_iff, !Z.leb_le, forallb_forall in Hf. destruct Hf as [[[? ?] ?] Hall]. split_and!; [done..|].
    intros x Hx%list_elem_of_In. specialize (Hall x Hx). apply orb_true_iff in Hall as [?%Z.leb_le|?%Z.leb_le]; auto.
Qed.

(** ** A platform, and a user address space on it *)

#[export] Instance demo_flags : MappingFlags := {| mf_READ := 1; mf_WRITE := 2; mf_EXECUTE := 4; mf_USER := 8; mf_DEVICE := 16; mf_UNCACHED := 32 |}.
#[export] Instance demo_config : MemConfig := {|
  PHYS_VIRT_OFFSET := 0xffffffc000000000; PHYS_MEMORY_END := 0x88000000; KERNEL_ASPACE_BASE := 0xffffffc000000000; KERNEL_ASPACE_SIZE := 0x3ffffff000;
  MMIO_REGIONS := [(0x10000000, 0x1000)] |}.
#[export] Instance demo_heap : KernelHeap := {| heap_room n := n <=? 0x10000 |}.
(** [n] pages of memory. *)
Definition demo_alloc (n : Z) : GlobalAllocator region_alloc page_bump :=
  {| balloc := balloc_new; palloc := palloc_init (0x80000000 + PHYS_VIRT_OFFSET) (n * PAGE_SIZE_4K) palloc_new |}.
Lemma demo_alloc_ok n : 0 ≤ n ≤ 0x1000 → alloc_ok (demo_alloc n).
Proof. intros Hn. split_and!; [|done|done|done]. split_and!; cbn; [done| |done| |by intros b ?%not_elem_of_nil]; unfold PAGE_SIZE_4K, usize_mod; lia. Qed.

Abbreviation demo_space_t := (space region_alloc page_bump demo_pt demo_set).
Definition demo_kernel : AddrSpace demo_pt demo_set :=
  {| va_range := {| ar_start := KERNEL_ASPACE_BASE; ar_end := KERNEL_ASPACE_BASE + KERNEL_ASPACE_SIZE |}; areas := []; pt := λ _, None |}.
Definition demo_user (n : Z) : AddrSpace demo_pt demo_set * GlobalAllocator region_alloc page_bump :=
  match new_user_aspace demo_kernel (demo_alloc n) with Ret (Ok a, g) => (a, g) | _ => (demo_kernel, demo_alloc n) end.
Lemma demo_user_eq n : new_user_aspace demo_kernel (demo_alloc n) = Ret (Ok (fst (demo_user n)), snd (demo_user n)).
Proof. reflexivity. Qed.
Definition demo_space (n : Z) : demo_space_t := {| sp_as := fst (demo_user n); sp_mem := λ _, 0xcc; sp_alloc := snd (demo_user n) |}.
Lemma demo_space_ok n : 0 ≤ n ≤ 0x1000 → uspace_ok (demo_space n).
Proof. intros Hn. by eapply (new_user_aspace_ok demo_kernel _ _ _ (λ _, 0xcc) (demo_alloc_ok n Hn)); [..|apply demo_user_eq]. Qed.

Lemma demo_space_empty n b : pt (sp_as (demo_space n)) b = None.
Proof. transitivity (if in_regionb KERNEL_ASPACE_BASE KERNEL_ASPACE_SIZE b then None : option (Z * Z) else None); [reflexivity|]. by destruct (in_regionb _ _ b). Qed.

(** The state after a call that succeeds. *)
Definition after {A E S} (o : outcome (result A E * S)) (d : S) : S := match o with Ret (_, s) => s | Panic => d end.
Definition succeeds {A E S} (o : outcome (result A E * S)) : bool := match o with Ret (Ok _, _) => true | _ => false end.
Lemma after_ok {E S} (o : outcome (result unit E * S)) d : succeeds o = true → o = Ret (Ok tt, after o d).
Proof. by destruct o as [[[[]|] s]|]. Qed.

(** Enough pages are present. *)
Lemma mapped_by_pages (s : demo_space_t) start sz n :
  forallb (λ b, negb (absentb (pt (sp_as s)) b)) (pages_from (page_of start) n) = true → start + sz ≤ page_of start + PAGE_SIZE_4K * Z.of_nat n → mapped_range s start sz.
Proof.
  intros Hall Hle b Hb Hr. rewrite forallb_forall in Hall. assert (b ∈ pages_from (page_of start) n) as Hin.
  { apply (pages_from_props _ n (page_of_aligned start)). split; [done|]. unfold in_region. lia. }
  apply list_elem_of_In, Hall in Hin. unfold absentb in Hin. cbn. by destruct (pt (sp_as s) b).
Qed.

Definition demo_calls : list space_call :=
  [CallMapAlloc 0x1000 0x2000 3 true; CallWrite 0x1ffe [1; 2; 3; 4]; CallMapAlloc 0x10000 0x1000 7 false; CallFault 0x10004 1;
   CallProtect 0x1000 0x1000 1; CallRead 0x1ffe [0; 0]; CallUnmap 0x1000 0x2000; CallRead 0x1ffe [0; 0]].

(** Two pages mapped at once. *)
Definition demo_mapped : demo_space_t := after (map_alloc 0x1000 0x2000 3 true (demo_space 16)) (demo_space 16).
Lemma demo_mapped_eq : map_alloc 0x1000 0x2000 3 true (demo_space 16) = Ret (Ok tt, demo_mapped).
Proof. apply after_ok. vm_compute. done. Qed.
Lemma demo_mapped_ok : uspace_ok demo_mapped.
Proof.
  destruct (map_alloc_spec (demo_space 16) 0x1000 0x2000 3 true) as (r & s' & Hm & Hu & _); [by apply demo_space_ok|done..|]. rewrite demo_mapped_eq in Hm. by injection Hm as _ <-.
Qed.
Lemma write_read_witness :
  ∃ s', write 0x1ffe [1; 2; 3; 4] demo_mapped = Ret (Ok tt, s') ∧ read 0x1ffe [0; 0; 0; 0] s' = Ret (Ok tt, [1; 2; 3; 4]).
Proof.
  destruct (space_write_then_read demo_mapped 0x1ffe [1; 2; 3; 4] [0; 0; 0; 0] demo_mapped_ok) as [H _]; [done|done|vm_compute; done|done|].
  destruct H as (s' & Hw & _ & _ & Hr & _); [|by exists s']. apply (mapped_by_pages _ _ _ 2); [vm_compute; done|vm_compute; done].
Defined.

(** A lazy page. *)
Definition demo_lazy : demo_space_t := after (map_alloc 0x10000 0x1000 7 false (demo_space 16)) (demo_space 16).
Lemma lazy_page_witness : ∃ s'', handle_page_fault 0x10004 1 demo_lazy = (true, s'') ∧ uspace_ok s''.
Proof.
  destruct (lazy_page_served (demo_space 16) 0x10000 0x1000 7 demo_lazy 0x10004 1) as (_ & s2 & f & Hf & Hu & _);
    [by apply demo_space_ok|by repeat split|by intros b _ _; change (with_size (pt (sp_as (demo_space 16)) b) = None); rewrite demo_space_empty|apply after_ok; vm_compute; done|done|done|done|vm_compute; done|by exists s2].
Defined.

(** No memory at all. *)
Lemma no_frames_witness : ∃ s', map_alloc 0x1000 0x2000 3 true (demo_space 0) = Ret (Ok tt, s') ∧ fst (handle_page_fault 0x1000 1 s') = false.
Proof.
  destruct (populate_without_frames (demo_space 0) 0x1000 0x2000 3) as (s' & Hm & _ & Hf); [by apply demo_space_ok|done|done|done|by eexists| |].
  - by intros x ?%not_elem_of_nil.
  - exists s'. split; [done|]. by apply Hf.
Defined.

Definition demo_unmapped : demo_space_t := after (unmap 0x1000 0x2000 demo_mapped) demo_mapped.
Lemma unmap_keeps_witness : sp_alloc demo_unmapped = sp_alloc demo_mapped ∧ map_alloc 0x1000 0x2000 1 false demo_unmapped = Ret (Err AxError.AlreadyExists, demo_unmapped).
Proof.
  destruct (unmap_keeps_area_and_frames (demo_space 16) 0x1000 0x2000 3 true demo_mapped demo_unmapped 1 false) as (_ & H1 & H2);
    [by apply demo_space_ok|done|apply demo_mapped_eq|apply after_ok; vm_compute; done|done].
Defined.
Lemma range_overflow_witness : unmap (2 ^ 64 - 0x1000) 0x1000 demo_mapped = Panic.
Proof. by apply (range_overflow_panics demo_mapped (2 ^ 64 - 0x1000) 0x1000 0 false []). Defined.

(** The kernel's own address space: the text, the data and the free memory. *)
Definition demo_symbols : linker_symbols :=
  {| stext := 0xffffffc080200000; etext := 0xffffffc080202000; srodata := 0xffffffc080202000; erodata := 0xffffffc080203000; sdata := 0xffffffc080203000; edata := 0xffffffc080204000;
     sbss := 0xffffffc080208000; ebss := 0xffffffc080209000; ekernel := 0xffffffc080209000; boot_stack := 0xffffffc080204000; boot_stack_top := 0xffffffc080208000 |}.
Definition demo_regions : list MemRegion := kernel_image_regions demo_symbols ++ default_mmio_regions.
Definition demo_kspace : AddrSpace demo_pt demo_set * GlobalAllocator region_alloc page_bump :=
  match new_kernel_aspace demo_regions (λ _, 0) (demo_alloc 16) with Ret (Ok a, g) => (a, g) | _ => (demo_kernel, demo_alloc 16) end.
Definition demo_data : MemRegion := default {| mr_paddr := 0; mr_size := 0; mr_flags := 0 |} (demo_regions !! 2%nat).
Lemma kernel_linear_witness : pt_query (G := GlobalAllocator region_alloc page_bump) (pt (fst demo_kspace)) (phys_to_virt (mr_paddr demo_data + 0x10)) =
  Ok (mr_paddr demo_data + 0x10, mapping_flags_from (mr_flags demo_data), Size4K).
Proof.
  apply (kernel_linear_mapping demo_regions (λ _, 0) (demo_alloc 16) _ (snd demo_kspace) demo_data 0x10).
  - repeat apply Forall_cons_2; [..|by apply Forall_nil_2]; repeat split; done.
  - assert (match new_kernel_aspace demo_regions (λ _, 0) (demo_alloc 16) with Ret (Ok _, _) => true | _ => false end = true) as H by (vm_compute; done).
    unfold demo_kspace. by destruct (new_kernel_aspace demo_regions (λ _, 0) (demo_alloc 16)) as [[[a|] g]|].
  - apply (list_elem_of_lookup_2 _ 2%nat). vm_compute. done.
  - vm_compute. done.
  - done.
Defined.

Lemma translated_buffer_witness : ∃ v, translated_byte_buffer 0x1ffe 4 demo_mapped = Ret (Some v).
Proof.
  destruct (translated_buffer_exact demo_mapped 0x1ffe 4 {| area_start := 0x1000; area_size := 0x2000; area_flags := 3; area_backend := Alloc true |} demo_mapped_ok) as [H _];
    [vm_compute; done|done|vm_compute; done|done|]. destruct H as (v & Hv & _); [|by exists v]. apply (mapped_by_pages _ _ _ 2); [vm_compute; done|vm_compute; done].
Defined.
