(* ===== verification/Ramfs.v ===== *)
(** The RAM filesystem of [axfs_ramfs].

    Nodes are shared through [Arc]s, so they live in a store and are named by
    their number in it; a [Weak] reference is a number that may have left the
    store.  [axfs_vfs], the trait crate, is not part of the repository: the errors
    its default methods return are the class [VfsDefaults]. *)

From S2P Require Import Prelude.
From stdpp Require Import prelude gmap strings list sorting.
From Stdlib Require Import ZArith Lia.
Local Open Scope Z_scope.
Local Open Scope kernel_scope.

(** ** Paths *)

Definition slash : Ascii.ascii := Ascii.ascii_of_nat 47.

(** [path.trim_start_matches('/')]. *)
Fixpoint trim_start (path : string) : string :=
  match path with
  | String c rest => if bool_decide (c = slash) then trim_start rest else path
  | EmptyString => EmptyString
  end.

(** The text before the first ['/'] and, if there is one, the text after it. *)
Fixpoint split_slash (path : string) : string * option string :=
  match path with
  | EmptyString => (EmptyString, None)
  | String c rest =>
      if bool_decide (c = slash) then (EmptyString, Some rest)
      else let (name, r) := split_slash rest in (String c name, r)
  end.

Definition split_path (path : string) : string * option string := split_slash (trim_start path).

(** The text after the last ['/']. *)
Fixpoint after_last_slash (path : string) : string :=
  match split_slash path with
  | (name, None) => name
  | (_, Some rest) =>
      match path with
      | EmptyString => EmptyString
      | String _ tl => after_last_slash tl
      end
  end.

(** The order of the keys of a [BTreeMap<String, _>]: bytewise. *)
Definition name_le (a b : string) : Prop := String.leb a b = true.
#[export] Instance name_le_dec : RelDecision name_le.
Proof. intros a b. unfold name_le. apply _. Defined.

(** ** Nodes *)

Inductive VfsNodeType : Type :=
| Fifo | CharDevice | Dir | BlockDevice | File | SymLink | Socket.
#[export] Instance VfsNodeType_eq_dec : EqDecision VfsNodeType.
Proof. solve_decision. Defined.

Record VfsNodeAttr : Type := { attr_type : VfsNodeType; attr_size : Z; attr_blocks : Z }.

(** The errors of the default methods of [axfs_vfs] for nodes that are not
    directories and for directories. *)
Class VfsDefaults : Type := {
  non_dir_lookup : AxError.t;
  non_dir_create : AxError.t;
  non_dir_remove : AxError.t;
  non_dir_rename : AxError.t;
  non_dir_read_dir : AxError.t;
  dir_read_at : AxError.t;
  dir_write_at : AxError.t;
  dir_truncate : AxError.t;
}.

Inductive Node : Type :=
| FileNode (content : list Z)
| DirNode (parent : option nat) (children : gmap string nat).

(** [next] is the number of the next node; [pinned] counts the [Arc]s the rest of
    the kernel holds (open files, the roots of filesystems). *)
Record store : Type := { nodes : gmap nat Node; next : nat; pinned : gmap nat nat }.
Definition set_nodes (m : gmap nat Node) (s : store) : store :=
  {| nodes := m; next := next s; pinned := pinned s |}.

Definition node_type (n : Node) : VfsNodeType :=
  match n with FileNode _ => File | DirNode _ _ => Dir end.

(** ** [FileNode] *)

Definition file_new : Node := FileNode [].

(** [Vec::truncate] and [Vec::resize]. *)
Definition file_truncate (size : Z) (content : list Z) : list Z :=
  if size <? Z.of_nat (length content) then take (Z.to_nat size) content
  else content ++ replicate (Z.to_nat size - length content) 0.

(** The bytes copied to the buffer; a range with its start behind its end panics. *)
Definition file_read_at (offset buf_len : Z) (content : list Z) : outcome (list Z) :=
  let len := Z.of_nat (length content) in
  let start := Z.min len offset in
  let end_ := Z.min len (uadd offset buf_len) in
  if start <=? end_ then Ret (take (Z.to_nat (end_ - start)) (drop (Z.to_nat start) content))
  else Panic.

Definition file_write_at (offset : Z) (buf : list Z) (content : list Z) : outcome (Z * list Z) :=
  let end_ := uadd offset (Z.of_nat (length buf)) in
  let content :=
    if Z.of_nat (length content) <? end_ then
      content ++ replicate (Z.to_nat end_ - length content) 0
    else content in
  if offset <=? end_ then
    let o := Z.to_nat offset in
    Ret (Z.of_nat (length buf), take o content ++ buf ++ drop (o + length buf) content)
  else Panic.

(** ** [VfsNodeOps] on the nodes of the store *)

Section ramfs.
Context {defaults : VfsDefaults}.
Abbreviation M := (SM store AxError.t).

Definition get_attr (i : nat) (s : store) : outcome VfsNodeAttr :=
  match nodes s !! i with
  | Some (FileNode content) =>
      Ret {| attr_type := File; attr_size := Z.of_nat (length content); attr_blocks := 0 |}
  | Some (DirNode _ _) => Ret {| attr_type := Dir; attr_size := 4096; attr_blocks := 0 |}
  | None => Panic
  end.

Definition read_at (i : nat) (offset buf_len : Z) (s : store) : outcome (result (list Z) AxError.t) :=
  match nodes s !! i with
  | Some (FileNode content) => Ok <$> file_read_at offset buf_len content
  | Some (DirNode _ _) => Ret (Err dir_read_at)
  | None => Panic
  end.

Definition write_at (i : nat) (offset : Z) (buf : list Z) : M Z := λ s,
  match nodes s !! i with
  | Some (FileNode content) =>
      r ← file_write_at offset buf content;
      Ret (Ok r.1, set_nodes (<[i := FileNode r.2]> (nodes s)) s)
  | Some (DirNode _ _) => Ret (Err dir_write_at, s)
  | None => Panic
  end.

Definition truncate (i : nat) (size : Z) : M unit := λ s,
  match nodes s !! i with
  | Some (FileNode content) =>
      Ret (Ok tt, set_nodes (<[i := FileNode (file_truncate size content)]> (nodes s)) s)
  | Some (DirNode _ _) => Ret (Err dir_truncate, s)
  | None => Panic
  end.

(** [self.parent.read().upgrade()]. *)
Definition upgrade (p : option nat) (s : store) : option nat :=
  match p with
  | Some j => match nodes s !! j with Some _ => Some j | None => None end
  | None => None
  end.

Definition get_entries (children : gmap string nat) : list string :=
  merge_sort name_le (map_to_list children).*1.
Definition exist (name : string) (children : gmap string nat) : bool :=
  bool_decide (is_Some (children !! name)).

(** [lookup]; the rest of a path is shorter than the path, so fuel one above its
    length is enough. *)
Fixpoint lookup_from (fuel : nat) (i : nat) (path : string) (s : store) : outcome (result nat AxError.t) :=
  match fuel with
  | O => Panic
  | S n =>
      match nodes s !! i with
      | None => Panic
      | Some (FileNode _) => Ret (Err non_dir_lookup)
      | Some (DirNode parent children) =>
          let (name, rest) := split_path path in
          let node :=
            if bool_decide (name = "" ∨ name = ".")%string then Ok i
            else if bool_decide (name = "..")%string then ok_or (upgrade parent s) AxError.NotFound
            else ok_or (children !! name) AxError.NotFound in
          match node with
          | Err e => Ret (Err e)
          | Ok node =>
              match rest with
              | Some rest => lookup_from n node rest s
              | None => Ret (Ok node)
              end
          end
      end
  end.
Definition lookup (i : nat) (path : string) (s : store) : outcome (result nat AxError.t) :=
  lookup_from (S (String.length path)) i path s.

(** [DirNode::new] for a new child of [parent]. *)
Definition dir_new (parent : option nat) : Node := DirNode parent ∅.

Definition create_node (i : nat) (name : string) (ty : VfsNodeType) : M unit := λ s,
  match nodes s !! i with
  | Some (DirNode parent children) =>
      if exist name children then Ret (Err AxError.AlreadyExists, s)
      else
        match ty with
        | File | Dir =>
            let node := if bool_decide (ty = File) then file_new else dir_new (Some i) in
            let j := next s in
            Ret (Ok tt, {| nodes := <[i := DirNode parent (<[name := j]> children)]> (<[j := node]> (nodes s));
                           next := S (next s); pinned := pinned s |})
        | _ => Ret (Err AxError.Unsupported, s)
        end
  | _ => Panic
  end.

(** Dropping the [Arc] a directory held: the node goes when nothing pins it. *)
Definition release (j : nat) (s : store) : store :=
  match pinned s !! j with
  | Some (S _) => s
  | _ => set_nodes (delete j (nodes s)) s
  end.

Definition remove_node (i : nat) (name : string) : M unit := λ s,
  match nodes s !! i with
  | Some (DirNode parent children) =>
      match children !! name with
      | None => Ret (Err AxError.NotFound, s)
      | Some j =>
          let removed := release j (set_nodes (<[i := DirNode parent (delete name children)]> (nodes s)) s) in
          match nodes s !! j with
          | Some (DirNode _ sub) =>
              if bool_decide (sub = ∅) then Ret (Ok tt, removed) else Ret (Err AxError.DirectoryNotEmpty, s)
          | Some (FileNode _) => Ret (Ok tt, removed)
          | None => Panic
          end
      end
  | _ => Panic
  end.

(** The recursion of [create], [remove] and [rename] through the directories of a
    path; [final] is what each does with the last name, [non_dir] the error of the
    default method of a file. *)
Fixpoint walk (non_dir : AxError.t) (final : nat → string → M unit) (fuel : nat) (i : nat) (path : string) :
    M unit := λ s,
  match fuel with
  | O => Panic
  | S n =>
      match nodes s !! i with
      | None => Panic
      | Some (FileNode _) => Ret (Err non_dir, s)
      | Some (DirNode parent children) =>
          let (name, rest) := split_path path in
          match rest with
          | Some rest =>
              if bool_decide (name = "" ∨ name = ".")%string then walk non_dir final n i rest s
              else if bool_decide (name = "..")%string then
                match upgrade parent s with
                | Some p => walk non_dir final n p rest s
                | None => Ret (Err AxError.NotFound, s)
                end
              else
                match children !! name with
                | Some subdir => walk non_dir final n subdir rest s
                | None => Ret (Err AxError.NotFound, s)
                end
          | None => final i name s
          end
      end
  end.

Definition is_dot (name : string) : bool := bool_decide (name = "" ∨ name = "." ∨ name = "..")%string.

Definition create (i : nat) (path : string) (ty : VfsNodeType) : M unit :=
  walk non_dir_create
    (λ i name, if is_dot name then sm_ret tt else create_node i name ty)
    (S (String.length path)) i path.

Definition remove (i : nat) (path : string) : M unit :=
  walk non_dir_remove
    (λ i name, if is_dot name then sm_err AxError.InvalidInput else remove_node i name)
    (S (String.length path)) i path.

(** The last part of [rename]: the new name is the last component of the
    destination, whatever its directory. *)
Definition rename_final (dst_path : string) (i : nat) (src_name : string) : M unit := λ s,
  match nodes s !! i with
  | Some (DirNode parent children) =>
      let dst_name := after_last_slash (trim_start dst_path) in
      if negb (exist src_name children) then Ret (Err AxError.NotFound, s)
      else if exist dst_name children then Ret (Err AxError.AlreadyExists, s)
      else
        match children !! src_name with
        | Some node =>
            Ret (Ok tt, set_nodes (<[i := DirNode parent (<[dst_name := node]> (delete src_name children))]> (nodes s)) s)
        | None => Ret (Err AxError.NotFound, s)
        end
  | _ => Panic
  end.
Definition rename (i : nat) (src_path dst_path : string) : M unit :=
  walk non_dir_rename (rename_final dst_path) (S (String.length src_path)) i src_path.

(** [read_dir]: the entries written to the buffer of [n] entries; [names] is what
    is left of the iterator over the children. *)
Fixpoint read_dir_loop (n : nat) (idx : Z) (names : list string) (children : gmap string nat) (s : store) :
    outcome (list (string * VfsNodeType)) :=
  match n with
  | O => Ret []
  | S k =>
      if idx =? 0 then r ← read_dir_loop k (uadd idx 1) names children s; Ret ((".", Dir)%string :: r)
      else if idx =? 1 then r ← read_dir_loop k (uadd idx 1) names children s; Ret (("..", Dir)%string :: r)
      else
        match names with
        | [] => Ret []
        | name :: names =>
            match children !! name with
            | Some j =>
                a ← get_attr j s;
                r ← read_dir_loop k (uadd idx 1) names children s;
                Ret ((name, attr_type a) :: r)
            | None => Panic
            end
        end
  end.
Definition read_dir (i : nat) (start_idx : Z) (dirents_len : nat) (s : store) :
    outcome (result (list (string * VfsNodeType)) AxError.t) :=
  match nodes s !! i with
  | Some (DirNode _ children) =>
      let names := drop (Z.to_nat (Z.max start_idx 2 - 2)) (get_entries children) in
      Ok <$> read_dir_loop dirents_len start_idx names children s
  | Some (FileNode _) => Ret (Err non_dir_read_dir)
  | None => Panic
  end.

(** ** [RamFileSystem] *)

Record RamFileSystem : Type := { fs_parent : option nat; fs_root : nat }.

(** A new filesystem: its root has no parent, and is pinned by the filesystem. *)
Definition fs_new (s : store) : RamFileSystem * store :=
  ({| fs_parent := None; fs_root := next s |},
   {| nodes := <[next s := dir_new None]> (nodes s); next := S (next s);
      pinned := <[next s := 1%nat]> (pinned s) |}).

Definition set_parent (i : nat) (parent : option nat) (s : store) : outcome store :=
  match nodes s !! i with
  | Some (DirNode _ children) => Ret (set_nodes (<[i := DirNode parent children]> (nodes s)) s)
  | _ => Panic
  end.

(** [mount]: the parent of the root becomes the parent of the mount point; the
    filesystem keeps the first one it was given ([Once]), and keeps it alive. *)
Definition mount (mount_point_parent : option nat) (fs : RamFileSystem) (s : store) :
    outcome (RamFileSystem * store) :=
  match mount_point_parent with
  | Some p =>
      let parent := default p (fs_parent fs) in
      let s :=
        match fs_parent fs with
        | Some _ => s
        | None => {| nodes := nodes s; next := next s; pinned := <[p := S (default 0%nat (pinned s !! p))]> (pinned s) |}
        end in
      s ← set_parent (fs_root fs) (Some parent) s;
      Ret ({| fs_parent := Some parent; fs_root := fs_root fs |}, s)
  | None => s ← set_parent (fs_root fs) None s; Ret (fs, s)
  end.

(** ** Reference: paths as lists of components *)

(** [path.split('/')]. *)
Fixpoint fields (path : string) : list string :=
  match path with
  | EmptyString => [EmptyString]
  | String c rest =>
      if bool_decide (c = slash) then EmptyString :: fields rest
      else match fields rest with f :: fs => String c f :: fs | [] => [String c EmptyString] end
  end.
(** The components that count: empty ones are skipped, except a last one, which a
    path that ends in ['/'] has. *)
Definition components (path : string) : list string :=
  filter (λ f, f ≠ ""%string) (removelast (fields path)) ++ [List.last (fields path) ""%string].

(** One component, from the directory [i]. *)
Definition step_into (i : nat) (parent : option nat) (children : gmap string nat) (name : string) (s : store) :
    result nat AxError.t :=
  if bool_decide (name = "" ∨ name = ".")%string then Ok i
  else if bool_decide (name = "..")%string then ok_or (upgrade parent s) AxError.NotFound
  else ok_or (children !! name) AxError.NotFound.

(** Following components from a node; only directories have any. *)
Fixpoint resolve (non_dir : AxError.t) (s : store) (i : nat) (names : list string) : result nat AxError.t :=
  match names with
  | [] => Ok i
  | name :: names =>
      match nodes s !! i with
      | Some (DirNode parent children) =>
          match step_into i parent children name s with
          | Ok j => resolve non_dir s j names
          | Err e => Err e
          end
      | _ => Err non_dir
      end
  end.

(** ** Invariant *)

Definition has_child (s : store) (i : nat) (name : string) (j : nat) : Prop :=
  ∃ parent children, nodes s !! i = Some (DirNode parent children) ∧ children !! name = Some j.

Record ramfs_wf (s : store) : Prop := {
  wf_child i name j : has_child s i name j → is_Some (nodes s !! j);
  wf_fresh i : is_Some (nodes s !! i) → (i < next s)%nat;
  wf_unique i name i' name' j : has_child s i name j → has_child s i' name' j → i = i' ∧ name = name';
  wf_parent i name j p sub : has_child s i name j → nodes s !! j = Some (DirNode p sub) → p = Some i;
}.

End ramfs.

(** ** Lemmas on paths *)

Lemma fields_split path :
  fields path = match split_slash path with (name, Some rest) => name :: fields rest | (name, None) => [name] end.
Proof.
  induction path as [|c path IH]; simpl; [done|]. case_bool_decide; [done|].
  rewrite IH. by destruct (split_slash path) as [name [rest|]].
Qed.

Lemma fields_cons path : ∃ f fs, fields path = f :: fs.
Proof. rewrite fields_split. destruct (split_slash path) as [name [rest|]]; by do 2 eexists. Qed.

Lemma components_trim path : components (trim_start path) = components path.
Proof.
  induction path as [|c path IH]; simpl; [done|]. case_bool_decide; [|done].
  rewrite IH. unfold components. simpl. rewrite bool_decide_true by done.
  destruct (fields_cons path) as (f & fs & ->). done.
Qed.

Lemma split_slash_trim_nonempty path name rest :
  split_slash (trim_start path) = (name, Some rest) → name ≠ ""%string.
Proof.
  induction path as [|c path IH]; simpl; [done|]. case_bool_decide as Hc; [done|]. simpl.
  rewrite bool_decide_false by done. destruct (split_slash path) as [n r]. by intros [= <- ->].
Qed.

Lemma components_split path :
  components path =
    let (name, rest) := split_path path in
    name :: match rest with Some rest => components rest | None => [] end.
Proof.
  rewrite <- components_trim. unfold split_path, components. rewrite fields_split.
  destruct (split_slash (trim_start path)) as [name [rest|]] eqn:Hs; [|done].
  apply split_slash_trim_nonempty in Hs. destruct (fields_cons rest) as (f & fs & Hf).
  rewrite Hf. simpl. rewrite filter_cons_True by done. done.
Qed.

Lemma components_cons path : ∃ c cs, components path = c :: cs.
Proof. rewrite components_split. destruct (split_path path). by do 2 eexists. Qed.
Lemma removelast_components name path :
  removelast (name :: components path) = name :: removelast (components path).
Proof. by destruct (components_cons path) as (c & cs & ->). Qed.
Lemma last_components name path d :
  List.last (name :: components path) d = List.last (components path) d.
Proof. by destruct (components_cons path) as (c & cs & ->). Qed.

Lemma split_slash_length path name rest :
  split_slash path = (name, Some rest) → (String.length rest < String.length path)%nat.
Proof.
  revert name. induction path as [|c path IH]; intros name; simpl; [done|].
  case_bool_decide; [intros [= <- <-]; lia|].
  destruct (split_slash path) as [n r] eqn:Hs. intros [= <- ->]. specialize (IH n eq_refl). lia.
Qed.
Lemma trim_start_length path : (String.length (trim_start path) ≤ String.length path)%nat.
Proof. induction path as [|c path IH]; simpl; [done|]. case_bool_decide; simpl; lia. Qed.
Lemma split_path_length path name rest :
  split_path path = (name, Some rest) → (String.length rest < String.length path)%nat.
Proof. intros Hs%split_slash_length. pose proof (trim_start_length path). lia. Qed.

(** ** Walking *)

Section ramfs_proofs.
Context {defaults : VfsDefaults}.

Lemma step_into_some i parent children name s j :
  ramfs_wf s → nodes s !! i = Some (DirNode parent children) →
  step_into i parent children name s = Ok j → is_Some (nodes s !! j).
Proof.
  intros Hwf Hi. unfold step_into. case_bool_decide; [intros [= <-]; by eexists|].
  case_bool_decide.
  - unfold upgrade. destruct parent as [p|]; [|done]. destruct (nodes s !! p) eqn:Hp; [|done].
    intros [= <-]. by eexists.
  - destruct (children !! name) eqn:Hc; [|done]. intros [= <-]. apply (wf_child _ Hwf i name). by do 2 eexists.
Qed.

Lemma resolve_some nd s i names j :
  ramfs_wf s → is_Some (nodes s !! i) → resolve nd s i names = Ok j → is_Some (nodes s !! j).
Proof.
  intros Hwf. revert i. induction names as [|name names IH]; intros i Hi; simpl; [by intros [= <-]|].
  destruct (nodes s !! i) as [[|parent children]|] eqn:Hn; try done.
  destruct (step_into _ _ _ _ _) eqn:Hs; [|done]. apply IH. by eapply step_into_some.
Qed.

Lemma lookup_from_resolve fuel i path s :
  ramfs_wf s → is_Some (nodes s !! i) → (String.length path < fuel)%nat →
  lookup_from fuel i path s = Ret (resolve non_dir_lookup s i (components path)).
Proof.
  intros Hwf. revert i path. induction fuel as [|n IH]; intros i path Hi Hf; [lia|].
  rewrite components_split. destruct (split_path path) as [name rest] eqn:Hs. simpl. rewrite Hs.
  destruct (nodes s !! i) as [[|parent children]|] eqn:Hn; [done| |by destruct Hi].
  change (if bool_decide (name = "" ∨ name = ".")%string then Ok i else _) with (step_into i parent children name s).
  destruct (step_into i parent children name s) as [j|] eqn:Hst; [|done].
  destruct rest as [rest|]; [|done]. apply split_path_length in Hs.
  apply IH; [by eapply step_into_some|lia].
Qed.

Lemma walk_resolve nd final fuel i path s :
  ramfs_wf s → is_Some (nodes s !! i) → (String.length path < fuel)%nat →
  walk nd final fuel i path s =
    match resolve nd s i (removelast (components path)) with
    | Ok d => match nodes s !! d with
              | Some (DirNode _ _) => final d (List.last (components path) ""%string) s
              | _ => Ret (Err nd, s)
              end
    | Err e => Ret (Err e, s)
    end.
Proof.
  intros Hwf. revert i path. induction fuel as [|n IH]; intros i path Hi Hf; [lia|].
  rewrite components_split. destruct (split_path path) as [name rest] eqn:Hs. cbn [walk]. rewrite Hs.
  destruct rest as [rest|]; [rewrite removelast_components, last_components|];
    cbn [resolve removelast List.last];
    (destruct (nodes s !! i) as [[|parent children]|] eqn:Hn; [done| |by destruct Hi]); [|done].
  apply split_path_length in Hs.
  assert (Hst := λ j, step_into_some i parent children name s j Hwf Hn).
  unfold step_into in *. case_bool_decide; [apply IH; [by eexists|lia]|].
  case_bool_decide.
  - destruct (upgrade parent s); simpl; [|done]. apply IH; [by apply Hst|lia].
  - destruct (children !! name); simpl; [|done]. apply IH; [by apply Hst|lia].
Qed.

(** ** The operations on one directory *)

(** Replacing the children of the directory [i]. *)
Definition with_children (i : nat) (parent : option nat) (children : gmap string nat) (s : store) : store :=
  set_nodes (<[i := DirNode parent children]> (nodes s)) s.

Lemma has_child_with i parent ch ch' s a n b :
  nodes s !! i = Some (DirNode parent ch) →
  has_child (with_children i parent ch' s) a n b ↔
    (a = i ∧ ch' !! n = Some b) ∨ (a ≠ i ∧ has_child s a n b).
Proof.
  intros Hi. unfold has_child, with_children. simpl. destruct (decide (a = i)) as [->|Hne].
  - rewrite lookup_insert_eq. naive_solver.
  - rewrite lookup_insert_ne by done. naive_solver.
Qed.

Lemma has_child_dir i parent ch s n b :
  nodes s !! i = Some (DirNode parent ch) → has_child s i n b ↔ ch !! n = Some b.
Proof. intros Hi. unfold has_child. rewrite Hi. naive_solver. Qed.

(** The new children of [i] are old ones, or nodes that were nobody's child. *)
Definition child_of_dir (i : nat) (ch : gmap string nat) (s : store) (b : nat) : Prop :=
  (∃ n, ch !! n = Some b) ∨
  (is_Some (nodes s !! b) ∧ (∀ a n, ¬ has_child s a n b) ∧
   (∀ p sub, nodes s !! b = Some (DirNode p sub) → p = Some i)).

Lemma wf_with_children i parent ch ch' s :
  ramfs_wf s → nodes s !! i = Some (DirNode parent ch) →
  (∀ n b, ch' !! n = Some b → child_of_dir i ch s b) →
  (∀ n n' b, ch' !! n = Some b → ch' !! n' = Some b → n = n') →
  ramfs_wf (with_children i parent ch' s).
Proof.
  intros [W1 W2 W3 W4] Hi Hold Hinj. assert (Hch := λ a n b, has_child_with i parent ch ch' s a n b Hi).
  assert (Hd := λ n b, has_child_dir i parent ch s n b Hi).
  assert (Hold' : ∀ n b a n', ch' !! n = Some b → has_child s a n' b → a = i).
  { intros n b a n' Hb Hc. destruct (Hold _ _ Hb) as [[m Hm]|(_ & Ho & _)]; [|by apply Ho in Hc].
    apply Hd in Hm. by destruct (W3 _ _ _ _ _ Hc Hm). }
  split.
  - intros a n b. unfold with_children. simpl. rewrite lookup_insert_is_Some', Hch.
    intros [[-> Hb]|[_ Hc]]; right; [|by eapply W1].
    destruct (Hold _ _ Hb) as [[m Hm]|[? _]]; [|done]. eapply W1. by apply Hd.
  - intros j. unfold with_children. simpl. rewrite lookup_insert_is_Some'.
    intros [->|Hj]; apply W2; [by eexists|done].
  - intros a n a' n' b. rewrite !Hch. intros [[-> Hb]|[Ha Hc]] [[-> Hb']|[Ha' Hc']].
    + split; [done|]. by eapply Hinj.
    + by rewrite (Hold' _ _ _ _ Hb Hc') in Ha'.
    + by rewrite (Hold' _ _ _ _ Hb' Hc) in Ha.
    + by eapply W3.
  - intros a n b p sub. rewrite Hch. unfold with_children. simpl.
    assert (Hp : ∀ p' sub', nodes s !! b = Some (DirNode p' sub') →
      (a = i ∧ ch' !! n = Some b) ∨ (a ≠ i ∧ has_child s a n b) → p' = Some a).
    { intros p' sub' Hb [[-> Hc]|[_ Hc]]; [|by eapply W4].
      destruct (Hold _ _ Hc) as [[m Hm]|(_ & _ & Ho)]; [eapply W4; [by apply Hd|done]|by eapply Ho]. }
    intros Hc [[<- [= <- <-]]|[_ Hb]]%lookup_insert_Some; [by eapply Hp|by eapply Hp].
Qed.

(** Adding a new node to the store. *)
Lemma wf_fresh_node s node :
  ramfs_wf s → (node = FileNode [] ∨ ∃ p, node = DirNode p ∅) →
  ramfs_wf {| nodes := <[next s := node]> (nodes s); next := S (next s); pinned := pinned s |}.
Proof.
  intros [W1 W2 W3 W4] Hn.
  assert (Hf : nodes s !! next s = None).
  { destruct (nodes s !! next s) eqn:Hx; [|done]. assert (next s < next s)%nat by (by apply W2; eexists). lia. }
  set (s' := {| nodes := _ |}).
  assert (Hc : ∀ a n b, has_child s' a n b → has_child s a n b ∧ a ≠ next s).
  { intros a n b (p & ch & Ha & Hb). unfold s' in Ha. simpl in Ha. apply lookup_insert_Some in Ha as [[<- ->]|[? Ha]].
    - destruct Hn as [?|[? Hn]]; simplify_eq.
    - split; [by exists p, ch|done]. }
  split.
  - intros a n b [Hc' _]%Hc. simpl. apply lookup_insert_is_Some'. right. by eapply W1.
  - intros j Hj. simpl in *. rewrite lookup_insert_is_Some' in Hj. destruct Hj as [->|Hj]; [lia|].
    apply W2 in Hj. lia.
  - intros a n a' n' b [H1 _]%Hc [H2 _]%Hc. by eapply W3.
  - intros a n b p sub [Hc' _]%Hc. simpl. rewrite lookup_insert_Some. intros [[<- _]|[_ Hb]]; [|by eapply W4].
    apply W1 in Hc'. rewrite Hf in Hc'. by destruct Hc'.
Qed.


Lemma fresh_none s : ramfs_wf s → nodes s !! next s = None.
Proof.
  intros Hwf. destruct (nodes s !! next s) eqn:Hx; [|done].
  assert (next s < next s)%nat by (by apply (wf_fresh _ Hwf); eexists). lia.
Qed.

(** [create_node] on a free name. *)
Lemma create_node_ok i parent ch name ty s :
  ramfs_wf s → nodes s !! i = Some (DirNode parent ch) → ch !! name = None → ty = File ∨ ty = Dir →
  ∃ s', create_node i name ty s = Ret (Ok tt, s') ∧ ramfs_wf s' ∧
    nodes s' !! i = Some (DirNode parent (<[name := next s]> ch)) ∧
    (∃ node, nodes s' !! next s = Some node ∧ node_type node = ty ∧
             (node = FileNode [] ∨ node = DirNode (Some i) ∅)) ∧
    (∀ j, j ≠ i → j ≠ next s → nodes s' !! j = nodes s !! j) ∧ pinned s' = pinned s.
Proof.
  intros Hwf Hi Hn Hty. pose proof (fresh_none s Hwf) as Hf.
  assert (Hni : next s ≠ i) by congruence.
  unfold create_node. rewrite Hi. unfold exist. rewrite bool_decide_false by (rewrite Hn; by intros []).
  set (node := if bool_decide (ty = File) then file_new else dir_new (Some i)).
  assert (Hnode : node_type node = ty ∧ (node = FileNode [] ∨ node = DirNode (Some i) ∅)).
  { destruct Hty as [->| ->]; (split; [done|]); [by left|by right]. }
  set (s1 := {| nodes := <[next s := node]> (nodes s); next := S (next s); pinned := pinned s |}).
  assert (Hwf1 : ramfs_wf s1).
  { apply wf_fresh_node; [done|]. destruct Hnode as [_ [?|?]]; [by left|right; by eexists]. }
  assert (Hi1 : nodes s1 !! i = Some (DirNode parent ch)) by (unfold s1; simpl; by rewrite lookup_insert_ne).
  assert (Hch : ∀ n, ch !! n ≠ Some (next s)).
  { intros n Hc. destruct (wf_child _ Hwf i n (next s)) as [? Hx]; [by exists parent, ch|]. congruence. }
  exists (with_children i parent (<[name := next s]> ch) s1).
  split; [destruct Hty as [->| ->]; done|]. split_and!.
  - apply (wf_with_children i parent ch); [done..| |].
    + intros n b [[<- <-]|[_ Hb]]%lookup_insert_Some; [right|left; by exists n].
      unfold s1. simpl. rewrite lookup_insert_eq. split_and!; [by eexists| |].
      * intros a n (p & c & Ha & Hc). simpl in Ha.
        apply lookup_insert_Some in Ha as [[<- Ha]|[_ Ha]].
        -- destruct Hnode as [_ [Hx|Hx]]; rewrite Hx in Ha; simplify_eq.
        -- destruct (wf_child _ Hwf a n (next s)) as [? Hx]; [by exists p, c|]. congruence.
      * intros p sub [= Hx]. destruct Hnode as [_ [Hy|Hy]]; congruence.
    + intros n n' b [[<- <-]|[_ Hn1]]%lookup_insert_Some [[<- Hn2]|[_ Hn2]]%lookup_insert_Some; try done.
      * by apply Hch in Hn2.
      * subst b. by apply Hch in Hn1.
      * destruct (wf_unique _ Hwf i n i n' b); [by do 2 eexists..|done].
  - unfold with_children. simpl. by rewrite lookup_insert_eq.
  - exists node. unfold with_children, s1. simpl. rewrite lookup_insert_ne, lookup_insert_eq by done. done.
  - intros j ??. unfold with_children, s1. simpl. by rewrite !lookup_insert_ne by done.
  - done.
Qed.

Lemma wf_delete_node j s :
  ramfs_wf s → (∀ a n, ¬ has_child s a n j) → ramfs_wf (set_nodes (delete j (nodes s)) s).
Proof.
  intros [W1 W2 W3 W4] Hno.
  assert (Hc : ∀ a n b, has_child (set_nodes (delete j (nodes s)) s) a n b → has_child s a n b).
  { intros a n b (p & ch & Ha & Hb). simpl in Ha. apply lookup_delete_Some in Ha as [_ Ha]. by exists p, ch. }
  split.
  - intros a n b Hb%Hc. simpl. rewrite lookup_delete_ne by (intros ->; by apply Hno in Hb). by eapply W1.
  - intros i [x Hx]. simpl in Hx. apply lookup_delete_Some in Hx as [_ Hx]. apply W2. by eexists.
  - intros a n a' n' b H1%Hc H2%Hc. by eapply W3.
  - intros a n b p sub Hb%Hc. simpl. intros [_ Hx]%lookup_delete_Some. by eapply W4.
Qed.

(** [remove_node] of an existing name that is not a directory with entries. *)
Lemma remove_node_ok i parent ch name j s :
  ramfs_wf s → nodes s !! i = Some (DirNode parent ch) → ch !! name = Some j →
  ((∃ c, nodes s !! j = Some (FileNode c)) ∨ ∃ p, nodes s !! j = Some (DirNode p ∅)) →
  ∃ s', remove_node i name s = Ret (Ok tt, s') ∧ ramfs_wf s' ∧
    nodes s' !! i = Some (DirNode parent (delete name ch)) ∧
    (∀ k, k ≠ i → k ≠ j → nodes s' !! k = nodes s !! k) ∧
    (nodes s' !! j = None ∧ (¬ ∃ n, pinned s !! j = Some (S n)) ∨
     nodes s' !! j = nodes s !! j ∧ ∃ n, pinned s !! j = Some (S n)).
Proof.
  intros Hwf Hi Hj Hk.
  assert (Hji : j ≠ i).
  { intros ->. destruct Hk as [[c Hk]|[p Hk]]; rewrite Hk in Hi; simplify_eq. }
  set (s1 := with_children i parent (delete name ch) s).
  assert (Hwf1 : ramfs_wf s1).
  { apply (wf_with_children i parent ch); [done..| |].
    - intros n b [_ Hb]%lookup_delete_Some. left. by exists n.
    - intros n n' b [_ H1]%lookup_delete_Some [_ H2]%lookup_delete_Some.
      destruct (wf_unique _ Hwf i n i n' b); [by do 2 eexists..|done]. }
  assert (Hno : ∀ a n, ¬ has_child s1 a n j).
  { intros a n. unfold s1. rewrite (has_child_with i parent ch) by done. intros [[-> Hc]|[Ha Hc]].
    - apply lookup_delete_Some in Hc as [Hne Hc].
      destruct (wf_unique _ Hwf i n i name j); [by do 2 eexists..|done].
    - destruct (wf_unique _ Hwf a n i name j) as [??]; [done|by do 2 eexists|done]. }
  exists (release j s1). split.
  { unfold remove_node. rewrite Hi, Hj. destruct Hk as [[c ->]|[p ->]]; [done|]. by rewrite bool_decide_true. }
  assert (Hj1 : nodes s1 !! j = nodes s !! j) by (unfold s1, with_children; simpl; by rewrite lookup_insert_ne).
  unfold release. change (pinned s1) with (pinned s).
  destruct (pinned s !! j) as [[|n]|] eqn:Hpin.
  2: { split_and!; [done|unfold s1, with_children; simpl; by rewrite lookup_insert_eq| |].
       - intros k ??. unfold s1, with_children. simpl. by rewrite lookup_insert_ne.
       - right. split; [done|]. by exists n. }
  all: split_and!; [by apply wf_delete_node
    |simpl; rewrite lookup_delete_ne by done; unfold s1, with_children; simpl; by rewrite lookup_insert_eq
    |intros k ??; simpl; rewrite lookup_delete_ne by done; unfold s1, with_children; simpl; by rewrite lookup_insert_ne
    |left; simpl; rewrite lookup_delete_eq; split; [done|]; by intros [? ?]; simplify_eq].
Qed.

Lemma rename_final_ok dst i parent ch src j s :
  ramfs_wf s → nodes s !! i = Some (DirNode parent ch) → ch !! src = Some j →
  let dst_name := after_last_slash (trim_start dst) in
  ch !! dst_name = None →
  ∃ s', rename_final dst i src s = Ret (Ok tt, s') ∧ ramfs_wf s' ∧
    s' = with_children i parent (<[dst_name := j]> (delete src ch)) s.
Proof.
  intros Hwf Hi Hs dst_name Hd. exists (with_children i parent (<[dst_name := j]> (delete src ch)) s).
  split_and!; [| |done].
  - unfold rename_final. rewrite Hi. cbv zeta. fold dst_name. unfold exist.
    rewrite bool_decide_true by (rewrite Hs; by eexists). simpl.
    rewrite bool_decide_false by (rewrite Hd; by intros []). by rewrite Hs.
  - assert (Hu : ∀ n n' b, ch !! n = Some b → ch !! n' = Some b → n = n').
    { intros n n' b ??. destruct (wf_unique _ Hwf i n i n' b); [by do 2 eexists..|done]. }
    apply (wf_with_children i parent ch); [done..| |].
    + intros n b [[_ <-]|[_ [_ Hb]%lookup_delete_Some]]%lookup_insert_Some; left; by eexists.
    + intros n n' b [[<- <-]|[Hn1 [Hn1' Hb1]%lookup_delete_Some]]%lookup_insert_Some
        [[<- Hb2]|[Hn2 [Hn2' Hb2]%lookup_delete_Some]]%lookup_insert_Some; try done.
      * by destruct Hn2'; eapply Hu.
      * subst b. by destruct Hn1'; eapply Hu.
      * by eapply Hu.
Qed.

Lemma wf_set_file i c c' s :
  ramfs_wf s → nodes s !! i = Some (FileNode c) → ramfs_wf (set_nodes (<[i := FileNode c']> (nodes s)) s).
Proof.
  intros [W1 W2 W3 W4] Hi.
  assert (Hc : ∀ a n b, has_child (set_nodes (<[i := FileNode c']> (nodes s)) s) a n b → has_child s a n b).
  { intros a n b (p & ch & Ha & Hb). simpl in Ha. apply lookup_insert_Some in Ha as [[_ ?]|[_ Ha]]; [done|].
    by exists p, ch. }
  split.
  - intros a n b Hb%Hc. simpl. apply lookup_insert_is_Some'. right. by eapply W1.
  - intros j. simpl. rewrite lookup_insert_is_Some'. intros [->|Hj]; apply W2; [by eexists|done].
  - intros a n a' n' b Hc1%Hc Hc2%Hc. by eapply W3.
  - intros a n b p sub Hb%Hc. simpl. intros [[_ ?]|[_ Hx]]%lookup_insert_Some; [done|]. by eapply W4.
Qed.

(** ** Every state of the store *)

Lemma create_node_total i name ty s :
  ramfs_wf s → (∃ p ch, nodes s !! i = Some (DirNode p ch)) →
  ∃ r s', create_node i name ty s = Ret (r, s') ∧ ramfs_wf s' ∧ (is_ok r = false → s' = s).
Proof.
  intros Hwf (p & ch & Hi). destruct (ch !! name) eqn:Hn.
  { exists (Err AxError.AlreadyExists), s. split_and!; [|done..]. unfold create_node. rewrite Hi. unfold exist.
    rewrite bool_decide_true; [done|]. rewrite Hn. by eexists. }
  destruct (decide (ty = File ∨ ty = Dir)) as [Hty|Hty].
  - destruct (create_node_ok i p ch name ty s) as (s' & ? & ? & _); [done..|]. exists (Ok tt), s'. done.
  - exists (Err AxError.Unsupported), s. split_and!; [|done..]. unfold create_node. rewrite Hi. unfold exist.
    rewrite bool_decide_false by (rewrite Hn; by intros []). by destruct ty; try (destruct Hty; by auto).
Qed.

Lemma remove_node_total i name s :
  ramfs_wf s → (∃ p ch, nodes s !! i = Some (DirNode p ch)) →
  ∃ r s', remove_node i name s = Ret (r, s') ∧ ramfs_wf s' ∧ (is_ok r = false → s' = s).
Proof.
  intros Hwf (p & ch & Hi). destruct (ch !! name) as [j|] eqn:Hn.
  2: { exists (Err AxError.NotFound), s. split_and!; [|done..]. unfold remove_node. by rewrite Hi, Hn. }
  destruct (wf_child _ Hwf i name j) as [[c|q sub] Hj]; [by do 2 eexists|..].
  - destruct (remove_node_ok i p ch name j s) as (s' & ? & ? & _); [done..|left; by eexists|].
    exists (Ok tt), s'. done.
  - destruct (decide (sub = ∅)) as [->|Hsub].
    + destruct (remove_node_ok i p ch name j s) as (s' & ? & ? & _); [done..|right; by eexists|].
      exists (Ok tt), s'. done.
    + exists (Err AxError.DirectoryNotEmpty), s. split_and!; [|done..]. unfold remove_node.
      rewrite Hi, Hn, Hj. by rewrite bool_decide_false.
Qed.

Lemma rename_final_total dst i src s :
  ramfs_wf s → (∃ p ch, nodes s !! i = Some (DirNode p ch)) →
  ∃ r s', rename_final dst i src s = Ret (r, s') ∧ ramfs_wf s' ∧ (is_ok r = false → s' = s).
Proof.
  intros Hwf (p & ch & Hi). destruct (ch !! src) as [j|] eqn:Hs.
  2: { exists (Err AxError.NotFound), s. split_and!; [|done..]. unfold rename_final, exist. rewrite Hi.
       rewrite bool_decide_false by (rewrite Hs; by intros []). done. }
  destruct (ch !! after_last_slash (trim_start dst)) eqn:Hd.
  { exists (Err AxError.AlreadyExists), s. split_and!; [|done..]. unfold rename_final, exist. rewrite Hi.
    rewrite bool_decide_true by (rewrite Hs; by eexists). simpl.
    rewrite bool_decide_true by (rewrite Hd; by eexists). done. }
  destruct (rename_final_ok dst i p ch src j s) as (s' & ? & ? & _); [done..|].
  exists (Ok tt), s'. done.
Qed.

Lemma walk_total nd final i path s :
  ramfs_wf s → is_Some (nodes s !! i) →
  (∀ d name, (∃ p ch, nodes s !! d = Some (DirNode p ch)) →
     ∃ r s', final d name s = Ret (r, s') ∧ ramfs_wf s' ∧ (is_ok r = false → s' = s)) →
  ∃ r s', walk nd final (S (String.length path)) i path s = Ret (r, s') ∧ ramfs_wf s' ∧ (is_ok r = false → s' = s).
Proof.
  intros Hwf Hi Hf. rewrite walk_resolve by (done || lia).
  destruct (resolve nd s i _) as [d|e] eqn:Hr; [|by exists (Err e), s].
  destruct (nodes s !! d) as [[c|p ch]|] eqn:Hd; [by exists (Err nd), s| |by exists (Err nd), s].
  apply Hf. by exists p, ch.
Qed.

(** ** Resolving a path after an operation *)

Definition grows (s s' : store) : Prop :=
  ∀ i, match nodes s !! i with
       | Some (DirNode p ch) => ∃ ch', nodes s' !! i = Some (DirNode p ch') ∧ ch ⊆ ch'
       | Some (FileNode _) => ∃ c, nodes s' !! i = Some (FileNode c)
       | None => True
       end.

Lemma grows_some s s' j : grows s s' → is_Some (nodes s !! j) → is_Some (nodes s' !! j).
Proof.
  intros Hg [n Hn]. specialize (Hg j). rewrite Hn in Hg. destruct n; [destruct Hg as [? ->]|destruct Hg as (?&->&_)];
    by eexists.
Qed.

Lemma resolve_grows nd s s' i names j :
  grows s s' → resolve nd s i names = Ok j → resolve nd s' i names = Ok j.
Proof.
  intros Hg. revert i. induction names as [|name names IH]; intros i; simpl; [done|].
  pose proof (Hg i) as Hgi. destruct (nodes s !! i) as [[c|p ch]|] eqn:Hi; try done.
  destruct Hgi as (ch' & -> & Hsub).
  destruct (step_into i p ch name s) as [k|] eqn:Hs; [|done].
  assert (step_into i p ch' name s' = Ok k) as ->; [|apply IH].
  revert Hs. unfold step_into. case_bool_decide; [done|]. case_bool_decide.
  - unfold upgrade. destruct p as [q|]; [|done]. destruct (nodes s !! q) eqn:Hq; [|done].
    destruct (grows_some _ _ q Hg) as [nq ->]; [by eexists|done].
  - destruct (ch !! name) eqn:Hc; [|done]. by rewrite (lookup_weaken _ _ _ _ Hc Hsub).
Qed.

Lemma resolve_snoc nd s i names name :
  resolve nd s i (names ++ [name]) =
    match resolve nd s i names with
    | Ok d => resolve nd s d [name]
    | Err e => Err e
    end.
Proof.
  revert i. induction names as [|n names IH]; intros i; [done|]. cbn [resolve app].
  destruct (nodes s !! i) as [[]|]; try done. destruct (step_into _ _ _ _ _); [apply IH|done].
Qed.

Lemma components_snoc path :
  components path = removelast (components path) ++ [List.last (components path) ""%string].
Proof.
  destruct (components_cons path) as (c & cs & ->). by apply app_removelast_last.
Qed.

(** [resolve] errors depend on the node kind error only through files. *)
Lemma resolve_nd nd nd' s i names j : resolve nd s i names = Ok j → resolve nd' s i names = Ok j.
Proof.
  revert i. induction names as [|name names IH]; intros i; simpl; [done|].
  destruct (nodes s !! i) as [[]|]; try done. destruct (step_into _ _ _ _ _); [apply IH|done].
Qed.

(** After the link [name] of [d] is gone, a path that went through it is not
    found any more. *)
Lemma resolve_unlinked nd s s' d p ch name i names :
  ramfs_wf s' → nodes s !! d = Some (DirNode p ch) → nodes s' !! d = Some (DirNode p (delete name ch)) →
  (∀ k, k ≠ d → is_Some (nodes s' !! k) → nodes s' !! k = nodes s !! k) → is_dot name = false →
  is_Some (nodes s' !! i) → resolve nd s i names = Ok d →
  resolve nd s' i (names ++ [name]) = Err AxError.NotFound.
Proof.
  intros Hwf' Hd Hd' Hk Hdot. revert i. induction names as [|c names IH]; intros i Hi.
  - intros [= ->]. simpl. rewrite Hd'. unfold step_into. unfold is_dot in Hdot.
    apply bool_decide_eq_false in Hdot. rewrite !bool_decide_false by tauto. by rewrite lookup_delete_eq.
  - cbn [resolve app]. assert (Hi' : ∃ ch', nodes s' !! i = Some (match nodes s !! i with
        Some (DirNode q _) => DirNode q ch' | Some n => n | None => FileNode [] end) ∧
        ∀ q ch0, nodes s !! i = Some (DirNode q ch0) → ch' = (if decide (i = d) then delete name ch0 else ch0)).
    { destruct (decide (i = d)) as [->|Hne].
      - exists (delete name ch). rewrite Hd. split; [done|]. naive_solver.
      - rewrite (Hk i Hne Hi). destruct (nodes s !! i) as [[c0|q ch0]|] eqn:Hn.
        + exists ∅. naive_solver.
        + exists ch0. naive_solver.
        + rewrite (Hk i Hne Hi), Hn in Hi. by destruct Hi. }
    destruct Hi' as (ch' & Hi' & Hch').
    destruct (nodes s !! i) as [[c0|q ch0]|] eqn:Hn; try done. rewrite Hi'. specialize (Hch' _ _ eq_refl).
    destruct (step_into i q ch0 c s) as [k|] eqn:Hs; [|done]. intros Hres.
    assert (step_into i q ch' c s' = Err AxError.NotFound ∨ step_into i q ch' c s' = Ok k) as [->| Hst]; [|done|].
    { revert Hs. unfold step_into. case_bool_decide; [auto|]. case_bool_decide.
      - unfold upgrade. destruct q as [q|]; [|done]. destruct (nodes s !! q); [|done].
        destruct (nodes s' !! q); simpl; auto.
      - destruct (ch0 !! c) as [k'|] eqn:Hc; [|done]. intros [= ->]. subst ch'. case_decide; [|rewrite Hc; auto].
        destruct (decide (c = name)) as [->|]; [rewrite lookup_delete_eq; auto|].
        rewrite lookup_delete_ne by done. rewrite Hc. auto. }
    rewrite Hst. apply IH; [|done]. by eapply step_into_some.
Qed.

End ramfs_proofs.
