(* ===== verification/RamfsProps.v ===== *)
(** Properties of the RAM filesystem. *)

From stdpp Require Import prelude gmap strings list sorting.
From Stdlib Require Import ZArith Lia.
From S2P Require Import Prelude Ramfs.
Local Open Scope Z_scope.

(** ** Listing a directory *)

#[export] Instance name_le_total : Total name_le.
Proof. intros a b. apply String.leb_total. Qed.

Definition entry (ch : gmap string nat) (s : store) (name : string) : string * VfsNodeType :=
  (name, match ch !! name with
         | Some j => match nodes s !! j with Some n => node_type n | None => File end
         | None => File
         end).
Definition dir_listing (ch : gmap string nat) (s : store) : list (string * VfsNodeType) :=
  (".", Dir)%string :: ("..", Dir)%string :: (entry ch s <$> get_entries ch).

Lemma get_entries_elem ch name : name ∈ get_entries ch ↔ is_Some (ch !! name).
Proof.
  unfold get_entries. rewrite merge_sort_Permutation. rewrite list_elem_of_fmap. split.
  - intros ([n j] & -> & Hin). apply elem_of_map_to_list in Hin. by eexists.
  - intros [j Hj]. exists (name, j). split; [done|]. by apply elem_of_map_to_list.
Qed.

Lemma get_entries_nodup ch : NoDup (get_entries ch).
Proof. unfold get_entries. rewrite merge_sort_Permutation. apply NoDup_fst_map_to_list. Qed.

Lemma get_entries_sorted ch : Sorted name_le (get_entries ch).
Proof. apply Sorted_merge_sort. apply _. Qed.

Lemma read_dir_loop_children ch s n idx names :
  ramfs_wf s → (∃ i, ∀ name j, ch !! name = Some j → has_child s i name j) →
  (∀ name, name ∈ names → is_Some (ch !! name)) → 2 ≤ idx → idx + Z.of_nat n < 2 ^ 64 →
  read_dir_loop n idx names ch s = Ret (take n (entry ch s <$> names)).
Proof.
  intros Hwf [i Hi]. revert idx names. induction n as [|n IH]; intros idx names Hn H2 Hlt; [done|].
  cbn [read_dir_loop]. rewrite (proj2 (Z.eqb_neq idx 0)), (proj2 (Z.eqb_neq idx 1)) by lia.
  destruct names as [|name names]; [done|]. destruct (Hn name) as [j Hj]; [by left|]. rewrite Hj.
  destruct (wf_child _ Hwf i name j) as [node Hnode]; [by apply Hi|].
  unfold get_attr. rewrite Hnode. rewrite uadd_small by lia. rewrite IH by (set_solver || lia).
  cbn [fmap list_fmap take]. unfold entry at 2. rewrite Hj, Hnode. by destruct node.
Qed.

(** [read_dir] writes the entries of the directory that start at [start_idx],
    as many as fit the buffer: [.], [..], and then each child exactly once in
    the order of the names, with its type. *)
Theorem read_dir_lists {defaults : VfsDefaults} i p ch s start_idx n :
  ramfs_wf s → nodes s !! i = Some (DirNode p ch) → 0 ≤ start_idx → start_idx + Z.of_nat n < 2 ^ 64 →
  read_dir i start_idx n s = Ret (Ok (take n (drop (Z.to_nat start_idx) (dir_listing ch s)))) ∧
  Sorted name_le (get_entries ch) ∧ NoDup (get_entries ch) ∧
  (∀ name, name ∈ get_entries ch ↔ is_Some (ch !! name)).
Proof.
  intros Hwf Hi H0 Hlt. split_and!; [|apply get_entries_sorted|apply get_entries_nodup|apply get_entries_elem].
  unfold read_dir. rewrite Hi. cbv zeta.
  assert (Hloop := λ n idx names, read_dir_loop_children ch s n idx names Hwf
    (ex_intro _ i (λ name j Hj, ex_intro _ p (ex_intro _ ch (conj Hi Hj))))).
  assert (Hall : ∀ k name, name ∈ drop k (get_entries ch) → is_Some (ch !! name)).
  { intros k name Hin. apply get_entries_elem. rewrite <- (take_drop k). set_solver. }
  destruct (decide (2 ≤ start_idx)) as [H2|H2].
  - rewrite Z.max_l by lia. rewrite Hloop by (eauto || lia). unfold dir_listing.
    replace (Z.to_nat start_idx) with (S (S (Z.to_nat (start_idx - 2)))) by lia.
    cbn [drop fmap outcome_fmap]. by rewrite fmap_drop.
  - rewrite Z.max_r by lia. change (drop (Z.to_nat (2 - 2)) (get_entries ch)) with (get_entries ch).
    assert (Hall0 := Hall 0%nat). rewrite drop_0 in Hall0.
    destruct n as [|n]; [done|]. assert (start_idx = 0 ∨ start_idx = 1) as [->| ->] by lia.
    + cbn [read_dir_loop]. rewrite Z.eqb_refl, uadd_small by lia. change (0 + 1) with 1.
      destruct n as [|n]; [done|]. cbn [read_dir_loop]. change (1 =? 0) with false. rewrite Z.eqb_refl, uadd_small by lia.
      rewrite Hloop by (done || lia). done.
    + cbn [read_dir_loop]. change (1 =? 0) with false. rewrite Z.eqb_refl, uadd_small by lia.
      rewrite Hloop by (done || lia). done.
Qed.

(** ** Paths and directories *)

Section ramfs_properties.
Context {defaults : VfsDefaults}.

(** [lookup] follows the components of the path: it terminates, and gives the
    node found by going through them one by one, where empty components and [.]
    stay, [..] goes to the parent, and a path that ends in a slash must name a
    directory. *)
Theorem lookup_follows_components i path s :
  ramfs_wf s → is_Some (nodes s !! i) →
  lookup i path s = Ret (resolve non_dir_lookup s i (components path)).
Proof. intros Hwf Hi. apply lookup_from_resolve; [done..|lia]. Qed.

(** [create], [remove] and [rename] never panic on a well-formed store, keep it
    well-formed (no dangling child, every node in at most one directory, the parent
    link of a child directory names the directory it is in), and change nothing
    when they return an error. *)
Theorem ramfs_ops_safe i s :
  ramfs_wf s → is_Some (nodes s !! i) →
  (∀ path ty, ∃ r s', create i path ty s = Ret (r, s') ∧ ramfs_wf s' ∧ (is_ok r = false → s' = s)) ∧
  (∀ path, ∃ r s', remove i path s = Ret (r, s') ∧ ramfs_wf s' ∧ (is_ok r = false → s' = s)) ∧
  (∀ src dst, ∃ r s', rename i src dst s = Ret (r, s') ∧ ramfs_wf s' ∧ (is_ok r = false → s' = s)).
Proof.
  intros Hwf Hi. split_and!; intros; apply walk_total; try done.
  - intros d name Hd. destruct (is_dot name); [by eexists _, s|by apply create_node_total].
  - intros d name Hd. destruct (is_dot name); [by eexists _, s|by apply remove_node_total].
  - intros d name Hd. by apply rename_final_total.
Qed.

Lemma walk_final nd final i path s r s' :
  ramfs_wf s → is_Some (nodes s !! i) → walk nd final (S (String.length path)) i path s = Ret (Ok r, s') →
  ∃ d p ch, resolve nd s i (removelast (components path)) = Ok d ∧ nodes s !! d = Some (DirNode p ch) ∧
    final d (List.last (components path) ""%string) s = Ret (Ok r, s').
Proof.
  intros Hwf Hi. rewrite walk_resolve by (done || lia).
  destruct (resolve _ _ _ _) as [d|] eqn:Hr; [|done].
  destruct (nodes s !! d) as [[c|p ch]|] eqn:Hd; try done. intros Hf. by exists d, p, ch.
Qed.

Lemma lookup_last i path s d p ch :
  ramfs_wf s → is_Some (nodes s !! i) →
  resolve non_dir_lookup s i (removelast (components path)) = Ok d →
  nodes s !! d = Some (DirNode p ch) → is_dot (List.last (components path) ""%string) = false →
  lookup i path s = Ret (ok_or (ch !! List.last (components path) ""%string) AxError.NotFound).
Proof.
  intros Hwf Hi Hr Hd Hdot. unfold lookup. rewrite lookup_from_resolve by (done || lia).
  pose proof (components_snoc path) as Hc. set (name := List.last (components path) ""%string) in *.
  rewrite Hc, resolve_snoc, Hr. simpl. rewrite Hd. unfold step_into.
  apply bool_decide_eq_false in Hdot. rewrite !bool_decide_false by tauto. by destruct (ch !! _).
Qed.

(** C18: After [create] succeeded on a path whose last component is a name, [lookup]
    of the path finds a new, empty node of the requested type; every node that
    existed is still there, with its content and at least its entries. *)
Theorem create_then_lookup i path ty s s' :
  ramfs_wf s → is_Some (nodes s !! i) → is_dot (List.last (components path) ""%string) = false →
  create i path ty s = Ret (Ok tt, s') →
  ∃ j node, lookup i path s' = Ret (Ok j) ∧ nodes s' !! j = Some node ∧ node_type node = ty ∧
    nodes s !! j = None ∧ (node = FileNode [] ∨ ∃ p, node = DirNode p ∅) ∧ grows s s'.
Proof.
  intros Hwf Hi Hdot (d & p & ch & Hr & Hd & Hf)%walk_final; [|done..]. rewrite Hdot in Hf.
  assert (Hty : ch !! List.last (components path) ""%string = None ∧ (ty = File ∨ ty = Dir)).
  { unfold create_node in Hf. rewrite Hd in Hf. unfold exist in Hf. case_bool_decide as He; [done|].
    apply eq_None_not_Some in He. by destruct ty; auto. }
  destruct Hty as [Hn Hty].
  destruct (create_node_ok d p ch _ ty s Hwf Hd Hn Hty) as (s1 & Hs1 & Hwf' & Hd' & (node & Hnode & Hnt & Hnn) & Hoth & _).
  rewrite Hs1 in Hf. simplify_eq. pose proof (fresh_none s Hwf) as Hfr.
  assert (Hg : grows s s').
  { intros k. destruct (decide (k = d)) as [->|Hkd].
    - rewrite Hd. eexists. split; [done|]. by apply insert_subseteq.
    - destruct (nodes s !! k) as [[c|q ch0]|] eqn:Hk; [..|done];
        rewrite (Hoth k) by (done || congruence); [by exists c|by exists ch0]. }
  exists (next s), node. split_and!; [|done..| |done].
  - rewrite (lookup_last i path s' d p (<[List.last (components path) ""%string := next s]> ch)); [|done| | |done|done].
    + by rewrite lookup_insert_eq.
    + by eapply grows_some.
    + eapply resolve_grows; [done|]. by eapply resolve_nd.
  - destruct Hnn as [?|?]; [by left|right; by eexists].
Qed.

(** After [remove] succeeded, [lookup] of the path reports [NotFound]; a
    directory is only removed when it has no entries, and the node itself stays as
    long as somebody holds it. *)
Theorem remove_then_lookup i path s s' :
  ramfs_wf s → is_Some (nodes s !! i) → is_Some (nodes s' !! i) →
  remove i path s = Ret (Ok tt, s') →
  lookup i path s' = Ret (Err AxError.NotFound) ∧
  ∃ j, lookup i path s = Ret (Ok j) ∧ (∀ p ch, nodes s !! j = Some (DirNode p ch) → ch = ∅) ∧
    (is_Some (nodes s' !! j) ↔ ∃ n, pinned s !! j = Some (S n)) ∧
    (∀ k, k ≠ j → is_Some (nodes s !! k) → is_Some (nodes s' !! k)).
Proof.
  intros Hwf Hi Hi' (d & p & ch & Hr & Hd & Hf)%walk_final; [|done..].
  set (name := List.last (components path) ""%string) in *.
  destruct (is_dot name) eqn:Hdot; [done|].
  assert (Hj : ∃ j, ch !! name = Some j ∧
    ((∃ c, nodes s !! j = Some (FileNode c)) ∨ ∃ q, nodes s !! j = Some (DirNode q ∅))).
  { unfold remove_node in Hf. rewrite Hd in Hf. destruct (ch !! name) as [j|]; [|done]. exists j. split; [done|].
    destruct (nodes s !! j) as [[c|q sub]|]; [left; by eexists| |done].
    case_bool_decide; [subst; right; by eexists|done]. }
  destruct Hj as (j & Hj & Hk).
  destruct (remove_node_ok d p ch name j s Hwf Hd Hj Hk) as (s1 & Hs1 & Hwf' & Hd' & Hoth & Hjs).
  rewrite Hs1 in Hf. simplify_eq. apply (resolve_nd _ non_dir_lookup) in Hr.
  assert (Hjd : j ≠ d) by (intros ->; destruct Hk as [[??]|[??]]; simplify_eq).
  split.
  - unfold lookup. rewrite lookup_from_resolve by (done || lia). rewrite components_snoc. f_equal.
    apply (resolve_unlinked _ s s' d p ch); try done. intros k Hkd Hks. destruct (decide (k = j)) as [->|].
    + destruct Hjs as [[Hjs _]|[Hjs _]]; [rewrite Hjs in Hks; by destruct Hks|done].
    + by apply Hoth.
  - exists j. split_and!.
    + rewrite (lookup_last i path s d p ch) by done. fold name. by rewrite Hj.
    + intros q sub Hq. destruct Hk as [[??]|[??]]; simplify_eq; done.
    + destruct Hjs as [[-> Hp]|[-> Hp]]; [|split; [done|]; intros _; destruct Hk as [[? ->]|[? ->]]; by eexists].
      split; [by intros []|done].
    + intros k Hkj Hks. destruct (decide (k = d)) as [->|]; [rewrite Hd'; by eexists|]. by rewrite Hoth.
Qed.

(** [rename] gives the node a new name in the directory it is in: of the
    destination path only the text after its last slash is used, its directories
    are neither looked up nor checked. *)
Theorem rename_stays_in_directory i src dst s s' :
  ramfs_wf s → is_Some (nodes s !! i) → rename i src dst s = Ret (Ok tt, s') →
  ∃ d p ch j, resolve non_dir_rename s i (removelast (components src)) = Ok d ∧
    nodes s !! d = Some (DirNode p ch) ∧ ch !! List.last (components src) ""%string = Some j ∧
    ch !! after_last_slash (trim_start dst) = None ∧
    nodes s' = <[d := DirNode p (<[after_last_slash (trim_start dst) := j]>
                                  (delete (List.last (components src) ""%string) ch))]> (nodes s).
Proof.
  intros Hwf Hi (d & p & ch & Hr & Hd & Hf)%walk_final; [|done..].
  set (name := List.last (components src) ""%string) in *.
  unfold rename_final in Hf. rewrite Hd in Hf. cbv zeta in Hf. unfold exist in Hf.
  case_bool_decide as Hs; [|done]. simpl in Hf. case_bool_decide as Hx; [done|].
  destruct (ch !! name) as [j|] eqn:Hj; [|done]. simplify_eq.
  exists d, p, ch, j. split_and!; try done. by apply eq_None_not_Some.
Qed.

End ramfs_properties.

(** ** File contents *)

Lemma file_read_at_eq off n c :
  0 ≤ off → 0 ≤ n → off + n < 2 ^ 64 →
  file_read_at off n c = Ret (take (Z.to_nat n) (drop (Z.to_nat off) c)).
Proof.
  intros Ho Hn Hs. unfold file_read_at. cbv zeta. rewrite uadd_small by lia.
  rewrite (proj2 (Z.leb_le _ _)) by lia. f_equal.
  destruct (decide (off ≤ Z.of_nat (length c))).
  - rewrite (Z.min_r _ off) by lia. destruct (decide (off + n ≤ Z.of_nat (length c))).
    + rewrite Z.min_r by lia. f_equal. lia.
    + rewrite Z.min_l by lia. rewrite !take_ge; [done|rewrite length_drop; lia..].
  - rewrite !Z.min_l by lia. rewrite !drop_ge by lia. by rewrite !take_nil.
Qed.

Lemma file_write_at_eq off buf c :
  0 ≤ off → off + Z.of_nat (length buf) < 2 ^ 64 →
  let o := Z.to_nat off in
  let c1 := c ++ replicate (o + length buf - length c) 0 in
  file_write_at off buf c = Ret (Z.of_nat (length buf), take o c1 ++ buf ++ drop (o + length buf) c1).
Proof.
  intros Ho Hs o c1. unfold file_write_at. cbv zeta. rewrite uadd_small by lia.
  rewrite (proj2 (Z.leb_le _ _)) by lia. fold o.
  destruct (Z.ltb_spec (Z.of_nat (length c)) (off + Z.of_nat (length buf))).
  - unfold c1. replace (Z.to_nat (off + Z.of_nat (length buf))) with (o + length buf)%nat by lia. done.
  - unfold c1. replace (o + length buf - length c)%nat with 0%nat by lia. simpl. by rewrite app_nil_r.
Qed.

(** Writing a buffer at an offset whose end does not overflow stores exactly
    its bytes there: reading them back gives the buffer, every other byte of the
    file is unchanged, the file is as long as needed, and a gap behind its old end
    is zero. *)
Theorem file_write_then_read off buf c :
  0 ≤ off → off + Z.of_nat (length buf) < 2 ^ 64 →
  ∃ c', file_write_at off buf c = Ret (Z.of_nat (length buf), c') ∧
    file_read_at off (Z.of_nat (length buf)) c' = Ret buf ∧
    length c' = Nat.max (length c) (Z.to_nat off + length buf) ∧
    (∀ k, (k < Z.to_nat off ∨ Z.to_nat off + length buf ≤ k)%nat →
          c' !! k = if decide (k < length c)%nat then c !! k
                    else if decide (k < length c')%nat then Some 0 else None).
Proof.
  intros Ho Hs. eexists. split; [by apply file_write_at_eq|]. set (o := Z.to_nat off).
  set (c1 := c ++ replicate (o + length buf - length c) 0).
  assert (Hc1 : length c1 = Nat.max (length c) (o + length buf)).
  { unfold c1. rewrite length_app, length_replicate. lia. }
  assert (Hto : length (take o c1) = o) by (rewrite length_take; lia).
  assert (Hlen : length (take o c1 ++ buf ++ drop (o + length buf) c1) = Nat.max (length c) (o + length buf)).
  { rewrite !length_app, Hto, length_drop. lia. }
  split_and!; [|done|].
  - rewrite file_read_at_eq by lia. fold o. rewrite Nat2Z.id. f_equal.
    rewrite drop_app_length' by done. by rewrite take_app_length.
  - intros k Hk.
    assert (Hk1 : (take o c1 ++ buf ++ drop (o + length buf) c1) !! k = c1 !! k).
    { destruct Hk as [Hk|Hk].
      - rewrite lookup_app_l by (rewrite Hto; lia). by apply lookup_take_lt.
      - rewrite lookup_app_r, Hto, lookup_app_r, lookup_drop by lia. f_equal. lia. }
    rewrite Hk1, Hlen. unfold c1. case_decide; [by apply lookup_app_l|].
    rewrite lookup_app_r by lia. case_decide.
    + apply lookup_replicate. split; [done|lia].
    + apply lookup_ge_None. rewrite length_replicate. lia.
Qed.

(** Reading a file at an offset so close to [u64::MAX] that the end of the
    range wraps around panics as soon as the file is longer than the wrapped end:
    the range starts behind its end. *)
Theorem file_read_overflow_panics off n c :
  in_usize off → in_usize n → 2 ^ 64 ≤ off + n → off + n - 2 ^ 64 < Z.of_nat (length c) →
  Z.of_nat (length c) ≤ off → file_read_at off n c = Panic.
Proof.
  unfold in_usize. intros Ho Hn Hov Hlen Hoff. unfold file_read_at. cbv zeta.
  assert (uadd off n = off + n - 2 ^ 64) as ->.
  { unfold uadd, wrap. rewrite (Z.mod_eq _ (2 ^ 64)) by lia.
    replace ((off + n) / 2 ^ 64) with 1; [lia|]. apply (Z.div_unique _ _ _ (off + n - 2 ^ 64)); lia. }
  rewrite Z.min_l, Z.min_r by lia. by rewrite (proj2 (Z.leb_gt _ _)) by lia.
Qed.

(** ** Witnesses *)

(** The errors [axfs_vfs] documents. *)
Definition std_defaults : VfsDefaults := {|
  non_dir_lookup := AxError.NotADirectory; non_dir_create := AxError.NotADirectory;
  non_dir_remove := AxError.NotADirectory; non_dir_rename := AxError.Unsupported;
  non_dir_read_dir := AxError.NotADirectory; dir_read_at := AxError.IsADirectory;
  dir_write_at := AxError.IsADirectory; dir_truncate := AxError.IsADirectory |}.

(** The root of a new filesystem, with directories [a] and [b] and a file [a/x]. *)
Definition demo_root : store := (fs_new {| nodes := ∅; next := 0; pinned := ∅ |}).2.
Definition demo_run (m : SM store AxError.t unit) (s : store) : store :=
  match m s with Ret (_, s') => s' | Panic => s end.
Definition demo_a : store := demo_run (@create std_defaults 0 "a" Dir) demo_root.
Definition demo_ab : store := demo_run (@create std_defaults 0 "/b" Dir) demo_a.
Definition demo_tree : store := demo_run (@create std_defaults 0 "a//x" File) demo_ab.

Lemma demo_root_wf : ramfs_wf demo_root.
Proof.
  assert (Hc : ∀ a n b, ¬ has_child demo_root a n b).
  { intros a n b (p & ch & Ha & Hb). unfold demo_root in Ha. simpl in Ha.
    apply lookup_insert_Some in Ha as [[_ [= <- <-]]|[_ Ha]]; by rewrite lookup_empty in *. }
  split; try (intros; exfalso; by eapply Hc).
  intros i. unfold demo_root. simpl. rewrite lookup_insert_is_Some', lookup_empty. intros [->|[? ?]]; [lia|done].
Qed.
Lemma demo_create s path ty s' :
  ramfs_wf s → is_Some (nodes s !! 0%nat) → @create std_defaults 0 path ty s = Ret (Ok tt, s') →
  ramfs_wf s' ∧ is_Some (nodes s' !! 0%nat).
Proof.
  intros Hwf Hi Hc. split.
  - destruct (walk_total (@non_dir_create std_defaults) (λ i name, if is_dot name then sm_ret tt else create_node i name ty)
      0 path s) as (r & s1 & Hw & Hwf1 & _); [done..| |].
    + intros d name Hd. destruct (is_dot name); [by eexists _, s|by apply create_node_total].
    + pose proof (eq_trans (eq_sym Hc) Hw) as Heq. by simplify_eq.
  - destruct (walk_final _ _ _ _ _ _ _ Hwf Hi Hc) as (d & p & ch & _ & Hd & Hf). simpl in Hf.
    destruct (is_dot _); [unfold sm_ret in Hf; by simplify_eq|].
    unfold create_node in Hf. rewrite Hd in Hf. destruct (exist _ _); [done|].
    destruct ty; simplify_eq; simpl; rewrite !lookup_insert_is_Some'; auto.
Qed.
Lemma demo_tree_wf : ramfs_wf demo_tree ∧ is_Some (nodes demo_tree !! 0%nat).
Proof.
  assert (Ha : ramfs_wf demo_a ∧ is_Some (nodes demo_a !! 0%nat)).
  { apply (demo_create demo_root "a" Dir); [apply demo_root_wf|by eexists|by vm_compute]. }
  assert (Hb : ramfs_wf demo_ab ∧ is_Some (nodes demo_ab !! 0%nat)).
  { apply (demo_create demo_a "/b" Dir); [apply Ha|apply Ha|by vm_compute]. }
  apply (demo_create demo_ab "a//x" File); [apply Hb|apply Hb|by vm_compute].
Qed.

Lemma lookup_follows_components_witness :
  @lookup std_defaults 0 "/b/../a/./x" demo_tree =
    Ret (resolve (@non_dir_lookup std_defaults) demo_tree 0 (components "/b/../a/./x")) ∧
  @lookup std_defaults 0 "/b/../a/./x" demo_tree = Ret (Ok 3%nat).
Proof.
  split; [|by vm_compute].
  exact (@lookup_follows_components std_defaults 0 "/b/../a/./x" demo_tree (proj1 demo_tree_wf) (proj2 demo_tree_wf)).
Defined.

Lemma ramfs_ops_safe_witness :
  ∃ r s', @remove std_defaults 0 "a/x" demo_tree = Ret (r, s') ∧ ramfs_wf s'.
Proof.
  destruct (@ramfs_ops_safe std_defaults 0 demo_tree (proj1 demo_tree_wf) (proj2 demo_tree_wf)) as (_ & Hr & _).
  destruct (Hr "a/x"%string) as (r & s' & He & Hw & _). exists r, s'. split; [exact He|exact Hw].
Defined.

Definition demo_y : store := demo_run (@create std_defaults 0 "b/y" File) demo_tree.
Lemma create_then_lookup_witness :
  ∃ j node, @lookup std_defaults 0 "b/y" demo_y = Ret (Ok j) ∧ nodes demo_y !! j = Some node ∧ node_type node = File.
Proof.
  destruct (@create_then_lookup std_defaults 0 "b/y" File demo_tree demo_y (proj1 demo_tree_wf) (proj2 demo_tree_wf))
    as (j & node & Hl & Hn & Ht & _); [by vm_compute..|].
  exists j, node. split; [exact Hl|]. split; [exact Hn|exact Ht].
Defined.

Definition demo_removed : store := demo_run (@remove std_defaults 0 "a/x") demo_tree.
Lemma remove_then_lookup_witness :
  @lookup std_defaults 0 "a/x" demo_removed = Ret (Err AxError.NotFound).
Proof.
  destruct (@remove_then_lookup std_defaults 0 "a/x" demo_tree demo_removed (proj1 demo_tree_wf) (proj2 demo_tree_wf))
    as [Hl _]; [|by vm_compute|exact Hl].
  apply (bool_decide_unpack (is_Some (nodes demo_removed !! 0%nat))). by vm_compute.
Defined.

(** [rename("a/x", "b/z")] leaves the file in [a]. *)
Definition demo_renamed : store := demo_run (@rename std_defaults 0 "a/x" "b/z") demo_tree.
Lemma rename_stays_in_directory_witness :
  (∃ d p ch j, resolve (@non_dir_rename std_defaults) demo_tree 0 ["a"%string] = Ok d ∧
     nodes demo_tree !! d = Some (DirNode p ch) ∧ ch !! "x"%string = Some j) ∧
  @lookup std_defaults 0 "a/z" demo_renamed = Ret (Ok 3%nat) ∧
  @lookup std_defaults 0 "b/z" demo_renamed = Ret (Err AxError.NotFound).
Proof.
  split; [|by split; vm_compute].
  destruct (@rename_stays_in_directory std_defaults 0 "a/x" "b/z" demo_tree demo_renamed
    (proj1 demo_tree_wf) (proj2 demo_tree_wf)) as (d & p & ch & j & Hr & Hd & Hj & _); [by vm_compute|].
  exists d, p, ch, j. split; [exact Hr|]. split; [exact Hd|exact Hj].
Defined.

Lemma read_dir_lists_witness :
  ∃ p ch, nodes demo_tree !! 0%nat = Some (DirNode p ch) ∧
    @read_dir std_defaults 0 1 2 demo_tree = Ret (Ok (take 2 (drop 1 (dir_listing ch demo_tree)))) ∧
    take 2 (drop 1 (dir_listing ch demo_tree)) = [("..", Dir); ("a", Dir)]%string.
Proof.
  exists None, {["a" := 1%nat; "b" := 2%nat]}%string. split; [by vm_compute|]. split; [|by vm_compute].
  exact (proj1 (@read_dir_lists std_defaults 0 None {["a" := 1%nat; "b" := 2%nat]}%string demo_tree 1 2
    (proj1 demo_tree_wf) eq_refl ltac:(lia) ltac:(lia))).
Defined.

Lemma file_write_then_read_witness :
  ∃ c', file_write_at 4 [7; 8] [1; 2] = Ret (2, c') ∧ file_read_at 4 2 c' = Ret [7; 8].
Proof.
  destruct (file_write_then_read 4 [7; 8] [1; 2]) as (c' & Hw & Hr & _); [lia|simpl; lia|].
  exists c'. split; [exact Hw|exact Hr].
Defined.

Lemma file_read_overflow_panics_witness : file_read_at (2 ^ 64 - 1) 2 [1; 2; 3] = Panic.
Proof. apply file_read_overflow_panics; unfold in_usize; simpl; lia. Defined.
