(* ===== verification/Vfs.v ===== *)
(** The filesystem interfaces [axfs] is written against.

    [axfs_vfs] (the traits of filesystems and their nodes, and the path helpers)
    and [cap_access] (capabilities) are not part of the repository: they are the
    classes of this file, and the behaviour [axfs] relies on their laws.  [Root] and
    [Fops] are generic in them; [RamfsVfs] gives the instance of the RAM
    filesystem. *)

From S2P Require Import Prelude Ramfs.
From stdpp Require Import prelude strings list.
From Stdlib Require Import ZArith Lia.
Local Open Scope Z_scope.
Local Open Scope kernel_scope.

(** ** [str] methods *)

(** [s.strip_prefix(p)]. *)
Fixpoint str_strip_prefix (p s : string) : option string :=
  match p, s with
  | EmptyString, _ => Some s
  | String a p, String b s => if bool_decide (a = b) then str_strip_prefix p s else None
  | String _ _, EmptyString => None
  end.
Definition starts_with (p s : string) : bool := bool_decide (is_Some (str_strip_prefix p s)).

(** [s.ends_with(p)]. *)
Fixpoint ends_with (p s : string) : bool :=
  bool_decide (s = p) ||
  match s with
  | EmptyString => false
  | String _ s => ends_with p s
  end.

(** [s.trim_end_matches('/')] and [s.trim_matches('/')]. *)
Fixpoint trim_end (s : string) : string :=
  match s with
  | EmptyString => EmptyString
  | String c s =>
      match trim_end s with
      | EmptyString => if bool_decide (c = slash) then EmptyString else String c EmptyString
      | t => String c t
      end
  end.
Definition trim_matches (s : string) : string := trim_end (trim_start s).

(** [&s[n..]]; the byte index has to be in the string. *)
Fixpoint str_from (n : nat) (s : string) : outcome string :=
  match n, s with
  | O, _ => Ret s
  | S n, String _ s => str_from n s
  | S _, EmptyString => Panic
  end.

(** ** [axfs_vfs] *)

(** [VfsNodePerm]: the bits of the owner that [axfs] asks for, the bits as a number,
    and the permissions a node gets by default. *)
Class VfsNodePerm : Type := {
  perm : Type;
  perm_bits : perm → Z;
  owner_readable : perm → bool;
  owner_writable : perm → bool;
  owner_executable : perm → bool;
  default_file : perm;
  default_dir : perm;
}.

(** [VfsNodeAttr], with the permissions. *)
Record FileAttr `{VfsNodePerm} : Type :=
  { fa_type : VfsNodeType; fa_perm : perm; fa_size : Z; fa_blocks : Z }.
Definition is_dir `{VfsNodePerm} (a : FileAttr) : bool := bool_decide (fa_type a = Dir).

(** The trait [VfsNodeOps], on references [N] to nodes that live in a state [St].
    Reading gives the bytes stored to the buffer, listing a directory the entries;
    the result of [release] is never looked at; [vn_clone] and [vn_drop] count the
    references that outlive a call. *)
Class VfsNodeOps `{VfsNodePerm} (N St : Type) : Type := {
  vn_open : N → SM St AxError.t unit;
  vn_release : N → St → St;
  vn_get_attr : N → SM St AxError.t FileAttr;
  vn_read_at : N → Z → Z → SM St AxError.t (list Z);
  vn_write_at : N → Z → list Z → SM St AxError.t Z;
  vn_fsync : N → SM St AxError.t unit;
  vn_truncate : N → Z → SM St AxError.t unit;
  vn_lookup : N → string → SM St AxError.t N;
  vn_create : N → string → VfsNodeType → SM St AxError.t unit;
  vn_remove : N → string → SM St AxError.t unit;
  vn_rename : N → string → string → SM St AxError.t unit;
  vn_read_dir : N → Z → nat → SM St AxError.t (list (string * VfsNodeType));
  vn_clone : N → St → St;
  vn_drop : N → St → St;
}.

(** The trait [VfsOps], on references [F] to filesystems. *)
Class VfsOps (F N St : Type) : Type := {
  vfs_root_dir : F → St → N;
  vfs_mount : F → string → N → SM St AxError.t unit;
  vfs_umount : F → SM St AxError.t unit;
}.

(** Looking a node up, asking for its attributes and reading it changes nothing. *)
Class VfsReadOnly {N St : Type} {perms : VfsNodePerm} {nops : VfsNodeOps N St} : Prop := {
  vn_lookup_quiet n path s r s' : vn_lookup n path s = Ret (r, s') → s' = s;
  vn_get_attr_quiet n s r s' : vn_get_attr n s = Ret (r, s') → s' = s;
  vn_read_at_quiet n offset len s r s' : vn_read_at n offset len s = Ret (r, s') → s' = s;
  vn_read_dir_quiet n idx len s r s' : vn_read_dir n idx len s = Ret (r, s') → s' = s;
}.

(** [axfs_vfs::path::canonicalize], which normalises a path without making it
    absolute. *)
Class PathOps : Type := {
  canonicalize : string → string;
}.
Class PathLaws `{PathOps} : Prop := {
  canonicalize_absolute p : starts_with "/" p = true → starts_with "/" (canonicalize p) = true;
}.

(** ** [cap_access] *)

(** [Cap] is a set of flags. *)
Class CapAccess : Type := {
  Cap : Type;
  cap_empty : Cap;
  cap_READ : Cap;
  cap_WRITE : Cap;
  cap_EXECUTE : Cap;
  cap_union : Cap → Cap → Cap;
  cap_contains : Cap → Cap → bool;
}.
Class CapLaws `{CapAccess} : Prop := {
  cap_contains_empty c : cap_contains c cap_empty = true;
  cap_contains_union c a b : cap_contains c (cap_union a b) = cap_contains c a && cap_contains c b;
  cap_union_contains a b f : f ∈ [cap_READ; cap_WRITE; cap_EXECUTE] →
    cap_contains (cap_union a b) f = cap_contains a f || cap_contains b f;
  cap_empty_contains f : f ∈ [cap_READ; cap_WRITE; cap_EXECUTE] → cap_contains cap_empty f = false;
  cap_flags_distinct :
    cap_contains cap_READ cap_WRITE = false ∧ cap_contains cap_READ cap_EXECUTE = false ∧
    cap_contains cap_WRITE cap_READ = false ∧ cap_contains cap_WRITE cap_EXECUTE = false ∧
    cap_contains cap_EXECUTE cap_READ = false ∧ cap_contains cap_EXECUTE cap_WRITE = false;
  cap_contains_flag f : f ∈ [cap_READ; cap_WRITE; cap_EXECUTE] → cap_contains f f = true;
  cap_contains_trans a b c : cap_contains a b = true → cap_contains b c = true → cap_contains a c = true;
}.

(** [WithCap<T>] and [access_or_err]. *)
Record WithCap `{CapAccess} (T : Type) : Type := { wc_inner : T; wc_cap : Cap }.
Arguments wc_inner {_ _} _.
Arguments wc_cap {_ _} _.
Arguments Build_WithCap {_ _} _ _.
Definition access_or_err `{CapAccess} {T E} (w : WithCap T) (cap : Cap) (e : E) : result T E :=
  if cap_contains (wc_cap w) cap then Ok (wc_inner w) else Err e.
