(* ===== verification/Root.v ===== *)
(** The root directory of [axfs] ([axfs/src/root.rs]): the mount table, the
    current directory, and the operations on paths every file API goes through.

    Everything is generic in the filesystems mounted ([Vfs]); the globals
    [ROOT_DIR], [CURRENT_DIR_PATH] and [CURRENT_DIR] are the fields of [axfs]. *)

From S2P Require Import Prelude Ramfs Vfs.
From stdpp Require Import prelude strings list.
From Stdlib Require Import ZArith Lia.
Local Open Scope Z_scope.
Local Open Scope kernel_scope.

Section root.
Context {N F St : Type} {perms : VfsNodePerm} {nops : VfsNodeOps N St} {vops : VfsOps F N St} {pops : PathOps}.

(** ** State *)

Record MountPoint : Type := { mp_path : string; mp_fs : F }.
Record RootDirectory : Type := { main_fs : F; mounts : list MountPoint }.

(** A node the kernel holds: the root directory itself or a node of a filesystem. *)
Inductive VfsNodeRef : Type :=
| RootDir
| FsNode (n : N).

Record axfs : Type := {
  ROOT_DIR : RootDirectory;
  CURRENT_DIR_PATH : string;
  CURRENT_DIR : VfsNodeRef;
  fs_state : St;
}.
Abbreviation M := (SM axfs AxError.t).

Definition set_fs_state (st : St) (s : axfs) : axfs :=
  {| ROOT_DIR := ROOT_DIR s; CURRENT_DIR_PATH := CURRENT_DIR_PATH s; CURRENT_DIR := CURRENT_DIR s; fs_state := st |}.
Definition set_root (r : RootDirectory) (s : axfs) : axfs :=
  {| ROOT_DIR := r; CURRENT_DIR_PATH := CURRENT_DIR_PATH s; CURRENT_DIR := CURRENT_DIR s; fs_state := fs_state s |}.

(** An operation of a filesystem. *)
Definition on_fs {A} (m : SM St AxError.t A) : M A := λ s,
  match m (fs_state s) with
  | Ret (r, st) => Ret (r, set_fs_state st s)
  | Panic => Panic
  end.
Definition fs_root_dir (fs : F) : M N := λ s, Ret (Ok (vfs_root_dir fs (fs_state s)), s).

(** ** The mount table *)

(** [MountPoint::drop]. *)
Definition drop_mount_point (mp : MountPoint) : M unit :=
  sm_catch (on_fs (vfs_umount (mp_fs mp))) (λ _, sm_ret tt).

Definition contains (path : string) (r : RootDirectory) : bool :=
  existsb (λ mp, bool_decide (mp_path mp = path)) (mounts r).

Definition RootDirectory_new (main_fs : F) : RootDirectory := {| main_fs := main_fs; mounts := [] |}.

(** The mount point in the main filesystem, with the new filesystem attached to it. *)
Definition attach (path : string) (fs : F) : M unit :=
  let! s := sm_get in
  let! main_root := fs_root_dir (main_fs (ROOT_DIR s)) in
  do! on_fs (vn_create main_root path Dir) in
  let! node := on_fs (vn_lookup main_root path) in
  on_fs (vfs_mount fs path node).
Definition mount (path : string) (fs : F) : M unit :=
  if bool_decide (path = "/")%string then sm_err AxError.InvalidInput
  else if negb (starts_with "/" path) then sm_err AxError.InvalidInput
  else
    let! s := sm_get in
    if contains path (ROOT_DIR s) then sm_err AxError.InvalidInput
    else
      do! attach path fs in
      sm_modify (λ s, set_root {| main_fs := main_fs (ROOT_DIR s);
                                  mounts := mounts (ROOT_DIR s) ++ [{| mp_path := path; mp_fs := fs |}] |} s).

(** [retain], which drops the mount points it does not keep. *)
Fixpoint drop_mounts (path : string) (mps : list MountPoint) : M unit :=
  match mps with
  | [] => sm_ret tt
  | mp :: mps =>
      do! (if bool_decide (mp_path mp = path) then drop_mount_point mp else sm_ret tt) in
      drop_mounts path mps
  end.
Definition umount (path : string) : M unit :=
  let! s := sm_get in
  do! drop_mounts path (mounts (ROOT_DIR s)) in
  sm_modify (λ s, set_root {| main_fs := main_fs (ROOT_DIR s);
                              mounts := filter (λ mp, mp_path mp ≠ path) (mounts (ROOT_DIR s)) |} s).

(** [&mp.path[1..]]: the first byte has to be a character of its own. *)
Definition mount_rel (mp : MountPoint) : outcome string :=
  match mp_path mp with
  | String c rel => if (Ascii.nat_of_ascii c <? 128)%nat then Ret rel else Panic
  | EmptyString => Panic
  end.

(** The loop over the mount points: the index and length of the longest match. *)
Fixpoint longest_match (path : string) (i : nat) (mps : list MountPoint) (idx max_len : nat) :
    outcome (nat * nat) :=
  match mps with
  | [] => Ret (idx, max_len)
  | mp :: mps =>
      rel ← mount_rel mp;
      if starts_with rel path && (max_len <? String.length (mp_path mp) - 1)%nat
      then longest_match path (S i) mps i (String.length (mp_path mp) - 1)
      else longest_match path (S i) mps idx max_len
  end.

Fixpoint lookup_mounted_from {T} (fuel : nat) (r : RootDirectory) (path : string) (f : F → string → M T) :
    M T :=
  match fuel with
  | O => sm_panic
  | S n =>
      let path := trim_matches path in
      match str_strip_prefix "./" path with
      | Some rest => lookup_mounted_from n r rest f
      | None =>
          match longest_match path 0 (mounts r) 0 0 with
          | Ret (idx, max_len) =>
              if (max_len =? 0)%nat then f (main_fs r) path
              else
                match mounts r !! idx, str_from max_len path with
                | Some mp, Ret rest => f (mp_fs mp) rest
                | _, _ => sm_panic
                end
          | Panic => sm_panic
          end
      end
  end.
Definition lookup_mounted_fs {T} (path : string) (f : F → string → M T) : M T :=
  let! s := sm_get in lookup_mounted_from (S (String.length path)) (ROOT_DIR s) path f.

(** ** [VfsNodeOps for RootDirectory] *)

Definition RootDirectory_get_attr : M FileAttr :=
  let! s := sm_get in
  let! n := fs_root_dir (main_fs (ROOT_DIR s)) in
  on_fs (vn_get_attr n).

Definition RootDirectory_lookup (path : string) : M N :=
  lookup_mounted_fs path (λ fs rest_path, let! n := fs_root_dir fs in on_fs (vn_lookup n rest_path)).

Definition RootDirectory_create (path : string) (ty : VfsNodeType) : M unit :=
  lookup_mounted_fs path (λ fs rest_path,
    if bool_decide (rest_path = "")%string then sm_ret tt
    else let! n := fs_root_dir fs in on_fs (vn_create n rest_path ty)).

Definition RootDirectory_remove (path : string) : M unit :=
  lookup_mounted_fs path (λ fs rest_path,
    if bool_decide (rest_path = "")%string then sm_err AxError.PermissionDenied
    else let! n := fs_root_dir fs in on_fs (vn_remove n rest_path)).

Definition RootDirectory_rename (src_path dst_path : string) : M unit :=
  lookup_mounted_fs src_path (λ fs rest_path,
    if bool_decide (rest_path = "")%string then sm_err AxError.PermissionDenied
    else let! n := fs_root_dir fs in on_fs (vn_rename n rest_path dst_path)).

Definition node_lookup (r : VfsNodeRef) (path : string) : M N :=
  match r with RootDir => RootDirectory_lookup path | FsNode n => on_fs (vn_lookup n path) end.
Definition node_create (r : VfsNodeRef) (path : string) (ty : VfsNodeType) : M unit :=
  match r with RootDir => RootDirectory_create path ty | FsNode n => on_fs (vn_create n path ty) end.
Definition node_remove (r : VfsNodeRef) (path : string) : M unit :=
  match r with RootDir => RootDirectory_remove path | FsNode n => on_fs (vn_remove n path) end.
Definition node_rename (r : VfsNodeRef) (src dst : string) : M unit :=
  match r with RootDir => RootDirectory_rename src dst | FsNode n => on_fs (vn_rename n src dst) end.

(** ** Operations on paths *)

(** [expect] on the result of a mount: an error panics. *)
Definition expect {A} (m : M A) : M A := λ s,
  match m s with Ret (Ok a, s) => Ret (Ok a, s) | _ => Panic end.

(** [init_rootfs], with the filesystems the enabled features mount. *)
Fixpoint mount_all (mps : list MountPoint) : M unit :=
  match mps with
  | [] => sm_ret tt
  | mp :: mps => do! expect (mount (mp_path mp) (mp_fs mp)) in mount_all mps
  end.
Definition feature_mount (path : string) (fs : option F) : list MountPoint :=
  match fs with Some fs => [{| mp_path := path; mp_fs := fs |}] | None => [] end.
Definition init_rootfs (main : F) (devfs ramfs procfs sysfs : option F) (st : St) : outcome axfs :=
  let s := {| ROOT_DIR := RootDirectory_new main; CURRENT_DIR_PATH := "/"; CURRENT_DIR := RootDir; fs_state := st |} in
  match mount_all (feature_mount "/dev" devfs ++ feature_mount "/tmp" ramfs ++
                   feature_mount "/proc" procfs ++ feature_mount "/sys" sysfs) s with
  | Ret (_, s) => Ret s
  | Panic => Panic
  end.

Definition parent_node_of (dir : option N) (path : string) (s : axfs) : VfsNodeRef :=
  if starts_with "/" path then RootDir
  else match dir with Some n => FsNode n | None => CURRENT_DIR s end.

Definition absolute_path (path : string) (s : axfs) : string :=
  if starts_with "/" path then canonicalize path
  else canonicalize (CURRENT_DIR_PATH s +:+ path).

Definition lookup (dir : option N) (path : string) : M N :=
  if bool_decide (path = "")%string then sm_err AxError.NotFound
  else
    let! s := sm_get in
    let! node := node_lookup (parent_node_of dir path s) path in
    if ends_with "/" path then
      let! attr := on_fs (vn_get_attr node) in
      if negb (is_dir attr) then sm_err AxError.NotADirectory else sm_ret node
    else sm_ret node.

Definition create_file (dir : option N) (path : string) : M N :=
  if bool_decide (path = "")%string then sm_err AxError.NotFound
  else if ends_with "/" path then sm_err AxError.NotADirectory
  else
    let! s := sm_get in
    let parent := parent_node_of dir path s in
    do! node_create parent path File in
    node_lookup parent path.

Definition create_dir (dir : option N) (path : string) : M unit :=
  sm_catch (lookup dir path) (λ r,
    match r with
    | Ok _ => sm_err AxError.AlreadyExists
    | Err AxError.NotFound => let! s := sm_get in node_create (parent_node_of dir path s) path Dir
    | Err e => sm_err e
    end).

Definition remove_file (dir : option N) (path : string) : M unit :=
  let! node := lookup dir path in
  let! attr := on_fs (vn_get_attr node) in
  if is_dir attr then sm_err AxError.IsADirectory
  else if negb (owner_writable (fa_perm attr)) then sm_err AxError.PermissionDenied
  else let! s := sm_get in node_remove (parent_node_of dir path s) path.

(** The paths [remove_dir] refuses by their last component. *)
Definition is_dot_path (path_check : string) : bool :=
  bool_decide (path_check = "." ∨ path_check = "..")%string || ends_with "/." path_check || ends_with "/.." path_check.

Definition remove_dir (dir : option N) (path : string) : M unit :=
  if bool_decide (path = "")%string then sm_err AxError.NotFound
  else
    let path_check := trim_matches path in
    if bool_decide (path_check = "")%string then sm_err AxError.DirectoryNotEmpty
    else if is_dot_path path_check then sm_err AxError.InvalidInput
    else
      let! s := sm_get in
      if contains (absolute_path path s) (ROOT_DIR s) then sm_err AxError.PermissionDenied
      else
        let! node := lookup dir path in
        let! attr := on_fs (vn_get_attr node) in
        if negb (is_dir attr) then sm_err AxError.NotADirectory
        else if negb (owner_writable (fa_perm attr)) then sm_err AxError.PermissionDenied
        else node_remove (parent_node_of dir path s) path.

Definition current_dir (s : axfs) : string := CURRENT_DIR_PATH s.

(** Storing a node in [CURRENT_DIR] takes a reference to it and gives up the one to
    the node that was there. *)
Definition ref_clone (r : VfsNodeRef) (st : St) : St :=
  match r with RootDir => st | FsNode n => vn_clone n st end.
Definition ref_drop (r : VfsNodeRef) (st : St) : St :=
  match r with RootDir => st | FsNode n => vn_drop n st end.
Definition store_current_dir (r : VfsNodeRef) (path : string) : M unit := sm_modify (λ s,
  {| ROOT_DIR := ROOT_DIR s; CURRENT_DIR_PATH := path; CURRENT_DIR := r;
     fs_state := ref_drop (CURRENT_DIR s) (ref_clone r (fs_state s)) |}).

Definition set_current_dir (path : string) : M unit :=
  let! s := sm_get in
  let abs_path := absolute_path path s in
  let abs_path := if ends_with "/" abs_path then abs_path else (abs_path +:+ "/")%string in
  if bool_decide (abs_path = "/")%string then store_current_dir RootDir "/"
  else
    let! node := lookup None abs_path in
    let! attr := on_fs (vn_get_attr node) in
    if negb (is_dir attr) then sm_err AxError.NotADirectory
    else if negb (owner_executable (fa_perm attr)) then sm_err AxError.PermissionDenied
    else store_current_dir (FsNode node) abs_path.

Definition rename (old new : string) : M unit :=
  let! s := sm_get in
  sm_catch (node_lookup (parent_node_of None new s) new) (λ r,
    do! (if is_ok r then remove_file None new else sm_ret tt) in
    let! s := sm_get in
    node_rename (parent_node_of None old s) old new).

End root.

Arguments axfs : clear implicits.
Arguments MountPoint : clear implicits.
Arguments RootDirectory : clear implicits.
Arguments VfsNodeRef : clear implicits.
