(* ===== verification/RootProps.v ===== *)
(** What [Root] guarantees over any filesystems: paths are dispatched to the mount
    point with the longest match, the current directory stays well-formed, and the
    operations on paths do what their checks say. *)

From stdpp Require Import prelude strings list.
From Stdlib Require Import ZArith Lia.
From S2P Require Import Prelude Ramfs Vfs Root.
Local Open Scope Z_scope.
Local Open Scope kernel_scope.

(** ** Strings *)

Lemma string_app_cons c s t : String c s +:+ t = String c (s +:+ t).
Proof. done. Qed.
Lemma string_app_nil_l s : "" +:+ s = s.
Proof. done. Qed.
Lemma string_app_nil_r s : s +:+ "" = s.
Proof. induction s as [|c s IH]; [done|]. by rewrite string_app_cons, IH. Qed.
Lemma string_app_assoc s t u : s +:+ (t +:+ u) = (s +:+ t) +:+ u.
Proof. induction s as [|c s IH]; [done|]. by rewrite !string_app_cons, IH. Qed.
Lemma string_app_length s t : String.length (s +:+ t) = (String.length s + String.length t)%nat.
Proof. induction s as [|c s IH]; [done|]. rewrite string_app_cons. cbn. by rewrite IH. Qed.
Ltac str_simpl := repeat rewrite ?string_app_cons, ?string_app_nil_l in *.

Lemma str_strip_prefix_Some p s r : str_strip_prefix p s = Some r ↔ s = p +:+ r.
Proof.
  revert s. induction p as [|a p IH]; intros s; [cbn; naive_solver|].
  str_simpl. destruct s as [|b s]; cbn; [naive_solver|].
  case_bool_decide; subst; [rewrite IH|]; naive_solver.
Qed.
Lemma starts_with_true p s : starts_with p s = true ↔ ∃ r, s = p +:+ r.
Proof.
  unfold starts_with. rewrite bool_decide_eq_true. split; intros [r Hr]; exists r; by apply str_strip_prefix_Some.
Qed.
Lemma ends_with_true p s : ends_with p s = true ↔ ∃ q, s = q +:+ p.
Proof.
  induction s as [|c s IH]; cbn; rewrite orb_true_iff, bool_decide_eq_true.
  - split; [intros [<-|]; [by exists ""|done]|]. intros [[|] ?]; [left; done|done].
  - rewrite IH. split.
    + intros [<-|[q ->]]; [by exists ""|by exists (String c q)].
    + intros [[|d q] Hq]; [left; done|right]. str_simpl. simplify_eq. by exists q.
Qed.
Lemma str_from_app p r : str_from (String.length p) (p +:+ r) = Ret r.
Proof. induction p as [|c p IH]; [by destruct r|]. exact IH. Qed.

(** Only slashes. *)
Definition slashes (s : string) : Prop := trim_start s = ""%string.

Lemma slashes_cons s : slashes s → slashes (String slash s).
Proof. unfold slashes. cbn. done. Qed.

Lemma trim_start_spec s : ∃ pre, slashes pre ∧ s = pre +:+ trim_start s ∧ starts_with "/" (trim_start s) = false.
Proof.
  induction s as [|c s (pre & Hpre & IH & Hs)]; [by exists ""%string|]. cbn. case_bool_decide as Hc.
  - subst c. exists (String slash pre). split_and!; [by apply slashes_cons|str_simpl; by f_equal|done].
  - exists ""%string. split_and!; [done..|]. apply not_true_is_false. rewrite starts_with_true.
    intros [r Hr]. str_simpl. simplify_eq.
Qed.

Lemma trim_end_spec s :
  ∃ post, slashes post ∧ s = trim_end s +:+ post ∧ ends_with "/" (trim_end s) = false.
Proof.
  induction s as [|c s (post & Hpost & IH & Hs)]; [by exists ""%string|]. cbn.
  destruct (trim_end s) as [|d t] eqn:Ht.
  - rewrite string_app_nil_l in IH. subst s. case_bool_decide as Hc.
    + subst c. exists (String slash post). split_and!; [by apply slashes_cons|done..].
    + exists post. split_and!; [done|done|]. cbn. rewrite bool_decide_false; [done|]. intros ?; simplify_eq.
  - exists post. split_and!; [done|str_simpl; congruence|]. change (ends_with "/" (String d t) = false) in Hs.
    cbn in *. rewrite bool_decide_false by naive_solver. done.
Qed.

Lemma trim_end_length s : (String.length (trim_end s) ≤ String.length s)%nat.
Proof. destruct (trim_end_spec s) as (post & _ & Hs & _). rewrite Hs at 2. rewrite string_app_length. lia. Qed.
Lemma trim_matches_length s : (String.length (trim_matches s) ≤ String.length s)%nat.
Proof. unfold trim_matches. pose proof (trim_end_length (trim_start s)). pose proof (trim_start_length s). lia. Qed.

(** ** Dispatch to the mount points *)

(** What [lookup_mounted_fs] skips in front of a path: slashes and [./]. *)
Inductive dot_slashes : string → Prop :=
| ds_nil : dot_slashes ""
| ds_slash s : dot_slashes s → dot_slashes (String slash s)
| ds_dot s : dot_slashes s → dot_slashes ("./" +:+ s).

(** What is left: nothing more to skip. *)
Definition bare (p : string) : Prop :=
  starts_with "/" p = false ∧ ends_with "/" p = false ∧ starts_with "./" p = false.

Lemma dot_slashes_app s t : dot_slashes s → dot_slashes t → dot_slashes (s +:+ t).
Proof.
  induction 1 as [|s Hs IH|s Hs IH]; intros Ht; [done|..].
  - rewrite string_app_cons. apply ds_slash. by apply IH.
  - rewrite <-string_app_assoc. apply ds_dot. by apply IH.
Qed.
Lemma slashes_dot_slashes s : slashes s → dot_slashes s.
Proof.
  unfold slashes. induction s as [|c s IH]; [constructor|]. cbn. case_bool_decide; [|done]. subst c.
  intros Hs. apply ds_slash. by apply IH.
Qed.
Lemma slashes_app s t : slashes s → slashes t → slashes (s +:+ t).
Proof.
  unfold slashes. induction s as [|c s IH]; [done|]. rewrite string_app_cons. cbn.
  case_bool_decide; [|done]. intros; by apply IH.
Qed.

Section dispatch.
Context {N F St : Type} {perms : VfsNodePerm} {nops : VfsNodeOps N St} {vops : VfsOps F N St} {pops : PathOps}.
Implicit Types (r : RootDirectory F) (mp : MountPoint F) (s : axfs N F St).

(** The mount points: absolute, not the root, and distinct. *)
Definition mount_path_ok (path : string) : Prop := ∃ rel, path = String slash rel ∧ rel ≠ ""%string.
Definition mounts_wf r : Prop :=
  Forall (λ mp, mount_path_ok (mp_path mp)) (mounts r) ∧ NoDup (mp_path <$> mounts r).

(** The path [p] is in the tree mounted at [mp], where it is called [rest]. *)
Definition mounted_at mp (p rest : string) : Prop := String slash p = mp_path mp +:+ rest.

Lemma longest_match_spec path i mps idx max_len :
  Forall (λ mp, mount_path_ok (mp_path mp)) mps →
  ∃ idx' ml, longest_match path i mps idx max_len = Ret (idx', ml) ∧ (max_len ≤ ml)%nat ∧
    (∀ mp rest, mp ∈ mps → mounted_at mp path rest → (String.length (mp_path mp) - 1 ≤ ml)%nat) ∧
    ((idx' = idx ∧ ml = max_len) ∨
     ∃ k mp rest, mps !! k = Some mp ∧ idx' = (i + k)%nat ∧ ml = (String.length (mp_path mp) - 1)%nat ∧
                  mounted_at mp path rest).
Proof.
  intros Hwf. revert i idx max_len. induction Hwf as [|mp mps (rel & Hrel & _) Hwf IH]; intros i idx max_len.
  { exists idx, max_len. split_and!; [done|done| |by left]. intros mp rest Hmp. by apply not_elem_of_nil in Hmp. }
  assert (∀ rest, mounted_at mp path rest ↔ path = rel +:+ rest) as Hat.
  { intros rest. unfold mounted_at. rewrite Hrel, string_app_cons. naive_solver. }
  assert (mount_rel mp = Ret rel) as Hmr by (unfold mount_rel; by rewrite Hrel).
  cbn [longest_match]. rewrite Hmr, Hrel. cbn [mbind outcome_bind].
  destruct (starts_with rel path) eqn:Hs; cbn [andb]; [case_nat1|].
  - destruct (IH (S i) i (String.length (String slash rel) - 1)%nat) as (idx' & ml & -> & Hle & Hmax & Hor).
    exists idx', ml. split_and!; [done|lia| |].
    + intros mp' rest [->|Hin]%elem_of_cons Hm; [rewrite Hrel; lia|by eapply Hmax].
    + right. apply starts_with_true in Hs as [rest Hs]. destruct Hor as [[-> ->]|(k & mp' & rest' & ? & -> & -> & ?)].
      * exists 0%nat, mp, rest. rewrite Hrel. split_and!; [done|lia|done|by apply Hat].
      * exists (S k), mp', rest'. split_and!; [done|lia|done..].
  - destruct (IH (S i) idx max_len) as (idx' & ml & -> & Hle & Hmax & Hor). exists idx', ml. split_and!; [done|lia| |].
    + intros mp' rest [->|Hin]%elem_of_cons Hm; [rewrite Hrel; lia|by eapply Hmax].
    + destruct Hor as [?|(k & mp' & rest' & ? & -> & -> & ?)]; [by left|right].
      exists (S k), mp', rest'. split_and!; [done|lia|done..].
  - destruct (IH (S i) idx max_len) as (idx' & ml & -> & Hle & Hmax & Hor). exists idx', ml. split_and!; [done|lia| |].
    + intros mp' rest [->|Hin]%elem_of_cons Hm; [|by eapply Hmax].
      apply Hat in Hm. assert (starts_with rel path = true) by (apply starts_with_true; by eexists). congruence.
    + destruct Hor as [?|(k & mp' & rest' & ? & -> & -> & ?)]; [by left|right].
      exists (S k), mp', rest'. split_and!; [done|lia|done..].
Qed.

(** The mount point a bare path belongs to. *)
Definition dispatched {T} r (p : string) (f : F → string → SM (axfs N F St) AxError.t T)
    (m : SM (axfs N F St) AxError.t T) : Prop :=
  (∃ mp rest, mp ∈ mounts r ∧ mounted_at mp p rest ∧ m = f (mp_fs mp) rest ∧
     (∀ mp' rest', mp' ∈ mounts r → mounted_at mp' p rest' → (String.length (mp_path mp') ≤ String.length (mp_path mp))%nat)) ∨
  ((∀ mp rest, mp ∈ mounts r → ¬ mounted_at mp p rest) ∧ m = f (main_fs r) p).

Lemma dispatch_bare {T} r path p (f : F → string → SM (axfs N F St) AxError.t T) n :
  mounts_wf r → trim_matches path = p → str_strip_prefix "./" p = None →
  dispatched r p f (lookup_mounted_from (S n) r path f).
Proof.
  intros [Hwf _] Htrim Hdot. cbn [lookup_mounted_from]. rewrite Htrim, Hdot.
  destruct (longest_match_spec p 0 (mounts r) 0 0 Hwf) as (idx & ml & -> & _ & Hmax & Hor).
  assert (∀ mp, mp ∈ mounts r → (1 < String.length (mp_path mp))%nat) as Hlen.
  { intros mp Hmp. rewrite Forall_forall in Hwf. destruct (Hwf mp Hmp) as ([|c rel] & -> & ?); [done|]. cbn. lia. }
  destruct Hor as [[-> ->]|(k & mp & rest & Hk & -> & -> & Hm)].
  - right. rewrite Nat.eqb_refl. split; [|done]. intros mp rest Hin Hm. specialize (Hmax mp rest Hin Hm).
    specialize (Hlen mp Hin). lia.
  - left. assert (mp ∈ mounts r) as Hin by by eapply list_elem_of_lookup_2. exists mp, rest.
    pose proof (Hlen mp Hin). rewrite (proj2 (Nat.eqb_neq _ _)) by lia. rewrite Nat.add_0_l, Hk.
    assert (str_from (String.length (mp_path mp) - 1) p = Ret rest) as Hfrom.
    { unfold mounted_at in Hm. rewrite Forall_forall in Hwf. destruct (Hwf mp Hin) as (rel & Hrel & _).
      rewrite Hrel, string_app_cons in Hm. simplify_eq. rewrite Hrel. cbn. rewrite Nat.sub_0_r, Hm. apply str_from_app. }
    rewrite Hfrom. split_and!; [done..|]. intros mp' rest' Hin' Hm'. specialize (Hmax mp' rest' Hin' Hm').
    specialize (Hlen mp' Hin'). lia.
Qed.

Lemma trim_matches_spec path : ∃ pre post, path = pre +:+ trim_matches path +:+ post ∧ slashes pre ∧ slashes post ∧
  starts_with "/" (trim_matches path) = false ∧ ends_with "/" (trim_matches path) = false.
Proof.
  unfold trim_matches. destruct (trim_start_spec path) as (pre & Hpre & Hs & Hst).
  destruct (trim_end_spec (trim_start path)) as (post & Hpost & He & Hen). exists pre, post.
  rewrite <-He, <-Hs. split_and!; [done..| |done]. apply not_true_is_false. rewrite starts_with_true. intros [q Hq].
  apply not_true_iff_false in Hst. apply Hst. rewrite starts_with_true. exists (q +:+ post).
  by rewrite He, Hq, string_app_assoc.
Qed.

Lemma lookup_mounted_dispatch {T} fuel r path (f : F → string → SM (axfs N F St) AxError.t T) :
  mounts_wf r → (String.length path < fuel)%nat →
  ∃ pre p post, path = pre +:+ p +:+ post ∧ dot_slashes pre ∧ slashes post ∧ bare p ∧
    dispatched r p f (lookup_mounted_from fuel r path f).
Proof.
  intros Hwf. revert path. induction fuel as [|n IH]; intros path Hf; [lia|].
  destruct (trim_matches_spec path) as (pre & post & Hpath & Hpre & Hpost & Hs & He).
  apply slashes_dot_slashes in Hpre.
  destruct (str_strip_prefix "./" (trim_matches path)) as [rest|] eqn:Hdot.
  - cbn [lookup_mounted_from]. rewrite Hdot. apply str_strip_prefix_Some in Hdot.
    destruct (IH rest) as (pre' & p & post' & Hrest & Hpre' & Hpost' & Hbare & Hd).
    { pose proof (trim_matches_length path) as Hlen. rewrite Hdot, string_app_length in Hlen. cbn in Hlen. lia. }
    exists (pre +:+ ("./" +:+ pre')), p, (post' +:+ post). split_and!; [| |by apply slashes_app|done..].
    + rewrite Hpath, Hdot, Hrest. by rewrite !string_app_assoc.
    + apply dot_slashes_app; [done|by apply ds_dot].
  - exists pre, (trim_matches path), post. split_and!; [done..| |by apply dispatch_bare].
    split_and!; [done..|]. unfold starts_with. rewrite Hdot. done.
Qed.

End dispatch.

(** ** What the operations leave alone *)

Section frames.
Context {N F St : Type} {perms : VfsNodePerm} {nops : VfsNodeOps N St} {vops : VfsOps F N St} {pops : PathOps}.
Implicit Types (s : axfs N F St).

(** The mount table and the current directory are not changed. *)
Definition framed {A} (m : SM (axfs N F St) AxError.t A) : Prop := ∀ s r s', m s = Ret (r, s') →
  ROOT_DIR s' = ROOT_DIR s ∧ CURRENT_DIR_PATH s' = CURRENT_DIR_PATH s ∧ CURRENT_DIR s' = CURRENT_DIR s.
(** Nothing is changed. *)
Definition quiet {A} (m : SM (axfs N F St) AxError.t A) : Prop := ∀ s r s', m s = Ret (r, s') → s' = s.

Lemma framed_ret {A} (a : A) : framed (sm_ret a).
Proof. intros s r s' Hm. inv_sm. done. Qed.
Lemma framed_err {A} e : framed (A:=A) (sm_err e).
Proof. intros s r s' Hm. inv_sm. done. Qed.
Lemma framed_panic {A} : framed (A:=A) sm_panic.
Proof. intros s r s' Hm. inv_sm. Qed.
Lemma framed_get : framed sm_get.
Proof. intros s r s' Hm. inv_sm. done. Qed.
Lemma framed_root_dir fs : framed (fs_root_dir (N:=N) fs).
Proof. intros s r s' Hm. unfold fs_root_dir in Hm. inv_sm. done. Qed.
Lemma framed_on_fs {A} (m : SM St AxError.t A) : framed (on_fs m).
Proof. intros s r s' Hm. unfold on_fs in Hm. destruct (m _) as [[]|]; simplify_eq/=. done. Qed.
Lemma framed_bind {A B} (m : SM (axfs N F St) AxError.t A) (f : A → SM (axfs N F St) AxError.t B) :
  framed m → (∀ a, framed (f a)) → framed (sm_bind m f).
Proof.
  intros Hm Hf s r s' H. unfold sm_bind in H. destruct (m s) as [[[a|e] s1]|] eqn:E; simplify_eq/=.
  - destruct (Hm _ _ _ E) as (?&?&?). destruct (Hf _ _ _ _ H) as (?&?&?). split_and!; congruence.
  - by apply Hm in E.
Qed.
Lemma framed_catch {A B} (m : SM (axfs N F St) AxError.t A) (f : result A AxError.t → SM (axfs N F St) AxError.t B) :
  framed m → (∀ a, framed (f a)) → framed (sm_catch m f).
Proof.
  intros Hm Hf s r s' H. unfold sm_catch in H. destruct (m s) as [[a s1]|] eqn:E; simplify_eq/=.
  destruct (Hm _ _ _ E) as (?&?&?). destruct (Hf _ _ _ _ H) as (?&?&?). split_and!; congruence.
Qed.
Lemma framed_mounted {T} path (f : F → string → SM (axfs N F St) AxError.t T) :
  (∀ fs rest, framed (f fs rest)) → framed (lookup_mounted_fs path f).
Proof.
  intros Hf. apply framed_bind; [apply framed_get|]. intros s. generalize (S (String.length path)). intros fuel.
  revert path. induction fuel as [|n IH]; intros path; [apply framed_panic|]. cbn [lookup_mounted_from].
  destruct (str_strip_prefix _ _); [done|]. destruct (longest_match _ _ _ _ _) as [[idx ml]|]; [|apply framed_panic].
  destruct (ml =? 0)%nat; [done|]. destruct (mounts _ !! idx); [destruct (str_from ml _)|]; done || apply framed_panic.
Qed.

Lemma quiet_ret {A} (a : A) : quiet (sm_ret a).
Proof. intros s r s' Hm. inv_sm. done. Qed.
Lemma quiet_err {A} e : quiet (A:=A) (sm_err e).
Proof. intros s r s' Hm. inv_sm. done. Qed.
Lemma quiet_panic {A} : quiet (A:=A) sm_panic.
Proof. intros s r s' Hm. inv_sm. Qed.
Lemma quiet_get : quiet sm_get.
Proof. intros s r s' Hm. inv_sm. done. Qed.
Lemma quiet_root_dir fs : quiet (fs_root_dir (N:=N) fs).
Proof. intros s r s' Hm. unfold fs_root_dir in Hm. inv_sm. done. Qed.
Lemma quiet_bind {A B} (m : SM (axfs N F St) AxError.t A) (f : A → SM (axfs N F St) AxError.t B) :
  quiet m → (∀ a, quiet (f a)) → quiet (sm_bind m f).
Proof.
  intros Hm Hf s r s' H. unfold sm_bind in H. destruct (m s) as [[[a|e] s1]|] eqn:E; simplify_eq/=.
  - apply Hm in E as ->. by apply Hf in H.
  - by apply Hm in E.
Qed.
Lemma quiet_on_fs {A} (m : SM St AxError.t A) :
  (∀ st r st', m st = Ret (r, st') → st' = st) → quiet (on_fs m).
Proof.
  intros Hq s r s' Hm. unfold on_fs in Hm. destruct (m _) as [[r' st]|] eqn:E; simplify_eq/=.
  apply Hq in E as ->. by destruct s.
Qed.
Lemma quiet_mounted {T} path (f : F → string → SM (axfs N F St) AxError.t T) :
  (∀ fs rest, quiet (f fs rest)) → quiet (lookup_mounted_fs path f).
Proof.
  intros Hf. apply quiet_bind; [apply quiet_get|]. intros s. generalize (S (String.length path)). intros fuel.
  revert path. induction fuel as [|n IH]; intros path; [apply quiet_panic|]. cbn [lookup_mounted_from].
  destruct (str_strip_prefix _ _); [done|]. destruct (longest_match _ _ _ _ _) as [[idx ml]|]; [|apply quiet_panic].
  destruct (ml =? 0)%nat; [done|]. destruct (mounts _ !! idx); [destruct (str_from ml _)|]; done || apply quiet_panic.
Qed.

End frames.

Create HintDb axfs.
#[export] Hint Resolve framed_ret framed_err framed_panic framed_get framed_root_dir framed_on_fs framed_bind framed_catch
  framed_mounted quiet_ret quiet_err quiet_panic quiet_get quiet_root_dir quiet_bind quiet_mounted : axfs.
(** Goals [framed m] and [quiet m] by the shape of [m]. *)
Ltac by_shape :=
  repeat first
    [ progress intros
    | solve [eauto with axfs nocore]
    | apply framed_mounted | apply quiet_mounted | apply framed_bind | apply framed_catch | apply quiet_bind | apply quiet_on_fs
    | match goal with
      | |- framed (if ?b then _ else _) => destruct b
      | |- quiet (if ?b then _ else _) => destruct b
      | |- framed (match ?x with _ => _ end) => destruct x
      | |- quiet (match ?x with _ => _ end) => destruct x
      | |- framed (let _ := _ in _) => cbv zeta
      | |- quiet (let _ := _ in _) => cbv zeta
      end ].

Section frame_ops.
Context {N F St : Type} {perms : VfsNodePerm} {nops : VfsNodeOps N St} {vops : VfsOps F N St} {pops : PathOps}.
Implicit Types (s : axfs N F St).

Lemma framed_lookup (dir : option N) path : framed (F:=F) (lookup dir path).
Proof. unfold lookup, node_lookup, RootDirectory_lookup. by_shape. Qed.
Lemma framed_node_create (n : VfsNodeRef N) path ty : framed (F:=F) (node_create n path ty).
Proof. unfold node_create, RootDirectory_create. by_shape. Qed.
Lemma framed_node_remove (n : VfsNodeRef N) path : framed (F:=F) (node_remove n path).
Proof. unfold node_remove, RootDirectory_remove. by_shape. Qed.
Lemma framed_node_rename (n : VfsNodeRef N) src dst : framed (F:=F) (node_rename n src dst).
Proof. unfold node_rename, RootDirectory_rename. by_shape. Qed.
Lemma framed_node_lookup (n : VfsNodeRef N) path : framed (F:=F) (node_lookup n path).
Proof. unfold node_lookup, RootDirectory_lookup. by_shape. Qed.
End frame_ops.
#[export] Hint Resolve framed_lookup framed_node_create framed_node_remove framed_node_rename framed_node_lookup : axfs.

Section frame_api.
Context {N F St : Type} {perms : VfsNodePerm} {nops : VfsNodeOps N St} {vops : VfsOps F N St} {pops : PathOps}.

Lemma framed_create_file (dir : option N) path : framed (F:=F) (create_file dir path).
Proof. unfold create_file. by_shape. Qed.
Lemma framed_create_dir (dir : option N) path : framed (F:=F) (create_dir dir path).
Proof. unfold create_dir. by_shape. Qed.
Lemma framed_remove_file (dir : option N) path : framed (F:=F) (remove_file dir path).
Proof. unfold remove_file. by_shape. Qed.
Lemma framed_remove_dir (dir : option N) path : framed (F:=F) (remove_dir dir path).
Proof. unfold remove_dir. by_shape. Qed.
Lemma framed_rename old new : framed (N:=N) (F:=F) (rename old new).
Proof. unfold rename. by_shape. all: apply framed_remove_file. Qed.
End frame_api.
#[export] Hint Resolve framed_create_file framed_create_dir framed_remove_file framed_remove_dir framed_rename : axfs.

(** ** The calls of the API *)

Section properties.
Context {N F St : Type} {perms : VfsNodePerm} {nops : VfsNodeOps N St} {vops : VfsOps F N St} {pops : PathOps}.
Implicit Types (s : axfs N F St).

Inductive axfs_call : Type :=
| CallMount (path : string) (fs : F)
| CallUmount (path : string)
| CallLookup (dir : option N) (path : string)
| CallCreateFile (dir : option N) (path : string)
| CallCreateDir (dir : option N) (path : string)
| CallRemoveFile (dir : option N) (path : string)
| CallRemoveDir (dir : option N) (path : string)
| CallSetCurrentDir (path : string)
| CallRename (old new : string).

Definition discard {A} (m : SM (axfs N F St) AxError.t A) : SM (axfs N F St) AxError.t unit :=
  sm_catch m (λ _, sm_ret tt).
Definition run_call (c : axfs_call) : SM (axfs N F St) AxError.t unit :=
  match c with
  | CallMount path fs => mount path fs
  | CallUmount path => umount path
  | CallLookup dir path => discard (lookup dir path)
  | CallCreateFile dir path => discard (create_file dir path)
  | CallCreateDir dir path => create_dir dir path
  | CallRemoveFile dir path => remove_file dir path
  | CallRemoveDir dir path => remove_dir dir path
  | CallSetCurrentDir path => set_current_dir path
  | CallRename old new => rename old new
  end.

(** The current directory: its path is absolute and ends in a slash, so that a
    relative path can be appended, and it is the root directory exactly for [/]. *)
Definition cwd_wf s : Prop :=
  starts_with "/" (CURRENT_DIR_PATH s) = true ∧ ends_with "/" (CURRENT_DIR_PATH s) = true ∧
  (CURRENT_DIR s = RootDir ↔ CURRENT_DIR_PATH s = "/"%string).
Definition root_wf s : Prop := mounts_wf (ROOT_DIR s) ∧ cwd_wf s.

Lemma root_wf_framed {A} (m : SM (axfs N F St) AxError.t A) s r s' :
  framed m → m s = Ret (r, s') → root_wf s → root_wf s'.
Proof. intros Hf Hm Hwf. apply Hf in Hm as (Hr & Hp & Hd). unfold root_wf, cwd_wf. by rewrite Hr, Hp, Hd. Qed.

Lemma contains_false path (r : RootDirectory F) : contains path r = false → path ∉ (mp_path <$> mounts r).
Proof.
  unfold contains. intros Hc Hin. apply list_elem_of_fmap in Hin as (mp & -> & Hin).
  apply not_true_iff_false in Hc. apply Hc. apply existsb_exists. exists mp. split; [by apply list_elem_of_In|].
  by apply bool_decide_eq_true.
Qed.

Lemma mount_path_ok_start path : path ≠ "/"%string → starts_with "/" path = true → mount_path_ok path.
Proof. intros Hne [rel ->]%starts_with_true. exists rel. split; [done|]. by intros ->. Qed.

Lemma mount_wf path fs s r s' : root_wf s → mount path fs s = Ret (r, s') → root_wf s'.
Proof.
  intros Hwf. unfold mount. case_bool_decide as Hne; [intros Hm; by inv_sm|].
  destruct (starts_with "/" path) eqn:Hs; cbn [negb]; [|intros Hm; by inv_sm].
  rewrite sm_get_bind. intros Hm.
  destruct (contains path (ROOT_DIR s)) eqn:Hc; [by inv_sm|].
  assert (framed (N:=N) (attach path fs)) as Hatt by (unfold attach; by_shape).
  apply sm_bind_inv in Hm as [([] & s2 & Ha & Hm)|(e & Ha & _)]; [|by eapply root_wf_framed].
  destruct (Hatt _ _ _ Ha) as (Hroot & _). apply (root_wf_framed _ _ _ _ Hatt Ha) in Hwf as [[Hok Hnd] Hcwd].
  unfold sm_modify in Hm. simplify_eq/=. split; [|done]. split; cbn.
  - apply Forall_app. split; [done|]. apply Forall_singleton. by apply mount_path_ok_start.
  - rewrite fmap_app. apply NoDup_app. split_and!; [done| |apply NoDup_singleton].
    intros x Hx Hx'. apply list_elem_of_singleton in Hx' as ->. rewrite Hroot in Hx. by apply contains_false in Hx.
Qed.
Lemma umount_wf path s r s' : root_wf s → umount path s = Ret (r, s') → root_wf s'.
Proof.
  intros Hwf. unfold umount. rewrite sm_get_bind. intros Hm.
  assert (∀ mps, framed (N:=N) (drop_mounts path mps)) as Hd.
  { induction mps as [|mp mps IH]; cbn [drop_mounts]; [by_shape|]. unfold drop_mount_point. by_shape. }
  apply sm_bind_inv in Hm as [([] & s2 & Ha & Hm)|(e & Ha & _)]; [|by eapply root_wf_framed].
  destruct (root_wf_framed _ _ _ _ (Hd _) Ha Hwf) as [[Hok Hnd] Hcwd]. unfold sm_modify in Hm. simplify_eq/=.
  split; [|done]. split; cbn.
  { rewrite Forall_forall in *. intros mp [_ Hin]%list_elem_of_filter. by apply Hok. }
  eapply sublist_NoDup; [exact Hnd|]. apply fmap_sublist, sublist_filter.
Qed.

(** Every path goes to exactly one filesystem.  The slashes and [./] in front of
    it and the slashes behind it are skipped; what is left goes to the filesystem
    mounted at the longest mount path that is a prefix of it, with the rest of the
    path, and to the main filesystem when there is none.  The search ends without a
    panic.  A prefix is a prefix of the text: [/tmpx] goes to the filesystem
    mounted at [/tmp], as [x]. *)
Theorem mount_dispatch {T} path (f : F → string → SM (axfs N F St) AxError.t T) s :
  mounts_wf (ROOT_DIR s) →
  ∃ pre p post m, path = pre +:+ p +:+ post ∧ dot_slashes pre ∧ slashes post ∧ bare p ∧
    dispatched (ROOT_DIR s) p f m ∧ lookup_mounted_fs path f s = m s.
Proof.
  intros Hwf. destruct (lookup_mounted_dispatch (S (String.length path)) (ROOT_DIR s) path f Hwf) as
    (pre & p & post & Hp & Hpre & Hpost & Hb & Hd); [lia|].
  eexists pre, p, post, _. split_and!; [done..| |]; [exact Hd|done].
Qed.

Section checks.
Context {ro : VfsReadOnly (N:=N) (St:=St)}.

Lemma quiet_lookup (dir : option N) path : quiet (F:=F) (lookup dir path).
Proof.
  unfold lookup, node_lookup, RootDirectory_lookup. by_shape.
  all: eauto using vn_lookup_quiet, vn_get_attr_quiet.
Qed.
Lemma quiet_get_attr (n : N) : quiet (N:=N) (F:=F) (on_fs (vn_get_attr n)).
Proof. apply quiet_on_fs. intros st r st'. apply vn_get_attr_quiet. Qed.

(** Looking a path up and asking for its attributes. *)
Lemma lookup_attr_inv {A} (dir : option N) path (k : N → FileAttr → SM (axfs N F St) AxError.t A) s r s' :
  (let! node := lookup dir path in let! attr := on_fs (vn_get_attr node) in k node attr) s = Ret (r, s') →
  (is_ok r = false ∧ s' = s) ∨
  ∃ n a, lookup dir path s = Ret (Ok n, s) ∧ on_fs (vn_get_attr n) s = Ret (Ok a, s) ∧ k n a s = Ret (r, s').
Proof.
  intros [(n & s1 & Hl & Hm)|(e & Hl & ->)]%sm_bind_inv; pose proof (quiet_lookup _ _ _ _ _ Hl) as ->; [|by left].
  apply sm_bind_inv in Hm as [(a & s1 & Ha & Hm)|(e & Ha & ->)]; pose proof (quiet_get_attr _ _ _ _ Ha) as ->; [|by left].
  right. by exists n, a.
Qed.

(** [remove_file] and [remove_dir] reach the filesystem only behind their checks:
    when one succeeds, the path named an existing node that its owner may write, a
    directory for [remove_dir] and not for [remove_file], and a removed directory is
    neither a mount point nor named by [.] or [..]; the change is the one of the
    filesystem.  When one fails, either nothing has changed or the filesystem
    refused. *)
Theorem removal_checked (dir : option N) path s r s' (want_dir : bool) :
  (if want_dir then remove_dir dir path else remove_file dir path) s = Ret (r, s') →
  (is_ok r = false ∧ s' = s) ∨
  (path ≠ ""%string ∧
   (want_dir = true → contains (absolute_path path s) (ROOT_DIR s) = false ∧ is_dot_path (trim_matches path) = false ∧
                      trim_matches path ≠ ""%string) ∧
   ∃ n a, lookup dir path s = Ret (Ok n, s) ∧ on_fs (vn_get_attr n) s = Ret (Ok a, s) ∧
     is_dir a = want_dir ∧ owner_writable (fa_perm a) = true ∧
     node_remove (parent_node_of dir path s) path s = Ret (r, s')).
Proof.
  assert (∀ n s1, lookup dir path s = Ret (Ok n, s1) → path ≠ ""%string) as Hne.
  { intros n s1 Hl ->. unfold lookup in Hl. rewrite bool_decide_true in Hl by done. inv_sm. }
  destruct want_dir; intros Hm.
  - unfold remove_dir in Hm. case_bool_decide; [left; by inv_sm|]. case_bool_decide; [left; by inv_sm|].
    destruct (is_dot_path _) eqn:Hdot; [left; by inv_sm|]. rewrite sm_get_bind in Hm.
    destruct (contains _ _) eqn:Hc; [left; by inv_sm|].
    apply lookup_attr_inv in Hm as [?|(n & a & Hl & Ha & Hm)]; [by left|].
    destruct (is_dir a) eqn:Hd; cbn [negb] in Hm; [|left; by inv_sm].
    destruct (owner_writable _) eqn:Hw; cbn [negb] in Hm; [|left; by inv_sm].
    right. split_and!; [done..|]. by exists n, a.
  - unfold remove_file in Hm. apply lookup_attr_inv in Hm as [?|(n & a & Hl & Ha & Hm)]; [by left|].
    destruct (is_dir a) eqn:Hd; [left; by inv_sm|].
    destruct (owner_writable _) eqn:Hw; cbn [negb] in Hm; [|left; by inv_sm].
    right. rewrite sm_get_bind in Hm. split_and!; [by eapply Hne|done|]. by exists n, a.
Qed.
End checks.

Context {plaws : PathLaws}.

(** The path a directory is entered under. *)
Definition dir_path (abs_path : string) : string := if ends_with "/" abs_path then abs_path else abs_path +:+ "/".

Lemma absolute_path_absolute path s : cwd_wf s → starts_with "/" (absolute_path path s) = true.
Proof.
  intros (Hs & _). unfold absolute_path. destruct (starts_with "/" path) eqn:Hp; [by apply canonicalize_absolute|].
  apply canonicalize_absolute. apply starts_with_true in Hs as [q ->]. apply starts_with_true. exists (q +:+ path).
  by rewrite string_app_assoc.
Qed.
Lemma dir_path_ok p : starts_with "/" p = true → starts_with "/" (dir_path p) = true ∧ ends_with "/" (dir_path p) = true.
Proof.
  intros Hs. unfold dir_path. destruct (ends_with "/" p) eqn:He; [done|]. apply starts_with_true in Hs as [q ->]. split.
  - apply starts_with_true. eexists. by rewrite string_app_assoc.
  - apply ends_with_true. by eexists.
Qed.

Lemma set_current_dir_inv path s r s' :
  set_current_dir path s = Ret (r, s') →
  let p := dir_path (absolute_path path s) in
  (p = "/"%string ∧ r = Ok tt ∧ store_current_dir RootDir "/" s = Ret (r, s')) ∨
  (p ≠ "/"%string ∧ ∃ r1 s1, lookup None p s = Ret (r1, s1) ∧
     match r1 with
     | Err e => r = Err e ∧ s' = s1
     | Ok n => ∃ r2 s2, on_fs (vn_get_attr n) s1 = Ret (r2, s2) ∧
         match r2 with
         | Err e => r = Err e ∧ s' = s2
         | Ok a =>
             if negb (is_dir a) then r = Err AxError.NotADirectory ∧ s' = s2
             else if negb (owner_executable (fa_perm a)) then r = Err AxError.PermissionDenied ∧ s' = s2
             else r = Ok tt ∧ store_current_dir (FsNode n) p s2 = Ret (r, s')
         end
     end).
Proof.
  unfold set_current_dir. rewrite sm_get_bind. intros Hm.
  fold (dir_path (absolute_path path s)) in *. case_bool_decide as Hroot.
  - left. pose proof Hm as Hm'. unfold store_current_dir in Hm'. inv_sm. done.
  - right. split; [done|]. apply sm_bind_inv in Hm as [(n & s2 & Hl & Hm)|(e & Hl & ->)]; [|by eexists _, _].
    eexists _, _. split; [done|]. cbn. apply sm_bind_inv in Hm as [(a & s3 & Ha & Hm)|(e & Ha & ->)]; [|by eexists _, _].
    eexists _, _. split; [done|]. cbn. destruct (is_dir a); cbn in *; [|by inv_sm].
    destruct (owner_executable _); cbn in *; [|by inv_sm]. pose proof Hm as Hm'. unfold store_current_dir in Hm'. inv_sm. done.
Qed.

Lemma set_current_dir_wf path s r s' : root_wf s → set_current_dir path s = Ret (r, s') → root_wf s'.
Proof.
  intros Hwf Hm. assert (framed (F:=F) (lookup (N:=N) None (dir_path (absolute_path path s)))) as Hf by apply framed_lookup.
  destruct (dir_path_ok (absolute_path path s)) as [Hps Hpe]; [apply absolute_path_absolute, Hwf|].
  apply set_current_dir_inv in Hm as [(Hp & _ & Hm)|(Hp & r1 & s1 & Hl & Hm)].
  - unfold store_current_dir in Hm. inv_sm. destruct Hwf as [Hmt _]. split; [done|]. by split_and!.
  - apply (root_wf_framed _ _ _ _ Hf Hl) in Hwf. destruct r1 as [n|e]; [|naive_solver].
    destruct Hm as (r2 & s2 & Ha & Hm). apply (root_wf_framed _ _ _ _ (framed_on_fs _) Ha) in Hwf.
    destruct r2 as [a|e]; [|naive_solver]. destruct (is_dir a); cbn in Hm; [|naive_solver].
    destruct (owner_executable _); cbn in Hm; [|naive_solver]. destruct Hm as [_ Hm]. unfold store_current_dir in Hm.
    inv_sm. destruct Hwf as [Hmt _]. split; [done|]. by split_and!.
Qed.

(** [set_current_dir] enters a directory or changes nothing.  When it succeeds, the
    new current directory is the node its absolute path leads to, a directory its
    owner may enter, and its recorded path is that path with a slash behind it; the
    mount table is untouched. *)
Theorem set_current_dir_checked {ro : VfsReadOnly (N:=N) (St:=St)} path s r s' :
  set_current_dir path s = Ret (r, s') →
  let p := dir_path (absolute_path path s) in
  match r with
  | Err _ => s' = s
  | Ok _ =>
      CURRENT_DIR_PATH s' = p ∧ ROOT_DIR s' = ROOT_DIR s ∧
      fs_state s' = ref_drop (CURRENT_DIR s) (ref_clone (CURRENT_DIR s') (fs_state s)) ∧
      ((p = "/"%string ∧ CURRENT_DIR s' = RootDir) ∨
       ∃ n a, lookup None p s = Ret (Ok n, s) ∧ on_fs (vn_get_attr n) s = Ret (Ok a, s) ∧
         is_dir a = true ∧ owner_executable (fa_perm a) = true ∧ CURRENT_DIR s' = FsNode n)
  end.
Proof.
  intros Hm. apply set_current_dir_inv in Hm as [(Hp & -> & Hm)|(Hp & r1 & s1 & Hl & Hm)]; cbv zeta.
  - unfold store_current_dir in Hm. inv_sm. split_and!; [done..|]. by left.
  - pose proof (quiet_lookup _ _ _ _ _ Hl) as ->. destruct r1 as [n|e]; [|by destruct Hm as [-> ->]].
    destruct Hm as (r2 & s2 & Ha & Hm). pose proof (quiet_get_attr _ _ _ _ Ha) as ->.
    destruct r2 as [a|e]; [|by destruct Hm as [-> ->]].
    destruct (is_dir a) eqn:Hd; cbn in Hm; [|by destruct Hm as [-> ->]].
    destruct (owner_executable _) eqn:He; cbn in Hm; [|by destruct Hm as [-> ->]].
    destruct Hm as [-> Hm]. unfold store_current_dir in Hm. inv_sm. split_and!; [done..|]. right. by exists n, a.
Qed.

Lemma run_call_wf c s r s' : root_wf s → run_call c s = Ret (r, s') → root_wf s'.
Proof.
  intros Hwf Hm. destruct c; cbn [run_call] in Hm; [by eapply mount_wf|by eapply umount_wf| | | | | |by eapply set_current_dir_wf|].
  all: eapply root_wf_framed; [|exact Hm|done]; unfold discard; eauto with axfs.
Qed.

(** The mount points stay absolute, different from the root and from each other,
    and the path of the current directory stays absolute and ends in a slash:
    [init_rootfs] sets this up and every call on paths keeps it, whatever the
    filesystems do. *)
Theorem root_invariant main devfs ramfs procfs sysfs st s :
  init_rootfs main devfs ramfs procfs sysfs st = Ret s →
  root_wf s ∧ ∀ cs s', foldl (λ o c, o ≫= λ s, snd <$> run_call c s) (Ret s) cs = Ret s' → root_wf s'.
Proof.
  intros Hi. assert (root_wf s) as Hwf.
  { unfold init_rootfs in Hi. destruct (mount_all _ _) as [[r s1]|] eqn:Hm; simplify_eq.
    set (s0 := {| ROOT_DIR := _ |}) in Hm. assert (root_wf s0) as H0.
    { split; [split; cbn; constructor|by split_and!]. }
    revert Hm H0. generalize s0. set (mps := _ ++ _). induction mps as [|mp mps IH]; intros s1; cbn [mount_all]; intros Hm H0; [by inv_sm|].
    apply sm_bind_inv in Hm as [([] & s2 & He & Hm)|(e & He & _)]; unfold expect in He;
      destruct (mount _ _ s1) as [[[]]|] eqn:Hmt; simplify_eq. eapply IH; [done|]. by eapply mount_wf. }
  split; [done|]. intros cs. revert s Hi Hwf. induction cs as [|c cs IH] using rev_ind; intros s Hi Hwf s'; cbn; [naive_solver|].
  rewrite foldl_app. destruct (foldl _ _ cs) as [s1|] eqn:Hf; cbn; [|done].
  destruct (run_call c s1) as [[r s2]|] eqn:Hc; cbn; intros ?; simplify_eq. eapply run_call_wf; [|done]. by eapply IH.
Qed.
End properties.
