(* ===== verification/RamfsVfs.v ===== *)
(** RAM filesystems as the filesystems of [axfs]: [Ramfs] implements the interface
    of [Vfs].

    The state is the store of nodes and the filesystems created so far; a
    filesystem is named by its number.  References that outlive a call (open files,
    the current directory) pin their node; a node goes with its last reference,
    and with a directory its entries lose a reference.  The file also has the
    filesystems [axfs/src/mounts.rs] fills at start-up. *)

From stdpp Require Import prelude gmap strings list.
From Stdlib Require Import ZArith Lia.
From S2P Require Import Prelude Ramfs Vfs.
Local Open Scope Z_scope.
Local Open Scope kernel_scope.

(** ** References that outlive a call *)

Definition set_pinned (m : gmap nat nat) (s : store) : store :=
  {| nodes := nodes s; next := next s; pinned := m |}.
Definition pin (j : nat) (s : store) : store :=
  set_pinned (<[j := S (default 0%nat (pinned s !! j))]> (pinned s)) s.

(** Some directory of the store has [j] as an entry. *)
Definition entries_of (n : Node) : list nat :=
  match n with DirNode _ ch => (map_to_list ch).*2 | FileNode _ => [] end.
Definition linked (j : nat) (s : store) : bool :=
  existsb (λ n, bool_decide (j ∈ entries_of n)) (map_to_list (nodes s)).*2.

(** The nodes of [js] lost a reference: those without another go, and their entries
    lose one in turn. *)
Fixpoint reap (fuel : nat) (js : list nat) (s : store) : store :=
  match fuel, js with
  | S n, j :: js =>
      match nodes s !! j with
      | Some node =>
          if bool_decide (0 < default 0 (pinned s !! j))%nat || linked j s then reap n js s
          else reap n (entries_of node ++ js) (set_nodes (delete j (nodes s)) s)
      | None => reap n js s
      end
  | _, _ => s
  end.
(** Every node is an entry of one directory only, so there are no more references to
    lose than entries in the store, and the first one. *)
Definition total_entries (s : store) : nat :=
  sum_list_with (λ n, length (entries_of n)) (map_to_list (nodes s)).*2.
Definition unpin (j : nat) (s : store) : store :=
  let s := set_pinned (<[j := pred (default 0%nat (pinned s !! j))]> (pinned s)) s in
  reap (S (total_entries s)) [j] s.

(** ** The instance *)

(** The default methods of [VfsNodeOps] the nodes of [axfs_ramfs] keep; the default
    [release] does nothing. *)
Class VfsTraitDefaults : Type := {
  default_open : result unit AxError.t;
  file_fsync : result unit AxError.t;
  dir_fsync : result unit AxError.t;
  default_umount : result unit AxError.t;
}.

Record ramfs_world : Type := { rw_store : store; rw_fss : list RamFileSystem }.

Section instance.
Context {defaults : VfsDefaults} {tdefaults : VfsTraitDefaults} {perms : VfsNodePerm}.

(** An operation of the store, and one that does not change it. *)
Definition on_store {A} (m : SM store AxError.t A) : SM ramfs_world AxError.t A := λ w,
  match m (rw_store w) with
  | Ret (r, s) => Ret (r, {| rw_store := s; rw_fss := rw_fss w |})
  | Panic => Panic
  end.
Definition ask {A} (f : store → outcome (result A AxError.t)) : SM ramfs_world AxError.t A := λ w,
  match f (rw_store w) with
  | Ret r => Ret (r, w)
  | Panic => Panic
  end.
Definition map_store (f : store → store) (w : ramfs_world) : ramfs_world :=
  {| rw_store := f (rw_store w); rw_fss := rw_fss w |}.

(** [VfsNodeAttr::new_file] and [new_dir] give the default permissions. *)
Definition attr_of (a : VfsNodeAttr) : FileAttr :=
  {| fa_type := attr_type a; fa_size := attr_size a; fa_blocks := attr_blocks a;
     fa_perm := if bool_decide (attr_type a = Dir) then default_dir else default_file |}.
Definition node_fsync (i : nat) (s : store) : outcome (result unit AxError.t) :=
  match nodes s !! i with
  | Some (FileNode _) => Ret file_fsync
  | Some (DirNode _ _) => Ret dir_fsync
  | None => Panic
  end.

#[export] Instance ramfs_node_ops : VfsNodeOps nat ramfs_world := {|
  vn_open _ := ask (λ _, Ret default_open);
  vn_release _ w := w;
  vn_get_attr i := ask (λ s, (λ a, Ok (attr_of a)) <$> get_attr i s);
  vn_read_at i offset len := ask (read_at i offset len);
  vn_write_at i offset buf := on_store (write_at i offset buf);
  vn_fsync i := ask (node_fsync i);
  vn_truncate i size := on_store (truncate i size);
  vn_lookup i path := ask (lookup i path);
  vn_create i path ty := on_store (create i path ty);
  vn_remove i path := on_store (remove i path);
  vn_rename i src dst := on_store (rename i src dst);
  vn_read_dir i idx n := ask (read_dir i idx n);
  vn_clone i := map_store (pin i);
  vn_drop i := map_store (unpin i);
|}.

(** [VfsNodeOps::parent]; a file has none. *)
Definition node_parent (i : nat) (s : store) : option nat :=
  match nodes s !! i with Some (DirNode p _) => upgrade p s | _ => None end.

Definition fs_mount (f : nat) (mount_point : nat) : SM ramfs_world AxError.t unit := λ w,
  match rw_fss w !! f with
  | Some fs =>
      match mount (node_parent mount_point (rw_store w)) fs (rw_store w) with
      | Ret (fs, s) => Ret (Ok tt, {| rw_store := s; rw_fss := <[f := fs]> (rw_fss w) |})
      | Panic => Panic
      end
  | None => Panic
  end.

#[export] Instance ramfs_ops : VfsOps nat nat ramfs_world := {|
  vfs_root_dir f w := default 0%nat (fs_root <$> rw_fss w !! f);
  vfs_mount f _ mount_point := fs_mount f mount_point;
  vfs_umount _ := ask (λ _, Ret default_umount);
|}.

#[export] Instance ramfs_read_only : VfsReadOnly (N:=nat) (St:=ramfs_world).
Proof.
  split; cbn; unfold ask; intros; by repeat case_match; simplify_eq.
Qed.

(** ** [axfs/src/mounts.rs] *)

Abbreviation W := (SM ramfs_world AxError.t).

Definition ramfs : W nat := λ w,
  let (fs, s) := fs_new (rw_store w) in
  Ret (Ok (length (rw_fss w)), {| rw_store := s; rw_fss := rw_fss w ++ [fs] |}).

(** [fs.root_dir()], inside the monad. *)
Definition root_of (f : nat) : W nat := λ w, Ret (Ok (vfs_root_dir f w), w).

(** The bytes of a string literal. *)
Fixpoint bytes (s : string) : list Z :=
  match s with EmptyString => [] | String c s => Z.of_nat (Ascii.nat_of_ascii c) :: bytes s end.
Definition newline : string := String (Ascii.ascii_of_nat 10) "".

Definition procfs : W nat :=
  let! procfs := ramfs in
  let! proc_root := root_of procfs in
  do! vn_create proc_root "sys" Dir in
  do! vn_create proc_root "sys/net" Dir in
  do! vn_create proc_root "sys/net/core" Dir in
  do! vn_create proc_root "sys/net/core/somaxconn" File in
  let! file_somaxconn := vn_lookup proc_root "./sys/net/core/somaxconn" in
  do! vn_write_at file_somaxconn 0 (bytes ("4096" +:+ newline)) in
  do! vn_create proc_root "sys/vm" Dir in
  do! vn_create proc_root "sys/vm/overcommit_memory" File in
  let! file_over := vn_lookup proc_root "./sys/vm/overcommit_memory" in
  do! vn_write_at file_over 0 (bytes ("0" +:+ newline)) in
  do! vn_create proc_root "self" Dir in
  do! vn_create proc_root "self/stat" File in
  sm_ret procfs.

Definition sysfs : W nat :=
  let! sysfs := ramfs in
  let! sys_root := root_of sysfs in
  do! vn_create sys_root "kernel" Dir in
  do! vn_create sys_root "kernel/mm" Dir in
  do! vn_create sys_root "kernel/mm/transparent_hugepage" Dir in
  do! vn_create sys_root "kernel/mm/transparent_hugepage/enabled" File in
  let! file_hp := vn_lookup sys_root "./kernel/mm/transparent_hugepage/enabled" in
  do! vn_write_at file_hp 0 (bytes ("always [madvise] never" +:+ newline)) in
  do! vn_create sys_root "devices" Dir in
  do! vn_create sys_root "devices/system" Dir in
  do! vn_create sys_root "devices/system/clocksource" Dir in
  do! vn_create sys_root "devices/system/clocksource/clocksource0" Dir in
  do! vn_create sys_root "devices/system/clocksource/clocksource0/current_clocksource" File in
  let! file_cc := vn_lookup sys_root "devices/system/clocksource/clocksource0/current_clocksource" in
  do! vn_write_at file_cc 0 (bytes ("tsc" +:+ newline)) in
  sm_ret sysfs.

End instance.

(** ** What an operation keeps *)

Definition held (j : nat) (s : store) : Prop := ∃ k, pinned s !! j = Some (S k).
Definition is_dir_node (j : nat) (s : store) : Prop := ∃ p ch, nodes s !! j = Some (DirNode p ch).

(** Somebody has a reference to the node: the rest of the kernel or a directory. *)
Definition referenced (j : nat) (s : store) : Prop := held j s ∨ ∃ a name, has_child s a name j.

(** The nodes that are held stay, and stay files or directories; a new entry is a
    new node; and a node without a reference does not stay. *)
Record store_step (s s' : store) : Prop := {
  ss_wf : ramfs_wf s';
  ss_pinned : pinned s' = pinned s;
  ss_held j n : held j s → nodes s !! j = Some n → ∃ n', nodes s' !! j = Some n' ∧ node_type n' = node_type n;
  ss_child a name b : has_child s' a name b → nodes s !! b = None ∨ ∃ a' name', has_child s a' name' b;
  ss_referenced j : is_Some (nodes s' !! j) → (is_Some (nodes s !! j) → referenced j s) → referenced j s';
}.

Lemma store_step_refl s : ramfs_wf s → store_step s s.
Proof. intros Hwf. split; [done|done|by eauto| |by auto]. intros a name b Hc. right. by eexists _, _. Qed.

Lemma create_node_step i name ty s r s' :
  ramfs_wf s → create_node i name ty s = Ret (r, s') → store_step s s'.
Proof.
  intros Hwf Hm. destruct (nodes s !! i) as [[c|p ch]|] eqn:Hi; unfold create_node in Hm; rewrite Hi in Hm; try done.
  destruct (exist name ch) eqn:He; [simplify_eq; by apply store_step_refl|].
  assert (ch !! name = None) as Hn.
  { unfold exist in He. apply bool_decide_eq_false in He. by apply eq_None_not_Some. }
  destruct (decide (ty = File ∨ ty = Dir)) as [Hty|Hty].
  2: { destruct ty; simplify_eq; try (by apply store_step_refl); destruct Hty; by auto. }
  destruct (create_node_ok i p ch name ty s Hwf Hi Hn Hty) as (s1 & Hok & Hwf1 & Hi1 & _ & Hoth & Hpin).
  assert (s' = s1) as ->.
  { unfold create_node in Hok. rewrite Hi, He in Hok. destruct Hty as [->| ->]; simplify_eq; done. }
  pose proof (fresh_none s Hwf) as Hf. split; [done|done| | |].
  - intros j n _ Hj. destruct (decide (j = i)) as [->|]; [simplify_eq; rewrite Hi1; by eexists|].
    rewrite Hoth by congruence. by eexists.
  - intros a nm b (p' & ch' & Ha & Hb). destruct (decide (a = i)) as [->|Hai].
    + rewrite Hi1 in Ha. simplify_eq. apply lookup_insert_Some in Hb as [[_ <-]|[_ Hb]]; [by left|].
      right. by exists i, nm, p', ch.
    + destruct (decide (a = next s)) as [->|]; [|right; exists a, nm, p', ch'; by rewrite <-Hoth].
      destruct (create_node_ok i p ch name ty s Hwf Hi Hn Hty) as (s2 & Hok2 & _ & _ & (node & Hnode & _ & Hor) & _).
      rewrite Hok in Hok2. simplify_eq. destruct Hor as [?|?]; simplify_eq.
  - intros j Hj Href. destruct (decide (j = next s)) as [->|Hjn].
    { right. exists i, name, p, (<[name := next s]> ch). by rewrite lookup_insert_eq. }
    assert (is_Some (nodes s !! j)) as Hj0.
    { destruct (decide (j = i)) as [->|]; [by eexists|]. by rewrite <-Hoth. }
    destruct (Href Hj0) as [[k Hk]|(a & nm & p' & ch' & Ha & Hb)]; [left; exists k; by rewrite Hpin|right].
    exists a, nm. destruct (decide (a = i)) as [->|]; simplify_eq.
    + exists p, (<[name := next s]> ch). split; [done|]. rewrite lookup_insert_ne by congruence. done.
    + exists p', ch'. rewrite Hoth by congruence. done.
Qed.

Lemma remove_node_step i name s r s' :
  ramfs_wf s → remove_node i name s = Ret (r, s') → store_step s s'.
Proof.
  intros Hwf Hm. destruct (nodes s !! i) as [[c|p ch]|] eqn:Hi; unfold remove_node in Hm; rewrite Hi in Hm; try done.
  destruct (ch !! name) as [j|] eqn:Hj; [|simplify_eq; by apply store_step_refl].
  assert (s' = s ∨ ((∃ c, nodes s !! j = Some (FileNode c)) ∨ ∃ p, nodes s !! j = Some (DirNode p ∅)) ∧
          s' = release j (with_children i p (delete name ch) s)) as [->|[Hk Hs']].
  { destruct (nodes s !! j) as [[c|q sub]|]; [simplify_eq; right; split; [left; by eexists|done]| |done].
    case_bool_decide; simplify_eq; [right; split; [right; by eexists|done]|by left]. }
  { by apply store_step_refl. }
  destruct (remove_node_ok i p ch name j s Hwf Hi Hj Hk) as (s1 & Hok & Hwf1 & Hi1 & Hoth & Hjs).
  assert (s' = s1) as <-.
  { unfold remove_node in Hok. rewrite Hi, Hj in Hok. destruct Hk as [[c Hk]|[q Hk]]; rewrite Hk in Hok; [by simplify_eq|].
    rewrite bool_decide_true in Hok by done. by simplify_eq. }
  assert (pinned s' = pinned s) as Hpin by (rewrite Hs'; unfold release; by repeat case_match).
  split; [done|done| | |].
  - intros k n [m Hheld] Hk'. destruct (decide (k = i)) as [->|]; [simplify_eq; rewrite Hi1; by eexists|].
    destruct (decide (k = j)) as [->|]; [|rewrite Hoth by done; by eexists].
    destruct Hjs as [[_ Hno]|[-> _]]; [destruct Hno; by eexists|by eexists].
  - intros a nm b (p' & ch' & Ha & Hb). right. destruct (decide (a = i)) as [->|Hai].
    + rewrite Hi1 in Ha. simplify_eq. apply lookup_delete_Some in Hb as [_ Hb]. by exists i, nm, p', ch.
    + destruct (decide (a = j)) as [->|]; [|exists a, nm, p', ch'; by rewrite <-Hoth].
      destruct Hjs as [[Hx _]|[Hx _]]; [congruence|]. exists j, nm, p', ch'. by rewrite <-Hx.
  - intros k Hk' Href. destruct (decide (k = j)) as [->|Hkj].
    { left. destruct Hjs as [[Hx _]|[_ [n Hn]]]; [rewrite Hx in Hk'; by destruct Hk'|]. exists n. by rewrite Hpin. }
    assert (is_Some (nodes s !! k)) as Hk0.
    { destruct (decide (k = i)) as [->|]; [by eexists|]. by rewrite <-Hoth. }
    destruct (Href Hk0) as [[n Hn]|(a & nm & p' & ch' & Ha & Hb)]; [left; exists n; by rewrite Hpin|right].
    exists a, nm. destruct (decide (a = i)) as [->|]; simplify_eq.
    + exists p, (delete name ch). split; [done|]. rewrite lookup_delete_ne by congruence. done.
    + destruct (decide (a = j)) as [->|]; [|exists p', ch'; by rewrite Hoth].
      destruct Hk as [[c Hk]|[q Hk]]; simplify_eq.
Qed.

Lemma rename_final_step dst i src s r s' :
  ramfs_wf s → rename_final dst i src s = Ret (r, s') → store_step s s'.
Proof.
  intros Hwf Hm. destruct (nodes s !! i) as [[c|p ch]|] eqn:Hi; unfold rename_final in Hm; rewrite Hi in Hm; try done.
  cbv zeta in Hm. unfold exist in Hm. set (dn := after_last_slash _) in Hm.
  destruct (ch !! src) as [j|] eqn:Hs; [|rewrite bool_decide_false in Hm by (by intros []); simplify_eq/=; by apply store_step_refl].
  rewrite bool_decide_true in Hm by (by eexists). cbn [negb] in Hm.
  case_bool_decide as Hd; [simplify_eq; by apply store_step_refl|]. apply eq_None_not_Some in Hd.
  destruct (rename_final_ok dst i p ch src j s Hwf Hi Hs Hd) as (s1 & _ & Hwf1 & Hs1).
  assert (s' = s1) as -> by (rewrite Hs1; by simplify_eq). rewrite Hs1 in *. fold dn in Hwf1 |- *.
  set (ch' := <[dn := j]> (delete src ch)) in *. split; [done|done| | |].
  - intros k n _ Hk. unfold with_children. cbn. destruct (decide (k = i)) as [->|]; simplify_eq.
    + rewrite lookup_insert_eq. by eexists.
    + rewrite lookup_insert_ne by done. by eexists.
  - intros a name b. rewrite (has_child_with i p ch) by done. intros [[-> Hb]|[_ Hb]]; right; [|by eexists _, _].
    apply lookup_insert_Some in Hb as [[_ <-]|[_ [_ Hb]%lookup_delete_Some]]; [by exists i, src, p, ch|by exists i, name, p, ch].
  - intros k Hk Href. assert (is_Some (nodes s !! k)) as Hk0.
    { unfold with_children in Hk. cbn in Hk. rewrite lookup_insert_is_Some' in Hk. destruct Hk as [->|]; [by eexists|done]. }
    destruct (Href Hk0) as [?|(a & nm & Hc)]; [by left|right].
    destruct (decide (a = i)) as [->|]; [|exists a, nm; rewrite (has_child_with i p ch) by done; by right].
    apply (has_child_dir i p ch) in Hc; [|done]. destruct (decide (nm = src)) as [->|].
    + exists i, dn. rewrite (has_child_with i p ch) by done. left. simplify_eq. split; [done|]. apply lookup_insert_eq.
    + exists i, nm. rewrite (has_child_with i p ch) by done. left. split; [done|]. unfold ch'.
      rewrite lookup_insert_ne by congruence. by rewrite lookup_delete_ne.
Qed.

Section steps.
Context {defaults : VfsDefaults}.

(** The operations on paths return, and keep what they should. *)
Lemma walk_step nd final i path s :
  ramfs_wf s → is_Some (nodes s !! i) →
  (∀ d name, is_dir_node d s → ∃ r s', final d name s = Ret (r, s') ∧ store_step s s') →
  ∃ r s', walk nd final (S (String.length path)) i path s = Ret (r, s') ∧ store_step s s'.
Proof.
  intros Hwf Hi Hf. rewrite walk_resolve by (done || lia). destruct (resolve _ _ _ _) as [d|e] eqn:Hr.
  2: { eexists _, _. split; [done|]. by apply store_step_refl. }
  destruct (resolve_some nd s i (removelast (components path)) d) as [n Hn]; [done..|]. rewrite Hn.
  destruct n as [c|p ch]; [eexists _, _; split; [done|]; by apply store_step_refl|]. apply Hf. by exists p, ch.
Qed.

Lemma create_step i path ty s :
  ramfs_wf s → is_Some (nodes s !! i) → ∃ r s', create i path ty s = Ret (r, s') ∧ store_step s s'.
Proof.
  intros Hwf Hi. apply walk_step; [done..|]. intros d name Hd.
  destruct (is_dot name); [eexists _, _; split; [done|]; by apply store_step_refl|].
  destruct (create_node_total d name ty s Hwf Hd) as (r & s' & Hm & _). exists r, s'. split; [done|]. by eapply create_node_step.
Qed.
Lemma remove_step i path s :
  ramfs_wf s → is_Some (nodes s !! i) → ∃ r s', remove i path s = Ret (r, s') ∧ store_step s s'.
Proof.
  intros Hwf Hi. apply walk_step; [done..|]. intros d name Hd.
  destruct (is_dot name); [eexists _, _; split; [done|]; by apply store_step_refl|].
  destruct (remove_node_total d name s Hwf Hd) as (r & s' & Hm & _). exists r, s'. split; [done|]. by eapply remove_node_step.
Qed.
Lemma rename_step i src dst s :
  ramfs_wf s → is_Some (nodes s !! i) → ∃ r s', rename i src dst s = Ret (r, s') ∧ store_step s s'.
Proof.
  intros Hwf Hi. apply walk_step; [done..|]. intros d name Hd.
  destruct (rename_final_total dst d name s Hwf Hd) as (r & s' & Hm & _). exists r, s'. split; [done|]. by eapply rename_final_step.
Qed.

End steps.

Lemma set_file_step i c c' s :
  ramfs_wf s → nodes s !! i = Some (FileNode c) → store_step s (set_nodes (<[i := FileNode c']> (nodes s)) s).
Proof.
  intros Hwf Hi. assert (∀ a n b, has_child (set_nodes (<[i := FileNode c']> (nodes s)) s) a n b ↔ has_child s a n b) as Hc.
  { intros a n b. unfold has_child. cbn. destruct (decide (a = i)) as [->|]; [rewrite lookup_insert_eq, Hi; naive_solver|].
    by rewrite lookup_insert_ne. }
  split; [by eapply wf_set_file|done| | |].
  - intros j n _ Hj. cbn. destruct (decide (j = i)) as [->|]; simplify_eq.
    + rewrite lookup_insert_eq. by eexists.
    + rewrite lookup_insert_ne by done. by eexists.
  - intros a n b ?%Hc. right. by eexists _, _.
  - intros j Hj Href. cbn in Hj. rewrite lookup_insert_is_Some' in Hj.
    destruct Href as [?|(a & n & Ha)]; [destruct Hj as [->|]; [by eexists|done]|by left|right]. exists a, n. by apply Hc.
Qed.

(** ** References *)

Lemma linked_true j s : linked j s = true ↔ ∃ a name, has_child s a name j.
Proof.
  unfold linked. rewrite existsb_exists. split.
  - intros (n & Hn & Hj). apply list_elem_of_In, list_elem_of_fmap in Hn as ([a n'] & -> & Hn).
    apply elem_of_map_to_list in Hn. apply bool_decide_eq_true in Hj. destruct n' as [c|p ch]; cbn in Hj; [by apply not_elem_of_nil in Hj|].
    apply list_elem_of_fmap in Hj as ([name j'] & -> & Hj). apply elem_of_map_to_list in Hj. by exists a, name, p, ch.
  - intros (a & name & p & ch & Ha & Hj). exists (DirNode p ch). split.
    + apply list_elem_of_In, list_elem_of_fmap. exists (a, DirNode p ch). split; [done|]. by apply elem_of_map_to_list.
    + apply bool_decide_eq_true. cbn. apply list_elem_of_fmap. exists (name, j). split; [done|]. by apply elem_of_map_to_list.
Qed.

Lemma held_pos j s : held j s ↔ (0 < default 0 (pinned s !! j))%nat.
Proof.
  unfold held. destruct (pinned s !! j) as [[|k]|]; cbn; (split; [intros [? ?]; simplify_eq; lia|]); intros ?; try lia.
  by eexists.
Qed.

Lemma total_entries_delete j n s :
  nodes s !! j = Some n →
  total_entries s = (length (entries_of n) + total_entries (set_nodes (delete j (nodes s)) s))%nat.
Proof.
  intros Hj. unfold total_entries. cbn [nodes set_nodes].
  rewrite <-(map_to_list_delete (nodes s) j n Hj). done.
Qed.

(** Nothing changes but that some nodes nobody holds are gone. *)
Record shrinks (s s' : store) : Prop := {
  sh_wf : ramfs_wf s';
  sh_pinned : pinned s' = pinned s;
  sh_next : next s' = next s;
  sh_held j : held j s → nodes s' !! j = nodes s !! j;
  sh_nodes j n : nodes s' !! j = Some n → nodes s !! j = Some n;
}.

Lemma delete_shrinks j s :
  ramfs_wf s → ¬ referenced j s → shrinks s (set_nodes (delete j (nodes s)) s).
Proof.
  intros Hwf Hno. split; [|done|done| |].
  - apply wf_delete_node; [done|]. intros a n Hc. destruct Hno. right. by exists a, n.
  - intros k Hk. cbn. apply lookup_delete_ne. intros ->. destruct Hno. by left.
  - intros k n. cbn. by intros [_ ?]%lookup_delete_Some.
Qed.
Lemma shrinks_trans s1 s2 s3 : shrinks s1 s2 → shrinks s2 s3 → shrinks s1 s3.
Proof.
  intros [W1 P1 N1 H1 S1] [W2 P2 N2 H2 S2]. split; [done|congruence|congruence| |by auto].
  intros j Hj. rewrite H2; [by apply H1|]. unfold held. by rewrite P1.
Qed.

Lemma unreferenced j s : (bool_decide (0 < default 0 (pinned s !! j))%nat || linked j s) = false → ¬ referenced j s.
Proof.
  intros [Hp Hl]%orb_false_iff. apply bool_decide_eq_false in Hp. intros [Hh%held_pos|Hc%linked_true]; [done|congruence].
Qed.

Lemma reap_shrinks fuel js s : ramfs_wf s → shrinks s (reap fuel js s).
Proof.
  revert js s. induction fuel as [|n IH]; intros js s Hwf; [by split|]. destruct js as [|j js]; cbn [reap]; [by split|].
  destruct (nodes s !! j) as [node|] eqn:Hj; [|by apply IH].
  destruct (_ || _) eqn:Hb; [by apply IH|]. apply unreferenced in Hb.
  eapply shrinks_trans; [by apply delete_shrinks|]. by apply IH, delete_shrinks.
Qed.

(** The fuel is enough: every node left has a reference. *)
Lemma reap_complete fuel js s :
  (total_entries s + length js ≤ fuel)%nat →
  (∀ j, is_Some (nodes s !! j) → referenced j s ∨ j ∈ js) →
  ∀ j, is_Some (nodes (reap fuel js s) !! j) → referenced j (reap fuel js s).
Proof.
  revert js s. induction fuel as [|n IH]; intros js s Hf Href.
  { destruct js; [|cbn in Hf; lia]. intros j Hj. destruct (Href j Hj) as [|Hx]; [done|]. by apply not_elem_of_nil in Hx. }
  destruct js as [|j js]; cbn [reap].
  { intros j Hj. destruct (Href j Hj) as [|Hx]; [done|]. by apply not_elem_of_nil in Hx. }
  cbn [length] in Hf. destruct (nodes s !! j) as [node|] eqn:Hj.
  2: { apply IH; [lia|]. intros k Hk. destruct (Href k Hk) as [|[->|]%elem_of_cons]; [by left| |by right].
       rewrite Hj in Hk. by destruct Hk. }
  destruct (_ || _) eqn:Hb.
  { apply IH; [lia|]. intros k Hk. destruct (Href k Hk) as [|[->|]%elem_of_cons]; [by left| |by right]. left.
    apply orb_true_iff in Hb as [Hb|Hb]; [left; apply held_pos; by apply bool_decide_eq_true in Hb|right; by apply linked_true]. }
  apply IH; [rewrite (total_entries_delete j node s Hj) in Hf; rewrite length_app; lia|].
  intros k Hk. cbn in Hk. assert (k ≠ j) as Hkj by (intros ->; rewrite lookup_delete_eq in Hk; by destruct Hk).
  rewrite lookup_delete_ne in Hk by done.
  destruct (Href k Hk) as [[Hh|(a & nm & p & ch & Ha & Hc)]|[->|Hin]%elem_of_cons]; [left; by left| |done|right; set_solver].
  destruct (decide (a = j)) as [->|].
  - right. apply elem_of_app. left. rewrite Hj in Ha. simplify_eq. cbn. apply list_elem_of_fmap. exists (nm, k).
    split; [done|]. by apply elem_of_map_to_list.
  - left. right. exists a, nm, p, ch. cbn. by rewrite lookup_delete_ne.
Qed.
