(* ===== verification/AxfsRamfs.v ===== *)
(** [axfs] over RAM filesystems: the operations on paths of [Root], with the nodes
    of [Ramfs] behind the interface of [Vfs].

    The invariant [axfs_ok] ties the two together: every reference the kernel holds
    (roots of filesystems, mount point parents, the current directory, open files)
    is counted in the store, and the store has exactly the nodes with a reference. *)

From stdpp Require Import prelude gmap strings list.
From Stdlib Require Import ZArith Lia.
From S2P Require Import Prelude Ramfs Vfs Root RootProps RamfsVfs.
Local Open Scope Z_scope.
Local Open Scope kernel_scope.

Abbreviation refs := (List.count_occ Nat.eq_dec).

Lemma refs_pos l j : j ∈ l ↔ (0 < refs l j)%nat.
Proof. rewrite list_elem_of_In. rewrite (List.count_occ_In Nat.eq_dec). lia. Qed.

(** Unfold the updates of the store, but nothing else. *)
Ltac wsimpl := cbn [map_store pin set_pinned set_nodes rw_store rw_fss nodes pinned next].

(** ** The nodes and who holds them *)

Definition holders (fss : list RamFileSystem) (hs : list nat) : list nat :=
  (fs_root <$> fss) ++ omap fs_parent fss ++ hs.

Record world_ok (w : ramfs_world) (hs : list nat) : Prop := {
  wo_wf : ramfs_wf (rw_store w);
  wo_count j : default 0%nat (pinned (rw_store w) !! j) = refs (holders (rw_fss w) hs) j;
  wo_live j : j ∈ holders (rw_fss w) hs → is_Some (nodes (rw_store w) !! j);
  wo_referenced j : is_Some (nodes (rw_store w) !! j) → referenced j (rw_store w);
  wo_root fs : fs ∈ rw_fss w → is_dir_node (fs_root fs) (rw_store w) ∧ ∀ a name, ¬ has_child (rw_store w) a name (fs_root fs);
}.

Lemma wo_held w hs j : world_ok w hs → j ∈ holders (rw_fss w) hs ↔ held j (rw_store w).
Proof. intros Hw. by rewrite held_pos, (wo_count _ _ Hw), refs_pos. Qed.

Lemma root_holder fss hs fs : fs ∈ fss → fs_root fs ∈ holders fss hs.
Proof. intros Hin. apply elem_of_app. left. apply list_elem_of_fmap. by exists fs. Qed.

(** An operation of the filesystem keeps the invariant. *)
Lemma world_step w hs s' :
  world_ok w hs → store_step (rw_store w) s' → world_ok {| rw_store := s'; rw_fss := rw_fss w |} hs.
Proof.
  intros Hw [Hwf Hpin Hheld Hchild Href]. split; wsimpl.
  - done.
  - intros j. rewrite Hpin. by apply (wo_count _ _ Hw).
  - intros j Hj. destruct (wo_live _ _ Hw j Hj) as [n Hn].
    destruct (Hheld j n) as (n' & Hn' & _); [by apply (wo_held _ _ _ Hw)|done|by eexists].
  - intros j Hj. apply Href; [done|]. apply (wo_referenced _ _ Hw).
  - intros fs Hin. destruct (wo_root _ _ Hw fs Hin) as [(p & ch & Hd) Hno]. split.
    + destruct (Hheld _ _ (proj1 (wo_held _ _ _ Hw) (root_holder _ hs _ Hin)) Hd) as ([c|p' ch'] & Hn & Hty); [done|].
      by exists p', ch'.
    + intros a name Hc. apply Hchild in Hc as [Hc|(a' & n' & Hc)]; [congruence|by apply Hno in Hc].
Qed.

(** Taking and giving up a reference. *)
Lemma refs_snoc_perm fss hs j k : refs (holders fss (j :: hs)) k = ((if Nat.eq_dec j k then 1 else 0) + refs (holders fss hs) k)%nat.
Proof. unfold holders. rewrite !List.count_occ_app. cbn [List.count_occ]. destruct (Nat.eq_dec j k); lia. Qed.

Lemma has_child_pinned m s a n b : has_child (set_pinned m s) a n b ↔ has_child s a n b.
Proof. done. Qed.

Lemma pin_ok w hs j : world_ok w hs → is_Some (nodes (rw_store w) !! j) → world_ok (map_store (pin j) w) (j :: hs).
Proof.
  intros Hw Hj. split; wsimpl.
  - destruct (wo_wf _ _ Hw) as [W1 W2 W3 W4]. by split.
  - intros k. rewrite refs_snoc_perm, <-(wo_count _ _ Hw).
    destruct (Nat.eq_dec j k) as [->|]; [by rewrite lookup_insert_eq|by rewrite lookup_insert_ne].
  - intros k Hk. apply refs_pos in Hk.
    rewrite refs_snoc_perm in Hk. destruct (Nat.eq_dec j k) as [->|]; [done|]. apply (wo_live _ _ Hw). by apply refs_pos.
  - intros k Hk. destruct (wo_referenced _ _ Hw k Hk) as [Hh|?]; [left|by right]. apply held_pos. cbn. apply held_pos in Hh.
    destruct (decide (j = k)) as [->|]; [rewrite lookup_insert_eq; cbn; lia|by rewrite lookup_insert_ne].
  - intros fs Hin. by apply (wo_root _ _ Hw).
Qed.

Lemma unpin_ok w hs j : world_ok w (j :: hs) → world_ok (map_store (unpin j) w) hs.
Proof.
  intros Hw. set (s1 := set_pinned (<[j := pred (default 0%nat (pinned (rw_store w) !! j))]> (pinned (rw_store w))) (rw_store w)).
  assert (ramfs_wf s1) as Hwf1 by (destruct (wo_wf _ _ Hw) as [W1 W2 W3 W4]; by split).
  pose proof (reap_shrinks (S (total_entries s1)) [j] s1 Hwf1) as [Hwf Hpin _ Hheld Hsub].
  assert (∀ k, default 0%nat (pinned s1 !! k) = refs (holders (rw_fss w) hs) k) as Hcount.
  { intros k. pose proof (wo_count _ _ Hw k) as Hc. rewrite refs_snoc_perm in Hc. cbn.
    destruct (Nat.eq_dec j k) as [->|]; [rewrite lookup_insert_eq; cbn; lia|rewrite lookup_insert_ne by done; lia]. }
  assert (∀ k, k ∈ holders (rw_fss w) hs ↔ held k s1) as Hh by (intros k; by rewrite held_pos, Hcount, refs_pos).
  assert (∀ k, k ∈ holders (rw_fss w) hs → k ∈ holders (rw_fss w) (j :: hs)) as Hsub'.
  { intros k Hk. apply refs_pos. apply refs_pos in Hk. rewrite refs_snoc_perm. lia. }
  split; wsimpl; change (unpin j (rw_store w)) with (reap (S (total_entries s1)) [j] s1).
  - done.
  - intros k. rewrite Hpin. apply Hcount.
  - intros k Hk. rewrite Hheld by (by apply Hh). by apply (wo_live _ _ Hw), Hsub'.
  - apply reap_complete; [cbn; lia|]. intros k Hk. destruct (decide (k = j)) as [->|]; [right; by left|left].
    destruct (wo_referenced _ _ Hw k Hk) as [Hheld'|?]; [left|by right]. apply held_pos. apply held_pos in Hheld'.
    cbn. by rewrite lookup_insert_ne.
  - intros fs Hin. destruct (wo_root _ _ Hw fs Hin) as [(p & ch & Hd) Hno]. split.
    + exists p, ch. rewrite Hheld; [done|]. by apply Hh, root_holder.
    + intros a n (p' & ch' & Ha & Hb). apply Hsub in Ha. apply (Hno a n). by exists p', ch'.
Qed.

(** Attaching a filesystem: the root gets a parent, which is held from then on. *)
Lemma set_parent_ok w hs f fs parent s' :
  world_ok w hs → rw_fss w !! f = Some fs → set_parent (fs_root fs) parent (rw_store w) = Ret s' →
  world_ok {| rw_store := s'; rw_fss := rw_fss w |} hs.
Proof.
  intros Hw Hf Hs. apply list_elem_of_lookup_2 in Hf. destruct (wo_root _ _ Hw fs Hf) as [(p & ch & Hd) Hno].
  unfold set_parent in Hs. rewrite Hd in Hs. simplify_eq. set (r := fs_root fs) in *.
  assert (∀ a n b, has_child (with_children r parent ch (rw_store w)) a n b ↔ has_child (rw_store w) a n b) as Hc.
  { intros a n b. unfold has_child. cbn. destruct (decide (a = r)) as [->|].
    - rewrite lookup_insert_eq, Hd. naive_solver.
    - by rewrite lookup_insert_ne. }
  assert (∀ k, is_Some (nodes (with_children r parent ch (rw_store w)) !! k) ↔ is_Some (nodes (rw_store w) !! k)) as Hl.
  { intros k. cbn. rewrite lookup_insert_is_Some'. split; [intros [->|]; [by eexists|done]|by right]. }
  destruct (wo_wf _ _ Hw) as [W1 W2 W3 W4].
  split; wsimpl; change (set_nodes (<[r := DirNode parent ch]> (nodes (rw_store w))) (rw_store w)) with (with_children r parent ch (rw_store w)).
  - split.
    + intros a n b Hb%Hc. apply Hl. by eapply W1.
    + intros k Hk%Hl. by apply W2.
    + intros a n a' n' b H1%Hc H2%Hc. by eapply W3.
    + intros a n b q sub Hb%Hc. cbn. intros [[<- _]|[_ Hx]]%lookup_insert_Some; [by apply Hno in Hb|by eapply W4].
  - apply (wo_count _ _ Hw).
  - intros j Hj. apply Hl. by apply (wo_live _ _ Hw).
  - intros j Hj%Hl. destruct (wo_referenced _ _ Hw j Hj) as [?|(a & n & Ha)]; [by left|right]. exists a, n. by apply Hc.
  - intros fs' Hin. destruct (wo_root _ _ Hw fs' Hin) as [(q & ch' & Hd') Hno']. split.
    + unfold is_dir_node. cbn. destruct (decide (fs_root fs' = r)) as [->|].
      * rewrite lookup_insert_eq. by eexists _, _.
      * rewrite lookup_insert_ne by done. by eexists _, _.
    + intros a n Ha%Hc. by apply Hno' in Ha.
Qed.

(** The first parent a filesystem is given is kept, and held. *)
Definition with_parent (p : nat) (fs : RamFileSystem) : RamFileSystem := {| fs_parent := Some p; fs_root := fs_root fs |}.

Lemma refs_with_parent fss hs f fs p j :
  fss !! f = Some fs → fs_parent fs = None →
  refs (holders (<[f := with_parent p fs]> fss) hs) j = refs (holders fss (p :: hs)) j.
Proof.
  intros Hf Hq. rewrite refs_snoc_perm. rewrite <-(take_drop_middle fss f fs Hf) at 2.
  rewrite insert_take_drop by (by eapply lookup_lt_Some). unfold holders.
  rewrite !fmap_app, !omap_app. cbn [fmap list_fmap omap list_omap fs_parent fs_root with_parent]. rewrite Hq.
  repeat first [rewrite List.count_occ_app | progress cbn [List.count_occ app]]. repeat destruct (Nat.eq_dec _ _); lia.
Qed.

Lemma pin_parent_ok w hs f fs p :
  world_ok w hs → rw_fss w !! f = Some fs → fs_parent fs = None → is_Some (nodes (rw_store w) !! p) →
  world_ok {| rw_store := pin p (rw_store w); rw_fss := <[f := with_parent p fs]> (rw_fss w) |} hs.
Proof.
  intros Hw Hf Hq Hp. destruct (pin_ok w hs p Hw Hp) as [K1 K2 K3 K4 K5].
  split; wsimpl; [exact K1| | |exact K4|].
  - intros j. rewrite (refs_with_parent _ _ _ fs) by done. apply K2.
  - intros j Hj. apply K3, refs_pos. rewrite <-(refs_with_parent _ _ f fs) by done. by apply refs_pos.
  - intros fs0 Hin. apply list_elem_of_lookup in Hin as [k Hk]. destruct (decide (k = f)) as [->|Hkf].
    + rewrite list_lookup_insert_eq in Hk by (by eapply lookup_lt_Some). simplify_eq. apply (K5 fs).
      by eapply list_elem_of_lookup_2.
    + rewrite list_lookup_insert_ne in Hk by done. apply K5. by eapply list_elem_of_lookup_2.
Qed.

Lemma set_parent_total w hs f fs parent :
  world_ok w hs → rw_fss w !! f = Some fs →
  ∃ s', set_parent (fs_root fs) parent (rw_store w) = Ret s' ∧ world_ok {| rw_store := s'; rw_fss := rw_fss w |} hs.
Proof.
  intros Hw Hf. pose proof (list_elem_of_lookup_2 _ _ _ Hf) as Hin. destruct (wo_root _ _ Hw fs Hin) as [(p & ch & Hd) _].
  eassert (set_parent (fs_root fs) parent (rw_store w) = Ret _) as Hs by (unfold set_parent; by rewrite Hd).
  eexists. split; [exact Hs|]. by eapply set_parent_ok.
Qed.

Lemma fs_mount_ok w hs f mp :
  world_ok w hs → (f < length (rw_fss w))%nat → is_Some (nodes (rw_store w) !! mp) →
  ∃ w', fs_mount f mp w = Ret (Ok tt, w') ∧ world_ok w' hs ∧ length (rw_fss w') = length (rw_fss w).
Proof.
  intros Hw [fs Hf]%lookup_lt_is_Some Hmp. unfold fs_mount. rewrite Hf.
  assert (<[f := fs]> (rw_fss w) = rw_fss w) as Hsame by by apply list_insert_id.
  destruct (node_parent mp (rw_store w)) as [p|] eqn:Hp; unfold Ramfs.mount.
  2: { destruct (set_parent_total w hs f fs None Hw Hf) as (s' & -> & Hw'). cbn. eexists. split; [done|]. by rewrite Hsame. }
  destruct (fs_parent fs) as [q|] eqn:Hq; cbv zeta; cbn [from_option id].
  { destruct (set_parent_total w hs f fs (Some q) Hw Hf) as (s' & -> & Hw'). cbn. eexists. split; [done|].
    replace {| fs_parent := Some q; fs_root := fs_root fs |} with fs by (destruct fs; cbn in *; congruence).
    by rewrite Hsame. }
  assert (is_Some (nodes (rw_store w) !! p)) as Hlp.
  { unfold node_parent in Hp. destruct (nodes _ !! mp) as [[c|q ch]|]; try done. unfold upgrade in Hp.
    destruct q as [q|]; [|done]. destruct (nodes _ !! q) eqn:Hx; [|done]. simplify_eq. by eexists. }
  pose proof (pin_parent_ok w hs f fs p Hw Hf Hq Hlp) as Hw2.
  edestruct (set_parent_total _ hs f (with_parent p fs) (Some p) Hw2) as (s' & Hs & Hw').
  { apply list_lookup_insert_eq. by eapply lookup_lt_Some. }
  cbn [rw_store fs_root with_parent] in Hs. unfold pin, set_pinned in Hs. rewrite Hs. cbn. eexists. split; [done|]. split; [exact Hw'|]. apply length_insert.
Qed.

(** ** The invariant of [axfs] over RAM filesystems *)

Section axfs_ramfs.
Context {defaults : VfsDefaults} {tdefaults : VfsTraitDefaults} {perms : VfsNodePerm} {pops : PathOps}.
Abbreviation state := (axfs nat nat ramfs_world).
Abbreviation M := (SM state AxError.t).
Implicit Types (s : state).

(** The reference the current directory holds. *)
Definition cwd_refs s : list nat := match CURRENT_DIR s with RootDir => [] | FsNode n => [n] end.
Definition known_fs s (f : nat) : Prop := (f < length (rw_fss (fs_state s)))%nat.
Definition live (n : nat) s : Prop := is_Some (nodes (rw_store (fs_state s)) !! n).

(** [hs] are the nodes open files and directories hold. *)
Record axfs_ok (hs : list nat) s : Prop := {
  ao_root : root_wf s;
  ao_world : world_ok (fs_state s) (cwd_refs s ++ hs);
  ao_main : known_fs s (main_fs (ROOT_DIR s));
  ao_mounts : Forall (λ mp, known_fs s (mp_fs mp)) (mounts (ROOT_DIR s));
}.

Section triples.
Context (hs : list nat).

(** From a state that is in order, [m] returns, and leaves the state in order. *)
Definition triple {A} (P : state → Prop) (m : M A) (Q : A → state → Prop) : Prop := ∀ s, axfs_ok hs s → P s →
  ∃ r s', m s = Ret (r, s') ∧ axfs_ok hs s' ∧ match r with Ok a => Q a s' | Err _ => True end.

Lemma triple_ret {A} (a : A) (Q : A → state → Prop) : triple (Q a) (sm_ret a) Q.
Proof. intros s Hs HP. by exists (Ok a), s. Qed.
Lemma triple_err {A} e P (Q : A → state → Prop) : triple P (sm_err e) Q.
Proof. intros s Hs _. by exists (Err e), s. Qed.
Lemma triple_bind {A B} P (m : M A) (f : A → M B) Q R :
  triple P m Q → (∀ a, triple (Q a) (f a) R) → triple P (sm_bind m f) R.
Proof.
  intros Hm Hf s Hs HP. destruct (Hm s Hs HP) as (r & s1 & H1 & Hs1 & HQ). unfold sm_bind. rewrite H1.
  destruct r as [a|e]; [by apply Hf|by exists (Err e), s1].
Qed.
Lemma triple_get {B} P (f : state → M B) R : (∀ x, triple (λ s, P s ∧ s = x) (f x) R) → triple P (sm_bind sm_get f) R.
Proof. intros Hf s Hs HP. rewrite sm_get_bind. by apply (Hf s). Qed.
Lemma triple_catch {A B} P (m : M A) (f : result A AxError.t → M B) Q R :
  triple P m Q → (∀ r, triple (λ s, match r with Ok a => Q a s | Err _ => True end) (f r) R) → triple P (sm_catch m f) R.
Proof.
  intros Hm Hf s Hs HP. destruct (Hm s Hs HP) as (r & s1 & H1 & Hs1 & HQ). unfold sm_catch. rewrite H1. by apply Hf.
Qed.
Lemma triple_weaken {A} (P P' : state → Prop) (m : M A) (Q Q' : A → state → Prop) :
  triple P m Q → (∀ s, P' s → P s) → (∀ a s, Q a s → Q' a s) → triple P' m Q'.
Proof.
  intros Hm HP HQ s Hs Hs'. destruct (Hm s Hs (HP s Hs')) as (r & s1 & H1 & Hs1 & Hr). exists r, s1.
  split_and!; [done..|]. destruct r; auto.
Qed.

Lemma triple_second {A} (P1 P2 : state → Prop) (m : M A) Q : triple P2 m Q → triple (λ s, P1 s ∧ P2 s) m Q.
Proof. intros Hm. eapply triple_weaken; [exact Hm|by intros s []|done]. Qed.
Lemma triple_first {A} (P1 P2 : state → Prop) (m : M A) Q : triple P1 m Q → triple (λ s, P1 s ∧ P2 s) m Q.
Proof. intros Hm. eapply triple_weaken; [exact Hm|by intros s []|done]. Qed.
Lemma triple_done {A} P (a : A) : triple P (sm_ret a) (λ _ _, True).
Proof. intros s Hs _. by exists (Ok a), s. Qed.
Lemma triple_any {A} P (m : M A) Q : triple P m Q → triple P m (λ _ _, True).
Proof. intros Hm. eapply triple_weaken; [exact Hm|done|done]. Qed.

(** A question to a node that exists. *)
Lemma triple_ask {A} P (f : store → outcome (result A AxError.t)) (Q : A → state → Prop) :
  (∀ s, axfs_ok hs s → P s → ∃ r, f (rw_store (fs_state s)) = Ret r ∧ ∀ a, r = Ok a → Q a s) →
  triple P (on_fs (ask f)) Q.
Proof.
  intros Hf s Hs HP. destruct (Hf s Hs HP) as (r & Hr & HQ). exists r, s. unfold on_fs, ask. rewrite Hr.
  split_and!; [by destruct s|done|]. destruct r; auto.
Qed.

Lemma axfs_ok_step s st' :
  axfs_ok hs s → store_step (rw_store (fs_state s)) st' →
  axfs_ok hs (set_fs_state {| rw_store := st'; rw_fss := rw_fss (fs_state s) |} s).
Proof.
  intros [Hr Hw Hm Hms] Hst. split; [done| |done|done]. apply (world_step _ _ st') in Hw; [|done]. done.
Qed.
(** A change of the store. *)
Lemma triple_on_store {A} P (m : SM store AxError.t A) :
  (∀ s, axfs_ok hs s → P s → ∃ r st', m (rw_store (fs_state s)) = Ret (r, st') ∧ store_step (rw_store (fs_state s)) st') →
  triple P (on_fs (on_store m)) (λ _ _, True).
Proof.
  intros Hf s Hs HP. destruct (Hf s Hs HP) as (r & st' & Hr & Hst). exists r. unfold on_fs, on_store. rewrite Hr.
  eexists. split_and!; [done|by apply axfs_ok_step|by destruct r].
Qed.

Lemma ok_wf s : axfs_ok hs s → ramfs_wf (rw_store (fs_state s)).
Proof. intros Hs. apply (wo_wf _ _ (ao_world _ _ Hs)). Qed.

Lemma triple_lookup n path : triple (live n) (on_fs (vn_lookup n path)) (λ j s, live j s).
Proof.
  apply triple_ask. intros s Hs Hn. pose proof (ok_wf s Hs) as Hwf. unfold Ramfs.lookup.
  rewrite lookup_from_resolve by (done || lia). eexists. split; [done|]. intros j Hj. by eapply resolve_some.
Qed.
Lemma get_attr_total n s : live n s → ∃ a, get_attr n (rw_store (fs_state s)) = Ret a.
Proof. intros [[c|p ch] Hn]; unfold get_attr; rewrite Hn; by eexists. Qed.
Lemma triple_get_attr n : triple (live n) (on_fs (vn_get_attr n)) (λ _ s, live n s).
Proof.
  apply triple_ask. intros s Hs Hn. destruct (get_attr_total n s Hn) as [a ->]. eexists. split; [done|]. done.
Qed.
Lemma triple_create n path ty : triple (live n) (on_fs (vn_create n path ty)) (λ _ _, True).
Proof. apply triple_on_store. intros s Hs Hn. by apply create_step, Hn; apply ok_wf. Qed.
Lemma triple_remove n path : triple (live n) (on_fs (vn_remove n path)) (λ _ _, True).
Proof. apply triple_on_store. intros s Hs Hn. by apply remove_step, Hn; apply ok_wf. Qed.
Lemma triple_rename n src dst : triple (live n) (on_fs (vn_rename n src dst)) (λ _ _, True).
Proof. apply triple_on_store. intros s Hs Hn. by apply rename_step, Hn; apply ok_wf. Qed.
Lemma root_live f s : axfs_ok hs s → known_fs s f → live (vfs_root_dir f (fs_state s)) s.
Proof.
  intros Hs Hf. apply lookup_lt_is_Some in Hf as [fs Hf]. cbn. rewrite Hf. cbn.
  destruct (wo_root _ _ (ao_world _ _ Hs) fs) as [(p & ch & Hd) _]; [by eapply list_elem_of_lookup_2|]. by eexists.
Qed.
Lemma on_store_fss {A} (m : SM store AxError.t A) s r s' :
  on_fs (on_store m) s = Ret (r, s') → rw_fss (fs_state s') = rw_fss (fs_state s).
Proof. unfold on_fs, on_store. destruct (m _) as [[]|]; intros ?; by simplify_eq. Qed.
Lemma triple_root_dir f : triple (λ s, known_fs s f) (fs_root_dir f) (λ n s, live n s).
Proof.
  intros s Hs Hf. eexists _, s. split; [done|]. split; [done|]. by apply root_live.
Qed.

(** A node an operation starts from: the root directory, an open directory, or the
    current directory. *)
Definition ref_ok (r : VfsNodeRef nat) s : Prop := r = RootDir ∨ (∃ n, r = FsNode n ∧ n ∈ hs) ∨ CURRENT_DIR s = r.

Lemma ref_ok_live n s : axfs_ok hs s → ref_ok (FsNode n) s → live n s.
Proof.
  intros Hs Hr. apply (wo_live _ _ (ao_world _ _ Hs)). unfold holders, cwd_refs. rewrite !elem_of_app.
  destruct Hr as [?|[(k & ? & Hk)|Hc]]; simplify_eq; [tauto|]. rewrite Hc. right. right. left. apply list_elem_of_singleton. done.
Qed.
Lemma parent_ref_ok dir path s : (∀ n, dir = Some n → n ∈ hs) → ref_ok (parent_node_of dir path s) s.
Proof.
  intros Hd. unfold parent_node_of. destruct (starts_with _ _); [by left|]. destruct dir as [n|]; [|by right; right].
  right. left. exists n. auto.
Qed.
Lemma triple_frame {A} r P (m : M A) Q :
  framed m → triple P m Q → triple (λ s, P s ∧ ref_ok r s) m (λ a s, Q a s ∧ ref_ok r s).
Proof.
  intros Hf Hm s Hs [HP Hr]. destruct (Hm s Hs HP) as (res & s1 & H1 & Hs1 & HQ). exists res, s1. split_and!; [done..|].
  destruct res; [|done]. split; [done|]. destruct (Hf _ _ _ H1) as (_ & _ & Hc). unfold ref_ok. by rewrite Hc.
Qed.

Lemma triple_mounted {T} path (f : nat → string → M T) P Q :
  (∀ fs rest, triple (λ s, P s ∧ known_fs s fs) (f fs rest) Q) → triple P (lookup_mounted_fs path f) Q.
Proof.
  intros Hf s Hs HP. destruct (ao_root _ _ Hs) as [Hmw _].
  destruct (lookup_mounted_dispatch (S (String.length path)) (ROOT_DIR s) path f Hmw) as (_ & p & _ & _ & _ & _ & _ & Hd); [lia|].
  unfold lookup_mounted_fs. rewrite sm_get_bind. destruct Hd as [(mp & rest & Hin & _ & -> & _)|[_ ->]].
  - apply Hf; [done|]. split; [done|]. pose proof (ao_mounts _ _ Hs) as Hms. rewrite Forall_forall in Hms. by apply Hms.
  - apply Hf; [done|]. split; [done|]. apply (ao_main _ _ Hs).
Qed.

(** The operations of a node, the root directory included. *)
Lemma triple_root_op {A} f (m : nat → M A) Q :
  (∀ n, triple (live n) (m n) Q) → triple (λ s, known_fs s f) (sm_bind (fs_root_dir f) m) Q.
Proof. intros Hm. eapply triple_bind; [apply triple_root_dir|]. done. Qed.
Lemma triple_ref_op {A} n (m : M A) Q : triple (live n) m Q → triple (ref_ok (FsNode n)) m Q.
Proof. intros Hm s Hs Hr. apply Hm; [done|]. by apply ref_ok_live. Qed.

Lemma triple_node_lookup r path : triple (ref_ok r) (node_lookup r path) (λ n s, live n s).
Proof.
  destruct r as [|n]; [|by apply triple_ref_op, triple_lookup]. apply triple_mounted. intros fs rest.
  apply triple_second, triple_root_op. intros n. apply triple_lookup.
Qed.
Lemma triple_node_create r path ty : triple (ref_ok r) (node_create r path ty) (λ _ _, True).
Proof.
  destruct r as [|n]; [|by apply triple_ref_op, triple_create]. apply triple_mounted. intros fs rest.
  case_bool_decide; [apply triple_done|].
  apply triple_second, triple_root_op. intros n. apply triple_create.
Qed.
Lemma triple_node_remove r path : triple (ref_ok r) (node_remove r path) (λ _ _, True).
Proof.
  destruct r as [|n]; [|by apply triple_ref_op, triple_remove]. apply triple_mounted. intros fs rest.
  case_bool_decide; [apply triple_err|].
  apply triple_second, triple_root_op. intros n. apply triple_remove.
Qed.
Lemma triple_node_rename r src dst : triple (ref_ok r) (node_rename r src dst) (λ _ _, True).
Proof.
  destruct r as [|n]; [|by apply triple_ref_op, triple_rename]. apply triple_mounted. intros fs rest.
  case_bool_decide; [apply triple_err|].
  apply triple_second, triple_root_op. intros n. apply triple_rename.
Qed.

(** ** The operations on paths *)

Definition dir_ok (dir : option nat) : Prop := ∀ n, dir = Some n → n ∈ hs.

Lemma triple_parent {A} dir path (m : VfsNodeRef nat → M A) P Q :
  dir_ok dir → (∀ r, triple (ref_ok r) (m r) Q) →
  triple P (let! s := sm_get in m (parent_node_of dir path s)) Q.
Proof.
  intros Hd Hm. apply triple_get. intros x s Hs [_ ->]. apply Hm; [done|]. by apply parent_ref_ok.
Qed.

Lemma triple_api_lookup dir path : dir_ok dir → triple (λ _, True) (lookup dir path) (λ n s, live n s).
Proof.
  intros Hd. unfold lookup. case_bool_decide; [apply triple_err|].
  apply (triple_parent dir path (λ r, let! node := node_lookup r path in
    if ends_with "/" path then
      let! attr := on_fs (vn_get_attr node) in
      if negb (is_dir attr) then sm_err AxError.NotADirectory else sm_ret node
    else sm_ret node)); [done|]. intros r.
  eapply triple_bind; [apply triple_node_lookup|]. intros n. cbn beta. destruct (ends_with _ _); [|apply (triple_ret n (λ n s, live n s))].
  eapply triple_bind; [apply triple_get_attr|]. intros a. cbn beta. destruct (negb _); [apply triple_err|apply (triple_ret n (λ n s, live n s))].
Qed.

Lemma triple_create_file dir path : dir_ok dir → triple (λ _, True) (create_file dir path) (λ n s, live n s).
Proof.
  intros Hd. unfold create_file. case_bool_decide; [apply triple_err|]. destruct (ends_with _ _); [apply triple_err|].
  apply (triple_parent dir path (λ r, do! node_create r path File in node_lookup r path)); [done|]. intros r.
  eapply (triple_bind _ _ _ (λ _ s, ref_ok r s)); [|intros u; apply triple_node_lookup].
  eapply triple_weaken; [apply (triple_frame r (ref_ok r)); [apply framed_node_create|apply triple_node_create]| |].
  - intros s Hr. done.
  - intros ? s [_ Hr]. exact Hr.
Qed.

Lemma triple_create_dir dir path : dir_ok dir → triple (λ _, True) (create_dir dir path) (λ _ _, True).
Proof.
  intros Hd. unfold create_dir. eapply triple_catch; [by apply triple_api_lookup|]. intros [n|[]]; try apply triple_err.
  apply (triple_parent dir path (λ r, node_create r path Dir)); [done|]. intros r. apply triple_node_create.
Qed.

Lemma triple_remove_file dir path : dir_ok dir → triple (λ _, True) (remove_file dir path) (λ _ _, True).
Proof.
  intros Hd. unfold remove_file. eapply triple_bind; [by apply triple_api_lookup|]. intros n. cbn beta.
  eapply triple_bind; [apply triple_get_attr|]. intros a. cbn beta. destruct (is_dir a); [apply triple_err|].
  destruct (negb _); [apply triple_err|].
  apply (triple_parent dir path (λ r, node_remove r path)); [done|]. intros r. apply triple_node_remove.
Qed.

Lemma triple_remove_dir dir path : dir_ok dir → triple (λ _, True) (remove_dir dir path) (λ _ _, True).
Proof.
  intros Hd. unfold remove_dir. case_bool_decide; [apply triple_err|]. case_bool_decide; [apply triple_err|].
  destruct (is_dot_path _); [apply triple_err|]. apply triple_get. intros x.
  destruct (contains _ _); [apply triple_err|]. set (r := parent_node_of dir path x).
  eapply (triple_bind _ _ _ (λ n s, live n s ∧ ref_ok r s)).
  { eapply triple_weaken; [apply (triple_frame r (λ _, True)); [apply framed_lookup|by apply triple_api_lookup]| |done].
    intros s [_ ->]. split; [done|]. by apply parent_ref_ok. }
  intros n. eapply (triple_bind _ _ _ (λ a s, live n s ∧ ref_ok r s)).
  { apply (triple_frame r); [apply framed_on_fs|apply triple_get_attr]. }
  intros a. destruct (negb _); [apply triple_err|]. destruct (negb _); [apply triple_err|].
  apply triple_second, triple_node_remove.
Qed.

Lemma triple_api_rename old new : triple (λ _, True) (rename old new) (λ _ _, True).
Proof.
  unfold rename. apply (triple_parent None new (λ r, sm_catch (node_lookup r new) (λ r,
    do! (if is_ok r then remove_file None new else sm_ret tt) in
    let! s := sm_get in node_rename (parent_node_of None old s) old new))); [done|]. intros r.
  eapply triple_catch; [apply triple_node_lookup|]. intros res. eapply (triple_bind _ _ _ (λ _ _, True)).
  - destruct (is_ok res); [|apply triple_done].
    eapply triple_weaken; [by apply (triple_remove_file None new)|done|]. intros ? ? ?. exact I.
  - intros u. apply (triple_parent None old (λ r, node_rename r old new)); [done|]. intros r'. apply triple_node_rename.
Qed.

Lemma world_ok_perm w l l' : Permutation l l' → world_ok w l → world_ok w l'.
Proof.
  intros Hp [K1 K2 K3 K4 K5]. assert (∀ j, refs (holders (rw_fss w) l') j = refs (holders (rw_fss w) l) j) as Hr.
  { intros j. unfold holders. rewrite !List.count_occ_app. do 2 f_equal.
    symmetry. by apply (proj1 (Permutation_count_occ Nat.eq_dec l l')). }
  split; [done| | |done|done].
  - intros j. by rewrite Hr.
  - intros j Hj. apply K3, refs_pos. rewrite <-Hr. by apply refs_pos.
Qed.

(** The new current directory is taken before the old one is given up. *)
Lemma store_current_dir_world r path s s' :
  axfs_ok hs s → (∀ n, r = FsNode n → live n s) → store_current_dir r path s = Ret (Ok tt, s') →
  world_ok (fs_state s') (cwd_refs s' ++ hs).
Proof.
  intros Hs Hr Hm. unfold store_current_dir, sm_modify in Hm. simplify_eq. cbn [fs_state cwd_refs CURRENT_DIR].
  assert (world_ok (ref_clone r (fs_state s)) ((match r with RootDir => [] | FsNode n => [n] end) ++ cwd_refs s ++ hs)) as H1.
  { destruct r as [|n]; cbn; [apply (ao_world _ _ Hs)|]. apply pin_ok; [apply (ao_world _ _ Hs)|by apply Hr]. }
  unfold cwd_refs in *. cbn [CURRENT_DIR]. destruct (CURRENT_DIR s) as [|m]; cbn [ref_drop]; [exact H1|].
  apply unpin_ok. eapply world_ok_perm; [|exact H1]. destruct r; [done|apply perm_swap].
Qed.

Lemma known_store_current_dir r path s s' f :
  store_current_dir r path s = Ret (Ok tt, s') → known_fs s f → known_fs s' f.
Proof.
  unfold store_current_dir, sm_modify. intros ?; simplify_eq. unfold known_fs. cbn.
  by destruct r, (CURRENT_DIR s).
Qed.

Lemma set_current_dir_ok {plaws : PathLaws} path s :
  axfs_ok hs s → ∃ r s', set_current_dir path s = Ret (r, s') ∧ axfs_ok hs s'.
Proof.
  intros Hs. set (p := dir_path (absolute_path path s)).
  assert (∀ r n1 s1, set_current_dir path s = Ret (r, s1) → store_current_dir n1 p s = Ret (Ok tt, s1) →
            (∀ n, n1 = FsNode n → live n s) → axfs_ok hs s1) as Hdone.
  { intros r n1 s1 Hm Hst Hl. split.
    - eapply set_current_dir_wf; [apply (ao_root _ _ Hs)|done].
    - by eapply store_current_dir_world.
    - replace (ROOT_DIR s1) with (ROOT_DIR s) by (unfold store_current_dir, sm_modify in Hst; by simplify_eq).
      eapply known_store_current_dir; [done|]. apply (ao_main _ _ Hs).
    - replace (ROOT_DIR s1) with (ROOT_DIR s) by (unfold store_current_dir, sm_modify in Hst; by simplify_eq).
      eapply Forall_impl; [apply (ao_mounts _ _ Hs)|]. intros mp. by eapply known_store_current_dir. }
  assert (∃ r s', set_current_dir path s = Ret (r, s') ∧ (s' = s ∨
    ∃ n1, store_current_dir n1 p s = Ret (Ok tt, s') ∧ ∀ n, n1 = FsNode n → live n s)) as (r & s' & Hm & Hor).
  { unfold set_current_dir. rewrite sm_get_bind. cbv zeta. fold (dir_path (absolute_path path s)). fold p.
    case_bool_decide as Hp; [rewrite Hp; eexists _, _; split; [done|]; right; by exists RootDir|].
    destruct (triple_api_lookup None p) with s as (r1 & s1 & Hl & _ & Hlive); [done..|].
    pose proof (quiet_lookup _ _ _ _ _ Hl) as ->. unfold sm_bind at 1. rewrite Hl.
    destruct r1 as [n|e]; [|eexists _, _; by auto]. destruct (triple_get_attr n s) as (r2 & s2 & Ha & _ & _); [done..|].
    pose proof (quiet_get_attr _ _ _ _ Ha) as ->. unfold sm_bind at 1. rewrite Ha.
    destruct r2 as [a|e]; [|eexists _, _; by auto]. destruct (negb _); [eexists _, _; by auto|].
    destruct (negb _); [eexists _, _; by auto|]. eexists _, _. split; [done|]. right. exists (FsNode n). split; [done|].
    intros ? [= <-]. done. }
  exists r, s'. split; [done|]. destruct Hor as [->|(n1 & Hst & Hl)]; [done|by eapply Hdone].
Qed.

Lemma attach_ok path fs s :
  axfs_ok hs s → known_fs s fs → ∃ r s', attach path fs s = Ret (r, s') ∧ axfs_ok hs s' ∧ (∀ f, known_fs s f → known_fs s' f).
Proof.
  intros Hs Hfs. unfold attach. rewrite sm_get_bind. unfold sm_bind at 1, fs_root_dir at 1.
  set (main := main_fs (ROOT_DIR s)). set (root := vfs_root_dir main (fs_state s)).
  destruct (triple_create root path Dir s Hs) as (r1 & s1 & H1 & Hs1 & _); [apply root_live, (ao_main _ _ Hs); done|].
  unfold sm_bind at 1. rewrite H1. pose proof (on_store_fss _ _ _ _ H1) as Hfss.
  assert (∀ f, known_fs s f → known_fs s1 f) as Hk1 by (intros f; unfold known_fs; by rewrite Hfss).
  destruct r1 as [[]|e]; [|by eexists _, _].
  assert (live root s1) as Hl1.
  { replace root with (vfs_root_dir main (fs_state s1)) by (unfold root; cbn; by rewrite Hfss).
    apply root_live; [done|]. apply Hk1, (ao_main _ _ Hs). }
  destruct (triple_lookup root path s1 Hs1 Hl1) as (r2 & s2 & H2 & Hs2 & Hl2). unfold sm_bind. rewrite H2.
  pose proof (quiet_on_fs _ (λ st, vn_lookup_quiet _ _ st) _ _ _ H2) as ->. destruct r2 as [n|e]; [|by eexists _, _].
  destruct (fs_mount_ok (fs_state s1) (cwd_refs s1 ++ hs) fs n) as (w' & Hm & Hw' & Hlen);
    [apply (ao_world _ _ Hs1)|by apply Hk1|done|].
  exists (Ok tt), (set_fs_state w' s1). unfold on_fs. cbn [vfs_mount ramfs_ops]. rewrite Hm. split; [done|].
  assert (∀ f, known_fs s1 f → known_fs (set_fs_state w' s1) f) as Hk2 by (intros f; unfold known_fs; cbn; by rewrite Hlen).
  split; [|by auto]. split; [apply (ao_root _ _ Hs1)|done|apply Hk2, (ao_main _ _ Hs1)|].
  eapply Forall_impl; [apply (ao_mounts _ _ Hs1)|]. cbn. auto.
Qed.

Lemma mount_ok path fs s :
  axfs_ok hs s → known_fs s fs → ∃ r s', mount path fs s = Ret (r, s') ∧ axfs_ok hs s' ∧ (∀ f, known_fs s f → known_fs s' f).
Proof.
  intros Hs Hfs.
  assert (∃ r s', mount path fs s = Ret (r, s') ∧ (s' = s ∨ ∃ r1 s1, attach path fs s = Ret (r1, s1) ∧
    (s' = s1 ∨ s' = set_root {| main_fs := main_fs (ROOT_DIR s1);
                                mounts := mounts (ROOT_DIR s1) ++ [{| mp_path := path; mp_fs := fs |}] |} s1)))
    as (r & s' & Hm & Hor).
  { unfold mount. case_bool_decide; [by eexists _, _; eauto|]. destruct (negb _); [by eexists _, _; eauto|].
    rewrite sm_get_bind. destruct (contains _ _); [by eexists _, _; eauto|].
    destruct (attach_ok path fs s Hs Hfs) as (r1 & s1 & Ha & _). unfold sm_bind. rewrite Ha.
    destruct r1; eexists _, _; (split; [done|]); right; eexists _, s1; (split; [done|]); auto. }
  exists r, s'. split; [done|]. pose proof (mount_wf path fs s r s' (ao_root _ _ Hs) Hm) as Hwf.
  destruct Hor as [->|(r1 & s1 & Ha & Hs')]; [done|].
  destruct (attach_ok path fs s Hs Hfs) as (r2 & s2 & Ha2 & Hs1 & Hk). rewrite Ha in Ha2. simplify_eq.
  destruct Hs' as [->| ->]; [done|]. split; [|by auto]. destruct Hs1 as [_ Hw Hmain Hms]. split; [done..|].
  cbn. apply Forall_app. split; [done|]. apply Forall_singleton. by apply Hk.
Qed.

Lemma umount_ok path s :
  axfs_ok hs s → ∃ r s', umount path s = Ret (r, s') ∧ axfs_ok hs s'.
Proof.
  intros Hs. assert (∀ mps, drop_mounts path mps s = Ret (Ok tt, s)) as Hd.
  { intros mps. induction mps as [|mp mps IH]; [done|]. cbn [drop_mounts]. unfold sm_bind at 1.
    case_bool_decide; [|done]. unfold drop_mount_point, sm_catch, on_fs. cbn. unfold ask. by destruct s. }
  eassert (umount path s = Ret (Ok tt, _)) as Hm.
  { unfold umount. rewrite sm_get_bind. unfold sm_bind. rewrite Hd. unfold sm_modify. done. }
  eexists _, _. split; [exact Hm|]. apply umount_wf in Hm; [|apply (ao_root _ _ Hs)].
  destruct Hs as [_ Hw Hmain Hms]. split; [done..|]. cbn. rewrite Forall_forall in *.
  intros mp [_ Hin]%list_elem_of_filter. by apply Hms.
Qed.

End triples.
(** What a call may be given: filesystems that exist and directories that are open. *)
Definition call_ok (hs : list nat) s (c : axfs_call (N:=nat) (F:=nat)) : Prop :=
  match c with
  | CallMount _ fs => known_fs s fs
  | CallLookup dir _ | CallCreateFile dir _ | CallCreateDir dir _ | CallRemoveFile dir _ | CallRemoveDir dir _ => dir_ok hs dir
  | CallUmount _ | CallSetCurrentDir _ | CallRename _ _ => True
  end.

Lemma discard_ok {A} hs s (m : M A) Q :
  triple hs (λ _, True) m Q → axfs_ok hs s → ∃ r s', discard m s = Ret (r, s') ∧ axfs_ok hs s'.
Proof.
  intros Hm Hs. destruct (Hm s Hs I) as (r & s' & H1 & Hs' & _). exists (Ok tt), s'. unfold discard, sm_catch. by rewrite H1.
Qed.
Lemma triple_ok {A} hs s (m : M A) Q :
  triple hs (λ _, True) m Q → axfs_ok hs s → ∃ r s', m s = Ret (r, s') ∧ axfs_ok hs s'.
Proof. intros Hm Hs. destruct (Hm s Hs I) as (r & s' & H1 & Hs' & _). by exists r, s'. Qed.

Lemma mount_all_ok mps s s' r :
  axfs_ok [] s → Forall (λ mp, known_fs s (mp_fs mp)) mps → mount_all mps s = Ret (r, s') → axfs_ok [] s'.
Proof.
  revert s. induction mps as [|mp mps IH]; intros s Hs Hmps Hm; cbn [mount_all] in Hm; [unfold sm_ret in Hm; by simplify_eq|].
  apply Forall_cons in Hmps as [Hmp Hmps]. destruct (mount_ok [] (mp_path mp) (mp_fs mp) s Hs Hmp) as (r1 & s1 & H1 & Hs1 & Hk).
  unfold sm_bind, expect in Hm. rewrite H1 in Hm. destruct r1 as [[]|]; [|done]. apply (IH s1 Hs1); [|done].
  eapply Forall_impl; [exact Hmps|]. cbn. auto.
Qed.

Lemma init_rootfs_ok w main devfs ramfs procfs sysfs s :
  world_ok w [] → Forall (λ f, f < length (rw_fss w))%nat (main :: omap id [devfs; ramfs; procfs; sysfs]) →
  init_rootfs main devfs ramfs procfs sysfs w = Ret s → axfs_ok [] s.
Proof.
  intros Hw [Hmain Hfs]%Forall_cons Hi. unfold init_rootfs in Hi. set (s0 := {| ROOT_DIR := _ |}) in Hi.
  destruct (mount_all _ s0) as [[r s1]|] eqn:Hm; [|done]. simplify_eq. eapply mount_all_ok; [| |exact Hm].
  - split; [split; [split; constructor|by split_and!]|exact Hw|exact Hmain|constructor].
  - clear Hm. assert (∀ f, f ∈ omap id [devfs; ramfs; procfs; sysfs] → known_fs s0 f) as Hk by by apply Forall_forall.
    rewrite !Forall_app. split_and!; unfold feature_mount; case_match; constructor; try constructor;
      apply Hk, list_elem_of_omap; eexists; (split; [|by subst]); set_solver.
Qed.

(** C19: Over RAM filesystems the operations on paths never panic, and the reference
    counts stay exact: starting from [init_rootfs], every call (mounting, looking
    up, creating, removing, renaming, changing the directory), with any path and any
    open directory, returns and keeps the invariant that the store holds exactly the
    nodes somebody has a reference to, that every node the kernel holds (open files,
    the current directory, the roots and mount point parents) is among them, that
    its count is the number of its holders, and that the mount table and the current
    directory are well-formed. *)
Theorem axfs_ramfs_safe {plaws : PathLaws} :
  (∀ w main devfs ramfs procfs sysfs s,
     world_ok w [] → Forall (λ f, f < length (rw_fss w))%nat (main :: omap id [devfs; ramfs; procfs; sysfs]) →
     init_rootfs main devfs ramfs procfs sysfs w = Ret s → axfs_ok [] s) ∧
  (∀ hs s c, axfs_ok hs s → call_ok hs s c → ∃ r s', run_call c s = Ret (r, s') ∧ axfs_ok hs s').
Proof.
  split; [intros w main devfs ramfs procfs sysfs s; apply init_rootfs_ok|].
  intros hs s c Hs Hc. destruct c; cbn [run_call call_ok] in *.
  - destruct (mount_ok hs path fs s Hs Hc) as (r & s' & H & Hs' & _). by exists r, s'.
  - by apply umount_ok.
  - eapply discard_ok; [by apply triple_api_lookup|done].
  - eapply discard_ok; [by apply triple_create_file|done].
  - eapply triple_ok; [by apply triple_create_dir|done].
  - eapply triple_ok; [by apply triple_remove_file|done].
  - eapply triple_ok; [by apply triple_remove_dir|done].
  - by apply set_current_dir_ok.
  - eapply triple_ok; [by apply triple_api_rename|done].
Qed.

End axfs_ramfs.

(** ** New filesystems *)

(** No filesystem and no node. *)
Definition empty_world : ramfs_world := {| rw_store := {| nodes := ∅; next := 0; pinned := ∅ |}; rw_fss := [] |}.
Lemma empty_world_ok : world_ok empty_world [].
Proof.
  assert (∀ a n b, ¬ has_child (rw_store empty_world) a n b) as Hno by (intros a n b (p & ch & Ha & _); done).
  split; cbn.
  - split; cbn; [intros a n b []%Hno|intros i [? ?]; done|intros a n a' n' b []%Hno|intros a n b p sub []%Hno].
  - done.
  - intros j Hj. by apply not_elem_of_nil in Hj.
  - intros j [? ?]. done.
  - intros fs Hin. by apply not_elem_of_nil in Hin.
Qed.

(** [RamFileSystem::new] adds a filesystem with an empty root. *)
Lemma ramfs_ok w hs :
  world_ok w hs → ∃ w', ramfs w = Ret (Ok (length (rw_fss w)), w') ∧ world_ok w' hs ∧ length (rw_fss w') = S (length (rw_fss w)).
Proof.
  intros Hw. pose proof (wo_wf _ _ Hw) as Hwf. pose proof (fresh_none _ Hwf) as Hfresh. set (j := next (rw_store w)) in *.
  unfold ramfs, fs_new. fold j. eexists. split; [done|]. split; [|cbn [rw_fss]; rewrite length_app; cbn; lia].
  set (s1 := {| nodes := <[j := dir_new None]> (nodes (rw_store w)); next := S j; pinned := pinned (rw_store w) |}).
  assert (ramfs_wf s1) as Hwf1 by (apply wf_fresh_node; [done|right; by eexists]).
  assert (∀ a n b, has_child s1 a n b ↔ has_child (rw_store w) a n b) as Hc.
  { intros a n b. unfold has_child. cbn. destruct (decide (a = j)) as [->|]; [|by rewrite lookup_insert_ne].
    rewrite lookup_insert_eq, Hfresh. split; [|naive_solver]. intros (p & ch & [= <- <-] & Hx). done. }
  assert (j ∉ holders (rw_fss w) hs) as Hnj.
  { intros Hin%(wo_live _ _ Hw). rewrite Hfresh in Hin. by destruct Hin. }
  assert (∀ k, refs (holders (rw_fss w ++ [{| fs_parent := None; fs_root := j |}]) hs) k =
               ((if Nat.eq_dec j k then 1 else 0) + refs (holders (rw_fss w) hs) k)%nat) as Hr.
  { intros k. unfold holders. rewrite fmap_app, omap_app. repeat first [rewrite List.count_occ_app | progress cbn [List.count_occ app fmap list_fmap omap list_omap fs_root fs_parent]].
    destruct (Nat.eq_dec j k); lia. }
  assert (∀ k, refs (holders (rw_fss w) hs) k = 0%nat ∨ k ≠ j) as Hz.
  { intros k. destruct (decide (k = j)) as [->|]; [left|by right]. rewrite refs_pos in Hnj. lia. }
  split; cbn [rw_store rw_fss nodes pinned next].
  - destruct Hwf1 as [W1 W2 W3 W4]. by split.
  - intros k. rewrite Hr. destruct (Nat.eq_dec j k) as [<-|]; [rewrite lookup_insert_eq; cbn; destruct (Hz j); lia|].
    rewrite lookup_insert_ne by done. apply (wo_count _ _ Hw).
  - intros k Hk. rewrite lookup_insert_is_Some'. apply refs_pos in Hk. rewrite Hr in Hk.
    destruct (Nat.eq_dec j k) as [<-|]; [by left|right]. apply (wo_live _ _ Hw), refs_pos. lia.
  - intros k Hk. rewrite lookup_insert_is_Some' in Hk. destruct (decide (j = k)) as [<-|Hne].
    + left. exists 0%nat. apply lookup_insert_eq.
    + destruct Hk as [?|Hk]; [done|]. destruct (wo_referenced _ _ Hw k Hk) as [[m Hm]|(a & n & Ha)].
      * left. exists m. cbn. by rewrite lookup_insert_ne.
      * right. exists a, n. by apply Hc.
  - intros fs. rewrite elem_of_app, list_elem_of_singleton. intros [Hin| ->]; cbn.
    + destruct (wo_root _ _ Hw fs Hin) as [(p & ch & Hd) Hno]. split; [|intros a n Ha; by apply Hc, Hno in Ha].
      exists p, ch. cbn. rewrite lookup_insert_ne; [done|]. intros Hx. rewrite <-Hx in Hd. congruence.
    + split; [exists None, ∅; cbn; apply lookup_insert_eq|]. intros a n Ha. apply (Hc a n j) in Ha.
      apply (wf_child _ Hwf) in Ha. rewrite Hfresh in Ha. by destruct Ha.
Qed.
