(* ===== verification/Fops.v ===== *)
(** Open files and directories ([axfs/src/fops.rs]) and the iterator over a
    directory ([axfs/src/api/dir.rs]).

    A [File] is a node with the capabilities it was opened with, the append flag and
    a cursor; [&mut self] methods return the new object beside their result. *)

From stdpp Require Import prelude strings list.
From Stdlib Require Import ZArith Lia.
From S2P Require Import Prelude Ramfs Vfs Root.
Local Open Scope Z_scope.
Local Open Scope kernel_scope.

(** ** [OpenOptions] *)

Record OpenOptions : Type := {
  oo_read : bool;
  oo_write : bool;
  oo_append : bool;
  oo_truncate : bool;
  oo_create : bool;
  oo_create_new : bool;
  oo_custom_flags : Z;
  oo_mode : Z;
}.
Definition OpenOptions_new : OpenOptions :=
  {| oo_read := false; oo_write := false; oo_append := false; oo_truncate := false; oo_create := false;
     oo_create_new := false; oo_custom_flags := 0; oo_mode := 438 |}.

Definition set_read (b : bool) (o : OpenOptions) : OpenOptions :=
  {| oo_read := b; oo_write := oo_write o; oo_append := oo_append o; oo_truncate := oo_truncate o; oo_create := oo_create o;
     oo_create_new := oo_create_new o; oo_custom_flags := oo_custom_flags o; oo_mode := oo_mode o |}.
Definition set_write (b : bool) (o : OpenOptions) : OpenOptions :=
  {| oo_read := oo_read o; oo_write := b; oo_append := oo_append o; oo_truncate := oo_truncate o; oo_create := oo_create o;
     oo_create_new := oo_create_new o; oo_custom_flags := oo_custom_flags o; oo_mode := oo_mode o |}.
Definition set_append (b : bool) (o : OpenOptions) : OpenOptions :=
  {| oo_read := oo_read o; oo_write := oo_write o; oo_append := b; oo_truncate := oo_truncate o; oo_create := oo_create o;
     oo_create_new := oo_create_new o; oo_custom_flags := oo_custom_flags o; oo_mode := oo_mode o |}.
Definition set_truncate (b : bool) (o : OpenOptions) : OpenOptions :=
  {| oo_read := oo_read o; oo_write := oo_write o; oo_append := oo_append o; oo_truncate := b; oo_create := oo_create o;
     oo_create_new := oo_create_new o; oo_custom_flags := oo_custom_flags o; oo_mode := oo_mode o |}.
Definition set_create (b : bool) (o : OpenOptions) : OpenOptions :=
  {| oo_read := oo_read o; oo_write := oo_write o; oo_append := oo_append o; oo_truncate := oo_truncate o; oo_create := b;
     oo_create_new := oo_create_new o; oo_custom_flags := oo_custom_flags o; oo_mode := oo_mode o |}.
Definition set_create_new (b : bool) (o : OpenOptions) : OpenOptions :=
  {| oo_read := oo_read o; oo_write := oo_write o; oo_append := oo_append o; oo_truncate := oo_truncate o; oo_create := oo_create o;
     oo_create_new := b; oo_custom_flags := oo_custom_flags o; oo_mode := oo_mode o |}.

Definition is_valid (o : OpenOptions) : bool :=
  if negb (oo_read o) && negb (oo_write o) && negb (oo_append o) then false
  else
    match oo_write o, oo_append o with
    | true, false => true
    | false, false => negb (oo_truncate o || oo_create o || oo_create_new o)
    | _, true => negb (oo_truncate o && negb (oo_create_new o))
    end.

Section fops.
Context {N F St : Type} {perms : VfsNodePerm} {nops : VfsNodeOps N St} {vops : VfsOps F N St} {pops : PathOps}
  {caps : CapAccess}.
Abbreviation M := (SM (axfs N F St) AxError.t).

(** [From<&OpenOptions> for Cap]. *)
Definition opts_cap (o : OpenOptions) : Cap :=
  let cap := cap_empty in
  let cap := if oo_read o then cap_union cap cap_READ else cap in
  if oo_write o || oo_append o then cap_union cap cap_WRITE else cap.

Definition perm_to_cap (p : perm) : Cap :=
  let cap := cap_empty in
  let cap := if owner_readable p then cap_union cap cap_READ else cap in
  let cap := if owner_writable p then cap_union cap cap_WRITE else cap in
  if owner_executable p then cap_union cap cap_EXECUTE else cap.

(** ** [File] *)

Record File : Type := { f_node : WithCap N; f_is_append : bool; f_offset : Z }.
Definition set_offset (offset : Z) (f : File) : File :=
  {| f_node := f_node f; f_is_append := f_is_append f; f_offset := offset |}.

Definition access_node (w : WithCap N) (cap : Cap) : M N := sm_lift (access_or_err w cap AxError.PermissionDenied).

(** The node a file is opened on: found, or created. *)
Definition open_node (dir : option N) (path : string) (opts : OpenOptions) : M N :=
  if oo_create opts || oo_create_new opts then
    sm_catch (lookup dir path) (λ r,
      match r with
      | Ok node => if oo_create_new opts then sm_err AxError.AlreadyExists else sm_ret node
      | Err AxError.NotFound => create_file dir path
      | Err e => sm_err e
      end)
  else lookup dir path.

Definition open_at (dir : option N) (path : string) (opts : OpenOptions) : M File :=
  if negb (is_valid opts) then sm_err AxError.InvalidInput
  else
    let! node := open_node dir path opts in
    let! attr := on_fs (vn_get_attr node) in
    if is_dir attr && (oo_create opts || oo_create_new opts || oo_write opts || oo_append opts || oo_truncate opts)
    then sm_err AxError.IsADirectory
    else
      let access_cap := opts_cap opts in
      if negb (cap_contains (perm_to_cap (fa_perm attr)) access_cap) then sm_err AxError.PermissionDenied
      else
        do! on_fs (vn_open node) in
        do! (if oo_truncate opts then on_fs (vn_truncate node 0) else sm_ret tt) in
        do! sm_modify (λ s, set_fs_state (vn_clone node (fs_state s)) s) in
        sm_ret {| f_node := {| wc_inner := node; wc_cap := access_cap |}; f_is_append := oo_append opts; f_offset := 0 |}.

Definition open (path : string) (opts : OpenOptions) : M File := open_at None path opts.

(** [File::drop]; the result of [release] is ignored, and the node is given up. *)
Definition drop_node (w : WithCap N) (s : axfs N F St) : axfs N F St :=
  set_fs_state (vn_drop (wc_inner w) (vn_release (wc_inner w) (fs_state s))) s.
Definition drop_file (f : File) : axfs N F St → axfs N F St := drop_node (f_node f).

Definition file_truncate (f : File) (size : Z) : M unit :=
  let! node := access_node (f_node f) cap_WRITE in on_fs (vn_truncate node size).

Definition file_get_attr (f : File) : M FileAttr :=
  let! node := access_node (f_node f) cap_empty in on_fs (vn_get_attr node).

(** [read] and [write] return the file with the cursor moved. *)
Definition file_read (f : File) (buf_len : Z) : M (list Z * File) :=
  let! node := access_node (f_node f) cap_READ in
  let! data := on_fs (vn_read_at node (f_offset f) buf_len) in
  sm_ret (data, set_offset (uadd (f_offset f) (Z.of_nat (length data))) f).

Definition file_read_at (f : File) (offset buf_len : Z) : M (list Z) :=
  let! node := access_node (f_node f) cap_READ in on_fs (vn_read_at node offset buf_len).

Definition file_write (f : File) (buf : list Z) : M (Z * File) :=
  let! offset := (if f_is_append f then let! attr := file_get_attr f in sm_ret (fa_size attr) else sm_ret (f_offset f)) in
  let! node := access_node (f_node f) cap_WRITE in
  let! write_len := on_fs (vn_write_at node offset buf) in
  sm_ret (write_len, set_offset (uadd offset write_len) f).

Definition file_write_at (f : File) (offset : Z) (buf : list Z) : M Z :=
  let! node := access_node (f_node f) cap_WRITE in on_fs (vn_write_at node offset buf).

Definition file_flush (f : File) : M unit :=
  let! node := access_node (f_node f) cap_WRITE in on_fs (vn_fsync node).

(** [axio::SeekFrom]. *)
Inductive SeekFrom : Type :=
| SeekStart (pos : Z)
| SeekEnd (off : Z)
| SeekCurrent (off : Z).

Definition file_seek (f : File) (pos : SeekFrom) : M (Z * File) :=
  let! attr := file_get_attr f in
  let size := fa_size attr in
  let! new_offset := sm_lift (ok_or
    match pos with
    | SeekStart pos => Some pos
    | SeekCurrent off => checked_add_signed (f_offset f) off
    | SeekEnd off => checked_add_signed size off
    end AxError.InvalidInput) in
  sm_ret (new_offset, set_offset new_offset f).

(** ** [Directory] *)

Record Directory : Type := { d_node : WithCap N; d_entry_idx : Z }.

Definition open_dir_at_opt (dir : option N) (path : string) (opts : OpenOptions) : M Directory :=
  if negb (oo_read opts) then sm_err AxError.InvalidInput
  else if oo_create opts || oo_create_new opts || oo_write opts || oo_append opts || oo_truncate opts
  then sm_err AxError.InvalidInput
  else
    let! node := lookup dir path in
    let! attr := on_fs (vn_get_attr node) in
    if negb (is_dir attr) then sm_err AxError.NotADirectory
    else
      let access_cap := opts_cap opts in
      if negb (cap_contains (perm_to_cap (fa_perm attr)) access_cap) then sm_err AxError.PermissionDenied
      else
        do! on_fs (vn_open node) in
        do! sm_modify (λ s, set_fs_state (vn_clone node (fs_state s)) s) in
        sm_ret {| d_node := {| wc_inner := node; wc_cap := access_cap |}; d_entry_idx := 0 |}.

Definition drop_dir (d : Directory) : axfs N F St → axfs N F St := drop_node (d_node d).

Definition access_at (d : Directory) (path : string) : M (option N) :=
  if starts_with "/" path then sm_ret None
  else let! node := access_node (d_node d) cap_EXECUTE in sm_ret (Some node).

Definition open_dir (path : string) (opts : OpenOptions) : M Directory := open_dir_at_opt None path opts.
Definition open_dir_at (d : Directory) (path : string) (opts : OpenOptions) : M Directory :=
  let! dir := access_at d path in open_dir_at_opt dir path opts.
Definition open_file_at (d : Directory) (path : string) (opts : OpenOptions) : M File :=
  let! dir := access_at d path in open_at dir path opts.
Definition dir_create_file (d : Directory) (path : string) : M N :=
  let! dir := access_at d path in create_file dir path.
Definition dir_create_dir (d : Directory) (path : string) : M unit :=
  let! dir := access_at d path in create_dir dir path.
Definition dir_remove_file (d : Directory) (path : string) : M unit :=
  let! dir := access_at d path in remove_file dir path.
Definition dir_remove_dir (d : Directory) (path : string) : M unit :=
  let! dir := access_at d path in remove_dir dir path.

Definition dir_read_dir (d : Directory) (dirents_len : nat) : M (list (string * VfsNodeType) * Directory) :=
  let! node := access_node (d_node d) cap_READ in
  let! entries := on_fs (vn_read_dir node (d_entry_idx d) dirents_len) in
  sm_ret (entries, {| d_node := d_node d; d_entry_idx := uadd (d_entry_idx d) (Z.of_nat (length entries)) |}).

Definition dir_rename (d : Directory) (old new : string) : M unit := rename old new.

(** ** [api::ReadDir] *)

Record DirEntry : Type := { dir_path_ : string; entry_name : string; entry_type : VfsNodeType }.

(** The entries of the buffer from [buf_pos] to [buf_end]. *)
Record ReadDir : Type := {
  rd_path : string;
  rd_inner : Directory;
  rd_buf : list (string * VfsNodeType);
  rd_end_of_stream : bool;
}.

Definition ReadDir_new (path : string) : M ReadDir :=
  let! inner := open_dir path (set_read true OpenOptions_new) in
  sm_ret {| rd_path := path; rd_inner := inner; rd_buf := []; rd_end_of_stream := false |}.

(** The loop of [next]: [None] at the end of the stream.  Every turn takes an entry
    from the buffer, or fills it. *)
Fixpoint read_dir_next (fuel : nat) (rd : ReadDir) : M (option (result DirEntry AxError.t) * ReadDir) :=
  match fuel with
  | O => sm_panic
  | S n =>
      match rd_buf rd with
      | [] =>
          sm_catch (dir_read_dir (rd_inner rd) 31) (λ r,
            match r with
            | Ok ([], inner) =>
                sm_ret (None, {| rd_path := rd_path rd; rd_inner := inner; rd_buf := []; rd_end_of_stream := true |})
            | Ok (entries, inner) =>
                read_dir_next n {| rd_path := rd_path rd; rd_inner := inner; rd_buf := entries; rd_end_of_stream := false |}
            | Err e =>
                sm_ret (Some (Err e), {| rd_path := rd_path rd; rd_inner := rd_inner rd; rd_buf := []; rd_end_of_stream := true |})
            end)
      | (name, ty) :: buf =>
          let rd := {| rd_path := rd_path rd; rd_inner := rd_inner rd; rd_buf := buf; rd_end_of_stream := false |} in
          if bool_decide (name = "." ∨ name = "..")%string then read_dir_next n rd
          else sm_ret (Some (Ok {| dir_path_ := rd_path rd; entry_name := name; entry_type := ty |}), rd)
      end
  end.
Definition ReadDir_next (fuel : nat) (rd : ReadDir) : M (option (result DirEntry AxError.t) * ReadDir) :=
  if rd_end_of_stream rd then sm_ret (None, rd) else read_dir_next fuel rd.

Definition DirEntry_path (e : DirEntry) : string := trim_end (dir_path_ e) +:+ "/" +:+ entry_name e.

(** [DirBuilder::create]; recursive creation is not supported. *)
Definition DirBuilder_create (recursive : bool) (path : string) : M unit :=
  if recursive then sm_err AxError.Unsupported else create_dir None path.

End fops.
