(* ===== verification/FopsProps.v ===== *)
(** What open files guarantee: capabilities are enforced, opening is checked, seeking
    stays in range; and, over RAM filesystems, what is written is read back, appending
    only extends, and iterating over a directory lists every entry once. *)

From stdpp Require Import prelude gmap strings list sorting.
From Stdlib Require Import ZArith Lia.
From S2P Require Import Prelude Ramfs RamfsProps Vfs Root RootProps RamfsVfs AxfsRamfs Fops.
Local Open Scope Z_scope.
Local Open Scope kernel_scope.

Section generic.
Context {N F St : Type} {perms : VfsNodePerm} {nops : VfsNodeOps N St} {vops : VfsOps F N St} {pops : PathOps}
  {caps : CapAccess} {ro : VfsReadOnly (N:=N) (St:=St)}.
Abbreviation M := (SM (axfs N F St) AxError.t).
Implicit Types (s : axfs N F St) (f : File (N:=N)).

(** ** Capabilities *)

(** The operations of an open file. *)
Inductive file_op : Type :=
| OpTruncate (size : Z)
| OpRead (buf_len : Z)
| OpReadAt (offset buf_len : Z)
| OpWrite (buf : list Z)
| OpWriteAt (offset : Z) (buf : list Z)
| OpFlush
| OpSeek (pos : SeekFrom)
| OpGetAttr.

(** The error of an operation, if any, and the file after it. *)
Definition keep_file {A} f (m : M A) : M (result unit AxError.t * File (N:=N)) :=
  sm_catch m (λ r, sm_ret (match r with Ok _ => Ok tt | Err e => Err e end, f)).
Definition move_file {A} f (m : M (A * File (N:=N))) : M (result unit AxError.t * File (N:=N)) :=
  sm_catch m (λ r, sm_ret match r with Ok (_, f') => (Ok tt, f') | Err e => (Err e, f) end).
Definition run_file_op f (op : file_op) : M (result unit AxError.t * File (N:=N)) :=
  match op with
  | OpTruncate size => keep_file f (file_truncate f size)
  | OpRead buf_len => move_file f (file_read f buf_len)
  | OpReadAt offset buf_len => keep_file f (file_read_at f offset buf_len)
  | OpWrite buf => move_file f (file_write f buf)
  | OpWriteAt offset buf => keep_file f (file_write_at f offset buf)
  | OpFlush => keep_file f (file_flush f)
  | OpSeek pos => move_file f (file_seek f pos)
  | OpGetAttr => keep_file f (file_get_attr f)
  end.
Fixpoint run_file_ops f (ops : list file_op) : M (list (result unit AxError.t) * File (N:=N)) :=
  match ops with
  | [] => sm_ret ([], f)
  | op :: ops =>
      let! r := run_file_op f op in
      let! rs := run_file_ops r.2 ops in
      sm_ret (r.1 :: rs.1, rs.2)
  end.

Definition writes (op : file_op) : bool :=
  match op with OpTruncate _ | OpWrite _ | OpWriteAt _ _ | OpFlush => true | _ => false end.
Definition reads (op : file_op) : bool :=
  match op with OpRead _ | OpReadAt _ _ => true | _ => false end.

Lemma access_node_denied (w : WithCap N) cap s :
  cap_contains (wc_cap w) cap = false → access_node (F:=F) w cap s = Ret (Err AxError.PermissionDenied, s).
Proof. intros Hc. unfold access_node, sm_lift, access_or_err. by rewrite Hc. Qed.
Lemma access_node_granted (w : WithCap N) cap s :
  cap_contains (wc_cap w) cap = true → access_node (F:=F) w cap s = Ret (Ok (wc_inner w), s).
Proof. intros Hc. unfold access_node, sm_lift, access_or_err. by rewrite Hc. Qed.

Lemma denied_bind {A} (w : WithCap N) cap (k : N → M A) s :
  cap_contains (wc_cap w) cap = false →
  (let! node := access_node w cap in k node) s = Ret (Err AxError.PermissionDenied, s).
Proof. intros Hc. unfold sm_bind. by rewrite access_node_denied. Qed.

Lemma quiet_access (w : WithCap N) cap : quiet (F:=F) (St:=St) (access_node w cap).
Proof. intros s r s' Hm. unfold access_node, sm_lift in Hm. by simplify_eq. Qed.
Lemma quiet_lift {A} (r : result A AxError.t) : quiet (N:=N) (F:=F) (St:=St) (sm_lift r).
Proof. intros s r' s' Hm. unfold sm_lift in Hm. by simplify_eq. Qed.
Lemma quiet_file_get_attr f : quiet (F:=F) (file_get_attr f).
Proof. unfold file_get_attr. apply quiet_bind; [apply quiet_access|]. intros n. apply quiet_get_attr. Qed.

Lemma quiet_catch_ret {A B} (m : M A) (g : result A AxError.t → B) : quiet m → quiet (sm_catch m (λ r, sm_ret (g r))).
Proof.
  intros Hm s r s' H. apply sm_catch_inv in H as (a & s1 & H1 & H2). apply Hm in H1 as ->. unfold sm_ret in H2. by simplify_eq.
Qed.

Lemma quiet_denied {A} (w : WithCap N) cap (k : N → M A) :
  cap_contains (wc_cap w) cap = false → quiet (let! node := access_node w cap in k node).
Proof. intros Hc s r s' Hm. rewrite denied_bind in Hm by done. by simplify_eq. Qed.

Lemma quiet_read_at n offset len : quiet (N:=N) (F:=F) (on_fs (vn_read_at n offset len)).
Proof. apply quiet_on_fs. intros st r st'. apply vn_read_at_quiet. Qed.

Lemma quiet_write_offset f : quiet (F:=F)
  (if f_is_append f then let! attr := file_get_attr f in sm_ret (fa_size attr) else sm_ret (f_offset f)).
Proof.
  destruct (f_is_append f); [|apply quiet_ret]. apply quiet_bind; [apply quiet_file_get_attr|]. intros a. apply quiet_ret.
Qed.

(** A file without the capability to write changes nothing. *)
Lemma readonly_quiet f op : cap_contains (wc_cap (f_node f)) cap_WRITE = false → quiet (run_file_op f op).
Proof.
  intros Hc. destruct op; apply quiet_catch_ret; try by apply quiet_denied.
  - apply quiet_bind; [apply quiet_access|]. intros n. apply quiet_bind; [apply quiet_read_at|]. intros d. apply quiet_ret.
  - apply quiet_bind; [apply quiet_access|]. intros n. apply quiet_read_at.
  - apply quiet_bind; [apply quiet_write_offset|]. intros off. by apply quiet_denied.
  - apply quiet_bind; [apply quiet_file_get_attr|]. intros a. cbv zeta. apply quiet_bind; [apply quiet_lift|]. intros o. apply quiet_ret.
  - apply quiet_file_get_attr.
Qed.

(** An operation without its capability fails. *)
Lemma op_denied f op s r f' s' :
  run_file_op f op s = Ret (Ok (r, f'), s') →
  writes op = true ∧ cap_contains (wc_cap (f_node f)) cap_WRITE = false ∨
  reads op = true ∧ cap_contains (wc_cap (f_node f)) cap_READ = false → is_ok r = false.
Proof.
  intros Hm Hno. destruct op; cbn [run_file_op] in Hm; destruct Hno as [[? Hc]|[? Hc]]; try done;
    apply sm_catch_inv in Hm as (o & s1 & Ho & Hm); unfold sm_ret in Hm; simplify_eq.
  4: { unfold file_write in Ho. apply sm_bind_inv in Ho as [(off & s2 & _ & Hk)|(e & _ & ->)]; [|by simplify_eq].
       cbv beta in Hk. rewrite denied_bind in Hk by done. by simplify_eq. }
  all: unfold file_truncate, file_read, file_read_at, file_write_at, file_flush in Ho; rewrite denied_bind in Ho by done; by simplify_eq.
Qed.

Lemma op_keeps_node f op s r f' s' : run_file_op f op s = Ret (Ok (r, f'), s') → f_node f' = f_node f ∧ f_is_append f' = f_is_append f.
Proof.
  destruct op; cbn [run_file_op]; intros (o & s1 & Ho & Hm)%sm_catch_inv; unfold sm_ret in Hm; simplify_eq; try done;
    destruct o as [[x f1]|e]; simplify_eq; try done.
  - unfold file_read in Ho. apply sm_bind_inv in Ho as [(n & s2 & _ & Ho)|(e & _ & ?)]; [|done].
    apply sm_bind_inv in Ho as [(d & s3 & _ & Ho)|(e & _ & ?)]; [|done]. unfold sm_ret in Ho. by simplify_eq.
  - unfold file_write in Ho. apply sm_bind_inv in Ho as [(off & s2 & _ & Ho)|(e & _ & ?)]; [|done].
    apply sm_bind_inv in Ho as [(n & s3 & _ & Ho)|(e & _ & ?)]; [|done].
    apply sm_bind_inv in Ho as [(d & s4 & _ & Ho)|(e & _ & ?)]; [|done]. unfold sm_ret in Ho. by simplify_eq.
  - unfold file_seek in Ho. apply sm_bind_inv in Ho as [(a & s2 & _ & Ho)|(e & _ & ?)]; [|done].
    apply sm_bind_inv in Ho as [(o & s3 & _ & Ho)|(e & _ & ?)]; [|done]. unfold sm_ret in Ho. by simplify_eq.
Qed.

Context {claws : CapLaws}.

Lemma opts_cap_flags o :
  cap_contains (opts_cap o) cap_READ = oo_read o ∧ cap_contains (opts_cap o) cap_WRITE = oo_write o || oo_append o ∧
  cap_contains (opts_cap o) cap_EXECUTE = false.
Proof.
  pose proof cap_flags_distinct as (?&?&?&?&?&?). unfold opts_cap.
  assert (∀ g, g ∈ [cap_READ; cap_WRITE; cap_EXECUTE] → cap_contains g g = true) as Hf by apply cap_contains_flag.
  destruct (oo_read o), (oo_write o || oo_append o); rewrite ?cap_union_contains, ?cap_empty_contains by set_solver;
    rewrite ?Hf by set_solver; repeat match goal with H : cap_contains _ _ = false |- _ => rewrite H; clear H end; done.
Qed.
Lemma perm_to_cap_flags p :
  cap_contains (perm_to_cap p) cap_READ = owner_readable p ∧ cap_contains (perm_to_cap p) cap_WRITE = owner_writable p ∧
  cap_contains (perm_to_cap p) cap_EXECUTE = owner_executable p.
Proof.
  pose proof cap_flags_distinct as (?&?&?&?&?&?). unfold perm_to_cap.
  assert (∀ g, g ∈ [cap_READ; cap_WRITE; cap_EXECUTE] → cap_contains g g = true) as Hf by apply cap_contains_flag.
  destruct (owner_readable p), (owner_writable p), (owner_executable p);
    rewrite ?cap_union_contains, ?cap_empty_contains by set_solver;
    rewrite ?Hf by set_solver; repeat match goal with H : cap_contains _ _ = false |- _ => rewrite H; clear H end; done.
Qed.

(** ** Opening *)

Lemma open_at_inv (dir : option N) path opts s f s' :
  open_at dir path opts s = Ret (Ok f, s') →
  is_valid opts = true ∧ f_offset f = 0 ∧ f_is_append f = oo_append opts ∧ wc_cap (f_node f) = opts_cap opts ∧
  ∃ s1 attr, open_node dir path opts s = Ret (Ok (wc_inner (f_node f)), s1) ∧
    on_fs (vn_get_attr (wc_inner (f_node f))) s1 = Ret (Ok attr, s1) ∧
    is_dir attr && (oo_create opts || oo_create_new opts || oo_write opts || oo_append opts || oo_truncate opts) = false ∧
    cap_contains (perm_to_cap (fa_perm attr)) (opts_cap opts) = true.
Proof.
  unfold open_at. destruct (is_valid opts); cbn [negb]; [|intros Hm; by inv_sm].
  intros [(n & s1 & Hn & Hm)|(e & _ & ?)]%sm_bind_inv; [|done].
  apply sm_bind_inv in Hm as [(a & s2 & Ha & Hm)|(e & _ & ?)]; [|done]. pose proof (quiet_get_attr _ _ _ _ Ha) as ->.
  destruct (is_dir a && _) eqn:Hd; [unfold sm_err in Hm; by simplify_eq|]. cbv zeta in Hm.
  destruct (cap_contains _ _) eqn:Hc; cbn [negb] in Hm; [|unfold sm_err in Hm; by simplify_eq].
  apply sm_bind_inv in Hm as [(u & s3 & _ & Hm)|(e & _ & ?)]; [|done].
  apply sm_bind_inv in Hm as [(u' & s4 & _ & Hm)|(e & _ & ?)]; [|done].
  apply sm_bind_inv in Hm as [(u2 & s5 & _ & Hm)|(e & _ & ?)]; [|done].
  unfold sm_ret in Hm. simplify_eq. cbn. split_and!; [done..|]. by exists s1, a.
Qed.

Lemma create_new_fresh (dir : option N) path opts s n s1 :
  open_node dir path opts s = Ret (Ok n, s1) → oo_create_new opts = true →
  lookup dir path s = Ret (Err AxError.NotFound, s) ∧ create_file dir path s = Ret (Ok n, s1).
Proof.
  intros Hn Hcn. unfold open_node in Hn. rewrite Hcn, orb_true_r in Hn. apply sm_catch_inv in Hn as (r & s2 & Hl & Hn).
  pose proof (quiet_lookup _ _ _ _ _ Hl) as ->. destruct r as [x|e]; [unfold sm_err in Hn; by simplify_eq|].
  destruct e; unfold sm_err in Hn; by simplify_eq.
Qed.
Lemma open_existing (dir : option N) path opts s n s1 :
  open_node dir path opts s = Ret (Ok n, s1) → oo_create opts || oo_create_new opts = false →
  s1 = s ∧ lookup dir path s = Ret (Ok n, s).
Proof.
  intros Hn Hc. unfold open_node in Hn. rewrite Hc in Hn. pose proof (quiet_lookup _ _ _ _ _ Hn) as ->. done.
Qed.

(** Opening a file is checked.  When it succeeds, the options are consistent, the
    handle has exactly the capabilities they ask for and starts at offset 0, the
    owner of the node has the permissions for them, a directory is only opened for
    reading, [create_new] means that the path did not exist and names a file just
    created, and without [create] and [create_new] the node is the one the path
    leads to. *)
Theorem open_checked (dir : option N) path opts s f s' :
  open_at dir path opts s = Ret (Ok f, s') →
  is_valid opts = true ∧ f_offset f = 0 ∧ f_is_append f = oo_append opts ∧
  cap_contains (wc_cap (f_node f)) cap_READ = oo_read opts ∧
  cap_contains (wc_cap (f_node f)) cap_WRITE = oo_write opts || oo_append opts ∧
  ∃ s1 attr, open_node dir path opts s = Ret (Ok (wc_inner (f_node f)), s1) ∧
    on_fs (vn_get_attr (wc_inner (f_node f))) s1 = Ret (Ok attr, s1) ∧
    (oo_read opts = true → owner_readable (fa_perm attr) = true) ∧
    (oo_write opts || oo_append opts = true → owner_writable (fa_perm attr) = true ∧ is_dir attr = false) ∧
    (oo_create_new opts = true →
       lookup dir path s = Ret (Err AxError.NotFound, s) ∧ create_file dir path s = Ret (Ok (wc_inner (f_node f)), s1)) ∧
    (oo_create opts || oo_create_new opts = false → s1 = s ∧ lookup dir path s = Ret (Ok (wc_inner (f_node f)), s)).
Proof.
  intros (Hv & Ho & Ha & Hcap & s1 & attr & Hn & Hattr & Hd & Hc)%open_at_inv.
  destruct (opts_cap_flags opts) as (HR & HW & _). destruct (perm_to_cap_flags (fa_perm attr)) as (PR & PW & _).
  split_and!; [done|done|done|by rewrite Hcap|by rewrite Hcap|]. exists s1, attr. split_and!; [done|done| | | |].
  - intros Hr. rewrite <-PR. eapply cap_contains_trans; [exact Hc|]. by rewrite HR.
  - intros Hw. split; [rewrite <-PW; eapply cap_contains_trans; [exact Hc|]; by rewrite HW|].
    destruct (is_dir attr); [|done]. destruct (oo_write opts), (oo_append opts), (oo_create opts), (oo_create_new opts); done.
  - by eapply create_new_fresh.
  - by eapply open_existing.
Qed.

Lemma run_file_ops_readonly f ops s rs f' s' :
  cap_contains (wc_cap (f_node f)) cap_WRITE = false → run_file_ops f ops s = Ret (Ok (rs, f'), s') → s' = s.
Proof.
  revert f s rs. induction ops as [|op ops IH]; intros f s rs Hc Hm; cbn [run_file_ops] in Hm; [unfold sm_ret in Hm; by simplify_eq|].
  apply sm_bind_inv in Hm as [([r f1] & s1 & H1 & Hm)|(e & _ & ?)]; [|done].
  apply sm_bind_inv in Hm as [([rs1 f2] & s2 & H2 & Hm)|(e & _ & ?)]; [|done]. unfold sm_ret in Hm. simplify_eq/=.
  pose proof (readonly_quiet _ _ Hc _ _ _ H1) as ->. destruct (op_keeps_node _ _ _ _ _ _ H1) as [Hn _].
  eapply IH; [|exact H2]. by rewrite Hn.
Qed.
Lemma run_file_ops_denied f ops s rs f' s' i op :
  run_file_ops f ops s = Ret (Ok (rs, f'), s') → ops !! i = Some op →
  writes op = true ∧ cap_contains (wc_cap (f_node f)) cap_WRITE = false ∨
  reads op = true ∧ cap_contains (wc_cap (f_node f)) cap_READ = false → is_ok <$> rs !! i = Some false.
Proof.
  revert f s rs i. induction ops as [|op' ops IH]; intros f s rs i Hm Hi Hno; cbn [run_file_ops] in Hm; [done|].
  apply sm_bind_inv in Hm as [([r f1] & s1 & H1 & Hm)|(e & _ & ?)]; [|done].
  apply sm_bind_inv in Hm as [([rs1 f2] & s2 & H2 & Hm)|(e & _ & ?)]; [|done]. unfold sm_ret in Hm. simplify_eq/=.
  destruct i as [|i]; cbn in *; simplify_eq.
  - f_equal. by eapply op_denied.
  - destruct (op_keeps_node _ _ _ _ _ _ H1) as [Hn _]. eapply IH; [exact H2|done|by rewrite Hn].
Qed.

(** C13: A handle cannot do more than it was opened for, whatever is done with it.  On a
    file opened without writing and appending, no sequence of operations changes
    anything, and each truncation, write and flush fails; on one opened without
    reading, each read fails. *)
Theorem handle_respects_mode (dir : option N) path opts s f s1 ops rs f' s2 :
  open_at dir path opts s = Ret (Ok f, s1) → run_file_ops f ops s1 = Ret (Ok (rs, f'), s2) →
  (oo_write opts || oo_append opts = false →
     s2 = s1 ∧ ∀ i op, ops !! i = Some op → writes op = true → is_ok <$> rs !! i = Some false) ∧
  (oo_read opts = false → ∀ i op, ops !! i = Some op → reads op = true → is_ok <$> rs !! i = Some false).
Proof.
  intros (_ & _ & _ & Hcap & _)%open_at_inv Hm. destruct (opts_cap_flags opts) as (HR & HW & _). rewrite <-Hcap in HR, HW.
  split.
  - intros Hw. rewrite Hw in HW. split; [by eapply run_file_ops_readonly|].
    intros i op Hi Hop. eapply run_file_ops_denied; [done..|]. by left.
  - intros Hr i op Hi Hop. rewrite Hr in HR. eapply run_file_ops_denied; [done..|]. by right.
Qed.

(** ** Seeking *)

(** Seeking moves the cursor to exactly the requested position, or fails with
    [InvalidInput] and moves nothing when that is below zero or above [u64::MAX];
    the new position is always a [u64]. *)
Theorem seek_in_range f pos s r s' :
  file_seek f pos s = Ret (r, s') → in_usize (f_offset f) →
  match pos with SeekStart p => in_usize p | SeekCurrent _ | SeekEnd _ => True end →
  s' = s ∧
  (∀ attr, file_get_attr f s = Ret (Ok attr, s) → in_usize (fa_size attr) →
   let target := match pos with
                 | SeekStart p => p
                 | SeekCurrent off => f_offset f + off
                 | SeekEnd off => fa_size attr + off
                 end in
   if bool_decide (in_usize target) then r = Ok (target, set_offset target f) else r = Err AxError.InvalidInput).
Proof.
  intros Hm Hf Hpos. unfold file_seek in Hm. apply sm_bind_inv in Hm as [(a & s1 & Ha & Hm)|(e & Ha & ->)];
    pose proof (quiet_file_get_attr _ _ _ _ Ha) as ->.
  2: { split; [done|]. intros a' Ha'. rewrite Ha in Ha'. done. }
  cbv zeta in Hm. unfold sm_bind, sm_lift in Hm. split.
  { destruct (ok_or _ _); unfold sm_ret in Hm; by simplify_eq. }
  intros a' Ha' Hsize. rewrite Ha in Ha'. simplify_eq. cbv zeta.
  assert (∀ x y, in_usize x → checked_add_signed x y = if bool_decide (in_usize (x + y)) then Some (x + y) else None) as Hadd.
  { intros x y Hx. unfold checked_add_signed, in_usize in *. case_bool_decide; repeat case_Z1; cbn; try done; lia. }
  destruct pos as [p|off|off]; [rewrite bool_decide_true by done|rewrite Hadd in Hm by done|rewrite Hadd in Hm by done];
    try case_bool_decide; cbn in Hm; unfold sm_ret in Hm; by simplify_eq.
Qed.
End generic.

(** ** Files and directories of a RAM filesystem *)

Section ramfs_files.
Context {defaults : VfsDefaults} {tdefaults : VfsTraitDefaults} {perms : VfsNodePerm} {pops : PathOps}
  {caps : CapAccess} {claws : CapLaws}.
Abbreviation state := (axfs nat nat ramfs_world).
Implicit Types (s : state) (f : File (N:=nat)).

Definition st_nodes s : gmap nat Node := nodes (rw_store (fs_state s)).
Definition set_content (n : nat) (c : list Z) s : state :=
  set_fs_state {| rw_store := set_nodes (<[n := FileNode c]> (st_nodes s)) (rw_store (fs_state s));
                  rw_fss := rw_fss (fs_state s) |} s.

Lemma on_fs_ask {A} (g : store → outcome (result A AxError.t)) s r :
  g (rw_store (fs_state s)) = Ret r → on_fs (F:=nat) (N:=nat) (ask g) s = Ret (r, s).
Proof. intros Hg. unfold on_fs, ask. rewrite Hg. by destruct s. Qed.

Lemma file_attr_eq f s c :
  st_nodes s !! wc_inner (f_node f) = Some (FileNode c) →
  file_get_attr (F:=nat) f s = Ret (Ok (attr_of {| attr_type := Ramfs.File; attr_size := Z.of_nat (length c); attr_blocks := 0 |}), s).
Proof.
  intros Hc. unfold file_get_attr, sm_bind. rewrite access_node_granted by apply cap_contains_empty.
  apply on_fs_ask. unfold get_attr. unfold st_nodes in Hc. by rewrite Hc.
Qed.

Lemma file_write_eq f buf s c :
  st_nodes s !! wc_inner (f_node f) = Some (FileNode c) → cap_contains (wc_cap (f_node f)) cap_WRITE = true →
  let off := if f_is_append f then Z.of_nat (length c) else f_offset f in
  0 ≤ off → off + Z.of_nat (length buf) < 2 ^ 64 →
  ∃ c', Ramfs.file_write_at off buf c = Ret (Z.of_nat (length buf), c') ∧
    file_write (F:=nat) f buf s =
      Ret (Ok (Z.of_nat (length buf), set_offset (off + Z.of_nat (length buf)) f), set_content (wc_inner (f_node f)) c' s).
Proof.
  intros Hc Hw off H0 Hlt. destruct (file_write_then_read off buf c H0 Hlt) as (c' & Hwr & _). exists c'. split; [done|].
  assert ((if f_is_append f then let! attr := file_get_attr f in sm_ret (fa_size attr) else sm_ret (f_offset f)) s =
          Ret (Ok off, s)) as Hoff.
  { unfold off. destruct (f_is_append f); [|done]. unfold sm_bind. by rewrite (file_attr_eq f s c). }
  unfold file_write. unfold sm_bind at 1. rewrite Hoff. unfold sm_bind at 1. rewrite access_node_granted by done.
  unfold sm_bind, on_fs. cbn [vn_write_at ramfs_node_ops]. unfold on_store, write_at. unfold st_nodes in Hc. rewrite Hc, Hwr.
  cbn. unfold sm_ret. by rewrite uadd_small by lia.
Qed.

(** What is written to an open file is read back.  Writing a buffer through a
    handle on a file of a RAM filesystem stores all of it, at the cursor, or behind
    the end of the file in append mode, and moves the cursor behind it; seeking back
    and reading gives the same bytes and leaves the cursor where writing did.  The
    other bytes of the file and all other nodes are as before; in append mode the
    new content is the old one followed by the buffer. *)
Theorem write_seek_read f buf s c :
  st_nodes s !! wc_inner (f_node f) = Some (FileNode c) →
  cap_contains (wc_cap (f_node f)) cap_READ = true → cap_contains (wc_cap (f_node f)) cap_WRITE = true →
  let off := if f_is_append f then Z.of_nat (length c) else f_offset f in
  0 ≤ off → off + Z.of_nat (length buf) < 2 ^ 64 →
  ∃ c' f1 f2, let s1 := set_content (wc_inner (f_node f)) c' s in
    file_write (F:=nat) f buf s = Ret (Ok (Z.of_nat (length buf), f1), s1) ∧
    file_seek (F:=nat) f1 (SeekStart off) s1 = Ret (Ok (off, f2), s1) ∧
    file_read (F:=nat) f2 (Z.of_nat (length buf)) s1 = Ret (Ok (buf, f1), s1) ∧
    f_offset f1 = off + Z.of_nat (length buf) ∧
    (f_is_append f = true → c' = c ++ buf) ∧
    (∀ k x, c !! k = Some x → (k < Z.to_nat off ∨ Z.to_nat off + length buf ≤ k)%nat → c' !! k = Some x) ∧
    (∀ j, j ≠ wc_inner (f_node f) → st_nodes s1 !! j = st_nodes s !! j).
Proof.
  intros Hc Hr Hw off H0 Hlt. destruct (file_write_eq f buf s c Hc Hw H0 Hlt) as (c' & Hc' & Hwr). fold off in Hwr, Hc'.
  destruct (file_write_then_read off buf c H0 Hlt) as (c2 & Hc2 & Hread & Hlen & Hoth). rewrite Hc' in Hc2. simplify_eq.
  set (n := wc_inner (f_node f)) in *. set (s1 := set_content n c2 s) in *.
  assert (st_nodes s1 !! n = Some (FileNode c2)) as Hn1 by (unfold s1, set_content, st_nodes; cbn; apply lookup_insert_eq).
  set (f1 := set_offset (off + Z.of_nat (length buf)) f) in *. set (f2 := set_offset off f). exists c2, f1, f2. cbv zeta. fold s1.
  split_and!.
  - done.
  - unfold file_seek, sm_bind at 1. by rewrite (file_attr_eq f1 s1 c2).
  - unfold file_read, sm_bind. rewrite access_node_granted by done.
    change (wc_inner (f_node f2)) with n. cbn [vn_read_at ramfs_node_ops].
    assert (read_at n (f_offset f2) (Z.of_nat (length buf)) (rw_store (fs_state s1)) = Ret (Ok buf)) as Hrd.
    { unfold read_at. unfold st_nodes in Hn1. rewrite Hn1. change (f_offset f2) with off. by rewrite Hread. }
    rewrite (on_fs_ask _ _ _ Hrd). unfold sm_ret. do 3 f_equal. unfold f1, f2, set_offset. cbn. f_equal.
    rewrite uadd_small by lia. done.
  - done.
  - intros Happ. unfold off in *. rewrite Happ in *. assert (length c2 = length c + length buf)%nat as Hl by lia.
    rewrite (file_write_at_eq _ _ _ H0 Hlt) in Hc'. simplify_eq. rewrite Nat2Z.id.
    rewrite take_app_length, drop_ge, app_nil_r; [done|]. rewrite length_app, length_replicate. lia.
  - intros k x Hk Hout. rewrite Hoth by done. rewrite decide_True; [done|]. by eapply lookup_lt_Some.
  - intros j Hj. unfold s1, set_content, st_nodes. cbn. by rewrite lookup_insert_ne.
Qed.

(** *** Iterating over a directory *)

(** [for entry in dir]: [n] bounds the entries, [fuel] the turns of one [next]. *)
Fixpoint collect (n fuel : nat) (rd : ReadDir (N:=nat)) : SM state AxError.t (list DirEntry) :=
  match n with
  | O => sm_panic
  | S n =>
      let! r := ReadDir_next fuel rd in
      match r with
      | (None, _) => sm_ret []
      | (Some (Err e), _) => sm_err e
      | (Some (Ok e), rd) => let! es := collect n fuel rd in sm_ret (e :: es)
      end
  end.

Definition not_dot (e : string * VfsNodeType) : bool := negb (bool_decide (e.1 = "." ∨ e.1 = "..")%string).
Definition to_entry (path : string) (e : string * VfsNodeType) : DirEntry :=
  {| dir_path_ := path; entry_name := e.1; entry_type := e.2 |}.

(** The entries that are still to come. *)
Definition remaining (listing : list (string * VfsNodeType)) (rd : ReadDir (N:=nat)) : list (string * VfsNodeType) :=
  rd_buf rd ++ drop (Z.to_nat (d_entry_idx (rd_inner rd))) listing.

Section iterate.
Context (s : state) (i : nat) (p : option nat) (ch : gmap string nat).
Context (Hwf : ramfs_wf (rw_store (fs_state s))) (Hi : st_nodes s !! i = Some (DirNode p ch)).
Let listing := dir_listing ch (rw_store (fs_state s)).
Context (Hsmall : Z.of_nat (length listing) < 2 ^ 63).

(** The iterator is on the directory, within its entries. *)
Definition iterating (rd : ReadDir (N:=nat)) : Prop :=
  wc_inner (d_node (rd_inner rd)) = i ∧ cap_contains (wc_cap (d_node (rd_inner rd))) cap_READ = true ∧
  0 ≤ d_entry_idx (rd_inner rd) ≤ Z.of_nat (length listing) ∧ rd_end_of_stream rd = false.

Lemma dir_read_dir_eq rd :
  iterating rd →
  let es := take 31 (drop (Z.to_nat (d_entry_idx (rd_inner rd))) listing) in
  dir_read_dir (F:=nat) (rd_inner rd) 31 s =
    Ret (Ok (es, {| d_node := d_node (rd_inner rd); d_entry_idx := d_entry_idx (rd_inner rd) + Z.of_nat (length es) |}), s).
Proof.
  intros (Hn & Hc & Hidx & _) es. unfold dir_read_dir, sm_bind. rewrite access_node_granted by done. rewrite Hn.
  destruct (read_dir_lists i p ch (rw_store (fs_state s)) (d_entry_idx (rd_inner rd)) 31 Hwf Hi) as (Hrd & _); [lia..|].
  cbn [vn_read_dir ramfs_node_ops]. rewrite (on_fs_ask _ _ _ Hrd). fold listing. fold es. unfold sm_ret.
  rewrite uadd_small; [done|lia..|]. unfold es. rewrite length_take, length_drop. lia.
Qed.

(** Filling the buffer. *)
Lemma refill rd e es :
  iterating rd → rd_buf rd = [] → take 31 (remaining listing rd) = e :: es →
  let rd1 := {| rd_path := rd_path rd;
                rd_inner := {| d_node := d_node (rd_inner rd); d_entry_idx := d_entry_idx (rd_inner rd) + Z.of_nat (length (e :: es)) |};
                rd_buf := e :: es; rd_end_of_stream := false |} in
  iterating rd1 ∧ remaining listing rd1 = remaining listing rd.
Proof.
  intros (Hn & Hc & Hidx & Hend) Hbuf Ht rd1.
  assert (remaining listing rd = drop (Z.to_nat (d_entry_idx (rd_inner rd))) listing) as Hrem by (unfold remaining; by rewrite Hbuf).
  rewrite Hrem in *. set (rest := drop _ listing) in *.
  assert (length (e :: es) ≤ length rest)%nat as Hle by (rewrite <-Ht, length_take; lia).
  assert (length rest = length listing - Z.to_nat (d_entry_idx (rd_inner rd)))%nat as Hlr by apply length_drop.
  split; [unfold rd1; split_and!; cbn -[length]; [done|done|lia|lia|done]|].
  unfold remaining, rd1. cbn [rd_buf rd_inner d_entry_idx]. rewrite <-Ht at 1. rewrite <-(take_drop 31 rest) at 2. f_equal.
  rewrite Z2Nat.inj_add, Nat2Z.id, <-drop_drop by lia. fold rest. rewrite <-Ht, length_take.
  destruct (decide (31 ≤ length rest)%nat); [by rewrite Nat.min_l|]. rewrite Nat.min_r, !drop_ge by lia. done.
Qed.

(** Turns of the loop until an entry is found: two per entry, and one to fill an
    empty buffer. *)
Definition turns (rd : ReadDir (N:=nat)) : nat :=
  (2 * length (remaining listing rd) + match rd_buf rd with [] => 1 | _ => 0 end)%nat.

Lemma read_dir_next_eq fuel rd :
  iterating rd → (turns rd < fuel)%nat →
  match List.filter not_dot (remaining listing rd) with
  | [] => ∃ rd', read_dir_next (F:=nat) fuel rd s = Ret (Ok (None, rd'), s)
  | e :: es => ∃ rd', read_dir_next (F:=nat) fuel rd s = Ret (Ok (Some (Ok (to_entry (rd_path rd) e)), rd'), s) ∧
      iterating rd' ∧ rd_path rd' = rd_path rd ∧ List.filter not_dot (remaining listing rd') = es ∧
      (length (remaining listing rd') ≤ length (remaining listing rd))%nat
  end.
Proof.
  revert rd. induction fuel as [|n IH]; intros rd Hit Hf; [lia|]. cbn [read_dir_next].
  destruct (rd_buf rd) as [|[name ty] buf] eqn:Hbuf.
  - unfold sm_catch. rewrite (dir_read_dir_eq rd Hit).
    assert (remaining listing rd = drop (Z.to_nat (d_entry_idx (rd_inner rd))) listing) as Hrem by (unfold remaining; by rewrite Hbuf).
    rewrite <-Hrem. destruct (take 31 (remaining listing rd)) as [|e es] eqn:Ht.
    { destruct (remaining listing rd); [by eexists|discriminate Ht]. }
    destruct (refill rd e es Hit Hbuf Ht) as [Hit1 Hrem1]. set (rd1 := {| rd_buf := e :: es |}) in *.
    specialize (IH rd1 Hit1). rewrite Hrem1 in IH. apply IH. unfold turns in *. rewrite Hrem1, Hbuf in *. cbn [rd_buf rd1]. lia.
  - set (rd1 := {| rd_path := rd_path rd; rd_inner := rd_inner rd; rd_buf := buf; rd_end_of_stream := false |}).
    assert (remaining listing rd = (name, ty) :: remaining listing rd1) as Hrem by (unfold remaining; by rewrite Hbuf).
    assert (iterating rd1) as Hit1 by (destruct Hit as (?&?&[??]&?); by split_and!).
    rewrite Hrem. cbn [List.filter]. unfold not_dot at 1. cbn [fst]. case_bool_decide as Hdot; cbn [negb].
    + assert (turns rd1 < n)%nat as Ht.
      { unfold turns in *. rewrite Hrem, Hbuf in Hf. cbn [length] in Hf. cbn [rd_buf rd1]. destruct buf; lia. }
      specialize (IH rd1 Hit1 Ht).
      destruct (List.filter not_dot (remaining listing rd1)) as [|e es]; [done|].
      destruct IH as (rd' & ? & Hit' & ? & ? & ?). exists rd'. split; [done|]. split; [exact Hit'|]. split_and!; [done..|]. cbn [length]. lia.
    + exists rd1. split; [done|]. split; [exact Hit1|]. split_and!; [done|done|]. cbn [length]. lia.
Qed.

Lemma collect_eq n fuel rd :
  iterating rd → (2 * length (remaining listing rd) + 1 < fuel)%nat →
  (length (List.filter not_dot (remaining listing rd)) < n)%nat →
  collect n fuel rd s = Ret (Ok (to_entry (rd_path rd) <$> List.filter not_dot (remaining listing rd)), s).
Proof.
  revert rd. induction n as [|n IH]; intros rd Hit Hf Hn; [lia|]. cbn [collect]. unfold sm_bind at 1, ReadDir_next.
  destruct Hit as (H1 & H2 & [H3 H4] & Hend). rewrite Hend.
  assert (turns rd < fuel)%nat as Ht by (unfold turns; destruct (rd_buf rd); lia).
  assert (iterating rd) as Hit by by split_and!. pose proof (read_dir_next_eq fuel rd Hit Ht) as Hnext.
  destruct (List.filter not_dot (remaining listing rd)) as [|e es] eqn:Hfl.
  - destruct Hnext as [rd' ->]. done.
  - destruct Hnext as (rd' & -> & Hit' & Hpath & Hfl' & Hlen). unfold sm_bind.
    rewrite IH; [|done|lia|rewrite Hfl'; cbn in Hn; lia]. by rewrite Hfl', Hpath.
Qed.
End iterate.

(** Iterating over a directory opened with [read_dir] lists it completely: the
    iteration ends, yields every entry exactly once, in the order of the names and
    with its type, across as many fills of the 31-entry buffer as it takes, leaves
    out [.] and [..], and changes nothing. *)
Theorem read_dir_iterates path s rd s1 p ch :
  ReadDir_new (F:=nat) path s = Ret (Ok rd, s1) → ramfs_wf (rw_store (fs_state s1)) →
  st_nodes s1 !! wc_inner (d_node (rd_inner rd)) = Some (DirNode p ch) → Z.of_nat (size ch) < 2 ^ 62 →
  (∀ fuel, (2 * size ch + 5 < fuel)%nat →
     collect (S (size ch)) fuel rd s1 =
       Ret (Ok (to_entry path <$> List.filter not_dot (entry ch (rw_store (fs_state s1)) <$> get_entries ch)), s1)) ∧
  Sorted name_le (get_entries ch) ∧ NoDup (get_entries ch) ∧ (∀ name, name ∈ get_entries ch ↔ is_Some (ch !! name)).
Proof.
  intros Hnew Hwf Hd Hsize. split_and!; [|apply get_entries_sorted|apply get_entries_nodup|apply get_entries_elem].
  assert (length (get_entries ch) = size ch) as Hge.
  { unfold get_entries. rewrite merge_sort_Permutation, length_fmap. apply length_map_to_list. }
  assert (length (dir_listing ch (rw_store (fs_state s1))) = S (S (size ch))) as Hlen.
  { unfold dir_listing. cbn [length]. by rewrite length_fmap, Hge. }
  unfold ReadDir_new in Hnew. apply sm_bind_inv in Hnew as [(inner & s2 & Hopen & Hm)|(e & _ & ?)]; [|done].
  unfold sm_ret in Hm. simplify_eq. cbn [rd_inner] in *.
  assert (d_entry_idx inner = 0 ∧ wc_cap (d_node inner) = opts_cap (set_read true OpenOptions_new)) as [Hidx Hcap].
  { unfold open_dir, open_dir_at_opt in Hopen. cbn [oo_read set_read negb oo_create oo_create_new oo_write oo_append oo_truncate OpenOptions_new orb] in Hopen.
    apply sm_bind_inv in Hopen as [(n & s2 & _ & Hm)|(e & _ & ?)]; [|done].
    apply sm_bind_inv in Hm as [(a & s3 & _ & Hm)|(e & _ & ?)]; [|done].
    destruct (negb (is_dir a)); [unfold sm_err in Hm; by simplify_eq|]. cbv zeta in Hm.
    destruct (negb _); [unfold sm_err in Hm; by simplify_eq|].
    apply sm_bind_inv in Hm as [(u & s4 & _ & Hm)|(e & _ & ?)]; [|done].
    apply sm_bind_inv in Hm as [(u' & s5 & _ & Hm)|(e & _ & ?)]; [|done]. unfold sm_ret in Hm. by simplify_eq. }
  intros fuel Hf. set (rd := {| rd_inner := inner |}).
  assert (remaining (dir_listing ch (rw_store (fs_state s1))) rd = dir_listing ch (rw_store (fs_state s1))) as Hrem.
  { unfold remaining, rd. cbn [rd_buf rd_inner]. by rewrite Hidx. }
  assert (List.filter not_dot (dir_listing ch (rw_store (fs_state s1))) =
          List.filter not_dot (entry ch (rw_store (fs_state s1)) <$> get_entries ch)) as Hfl by done.
  rewrite (collect_eq s1 (wc_inner (d_node inner)) p ch Hwf Hd); rewrite ?Hrem, ?Hfl; [done|lia| |lia|].
  - split_and!; [done| |cbn; lia|cbn -[length]; lia|done]. cbn. rewrite Hcap. apply (opts_cap_flags (set_read true OpenOptions_new)).
  - pose proof (List.filter_length_le not_dot (entry ch (rw_store (fs_state s1)) <$> get_entries ch)) as Hle.
    rewrite length_fmap, Hge in Hle. lia.
Qed.

End ramfs_files.
