(* ===== verification/FdTable.v ===== *)
(** File descriptors ([arceos_posix_api/src/imp/fd_ops.rs] and [io.rs]).

    The files behind the descriptors are whatever implements the trait [FileLike];
    an [Arc<dyn FileLike>] is a reference [Fl] into a state [W].  The table itself is
    the external crate [flatten_objects], a class with the laws it documents, and so
    are the error numbers of [axerrno]. *)

From stdpp Require Import prelude list.
From Stdlib Require Import ZArith Lia.
From S2P Require Import Prelude.
Local Open Scope Z_scope.
Local Open Scope kernel_scope.

(** ** [axerrno] *)

Class AxErrno : Type := {
  linux_of_ax : AxError.t → LinuxError.t;
  errno : LinuxError.t → Z;
}.
(** Error numbers are positive and small. *)
Class AxErrnoLaws `{AxErrno} : Prop := {
  errno_range e : 0 < errno e < 4096;
}.

(** ** [flatten_objects] *)

Class FlattenObjects (T : Type) : Type := {
  objects : Type;
  obj_new : objects;
  obj_get : objects → Z → option T;
  obj_add : objects → T → option (Z * objects);
  obj_add_at : objects → Z → T → option (Z * objects);
  obj_remove : objects → Z → option (T * objects);
}.
(** The numbers are below the capacity, [add] takes a free one if there is one, and
    [add_at] takes the given one if it is free. *)
Class FlattenLaws {T : Type} (cap : Z) `{FlattenObjects T} : Prop := {
  obj_get_new id : obj_get obj_new id = None;
  obj_get_range o id x : obj_get o id = Some x → 0 ≤ id < cap;
  obj_add_Some o x id o' : obj_add o x = Some (id, o') →
    0 ≤ id < cap ∧ obj_get o id = None ∧ ∀ j, obj_get o' j = if bool_decide (j = id) then Some x else obj_get o j;
  obj_add_None o x : obj_add o x = None → ∀ j, 0 ≤ j < cap → is_Some (obj_get o j);
  obj_add_at_Some o id x r o' : obj_add_at o id x = Some (r, o') →
    r = id ∧ 0 ≤ id < cap ∧ obj_get o id = None ∧ ∀ j, obj_get o' j = if bool_decide (j = id) then Some x else obj_get o j;
  obj_add_at_None o id x : obj_add_at o id x = None → 0 ≤ id < cap → is_Some (obj_get o id);
  obj_remove_Some o id x o' : obj_remove o id = Some (x, o') →
    obj_get o id = Some x ∧ ∀ j, obj_get o' j = if bool_decide (j = id) then None else obj_get o j;
  obj_remove_None o id : obj_remove o id = None → obj_get o id = None;
}.

(** ** [FileLike] *)

(** [ctypes::stat], the fields the kernel sets. *)
Record stat : Type := {
  st_ino : Z; st_nlink : Z; st_mode : Z; st_uid : Z; st_gid : Z; st_size : Z; st_blocks : Z; st_blksize : Z;
}.
Definition stat_default : stat :=
  {| st_ino := 0; st_nlink := 0; st_mode := 0; st_uid := 0; st_gid := 0; st_size := 0; st_blocks := 0; st_blksize := 0 |}.

(** [axio::PollState]. *)
Record PollState : Type := { poll_readable : bool; poll_writable : bool }.

(** Reading gives the bytes stored to the buffer.  [fl_clone] and [fl_drop] are the
    [Arc]. *)
Class FileLike (Fl W : Type) : Type := {
  fl_read : Fl → Z → SM W LinuxError.t (list Z);
  fl_write : Fl → list Z → SM W LinuxError.t Z;
  fl_stat : Fl → SM W LinuxError.t stat;
  fl_poll : Fl → SM W LinuxError.t PollState;
  fl_set_nonblocking : Fl → bool → SM W LinuxError.t unit;
  fl_clone : Fl → W → W;
  fl_drop : Fl → W → W;
}.

Definition AX_FILE_LIMIT : Z := 1024.

Section fd_ops.
Context {Fl W : Type} {errnos : AxErrno} {table : FlattenObjects Fl} {flike : FileLike Fl W}.

Record posix : Type := { FD_TABLE : objects; px_world : W }.
Abbreviation P := (SM posix LinuxError.t).

Definition set_table (t : objects) (p : posix) : posix := {| FD_TABLE := t; px_world := px_world p |}.
Definition set_world (w : W) (p : posix) : posix := {| FD_TABLE := FD_TABLE p; px_world := w |}.
Definition on_world {A} (m : SM W LinuxError.t A) : P A := λ p,
  match m (px_world p) with
  | Ret (r, w) => Ret (r, set_world w p)
  | Panic => Panic
  end.

(** The table with the standard streams. *)
Definition fd_table_init (stdin stdout stderr : Fl) : outcome objects :=
  match obj_add_at obj_new 0 stdin with
  | None => Panic
  | Some (_, t) =>
      match obj_add_at t 1 stdout with
      | None => Panic
      | Some (_, t) => match obj_add_at t 2 stderr with None => Panic | Some (_, t) => Ret t end
      end
  end.

(** [fd as usize] of a [c_int]. *)
Definition fd_as_usize (fd : Z) : Z := fd mod 2 ^ 64.

(** The reference is used within the call that asks for it. *)
Definition get_file_like (fd : Z) : P Fl := λ p, Ret (ok_or (obj_get (FD_TABLE p) (fd_as_usize fd)) LinuxError.EBADF, p).

(** The file is moved into the table, or dropped when there is no room. *)
Definition add_file_like (f : Fl) : P Z := λ p,
  match obj_add (FD_TABLE p) f with
  | Some (id, t) => Ret (Ok (to_signed 32 id), set_table t p)
  | None => Ret (Err LinuxError.EMFILE, set_world (fl_drop f (px_world p)) p)
  end.

Definition close_file_like (fd : Z) : P unit := λ p,
  match obj_remove (FD_TABLE p) (fd_as_usize fd) with
  | Some (f, t) => Ret (Ok tt, {| FD_TABLE := t; px_world := fl_drop f (px_world p) |})
  | None => Ret (Err LinuxError.EBADF, p)
  end.

(** [syscall_body!]: the value, or the negated error number. *)
Definition ret_code (r : result Z LinuxError.t) : Z :=
  match r with Ok v => v | Err e => - errno e end.
Definition syscall_body (m : P Z) : posix → outcome (Z * posix) := λ p,
  match m p with
  | Ret (r, p) => Ret (ret_code r, p)
  | Panic => Panic
  end.

Definition sys_close (fd : Z) : posix → outcome (Z * posix) := λ p,
  if (0 <=? fd) && (fd <=? 2) then Ret (0, p)
  else syscall_body (do! close_file_like fd in sm_ret 0) p.

(** [cloned()]: the new descriptor has a reference of its own. *)
Definition clone_file (f : Fl) : P unit := sm_modify (λ p, set_world (fl_clone f (px_world p)) p).

Definition dup_fd (old_fd : Z) : P Z :=
  let! f := get_file_like old_fd in
  do! clone_file f in
  add_file_like f.

Definition sys_dup (old_fd : Z) : posix → outcome (Z * posix) := syscall_body (dup_fd old_fd).

Definition F_DUPFD : Z := 0.
Definition F_GETFD : Z := 1.
Definition F_SETFL : Z := 4.
Definition F_DUPFD_CLOEXEC : Z := 1030.
Definition O_NONBLOCK : Z := 2048.

Definition sys_fcntl (fd cmd arg : Z) : posix → outcome (Z * posix) := syscall_body (
  let cmd := cmd mod 2 ^ 32 in
  if (cmd =? F_DUPFD) || (cmd =? F_DUPFD_CLOEXEC) then dup_fd fd
  else if cmd =? F_SETFL then
    if (fd =? 0) || (fd =? 1) || (fd =? 2) then sm_ret 0
    else
      let! f := get_file_like fd in
      do! on_world (fl_set_nonblocking f (0 <? Z.land arg O_NONBLOCK)) in
      sm_ret 0
  else sm_ret 0).

Definition sys_dup2 (old_fd new_fd : Z) : posix → outcome (Z * posix) := syscall_body (
  if old_fd =? new_fd then λ p,
    match sys_fcntl old_fd F_GETFD 0 p with
    | Ret (r, p) => Ret (Ok (if 0 <=? r then old_fd else r), p)
    | Panic => Panic
    end
  else if AX_FILE_LIMIT <=? fd_as_usize new_fd then sm_err LinuxError.EBADF
  else
    let! f := get_file_like old_fd in
    do! clone_file f in
    λ p,
      match obj_add_at (FD_TABLE p) (fd_as_usize new_fd) f with
      | Some (_, t) => Ret (Ok new_fd, set_table t p)
      | None => Ret (Err LinuxError.EMFILE, set_world (fl_drop f (px_world p)) p)
      end).

(** ** [io.rs] *)

(** [buf] is [None] for a null pointer; the bytes read are returned beside the
    value. *)
Definition sys_read (fd : Z) (buf : option unit) (count : Z) : posix → outcome (Z * list Z * posix) := λ p,
  match (match buf with
         | None => sm_err LinuxError.EFAULT
         | Some _ => let! f := get_file_like fd in on_world (fl_read f count)
         end) p with
  | Ret (Ok data, p) => Ret (Z.of_nat (length data), data, p)
  | Ret (Err e, p) => Ret (- errno e, [], p)
  | Panic => Panic
  end.

Definition sys_write (fd : Z) (buf : option (list Z)) : posix → outcome (Z * posix) := syscall_body (
  match buf with
  | None => sm_err LinuxError.EFAULT
  | Some src => let! f := get_file_like fd in on_world (fl_write f src)
  end).

(** The loop of [sys_writev]; [ret] is an [isize]. *)
Fixpoint writev_loop (fd : Z) (iovs : list (option (list Z))) (ret : Z) : P Z := λ p,
  match iovs with
  | [] => Ret (Ok ret, p)
  | iov :: iovs =>
      match sys_write fd iov p with
      | Ret (r, p) => writev_loop fd iovs (to_signed 64 (ret + r)) p
      | Panic => Panic
      end
  end.
Definition sys_writev (fd : Z) (iovs : list (option (list Z))) (iocnt : Z) : posix → outcome (Z * posix) := syscall_body (
  if negb ((0 <=? iocnt) && (iocnt <=? 1024)) then sm_err LinuxError.EINVAL
  else writev_loop fd (take (Z.to_nat iocnt) iovs) 0).

End fd_ops.

Arguments posix Fl W {table}.

(** ** Properties *)

Lemma fd_as_usize_id fd : 0 ≤ fd < 2 ^ 31 → fd_as_usize fd = fd.
Proof. intros Hfd. unfold fd_as_usize. apply Z.mod_small. lia. Qed.
Lemma fd_as_usize_neg fd : - 2 ^ 31 ≤ fd < 0 → 2 ^ 63 < fd_as_usize fd.
Proof.
  intros Hfd. unfold fd_as_usize. rewrite (Z.mod_eq fd (2 ^ 64)) by lia.
  replace (fd / 2 ^ 64) with (-1); [lia|]. apply (Z.div_unique _ _ _ (fd + 2 ^ 64)); lia.
Qed.

Lemma to_signed_32_small x : 0 ≤ x < 1024 → to_signed 32 x = x.
Proof.
  intros Hx. unfold to_signed. rewrite Z.mod_small by lia. cbv zeta. change (32 - 1) with 31.
  destruct (Z.ltb_spec x (2 ^ 31)); lia.
Qed.

Section properties.
Context {Fl W : Type} {errnos : AxErrno} {table : FlattenObjects Fl} {flike : FileLike Fl W}.
Context {elaws : AxErrnoLaws} {tlaws : FlattenLaws AX_FILE_LIMIT}.
Implicit Types (p : posix Fl W).

(** The descriptors that are open, and their files. *)
Definition fd_map p (fd : Z) : option Fl := obj_get (FD_TABLE p) fd.
Definition is_int (fd : Z) : Prop := - 2 ^ 31 ≤ fd < 2 ^ 31.

Lemma get_fd fd p : is_int fd → obj_get (FD_TABLE p) (fd_as_usize fd) = fd_map p fd.
Proof.
  unfold is_int, fd_map. intros Hfd. destruct (decide (0 ≤ fd)); [by rewrite fd_as_usize_id by lia|].
  pose proof (fd_as_usize_neg fd). destruct (obj_get _ (fd_as_usize fd)) eqn:H1; destruct (obj_get _ fd) eqn:H2; try done.
  all: first [apply obj_get_range in H1 | idtac]; first [apply obj_get_range in H2 | idtac]; unfold AX_FILE_LIMIT in *; lia.
Qed.

Lemma get_file_like_eq fd p :
  is_int fd → get_file_like fd p = Ret (ok_or (fd_map p fd) LinuxError.EBADF, p).
Proof. intros Hfd. unfold get_file_like. by rewrite get_fd. Qed.

(** [f] has been put at the free descriptor [fd]. *)
Definition opened (fd : Z) (f : Fl) p p' : Prop :=
  0 ≤ fd < AX_FILE_LIMIT ∧ fd_map p fd = None ∧
  ∀ j, fd_map p' j = if bool_decide (j = fd) then Some f else fd_map p j.

Lemma add_file_like_spec f p :
  (∃ fd p', add_file_like f p = Ret (Ok fd, p') ∧ opened fd f p p' ∧ px_world p' = px_world p) ∨
  (add_file_like f p = Ret (Err LinuxError.EMFILE, set_world (fl_drop f (px_world p)) p) ∧
   ∀ j, 0 ≤ j < AX_FILE_LIMIT → is_Some (fd_map p j)).
Proof.
  unfold add_file_like. destruct (obj_add (FD_TABLE p) f) as [[id t]|] eqn:Ha.
  - left. apply obj_add_Some in Ha as (Hr & Hn & Hj). rewrite to_signed_32_small by (unfold AX_FILE_LIMIT in *; lia).
    eexists _, _. split; [done|]. done.
  - right. split; [done|]. by eapply obj_add_None.
Qed.

Lemma dup_fd_spec fd p :
  is_int fd →
  match fd_map p fd with
  | None => dup_fd fd p = Ret (Err LinuxError.EBADF, p)
  | Some f =>
      (∃ new p', dup_fd fd p = Ret (Ok new, p') ∧ opened new f p p' ∧ px_world p' = fl_clone f (px_world p)) ∨
      (dup_fd fd p = Ret (Err LinuxError.EMFILE, set_world (fl_drop f (fl_clone f (px_world p))) p) ∧
       ∀ j, 0 ≤ j < AX_FILE_LIMIT → is_Some (fd_map p j))
  end.
Proof.
  intros Hfd. unfold dup_fd, sm_bind. rewrite get_file_like_eq by done. destruct (fd_map p fd) as [f|]; [|done].
  cbn [ok_or]. unfold clone_file, sm_modify.
  destruct (add_file_like_spec f (set_world (fl_clone f (px_world p)) p)) as [(new & p' & -> & Hop & Hw)|[-> Hfull]].
  - left. exists new, p'. split; [done|]. split; [exact Hop|exact Hw].
  - right. done.
Qed.

Lemma sys_dup_spec fd p :
  is_int fd →
  ∃ r p', sys_dup fd p = Ret (r, p') ∧ sys_fcntl fd F_DUPFD 0 p = Ret (r, p') ∧
    match fd_map p fd with
    | None => r = - errno LinuxError.EBADF ∧ p' = p
    | Some f => (opened r f p p' ∧ px_world p' = fl_clone f (px_world p)) ∨
        (r = - errno LinuxError.EMFILE ∧ (∀ j, 0 ≤ j < AX_FILE_LIMIT → is_Some (fd_map p j)) ∧
         p' = set_world (fl_drop f (fl_clone f (px_world p))) p)
    end.
Proof.
  intros Hfd. unfold sys_fcntl, sys_dup, syscall_body. change (F_DUPFD mod 2 ^ 32 =? F_DUPFD) with true. cbn [orb].
  pose proof (dup_fd_spec fd p Hfd) as Hs. destruct (fd_map p fd) as [f|]; [|rewrite Hs; by eexists _, _].
  destruct Hs as [(new & p1 & -> & Hop & Hw)|[-> Hfull]]; eexists _, _; (split; [done|]); (split; [done|]); [by left|by right].
Qed.

Lemma sys_dup2_same fd p : sys_dup2 fd fd p = Ret (fd, p).
Proof. unfold sys_dup2, syscall_body. by rewrite Z.eqb_refl. Qed.

Lemma sys_dup2_spec fd new_fd p :
  is_int fd → is_int new_fd → fd ≠ new_fd →
  ∃ r p', sys_dup2 fd new_fd p = Ret (r, p') ∧
    match fd_map p fd with
    | None => r = - errno LinuxError.EBADF ∧ p' = p
    | Some f => (r = new_fd ∧ opened new_fd f p p' ∧ px_world p' = fl_clone f (px_world p)) ∨
        (r = - errno LinuxError.EMFILE ∧ is_Some (fd_map p new_fd) ∧ p' = set_world (fl_drop f (fl_clone f (px_world p))) p) ∨
        (r = - errno LinuxError.EBADF ∧ ¬ (0 ≤ new_fd < AX_FILE_LIMIT) ∧ p' = p)
    end.
Proof.
  intros Hfd Hnew Hne. unfold sys_dup2, syscall_body. rewrite (proj2 (Z.eqb_neq fd new_fd)) by done.
  destruct (Z.leb_spec AX_FILE_LIMIT (fd_as_usize new_fd)) as [Hlim|Hlim].
  { eexists _, _. split; [done|]. cbn. destruct (fd_map p fd) as [f|]; [|done]. right. right. split_and!; [done| |done].
    intros Hr. rewrite fd_as_usize_id in Hlim by (unfold AX_FILE_LIMIT, is_int in *; lia). lia. }
  assert (0 ≤ new_fd < AX_FILE_LIMIT) as Hr.
  { unfold is_int in Hnew. destruct (decide (0 ≤ new_fd)); [rewrite fd_as_usize_id in Hlim by lia; lia|].
    pose proof (fd_as_usize_neg new_fd). unfold AX_FILE_LIMIT in *. lia. }
  rewrite (fd_as_usize_id new_fd) by (unfold AX_FILE_LIMIT in *; lia).
  unfold sm_bind. rewrite get_file_like_eq by done. destruct (fd_map p fd) as [f|]; [|by eexists _, _].
  cbn. destruct (obj_add_at _ new_fd f) as [[r t]|] eqn:Ha; eexists _, _; (split; [done|]).
  + left. split; [done|]. by apply obj_add_at_Some in Ha as (_ & ? & ? & ?).
  + right. left. split_and!; [done| |done]. by eapply obj_add_at_None.
Qed.

Lemma sys_close_spec fd p :
  is_int fd →
  ∃ r p', sys_close fd p = Ret (r, p') ∧
    if bool_decide (0 ≤ fd ≤ 2) then r = 0 ∧ p' = p
    else match fd_map p fd with
         | None => r = - errno LinuxError.EBADF ∧ p' = p
         | Some f => r = 0 ∧ px_world p' = fl_drop f (px_world p) ∧
             ∀ j, fd_map p' j = if bool_decide (j = fd) then None else fd_map p j
         end.
Proof.
  intros Hfd. unfold sys_close. case_bool_decide as H2.
  { rewrite (proj2 (Z.leb_le 0 fd)), (proj2 (Z.leb_le fd 2)) by lia. by eexists _, _. }
  assert ((0 <=? fd) && (fd <=? 2) = false) as -> by (repeat case_Z1; cbn; lia || done).
  unfold syscall_body, sm_bind, close_file_like. destruct (obj_remove _ _) as [[f t]|] eqn:Hrm.
  + eexists _, _. split; [done|]. apply obj_remove_Some in Hrm as [Hg Hj]. rewrite get_fd in Hg by done. rewrite Hg.
    split_and!; [done..|]. apply obj_get_range in Hg. intros j. cbn. unfold fd_map. cbn. rewrite Hj.
    rewrite fd_as_usize_id by (unfold AX_FILE_LIMIT in *; lia). done.
  + eexists _, _. split; [done|]. apply obj_remove_None in Hrm. rewrite get_fd in Hrm by done. by rewrite Hrm.
Qed.


(** [sys_dup2] with the same number twice succeeds even when that descriptor is not
    open: it asks [fcntl(F_GETFD)], which answers 0 for every number. *)
Theorem dup2_same_unchecked fd p :
  is_int fd → fd_map p fd = None → sys_dup2 fd fd p = Ret (fd, p) ∧ sys_dup fd p = Ret (- errno LinuxError.EBADF, p).
Proof.
  intros Hfd Hn. split; [apply sys_dup2_same|].
  destruct (sys_dup_spec fd p Hfd) as (r & p' & Hd & _ & Hs). rewrite Hn in Hs. by destruct Hs as [-> ->].
Qed.

(** [sys_writev] adds the error numbers of failing writes to the bytes written:
    when the first buffer is written and the second one fails, the value returned is
    neither the number of bytes written nor an error. *)
Theorem writev_adds_errors fd b1 b2 p f n e w1 w2 :
  is_int fd → fd_map p fd = Some f → 0 ≤ n < 2 ^ 62 →
  fl_write f b1 (px_world p) = Ret (Ok n, w1) → fl_write f b2 w1 = Ret (Err e, w2) →
  sys_writev fd [Some b1; Some b2] 2 p = Ret (n - errno e, set_world w2 p).
Proof.
  intros Hfd Hf Hn H1 H2. pose proof (errno_range e) as He. unfold sys_writev, syscall_body.
  change (negb ((0 <=? 2) && (2 <=? 1024))) with false. cbv iota.
  change (take (Z.to_nat 2) [Some b1; Some b2]) with [Some b1; Some b2].
  assert (∀ b p1 r w', FD_TABLE p1 = FD_TABLE p → fl_write f b (px_world p1) = Ret (r, w') →
            sys_write fd (Some b) p1 = Ret (ret_code r, set_world w' p1)) as Hw.
  { intros b p1 r w' Ht Hb. unfold sys_write, syscall_body, sm_bind. rewrite get_file_like_eq by done.
    unfold fd_map in *. rewrite Ht, Hf. cbn [ok_or]. unfold on_world. rewrite Hb. by destruct r. }
  cbn [writev_loop]. rewrite (Hw _ _ _ _ eq_refl H1). cbn [ret_code].
  rewrite (Hw _ (set_world w1 p) _ _ eq_refl H2). cbn [ret_code].
  assert (∀ x, - 2 ^ 63 ≤ x < 2 ^ 63 → to_signed 64 x = x) as Hs.
  { intros x Hx. unfold to_signed. change (64 - 1) with 63. cbv zeta. rewrite (Z.mod_eq x (2 ^ 64)) by lia.
    destruct (decide (0 ≤ x)).
    - rewrite Z.div_small by lia. case_Z1; lia.
    - replace (x / 2 ^ 64) with (-1) by (apply (Z.div_unique _ _ _ (x + 2 ^ 64)); lia). case_Z1; lia. }
  rewrite !Hs by (rewrite ?Hs by lia; lia). done.
Qed.

(** ** Reference counts *)

Section references.
Context `{EqDecision Fl}.
(** The references to a file. *)
Context (count : Fl → W → Z).
Definition fd_range : list Z := Z.of_nat <$> seq 0 (Z.to_nat AX_FILE_LIMIT).
(** The descriptors of a file. *)
Definition fds_of (f : Fl) (p : posix Fl W) : list Z := filter (λ fd, fd_map p fd = Some f) fd_range.
Definition refs_counted p : Prop := ∀ f, count f (px_world p) = Z.of_nat (length (fds_of f p)).

Lemma fd_range_elem fd : fd ∈ fd_range ↔ 0 ≤ fd < AX_FILE_LIMIT.
Proof.
  unfold fd_range, AX_FILE_LIMIT. rewrite list_elem_of_fmap. split.
  - intros (k & -> & Hk%elem_of_seq). lia.
  - intros Hfd. exists (Z.to_nat fd). rewrite elem_of_seq. lia.
Qed.
Lemma fd_range_nodup : NoDup fd_range.
Proof. apply NoDup_fmap_2; [|apply NoDup_seq]. intros ???. lia. Qed.

(** Changing the file at one number. *)
Lemma fds_of_update p p' fd g (o : option Fl) :
  0 ≤ fd < AX_FILE_LIMIT → (∀ j, fd_map p' j = if bool_decide (j = fd) then o else fd_map p j) →
  Z.of_nat (length (fds_of g p')) =
    Z.of_nat (length (fds_of g p)) + (if decide (o = Some g) then 1 else 0) - (if decide (fd_map p fd = Some g) then 1 else 0).
Proof.
  intros Hr Hj. unfold fds_of. apply fd_range_elem in Hr. pose proof fd_range_nodup as Hnd. revert Hr Hnd.
  assert (∀ l : list Z, fd ∉ l → filter (λ j, fd_map p' j = Some g) l = filter (λ j, fd_map p j = Some g) l) as Hsame.
  { induction l as [|j l IH]; intros Hl; [done|]. rewrite !filter_cons. rewrite Hj, bool_decide_false by set_solver.
    rewrite IH by set_solver. done. }
  induction fd_range as [|j l IH]; intros Hr Hnd; [by apply not_elem_of_nil in Hr|].
  apply NoDup_cons in Hnd as [Hjl Hnd]. rewrite !filter_cons. apply elem_of_cons in Hr as [<-|Hr].
  - rewrite Hsame by done. rewrite Hj, bool_decide_true by done. repeat case_decide; cbn [length]; lia || done.
  - rewrite Hj, bool_decide_false by (intros ->; done). specialize (IH Hr Hnd). repeat case_decide; cbn [length]; lia || done.
Qed.

Lemma fd_count_pos p fd f : refs_counted p → fd_map p fd = Some f → 0 < count f (px_world p).
Proof.
  intros Hc Hf. rewrite Hc. pose proof (obj_get_range _ _ _ Hf) as Hr. apply fd_range_elem in Hr.
  assert (fd ∈ fds_of f p) as Hin by (by apply list_elem_of_filter). destruct (fds_of f p); [by apply not_elem_of_nil in Hin|].
  cbn. lia.
Qed.

(** A file put at a free number, a new reference taken and given up, and a number
    given up. *)
Lemma refs_opened fd f p p' :
  refs_counted p → opened fd f p p' → (∀ g, count g (px_world p') = count g (px_world p) + (if decide (f = g) then 1 else 0)) →
  refs_counted p'.
Proof.
  intros Hc (Hr & Hn & Hj) Hw g. rewrite Hw, (fds_of_update p p' fd g (Some f)) by done.
  specialize (Hc g). rewrite Hn. repeat case_decide; simplify_eq; lia || done.
Qed.
Lemma refs_same_fds p p' :
  refs_counted p → (∀ j, fd_map p' j = fd_map p j) → (∀ g, count g (px_world p') = count g (px_world p)) → refs_counted p'.
Proof.
  intros Hc Hj Hw g. rewrite Hw, (Hc g). unfold fds_of. do 2 f_equal. apply list_filter_iff. intros j. by rewrite Hj.
Qed.
Context (count_clone : ∀ f g w, 0 < count f w → count g (fl_clone f w) = count g w + (if decide (f = g) then 1 else 0)).
Context (count_drop : ∀ f g w, 0 < count f w → count g (fl_drop f w) = count g w - (if decide (f = g) then 1 else 0)).

Lemma count_clone_drop f g w : 0 < count f w → count g (fl_drop f (fl_clone f w)) = count g w.
Proof. intros Hf. rewrite count_drop; rewrite !count_clone by done; [|case_decide]; lia. Qed.
Lemma refs_closed fd f p p' :
  refs_counted p → fd_map p fd = Some f → (∀ j, fd_map p' j = if bool_decide (j = fd) then None else fd_map p j) →
  px_world p' = fl_drop f (px_world p) → refs_counted p'.
Proof.
  intros Hc Hf Hj Hw g. rewrite Hw, count_drop by (by eapply fd_count_pos).
  rewrite (fds_of_update p p' fd g None); [|by eapply obj_get_range|done].
  specialize (Hc g). rewrite Hf. repeat case_decide; simplify_eq; lia || done.
Qed.

Lemma sys_dup_counted fd p r p' : is_int fd → refs_counted p → sys_dup fd p = Ret (r, p') → refs_counted p'.
Proof.
  intros Hfd Hc H. destruct (sys_dup_spec fd p Hfd) as (r1 & p1 & Hd & _ & Hs). rewrite H in Hd. simplify_eq.
  destruct (fd_map p fd) as [f|] eqn:Hf; [|by destruct Hs as [_ ->]]. pose proof (fd_count_pos _ _ _ Hc Hf) as Hpos.
  destruct Hs as [[Hop Hw]|(_ & _ & ->)].
  - eapply refs_opened; [done..|]. intros g. rewrite Hw. by apply count_clone.
  - apply (refs_same_fds p); [done..|]. intros g. by apply count_clone_drop.
Qed.
Lemma sys_dup2_counted fd new_fd p r p' :
  is_int fd → is_int new_fd → refs_counted p → sys_dup2 fd new_fd p = Ret (r, p') → refs_counted p'.
Proof.
  intros Hfd Hnew Hc H. destruct (decide (fd = new_fd)) as [->|Hne]; [rewrite sys_dup2_same in H; by simplify_eq|].
  destruct (sys_dup2_spec fd new_fd p Hfd Hnew Hne) as (r1 & p1 & Hd & Hs). rewrite H in Hd. simplify_eq.
  destruct (fd_map p fd) as [f|] eqn:Hf; [|by destruct Hs as [_ ->]]. pose proof (fd_count_pos _ _ _ Hc Hf) as Hpos.
  destruct Hs as [(_ & Hop & Hw)|[(_ & _ & ->)|(_ & _ & ->)]]; [| |done].
  - eapply refs_opened; [done..|]. intros g. rewrite Hw. by apply count_clone.
  - apply (refs_same_fds p); [done..|]. intros g. by apply count_clone_drop.
Qed.
Lemma sys_close_counted fd p r p' : is_int fd → refs_counted p → sys_close fd p = Ret (r, p') → refs_counted p'.
Proof.
  intros Hfd Hc H. destruct (sys_close_spec fd p Hfd) as (r1 & p1 & Hd & Hs). rewrite H in Hd. simplify_eq.
  case_bool_decide; [by destruct Hs as [_ ->]|]. destruct (fd_map p fd) as [f|] eqn:Hf; [|by destruct Hs as [_ ->]].
  destruct Hs as (_ & Hw & Hj). by eapply refs_closed.
Qed.

End references.
End properties.
