(* ===== verification/SysMap.v ===== *)
(** The system calls of the monolithic kernel of [exercises/sys_map]: [src/syscall.rs]
    on the address spaces of [Axmm.v], and the process of [src/task.rs].

    The POSIX layer is used through the class [PosixApi]: seeking and reading a
    descriptor into a kernel buffer, and the calls that pass pointers of the user on.
    The theorems: [mmap] keeps the address space well formed, gives a free range with the
    permissions asked for, and puts the bytes of the file there; a fixed range that wraps
    around panics; an error after the range is mapped leaves it mapped. *)

From stdpp Require Import prelude gmap list.
From Stdlib Require Import ZArith Lia.
From S2P Require Import Prelude Axalloc Axmm AxmmProps AxmmSpace AxmmCalls FdTable.
Local Open Scope Z_scope.
Local Open Scope kernel_scope.

Definition SYS_IOCTL : Z := 29.
Definition SYS_OPENAT : Z := 56.
Definition SYS_CLOSE : Z := 57.
Definition SYS_READ : Z := 63.
Definition SYS_WRITE : Z := 64.
Definition SYS_WRITEV : Z := 66.
Definition SYS_EXIT : Z := 93.
Definition SYS_EXIT_GROUP : Z := 94.
Definition SYS_SET_TID_ADDRESS : Z := 96.
Definition SYS_MMAP : Z := 222.
Definition AT_FDCWD : Z := -100.
Definition SEEK_SET : Z := 0.
Definition SEEK_CUR : Z := 1.

(** [MmapProt] and [MmapFlags], with [from_bits] of [bitflags]. *)
Definition PROT_READ : Z := Z.shiftl 1 0.
Definition PROT_WRITE : Z := Z.shiftl 1 1.
Definition PROT_EXEC : Z := Z.shiftl 1 2.
Definition MmapProt_all : Z := Z.lor (Z.lor PROT_READ PROT_WRITE) PROT_EXEC.
Definition MAP_SHARED : Z := Z.shiftl 1 0.
Definition MAP_PRIVATE : Z := Z.shiftl 1 1.
Definition MAP_FIXED : Z := Z.shiftl 1 4.
Definition MAP_ANONYMOUS : Z := Z.shiftl 1 5.
Definition MAP_NORESERVE : Z := Z.shiftl 1 14.
Definition MAP_STACK : Z := 0x20000.
Definition MmapFlags_all : Z := Z.lor (Z.lor (Z.lor MAP_SHARED MAP_PRIVATE) (Z.lor MAP_FIXED MAP_ANONYMOUS)) (Z.lor MAP_NORESERVE MAP_STACK).
Definition from_bits (all bits : Z) : option Z := if Z.ldiff bits all =? 0 then Some bits else None.

Definition mapping_flags_of_prot `{MappingFlags} (value : Z) : Z :=
  let add b m flags := if contains value b then Z.lor flags m else flags in
  add PROT_EXEC mf_EXECUTE (add PROT_WRITE mf_WRITE (add PROT_READ mf_READ mf_USER)).

Definition ax_err_to_linux (err : AxError.t) : LinuxError.t :=
  match err with
  | AxError.NoMemory => LinuxError.ENOMEM
  | AxError.InvalidInput | AxError.BadState => LinuxError.EINVAL
  | AxError.BadAddress => LinuxError.EFAULT
  | AxError.AlreadyExists => LinuxError.EEXIST
  | AxError.NotFound => LinuxError.ENOENT
  | AxError.PermissionDenied => LinuxError.EACCES
  | AxError.WouldBlock => LinuxError.EAGAIN
  | _ => LinuxError.EFAULT
  end.

(** The calls of [arceos_posix_api] that take pointers of the user. *)
Inductive posix_call : Type :=
| ApiOpen (fname flags mode : Z)
| ApiClose (fd : Z)
| ApiRead (fd buf count : Z)
| ApiWrite (fd buf count : Z)
| ApiWritev (fd iov iocnt : Z).

(** [St] is the state of the POSIX layer and [U] the memory of the user. *)
Class PosixApi (St U : Type) : Type := {
  api_user : posix_call → U → St → outcome (Z * U * St);
  api_lseek : Z → Z → Z → St → outcome (Z * St);
  (** into a kernel buffer: the value returned and the bytes stored *)
  api_read : Z → Z → St → outcome (Z * list Z * St);
}.

Section syscalls.
Context {B P PT MS St : Type} {pa : PageAllocator P} {cfg : MemConfig} {ma : MemoryAddr} {mf : MappingFlags}
  {ptab : PageTable PT (GlobalAllocator B P)} {mset : MemorySet MS} {errnos : AxErrno} {linux_try_from : Z → option LinuxError.t}
  {heap : KernelHeap} {api : PosixApi St (space B P PT MS)}.

(** A user process: [TaskExt] and its task number, and the POSIX layer. *)
Record process : Type := { pr_space : space B P PT MS; pr_files : St; clear_child_tid : Z; pr_id : Z }.
Abbreviation M := (SM process LinuxError.t).
Definition set_space (s : space B P PT MS) (p : process) : process :=
  {| pr_space := s; pr_files := pr_files p; clear_child_tid := clear_child_tid p; pr_id := pr_id p |}.
Definition set_files (f : St) (p : process) : process :=
  {| pr_space := pr_space p; pr_files := f; clear_child_tid := clear_child_tid p; pr_id := pr_id p |}.
Definition set_clear_child_tid (tid : Z) (p : process) : process :=
  {| pr_space := pr_space p; pr_files := pr_files p; clear_child_tid := tid; pr_id := pr_id p |}.

(** A method of the address space, [.map_err(ax_err_to_linux)?]. *)
Definition on_space {A} (m : SM (space B P PT MS) AxError.t A) : M A := λ p,
  match m (pr_space p) with
  | Ret (r, s) => Ret (map_err ax_err_to_linux r, set_space s p)
  | Panic => Panic
  end.

(** [(-ret) as i32]. *)
Definition syscall_ret_to_isize (ret : Z) : result Z LinuxError.t :=
  if ret <? 0 then Err (default LinuxError.EINVAL (linux_try_from (to_signed 32 (- ret)))) else Ok ret.
Definition lseek (fd offset whence : Z) : M Z := λ p,
  match api_lseek fd offset whence (pr_files p) with
  | Ret (r, f) => Ret (syscall_ret_to_isize r, set_files f p)
  | Panic => Panic
  end.
(** The value and the buffer of [length] bytes, zero where nothing was stored. *)
Definition read_file (fd length : Z) : M (Z * list Z) := λ p,
  if negb (heap_room length) then Panic else
  match api_read fd length (pr_files p) with
  | Ret (r, data, f) =>
      Ret (map_ok (λ n, (n, data ++ replicate (Z.to_nat length - List.length data) 0)) (syscall_ret_to_isize r), set_files f p)
  | Panic => Panic
  end.

(** The address to map at. *)
Definition mmap_target (addr len_aligned flag_bits : Z) : M Z := λ p,
  let aspace := sp_as (pr_space p) in
  let base_ := base aspace in
  match from_start_size base_ (aspace_size aspace) with
  | Panic => Panic
  | Ret limit =>
      if contains flag_bits MAP_FIXED then
        if addr =? 0 then Ret (Err LinuxError.EINVAL, p)
        else if negb (addr mod PAGE_SIZE_4K =? 0) then Ret (Err LinuxError.EINVAL, p)
        else match contains_range aspace addr len_aligned with
             | Panic => Panic
             | Ret false => Ret (Err LinuxError.EINVAL, p)
             | Ret true => Ret (Ok addr, p)
             end
      else
        let hint := if addr =? 0 then base_ else Z.land addr (unot (PAGE_SIZE_4K - 1)) in
        let found :=
          match find_free_area aspace hint len_aligned limit with
          | Some a => Some a
          | None => if hint =? base_ then None else find_free_area aspace base_ len_aligned limit
          end in
        Ret (ok_or found LinuxError.ENOMEM, p)
  end.

(** [if read_bytes > 0 { aspace.write(target, &buf[..read_bytes]) }]. *)
Definition store_read (target : Z) (r : Z * list Z) : M unit :=
  if 0 <? fst r then
    (if fst r <=? Z.of_nat (List.length (snd r)) then on_space (write target (take (Z.to_nat (fst r)) (snd r))) else sm_panic)
  else sm_ret tt.
(** The contents of a file mapping; the position of the file is put back. *)
Definition mmap_file (fd length offset target : Z) : M unit :=
  let! saved := lseek fd 0 SEEK_CUR in
  let! _ := lseek fd offset SEEK_SET in
  let! r := read_file fd length in
  do! store_read target r in
  let! _ := lseek fd saved SEEK_SET in
  sm_ret tt.

Definition mmap_body (addr length prot flags fd offset : Z) : M Z :=
  if length =? 0 then sm_err LinuxError.EINVAL
  else if offset <? 0 then sm_err LinuxError.EINVAL
  else
    let! prot_bits := sm_lift (ok_or (from_bits MmapProt_all prot) LinuxError.EINVAL) in
    let! flag_bits := sm_lift (ok_or (from_bits MmapFlags_all flags) LinuxError.EINVAL) in
    if negb (contains flag_bits MAP_ANONYMOUS) && (fd <? 0) then sm_err LinuxError.EBADF
    else
      let! sum := sm_lift (ok_or (checked_add length (PAGE_SIZE_4K - 1)) LinuxError.ENOMEM) in
      let len_aligned := Z.land sum (unot (PAGE_SIZE_4K - 1)) in
      if len_aligned =? 0 then sm_err LinuxError.EINVAL
      else if negb (offset mod PAGE_SIZE_4K =? 0) then sm_err LinuxError.EINVAL
      else
        let map_flags := mapping_flags_of_prot prot_bits in
        let map_flags := if contains map_flags mf_USER then map_flags else Z.lor map_flags mf_USER in
        let pop := negb (contains flag_bits MAP_NORESERVE) in
        let! target := mmap_target addr len_aligned flag_bits in
        do! on_space (map_alloc target len_aligned map_flags pop) in
        do! (if contains flag_bits MAP_ANONYMOUS then sm_ret tt else mmap_file fd length offset target) in
        sm_ret target.
(** [Ok(v) => v as isize]. *)
Definition sys_mmap (addr length prot flags fd offset : Z) : process → outcome (Z * process) := λ p,
  match mmap_body addr length prot flags fd offset p with
  | Ret (Ok v, p) => Ret (to_signed 64 v, p)
  | Ret (Err e, p) => Ret (- errno e, p)
  | Panic => Panic
  end.

Definition user_call (c : posix_call) (p : process) : outcome (Z * process) :=
  match api_user c (pr_space p) (pr_files p) with
  | Ret (r, s, f) => Ret (r, set_space s (set_files f p))
  | Panic => Panic
  end.
Definition sys_openat (dfd fname flags mode : Z) (p : process) : outcome (Z * process) :=
  if dfd =? AT_FDCWD then user_call (ApiOpen fname flags mode) p else Panic.
Definition sys_set_tid_address (tid_ptr : Z) (p : process) : outcome (Z * process) :=
  Ret (to_signed 64 (pr_id p), set_clear_child_tid tid_ptr p).
Definition sys_ioctl (fd op argp : Z) (p : process) : outcome (Z * process) := Ret (0, p).

(** The registers that carry the arguments. *)
Record args : Type := { arg0 : Z; arg1 : Z; arg2 : Z; arg3 : Z; arg4 : Z; arg5 : Z }.
(** The task goes on with a value, or has exited. *)
Inductive after_call : Type :=
| Returned (v : Z)
| Exited (code : Z).
Definition as_i32 (x : Z) : Z := to_signed 32 x.
Definition handle_syscall (tf : args) (syscall_num : Z) (p : process) : outcome (after_call * process) :=
  let ret (r : outcome (Z * process)) := match r with Ret (v, p) => Ret (Returned v, p) | Panic => Panic end in
  if syscall_num =? SYS_IOCTL then ret (sys_ioctl (as_i32 (arg0 tf)) (arg1 tf) (arg2 tf) p)
  else if syscall_num =? SYS_SET_TID_ADDRESS then ret (sys_set_tid_address (arg0 tf) p)
  else if syscall_num =? SYS_OPENAT then ret (sys_openat (as_i32 (arg0 tf)) (arg1 tf) (as_i32 (arg2 tf)) (arg3 tf mod 2 ^ 32) p)
  else if syscall_num =? SYS_CLOSE then ret (user_call (ApiClose (as_i32 (arg0 tf))) p)
  else if syscall_num =? SYS_READ then ret (user_call (ApiRead (as_i32 (arg0 tf)) (arg1 tf) (arg2 tf)) p)
  else if syscall_num =? SYS_WRITE then ret (user_call (ApiWrite (as_i32 (arg0 tf)) (arg1 tf) (arg2 tf)) p)
  else if syscall_num =? SYS_WRITEV then ret (user_call (ApiWritev (as_i32 (arg0 tf)) (arg1 tf) (as_i32 (arg2 tf))) p)
  else if (syscall_num =? SYS_EXIT_GROUP) || (syscall_num =? SYS_EXIT) then Ret (Exited (as_i32 (arg0 tf)), p)
  else if syscall_num =? SYS_MMAP then
    ret (sys_mmap (arg0 tf) (arg1 tf) (as_i32 (arg2 tf)) (as_i32 (arg3 tf)) (as_i32 (arg4 tf)) (to_signed 64 (arg5 tf)) p)
  else Ret (Returned (- errno LinuxError.ENOSYS), p).
End syscalls.
Arguments process B P PT MS St : clear implicits.

(** * Properties *)

Section properties.
Context {B P PT MS St : Type} {pa : PageAllocator P} {pal : PageAllocatorLaws P} {cfg : MemConfig} {ma : MemoryAddr} {mal : MemoryAddrLaws} {mf : MappingFlags}
  {ptab : PageTable PT (GlobalAllocator B P)} {ptl : PageTableLaws B P PT} {mset : MemorySet MS} {msl : MemorySetLaws MS}
  {errnos : AxErrno} {elaws : AxErrnoLaws} (linux_try_from : Z → option LinuxError.t) {heap : KernelHeap} {api : PosixApi St (space B P PT MS)}.
(** The POSIX calls come back, and a read returns the number of bytes it stored. *)
Context (api_lseek_returns : ∀ fd off wh (f : St), ∃ r, api_lseek fd off wh f = Ret r)
  (api_read_returns : ∀ fd n (f : St), ∃ r, api_read fd n f = Ret r)
  (api_read_law : ∀ fd n (f : St) r data f', 0 ≤ n → api_read fd n f = Ret (r, data, f') → 0 ≤ r → r = Z.of_nat (length data) ∧ r ≤ n).
Implicit Types (p : process B P PT MS St).
Abbreviation area_list s := (ms_areas (areas (sp_as s))).

(** The length in whole pages. *)
Definition page_up (length : Z) : Z := (length + (PAGE_SIZE_4K - 1)) - (length + (PAGE_SIZE_4K - 1)) mod PAGE_SIZE_4K.
Lemma page_up_spec length : 0 < length → length ≤ page_up length ∧ aligned (page_up length) ∧ page_up length < length + PAGE_SIZE_4K.
Proof.
  intros Hl. unfold page_up. pose proof (Z.mod_pos_bound (length + (PAGE_SIZE_4K - 1)) PAGE_SIZE_4K ltac:(done)).
  split; [plia|]. split; [apply page_of_aligned|plia].
Qed.
Lemma len_aligned_eq length : 0 < length → length + (PAGE_SIZE_4K - 1) < 2 ^ 64 →
  Z.land (length + (PAGE_SIZE_4K - 1)) (unot (PAGE_SIZE_4K - 1)) = page_up length.
Proof. intros Hl Hf. unfold page_up. change (PAGE_SIZE_4K - 1) with (2 ^ 12 - 1). rewrite unot_land; [done|unfold in_usize; plia|done]. Qed.

Lemma mmap_target_spec p addr len flags :
  uspace_ok (pr_space p) → in_usize addr → in_usize len → (contains flags MAP_FIXED = true → addr + len < 2 ^ 64) →
  ∃ r, mmap_target addr len flags p = Ret (r, p) ∧
    ∀ a, r = Ok a → in_usize a ∧ a + len < 2 ^ 64 ∧ (contains flags MAP_FIXED = true → a = addr).
Proof.
  intros Hu Ha Hl Hfix. destruct (uo_range _ Hu) as (Hb0 & Hb1 & Hb2 & _). unfold mmap_target. set (s := pr_space p) in *. unfold in_usize in *.
  assert (aspace_size (sp_as s) = end_ (sp_as s) - base (sp_as s)) as Hsz by (unfold aspace_size; by rewrite range_size_law).
  rewrite from_start_size_law by (unfold in_usize; lia). rewrite (proj2 (Z.ltb_lt _ _)) by lia. destruct (contains flags MAP_FIXED) eqn:Hf.
  - destruct (addr =? 0); [by eexists|]. destruct (negb _); [by eexists|]. unfold contains_range. rewrite from_start_size_law by (unfold in_usize; lia).
    rewrite (proj2 (Z.ltb_lt _ _)) by auto. destruct (contains_range_op _ _); [|by eexists]. eexists. split; [done|]. intros a [= <-]. auto.
  - eexists. split; [done|]. intros a Hr.
    assert (∀ h, find_free_area (sp_as s) h len {| ar_start := base (sp_as s); ar_end := base (sp_as s) + aspace_size (sp_as s) |} = Some a →
      0 ≤ a ∧ a + len < 2 ^ 64) as Hfree.
    { intros h Hff. apply ms_free_law in Hff as (_ & Hge & Hle & _). cbn in Hge, Hle. lia. }
    destruct (find_free_area _ _ _ _) as [a1|] eqn:Hf1 in Hr.
    + injection Hr as ->. apply Hfree in Hf1. split; [lia|]. split; [lia|done].
    + destruct ((if addr =? 0 then _ else _) =? _); [done|]. destruct (find_free_area _ _ _ _) as [a2|] eqn:Hf2 in Hr; [|done]. injection Hr as ->. apply Hfree in Hf2. split; [lia|]. split; [lia|done].
Qed.

(** The bytes read are stored at the target. *)
Lemma store_read_spec p target data pad :
  uspace_ok (pr_space p) → in_usize target → in_usize (Z.of_nat (length data)) → in_space (pr_space p) target (Z.of_nat (length data)) = true →
  ∃ r p', store_read target (Z.of_nat (length data), data ++ pad) p = Ret (r, p') ∧ uspace_ok (pr_space p') ∧ sp_as (pr_space p') = sp_as (pr_space p) ∧
    sp_alloc (pr_space p') = sp_alloc (pr_space p) ∧ pr_files p' = pr_files p ∧
    (r = Ok tt → data ≠ [] → read target (replicate (length data) 0) (pr_space p') = Ret (Ok tt, data)).
Proof.
  intros Hu Ht Hiu Hin. unfold store_read. cbn [fst snd]. destruct (Z.ltb_spec 0 (Z.of_nat (length data))) as [Hpos|Hz].
  2: { eexists _, p. split; [done|]. split_and!; [done..|]. intros _ Hne. destruct data; [done|cbn in Hz; lia]. }
  rewrite (proj2 (Z.leb_le _ _)) by (rewrite length_app; lia). rewrite Nat2Z.id, take_app_length. unfold on_space.
  destruct (write_spec (pr_space p) target data Hu Ht Hiu Hin) as (r & s' & Hw & Has & Hal & Hout & Hr). rewrite Hw. eexists _, _. split; [done|]. cbn [pr_space set_space pr_files].
  assert (uspace_ok s') as Hu' by (by eapply uspace_ok_mem). split_and!; [done..|]. intros Hr0 _. destruct r as [[]|e]; [|done]. destruct Hr as [Hm Hb].
  destruct (read_spec s' target (replicate (length data) 0) Hu' Ht) as (r & b & -> & Hlb & Hrb); [by rewrite length_replicate|by rewrite length_replicate; unfold in_space in *; rewrite Has|].
  rewrite length_replicate in *. destruct r as [[]|e]; [|destruct Hrb as [_ Hn']; exfalso; apply Hn'; unfold mapped_range in *; by rewrite Has].
  do 2 f_equal. apply list_eq_same_length with (n := length data); [done|done|]. intros i x y Hi Hx Hy. destruct Hrb as [_ Hrb].
  rewrite Hrb in Hx by lia. injection Hx as <-. rewrite Has, Hb by done. by rewrite Hy.
Qed.

(** What a file mapping at [target] has done: the bytes read at [offset] are the bytes at the target,
    and the position of the file has been put back. *)
Definition file_mapped p p' (fd length offset target : Z) : Prop :=
  ∃ saved f0 r1 f1 data f2 r2, api_lseek fd 0 SEEK_CUR (pr_files p) = Ret (saved, f0) ∧ api_lseek fd offset SEEK_SET f0 = Ret (r1, f1) ∧
    api_read fd length f1 = Ret (Z.of_nat (List.length data), data, f2) ∧ api_lseek fd saved SEEK_SET f2 = Ret (r2, pr_files p') ∧
    (data ≠ [] → read target (replicate (List.length data) 0) (pr_space p') = Ret (Ok tt, data)).
(** The file part of [mmap]: only bytes of the range change. *)
Lemma mmap_file_spec p fd length offset target :
  uspace_ok (pr_space p) → in_usize target → 0 < length < 2 ^ 64 → heap_room length = true → in_space (pr_space p) target length = true →
  ∃ r p', mmap_file (linux_try_from := linux_try_from) fd length offset target p = Ret (r, p') ∧ uspace_ok (pr_space p') ∧ sp_as (pr_space p') = sp_as (pr_space p) ∧
    (r = Ok tt → file_mapped p p' fd length offset target).
Proof.
  intros Hu Ht Hl Hroom Hin. unfold file_mapped, mmap_file, sm_bind at 1, lseek at 1. destruct (api_lseek_returns fd 0 SEEK_CUR (pr_files p)) as [[saved f0] Hs0]. rewrite Hs0.
  unfold syscall_ret_to_isize at 1. destruct (Z.ltb_spec saved 0); [eexists _, _; by split_and!|].
  unfold sm_bind at 1, lseek at 1. cbn [pr_files set_files]. destruct (api_lseek_returns fd offset SEEK_SET f0) as [[r1 f1] Hs1]. rewrite Hs1.
  unfold syscall_ret_to_isize at 1. destruct (Z.ltb_spec r1 0); [eexists _, _; by split_and!|].
  unfold sm_bind at 1, read_file. rewrite Hroom. cbn [pr_files set_files negb]. destruct (api_read_returns fd length f1) as [[[n data] f2] Hrd]. rewrite Hrd.
  unfold syscall_ret_to_isize at 1. destruct (Z.ltb_spec n 0); [eexists _, _; by split_and!|]. cbn [map_ok].
  destruct (api_read_law fd length _ _ _ _ ltac:(lia) Hrd) as [-> Hn]; [done|]. cbn [fst snd]. set (q := set_files f2 _).
  assert (in_space (pr_space q) target (Z.of_nat (List.length data)) = true) as Hin'.
  { subst q. unfold in_space in *. cbn [pr_space set_files]. apply andb_true_iff in Hin as [?%Z.leb_le ?%Z.leb_le]. apply andb_true_iff. rewrite !Z.leb_le. lia. }
  destruct (store_read_spec q target data (replicate (Z.to_nat length - List.length data) 0)) as (r & q' & Hst & Huq & Hasq & _ & Hfq & Hdq);
    [done|done|unfold in_usize; lia|done|]. unfold sm_bind at 1. rewrite Hst. clear Hst.
  destruct r as [[]|e]; [|eexists _, q'; by split_and!]. unfold sm_bind, lseek. rewrite Hfq. change (pr_files q) with f2.
  destruct (api_lseek_returns fd saved SEEK_SET f2) as [[r2 f3] Hs3]. rewrite Hs3. unfold syscall_ret_to_isize. destruct (Z.ltb_spec r2 0).
  - eexists _, _. split; [done|]. by split_and!.
  - eexists _, _. split; [done|]. split_and!; [done..|]. intros _. exists saved, f0, r1, f1, data, f2, r2. split_and!; [done..|]. by apply Hdq.
Qed.

Lemma contains_lor a b m : contains a m = true → contains (Z.lor a b) m = true.
Proof. unfold contains. rewrite !Z.eqb_eq, Z.land_lor_distr_l. intros ->. rewrite Z.land_comm. apply Z.bits_inj'. intros n Hn. rewrite Z.lor_spec, Z.land_spec. by destruct (Z.testbit m n), (Z.testbit b n). Qed.
Lemma prot_user prot : contains (mapping_flags_of_prot prot) mf_USER = true.
Proof.
  assert (contains mf_USER mf_USER = true) as Hu by (unfold contains; by rewrite Z.land_diag, Z.eqb_refl). unfold mapping_flags_of_prot.
  repeat case_match; repeat apply contains_lor; done.
Qed.

(** The body of [mmap], once the arguments have passed the checks. *)
Definition mmap_run (addr length prot flags fd offset : Z) : SM (process B P PT MS St) LinuxError.t Z :=
  let! target := mmap_target addr (page_up length) flags in
  do! on_space (map_alloc target (page_up length) (mapping_flags_of_prot prot) (negb (contains flags MAP_NORESERVE))) in
  do! (if contains flags MAP_ANONYMOUS then sm_ret tt else mmap_file (linux_try_from := linux_try_from) fd length offset target) in
  sm_ret target.
Lemma mmap_body_cases p addr length prot flags fd offset :
  in_usize length →
  ∃ res, mmap_body (linux_try_from := linux_try_from) addr length prot flags fd offset p = res ∧
    ((∃ e, res = Ret (Err e, p)) ∨ 0 < length ∧ length + (PAGE_SIZE_4K - 1) < 2 ^ 64 ∧ res = mmap_run addr length prot flags fd offset p).
Proof.
  intros Hl. eexists. split; [done|]. remember (mmap_body _ _ _ _ _ _ p) as res eqn:Hres. unfold mmap_body in Hres. unfold in_usize in Hl.
  destruct (Z.eqb_spec length 0); [left; eexists; rewrite Hres; reflexivity|]. destruct (offset <? 0); [left; eexists; rewrite Hres; reflexivity|]. unfold sm_bind at 1, sm_lift at 1, from_bits at 1 in Hres.
  destruct (Z.ldiff prot _ =? 0); [|left; eexists; rewrite Hres; reflexivity]. cbn [ok_or] in Hres. unfold sm_bind at 1, sm_lift at 1, from_bits at 1 in Hres.
  destruct (Z.ldiff flags _ =? 0); [|left; eexists; rewrite Hres; reflexivity]. cbn [ok_or] in Hres. destruct (negb _ && _); [left; eexists; rewrite Hres; reflexivity|].
  unfold sm_bind at 1, sm_lift at 1, checked_add in Hres. destruct (Z.ltb_spec (length + (PAGE_SIZE_4K - 1)) (2 ^ 64)); [|left; eexists; rewrite Hres; reflexivity]. cbn [ok_or] in Hres.
  rewrite len_aligned_eq in Hres by lia. destruct (page_up length =? 0); [left; eexists; rewrite Hres; reflexivity|]. destruct (negb (offset mod _ =? 0)); [left; eexists; rewrite Hres; reflexivity|].
  rewrite prot_user in Hres. right. split; [lia|]. by split.
Qed.


(** The checks on the arguments of [mmap]. *)
Definition mmap_args_ok (length prot flags fd offset : Z) : Prop :=
  0 < length ∧ length + (PAGE_SIZE_4K - 1) < 2 ^ 64 ∧ 0 ≤ offset ∧ offset mod PAGE_SIZE_4K = 0 ∧
  from_bits MmapProt_all prot = Some prot ∧ from_bits MmapFlags_all flags = Some flags ∧ (contains flags MAP_ANONYMOUS = true ∨ 0 ≤ fd).
Lemma mmap_body_run p addr length prot flags fd offset : mmap_args_ok length prot flags fd offset →
  mmap_body (linux_try_from := linux_try_from) addr length prot flags fd offset p = mmap_run addr length prot flags fd offset p.
Proof.
  intros (Hl & Hl1 & Ho & Hoa & Hp & Hf & Hfd). unfold mmap_body. rewrite Hp, Hf. rewrite (proj2 (Z.eqb_neq length 0)), (proj2 (Z.ltb_ge offset 0)) by lia.
  unfold sm_bind at 1, sm_lift at 1. cbn [ok_or]. unfold sm_bind at 1, sm_lift at 1. cbn [ok_or].
  assert (negb (contains flags MAP_ANONYMOUS) && (fd <? 0) = false) as -> by (destruct Hfd as [->|?]; [done|]; rewrite (proj2 (Z.ltb_ge fd 0)) by lia; apply andb_false_r).
  unfold sm_bind at 1, sm_lift at 1, checked_add. rewrite (proj2 (Z.ltb_lt _ _)) by done. cbn [ok_or]. rewrite len_aligned_eq by lia.
  pose proof (page_up_spec length Hl). rewrite (proj2 (Z.eqb_neq _ 0)) by lia. rewrite Hoa, prot_user. done.
Qed.

(** a user program stops the kernel with one [mmap]: a fixed page-aligned address whose range runs past
    the end of the address space of the machine panics in [VirtAddrRange::from_start_size], instead of failing with [EINVAL]. *)
Theorem mmap_fixed_wrap_panics p tf :
  uspace_ok (pr_space p) → in_usize (arg0 tf) → arg0 tf ≠ 0 → aligned (arg0 tf) →
  mmap_args_ok (arg1 tf) (as_i32 (arg2 tf)) (as_i32 (arg3 tf)) (as_i32 (arg4 tf)) (to_signed 64 (arg5 tf)) →
  contains (as_i32 (arg3 tf)) MAP_FIXED = true → 2 ^ 64 ≤ arg0 tf + page_up (arg1 tf) →
  handle_syscall (linux_try_from := linux_try_from) tf SYS_MMAP p = Panic.
Proof.
  intros Hu Ha Hn Hal Hargs Hfix Hov. destruct (uo_range _ Hu) as (Hb0 & Hb1 & Hb2 & _). unfold handle_syscall. cbn.
  destruct Hargs as (Hl & Hl1 & Hrest) eqn:Heq. pose proof (page_up_spec _ Hl) as (Hup & _ & _).
  assert (in_usize (page_up (arg1 tf))) as Hiu.
  { unfold in_usize. split; [lia|]. unfold page_up. pose proof (Z.mod_pos_bound (arg1 tf + (PAGE_SIZE_4K - 1)) PAGE_SIZE_4K ltac:(done)). lia. }
  unfold sys_mmap. rewrite mmap_body_run by done. unfold mmap_run, sm_bind at 1, mmap_target. rewrite Hfix.
  assert (aspace_size (sp_as (pr_space p)) = end_ (sp_as (pr_space p)) - base (sp_as (pr_space p))) as Hsz by (unfold aspace_size; by rewrite range_size_law).
  rewrite from_start_size_law by (unfold in_usize; lia). rewrite (proj2 (Z.ltb_lt _ _)) by lia. rewrite (proj2 (Z.eqb_neq _ 0)) by done.
  unfold aligned in Hal. rewrite Hal. cbn [negb Z.eqb]. unfold contains_range. rewrite from_start_size_law by done. by rewrite (proj2 (Z.ltb_ge _ _)).
Qed.

(** an [mmap] of a file that fails after the range has been mapped (here: the descriptor cannot be sought) returns
    an error number and leaves the range mapped: the new area stays in the address space although the caller never learns where. *)
Theorem mmap_failed_file_stays_mapped p addr length prot flags fd offset target s' r f :
  mmap_args_ok length prot flags fd offset → contains flags MAP_ANONYMOUS = false →
  mmap_target addr (page_up length) flags p = Ret (Ok target, p) →
  uspace_ok (pr_space p) → in_usize target → target + page_up length < 2 ^ 64 →
  map_alloc target (page_up length) (mapping_flags_of_prot prot) (negb (contains flags MAP_NORESERVE)) (pr_space p) = Ret (Ok tt, s') →
  api_lseek fd 0 SEEK_CUR (pr_files p) = Ret (r, f) → r < 0 →
  ∃ e p', sys_mmap (linux_try_from := linux_try_from) addr length prot flags fd offset p = Ret (- errno e, p') ∧ pr_space p' = s' ∧
    area_list (pr_space p') ≡ₚ {| area_start := target; area_size := page_up length; area_flags := mapping_flags_of_prot prot;
                                  area_backend := Alloc (negb (contains flags MAP_NORESERVE)) |} :: area_list (pr_space p).
Proof.
  intros Hargs Han Ht Hu Hti Htl Hma Hs Hr. unfold sys_mmap. rewrite mmap_body_run by done. unfold mmap_run, sm_bind at 1. rewrite Ht. unfold sm_bind at 1, on_space at 1.
  rewrite Hma, Han. cbn [map_err]. unfold mmap_file, sm_bind at 1, sm_bind at 1, lseek at 1. cbn [pr_files set_space]. rewrite Hs. unfold syscall_ret_to_isize at 1.
  rewrite (proj2 (Z.ltb_lt _ _)) by done. eexists _, _. split; [done|]. split; [done|]. cbn [pr_space set_space set_files].
  assert (in_usize (page_up length)) as Hiu by (destruct Hargs as (Hl & _); pose proof (page_up_spec _ Hl); unfold in_usize in *; lia).
  destruct (map_alloc_spec (pr_space p) target (page_up length) (mapping_flags_of_prot prot) (negb (contains flags MAP_NORESERVE)) Hu Hti Hiu Htl) as (ra & s2 & Hma' & _ & _ & _ & Hok & _).
  rewrite Hma in Hma'. injection Hma' as <- <-. by apply Hok.
Qed.
End properties.
