(* ===== verification/PosixFs.v ===== *)
(** Files as file descriptors ([arceos_posix_api/src/imp/fs.rs] and [utils.rs]): the
    system calls on files, on top of [Fops] and [FdTable].

    A [File] of the POSIX layer is shared by its descriptors ([Arc<File>], with a
    [Mutex] inside), so the open files are in a table of the state, by number, with
    their reference counts.  Other kinds of files (standard streams, pipes, sockets)
    are a type with an instance of [FileLike]. *)

From stdpp Require Import prelude gmap strings list.
From Stdlib Require Import ZArith Lia.
From S2P Require Import Prelude Ramfs Vfs Root FdTable Fops.
Local Open Scope Z_scope.
Local Open Scope kernel_scope.

(** The number of a [VfsNodeType] ([file_type() as u8]). *)
Class VfsTypeCode : Type := { type_code : VfsNodeType → Z }.

(** ** Arguments *)

(** A C string: its text, or bytes that are not UTF-8; the pointer may be null. *)
Inductive cstr : Type :=
| Utf8 (s : string)
| NotUtf8.
Definition char_ptr_to_str (ptr : option cstr) : result string LinuxError.t :=
  match ptr with
  | None => Err LinuxError.EFAULT
  | Some (Utf8 s) => Ok s
  | Some NotUtf8 => Err LinuxError.EINVAL
  end.

(** [ctypes], from the C headers. *)
Definition O_RDONLY : Z := 0.
Definition O_WRONLY : Z := 1.
Definition O_CREAT : Z := 64.
Definition O_EXCL : Z := 128.
Definition O_TRUNC : Z := 512.
Definition O_APPEND : Z := 1024.
Definition O_EXEC : Z := 2097152.

Definition flags_to_options (flags : Z) : OpenOptions :=
  let flags := flags mod 2 ^ 32 in
  let options := OpenOptions_new in
  let options :=
    if Z.land flags 3 =? O_RDONLY then set_read true options
    else if Z.land flags 3 =? O_WRONLY then set_write true options
    else set_write true (set_read true options) in
  let options := if negb (Z.land flags O_APPEND =? 0) then set_append true options else options in
  let options := if negb (Z.land flags O_TRUNC =? 0) then set_truncate true options else options in
  let options := if negb (Z.land flags O_CREAT =? 0) then set_create true options else options in
  if negb (Z.land flags O_EXEC =? 0) then set_create_new true options else options.

Section posix_fs.
Context {N F St : Type} {perms : VfsNodePerm} {nops : VfsNodeOps N St} {vops : VfsOps F N St} {pops : PathOps}
  {caps : CapAccess} {errnos : AxErrno} {tcode : VfsTypeCode}.
Context {O WO : Type} {other : FileLike O WO}.

(** A file behind a descriptor. *)
Inductive FileObj : Type :=
| ObjFile (id : nat)
| ObjOther (o : O).

(** The kernel: the filesystem, the open files with their reference counts, and what
    the other kinds of files need. *)
Record kernel : Type := {
  k_axfs : axfs N F St;
  k_files : gmap nat (File (N:=N) * nat);
  k_next : nat;
  k_other : WO;
}.
Abbreviation K := (SM kernel LinuxError.t).

Definition set_axfs (s : axfs N F St) (k : kernel) : kernel :=
  {| k_axfs := s; k_files := k_files k; k_next := k_next k; k_other := k_other k |}.
Definition set_files (m : gmap nat (File (N:=N) * nat)) (k : kernel) : kernel :=
  {| k_axfs := k_axfs k; k_files := m; k_next := k_next k; k_other := k_other k |}.
Definition set_other (w : WO) (k : kernel) : kernel :=
  {| k_axfs := k_axfs k; k_files := k_files k; k_next := k_next k; k_other := w |}.

(** [?] on a result of [axfs] in a function that returns [LinuxResult]. *)
Definition on_axfs {A} (m : SM (axfs N F St) AxError.t A) : K A := λ k,
  match m (k_axfs k) with
  | Ret (r, s) => Ret (map_err linux_of_ax r, set_axfs s k)
  | Panic => Panic
  end.

(** [self.inner.lock()], for a method that moves the cursor. *)
Definition with_file {A} (id : nat) (m : File (N:=N) → SM (axfs N F St) AxError.t (A * File (N:=N))) : K A := λ k,
  match k_files k !! id with
  | None => Panic
  | Some (f, n) =>
      match m f (k_axfs k) with
      | Ret (Ok (a, f), s) => Ret (Ok a, set_files (<[id := (f, n)]> (k_files k)) (set_axfs s k))
      | Ret (Err e, s) => Ret (Err (linux_of_ax e), set_axfs s k)
      | Panic => Panic
      end
  end.

(** *** [FileLike for File] *)

Definition file_stat_of (metadata : FileAttr) : stat :=
  {| st_ino := 1; st_nlink := 1;
     st_mode := Z.lor (Z.shiftl (type_code (fa_type metadata)) 12) (perm_bits (fa_perm metadata));
     st_uid := 1000; st_gid := 1000; st_size := fa_size metadata; st_blocks := fa_blocks metadata; st_blksize := 512 |}.

Definition obj_read (o : FileObj) (buf_len : Z) : K (list Z) :=
  match o with
  | ObjFile id => with_file id (λ f, file_read f buf_len)
  | ObjOther o => λ k, match fl_read o buf_len (k_other k) with
                       | Ret (r, w) => Ret (r, set_other w k) | Panic => Panic end
  end.
Definition obj_write (o : FileObj) (buf : list Z) : K Z :=
  match o with
  | ObjFile id => with_file id (λ f, file_write f buf)
  | ObjOther o => λ k, match fl_write o buf (k_other k) with
                       | Ret (r, w) => Ret (r, set_other w k) | Panic => Panic end
  end.
Definition obj_stat (o : FileObj) : K stat :=
  match o with
  | ObjFile id => let! metadata := with_file id (λ f, let! a := file_get_attr f in sm_ret (a, f)) in
                  sm_ret (file_stat_of metadata)
  | ObjOther o => λ k, match fl_stat o (k_other k) with
                       | Ret (r, w) => Ret (r, set_other w k) | Panic => Panic end
  end.
Definition obj_poll (o : FileObj) : K PollState :=
  match o with
  | ObjFile _ => sm_ret {| poll_readable := true; poll_writable := true |}
  | ObjOther o => λ k, match fl_poll o (k_other k) with
                       | Ret (r, w) => Ret (r, set_other w k) | Panic => Panic end
  end.
Definition obj_set_nonblocking (o : FileObj) (b : bool) : K unit :=
  match o with
  | ObjFile _ => sm_ret tt
  | ObjOther o => λ k, match fl_set_nonblocking o b (k_other k) with
                       | Ret (r, w) => Ret (r, set_other w k) | Panic => Panic end
  end.

(** [Arc<File>]: the file is dropped with its last reference. *)
Definition obj_clone (o : FileObj) (k : kernel) : kernel :=
  match o with
  | ObjFile id => match k_files k !! id with
                  | Some (f, n) => set_files (<[id := (f, S n)]> (k_files k)) k
                  | None => k
                  end
  | ObjOther o => set_other (fl_clone o (k_other k)) k
  end.
Definition obj_drop (o : FileObj) (k : kernel) : kernel :=
  match o with
  | ObjFile id => match k_files k !! id with
                  | Some (f, S (S n)) => set_files (<[id := (f, S n)]> (k_files k)) k
                  | Some (f, _) => set_axfs (drop_file f (k_axfs k)) (set_files (delete id (k_files k)) k)
                  | None => k
                  end
  | ObjOther o => set_other (fl_drop o (k_other k)) k
  end.

#[export] Instance file_obj_like : FileLike FileObj kernel := {|
  fl_read := obj_read;
  fl_write := obj_write;
  fl_stat := obj_stat;
  fl_poll := obj_poll;
  fl_set_nonblocking := obj_set_nonblocking;
  fl_clone := obj_clone;
  fl_drop := obj_drop;
|}.

Context {table : FlattenObjects FileObj}.
Abbreviation P := (SM (posix FileObj kernel) LinuxError.t).

(** [File::new] in an [Arc]: a new open file with one reference. *)
Definition file_new_arc (inner : File (N:=N)) : P FileObj := λ p,
  let k := px_world p in
  Ret (Ok (ObjFile (k_next k)),
       set_world {| k_axfs := k_axfs k; k_files := <[k_next k := (inner, 1%nat)]> (k_files k);
                    k_next := S (k_next k); k_other := k_other k |} p).
Definition add_to_fd_table (inner : File (N:=N)) : P Z :=
  let! f := file_new_arc inner in add_file_like f.

(** [File::from_fd]: the downcast fails for the other kinds of files. *)
Definition from_fd (fd : Z) : P nat :=
  let! f := get_file_like fd in
  match f with
  | ObjFile id => sm_ret id
  | ObjOther _ => sm_err LinuxError.EINVAL
  end.

(** ** System calls *)

Definition sys_open (filename : option cstr) (flags mode : Z) : posix FileObj kernel → outcome (Z * posix FileObj kernel) :=
  syscall_body (
    let options := flags_to_options flags in
    let! filename := sm_lift (char_ptr_to_str filename) in
    let! file := on_world (on_axfs (open filename options)) in
    add_to_fd_table file).

Definition sys_lseek (fd offset whence : Z) : posix FileObj kernel → outcome (Z * posix FileObj kernel) :=
  syscall_body (
    let! pos := sm_lift (
      if whence =? 0 then Ok (SeekStart (offset mod 2 ^ 64))
      else if whence =? 1 then Ok (SeekCurrent offset)
      else if whence =? 2 then Ok (SeekEnd offset)
      else Err LinuxError.EINVAL) in
    let! id := from_fd fd in
    let! off := on_world (with_file id (λ f, file_seek f pos)) in
    sm_ret (to_signed 64 off)).

(** [buf] is [None] for a null pointer; the [stat] written is returned beside the
    value. *)
Definition with_stat (buf : option unit) (m : P stat) : posix FileObj kernel → outcome (Z * option stat * posix FileObj kernel) := λ p,
  match buf with
  | None => Ret (- errno LinuxError.EFAULT, None, p)
  | Some _ =>
      match m p with
      | Ret (Ok st, p) => Ret (0, Some st, p)
      | Ret (Err e, p) => Ret (- errno e, None, p)
      | Panic => Panic
      end
  end.

(** The file is a temporary: it is dropped whether [stat] succeeds or not. *)
Definition sys_stat (path : option cstr) (buf : option unit) :
    posix FileObj kernel → outcome (Z * option stat * posix FileObj kernel) :=
  with_stat buf (
    let! path := sm_lift (char_ptr_to_str path) in
    let! file := on_world (on_axfs (open path (set_read true OpenOptions_new))) in
    sm_catch (on_world (on_axfs (file_get_attr file))) (λ r,
      do! sm_modify (λ p, set_world (set_axfs (drop_file file (k_axfs (px_world p))) (px_world p)) p) in
      sm_lift (map_ok file_stat_of r))).

Definition sys_fstat (fd : Z) (buf : option unit) :
    posix FileObj kernel → outcome (Z * option stat * posix FileObj kernel) :=
  with_stat buf (let! f := get_file_like fd in on_world (fl_stat f)).

Definition sys_lstat (path : option cstr) (buf : option unit) :
    posix FileObj kernel → outcome (Z * option stat * posix FileObj kernel) :=
  with_stat buf (sm_ret stat_default).

(** The pointer returned and the bytes written to [buf]. *)
Fixpoint str_bytes (s : string) : list Z :=
  match s with EmptyString => [] | String c s => Z.of_nat (Ascii.nat_of_ascii c) :: str_bytes s end.
Definition sys_getcwd (buf size : Z) (p : posix FileObj kernel) : Z * list Z :=
  if buf =? 0 then (0, [])
  else
    let cwd := str_bytes (current_dir (k_axfs (px_world p))) in
    if Z.of_nat (length cwd) <? size then (buf, cwd ++ [0])
    else ((- errno LinuxError.ERANGE) mod 2 ^ 64, []).

Definition sys_rename (old new : option cstr) : posix FileObj kernel → outcome (Z * posix FileObj kernel) :=
  syscall_body (
    let! old_path := sm_lift (char_ptr_to_str old) in
    let! new_path := sm_lift (char_ptr_to_str new) in
    do! on_world (on_axfs (rename old_path new_path)) in
    sm_ret 0).

End posix_fs.

Arguments FileObj : clear implicits.
Arguments kernel N F St {caps} WO.
