(* ===== verification/PosixProps.v ===== *)
(** The system calls on files over RAM filesystems: descriptors, open files, the
    filesystem and its nodes together.

    [kernel_ok] is the invariant of the whole stack: every descriptor's file exists,
    an open file has as many references as descriptors, and the nodes of the open
    files are held in the store. *)

From stdpp Require Import prelude gmap strings list.
From Stdlib Require Import ZArith Lia.
From S2P Require Import Prelude Ramfs RamfsProps Vfs Root RootProps RamfsVfs AxfsRamfs Fops FopsProps FdTable PosixFs.
Local Open Scope Z_scope.
Local Open Scope kernel_scope.

(** ** Opening and closing a file *)

Section handles.
Context {defaults : VfsDefaults} {tdefaults : VfsTraitDefaults} {perms : VfsNodePerm} {pops : PathOps}
  {caps : CapAccess} {claws : CapLaws}.
Abbreviation state := (axfs nat nat ramfs_world).
Implicit Types (s : state) (f : File (N:=nat)).

Lemma axfs_ok_perm hs hs' s : Permutation hs hs' → axfs_ok hs s → axfs_ok hs' s.
Proof.
  intros Hp [Hr Hw Hm Hms]. split; [done| |done|done]. eapply world_ok_perm; [|exact Hw]. by apply Permutation_app_head.
Qed.

Lemma pin_axfs_ok hs n s :
  axfs_ok hs s → live n s → axfs_ok (n :: hs) (set_fs_state (vn_clone n (fs_state s)) s).
Proof.
  intros [Hr Hw Hm Hms] Hn. split; [done| |done|done]. cbn [fs_state set_fs_state]. change (cwd_refs (set_fs_state _ s)) with (cwd_refs s).
  eapply world_ok_perm; [|by apply pin_ok]. apply Permutation_middle.
Qed.
Lemma drop_axfs_ok hs f s : axfs_ok (wc_inner (f_node f) :: hs) s → axfs_ok hs (drop_file f s).
Proof.
  intros [Hr Hw Hm Hms]. split; [done| |done|done]. unfold drop_file, drop_node. cbn [fs_state set_fs_state vn_drop vn_release ramfs_node_ops].
  change (cwd_refs (set_fs_state _ s)) with (cwd_refs s). apply unpin_ok. eapply world_ok_perm; [|exact Hw].
  symmetry. apply Permutation_middle.
Qed.

Lemma triple_open_node hs path opts : triple hs (λ _, True) (open_node (F:=nat) None path opts) (λ n s, live n s).
Proof.
  unfold open_node. destruct (_ || _); [|by apply triple_api_lookup].
  eapply triple_catch; [by apply triple_api_lookup|]. intros [n|[]]; try apply triple_err.
  - destruct (oo_create_new opts); [apply triple_err|]. intros s Hs Hn. by exists (Ok n), s.
  - eapply triple_weaken; [by apply triple_create_file|done|done].
Qed.

Lemma truncate_step n size st : is_Some (nodes st !! n) → ramfs_wf st →
  ∃ r st', truncate n size st = Ret (r, st') ∧ store_step st st'.
Proof.
  intros [[c|p ch] Hn] Hwf; unfold truncate; rewrite Hn; eexists _, _; (split; [done|]).
  - by eapply set_file_step.
  - by apply store_step_refl.
Qed.

Lemma triple_truncate hs n size : triple hs (live n) (on_fs (F:=nat) (vn_truncate n size)) (λ _ _, True).
Proof. apply triple_on_store. intros s Hs Hn. apply truncate_step; [done|]. by eapply ok_wf. Qed.

(** Opening leaves the invariant, with the node of the handle held. *)
Lemma open_ok hs path opts s :
  axfs_ok hs s → ∃ r s', open (F:=nat) path opts s = Ret (r, s') ∧
    match r with Ok f => axfs_ok (wc_inner (f_node f) :: hs) s' | Err _ => axfs_ok hs s' end.
Proof.
  intros Hs. unfold open, open_at. destruct (negb (is_valid opts)); [by eexists _, _|].
  destruct (triple_open_node hs path opts s Hs I) as (r1 & s1 & H1 & Hs1 & Hl). unfold sm_bind at 1. rewrite H1.
  destruct r1 as [n|e]; [|by eexists _, _]. destruct (triple_get_attr hs n s1 Hs1 Hl) as (r2 & s2 & H2 & Hs2 & Hl2).
  unfold sm_bind at 1. rewrite H2. destruct r2 as [a|e]; [|by eexists _, _]. destruct (is_dir a && _); [by eexists _, _|].
  cbv zeta. destruct (negb _); [by eexists _, _|].
  assert (on_fs (F:=nat) (vn_open n) s2 = Ret (default_open, s2)) as Hopen by (by destruct s2).
  unfold sm_bind at 1. rewrite Hopen. destruct default_open as [[]|e]; [|by eexists _, _].
  assert (∃ r s3, (if oo_truncate opts then on_fs (F:=nat) (vn_truncate n 0) else sm_ret tt) s2 = Ret (r, s3) ∧ axfs_ok hs s3 ∧ live n s3)
    as (r3 & s3 & H3 & Hs3 & Hl3).
  { destruct (oo_truncate opts); [|by eexists _, _].
    destruct (triple_truncate hs n 0 s2 Hs2 Hl2) as (r & s3 & H3 & Hs3 & _). exists r, s3. split_and!; [done..|].
    unfold on_fs in H3. cbn in H3. unfold on_store, truncate in H3. destruct Hl2 as [[c|p ch] Hn]; rewrite Hn in H3; simplify_eq.
    - unfold live. cbn. rewrite lookup_insert_eq. by eexists.
    - unfold live. cbn. rewrite Hn. by eexists. }
  unfold sm_bind at 1. rewrite H3. destruct r3 as [[]|e]; [|by eexists _, _].
  eexists _, _. split; [done|]. cbn [f_node wc_inner]. by apply pin_axfs_ok.
Qed.

(** Using a handle whose node is held. *)
Lemma file_read_ok hs f len s :
  axfs_ok hs s → live (wc_inner (f_node f)) s → 0 ≤ f_offset f → 0 ≤ len → f_offset f + len < 2 ^ 64 →
  ∃ r, file_read (F:=nat) f len s = Ret (r, s) ∧
    match r with Ok (_, f') => f_node f' = f_node f ∧ in_usize (f_offset f') | Err _ => True end.
Proof.
  intros Hs [node Hn] H0 Hl Hlt. unfold file_read. destruct (cap_contains (wc_cap (f_node f)) cap_READ) eqn:Hc.
  2: { rewrite denied_bind by done. by eexists. }
  unfold sm_bind. rewrite access_node_granted by done. cbn [vn_read_at ramfs_node_ops].
  assert (∃ r, read_at (wc_inner (f_node f)) (f_offset f) len (rw_store (fs_state s)) = Ret r) as [r Hr].
  { unfold read_at. rewrite Hn. destruct node as [c|p ch]; [|by eexists]. rewrite file_read_at_eq by lia. by eexists. }
  rewrite (on_fs_ask _ _ _ Hr). destruct r as [data|e]; [|by eexists]. eexists. split; [done|]. split; [done|]. apply wrap_range.
Qed.

Lemma file_seek_ok hs f pos s :
  axfs_ok hs s → live (wc_inner (f_node f)) s → in_usize (f_offset f) →
  match pos with SeekStart p => in_usize p | SeekCurrent _ | SeekEnd _ => True end →
  ∃ r, file_seek (F:=nat) f pos s = Ret (r, s) ∧
    match r with Ok (_, f') => f_node f' = f_node f ∧ in_usize (f_offset f') | Err _ => True end.
Proof.
  intros Hs Hl Ho Hp. destruct (triple_get_attr hs (wc_inner (f_node f)) s Hs Hl) as (r1 & s1 & H1 & _ & _).
  pose proof (quiet_get_attr _ _ _ _ H1) as ->. unfold file_seek, sm_bind at 1.
  assert (file_get_attr (F:=nat) f s = Ret (r1, s)) as ->.
  { unfold file_get_attr, sm_bind. by rewrite access_node_granted by apply cap_contains_empty. }
  destruct r1 as [a|e]; [|by eexists]. cbv zeta. unfold sm_bind, sm_lift. destruct (ok_or _ _) as [o|e] eqn:Hok; [|by eexists].
  eexists. split; [done|]. split; [done|]. cbn.
  assert (∀ x y, checked_add_signed x y = Some o → in_usize o) as Hadd.
  { intros x y. unfold checked_add_signed, in_usize. repeat case_Z1; cbn; intros ?; simplify_eq; lia. }
  destruct pos as [q|off|off]; cbn in Hok.
  - by simplify_eq.
  - destruct (checked_add_signed _ off) as [z|] eqn:Hz; cbn in Hok; simplify_eq. by eapply Hadd.
  - destruct (checked_add_signed _ off) as [z|] eqn:Hz; cbn in Hok; simplify_eq. by eapply Hadd.
Qed.

(** Where a write goes. *)
Definition write_pos f s : Z :=
  match f_is_append f, st_nodes s !! wc_inner (f_node f) with
  | true, Some (FileNode c) => Z.of_nat (length c)
  | true, _ => 4096
  | false, _ => f_offset f
  end.

Lemma file_write_ok hs f buf s :
  axfs_ok hs s → live (wc_inner (f_node f)) s → in_usize (f_offset f) → write_pos f s + Z.of_nat (length buf) < 2 ^ 64 →
  ∃ r s', file_write (F:=nat) f buf s = Ret (r, s') ∧ axfs_ok hs s' ∧
    match r with Ok (_, f') => f_node f' = f_node f ∧ in_usize (f_offset f') | Err _ => True end.
Proof.
  intros Hs [node Hn] Ho Hlt. set (n := wc_inner (f_node f)) in *.
  assert (0 ≤ write_pos f s) as Hpos.
  { unfold write_pos, in_usize in *. destruct (f_is_append f); [|lia]. destruct (st_nodes s !! _) as [[]|]; lia. }
  assert ((if f_is_append f then let! attr := file_get_attr f in sm_ret (fa_size attr) else sm_ret (f_offset f)) s =
          Ret (Ok (write_pos f s), s)) as Hoff.
  { unfold write_pos, st_nodes. fold n. rewrite Hn. destruct (f_is_append f); [|done]. unfold sm_bind, file_get_attr, sm_bind.
    rewrite access_node_granted by apply cap_contains_empty. fold n. cbn [vn_get_attr ramfs_node_ops].
    destruct node as [c|p ch]; erewrite on_fs_ask by (unfold get_attr; by rewrite Hn); done. }
  unfold file_write, sm_bind at 1. rewrite Hoff. destruct (cap_contains (wc_cap (f_node f)) cap_WRITE) eqn:Hc.
  2: { rewrite denied_bind by done. by eexists _, _. }
  unfold sm_bind. rewrite access_node_granted by done. fold n. cbn [vn_write_at ramfs_node_ops].
  assert (∃ r st', write_at n (write_pos f s) buf (rw_store (fs_state s)) = Ret (r, st') ∧ store_step (rw_store (fs_state s)) st')
    as (r & st' & Hw & Hst).
  { unfold write_at. rewrite Hn. pose proof (ok_wf hs s Hs) as Hwf.
    destruct node as [c|p ch]; [|eexists _, _; split; [done|]; by apply store_step_refl].
    rewrite file_write_at_eq by lia. eexists _, _. split; [done|]. by eapply set_file_step. }
  unfold on_fs, on_store. rewrite Hw. pose proof (axfs_ok_step hs s st' Hs Hst) as Hs'.
  destruct r as [len|e]; eexists _, _; (split; [done|]); (split; [done|]); [|done]. split; [done|]. apply wrap_range.
Qed.

End handles.

(** ** Descriptors, open files and nodes *)

Section posix_ramfs.
Context {defaults : VfsDefaults} {tdefaults : VfsTraitDefaults} {perms : VfsNodePerm} {pops : PathOps}
  {caps : CapAccess} {claws : CapLaws} {errnos : AxErrno} {elaws : AxErrnoLaws} {tcode : VfsTypeCode}.
Context {O WO : Type} {oeq : EqDecision O} {other : FileLike O WO}.
Context {table : FlattenObjects (FileObj O)} {tlaws : FlattenLaws AX_FILE_LIMIT}.
(** The references to the other kinds of files. *)
Context (ocount : O → WO → Z).
Context (ocount_clone : ∀ f g w, 0 < ocount f w → ocount g (fl_clone f w) = ocount g w + (if decide (f = g) then 1 else 0)).
Context (ocount_drop : ∀ f g w, 0 < ocount f w → ocount g (fl_drop f w) = ocount g w - (if decide (f = g) then 1 else 0)).
Abbreviation obj := (FileObj O).
Abbreviation kern := (kernel nat nat ramfs_world WO).
Implicit Types (p : posix obj kern) (k : kern).

#[local] Instance obj_eq_dec : EqDecision obj.
Proof. solve_decision. Defined.

Definition obj_count (o : obj) k : Z :=
  match o with
  | ObjFile id => Z.of_nat (default 0%nat (snd <$> k_files k !! id))
  | ObjOther o => ocount o (k_other k)
  end.

Lemma obj_count_clone (f g : obj) k :
  0 < obj_count f k → obj_count g (fl_clone f k) = obj_count g k + (if decide (f = g) then 1 else 0).
Proof.
  intros Hf. destruct f as [id|o]; cbn in *.
  - destruct (k_files k !! id) as [[f n]|] eqn:Hid; cbn in Hf; [|lia]. destruct g as [id'|o']; cbn.
    + destruct (decide (id = id')) as [->|Hne].
      * rewrite lookup_insert_eq, Hid. cbn. rewrite decide_True by done. lia.
      * rewrite lookup_insert_ne by done. rewrite decide_False by congruence. lia.
    + rewrite decide_False by done. lia.
  - destruct g as [id'|o']; cbn; [rewrite decide_False by done; lia|]. rewrite ocount_clone by done.
    destruct (decide (o = o')) as [->|Hne]; [by rewrite decide_True|rewrite decide_False by congruence; done].
Qed.
Lemma obj_count_drop (f g : obj) k :
  0 < obj_count f k → obj_count g (fl_drop f k) = obj_count g k - (if decide (f = g) then 1 else 0).
Proof.
  intros Hf. destruct f as [id|o]; cbn in *.
  - destruct (k_files k !! id) as [[f [|[|n]]]|] eqn:Hid; cbn in Hf; try lia; destruct g as [id'|o']; cbn;
      try (rewrite decide_False by done; lia).
    + destruct (decide (id = id')) as [->|Hne].
      * rewrite lookup_delete_eq, Hid. cbn. rewrite decide_True by done. lia.
      * rewrite lookup_delete_ne by done. rewrite decide_False by congruence. lia.
    + destruct (decide (id = id')) as [->|Hne].
      * rewrite lookup_insert_eq, Hid. cbn. rewrite decide_True by done. lia.
      * rewrite lookup_insert_ne by done. rewrite decide_False by congruence. lia.
  - destruct g as [id'|o']; cbn; [rewrite decide_False by done; lia|]. rewrite ocount_drop by done.
    destruct (decide (o = o')) as [->|Hne]; [by rewrite decide_True|rewrite decide_False by congruence; done].
Qed.

(** The nodes the open files hold. *)
Definition open_nodes k : list nat := (λ x, wc_inner (f_node x.1)) <$> (map_to_list (k_files k)).*2.

Record world_in_order k : Prop := {
  wi_axfs : axfs_ok (open_nodes k) (k_axfs k);
  wi_files id f n : k_files k !! id = Some (f, n) → (0 < n)%nat ∧ (id < k_next k)%nat ∧ in_usize (f_offset f);
}.
Record kernel_ok p : Prop := {
  ko_world : world_in_order (px_world p);
  ko_counted : refs_counted obj_count p;
}.

Definition files_nodes (m : gmap nat (File (N:=nat) * nat)) : list nat :=
  (λ x, wc_inner (f_node x.1)) <$> (map_to_list m).*2.
Lemma files_nodes_delete m id f n :
  m !! id = Some (f, n) → files_nodes m ≡ₚ wc_inner (f_node f) :: files_nodes (delete id m).
Proof. intros Hid. unfold files_nodes. by rewrite <-(map_to_list_delete m id (f, n) Hid). Qed.
Lemma files_nodes_new m id f n :
  m !! id = None → files_nodes (<[id := (f, n)]> m) ≡ₚ wc_inner (f_node f) :: files_nodes m.
Proof. intros Hid. unfold files_nodes. by rewrite (map_to_list_insert m id (f, n) Hid). Qed.
Lemma files_nodes_update m id f n f' n' :
  m !! id = Some (f, n) → f_node f' = f_node f → files_nodes (<[id := (f', n')]> m) ≡ₚ files_nodes m.
Proof.
  intros Hid Hf. rewrite (files_nodes_delete m id f n Hid).
  rewrite (files_nodes_delete (<[id := (f', n')]> m) id f' n') by apply lookup_insert_eq. by rewrite Hf, delete_insert_eq.
Qed.

Lemma file_live p id f n :
  kernel_ok p → k_files (px_world p) !! id = Some (f, n) → live (wc_inner (f_node f)) (k_axfs (px_world p)).
Proof.
  intros Hk Hid. apply (wo_live _ _ (ao_world _ _ (wi_axfs _ (ko_world _ Hk)))). unfold holders. rewrite !elem_of_app. right. right. right.
  unfold open_nodes. fold (files_nodes (k_files (px_world p))). rewrite (files_nodes_delete _ _ _ _ Hid). by left.
Qed.
Lemma fd_file p fd id : kernel_ok p → fd_map p fd = Some (ObjFile id) → ∃ f n, k_files (px_world p) !! id = Some (f, n).
Proof.
  intros Hk Hfd. pose proof (fd_count_pos obj_count p fd _ (ko_counted _ Hk) Hfd) as Hpos. cbn in Hpos.
  destruct (k_files _ !! id) as [[f n]|]; [by exists f, n|cbn in Hpos; lia].
Qed.

(** The parts of the kernel change together. *)
Lemma in_order_axfs k s : world_in_order k → axfs_ok (open_nodes k) s → world_in_order (set_axfs s k).
Proof. intros [_ Hf] Hs. by split. Qed.
Lemma in_order_file k id f n f' n' s :
  world_in_order k → k_files k !! id = Some (f, n) → f_node f' = f_node f → in_usize (f_offset f') → (0 < n')%nat →
  axfs_ok (open_nodes k) s → world_in_order (set_files (<[id := (f', n')]> (k_files k)) (set_axfs s k)).
Proof.
  intros [_ Hf] Hid Hnode Hoff Hn' Hs. split; cbn.
  - eapply axfs_ok_perm; [|exact Hs]. unfold open_nodes. cbn. fold (files_nodes (k_files k)).
    symmetry. by eapply files_nodes_update.
  - intros id' g m. destruct (decide (id' = id)) as [->|].
    + rewrite lookup_insert_eq. intros ?; simplify_eq. destruct (Hf id f n Hid) as (_ & ? & _). done.
    + rewrite lookup_insert_ne by done. apply Hf.
Qed.
Lemma in_order_clone (o : obj) k : world_in_order k → world_in_order (fl_clone o k).
Proof.
  intros Hk. destruct o as [id|o]; cbn; [|by destruct Hk; split]. destruct (k_files k !! id) as [[f n]|] eqn:Hid; [|done].
  replace (set_files (<[id := (f, S n)]> (k_files k)) k) with (set_files (<[id := (f, S n)]> (k_files k)) (set_axfs (k_axfs k) k))
    by by destruct k. eapply in_order_file; [done..| |lia|by destruct Hk]. by destruct (wi_files _ Hk id f n Hid) as (_ & _ & ?).
Qed.
Lemma in_order_drop (o : obj) k : world_in_order k → world_in_order (fl_drop o k).
Proof.
  intros Hk. destruct o as [id|o]; cbn; [|by destruct Hk; split]. destruct (k_files k !! id) as [[f n]|] eqn:Hid; [|done].
  destruct (wi_files _ Hk id f n Hid) as (Hn & _ & Hoff). destruct n as [|[|n]]; [lia| |].
  - split; cbn.
    + apply drop_axfs_ok. eapply axfs_ok_perm; [|apply (wi_axfs _ Hk)]. unfold open_nodes. cbn. by apply (files_nodes_delete _ _ f 1).
    + intros id' g m [_ Hid']%lookup_delete_Some. by apply (wi_files _ Hk).
  - replace (set_files (<[id := (f, S n)]> (k_files k)) k) with (set_files (<[id := (f, S n)]> (k_files k)) (set_axfs (k_axfs k) k))
      by by destruct k. eapply in_order_file; [done..|lia|by destruct Hk].
Qed.

(** *** Calls that do not change the descriptors *)

Lemma same_fds_ok p k :
  kernel_ok p → world_in_order k → (∀ g, obj_count g k = obj_count g (px_world p)) → kernel_ok (set_world k p).
Proof. intros Hk Hw Hc. split; [done|]. eapply refs_same_fds; [apply (ko_counted _ Hk)|done|done]. Qed.

Lemma on_axfs_ok {A} p (m : SM (axfs nat nat ramfs_world) AxError.t A) r s :
  kernel_ok p → m (k_axfs (px_world p)) = Ret (r, s) → axfs_ok (open_nodes (px_world p)) s →
  kernel_ok (set_world (set_axfs s (px_world p)) p).
Proof. intros Hk Hm Hs. apply same_fds_ok; [done| |done]. apply in_order_axfs; [by destruct Hk|done]. Qed.

(** A method of an open file. *)
Lemma with_file_ok {A} p id f n (m : File (N:=nat) → SM (axfs nat nat ramfs_world) AxError.t (A * File (N:=nat))) r s :
  kernel_ok p → k_files (px_world p) !! id = Some (f, n) →
  m f (k_axfs (px_world p)) = Ret (r, s) → axfs_ok (open_nodes (px_world p)) s →
  match r with Ok (_, f') => f_node f' = f_node f ∧ in_usize (f_offset f') | Err _ => True end →
  ∃ r' k, with_file id m (px_world p) = Ret (r', k) ∧ kernel_ok (set_world k p).
Proof.
  intros Hk Hid Hm Hs Hr. unfold with_file. rewrite Hid, Hm. destruct r as [[a f']|e].
  - destruct Hr as [Hnode Hoff]. eexists _, _. split; [done|]. destruct (wi_files _ (ko_world _ Hk) id f n Hid) as (Hn & _).
    apply same_fds_ok; [done|by eapply in_order_file; [apply ko_world|..]|].
    intros [id'|o]; [|done]. cbn. destruct (decide (id' = id)) as [->|]; [by rewrite lookup_insert_eq, Hid|by rewrite lookup_insert_ne].
  - eexists _, _. split; [done|]. by eapply on_axfs_ok.
Qed.

(** *** The calls *)

Inductive posix_call : Type :=
| CallOpen (filename : option cstr) (flags mode : Z)
| CallClose (fd : Z)
| CallDup (fd : Z)
| CallDup2 (fd new_fd : Z)
| CallLseek (fd offset whence : Z)
| CallRead (fd count : Z)
| CallWrite (fd : Z) (buf : list Z)
| CallStat (path : option cstr)
| CallSysRename (old new : option cstr).

Definition run_posix (c : posix_call) p : outcome (Z * posix obj kern) :=
  match c with
  | CallOpen filename flags mode => sys_open filename flags mode p
  | CallClose fd => sys_close fd p
  | CallDup fd => sys_dup fd p
  | CallDup2 fd new_fd => sys_dup2 fd new_fd p
  | CallLseek fd offset whence => sys_lseek fd offset whence p
  | CallRead fd count => match sys_read fd (Some tt) count p with Ret (r, _, p) => Ret (r, p) | Panic => Panic end
  | CallWrite fd buf => sys_write fd (Some buf) p
  | CallStat path => match sys_stat path (Some tt) p with Ret (r, _, p) => Ret (r, p) | Panic => Panic end
  | CallSysRename old new => sys_rename old new p
  end.

(** Descriptors are [c_int]s, and reading and writing do not go past the largest
    offset; the other kinds of files are not read or written. *)
Definition fits p (fd : Z) (pos : File (N:=nat) → Z) (len : Z) : Prop :=
  is_int fd ∧ 0 ≤ len ∧
  match fd_map p fd with
  | Some (ObjFile id) => ∀ f n, k_files (px_world p) !! id = Some (f, n) → pos f + len < 2 ^ 64
  | Some (ObjOther _) => False
  | None => True
  end.
Definition call_pre p (c : posix_call) : Prop :=
  match c with
  | CallClose fd | CallDup fd | CallLseek fd _ _ => is_int fd
  | CallDup2 fd new_fd => is_int fd ∧ is_int new_fd
  | CallRead fd count => fits p fd f_offset count
  | CallWrite fd buf => fits p fd (λ f, write_pos f (k_axfs (px_world p))) (Z.of_nat (length buf))
  | CallOpen _ _ _ | CallStat _ | CallSysRename _ _ => True
  end.

Lemma fds_world_ok p p' :
  kernel_ok p → refs_counted obj_count p' → world_in_order (px_world p') → kernel_ok p'.
Proof. intros Hk Hc Hw. by split. Qed.

Lemma dup_calls_ok p fd new_fd :
  kernel_ok p → is_int fd → is_int new_fd →
  (∃ r p', sys_dup fd p = Ret (r, p') ∧ kernel_ok p') ∧ (∃ r p', sys_dup2 fd new_fd p = Ret (r, p') ∧ kernel_ok p') ∧
  (∃ r p', sys_close fd p = Ret (r, p') ∧ kernel_ok p').
Proof.
  intros Hk Hfd Hnew. pose proof (ko_world _ Hk) as Hw. pose proof (ko_counted _ Hk) as Hc. split_and!.
  - destruct (sys_dup_spec fd p Hfd) as (r & p' & Hd & _ & Hs). exists r, p'. split; [done|]. split.
    + destruct (fd_map p fd) as [f|]; [|by destruct Hs as [_ ->]].
      destruct Hs as [[_ ->]|(_ & _ & ->)]; [by apply in_order_clone|by apply in_order_drop, in_order_clone].
    + eapply sys_dup_counted; [apply obj_count_clone|apply obj_count_drop|exact Hfd|exact Hc|exact Hd].
  - destruct (decide (fd = new_fd)) as [->|Hne]; [rewrite sys_dup2_same; by eexists _, _|].
    destruct (sys_dup2_spec fd new_fd p Hfd Hnew Hne) as (r & p' & Hd & Hs). exists r, p'. split; [done|]. split.
    + destruct (fd_map p fd) as [f|]; [|by destruct Hs as [_ ->]].
      destruct Hs as [(_ & _ & ->)|[(_ & _ & ->)|(_ & _ & ->)]]; [by apply in_order_clone|by apply in_order_drop, in_order_clone|done].
    + eapply sys_dup2_counted; [apply obj_count_clone|apply obj_count_drop|exact Hfd|exact Hnew|exact Hc|exact Hd].
  - destruct (sys_close_spec fd p Hfd) as (r & p' & Hd & Hs). exists r, p'. split; [done|]. split.
    + case_bool_decide; [by destruct Hs as [_ ->]|]. destruct (fd_map p fd) as [f|]; [|by destruct Hs as [_ ->]].
      destruct Hs as (_ & -> & _). by apply in_order_drop.
    + eapply sys_close_counted; [apply obj_count_drop|exact Hfd|exact Hc|exact Hd].
Qed.

(** A new open file, put at a free descriptor or dropped again. *)
Lemma add_to_fd_table_ok p s f :
  kernel_ok p → axfs_ok (wc_inner (f_node f) :: open_nodes (px_world p)) s → f_offset f = 0 →
  ∃ r p', add_to_fd_table f (set_world (set_axfs s (px_world p)) p) = Ret (r, p') ∧ kernel_ok p'.
Proof.
  intros Hk Hs Hoff. pose proof (ko_world _ Hk) as [Hax Hf]. set (k := px_world p) in *.
  assert (k_files k !! k_next k = None) as Hfresh.
  { destruct (k_files k !! k_next k) as [[g m]|] eqn:Hx; [|done]. destruct (Hf _ _ _ Hx) as (_ & ? & _). lia. }
  unfold add_to_fd_table, sm_bind, file_new_arc. cbn [px_world set_world k_next k_files k_axfs k_other set_axfs].
  set (k1 := {| k_axfs := s; k_files := <[k_next k := (f, 1%nat)]> (k_files k); k_next := S (k_next k); k_other := k_other k |}).
  set (o := ObjFile (k_next k)).
  assert (world_in_order k1) as Hw1.
  { split; cbn.
    - eapply axfs_ok_perm; [|exact Hs]. symmetry. by apply files_nodes_new.
    - intros id g m. destruct (decide (id = k_next k)) as [->|].
      + rewrite lookup_insert_eq. intros ?; simplify_eq. unfold in_usize. rewrite Hoff. lia.
      + rewrite lookup_insert_ne by done. intros Hx. destruct (Hf _ _ _ Hx) as (? & ? & ?). split_and!; [done|lia|done]. }
  assert (∀ g, obj_count g k1 = obj_count g k + (if decide (o = g) then 1 else 0)) as Hcount.
  { intros [id|x]; unfold o; cbn; [|rewrite decide_False by done; lia]. destruct (decide (k_next k = id)) as [<-|Hne].
    - rewrite lookup_insert_eq, Hfresh, decide_True by done. done.
    - rewrite lookup_insert_ne, decide_False by congruence. lia. }
  pose proof (ko_counted _ Hk) as Hc. change (set_world k1 (set_world (set_axfs s k) p)) with (set_world k1 p).
  destruct (add_file_like_spec o (set_world k1 p)) as [(fd & p' & Ha & Hop & Hw)|[Ha _]]; rewrite Ha; eexists _, _; (split; [done|]).
  - split; [by rewrite Hw|]. eapply (refs_opened obj_count fd o p); [done|exact Hop|]. intros g. rewrite Hw. apply Hcount.
  - split; [by apply in_order_drop|]. apply (refs_same_fds obj_count p); [done|done|]. intros g. cbn [px_world set_world].
    assert (0 < obj_count o k1) as Hpos by (rewrite Hcount, decide_True by done; unfold o; cbn; lia).
    rewrite obj_count_drop, Hcount by done. fold k. lia.
Qed.

Lemma sys_open_ok p filename flags mode : kernel_ok p → ∃ r p', sys_open filename flags mode p = Ret (r, p') ∧ kernel_ok p'.
Proof.
  intros Hk. unfold sys_open, syscall_body, sm_bind at 1, sm_lift. destruct (char_ptr_to_str filename) as [path|e]; [|by eexists _, _].
  destruct (open_ok _ path (flags_to_options flags) _ (wi_axfs _ (ko_world _ Hk))) as (r & s & Ho & Hs).
  unfold sm_bind, on_world, on_axfs. rewrite Ho. destruct r as [f|e]; cbn [map_err].
  - assert (f_offset f = 0) as Hoff.
    { unfold open in Ho. by apply open_at_inv in Ho as (_ & ? & _). }
    destruct (add_to_fd_table_ok p s f Hk Hs Hoff) as (r & p' & -> & Hk'). by eexists _, _.
  - eexists _, _. split; [done|]. by eapply on_axfs_ok.
Qed.

Lemma sys_lseek_ok p fd offset whence : kernel_ok p → is_int fd → ∃ r p', sys_lseek fd offset whence p = Ret (r, p') ∧ kernel_ok p'.
Proof.
  intros Hk Hfd. unfold sys_lseek, syscall_body, sm_bind at 1, sm_lift. set (pr := if whence =? 0 then _ else _).
  destruct pr as [pos|e] eqn:Hpos; [|by eexists _, _].
  assert (match pos with SeekStart q => in_usize q | SeekCurrent _ | SeekEnd _ => True end) as Hp.
  { revert Hpos. unfold pr. repeat case_match; intros; simplify_eq; try done. apply wrap_range. }
  unfold sm_bind, from_fd, sm_bind. rewrite get_file_like_eq by done.
  destruct (fd_map p fd) as [[id|o]|] eqn:Hm; [|by eexists _, _..]. cbn [ok_or]. unfold sm_ret at 1.
  destruct (fd_file p fd id Hk Hm) as (f & n & Hid). pose proof (ko_world _ Hk) as Hw.
  destruct (file_seek_ok (open_nodes (px_world p)) f pos (k_axfs (px_world p))) as (r & Hr & Hpost);
    [apply (wi_axfs _ Hw)|by eapply file_live|by destruct (wi_files _ Hw id f n Hid) as (_ & _ & ?)|done|].
  destruct (with_file_ok p id f n (λ f, file_seek f pos) r _ Hk Hid Hr (wi_axfs _ Hw) Hpost) as (r' & k & Hwf & Hk').
  unfold on_world. rewrite Hwf. destruct r'; by eexists _, _.
Qed.

Lemma sys_read_ok p fd count :
  kernel_ok p → fits p fd f_offset count → ∃ r d p', sys_read fd (Some tt) count p = Ret (r, d, p') ∧ kernel_ok p'.
Proof.
  intros Hk (Hfd & Hc & Hfit). unfold sys_read, sm_bind. rewrite get_file_like_eq by done.
  destruct (fd_map p fd) as [[id|o]|] eqn:Hm; [|done|by eexists _, _, _]. cbn [ok_or].
  destruct (fd_file p fd id Hk Hm) as (f & n & Hid). pose proof (ko_world _ Hk) as Hw.
  destruct (wi_files _ Hw id f n Hid) as (_ & _ & Hoff). specialize (Hfit f n Hid).
  destruct (file_read_ok (open_nodes (px_world p)) f count (k_axfs (px_world p))) as (r & Hr & Hpost);
    [apply (wi_axfs _ Hw)|by eapply file_live|by destruct Hoff|done..|].
  destruct (with_file_ok p id f n (λ f, file_read f count) r _ Hk Hid Hr (wi_axfs _ Hw) Hpost) as (r' & k & Hwf & Hk').
  unfold on_world. cbn [fl_read file_obj_like obj_read]. rewrite Hwf. destruct r'; by eexists _, _, _.
Qed.

Lemma sys_write_ok p fd buf :
  kernel_ok p → fits p fd (λ f, write_pos f (k_axfs (px_world p))) (Z.of_nat (length buf)) →
  ∃ r p', sys_write fd (Some buf) p = Ret (r, p') ∧ kernel_ok p'.
Proof.
  intros Hk (Hfd & Hc & Hfit). unfold sys_write, syscall_body, sm_bind. rewrite get_file_like_eq by done.
  destruct (fd_map p fd) as [[id|o]|] eqn:Hm; [|done|by eexists _, _]. cbn [ok_or].
  destruct (fd_file p fd id Hk Hm) as (f & n & Hid). pose proof (ko_world _ Hk) as Hw.
  destruct (wi_files _ Hw id f n Hid) as (_ & _ & Hoff). specialize (Hfit f n Hid).
  destruct (file_write_ok (open_nodes (px_world p)) f buf (k_axfs (px_world p))) as (r & s & Hr & Hs & Hpost);
    [apply (wi_axfs _ Hw)|by eapply file_live|done..|].
  destruct (with_file_ok p id f n (λ f, file_write f buf) r _ Hk Hid Hr Hs Hpost) as (r' & k & Hwf & Hk').
  unfold on_world. cbn [fl_write file_obj_like obj_write]. rewrite Hwf. destruct r'; by eexists _, _.
Qed.

Lemma sys_rename_ok p old new : kernel_ok p → ∃ r p', sys_rename old new p = Ret (r, p') ∧ kernel_ok p'.
Proof.
  intros Hk. unfold sys_rename, syscall_body, sm_bind at 1, sm_lift. destruct (char_ptr_to_str old) as [o|e]; [|by eexists _, _].
  unfold sm_bind at 1, sm_lift. destruct (char_ptr_to_str new) as [nw|e]; [|by eexists _, _].
  destruct (triple_api_rename (open_nodes (px_world p)) o nw _ (wi_axfs _ (ko_world _ Hk)) I) as (r & s & Hr & Hs & _).
  unfold sm_bind, on_world, on_axfs. rewrite Hr. pose proof (on_axfs_ok p _ r s Hk Hr Hs) as Hk'. destruct r; by eexists _, _.
Qed.

Lemma sys_stat_ok p path : kernel_ok p → ∃ r d p', sys_stat path (Some tt) p = Ret (r, d, p') ∧ kernel_ok p'.
Proof.
  intros Hk. unfold sys_stat, with_stat, sm_bind at 1, sm_lift. destruct (char_ptr_to_str path) as [q|e]; [|by eexists _, _, _].
  destruct (open_ok _ q (set_read true OpenOptions_new) _ (wi_axfs _ (ko_world _ Hk))) as (r & s & Ho & Hs).
  unfold sm_bind at 1, on_world at 1, on_axfs at 1. rewrite Ho. destruct r as [f|e]; cbn [map_err].
  2: { eexists _, _, _. split; [done|]. by eapply on_axfs_ok. }
  assert (live (wc_inner (f_node f)) s) as Hl.
  { apply (wo_live _ _ (ao_world _ _ Hs)). unfold holders. rewrite !elem_of_app. right. right. right. by left. }
  destruct (triple_get_attr _ (wc_inner (f_node f)) s Hs Hl) as (r & s1 & H1 & _ & _). pose proof (quiet_get_attr _ _ _ _ H1) as ->.
  assert (file_get_attr (F:=nat) f s = Ret (r, s)) as Hattr.
  { unfold file_get_attr, sm_bind. by rewrite access_node_granted by apply cap_contains_empty. }
  unfold sm_catch, on_world, on_axfs. cbn [px_world set_world k_axfs set_axfs]. rewrite Hattr.
  pose proof (drop_axfs_ok _ f s Hs) as Hd. unfold sm_bind, sm_modify, sm_lift. cbn [px_world set_world k_axfs set_axfs].
  destruct r as [a|e]; cbn [map_err map_ok]; eexists _, _, _; (split; [done|]);
    exact (on_axfs_ok p (λ _, Ret (Ok tt, drop_file f s)) (Ok tt) (drop_file f s) Hk eq_refl Hd).
Qed.


(** Seeking to [-1] from the start is accepted, and returns [-1]; reading two or
    more bytes from there panics the kernel when the file has at least two bytes,
    because the end of the range wraps around to the start of the file. *)
Theorem lseek_then_read_panics p fd id f n c :
  is_int fd → fd_map p fd = Some (ObjFile id) → k_files (px_world p) !! id = Some (f, n) →
  cap_contains (wc_cap (f_node f)) cap_READ = true →
  st_nodes (k_axfs (px_world p)) !! wc_inner (f_node f) = Some (FileNode c) → 2 ≤ Z.of_nat (length c) < 2 ^ 63 →
  ∃ p', sys_lseek fd (-1) 0 p = Ret (-1, p') ∧ sys_read fd (Some tt) 2 p' = Panic.
Proof.
  intros Hfd Hm Hid Hcap Hc Hlen. set (f' := set_offset (2 ^ 64 - 1) f). set (k := px_world p) in *.
  assert (file_seek (F:=nat) f (SeekStart (2 ^ 64 - 1)) (k_axfs k) = Ret (Ok (2 ^ 64 - 1, f'), k_axfs k)) as Hseek.
  { unfold file_seek, sm_bind at 1. by rewrite (file_attr_eq f (k_axfs k) c Hc). }
  set (k' := set_files (<[id := (f', n)]> (k_files k)) (set_axfs (k_axfs k) k)).
  exists (set_world k' p). split.
  - unfold sys_lseek, syscall_body, sm_bind at 1, sm_lift. change (0 =? 0) with true. cbv iota.
    unfold sm_bind, from_fd, sm_bind. rewrite get_file_like_eq, Hm by done. cbn [ok_or]. unfold sm_ret at 1.
    unfold on_world, with_file. fold k. rewrite Hid. change (-1 mod 2 ^ 64) with (2 ^ 64 - 1). rewrite Hseek. done.
  - unfold sys_read, sm_bind. rewrite get_file_like_eq by done. change (fd_map (set_world k' p) fd) with (fd_map p fd).
    rewrite Hm. cbn [ok_or]. unfold on_world. cbn [fl_read file_obj_like obj_read px_world set_world].
    assert (with_file id (λ f, file_read f 2) k' = Panic) as ->; [|done].
    unfold with_file, k'. cbn [k_files set_files k_axfs set_axfs]. rewrite lookup_insert_eq.
    assert (file_read (F:=nat) f' 2 (k_axfs k) = Panic) as ->; [|done].
    unfold file_read, sm_bind. rewrite access_node_granted by done. cbn [vn_read_at ramfs_node_ops].
    unfold on_fs, ask, read_at. unfold st_nodes in Hc. change (wc_inner (f_node f')) with (wc_inner (f_node f)). rewrite Hc.
    change (f_offset f') with (2 ^ 64 - 1). unfold Ramfs.file_read_at. change (uadd (2 ^ 64 - 1) 2) with 1. cbv zeta.
    rewrite Z.min_l, Z.min_r by lia. by rewrite (proj2 (Z.leb_gt _ _)) by lia.
Qed.
End posix_ramfs.

(** ** The flags of [open] *)

(** [O_EXCL] has no effect: opening with it is opening without it, so
    [O_CREAT | O_EXCL] opens a file that exists.  What asks for a new file is [O_EXEC]. *)
Theorem open_ignores_excl flags :
  0 ≤ flags < 2 ^ 31 →
  flags_to_options (Z.lor flags O_EXCL) = flags_to_options flags ∧
  oo_create_new (flags_to_options flags) = Z.testbit flags 21.
Proof.
  intros Hf. split.
  - unfold flags_to_options. rewrite !(Z.mod_small _ (2 ^ 32)); [|lia|].
    + rewrite !Z.land_lor_distr_l. change (Z.land O_EXCL 3) with 0. change (Z.land O_EXCL O_APPEND) with 0.
      change (Z.land O_EXCL O_TRUNC) with 0. change (Z.land O_EXCL O_CREAT) with 0. change (Z.land O_EXCL O_EXEC) with 0.
      by rewrite !Z.lor_0_r.
    + split; [apply Z.lor_nonneg; unfold O_EXCL; lia|]. apply (Z.lt_le_trans _ (2 ^ 31)); [|lia].
      assert (0 < 2 ^ 31) by lia. destruct (decide (Z.lor flags O_EXCL = 0)) as [->|Hz]; [lia|].
      apply Z.log2_lt_pow2; [assert (0 ≤ Z.lor flags O_EXCL) by (apply Z.lor_nonneg; unfold O_EXCL; lia); lia|].
      rewrite Z.log2_lor by (unfold O_EXCL; lia). apply Z.max_lub_lt; [|done].
      destruct (decide (flags = 0)) as [->|]; [done|]. apply Z.log2_lt_pow2; lia.
  - unfold flags_to_options. rewrite Z.mod_small by lia. cbv zeta.
    assert (negb (Z.land flags O_EXEC =? 0) = Z.testbit flags 21) as ->.
    { change O_EXEC with (2 ^ 21). rewrite <-Z.shiftl_1_l. destruct (Z.testbit flags 21) eqn:Hb.
      - apply negb_true_iff, Z.eqb_neq. intros H0. assert (Z.testbit (Z.land flags (Z.shiftl 1 21)) 21 = false) as Hx by by rewrite H0.
        rewrite Z.land_spec, Hb in Hx. done.
      - apply negb_false_iff, Z.eqb_eq. apply Z.bits_inj'. intros n Hn. rewrite Z.land_spec, Z.bits_0.
        destruct (decide (n = 21)) as [->|]; [by rewrite Hb|]. rewrite Z.shiftl_1_l, Z.pow2_bits_false by done. apply andb_false_r. }
    destruct (Z.testbit flags 21); [done|]. by repeat case_match.
Qed.
