(* ===== verification/AxfsDemo.v ===== *)
(** Concrete instances of the interfaces of [Vfs], [FdTable] and [PosixFs], as the
    external crates document them, a small filesystem with a second one mounted at
    [/tmp], and the theorems about [axfs] and the system calls at that state. *)

From stdpp Require Import prelude gmap strings list sorting.
From Stdlib Require Import ZArith Lia.
From S2P Require Import Prelude Ramfs RamfsProps Vfs Root RootProps RamfsVfs AxfsRamfs Fops FopsProps FdTable PosixFs PosixProps.
Local Open Scope Z_scope.
Local Open Scope kernel_scope.

(** ** The interfaces *)

(** The permission bits: [0o666] for files, [0o755] for directories. *)
Definition std_perms : VfsNodePerm := {|
  perm := Z; perm_bits p := p;
  owner_readable p := Z.testbit p 8; owner_writable p := Z.testbit p 7; owner_executable p := Z.testbit p 6;
  default_file := 438; default_dir := 493 |}.
Definition std_tdefaults : VfsTraitDefaults := {|
  default_open := Ok tt; file_fsync := Err AxError.InvalidInput; dir_fsync := Err AxError.IsADirectory;
  default_umount := Ok tt |}.

(** Three flags. *)
Definition std_caps : CapAccess := {|
  Cap := bool * bool * bool;
  cap_empty := (false, false, false); cap_READ := (true, false, false);
  cap_WRITE := (false, true, false); cap_EXECUTE := (false, false, true);
  cap_union a b := (a.1.1 || b.1.1, a.1.2 || b.1.2, a.2 || b.2);
  cap_contains a b := implb b.1.1 a.1.1 && implb b.1.2 a.1.2 && implb b.2 a.2 |}.
Lemma std_caps_laws : @CapLaws std_caps.
Proof.
  split.
  - by intros [[[] []] []].
  - by intros [[[] []] []] [[[] []] []] [[[] []] []].
  - intros [[[] []] []] [[[] []] []] f Hf; repeat (apply elem_of_cons in Hf as [->|Hf]; [done|]); by apply not_elem_of_nil in Hf.
  - intros f Hf. repeat (apply elem_of_cons in Hf as [->|Hf]; [done|]). by apply not_elem_of_nil in Hf.
  - done.
  - intros f Hf. repeat (apply elem_of_cons in Hf as [->|Hf]; [done|]). by apply not_elem_of_nil in Hf.
  - by intros [[[] []] []] [[[] []] []] [[[] []] []].
Qed.

(** Components one by one: empty ones and [.] are dropped, [..] takes one back. *)
Definition canon_step (acc : list string) (c : string) : list string :=
  if bool_decide (c = "" ∨ c = ".")%string then acc
  else if bool_decide (c = "..")%string then match acc with [] => [] | _ :: acc => acc end
  else c :: acc.
Fixpoint join (cs : list string) : string :=
  match cs with [] => "" | [c] => c | c :: cs => c +:+ "/" +:+ join cs end.
Definition std_paths : PathOps := {|
  canonicalize p := (if starts_with "/" p then "/" else "") +:+ join (reverse (foldl canon_step [] (fields p))) |}.
Lemma std_paths_laws : @PathLaws std_paths.
Proof. split. intros p Hp. cbn. rewrite Hp. apply starts_with_true. by eexists. Qed.

Definition std_errnos : AxErrno := {|
  linux_of_ax e := match e with
                   | AxError.NotFound => LinuxError.ENOENT | AxError.AlreadyExists => LinuxError.EEXIST
                   | AxError.PermissionDenied => LinuxError.EACCES | AxError.IsADirectory => LinuxError.EISDIR
                   | AxError.NotADirectory => LinuxError.ENOTDIR | AxError.DirectoryNotEmpty => LinuxError.ENOTEMPTY
                   | _ => LinuxError.EINVAL
                   end;
  errno e := match e with
             | LinuxError.EPERM => 1 | LinuxError.ENOENT => 2 | LinuxError.EBADF => 9 | LinuxError.EAGAIN => 11
             | LinuxError.EACCES => 13 | LinuxError.EFAULT => 14 | LinuxError.EEXIST => 17 | LinuxError.ENOTDIR => 20
             | LinuxError.EISDIR => 21 | LinuxError.EINVAL => 22 | LinuxError.EMFILE => 24 | LinuxError.ERANGE => 34
             | LinuxError.ENOSYS => 38 | LinuxError.ENOTEMPTY => 39 | _ => 22
             end |}.
Lemma std_errnos_laws : @AxErrnoLaws std_errnos.
Proof. split. intros []; cbn; lia. Qed.

(** A map from numbers, the smallest free one first. *)
Definition first_free {T} (m : gmap Z T) : option Z := List.find (λ j, bool_decide (m !! j = None)) fd_range.
Definition in_limit (id : Z) : bool := (0 <=? id) && (id <? AX_FILE_LIMIT).
Definition std_table (T : Type) : FlattenObjects T := {|
  objects := gmap Z T;
  obj_new := ∅;
  obj_get m id := if in_limit id then m !! id else None;
  obj_add m x := match first_free m with Some id => Some (id, <[id := x]> m) | None => None end;
  obj_add_at m id x := if in_limit id && bool_decide (m !! id = None) then Some (id, <[id := x]> m) else None;
  obj_remove m id := if in_limit id then match m !! id with Some x => Some (x, delete id m) | None => None end else None |}.

Lemma in_limit_true id : in_limit id = true ↔ 0 ≤ id < AX_FILE_LIMIT.
Proof. unfold in_limit. rewrite andb_true_iff, Z.leb_le, Z.ltb_lt. done. Qed.
Lemma std_get_insert {T} (m : gmap Z T) id x j :
  0 ≤ id < AX_FILE_LIMIT →
  (if in_limit j then <[id := x]> m !! j else None) =
  if bool_decide (j = id) then Some x else if in_limit j then m !! j else None.
Proof.
  intros Hid. case_bool_decide as Hj; [subst j; by rewrite (proj2 (in_limit_true id)), lookup_insert_eq|].
  by rewrite lookup_insert_ne.
Qed.
Lemma std_table_laws T : @FlattenLaws T AX_FILE_LIMIT (std_table T).
Proof.
  split; cbn.
  - intros id. by destruct (in_limit id).
  - intros m id x Hm. destruct (in_limit id) eqn:Hl; [by apply in_limit_true|done].
  - intros m x id m' Hm. destruct (first_free m) as [k|] eqn:Hf; [|done]. injection Hm as -> <-.
    apply List.find_some in Hf as [Hin Hn]. apply list_elem_of_In, fd_range_elem in Hin. apply bool_decide_eq_true in Hn.
    split_and!; [lia|lia|by rewrite (proj2 (in_limit_true id))|]. intros j. by apply std_get_insert.
  - intros m x Hm j Hj. destruct (first_free m) as [k|] eqn:Hf; [done|]. rewrite (proj2 (in_limit_true j)) by done.
    apply fd_range_elem, list_elem_of_In in Hj. apply (List.find_none _ _ Hf), bool_decide_eq_false in Hj.
    destruct (m !! j); [by eexists|done].
  - intros m id x r m' Hm. destruct (in_limit id) eqn:Hl; [|done]. apply in_limit_true in Hl. cbn in Hm.
    case_bool_decide as Hn; [|done]. injection Hm as <- <-. split_and!; [done|lia|lia|done|]. intros j. by apply std_get_insert.
  - intros m id x Hm Hid. rewrite (proj2 (in_limit_true id)) in * by done. cbn in Hm. case_bool_decide as Hn; [done|].
    destruct (m !! id); [by eexists|done].
  - intros m id x m' Hm. destruct (in_limit id) eqn:Hl; [|done]. destruct (m !! id) as [y|] eqn:Hy; [|done]. injection Hm as -> <-.
    split; [done|]. intros j. case_bool_decide as Hj; [subst; by rewrite Hl, lookup_delete_eq|by rewrite lookup_delete_ne].
  - intros m id Hm. destruct (in_limit id); [|done]. by destruct (m !! id).
Qed.

#[local] Existing Instances std_defaults std_perms std_tdefaults std_caps std_caps_laws std_paths std_paths_laws
  std_errnos std_errnos_laws std_table std_table_laws.

(** ** A filesystem with another one at [/tmp] *)

Abbreviation demo_state := (axfs nat nat ramfs_world).

Definition run_or {A} (d : A) (o : outcome A) : A := match o with Ret a => a | Panic => d end.
Definition demo_world : ramfs_world :=
  run_or empty_world (snd <$> (ramfs empty_world ≫= λ r, ramfs r.2)).
Definition demo_axfs : demo_state :=
  run_or {| ROOT_DIR := RootDirectory_new 0%nat; CURRENT_DIR_PATH := "/"; CURRENT_DIR := RootDir; fs_state := demo_world |}
    (init_rootfs 0%nat None (Some 1%nat) None None demo_world).
(** The state after a call, and its result. *)
Definition after {A} (m : SM demo_state AxError.t A) (s : demo_state) : demo_state :=
  run_or s (snd <$> m s).

Lemma demo_world_ok : world_ok demo_world [].
Proof.
  destruct (ramfs_ok empty_world [] empty_world_ok) as (w1 & H1 & Hw1 & _).
  destruct (ramfs_ok w1 [] Hw1) as (w2 & H2 & Hw2 & _). unfold demo_world. rewrite H1.
  change (Ret (Ok (length (rw_fss empty_world)), w1) ≫= λ r, ramfs r.2) with (ramfs w1). rewrite H2. exact Hw2.
Qed.
Lemma demo_init : init_rootfs 0%nat None (Some 1%nat) None None demo_world = Ret demo_axfs.
Proof. vm_compute. reflexivity. Qed.
Lemma demo_ok : axfs_ok [] demo_axfs.
Proof. eapply init_rootfs_ok; [apply demo_world_ok| |apply demo_init]. repeat constructor. Qed.
Lemma demo_axfs_wf : root_wf demo_axfs.
Proof. apply (ao_root _ _ demo_ok). Qed.

(** A directory [/d] with a file [/d/f] in it. *)
Definition demo_d : demo_state := after (create_dir None "/d") demo_axfs.
Definition demo_df : demo_state := after (create_file None "/d/f") demo_d.

(** ** Witnesses: [Root] *)

Lemma mount_dispatch_witness :
  mounts_wf (ROOT_DIR demo_axfs) ∧
  ∃ pre p post m, "//./tmp/x/"%string = pre +:+ p +:+ post ∧ dot_slashes pre ∧ slashes post ∧ bare p ∧
    dispatched (ROOT_DIR demo_axfs) p (λ fs rest, sm_ret (fs, rest)) m ∧
    lookup_mounted_fs "//./tmp/x/" (λ fs rest, sm_ret (fs, rest)) demo_axfs = m demo_axfs.
Proof. split; [apply demo_axfs_wf|]. apply (mount_dispatch "//./tmp/x/" (λ fs rest, sm_ret (fs, rest)) demo_axfs), demo_axfs_wf. Defined.

Lemma root_invariant_witness :
  root_wf demo_axfs ∧
  ∀ cs s', foldl (λ o c, o ≫= λ s, snd <$> run_call c s) (Ret demo_axfs) cs = Ret s' → root_wf s'.
Proof. apply (root_invariant 0%nat None (Some 1%nat) None None demo_world demo_axfs demo_init). Defined.

Lemma removal_checked_witness :
  remove_dir None "/d" demo_d = Ret (Ok tt, after (remove_dir None "/d") demo_d) ∧
  ((is_ok (Ok (E:=AxError.t) tt) = false ∧ after (remove_dir None "/d") demo_d = demo_d) ∨
   ("/d" ≠ "" ∧
    (true = true → contains (absolute_path "/d" demo_d) (ROOT_DIR demo_d) = false ∧ is_dot_path (trim_matches "/d") = false ∧
                   trim_matches "/d" ≠ "") ∧
    ∃ n a, lookup None "/d" demo_d = Ret (Ok n, demo_d) ∧ on_fs (vn_get_attr n) demo_d = Ret (Ok a, demo_d) ∧
      is_dir a = true ∧ owner_writable (fa_perm a) = true ∧
      node_remove (parent_node_of None "/d" demo_d) "/d" demo_d = Ret (Ok tt, after (remove_dir None "/d") demo_d)))%string.
Proof.
  assert (remove_dir None "/d" demo_d = Ret (Ok tt, after (remove_dir None "/d") demo_d)) as H by (vm_compute; reflexivity).
  split; [exact H|]. exact (removal_checked None "/d" demo_d (Ok tt) _ true H).
Defined.

Lemma set_current_dir_checked_witness :
  set_current_dir "d" demo_d = Ret (Ok tt, after (set_current_dir "d") demo_d) ∧
  CURRENT_DIR_PATH (after (set_current_dir "d") demo_d) = dir_path (absolute_path "d" demo_d).
Proof.
  assert (set_current_dir "d" demo_d = Ret (Ok tt, after (set_current_dir "d") demo_d)) as H by (vm_compute; reflexivity).
  split; [exact H|]. exact (proj1 (set_current_dir_checked "d" demo_d (Ok tt) _ H)).
Defined.

Lemma axfs_ramfs_safe_witness :
  axfs_ok [] demo_axfs ∧ ∃ r s', run_call (CallRename "/d/f" "/d/g") demo_axfs = Ret (r, s') ∧ axfs_ok [] s'.
Proof.
  destruct axfs_ramfs_safe as [Hinit Hcall].
  assert (axfs_ok [] demo_axfs) as H by (eapply Hinit; [apply demo_world_ok| |apply demo_init]; repeat constructor).
  split; [exact H|]. apply Hcall; [exact H|exact I].
Defined.

(** ** Witnesses: [Fops] *)

Lemma demo_df_ok : axfs_ok [] demo_df.
Proof.
  destruct (triple_create_dir [] None "/d" ltac:(done) demo_axfs demo_ok I) as (r & s1 & H1 & Hs1 & _).
  destruct (triple_create_file [] None "/d/f" ltac:(done) s1 Hs1 I) as (r2 & s2 & H2 & Hs2 & _).
  assert (demo_d = s1) as Hd by (unfold demo_d, after; by rewrite H1). unfold demo_df, after. rewrite Hd, H2. exact Hs2.
Qed.

Definition demo_opts : OpenOptions := set_write true (set_read true OpenOptions_new).
Definition no_file : File (N:=nat) := {| f_node := {| wc_inner := 0%nat; wc_cap := cap_empty |}; f_is_append := false; f_offset := 0 |}.
Definition handle (opts : OpenOptions) : File (N:=nat) :=
  match open_at (F:=nat) None "/d/f" opts demo_df with Ret (Ok f, _) => f | _ => no_file end.
Definition demo_opened : demo_state := after (open_at None "/d/f" demo_opts) demo_df.

Lemma open_checked_witness :
  open_at None "/d/f" demo_opts demo_df = Ret (Ok (handle demo_opts), demo_opened) ∧
  cap_contains (wc_cap (f_node (handle demo_opts))) cap_WRITE = oo_write demo_opts || oo_append demo_opts.
Proof.
  assert (open_at None "/d/f" demo_opts demo_df = Ret (Ok (handle demo_opts), demo_opened)) as H by (vm_compute; reflexivity).
  split; [exact H|]. apply (open_checked None "/d/f" demo_opts demo_df _ _ H).
Defined.

Definition read_opts : OpenOptions := set_read true OpenOptions_new.
Lemma handle_respects_mode_witness :
  let ops := [OpRead 4; OpWrite [7]; OpTruncate 0] in
  ∃ rs f' s1 s2, open_at None "/d/f" read_opts demo_df = Ret (Ok (handle read_opts), s1) ∧
    run_file_ops (handle read_opts) ops s1 = Ret (Ok (rs, f'), s2) ∧ s2 = s1.
Proof.
  eassert (open_at None "/d/f" read_opts demo_df = Ret (Ok (handle read_opts), after (open_at None "/d/f" read_opts) demo_df)) as Ho
    by (vm_compute; reflexivity).
  eassert (run_file_ops (handle read_opts) [OpRead 4; OpWrite [7]; OpTruncate 0] (after (open_at None "/d/f" read_opts) demo_df) =
           Ret (Ok (_, _), _)) as Hr by (vm_compute; reflexivity).
  eexists _, _, _, _. split; [exact Ho|]. split; [exact Hr|].
  apply (proj1 (handle_respects_mode None "/d/f" read_opts _ _ _ _ _ _ _ Ho Hr)). reflexivity.
Defined.

Lemma seek_in_range_witness :
  file_seek (handle demo_opts) (SeekEnd (-1)) demo_opened = Ret (Err AxError.InvalidInput, demo_opened) ∧
  in_usize (f_offset (handle demo_opts)) ∧ demo_opened = demo_opened.
Proof.
  assert (file_seek (handle demo_opts) (SeekEnd (-1)) demo_opened = Ret (Err AxError.InvalidInput, demo_opened)) as H
    by (vm_compute; reflexivity).
  assert (in_usize (f_offset (handle demo_opts))) as Hu by (vm_compute; split; congruence).
  split; [exact H|]. split; [exact Hu|]. apply (seek_in_range _ _ _ _ _ H Hu I).
Defined.

Lemma write_seek_read_witness :
  st_nodes demo_opened !! wc_inner (f_node (handle demo_opts)) = Some (FileNode []) ∧
  ∃ c' f1 f2, let s1 := set_content (wc_inner (f_node (handle demo_opts))) c' demo_opened in
    file_write (F:=nat) (handle demo_opts) [1; 2; 3] demo_opened = Ret (Ok (3, f1), s1) ∧
    file_seek (F:=nat) f1 (SeekStart 0) s1 = Ret (Ok (0, f2), s1) ∧ file_read (F:=nat) f2 3 s1 = Ret (Ok ([1; 2; 3], f1), s1).
Proof.
  assert (st_nodes demo_opened !! wc_inner (f_node (handle demo_opts)) = Some (FileNode [])) as H by (vm_compute; reflexivity).
  split; [exact H|].
  destruct (write_seek_read (handle demo_opts) [1; 2; 3] demo_opened [] H) as (c' & f1 & f2 & H1 & H2 & H3 & _);
    [reflexivity|reflexivity|vm_compute; congruence|vm_compute; reflexivity|]. exists c', f1, f2. exact (conj H1 (conj H2 H3)).
Defined.

Lemma wf_pins s s' : nodes s' = nodes s → next s' = next s → ramfs_wf s → ramfs_wf s'.
Proof.
  destruct s as [n k m], s' as [n' k' m']. cbn. intros -> ->. intros [W1 W2 W3 W4]. by split.
Qed.

Definition demo_dir : ReadDir (N:=nat) :=
  match ReadDir_new (F:=nat) "/d" demo_df with
  | Ret (Ok rd, _) => rd
  | _ => {| rd_path := ""; rd_inner := {| d_node := f_node no_file; d_entry_idx := 0 |}; rd_buf := []; rd_end_of_stream := true |}
  end.
Definition demo_children : gmap string nat :=
  match st_nodes demo_df !! wc_inner (d_node (rd_inner demo_dir)) with Some (DirNode _ ch) => ch | _ => ∅ end.
Lemma read_dir_iterates_witness :
  ReadDir_new (F:=nat) "/d" demo_df = Ret (Ok demo_dir, after (ReadDir_new "/d") demo_df) ∧
  collect (S (size demo_children)) 10 demo_dir (after (ReadDir_new "/d") demo_df) =
    Ret (Ok (to_entry "/d" <$> List.filter not_dot
              (entry demo_children (rw_store (fs_state (after (ReadDir_new "/d") demo_df))) <$> get_entries demo_children)),
         after (ReadDir_new "/d") demo_df).
Proof.
  assert (ReadDir_new (F:=nat) "/d" demo_df = Ret (Ok demo_dir, after (ReadDir_new "/d") demo_df)) as H by (vm_compute; reflexivity).
  split; [exact H|]. refine (proj1 (read_dir_iterates "/d" demo_df demo_dir _ (Some 0%nat) demo_children H _ _ _) 10%nat _).
  - eapply wf_pins; [| |apply (wo_wf _ _ (ao_world _ _ demo_df_ok))]; vm_compute; reflexivity.
  - vm_compute. reflexivity.
  - vm_compute. reflexivity.
  - vm_compute. lia.
Defined.

(** ** Witnesses: system calls *)

Definition std_types : VfsTypeCode := {|
  type_code t := match t with Ramfs.File => 8 | Ramfs.Dir => 4 | _ => 0 end |}.
(** One other file, that fails every operation; its world is its references. *)
Definition closed_like : FileLike unit Z := {|
  fl_read _ _ w := Ret (Err LinuxError.EPERM, w); fl_write _ _ w := Ret (Err LinuxError.EPERM, w);
  fl_stat _ w := Ret (Err LinuxError.EPERM, w); fl_poll _ w := Ret (Err LinuxError.EPERM, w);
  fl_set_nonblocking _ _ w := Ret (Err LinuxError.EPERM, w);
  fl_clone _ w := w + 1; fl_drop _ w := w - 1 |}.
#[local] Existing Instances std_types closed_like.

Abbreviation demo_posix := (posix (FileObj unit) (kernel nat nat ramfs_world Z)).
Definition demo_kernel : demo_posix :=
  {| FD_TABLE := obj_new; px_world := {| k_axfs := demo_df; k_files := ∅; k_next := 0; k_other := 0 |} |}.
Lemma demo_kernel_ok : kernel_ok (λ _ w, w) demo_kernel.
Proof.
  split; [split; [exact demo_df_ok|done]|]. intros f. assert (fds_of f demo_kernel = []) as ->.
  { unfold fds_of. induction fd_range as [|j l IH]; [done|]. rewrite filter_cons, IH. rewrite decide_False; [done|].
    unfold fd_map. cbn. destruct (in_limit j); [by rewrite lookup_empty|done]. }
  destruct f; done.
Qed.

Definition demo_path : option cstr := Some (Utf8 "/d/f").

Definition posix_after (o : outcome (Z * demo_posix)) : demo_posix := run_or demo_kernel (snd <$> o).
(** [/d/f] opened for writing and reading, with three bytes written. *)
Definition demo_written : demo_posix := posix_after (sys_write 0 (Some [1; 2; 3]) (posix_after (sys_open demo_path 2 0 demo_kernel))).


Lemma dup2_same_unchecked_witness : sys_dup2 7 7 demo_written = Ret (7, demo_written) ∧ sys_dup 7 demo_written = Ret (- errno LinuxError.EBADF, demo_written).
Proof. apply (dup2_same_unchecked 7 demo_written); [unfold is_int; lia|vm_compute; reflexivity]. Defined.

Lemma lseek_then_read_panics_witness : ∃ p', sys_lseek 0 (-1) 0 demo_written = Ret (-1, p') ∧ sys_read 0 (Some tt) 2 p' = Panic.
Proof.
  eapply (lseek_then_read_panics demo_written 0 0%nat _ _ [1; 2; 3]).
  - unfold is_int. lia.
  - vm_compute. reflexivity.
  - vm_compute. reflexivity.
  - vm_compute. reflexivity.
  - vm_compute. reflexivity.
  - cbn. lia.
Defined.

Lemma open_ignores_excl_witness : flags_to_options (Z.lor O_CREAT O_EXCL) = flags_to_options O_CREAT.
Proof. apply (open_ignores_excl O_CREAT). unfold O_CREAT. lia. Defined.
