(* ===== verification/PipeFile.v ===== *)
(** Pipes behind file descriptors: [sys_pipe] and [FileLike for Pipe] of
    [arceos_posix_api/src/imp/pipe.rs] on top of the descriptor table.

    The files are [PipeFl], an end of a pipe or a file of another kind.  The state has
    the pipes, by number: the ring buffer of [Pipe.v] and the references to each of the
    two [Pipe] structures, which the descriptors share through an [Arc]; the buffer's
    strong count is the number of these structures that are still alive.  A read or
    write runs here without another task: it either returns within two rounds of its
    loop or waits for one, which is written as no result ([Panic]); the theorems show
    the results.  They say that [sys_pipe] opens two descriptors or none, and that bytes
    written to one end are read, in order, from the other until the end of file. *)

From stdpp Require Import prelude gmap list.
From Stdlib Require Import ZArith Lia.
From S2P Require Import Prelude Pipe FdTable.
Local Open Scope Z_scope.
Local Open Scope kernel_scope.

Section pipes.
Context {Fl W : Type} {other : FileLike Fl W}.

Inductive PipeFl : Type :=
| PipeEnd (id : nat) (p : Pipe)
| NotPipe (f : Fl).

Record pipe_obj : Type := { po_shared : PipeShared; po_read : nat; po_write : nat }.
Record pipes : Type := { pp_objs : gmap nat pipe_obj; pp_next : nat; pp_other : W }.
Definition set_objs (m : gmap nat pipe_obj) (w : pipes) : pipes := {| pp_objs := m; pp_next := pp_next w; pp_other := pp_other w |}.
Definition set_other (o : W) (w : pipes) : pipes := {| pp_objs := pp_objs w; pp_next := pp_next w; pp_other := o |}.
Definition on_other {A} (m : SM W LinuxError.t A) : SM pipes LinuxError.t A := λ w,
  match m (pp_other w) with
  | Ret (r, o) => Ret (r, set_other o w)
  | Panic => Panic
  end.
(** An operation on the buffer of a pipe; the second case is a call that waits. *)
Definition on_pipe {A} (id : nat) (m : PipeShared → option (outcome (result A LinuxError.t * PipeShared))) : SM pipes LinuxError.t A := λ w,
  match pp_objs w !! id with
  | None => Panic
  | Some o =>
      match m (po_shared o) with
      | None | Some Panic => Panic
      | Some (Ret (r, sh)) => Ret (r, set_objs (<[id := {| po_shared := sh; po_read := po_read o; po_write := po_write o |}]> (pp_objs w)) w)
      end
  end.

(** *** [FileLike for Pipe] *)
Definition pf_read (f : PipeFl) (buf_len : Z) : SM pipes LinuxError.t (list Z) :=
  match f with
  | PipeEnd id p => let! r := on_pipe id (pipe_read p 2 (Z.to_nat buf_len)) in sm_ret (snd r)
  | NotPipe f => on_other (fl_read f buf_len)
  end.
Definition pf_write (f : PipeFl) (buf : list Z) : SM pipes LinuxError.t Z :=
  match f with
  | PipeEnd id p => let! n := on_pipe id (pipe_write p 2 buf) in sm_ret (Z.of_nat n)
  | NotPipe f => on_other (fl_write f buf)
  end.
Definition pf_stat (f : PipeFl) : SM pipes LinuxError.t stat :=
  match f with
  | PipeEnd _ _ => sm_ret {| st_ino := 1; st_nlink := 1; st_mode := Z.lor 4096 384; st_uid := 1000; st_gid := 1000; st_size := 0;
                             st_blocks := 0; st_blksize := 4096 |}
  | NotPipe f => on_other (fl_stat f)
  end.
Definition pf_poll (f : PipeFl) : SM pipes LinuxError.t PollState :=
  match f with
  | PipeEnd id p => on_pipe id (λ sh, let (r, w) := pipe_poll p sh in Some (Ret (Ok {| poll_readable := r; poll_writable := w |}, sh)))
  | NotPipe f => on_other (fl_poll f)
  end.
Definition pf_set_nonblocking (f : PipeFl) (b : bool) : SM pipes LinuxError.t unit :=
  match f with PipeEnd _ _ => sm_ret tt | NotPipe f => on_other (fl_set_nonblocking f b) end.

(** One more, or one less, reference to an end. *)
Definition clone_end (p : Pipe) (o : pipe_obj) : pipe_obj :=
  if readable p then {| po_shared := po_shared o; po_read := S (po_read o); po_write := po_write o |}
  else {| po_shared := po_shared o; po_read := po_read o; po_write := S (po_write o) |}.
(** The last reference to an end drops its share of the buffer. *)
Definition drop_end (p : Pipe) (o : pipe_obj) : pipe_obj :=
  let sh := po_shared o in
  let less := {| buffer := buffer sh; strong_count := strong_count sh - 1 |} in
  if readable p then {| po_shared := if (po_read o =? 1)%nat then less else sh; po_read := po_read o - 1; po_write := po_write o |}
  else {| po_shared := if (po_write o =? 1)%nat then less else sh; po_read := po_read o; po_write := po_write o - 1 |}.
Definition pf_clone (f : PipeFl) (w : pipes) : pipes :=
  match f with
  | PipeEnd id p => match pp_objs w !! id with
                    | Some o => set_objs (<[id := clone_end p o]> (pp_objs w)) w
                    | None => w
                    end
  | NotPipe f => set_other (fl_clone f (pp_other w)) w
  end.
Definition pf_drop (f : PipeFl) (w : pipes) : pipes :=
  match f with
  | PipeEnd id p => match pp_objs w !! id with
                    | Some o => let o := drop_end p o in
                        if (strong_count (po_shared o) =? 0)%nat then set_objs (delete id (pp_objs w)) w
                        else set_objs (<[id := o]> (pp_objs w)) w
                    | None => w
                    end
  | NotPipe f => set_other (fl_drop f (pp_other w)) w
  end.
#[export] Instance pipe_like : FileLike PipeFl pipes := {|
  fl_read := pf_read; fl_write := pf_write; fl_stat := pf_stat; fl_poll := pf_poll;
  fl_set_nonblocking := pf_set_nonblocking; fl_clone := pf_clone; fl_drop := pf_drop |}.

Context {errnos : AxErrno} {table : FlattenObjects PipeFl}.
Abbreviation state := (posix PipeFl pipes).
Abbreviation P := (SM state LinuxError.t).

(** [Pipe::new], with one reference to each end. *)
Definition new_pipe : P (PipeFl * PipeFl) := λ p,
  let w := px_world p in
  let '((read_end, write_end), sh) := pipe_new in
  Ret (Ok (PipeEnd (pp_next w) read_end, PipeEnd (pp_next w) write_end),
       set_world {| pp_objs := <[pp_next w := {| po_shared := sh; po_read := 1; po_write := 1 |}]> (pp_objs w);
                    pp_next := S (pp_next w); pp_other := pp_other w |} p).
Definition drop_file (f : PipeFl) : P unit := sm_modify (λ p, set_world (fl_drop f (px_world p)) p).

(** [inspect_err]: the action runs when [m] fails. *)
Definition inspect_err {A} (m : P A) (k : P unit) : P A :=
  sm_catch m (λ r, match r with Ok a => sm_ret a | Err e => sm_catch k (λ _, sm_err e) end).

(** The code returned and, with 0, the two descriptors stored. *)
Definition pipe_body (fds_len : Z) : P (Z * Z) :=
  if negb (fds_len =? 2) then sm_err LinuxError.EFAULT
  else
    let! ends := new_pipe in
    let! read_fd := inspect_err (add_file_like (fst ends)) (drop_file (snd ends)) in
    let! write_fd := inspect_err (add_file_like (snd ends)) (close_file_like read_fd) in
    sm_ret (read_fd, write_fd).
Definition sys_pipe (fds_len : Z) : state → outcome (Z * option (Z * Z) * state) := λ p,
  match pipe_body fds_len p with
  | Ret (Ok fds, p) => Ret (0, Some fds, p)
  | Ret (Err e, p) => Ret (- errno e, None, p)
  | Panic => Panic
  end.
End pipes.
Arguments PipeFl Fl : clear implicits.
Arguments pipes W : clear implicits.

(** * Properties *)

Section properties.
Context {Fl W : Type} {other : FileLike Fl W} {errnos : AxErrno} {table : FlattenObjects (PipeFl Fl)}
  {tlaws : FlattenLaws (T:=PipeFl Fl) AX_FILE_LIMIT}.
Implicit Types (p : posix (PipeFl Fl) (pipes W)).

Abbreviation read_end := {| readable := true |}.
Abbreviation write_end := {| readable := false |}.
Definition full p : Prop := ∀ j, 0 ≤ j < AX_FILE_LIMIT → is_Some (fd_map p j).

(** Taking a file out of the table that has just been put in. *)
Lemma close_opened p p' fd (f : PipeFl Fl) :
  opened fd f p p' →
  ∃ p'', close_file_like fd p' = Ret (Ok tt, p'') ∧ px_world p'' = fl_drop f (px_world p') ∧ ∀ j, fd_map p'' j = fd_map p j.
Proof.
  intros (Hr & Hn & Hj). unfold close_file_like. assert (is_int fd) as Hint by (unfold is_int, AX_FILE_LIMIT in *; lia).
  destruct (obj_remove _ _) as [[g t]|] eqn:Hrm.
  - apply obj_remove_Some in Hrm as [Hg Hj']. rewrite get_fd, Hj, bool_decide_true in Hg by done. injection Hg as <-.
    eexists. split; [done|]. split; [done|]. intros j. unfold fd_map in *. cbn. rewrite Hj'.
    rewrite fd_as_usize_id by (unfold AX_FILE_LIMIT in *; lia). case_bool_decide as Hjf; [by subst|]. by rewrite Hj, bool_decide_false.
  - apply obj_remove_None in Hrm. rewrite get_fd, Hj, bool_decide_true in Hrm by done. done.
Qed.

(** The world with a new pipe, and what is left of it when both ends are dropped. *)
Definition with_pipe (w : pipes W) : pipes W :=
  {| pp_objs := <[pp_next w := {| po_shared := snd pipe_new; po_read := 1; po_write := 1 |}]> (pp_objs w);
     pp_next := S (pp_next w); pp_other := pp_other w |}.
Definition past_pipe (w : pipes W) : pipes W := {| pp_objs := pp_objs w; pp_next := S (pp_next w); pp_other := pp_other w |}.
Lemma drop_both a b w :
  pp_objs w !! pp_next w = None → readable a ≠ readable b →
  pf_drop (PipeEnd (pp_next w) a) (pf_drop (PipeEnd (pp_next w) b) (with_pipe w)) = past_pipe w.
Proof.
  intros Hn Hab. cbn. rewrite lookup_insert_eq. unfold drop_end. cbn. unfold past_pipe.
  destruct a as [[]], b as [[]]; try done; cbn; rewrite lookup_insert_eq; cbn; by rewrite insert_insert_eq, delete_insert_id.
Qed.

Lemma inspect_err_eq {A} (m : SM (posix (PipeFl Fl) (pipes W)) LinuxError.t A) k p :
  inspect_err m k p =
  match m p with
  | Ret (Err e, p') => match k p' with Ret (_, p'') => Ret (Err e, p'') | Panic => Panic end
  | r => r
  end.
Proof. unfold inspect_err, sm_catch. by destruct (m p) as [[[a|e] p']|]. Qed.

Lemma pipe_body_spec p :
  let w := px_world p in
  pp_objs w !! pp_next w = None →
  (∃ rfd wfd p1 p', pipe_body 2 p = Ret (Ok (rfd, wfd), p') ∧ px_world p' = with_pipe w ∧
     opened rfd (PipeEnd (pp_next w) read_end) p p1 ∧ opened wfd (PipeEnd (pp_next w) write_end) p1 p') ∨
  (∃ p', pipe_body 2 p = Ret (Err LinuxError.EMFILE, p') ∧ px_world p' = past_pipe w ∧ (∀ j, fd_map p' j = fd_map p j) ∧
     ∀ i j, 0 ≤ i < AX_FILE_LIMIT → 0 ≤ j < AX_FILE_LIMIT → i ≠ j → is_Some (fd_map p i) ∨ is_Some (fd_map p j)).
Proof.
  intros w Hfresh. remember (pipe_body 2 p) as res eqn:Hb. unfold pipe_body, sm_bind at 1, new_pipe in Hb. cbn [pipe_new] in Hb.
  change (negb (2 =? 2)) with false in Hb. cbv beta iota zeta in Hb. fold w in Hb. set (p0 := set_world _ p) in Hb.
  assert (px_world p0 = with_pipe w) as Hw0 by done. cbn [fst snd] in Hb.
  set (re := PipeEnd _ read_end) in *. set (we := PipeEnd _ write_end) in *. unfold sm_bind at 1 in Hb. rewrite inspect_err_eq in Hb.
  destruct (add_file_like_spec re p0) as [(rfd & p1 & Ha1 & Ho1 & Hw1)|[Ha1 Hfull]]; rewrite Ha1 in Hb.
  - unfold sm_bind in Hb. rewrite inspect_err_eq in Hb.
    destruct (add_file_like_spec we p1) as [(wfd & p2 & Ha2 & Ho2 & Hw2)|[Ha2 Hfull]]; rewrite Ha2 in Hb.
    + left. exists rfd, wfd, p1, p2. split; [done|]. split; [congruence|done].
    + right. set (p2 := set_world (fl_drop we (px_world p1)) p1) in *.
      destruct (close_opened p0 p2 rfd re) as (p3 & Hcl3 & Hw3 & Hj3); [done|]. rewrite Hcl3 in Hb.
      exists p3. split; [done|]. split; [|split; [done|]].
      * rewrite Hw3. cbn [p2 px_world set_world]. rewrite Hw1, Hw0. by apply (drop_both read_end write_end w).
      * intros i j Hi Hj Hij. destruct Ho1 as (_ & _ & Hm). destruct (Hfull i Hi) as [f Hf]. destruct (Hfull j Hj) as [g Hg].
        rewrite Hm in Hf, Hg. destruct (decide (i = rfd)) as [->|Hir].
        -- right. rewrite bool_decide_false in Hg by done. by exists g.
        -- left. rewrite bool_decide_false in Hf by done. by exists f.
  - right. unfold drop_file, sm_modify in Hb. cbv beta iota in Hb. eexists. split; [exact Hb|]. split; [|split; [done|]].
    + cbn [px_world set_world]. rewrite Hw0. by apply (drop_both write_end read_end w).
    + intros i j Hi _ _. left. by apply Hfull.
Qed.

(** *** Reading and writing through descriptors *)

Definition pipe_at p (id : nat) (o : pipe_obj) : Prop := pp_objs (px_world p) !! id = Some o ∧ ring_wf (buffer (po_shared o)).
Definition queue (o : pipe_obj) : list Z := contents (buffer (po_shared o)).
Definition same_refs (o o' : pipe_obj) : Prop :=
  strong_count (po_shared o') = strong_count (po_shared o) ∧ po_read o' = po_read o ∧ po_write o' = po_write o.

Lemma write_loop_fits k buf sh :
  ring_wf (buffer sh) → (length buf < RING_BUFFER_SIZE - length (contents (buffer sh)))%nat →
  ∃ rb, write_loop (S k) buf 0 sh = Some (Ret (length buf, {| buffer := rb; strong_count := strong_count sh |})) ∧
    ring_wf rb ∧ contents rb = contents (buffer sh) ++ buf.
Proof.
  intros Hwf Hlt. destruct (write_iter_spec buf 0 sh Hwf) as (rb & Hit & Hwf' & Hc); [lia|]. exists rb. cbn [write_loop].
  rewrite Hit. rewrite Nat.sub_0_r in *. destruct (Nat.eqb_spec (RING_BUFFER_SIZE - length (contents (buffer sh))) 0); [lia|].
  destruct (Nat.ltb_spec (length buf) (RING_BUFFER_SIZE - length (contents (buffer sh)))); [|lia].
  split; [done|]. split; [done|]. rewrite Hc, drop_0, take_ge by lia. done.
Qed.

Lemma write_fits p fd id o data :
  is_int fd → fd_map p fd = Some (PipeEnd id write_end) → pipe_at p id o →
  (length data < RING_BUFFER_SIZE - length (queue o))%nat →
  ∃ o' p', sys_write fd (Some data) p = Ret (Z.of_nat (length data), p') ∧ FD_TABLE p' = FD_TABLE p ∧
    pipe_at p' id o' ∧ queue o' = queue o ++ data ∧ same_refs o o'.
Proof.
  intros Hfd Hf [Ho Hwf] Hlt. destruct (write_loop_fits 1 data (po_shared o) Hwf Hlt) as (rb & Hl & Hwf' & Hc).
  exists {| po_shared := {| buffer := rb; strong_count := strong_count (po_shared o) |}; po_read := po_read o; po_write := po_write o |}.
  unfold sys_write, syscall_body, sm_bind. rewrite get_file_like_eq, Hf by done. cbn [ok_or]. unfold on_world.
  cbn [fl_write pipe_like pf_write]. unfold sm_bind, on_pipe. rewrite Ho. unfold pipe_write. cbn [writable readable negb]. rewrite Hl.
  eexists. split; [done|]. split; [done|]. split; [|done]. split; [|done]. cbn. apply lookup_insert_eq.
Qed.

(** A read that does not have to wait: fewer bytes are asked for than there are, or no
    other end is alive. *)
Lemma read_ready p fd id o n :
  is_int fd → fd_map p fd = Some (PipeEnd id read_end) → pipe_at p id o → 0 ≤ n →
  (Z.to_nat n < length (queue o))%nat ∨ strong_count (po_shared o) = 1%nat →
  ∃ o' p', sys_read fd (Some tt) n p = Ret (Z.of_nat (length (take (Z.to_nat n) (queue o))), take (Z.to_nat n) (queue o), p') ∧
    FD_TABLE p' = FD_TABLE p ∧ pipe_at p' id o' ∧ queue o' = drop (Z.to_nat n) (queue o) ∧
    strong_count (po_shared o') = strong_count (po_shared o).
Proof.
  intros Hfd Hf [Ho Hwf] Hn Hcase. destruct (pipe_read_returns read_end 2 (Z.to_nat n) (po_shared o) Hwf Hcase) as (sh & Hrd & Hc & Hwf' & Hk); [lia|].
  exists {| po_shared := sh; po_read := po_read o; po_write := po_write o |}.
  unfold sys_read, sm_bind. rewrite get_file_like_eq, Hf by done. cbn [ok_or]. unfold on_world.
  cbn [fl_read pipe_like pf_read]. unfold sm_bind, on_pipe. rewrite Ho, Hrd. cbn [readable].
  eexists. split; [done|]. split; [done|]. split; [|done]. split; [|done]. cbn. apply lookup_insert_eq.
Qed.

(** Closing the only descriptor of the write end. *)
Lemma close_write_end p wfd id o :
  is_int wfd → 2 < wfd → fd_map p wfd = Some (PipeEnd id write_end) → pipe_at p id o →
  strong_count (po_shared o) = 2%nat → po_write o = 1%nat →
  ∃ o' p', sys_close wfd p = Ret (0, p') ∧ pipe_at p' id o' ∧ queue o' = queue o ∧ strong_count (po_shared o') = 1%nat ∧
    ∀ j, fd_map p' j = if bool_decide (j = wfd) then None else fd_map p j.
Proof.
  intros Hint H2 Hf [Ho Hwf] Hsc Hpw. destruct (sys_close_spec wfd p Hint) as (r & p' & Hc & Hs).
  rewrite bool_decide_false in Hs by lia. rewrite Hf in Hs. destruct Hs as (-> & Hw & Hj). exists (drop_end write_end o), p'.
  cbn in Hw. rewrite Ho in Hw. unfold drop_end in Hw. cbn in Hw. rewrite Hpw in Hw. cbn in Hw. rewrite Hsc in Hw. cbn in Hw.
  unfold drop_end, queue. cbn. rewrite Hpw, Hsc. cbn. split_and!; [done| |done..|]; [split; [|done]; rewrite Hw; cbn; apply lookup_insert_eq|].
  intros j. rewrite Hj. done.
Qed.

(** [sys_pipe] opens two new descriptors, the read end and the write end of a new
    empty pipe, or none: with fewer than two free descriptors it answers [EMFILE], and
    the table and the pipes are as before. *)
Theorem sys_pipe_all_or_none p fds_len :
  let w := px_world p in
  pp_objs w !! pp_next w = None →
  ∃ r fds p', sys_pipe fds_len p = Ret (r, fds, p') ∧ pp_other (px_world p') = pp_other w ∧
    match fds with
    | Some (rfd, wfd) => r = 0 ∧ rfd ≠ wfd ∧ fd_map p rfd = None ∧ fd_map p wfd = None ∧
        (∀ j, fd_map p' j = if bool_decide (j = rfd) then Some (PipeEnd (pp_next w) read_end)
                            else if bool_decide (j = wfd) then Some (PipeEnd (pp_next w) write_end) else fd_map p j) ∧
        ∃ o, pp_objs (px_world p') = <[pp_next w := o]> (pp_objs w) ∧ queue o = [] ∧ po_read o = 1%nat ∧ po_write o = 1%nat
    | None => (∀ j, fd_map p' j = fd_map p j) ∧ pp_objs (px_world p') = pp_objs w ∧
        (fds_len ≠ 2 ∧ r = - errno LinuxError.EFAULT ∨
         fds_len = 2 ∧ r = - errno LinuxError.EMFILE ∧
         ∀ i j, 0 ≤ i < AX_FILE_LIMIT → 0 ≤ j < AX_FILE_LIMIT → i ≠ j → is_Some (fd_map p i) ∨ is_Some (fd_map p j))
    end.
Proof.
  intros w Hfresh. unfold sys_pipe. destruct (decide (fds_len = 2)) as [->|Hne].
  2: { unfold pipe_body. rewrite (proj2 (Z.eqb_neq _ _) Hne). eexists _, None, p. split; [done|]. split; [done|]. split_and!; [done..|]. by left. }
  destruct (pipe_body_spec p Hfresh) as [(rfd & wfd & p1 & p' & -> & Hw & Ho1 & Ho2)|(p' & -> & Hw & Hj & Hfull)].
  - eexists 0, (Some (rfd, wfd)), p'. split; [done|]. rewrite Hw. split; [done|]. destruct Ho1 as (_ & Hn1 & Hj1), Ho2 as (_ & Hn2 & Hj2).
    rewrite Hj1 in Hn2. case_bool_decide as Hrw; [done|]. split_and!; [done| |done..| |].
    + intros Heq. by apply Hrw.
    + intros j. rewrite Hj2, Hj1. repeat case_bool_decide; subst; done || congruence.
    + eexists. split; [done|]. done.
  - eexists _, None, p'. split; [done|]. rewrite Hw. split; [done|]. split_and!; [done..|]. by right.
Qed.

(** Bytes written to a new pipe come out of its read end in order: after a write of
    fewer than 256 bytes and the close of the write descriptor, two reads of any sizes
    return the first bytes and the ones that follow, and 0 bytes at the end of the data. *)
Theorem pipe_fds_roundtrip p rfd wfd p1 data n m :
  pp_objs (px_world p) !! pp_next (px_world p) = None →
  sys_pipe 2 p = Ret (0, Some (rfd, wfd), p1) → 2 < wfd → (length data < 256)%nat → 0 ≤ n → 0 ≤ m →
  ∃ p2 p3 p4 p5,
    sys_write wfd (Some data) p1 = Ret (Z.of_nat (length data), p2) ∧ sys_close wfd p2 = Ret (0, p3) ∧
    let first := take (Z.to_nat n) data in
    let rest := take (Z.to_nat m) (drop (Z.to_nat n) data) in
    sys_read rfd (Some tt) n p3 = Ret (Z.of_nat (length first), first, p4) ∧
    sys_read rfd (Some tt) m p4 = Ret (Z.of_nat (length rest), rest, p5).
Proof.
  intros Hfresh Hp Hw2 Hlen Hn Hm. unfold sys_pipe in Hp.
  destruct (pipe_body_spec p Hfresh) as [(r' & w' & q & p' & Hb & Hw & Ho1 & Ho2)|(p' & Hb & _)]; rewrite Hb in Hp; [|done].
  injection Hp as -> -> ->. destruct Ho1 as (Hr1 & _ & Hj1), Ho2 as (Hr2 & Hn2 & Hj2). set (id := pp_next (px_world p)) in *.
  assert (is_int rfd ∧ is_int wfd) as [Hi1 Hi2] by (unfold is_int, AX_FILE_LIMIT in *; lia).
  assert (rfd ≠ wfd) as Hne. { intros ->. by rewrite Hj1, bool_decide_true in Hn2. }
  assert (fd_map p1 wfd = Some (PipeEnd id write_end)) as Hfw by (by rewrite Hj2, bool_decide_true).
  assert (fd_map p1 rfd = Some (PipeEnd id read_end)) as Hfr by (by rewrite Hj2, bool_decide_false, Hj1, bool_decide_true).
  destruct (write_fits p1 wfd id {| po_shared := snd pipe_new; po_read := 1; po_write := 1 |} data) as (o2 & p2 & Hwr & Ht2 & Hat2 & Hq2 & Hrefs); [done..| | |].
  { split; [rewrite Hw; cbn; apply lookup_insert_eq|apply ring_new_wf]. }
  { change (length data < 256 - 0)%nat. lia. }
  destruct Hrefs as (Hs2 & _ & Hpw2). change (queue o2 = [] ++ data) in Hq2.
  destruct (close_write_end p2 wfd id o2) as (o3 & p3 & Hcl & Hat3 & Hq3 & Hs3 & Hj3); [done|done| |done..|].
  { unfold fd_map. by rewrite Ht2. }
  destruct (read_ready p3 rfd id o3 n) as (o4 & p4 & Hr4 & Ht4 & Hat4 & Hq4 & Hs4); [done| |done|done|by right|].
  { rewrite Hj3, bool_decide_false by done. unfold fd_map. by rewrite Ht2. }
  destruct (read_ready p4 rfd id o4 m) as (o5 & p5 & Hr5 & _); [done| |done|done|right; congruence|].
  { unfold fd_map. rewrite Ht4. fold (fd_map p3 rfd). rewrite Hj3, bool_decide_false by done. unfold fd_map. by rewrite Ht2. }
  rewrite Hq4, Hq3, Hq2 in Hr5. rewrite Hq3, Hq2 in Hr4. by exists p2, p3, p4, p5.
Qed.
End properties.
