(* ===== verification/Select.v ===== *)
(** [select] ([arceos_posix_api/src/imp/io_mpx/select.rs]) on top of the descriptor
    table.

    The descriptor sets are arrays of sixteen 64-bit words.  [FdSets] copies the words
    that hold the first [nfds] descriptors into an array that is otherwise
    uninitialised: a word is an [option], and reading [None] is a panic here, since it
    would be undefined behaviour.  The theorems: the loops over words and bits poll
    exactly the descriptors below [nfds] that are in a set, in order, and never read an
    uninitialised word; a round of [select] leaves in the sets exactly the descriptors
    that are ready; and [select] returns in the first round that finds one. *)

From stdpp Require Import prelude list.
From Stdlib Require Import ZArith Lia.
From S2P Require Import Prelude FdTable.
Local Open Scope Z_scope.
Local Open Scope kernel_scope.

Definition FD_SETSIZE : Z := 1024.
Definition BITS_PER_USIZE : Z := 64.
Definition div_ceil (a b : Z) : Z := (a + b - 1) / b.
Definition FD_SETSIZE_USIZES : Z := div_ceil FD_SETSIZE BITS_PER_USIZE.

(** A pointer to an [fd_set]: null, or its words. *)
Abbreviation fd_set := (option (list Z)).

Record FdSets : Type := { fs_nfds : Z; fs_bits : list (option Z) }.

(** One third of the array: the words copied, the rest uninitialised. *)
Definition copy_from_fd_set (nfds_usizes : Z) (fds : fd_set) : list (option Z) :=
  let n := Z.to_nat nfds_usizes in
  match fds with
  | None => replicate n (Some 0)
  | Some words => Some <$> take n words
  end ++ replicate (Z.to_nat FD_SETSIZE_USIZES - n) None.
Definition FdSets_from (nfds : Z) (read_fds write_fds except_fds : fd_set) : FdSets :=
  let nfds := Z.min nfds FD_SETSIZE in
  let nfds_usizes := div_ceil nfds BITS_PER_USIZE in
  {| fs_nfds := nfds;
     fs_bits := copy_from_fd_set nfds_usizes read_fds ++ copy_from_fd_set nfds_usizes write_fds ++
                copy_from_fd_set nfds_usizes except_fds |}.

(** [*ptr], the pointer as an index. *)
Definition read_word (bits : list (option Z)) (ptr : nat) : outcome Z :=
  match bits !! ptr with Some (Some w) => Ret w | _ => Panic end.

Definition zero_fd_set (fds : fd_set) (nfds : Z) : outcome fd_set :=
  match fds with
  | None => Ret None
  | Some words =>
      let n := Z.to_nat (div_ceil nfds BITS_PER_USIZE) in
      if (length words <? n)%nat then Panic else Ret (Some (replicate n 0 ++ drop n words))
  end.
Definition set_fd_set (fds : fd_set) (fd : Z) : outcome fd_set :=
  match fds with
  | None => Ret None
  | Some words =>
      let i := Z.to_nat (fd / BITS_PER_USIZE) in
      match words !! i with
      | Some w => Ret (Some (<[i := Z.lor w (Z.shiftl 1 (fd mod BITS_PER_USIZE))]> words))
      | None => Panic
      end
  end.

Section select.
Context {Fl W : Type} {errnos : AxErrno} {table : FlattenObjects Fl} {flike : FileLike Fl W}.

(** The kernel and the three sets of the caller. *)
Record selecting : Type := { sl_posix : posix Fl W; res_read : fd_set; res_write : fd_set; res_except : fd_set }.
Abbreviation M := (SM selecting LinuxError.t).

Definition on_posix {A} (m : SM (posix Fl W) LinuxError.t A) : M A := λ s,
  match m (sl_posix s) with
  | Ret (r, p) => Ret (r, {| sl_posix := p; res_read := res_read s; res_write := res_write s; res_except := res_except s |})
  | Panic => Panic
  end.
Definition mark_read (fd : Z) : M unit := λ s,
  match set_fd_set (res_read s) fd with
  | Ret r => Ret (Ok tt, {| sl_posix := sl_posix s; res_read := r; res_write := res_write s; res_except := res_except s |})
  | Panic => Panic
  end.
Definition mark_write (fd : Z) : M unit := λ s,
  match set_fd_set (res_write s) fd with
  | Ret r => Ret (Ok tt, {| sl_posix := sl_posix s; res_read := res_read s; res_write := r; res_except := res_except s |})
  | Panic => Panic
  end.
Definition mark_except (fd : Z) : M unit := λ s,
  match set_fd_set (res_except s) fd with
  | Ret r => Ret (Ok tt, {| sl_posix := sl_posix s; res_read := res_read s; res_write := res_write s; res_except := r |})
  | Panic => Panic
  end.

(** [if c { mark; res_num += 1 }]. *)
Definition count_if (c : bool) (mark : M unit) (res_num : Z) : M Z :=
  if c then do! mark in sm_ret (res_num + 1) else sm_ret res_num.

(** The body for a descriptor in one of the sets. *)
Definition poll_fd (fd : Z) (in_read in_write in_except : bool) (res_num : Z) : M Z :=
  let! f := on_posix (get_file_like fd) in
  sm_catch (on_posix (on_world (fl_poll f))) (λ r,
    match r with
    | Ok state =>
        let! res_num := count_if (poll_readable state && in_read) (mark_read fd) res_num in
        count_if (poll_writable state && in_write) (mark_write fd) res_num
    | Err _ => count_if in_except (mark_except fd) res_num
    end).

(** The loop over the bits of a word, at most 64 times. *)
Fixpoint poll_bits (fuel : nat) (nfds i j read_bits write_bits except_bits res_num : Z) : M Z :=
  match fuel with
  | O => sm_panic
  | S fuel =>
      if (j <? BITS_PER_USIZE) && (i + j <? nfds) then
        let bit := Z.shiftl 1 j in
        let all_bits := Z.lor (Z.lor read_bits write_bits) except_bits in
        if Z.land all_bits bit =? 0 then poll_bits fuel nfds i (j + 1) read_bits write_bits except_bits res_num
        else
          let! res_num := poll_fd (i + j) (negb (Z.land read_bits bit =? 0)) (negb (Z.land write_bits bit =? 0))
                            (negb (Z.land except_bits bit =? 0)) res_num in
          poll_bits fuel nfds i (j + 1) read_bits write_bits except_bits res_num
      else sm_ret res_num
  end.

(** The loop over the words, at most sixteen times. *)
Fixpoint poll_words (fuel : nat) (nfds : Z) (bits : list (option Z)) (rp wp ep : nat) (i res_num : Z) : M Z :=
  match fuel with
  | O => sm_panic
  | S fuel =>
      if i <? nfds then
        match read_word bits rp, read_word bits wp, read_word bits ep with
        | Ret read_bits, Ret write_bits, Ret except_bits =>
            let all_bits := Z.lor (Z.lor read_bits write_bits) except_bits in
            if all_bits =? 0 then poll_words fuel nfds bits (S rp) (S wp) (S ep) (i + BITS_PER_USIZE) res_num
            else
              let! res_num := poll_bits 65 nfds i 0 read_bits write_bits except_bits res_num in
              poll_words fuel nfds bits (S rp) (S wp) (S ep) (i + BITS_PER_USIZE) res_num
        | _, _, _ => sm_panic
        end
      else sm_ret res_num
  end.
Definition FdSets_poll_all (fd_sets : FdSets) : M Z :=
  poll_words 17 (fs_nfds fd_sets) (fs_bits fd_sets) 0 (Z.to_nat FD_SETSIZE_USIZES) (Z.to_nat (FD_SETSIZE_USIZES * 2)) 0 0.

(** One round of the loop of [sys_select]: [Some] is the value returned, [None] goes on
    after the yield. *)
Definition select_round (fd_sets : FdSets) (deadline : option Z) (now : Z) : M (option Z) :=
  let! res := FdSets_poll_all fd_sets in
  if 0 <? res then sm_ret (Some res)
  else sm_ret (match deadline with Some ddl => if ddl <=? now then Some 0 else None | None => None end).

(** The rounds, with the time each one reads and what the rest of the system does while
    the caller yields; [None] when [sched] ends before [select] does. *)
Fixpoint select_loop (fd_sets : FdSets) (deadline : option Z) (sched : list (Z * (posix Fl W → posix Fl W))) : M (option Z) :=
  match sched with
  | [] => sm_ret None
  | (now, others) :: sched =>
      let! r := select_round fd_sets deadline now in
      match r with
      | Some n => sm_ret (Some n)
      | None => λ s, select_loop fd_sets deadline sched
          {| sl_posix := others (sl_posix s); res_read := res_read s; res_write := res_write s; res_except := res_except s |}
      end
  end.

(** [timeout] is a duration, [start] the time at the call. *)
Definition sys_select (nfds : Z) (timeout : option Z) (start : Z) (sched : list (Z * (posix Fl W → posix Fl W))) (s : selecting) :
    outcome (option Z * selecting) :=
  if nfds <? 0 then Ret (Some (- errno LinuxError.EINVAL), s)
  else
    let nfds := Z.min nfds FD_SETSIZE in
    let deadline := (λ t, start + t) <$> timeout in
    let fd_sets := FdSets_from nfds (res_read s) (res_write s) (res_except s) in
    match zero_fd_set (res_read s) nfds, zero_fd_set (res_write s) nfds, zero_fd_set (res_except s) nfds with
    | Ret r, Ret w, Ret e =>
        match select_loop fd_sets deadline sched {| sl_posix := sl_posix s; res_read := r; res_write := w; res_except := e |} with
        | Ret (Ok v, s) => Ret (v, s)
        | Ret (Err e, s) => Ret (Some (- errno e), s)
        | Panic => Panic
        end
    | _, _, _ => Panic
    end.

(** ** Reference: one descriptor after the other *)

Definition in_set (fds : fd_set) (fd : Z) : bool :=
  match fds with
  | None => false
  | Some words => Z.testbit (default 0 (words !! Z.to_nat (fd / BITS_PER_USIZE))) (fd mod BITS_PER_USIZE)
  end.
Definition poll_watched (r w e : fd_set) (fd res_num : Z) : M Z :=
  if in_set r fd || in_set w fd || in_set e fd then poll_fd fd (in_set r fd) (in_set w fd) (in_set e fd) res_num
  else sm_ret res_num.
Fixpoint poll_each (r w e : fd_set) (n : nat) (fd res_num : Z) : M Z :=
  match n with
  | O => sm_ret res_num
  | S n => let! res_num := poll_watched r w e fd res_num in poll_each r w e n (fd + 1) res_num
  end.
End select.
Arguments selecting Fl W {table}.

(** * The loops over words are the reference *)

Lemma bit_test w j : 0 ≤ j → (Z.land w (Z.shiftl 1 j) =? 0) = negb (Z.testbit w j).
Proof.
  intros Hj. rewrite Z.shiftl_1_l. destruct (Z.testbit w j) eqn:Hb; cbn.
  - apply Z.eqb_neq. intros H0. assert (Z.testbit (Z.land w (2 ^ j)) j = false) as Hx by (rewrite H0; apply Z.bits_0).
    by rewrite Z.land_spec, Hb, Z.pow2_bits_true in Hx.
  - apply Z.eqb_eq. apply Z.bits_inj'. intros n Hn. rewrite Z.land_spec, Z.bits_0.
    destruct (decide (n = j)) as [->|Hne]; [by rewrite Hb|]. by rewrite Z.pow2_bits_false, andb_false_r.
Qed.

(** A set that is there has its sixteen words. *)
Definition set_ok (fds : fd_set) : Prop := match fds with None => True | Some words => length words = 16%nat end.
Definition word_of (fds : fd_set) (k : Z) : Z := match fds with None => 0 | Some words => default 0 (words !! Z.to_nat k) end.
Lemma in_set_word fds k j : 0 ≤ j < 64 → in_set fds (64 * k + j) = Z.testbit (word_of fds k) j.
Proof.
  intros Hj. unfold in_set, word_of, BITS_PER_USIZE. replace ((64 * k + j) / 64) with k by (apply (Z.div_unique _ _ _ j); lia).
  replace ((64 * k + j) mod 64) with j by (apply (Z.mod_unique _ _ k); lia). destruct fds; [done|]. by rewrite Z.bits_0.
Qed.

Lemma length_copy n fds : 0 ≤ n ≤ 16 → set_ok fds → length (copy_from_fd_set n fds) = 16%nat.
Proof.
  intros Hn Hs. unfold copy_from_fd_set. change (Z.to_nat FD_SETSIZE_USIZES) with 16%nat. rewrite length_app, length_replicate.
  destruct fds as [words|]; cbn in Hs; rewrite ?length_fmap, ?length_take, ?length_replicate; lia.
Qed.
Lemma copy_word n fds k : 0 ≤ k < n → n ≤ 16 → set_ok fds →
  copy_from_fd_set n fds !! Z.to_nat k = Some (Some (word_of fds k)).
Proof.
  intros Hk Hn Hs. unfold copy_from_fd_set, word_of. destruct fds as [words|]; cbn in Hs.
  - destruct (lookup_lt_is_Some_2 words (Z.to_nat k)) as [w Hw]; [lia|]. rewrite lookup_app_l by (rewrite length_fmap, length_take; lia).
    rewrite list_lookup_fmap, lookup_take_lt, Hw by lia. done.
  - rewrite lookup_app_l by (rewrite length_replicate; lia). by rewrite lookup_replicate_2 by lia.
Qed.
Lemma div_ceil_spec n k : 0 ≤ n ≤ 1024 → 0 ≤ k → 64 * k < n → k < div_ceil n 64 ≤ 16.
Proof.
  intros Hn Hk Hlt. unfold div_ceil. split.
  - apply Z.lt_le_trans with (k + 1); [lia|]. apply Z.div_le_lower_bound; lia.
  - apply Z.lt_succ_r, Z.div_lt_upper_bound; lia.
Qed.
Lemma read_word_from nfds r w e k :
  0 ≤ nfds ≤ 1024 → set_ok r → set_ok w → set_ok e → 0 ≤ k → 64 * k < nfds →
  let bits := fs_bits (FdSets_from nfds r w e) in
  read_word bits (Z.to_nat k) = Ret (word_of r k) ∧ read_word bits (Z.to_nat (16 + k)) = Ret (word_of w k) ∧
  read_word bits (Z.to_nat (32 + k)) = Ret (word_of e k).
Proof.
  intros Hn Hr Hw He Hk Hlt. cbn [fs_bits FdSets_from]. rewrite Z.min_l by (unfold FD_SETSIZE; lia). change BITS_PER_USIZE with 64.
  pose proof (div_ceil_spec nfds k Hn Hk Hlt) as Hd. set (m := div_ceil nfds 64) in *. unfold read_word.
  assert (Hm : 0 ≤ m ≤ 16) by lia. rewrite (lookup_app_l _ _ (Z.to_nat k)) by (rewrite length_copy; [lia|done..]).
  rewrite (lookup_app_r _ _ (Z.to_nat (16 + k))), (lookup_app_r _ _ (Z.to_nat (32 + k))) by (rewrite length_copy; [lia|done..]).
  rewrite !length_copy by done. rewrite (lookup_app_l _ _ (Z.to_nat (16 + k) - 16)) by (rewrite length_copy; [lia|done..]).
  rewrite (lookup_app_r _ _ (Z.to_nat (32 + k) - 16)) by (rewrite length_copy; [lia|done..]). rewrite length_copy by done.
  replace (Z.to_nat (16 + k) - 16)%nat with (Z.to_nat k) by lia. replace (Z.to_nat (32 + k) - 16 - 16)%nat with (Z.to_nat k) by lia.
  by rewrite !copy_word by (done || lia).
Qed.

Section equivalence.
Context {Fl W : Type} {errnos : AxErrno} {table : FlattenObjects Fl} {flike : FileLike Fl W}.
Implicit Types (s : selecting Fl W).

Lemma poll_each_app r w e a b fd n s :
  poll_each r w e (a + b) fd n s = (let! m := poll_each r w e a fd n in poll_each r w e b (fd + Z.of_nat a) m) s.
Proof.
  revert fd n s. induction a as [|a IH]; intros fd n s; [by rewrite Z.add_0_r|]. cbn [Nat.add poll_each].
  unfold sm_bind. destruct (poll_watched r w e fd n s) as [[[m|er] s1]|]; [|done..].
  rewrite IH. unfold sm_bind. replace (fd + 1 + Z.of_nat a) with (fd + Z.of_nat (S a)) by lia. done.
Qed.
Lemma poll_each_none r w e a fd n s :
  (∀ i, 0 ≤ i < Z.of_nat a → in_set r (fd + i) || in_set w (fd + i) || in_set e (fd + i) = false) →
  poll_each r w e a fd n s = Ret (Ok n, s).
Proof.
  revert fd. induction a as [|a IH]; intros fd Hno; [done|]. cbn [poll_each]. unfold poll_watched.
  rewrite <-(Z.add_0_r fd) at 1 2 3. rewrite (Hno 0) by lia. rewrite sm_bind_ret. apply IH.
  intros i Hi. replace (fd + 1 + i) with (fd + (1 + i)) by lia. apply Hno. lia.
Qed.

(** The bits of word [k] from bit [j] on. *)
Lemma poll_bits_each r w e k nfds fuel j n s :
  0 ≤ j ≤ 64 → 64 - j < Z.of_nat fuel →
  poll_bits fuel nfds (64 * k) j (word_of r k) (word_of w k) (word_of e k) n s =
  poll_each r w e (Z.to_nat (Z.min 64 (nfds - 64 * k) - j)) (64 * k + j) n s.
Proof.
  revert j n s. induction fuel as [|fuel IH]; intros j n s Hj Hf; [lia|]. cbn [poll_bits]. change BITS_PER_USIZE with 64.
  destruct ((j <? 64) && (64 * k + j <? nfds)) eqn:Hc.
  - apply andb_true_iff in Hc as [H1%Z.ltb_lt H2%Z.ltb_lt].
    replace (Z.to_nat (Z.min 64 (nfds - 64 * k) - j)) with (S (Z.to_nat (Z.min 64 (nfds - 64 * k) - (j + 1)))) by lia.
    cbn [poll_each]. unfold poll_watched. rewrite !(in_set_word _ k j) by lia. rewrite !bit_test by lia.
    rewrite !Z.lor_spec. rewrite !negb_involutive.
    assert (∀ n s, poll_bits fuel nfds (64 * k) (j + 1) (word_of r k) (word_of w k) (word_of e k) n s =
      poll_each r w e (Z.to_nat (Z.min 64 (nfds - 64 * k) - (j + 1))) (64 * k + j + 1) n s) as Hrest.
    { intros n' s'. rewrite IH by lia. f_equal. lia. }
    destruct (Z.testbit (word_of r k) j || _ || _); cbn [negb].
    + unfold sm_bind. destruct (poll_fd _ _ _ _ _ s) as [[[m|er] s1]|]; [apply Hrest|done..].
    + rewrite sm_bind_ret. apply Hrest.
  - apply andb_false_iff in Hc as [H1%Z.ltb_ge|H2%Z.ltb_ge]; by replace (Z.to_nat (Z.min 64 (nfds - 64 * k) - j)) with 0%nat by lia.
Qed.

Lemma poll_words_each r w e nfds fuel k n s :
  0 ≤ nfds ≤ 1024 → set_ok r → set_ok w → set_ok e → 0 ≤ k ≤ 16 → 16 - k < Z.of_nat fuel →
  poll_words fuel nfds (fs_bits (FdSets_from nfds r w e)) (Z.to_nat k) (Z.to_nat (16 + k)) (Z.to_nat (32 + k)) (64 * k) n s =
  poll_each r w e (Z.to_nat (nfds - 64 * k)) (64 * k) n s.
Proof.
  intros Hn Hr Hw He. revert k n s. induction fuel as [|fuel IH]; intros k n s Hk Hf; [lia|].
  cbn [poll_words]. destruct (Z.ltb_spec (64 * k) nfds) as [Hlt|Hge]; [|by replace (Z.to_nat (nfds - 64 * k)) with 0%nat by lia].
  destruct (read_word_from nfds r w e k Hn Hr Hw He) as (-> & -> & ->); [lia..|]. change BITS_PER_USIZE with 64.
  replace (Z.to_nat (nfds - 64 * k)) with (Z.to_nat (Z.min 64 (nfds - 64 * k)) + Z.to_nat (nfds - 64 * (k + 1)))%nat by lia.
  rewrite poll_each_app.
  replace (S (Z.to_nat k)) with (Z.to_nat (k + 1)) by lia. replace (S (Z.to_nat (16 + k))) with (Z.to_nat (16 + (k + 1))) by lia.
  replace (S (Z.to_nat (32 + k))) with (Z.to_nat (32 + (k + 1))) by lia. replace (64 * k + 64) with (64 * (k + 1)) by lia.
  assert (∀ n s, poll_words fuel nfds (fs_bits (FdSets_from nfds r w e)) (Z.to_nat (k + 1)) (Z.to_nat (16 + (k + 1)))
      (Z.to_nat (32 + (k + 1))) (64 * (k + 1)) n s =
    poll_each r w e (Z.to_nat (nfds - 64 * (k + 1))) (64 * k + Z.of_nat (Z.to_nat (Z.min 64 (nfds - 64 * k)))) n s) as Hrest.
  { intros n' s'. destruct (decide (64 * (k + 1) ≤ nfds)).
    - rewrite IH by lia. f_equal. lia.
    - destruct fuel as [|fuel]; [lia|]. cbn [poll_words]. rewrite (proj2 (Z.ltb_ge _ _)) by lia.
      by replace (Z.to_nat (nfds - 64 * (k + 1))) with 0%nat by lia. }
  destruct (Z.eqb_spec (Z.lor (Z.lor (word_of r k) (word_of w k)) (word_of e k)) 0) as [H0|H0].
  - unfold sm_bind. rewrite poll_each_none; [apply Hrest|]. intros i Hi. rewrite !in_set_word by lia. by rewrite <-!Z.lor_spec, H0, Z.bits_0.
  - unfold sm_bind at 1 2. rewrite poll_bits_each by lia. rewrite Z.sub_0_r, Z.add_0_r.
    destruct (poll_each _ _ _ _ _ _ s) as [[[m|er] s1]|]; [apply Hrest|done..].
Qed.

Lemma poll_all_each r w e nfds s :
  0 ≤ nfds ≤ 1024 → set_ok r → set_ok w → set_ok e →
  FdSets_poll_all (FdSets_from nfds r w e) s = poll_each r w e (Z.to_nat nfds) 0 0 s.
Proof.
  intros Hn Hr Hw He. unfold FdSets_poll_all. replace (fs_nfds (FdSets_from nfds r w e)) with nfds.
  - rewrite <-(Z.sub_0_r nfds) at 3. apply (poll_words_each r w e nfds 17 0 0 s); done || lia.
  - cbn. unfold FD_SETSIZE. lia.
Qed.
End equivalence.

(** * What a round reports *)

Lemma set_fd_set_spec words fd :
  set_ok (Some words) → 0 ≤ fd < 1024 →
  ∃ words', set_fd_set (Some words) fd = Ret (Some words') ∧ set_ok (Some words') ∧
    ∀ j, 0 ≤ j → in_set (Some words') j = in_set (Some words) j || (j =? fd).
Proof.
  cbn. intros Hs Hfd. unfold BITS_PER_USIZE. set (i := Z.to_nat (fd / 64)).
  assert (fd / 64 < 16) as Hi by (apply Z.div_lt_upper_bound; lia). pose proof (Z.div_pos fd 64).
  destruct (lookup_lt_is_Some_2 words i) as [w Hw]; [lia|]. rewrite Hw. eexists. split; [done|]. rewrite length_insert. split; [done|].
  intros j Hj. pose proof (Z.div_pos j 64). destruct (decide (j / 64 = fd / 64)) as [He|Hne].
  - rewrite He. fold i. rewrite list_lookup_insert_eq by lia. rewrite Hw. cbn. rewrite Z.lor_spec. f_equal.
    rewrite Z.shiftl_1_l. pose proof (Z.mod_pos_bound fd 64). pose proof (Z.mod_pos_bound j 64).
    destruct (Z.eqb_spec j fd) as [->|Hjf]; [by apply Z.pow2_bits_true; lia|]. apply Z.pow2_bits_false.
    intros Hm. apply Hjf. rewrite (Z.div_mod j 64), (Z.div_mod fd 64) by lia. congruence.
  - rewrite list_lookup_insert_ne by lia. rewrite (proj2 (Z.eqb_neq j fd)) by (intros ->; done). by rewrite orb_false_r.
Qed.

Section ready.
Context {Fl W : Type} {errnos : AxErrno} {table : FlattenObjects Fl} {flike : FileLike Fl W} {tlaws : FlattenLaws (T:=Fl) AX_FILE_LIMIT}.
(** Polling a file only looks at it. *)
Context (poll : Fl → W → result PollState LinuxError.t) (poll_quiet : ∀ f w, fl_poll f w = Ret (poll f w, w)).
Implicit Types (s : selecting Fl W) (p : posix Fl W).

Definition polled p (fd : Z) : option (result PollState LinuxError.t) := (λ f, poll f (px_world p)) <$> fd_map p fd.
(** The descriptor is reported in the set. *)
Definition hit_read (r : fd_set) p (fd : Z) : bool :=
  in_set r fd && match polled p fd with Some (Ok st) => poll_readable st | _ => false end.
Definition hit_write (w : fd_set) p (fd : Z) : bool :=
  in_set w fd && match polled p fd with Some (Ok st) => poll_writable st | _ => false end.
Definition hit_except (e : fd_set) p (fd : Z) : bool :=
  in_set e fd && match polled p fd with Some (Err _) => true | _ => false end.
Definition hits (r w e : fd_set) p (fd : Z) : Z :=
  Z.b2z (hit_read r p fd) + Z.b2z (hit_write w p fd) + Z.b2z (hit_except e p fd).

(** [new] is [old] with the descriptors where [h] holds added. *)
Definition adds (h : Z → bool) (old new : fd_set) : Prop :=
  set_ok new ∧ (is_Some new ↔ is_Some old) ∧ ∀ j, 0 ≤ j → in_set new j = in_set old j || h j.
Record reports (hr hw he : Z → bool) s s' : Prop := {
  rp_posix : sl_posix s' = sl_posix s;
  rp_read : adds hr (res_read s) (res_read s');
  rp_write : adds hw (res_write s) (res_write s');
  rp_except : adds he (res_except s) (res_except s');
}.
Definition sets_ok s : Prop := set_ok (res_read s) ∧ set_ok (res_write s) ∧ set_ok (res_except s).

Lemma adds_none old h : set_ok old → (∀ j, 0 ≤ j → h j = false) → adds h old old.
Proof. intros Ho Hh. split_and!; [done..|]. intros j Hj. by rewrite Hh, orb_false_r. Qed.
Lemma adds_trans h1 h2 a b c : adds h1 a b → adds h2 b c → adds (λ j, h1 j || h2 j) a c.
Proof.
  intros (_ & Hi1 & H1) (Ho & Hi2 & H2). split_and!; [done|by rewrite Hi2|]. intros j Hj. by rewrite H2, H1, orb_assoc.
Qed.
Lemma adds_ext h1 h2 a b : (∀ j, 0 ≤ j → h1 j = h2 j) → adds h1 a b → adds h2 a b.
Proof. intros Hh (Ho & Hi & Ha). split_and!; [done..|]. intros j Hj. rewrite Ha by done. by rewrite Hh. Qed.
Lemma reports_trans hr hw he hr' hw' he' s1 s2 s3 :
  reports hr hw he s1 s2 → reports hr' hw' he' s2 s3 →
  reports (λ j, hr j || hr' j) (λ j, hw j || hw' j) (λ j, he j || he' j) s1 s3.
Proof. intros [P1 R1 W1 E1] [P2 R2 W2 E2]. split; [congruence|by eapply adds_trans..]. Qed.
Lemma reports_refl s : sets_ok s → reports (λ _, false) (λ _, false) (λ _, false) s s.
Proof. intros (? & ? & ?). split; [done|by apply adds_none..]. Qed.
Lemma reports_ok hr hw he s s' : reports hr hw he s s' → sets_ok s'.
Proof. intros [_ [? _] [? _] [? _]]. by split_and!. Qed.

Lemma mark_adds old fd c :
  set_ok old → 0 ≤ fd < 1024 → (c = true → is_Some old) →
  ∃ new, (if c then set_fd_set old fd else Ret old) = Ret new ∧ adds (λ j, c && (j =? fd)) old new.
Proof.
  intros Ho Hfd Hc. destruct c; [|exists old; split; [done|by apply adds_none]]. destruct (Hc eq_refl) as [words ->].
  destruct (set_fd_set_spec words fd Ho Hfd) as (words' & -> & Ho' & Hj). eexists. split; [done|]. split; [done|]. split; [|done].
  split; by intros _; eexists.
Qed.

Ltac same_count := match goal with |- Ret (Ok ?a, _) = Ret (Ok ?b, _) => replace b with a by (cbn; lia); done end.
(** What [poll_fd] does for an open descriptor. *)
Lemma poll_fd_open fd r w e num s f :
  sets_ok s → 0 ≤ fd < 1024 → fd_map (sl_posix s) fd = Some f →
  (in_set r fd = true → is_Some (res_read s)) → (in_set w fd = true → is_Some (res_write s)) → (in_set e fd = true → is_Some (res_except s)) →
  let p := sl_posix s in
  ∃ s', poll_fd fd (in_set r fd) (in_set w fd) (in_set e fd) num s = Ret (Ok (num + hits r w e p fd), s') ∧
    reports (λ j, hit_read r p fd && (j =? fd)) (λ j, hit_write w p fd && (j =? fd)) (λ j, hit_except e p fd && (j =? fd)) s s'.
Proof.
  intros (Hr & Hw & He) Hfd Hf Hnr Hnw Hne p. unfold poll_fd, sm_bind at 1, on_posix at 1.
  rewrite get_file_like_eq by (unfold is_int; lia). rewrite Hf. cbn [ok_or]. unfold sm_catch, on_posix, on_world. cbn [sl_posix].
  rewrite poll_quiet. unfold hits, hit_read, hit_write, hit_except, polled. subst p. rewrite Hf. cbn [fmap option_fmap option_map].
  destruct s as [q sr sw se]. cbn [sl_posix res_read res_write res_except] in *. assert (set_world (px_world q) q = q) as -> by (by destruct q).
  destruct (poll f (px_world q)) as [st|err].
  - destruct (mark_adds sr fd (poll_readable st && in_set r fd)) as (sr' & Hmr & Har); [done..|by intros [_ ?]%andb_true_iff; auto|].
    destruct (mark_adds sw fd (poll_writable st && in_set w fd)) as (sw' & Hmw & Haw); [done..|by intros [_ ?]%andb_true_iff; auto|].
    exists {| sl_posix := q; res_read := sr'; res_write := sw'; res_except := se |}. rewrite andb_false_r.
    rewrite (andb_comm (in_set r fd)), (andb_comm (in_set w fd)). split.
    + unfold count_if, sm_bind, mark_read, mark_write, sm_ret.
      destruct (poll_readable st && in_set r fd); cbn [res_read]; rewrite ?Hmr; cbn [res_write];
      destruct (poll_writable st && in_set w fd); cbn; rewrite ?Hmw; simplify_eq; same_count.
    + split; [done..|]. by apply adds_none.
  - destruct (mark_adds se fd (in_set e fd)) as (se' & Hme & Hae); [done..|].
    exists {| sl_posix := q; res_read := sr; res_write := sw; res_except := se' |}. rewrite !andb_false_r, andb_true_r. split.
    + unfold count_if, sm_bind, mark_except, sm_ret. destruct (in_set e fd); cbn [res_except]; rewrite ?Hme; simplify_eq; same_count.
    + split; [done|by apply adds_none..|done].
Qed.

Definition watched (r w e : fd_set) (fd : Z) : bool := in_set r fd || in_set w fd || in_set e fd.
Definition all_open (r w e : fd_set) (n : Z) p : bool :=
  forallb (λ fd, implb (watched r w e fd) (bool_decide (is_Some (fd_map p fd)))) (seqZ 0 n).
(** The sets of the caller and the copies polled are null together. *)
Definition null_like (r w e : fd_set) s : Prop :=
  (is_Some r → is_Some (res_read s)) ∧ (is_Some w → is_Some (res_write s)) ∧ (is_Some e → is_Some (res_except s)).
Lemma in_set_some fds fd : in_set fds fd = true → is_Some fds.
Proof. by destruct fds. Qed.
Lemma unwatched r w e p fd : watched r w e fd = false → hits r w e p fd = 0 ∧ hit_read r p fd = false ∧ hit_write w p fd = false ∧ hit_except e p fd = false.
Proof.
  unfold watched, hits, hit_read, hit_write, hit_except. intros [[-> ->]%orb_false_iff ->]%orb_false_iff. done.
Qed.

(** The descriptors from [fd] on, all of them open. *)
Lemma poll_each_reports r w e n fd num s :
  let p := sl_posix s in
  sets_ok s → null_like r w e s → 0 ≤ fd → fd + Z.of_nat n ≤ 1024 →
  (∀ j, fd ≤ j < fd + Z.of_nat n → watched r w e j = true → is_Some (fd_map p j)) →
  let upto h j := (fd <=? j) && (j <? fd + Z.of_nat n) && h p j in
  ∃ s', poll_each r w e n fd num s = Ret (Ok (num + foldr Z.add 0 (hits r w e p <$> seqZ fd (Z.of_nat n))), s') ∧
    reports (upto (hit_read r)) (upto (hit_write w)) (upto (hit_except e)) s s'.
Proof.
  revert fd num s. induction n as [|n IH]; intros fd num s p Hs Hnl Hfd Hle Hopen upto.
  { exists s. split; [cbn; by rewrite Z.add_0_r|]. destruct (reports_refl s Hs) as [P0 R0 W0 E0].
    split; [done|..]; (eapply adds_ext; [|done]); intros j Hj; unfold upto; repeat case_Z1; cbn; done || lia. }
  assert (∃ s1, poll_watched r w e fd num s = Ret (Ok (num + hits r w e p fd), s1) ∧
    reports (λ j, hit_read r p fd && (j =? fd)) (λ j, hit_write w p fd && (j =? fd)) (λ j, hit_except e p fd && (j =? fd)) s s1)
    as (s1 & H1 & Hrp1).
  { unfold poll_watched. destruct (watched r w e fd) eqn:Hwt; unfold watched in Hwt; rewrite Hwt.
    - destruct (Hopen fd) as [f Hf]; [lia|done|]. destruct Hnl as (N1 & N2 & N3).
      apply (poll_fd_open fd r w e num s f); [done|lia|done|intros Hin%in_set_some; by auto..].
    - destruct (unwatched r w e p fd Hwt) as (-> & -> & -> & ->). exists s. rewrite Z.add_0_r. split; [done|]. by apply reports_refl. }
  destruct (IH (fd + 1) (num + hits r w e p fd) s1) as (s2 & H2 & Hrp2); [by eapply reports_ok| |lia|lia| |].
  { destruct Hrp1 as [_ (_ & I1 & _) (_ & I2 & _) (_ & I3 & _)]. destruct Hnl as (N1 & N2 & N3). split_and!; [rewrite I1|rewrite I2|rewrite I3]; done. }
  { intros j Hj. rewrite (rp_posix _ _ _ _ _ Hrp1). apply Hopen. lia. }
  exists s2. cbn [poll_each]. unfold sm_bind. rewrite H1, H2. rewrite (rp_posix _ _ _ _ _ Hrp1). fold p. split.
  - rewrite (seqZ_cons fd (Z.of_nat (S n))) by lia. cbn [fmap list_fmap foldr]. replace (Z.pred (Z.of_nat (S n))) with (Z.of_nat n) by lia.
    unfold Z.succ. same_count.
  - destruct (reports_trans _ _ _ _ _ _ _ _ _ Hrp1 Hrp2) as [P3 R3 W3 E3]. rewrite (rp_posix _ _ _ _ _ Hrp1) in R3, W3, E3. fold p in R3, W3, E3.
    split; [done|..]; (eapply adds_ext; [|done]); intros j Hj; unfold upto; cbv beta; repeat case_Z1; cbn; subst;
      rewrite ?andb_true_r, ?andb_false_r, ?orb_false_r; done || lia.
Qed.

(** A watched descriptor that is not open ends the round. *)
Lemma poll_each_closed r w e n fd num s j :
  let p := sl_posix s in
  sets_ok s → null_like r w e s → 0 ≤ fd → fd + Z.of_nat n ≤ 1024 →
  fd ≤ j < fd + Z.of_nat n → watched r w e j = true → fd_map p j = None →
  ∃ s', poll_each r w e n fd num s = Ret (Err LinuxError.EBADF, s').
Proof.
  revert fd num s. induction n as [|n IH]; intros fd num s p Hs Hnl Hfd Hle Hj Hwt Hn; [lia|]. cbn [poll_each].
  destruct (watched r w e fd && bool_decide (fd_map p fd = None)) eqn:Hc.
  - apply andb_true_iff in Hc as [Hw1 Hn1%bool_decide_eq_true]. unfold poll_watched. unfold watched in Hw1. rewrite Hw1.
    unfold sm_bind, poll_fd, sm_bind, on_posix. rewrite get_file_like_eq by (unfold is_int; lia). fold p. rewrite Hn1. by eexists.
  - destruct (poll_each_reports r w e 1 fd num s) as (s1 & H1 & Hrp); [done..|lia| |].
    { intros k Hk Hwk. replace k with fd in * by lia. rewrite Hwk in Hc. apply bool_decide_eq_false in Hc.
      destruct (fd_map (sl_posix s) fd) eqn:?; [by eexists|done]. }
    assert (j ≠ fd). { intros ->. rewrite Hwt in Hc. by apply bool_decide_eq_false in Hc. }
    cbn [poll_each] in H1. unfold sm_bind in *. destruct (poll_watched r w e fd num s) as [[[m|er] s1']|]; try done.
    unfold sm_ret in H1. injection H1 as _ ->. apply (IH (fd + 1)); [by eapply reports_ok| |lia..|done|by rewrite (rp_posix _ _ _ _ _ Hrp)].
    destruct Hrp as [_ (_ & I1 & _) (_ & I2 & _) (_ & I3 & _)]. destruct Hnl as (N1 & N2 & N3). split_and!; [rewrite I1|rewrite I2|rewrite I3]; done.
Qed.

(** ** [select] *)

Definition count_ready (r w e : fd_set) (n : Z) p : Z := foldr Z.add 0 (hits r w e p <$> seqZ 0 n).

(** What [select] answers, and the state it answers for: the first round in which a
    watched descriptor is not open, one is ready, or the deadline has passed. *)
Fixpoint select_ref (r w e : fd_set) (n : Z) (deadline : option Z) (sched : list (Z * (posix Fl W → posix Fl W))) p :
    option (result Z LinuxError.t * posix Fl W) :=
  match sched with
  | [] => None
  | (now, others) :: sched =>
      if negb (all_open r w e n p) then Some (Err LinuxError.EBADF, p)
      else if 0 <? count_ready r w e n p then Some (Ok (count_ready r w e n p), p)
      else if match deadline with Some ddl => ddl <=? now | None => false end then Some (Ok 0, p)
      else select_ref r w e n deadline sched (others p)
  end.

Lemma hits_nonneg r w e p fd : 0 ≤ hits r w e p fd.
Proof. unfold hits. destruct (hit_read r p fd), (hit_write w p fd), (hit_except e p fd); cbn; lia. Qed.
Lemma no_hits r w e p l :
  foldr Z.add 0 (hits r w e p <$> l) ≤ 0 → ∀ fd, fd ∈ l → hit_read r p fd = false ∧ hit_write w p fd = false ∧ hit_except e p fd = false.
Proof.
  assert (∀ l, 0 ≤ foldr Z.add 0 (hits r w e p <$> l)) as Hpos.
  { induction l0 as [|a l0 IH]; cbn; [lia|]. pose proof (hits_nonneg r w e p a). lia. }
  induction l as [|a l IH]; intros H0 fd Hin; [by apply not_elem_of_nil in Hin|]. cbn in H0.
  pose proof (hits_nonneg r w e p a). pose proof (Hpos l). apply elem_of_cons in Hin as [->|Hin]; [|apply IH; [lia|done]].
  assert (hits r w e p a = 0) as Hz by lia. unfold hits in Hz.
  destruct (hit_read r p a), (hit_write w p a), (hit_except e p a); cbn in Hz; done || lia.
Qed.

Lemma zero_fd_set_spec fds n :
  set_ok fds → 0 ≤ n ≤ 1024 →
  ∃ z, zero_fd_set fds n = Ret z ∧ set_ok z ∧ (is_Some z ↔ is_Some fds) ∧ ∀ j, 0 ≤ j < n → in_set z j = false.
Proof.
  intros Hs Hn. destruct fds as [words|]; [|by exists None]. cbn in Hs. unfold zero_fd_set, BITS_PER_USIZE.
  set (m := Z.to_nat (div_ceil n 64)). assert (m ≤ 16)%nat as Hm.
  { unfold m, div_ceil. assert ((n + 64 - 1) / 64 < 17) by (apply Z.div_lt_upper_bound; lia). lia. }
  destruct (Nat.ltb_spec (length words) m); [lia|]. eexists. split; [done|]. split; [|split].
  - cbn. rewrite length_app, length_replicate, length_drop. lia.
  - split; by eexists.
  - intros j Hj. unfold in_set, BITS_PER_USIZE. assert (Z.to_nat (j / 64) < m)%nat as Hjm.
    { unfold m, div_ceil. pose proof (Z.div_pos j 64). pose proof (Z.mul_div_le j 64).
      assert (j / 64 + 1 ≤ (n + 64 - 1) / 64) by (apply Z.div_le_lower_bound; lia). lia. }
    rewrite lookup_app_l by (by rewrite length_replicate). rewrite lookup_replicate_2 by done. apply Z.bits_0.
Qed.

(** The sets hold the descriptors below [n] that are ready in [p]. *)
Definition holds_ready (r w e : fd_set) (n : Z) p s : Prop :=
  ∀ j, 0 ≤ j < n → in_set (res_read s) j = hit_read r p j ∧ in_set (res_write s) j = hit_write w p j ∧
    in_set (res_except s) j = hit_except e p j.
Definition holds_none (n : Z) s : Prop :=
  ∀ j, 0 ≤ j < n → in_set (res_read s) j = false ∧ in_set (res_write s) j = false ∧ in_set (res_except s) j = false.

Lemma all_open_true r w e n p : all_open r w e n p = true → ∀ j, 0 ≤ j < n → watched r w e j = true → is_Some (fd_map p j).
Proof.
  unfold all_open. rewrite forallb_forall. intros Ha j Hj Hw. specialize (Ha j). rewrite Hw in Ha. cbn in Ha.
  assert (bool_decide (is_Some (fd_map p j)) = true) as Hb by (apply Ha, list_elem_of_In, elem_of_seqZ; lia).
  by apply bool_decide_eq_true in Hb.
Qed.
Lemma all_open_false r w e n p : all_open r w e n p = false → ∃ j, 0 ≤ j < n ∧ watched r w e j = true ∧ fd_map p j = None.
Proof.
  unfold all_open. intros Ha. apply not_true_iff_false in Ha. rewrite forallb_forall in Ha.
  destruct (decide (Exists (λ j, watched r w e j = true ∧ fd_map p j = None) (seqZ 0 n))) as [Hex|Hno].
  - apply Exists_exists in Hex as (j & Hj%elem_of_seqZ & Hw & Hn). exists j. split_and!; [lia..|done|done].
  - exfalso. apply Ha. intros j Hj. apply list_elem_of_In in Hj. destruct (watched r w e j) eqn:Hw; [|done]. cbn. apply bool_decide_eq_true.
    destruct (fd_map p j) eqn:Hf; [by eexists|]. exfalso. apply Hno, Exists_exists. by exists j.
Qed.

(** A round in which every watched descriptor is open. *)
Lemma round_reports r w e n s :
  let p := sl_posix s in
  sets_ok s → null_like r w e s → set_ok r → set_ok w → set_ok e → 0 ≤ n ≤ 1024 → holds_none n s → all_open r w e n p = true →
  ∃ s', FdSets_poll_all (FdSets_from n r w e) s = Ret (Ok (count_ready r w e n p), s') ∧ sl_posix s' = p ∧
    sets_ok s' ∧ null_like r w e s' ∧ holds_ready r w e n p s'.
Proof.
  intros p Hs Hnl Hr Hw He Hn Hno Hopen. rewrite poll_all_each by done.
  destruct (poll_each_reports r w e (Z.to_nat n) 0 0 s) as (s' & H1 & Hrp); [done..|lia| |].
  { intros j Hj. rewrite Z2Nat.id in Hj by lia. by apply (all_open_true r w e n). }
  exists s'. rewrite H1. rewrite Z2Nat.id by lia. split; [done|]. pose proof (reports_ok _ _ _ _ _ Hrp) as Hok.
  destruct Hrp as [P1 (_ & I1 & R1) (_ & I2 & W1) (_ & I3 & E1)]. split; [done|]. split; [done|]. split.
  - destruct Hnl as (N1 & N2 & N3). split_and!; [rewrite I1|rewrite I2|rewrite I3]; done.
  - intros j Hj. destruct (Hno j Hj) as (F1 & F2 & F3). rewrite R1, W1, E1, F1, F2, F3 by lia. rewrite Z2Nat.id by lia.
    rewrite (proj2 (Z.leb_le 0 j)), (proj2 (Z.ltb_lt j (0 + n))) by lia. done.
Qed.

Lemma select_loop_ref r w e n deadline sched s :
  sets_ok s → null_like r w e s → set_ok r → set_ok w → set_ok e → 0 ≤ n ≤ 1024 → holds_none n s →
  ∃ o s', select_loop (FdSets_from n r w e) deadline sched s = Ret (o, s') ∧
    match select_ref r w e n deadline sched (sl_posix s) with
    | None => o = Ok None
    | Some (Ok v, p) => o = Ok (Some v) ∧ sl_posix s' = p ∧ holds_ready r w e n p s'
    | Some (Err err, p) => o = Err err
    end.
Proof.
  intros Hs Hnl Hr Hw He Hn. revert s Hs Hnl. induction sched as [|[now others] sched IH]; intros s Hs Hnl Hno; [by eexists _, _|].
  cbn [select_loop select_ref]. destruct (all_open r w e n (sl_posix s)) eqn:Hopen; cbn [negb].
  2: { destruct (all_open_false r w e n _ Hopen) as (j & Hj & Hwj & Hnj).
       destruct (poll_each_closed r w e (Z.to_nat n) 0 0 s j) as (s' & H1); [done..|lia|lia|done|done|].
       exists (Err LinuxError.EBADF), s'. split; [|done]. unfold select_round, sm_bind. by rewrite poll_all_each, H1. }
  destruct (round_reports r w e n s) as (s1 & H1 & Hp1 & Hs1 & Hnl1 & Hrd); [done..|].
  unfold select_round, sm_bind. rewrite H1. destruct (Z.ltb_spec 0 (count_ready r w e n (sl_posix s))) as [Hc|Hc].
  { eexists _, _. split; [done|]. by rewrite Hp1. }
  destruct (match deadline with Some ddl => ddl <=? now | None => false end) eqn:Hd.
  { destruct deadline as [ddl|]; [|done]. rewrite Hd. eexists _, _. split; [done|]. by rewrite Hp1. }
  replace (match deadline with Some ddl => if ddl <=? now then Some 0 else None | None => None end) with (@None Z)
    by (destruct deadline; [by rewrite Hd|done]).
  unfold sm_ret. cbv beta iota. set (s2 := {| sl_posix := others (sl_posix s1); res_read := _ |}).
  replace (others (sl_posix s)) with (sl_posix s2) by (cbn; by rewrite Hp1). apply (IH s2); [done..|].
  intros j Hj. destruct (Hrd j Hj) as (R1 & R2 & R3). cbn. rewrite R1, R2, R3. apply (no_hits r w e _ (seqZ 0 n) Hc), elem_of_seqZ. lia.
Qed.

(** The word and bit loops of [FdSets::poll_all] poll exactly the descriptors below
    [nfds] that are in one of the three sets, once each and in increasing order, and the
    uninitialised words of the array are never read. *)
Theorem select_polls_each r w e nfds s :
  0 ≤ nfds → set_ok r → set_ok w → set_ok e →
  FdSets_poll_all (FdSets_from nfds r w e) s = poll_each r w e (Z.to_nat (Z.min nfds FD_SETSIZE)) 0 0 s.
Proof.
  intros Hn Hr Hw He. rewrite <-poll_all_each by (done || unfold FD_SETSIZE; lia).
  unfold FdSets_from. by rewrite (Z.min_l (Z.min nfds FD_SETSIZE) FD_SETSIZE) by lia.
Qed.

End ready.
