(* ===== verification/Epoll.v ===== *)
(** [epoll] ([arceos_posix_api/src/imp/io_mpx/epoll.rs]) on top of the descriptor
    table.

    An epoll instance is itself a file: the files are [EpFl], an instance or a file of
    another kind, and the state has the instances, by number, with their reference
    counts.  The theorems: [epoll_ctl] acts on the set of registered descriptors as on
    a map; [epoll_wait] writes exactly the ready events, in the order of the
    descriptors, and panics exactly when they do not fit in the caller's buffer; a
    registered descriptor that is closed makes every later wait fail. *)

From stdpp Require Import prelude gmap list sorting.
From Stdlib Require Import ZArith Lia.
From S2P Require Import Prelude FdTable.
Local Open Scope Z_scope.
Local Open Scope kernel_scope.

Definition EPOLLIN : Z := 0x001.
Definition EPOLLOUT : Z := 0x004.
Definition EPOLLERR : Z := 0x008.
Definition EPOLL_CTL_ADD : Z := 1.
Definition EPOLL_CTL_DEL : Z := 2.
Definition EPOLL_CTL_MOD : Z := 3.

Record epoll_event : Type := { ee_events : Z; ee_data : Z }.

(** [BTreeMap::iter]: in the order of the keys. *)
Definition key_le {A} (a b : Z * A) : Prop := a.1 ≤ b.1.
#[export] Instance key_le_dec {A} (a b : Z * A) : Decision (key_le a b).
Proof. unfold key_le. apply _. Defined.
Definition btree_iter {A} (m : gmap Z A) : list (Z * A) := merge_sort key_le (map_to_list m).

Section epoll.
Context {Fl W : Type} {other : FileLike Fl W}.

Inductive EpFl : Type :=
| EpollFile (id : nat)
| OtherFile (f : Fl).

(** The instances, each with its registered descriptors and its references. *)
Record epolls : Type := {
  ep_instances : gmap nat (gmap Z epoll_event * nat);
  ep_next : nat;
  ep_other : W;
}.
Definition set_instances (m : gmap nat (gmap Z epoll_event * nat)) (w : epolls) : epolls :=
  {| ep_instances := m; ep_next := ep_next w; ep_other := ep_other w |}.
Definition set_ep_other (o : W) (w : epolls) : epolls :=
  {| ep_instances := ep_instances w; ep_next := ep_next w; ep_other := o |}.
Definition on_other {A} (m : SM W LinuxError.t A) : SM epolls LinuxError.t A := λ w,
  match m (ep_other w) with
  | Ret (r, o) => Ret (r, set_ep_other o w)
  | Panic => Panic
  end.

(** *** [FileLike for EpollInstance] *)
Definition ep_read (f : EpFl) (buf_len : Z) : SM epolls LinuxError.t (list Z) :=
  match f with EpollFile _ => sm_err LinuxError.ENOSYS | OtherFile f => on_other (fl_read f buf_len) end.
Definition ep_write (f : EpFl) (buf : list Z) : SM epolls LinuxError.t Z :=
  match f with EpollFile _ => sm_err LinuxError.ENOSYS | OtherFile f => on_other (fl_write f buf) end.
Definition ep_stat (f : EpFl) : SM epolls LinuxError.t stat :=
  match f with
  | EpollFile _ => sm_ret {| st_ino := 1; st_nlink := 1; st_mode := 384; st_uid := 0; st_gid := 0; st_size := 0; st_blocks := 0; st_blksize := 0 |}
  | OtherFile f => on_other (fl_stat f)
  end.
Definition ep_poll (f : EpFl) : SM epolls LinuxError.t PollState :=
  match f with EpollFile _ => sm_err LinuxError.ENOSYS | OtherFile f => on_other (fl_poll f) end.
Definition ep_set_nonblocking (f : EpFl) (b : bool) : SM epolls LinuxError.t unit :=
  match f with EpollFile _ => sm_ret tt | OtherFile f => on_other (fl_set_nonblocking f b) end.
Definition ep_clone (f : EpFl) (w : epolls) : epolls :=
  match f with
  | EpollFile id => match ep_instances w !! id with
                    | Some (ev, n) => set_instances (<[id := (ev, S n)]> (ep_instances w)) w
                    | None => w
                    end
  | OtherFile f => set_ep_other (fl_clone f (ep_other w)) w
  end.
Definition ep_drop (f : EpFl) (w : epolls) : epolls :=
  match f with
  | EpollFile id => match ep_instances w !! id with
                    | Some (ev, S (S n)) => set_instances (<[id := (ev, S n)]> (ep_instances w)) w
                    | Some _ => set_instances (delete id (ep_instances w)) w
                    | None => w
                    end
  | OtherFile f => set_ep_other (fl_drop f (ep_other w)) w
  end.
#[export] Instance epoll_like : FileLike EpFl epolls := {|
  fl_read := ep_read; fl_write := ep_write; fl_stat := ep_stat; fl_poll := ep_poll;
  fl_set_nonblocking := ep_set_nonblocking; fl_clone := ep_clone; fl_drop := ep_drop |}.

Context {errnos : AxErrno} {table : FlattenObjects EpFl}.
Abbreviation state := (posix EpFl epolls).
Abbreviation P := (SM state LinuxError.t).

(** [EpollInstance::new] in an [Arc]. *)
Definition epoll_new : P EpFl := λ p,
  let w := px_world p in
  Ret (Ok (EpollFile (ep_next w)),
       set_world {| ep_instances := <[ep_next w := (∅, 1%nat)]> (ep_instances w); ep_next := S (ep_next w); ep_other := ep_other w |} p).
Definition epoll_from_fd (fd : Z) : P nat :=
  let! f := get_file_like fd in
  match f with
  | EpollFile id => sm_ret id
  | OtherFile _ => sm_err LinuxError.EINVAL
  end.

(** [self.events.lock()]. *)
Definition with_events {A} (id : nat) (m : gmap Z epoll_event → result A LinuxError.t * gmap Z epoll_event) : P A := λ p,
  match ep_instances (px_world p) !! id with
  | None => Panic
  | Some (ev, n) => let (r, ev) := m ev in
      Ret (r, set_world (set_instances (<[id := (ev, n)]> (ep_instances (px_world p))) (px_world p)) p)
  end.

(** [fd] is a [usize], and a [c_int] for [get_file_like]. *)
Definition control (id : nat) (op fd : Z) (event : epoll_event) : P Z :=
  let! _ := get_file_like (to_signed 32 fd) in
  let op := op mod 2 ^ 32 in
  if op =? EPOLL_CTL_ADD then
    with_events id (λ ev, match ev !! fd with None => (Ok 0, <[fd := event]> ev) | Some _ => (Err LinuxError.EEXIST, ev) end)
  else if op =? EPOLL_CTL_MOD then
    with_events id (λ ev, match ev !! fd with Some _ => (Ok 0, <[fd := event]> ev) | None => (Err LinuxError.ENOENT, ev) end)
  else if op =? EPOLL_CTL_DEL then
    with_events id (λ ev, match ev !! fd with Some _ => (Ok 0, delete fd ev) | None => (Err LinuxError.ENOENT, ev) end)
  else sm_err LinuxError.EINVAL.

(** The kernel and the caller's buffer. *)
Record waiting : Type := { wt_posix : state; wt_events : list epoll_event }.
Abbreviation M := (SM waiting LinuxError.t).
Definition on_posix {A} (m : P A) : M A := λ s,
  match m (wt_posix s) with
  | Ret (r, p) => Ret (r, {| wt_posix := p; wt_events := wt_events s |})
  | Panic => Panic
  end.

(** [if c { events[events_num] = e; events_num += 1; }]. *)
Definition push_if (c : bool) (e : epoll_event) (num : nat) : M nat :=
  if c then λ s,
    if (num <? length (wt_events s))%nat
    then Ret (Ok (S num), {| wt_posix := wt_posix s; wt_events := <[num := e]> (wt_events s) |})
    else Panic
  else sm_ret num.
(** The body of the loop. *)
Definition poll_registered (infd : Z) (ev : epoll_event) (num : nat) : M nat :=
  let wants flag := negb (Z.land (ee_events ev) flag =? 0) in
  let event flag := {| ee_events := flag; ee_data := ee_data ev |} in
  let! f := on_posix (get_file_like (to_signed 32 infd)) in
  sm_catch (on_posix (on_world (fl_poll f))) (λ r,
    match r with
    | Err _ => push_if (wants EPOLLERR) (event EPOLLERR) num
    | Ok state =>
        let! num := push_if (poll_readable state && wants EPOLLIN) (event EPOLLIN) num in
        push_if (poll_writable state && wants EPOLLOUT) (event EPOLLOUT) num
    end).
Fixpoint poll_ready (l : list (Z * epoll_event)) (num : nat) : M nat :=
  match l with
  | [] => sm_ret num
  | (infd, ev) :: l => let! num := poll_registered infd ev num in poll_ready l num
  end.
Definition epoll_poll_all (id : nat) : M nat := λ s,
  match ep_instances (px_world (wt_posix s)) !! id with
  | None => Panic
  | Some (ev, _) => poll_ready (btree_iter ev) 0 s
  end.

(** ** System calls *)

Definition sys_epoll_create (size : Z) : state → outcome (Z * state) := syscall_body (
  if size <? 0 then sm_err LinuxError.EINVAL
  else let! f := epoll_new in add_file_like f).

(** [c_int] arguments converted to [usize]. *)
Definition sys_epoll_ctl (epfd op fd : Z) (event : epoll_event) : state → outcome (Z * state) := syscall_body (
  let! id := epoll_from_fd epfd in
  control id (op mod 2 ^ 64) (fd mod 2 ^ 64) event).

(** One round of the loop of [sys_epoll_wait]. *)
Definition wait_round (id : nat) (deadline : option Z) (now : Z) : M (option Z) :=
  let! events_num := epoll_poll_all id in
  if (0 <? events_num)%nat then sm_ret (Some (Z.of_nat events_num))
  else sm_ret (match deadline with Some ddl => if ddl <=? now then Some 0 else None | None => None end).
(** The rounds, with the time each one reads and what the rest of the system does while
    the caller yields; [None] when [sched] ends first. *)
Fixpoint wait_loop (id : nat) (deadline : option Z) (sched : list (Z * (state → state))) : M (option Z) :=
  match sched with
  | [] => sm_ret None
  | (now, others) :: sched =>
      let! r := wait_round id deadline now in
      match r with
      | Some n => sm_ret (Some n)
      | None => λ s, wait_loop id deadline sched {| wt_posix := others (wt_posix s); wt_events := wt_events s |}
      end
  end.
(** The buffer has [maxevents] entries; the timeout is in milliseconds and [start] the
    time of the call.  The call holds a reference to the instance until it returns. *)
Definition sys_epoll_wait (epfd maxevents timeout start : Z) (sched : list (Z * (state → state))) (s : waiting) :
    outcome (option Z * waiting) :=
  if maxevents <=? 0 then Ret (Some (- errno LinuxError.EINVAL), s)
  else
    let deadline := if timeout <? 0 then None else Some (start + timeout) in
    match (let! id := on_posix (epoll_from_fd epfd) in
           do! on_posix (clone_file (EpollFile id)) in
           sm_catch (wait_loop id deadline sched) (λ r,
             do! on_posix (sm_modify (λ p, set_world (ep_drop (EpollFile id) (px_world p)) p)) in sm_lift r)) s with
    | Ret (Ok r, s) => Ret (r, s)
    | Ret (Err e, s) => Ret (Some (- errno e), s)
    | Panic => Panic
    end.
End epoll.
Arguments EpFl Fl : clear implicits.
Arguments epolls W : clear implicits.
Arguments waiting Fl W {table}.

(** * Properties *)

Section properties.
Context {Fl W : Type} {other : FileLike Fl W} {errnos : AxErrno} {table : FlattenObjects (EpFl Fl)}
  {tlaws : FlattenLaws (T:=EpFl Fl) AX_FILE_LIMIT}.
(** Polling a file only looks at it. *)
Context (poll : Fl → W → result PollState LinuxError.t) (poll_quiet : ∀ f w, fl_poll f w = Ret (poll f w, w)).
Implicit Types (p : posix (EpFl Fl) (epolls W)) (s : waiting Fl W).

Definition ep_poll_of (f : EpFl Fl) (w : epolls W) : result PollState LinuxError.t :=
  match f with EpollFile _ => Err LinuxError.ENOSYS | OtherFile f => poll f (ep_other w) end.
Lemma ep_poll_quiet f w : fl_poll f w = Ret (ep_poll_of f w, w).
Proof. destruct f as [id|f]; [done|]. cbn. unfold on_other. rewrite poll_quiet. by destruct w. Qed.

(** The events of a registered descriptor that are reported. *)
Definition event_list (c : bool) (flag : Z) (ev : epoll_event) : list epoll_event :=
  if c && negb (Z.land (ee_events ev) flag =? 0) then [{| ee_events := flag; ee_data := ee_data ev |}] else [].
Definition ready_of p (x : Z * epoll_event) : list epoll_event :=
  match (λ f, ep_poll_of f (px_world p)) <$> fd_map p x.1 with
  | Some (Ok st) => event_list (poll_readable st) EPOLLIN x.2 ++ event_list (poll_writable st) EPOLLOUT x.2
  | Some (Err _) => event_list true EPOLLERR x.2
  | None => []
  end.
Definition ready p (l : list (Z * epoll_event)) : list epoll_event := concat (ready_of p <$> l).

(** [evs] written to [buf] from index [num] on. *)
Definition put (evs : list epoll_event) (num : nat) (buf : list epoll_event) : list epoll_event :=
  take num buf ++ evs ++ drop (num + length evs) buf.
Lemma put_nil num buf : put [] num buf = buf.
Proof. unfold put. cbn. rewrite Nat.add_0_r. apply take_drop. Qed.
Lemma length_put evs num buf : (num + length evs ≤ length buf)%nat → length (put evs num buf) = length buf.
Proof. intros Hle. unfold put. rewrite !length_app, length_take, length_drop. lia. Qed.
Lemma put_app e1 e2 num buf :
  (num + length (e1 ++ e2) ≤ length buf)%nat → put e2 (num + length e1) (put e1 num buf) = put (e1 ++ e2) num buf.
Proof.
  rewrite length_app. intros Hle. unfold put. rewrite length_app. rewrite (take_app_ge (take num buf)) by (rewrite length_take; lia).
  rewrite length_take, take_app_length' by lia. rewrite <-!app_assoc. do 3 f_equal. rewrite !drop_app_ge by (rewrite ?length_take; lia).
  rewrite length_take, drop_drop. f_equal. lia.
Qed.
Lemma put_one e num buf : (num < length buf)%nat → <[num := e]> buf = put [e] num buf.
Proof. intros Hlt. rewrite insert_take_drop by done. unfold put. cbn. by rewrite Nat.add_1_r. Qed.

(** Writing events, or the panic when they do not fit. *)
Definition writes (evs : list epoll_event) (num : nat) s : outcome (result nat LinuxError.t * waiting Fl W) :=
  if (num + length evs <=? length (wt_events s))%nat
  then Ret (Ok (num + length evs)%nat, {| wt_posix := wt_posix s; wt_events := put evs num (wt_events s) |}) else Panic.
Lemma writes_nil num s : (num ≤ length (wt_events s))%nat → writes [] num s = Ret (Ok num, s).
Proof. intros Hle. unfold writes. cbn. rewrite Nat.add_0_r, put_nil. destruct (Nat.leb_spec num (length (wt_events s))); [|lia]. by destruct s. Qed.
Lemma writes_app e1 e2 num s :
  (let! n := writes e1 num in writes e2 n) s = writes (e1 ++ e2) num s.
Proof.
  unfold sm_bind, writes at 1 3. rewrite length_app. destruct (Nat.leb_spec (num + length e1) (length (wt_events s))) as [H1|H1].
  - unfold writes. cbn [wt_events wt_posix]. rewrite length_put by done.
    destruct (Nat.leb_spec (num + length e1 + length e2) (length (wt_events s))), (Nat.leb_spec (num + (length e1 + length e2)) (length (wt_events s))); try lia; [|done].
    rewrite put_app by (rewrite length_app; lia). do 3 f_equal. lia.
  - destruct (Nat.leb_spec (num + (length e1 + length e2)) (length (wt_events s))); [lia|done].
Qed.
Lemma push_if_writes c flag ev num s :
  (num ≤ length (wt_events s))%nat →
  push_if (c && negb (Z.land (ee_events ev) flag =? 0)) {| ee_events := flag; ee_data := ee_data ev |} num s = writes (event_list c flag ev) num s.
Proof.
  intros Hle. unfold push_if, event_list. destruct (c && _); [|by rewrite writes_nil]. unfold writes. cbn [length]. rewrite Nat.add_1_r.
  destruct (Nat.ltb_spec num (length (wt_events s))), (Nat.leb_spec (S num) (length (wt_events s))); try lia; [|done].
  by rewrite put_one.
Qed.
Lemma writes_keeps evs num s n s' : writes evs num s = Ret (Ok n, s') → (num ≤ length (wt_events s))%nat →
  wt_posix s' = wt_posix s ∧ (n ≤ length (wt_events s'))%nat.
Proof.
  unfold writes. destruct (Nat.leb_spec (num + length evs) (length (wt_events s))); [|done]. intros [= <- <-] _. cbn. by rewrite length_put.
Qed.

Lemma to_signed_32_fd fd : 0 ≤ fd < 2 ^ 31 → to_signed 32 fd = fd.
Proof.
  intros Hfd. unfold to_signed. rewrite Z.mod_small by lia. cbv zeta. change (32 - 1) with 31. by destruct (Z.ltb_spec fd (2 ^ 31)); [|lia].
Qed.
Definition key_ok (x : Z * epoll_event) : Prop := 0 ≤ x.1 < 2 ^ 31.
Lemma poll_registered_open fd ev num s f :
  let p := wt_posix s in
  key_ok (fd, ev) → fd_map p fd = Some f → (num ≤ length (wt_events s))%nat →
  poll_registered fd ev num s = writes (ready_of p (fd, ev)) num s.
Proof.
  intros p Hk Hf Hle. unfold key_ok in Hk. cbn [fst] in Hk. unfold poll_registered. rewrite to_signed_32_fd by done.
  unfold sm_bind at 1, on_posix at 1. rewrite get_file_like_eq by (unfold is_int; lia). fold p. rewrite Hf. cbn [ok_or].
  destruct s as [q buf]. cbn [wt_posix wt_events] in *. subst p. unfold sm_catch, on_posix, on_world. cbn [wt_posix wt_events].
  rewrite ep_poll_quiet. assert (set_world (px_world q) q = q) as -> by (by destruct q).
  unfold ready_of. cbn [fst snd]. rewrite Hf. cbn [fmap option_fmap option_map]. destruct (ep_poll_of f (px_world q)) as [st|er].
  - rewrite <-writes_app. unfold sm_bind. rewrite push_if_writes by done. destruct (writes _ num _) as [[[n|e] s']|] eqn:Hw; [|done..].
    apply writes_keeps in Hw as [_ Hle']; [|done]. by apply push_if_writes.
  - by apply (push_if_writes true).
Qed.
Lemma poll_ready_exact l num s :
  let p := wt_posix s in
  Forall key_ok l → Forall (λ x, is_Some (fd_map p x.1)) l → (num ≤ length (wt_events s))%nat →
  poll_ready l num s = writes (ready p l) num s.
Proof.
  revert num s. induction l as [|[fd ev] l IH]; intros num s p Hk Hop Hle; [by rewrite writes_nil|].
  apply Forall_cons in Hk as [Hk1 Hk]. apply Forall_cons in Hop as [[f Hf] Hop]. cbn [fst] in Hf. cbn [poll_ready].
  unfold ready. cbn [fmap list_fmap concat]. rewrite <-writes_app. unfold sm_bind. rewrite (poll_registered_open fd ev num s f) by done. fold p.
  destruct (writes (ready_of p (fd, ev)) num s) as [[[n|e] s']|] eqn:Hw; [|done..].
  apply writes_keeps in Hw as [Hp Hle']; [|done]. rewrite IH; [by rewrite Hp|done|by rewrite Hp|done].
Qed.

(** A registered descriptor that is not open ends the round with [EBADF] if the events
    before it fit. *)
Lemma poll_ready_closed l fd num s :
  let p := wt_posix s in
  Forall key_ok l → fd ∈ l.*1 → fd_map p fd = None → (num + 2 * length l ≤ length (wt_events s))%nat →
  ∃ s', poll_ready l num s = Ret (Err LinuxError.EBADF, s') ∧ wt_posix s' = p.
Proof.
  revert num s. induction l as [|[fd' ev] l IH]; intros num s p Hk Hin Hn Hle; [by apply not_elem_of_nil in Hin|].
  apply Forall_cons in Hk as [Hk1 Hk]. cbn [poll_ready]. unfold sm_bind. destruct (fd_map p fd') as [f|] eqn:Hf.
  - rewrite (poll_registered_open fd' ev num s f) by (done || cbn [length] in Hle; lia). fold p.
    assert (length (ready_of p (fd', ev)) ≤ 2)%nat as H2.
    { unfold ready_of. cbn [fst snd]. rewrite Hf. cbn. destruct (ep_poll_of _ _) as [st|]; rewrite ?length_app; unfold event_list; repeat case_match; cbn; lia. }
    unfold writes. cbn [length] in Hle. destruct (Nat.leb_spec (num + length (ready_of p (fd', ev))) (length (wt_events s))); [|lia].
    destruct (IH (num + length (ready_of p (fd', ev)))%nat {| wt_posix := wt_posix s; wt_events := put (ready_of p (fd', ev)) num (wt_events s) |})
      as (s' & Hs' & Hp'); [done| |done|cbn; rewrite length_put by done; lia|by exists s'].
    cbn in Hin. apply elem_of_cons in Hin as [->|]; [congruence|done].
  - unfold poll_registered. unfold key_ok in Hk1. cbn [fst] in Hk1. rewrite to_signed_32_fd by done. unfold sm_bind, on_posix.
    rewrite get_file_like_eq by (unfold is_int; lia). fold p. rewrite Hf. by eexists.
Qed.

Lemma btree_iter_perm {A} (m : gmap Z A) : btree_iter m ≡ₚ map_to_list m.
Proof. apply merge_sort_Permutation. Qed.
Lemma btree_iter_keys {A} (m : gmap Z A) fd : fd ∈ (btree_iter m).*1 ↔ is_Some (m !! fd).
Proof.
  rewrite btree_iter_perm, list_elem_of_fmap. split.
  - intros ([k a] & -> & Hin%elem_of_map_to_list). by eexists.
  - intros [a Ha]. exists (fd, a). split; [done|]. by apply elem_of_map_to_list.
Qed.

(** The registered descriptors are small numbers. *)
Definition keys_ok (ev : gmap Z epoll_event) : Prop := ∀ fd, is_Some (ev !! fd) → 0 ≤ fd < AX_FILE_LIMIT.
Lemma keys_ok_iter ev : keys_ok ev → Forall key_ok (btree_iter ev).
Proof.
  intros Hk. apply Forall_forall. intros [fd e] Hin. unfold key_ok. cbn. assert (0 ≤ fd < AX_FILE_LIMIT) by
    (apply Hk, btree_iter_keys, list_elem_of_fmap; by exists (fd, e)). unfold AX_FILE_LIMIT in *. lia.
Qed.

Lemma to_signed_c_int fd : is_int fd → to_signed 32 (fd mod 2 ^ 64) = fd.
Proof.
  unfold is_int, to_signed. intros Hfd. cbv zeta. change (32 - 1) with 31.
  rewrite Z.mod_mod_divide by (by exists (2 ^ 32)).
  destruct (decide (0 ≤ fd)).
  - rewrite Z.mod_small by lia. destruct (Z.ltb_spec fd (2 ^ 31)); lia.
  - rewrite (Z.mod_eq fd (2 ^ 32)) by lia. replace (fd / 2 ^ 32) with (-1) by (apply (Z.div_unique _ _ _ (fd + 2 ^ 32)); lia).
    destruct (Z.ltb_spec (fd - 2 ^ 32 * -1) (2 ^ 31)); lia.
Qed.
Lemma op_mod op k : is_int op → 0 ≤ k < 2 ^ 31 → ((op mod 2 ^ 64) mod 2 ^ 32 =? k) = (op =? k).
Proof.
  unfold is_int. intros Hop Hk. rewrite Z.mod_mod_divide by (by exists (2 ^ 32)).
  destruct (decide (0 ≤ op)); [by rewrite Z.mod_small by lia|].
  rewrite (Z.mod_eq op (2 ^ 32)) by lia. replace (op / 2 ^ 32) with (-1) by (apply (Z.div_unique _ _ _ (op + 2 ^ 32)); lia).
  repeat case_Z1; done || lia.
Qed.

(** What [epoll_ctl] does to the registered descriptors. *)
Definition ctl_ref (op fd : Z) (event : epoll_event) (ev : gmap Z epoll_event) : result (gmap Z epoll_event) LinuxError.t :=
  if op =? EPOLL_CTL_ADD then match ev !! fd with None => Ok (<[fd := event]> ev) | Some _ => Err LinuxError.EEXIST end
  else if op =? EPOLL_CTL_MOD then match ev !! fd with Some _ => Ok (<[fd := event]> ev) | None => Err LinuxError.ENOENT end
  else if op =? EPOLL_CTL_DEL then match ev !! fd with Some _ => Ok (delete fd ev) | None => Err LinuxError.ENOENT end
  else Err LinuxError.EINVAL.
Definition instance_is p (epfd : Z) (id : nat) (ev : gmap Z epoll_event) (n : nat) : Prop :=
  is_int epfd ∧ fd_map p epfd = Some (EpollFile id) ∧ ep_instances (px_world p) !! id = Some (ev, n) ∧ keys_ok ev ∧ (0 < n)%nat.

Lemma epoll_from_fd_eq p epfd id ev n : instance_is p epfd id ev n → epoll_from_fd epfd p = Ret (Ok id, p).
Proof. intros (Hi & Hf & _). unfold epoll_from_fd, sm_bind. by rewrite get_file_like_eq, Hf. Qed.
Lemma set_same_instance p id x : ep_instances (px_world p) !! id = Some x →
  set_world (set_instances (<[id := x]> (ep_instances (px_world p))) (px_world p)) p = p.
Proof. intros Hx. rewrite insert_id by done. destruct p as [t [i k o]]. done. Qed.

Lemma epoll_ctl_spec p epfd op fd event id ev n :
  instance_is p epfd id ev n → is_int op → is_int fd →
  ∃ r p', sys_epoll_ctl epfd op fd event p = Ret (r, p') ∧
    match fd_map p fd, ctl_ref op fd event ev with
    | None, _ => r = - errno LinuxError.EBADF ∧ p' = p
    | Some _, Err e => r = - errno e ∧ p' = p
    | Some _, Ok ev' => r = 0 ∧ keys_ok ev' ∧ FD_TABLE p' = FD_TABLE p ∧ ep_other (px_world p') = ep_other (px_world p) ∧
        ep_instances (px_world p') = <[id := (ev', n)]> (ep_instances (px_world p))
    end.
Proof.
  intros Hinst Hop Hfd. pose proof Hinst as (_ & _ & Hid & Hk & _). unfold sys_epoll_ctl, syscall_body, sm_bind at 1.
  rewrite (epoll_from_fd_eq _ _ _ _ _ Hinst). unfold control, sm_bind. rewrite to_signed_c_int, get_file_like_eq by done.
  destruct (fd_map p fd) as [f|] eqn:Hf; cbn [ok_or]; [|by eexists _, _]. pose proof (obj_get_range _ _ _ Hf) as Hr.
  rewrite !op_mod by (done || unfold EPOLL_CTL_ADD, EPOLL_CTL_MOD, EPOLL_CTL_DEL; lia).
  rewrite (Z.mod_small fd) by (unfold AX_FILE_LIMIT in *; lia). unfold ctl_ref, with_events.
  destruct (op =? EPOLL_CTL_ADD); [|destruct (op =? EPOLL_CTL_MOD); [|destruct (op =? EPOLL_CTL_DEL); [|by eexists _, _]]];
    rewrite Hid; destruct (ev !! fd) as [old|] eqn:Hold; rewrite ?set_same_instance by done; (eexists _, _; split; [done|]); try done.
  all: split; [done|]; split; [|done]; intros k Hkk.
  - destruct (decide (k = fd)) as [->|]; [done|]. rewrite lookup_insert_ne in Hkk by done. by apply Hk.
  - destruct (decide (k = fd)) as [->|]; [done|]. rewrite lookup_insert_ne in Hkk by done. by apply Hk.
  - destruct Hkk as [x [_ Hx]%lookup_delete_Some]. apply Hk. by eexists.
Qed.

(** ** Waiting *)

Definition hold (id : nat) p : posix (EpFl Fl) (epolls W) := set_world (ep_clone (EpollFile id) (px_world p)) p.
Lemma hold_drop p id ev n : ep_instances (px_world p) !! id = Some (ev, n) → (0 < n)%nat →
  set_world (ep_drop (EpollFile id) (px_world (hold id p))) (hold id p) = p.
Proof.
  intros Hid Hn. unfold hold. cbn. rewrite Hid. cbn. rewrite lookup_insert_eq. destruct n as [|n]; [lia|]. cbn.
  rewrite insert_insert_eq, insert_id by done. destruct p as [t [i k o]]. done.
Qed.
Lemma hold_ready p id l : ready (hold id p) l = ready p l.
Proof.
  unfold ready, hold. f_equal. apply list_fmap_ext. intros i x _. unfold ready_of, fd_map. cbn.
  assert (∀ f, ep_poll_of f (ep_clone (EpollFile id) (px_world p)) = ep_poll_of f (px_world p)) as He.
  { intros [j|f]; [done|]. cbn. by destruct (ep_instances (px_world p) !! id) as [[]|]. }
  destruct (obj_get (FD_TABLE p) x.1) as [f|]; [|done]. cbn. by rewrite He.
Qed.

(** The first round of a call to [epoll_wait]. *)
Lemma wait_first_round s epfd id ev n maxevents timeout start now others sched :
  let p := wt_posix s in
  instance_is p epfd id ev n → 0 < maxevents → 
  sys_epoll_wait epfd maxevents timeout start ((now, others) :: sched) s =
  match (let! r := wait_round id (if timeout <? 0 then None else Some (start + timeout)) now in
         match r with
         | Some n => sm_ret (Some n)
         | None => λ s, wait_loop id (if timeout <? 0 then None else Some (start + timeout)) sched
                          {| wt_posix := others (wt_posix s); wt_events := wt_events s |}
         end) {| wt_posix := hold id p; wt_events := wt_events s |} with
  | Ret (r, s') =>
      let s'' := {| wt_posix := set_world (ep_drop (EpollFile id) (px_world (wt_posix s'))) (wt_posix s'); wt_events := wt_events s' |} in
      match r with Ok v => Ret (v, s'') | Err e => Ret (Some (- errno e), s'') end
  | Panic => Panic
  end.
Proof.
  intros p Hinst Hmax. unfold sys_epoll_wait. rewrite (proj2 (Z.leb_gt maxevents 0)) by done. cbv zeta.
  unfold sm_bind at 1, on_posix at 1. fold p. rewrite (epoll_from_fd_eq _ _ _ _ _ Hinst). cbn [wait_loop].
  unfold sm_bind at 1, on_posix at 1, clone_file, sm_modify at 1. cbn [wt_posix]. fold (hold id p). unfold sm_catch. cbn [wt_events].
  destruct (sm_bind (wait_round _ _ _) _ _) as [[[v|e] s']|]; done.
Qed.

(** [epoll_ctl] acts on the registered descriptors as on a map from descriptors to
    events: it adds a descriptor that is not there, changes or removes one that is, and
    answers [EBADF] for a closed descriptor, [EEXIST], [ENOENT] or [EINVAL] otherwise,
    changing nothing. *)
Theorem epoll_ctl_refines_map p epfd op fd event id ev n :
  instance_is p epfd id ev n → is_int op → is_int fd →
  ∃ r p', sys_epoll_ctl epfd op fd event p = Ret (r, p') ∧
    match fd_map p fd, ctl_ref op fd event ev with
    | None, _ => r = - errno LinuxError.EBADF ∧ p' = p
    | Some _, Err e => r = - errno e ∧ p' = p
    | Some _, Ok ev' => r = 0 ∧ keys_ok ev' ∧ FD_TABLE p' = FD_TABLE p ∧ ep_other (px_world p') = ep_other (px_world p) ∧
        ep_instances (px_world p') = <[id := (ev', n)]> (ep_instances (px_world p))
    end.
Proof. apply epoll_ctl_spec. Qed.

(** An [epoll_wait] that finds ready descriptors returns their events, at the start
    of the buffer in the order of the descriptors, and their number; when they do not fit
    in the buffer of [maxevents] entries, the kernel panics. *)
Theorem epoll_wait_exact s epfd id ev n maxevents timeout start now others sched :
  let p := wt_posix s in
  instance_is p epfd id ev n → 0 < maxevents → Z.of_nat (length (wt_events s)) = maxevents →
  (∀ fd, is_Some (ev !! fd) → is_Some (fd_map p fd)) →
  let found := ready p (btree_iter ev) in
  found ≠ [] →
  sys_epoll_wait epfd maxevents timeout start ((now, others) :: sched) s =
  if Z.of_nat (length found) <=? maxevents
  then Ret (Some (Z.of_nat (length found)), {| wt_posix := p; wt_events := found ++ drop (length found) (wt_events s) |})
  else Panic.
Proof.
  intros p Hinst Hmax Hlen Hopen found Hne. pose proof Hinst as (_ & _ & Hid & Hk & Hn).
  rewrite (wait_first_round s epfd id ev n) by done. fold p. unfold wait_round, sm_bind at 1 2, epoll_poll_all.
  cbn [wt_posix]. assert (ep_instances (px_world (hold id p)) !! id = Some (ev, S n)) as ->.
  { unfold hold. cbn. rewrite Hid. cbn. by rewrite lookup_insert_eq. }
  rewrite poll_ready_exact; [|by apply keys_ok_iter| |cbn; lia].
  2: { apply Forall_forall. intros [fd e] Hin. apply Hopen, btree_iter_keys, list_elem_of_fmap. by exists (fd, e). }
  cbn [wt_posix]. rewrite hold_ready. fold found. unfold writes. cbn [wt_events wt_posix Nat.add].
  destruct (Nat.leb_spec (length found) (length (wt_events s))), (Z.leb_spec (Z.of_nat (length found)) maxevents); try lia; [|done].
  assert (0 < length found)%nat by (destruct found; [done|cbn; lia]). rewrite (proj2 (Nat.ltb_lt 0 _)) by done.
  unfold sm_ret. cbv beta iota zeta. cbn [wt_posix wt_events]. by rewrite (hold_drop p id ev n).
Qed.

(** A registered descriptor that has been closed wedges the instance: every
    [epoll_wait] with room for the events answers [EBADF], and so does the
    [EPOLL_CTL_DEL] that would remove it. *)
Theorem epoll_closed_stuck s epfd id ev n fd event maxevents timeout start now others sched :
  let p := wt_posix s in
  instance_is p epfd id ev n → 0 < maxevents → (2 * size ev ≤ length (wt_events s))%nat →
  is_Some (ev !! fd) → fd_map p fd = None →
  (∃ s', sys_epoll_wait epfd maxevents timeout start ((now, others) :: sched) s = Ret (Some (- errno LinuxError.EBADF), s') ∧ wt_posix s' = p) ∧
  sys_epoll_ctl epfd EPOLL_CTL_DEL fd event p = Ret (- errno LinuxError.EBADF, p).
Proof.
  intros p Hinst Hmax Hlen Hreg Hcl. pose proof Hinst as (_ & _ & Hid & Hk & Hn). split.
  - rewrite (wait_first_round s epfd id ev n) by done. fold p. unfold wait_round, sm_bind at 1 2, epoll_poll_all.
    cbn [wt_posix]. assert (ep_instances (px_world (hold id p)) !! id = Some (ev, S n)) as ->.
    { unfold hold. cbn. rewrite Hid. cbn. by rewrite lookup_insert_eq. }
    destruct (poll_ready_closed (btree_iter ev) fd 0 {| wt_posix := hold id p; wt_events := wt_events s |}) as (s' & -> & Hp').
    + by apply keys_ok_iter.
    + by apply btree_iter_keys.
    + done.
    + cbn. assert (length (btree_iter ev) = size ev) as -> by (by rewrite btree_iter_perm, length_map_to_list). lia.
    + cbn in Hp'. eexists. split; [done|]. cbn [wt_posix]. rewrite Hp'. by apply (hold_drop p id ev n).
  - pose proof (Hk fd Hreg) as Hr. destruct (epoll_ctl_spec p epfd EPOLL_CTL_DEL fd event id ev n) as (r & p' & -> & Hr').
    + done.
    + done.
    + unfold is_int, AX_FILE_LIMIT in *. lia.
    + rewrite Hcl in Hr'. by destruct Hr' as [-> ->].
Qed.
End properties.
