(* ===== verification/MpxDemo.v ===== *)
(** Concrete runs of [select], [epoll] and pipes: the theorems of [Select.v], [Epoll.v]
    and [PipeFile.v] applied to small descriptor tables.  The files of other kinds are
    the booleans: a file that is ready for reading or one that is ready for writing. *)

From stdpp Require Import prelude gmap list.
From Stdlib Require Import ZArith Lia.
From S2P Require Import Prelude Pipe FdTable PipeFile Select Epoll AxfsDemo.
Local Open Scope Z_scope.
Local Open Scope kernel_scope.

Definition lamp_poll (f : bool) (w : unit) : result PollState LinuxError.t := Ok {| poll_readable := f; poll_writable := negb f |}.
Definition lamp_like : FileLike bool unit := {|
  fl_read _ _ w := Ret (Ok [], w); fl_write _ _ w := Ret (Ok 0, w); fl_stat _ w := Ret (Ok stat_default, w);
  fl_poll f w := Ret (lamp_poll f w, w); fl_set_nonblocking _ _ w := Ret (Ok tt, w); fl_clone _ w := w; fl_drop _ w := w |}.
#[local] Existing Instances lamp_like std_errnos std_errnos_laws std_table std_table_laws.

Lemma lamp_quiet (f : bool) (w : unit) : fl_poll f w = Ret (lamp_poll f w, w).
Proof. done. Qed.

(** Descriptors 3 (readable) and 70 (writable). *)
Definition lamps : posix bool unit := {| FD_TABLE := (<[3 := true]> (<[70 := false]> ∅) : gmap Z bool); px_world := tt |}.
(** The caller asks whether either can be read or written. *)
Definition lamp_set : list Z := [8; 64] ++ replicate 14 0.
Definition asking : selecting bool unit := {| sl_posix := lamps; res_read := Some lamp_set; res_write := Some lamp_set; res_except := None |}.

Lemma select_polls_each_witness :
  FdSets_poll_all (FdSets_from 71 (Some lamp_set) (Some lamp_set) None) asking =
  poll_each (Some lamp_set) (Some lamp_set) None 71 0 0 asking.
Proof. apply (select_polls_each (Some lamp_set) (Some lamp_set) None 71 asking); [lia|reflexivity|reflexivity|exact I]. Defined.

Lemma asking_answer :
  select_ref lamp_poll (res_read asking) (res_write asking) (res_except asking) (Z.min 71 FD_SETSIZE) ((λ t, 0 + t) <$> None)
    [(0, λ p, p)] (sl_posix asking) = Some (Ok 2, lamps).
Proof.
  change (Z.min 71 FD_SETSIZE) with 71. cbn [select_ref].
  assert (all_open (res_read asking) (res_write asking) (res_except asking) 71 (sl_posix asking) = true) as -> by (vm_compute; reflexivity).
  assert (count_ready lamp_poll (res_read asking) (res_write asking) (res_except asking) 71 (sl_posix asking) = 2) as -> by (vm_compute; reflexivity).
  done.
Qed.

(** An epoll instance at 5, watching the two files, and the same with 70 closed. *)
Definition ask : epoll_event := {| ee_events := 5; ee_data := 9 |}.
Definition watch : gmap Z epoll_event := <[3 := ask]> (<[70 := ask]> ∅).
Definition ep_state (table : gmap Z (EpFl bool)) : posix (EpFl bool) (epolls unit) :=
  {| FD_TABLE := table; px_world := {| ep_instances := {[ 0%nat := (watch, 1%nat) ]}; ep_next := 1; ep_other := tt |} |}.
Definition ep_open : posix (EpFl bool) (epolls unit) :=
  ep_state (<[5 := EpollFile 0]> (<[3 := OtherFile true]> (<[70 := OtherFile false]> (<[71 := OtherFile true]> ∅)))).
Definition ep_closed : posix (EpFl bool) (epolls unit) := ep_state (<[5 := EpollFile 0]> (<[3 := OtherFile true]> ∅)).
Lemma watch_keys : keys_ok watch.
Proof.
  intros fd [e He]. unfold AX_FILE_LIMIT. unfold watch in He.
  apply lookup_insert_Some in He as [[<- _]|[_ He]]; [lia|]. apply lookup_insert_Some in He as [[<- _]|[_ He]]; [lia|].
  by rewrite lookup_empty in He.
Qed.
Lemma watch_some fd : is_Some (watch !! fd) → fd = 3 ∨ fd = 70.
Proof.
  intros [e He]. unfold watch in He. apply lookup_insert_Some in He as [[<- _]|[_ He]]; [by left|].
  apply lookup_insert_Some in He as [[<- _]|[_ He]]; [by right|]. by rewrite lookup_empty in He.
Qed.

Lemma epoll_ctl_refines_map_witness :
  ∃ p', sys_epoll_ctl 5 EPOLL_CTL_ADD 71 ask ep_open = Ret (0, p') ∧
    ep_instances (px_world p') !! 0%nat = Some (<[71 := ask]> watch, 1%nat).
Proof.
  destruct (epoll_ctl_refines_map ep_open 5 EPOLL_CTL_ADD 71 ask 0 watch 1) as (r & p' & Hc & Hs).
  - split; [unfold is_int; lia|]. split; [vm_compute; reflexivity|]. split; [reflexivity|]. split; [exact watch_keys|lia].
  - unfold is_int, EPOLL_CTL_ADD. lia.
  - unfold is_int. lia.
  - change (fd_map ep_open 71) with (Some (OtherFile true)) in Hs.
    change (ctl_ref EPOLL_CTL_ADD 71 ask watch) with (Ok (<[71 := ask]> watch) : result _ LinuxError.t) in Hs.
    destruct Hs as (-> & _ & _ & _ & Hi). exists p'. split; [exact Hc|]. rewrite Hi. reflexivity.
Defined.

Definition no_event : epoll_event := {| ee_events := 0; ee_data := 0 |}.
Lemma epoll_wait_exact_witness :
  sys_epoll_wait 5 1 (-1) 0 [(0, λ p, p)] {| wt_posix := ep_open; wt_events := [no_event] |} = Panic.
Proof.
  assert ((Z.of_nat (length (ready lamp_poll ep_open (btree_iter watch))) <=? 1) = false) as Hmany by (vm_compute; reflexivity).
  rewrite (epoll_wait_exact lamp_poll lamp_quiet {| wt_posix := ep_open; wt_events := [no_event] |} 5 0 watch 1).
  - cbn [wt_posix]. rewrite Hmany. reflexivity.
  - split; [unfold is_int; lia|]. split; [vm_compute; reflexivity|]. split; [reflexivity|]. split; [exact watch_keys|lia].
  - lia.
  - reflexivity.
  - intros fd [-> | ->]%watch_some; vm_compute; eexists; reflexivity.
  - vm_compute. discriminate.
Defined.

Lemma epoll_closed_stuck_witness : sys_epoll_ctl 5 EPOLL_CTL_DEL 70 ask ep_closed = Ret (- errno LinuxError.EBADF, ep_closed).
Proof.
  destruct (epoll_closed_stuck lamp_poll lamp_quiet {| wt_posix := ep_closed; wt_events := replicate 8 no_event |}
    5 0 watch 1 70 ask 8 (-1) 0 0 (λ p, p) []) as [_ Hd].
  - split; [unfold is_int; lia|]. split; [vm_compute; reflexivity|]. split; [reflexivity|]. split; [exact watch_keys|lia].
  - lia.
  - vm_compute. lia.
  - vm_compute. eexists. reflexivity.
  - vm_compute. reflexivity.
  - exact Hd.
Defined.

(** A table with the three standard streams, and no pipes. *)
Definition no_pipes : posix (PipeFl bool) (pipes unit) :=
  {| FD_TABLE := (<[0 := NotPipe true]> (<[1 := NotPipe false]> (<[2 := NotPipe false]> ∅)) : gmap Z (PipeFl bool));
     px_world := {| pp_objs := ∅; pp_next := 0; pp_other := tt |} |}.

Lemma sys_pipe_all_or_none_witness : ∃ r fds p', sys_pipe 2 no_pipes = Ret (r, fds, p') ∧ pp_other (px_world p') = tt.
Proof.
  destruct (sys_pipe_all_or_none no_pipes 2) as (r & fds & p' & Hs & Ho & _); [reflexivity|].
  exists r, fds, p'. split; [exact Hs|exact Ho].
Defined.

Definition piped : posix (PipeFl bool) (pipes unit) := match sys_pipe 2 no_pipes with Ret (_, _, p) => p | Panic => no_pipes end.
Lemma pipe_fds_roundtrip_witness : ∃ p2 p3 p4 p5,
  sys_write 4 (Some [7; 8; 9]) piped = Ret (3, p2) ∧ sys_close 4 p2 = Ret (0, p3) ∧
  sys_read 3 (Some tt) 2 p3 = Ret (2, [7; 8], p4) ∧ sys_read 3 (Some tt) 9 p4 = Ret (1, [9], p5).
Proof.
  destruct (pipe_fds_roundtrip no_pipes 3 4 piped [7; 8; 9] 2 9) as (p2 & p3 & p4 & p5 & H1 & H2 & H3 & H4).
  - reflexivity.
  - reflexivity.
  - lia.
  - cbn. lia.
  - lia.
  - lia.
  - exists p2, p3, p4, p5. repeat split; assumption.
Defined.
