(* ===== verification/Net.v ===== *)
(** The network stack of [axnet] ([modules/axnet/src/smoltcp_impl]): addresses
    ([addr.rs]), the socket set and the reception of frames ([mod.rs]), the table of
    listening ports ([listen_table.rs]), TCP sockets ([tcp.rs]), UDP sockets ([udp.rs])
    and name queries ([dns.rs]).

    The protocols are the external crate [smoltcp]: its sockets, its socket set and its
    frame parsers are classes.  The state [net] has the statics of the module and the
    socket objects, by number, since a socket is shared by reference between tasks.
    What the network card receives is a stream of frames, a batch for each poll.  A
    loop that yields takes a schedule, what the other tasks do at each yield; it gives
    [None] when the schedule ends and the call still waits. *)

From stdpp Require Import prelude gmap list.
From Stdlib Require Import ZArith Lia.
From S2P Require Import Prelude FdTable.
Local Open Scope Z_scope.
Local Open Scope kernel_scope.

(** ** Addresses *)

(** The four octets of an IPv4 address. *)
Definition octets : Type := Z * Z * Z * Z.
(** [smoltcp::wire], built with IPv4 only. *)
Record IpEndpoint : Type := { ep_addr : octets; ep_port : Z }.
Record IpListenEndpoint : Type := { le_addr : option octets; le_port : Z }.
(** [core::net]. *)
Inductive IpAddr : Type :=
| IpV4 (o : octets)
| IpV6 (segments : list Z).
Record SocketAddr : Type := { sa_ip : IpAddr; sa_port : Z }.

#[export] Instance IpEndpoint_eq_dec : EqDecision IpEndpoint.
Proof. solve_decision. Defined.
#[export] Instance IpAddr_eq_dec : EqDecision IpAddr.
Proof. solve_decision. Defined.

Definition from_core_ipaddr (ip : IpAddr) : outcome octets := match ip with IpV4 o => Ret o | IpV6 _ => Panic end.
Definition into_core_ipaddr (ip : octets) : IpAddr := IpV4 ip.
Definition from_core_sockaddr (a : SocketAddr) : outcome IpEndpoint :=
  match from_core_ipaddr (sa_ip a) with Ret o => Ret {| ep_addr := o; ep_port := sa_port a |} | Panic => Panic end.
Definition into_core_sockaddr (e : IpEndpoint) : SocketAddr := {| sa_ip := into_core_ipaddr (ep_addr e); sa_port := ep_port e |}.
Definition is_unspecified (ip : octets) : bool := bool_decide (ip = (0, 0, 0, 0)).
Definition UNSPECIFIED_ENDPOINT : IpEndpoint := {| ep_addr := (0, 0, 0, 0); ep_port := 0 |}.
(** [IpAddr::is_unspecified] of [core]. *)
Definition ip_is_unspecified (ip : IpAddr) : bool :=
  match ip with IpV4 o => is_unspecified o | IpV6 l => forallb (Z.eqb 0) l end.

(** ** [smoltcp] *)

(** [smoltcp::socket::tcp::State]. *)
Inductive TcpState : Type :=
| Closed | Listen | SynSent | SynReceived | Established | FinWait1 | FinWait2 | CloseWait | Closing | LastAck | TimeWait.
Inductive ConnectError : Type := ConnectInvalidState | ConnectUnaddressable.
Inductive BindError : Type := BindInvalidState | BindUnaddressable.
Inductive SendError : Type := SendUnaddressable | SendBufferFull.
Inductive StartQueryError : Type := NoFreeSlot | InvalidName | NameTooLong.
Inductive GetQueryResultError : Type := QueryPending | QueryFailed.

(** The sockets, and the packets the module looks into.  Receiving gives the bytes
    stored to a buffer of the given length. *)
Class Smoltcp : Type := {
  tcp_socket : Type;
  tcp_new : tcp_socket;
  tcp_listen : IpListenEndpoint → tcp_socket → result unit unit * tcp_socket;
  tcp_close : tcp_socket → tcp_socket;
  tcp_state : tcp_socket → TcpState;
  tcp_local_endpoint : tcp_socket → option IpEndpoint;
  tcp_remote_endpoint : tcp_socket → option IpEndpoint;
  tcp_is_active : tcp_socket → bool;
  tcp_may_recv : tcp_socket → bool;
  tcp_may_send : tcp_socket → bool;
  tcp_can_recv : tcp_socket → bool;
  tcp_can_send : tcp_socket → bool;
  tcp_recv_queue : tcp_socket → Z;
  tcp_recv_slice : Z → tcp_socket → result (list Z) unit * tcp_socket;
  tcp_send_slice : list Z → tcp_socket → result Z unit * tcp_socket;
  udp_socket : Type;
  udp_new : udp_socket;
  udp_bind : IpListenEndpoint → udp_socket → result unit BindError * udp_socket;
  udp_close : udp_socket → udp_socket;
  udp_can_recv : udp_socket → bool;
  udp_can_send : udp_socket → bool;
  udp_recv_slice : Z → udp_socket → result (list Z * IpEndpoint) unit * udp_socket;
  udp_peek_slice : Z → udp_socket → result (list Z * IpEndpoint) unit;
  udp_send_slice : list Z → IpEndpoint → udp_socket → result unit SendError * udp_socket;
  dns_socket : Type;
  dns_new : dns_socket;
  query_handle : Type;
  dns_get_query_result : query_handle → dns_socket → result (list octets) GetQueryResultError * dns_socket;
  (** The interface, which a connecting socket and a query need. *)
  iface : Type;
  tcp_connect_op : IpEndpoint → IpListenEndpoint → tcp_socket → iface → result unit ConnectError * tcp_socket * iface;
  dns_start_query : list Z → dns_socket → iface → result query_handle StartQueryError * dns_socket * iface;
  (** [EthernetFrame::new_checked] with [payload]; the fields of an IPv4 packet: whether
      it carries TCP, its source, its destination, its payload; the ports, [syn] and
      [ack] of a TCP packet. *)
  ether_payload : list Z → option (list Z);
  ipv4_fields : list Z → option (bool * octets * octets * list Z);
  tcp_fields : list Z → option (Z * Z * bool * bool);
}.

Inductive AnySocket `{Smoltcp} : Type :=
| STcp (t : tcp_socket)
| SUdp (u : udp_socket)
| SDns (d : dns_socket).

(** The socket set.  [get] and [remove] panic on a handle that is not in use; [set_put]
    is a write through [get_mut].  [iface_process] handles one received frame and
    [iface_egress] sends what is queued. *)
Class SmolSet `{Smoltcp} : Type := {
  socket_set : Type;
  set_new : socket_set;
  set_add : AnySocket → socket_set → nat * socket_set;
  set_get : socket_set → nat → option AnySocket;
  set_put : nat → AnySocket → socket_set → socket_set;
  set_remove : nat → socket_set → option socket_set;
  iface_process : list Z → iface → socket_set → iface * socket_set;
  iface_egress : iface → socket_set → iface * socket_set;
}.

(** ** The state *)

Record ListenTableEntry : Type := { listen_endpoint : IpListenEndpoint; syn_queue : list nat }.

Record TcpSocket : Type := {
  ts_state : Z;
  ts_handle : option nat;
  ts_local_addr : IpEndpoint;
  ts_peer_addr : IpEndpoint;
  ts_nonblock : bool;
}.
Record UdpSocket : Type := {
  us_handle : nat;
  us_local_addr : option IpEndpoint;
  us_peer_addr : option IpEndpoint;
  us_nonblock : bool;
}.

Definition LISTEN_QUEUE_SIZE : Z := 512.
Definition PORT_START : Z := 0xc000.
Definition PORT_END : Z := 0xffff.

Definition STATE_CLOSED : Z := 0.
Definition STATE_BUSY : Z := 1.
Definition STATE_CONNECTING : Z := 2.
Definition STATE_CONNECTED : Z := 3.
Definition STATE_LISTENING : Z := 4.

Section net.
Context {smoltcp : Smoltcp} {smolset : SmolSet}.

(** The listen table has the ports with an entry.  [TCP_CURR] and [UDP_CURR] are the two
    [CURR]s of [get_ephemeral_port]. *)
Record net : Type := {
  SOCKET_SET : socket_set;
  LISTEN_TABLE : gmap Z ListenTableEntry;
  ETH0 : iface;
  TCP_CURR : Z;
  UDP_CURR : Z;
  tcp_sockets : gmap nat TcpSocket;
  udp_sockets : gmap nat UdpSocket;
  next_id : nat;
  rx_frames : list (list (list Z));
}.
Abbreviation M := (SM net AxError.t).

Definition set_sockets (s : socket_set) (n : net) : net :=
  {| SOCKET_SET := s; LISTEN_TABLE := LISTEN_TABLE n; ETH0 := ETH0 n; TCP_CURR := TCP_CURR n; UDP_CURR := UDP_CURR n;
     tcp_sockets := tcp_sockets n; udp_sockets := udp_sockets n; next_id := next_id n; rx_frames := rx_frames n |}.
Definition set_iface (i : iface) (n : net) : net :=
  {| SOCKET_SET := SOCKET_SET n; LISTEN_TABLE := LISTEN_TABLE n; ETH0 := i; TCP_CURR := TCP_CURR n; UDP_CURR := UDP_CURR n;
     tcp_sockets := tcp_sockets n; udp_sockets := udp_sockets n; next_id := next_id n; rx_frames := rx_frames n |}.
Definition set_listen (t : gmap Z ListenTableEntry) (n : net) : net :=
  {| SOCKET_SET := SOCKET_SET n; LISTEN_TABLE := t; ETH0 := ETH0 n; TCP_CURR := TCP_CURR n; UDP_CURR := UDP_CURR n;
     tcp_sockets := tcp_sockets n; udp_sockets := udp_sockets n; next_id := next_id n; rx_frames := rx_frames n |}.
Definition set_tcp_curr (c : Z) (n : net) : net :=
  {| SOCKET_SET := SOCKET_SET n; LISTEN_TABLE := LISTEN_TABLE n; ETH0 := ETH0 n; TCP_CURR := c; UDP_CURR := UDP_CURR n;
     tcp_sockets := tcp_sockets n; udp_sockets := udp_sockets n; next_id := next_id n; rx_frames := rx_frames n |}.
Definition set_udp_curr (c : Z) (n : net) : net :=
  {| SOCKET_SET := SOCKET_SET n; LISTEN_TABLE := LISTEN_TABLE n; ETH0 := ETH0 n; TCP_CURR := TCP_CURR n; UDP_CURR := c;
     tcp_sockets := tcp_sockets n; udp_sockets := udp_sockets n; next_id := next_id n; rx_frames := rx_frames n |}.
Definition set_tcps (m : gmap nat TcpSocket) (n : net) : net :=
  {| SOCKET_SET := SOCKET_SET n; LISTEN_TABLE := LISTEN_TABLE n; ETH0 := ETH0 n; TCP_CURR := TCP_CURR n; UDP_CURR := UDP_CURR n;
     tcp_sockets := m; udp_sockets := udp_sockets n; next_id := next_id n; rx_frames := rx_frames n |}.
Definition set_udps (m : gmap nat UdpSocket) (n : net) : net :=
  {| SOCKET_SET := SOCKET_SET n; LISTEN_TABLE := LISTEN_TABLE n; ETH0 := ETH0 n; TCP_CURR := TCP_CURR n; UDP_CURR := UDP_CURR n;
     tcp_sockets := tcp_sockets n; udp_sockets := m; next_id := next_id n; rx_frames := rx_frames n |}.
Definition set_next (k : nat) (n : net) : net :=
  {| SOCKET_SET := SOCKET_SET n; LISTEN_TABLE := LISTEN_TABLE n; ETH0 := ETH0 n; TCP_CURR := TCP_CURR n; UDP_CURR := UDP_CURR n;
     tcp_sockets := tcp_sockets n; udp_sockets := udp_sockets n; next_id := k; rx_frames := rx_frames n |}.
Definition set_rx (r : list (list (list Z))) (n : net) : net :=
  {| SOCKET_SET := SOCKET_SET n; LISTEN_TABLE := LISTEN_TABLE n; ETH0 := ETH0 n; TCP_CURR := TCP_CURR n; UDP_CURR := UDP_CURR n;
     tcp_sockets := tcp_sockets n; udp_sockets := udp_sockets n; next_id := next_id n; rx_frames := r |}.

Definition net_init (i : iface) (rx : list (list (list Z))) : net :=
  {| SOCKET_SET := set_new; LISTEN_TABLE := ∅; ETH0 := i; TCP_CURR := PORT_START; UDP_CURR := PORT_START;
     tcp_sockets := ∅; udp_sockets := ∅; next_id := 0; rx_frames := rx |}.

(** ** The socket set ([mod.rs]) *)

Definition add (s : AnySocket) : M nat := λ n,
  let (h, set) := set_add s (SOCKET_SET n) in Ret (Ok h, set_sockets set n).
Definition remove (h : nat) (n : net) : outcome net :=
  match set_remove h (SOCKET_SET n) with Some set => Ret (set_sockets set n) | None => Panic end.
Definition with_tcp {A} (h : nat) (f : tcp_socket → A) : M A := λ n,
  match set_get (SOCKET_SET n) h with Some (STcp t) => Ret (Ok (f t), n) | _ => Panic end.
Definition with_tcp_mut {A} (h : nat) (f : tcp_socket → result A AxError.t * tcp_socket) : M A := λ n,
  match set_get (SOCKET_SET n) h with
  | Some (STcp t) => let (r, t) := f t in Ret (r, set_sockets (set_put h (STcp t) (SOCKET_SET n)) n)
  | _ => Panic
  end.
Definition with_udp_mut {A} (h : nat) (f : udp_socket → result A AxError.t * udp_socket) : M A := λ n,
  match set_get (SOCKET_SET n) h with
  | Some (SUdp u) => let (r, u) := f u in Ret (r, set_sockets (set_put h (SUdp u) (SOCKET_SET n)) n)
  | _ => Panic
  end.

(** ** The listen table ([listen_table.rs]) *)

Definition entry_new (e : IpListenEndpoint) : ListenTableEntry := {| listen_endpoint := e; syn_queue := [] |}.
Definition entry_can_accept (e : ListenTableEntry) (dst : octets) : bool :=
  match le_addr (listen_endpoint e) with Some a => bool_decide (a = dst) | None => true end.
(** [Drop for ListenTableEntry]. *)
Fixpoint remove_all (hs : list nat) (n : net) : outcome net :=
  match hs with
  | [] => Ret n
  | h :: hs => match remove h n with Ret n => remove_all hs n | Panic => Panic end
  end.

Definition can_listen (port : Z) (n : net) : bool := bool_decide (LISTEN_TABLE n !! port = None).
Definition table_listen (e : IpListenEndpoint) : M unit := λ n,
  if le_port e =? 0 then Panic
  else match LISTEN_TABLE n !! le_port e with
       | None => Ret (Ok tt, set_listen (<[le_port e := entry_new e]> (LISTEN_TABLE n)) n)
       | Some _ => Ret (Err AxError.AddrInUse, n)
       end.
Definition unlisten (port : Z) : M unit := λ n,
  match LISTEN_TABLE n !! port with
  | Some e => match remove_all (syn_queue e) (set_listen (delete port (LISTEN_TABLE n)) n) with
              | Ret n => Ret (Ok tt, n)
              | Panic => Panic
              end
  | None => Ret (Ok tt, n)
  end.

Definition state_connected (t : tcp_socket) : bool := match tcp_state t with Listen | SynReceived => false | _ => true end.
Definition is_connected (h : nat) : M bool := with_tcp h state_connected.
Definition get_addr_tuple (h : nat) : M (IpEndpoint * IpEndpoint) := λ n,
  match set_get (SOCKET_SET n) h with
  | Some (STcp t) => match tcp_local_endpoint t, tcp_remote_endpoint t with
                     | Some l, Some r => Ret (Ok (l, r), n)
                     | _, _ => Panic
                     end
  | _ => Panic
  end.

(** [iter().any(..)]. *)
Fixpoint any_connected (q : list nat) : M bool :=
  match q with
  | [] => sm_ret false
  | h :: q => let! b := is_connected h in if b then sm_ret true else any_connected q
  end.
Definition table_can_accept (port : Z) : M bool := λ n,
  match LISTEN_TABLE n !! port with
  | Some e => any_connected (syn_queue e) n
  | None => Ret (Err AxError.InvalidInput, n)
  end.

(** [iter().enumerate().find_map(..)]. *)
Fixpoint find_connected (idx : nat) (q : list nat) : M (option (nat * (IpEndpoint * IpEndpoint))) :=
  match q with
  | [] => sm_ret None
  | h :: q =>
      let! b := is_connected h in
      if b then let! a := get_addr_tuple h in sm_ret (Some (idx, a)) else find_connected (S idx) q
  end.
(** [VecDeque::swap_remove_front]: the front takes the place of the element removed. *)
Definition swap_remove_front {A} (i : nat) (q : list A) : option (A * list A) :=
  match q !! i, q with
  | Some x, front :: _ => Some (x, tail (<[i := front]> q))
  | _, _ => None
  end.
Definition table_accept (port : Z) : M (nat * (IpEndpoint * IpEndpoint)) := λ n,
  match LISTEN_TABLE n !! port with
  | Some e =>
      match find_connected 0 (syn_queue e) n with
      | Panic => Panic
      | Ret (Err er, n) => Ret (Err er, n)
      | Ret (Ok None, n) => Ret (Err AxError.WouldBlock, n)
      | Ret (Ok (Some (idx, a)), n) =>
          match swap_remove_front idx (syn_queue e) with
          | None => Panic
          | Some (h, q) => Ret (Ok (h, a), set_listen (<[port := {| listen_endpoint := listen_endpoint e; syn_queue := q |}]> (LISTEN_TABLE n)) n)
          end
      end
  | None => Ret (Err AxError.InvalidInput, n)
  end.

Definition incoming_tcp_packet (dst : IpEndpoint) (n : net) : net :=
  match LISTEN_TABLE n !! ep_port dst with
  | None => n
  | Some e =>
      if negb (entry_can_accept e (ep_addr dst)) then n
      else if LISTEN_QUEUE_SIZE <=? Z.of_nat (length (syn_queue e)) then n
      else
        let (r, socket) := tcp_listen (listen_endpoint e) tcp_new in
        if is_ok r then
          let (h, set) := set_add (STcp socket) (SOCKET_SET n) in
          set_listen (<[ep_port dst := {| listen_endpoint := listen_endpoint e; syn_queue := syn_queue e ++ [h] |}]> (LISTEN_TABLE n)) (set_sockets set n)
        else n
  end.

(** ** Frames ([mod.rs]) *)

Definition snoop_tcp_packet (buf : list Z) (n : net) : net :=
  match ether_payload buf with
  | None => n
  | Some p =>
      match ipv4_fields p with
      | None | Some (false, _, _, _) => n
      | Some (true, src, dst, p) =>
          match tcp_fields p with
          | None => n
          | Some (src_port, dst_port, syn, ack) =>
              if syn && negb ack then incoming_tcp_packet {| ep_addr := dst; ep_port := dst_port |} n else n
          end
      end
  end.
(** One received frame: [RxToken::preprocess], then the stack. *)
Definition rx_frame (n : net) (buf : list Z) : net :=
  let n := snoop_tcp_packet buf n in
  let (i, set) := iface_process buf (ETH0 n) (SOCKET_SET n) in set_iface i (set_sockets set n).
Definition poll_interfaces (n : net) : net :=
  let n := foldl rx_frame (set_rx (tail (rx_frames n)) n) (default [] (head (rx_frames n))) in
  let (i, set) := iface_egress (ETH0 n) (SOCKET_SET n) in set_iface i (set_sockets set n).
Definition poll_ifaces {E} : SM net E unit := sm_modify poll_interfaces.

(** Rounds of a blocking call: poll the interfaces and try; yield when it would block. *)
Fixpoint block_loop {A} (sched : list (net → net)) (f : M A) : M (option A) := λ n,
  match f (poll_interfaces n) with
  | Panic => Panic
  | Ret (Ok a, n) => Ret (Ok (Some a), n)
  | Ret (Err AxError.WouldBlock, n) => match sched with [] => Ret (Ok None, n) | other :: sched => block_loop sched f (other n) end
  | Ret (Err e, n) => Ret (Err e, n)
  end.
Definition block_on {A} (nonblocking : bool) (sched : list (net → net)) (f : M A) : M (option A) :=
  if nonblocking then let! a := f in sm_ret (Some a) else block_loop sched f.

(** [get_ephemeral_port] of [tcp.rs]; [tries] counts to [PORT_END - PORT_START]. *)
Definition next_port (p : Z) : Z := if p =? PORT_END then PORT_START else p + 1.
Fixpoint ephemeral_loop (tries : nat) : M Z :=
  match tries with
  | O => sm_err AxError.AddrInUse
  | S tries => λ n,
      let port := TCP_CURR n in
      let n := set_tcp_curr (next_port port) n in
      if can_listen port n then Ret (Ok port, n) else ephemeral_loop tries n
  end.
Definition tcp_ephemeral_port : M Z := ephemeral_loop (Z.to_nat (PORT_END - PORT_START + 1)).
(** The one of [udp.rs]. *)
Definition udp_ephemeral_port : M Z := λ n, Ret (Ok (UDP_CURR n), set_udp_curr (next_port (UDP_CURR n)) n).
End net.
