(* ===== verification/NetSockets.v ===== *)
(** TCP and UDP sockets and name queries of [axnet] ([tcp.rs], [udp.rs], [dns.rs] of
    [modules/axnet/src/smoltcp_impl]), over the state of [Net.v].

    A method on [&self] takes the number of its socket.  Panics stand for [unwrap] of an
    empty option, for handles that the socket set does not have, and for numbers of no
    socket, which a reference never is. *)

From stdpp Require Import prelude gmap list.
From Stdlib Require Import ZArith Lia.
From S2P Require Import Prelude FdTable Net.
Local Open Scope Z_scope.
Local Open Scope kernel_scope.

Section sockets.
Context {smoltcp : Smoltcp} {smolset : SmolSet}.
Abbreviation M := (SM net AxError.t).

(** ** TCP *)

Definition tcp_get {E} (i : nat) : SM net E TcpSocket := λ n, match tcp_sockets n !! i with Some s => Ret (Ok s, n) | None => Panic end.
Definition tcp_upd {E} (i : nat) (f : TcpSocket → TcpSocket) : SM net E unit := sm_modify (λ n, set_tcps (alter f i (tcp_sockets n)) n).
Definition with_state (st : Z) (s : TcpSocket) : TcpSocket :=
  {| ts_state := st; ts_handle := ts_handle s; ts_local_addr := ts_local_addr s; ts_peer_addr := ts_peer_addr s; ts_nonblock := ts_nonblock s |}.
Definition with_handle (h : option nat) (s : TcpSocket) : TcpSocket :=
  {| ts_state := ts_state s; ts_handle := h; ts_local_addr := ts_local_addr s; ts_peer_addr := ts_peer_addr s; ts_nonblock := ts_nonblock s |}.
Definition with_local (e : IpEndpoint) (s : TcpSocket) : TcpSocket :=
  {| ts_state := ts_state s; ts_handle := ts_handle s; ts_local_addr := e; ts_peer_addr := ts_peer_addr s; ts_nonblock := ts_nonblock s |}.
Definition with_peer (e : IpEndpoint) (s : TcpSocket) : TcpSocket :=
  {| ts_state := ts_state s; ts_handle := ts_handle s; ts_local_addr := ts_local_addr s; ts_peer_addr := e; ts_nonblock := ts_nonblock s |}.
Definition with_nonblock (b : bool) (s : TcpSocket) : TcpSocket :=
  {| ts_state := ts_state s; ts_handle := ts_handle s; ts_local_addr := ts_local_addr s; ts_peer_addr := ts_peer_addr s; ts_nonblock := b |}.

Definition tcp_socket_new : TcpSocket :=
  {| ts_state := STATE_CLOSED; ts_handle := None; ts_local_addr := UNSPECIFIED_ENDPOINT; ts_peer_addr := UNSPECIFIED_ENDPOINT; ts_nonblock := false |}.
Definition new_connected (h : nat) (local peer : IpEndpoint) : TcpSocket :=
  {| ts_state := STATE_CONNECTED; ts_handle := Some h; ts_local_addr := local; ts_peer_addr := peer; ts_nonblock := false |}.
(** A socket value gets a number. *)
Definition tcp_place (s : TcpSocket) : M nat := λ n,
  Ret (Ok (next_id n), set_next (S (next_id n)) (set_tcps (<[next_id n := s]> (tcp_sockets n)) n)).

Definition tcp_local_addr (i : nat) : M SocketAddr :=
  let! s := tcp_get i in
  if (ts_state s =? STATE_CONNECTED) || (ts_state s =? STATE_LISTENING) then sm_ret (into_core_sockaddr (ts_local_addr s)) else sm_err AxError.NotConnected.
Definition tcp_peer_addr (i : nat) : M SocketAddr :=
  let! s := tcp_get i in
  if (ts_state s =? STATE_CONNECTED) || (ts_state s =? STATE_LISTENING) then sm_ret (into_core_sockaddr (ts_peer_addr s)) else sm_err AxError.NotConnected.
Definition tcp_set_nonblocking (i : nat) (b : bool) : M unit := tcp_upd i (with_nonblock b).

Definition set_state {E} (i : nat) (st : Z) : SM net E unit := tcp_upd i (with_state st).
(** [Ok] of the result of [f], or [Err] of the state that was not the expected one. *)
Definition update_state {A} (i : nat) (expect new : Z) (f : M A) : SM net Z (result A AxError.t) :=
  let! s := tcp_get i in
  if ts_state s =? expect then
    do! set_state i STATE_BUSY in
    sm_catch f (λ res, do! set_state i (if is_ok res then new else expect) in sm_ret res)
  else sm_err (ts_state s).
(** [update_state(..).unwrap_or(default)] and its [AxResult]. *)
Definition unwrap_or {A} (m : SM net Z (result A AxError.t)) (default : result A AxError.t) : M A :=
  sm_catch m (λ r, sm_lift (match r with Ok res => res | Err _ => default end)).

Definition bound_endpoint (i : nat) : M IpListenEndpoint :=
  let! s := tcp_get i in
  let local_addr := ts_local_addr s in
  let! port := (if negb (ep_port local_addr =? 0) then sm_ret (ep_port local_addr) else tcp_ephemeral_port) in
  if port =? 0 then sm_panic
  else sm_ret {| le_addr := if negb (is_unspecified (ep_addr local_addr)) then Some (ep_addr local_addr) else None; le_port := port |}.

(** [socket.connect] through the interface, and the two endpoints it then has. *)
Definition connect_error (e : ConnectError) : AxError.t :=
  match e with ConnectInvalidState => AxError.BadState | ConnectUnaddressable => AxError.ConnectionRefused end.
Definition socket_connect (h : nat) (remote : IpEndpoint) (bound : IpListenEndpoint) : M (IpEndpoint * IpEndpoint) := λ n,
  match set_get (SOCKET_SET n) h with
  | Some (STcp t) =>
      match tcp_connect_op remote bound t (ETH0 n) with
      | (r, t, i) =>
          let n := set_iface i (set_sockets (set_put h (STcp t) (SOCKET_SET n)) n) in
          match r with
          | Err e => Ret (Err (connect_error e), n)
          | Ok _ => match tcp_local_endpoint t, tcp_remote_endpoint t with
                    | Some l, Some r => Ret (Ok (l, r), n)
                    | _, _ => Panic
                    end
          end
      end
  | _ => Panic
  end.
Definition connect_start (i : nat) (remote_addr : SocketAddr) : M unit :=
  unwrap_or (update_state i STATE_CLOSED STATE_CONNECTING (
    let! s := tcp_get i in
    let! handle := (match ts_handle s with Some h => sm_ret h | None => add (STcp tcp_new) end) in
    match from_core_sockaddr remote_addr with
    | Panic => sm_panic
    | Ret remote_endpoint =>
        let! bound := bound_endpoint i in
        let! eps := socket_connect handle remote_endpoint bound in
        tcp_upd i (λ s, with_handle (Some handle) (with_peer (snd eps) (with_local (fst eps) s)))
    end)) (Err AxError.AlreadyExists).

Definition poll_connect (i : nat) : M PollState :=
  let! s := tcp_get i in
  match ts_handle s with
  | None => sm_panic
  | Some h =>
      let! st := with_tcp h tcp_state in
      match st with
      | SynSent => sm_ret {| poll_readable := false; poll_writable := false |}
      | Established => do! set_state i STATE_CONNECTED in sm_ret {| poll_readable := false; poll_writable := true |}
      | _ =>
          do! tcp_upd i (λ s, with_peer UNSPECIFIED_ENDPOINT (with_local UNSPECIFIED_ENDPOINT s)) in
          do! set_state i STATE_CLOSED in
          sm_ret {| poll_readable := false; poll_writable := true |}
      end
  end.
(** A round of [connect] after the start. *)
Definition connect_round (i : nat) : M unit :=
  let! p := poll_connect i in
  if negb (poll_writable p) then sm_err AxError.WouldBlock
  else
    let! s := tcp_get i in
    if ts_state s =? STATE_CONNECTED then sm_ret tt else sm_err AxError.ConnectionRefused.
Definition connect (i : nat) (remote_addr : SocketAddr) (sched : list (net → net)) : M (option unit) :=
  do! connect_start i remote_addr in
  let! s := tcp_get i in
  if ts_nonblock s then sm_err AxError.WouldBlock else block_on (ts_nonblock s) sched (connect_round i).

Definition bind (i : nat) (local_addr : SocketAddr) : M unit :=
  unwrap_or (update_state i STATE_CLOSED STATE_CLOSED (
    let! port := (if sa_port local_addr =? 0 then tcp_ephemeral_port else sm_ret (sa_port local_addr)) in
    let local_addr := {| sa_ip := sa_ip local_addr; sa_port := port |} in
    let! s := tcp_get i in
    if negb (bool_decide (ts_local_addr s = UNSPECIFIED_ENDPOINT)) then sm_err AxError.InvalidInput
    else match from_core_sockaddr local_addr with
         | Panic => sm_panic
         | Ret e => tcp_upd i (with_local e)
         end)) (Err AxError.InvalidInput).

Definition listen (i : nat) : M unit :=
  unwrap_or (update_state i STATE_CLOSED STATE_LISTENING (
    let! bound := bound_endpoint i in
    do! tcp_upd i (λ s, with_local {| ep_addr := ep_addr (ts_local_addr s); ep_port := le_port bound |} s) in
    table_listen bound)) (Ok tt).

(** The connected socket that a round of [accept] gives is numbered by the caller. *)
Definition accept_round (local_port : Z) : M nat :=
  let! r := table_accept local_port in
  tcp_place (new_connected (fst r) (fst (snd r)) (snd (snd r))).
Definition accept (i : nat) (sched : list (net → net)) : M (option nat) :=
  let! s := tcp_get i in
  if negb (ts_state s =? STATE_LISTENING) then sm_err AxError.InvalidInput
  else block_on (ts_nonblock s) sched (accept_round (ep_port (ts_local_addr s))).

Definition shutdown (i : nat) : M unit :=
  do! unwrap_or (update_state i STATE_CONNECTED STATE_CLOSED (
    let! s := tcp_get i in
    match ts_handle s with
    | None => sm_panic
    | Some h =>
        do! with_tcp_mut h (λ t, (Ok tt, tcp_close t)) in
        do! tcp_upd i (with_local UNSPECIFIED_ENDPOINT) in
        poll_ifaces
    end)) (Ok tt) in
  do! unwrap_or (update_state i STATE_LISTENING STATE_CLOSED (
    let! s := tcp_get i in
    do! tcp_upd i (with_local UNSPECIFIED_ENDPOINT) in
    do! unlisten (ep_port (ts_local_addr s)) in
    poll_ifaces)) (Ok tt) in
  sm_ret tt.

(** A round of [recv] and of [send]; [handle.unwrap()] comes before the loop. *)
Definition recv_round (h : nat) (buf_len : Z) : M (list Z) :=
  with_tcp_mut h (λ t,
    if negb (tcp_is_active t) then (Err AxError.ConnectionRefused, t)
    else if negb (tcp_may_recv t) then (Ok [], t)
    else if 0 <? tcp_recv_queue t then let (r, t) := tcp_recv_slice buf_len t in (map_err (λ _, AxError.BadState) r, t)
    else (Err AxError.WouldBlock, t)).
Definition send_round (h : nat) (buf : list Z) : M Z :=
  with_tcp_mut h (λ t,
    if negb (tcp_is_active t) || negb (tcp_may_send t) then (Err AxError.ConnectionReset, t)
    else if tcp_can_send t then let (r, t) := tcp_send_slice buf t in (map_err (λ _, AxError.BadState) r, t)
    else (Err AxError.WouldBlock, t)).
Definition connected_handle (i : nat) : M nat :=
  let! s := tcp_get i in
  if ts_state s =? STATE_CONNECTING then sm_err AxError.WouldBlock
  else if negb (ts_state s =? STATE_CONNECTED) then sm_err AxError.NotConnected
  else match ts_handle s with Some h => sm_ret h | None => sm_panic end.
Definition recv (i : nat) (buf_len : Z) (sched : list (net → net)) : M (option (list Z)) :=
  let! h := connected_handle i in
  let! s := tcp_get i in block_on (ts_nonblock s) sched (recv_round h buf_len).
Definition send (i : nat) (buf : list Z) (sched : list (net → net)) : M (option Z) :=
  let! h := connected_handle i in
  let! s := tcp_get i in block_on (ts_nonblock s) sched (send_round h buf).

Definition poll_stream (i : nat) : M PollState :=
  let! s := tcp_get i in
  match ts_handle s with
  | None => sm_panic
  | Some h => with_tcp h (λ t, {| poll_readable := negb (tcp_may_recv t) || tcp_can_recv t; poll_writable := negb (tcp_may_send t) || tcp_can_send t |})
  end.
Definition poll_listener (i : nat) : M PollState :=
  let! s := tcp_get i in
  let! r := table_can_accept (ep_port (ts_local_addr s)) in
  sm_ret {| poll_readable := r; poll_writable := false |}.
Definition poll (i : nat) : M PollState :=
  let! s := tcp_get i in
  if ts_state s =? STATE_CONNECTING then poll_connect i
  else if ts_state s =? STATE_CONNECTED then poll_stream i
  else if ts_state s =? STATE_LISTENING then poll_listener i
  else sm_ret {| poll_readable := false; poll_writable := false |}.

(** [Drop for TcpSocket]. *)
Definition tcp_drop (i : nat) : net → outcome net := λ n,
  match shutdown i n with
  | Panic => Panic
  | Ret (_, n) =>
      match tcp_sockets n !! i with
      | None => Panic
      | Some s =>
          let n := set_tcps (delete i (tcp_sockets n)) n in
          match ts_handle s with Some h => remove h n | None => Ret n end
      end
  end.

(** ** UDP *)

Definition udp_get {E} (i : nat) : SM net E UdpSocket := λ n, match udp_sockets n !! i with Some s => Ret (Ok s, n) | None => Panic end.
Definition udp_upd {E} (i : nat) (f : UdpSocket → UdpSocket) : SM net E unit := sm_modify (λ n, set_udps (alter f i (udp_sockets n)) n).
Definition udp_with_local (e : option IpEndpoint) (s : UdpSocket) : UdpSocket :=
  {| us_handle := us_handle s; us_local_addr := e; us_peer_addr := us_peer_addr s; us_nonblock := us_nonblock s |}.
Definition udp_with_peer (e : option IpEndpoint) (s : UdpSocket) : UdpSocket :=
  {| us_handle := us_handle s; us_local_addr := us_local_addr s; us_peer_addr := e; us_nonblock := us_nonblock s |}.
Definition udp_with_nonblock (b : bool) (s : UdpSocket) : UdpSocket :=
  {| us_handle := us_handle s; us_local_addr := us_local_addr s; us_peer_addr := us_peer_addr s; us_nonblock := b |}.

Definition udp_socket_new : M nat :=
  let! h := add (SUdp udp_new) in λ n,
  Ret (Ok (next_id n), set_next (S (next_id n))
    (set_udps (<[next_id n := {| us_handle := h; us_local_addr := None; us_peer_addr := None; us_nonblock := false |}]> (udp_sockets n)) n)).
Definition udp_local_addr (i : nat) : M SocketAddr :=
  let! s := udp_get i in sm_lift (ok_or (into_core_sockaddr <$> us_local_addr s) AxError.NotConnected).
Definition remote_endpoint (i : nat) : M IpEndpoint :=
  let! s := udp_get i in sm_lift (ok_or (us_peer_addr s) AxError.NotConnected).
Definition udp_peer_addr (i : nat) : M SocketAddr := let! e := remote_endpoint i in sm_ret (into_core_sockaddr e).
Definition udp_set_nonblocking (i : nat) (b : bool) : M unit := udp_upd i (udp_with_nonblock b).

Definition bind_error (e : BindError) : AxError.t := match e with BindInvalidState => AxError.AlreadyExists | BindUnaddressable => AxError.InvalidInput end.
Definition udp_bind_to (i : nat) (local_addr : SocketAddr) : M unit :=
  let! port := (if sa_port local_addr =? 0 then udp_ephemeral_port else sm_ret (sa_port local_addr)) in
  let! s := udp_get i in
  match us_local_addr s with
  | Some _ => sm_err AxError.InvalidInput
  | None =>
      match from_core_sockaddr {| sa_ip := sa_ip local_addr; sa_port := port |} with
      | Panic => sm_panic
      | Ret e =>
          let endpoint := {| le_addr := if negb (is_unspecified (ep_addr e)) then Some (ep_addr e) else None; le_port := ep_port e |} in
          do! with_udp_mut (us_handle s) (λ u, let (r, u) := udp_bind endpoint u in (map_err bind_error r, u)) in
          udp_upd i (udp_with_local (Some e))
      end
  end.

Definition send_error (e : SendError) : AxError.t := match e with SendBufferFull => AxError.WouldBlock | SendUnaddressable => AxError.ConnectionRefused end.
Definition udp_send_round (h : nat) (buf : list Z) (remote : IpEndpoint) : M Z :=
  with_udp_mut h (λ u,
    if udp_can_send u then
      let (r, u) := udp_send_slice buf remote u in
      (match r with Ok _ => Ok (Z.of_nat (length buf)) | Err e => Err (send_error e) end, u)
    else (Err AxError.WouldBlock, u)).
Definition send_impl (i : nat) (buf : list Z) (remote : IpEndpoint) (sched : list (net → net)) : M (option Z) :=
  let! s := udp_get i in
  match us_local_addr s with
  | None => sm_err AxError.NotConnected
  | Some _ => block_on (us_nonblock s) sched (udp_send_round (us_handle s) buf remote)
  end.
Definition send_to (i : nat) (buf : list Z) (remote_addr : SocketAddr) (sched : list (net → net)) : M (option Z) :=
  if (sa_port remote_addr =? 0) || ip_is_unspecified (sa_ip remote_addr) then sm_err AxError.InvalidInput
  else match from_core_sockaddr remote_addr with Panic => sm_panic | Ret e => send_impl i buf e sched end.
Definition udp_send (i : nat) (buf : list Z) (sched : list (net → net)) : M (option Z) :=
  let! e := remote_endpoint i in send_impl i buf e sched.

Definition udp_recv_round {A} (h : nat) (op : udp_socket → result A AxError.t * udp_socket) : M A :=
  with_udp_mut h (λ u, if udp_can_recv u then op u else (Err AxError.WouldBlock, u)).
Definition recv_impl {A} (i : nat) (op : udp_socket → result A AxError.t * udp_socket) (sched : list (net → net)) : M (option A) :=
  let! s := udp_get i in
  match us_local_addr s with
  | None => sm_err AxError.NotConnected
  | Some _ => block_on (us_nonblock s) sched (udp_recv_round (us_handle s) op)
  end.
Definition recv_from_op (buf_len : Z) (u : udp_socket) : result (list Z * SocketAddr) AxError.t * udp_socket :=
  let (r, u) := udp_recv_slice buf_len u in
  (match r with Ok (bytes, e) => Ok (bytes, into_core_sockaddr e) | Err _ => Err AxError.BadState end, u).
Definition peek_from_op (buf_len : Z) (u : udp_socket) : result (list Z * SocketAddr) AxError.t * udp_socket :=
  (match udp_peek_slice buf_len u with Ok (bytes, e) => Ok (bytes, into_core_sockaddr e) | Err _ => Err AxError.BadState end, u).
(** The bytes stored to the buffer are those of the last datagram taken. *)
Definition recv_op (remote : IpEndpoint) (buf_len : Z) (u : udp_socket) : result (list Z) AxError.t * udp_socket :=
  match udp_recv_slice buf_len u with
  | (Err _, u) => (Err AxError.BadState, u)
  | (Ok (bytes, e), u) =>
      (if negb (is_unspecified (ep_addr remote)) && negb (bool_decide (ep_addr remote = ep_addr e)) then Err AxError.WouldBlock
       else if negb (ep_port remote =? 0) && negb (ep_port remote =? ep_port e) then Err AxError.WouldBlock
       else Ok bytes, u)
  end.
Definition recv_from (i : nat) (buf_len : Z) (sched : list (net → net)) : M (option (list Z * SocketAddr)) := recv_impl i (recv_from_op buf_len) sched.
Definition peek_from (i : nat) (buf_len : Z) (sched : list (net → net)) : M (option (list Z * SocketAddr)) := recv_impl i (peek_from_op buf_len) sched.
Definition udp_recv (i : nat) (buf_len : Z) (sched : list (net → net)) : M (option (list Z)) :=
  let! e := remote_endpoint i in recv_impl i (recv_op e buf_len) sched.

Definition udp_connect (i : nat) (addr : SocketAddr) : M unit :=
  let! s := udp_get i in
  do! (match us_local_addr s with None => udp_bind_to i (into_core_sockaddr UNSPECIFIED_ENDPOINT) | Some _ => sm_ret tt end) in
  match from_core_sockaddr addr with
  | Panic => sm_panic
  | Ret e => udp_upd i (udp_with_peer (Some e))
  end.
Definition udp_shutdown (i : nat) : M unit :=
  let! s := udp_get i in
  do! with_udp_mut (us_handle s) (λ u, (Ok tt, udp_close u)) in
  poll_ifaces.
Definition udp_poll (i : nat) : M PollState :=
  let! s := udp_get i in
  match us_local_addr s with
  | None => sm_ret {| poll_readable := false; poll_writable := false |}
  | Some _ => with_udp_mut (us_handle s) (λ u, (Ok {| poll_readable := udp_can_recv u; poll_writable := udp_can_send u |}, u))
  end.
Definition udp_drop (i : nat) : net → outcome net := λ n,
  match udp_shutdown i n with
  | Panic => Panic
  | Ret (_, n) =>
      match udp_sockets n !! i with
      | None => Panic
      | Some s => remove (us_handle s) (set_udps (delete i (udp_sockets n)) n)
      end
  end.

(** ** Name queries *)

Definition query_error (e : StartQueryError) : AxError.t := match e with NoFreeSlot => AxError.ResourceBusy | _ => AxError.InvalidInput end.
Definition start_query (h : nat) (name : list Z) : M query_handle := λ n,
  match set_get (SOCKET_SET n) h with
  | Some (SDns d) =>
      match dns_start_query name d (ETH0 n) with
      | (r, d, i) => Ret (map_err query_error r, set_iface i (set_sockets (set_put h (SDns d) (SOCKET_SET n)) n))
      end
  | _ => Panic
  end.
Definition query_round (h : nat) (q : query_handle) : M (list IpAddr) := λ n,
  match set_get (SOCKET_SET n) h with
  | Some (SDns d) =>
      let (r, d) := dns_get_query_result q d in
      Ret (match r with
           | Ok l => Ok (into_core_ipaddr <$> l)
           | Err QueryPending => Err AxError.WouldBlock
           | Err QueryFailed => Err AxError.ConnectionRefused
           end, set_sockets (set_put h (SDns d) (SOCKET_SET n)) n)
  | _ => Panic
  end.
(** The socket is dropped when the query ends; a query that waits keeps it. *)
Definition dns_query (name : list Z) (sched : list (net → net)) : M (option (list IpAddr)) :=
  let! h := add (SDns dns_new) in
  sm_catch (let! q := start_query h name in block_loop sched (query_round h q)) (λ r n,
    match r with
    | Ok None => Ret (Ok None, n)
    | _ => match remove h n with Ret n => Ret (r, n) | Panic => Panic end
    end).
End sockets.
