(* ===== verification/NetInv.v ===== *)
(** The invariant of the network module: every socket of the socket set that an object
    refers to is there, of the right kind, and has one owner, a TCP object, a UDP object or
    the queue of a listening port; and every operation of [Net.v] and [NetSockets.v] keeps
    it.

    [SmolLaws] is what the module relies on of [smoltcp]: the socket set is a finite map
    with fresh handles, the protocols change sockets but neither add nor remove them, and
    a socket that connects has two endpoints. *)

From stdpp Require Import prelude gmap list.
From Stdlib Require Import ZArith Lia.
From S2P Require Import Prelude FdTable Net NetSockets.
Local Open Scope Z_scope.
Local Open Scope kernel_scope.

Inductive kind : Type := KTcp | KUdp | KDns.
Definition kind_of `{Smoltcp} (s : AnySocket) : kind := match s with STcp _ => KTcp | SUdp _ => KUdp | SDns _ => KDns end.
Definition kind_at `{SmolSet} (S : socket_set) (h : nat) : option kind := kind_of <$> set_get S h.

Class SmolLaws {smoltcp : Smoltcp} {smolset : SmolSet} : Prop := {
  set_get_new h : set_get set_new h = None;
  set_add_law x S h S' : set_add x S = (h, S') → set_get S h = None ∧ ∀ k, set_get S' k = if bool_decide (k = h) then Some x else set_get S k;
  set_put_law x S h k : is_Some (set_get S h) → set_get (set_put h x S) k = if bool_decide (k = h) then Some x else set_get S k;
  set_remove_law S h : is_Some (set_get S h) → ∃ S', set_remove h S = Some S' ∧ ∀ k, set_get S' k = if bool_decide (k = h) then None else set_get S k;
  iface_process_law f i S i' S' h : iface_process f i S = (i', S') → kind_at S' h = kind_at S h;
  iface_egress_law i S i' S' h : iface_egress i S = (i', S') → kind_at S' h = kind_at S h;
  tcp_connect_law r b t i t' i' : tcp_connect_op r b t i = (Ok tt, t', i') → is_Some (tcp_local_endpoint t') ∧ is_Some (tcp_remote_endpoint t');
}.

Section inv.
Context {smoltcp : Smoltcp} {smolset : SmolSet}.
Abbreviation M := (SM net AxError.t).

(** Who refers to a handle. *)
Inductive owner : Type := OTcp (i : nat) | OUdp (i : nat) | OQueue (port : Z).
Definition owner_kind (o : owner) : kind := match o with OUdp _ => KUdp | _ => KTcp end.
Definition owns (n : net) (o : owner) (h : nat) : Prop :=
  match o with
  | OTcp i => ∃ s, tcp_sockets n !! i = Some s ∧ ts_handle s = Some h
  | OUdp i => ∃ s, udp_sockets n !! i = Some s ∧ us_handle s = h
  | OQueue p => ∃ e, LISTEN_TABLE n !! p = Some e ∧ h ∈ syn_queue e
  end.

Definition is_port (p : Z) : Prop := 0 ≤ p < 65536.
Definition entry_ok (p : Z) (e : ListenTableEntry) : Prop :=
  le_port (listen_endpoint e) = p ∧ 0 < p < 65536 ∧ NoDup (syn_queue e) ∧ Z.of_nat (length (syn_queue e)) ≤ LISTEN_QUEUE_SIZE.
(** [busy] is the socket in the middle of a change of its state. *)
Definition tcp_ok (busy : option nat) (n : net) (i : nat) (s : TcpSocket) : Prop :=
  (ts_state s = STATE_CLOSED ∨ ts_state s = STATE_CONNECTING ∨ ts_state s = STATE_CONNECTED ∨ ts_state s = STATE_LISTENING ∨
   ts_state s = STATE_BUSY ∧ busy = Some i) ∧
  (ts_state s = STATE_CONNECTING ∨ ts_state s = STATE_CONNECTED → is_Some (ts_handle s)) ∧
  (ts_state s = STATE_CLOSED ∨ ts_state s = STATE_LISTENING → is_port (ep_port (ts_local_addr s))) ∧
  (ts_state s = STATE_LISTENING → is_Some (LISTEN_TABLE n !! ep_port (ts_local_addr s))).

Record net_inv (busy : option nat) (n : net) : Prop := {
  ni_live o h : owns n o h → kind_at (SOCKET_SET n) h = Some (owner_kind o);
  ni_once o1 o2 h : owns n o1 h → owns n o2 h → o1 = o2;
  ni_entry p e : LISTEN_TABLE n !! p = Some e → entry_ok p e;
  ni_tcp i s : tcp_sockets n !! i = Some s → tcp_ok busy n i s;
  ni_listeners i j si sj : tcp_sockets n !! i = Some si → tcp_sockets n !! j = Some sj → ts_state si = STATE_LISTENING → ts_state sj = STATE_LISTENING →
    ep_port (ts_local_addr si) = ep_port (ts_local_addr sj) → i = j;
  ni_curr : PORT_START ≤ TCP_CURR n ≤ PORT_END ∧ PORT_START ≤ UDP_CURR n ≤ PORT_END;
  ni_next i : (next_id n ≤ i)%nat → tcp_sockets n !! i = None ∧ udp_sockets n !! i = None;
}.
(** What a call leaves to the other tasks: their objects, with the handles they have, and
    the name queries under way. *)
Record grows (n n' : net) : Prop := {
  gr_tcp i s : tcp_sockets n !! i = Some s → ∃ s', tcp_sockets n' !! i = Some s' ∧ ∀ h, ts_handle s = Some h → ts_handle s' = Some h;
  gr_udp i s : udp_sockets n !! i = Some s → ∃ s', udp_sockets n' !! i = Some s' ∧ us_handle s' = us_handle s;
  gr_dns h : kind_at (SOCKET_SET n) h = Some KDns → kind_at (SOCKET_SET n') h = Some KDns;
}.
#[export] Instance grows_preorder : PreOrder grows.
Proof.
  split; [split; eauto|]. intros n1 n2 n3 [A1 B1 C1] [A2 B2 C2]. split; [| |eauto].
  - intros i s Hs. destruct (A1 i s Hs) as (s1 & H1 & E1). destruct (A2 i s1 H1) as (s2 & H2 & E2). eauto.
  - intros i s Hs. destruct (B1 i s Hs) as (s1 & H1 & E1). destruct (B2 i s1 H1) as (s2 & H2 & E2). exists s2. split; [done|congruence].
Qed.

(** Sockets are kept, with their kinds. *)
Definition extends (S S' : socket_set) : Prop := ∀ h k, kind_at S h = Some k → kind_at S' h = Some k.

Lemma inv_sockets busy n S' : extends (SOCKET_SET n) S' → net_inv busy n → net_inv busy (set_sockets S' n).
Proof. intros He [A B C D F G I]. split; eauto. Qed.
Lemma inv_iface busy n i : net_inv busy n → net_inv busy (set_iface i n).
Proof. intros [A B C D F G I]. split; eauto. Qed.
Lemma inv_rx busy n r : net_inv busy n → net_inv busy (set_rx r n).
Proof. intros [A B C D F G I]. split; eauto. Qed.
Lemma grows_sockets n S' : extends (SOCKET_SET n) S' → grows n (set_sockets S' n).
Proof. intros He. split; eauto. Qed.
#[local] Hint Resolve inv_iface inv_rx : kernel.

(** The handle of no owner can be added to a queue or be given to a socket. *)
Definition free_handle (n : net) (h : nat) : Prop := ∀ o, ¬ owns n o h.
(** A call that returns, keeps the invariant and leaves the other tasks their objects. *)
Definition safe_at {E A} (m : SM net E A) (n : net) : Prop := ∃ r n', m n = Ret (r, n') ∧ net_inv None n' ∧ grows n n'.

Lemma alter_at {A} (m : gmap nat A) f i x : m !! i = Some x → alter f i m = <[i := f x]> m.
Proof.
  intros Hx. apply map_eq. intros j. destruct (decide (i = j)) as [<-|Hj].
  - by rewrite lookup_alter_eq, lookup_insert_eq, Hx.
  - by rewrite lookup_alter_ne, lookup_insert_ne by done.
Qed.

(** One TCP object is replaced. *)
Definition no_other_listener (n : net) (i : nat) (s : TcpSocket) : Prop :=
  ts_state s = STATE_LISTENING → ∀ j sj, j ≠ i → tcp_sockets n !! j = Some sj → ts_state sj = STATE_LISTENING → ep_port (ts_local_addr sj) ≠ ep_port (ts_local_addr s).
Definition handle_ok (n : net) (s s' : TcpSocket) : Prop :=
  ts_handle s' = ts_handle s ∨ ∃ h, ts_handle s = None ∧ ts_handle s' = Some h ∧ free_handle n h ∧ kind_at (SOCKET_SET n) h = Some KTcp.

Lemma inv_tcp_set busy busy' n i s s' :
  net_inv busy n → tcp_sockets n !! i = Some s → (∀ j, busy = Some j → j = i) → handle_ok n s s' → tcp_ok busy' n i s' → no_other_listener n i s' →
  net_inv busy' (set_tcps (<[i := s']> (tcp_sockets n)) n) ∧ grows n (set_tcps (<[i := s']> (tcp_sockets n)) n).
Proof.
  intros [A B C D F G I] Hi Hb Hh Hok Hno.
  assert (∀ o h, owns (set_tcps (<[i := s']> (tcp_sockets n)) n) o h → owns n o h ∨ o = OTcp i ∧ free_handle n h ∧ kind_at (SOCKET_SET n) h = Some KTcp) as Hown.
  { intros [j|j|p] h; cbn; [|by left|by left]. intros (x & Hx & Eh). destruct (decide (i = j)) as [<-|Hij]; [|rewrite lookup_insert_ne in Hx by done; left; by exists x].
    rewrite lookup_insert_eq in Hx. simplify_eq. destruct Hh as [Hh|(h' & _ & Hh & Hf & Hk)]; [left; exists s; split; [done|congruence]|]. right. by simplify_eq. }
  split; [split|split].
  - intros o h Ho. destruct (Hown o h Ho) as [Ho'|(-> & _ & Hk)]; [by apply A|done].
  - intros o1 o2 h H1 H2. destruct (Hown _ _ H1) as [H1'|(-> & Hf & _)], (Hown _ _ H2) as [H2'|(-> & Hf2 & _)]; [by apply (B _ _ h)|by destruct (Hf2 o1)|by destruct (Hf o2)|done].
  - exact C.
  - intros j x Hx. cbn in Hx. destruct (decide (i = j)) as [<-|Hij]; [rewrite lookup_insert_eq in Hx; by simplify_eq|]. rewrite lookup_insert_ne in Hx by done.
    destruct (D j x Hx) as [[?|[?|[?|[?|[? Hbj]]]]] Hr]; try by (split; [tauto|]). destruct (Hij (eq_sym (Hb j Hbj))).
  - intros j k sj sk Hj Hk Lj Lk Ep. cbn in Hj, Hk. apply lookup_insert_Some in Hj as [[<- <-]|[Hnj Hj]], Hk as [[<- <-]|[Hnk Hk]]; [done| | |by apply (F j k sj sk)].
    + destruct (Hno Lj k sk); [congruence..|done].
    + destruct (Hno Lk j sj); [congruence..|done].
  - exact G.
  - intros j Hj. cbn in *. destruct (I j Hj) as [H1 H2]. rewrite lookup_insert_ne; [done|congruence].
  - intros j x Hx. cbn. destruct (decide (i = j)) as [<-|Hij]; [|rewrite lookup_insert_ne by done; eauto]. rewrite lookup_insert_eq. simplify_eq.
    exists s'. split; [done|]. intros h E. destruct Hh as [->|(h' & E' & _)]; congruence.
  - eauto.
  - done.
Qed.

(** ** The socket set *)

Context {laws : SmolLaws}.

Lemma put_kinds S h x y k : set_get S h = Some y → kind_of x = kind_of y → kind_at (set_put h x S) k = kind_at S k.
Proof.
  intros Hy Hk. unfold kind_at. rewrite set_put_law by eauto. case_bool_decide as E; [|done]. subst k. rewrite Hy. cbn. by rewrite Hk.
Qed.
Lemma put_extends S h x y : set_get S h = Some y → kind_of x = kind_of y → extends S (set_put h x S).
Proof. intros Hy Hk k kd. by rewrite (put_kinds S h x y). Qed.
Lemma add_kinds x S h S' : set_add x S = (h, S') → kind_at S h = None ∧ kind_at S' h = Some (kind_of x) ∧ extends S S'.
Proof.
  intros [Hn Hg]%set_add_law. unfold extends, kind_at. rewrite Hn, Hg, bool_decide_eq_true_2 by done. split_and!; [done..|].
  intros k kd. rewrite Hg. case_bool_decide as E; [subst k; by rewrite Hn|done].
Qed.
Lemma free_fresh busy n h : net_inv busy n → kind_at (SOCKET_SET n) h = None → free_handle n h.
Proof. intros Hi Hk o Ho. rewrite (ni_live _ _ Hi o h Ho) in Hk. done. Qed.
Lemma kind_tcp S h : kind_at S h = Some KTcp → ∃ t, set_get S h = Some (STcp t).
Proof. unfold kind_at. destruct (set_get S h) as [[t|u|d]|]; cbn; intros; simplify_eq; eauto. Qed.
Lemma kind_udp S h : kind_at S h = Some KUdp → ∃ u, set_get S h = Some (SUdp u).
Proof. unfold kind_at. destruct (set_get S h) as [[t|u|d]|]; cbn; intros; simplify_eq; eauto. Qed.
Lemma kind_dns S h : kind_at S h = Some KDns → ∃ d, set_get S h = Some (SDns d).
Proof. unfold kind_at. destruct (set_get S h) as [[t|u|d]|]; cbn; intros; simplify_eq; eauto. Qed.
Lemma extends_trans S1 S2 S3 : extends S1 S2 → extends S2 S3 → extends S1 S3.
Proof. unfold extends. eauto. Qed.

(** Removing a socket that nothing refers to. *)
Lemma remove_ok busy n h k : net_inv busy n → kind_at (SOCKET_SET n) h = Some k → k ≠ KDns → free_handle n h →
  ∃ n', remove h n = Ret n' ∧ net_inv busy n' ∧ grows n n' ∧ LISTEN_TABLE n' = LISTEN_TABLE n ∧ tcp_sockets n' = tcp_sockets n ∧ udp_sockets n' = udp_sockets n ∧
    (∀ h', h' ≠ h → kind_at (SOCKET_SET n') h' = kind_at (SOCKET_SET n) h') ∧ kind_at (SOCKET_SET n') h = None.
Proof.
  intros Hi Hk Hd Hf. unfold remove. destruct (set_remove_law (SOCKET_SET n) h) as (S' & -> & Hg).
  { unfold kind_at in Hk. destruct (set_get _ h); [by eexists|done]. }
  assert (∀ h', h' ≠ h → kind_at S' h' = kind_at (SOCKET_SET n) h') as Hne. { intros h' Hn. unfold kind_at. by rewrite Hg, bool_decide_eq_false_2. }
  eexists. split; [done|]. split_and!; [| |done..|].
  - destruct Hi as [A B C D F G I]. split; [|eauto..]. intros o h' Ho. cbn. rewrite Hne; [by apply A|]. intros ->. by destruct (Hf o).
  - split; [eauto..|]. intros h' H'. cbn. rewrite Hne; [done|]. intros ->. congruence.
  - cbn. unfold kind_at. by rewrite Hg, bool_decide_eq_true_2.
Qed.
Lemma remove_all_ok busy hs : ∀ n, net_inv busy n → NoDup hs → (∀ h, h ∈ hs → kind_at (SOCKET_SET n) h = Some KTcp ∧ free_handle n h) →
  ∃ n', remove_all hs n = Ret n' ∧ net_inv busy n' ∧ grows n n' ∧ LISTEN_TABLE n' = LISTEN_TABLE n ∧ tcp_sockets n' = tcp_sockets n ∧ udp_sockets n' = udp_sockets n ∧
    ∀ h, kind_at (SOCKET_SET n') h = if bool_decide (h ∈ hs) then None else kind_at (SOCKET_SET n) h.
Proof.
  induction hs as [|h hs IH]; intros n Hi Hnd Hfree; [by exists n|]. apply NoDup_cons in Hnd as [Hh Hnd].
  destruct (Hfree h ltac:(by left)) as [Hk Hf]. destruct (remove_ok busy n h KTcp Hi Hk ltac:(done) Hf) as (n1 & E1 & Hi1 & G1 & L1 & T1 & U1 & K1 & K1').
  destruct (IH n1 Hi1 Hnd) as (n2 & E2 & Hi2 & G2 & L2 & T2 & U2 & K2).
  { intros h' Hin. destruct (Hfree h' ltac:(by right)) as [Hk' Hf']. rewrite K1 by (intros ->; done). split; [done|]. intros o Ho. apply (Hf' o).
    destruct o; cbn in *; by rewrite ?T1, ?U1, ?L1 in Ho. }
  exists n2. cbn [remove_all]. rewrite E1, E2. split_and!; [done|done|by etrans|congruence..|]. intros h'. rewrite K2.
  destruct (decide (h' = h)) as [->|Hne]; [rewrite bool_decide_eq_false_2, bool_decide_eq_true_2 by (done || by left); done|].
  rewrite (K1 h' Hne). repeat case_bool_decide; set_solver.
Qed.

(** ** The listen table *)

(** An entry is replaced by one with the same endpoint and other handles. *)
Lemma inv_entry_set busy n p e e' : net_inv busy n → LISTEN_TABLE n !! p = Some e → entry_ok p e' →
  (∀ h, h ∈ syn_queue e' → h ∈ syn_queue e ∨ free_handle n h ∧ kind_at (SOCKET_SET n) h = Some KTcp) →
  net_inv busy (set_listen (<[p := e']> (LISTEN_TABLE n)) n).
Proof.
  intros [A B C D F G I] Hp Hok Hq.
  assert (∀ o h, owns (set_listen (<[p := e']> (LISTEN_TABLE n)) n) o h → owns n o h ∨ o = OQueue p ∧ free_handle n h ∧ kind_at (SOCKET_SET n) h = Some KTcp) as Hown.
  { intros [j|j|q] h; cbn; [by left|by left|]. intros (x & Hx & Eh). apply lookup_insert_Some in Hx as [[<- <-]|[Hn Hx]]; [|left; by exists x].
    destruct (Hq h Eh) as [Hin|[Hf Hk]]; [left; by exists e|by right]. }
  split; [| | | |done|done|done].
  - intros o h Ho. destruct (Hown o h Ho) as [Ho'|(-> & _ & Hk)]; [by apply A|done].
  - intros o1 o2 h H1 H2. destruct (Hown _ _ H1) as [H1'|(-> & Hf & _)], (Hown _ _ H2) as [H2'|(-> & Hf2 & _)]; [by apply (B _ _ h)|by destruct (Hf2 o1)|by destruct (Hf o2)|done].
  - intros q x Hx. cbn in Hx. apply lookup_insert_Some in Hx as [[<- <-]|[Hn Hx]]; [done|by apply C].
  - intros i s Hs. destruct (D i s Hs) as (H1 & H2 & H3 & H4). split_and!; [done..|]. intros HL. destruct (H4 HL) as [x Hx]. cbn.
    destruct (decide (p = ep_port (ts_local_addr s))) as [<-|Hne]; [rewrite lookup_insert_eq; eauto|rewrite lookup_insert_ne by done; eauto].
Qed.

Lemma incoming_ok busy n dst : net_inv busy n → net_inv busy (incoming_tcp_packet dst n) ∧ grows n (incoming_tcp_packet dst n) ∧
  tcp_sockets (incoming_tcp_packet dst n) = tcp_sockets n ∧ udp_sockets (incoming_tcp_packet dst n) = udp_sockets n.
Proof.
  intros Hi. unfold incoming_tcp_packet. destruct (LISTEN_TABLE n !! ep_port dst) as [e|] eqn:He; [|done]. destruct (entry_can_accept _ _); cbn [negb]; [|done].
  destruct (Z.leb_spec LISTEN_QUEUE_SIZE (Z.of_nat (length (syn_queue e)))) as [|Hlen]; [done|]. destruct (tcp_listen _ _) as [r socket]. destruct (is_ok r); [|done].
  destruct (set_add _ _) as [h S'] eqn:Ha. apply add_kinds in Ha as (Hn & Hk & Hx). pose proof (free_fresh _ _ _ Hi Hn) as Hf.
  split_and!; [| |done..].
  - apply (inv_entry_set busy (set_sockets S' n) (ep_port dst) e); [by apply inv_sockets|done| |].
    + destruct (ni_entry _ _ Hi _ _ He) as (E1 & E2 & E3 & E4). split_and!; cbn; [done|lia..| |rewrite length_app; cbn; lia].
      apply NoDup_app. split_and!; [done| |apply NoDup_singleton]. intros x Hx' ->%list_elem_of_singleton. apply (Hf (OQueue (ep_port dst))). by exists e.
    + intros h' [Hin| ->%list_elem_of_singleton]%elem_of_app; [by left|]. right. split; [|done]. exact Hf.
  - split; eauto.
Qed.
Lemma snoop_ok busy n buf : net_inv busy n → net_inv busy (snoop_tcp_packet buf n) ∧ grows n (snoop_tcp_packet buf n) ∧
  tcp_sockets (snoop_tcp_packet buf n) = tcp_sockets n ∧ udp_sockets (snoop_tcp_packet buf n) = udp_sockets n.
Proof.
  intros Hi. unfold snoop_tcp_packet. destruct (ether_payload buf) as [p|]; [|done]. destruct (ipv4_fields p) as [[[[[] src] dst] q]|]; [|done..].
  destruct (tcp_fields q) as [[[[sp dp] syn] ack]|]; [|done]. destruct (syn && negb ack); [by apply incoming_ok|done].
Qed.
Lemma same_kinds_ok busy n i S' : net_inv busy n → (∀ h, kind_at S' h = kind_at (SOCKET_SET n) h) →
  net_inv busy (set_iface i (set_sockets S' n)) ∧ grows n (set_iface i (set_sockets S' n)).
Proof.
  intros Hi Hk. assert (extends (SOCKET_SET n) S') as He. { intros h k. by rewrite Hk. }
  split; [by apply inv_iface, inv_sockets|]. split; cbn; eauto.
Qed.
Lemma rx_frame_ok busy n buf : net_inv busy n → net_inv busy (rx_frame n buf) ∧ grows n (rx_frame n buf) ∧
  tcp_sockets (rx_frame n buf) = tcp_sockets n ∧ udp_sockets (rx_frame n buf) = udp_sockets n.
Proof.
  intros Hi. unfold rx_frame. destruct (snoop_ok busy n buf Hi) as (H1 & G1 & T1 & U1). destruct (iface_process _ _ _) as [i' S'] eqn:E.
  destruct (same_kinds_ok busy (snoop_tcp_packet buf n) i' S' H1 (λ h, iface_process_law _ _ _ _ _ h E)) as [H2 G2]. split_and!; [done|by etrans|done..].
Qed.
Lemma rx_frames_ok busy l : ∀ n, net_inv busy n → net_inv busy (foldl rx_frame n l) ∧ grows n (foldl rx_frame n l) ∧
  tcp_sockets (foldl rx_frame n l) = tcp_sockets n ∧ udp_sockets (foldl rx_frame n l) = udp_sockets n.
Proof.
  induction l as [|b l IH]; intros n Hi; [done|]. cbn. destruct (rx_frame_ok busy n b Hi) as (H1 & G1 & T1 & U1). destruct (IH _ H1) as (H2 & G2 & T2 & U2).
  split_and!; [done|by etrans|congruence..].
Qed.
Lemma poll_ok busy n : net_inv busy n → net_inv busy (poll_interfaces n) ∧ grows n (poll_interfaces n) ∧
  tcp_sockets (poll_interfaces n) = tcp_sockets n ∧ udp_sockets (poll_interfaces n) = udp_sockets n.
Proof.
  intros Hi. unfold poll_interfaces. destruct (rx_frames_ok busy (default [] (head (rx_frames n))) (set_rx (tail (rx_frames n)) n)) as (H1 & G1 & T1 & U1); [by apply inv_rx|].
  destruct (iface_egress _ _) as [i' S'] eqn:E. destruct (same_kinds_ok busy _ i' S' H1 (λ h, iface_egress_law _ _ _ _ h E)) as [H2 G2].
  split_and!; [done| |done..]. etrans; [|exact G2]. etrans; [|exact G1]. split; eauto.
Qed.

(** ** Ephemeral ports *)

(** The port [k] tries after [c]. *)
Definition rot (c k : Z) : Z := PORT_START + (c - PORT_START + k) mod (PORT_END - PORT_START + 1).
Lemma rot_0 c : PORT_START ≤ c ≤ PORT_END → rot c 0 = c.
Proof. unfold rot, PORT_START, PORT_END. intros H. rewrite Z.mod_small; lia. Qed.
Lemma rot_next c k : PORT_START ≤ c ≤ PORT_END → rot (next_port c) k = rot c (k + 1).
Proof.
  unfold rot, next_port, PORT_START, PORT_END. intros H. case_Z; [|do 2 f_equal; lia].
  f_equal. rewrite <- (Z.mod_add (49152 - 49152 + k) 1) by lia. f_equal. lia.
Qed.
Lemma next_port_range c : PORT_START ≤ c ≤ PORT_END → PORT_START ≤ next_port c ≤ PORT_END.
Proof. unfold next_port, PORT_START, PORT_END. case_Z; lia. Qed.
Lemma rot_surj c p : PORT_START ≤ c ≤ PORT_END → PORT_START ≤ p ≤ PORT_END → ∃ k, 0 ≤ k < PORT_END - PORT_START + 1 ∧ rot c k = p.
Proof.
  unfold rot, PORT_START, PORT_END. intros Hc Hp. destruct (decide (c ≤ p)).
  - exists (p - c). split; [lia|]. rewrite Z.mod_small; lia.
  - exists (p - c + 16384). split; [lia|]. replace (c - 49152 + (p - c + 16384)) with (p - 49152 + 1 * 16384) by lia.
    change (65535 - 49152 + 1) with 16384. rewrite Z.mod_add, Z.mod_small; lia.
Qed.

Definition port_result (n : net) (r : result Z AxError.t) (taken : Z → Prop) : Prop :=
  match r with
  | Ok p => PORT_START ≤ p ≤ PORT_END ∧ LISTEN_TABLE n !! p = None
  | Err e => e = AxError.AddrInUse ∧ ∀ p, taken p → is_Some (LISTEN_TABLE n !! p)
  end.
Lemma ephemeral_loop_ok t : ∀ n, PORT_START ≤ TCP_CURR n ≤ PORT_END →
  ∃ r c, ephemeral_loop t n = Ret (r, set_tcp_curr c n) ∧ PORT_START ≤ c ≤ PORT_END ∧
    port_result n r (λ p, ∃ k, 0 ≤ k < Z.of_nat t ∧ rot (TCP_CURR n) k = p).
Proof.
  induction t as [|t IH]; intros n Hc.
  { exists (Err AxError.AddrInUse), (TCP_CURR n). split_and!; [by destruct n|lia..|]. cbn. split; [done|]. intros p (k & Hk & _). lia. }
  cbn [ephemeral_loop]. unfold can_listen. case_bool_decide as Hp; cbn in Hp.
  { eexists (Ok _), _. split; [done|]. split; [by apply next_port_range|]. by split. }
  destruct (IH (set_tcp_curr (next_port (TCP_CURR n)) n)) as (r & c & E & Hcr & Hr); [by apply next_port_range|]. cbn in E, Hr.
  exists r, c. rewrite E. split_and!; [done|lia..|]. destruct r as [p|e]; [done|]. destruct Hr as [-> Hr]. split; [done|]. intros p (k & Hk & <-).
  destruct (decide (k = 0)) as [->|]. { rewrite rot_0 by done. by destruct (LISTEN_TABLE n !! TCP_CURR n). }
  apply Hr. exists (k - 1). split; [lia|]. rewrite rot_next by done. f_equal. lia.
Qed.
Lemma ephemeral_ok n : PORT_START ≤ TCP_CURR n ≤ PORT_END →
  ∃ r c, tcp_ephemeral_port n = Ret (r, set_tcp_curr c n) ∧ PORT_START ≤ c ≤ PORT_END ∧ port_result n r (λ p, PORT_START ≤ p ≤ PORT_END).
Proof.
  intros Hc. unfold tcp_ephemeral_port. destruct (ephemeral_loop_ok (Z.to_nat (PORT_END - PORT_START + 1)) n Hc) as (r & c & E & Hcr & Hr).
  exists r, c. split_and!; [done|lia..|]. destruct r as [p|e]; [done|]. destruct Hr as [-> Hr]. split; [done|]. intros p Hp. apply Hr.
  destruct (rot_surj (TCP_CURR n) p Hc Hp) as (k & Hk & Ek). exists k. split; [|done]. rewrite Z2Nat.id; [done|unfold PORT_END, PORT_START; lia].
Qed.
Lemma inv_tcp_curr busy n c : PORT_START ≤ c ≤ PORT_END → net_inv busy n → net_inv busy (set_tcp_curr c n).
Proof. intros Hc [A B C D F G I]. split; cbn; [eauto..| |eauto]. tauto. Qed.
Lemma inv_udp_curr busy n c : PORT_START ≤ c ≤ PORT_END → net_inv busy n → net_inv busy (set_udp_curr c n).
Proof. intros Hc [A B C D F G I]. split; cbn; [eauto..| |eauto]. tauto. Qed.

(** ** Changes of state *)

(** [s] is a value that socket [i] can have when no change is under way. *)
Definition settled (n : net) (i : nat) (s : TcpSocket) : Prop := tcp_ok None n i s ∧ no_other_listener n i s.
Definition set_tcp (i : nat) (s : TcpSocket) (n : net) : net := set_tcps (<[i := s]> (tcp_sockets n)) n.

Lemma tcp_upd_eq {E} i f n s : tcp_sockets n !! i = Some s → tcp_upd (E := E) i f n = Ret (Ok tt, set_tcp i (f s) n).
Proof. intros Hs. unfold tcp_upd, sm_modify, set_tcp. by rewrite (alter_at _ _ _ _ Hs). Qed.
Lemma tcp_get_eq {E} i n s : tcp_sockets n !! i = Some s → tcp_get (E := E) i n = Ret (Ok s, n).
Proof. intros Hs. unfold tcp_get. by rewrite Hs. Qed.
Lemma set_tcp_twice i s s' n : set_tcp i s' (set_tcp i s n) = set_tcp i s' n.
Proof. unfold set_tcp, set_tcps. cbn. by rewrite insert_insert_eq. Qed.
Lemma lookup_set_tcp i s n : tcp_sockets (set_tcp i s n) !! i = Some s.
Proof. cbn. by rewrite lookup_insert_eq. Qed.

Lemma inv_busy n i s : net_inv None n → tcp_sockets n !! i = Some s →
  net_inv (Some i) (set_tcp i (with_state STATE_BUSY s) n) ∧ grows n (set_tcp i (with_state STATE_BUSY s) n).
Proof.
  intros Hi Hs. apply (inv_tcp_set None (Some i) n i s); [done|done|done|by left| |done].
  unfold tcp_ok, STATE_CLOSED, STATE_BUSY, STATE_CONNECTING, STATE_CONNECTED, STATE_LISTENING. cbn. split_and!; [tauto|intros [|]; lia|intros [|]; lia|lia].
Qed.
Lemma inv_settle n i s s' : net_inv (Some i) n → tcp_sockets n !! i = Some s → handle_ok n s s' → settled n i s' →
  net_inv None (set_tcp i s' n) ∧ grows n (set_tcp i s' n).
Proof. intros Hi Hs Hh [Hok Hno]. apply (inv_tcp_set (Some i) None n i s); try done. by intros j [=]. Qed.
(** A change of another field while the socket is busy. *)
Lemma inv_while_busy n i s s' : net_inv (Some i) n → tcp_sockets n !! i = Some s → handle_ok n s s' → ts_state s' = STATE_BUSY →
  net_inv (Some i) (set_tcp i s' n) ∧ grows n (set_tcp i s' n).
Proof.
  intros Hi Hs Hh Hb. apply (inv_tcp_set (Some i) (Some i) n i s); [done|done|by intros j [=]|done| |].
  - unfold tcp_ok. rewrite Hb. unfold STATE_CLOSED, STATE_BUSY, STATE_CONNECTING, STATE_CONNECTED, STATE_LISTENING. split_and!; [tauto|intros [|]; lia|intros [|]; lia|lia].
  - unfold no_other_listener. rewrite Hb. done.
Qed.

(** A call that is safe and leaves socket [i] with the property [Q]. *)
Definition safe_socket {E A} (i : nat) (Q : TcpSocket → Prop) (m : SM net E A) (n : net) : Prop :=
  ∃ r n', m n = Ret (r, n') ∧ net_inv None n' ∧ grows n n' ∧ ∃ s, tcp_sockets n' !! i = Some s ∧ Q s.
Lemma safe_socket_safe {E A} i Q (m : SM net E A) n : safe_socket i Q m n → safe_at m n.
Proof. intros (r & n' & E' & Hi & Hg & _). by exists r, n'. Qed.
Lemma update_state_socket {A} (Q : TcpSocket → Prop) i expect new (f : M A) n s :
  net_inv None n → tcp_sockets n !! i = Some s → Q s →
  (ts_state s = expect → net_inv (Some i) (set_tcp i (with_state STATE_BUSY s) n) →
    ∃ res n2 s2, f (set_tcp i (with_state STATE_BUSY s) n) = Ret (res, n2) ∧ net_inv (Some i) n2 ∧ grows (set_tcp i (with_state STATE_BUSY s) n) n2 ∧
      tcp_sockets n2 !! i = Some s2 ∧ settled n2 i (with_state (if is_ok res then new else expect) s2) ∧ Q (with_state (if is_ok res then new else expect) s2)) →
  safe_socket i Q (update_state i expect new f) n.
Proof.
  intros Hi Hs HQ Hf. unfold safe_socket, update_state, sm_bind. rewrite (tcp_get_eq i n s Hs). destruct (Z.eqb_spec (ts_state s) expect) as [He|He]; [|eexists _, n; split_and!; [done|done|done|by exists s]].
  destruct (inv_busy n i s Hi Hs) as [Hb Hg]. destruct (Hf He Hb) as (res & n2 & s2 & E & Hi2 & Hg2 & Hs2 & Hset & HQ2).
  unfold set_state. rewrite (tcp_upd_eq i _ n s Hs). unfold sm_catch. rewrite E, (tcp_upd_eq i _ n2 s2 Hs2). unfold sm_ret.
  destruct (inv_settle n2 i s2 (with_state (if is_ok res then new else expect) s2) Hi2 Hs2 (or_introl eq_refl) Hset) as [Hi3 Hg3].
  eexists _, _. split_and!; [done|done|etrans; [done|by etrans]|]. eexists. split; [apply lookup_set_tcp|done].
Qed.
Lemma update_state_rule {A} i expect new (f : M A) n s :
  net_inv None n → tcp_sockets n !! i = Some s →
  (ts_state s = expect → net_inv (Some i) (set_tcp i (with_state STATE_BUSY s) n) →
    ∃ res n2 s2, f (set_tcp i (with_state STATE_BUSY s) n) = Ret (res, n2) ∧ net_inv (Some i) n2 ∧ grows (set_tcp i (with_state STATE_BUSY s) n) n2 ∧
      tcp_sockets n2 !! i = Some s2 ∧ settled n2 i (with_state (if is_ok res then new else expect) s2)) →
  safe_at (update_state i expect new f) n.
Proof.
  intros Hi Hs Hf. eapply safe_socket_safe, (update_state_socket (λ _, True) i expect new f n s); [done..|]. intros He Hb.
  destruct (Hf He Hb) as (res & n2 & s2 & H). exists res, n2, s2. tauto.
Qed.
Lemma unwrap_or_safe {A} (m : SM net Z (result A AxError.t)) d n : safe_at m n → safe_at (unwrap_or m d) n.
Proof. intros (r & n' & E & Hi & Hg). unfold safe_at, unwrap_or, sm_catch. rewrite E. by eexists _, n'. Qed.

Lemma unwrap_or_socket {A} i Q (m : SM net Z (result A AxError.t)) d n : safe_socket i Q m n → safe_socket i Q (unwrap_or m d) n.
Proof. intros (r & n' & E & H). unfold safe_socket, unwrap_or, sm_catch. rewrite E. by eexists _, n'. Qed.

Definition bound_result (n : net) (local : IpEndpoint) (r : result IpListenEndpoint AxError.t) : Prop :=
  match r with
  | Ok b => 0 < le_port b < 65536 ∧ (ep_port local ≠ 0 → le_port b = ep_port local) ∧ (ep_port local = 0 → LISTEN_TABLE n !! le_port b = None)
  | Err e => e = AxError.AddrInUse ∧ ep_port local = 0
  end.
Lemma bound_ok i n s : tcp_sockets n !! i = Some s → is_port (ep_port (ts_local_addr s)) → PORT_START ≤ TCP_CURR n ≤ PORT_END →
  ∃ r c, bound_endpoint i n = Ret (r, set_tcp_curr c n) ∧ PORT_START ≤ c ≤ PORT_END ∧ bound_result n (ts_local_addr s) r.
Proof.
  intros Hs Hp Hc. unfold bound_endpoint, sm_bind. rewrite (tcp_get_eq i n s Hs). unfold is_port in Hp. destruct (Z.eqb_spec (ep_port (ts_local_addr s)) 0) as [H0|H0]; cbn [negb].
  - destruct (ephemeral_ok n Hc) as (r & c & -> & Hcr & Hr). destruct r as [p|e]; [|exists (Err e), c; by destruct Hr].
    destruct Hr as [Hrange Hn]. unfold PORT_START, PORT_END in Hrange. destruct (Z.eqb_spec p 0); [lia|]. eexists (Ok _), c. split_and!; [done|lia..|]. cbn. split_and!; [lia..|done].
  - unfold sm_ret at 1. destruct (Z.eqb_spec (ep_port (ts_local_addr s)) 0); [done|]. eexists (Ok _), (TCP_CURR n). split_and!; [by destruct n|lia..|]. cbn. split_and!; [lia..|done].
Qed.
End inv.
