(* ===== verification/NetSafe.v ===== *)
(** Every operation of the sockets of [axnet] keeps the invariant of [NetInv.v]. *)

From stdpp Require Import prelude gmap list.
From Stdlib Require Import ZArith Lia.
From S2P Require Import Prelude FdTable Net NetSockets NetInv.
Local Open Scope Z_scope.
Local Open Scope kernel_scope.

Section safe.
Context {smoltcp : Smoltcp} {smolset : SmolSet} {laws : SmolLaws}.
Abbreviation M := (SM net AxError.t).

Definition addr_ok (a : SocketAddr) : Prop := (∃ o, sa_ip a = IpV4 o) ∧ is_port (sa_port a).
Lemma addr_conv a : addr_ok a → ∃ e, from_core_sockaddr a = Ret e ∧ ep_port e = sa_port a.
Proof. intros [[o Ho] _]. unfold from_core_sockaddr. rewrite Ho. by eexists. Qed.

Lemma settled_closed n i s : is_port (ep_port (ts_local_addr s)) → settled n i (with_state STATE_CLOSED s).
Proof. intros Hp. split; [split_and!; cbn; [by left|by intros [|]|done|done]|done]. Qed.
Lemma inv_port busy n i s : net_inv busy n → tcp_sockets n !! i = Some s → ts_state s = STATE_CLOSED ∨ ts_state s = STATE_LISTENING → is_port (ep_port (ts_local_addr s)).
Proof. intros Hi Hs. by apply (ni_tcp _ _ Hi i s Hs). Qed.

(** ** [bind] and [listen] *)

Lemma bind_safe i n s a : net_inv None n → tcp_sockets n !! i = Some s → addr_ok a → safe_at (bind i a) n.
Proof.
  intros Hi Hs Ha. apply unwrap_or_safe, (update_state_rule i _ _ _ n s Hi Hs). intros Hst Hb.
  pose proof (inv_port None n i s Hi Hs (or_introl Hst)) as Hp. set (s1 := with_state STATE_BUSY s) in *. set (n1 := set_tcp i s1 n) in *.
  assert (∃ r c, (if sa_port a =? 0 then tcp_ephemeral_port else sm_ret (sa_port a)) n1 = Ret (r, set_tcp_curr c n1) ∧ PORT_START ≤ c ≤ PORT_END ∧ match r with Ok p => is_port p | Err _ => True end) as (r & c & Er & Hc & Hr).
  { destruct (Z.eqb_spec (sa_port a) 0) as [|Hne].
    - destruct (ephemeral_ok n1) as (r & c & E & Hc & Hr); [apply (ni_curr _ _ Hb)|]. exists r, c. split_and!; [done|lia..|]. destruct r; [|done]. destruct Hr. unfold is_port, PORT_START, PORT_END in *. lia.
    - exists (Ok (sa_port a)), (TCP_CURR n1). split_and!; [done|apply (ni_curr _ _ Hb)..|apply Ha]. }
  unfold sm_bind at 1. rewrite Er. assert (net_inv (Some i) (set_tcp_curr c n1)) as Hi2 by by apply inv_tcp_curr.
  assert (tcp_sockets (set_tcp_curr c n1) !! i = Some s1) as Hs2 by apply lookup_set_tcp.
  destruct r as [p|e]; [|eexists (Err e), _, s1; split_and!; [done|done| |done|by apply settled_closed]; by split; eauto].
  unfold sm_bind. rewrite (tcp_get_eq i _ s1 Hs2). case_bool_decide as Hu; cbn [negb].
  2:{ eexists (Err _), _, s1. split_and!; [done|done| |done|by apply settled_closed]. by split; eauto. }
  destruct (addr_conv {| sa_ip := sa_ip a; sa_port := p |}) as (e & -> & He); [by split; [apply Ha|]|].
  rewrite (tcp_upd_eq i _ _ s1 Hs2). destruct (inv_while_busy _ i s1 (with_local e s1) Hi2 Hs2 (or_introl eq_refl) eq_refl) as [Hi3 Hg3].
  eexists (Ok tt), _, _. split_and!; [done|done| |apply lookup_set_tcp|]; [|apply settled_closed; cbn; by rewrite He].
  etrans; [|exact Hg3]. by split; eauto.
Qed.

Lemma grows_curr n c : grows n (set_tcp_curr c n).
Proof. by split; eauto. Qed.
Lemma inv_entry_new busy n p e : net_inv busy n → LISTEN_TABLE n !! p = None → syn_queue e = [] → entry_ok p e →
  net_inv busy (set_listen (<[p := e]> (LISTEN_TABLE n)) n).
Proof.
  intros [A B C D F G I] Hp Hq Hok.
  assert (∀ o h, owns (set_listen (<[p := e]> (LISTEN_TABLE n)) n) o h → owns n o h) as Hown.
  { intros [j|j|q] h; cbn; [done|done|]. intros (x & Hx & Eh). apply lookup_insert_Some in Hx as [[<- <-]|[Hn Hx]]; [|by exists x]. rewrite Hq in Eh. by apply not_elem_of_nil in Eh. }
  split; [eauto|eauto| | |done|done|done].
  - intros q x Hx. cbn in Hx. apply lookup_insert_Some in Hx as [[<- <-]|[Hn Hx]]; [done|by apply C].
  - intros i s Hs. destruct (D i s Hs) as (H1 & H2 & H3 & H4). split_and!; [done..|]. intros HL. destruct (H4 HL) as [x Hx]. cbn.
    rewrite lookup_insert_ne by congruence. eauto.
Qed.

Lemma listen_safe i n s : net_inv None n → tcp_sockets n !! i = Some s → safe_at (listen i) n.
Proof.
  intros Hi Hs. apply unwrap_or_safe, (update_state_rule i _ _ _ n s Hi Hs). intros Hst Hb.
  pose proof (inv_port None n i s Hi Hs (or_introl Hst)) as Hp. set (s1 := with_state STATE_BUSY s) in *. set (n1 := set_tcp i s1 n) in *.
  assert (tcp_sockets n1 !! i = Some s1) as Hs1 by apply lookup_set_tcp.
  destruct (bound_ok i n1 s1 Hs1 Hp) as (r & c & Er & Hc & Hr); [apply (ni_curr _ _ Hb)|]. unfold sm_bind at 1. rewrite Er.
  assert (net_inv (Some i) (set_tcp_curr c n1)) as Hi2 by by apply inv_tcp_curr.
  destruct r as [b|e]; [|eexists (Err e), _, s1; split_and!; [done|done|apply grows_curr|done|by apply settled_closed]].
  destruct Hr as (Hb1 & Hb2 & Hb3). unfold sm_bind. rewrite (tcp_upd_eq i _ (set_tcp_curr c n1) s1 Hs1). cbv beta. set (s2 := with_local _ s1).
  destruct (inv_while_busy _ i s1 s2 Hi2 Hs1 (or_introl eq_refl) eq_refl) as [Hi3 Hg3]. assert (grows n1 (set_tcp i s2 (set_tcp_curr c n1))) as Hg by (etrans; [apply grows_curr|exact Hg3]).
  set (n3 := set_tcp i s2 (set_tcp_curr c n1)) in *. assert (tcp_sockets n3 !! i = Some s2) as Hs3 by apply lookup_set_tcp.
  unfold table_listen. rewrite (proj2 (Z.eqb_neq _ _)) by lia. destruct (LISTEN_TABLE n3 !! le_port b) as [e|] eqn:He.
  { eexists (Err _), _, s2. split_and!; [done|done|done|done|]. apply settled_closed. cbn. unfold is_port. lia. }
  eexists (Ok tt), _, s2. split_and!; [done| | |done|].
  - apply inv_entry_new; [done|done|done|]. split_and!; cbn; [done|lia|lia|by apply NoDup_nil|unfold LISTEN_QUEUE_SIZE; lia].
  - etrans; [exact Hg|]. by split; eauto.
  - split; [split_and!; cbn; [tauto|by intros [|]|unfold is_port; lia|by rewrite lookup_insert_eq]|].
    intros _ j sj Hj Hsj HL Ep. cbn in Ep, Hsj. destruct (ni_tcp _ _ Hi3 j sj Hsj) as (_ & _ & _ & H4). destruct (H4 HL) as [x Hx]. congruence.
Qed.

(** ** [connect] *)

Lemma take_handle_ok busy n s : net_inv busy n → (∀ h, ts_handle s = Some h → kind_at (SOCKET_SET n) h = Some KTcp) →
  ∃ h S', (match ts_handle s with Some h => sm_ret h | None => add (STcp tcp_new) end : M nat) n = Ret (Ok h, set_sockets S' n) ∧
    extends (SOCKET_SET n) S' ∧ kind_at S' h = Some KTcp ∧ (ts_handle s = Some h ∨ ts_handle s = None ∧ free_handle n h).
Proof.
  intros Hi Hk. destruct (ts_handle s) as [h|] eqn:Hh.
  - exists h, (SOCKET_SET n). split_and!; [by destruct n|by unfold extends|by apply Hk|by left].
  - unfold add. destruct (set_add _ _) as [h S'] eqn:Ha. destruct (add_kinds _ _ _ _ Ha) as (Hn & Hk' & Hx). exists h, S'. split_and!; [done..|]. right. split; [done|]. by eapply free_fresh.
Qed.
Lemma socket_connect_ok n h r b : kind_at (SOCKET_SET n) h = Some KTcp →
  ∃ res i S', socket_connect h r b n = Ret (res, set_iface i (set_sockets S' n)) ∧ ∀ k, kind_at S' k = kind_at (SOCKET_SET n) k.
Proof.
  intros [t Ht]%kind_tcp. unfold socket_connect. rewrite Ht. destruct (tcp_connect_op r b t (ETH0 n)) as [[[[]|e] t'] i'] eqn:E.
  - apply tcp_connect_law in E as [[l Hl] [m Hm]]. rewrite Hl, Hm. eexists (Ok _), i', _. split; [done|]. intros k. by apply (put_kinds _ _ _ (STcp t)).
  - eexists (Err _), i', _. split; [done|]. intros k. by apply (put_kinds _ _ _ (STcp t)).
Qed.

Lemma connect_start_ok i n s a : net_inv None n → tcp_sockets n !! i = Some s → addr_ok a → safe_socket i (λ s', ts_nonblock s' = ts_nonblock s) (connect_start i a) n.
Proof.
  intros Hi Hs Ha. apply unwrap_or_socket, (update_state_socket (λ s', ts_nonblock s' = ts_nonblock s) i _ _ _ n s Hi Hs eq_refl). intros Hst Hb.
  pose proof (inv_port None n i s Hi Hs (or_introl Hst)) as Hp. set (s1 := with_state STATE_BUSY s) in *. set (n1 := set_tcp i s1 n) in *.
  assert (tcp_sockets n1 !! i = Some s1) as Hs1 by apply lookup_set_tcp. unfold sm_bind at 1. rewrite (tcp_get_eq i n1 s1 Hs1).
  destruct (take_handle_ok (Some i) n1 s1 Hb) as (h & S' & E & Hx & Hk & Hh). { intros h Hh. apply (ni_live _ _ Hb (OTcp i)). by exists s1. }
  unfold sm_bind at 1. rewrite E. destruct (addr_conv a Ha) as (re & -> & _). set (n2 := set_sockets S' n1) in *. pose proof (inv_sockets _ _ _ Hx Hb : net_inv (Some i) n2) as Hi2.
  destruct (bound_ok i n2 s1 Hs1 Hp) as (r & c & Er & Hc & Hr); [apply (ni_curr _ _ Hi2)|]. unfold sm_bind at 1. rewrite Er.
  set (n3 := set_tcp_curr c n2). assert (net_inv (Some i) n3) as Hi3 by by apply inv_tcp_curr. assert (grows n1 n3) as Hg3 by (etrans; [by apply grows_sockets|apply grows_curr]).
  destruct r as [b|e]; [|eexists (Err e), n3, s1; split_and!; [done|done|done|done|by apply settled_closed|done]].
  destruct (socket_connect_ok n3 h re b Hk) as (res & ifc & S2 & E2 & HS2). unfold sm_bind. rewrite E2. destruct (same_kinds_ok _ n3 ifc S2 Hi3 HS2) as [Hi4 Hg4].
  set (n4 := set_iface ifc (set_sockets S2 n3)) in *. assert (grows n1 n4) as Hg by by etrans.
  destruct res as [eps|e]; [|eexists (Err e), n4, s1; split_and!; [done|done|done|done|by apply settled_closed|done]].
  rewrite (tcp_upd_eq i _ n4 s1 Hs1). cbv beta. set (s2 := with_handle (Some h) _).
  destruct (inv_while_busy n4 i s1 s2 Hi4 Hs1) as [Hi5 Hg5]; [|done|].
  { destruct Hh as [Hh|[Hh Hf]]; [left; by rewrite Hh|]. right. exists h. split_and!; [done|done|exact Hf|]. cbn. by rewrite HS2. }
  eexists (Ok tt), _, s2. split_and!; [done|done|by etrans|apply lookup_set_tcp| |done]. split; [|done].
  split_and!; cbn; [tauto|by eexists|by intros [|]|done].
Qed.

Lemma connect_start_safe i n s a : net_inv None n → tcp_sockets n !! i = Some s → addr_ok a → safe_at (connect_start i a) n.
Proof. intros. by eapply safe_socket_safe, connect_start_ok. Qed.

(** The result of a call that is safe, and what comes after it. *)
Lemma net_safe_bind {E A B} (m : SM net E A) (k : A → SM net E B) n r n1 :
  m n = Ret (r, n1) → net_inv None n1 → grows n n1 → (∀ a, r = Ok a → safe_at (k a) n1) → safe_at (sm_bind m k) n.
Proof.
  intros Em Hi Hg Hk. unfold safe_at, sm_bind. rewrite Em. destruct r as [a|e]; [|by eexists _, n1].
  destruct (Hk a eq_refl) as (r' & n2 & E2 & Hi2 & Hg2). eexists _, n2. split_and!; [done|done|by etrans].
Qed.
Lemma safe_then {E A B} (m : SM net E A) (k : A → SM net E B) n : safe_at m n → (∀ a n1, net_inv None n1 → grows n n1 → safe_at (k a) n1) → safe_at (sm_bind m k) n.
Proof. intros (r & n1 & Em & Hi & Hg) Hk. eapply net_safe_bind; eauto. Qed.
Lemma net_safe_ret {E A} (r : result A E) n : net_inv None n → safe_at (sm_lift r) n.
Proof. intros Hi. by exists r, n. Qed.
Lemma with_tcp_safe {A} h (f : tcp_socket → A) n : net_inv None n → kind_at (SOCKET_SET n) h = Some KTcp → ∃ a, with_tcp h f n = Ret (Ok a, n).
Proof. intros Hi [t Ht]%kind_tcp. unfold with_tcp. rewrite Ht. by eexists. Qed.
Lemma with_tcp_ro_safe {A} h (f : tcp_socket → A) n : net_inv None n → kind_at (SOCKET_SET n) h = Some KTcp → safe_at (with_tcp h f) n.
Proof. intros Hi Hk. destruct (with_tcp_safe h f n Hi Hk) as [a E]. by eexists _, _. Qed.
Lemma with_tcp_mut_ok {A} busy h (f : tcp_socket → result A AxError.t * tcp_socket) n : net_inv busy n → kind_at (SOCKET_SET n) h = Some KTcp →
  ∃ r S', with_tcp_mut h f n = Ret (r, set_sockets S' n) ∧ net_inv busy (set_sockets S' n) ∧ grows n (set_sockets S' n).
Proof.
  intros Hi [t Ht]%kind_tcp. unfold with_tcp_mut. rewrite Ht. destruct (f t) as [r t']. pose proof (put_extends _ _ (STcp t') _ Ht eq_refl) as Hx.
  eexists _, _. split_and!; [done|by apply inv_sockets|by apply grows_sockets].
Qed.
Lemma with_udp_mut_ok {A} busy h (f : udp_socket → result A AxError.t * udp_socket) n : net_inv busy n → kind_at (SOCKET_SET n) h = Some KUdp →
  ∃ r S', with_udp_mut h f n = Ret (r, set_sockets S' n) ∧ net_inv busy (set_sockets S' n) ∧ grows n (set_sockets S' n).
Proof.
  intros Hi [t Ht]%kind_udp. unfold with_udp_mut. rewrite Ht. destruct (f t) as [r t']. pose proof (put_extends _ _ (SUdp t') _ Ht eq_refl) as Hx.
  eexists _, _. split_and!; [done|by apply inv_sockets|by apply grows_sockets].
Qed.
Lemma with_tcp_mut_safe {A} h (f : tcp_socket → result A AxError.t * tcp_socket) n : net_inv None n → kind_at (SOCKET_SET n) h = Some KTcp → safe_at (with_tcp_mut h f) n.
Proof. intros Hi Hk. destruct (with_tcp_mut_ok None h f n Hi Hk) as (r & S' & E & ?). by eexists _, _. Qed.
Lemma with_udp_mut_safe {A} h (f : udp_socket → result A AxError.t * udp_socket) n : net_inv None n → kind_at (SOCKET_SET n) h = Some KUdp → safe_at (with_udp_mut h f) n.
Proof. intros Hi Hk. destruct (with_udp_mut_ok None h f n Hi Hk) as (r & S' & E & ?). by eexists _, _. Qed.
Lemma owned_kind busy n i s h : net_inv busy n → tcp_sockets n !! i = Some s → ts_handle s = Some h → kind_at (SOCKET_SET n) h = Some KTcp.
Proof. intros Hi Hs Hh. apply (ni_live _ _ Hi (OTcp i)). by exists s. Qed.
Lemma owned_udp_kind busy n i s : net_inv busy n → udp_sockets n !! i = Some s → kind_at (SOCKET_SET n) (us_handle s) = Some KUdp.
Proof. intros Hi Hs. apply (ni_live _ _ Hi (OUdp i)). by exists s. Qed.

Lemma tcp_ok_connected n i s : is_Some (ts_handle s) → tcp_ok None n i (with_state STATE_CONNECTED s).
Proof. intros Hh. split_and!; cbn; [tauto|done|by intros [|]|done]. Qed.

Lemma poll_connect_safe i n s h : net_inv None n → tcp_sockets n !! i = Some s → ts_handle s = Some h → safe_at (poll_connect i) n.
Proof.
  intros Hi Hs Hh. unfold poll_connect. eapply net_safe_bind; [by apply tcp_get_eq|done|done|]. intros ? [= <-]. rewrite Hh.
  destruct (with_tcp_safe h tcp_state n Hi (owned_kind _ _ _ _ _ Hi Hs Hh)) as [st E]. eapply net_safe_bind; [exact E|done|done|]. intros ? [= <-].
  assert (safe_at (do! tcp_upd i (λ s, with_peer UNSPECIFIED_ENDPOINT (with_local UNSPECIFIED_ENDPOINT s)) in
    do! set_state i STATE_CLOSED in sm_ret {| poll_readable := false; poll_writable := true |} : M PollState) n) as Hclosed.
  { unfold safe_at, sm_bind, set_state. rewrite (tcp_upd_eq i _ n s Hs). cbv beta. rewrite (tcp_upd_eq i _ _ _ (lookup_set_tcp _ _ _)), set_tcp_twice. cbv beta.
    eexists _, _. split; [done|]. apply (inv_tcp_set None None n i s); [done|done|done|by left|apply settled_closed; done|done]. }
  destruct st; try exact Hclosed; [by apply net_safe_ret|].
  unfold safe_at, sm_bind, set_state. rewrite (tcp_upd_eq i _ n s Hs). cbv beta. eexists _, _. split; [done|].
  apply (inv_tcp_set None None n i s); [done|done|done|by left|by apply tcp_ok_connected; eexists|done].
Qed.
Lemma connect_round_safe i n s h : net_inv None n → tcp_sockets n !! i = Some s → ts_handle s = Some h → safe_at (connect_round i) n.
Proof.
  intros Hi Hs Hh. destruct (poll_connect_safe i n s h Hi Hs Hh) as (r & n1 & E & Hi1 & Hg1). eapply net_safe_bind; [exact E|done|done|]. intros p _.
  destruct (poll_writable p); cbn [negb]; [|by apply net_safe_ret]. destruct (gr_tcp _ _ Hg1 i s Hs) as (s1 & Hs1 & _).
  eapply net_safe_bind; [by apply tcp_get_eq|done|done|]. intros ? [= <-]. destruct (_ =? _); by apply net_safe_ret.
Qed.

(** ** [accept] *)

Definition connected_at (n : net) (h : nat) : bool := match set_get (SOCKET_SET n) h with Some (STcp t) => state_connected t | _ => false end.
Definition endpoints_at (n : net) (h : nat) : option (IpEndpoint * IpEndpoint) :=
  match set_get (SOCKET_SET n) h with
  | Some (STcp t) => match tcp_local_endpoint t, tcp_remote_endpoint t with Some l, Some r => Some (l, r) | _, _ => None end
  | _ => None
  end.
Lemma is_connected_eq n h : kind_at (SOCKET_SET n) h = Some KTcp → is_connected h n = Ret (Ok (connected_at n h), n).
Proof. intros [t Ht]%kind_tcp. unfold is_connected, with_tcp, connected_at. by rewrite Ht. Qed.
Lemma get_addr_tuple_eq n h : kind_at (SOCKET_SET n) h = Some KTcp →
  get_addr_tuple h n = match endpoints_at n h with Some a => Ret (Ok a, n) | None => Panic end.
Proof.
  intros [t Ht]%kind_tcp. unfold get_addr_tuple, endpoints_at. rewrite Ht. by destruct (tcp_local_endpoint t), (tcp_remote_endpoint t).
Qed.
Lemma find_connected_eq n q : (∀ h, h ∈ q → kind_at (SOCKET_SET n) h = Some KTcp) → ∀ k,
  find_connected k q n = match list_find (λ h, connected_at n h = true) q with
                         | None => Ret (Ok None, n)
                         | Some (i, h) => match endpoints_at n h with Some a => Ret (Ok (Some ((k + i)%nat, a)), n) | None => Panic end
                         end.
Proof.
  induction q as [|h q IH]; intros Hk k; [done|]. cbn [find_connected]. unfold sm_bind at 1. rewrite is_connected_eq by (apply Hk; by left). cbn [list_find].
  destruct (connected_at n h) eqn:Hc.
  - rewrite decide_True by done. unfold sm_bind. rewrite get_addr_tuple_eq by (apply Hk; by left). destruct (endpoints_at n h); [by rewrite Nat.add_0_r|done].
  - rewrite decide_False by done. rewrite IH by (intros h' Hh; apply Hk; by right). destruct (list_find _ q) as [[i h']|]; cbn; [|done]. destruct (endpoints_at n h'); [|done].
    by rewrite <- Nat.add_succ_comm.
Qed.
Lemma any_connected_eq n q : (∀ h, h ∈ q → kind_at (SOCKET_SET n) h = Some KTcp) → any_connected q n = Ret (Ok (existsb (connected_at n) q), n).
Proof.
  induction q as [|h q IH]; intros Hk; [done|]. cbn [any_connected existsb]. unfold sm_bind. rewrite is_connected_eq by (apply Hk; by left).
  destruct (connected_at n h); [done|]. apply IH. intros h' Hh. apply Hk. by right.
Qed.
Lemma swap_remove_front_eq {A} (q : list A) i x : q !! i = Some x → ∃ q', swap_remove_front i q = Some (x, q') ∧ q ≡ₚ x :: q' ∧
  (∀ y q0, q = y :: q0 → q' = match i with O => q0 | S j => <[j := y]> q0 end).
Proof.
  intros Hx. unfold swap_remove_front. rewrite Hx. destruct q as [|y q0]; [done|]. destruct i as [|j].
  - cbn in Hx. simplify_eq. eexists. split_and!; [done|done|]. by intros ?? [= -> ->].
  - change (q0 !! j = Some x) in Hx. exists (<[j := y]> q0). split_and!; [done| |by intros ?? [= -> ->]].
    rewrite <- (take_drop_middle q0 j x Hx) at 1. rewrite insert_take_drop by by eapply lookup_lt_Some. solve_Permutation.
Qed.

(** The connection is reset after the handshake and before it is accepted. *)
Definition meets_reset (n : net) (port : Z) : Prop :=
  ∃ e i h, LISTEN_TABLE n !! port = Some e ∧ list_find (λ h, connected_at n h = true) (syn_queue e) = Some (i, h) ∧ endpoints_at n h = None.

Lemma queue_kinds busy n p e : net_inv busy n → LISTEN_TABLE n !! p = Some e → ∀ h, h ∈ syn_queue e → kind_at (SOCKET_SET n) h = Some KTcp.
Proof. intros Hi He h Hh. apply (ni_live _ _ Hi (OQueue p)). by exists e. Qed.

Lemma table_accept_eq busy n p e : net_inv busy n → LISTEN_TABLE n !! p = Some e →
  table_accept p n = match list_find (λ h, connected_at n h = true) (syn_queue e) with
                     | None => Ret (Err AxError.WouldBlock, n)
                     | Some (i, h) =>
                         match endpoints_at n h, swap_remove_front i (syn_queue e) with
                         | Some a, Some (h, q) => Ret (Ok (h, a), set_listen (<[p := {| listen_endpoint := listen_endpoint e; syn_queue := q |}]> (LISTEN_TABLE n)) n)
                         | _, _ => Panic
                         end
                     end.
Proof.
  intros Hi He. unfold table_accept. rewrite He, find_connected_eq by by eapply queue_kinds. destruct (list_find _ _) as [[i h]|]; [|done]. destruct (endpoints_at n h); [|done]. cbn. by destruct (swap_remove_front _ _) as [[]|].
Qed.
(** The connection taken from the queue belongs to no one. *)
Lemma take_connection busy n p e i h q : net_inv busy n → LISTEN_TABLE n !! p = Some e → syn_queue e !! i = Some h → syn_queue e ≡ₚ h :: q →
  let n' := set_listen (<[p := {| listen_endpoint := listen_endpoint e; syn_queue := q |}]> (LISTEN_TABLE n)) n in
  net_inv busy n' ∧ grows n n' ∧ free_handle n' h ∧ kind_at (SOCKET_SET n') h = Some KTcp.
Proof.
  intros Hi He Hh Hq n'. destruct (ni_entry _ _ Hi p e He) as (E1 & E2 & E3 & E4). rewrite Hq in E3. apply NoDup_cons in E3 as [Hnin Hnd]. rewrite Hq in E4. cbn in E4.
  assert (h ∈ syn_queue e) as Hin by (rewrite Hq; by left). assert (owns n (OQueue p) h) as Ho by by exists e.
  split_and!.
  - apply (inv_entry_set busy n p e); [done|done|split_and!; cbn; [done|lia..|done|lia]|]. intros h' Hh'. left. rewrite Hq. by right.
  - by split; eauto.
  - intros o Ho'. assert (owns n o h) as Hoo.
    { destruct o as [j|j|p']; cbn in *; [done|done|]. destruct Ho' as (x & Hx & Hxin). apply lookup_insert_Some in Hx as [[<- <-]|[Hne Hx]]; [done|by exists x]. }
    pose proof (ni_once _ _ Hi _ _ _ Ho Hoo) as <-. cbn in Ho'. destruct Ho' as (x & Hx & Hxin). rewrite lookup_insert_eq in Hx. by simplify_eq.
  - exact (queue_kinds busy n p e Hi He h Hin).
Qed.

(** A new object. *)
Lemma inv_tcp_place n s : net_inv None n → tcp_ok None n (next_id n) s → ts_state s ≠ STATE_LISTENING →
  (∀ h, ts_handle s = Some h → free_handle n h ∧ kind_at (SOCKET_SET n) h = Some KTcp) →
  safe_at (tcp_place s : M nat) n.
Proof.
  intros Hi Hok HL Hh. destruct (ni_next _ _ Hi (next_id n) ltac:(lia)) as [Hnone _]. eexists _, _. split; [done|]. destruct Hi as [A B C D F G I]. set (m := <[next_id n := s]> (tcp_sockets n)).
  assert (∀ o h, owns (set_tcps m n) o h → owns n o h ∨ o = OTcp (next_id n) ∧ free_handle n h ∧ kind_at (SOCKET_SET n) h = Some KTcp) as Hown.
  { intros [j|j|p] h; cbn; [|by left|by left]. intros (x & Hx & Eh). apply lookup_insert_Some in Hx as [[<- <-]|[Hne Hx]]; [right|left; by exists x]. split; [done|by apply Hh]. }
  split; [split|split].
  - intros o h Ho. destruct (Hown o h Ho) as [Ho'|(-> & _ & Hk)]; [by apply A|done].
  - intros o1 o2 h H1 H2. destruct (Hown _ _ H1) as [H1'|(-> & Hf & _)], (Hown _ _ H2) as [H2'|(-> & Hf2 & _)]; [by apply (B _ _ h)|by destruct (Hf2 o1)|by destruct (Hf o2)|done].
  - exact C.
  - intros j x Hx. cbn in Hx. apply lookup_insert_Some in Hx as [[<- <-]|[Hne Hx]]; [done|by apply D].
  - intros j k sj sk Hj Hk Lj Lk Ep. cbn in Hj, Hk. apply lookup_insert_Some in Hj as [[<- <-]|[Hnj Hj]], Hk as [[<- <-]|[Hnk Hk]]; [done|done|done|by apply (F j k sj sk)].
  - exact G.
  - intros j Hj. cbn in *. destruct (I j ltac:(lia)) as [H1 H2]. split; [|done]. unfold m. rewrite lookup_insert_ne; [done|lia].
  - intros j x Hx. cbn. exists x. split; [|done]. unfold m. rewrite lookup_insert_ne; [done|congruence].
  - eauto.
  - done.
Qed.

Lemma accept_round_cases n p : net_inv None n → safe_at (accept_round p) n ∨ accept_round p n = Panic ∧ meets_reset n p.
Proof.
  intros Hi. unfold accept_round. destruct (LISTEN_TABLE n !! p) as [e|] eqn:He.
  2:{ left. eapply net_safe_bind; [unfold table_accept; by rewrite He|done|done|]. done. }
  pose proof (table_accept_eq None n p e Hi He) as E. destruct (list_find _ _) as [[i h]|] eqn:Hf; [|left; by eapply net_safe_bind; [exact E|done|done|]].
  destruct (endpoints_at n h) as [a|] eqn:Ha. 2:{ right. unfold sm_bind. rewrite E. split; [done|]. by exists e, i, h. }
  left. apply list_find_Some in Hf as (Hh & _). destruct (swap_remove_front_eq _ _ _ Hh) as (q & Eq & Hq & _). rewrite Eq in E.
  destruct (take_connection None n p e i h q Hi He Hh Hq) as (Hi1 & Hg1 & Hf1 & Hk1). eapply net_safe_bind; [exact E|exact Hi1|exact Hg1|].
  intros ? [= <-]. apply inv_tcp_place; [done| |done|]; cbn.
  - split_and!; cbn; [tauto|by eexists|by intros [|]|done].
  - intros ? [= <-]. done.
Qed.

(** ** [shutdown] *)

Lemma unlisten_ok busy n p : net_inv busy n → (∀ j sj, tcp_sockets n !! j = Some sj → ts_state sj = STATE_LISTENING → ep_port (ts_local_addr sj) ≠ p) →
  ∃ n', unlisten p n = Ret (Ok tt, n') ∧ net_inv busy n' ∧ grows n n' ∧ tcp_sockets n' = tcp_sockets n ∧ udp_sockets n' = udp_sockets n ∧ LISTEN_TABLE n' = delete p (LISTEN_TABLE n).
Proof.
  intros Hi Hno. unfold unlisten. destruct (LISTEN_TABLE n !! p) as [e|] eqn:He; [|exists n; by rewrite delete_id].
  set (n1 := set_listen (delete p (LISTEN_TABLE n)) n). assert (∀ o h, owns n1 o h → owns n o h ∧ o ≠ OQueue p) as Hown.
  { intros [j|j|q] h; cbn; [done|done|]. intros (x & Hx & Eh). apply lookup_delete_Some in Hx as [Hne Hx]. split; [by exists x|congruence]. }
  assert (net_inv busy n1) as Hi1.
  { destruct Hi as [A B C D F G I]. split; [| | | |done|done|done].
    - intros o h Ho. by apply A, Hown.
    - intros o1 o2 h H1 H2. apply (B _ _ h); by apply Hown.
    - intros q x Hx. cbn in Hx. apply lookup_delete_Some in Hx as [_ Hx]. by apply C.
    - intros j sj Hj. destruct (D j sj Hj) as (H1 & H2 & H3 & H4). split_and!; [done..|]. intros HL. cbn. rewrite lookup_delete_ne by (intros ->; by apply (Hno j sj Hj HL)). by apply H4. }
  destruct (ni_entry _ _ Hi p e He) as (_ & _ & Hnd & _). destruct (remove_all_ok busy (syn_queue e) n1 Hi1 Hnd) as (n2 & -> & Hi2 & Hg2 & L2 & T2 & U2 & _).
  { intros h Hh. split; [by eapply (queue_kinds busy n)|]. intros o [Ho Hne]%Hown. apply Hne, (ni_once _ _ Hi _ _ h Ho). by exists e. }
  exists n2. split_and!; [done|done| |done..]. etrans; [|exact Hg2]. by split; eauto.
Qed.

Lemma shutdown_stream_safe i n s : net_inv None n → tcp_sockets n !! i = Some s → safe_at (update_state i STATE_CONNECTED STATE_CLOSED (
    let! s := tcp_get i in
    match ts_handle s with
    | None => sm_panic
    | Some h =>
        do! with_tcp_mut h (λ t, (Ok tt, tcp_close t)) in
        do! tcp_upd i (with_local UNSPECIFIED_ENDPOINT) in
        poll_ifaces
    end)) n.
Proof.
  intros Hi Hs. apply (update_state_rule i _ _ _ n s Hi Hs). intros Hst Hb. set (s1 := with_state STATE_BUSY s) in *. set (n1 := set_tcp i s1 n) in *.
  assert (tcp_sockets n1 !! i = Some s1) as Hs1 by apply lookup_set_tcp. destruct (ni_tcp _ _ Hi i s Hs) as (_ & Hh & _). destruct (Hh (or_intror Hst)) as [h Eh].
  unfold sm_bind at 1. rewrite (tcp_get_eq i n1 s1 Hs1). change (ts_handle s1) with (ts_handle s). rewrite Eh.
  destruct (with_tcp_mut_ok (Some i) h (λ t, (Ok tt, tcp_close t)) n1 Hb (owned_kind _ _ i s1 h Hb Hs1 Eh)) as (r & S' & E & Hi2 & Hg2).
  assert (r = Ok tt) as ->. { unfold with_tcp_mut in E. destruct (set_get _ h) as [[]|]; by simplify_eq. }
  unfold sm_bind. rewrite E, (tcp_upd_eq i _ (set_sockets S' n1) s1 Hs1). unfold poll_ifaces, sm_modify.
  destruct (inv_while_busy _ i s1 (with_local UNSPECIFIED_ENDPOINT s1) Hi2 Hs1 (or_introl eq_refl) eq_refl) as [Hi3 Hg3].
  destruct (poll_ok _ _ Hi3) as (Hi4 & Hg4 & T4 & _). eexists (Ok tt), _, _. split_and!; [done|exact Hi4| |rewrite T4; apply lookup_set_tcp|by apply settled_closed].
  etrans; [exact Hg2|]. by etrans.
Qed.
Lemma shutdown_listener_safe i n s : net_inv None n → tcp_sockets n !! i = Some s → safe_at (update_state i STATE_LISTENING STATE_CLOSED (
    let! s := tcp_get i in
    do! tcp_upd i (with_local UNSPECIFIED_ENDPOINT) in
    do! unlisten (ep_port (ts_local_addr s)) in
    poll_ifaces)) n.
Proof.
  intros Hi Hs. apply (update_state_rule i _ _ _ n s Hi Hs). intros Hst Hb. set (s1 := with_state STATE_BUSY s) in *. set (n1 := set_tcp i s1 n) in *.
  assert (tcp_sockets n1 !! i = Some s1) as Hs1 by apply lookup_set_tcp. unfold sm_bind. rewrite (tcp_get_eq i n1 s1 Hs1), (tcp_upd_eq i _ n1 s1 Hs1).
  destruct (inv_while_busy _ i s1 (with_local UNSPECIFIED_ENDPOINT s1) Hb Hs1 (or_introl eq_refl) eq_refl) as [Hi2 Hg2].
  destruct (unlisten_ok (Some i) (set_tcp i (with_local UNSPECIFIED_ENDPOINT s1) n1) (ep_port (ts_local_addr s1)) Hi2) as (n3 & E3 & Hi3 & Hg3 & T3 & _ & _).
  { intros j sj Hj HL Ep. cbn in Hj. rewrite insert_insert_eq in Hj. apply lookup_insert_Some in Hj as [[<- <-]|[Hne Hj]]; [done|]. apply Hne. by apply (ni_listeners _ _ Hi i j s sj). }
  rewrite E3. unfold poll_ifaces, sm_modify. destruct (poll_ok _ _ Hi3) as (Hi4 & Hg4 & T4 & _).
  eexists (Ok tt), _, _. split_and!; [done|exact Hi4| |rewrite T4, T3; apply lookup_set_tcp|by apply settled_closed].
  etrans; [exact Hg2|]. by etrans.
Qed.
Lemma shutdown_safe i n s : net_inv None n → tcp_sockets n !! i = Some s → safe_at (shutdown i) n.
Proof.
  intros Hi Hs. destruct (unwrap_or_safe _ (Ok tt) n (shutdown_stream_safe i n s Hi Hs)) as (r & n1 & E1 & Hi1 & Hg1). eapply net_safe_bind; [exact E1|done|done|]. intros _ _.
  destruct (gr_tcp _ _ Hg1 i s Hs) as (s1 & Hs1 & _). destruct (unwrap_or_safe _ (Ok tt) n1 (shutdown_listener_safe i n1 s1 Hi1 Hs1)) as (r2 & n2 & E2 & Hi2 & Hg2).
  eapply net_safe_bind; [exact E2|done|done|]. intros _ _. by apply net_safe_ret.
Qed.

(** ** The other calls *)

Lemma poll_safe i n s : net_inv None n → tcp_sockets n !! i = Some s → safe_at (poll i) n.
Proof.
  intros Hi Hs. unfold poll. eapply net_safe_bind; [by apply tcp_get_eq|done|done|]. intros ? [= <-]. destruct (ni_tcp _ _ Hi i s Hs) as (_ & Hh & _ & Hl).
  destruct (Z.eqb_spec (ts_state s) STATE_CONNECTING) as [Hst|]. { destruct (Hh (or_introl Hst)) as [h Eh]. by eapply poll_connect_safe. }
  destruct (Z.eqb_spec (ts_state s) STATE_CONNECTED) as [Hst|].
  { destruct (Hh (or_intror Hst)) as [h Eh]. unfold poll_stream. eapply net_safe_bind; [by apply tcp_get_eq|done|done|]. intros ? [= <-]. rewrite Eh.
    apply with_tcp_ro_safe; [done|by eapply owned_kind]. }
  destruct (Z.eqb_spec (ts_state s) STATE_LISTENING) as [Hst|]; [|by apply net_safe_ret].
  destruct (Hl Hst) as [e He]. unfold poll_listener. eapply net_safe_bind; [by apply tcp_get_eq|done|done|]. intros ? [= <-].
  eapply net_safe_bind; [unfold table_can_accept; rewrite He; apply any_connected_eq; by eapply queue_kinds|done|done|]. intros b _. by apply net_safe_ret.
Qed.

(** One TCP object less: the others keep what they have. *)
Lemma inv_tcp_delete n i : net_inv None n → net_inv None (set_tcps (delete i (tcp_sockets n)) n).
Proof.
  intros [A B C D F G I]. assert (∀ o h, owns (set_tcps (delete i (tcp_sockets n)) n) o h → owns n o h) as Hown.
  { intros [j|j|q] h; cbn; [|done|done]. intros (x & Hx & Eh). apply lookup_delete_Some in Hx as [Hne Hx]. by exists x. }
  split; [eauto|eauto|done| | |done|].
  - cbn. intros j s [_ Hs]%lookup_delete_Some. exact (D j s Hs).
  - cbn. intros j k sj sk [_ Hj]%lookup_delete_Some [_ Hk]%lookup_delete_Some. by apply F.
  - intros j Hj. cbn. destruct (I j Hj) as [H1 H2]. split; [|done]. apply lookup_delete_None. by right.
Qed.
Lemma tcp_drop_ok i n s : net_inv None n → tcp_sockets n !! i = Some s →
  ∃ n', tcp_drop i n = Ret n' ∧ net_inv None n' ∧ grows (set_tcps (delete i (tcp_sockets n)) n) n'.
Proof.
  intros Hi Hs. destruct (shutdown_safe i n s Hi Hs) as (r & n1 & E1 & Hi1 & Hg1). unfold tcp_drop. rewrite E1. destruct (gr_tcp _ _ Hg1 i s Hs) as (s1 & Hs1 & _). rewrite Hs1.
  set (n2 := set_tcps (delete i (tcp_sockets n1)) n1). pose proof (inv_tcp_delete n1 i Hi1 : net_inv None n2) as Hi2.
  assert (grows (set_tcps (delete i (tcp_sockets n)) n) n2) as Hg2.
  { split; [|apply Hg1|apply Hg1]. cbn. intros j x [Hne Hx]%lookup_delete_Some. destruct (gr_tcp _ _ Hg1 j x Hx) as (x' & Hx' & E). exists x'. cbn. by rewrite lookup_delete_ne. }
  destruct (ts_handle s1) as [h|] eqn:Hh; [|by exists n2].
  destruct (remove_ok None n2 h KTcp Hi2) as (n3 & E3 & Hi3 & Hg3 & _); [exact (owned_kind _ _ _ _ _ Hi1 Hs1 Hh)|done| |exists n3; split_and!; [done|done|by etrans]].
  assert (owns n1 (OTcp i) h) as Ho by by exists s1. intros o Ho'.
  assert (owns n1 o h ∧ o ≠ OTcp i) as [Ho1 Hne].
  { destruct o as [j|j|q]; cbn in *; [|done|done]. destruct Ho' as (x & [Hne Hx]%lookup_delete_Some & Ex). split; [by exists x|congruence]. }
  by apply Hne, (ni_once _ _ Hi1 _ _ h).
Qed.

(** *** UDP *)

Definition set_udp (i : nat) (s : UdpSocket) (n : net) : net := set_udps (<[i := s]> (udp_sockets n)) n.
Lemma udp_get_eq {E} i n s : udp_sockets n !! i = Some s → udp_get (E := E) i n = Ret (Ok s, n).
Proof. intros Hs. unfold udp_get. by rewrite Hs. Qed.
Lemma udp_upd_eq {E} i f n s : udp_sockets n !! i = Some s → udp_upd (E := E) i f n = Ret (Ok tt, set_udp i (f s) n).
Proof. intros Hs. unfold udp_upd, sm_modify, set_udp. by rewrite (alter_at _ _ _ _ Hs). Qed.
Lemma inv_udp_set n i s s' : net_inv None n → udp_sockets n !! i = Some s → us_handle s' = us_handle s → net_inv None (set_udp i s' n) ∧ grows n (set_udp i s' n).
Proof.
  intros [A B C D F G I] Hs Hh. assert (∀ o h, owns (set_udp i s' n) o h → owns n o h) as Hown.
  { intros [j|j|q] h; cbn; [done| |done]. intros (x & Hx & Eh). apply lookup_insert_Some in Hx as [[<- <-]|[Hne Hx]]; [exists s; split; [done|congruence]|by exists x]. }
  split; [split; [eauto|eauto|done|done|done|done|]|split; [eauto| |done]].
  - intros j Hj. cbn. destruct (I j Hj) as [H1 H2]. split; [done|]. rewrite lookup_insert_ne; [done|congruence].
  - intros j x Hx. cbn. destruct (decide (i = j)) as [<-|Hne]; [rewrite lookup_insert_eq; simplify_eq; eauto|rewrite lookup_insert_ne by done; eauto].
Qed.
Lemma udp_upd_safe i n s f : net_inv None n → udp_sockets n !! i = Some s → us_handle (f s) = us_handle s → safe_at (udp_upd (E := AxError.t) i f) n.
Proof. intros Hi Hs Hf. unfold safe_at. rewrite (udp_upd_eq i f n s Hs). destruct (inv_udp_set n i s (f s) Hi Hs Hf). by eexists _, _. Qed.
Lemma udp_bind_safe i n s a : net_inv None n → udp_sockets n !! i = Some s → addr_ok a → safe_at (udp_bind_to i a) n.
Proof.
  intros Hi Hs Ha. assert (∃ p c, (if sa_port a =? 0 then udp_ephemeral_port else sm_ret (sa_port a) : M Z) n = Ret (Ok p, set_udp_curr c n) ∧ PORT_START ≤ c ≤ PORT_END ∧ is_port p) as (p & c & E & Hc & Hp).
  { pose proof (ni_curr _ _ Hi) as [_ Hcu]. destruct (sa_port a =? 0).
    - eexists _, _. split; [done|]. split; [by apply next_port_range|]. unfold is_port, PORT_START, PORT_END in *. lia.
    - exists (sa_port a), (UDP_CURR n). split; [by destruct n|]. split; [done|apply Ha]. }
  set (n1 := set_udp_curr c n). assert (net_inv None n1) as Hi1 by by apply inv_udp_curr. unfold udp_bind_to. eapply net_safe_bind; [exact E|done|by split; eauto|]. intros ? [= <-].
  eapply net_safe_bind; [by apply (udp_get_eq i n1 s Hs)|done|done|]. intros ? [= <-]. destruct (us_local_addr s); [by apply net_safe_ret|].
  destruct (addr_conv {| sa_ip := sa_ip a; sa_port := p |}) as (e & -> & _); [by split; [apply Ha|]|].
  apply safe_then; [apply with_udp_mut_safe; [done|by eapply (owned_udp_kind _ n1)]|]. intros _ n2 Hi2 Hg2.
  destruct (gr_udp _ _ Hg2 i s Hs) as (s2 & Hs2 & _). by apply (udp_upd_safe i n2 s2).
Qed.
Lemma udp_connect_safe i n s a : net_inv None n → udp_sockets n !! i = Some s → addr_ok a → safe_at (udp_connect i a) n.
Proof.
  intros Hi Hs Ha. unfold udp_connect. eapply net_safe_bind; [by apply udp_get_eq|done|done|]. intros ? [= <-]. destruct (addr_conv a Ha) as (e & -> & _).
  destruct (us_local_addr s).
  - eapply net_safe_bind; [done|done|done|]. intros _ _. by apply (udp_upd_safe i n s).
  - destruct (udp_bind_safe i n s (into_core_sockaddr UNSPECIFIED_ENDPOINT) Hi Hs) as (r & n1 & E & Hi1 & Hg1); [by split; [eexists|]|].
    eapply net_safe_bind; [exact E|done|done|]. intros _ _. destruct (gr_udp _ _ Hg1 i s Hs) as (s1 & Hs1 & _). by apply (udp_upd_safe i n1 s1).
Qed.
Lemma udp_shutdown_safe i n s : net_inv None n → udp_sockets n !! i = Some s → safe_at (udp_shutdown i) n.
Proof.
  intros Hi Hs. unfold udp_shutdown. eapply net_safe_bind; [by apply udp_get_eq|done|done|]. intros ? [= <-].
  apply safe_then; [apply with_udp_mut_safe; [done|by eapply owned_udp_kind]|]. intros _ n2 Hi2 Hg2.
  destruct (poll_ok _ _ Hi2) as (Hi3 & Hg3 & _). by eexists _, _.
Qed.
Lemma udp_poll_safe i n s : net_inv None n → udp_sockets n !! i = Some s → safe_at (udp_poll i) n.
Proof.
  intros Hi Hs. unfold udp_poll. eapply net_safe_bind; [by apply udp_get_eq|done|done|]. intros ? [= <-]. destruct (us_local_addr s); [|by apply net_safe_ret].
  apply with_udp_mut_safe; [done|by eapply owned_udp_kind].
Qed.
Lemma udp_new_safe n : net_inv None n → safe_at udp_socket_new n.
Proof.
  intros Hi. unfold udp_socket_new, safe_at, sm_bind, add. destruct (set_add _ _) as [h S'] eqn:Ha. destruct (add_kinds _ _ _ _ Ha) as (Hn & Hk & Hx).
  pose proof (free_fresh _ _ _ Hi Hn) as Hf. pose proof (inv_sockets _ _ _ Hx Hi) as Hi1. eexists _, _. split; [done|]. destruct Hi1 as [A B C D F G I]. cbn.
  destruct (I (next_id n) ltac:(cbn; lia)) as [_ Hnone]. cbn in Hnone. set (u := {| us_handle := h; us_local_addr := None; us_peer_addr := None; us_nonblock := false |}). set (m := <[next_id n := u]> (udp_sockets n)).
  assert (∀ o h', owns (set_udps m (set_sockets S' n)) o h' → owns n o h' ∨ o = OUdp (next_id n) ∧ h' = h) as Hown.
  { intros [j|j|p] h'; cbn; [by left| |by left]. intros (x & Hx' & Eh). apply lookup_insert_Some in Hx' as [[<- <-]|[Hne Hx']]; [by right|left; by exists x]. }
  split; [split|split].
  - intros o h' Ho. destruct (Hown o h' Ho) as [Ho'|[-> ->]]; [by apply A|done].
  - intros o1 o2 h' H1 H2. destruct (Hown _ _ H1) as [H1'|[-> ->]], (Hown _ _ H2) as [H2'|[-> E]]; [by apply (B _ _ h')|subst; by destruct (Hf o1)|by destruct (Hf o2)|done].
  - exact C.
  - exact D.
  - exact F.
  - exact G.
  - intros j Hj. cbn in *. destruct (I j ltac:(cbn; lia)) as [H1 H2]. split; [done|]. unfold m. rewrite lookup_insert_ne; [done|lia].
  - eauto.
  - intros j x Hx'. cbn in *. exists x. split; [|done]. unfold m. rewrite lookup_insert_ne; [done|congruence].
  - intros h'. cbn. apply Hx.
Qed.
Lemma udp_drop_ok i n s : net_inv None n → udp_sockets n !! i = Some s →
  ∃ n', udp_drop i n = Ret n' ∧ net_inv None n' ∧ grows (set_udps (delete i (udp_sockets n)) n) n'.
Proof.
  intros Hi Hs. destruct (udp_shutdown_safe i n s Hi Hs) as (r & n1 & E1 & Hi1 & Hg1). unfold udp_drop. rewrite E1. destruct (gr_udp _ _ Hg1 i s Hs) as (s1 & Hs1 & _). rewrite Hs1.
  set (n2 := set_udps (delete i (udp_sockets n1)) n1).
  assert (∀ o h, owns n2 o h → owns n1 o h ∧ o ≠ OUdp i) as Hown.
  { intros [j|j|q] h; cbn; [done| |done]. intros (x & [Hne Hx]%lookup_delete_Some & Eh). split; [by exists x|congruence]. }
  assert (net_inv None n2) as Hi2.
  { destruct Hi1 as [A B C D F G I]. split; [|  |done|done|done|done|].
    - intros o h [Ho _]%Hown. by apply A.
    - intros o1 o2 h [Ho1 _]%Hown [Ho2 _]%Hown. by apply (B _ _ h).
    - intros j Hj. cbn. destruct (I j Hj) as [H1 H2]. split; [done|]. apply lookup_delete_None. by right. }
  destruct (remove_ok None n2 (us_handle s1) KUdp Hi2) as (n3 & E3 & Hi3 & Hg3 & _); [exact (owned_udp_kind _ _ _ _ Hi1 Hs1)|done| |].
  { intros o [Ho Hne]%Hown. apply Hne, (ni_once _ _ Hi1 _ _ (us_handle s1) Ho). by exists s1. }
  exists n3. split_and!; [done|done|]. etrans; [|exact Hg3]. split; [apply Hg1| |apply Hg1]. cbn. intros j x [Hne Hx]%lookup_delete_Some.
  destruct (gr_udp _ _ Hg1 j x Hx) as (x' & Hx' & E). exists x'. cbn. by rewrite lookup_delete_ne.
Qed.
End safe.
