(* ===== verification/NetLocks.v ===== *)
(** The locks of the network module and the order they are taken in.

    The statics of [mod.rs], [listen_table.rs] and [tcp.rs] are behind mutexes: the socket
    set, the device, the interface, one lock for each port of the listen table, the
    cursor of the ephemeral ports.  Each function is the sequence of its acquisitions and
    releases; a task waits at an acquisition while another task has the lock.

    Calls that take locks in the order device, interface, socket set (or cursor), port
    never wait for each other in a circle ([ordered_calls_finish]).  [accept] and
    [shutdown] of a listener take the lock of a port and then the one of the socket set,
    and [connect] takes the one of the socket set and then the interface's: with a poll at
    the same time they wait for each other for ever ([net_lock_deadlock]). *)

From stdpp Require Import prelude list sets.
From Stdlib Require Import ZArith Lia.
From S2P Require Import Prelude.

Inductive lock : Type := LDev | LIface | LSet | LCurr | LPort (p : Z).
#[export] Instance lock_eq_dec : EqDecision lock.
Proof. solve_decision. Defined.
Inductive action : Type := Acquire (l : lock) | Release (l : lock).
#[export] Instance action_eq_dec : EqDecision action.
Proof. solve_decision. Defined.

(** ** What the functions lock *)

Definition with_lock (l : lock) (inner : list action) : list action := [Acquire l] ++ inner ++ [Release l].
(** [with_socket], [with_socket_mut], [add] and [remove]. *)
Definition socket_locks : list action := with_lock LSet [].
(** [InterfaceWrapper::poll]; [ports] are those of the first segments that arrive. *)
Definition poll_locks (ports : list Z) : list action :=
  with_lock LDev (with_lock LIface (with_lock LSet (flat_map (λ p, with_lock (LPort p) []) ports))).
(** [get_ephemeral_port] with the ports it tries. *)
Definition ephemeral_locks (ports : list Z) : list action := with_lock LCurr (flat_map (λ p, with_lock (LPort p) []) ports).
(** [ListenTable::listen]. *)
Definition listen_locks (p : Z) : list action := with_lock (LPort p) [].
(** [ListenTable::accept] and [can_accept], which look at [k] sockets of the queue, and
    [unlisten], which removes [k]. *)
Definition queue_locks (p : Z) (k : nat) : list action := with_lock (LPort p) (concat (replicate k socket_locks)).
(** [connect] and [start_query]: the interface within [with_socket_mut]. *)
Definition connect_locks : list action := with_lock LSet (with_lock LIface []).

(** ** Tasks that lock *)

Record lstate : Type := { ls_todo : list (list action); ls_held : list (lock * nat) }.
Inductive lstep : lstate → lstate → Prop :=
| step_acquire s i l rest : ls_todo s !! i = Some (Acquire l :: rest) → (∀ j, (l, j) ∉ ls_held s) →
    lstep s {| ls_todo := <[i := rest]> (ls_todo s); ls_held := (l, i) :: ls_held s |}
| step_release s i l rest : ls_todo s !! i = Some (Release l :: rest) →
    lstep s {| ls_todo := <[i := rest]> (ls_todo s); ls_held := filter (λ x, x ≠ (l, i)) (ls_held s) |}.
Definition lstart (tasks : list (list action)) : lstate := {| ls_todo := tasks; ls_held := [] |}.
Definition lreach (tasks : list (list action)) (s : lstate) : Prop := rtc lstep (lstart tasks) s.
Definition finished (s : lstate) : Prop := Forall (λ t, t = []) (ls_todo s).
Definition deadlocked (s : lstate) : Prop := ¬ finished s ∧ ∀ s', ¬ lstep s s'.

(** ** The order *)

Definition rank (l : lock) : nat := match l with LDev => 0 | LIface => 1 | LSet => 2 | LCurr => 3 | LPort _ => 4 end.
(** The actions take locks of rising rank, from the locks [h] held, and give all back. *)
Fixpoint ordered (h : list lock) (acts : list action) : bool :=
  match acts with
  | [] => bool_decide (h = [])
  | Acquire l :: acts => forallb (λ x, (rank x <? rank l)%nat) h && ordered (l :: h) acts
  | Release l :: acts => match h with x :: h => bool_decide (x = l) && ordered h acts | [] => false end
  end.

Lemma ordered_app a b : ∀ h, ordered h a = true → ordered [] b = true → ordered h (a ++ b) = true.
Proof.
  induction a as [|[l|l] a IH]; intros h Ha Hb; cbn in *.
  - apply bool_decide_eq_true in Ha. by subst.
  - apply andb_true_iff in Ha as [-> Ha]. by rewrite IH.
  - destruct h as [|x h]; [done|]. apply andb_true_iff in Ha as [-> Ha]. by rewrite IH.
Qed.
(** Actions that leave the locks held as they are. *)
Definition balanced (h : list lock) (a : list action) : Prop := ∀ b, ordered h b = true → ordered h (a ++ b) = true.
Lemma balanced_nil h : balanced h [].
Proof. by intros b. Qed.
Lemma balanced_app h a b : balanced h a → balanced h b → balanced h (a ++ b).
Proof. intros Ha Hb c Hc. rewrite <- app_assoc. by apply Ha, Hb. Qed.
Lemma balanced_lock h l a : forallb (λ x, (rank x <? rank l)%nat) h = true → balanced (l :: h) a → balanced h (with_lock l a).
Proof.
  intros Hr Ha b Hb. change (with_lock l a ++ b) with (Acquire l :: (a ++ [Release l]) ++ b). cbn [ordered]. rewrite Hr, <- app_assoc. apply Ha. cbn. by rewrite bool_decide_eq_true_2.
Qed.
Lemma balanced_flat {A} h (f : A → list action) l : (∀ x, balanced h (f x)) → balanced h (flat_map f l).
Proof. intros Hf. induction l as [|x l IH]; cbn; [apply balanced_nil|]. by apply balanced_app. Qed.
Lemma balanced_ordered a : balanced [] a → ordered [] a = true.
Proof. intros Ha. rewrite <- (app_nil_r a). by apply Ha. Qed.

Create HintDb locks.
#[export] Hint Resolve balanced_nil balanced_app balanced_lock balanced_flat : locks.
Lemma poll_balanced ports : balanced [] (poll_locks ports).
Proof. unfold poll_locks. auto 10 with locks. Qed.
Lemma ephemeral_balanced ports : balanced [] (ephemeral_locks ports).
Proof. unfold ephemeral_locks. auto 10 with locks. Qed.
Lemma socket_balanced : balanced [] socket_locks.
Proof. unfold socket_locks. auto with locks. Qed.
Lemma listen_balanced p : balanced [] (listen_locks p).
Proof. unfold listen_locks. auto with locks. Qed.

(** ** Progress *)

Definition held_by (s : lstate) (i : nat) : list lock := (filter (λ x, snd x = i) (ls_held s)).*1.
Record locks_ok (s : lstate) : Prop := {
  lo_ordered i acts : ls_todo s !! i = Some acts → ordered (held_by s i) acts = true;
  lo_task l i : (l, i) ∈ ls_held s → is_Some (ls_todo s !! i);
  lo_once : NoDup ((ls_held s).*1);
}.
Lemma held_by_elem s i l : l ∈ held_by s i ↔ (l, i) ∈ ls_held s.
Proof.
  unfold held_by. rewrite list_elem_of_fmap. split.
  - intros ([l' i'] & -> & [Hi H]%list_elem_of_filter). cbn in *. by subst.
  - intros H. exists (l, i). split; [done|]. by apply list_elem_of_filter.
Qed.

Lemma held_acquire s i l j rest : held_by {| ls_todo := rest; ls_held := (l, i) :: ls_held s |} j = if decide (i = j) then l :: held_by s j else held_by s j.
Proof. unfold held_by. cbn [ls_held]. rewrite filter_cons. cbn. by destruct (decide (i = j)). Qed.
Lemma held_release_other s i l j rest : i ≠ j → held_by {| ls_todo := rest; ls_held := filter (λ x, x ≠ (l, i)) (ls_held s) |} j = held_by s j.
Proof.
  intros Hij. unfold held_by. cbn [ls_held]. f_equal. rewrite list_filter_filter. apply list_filter_iff. intros [l' j']. cbn. split; [tauto|]. intros ->. split; [done|congruence].
Qed.
Lemma filter_keep {A} (P : A → Prop) `{∀ x, Decision (P x)} (l : list A) : (∀ x, x ∈ l → P x) → filter P l = l.
Proof. induction l as [|x l IH]; intros Hl; [done|]. rewrite filter_cons, decide_True by (apply Hl; by left). f_equal. apply IH. intros y Hy. apply Hl. by right. Qed.
Lemma held_release_self s i l h rest : NoDup ((ls_held s).*1) → held_by s i = l :: h → held_by {| ls_todo := rest; ls_held := filter (λ x, x ≠ (l, i)) (ls_held s) |} i = h.
Proof.
  unfold held_by. cbn [ls_held]. generalize (ls_held s) as hs. induction hs as [|[l' j] hs IH]; [done|]. cbn [fmap list_fmap fst]. intros [Hn Hnd]%NoDup_cons. rewrite !filter_cons. cbn [snd].
  destruct (decide (j = i)) as [->|Hj].
  - cbn [fmap list_fmap fst]. intros [= -> <-]. rewrite decide_False by tauto. f_equal. f_equal. apply filter_keep. intros [l' j'] Hin [= -> ->]. apply Hn. apply list_elem_of_fmap. by exists (l, i).
  - intros Hh. rewrite decide_True by congruence. rewrite filter_cons, decide_False by done. by apply IH.
Qed.

Lemma locks_ok_step s s' : locks_ok s → lstep s s' → locks_ok s'.
Proof.
  intros [A B C] Hstep. destruct Hstep as [s i l rest Hi Hfree|s i l rest Hi]; pose proof (A i _ Hi) as Ho; cbn in Ho.
  - apply andb_true_iff in Ho as [_ Ho]. split.
    + intros j acts Hj. rewrite held_acquire. cbn in Hj. destruct (decide (i = j)) as [<-|Hij]; [|rewrite list_lookup_insert_ne in Hj by done; by apply A].
      rewrite list_lookup_insert_eq in Hj by (by eapply lookup_lt_Some). by simplify_eq.
    + cbn. intros l' j [[= -> ->]|Hin]%elem_of_cons; [rewrite list_lookup_insert_eq by (by eapply lookup_lt_Some); eauto|].
      destruct (B l' j Hin) as [x Hx]. destruct (decide (i = j)) as [<-|Hij]; [rewrite list_lookup_insert_eq by (by eapply lookup_lt_Some); eauto|rewrite list_lookup_insert_ne by done; eauto].
    + cbn. apply NoDup_cons. split; [|done]. intros ([l' j] & -> & Hin)%list_elem_of_fmap. by apply (Hfree j).
  - destruct (held_by s i) as [|x h] eqn:Hh; [done|]. apply andb_true_iff in Ho as [Hx%bool_decide_eq_true Ho]. subst x. split.
    + intros j acts Hj. cbn in Hj. destruct (decide (i = j)) as [<-|Hij].
      * rewrite list_lookup_insert_eq in Hj by (by eapply lookup_lt_Some). simplify_eq. by rewrite (held_release_self s i l h).
      * rewrite list_lookup_insert_ne in Hj by done. rewrite held_release_other by done. by apply A.
    + cbn. intros l' j [_ Hin]%list_elem_of_filter. destruct (B l' j Hin) as [x Hx].
      destruct (decide (i = j)) as [<-|Hij]; [rewrite list_lookup_insert_eq by (by eapply lookup_lt_Some); eauto|rewrite list_lookup_insert_ne by done; eauto].
    + cbn. eapply sublist_NoDup; [exact C|]. apply fmap_sublist, sublist_filter.
Qed.
Lemma locks_ok_start tasks : Forall (λ t, ordered [] t = true) tasks → locks_ok (lstart tasks).
Proof.
  intros Ht. split; cbn; [|by intros l i ?%not_elem_of_nil|by apply NoDup_nil]. intros i acts Hi. rewrite Forall_forall in Ht. apply Ht. by eapply list_elem_of_lookup_2.
Qed.
Lemma locks_ok_steps n s s' : nsteps lstep n s s' → locks_ok s → locks_ok s'.
Proof. induction 1; eauto using locks_ok_step. Qed.

Lemma wants_above s i l acts x : locks_ok s → ls_todo s !! i = Some (Acquire l :: acts) → (x, i) ∈ ls_held s → (rank x < rank l)%nat.
Proof.
  intros Hok Hi Hx%held_by_elem. pose proof (lo_ordered _ Hok i _ Hi) as Ho. cbn in Ho. apply andb_true_iff in Ho as [Ho _]. rewrite forallb_forall in Ho. apply Nat.ltb_lt, Ho. by apply list_elem_of_In.
Qed.
Lemma holder_unfinished s i l : locks_ok s → (l, i) ∈ ls_held s → ∃ a acts, ls_todo s !! i = Some (a :: acts).
Proof.
  intros Hok Hl. destruct (lo_task _ Hok l i Hl) as [[|a acts] Ht]; [|eauto]. pose proof (lo_ordered _ Hok i _ Ht) as Ho. cbn in Ho. apply bool_decide_eq_true in Ho.
  apply held_by_elem in Hl. rewrite Ho in Hl. by apply not_elem_of_nil in Hl.
Qed.
(** From a task that waits, climb to one that can go on. *)
Lemma climb s : locks_ok s → ∀ k i l acts, ls_todo s !! i = Some (Acquire l :: acts) → (4 - rank l < k)%nat → ∃ s', lstep s s'.
Proof.
  intros Hok. induction k as [|k IH]; intros i l acts Hi Hk; [lia|]. destruct (decide (l ∈ (ls_held s).*1)) as [Hin|Hfree].
  - apply list_elem_of_fmap in Hin as ([x j] & -> & Hx). destruct (holder_unfinished s j x Hok Hx) as ([l'|l'] & acts' & Hj); [|eexists; by eapply step_release].
    pose proof (wants_above s j l' acts' x Hok Hj Hx). eapply (IH j l' acts' Hj). cbn in *. assert (rank l' ≤ 4)%nat by (destruct l'; cbn; lia). lia.
  - eexists. eapply step_acquire; [done|]. intros j Hj. apply Hfree, list_elem_of_fmap. by exists (l, j).
Qed.
Lemma ordered_progress s : locks_ok s → ¬ finished s → ∃ s', lstep s s'.
Proof.
  intros Hok Hf. unfold finished in Hf. rewrite Forall_lookup in Hf. 
  destruct (decide (Exists (λ t, t ≠ []) (ls_todo s))) as [He|He].
  - apply Exists_exists in He as (t & Hin & Ht). apply list_elem_of_lookup in Hin as [i Hi]. destruct t as [|[l|l] acts]; [done| |eexists; by eapply step_release].
    by apply (climb s Hok 5 i l acts Hi); destruct l; cbn; lia.
  - destruct Hf. intros i t Hi. destruct (decide (t = [])) as [|Hn]; [done|]. destruct He. apply Exists_exists. exists t. split; [by eapply list_elem_of_lookup_2|done].
Qed.

(** The number of actions left. *)
Definition total (todo : list (list action)) : nat := sum_list_with length todo.
Lemma total_insert todo i a rest : todo !! i = Some (a :: rest) → total todo = S (total (<[i := rest]> todo)).
Proof.
  revert i. induction todo as [|t todo IH]; intros [|i] Hi; cbn in Hi; simplify_eq; [done|].
  change (length t + total todo = S (length t + total (<[i := rest]> todo)))%nat. rewrite (IH i Hi). lia.
Qed.
Lemma total_steps n s s' : nsteps lstep n s s' → (n + total (ls_todo s') = total (ls_todo s))%nat.
Proof.
  induction 1 as [|n s1 s2 s3 Hstep _ IH]; [done|]. enough (total (ls_todo s1) = S (total (ls_todo s2))) by lia. destruct Hstep as [s i l rest Hi _|s i l rest Hi]; by eapply total_insert.
Qed.

(** ** Properties *)

(** A task that calls only what takes its locks in the order. *)
Definition tame (t : list action) : Prop :=
  ∃ calls, t = concat calls ∧ Forall (λ c, c = socket_locks ∨ (∃ ps, c = poll_locks ps) ∨ (∃ ps, c = ephemeral_locks ps) ∨ ∃ p, c = listen_locks p) calls.
Lemma tame_ordered t : tame t → ordered [] t = true.
Proof.
  intros (calls & -> & Hc). apply balanced_ordered. induction Hc as [|c calls Hc _ IH]; cbn; [apply balanced_nil|]. apply balanced_app; [|done].
  destruct Hc as [->|[[ps ->]|[[ps ->]|[p ->]]]]; auto using socket_balanced, poll_balanced, ephemeral_balanced, listen_balanced.
Qed.

(** C37: Tasks that only poll the network, use sockets, listen and look for ephemeral
    ports are never in a deadlock: in every state they reach one of them can go on or all
    have finished, and they make no more steps than they have locks to take and give. *)
Theorem ordered_calls_finish tasks n s :
  Forall tame tasks → nsteps lstep n (lstart tasks) s → (n ≤ total tasks)%nat ∧ (finished s ∨ ∃ s', lstep s s').
Proof.
  intros Ht Hs. split; [apply total_steps in Hs; cbn [lstart ls_todo] in Hs; lia|].
  assert (locks_ok s) as Hok. { eapply locks_ok_steps; [done|]. apply locks_ok_start. eapply Forall_impl; [done|]. apply tame_ordered. }
  destruct (decide (Forall (λ t, t = []) (ls_todo s))) as [Hf|Hf]; [by left|right; by apply ordered_progress].
Qed.

(** A state where each of two tasks waits for a lock of the other. *)
Lemma circle_deadlocked s l1 l2 a1 a2 : ls_todo s = [Acquire l1 :: a1; Acquire l2 :: a2] → (l1, 1%nat) ∈ ls_held s → (l2, 0%nat) ∈ ls_held s → deadlocked s.
Proof.
  intros Ht H1 H2. split.
  - unfold finished. rewrite Ht. intros Hf. by inversion Hf.
  - intros s' Hstep. destruct Hstep as [s i l rest Hi Hfree|s i l rest Hi]; rewrite Ht in Hi; destruct i as [|[|i]]; cbn in Hi; simplify_eq; [by apply (Hfree 1%nat)|by apply (Hfree 0%nat)].
Qed.

(** C38: An [accept], or the [shutdown] of a listener, that looks at a queued connection
    and a poll that receives the first segment of another connection to the same port can
    reach a state where each waits for the other for ever; so can a [connect] and a
    poll. *)
Theorem net_lock_deadlock p k :
  (∃ s, lreach [queue_locks p (S k); poll_locks [p]] s ∧ deadlocked s) ∧ ∃ s, lreach [connect_locks; poll_locks []] s ∧ deadlocked s.
Proof.
  assert (∀ s i l rest s', ls_todo s !! i = Some (Acquire l :: rest) → (∀ j, (l, j) ∉ ls_held s) →
    rtc lstep {| ls_todo := <[i := rest]> (ls_todo s); ls_held := (l, i) :: ls_held s |} s' → rtc lstep s s') as Hacq by (intros; eapply rtc_l; [by eapply step_acquire|done]).
  split; eexists; (split; [unfold lreach, lstart|]).
  - eapply (Hacq _ 0%nat); [reflexivity|set_solver|]. do 3 (eapply (Hacq _ 1%nat); [reflexivity|set_solver|]). apply rtc_refl.
  - eapply circle_deadlocked; [reflexivity|set_solver|set_solver].
  - eapply (Hacq _ 0%nat); [reflexivity|set_solver|]. do 2 (eapply (Hacq _ 1%nat); [reflexivity|set_solver|]). apply rtc_refl.
  - eapply circle_deadlocked; [reflexivity|set_solver|set_solver].
Qed.
