(* ===== verification/NetDemo.v ===== *)
(** A small protocol stack that satisfies the laws of [NetInv.v], and the theorems of
    [NetProps.v] and [NetLocks.v] at concrete states of it.

    A frame [[0; a; b; c; d; p]] is the first segment of a connection to port [p] of the
    address [a.b.c.d]; [[1; h]] completes the handshake of socket [h], [[2; h]] resets it
    and [[3; h; ...]] is a datagram for it. *)

From stdpp Require Import prelude gmap list.
From Stdlib Require Import ZArith Lia.
From S2P Require Import Prelude FdTable Net NetSockets NetInv NetSafe NetProps NetLocks.
Local Open Scope Z_scope.
Local Open Scope kernel_scope.

(** ** The instance *)

Record toy_tcp : Type := { tt_state : TcpState; tt_ends : option (IpEndpoint * IpEndpoint) }.
Definition toy_peer : IpEndpoint := {| ep_addr := (10, 0, 0, 2); ep_port := 4000 |}.
Definition toy_connect (r : IpEndpoint) (b : IpListenEndpoint) (t : toy_tcp) (i : unit) : result unit ConnectError * toy_tcp * unit :=
  match tt_state t with
  | Closed =>
      if (ep_port r =? 0) || (le_port b =? 0) then (Err ConnectUnaddressable, t, i)
      else (Ok tt, {| tt_state := SynSent; tt_ends := Some ({| ep_addr := default (10, 0, 0, 1) (le_addr b); ep_port := le_port b |}, r) |}, i)
  | _ => (Err ConnectInvalidState, t, i)
  end.
#[export] Instance toy_smoltcp : Smoltcp := {|
  tcp_socket := toy_tcp;
  tcp_new := {| tt_state := Closed; tt_ends := None |};
  tcp_listen := λ e t, (Ok tt, {| tt_state := Listen; tt_ends := None |});
  tcp_close := λ t, {| tt_state := FinWait1; tt_ends := tt_ends t |};
  tcp_state := tt_state;
  tcp_local_endpoint := λ t, fst <$> tt_ends t;
  tcp_remote_endpoint := λ t, snd <$> tt_ends t;
  tcp_is_active := λ t, true;
  tcp_may_recv := λ t, true;
  tcp_may_send := λ t, true;
  tcp_can_recv := λ t, false;
  tcp_can_send := λ t, true;
  tcp_recv_queue := λ t, 0;
  tcp_recv_slice := λ len t, (Ok [], t);
  tcp_send_slice := λ buf t, (Ok (Z.of_nat (length buf)), t);
  udp_socket := list (list Z * IpEndpoint);
  udp_new := [];
  udp_bind := λ e u, (Ok tt, u);
  udp_close := λ u, [];
  udp_can_recv := λ u, match u with [] => false | _ => true end;
  udp_can_send := λ u, true;
  udp_recv_slice := λ len u, match u with [] => (Err tt, u) | (b, e) :: u => (Ok (take (Z.to_nat len) b, e), u) end;
  udp_peek_slice := λ len u, match u with [] => Err tt | (b, e) :: u => Ok (take (Z.to_nat len) b, e) end;
  udp_send_slice := λ buf e u, (Ok tt, u);
  dns_socket := unit;
  dns_new := tt;
  query_handle := unit;
  dns_get_query_result := λ q d, (Err QueryPending, d);
  iface := unit;
  tcp_connect_op := toy_connect;
  dns_start_query := λ name d i, (Ok tt, d, i);
  ether_payload := λ f, match f with 0 :: p => Some p | _ => None end;
  ipv4_fields := λ p, match p with a :: b :: c :: d :: q => Some (true, (10, 0, 0, 2), (a, b, c, d), q) | _ => None end;
  tcp_fields := λ p, match p with [port] => Some (4000, port, true, false) | _ => None end;
|}.

(** A handshake, a reset or a datagram. *)
Definition toy_event (f : list Z) (s : AnySocket) : AnySocket :=
  match s with
  | STcp t =>
      match f with
      | 1 :: _ => STcp {| tt_state := Established; tt_ends := Some (default ({| ep_addr := (10, 0, 0, 1); ep_port := 80 |}, toy_peer) (tt_ends t)) |}
      | _ => STcp {| tt_state := Closed; tt_ends := None |}
      end
  | SUdp u => match f with 3 :: _ :: data => SUdp (u ++ [(data, toy_peer)]) | _ => SUdp u end
  | s => s
  end.
Definition toy_fresh (m : gmap nat AnySocket) : nat := foldr (λ k, Nat.max (S k)) 0%nat (map_to_list m).*1.
#[export] Instance toy_set : SmolSet := {|
  socket_set := gmap nat AnySocket;
  set_new := ∅;
  set_add := λ x m, (toy_fresh m, <[toy_fresh m := x]> m);
  set_get := λ m h, m !! h;
  set_put := λ h x m, <[h := x]> m;
  set_remove := λ h m, match m !! h with Some _ => Some (delete h m) | None => None end;
  iface_process := λ f i m, match f with k :: h :: _ => if (k =? 1) || (k =? 2) || (k =? 3) then (i, alter (toy_event f) (Z.to_nat h) m) else (i, m) | _ => (i, m) end;
  iface_egress := λ i m, (i, m);
|}.

Lemma toy_event_kind f s : kind_of (toy_event f s) = kind_of s.
Proof. destruct s; cbn; [| |done]; repeat case_match; done. Qed.
Lemma toy_fresh_none (m : gmap nat AnySocket) : m !! toy_fresh m = None.
Proof.
  destruct (m !! toy_fresh m) as [x|] eqn:E; [|done]. exfalso. assert (∀ (l : list nat) k, k ∈ l → k < foldr (λ k, Nat.max (S k)) 0 l)%nat as Hlt.
  { induction l as [|y l IH]; intros k Hk; [by apply not_elem_of_nil in Hk|]. cbn [foldr]. apply elem_of_cons in Hk as [->|Hk]; [lia|]. specialize (IH k Hk). lia. }
  apply (Nat.lt_irrefl (toy_fresh m)). apply Hlt. apply list_elem_of_fmap. exists (toy_fresh m, x). split; [done|]. by apply elem_of_map_to_list.
Qed.
#[export] Instance toy_laws : SmolLaws.
Proof.
  split.
  - intros h. apply lookup_empty.
  - intros x S h S' [= <- <-]. split; [apply toy_fresh_none|]. intros k. cbn [set_get toy_set]. case_bool_decide as E; [subst; by rewrite lookup_insert_eq|by rewrite lookup_insert_ne].
  - intros x S h k _. cbn. case_bool_decide as E; [subst; by rewrite lookup_insert_eq|by rewrite lookup_insert_ne].
  - intros S h [x Hx]. cbn in *. rewrite Hx. eexists. split; [done|]. intros k. case_bool_decide as E; [subst; by rewrite lookup_delete_eq|by rewrite lookup_delete_ne].
  - intros f i S i' S' h. cbn [iface_process toy_set]. destruct f as [|k [|g f]]; [by intros [= <- <-]..|]. destruct (_ || _); intros [= <- <-]; [|done].
    unfold kind_at. cbn [set_get toy_set]. destruct (decide (Z.to_nat g = h)) as [<-|Hn]; [|by rewrite lookup_alter_ne]. rewrite lookup_alter_eq.
    destruct ((S : gmap nat AnySocket) !! Z.to_nat g); cbn; [by rewrite toy_event_kind|done].
  - intros i S i' S' h [= <- <-]. done.
  - intros r b t i t' i' E. unfold tcp_connect_op, toy_smoltcp, toy_connect in E. destruct (tt_state t); try done. destruct (_ || _); [done|]. injection E as <- <-. by split; eexists.
Qed.

(** ** States *)

Definition eth : iface (Smoltcp := toy_smoltcp) := tt.

(** Calls that wait for no one, checked as they run. *)
Definition call_okb (c : net_call) (n : net) : bool :=
  match call_held c n with
  | Some (HTcp i) => match tcp_sockets n !! i with Some _ => true | None => false end
  | Some (HUdp i) => match udp_sockets n !! i with Some _ => true | None => false end
  | _ => true
  end &&
  match call_addr c with Some {| sa_ip := IpV4 _; sa_port := p |} => (0 <=? p) && (p <? 65536) | Some _ => false | None => true end &&
  match call_sched c with [] => true | _ => false end.
Lemma call_okb_ok c n : call_okb c n = true → call_ok c n.
Proof.
  unfold call_okb. intros [[H1 H2]%andb_true_iff H3]%andb_true_iff. split_and!.
  - intros i Hi. rewrite Hi in H1. destruct (tcp_sockets n !! i); [by eexists|done].
  - intros i Hi. rewrite Hi in H1. destruct (udp_sockets n !! i); [by eexists|done].
  - intros [[o|l] p] Ha; rewrite Ha in H2; [|done]. split; [by eexists|]. unfold is_port. cbn. apply andb_true_iff in H2 as [H2 H4]. lia.
  - intros o _. destruct (call_sched c); [constructor|done].
Qed.
Fixpoint run_ok (cs : list net_call) (n : net) : option net :=
  match cs with
  | [] => Some n
  | c :: cs => if call_okb c n then match run_call c n with Ret n => run_ok cs n | Panic => None end else None
  end.
Lemma run_ok_reach i rx cs : ∀ n n', net_reach i rx n → run_ok cs n = Some n' → net_reach i rx n'.
Proof.
  induction cs as [|c cs IH]; intros n n' Hr E; cbn in E; [by simplify_eq|]. destruct (call_okb c n) eqn:Hok; [|done]. destruct (run_call c n) as [n1|] eqn:E1; [|done].
  apply (IH n1); [|done]. eapply net_next; [done|by apply call_okb_ok|done].
Qed.

Definition any_addr (p : Z) : SocketAddr := {| sa_ip := IpV4 (0, 0, 0, 0); sa_port := p |}.
(** A server on port 80, not blocking, to which two clients connect; the handshake of the
    second one is complete. *)
Definition server_rx : list (list (list Z)) := [[[0; 10; 0; 0; 1; 80]; [0; 10; 0; 0; 1; 80]]; [[1; 1]]].
Definition server_calls : list net_call := [CallTcpNew; CallTcpBind 0 (any_addr 80); CallTcpListen 0; CallTcpNonblock 0 true; CallPoll; CallPoll].
Definition demo_net (cs : list net_call) (rx : list (list (list Z))) : net := default (net_init eth []) (run_ok cs (net_init eth rx)).
Lemma demo_reach cs rx : (if run_ok cs (net_init eth rx) is Some _ then true else false) = true → net_reach eth rx (demo_net cs rx).
Proof.
  intros H. unfold demo_net. destruct (run_ok cs (net_init eth rx)) as [n|] eqn:E; [|done]. eapply run_ok_reach; [apply net_start|done].
Qed.
Definition server : net := demo_net server_calls server_rx.
Lemma server_reach : net_reach eth server_rx server.
Proof. apply demo_reach. vm_compute. reflexivity. Qed.
Definition socket_of (n : net) (i : nat) : TcpSocket := default tcp_socket_new (tcp_sockets n !! i).

Lemma tcp_accept_first_witness : ∃ e, LISTEN_TABLE server !! 80 = Some e ∧ syn_queue e = [0; 1]%nat ∧
  ∃ n' q, accept 0 [] server = Ret (Ok (Some 1%nat), n') ∧ tcp_sockets n' !! 1%nat = Some (new_connected 1 {| ep_addr := (10, 0, 0, 1); ep_port := 80 |} toy_peer) ∧ q = [0%nat].
Proof.
  destruct (tcp_accept_first eth server_rx server 0 (socket_of server 0) [] server_reach) as (e & He & Hm); [vm_compute; reflexivity..|].
  assert (LISTEN_TABLE server !! 80 = Some {| listen_endpoint := {| le_addr := None; le_port := 80 |}; syn_queue := [0; 1]%nat |}) as He' by (vm_compute; reflexivity).
  assert (ep_port (ts_local_addr (socket_of server 0)) = 80) as Hp by (vm_compute; reflexivity). rewrite Hp in He.
  assert (e = {| listen_endpoint := {| le_addr := None; le_port := 80 |}; syn_queue := [0; 1]%nat |}) as -> by congruence.
  assert (list_find (λ h, connected_at server h = true) [0; 1]%nat = Some (1%nat, 1%nat)) as Hf by (vm_compute; reflexivity). cbn [syn_queue] in Hm. rewrite Hf in Hm.
  destruct (Hm {| ep_addr := (10, 0, 0, 1); ep_port := 80 |} toy_peer) as (n' & q & E & Ht & _ & _ & Hq & _); [vm_compute; reflexivity|].
  eexists. split; [exact He'|]. split; [reflexivity|]. exists n', q. assert (next_id server = 1%nat) as Hnext by (vm_compute; reflexivity). rewrite Hnext in E, Ht. split_and!; [exact E|rewrite Ht; apply lookup_insert_eq|exact Hq].
Defined.

(** A socket that is not bound yet. *)
Definition unbound : net := demo_net [CallTcpNew; CallTcpNew] [].
Lemma unbound_reach : net_reach eth [] unbound.
Proof. apply demo_reach. vm_compute. reflexivity. Qed.
Lemma bind_listen_serves_witness : net_reach eth [] unbound ∧
  ∃ n', (do! bind 0 (any_addr 80) in listen 0) unbound = Ret (Ok tt, n') ∧ LISTEN_TABLE n' !! 80 = Some (entry_new {| le_addr := None; le_port := 80 |}).
Proof.
  split; [exact unbound_reach|]. destruct (bind_listen_serves eth [] unbound 0 tcp_socket_new (0, 0, 0, 0) 80 unbound_reach) as (n' & E & _ & Ht & _); [vm_compute; reflexivity|reflexivity|reflexivity|lia|vm_compute; reflexivity|].
  exists n'. split; [exact E|exact Ht].
Defined.
Lemma ephemeral_port_found_witness : net_reach eth [] unbound ∧ ∃ p c, tcp_ephemeral_port unbound = Ret (Ok p, set_tcp_curr c unbound) ∧ PORT_START ≤ p ≤ PORT_END.
Proof.
  split; [exact unbound_reach|]. destruct (proj1 (ephemeral_port_found eth [] unbound unbound_reach)) as (p & c & E & Hp & _).
  - exists 49152. split; [unfold PORT_START, PORT_END; lia|]. vm_compute. reflexivity.
  - exists p, c. split; [exact E|exact Hp].
Defined.
(** Connecting to port 0 is refused by the stack. *)
Definition client : net := demo_net [CallTcpNew; CallTcpBind 0 (any_addr 3000)] [].
Lemma client_reach : net_reach eth [] client.
Proof. apply demo_reach. vm_compute. reflexivity. Qed.
Lemma connect_failure_leaks_witness : net_reach eth [] client ∧
  ∃ n' h, connect 0 (any_addr 0) [] client = Ret (Err AxError.ConnectionRefused, n') ∧ kind_at (SOCKET_SET client) h = None ∧ kind_at (SOCKET_SET n') h = Some KTcp ∧ free_handle n' h.
Proof.
  split; [exact client_reach|]. destruct (connect_failure_leaks eth [] client 0 (socket_of client 0) (0, 0, 0, 0) 0 [] client_reach) as (n' & h & E & _ & H); [vm_compute; reflexivity..|vm_compute; discriminate| |].
  - intros bound ifc. exists (tcp_new (Smoltcp := toy_smoltcp)), ifc. reflexivity.
  - exists n', h. split; [exact E|exact H].
Defined.
Lemma ordered_calls_finish_witness : nsteps lstep 1 (lstart [poll_locks [80]; socket_locks]) {| ls_todo := [tail (poll_locks [80]); socket_locks]; ls_held := [(LDev, 0%nat)] |} ∧
  ∃ s', lstep {| ls_todo := [tail (poll_locks [80]); socket_locks]; ls_held := [(LDev, 0%nat)] |} s'.
Proof.
  assert (nsteps lstep 1 (lstart [poll_locks [80]; socket_locks]) {| ls_todo := [tail (poll_locks [80]); socket_locks]; ls_held := [(LDev, 0%nat)] |}) as Hs.
  { eapply nsteps_l; [|apply nsteps_O]. apply (step_acquire (lstart [poll_locks [80]; socket_locks]) 0 LDev); [reflexivity|]. intros j Hj. by apply not_elem_of_nil in Hj. }
  assert (Forall tame [poll_locks [80]; socket_locks]) as Ht.
  { constructor; [exists [poll_locks [80]]; split; [reflexivity|constructor; [right; left; by eexists|constructor]]|]. constructor; [|constructor]. exists [socket_locks]. split; [reflexivity|]. constructor; [by left|constructor]. }
  split; [exact Hs|]. destruct (ordered_calls_finish _ _ _ Ht Hs) as [_ [Hf|Hstep]]; [|exact Hstep]. exfalso. inversion Hf as [|? ? Hn]. discriminate Hn.
Defined.

(** ** What goes wrong *)

(** A peer that resets its connection before [accept] makes [accept] panic. *)
Definition reset_rx : list (list (list Z)) := [[[0; 10; 0; 0; 1; 80]]; [[1; 0]]; [[2; 0]]].
Example accept_reset_panics : (if run_ok (server_calls ++ [CallPoll]) (net_init eth reset_rx) is Some n then run_call (CallTcpAccept 0 []) n else Ret (net_init eth [])) = Panic.
Proof. vm_compute. reflexivity. Qed.
(** A task that waits in [connect] undoes what another task does with the socket: after
    the connection is refused, the other task finds the socket closed, binds it and
    listens; the waiting one then marks it closed, and its port stays taken. *)
Definition ret_net (o : outcome net) (n : net) : net := match o with Ret n => n | Panic => n end.
Definition other_task (n : net) : net :=
  let n := poll_interfaces n in
  let n := ret_net (run_call (CallTcpPoll 0) n) n in
  let n := ret_net (run_call (CallTcpBind 0 (any_addr 80)) n) n in
  ret_net (run_call (CallTcpListen 0) n) n.
Definition refused : outcome (result (option unit) AxError.t * net) :=
  connect 0 {| sa_ip := IpV4 (10, 0, 0, 2); sa_port := 80 |} [other_task] (demo_net [CallTcpNew] [[]; [[2; 0]]]).
Example connect_undoes_listen : match refused with
  | Ret (r, n) => (r, ts_state (socket_of n 0), bool_decide (LISTEN_TABLE n !! 80 = None)) = (Err AxError.ConnectionRefused, STATE_CLOSED, false)
  | Panic => False
  end.
Proof. vm_compute. reflexivity. Qed.
