(* ===== verification/PosixNet.v ===== *)
(** Sockets behind file descriptors ([arceos_posix_api/src/imp/net.rs]): the socket calls
    over the descriptor table of [FdTable.v] and the network of [NetSockets.v].

    The files are [SockFl], a socket or a file of another kind.  The state has the
    network and, for each socket object, the references that descriptors share through an
    [Arc]; the last one drops the object.  A call runs here without another task: one that
    waits is written as no result ([Panic]), and the theorems are about sockets in
    nonblocking mode, which never wait.  [sys_getaddrinfo], whose result is a linked list
    in memory, is not modelled. *)

From stdpp Require Import prelude gmap list.
From Stdlib Require Import ZArith Lia.
From S2P Require Import Prelude FdTable Net NetSockets NetInv NetSafe NetProps.
Local Open Scope Z_scope.
Local Open Scope kernel_scope.

(** ** Socket addresses *)

Definition AF_INET : Z := 2.
Definition SOCK_STREAM : Z := 1.
Definition SOCK_DGRAM : Z := 2.
Definition IPPROTO_TCP : Z := 6.
Definition IPPROTO_UDP : Z := 17.
(** [size_of::<ctypes::sockaddr>()]. *)
Definition SOCKADDR_LEN : Z := 16.

(** [ctypes::sockaddr_in]; a [sockaddr] is the same sixteen bytes. *)
Record sockaddr_in : Type := { sin_family : Z; sin_port : Z; s_addr : Z }.
(** [u16::to_be] and [u16::from_be] of a little-endian machine. *)
Definition swap16 (x : Z) : Z := (x mod 256) * 256 + x / 256.
(** [u32::from_ne_bytes] and [to_ne_bytes]. *)
Definition from_ne_bytes (o : octets) : Z := match o with (a, b, c, d) => a + b * 2 ^ 8 + c * 2 ^ 16 + d * 2 ^ 24 end.
Definition to_ne_bytes (x : Z) : octets := (x mod 256, x / 2 ^ 8 mod 256, x / 2 ^ 16 mod 256, x / 2 ^ 24 mod 256).
Definition sockaddr_in_from (o : octets) (port : Z) : sockaddr_in := {| sin_family := AF_INET; sin_port := swap16 port; s_addr := from_ne_bytes o |}.
Definition SocketAddrV4_from (a : sockaddr_in) : SocketAddr := {| sa_ip := IpV4 (to_ne_bytes (s_addr a)); sa_port := swap16 (sin_port a) |}.
Definition into_sockaddr (a : SocketAddr) : outcome (sockaddr_in * Z) :=
  match sa_ip a with IpV4 o => Ret (sockaddr_in_from o (sa_port a), SOCKADDR_LEN) | IpV6 _ => Panic end.
Definition from_sockaddr (addr : option sockaddr_in) (addrlen : Z) : result SocketAddr LinuxError.t :=
  match addr with
  | None => Err LinuxError.EFAULT
  | Some mid =>
      if negb (addrlen =? SOCKADDR_LEN) then Err LinuxError.EINVAL
      else if negb (sin_family mid =? AF_INET) then Err LinuxError.EINVAL
      else Ok (SocketAddrV4_from mid)
  end.

Section posix_net.
Context {smoltcp : Smoltcp} {smolset : SmolSet} {errnos : AxErrno}.
Context {O WO : Type} {other : FileLike O WO}.

(** ** Sockets *)

(** [Socket], by the number of its object. *)
Inductive SockFl : Type :=
| SockTcp (i : nat)
| SockUdp (i : nat)
| NotSock (f : O).
Record sworld : Type := { sw_net : net; sw_tcp : gmap nat nat; sw_udp : gmap nat nat; sw_other : WO }.
Definition set_net (n : net) (w : sworld) : sworld := {| sw_net := n; sw_tcp := sw_tcp w; sw_udp := sw_udp w; sw_other := sw_other w |}.
Definition set_tcp_refs (m : gmap nat nat) (w : sworld) : sworld := {| sw_net := sw_net w; sw_tcp := m; sw_udp := sw_udp w; sw_other := sw_other w |}.
Definition set_udp_refs (m : gmap nat nat) (w : sworld) : sworld := {| sw_net := sw_net w; sw_tcp := sw_tcp w; sw_udp := m; sw_other := sw_other w |}.
Definition set_other (o : WO) (w : sworld) : sworld := {| sw_net := sw_net w; sw_tcp := sw_tcp w; sw_udp := sw_udp w; sw_other := o |}.
Abbreviation W := (SM sworld LinuxError.t).
(** A call of the network module, its error turned into an error number by [?]. *)
Definition on_net {A} (m : SM net AxError.t A) : W A := λ w,
  match m (sw_net w) with Ret (r, n) => Ret (map_err linux_of_ax r, set_net n w) | Panic => Panic end.
(** One that may wait. *)
Definition await {A} (m : SM net AxError.t (option A)) : W A := let! r := on_net m in match r with Some a => sm_ret a | None => sm_panic end.
Definition on_other {A} (m : SM WO LinuxError.t A) : W A := λ w,
  match m (sw_other w) with Ret (r, o) => Ret (r, set_other o w) | Panic => Panic end.

(** [TcpSocket] or [UdpSocket] of a [Socket]. *)
Inductive sock : Type := Tcp (i : nat) | Udp (i : nat).
Definition sock_send (s : sock) (buf : list Z) : W Z := match s with Udp i => await (udp_send i buf []) | Tcp i => await (send i buf []) end.
Definition sock_recv (s : sock) (len : Z) : W (list Z) :=
  match s with Udp i => let! r := await (recv_from i len []) in sm_ret (fst r) | Tcp i => await (recv i len []) end.
Definition sock_poll (s : sock) : W PollState := match s with Udp i => on_net (udp_poll i) | Tcp i => on_net (poll i) end.
Definition sock_local_addr (s : sock) : W SocketAddr := match s with Udp i => on_net (udp_local_addr i) | Tcp i => on_net (tcp_local_addr i) end.
Definition sock_peer_addr (s : sock) : W SocketAddr := match s with Udp i => on_net (udp_peer_addr i) | Tcp i => on_net (tcp_peer_addr i) end.
Definition sock_bind (s : sock) (a : SocketAddr) : W unit := match s with Udp i => on_net (udp_bind_to i a) | Tcp i => on_net (bind i a) end.
Definition sock_connect (s : sock) (a : SocketAddr) : W unit := match s with Udp i => on_net (udp_connect i a) | Tcp i => await (connect i a []) end.
Definition sock_sendto (s : sock) (buf : list Z) (a : SocketAddr) : W Z :=
  match s with Udp i => await (send_to i buf a []) | Tcp _ => sm_err LinuxError.EISCONN end.
Definition sock_recvfrom (s : sock) (len : Z) : W (list Z * option SocketAddr) :=
  match s with
  | Udp i => let! r := await (recv_from i len []) in sm_ret (fst r, Some (snd r))
  | Tcp i => let! r := await (recv i len []) in sm_ret (r, None)
  end.
Definition sock_listen (s : sock) : W unit := match s with Udp _ => sm_err LinuxError.EOPNOTSUPP | Tcp i => on_net (listen i) end.
Definition sock_accept (s : sock) : W nat := match s with Udp _ => sm_err LinuxError.EOPNOTSUPP | Tcp i => await (accept i []) end.
Definition sock_shutdown (s : sock) : W unit :=
  match s with
  | Udp i => do! on_net (udp_peer_addr i) in on_net (udp_shutdown i)
  | Tcp i => do! on_net (tcp_peer_addr i) in on_net (shutdown i)
  end.
Definition sock_set_nonblocking (s : sock) (b : bool) : W unit :=
  match s with Udp i => on_net (udp_set_nonblocking i b) | Tcp i => on_net (tcp_set_nonblocking i b) end.

(** ** [FileLike for Socket] *)

Definition as_sock (f : SockFl) : sock + O := match f with SockTcp i => inl (Tcp i) | SockUdp i => inl (Udp i) | NotSock o => inr o end.
Definition sf_read (f : SockFl) (len : Z) : W (list Z) := match as_sock f with inl s => sock_recv s len | inr o => on_other (fl_read o len) end.
Definition sf_write (f : SockFl) (buf : list Z) : W Z := match as_sock f with inl s => sock_send s buf | inr o => on_other (fl_write o buf) end.
Definition sock_stat : stat :=
  {| st_ino := 1; st_nlink := 1; st_mode := Z.lor 0xc000 0x1ff; st_uid := 1000; st_gid := 1000; st_size := 0; st_blocks := 0; st_blksize := 4096 |}.
Definition sf_stat (f : SockFl) : W stat := match as_sock f with inl _ => sm_ret sock_stat | inr o => on_other (fl_stat o) end.
Definition sf_poll (f : SockFl) : W PollState := match as_sock f with inl s => sock_poll s | inr o => on_other (fl_poll o) end.
Definition sf_set_nonblocking (f : SockFl) (b : bool) : W unit := match as_sock f with inl s => sock_set_nonblocking s b | inr o => on_other (fl_set_nonblocking o b) end.
Definition sf_clone (f : SockFl) (w : sworld) : sworld :=
  match f with
  | SockTcp i => set_tcp_refs (alter S i (sw_tcp w)) w
  | SockUdp i => set_udp_refs (alter S i (sw_udp w)) w
  | NotSock o => set_other (fl_clone o (sw_other w)) w
  end.
(** The last reference drops the object. *)
Definition drop_with (d : net → outcome net) (w : sworld) : sworld := match d (sw_net w) with Ret n => set_net n w | Panic => w end.
Definition sf_drop (f : SockFl) (w : sworld) : sworld :=
  match f with
  | SockTcp i => match sw_tcp w !! i with
                 | Some (S (S k)) => set_tcp_refs (<[i := S k]> (sw_tcp w)) w
                 | Some _ => drop_with (tcp_drop i) (set_tcp_refs (delete i (sw_tcp w)) w)
                 | None => w
                 end
  | SockUdp i => match sw_udp w !! i with
                 | Some (S (S k)) => set_udp_refs (<[i := S k]> (sw_udp w)) w
                 | Some _ => drop_with (udp_drop i) (set_udp_refs (delete i (sw_udp w)) w)
                 | None => w
                 end
  | NotSock o => set_other (fl_drop o (sw_other w)) w
  end.
#[export] Instance sock_like : FileLike SockFl sworld := {|
  fl_read := sf_read; fl_write := sf_write; fl_stat := sf_stat; fl_poll := sf_poll; fl_set_nonblocking := sf_set_nonblocking; fl_clone := sf_clone; fl_drop := sf_drop |}.

(** ** The calls *)

Context {table : FlattenObjects SockFl}.
Abbreviation state := (posix SockFl sworld).
Abbreviation P := (SM state LinuxError.t).

Definition add_to_fd_table (s : sock) : P Z := λ p,
  let w := px_world p in
  match s with
  | Tcp i => add_file_like (SockTcp i) (set_world (set_tcp_refs (<[i := 1%nat]> (sw_tcp w)) w) p)
  | Udp i => add_file_like (SockUdp i) (set_world (set_udp_refs (<[i := 1%nat]> (sw_udp w)) w) p)
  end.
Definition from_fd (fd : Z) : P sock :=
  let! f := get_file_like fd in match as_sock f with inl s => sm_ret s | inr _ => sm_err LinuxError.EINVAL end.

Definition sys_socket (domain socktype protocol : Z) : state → outcome (Z * state) := syscall_body (
  let domain := domain mod 2 ^ 32 in
  let socktype := socktype mod 2 ^ 32 in
  let protocol := protocol mod 2 ^ 32 in
  if (domain =? AF_INET) && (socktype =? SOCK_STREAM) && ((protocol =? IPPROTO_TCP) || (protocol =? 0)) then
    let! i := on_world (on_net (tcp_place tcp_socket_new)) in add_to_fd_table (Tcp i)
  else if (domain =? AF_INET) && (socktype =? SOCK_DGRAM) && ((protocol =? IPPROTO_UDP) || (protocol =? 0)) then
    let! i := on_world (on_net udp_socket_new) in add_to_fd_table (Udp i)
  else sm_err LinuxError.EINVAL).
Definition sys_bind (fd : Z) (addr : option sockaddr_in) (addrlen : Z) : state → outcome (Z * state) := syscall_body (
  let! a := sm_lift (from_sockaddr addr addrlen) in
  let! s := from_fd fd in
  do! on_world (sock_bind s a) in sm_ret 0).
Definition sys_connect (fd : Z) (addr : option sockaddr_in) (addrlen : Z) : state → outcome (Z * state) := syscall_body (
  let! a := sm_lift (from_sockaddr addr addrlen) in
  let! s := from_fd fd in
  do! on_world (sock_connect s a) in sm_ret 0).
Definition sys_sendto (fd : Z) (buf : option (list Z)) (addr : option sockaddr_in) (addrlen : Z) : state → outcome (Z * state) := syscall_body (
  match buf with
  | None => sm_err LinuxError.EFAULT
  | Some buf =>
      let! a := sm_lift (from_sockaddr addr addrlen) in
      let! s := from_fd fd in
      on_world (sock_sendto s buf a)
  end).
Definition sys_send (fd : Z) (buf : option (list Z)) : state → outcome (Z * state) := syscall_body (
  match buf with None => sm_err LinuxError.EFAULT | Some buf => let! s := from_fd fd in on_world (sock_send s buf) end).
(** What the calls store beside the value they return: the bytes received, the address. *)
Definition with_out {A} (m : P (Z * A)) (nothing : A) : state → outcome (Z * A * state) := λ p,
  match m p with
  | Ret (Ok (v, a), p) => Ret (v, a, p)
  | Ret (Err e, p) => Ret (- errno e, nothing, p)
  | Panic => Panic
  end.
Definition store_addr (a : SocketAddr) : P (sockaddr_in * Z) := λ p, match into_sockaddr a with Ret x => Ret (Ok x, p) | Panic => Panic end.
Definition sys_recvfrom (fd : Z) (buf socket_addr addrlen : option unit) (len : Z) : state → outcome (Z * (list Z * option (sockaddr_in * Z)) * state) := with_out (
  match buf, socket_addr, addrlen with
  | Some _, Some _, Some _ =>
      let! s := from_fd fd in
      let! res := on_world (sock_recvfrom s len) in
      match snd res with
      | Some a => let! x := store_addr a in sm_ret (Z.of_nat (length (fst res)), (fst res, Some x))
      | None => sm_ret (Z.of_nat (length (fst res)), (fst res, None))
      end
  | _, _, _ => sm_err LinuxError.EFAULT
  end) ([], None).
Definition sys_recv (fd : Z) (buf : option unit) (len : Z) : state → outcome (Z * list Z * state) := with_out (
  match buf with
  | None => sm_err LinuxError.EFAULT
  | Some _ => let! s := from_fd fd in let! data := on_world (sock_recv s len) in sm_ret (Z.of_nat (length data), data)
  end) [].
Definition sys_listen (fd : Z) : state → outcome (Z * state) := syscall_body (
  let! s := from_fd fd in do! on_world (sock_listen s) in sm_ret 0).
(** The accepted socket is dropped when its address cannot be had. *)
Definition peer_or_drop (i : nat) : P SocketAddr := λ p,
  match on_world (on_net (tcp_peer_addr i)) p with
  | Ret (Err e, p) => Ret (Err e, set_world (drop_with (tcp_drop i) (px_world p)) p)
  | o => o
  end.
Definition sys_accept (fd : Z) (socket_addr socket_len : option unit) : state → outcome (Z * option (sockaddr_in * Z) * state) := with_out (
  match socket_addr, socket_len with
  | Some _, Some _ =>
      let! s := from_fd fd in
      let! i := on_world (sock_accept s) in
      let! a := peer_or_drop i in
      let! new_fd := add_to_fd_table (Tcp i) in
      let! x := store_addr a in
      sm_ret (new_fd, Some x)
  | _, _ => sm_err LinuxError.EFAULT
  end) None.
Definition sys_shutdown (fd : Z) : state → outcome (Z * state) := syscall_body (
  let! s := from_fd fd in do! on_world (sock_shutdown s) in sm_ret 0).
(** [addrlen] has the length of the caller's buffer. *)
Definition sys_getsockname (fd : Z) (addr : option unit) (addrlen : option Z) : state → outcome (Z * option (sockaddr_in * Z) * state) := with_out (
  match addr, addrlen with
  | Some _, Some len =>
      if len <? SOCKADDR_LEN then sm_err LinuxError.EINVAL
      else
        let! s := from_fd fd in
        let! a := on_world (sock_local_addr s) in
        let! x := store_addr a in sm_ret (0, Some x)
  | _, _ => sm_err LinuxError.EFAULT
  end) None.
Definition sys_getpeername (fd : Z) (addr : option unit) (addrlen : option Z) : state → outcome (Z * option (sockaddr_in * Z) * state) := with_out (
  match addr, addrlen with
  | Some _, Some len =>
      if len <? SOCKADDR_LEN then sm_err LinuxError.EINVAL
      else
        let! s := from_fd fd in
        let! a := on_world (sock_peer_addr s) in
        let! x := store_addr a in sm_ret (0, Some x)
  | _, _ => sm_err LinuxError.EFAULT
  end) None.
End posix_net.
Arguments SockFl O : clear implicits.
Arguments sworld {smoltcp smolset} WO.
