(* ===== verification/PosixNetProps.v ===== *)
(** The socket calls of [PosixNet.v]: addresses survive the way to user space and back
    ([sockaddr_roundtrip]), and the descriptors, the references they share and the socket
    objects stay consistent under every call ([socket_calls_safe]). *)

From stdpp Require Import prelude gmap list.
From Stdlib Require Import ZArith Lia.
From S2P Require Import Prelude FdTable Net NetSockets NetInv NetSafe NetProps PosixNet.
Local Open Scope Z_scope.
Local Open Scope kernel_scope.

(** ** Addresses *)

Definition octets_ok (o : octets) : Prop := match o with (a, b, c, d) => 0 ≤ a < 256 ∧ 0 ≤ b < 256 ∧ 0 ≤ c < 256 ∧ 0 ≤ d < 256 end.
Lemma swap16_twice x : 0 ≤ x < 65536 → swap16 (swap16 x) = x ∧ 0 ≤ swap16 x < 65536.
Proof.
  intros Hx. unfold swap16. pose proof (Z.mod_pos_bound x 256). assert (x / 256 < 256) by (apply Z.div_lt_upper_bound; lia). assert (0 ≤ x / 256) by (apply Z.div_pos; lia).
  rewrite (Z.add_comm (x mod 256 * 256)), Z.mod_add, Z.div_add by lia. rewrite (Z.mod_small (x / 256)), (Z.div_small (x / 256)) by lia. pose proof (Z.div_mod x 256). lia.
Qed.
Lemma ne_bytes_roundtrip o : octets_ok o → to_ne_bytes (from_ne_bytes o) = o.
Proof.
  destruct o as [[[a b] c] d]. intros (Ha & Hb & Hc & Hd). unfold to_ne_bytes, from_ne_bytes.
  assert (∀ x r, 0 ≤ r < 256 → (r + x * 256) mod 256 = r ∧ (r + x * 256) / 256 = x) as Hd256.
  { intros x r Hr. rewrite Z.mod_add, Z.div_add, Z.mod_small, Z.div_small by lia. lia. }
  set (x := a + b * 2 ^ 8 + c * 2 ^ 16 + d * 2 ^ 24).
  assert (x = a + (b + (c + d * 256) * 256) * 256) as Hx by (unfold x; lia).
  assert (x / 2 ^ 8 = b + (c + d * 256) * 256) as H8 by (rewrite Hx; apply (Hd256 _ a); lia).
  assert (x / 2 ^ 16 = c + d * 256) as H16. { change (2 ^ 16) with (2 ^ 8 * 256). rewrite <- Z.div_div, H8 by lia. apply (Hd256 _ b). lia. }
  assert (x / 2 ^ 24 = d) as H24. { change (2 ^ 24) with (2 ^ 16 * 256). rewrite <- Z.div_div, H16 by lia. apply (Hd256 _ c). lia. }
  rewrite H8, H16, H24, Hx. rewrite (proj1 (Hd256 _ a Ha)), (proj1 (Hd256 _ b Hb)), (proj1 (Hd256 _ c Hc)), (Z.mod_small d) by lia. done.
Qed.
Lemma from_sockaddr_ok addr len a : from_sockaddr addr len = Ok a → (∀ x, addr = Some x → 0 ≤ sin_port x < 65536) → addr_ok a.
Proof.
  unfold from_sockaddr. destruct addr as [m|]; [|done]. destruct (negb _); [done|]. destruct (negb _); [done|]. intros [= <-] Hp. split; [by eexists|]. apply swap16_twice. by apply Hp.
Qed.

(** An IPv4 address stored to user memory by a call is the same address when a later
    call reads it from there; anything but sixteen bytes of the family [AF_INET] is
    refused. *)
Theorem sockaddr_roundtrip o port : octets_ok o → 0 ≤ port < 65536 →
  ∃ sa len, into_sockaddr {| sa_ip := IpV4 o; sa_port := port |} = Ret (sa, len) ∧ from_sockaddr (Some sa) len = Ok {| sa_ip := IpV4 o; sa_port := port |} ∧
    ∀ sa' len', is_ok (from_sockaddr sa' len') = true ↔ len' = len ∧ ∃ x, sa' = Some x ∧ sin_family x = sin_family sa.
Proof.
  intros Ho Hp. eexists _, _. split; [done|]. split.
  - cbn. unfold SocketAddrV4_from. cbn. by rewrite ne_bytes_roundtrip, (proj1 (swap16_twice port Hp)).
  - intros sa' len'. unfold from_sockaddr. destruct sa' as [m|]; [|split; [done|by intros (_ & x & ? & _)]].
    destruct (Z.eqb_spec len' SOCKADDR_LEN) as [->|]; cbn [negb]; [|by split; [|intros (? & _)]].
    destruct (Z.eqb_spec (sin_family m) AF_INET) as [E|]; cbn; [split; [|done]; intros _; split; [done|by exists m]|]. split; [done|]. intros (_ & x & [= <-] & ?). done.
Qed.

(** ** References *)

Section sock_refs.
Context {smoltcp : Smoltcp} {smolset : SmolSet} {laws : SmolLaws} {errnos : AxErrno} {elaws : AxErrnoLaws}.
Context {O WO : Type} {oeq : EqDecision O} {other : FileLike O WO}.
Context {table : FlattenObjects (SockFl O)} {tlaws : FlattenLaws AX_FILE_LIMIT}.
(** The references to the other kinds of files. *)
Context (ocount : O → WO → Z).
Context (ocount_clone : ∀ f g w, 0 < ocount f w → ocount g (fl_clone f w) = ocount g w + (if decide (f = g) then 1 else 0)).
Context (ocount_drop : ∀ f g w, 0 < ocount f w → ocount g (fl_drop f w) = ocount g w - (if decide (f = g) then 1 else 0)).
Abbreviation obj := (SockFl O).
Abbreviation world := (sworld WO).
Implicit Types (w : world) (p : posix obj world).

#[local] Instance sock_eq_dec : EqDecision obj.
Proof. solve_decision. Defined.

Definition sk_count (o : obj) w : Z :=
  match o with
  | SockTcp i => Z.of_nat (default 0%nat (sw_tcp w !! i))
  | SockUdp i => Z.of_nat (default 0%nat (sw_udp w !! i))
  | NotSock o => ocount o (sw_other w)
  end.
Record world_ok w : Prop := {
  wk_net : net_inv None (sw_net w);
  wk_tcp i k : sw_tcp w !! i = Some k → (0 < k)%nat ∧ is_Some (tcp_sockets (sw_net w) !! i);
  wk_udp i k : sw_udp w !! i = Some k → (0 < k)%nat ∧ is_Some (udp_sockets (sw_net w) !! i);
}.
Record sock_ok p : Prop := { so_world : world_ok (px_world p); so_counted : refs_counted sk_count p }.

Lemma refs_alter (m : gmap nat nat) i j k : m !! i = Some k → Z.of_nat (default 0%nat (alter S i m !! j)) = Z.of_nat (default 0%nat (m !! j)) + (if decide (i = j) then 1 else 0).
Proof.
  intros Hk. destruct (decide (i = j)) as [<-|Hne]; [rewrite lookup_alter_eq, Hk; cbn; lia|]. rewrite lookup_alter_ne by done. lia.
Qed.
Lemma sk_count_clone (f g : obj) w : 0 < sk_count f w → sk_count g (fl_clone f w) = sk_count g w + (if decide (f = g) then 1 else 0).
Proof.
  intros Hf. destruct f as [i|i|o]; cbn in Hf.
  - destruct (sw_tcp w !! i) as [k|] eqn:Hk; [|cbn in Hf; lia]. destruct g as [j|j|o']; cbn; [|rewrite decide_False by done; lia..].
    rewrite (refs_alter _ _ _ k Hk). repeat case_decide; simplify_eq; lia.
  - destruct (sw_udp w !! i) as [k|] eqn:Hk; [|cbn in Hf; lia]. destruct g as [j|j|o']; cbn; [rewrite decide_False by done; lia| |rewrite decide_False by done; lia].
    rewrite (refs_alter _ _ _ k Hk). repeat case_decide; simplify_eq; lia.
  - destruct g as [j|j|o']; cbn; [rewrite decide_False by done; lia..|]. rewrite ocount_clone by done. repeat case_decide; simplify_eq; lia.
Qed.
Lemma drop_with_refs d w : sw_tcp (drop_with d w) = sw_tcp w ∧ sw_udp (drop_with d w) = sw_udp w ∧ sw_other (drop_with d w) = sw_other w.
Proof. unfold drop_with. by destruct (d (sw_net w)). Qed.
Lemma refs_drop (m : gmap nat nat) i j k : m !! i = Some (S k) →
  Z.of_nat (default 0%nat ((match k with 0%nat => delete i m | S _ => <[i := k]> m end) !! j)) = Z.of_nat (default 0%nat (m !! j)) - (if decide (i = j) then 1 else 0).
Proof.
  intros Hk. destruct (decide (i = j)) as [<-|Hne].
  - destruct k; [rewrite lookup_delete_eq, Hk|rewrite lookup_insert_eq, Hk]; cbn; lia.
  - destruct k; [rewrite lookup_delete_ne by done|rewrite lookup_insert_ne by done]; lia.
Qed.
Lemma sk_count_drop (f g : obj) w : 0 < sk_count f w → sk_count g (fl_drop f w) = sk_count g w - (if decide (f = g) then 1 else 0).
Proof.
  intros Hf. destruct f as [i|i|o]; cbn in Hf |- *.
  - destruct (sw_tcp w !! i) as [[|k]|] eqn:Hk; [cbn in Hf; lia| |cbn in Hf; lia]. pose proof (refs_drop (sw_tcp w) i) as Hr.
    destruct k as [|k]; [destruct (drop_with_refs (tcp_drop i) (set_tcp_refs (delete i (sw_tcp w)) w)) as (E1 & E2 & E3)|].
    all: destruct g as [j|j|o']; cbn; rewrite ?E1, ?E2, ?E3; cbn; try (rewrite decide_False by done; lia); specialize (Hr j _ Hk); cbn in Hr; rewrite Hr; repeat case_decide; simplify_eq; lia.
  - destruct (sw_udp w !! i) as [[|k]|] eqn:Hk; [cbn in Hf; lia| |cbn in Hf; lia]. pose proof (refs_drop (sw_udp w) i) as Hr.
    destruct k as [|k]; [destruct (drop_with_refs (udp_drop i) (set_udp_refs (delete i (sw_udp w)) w)) as (E1 & E2 & E3)|].
    all: destruct g as [j|j|o']; cbn; rewrite ?E1, ?E2, ?E3; cbn; try (rewrite decide_False by done; lia); specialize (Hr j _ Hk); cbn in Hr; rewrite Hr; repeat case_decide; simplify_eq; lia.
  - destruct g as [j|j|o']; cbn; [rewrite decide_False by done; lia..|]. rewrite ocount_drop by done. repeat case_decide; simplify_eq; lia.
Qed.

(** ** The world *)

Lemma world_ok_net w n : world_ok w → net_inv None n → grows (sw_net w) n → world_ok (set_net n w).
Proof.
  intros [A B C] Hi Hg. split; [done| |]; cbn.
  - intros i k Hk. destruct (B i k Hk) as [Hp [s Hs]]. destruct (gr_tcp _ _ Hg i s Hs) as (s' & Hs' & _). eauto.
  - intros i k Hk. destruct (C i k Hk) as [Hp [s Hs]]. destruct (gr_udp _ _ Hg i s Hs) as (s' & Hs' & _). eauto.
Qed.
Lemma world_ok_clone (f : obj) w : world_ok w → world_ok (fl_clone f w).
Proof.
  intros [A B C]. destruct f as [i|i|o]; split; cbn; try done.
  - intros j k Hk. destruct (decide (i = j)) as [<-|Hne]; [|rewrite lookup_alter_ne in Hk by done; eauto]. rewrite lookup_alter_eq in Hk. apply fmap_Some in Hk as (k0 & Hk0 & ->). split; [lia|]. by apply (B i k0).
  - intros j k Hk. destruct (decide (i = j)) as [<-|Hne]; [|rewrite lookup_alter_ne in Hk by done; eauto]. rewrite lookup_alter_eq in Hk. apply fmap_Some in Hk as (k0 & Hk0 & ->). split; [lia|]. by apply (C i k0).
Qed.
Lemma world_ok_drop (f : obj) w : world_ok w → world_ok (fl_drop f w).
Proof.
  intros Hw. pose proof Hw as [A B C]. destruct f as [i|i|o]; cbn; [| |by split].
  - destruct (sw_tcp w !! i) as [[|[|k]]|] eqn:Hk; [by destruct (B i _ Hk); lia| | |done].
    + destruct (B i _ Hk) as [_ [s Hs]]. destruct (tcp_drop_ok i (sw_net w) s A Hs) as (n & E & Hi & Hg). unfold drop_with. cbn. rewrite E. split; cbn; [done| |].
      * intros j k [Hne Hj]%lookup_delete_Some. destruct (B j k Hj) as [Hp [x Hx]]. destruct (gr_tcp _ _ Hg j x) as (x' & Hx' & _); [cbn; by rewrite lookup_delete_ne|eauto].
      * intros j k Hj. destruct (C j k Hj) as [Hp [x Hx]]. destruct (gr_udp _ _ Hg j x Hx) as (x' & Hx' & _). eauto.
    + split; cbn; [done| |done]. intros j m [[<- <-]|[Hne Hj]]%lookup_insert_Some; [split; [lia|by apply (B i _ Hk)]|eauto].
  - destruct (sw_udp w !! i) as [[|[|k]]|] eqn:Hk; [by destruct (C i _ Hk); lia| | |done].
    + destruct (C i _ Hk) as [_ [s Hs]]. destruct (udp_drop_ok i (sw_net w) s A Hs) as (n & E & Hi & Hg). unfold drop_with. cbn. rewrite E. split; cbn; [done| |].
      * intros j k Hj. destruct (B j k Hj) as [Hp [x Hx]]. destruct (gr_tcp _ _ Hg j x Hx) as (x' & Hx' & _). eauto.
      * intros j k [Hne Hj]%lookup_delete_Some. destruct (C j k Hj) as [Hp [x Hx]]. destruct (gr_udp _ _ Hg j x) as (x' & Hx' & _); [cbn; by rewrite lookup_delete_ne|eauto].
    + split; cbn; [done|done|]. intros j m [[<- <-]|[Hne Hj]]%lookup_insert_Some; [split; [lia|by apply (C i _ Hk)]|eauto].
Qed.

(** A call of the network module on behalf of a system call. *)
Definition net_step (w w' : world) : Prop := ∃ n, w' = set_net n w ∧ net_inv None n ∧ grows (sw_net w) n.
Definition sock_safe {A} (m : SM world LinuxError.t A) w : Prop := ∃ r w', m w = Ret (r, w') ∧ net_step w w'.
Lemma net_step_refl w : world_ok w → net_step w w.
Proof. intros [A B C]. exists (sw_net w). by destruct w. Qed.
Lemma net_step_trans w1 w2 w3 : net_step w1 w2 → net_step w2 w3 → net_step w1 w3.
Proof. intros (n & -> & Hi & Hg) (n' & -> & Hi' & Hg'). exists n'. split_and!; [done|done|by etrans]. Qed.
Lemma net_step_ok w w' : world_ok w → net_step w w' → world_ok w'.
Proof. intros Hw (n & -> & Hi & Hg). by apply world_ok_net. Qed.
Lemma on_net_safe {A} (m : SM net AxError.t A) w : safe_at m (sw_net w) → sock_safe (on_net m) w.
Proof. intros (r & n & E & Hi & Hg). unfold sock_safe, on_net. rewrite E. eexists _, _. split; [done|]. by exists n. Qed.
(** One that does not wait. *)
Definition prompt {A} (m : SM net AxError.t (option A)) (n : net) : Prop := ∃ r n', m n = Ret (r, n') ∧ net_inv None n' ∧ grows n n' ∧ r ≠ Ok None.
Lemma await_safe {A} (m : SM net AxError.t (option A)) w : prompt m (sw_net w) → sock_safe (await m) w.
Proof.
  intros (r & n & E & Hi & Hg & Hr). unfold sock_safe, await, sm_bind, on_net. rewrite E. destruct r as [[a|]|e]; [|done|]; (eexists _, _; split; [done|]; by exists n).
Qed.
Lemma sock_safe_bind {A B} (m : SM world LinuxError.t A) (k : A → SM world LinuxError.t B) w :
  sock_safe m w → (∀ a w', m w = Ret (Ok a, w') → net_step w w' → sock_safe (k a) w') → sock_safe (sm_bind m k) w.
Proof.
  intros (r & w' & E & Hs) Hk. unfold sock_safe, sm_bind. rewrite E. destruct r as [a|e]; [|by eexists _, _].
  destruct (Hk a w' E Hs) as (r2 & w2 & E2 & Hs2). eexists _, _. split; [done|]. by eapply net_step_trans.
Qed.
Lemma sock_safe_ret {A} (r : result A LinuxError.t) w : world_ok w → sock_safe (sm_lift r) w.
Proof. intros Hw. eexists _, _. split; [done|]. by apply net_step_refl. Qed.

Lemma block_prompt {A} (f : SM net AxError.t A) n : safe_at f n → prompt (block_on true [] f) n.
Proof. intros (r & n' & E & Hi & Hg). unfold prompt, block_on, sm_bind. rewrite E. destruct r; by eexists _, _. Qed.
Lemma prompt_err {A} n (e : AxError.t) : net_inv None n → prompt (A := A) (sm_err e) n.
Proof. intros Hi. by eexists _, n. Qed.
Lemma stream_prompt {A} (f : nat → SM net AxError.t A) i n s : net_inv None n → tcp_sockets n !! i = Some s → ts_nonblock s = true →
  (∀ h n, net_inv None n → kind_at (SOCKET_SET n) h = Some KTcp → safe_at (f h) n) →
  prompt (let! h := connected_handle i in let! s := tcp_get i in block_on (ts_nonblock s) [] (f h)) n.
Proof.
  intros Hi Hs Hnb Hf. unfold prompt, connected_handle, sm_bind. rewrite (tcp_get_eq i n s Hs). destruct (Z.eqb_spec (ts_state s) STATE_CONNECTING); [by eexists _, n|].
  destruct (Z.eqb_spec (ts_state s) STATE_CONNECTED) as [Hst|]; cbn [negb]; [|by eexists _, n]. destruct (ni_tcp _ _ Hi i s Hs) as (_ & Hh & _). destruct (Hh (or_intror Hst)) as [h Eh].
  rewrite Eh. unfold sm_ret. rewrite (tcp_get_eq i n s Hs), Hnb. apply block_prompt, Hf; [done|]. by eapply owned_kind.
Qed.
Lemma dgram_prompt {A} (f : nat → SM net AxError.t A) i n s : net_inv None n → udp_sockets n !! i = Some s → us_nonblock s = true →
  (∀ h n, net_inv None n → kind_at (SOCKET_SET n) h = Some KUdp → safe_at (f h) n) →
  prompt (let! s := udp_get i in match us_local_addr s with None => sm_err AxError.NotConnected | Some _ => block_on (us_nonblock s) [] (f (us_handle s)) end) n.
Proof.
  intros Hi Hs Hnb Hf. unfold prompt, sm_bind. rewrite (udp_get_eq i n s Hs). destruct (us_local_addr s); [|by eexists _, n]. rewrite Hnb. apply block_prompt, Hf; [done|]. by eapply owned_udp_kind.
Qed.
Lemma connect_prompt i a n s : net_inv None n → tcp_sockets n !! i = Some s → ts_nonblock s = true → addr_ok a → prompt (connect i a []) n.
Proof.
  intros Hi Hs Hnb Ha. destruct (connect_start_ok i n s a Hi Hs Ha) as (r & n1 & E & Hi1 & Hg1 & s1 & Hs1 & Hn1). unfold prompt, connect, sm_bind. rewrite E. destruct r; [|by eexists _, n1].
  rewrite (tcp_get_eq i n1 s1 Hs1), Hn1, Hnb. by eexists _, n1.
Qed.
Lemma accept_prompt i n s : net_inv None n → tcp_sockets n !! i = Some s → ts_nonblock s = true → ¬ meets_reset n (ep_port (ts_local_addr s)) → prompt (accept i []) n.
Proof.
  intros Hi Hs Hnb Hr. unfold prompt, accept, sm_bind. rewrite (tcp_get_eq i n s Hs). destruct (_ =? _); cbn [negb]; [|by eexists _, n]. rewrite Hnb. apply block_prompt.
  by destruct (accept_round_cases n (ep_port (ts_local_addr s)) Hi) as [|[_ ?]].
Qed.

(** ** Operations of a socket *)

Definition live (s : sock) w : Prop := match s with Tcp i => is_Some (tcp_sockets (sw_net w) !! i) | Udp i => is_Some (udp_sockets (sw_net w) !! i) end.
Definition nonblocking (s : sock) w : Prop :=
  match s with Tcp i => ∀ x, tcp_sockets (sw_net w) !! i = Some x → ts_nonblock x = true | Udp i => ∀ x, udp_sockets (sw_net w) !! i = Some x → us_nonblock x = true end.
Definition no_reset (s : sock) w : Prop := match s with Tcp i => ∀ x, tcp_sockets (sw_net w) !! i = Some x → ¬ meets_reset (sw_net w) (ep_port (ts_local_addr x)) | Udp _ => True end.

Lemma udp_recv_prompt {A} (op : udp_socket → result A AxError.t * udp_socket) i n s : net_inv None n → udp_sockets n !! i = Some s → us_nonblock s = true → prompt (recv_impl i op []) n.
Proof. intros Hi Hs Hnb. apply (dgram_prompt (λ h, udp_recv_round h op) i n s Hi Hs Hnb). intros. by apply with_udp_mut_safe. Qed.
Lemma udp_send_prompt buf e i n s : net_inv None n → udp_sockets n !! i = Some s → us_nonblock s = true → prompt (send_impl i buf e []) n.
Proof. intros Hi Hs Hnb. apply (dgram_prompt (λ h, udp_send_round h buf e) i n s Hi Hs Hnb). intros. by apply with_udp_mut_safe. Qed.

Lemma sock_send_safe s buf w : world_ok w → live s w → nonblocking s w → sock_safe (sock_send s buf) w.
Proof.
  intros [A _ _] Hl Hn. destruct s as [i|i]; destruct Hl as [x Hx]; specialize (Hn x Hx); apply await_safe.
  - apply (stream_prompt (λ h, send_round h buf) i _ x A Hx Hn). intros. by apply with_tcp_mut_safe.
  - unfold prompt, udp_send, remote_endpoint, sm_bind. rewrite (udp_get_eq i _ x Hx). destruct (us_peer_addr x) as [e|]; cbn [ok_or]; unfold sm_lift; [|by eexists _, _]. by eapply udp_send_prompt.
Qed.
Lemma sock_recv_safe s len w : world_ok w → live s w → nonblocking s w → sock_safe (sock_recv s len) w.
Proof.
  intros Hw Hl Hn. destruct s as [i|i]; destruct Hl as [x Hx]; specialize (Hn x Hx); cbn.
  - apply await_safe, (stream_prompt (λ h, recv_round h len) i _ x (wk_net _ Hw) Hx Hn). intros. by apply with_tcp_mut_safe.
  - apply sock_safe_bind; [by apply await_safe; eapply udp_recv_prompt; [apply Hw|..]|]. intros a w' _ Hs. apply sock_safe_ret. by eapply net_step_ok.
Qed.
Lemma sock_sendto_safe s buf a w : world_ok w → live s w → nonblocking s w → addr_ok a → sock_safe (sock_sendto s buf a) w.
Proof.
  intros Hw Hl Hn Ha. destruct s as [i|i]; destruct Hl as [x Hx]; specialize (Hn x Hx); cbn; [by apply sock_safe_ret|]. apply await_safe. pose proof (wk_net _ Hw) as Hi. unfold send_to.
  destruct (_ || _); [by apply prompt_err|]. destruct (addr_conv a Ha) as (e & -> & _). by eapply udp_send_prompt.
Qed.
(** The source of a datagram is an IPv4 address. *)
Definition is_v4 (a : SocketAddr) : Prop := ∃ o, sa_ip a = IpV4 o.
Lemma recv_from_v4 i len n b n' : udp_sockets n !! i ≠ None → recv_from i len [] n = Ret (Ok (Some b), n') → is_v4 (snd b).
Proof.
  intros _. unfold recv_from, recv_impl, sm_bind, udp_get. destruct (udp_sockets n !! i) as [s|]; [|done]. destruct (us_local_addr s); [|done].
  assert (∀ m m', udp_recv_round (us_handle s) (recv_from_op len) m = Ret (Ok b, m') → is_v4 (snd b)) as Hround.
  { intros m m'. unfold udp_recv_round, with_udp_mut. destruct (set_get _ _) as [[| u |]|]; try done. destruct (udp_can_recv u); [|done]. unfold recv_from_op.
    destruct (udp_recv_slice len u) as [[[bytes e]|] u']; [|done]. intros [= <- _]. by eexists. }
  destruct (us_nonblock s); cbn [block_on].
  - unfold sm_bind. destruct (udp_recv_round _ _ n) as [[[b'|e] m]|] eqn:E; [|done..]. unfold sm_ret. intros [= <- <-]. by eapply Hround.
  - cbn [block_loop]. destruct (udp_recv_round _ _ _) as [[[b'|[]] m]|] eqn:E; try done. intros [= <- <-]. by eapply Hround.
Qed.
Lemma sock_recvfrom_safe s len w : world_ok w → live s w → nonblocking s w → sock_safe (sock_recvfrom s len) w ∧ ∀ r w', sock_recvfrom s len w = Ret (Ok r, w') → ∀ a, snd r = Some a → is_v4 a.
Proof.
  intros Hw Hl Hn. destruct s as [i|i]; destruct Hl as [x Hx]; specialize (Hn x Hx); cbn; split.
  - apply sock_safe_bind; [|intros a w' _ Hs; apply sock_safe_ret; by eapply net_step_ok]. apply await_safe, (stream_prompt (λ h, recv_round h len) i _ x (wk_net _ Hw) Hx Hn). intros. by apply with_tcp_mut_safe.
  - intros r w' [(a & w1 & _ & [= <- _])|(e & _ & ?)]%sm_bind_inv; done.
  - apply sock_safe_bind; [|intros a w' _ Hs; apply sock_safe_ret; by eapply net_step_ok]. by apply await_safe; eapply udp_recv_prompt; [apply Hw|..].
  - intros r w' [(b & w1 & Hb & [= <- _])|(e & _ & ?)]%sm_bind_inv; [|done]. cbn. intros a [= <-]. unfold await in Hb. apply sm_bind_inv in Hb as [(o & w2 & Ho & Hb)|(e & _ & ?)]; [|done].
    destruct o as [o|]; [|done]. unfold sm_ret in Hb. simplify_eq. unfold on_net in Ho. destruct (recv_from i len [] (sw_net w)) as [[[o|] n]|] eqn:E; [|done..]. cbn in Ho. simplify_eq. eapply recv_from_v4; [|exact E]. congruence.
Qed.
Lemma sock_bind_safe s a w : world_ok w → live s w → addr_ok a → sock_safe (sock_bind s a) w.
Proof. intros [A _ _] Hl Ha. destruct s as [i|i]; destruct Hl as [x Hx]; apply on_net_safe; [by eapply bind_safe|by eapply udp_bind_safe]. Qed.
Lemma sock_connect_safe s a w : world_ok w → live s w → nonblocking s w → addr_ok a → sock_safe (sock_connect s a) w.
Proof. intros [A _ _] Hl Hn Ha. destruct s as [i|i]; destruct Hl as [x Hx]; [apply await_safe; by eapply connect_prompt; [| |apply Hn|]|apply on_net_safe; by eapply udp_connect_safe]. Qed.
Lemma sock_listen_safe s w : world_ok w → live s w → sock_safe (sock_listen s) w.
Proof. intros Hw Hl. destruct s as [i|i]; destruct Hl as [x Hx]; [apply on_net_safe; by eapply listen_safe; [apply Hw|]|by apply sock_safe_ret]. Qed.
Lemma tcp_addr_safe (f : TcpSocket → SocketAddr) i n s : net_inv None n → tcp_sockets n !! i = Some s →
  safe_at (let! s := tcp_get i in if (ts_state s =? STATE_CONNECTED) || (ts_state s =? STATE_LISTENING) then sm_ret (f s) else sm_err AxError.NotConnected : SM net AxError.t SocketAddr) n.
Proof. intros Hi Hs. unfold safe_at, sm_bind. rewrite (tcp_get_eq i n s Hs). destruct (_ || _); by eexists _, n. Qed.
Lemma sock_addr_safe s w : world_ok w → live s w → sock_safe (sock_local_addr s) w ∧ sock_safe (sock_peer_addr s) w.
Proof.
  intros [A _ _] Hl. destruct s as [i|i]; destruct Hl as [x Hx]; split; apply on_net_safe; [by eapply tcp_addr_safe..| |].
  - unfold safe_at, udp_local_addr, sm_bind. rewrite (udp_get_eq i _ x Hx). by eexists _, _.
  - unfold safe_at, udp_peer_addr, remote_endpoint, sm_bind. rewrite (udp_get_eq i _ x Hx). unfold sm_lift. destruct (ok_or _ _); by eexists _, _.
Qed.
Lemma sock_addr_v4 s w a w' : sock_local_addr s w = Ret (Ok a, w') ∨ sock_peer_addr s w = Ret (Ok a, w') → is_v4 a.
Proof.
  destruct s as [i|i]; cbn; unfold on_net, tcp_local_addr, tcp_peer_addr, udp_local_addr, udp_peer_addr, remote_endpoint, sm_bind, tcp_get, udp_get.
  - destruct (tcp_sockets _ !! i) as [s|]; [|by intros [|]]. destruct (_ || _); cbn; [|by intros [|]]. intros [|]; simplify_eq; by eexists.
  - destruct (udp_sockets _ !! i) as [s|]; [|by intros [|]]. unfold sm_lift. destruct (us_local_addr s), (us_peer_addr s); cbn; intros [|]; simplify_eq; by eexists.
Qed.
Lemma sock_shutdown_safe s w : world_ok w → live s w → sock_safe (sock_shutdown s) w.
Proof.
  intros Hw Hl. pose proof (proj2 (sock_addr_safe s w Hw Hl)) as Hp. destruct s as [i|i]; cbn in *; apply sock_safe_bind; try done; intros a w' _ Hs; pose proof (net_step_ok w w' Hw Hs) as Hw'; destruct Hl as [x Hx]; destruct Hs as (n & -> & Hi & Hg).
  - destruct (gr_tcp _ _ Hg i x Hx) as (x' & Hx' & _). apply on_net_safe. by eapply shutdown_safe.
  - destruct (gr_udp _ _ Hg i x Hx) as (x' & Hx' & _). apply on_net_safe. by eapply udp_shutdown_safe.
Qed.
Lemma sock_nonblock_safe s b w : world_ok w → live s w → sock_safe (sock_set_nonblocking s b) w.
Proof. intros [A _ _] Hl. destruct s as [i|i]; destruct Hl as [x Hx]; apply on_net_safe; [by eapply nonblock_safe|by apply (udp_upd_safe i _ x (udp_with_nonblock b))]. Qed.

(** ** System calls *)

Lemma world_step_ok p w : sock_ok p → net_step (px_world p) w → sock_ok (set_world w p).
Proof.
  intros [Hw Hc] Hs. split; [by eapply net_step_ok|]. destruct Hs as (n & -> & _). by eapply refs_same_fds.
Qed.
Definition psafe {A} (m : SM (posix obj world) LinuxError.t A) p : Prop := ∃ r p', m p = Ret (r, p') ∧ sock_ok p'.
Lemma psafe_bind {A B} (m : SM (posix obj world) LinuxError.t A) (k : A → SM (posix obj world) LinuxError.t B) p :
  psafe m p → (∀ a p', m p = Ret (Ok a, p') → sock_ok p' → psafe (k a) p') → psafe (sm_bind m k) p.
Proof.
  intros (r & p' & E & Hp) Hk. unfold psafe, sm_bind. rewrite E. destruct r as [a|e]; [|by eexists _, _]. by apply Hk.
Qed.
Lemma psafe_lift {A} (r : result A LinuxError.t) p : sock_ok p → psafe (sm_lift r) p.
Proof. intros Hp. by eexists _, _. Qed.
Lemma psafe_world {A} (m : SM world LinuxError.t A) p : sock_ok p → sock_safe m (px_world p) → psafe (on_world m) p.
Proof. intros Hp (r & w & E & Hs). unfold psafe, on_world. rewrite E. eexists _, _. split; [done|]. by apply world_step_ok. Qed.

Definition fd_sock p (fd : Z) : option sock := match fd_map p fd with Some f => match as_sock f with inl s => Some s | inr _ => None end | None => None end.
Lemma fd_live p fd s : sock_ok p → fd_sock p fd = Some s → live s (px_world p).
Proof.
  intros [[A B C] Hc] Hs. unfold fd_sock in Hs. destruct (fd_map p fd) as [f|] eqn:Hf; [|done]. pose proof (fd_count_pos sk_count p fd f Hc Hf) as Hpos.
  destruct f as [i|i|o]; cbn in Hs; simplify_eq; cbn in Hpos |- *.
  - destruct (sw_tcp _ !! i) as [k|] eqn:Hk; [by apply (B i k)|cbn in Hpos; lia].
  - destruct (sw_udp _ !! i) as [k|] eqn:Hk; [by apply (C i k)|cbn in Hpos; lia].
Qed.
Lemma from_fd_bind {B} fd (k : sock → SM (posix obj world) LinuxError.t B) p : sock_ok p → is_int fd →
  (∀ s, fd_sock p fd = Some s → live s (px_world p) → psafe (k s) p) → psafe (sm_bind (from_fd fd) k) p.
Proof.
  intros Hp Hfd Hk. unfold psafe, sm_bind, from_fd, sm_bind. rewrite get_file_like_eq by done. unfold fd_sock in Hk. pose proof (fd_live p fd) as Hl. unfold fd_sock in Hl.
  destruct (fd_map p fd) as [f|]; [|by eexists _, _]. cbn [ok_or]. destruct (as_sock f) as [s|o]; [|by eexists _, _]. unfold sm_ret. by apply Hk; [|apply Hl].
Qed.
Lemma psafe_call m p : psafe m p → ∃ r p', syscall_body m p = Ret (r, p') ∧ sock_ok p'.
Proof. intros (r & p' & E & Hp). unfold syscall_body. rewrite E. by eexists _, _. Qed.
Lemma psafe_out {A} (m : SM (posix obj world) LinuxError.t (Z * A)) d p : psafe m p → ∃ r a p', with_out m d p = Ret (r, a, p') ∧ sock_ok p'.
Proof. intros (r & p' & E & Hp). unfold with_out. rewrite E. destruct r as [[v a]|e]; by eexists _, _, _. Qed.
Lemma store_addr_safe a p : sock_ok p → is_v4 a → psafe (store_addr a) p.
Proof. intros Hp [o Ho]. unfold psafe, store_addr, into_sockaddr. rewrite Ho. by eexists _, _. Qed.

(** A new object, put at a free descriptor or dropped again. *)
Lemma add_safe (f : obj) p w : sock_ok p → world_ok w → (∀ g, sk_count g w = sk_count g (px_world p) + (if decide (f = g) then 1 else 0)) → 0 < sk_count f w →
  psafe (add_file_like f) (set_world w p).
Proof.
  intros [Hw Hc] Hw' Hcount Hpos. destruct (add_file_like_spec f (set_world w p)) as [(fd & p' & Ha & Hop & Hpw)|[Ha _]]; unfold psafe; rewrite Ha; eexists _, _; (split; [done|]).
  - split; [by rewrite Hpw|]. eapply (refs_opened sk_count fd f p); [done|exact Hop|]. intros g. rewrite Hpw. apply Hcount.
  - split; [by apply world_ok_drop|]. apply (refs_same_fds sk_count p); [done|done|]. intros g. cbn [px_world set_world]. rewrite sk_count_drop, Hcount by done. lia.
Qed.
Lemma add_tcp_safe i p : sock_ok p → is_Some (tcp_sockets (sw_net (px_world p)) !! i) → sw_tcp (px_world p) !! i = None → psafe (add_to_fd_table (Tcp i)) p.
Proof.
  intros Hp Ht Hn. pose proof (so_world _ Hp) as [A B C]. apply (add_safe (SockTcp i) p); [done| | |cbn; rewrite lookup_insert_eq; cbn; lia].
  - split; cbn; [done| |done]. intros j k [[<- <-]|[Hne Hj]]%lookup_insert_Some; [split; [lia|done]|eauto].
  - intros [j|j|o]; cbn; [|rewrite decide_False by done; lia..]. destruct (decide (i = j)) as [<-|Hne]; [rewrite lookup_insert_eq, Hn, decide_True by done; done|].
    rewrite lookup_insert_ne, decide_False by congruence. lia.
Qed.
Lemma add_udp_safe i p : sock_ok p → is_Some (udp_sockets (sw_net (px_world p)) !! i) → sw_udp (px_world p) !! i = None → psafe (add_to_fd_table (Udp i)) p.
Proof.
  intros Hp Ht Hn. pose proof (so_world _ Hp) as [A B C]. apply (add_safe (SockUdp i) p); [done| | |cbn; rewrite lookup_insert_eq; cbn; lia].
  - split; cbn; [done|done|]. intros j k [[<- <-]|[Hne Hj]]%lookup_insert_Some; [split; [lia|done]|eauto].
  - intros [j|j|o]; cbn; [rewrite decide_False by done; lia| |rewrite decide_False by done; lia]. destruct (decide (i = j)) as [<-|Hne]; [rewrite lookup_insert_eq, Hn, decide_True by done; done|].
    rewrite lookup_insert_ne, decide_False by congruence. lia.
Qed.
Lemma fresh_refs w : world_ok w → sw_tcp w !! next_id (sw_net w) = None ∧ sw_udp w !! next_id (sw_net w) = None.
Proof.
  intros [A B C]. destruct (ni_next _ _ A (next_id (sw_net w)) ltac:(lia)) as [Ht Hu]. split.
  - destruct (sw_tcp w !! next_id (sw_net w)) as [k|] eqn:E; [|done]. destruct (B _ _ E) as [_ [x Hx]]. congruence.
  - destruct (sw_udp w !! next_id (sw_net w)) as [k|] eqn:E; [|done]. destruct (C _ _ E) as [_ [x Hx]]. congruence.
Qed.

Lemma sys_socket_ok domain socktype protocol p : sock_ok p → ∃ r p', sys_socket domain socktype protocol p = Ret (r, p') ∧ sock_ok p'.
Proof.
  intros Hp. apply psafe_call. cbv zeta. pose proof (so_world _ Hp) as Hw. destruct (fresh_refs _ Hw) as [Hft Hfu]. destruct (_ && _ && _); [|destruct (_ && _ && _); [|by apply psafe_lift]].
  - apply psafe_bind; [by apply psafe_world, on_net_safe, tcp_new_safe; [|apply Hw]|]. intros i p' E Hp'. unfold on_world, on_net, tcp_place in E. simplify_eq.
    apply add_tcp_safe; [done|cbn; rewrite lookup_insert_eq; by eexists|done].
  - apply psafe_bind; [by apply psafe_world, on_net_safe, udp_new_safe; [|apply Hw]|]. intros i p' E Hp'. unfold on_world, on_net, udp_socket_new, sm_bind, add in E.
    destruct (set_add _ _) as [h S']. simplify_eq. apply add_udp_safe; [done|cbn; rewrite lookup_insert_eq; by eexists|done].
Qed.
(** Calls that leave the descriptors as they are. *)
Lemma fd_call_ok {A} (m : sock → SM world LinuxError.t A) (k : A → Z) fd p : sock_ok p → is_int fd →
  (∀ s, fd_sock p fd = Some s → live s (px_world p) → sock_safe (m s) (px_world p)) →
  psafe (let! s := from_fd fd in let! a := on_world (m s) in sm_ret (k a)) p.
Proof.
  intros Hp Hfd Hm. apply from_fd_bind; [done|done|]. intros s Hs Hl. apply psafe_bind; [by apply psafe_world; [|apply Hm]|]. intros a p' _ Hp'. by apply psafe_lift.
Qed.
Lemma addr_call_ok (m : sock → SocketAddr → SM world LinuxError.t unit) fd addr len p : sock_ok p → is_int fd → (∀ x, addr = Some x → 0 ≤ sin_port x < 65536) →
  (∀ s a, fd_sock p fd = Some s → live s (px_world p) → addr_ok a → sock_safe (m s a) (px_world p)) →
  ∃ r p', syscall_body (let! a := sm_lift (from_sockaddr addr len) in let! s := from_fd fd in do! on_world (m s a) in sm_ret 0) p = Ret (r, p') ∧ sock_ok p'.
Proof.
  intros Hp Hfd Ha Hm. apply psafe_call, psafe_bind; [by apply psafe_lift|]. intros a p' [= E <-] _. apply (fd_call_ok (λ s, m s a) (λ _, 0) fd p Hp Hfd). intros s Hs Hl. apply Hm; [done|done|]. by eapply from_sockaddr_ok.
Qed.
(** Calls that give an address. *)
Lemma addr_out_ok (m : sock → SM world LinuxError.t SocketAddr) fd len p : sock_ok p → is_int fd →
  (∀ s, fd_sock p fd = Some s → live s (px_world p) → sock_safe (m s) (px_world p)) → (∀ s w a w', m s w = Ret (Ok a, w') → is_v4 a) →
  ∃ r a p', with_out (if len <? SOCKADDR_LEN then sm_err LinuxError.EINVAL
    else let! s := from_fd fd in let! a := on_world (m s) in let! x := store_addr a in sm_ret (0, Some x)) None p = Ret (r, a, p') ∧ sock_ok p'.
Proof.
  intros Hp Hfd Hm Hv. apply psafe_out. destruct (_ <? _); [by apply psafe_lift|]. apply from_fd_bind; [done|done|]. intros s Hs Hl.
  apply psafe_bind; [by apply psafe_world; [|apply Hm]|]. intros a p' E Hp'. apply psafe_bind; [apply store_addr_safe; [done|]|intros x p2 _ Hp2; by apply psafe_lift].
  unfold on_world in E. destruct (m s (px_world p)) as [[r w]|] eqn:Em; simplify_eq. by eapply Hv.
Qed.

Lemma accept_result j n s i n' : net_inv None n → tcp_sockets n !! j = Some s → ts_nonblock s = true → ¬ meets_reset n (ep_port (ts_local_addr s)) →
  accept j [] n = Ret (Ok (Some i), n') → i = next_id n ∧ ∃ h l r, tcp_sockets n' !! i = Some (new_connected h l r).
Proof.
  intros Hi Hs Hnb Hr E. destruct (decide (ts_state s = STATE_LISTENING)) as [HL|HL].
  2:{ unfold accept, sm_bind in E. rewrite (tcp_get_eq j n s Hs), (proj2 (Z.eqb_neq _ _) HL) in E. done. }
  destruct (accept_nonblock n j s [] Hi Hs HL Hnb) as (e & He & Hm). destruct (list_find _ _) as [[k h]|] eqn:Hf; [|congruence].
  destruct (endpoints_at n h) as [[l r]|] eqn:Ha; [|destruct Hr; by exists e, k, h]. destruct (Hm l r eq_refl) as (q & E2 & _). rewrite E in E2. simplify_eq. split; [done|]. exists h, l, r. cbn. apply lookup_insert_eq.
Qed.
Lemma sys_accept_ok fd p : sock_ok p → is_int fd → (∀ s, fd_sock p fd = Some s → nonblocking s (px_world p) ∧ no_reset s (px_world p)) →
  ∃ r a p', sys_accept fd (Some tt) (Some tt) p = Ret (r, a, p') ∧ sock_ok p'.
Proof.
  intros Hp Hfd Hpre. apply psafe_out, from_fd_bind; [done|done|]. intros s Hs Hl. destruct (Hpre s Hs) as [Hnb Hnr]. pose proof (so_world _ Hp) as Hw.
  destruct s as [j|j]; cbn [sock_accept]; destruct Hl as [x Hx]. 2:{ apply psafe_bind; [by apply psafe_world, sock_safe_ret|]. intros a p' E _. unfold on_world in E. cbn in E. simplify_eq. }
  specialize (Hnb x Hx). specialize (Hnr x Hx). apply psafe_bind; [by apply psafe_world, await_safe; [|eapply accept_prompt; [apply Hw|..]]|]. intros i p' E Hp'.
  unfold on_world, await, sm_bind, on_net in E. destruct (accept j [] (sw_net (px_world p))) as [[[[i'|]|e] n']|] eqn:Ea; cbn in E; unfold sm_ret, sm_panic in E; simplify_eq.
  destruct (accept_result j _ x i n' (wk_net _ Hw) Hx Hnb Hnr Ea) as (-> & h & l & r & Ht).
  assert (peer_or_drop (next_id (sw_net (px_world p))) (set_world (set_net n' (px_world p)) p) = Ret (Ok (into_core_sockaddr r), set_world (set_net n' (px_world p)) p)) as Hpeer.
  { unfold peer_or_drop, on_world, on_net, tcp_peer_addr, sm_bind. cbn [px_world set_world sw_net set_net]. by rewrite (tcp_get_eq _ n' _ Ht). }
  apply psafe_bind; [by eexists _, _|]. intros a p2 E2 _. rewrite Hpeer in E2. simplify_eq. apply psafe_bind; [apply add_tcp_safe; [done|by eexists|apply (fresh_refs _ Hw)]|].
  intros fd' p3 _ Hp3. apply psafe_bind; [apply store_addr_safe; [done|by eexists]|]. intros y p4 _ Hp4. by apply psafe_lift.
Qed.
Lemma send_calls_ok fd buf addr len p : sock_ok p → is_int fd → (∀ x, addr = Some x → 0 ≤ sin_port x < 65536) → (∀ s, fd_sock p fd = Some s → nonblocking s (px_world p)) →
  (∃ r p', sys_send fd buf p = Ret (r, p') ∧ sock_ok p') ∧ (∃ r p', sys_sendto fd buf addr len p = Ret (r, p') ∧ sock_ok p').
Proof.
  intros Hp Hfd Ha Hnb. pose proof (so_world _ Hp) as Hw. split; apply psafe_call; (destruct buf as [b|]; [|by apply psafe_lift]).
  - apply from_fd_bind; [done|done|]. intros s Hs Hl. by apply psafe_world, sock_send_safe; [| | |apply Hnb].
  - apply psafe_bind; [by apply psafe_lift|]. intros a p' [= E <-] _. apply from_fd_bind; [done|done|]. intros s Hs Hl. apply psafe_world, sock_sendto_safe; [done|done|done|by apply Hnb|by eapply from_sockaddr_ok].
Qed.
Lemma recv_calls_ok fd buf sa sl len p : sock_ok p → is_int fd → (∀ s, fd_sock p fd = Some s → nonblocking s (px_world p)) →
  (∃ r a p', sys_recv fd buf len p = Ret (r, a, p') ∧ sock_ok p') ∧ (∃ r a p', sys_recvfrom fd buf sa sl len p = Ret (r, a, p') ∧ sock_ok p').
Proof.
  intros Hp Hfd Hnb. pose proof (so_world _ Hp) as Hw. split; apply psafe_out.
  - destruct buf as [[]|]; [|by apply psafe_lift]. apply from_fd_bind; [done|done|]. intros s Hs Hl. apply psafe_bind; [by apply psafe_world, sock_recv_safe; [| | |apply Hnb]|]. intros a p' _ Hp'. by apply psafe_lift.
  - destruct buf as [[]|]; [|by apply psafe_lift]. destruct sa as [[]|]; [|by apply psafe_lift]. destruct sl as [[]|]; [|by apply psafe_lift]. apply from_fd_bind; [done|done|]. intros s Hs Hl.
    destruct (sock_recvfrom_safe s len _ Hw Hl (Hnb s Hs)) as [Hsafe Hv]. apply psafe_bind; [by apply psafe_world|]. intros r p' E Hp'. destruct (snd r) as [a|] eqn:Ea; [|by apply psafe_lift].
    apply psafe_bind; [apply store_addr_safe; [done|]|intros x p2 _ Hp2; by apply psafe_lift]. unfold on_world in E. destruct (sock_recvfrom s len (px_world p)) as [[r' w]|] eqn:Em; simplify_eq. by eapply Hv.
Qed.
Lemma name_calls_ok fd addr len p : sock_ok p → is_int fd →
  (∃ r a p', sys_getsockname fd addr len p = Ret (r, a, p') ∧ sock_ok p') ∧ (∃ r a p', sys_getpeername fd addr len p = Ret (r, a, p') ∧ sock_ok p').
Proof.
  intros Hp Hfd. pose proof (so_world _ Hp) as Hw. split; (destruct addr as [[]|]; [destruct len as [len|]|]; [|by apply psafe_out, psafe_lift..]); (apply addr_out_ok; [done|done| |]).
  1,3: intros s _ Hl; by apply sock_addr_safe. all: intros s w a w' E; eapply sock_addr_v4; eauto.
Qed.
Lemma set_nonblocking_ok fd arg p : sock_ok p → is_int fd → (∀ o, fd_map p fd ≠ Some (NotSock o)) → ∃ r p', sys_fcntl fd F_SETFL arg p = Ret (r, p') ∧ sock_ok p'.
Proof.
  intros Hp Hfd Hno. apply psafe_call. cbv zeta. change ((F_SETFL mod 2 ^ 32 =? F_DUPFD) || (F_SETFL mod 2 ^ 32 =? F_DUPFD_CLOEXEC)) with false. change (F_SETFL mod 2 ^ 32 =? F_SETFL) with true. cbv iota.
  destruct (_ || _); [by apply psafe_lift|]. unfold psafe, sm_bind at 1. rewrite get_file_like_eq by done. destruct (fd_map p fd) as [f|] eqn:Hf; [|by eexists _, _]. cbn [ok_or].
  apply psafe_bind; [|intros a p' _ Hp'; by apply psafe_lift]. apply psafe_world; [done|]. pose proof (fd_live p fd) as Hl. unfold fd_sock in Hl. rewrite Hf in Hl. unfold fl_set_nonblocking, sock_like, sf_set_nonblocking.
  destruct (as_sock f) as [s|o] eqn:Es; [by apply sock_nonblock_safe; [apply Hp|apply Hl]|]. destruct f; simplify_eq/=. by destruct (Hno o).
Qed.
Lemma fd_calls_ok fd new_fd p : sock_ok p → is_int fd → is_int new_fd →
  (∃ r p', sys_dup fd p = Ret (r, p') ∧ sock_ok p') ∧ (∃ r p', sys_dup2 fd new_fd p = Ret (r, p') ∧ sock_ok p') ∧ (∃ r p', sys_close fd p = Ret (r, p') ∧ sock_ok p').
Proof.
  intros [Hw Hc] Hfd Hnew. split_and!.
  - destruct (sys_dup_spec fd p Hfd) as (r & p' & Hd & _ & Hs). exists r, p'. split; [done|]. split; [|eapply sys_dup_counted; [apply sk_count_clone|apply sk_count_drop|exact Hfd|exact Hc|exact Hd]].
    destruct (fd_map p fd) as [f|]; [|by destruct Hs as [_ ->]]. destruct Hs as [[_ ->]|(_ & _ & ->)]; [by apply world_ok_clone|by apply world_ok_drop, world_ok_clone].
  - destruct (decide (fd = new_fd)) as [->|Hne]; [rewrite sys_dup2_same; by eexists _, _|].
    destruct (sys_dup2_spec fd new_fd p Hfd Hnew Hne) as (r & p' & Hd & Hs). exists r, p'. split; [done|]. split; [|eapply sys_dup2_counted; [apply sk_count_clone|apply sk_count_drop|exact Hfd|exact Hnew|exact Hc|exact Hd]].
    destruct (fd_map p fd) as [f|]; [|by destruct Hs as [_ ->]]. destruct Hs as [(_ & _ & ->)|[(_ & _ & ->)|(_ & _ & ->)]]; [by apply world_ok_clone|by apply world_ok_drop, world_ok_clone|done].
  - destruct (sys_close_spec fd p Hfd) as (r & p' & Hd & Hs). exists r, p'. split; [done|]. split; [|eapply sys_close_counted; [apply sk_count_drop|exact Hfd|exact Hc|exact Hd]].
    case_bool_decide; [by destruct Hs as [_ ->]|]. destruct (fd_map p fd) as [f|]; [|by destruct Hs as [_ ->]]. destruct Hs as (_ & -> & _). by apply world_ok_drop.
Qed.

(** ** The calls of a program *)

Inductive sock_call : Type :=
  | ScSocket (domain socktype protocol : Z) | ScBind (fd : Z) (addr : option sockaddr_in) (len : Z) | ScConnect (fd : Z) (addr : option sockaddr_in) (len : Z)
  | ScSend (fd : Z) (buf : option (list Z)) | ScSendto (fd : Z) (buf : option (list Z)) (addr : option sockaddr_in) (len : Z)
  | ScRecv (fd : Z) (buf : option unit) (len : Z) | ScRecvfrom (fd : Z) (buf addr addrlen : option unit) (len : Z)
  | ScListen (fd : Z) | ScAccept (fd : Z) (addr addrlen : option unit) | ScShutdown (fd : Z)
  | ScGetsockname (fd : Z) (addr : option unit) (len : option Z) | ScGetpeername (fd : Z) (addr : option unit) (len : option Z)
  | ScSetfl (fd arg : Z) | ScDup (fd : Z) | ScDup2 (fd new_fd : Z) | ScClose (fd : Z).
Definition forget {A} (o : outcome (Z * A * posix obj world)) : outcome (Z * posix obj world) := match o with Ret (r, _, p) => Ret (r, p) | Panic => Panic end.
Definition run_sock (c : sock_call) : posix obj world → outcome (Z * posix obj world) := λ p,
  match c with
  | ScSocket d t k => sys_socket d t k p
  | ScBind fd a l => sys_bind fd a l p
  | ScConnect fd a l => sys_connect fd a l p
  | ScSend fd b => sys_send fd b p
  | ScSendto fd b a l => sys_sendto fd b a l p
  | ScRecv fd b l => forget (sys_recv fd b l p)
  | ScRecvfrom fd b a al l => forget (sys_recvfrom fd b a al l p)
  | ScListen fd => sys_listen fd p
  | ScAccept fd a al => forget (sys_accept fd a al p)
  | ScShutdown fd => sys_shutdown fd p
  | ScGetsockname fd a l => forget (sys_getsockname fd a l p)
  | ScGetpeername fd a l => forget (sys_getpeername fd a l p)
  | ScSetfl fd arg => sys_fcntl fd F_SETFL arg p
  | ScDup fd => sys_dup fd p
  | ScDup2 fd new => sys_dup2 fd new p
  | ScClose fd => sys_close fd p
  end.
(** The arguments have their C types; a call that may wait is made on a socket in non-blocking mode, and [accept] on one in
    whose queue no connection was reset. *)
Definition addr_int (a : option sockaddr_in) : Prop := ∀ x, a = Some x → 0 ≤ sin_port x < 65536.
Definition fd_nonblocking p (fd : Z) : Prop := ∀ s, fd_sock p fd = Some s → nonblocking s (px_world p).
Definition sock_pre (c : sock_call) p : Prop :=
  match c with
  | ScSocket _ _ _ => True
  | ScBind fd a _ => is_int fd ∧ addr_int a
  | ScConnect fd a _ => is_int fd ∧ addr_int a ∧ fd_nonblocking p fd
  | ScSend fd _ | ScRecv fd _ _ | ScRecvfrom fd _ _ _ _ => is_int fd ∧ fd_nonblocking p fd
  | ScSendto fd _ a _ => is_int fd ∧ addr_int a ∧ fd_nonblocking p fd
  | ScAccept fd _ _ => is_int fd ∧ ∀ s, fd_sock p fd = Some s → nonblocking s (px_world p) ∧ no_reset s (px_world p)
  | ScListen fd | ScShutdown fd | ScGetsockname fd _ _ | ScGetpeername fd _ _ | ScDup fd | ScClose fd => is_int fd
  | ScSetfl fd _ => is_int fd ∧ ∀ o, fd_map p fd ≠ Some (NotSock o)
  | ScDup2 fd new => is_int fd ∧ is_int new
  end.

Lemma forget_ok {A} (o : outcome (Z * A * posix obj world)) : (∃ r a p', o = Ret (r, a, p') ∧ sock_ok p') → ∃ r p', forget o = Ret (r, p') ∧ sock_ok p'.
Proof. intros (r & a & p' & -> & Hp). by eexists _, _. Qed.
Lemma net_fd_ok (m : sock → SM world LinuxError.t unit) fd p : sock_ok p → is_int fd → (∀ s, live s (px_world p) → sock_safe (m s) (px_world p)) →
  ∃ r p', syscall_body (let! s := from_fd fd in do! on_world (m s) in sm_ret 0) p = Ret (r, p') ∧ sock_ok p'.
Proof. intros Hp Hfd Hm. apply psafe_call, (fd_call_ok m (λ _, 0) fd p Hp Hfd). intros s _ Hl. by apply Hm. Qed.

End sock_refs.
