(* ===== verification/PosixNetDemo.v ===== *)
(** The theorems of [PosixNetProps.v] at a concrete state: a server that is set up through
    descriptors over the protocol stack of [NetDemo.v]. *)

From stdpp Require Import prelude gmap list.
From Stdlib Require Import ZArith Lia.
From S2P Require Import Prelude FdTable Net NetSockets NetInv NetSafe NetProps NetDemo PosixNet PosixNetProps AxfsDemo.
Local Open Scope Z_scope.
Local Open Scope kernel_scope.

#[local] Existing Instances closed_like std_errnos std_errnos_laws std_table std_table_laws.
Abbreviation sock_posix := (posix (SockFl unit) (sworld Z)).
Definition other_count (f : unit) (w : Z) : Z := w.

Definition idle (rx : list (list (list Z))) : sock_posix :=
  {| FD_TABLE := obj_new; px_world := {| sw_net := net_init eth rx; sw_tcp := ∅; sw_udp := ∅; sw_other := 0 |} |}.
Lemma idle_ok rx : sock_ok other_count (idle rx).
Proof.
  split; [split; cbn; [apply net_init_inv|by intros i k ?%lookup_empty_Some..]|]. intros f. assert (fds_of f (idle rx) = []) as ->.
  { unfold fds_of. induction fd_range as [|j l IH]; [done|]. rewrite filter_cons, IH. rewrite decide_False; [done|].
    unfold fd_map. cbn. destruct (in_limit j); [by rewrite lookup_empty|done]. }
  destruct f; cbn; [by rewrite lookup_empty..|done].
Qed.

Definition sock_after (cs : list sock_call) (p : sock_posix) : sock_posix :=
  fold_left (λ p c, match run_sock c p with Ret (_, p) => p | Panic => p end) cs p.
Definition any_in (port : Z) : option sockaddr_in := Some (sockaddr_in_from (0, 0, 0, 0) port).
Definition server_setup : list sock_call := [ScSocket AF_INET SOCK_STREAM 0; ScDup2 0 5; ScSetfl 5 O_NONBLOCK; ScBind 5 (any_in 80) 16; ScListen 5].

Lemma sockaddr_roundtrip_witness : ∃ sa len, into_sockaddr {| sa_ip := IpV4 (10, 0, 0, 2); sa_port := 8080 |} = Ret (sa, len) ∧
  from_sockaddr (Some sa) len = Ok {| sa_ip := IpV4 (10, 0, 0, 2); sa_port := 8080 |}.
Proof.
  destruct (sockaddr_roundtrip (10, 0, 0, 2) 8080) as (sa & len & Hi & Hf & _); [unfold octets_ok; lia|lia|]. exists sa, len. split; [exact Hi|exact Hf].
Defined.

(** A server is created, set to the nonblocking mode, bound and set to listen; [accept]
    then takes the connection that arrives. *)
Definition one_client : list (list (list Z)) := [[[0; 10; 0; 0; 1; 80]]; [[1; 0]]].

(** ** What goes wrong *)

(** A datagram socket connected to [10.0.0.9:53] gets the datagram of another peer from
    [recv], which the [recv] of the network module refuses. *)
Definition dgram_setup : list sock_call :=
  [ScSocket AF_INET SOCK_DGRAM 0; ScDup2 0 5; ScSetfl 5 O_NONBLOCK; ScBind 5 (any_in 53) 16; ScConnect 5 (Some (sockaddr_in_from (10, 0, 0, 9) 53)) 16].
Definition dgram : sock_posix :=
  let p := sock_after dgram_setup (idle [[[3; 0; 7; 8]]]) in set_world (set_net (poll_interfaces (sw_net (px_world p))) (px_world p)) p.
Example udp_recv_unfiltered :
  match sys_recv 5 (Some tt) 16 dgram with Ret (r, data, _) => (r, data) = (2, [7; 8]) | Panic => False end ∧
  match udp_recv 0 16 [] (sw_net (px_world dgram)) with Ret (r, _) => is_ok r = false | Panic => False end.
Proof. vm_compute. split; reflexivity. Qed.
