(* ===== verification/ElfParse.v ===== *)
(** Parsing ELF structures: [modules/elf], the files [endian], [parse], [file],
    [segment], [section], [symbol], [relocation], [dynamic], [compression] and
    [string_table].

    Bytes are [Z]s below 256 and a byte slice is a list of them.  A parsing
    function works on a slice and on the offset it was given as [&mut usize]: it is
    a computation of the state monad over the offset.  The traits [EndianParse] and
    [ParseAt] are type classes with the implementations of the crate as
    instances. *)

From S2P Require Import Prelude.
From stdpp Require Import prelude list.
From Stdlib Require Import ZArith Lia.
Local Open Scope Z_scope.
Local Open Scope kernel_scope.

(** ** Errors *)

Inductive ParseError : Type :=
| BadMagic (magic : list Z)
| UnsupportedElfClass (class : Z)
| UnsupportedElfEndianness (endianness : Z)
| UnsupportedVersion (found expected : Z)
| BadOffset (offset : Z)
| StringTableMissingNul (offset : Z)
| BadEntsize (found expected : Z)
| UnexpectedSectionType (found expected : Z)
| UnexpectedSegmentType (found expected : Z)
| UnexpectedAlignment (align : Z)
| SliceReadError (start end_ : Z)
| IntegerOverflow
| Utf8Error
| TryFromSliceError
| TryFromIntError
| IOError.
#[export] Instance ParseError_eq_dec : EqDecision ParseError.
Proof. solve_decision. Defined.

(** A function that returns a [Result] and may panic, with [?]. *)
Definition PR (A : Type) : Type := outcome (result A ParseError).
Definition pr_bind {A B} (m : PR A) (f : A → PR B) : PR B :=
  match m with
  | Ret (Ok a) => f a
  | Ret (Err e) => Ret (Err e)
  | Panic => Panic
  end.
Definition pr_lift {A} (m : outcome A) : PR A := Ok <$> m.
Notation "'let*' x ':=' m 'in' k" := (pr_bind m (λ x, k))
  (at level 10, x name, m at level 100, k at level 200) : kernel_scope.

(** ** Slices *)

Abbreviation bytes := (list Z).
Definition len (data : bytes) : Z := Z.of_nat (length data).

(** [data.get(start..end)]. *)
Definition slice (data : bytes) (start end_ : Z) : option bytes :=
  if (start <=? end_) && (end_ <=? len data)
  then Some (take (Z.to_nat (end_ - start)) (drop (Z.to_nat start) data)) else None.
(** [data.get(start..)]. *)
Definition slice_from (data : bytes) (start : Z) : option bytes :=
  if start <=? len data then Some (drop (Z.to_nat start) data) else None.
(** [data[i]]. *)
Definition index (data : bytes) (i : Z) : outcome Z := opt_unwrap (data !! Z.to_nat i).

Definition get_bytes (data : bytes) (start end_ : Z) : result bytes ParseError :=
  ok_or (slice data start end_) (SliceReadError start end_).

(** [from_le_bytes], [from_be_bytes], and the signed reading of [n] bytes. *)
Fixpoint le_val (l : bytes) : Z := match l with [] => 0 | b :: l => b + 256 * le_val l end.
Definition be_val (l : bytes) : Z := le_val (rev l).
Definition signed (n : Z) (x : Z) : Z := if x <? 2 ^ (8 * n - 1) then x else x - 2 ^ (8 * n).

(** [core::str::from_utf8] accepts the well-formed byte sequences. *)
Definition cont (b : Z) : bool := (0x80 <=? b) && (b <=? 0xBF).
Definition between (lo hi b : Z) : bool := (lo <=? b) && (b <=? hi).
Fixpoint valid_utf8 (l : bytes) : bool :=
  match l with
  | [] => true
  | b0 :: l1 =>
      if b0 <=? 0x7F then valid_utf8 l1
      else
        match l1 with
        | [] => false
        | b1 :: l2 =>
            if between 0xC2 0xDF b0 then cont b1 && valid_utf8 l2
            else
              match l2 with
              | [] => false
              | b2 :: l3 =>
                  if between 0xE0 0xEF b0 then
                    (if b0 =? 0xE0 then between 0xA0 0xBF b1
                     else if b0 =? 0xED then between 0x80 0x9F b1 else cont b1) &&
                    cont b2 && valid_utf8 l3
                  else
                    match l3 with
                    | [] => false
                    | b3 :: l4 =>
                        between 0xF0 0xF4 b0 &&
                        (if b0 =? 0xF0 then between 0x90 0xBF b1
                         else if b0 =? 0xF4 then between 0x80 0x8F b1 else cont b1) &&
                        cont b2 && cont b3 && valid_utf8 l4
                    end
              end
        end
  end.
Definition from_utf8 (l : bytes) : result bytes ParseError := if valid_utf8 l then Ok l else Err Utf8Error.

(** ** [endian.rs] *)

Definition ELFDATA2LSB : Z := 1.
Definition ELFDATA2MSB : Z := 2.

Class EndianParse (E : Type) : Type := {
  is_little : E → bool;
  from_ei_data : Z → result E ParseError;
}.

Inductive AnyEndian : Type := Little | Big.
Inductive LittleEndian : Type := LittleEndian_.
Inductive BigEndian : Type := BigEndian_.

#[export] Instance LittleEndian_parse : EndianParse LittleEndian := {|
  is_little _ := true;
  from_ei_data ei_data :=
    if ei_data =? ELFDATA2LSB then Ok LittleEndian_ else Err (UnsupportedElfEndianness ei_data);
|}.
#[export] Instance BigEndian_parse : EndianParse BigEndian := {|
  is_little _ := false;
  from_ei_data ei_data :=
    if ei_data =? ELFDATA2MSB then Ok BigEndian_ else Err (UnsupportedElfEndianness ei_data);
|}.
#[export] Instance AnyEndian_parse : EndianParse AnyEndian := {|
  is_little e := match e with Little => true | Big => false end;
  from_ei_data ei_data :=
    if ei_data =? ELFDATA2LSB then Ok Little
    else if ei_data =? ELFDATA2MSB then Ok Big
    else Err (UnsupportedElfEndianness ei_data);
|}.

Section endian.
Context {E : Type} `{EndianParse E}.

(** The macro [safe_from], for a type of [size] bytes. *)
Definition safe_from (size : Z) (endian : E) (data : bytes) : SM Z ParseError Z := λ off,
  match checked_add off size with
  | None => Ret (Err IntegerOverflow, off)
  | Some end_ =>
      match slice data off end_ with
      | None => Ret (Err (SliceReadError off end_), off)
      | Some buf => Ret (Ok (if is_little endian then le_val buf else be_val buf), end_)
      end
  end.

Definition parse_u8_at (endian : E) (data : bytes) : SM Z ParseError Z := safe_from 1 endian data.
Definition parse_u16_at (endian : E) (data : bytes) : SM Z ParseError Z := safe_from 2 endian data.
Definition parse_u32_at (endian : E) (data : bytes) : SM Z ParseError Z := safe_from 4 endian data.
Definition parse_u64_at (endian : E) (data : bytes) : SM Z ParseError Z := safe_from 8 endian data.
Definition parse_i32_at (endian : E) (data : bytes) : SM Z ParseError Z :=
  let! x := safe_from 4 endian data in sm_ret (signed 4 x).
Definition parse_i64_at (endian : E) (data : bytes) : SM Z ParseError Z :=
  let! x := safe_from 8 endian data in sm_ret (signed 8 x).

End endian.

(** ** [parse.rs] *)

Inductive ElfClass : Type := ELF32 | ELF64.
#[export] Instance ElfClass_eq_dec : EqDecision ElfClass.
Proof. solve_decision. Defined.

Class ParseAt (P : Type) : Type := {
  parse_at : ∀ {E : Type} `{EndianParse E}, E → ElfClass → bytes → SM Z ParseError P;
  size_for : ElfClass → Z;
}.
Arguments size_for P {_} _.

Definition validate_entsize (P : Type) `{ParseAt P} (class : ElfClass) (entsize : Z) : result Z ParseError :=
  let expected := size_for P class in
  if entsize =? expected then Ok entsize else Err (BadEntsize entsize expected).

(** [ParsingTable] and [ParsingIterator]; the iterator is its table and an offset. *)
Record ParsingTable (E P : Type) : Type := {
  table_endian : E;
  table_class : ElfClass;
  table_data : bytes;
}.
Arguments Build_ParsingTable {E P} _ _ _.
Arguments table_endian {E P} _.
Arguments table_class {E P} _.
Arguments table_data {E P} _.

Section tables.
Context {E P : Type} `{EndianParse E, ParseAt P}.

Definition table_len (t : ParsingTable E P) : Z := len (table_data t) / size_for P (table_class t).
Definition table_is_empty (t : ParsingTable E P) : bool := table_len t =? 0.

Definition table_get (t : ParsingTable E P) (i : Z) : PR P :=
  match table_data t with
  | [] => Ret (Err (BadOffset i))
  | _ =>
      let entsize := size_for P (table_class t) in
      match checked_mul i entsize with
      | None => Ret (Err IntegerOverflow)
      | Some start =>
          if len (table_data t) <? start then Ret (Err (BadOffset i))
          else fst <$> parse_at (table_endian t) (table_class t) (table_data t) start
      end
  end.

(** [next] of the iterator at [offset]. *)
Definition iter_next (t : ParsingTable E P) (offset : Z) : outcome (option P * Z) :=
  match table_data t with
  | [] => Ret (None, offset)
  | _ =>
      r ← parse_at (table_endian t) (table_class t) (table_data t) offset;
      Ret (match fst r with Ok p => Some p | Err _ => None end, snd r)
  end.

(** The items a [for] loop over the iterator sees.  Running out of fuel counts as a
    panic, which [table_items_spec] excludes: an item takes at least one byte. *)
Fixpoint iter_collect (fuel : nat) (t : ParsingTable E P) (offset : Z) : outcome (list P) :=
  match fuel with
  | O => Panic
  | S n =>
      r ← iter_next t offset;
      match fst r with
      | None => Ret []
      | Some p => rest ← iter_collect n t (snd r); Ret (p :: rest)
      end
  end.
Definition table_items (t : ParsingTable E P) : outcome (list P) :=
  iter_collect (S (length (table_data t))) t 0.
(** [iter().find(p)]. *)
Definition table_find (p : P → bool) (t : ParsingTable E P) : outcome (option P) :=
  l ← table_items t; Ret (List.find p l).

End tables.

(** ** [file.rs] *)

Definition EI_CLASS : Z := 4.
Definition EI_DATA : Z := 5.
Definition EI_VERSION : Z := 6.
Definition EI_OSABI : Z := 7.
Definition EI_ABIVERSION : Z := 8.
Definition EI_NIDENT : Z := 16.
Definition ELFMAGIC : bytes := [0x7f; 0x45; 0x4c; 0x46].
Definition ELFCLASS32 : Z := 1.
Definition ELFCLASS64 : Z := 2.
Definition EV_CURRENT : Z := 1.
Definition ELF32_EHDR_TAILSIZE : Z := 36.
Definition ELF64_EHDR_TAILSIZE : Z := 48.

Record FileHeader (E : Type) : Type := {
  class : ElfClass;
  endianness : E;
  version : Z;
  osabi : Z;
  abiversion : Z;
  e_type : Z;
  e_machine : Z;
  e_entry : Z;
  e_phoff : Z;
  e_shoff : Z;
  e_flags : Z;
  e_ehsize : Z;
  e_phentsize : Z;
  e_phnum : Z;
  e_shentsize : Z;
  e_shnum : Z;
  e_shstrndx : Z;
}.
Arguments class {E} _.
Arguments endianness {E} _.
Arguments version {E} _.
Arguments osabi {E} _.
Arguments abiversion {E} _.
Arguments e_type {E} _.
Arguments e_machine {E} _.
Arguments e_entry {E} _.
Arguments e_phoff {E} _.
Arguments e_shoff {E} _.
Arguments e_flags {E} _.
Arguments e_ehsize {E} _.
Arguments e_phentsize {E} _.
Arguments e_phnum {E} _.
Arguments e_shentsize {E} _.
Arguments e_shnum {E} _.
Arguments e_shstrndx {E} _.

(** [verify_ident]: [split_at] and the indexing panic on a short buffer. *)
Definition verify_ident (buf : bytes) : PR unit :=
  if len buf <? EI_CLASS then Panic
  else
    let magic := take (Z.to_nat EI_CLASS) buf in
    if bool_decide (magic = ELFMAGIC) then
      version ← index buf EI_VERSION;
      Ret (if version =? EV_CURRENT then Ok tt else Err (UnsupportedVersion version EV_CURRENT))
    else Ret (Err (BadMagic magic)).

Section file.
Context {E : Type} `{EndianParse E}.

Definition parse_ident (data : bytes) : PR (E * ElfClass * Z * Z) :=
  let* _ := verify_ident data in
  let* e_class := pr_lift (index data EI_CLASS) in
  let* class :=
    Ret (if e_class =? ELFCLASS32 then Ok ELF32
         else if e_class =? ELFCLASS64 then Ok ELF64
         else Err (UnsupportedElfClass e_class)) in
  let* ei_data := pr_lift (index data EI_DATA) in
  let* file_endian := Ret (from_ei_data ei_data) in
  let* osabi := pr_lift (index data EI_OSABI) in
  let* abiversion := pr_lift (index data EI_ABIVERSION) in
  Ret (Ok (file_endian, class, osabi, abiversion)).

(** The three fields that are 4 bytes wide in a 32-bit file and 8 in a 64-bit one. *)
Definition parse_word_at (class : ElfClass) (endian : E) (data : bytes) : SM Z ParseError Z :=
  match class with ELF32 => parse_u32_at endian data | ELF64 => parse_u64_at endian data end.

Definition parse_tail (ident : E * ElfClass * Z * Z) (data : bytes) : PR (FileHeader E) :=
  let '(file_endian, class, osabi, abiversion) := ident in
  fst <$>
  (let! e_type := parse_u16_at file_endian data in
   let! e_machine := parse_u16_at file_endian data in
   let! version := parse_u32_at file_endian data in
   let! e_entry := parse_word_at class file_endian data in
   let! e_phoff := parse_word_at class file_endian data in
   let! e_shoff := parse_word_at class file_endian data in
   let! e_flags := parse_u32_at file_endian data in
   let! e_ehsize := parse_u16_at file_endian data in
   let! e_phentsize := parse_u16_at file_endian data in
   let! e_phnum := parse_u16_at file_endian data in
   let! e_shentsize := parse_u16_at file_endian data in
   let! e_shnum := parse_u16_at file_endian data in
   let! e_shstrndx := parse_u16_at file_endian data in
   sm_ret (Build_FileHeader E class file_endian version osabi abiversion e_type e_machine e_entry e_phoff
             e_shoff e_flags e_ehsize e_phentsize e_phnum e_shentsize e_shnum e_shstrndx)) 0.

(** ** [segment.rs] *)

Record ProgramHeader : Type := {
  p_type : Z; p_offset : Z; p_vaddr : Z; p_paddr : Z; p_filesz : Z; p_memsz : Z; p_flags : Z; p_align : Z }.

Definition ProgramHeader_parse_at (endian : E) (class : ElfClass) (data : bytes) : SM Z ParseError ProgramHeader :=
  match class with
  | ELF32 =>
      let! p_type := parse_u32_at endian data in
      let! p_offset := parse_u32_at endian data in
      let! p_vaddr := parse_u32_at endian data in
      let! p_paddr := parse_u32_at endian data in
      let! p_filesz := parse_u32_at endian data in
      let! p_memsz := parse_u32_at endian data in
      let! p_flags := parse_u32_at endian data in
      let! p_align := parse_u32_at endian data in
      sm_ret (Build_ProgramHeader p_type p_offset p_vaddr p_paddr p_filesz p_memsz p_flags p_align)
  | ELF64 =>
      let! p_type := parse_u32_at endian data in
      let! p_flags := parse_u32_at endian data in
      let! p_offset := parse_u64_at endian data in
      let! p_vaddr := parse_u64_at endian data in
      let! p_paddr := parse_u64_at endian data in
      let! p_filesz := parse_u64_at endian data in
      let! p_memsz := parse_u64_at endian data in
      let! p_align := parse_u64_at endian data in
      sm_ret (Build_ProgramHeader p_type p_offset p_vaddr p_paddr p_filesz p_memsz p_flags p_align)
  end.
Definition ProgramHeader_size_for (class : ElfClass) : Z := match class with ELF32 => 32 | ELF64 => 56 end.

(** A 64-bit [usize]: the [try_into]s succeed. *)
Definition get_file_data_range (ph : ProgramHeader) : result (Z * Z) ParseError :=
  match checked_add (p_offset ph) (p_filesz ph) with
  | Some end_ => Ok (p_offset ph, end_)
  | None => Err IntegerOverflow
  end.

(** ** [section.rs] *)

Record SectionHeader : Type := {
  sh_name : Z; sh_type : Z; sh_flags : Z; sh_addr : Z; sh_offset : Z; sh_size : Z; sh_link : Z; sh_info : Z;
  sh_addralign : Z; sh_entsize : Z }.

Definition SectionHeader_parse_at (endian : E) (class : ElfClass) (data : bytes) : SM Z ParseError SectionHeader :=
  match class with
  | ELF32 =>
      let! sh_name := parse_u32_at endian data in
      let! sh_type := parse_u32_at endian data in
      let! sh_flags := parse_u32_at endian data in
      let! sh_addr := parse_u32_at endian data in
      let! sh_offset := parse_u32_at endian data in
      let! sh_size := parse_u32_at endian data in
      let! sh_link := parse_u32_at endian data in
      let! sh_info := parse_u32_at endian data in
      let! sh_addralign := parse_u32_at endian data in
      let! sh_entsize := parse_u32_at endian data in
      sm_ret (Build_SectionHeader sh_name sh_type sh_flags sh_addr sh_offset sh_size sh_link sh_info sh_addralign sh_entsize)
  | ELF64 =>
      let! sh_name := parse_u32_at endian data in
      let! sh_type := parse_u32_at endian data in
      let! sh_flags := parse_u64_at endian data in
      let! sh_addr := parse_u64_at endian data in
      let! sh_offset := parse_u64_at endian data in
      let! sh_size := parse_u64_at endian data in
      let! sh_link := parse_u32_at endian data in
      let! sh_info := parse_u32_at endian data in
      let! sh_addralign := parse_u64_at endian data in
      let! sh_entsize := parse_u64_at endian data in
      sm_ret (Build_SectionHeader sh_name sh_type sh_flags sh_addr sh_offset sh_size sh_link sh_info sh_addralign sh_entsize)
  end.
Definition SectionHeader_size_for (class : ElfClass) : Z := match class with ELF32 => 40 | ELF64 => 64 end.

Definition get_data_range (sh : SectionHeader) : result (Z * Z) ParseError :=
  match checked_add (sh_offset sh) (sh_size sh) with
  | Some end_ => Ok (sh_offset sh, end_)
  | None => Err IntegerOverflow
  end.

(** ** [symbol.rs] *)

Definition SHN_UNDEF : Z := 0.

Record Symbol : Type := {
  st_name : Z; st_shndx : Z; st_info : Z; st_other : Z; st_value : Z; st_size : Z }.

Definition is_undefined (s : Symbol) : bool := st_shndx s =? SHN_UNDEF.
Definition st_symtype (s : Symbol) : Z := Z.land (st_info s) 0xf.
Definition st_bind (s : Symbol) : Z := Z.shiftr (st_info s) 4.
Definition st_vis (s : Symbol) : Z := Z.land (st_other s) 0x3.

Definition Symbol_parse_at (endian : E) (class : ElfClass) (data : bytes) : SM Z ParseError Symbol :=
  match class with
  | ELF32 =>
      let! st_name := parse_u32_at endian data in
      let! st_value := parse_u32_at endian data in
      let! st_size := parse_u32_at endian data in
      let! st_info := parse_u8_at endian data in
      let! st_other := parse_u8_at endian data in
      let! st_shndx := parse_u16_at endian data in
      sm_ret (Build_Symbol st_name st_shndx st_info st_other st_value st_size)
  | ELF64 =>
      let! st_name := parse_u32_at endian data in
      let! st_info := parse_u8_at endian data in
      let! st_other := parse_u8_at endian data in
      let! st_shndx := parse_u16_at endian data in
      let! st_value := parse_u64_at endian data in
      let! st_size := parse_u64_at endian data in
      sm_ret (Build_Symbol st_name st_shndx st_info st_other st_value st_size)
  end.
Definition Symbol_size_for (class : ElfClass) : Z := match class with ELF32 => 16 | ELF64 => 24 end.

(** ** [relocation.rs], [dynamic.rs], [compression.rs] *)

Record Rel : Type := { rel_offset : Z; rel_sym : Z; rel_type : Z }.
Record Rela : Type := { rela_offset : Z; rela_sym : Z; rela_type : Z; rela_addend : Z }.

(** [r_sym] and [r_type] of [r_info]. *)
Definition r_info_sym (class : ElfClass) (r_info : Z) : Z :=
  match class with ELF32 => Z.shiftr r_info 8 | ELF64 => Z.shiftr r_info 32 end.
Definition r_info_type (class : ElfClass) (r_info : Z) : Z :=
  match class with ELF32 => Z.land r_info 0xFF | ELF64 => Z.land r_info 0xFFFFFFFF end.

Definition Rel_parse_at (endian : E) (class : ElfClass) (data : bytes) : SM Z ParseError Rel :=
  let! r_offset := parse_word_at class endian data in
  let! r_info := parse_word_at class endian data in
  sm_ret (Build_Rel r_offset (r_info_sym class r_info) (r_info_type class r_info)).
Definition Rel_size_for (class : ElfClass) : Z := match class with ELF32 => 8 | ELF64 => 16 end.

Definition parse_sword_at (class : ElfClass) (endian : E) (data : bytes) : SM Z ParseError Z :=
  match class with ELF32 => parse_i32_at endian data | ELF64 => parse_i64_at endian data end.

Definition Rela_parse_at (endian : E) (class : ElfClass) (data : bytes) : SM Z ParseError Rela :=
  let! r_offset := parse_word_at class endian data in
  let! r_info := parse_word_at class endian data in
  let! r_addend := parse_sword_at class endian data in
  sm_ret (Build_Rela r_offset (r_info_sym class r_info) (r_info_type class r_info) r_addend).
Definition Rela_size_for (class : ElfClass) : Z := match class with ELF32 => 12 | ELF64 => 24 end.

Record Dyn : Type := { d_tag : Z; d_un : Z }.
Definition Dyn_parse_at (endian : E) (class : ElfClass) (data : bytes) : SM Z ParseError Dyn :=
  let! d_tag := parse_sword_at class endian data in
  let! d_un := parse_word_at class endian data in
  sm_ret (Build_Dyn d_tag d_un).
(** The union [d_un] as a value and as an address. *)
Definition d_val (d : Dyn) : Z := d_un d.
Definition d_ptr (d : Dyn) : Z := d_un d.
Definition Dyn_size_for (class : ElfClass) : Z := match class with ELF32 => 8 | ELF64 => 16 end.

Record CompressionHeader : Type := { ch_type : Z; ch_size : Z; ch_addralign : Z }.
Definition CompressionHeader_parse_at (endian : E) (class : ElfClass) (data : bytes) :
    SM Z ParseError CompressionHeader :=
  match class with
  | ELF32 =>
      let! ch_type := parse_u32_at endian data in
      let! ch_size := parse_u32_at endian data in
      let! ch_addralign := parse_u32_at endian data in
      sm_ret (Build_CompressionHeader ch_type ch_size ch_addralign)
  | ELF64 =>
      let! ch_type := parse_u32_at endian data in
      do! parse_u32_at endian data in
      let! ch_size := parse_u64_at endian data in
      let! ch_addralign := parse_u64_at endian data in
      sm_ret (Build_CompressionHeader ch_type ch_size ch_addralign)
  end.
Definition CompressionHeader_size_for (class : ElfClass) : Z := match class with ELF32 => 12 | ELF64 => 24 end.

End file.

#[export] Instance ProgramHeader_ParseAt : ParseAt ProgramHeader :=
  {| parse_at E _ := ProgramHeader_parse_at; size_for := ProgramHeader_size_for |}.
#[export] Instance SectionHeader_ParseAt : ParseAt SectionHeader :=
  {| parse_at E _ := SectionHeader_parse_at; size_for := SectionHeader_size_for |}.
#[export] Instance Symbol_ParseAt : ParseAt Symbol :=
  {| parse_at E _ := Symbol_parse_at; size_for := Symbol_size_for |}.
#[export] Instance Rel_ParseAt : ParseAt Rel := {| parse_at E _ := Rel_parse_at; size_for := Rel_size_for |}.
#[export] Instance Rela_ParseAt : ParseAt Rela := {| parse_at E _ := Rela_parse_at; size_for := Rela_size_for |}.
#[export] Instance Dyn_ParseAt : ParseAt Dyn := {| parse_at E _ := Dyn_parse_at; size_for := Dyn_size_for |}.
#[export] Instance CompressionHeader_ParseAt : ParseAt CompressionHeader :=
  {| parse_at E _ := CompressionHeader_parse_at; size_for := CompressionHeader_size_for |}.

(** ** [string_table.rs] *)

(** The text before the first NUL byte. *)
Fixpoint until_nul (l : bytes) : option bytes :=
  match l with
  | [] => None
  | b :: l => if b =? 0 then Some [] else r ← until_nul l; Some (b :: r)
  end.
Definition strtab_get_raw (data : bytes) (offset : Z) : result bytes ParseError :=
  match data with
  | [] => Err (BadOffset offset)
  | _ =>
      let? start := ok_or (slice_from data offset) (BadOffset offset) in
      ok_or (until_nul start) (StringTableMissingNul offset)
  end.
Definition strtab_get (data : bytes) (offset : Z) : result bytes ParseError :=
  let? raw_data := strtab_get_raw data offset in from_utf8 raw_data.

(** ** The C layouts

    The crate spells out the on-disk layouts as [#[repr(C)]] structs; here they are
    lists of fields with their sizes in bytes, the fields named by the projections of
    the class-independent record. *)

Abbreviation c_struct P := (list ((P → Z) * Z)).

Definition Elf32_Ehdr_tail {E} : c_struct (FileHeader E) :=
  [(e_type, 2); (e_machine, 2); (version, 4); (e_entry, 4); (e_phoff, 4); (e_shoff, 4); (e_flags, 4);
   (e_ehsize, 2); (e_phentsize, 2); (e_phnum, 2); (e_shentsize, 2); (e_shnum, 2); (e_shstrndx, 2)].
Definition Elf64_Ehdr_tail {E} : c_struct (FileHeader E) :=
  [(e_type, 2); (e_machine, 2); (version, 4); (e_entry, 8); (e_phoff, 8); (e_shoff, 8); (e_flags, 4);
   (e_ehsize, 2); (e_phentsize, 2); (e_phnum, 2); (e_shentsize, 2); (e_shnum, 2); (e_shstrndx, 2)].
Definition Elf32_Phdr : c_struct ProgramHeader :=
  [(p_type, 4); (p_offset, 4); (p_vaddr, 4); (p_paddr, 4); (p_filesz, 4); (p_memsz, 4); (p_flags, 4); (p_align, 4)].
Definition Elf64_Phdr : c_struct ProgramHeader :=
  [(p_type, 4); (p_flags, 4); (p_offset, 8); (p_vaddr, 8); (p_paddr, 8); (p_filesz, 8); (p_memsz, 8); (p_align, 8)].
Definition Elf32_Shdr : c_struct SectionHeader :=
  [(sh_name, 4); (sh_type, 4); (sh_flags, 4); (sh_addr, 4); (sh_offset, 4); (sh_size, 4); (sh_link, 4);
   (sh_info, 4); (sh_addralign, 4); (sh_entsize, 4)].
Definition Elf64_Shdr : c_struct SectionHeader :=
  [(sh_name, 4); (sh_type, 4); (sh_flags, 8); (sh_addr, 8); (sh_offset, 8); (sh_size, 8); (sh_link, 4);
   (sh_info, 4); (sh_addralign, 8); (sh_entsize, 8)].
Definition Elf32_Sym : c_struct Symbol :=
  [(st_name, 4); (st_value, 4); (st_size, 4); (st_info, 1); (st_other, 1); (st_shndx, 4)].
Definition Elf64_Sym : c_struct Symbol :=
  [(st_name, 4); (st_info, 1); (st_other, 1); (st_shndx, 2); (st_value, 8); (st_size, 8)].
Definition rel_info (class : ElfClass) (sym type : Z) : Z :=
  match class with ELF32 => sym * 2 ^ 8 + type | ELF64 => sym * 2 ^ 32 + type end.
Definition Elf32_Rel : c_struct Rel := [(rel_offset, 4); (λ r, rel_info ELF32 (rel_sym r) (rel_type r), 4)].
Definition Elf64_Rel : c_struct Rel := [(rel_offset, 8); (λ r, rel_info ELF64 (rel_sym r) (rel_type r), 8)].
Definition Elf32_Rela : c_struct Rela :=
  [(rela_offset, 4); (λ r, rel_info ELF32 (rela_sym r) (rela_type r), 4); (rela_addend, 4)].
Definition Elf64_Rela : c_struct Rela :=
  [(rela_offset, 8); (λ r, rel_info ELF64 (rela_sym r) (rela_type r), 8); (rela_addend, 8)].
Definition Elf32_Dyn : c_struct Dyn := [(d_tag, 4); (d_un, 4)].
Definition Elf64_Dyn : c_struct Dyn := [(d_tag, 8); (d_un, 8)].
Definition Elf32_Chdr : c_struct CompressionHeader := [(ch_type, 4); (ch_size, 4); (ch_addralign, 4)].
Definition Elf64_Chdr : c_struct CompressionHeader :=
  [(ch_type, 4); (λ _, 0, 4); (ch_size, 8); (ch_addralign, 8)].

(** The symbol layout the 32-bit parser reads: [st_shndx] is a half word. *)
Definition sym32 : c_struct Symbol :=
  [(st_name, 4); (st_value, 4); (st_size, 4); (st_info, 1); (st_other, 1); (st_shndx, 2)].

(** [size_of] of a [repr(C)] struct of integers. *)
Definition round_up (x a : Z) : Z := (x + a - 1) / a * a.
Definition fields_end {P} (l : c_struct P) : Z := fold_left (λ off f, round_up off (snd f) + snd f) l 0.
Definition c_sizeof {P} (l : c_struct P) : Z := round_up (fields_end l) (fold_right Z.max 1 (snd <$> l)).
Definition fields_size {P} (l : c_struct P) : Z := fold_right Z.add 0 (snd <$> l).

(** The [w] bytes of an integer, and the bytes of a struct followed by [rest]. *)
Fixpoint le_bytes (w : nat) (x : Z) : bytes :=
  match w with O => [] | S w => x mod 256 :: le_bytes w (x / 256) end.
Definition enc {E} `{EndianParse E} (endian : E) (w x : Z) : bytes :=
  if is_little endian then le_bytes (Z.to_nat w) x else rev (le_bytes (Z.to_nat w) x).
Definition encode_then {E P} `{EndianParse E} (endian : E) (l : c_struct P) (p : P) (rest : bytes) : bytes :=
  fold_right (λ f acc, enc endian (snd f) (fst f p) ++ acc) rest l.
Definition encode {E P} `{EndianParse E} (endian : E) (l : c_struct P) (p : P) : bytes := encode_then endian l p [].

(** The unsigned fields fit their widths. *)
Definition fits {P} (l : c_struct P) (p : P) : Prop := Forall (λ f, 0 ≤ fst f p < 256 ^ snd f) l.
Definition fits_signed (w x : Z) : Prop := - 2 ^ (8 * w - 1) ≤ x < 2 ^ (8 * w - 1).

(** ** What a parser of fixed-size entries promises *)

(** On a slice of [L] bytes, [m] reads [n] bytes when they are there and fails
    otherwise, never leaving the slice. *)
Definition exact {A} (L n : Z) (m : SM Z ParseError A) : Prop :=
  ∀ off, 0 ≤ off →
    ((off + n ≤ L ∨ n = 0) → ∃ a, m off = Ret (Ok a, off + n)) ∧
    ((L < off + n ∧ 0 < n) → ∃ e off', m off = Ret (Err e, off') ∧ off ≤ off' ≤ Z.max off L).

(** A slice is at most [isize::MAX] bytes long. *)
Definition slice_ok (data : bytes) : Prop := len data < 2 ^ 63.

Definition bytes_ok (data : bytes) : Prop := Forall (λ b, 0 ≤ b < 256) data.
Definition table_ok {E P} (t : ParsingTable E P) : Prop := slice_ok (table_data t) ∧ bytes_ok (table_data t).

(** The function comes back, with a value or an error. *)
Definition returns {A} (m : outcome A) : Prop := ∃ r, m = Ret r.

Class ExactParse (P : Type) `{ParseAt P} : Prop := {
  exact_size : ∀ class, 0 < size_for P class ≤ 64;
  exact_parse : ∀ {E} `{EndianParse E} (endian : E) class data,
    slice_ok data → exact (len data) (size_for P class) (parse_at (P := P) endian class data);
}.

(** The rest of [data] from [off] on is [l]. *)
Definition at_off (data : bytes) (off : Z) (l : bytes) : Prop :=
  0 ≤ off ≤ len data ∧ drop (Z.to_nat off) data = l.

Class Format (P : Type) `{ParseAt P} : Type := {
  fields : ElfClass → c_struct P;
  wf_entry : ElfClass → P → Prop;
  fields_sized : ∀ class, fields_size (fields class) = size_for P class ∧ Forall (λ f, 0 < snd f) (fields class);
  parse_encoded : ∀ {E} `{EndianParse E} (endian : E) class data off p rest,
    slice_ok data → wf_entry class p → at_off data off (encode_then endian (fields class) p rest) →
    parse_at endian class data off = Ret (Ok p, off + size_for P class);
}.

(** The converse: what was read is well formed and its encoding is what was there. *)
Class FaithfulParse (P : Type) `{Format P} : Prop := {
  parsed_encoded : ∀ {E} `{EndianParse E} (endian : E) class data off p off',
    bytes_ok data → 0 ≤ off → parse_at endian class data off = Ret (Ok p, off') →
    wf_entry class p ∧ drop (Z.to_nat off) data = encode_then endian (fields class) p (drop (Z.to_nat off') data);
}.

(** A table of entries as it lies in the file. *)
Definition encode_table {E P} `{EndianParse E, Format P} (endian : E) (class : ElfClass) (l : list P) : bytes :=
  concat (encode endian (fields class) <$> l).

(** * Lemmas *)

Lemma len_nonneg data : 0 ≤ len data.
Proof. unfold len. lia. Qed.
#[export] Hint Resolve len_nonneg : kernel.

Lemma len_app l k : len (l ++ k) = len l + len k.
Proof. unfold len. rewrite length_app. lia. Qed.

Lemma slice_spec data a b : 0 ≤ a ≤ b → b ≤ len data →
  ∃ l, slice data a b = Some l ∧ len l = b - a.
Proof.
  unfold slice, len. intros. exists (take (Z.to_nat (b - a)) (drop (Z.to_nat a) data)).
  rewrite length_take, length_drop. case_Z; try lia. split; [done|lia].
Qed.
Lemma slice_none data a b : len data < b → slice data a b = None.
Proof. intros. unfold slice. case_Z; try lia; by rewrite ?andb_false_r. Qed.
Lemma slice_len data a b l : 0 ≤ a → slice data a b = Some l → len l = b - a ∧ a ≤ b ≤ len data.
Proof.
  unfold slice, len. intros ? Hs. case_Z; simplify_eq/=.
  rewrite length_take, length_drop. lia.
Qed.

Lemma checked_add_small x y : x + y < 2 ^ 64 → checked_add x y = Some (x + y).
Proof. unfold checked_add. case_Z; done || lia. Qed.
Lemma checked_add_big x y : 2 ^ 64 ≤ x + y → checked_add x y = None.
Proof. unfold checked_add. case_Z; done || lia. Qed.

(** ** Exact parsers *)

Section exact_lemmas.
Context {E : Type} `{EndianParse E}.

Lemma exact_safe_from (endian : E) data n :
  slice_ok data → 0 < n ≤ 8 → exact (len data) n (safe_from n endian data).
Proof.
  unfold slice_ok. intros Hd Hn off Hoff. unfold safe_from. split.
  - intros [?|?]; [|lia]. rewrite checked_add_small by lia.
    destruct (slice_spec data off (off + n)) as (l & -> & _); [lia..|]. eauto.
  - intros [? _]. destruct (Z.lt_ge_cases (off + n) (2 ^ 64)).
    + rewrite checked_add_small, slice_none by lia. repeat eexists; lia.
    + rewrite checked_add_big by lia. repeat eexists; lia.
Qed.

Lemma exact_ret {A} L (a : A) : exact L 0 (sm_ret a).
Proof.
  intros off ?. split; [|lia]. intros _. exists a. unfold sm_ret. by rewrite Z.add_0_r.
Qed.

Lemma exact_bind {A B} L n k (m : SM Z ParseError A) (f : A → SM Z ParseError B) :
  0 ≤ n → 0 ≤ k → exact L n m → (∀ a, exact L k (f a)) → exact L (n + k) (let! x := m in f x).
Proof.
  intros Hn Hk Hm Hf off Hoff. destruct (Hm off Hoff) as [Hok Herr]. unfold sm_bind.
  destruct (Z.lt_ge_cases L (off + n)) as [HL|HL], (Z.eq_dec n 0) as [Hn0|Hn0].
  1,3,4: destruct Hok as [a ->]; [lia|]; destruct (Hf a (off + n)) as [Hok' Herr']; [lia|];
    rewrite Z.add_assoc; split; [intros ?; apply Hok'; lia|];
    intros ?; destruct Herr' as (e & off' & -> & ?); [lia|]; repeat eexists; lia.
  destruct Herr as (e & off' & -> & ?); [lia|]. split; [lia|]. intros _. repeat eexists; lia.
Qed.

Lemma exact_done {A} L n (a : A) : n = 0 → exact L n (sm_ret a).
Proof. intros ->. apply exact_ret. Qed.

Lemma exact_field {A} (endian : E) data w n (f : Z → SM Z ParseError A) :
  slice_ok data → 0 < w ≤ 8 → w ≤ n → (∀ x, exact (len data) (n - w) (f x)) →
  exact (len data) n (let! x := safe_from w endian data in f x).
Proof.
  intros ? ? ? Hf. replace n with (w + (n - w)) by lia.
  apply exact_bind; [lia..| |done]. by apply exact_safe_from.
Qed.

Lemma exact_signed {A} (endian : E) data w w' n (f : Z → SM Z ParseError A) :
  slice_ok data → 0 < w ≤ 8 → w ≤ n → (∀ x, exact (len data) (n - w) (f x)) →
  exact (len data) n (let! x := (let! y := safe_from w endian data in sm_ret (signed w' y)) in f x).
Proof.
  intros ? ? ? Hf. replace n with (w + 0 + (n - w)) by lia.
  apply exact_bind; [lia..| |done]. apply exact_bind; [lia..| |intros; apply exact_ret]. by apply exact_safe_from.
Qed.

End exact_lemmas.

Ltac unfold_parsers :=
  simpl; try unfold Rel_parse_at; try unfold Rela_parse_at; try unfold Dyn_parse_at; try unfold parse_word_at;
  try unfold parse_sword_at; try unfold parse_i32_at; try unfold parse_i64_at.
(** Read the fields one by one. *)
Ltac solve_exact :=
  repeat match goal with
    | |- exact _ _ (sm_ret _) => apply exact_done; lia
    | |- exact _ _ (sm_bind (sm_bind _ _) _) => apply exact_signed; [assumption|lia|lia|intros ?]
    | |- exact _ _ (sm_bind _ _) => apply exact_field; [assumption|lia|lia|intros ?]
    end.
Ltac exact_instance :=
  split; [intros []; simpl; lia|]; intros E ? endian [] data Hd; unfold_parsers; solve_exact.

#[export] Instance ProgramHeader_exact : ExactParse ProgramHeader.
Proof. exact_instance. Qed.
#[export] Instance SectionHeader_exact : ExactParse SectionHeader.
Proof. exact_instance. Qed.
#[export] Instance Symbol_exact : ExactParse Symbol.
Proof. exact_instance. Qed.
#[export] Instance Rel_exact : ExactParse Rel.
Proof. exact_instance. Qed.
#[export] Instance Rela_exact : ExactParse Rela.
Proof. exact_instance. Qed.
#[export] Instance Dyn_exact : ExactParse Dyn.
Proof. exact_instance. Qed.
#[export] Instance CompressionHeader_exact : ExactParse CompressionHeader.
Proof. exact_instance. Qed.

(** ** Reading what was encoded *)

Lemma length_le_bytes w x : length (le_bytes w x) = w.
Proof. revert x. induction w as [|w IH]; intros x; simpl; [done|]. by rewrite IH. Qed.

Lemma le_val_bytes w x : le_val (le_bytes w x) = x mod 256 ^ Z.of_nat w.
Proof.
  revert x. induction w as [|w IH]; intros x; simpl le_bytes; simpl le_val.
  - by rewrite Z.mod_1_r.
  - rewrite IH, Nat2Z.inj_succ, Z.pow_succ_r by lia. rewrite Z.rem_mul_r by lia. lia.
Qed.

Section encoding.
Context {E : Type} `{EndianParse E}.

Lemma len_enc (endian : E) w x : 0 ≤ w → len (enc endian w x) = w.
Proof.
  intros. unfold enc, len. destruct (is_little endian); rewrite ?length_rev, length_le_bytes; lia.
Qed.

Lemma read_enc (endian : E) data off w x rest :
  slice_ok data → 0 < w ≤ 8 → at_off data off (enc endian w x ++ rest) →
  safe_from w endian data off = Ret (Ok (x mod 256 ^ w), off + w) ∧ at_off data (off + w) rest.
Proof.
  unfold slice_ok. intros Hd Hw [Hoff Hdrop].
  assert (Hlen : len data = off + w + len rest).
  { assert (length (drop (Z.to_nat off) data) = length (enc endian w x ++ rest)) as Hl by (by rewrite Hdrop).
    rewrite length_drop, length_app in Hl. pose proof (len_enc endian w x). unfold len in *. lia. }
  pose proof (len_nonneg rest) as Hr.
  assert (Htk : Z.to_nat w = length (enc endian w x)).
  { pose proof (len_enc endian w x). unfold len in *. lia. }
  split.
  - unfold safe_from, slice. rewrite checked_add_small by lia.
    destruct (Z.leb_spec off (off + w)); [|lia]. destruct (Z.leb_spec (off + w) (len data)); [|lia]. simpl.
    replace (off + w - off) with w by lia. rewrite Hdrop, Htk, take_app_length. unfold enc, be_val.
    destruct (is_little endian); rewrite ?rev_involutive, le_val_bytes, Z2Nat.id by lia; done.
  - split; [lia|]. rewrite Z2Nat.inj_add, <-drop_drop, Hdrop, Htk by lia. apply drop_app_length.
Qed.

Lemma read_bind {A} (endian : E) data off w x rest (f : Z → SM Z ParseError A) p :
  slice_ok data → 0 < w ≤ 8 → 0 ≤ x < 256 ^ w → at_off data off (enc endian w x ++ rest) →
  (at_off data (off + w) rest → f x (off + w) = p) →
  (let! y := safe_from w endian data in f y) off = p.
Proof.
  intros Hd Hw Hx Hat Hf. destruct (read_enc endian data off w x rest) as [Heq Hat']; [done..|].
  unfold sm_bind. rewrite Heq, Z.mod_small by lia. auto.
Qed.

Lemma signed_mod w x : 0 < w → fits_signed w x → signed w (x mod 256 ^ w) = x.
Proof.
  unfold fits_signed, signed. intros Hw Hx.
  assert (256 ^ w = 2 * 2 ^ (8 * w - 1)) as ->.
  { change 256 with (2 ^ 8). rewrite <-Z.pow_mul_r, <-Z.pow_succ_r by lia. f_equal. lia. }
  replace (2 ^ (8 * w)) with (2 * 2 ^ (8 * w - 1)) by (rewrite <-Z.pow_succ_r by lia; f_equal; lia).
  destruct (Z.lt_ge_cases x 0).
  - rewrite <-(Z.mod_add x 1), Z.mod_small by lia. case_Z; lia.
  - rewrite Z.mod_small by lia. case_Z; lia.
Qed.

Lemma read_signed {A} (endian : E) data off w x rest (f : Z → SM Z ParseError A) p :
  slice_ok data → 0 < w ≤ 8 → fits_signed w x → at_off data off (enc endian w x ++ rest) →
  (at_off data (off + w) rest → f x (off + w) = p) →
  (let! y := (let! z := safe_from w endian data in sm_ret (signed w z)) in f y) off = p.
Proof.
  intros Hd Hw Hx Hat Hf. destruct (read_enc endian data off w x rest) as [Heq Hat']; [done..|].
  unfold sm_bind, sm_ret. rewrite Heq, signed_mod by lia || done. auto.
Qed.

End encoding.

Lemma ret_at {A} (a a' : A) (off off' : Z) : a = a' → off = off' → sm_ret (E := ParseError) a off = Ret (Ok a', off').
Proof. by intros -> ->. Qed.

Lemma r_info_parts class sym type :
  0 ≤ type < match class with ELF32 => 2 ^ 8 | ELF64 => 2 ^ 32 end →
  r_info_sym class (rel_info class sym type) = sym ∧ r_info_type class (rel_info class sym type) = type.
Proof.
  intros Ht. unfold r_info_sym, r_info_type, rel_info.
  destruct class; (split; [rewrite Z.shiftr_div_pow2 by lia; rewrite Z.div_add_l by lia; rewrite Z.div_small; lia|]).
  - change 0xFF with (Z.ones 8). rewrite Z.land_ones, Z.add_comm, Z.mod_add, Z.mod_small; lia.
  - change 0xFFFFFFFF with (Z.ones 32). rewrite Z.land_ones, Z.add_comm, Z.mod_add, Z.mod_small; lia.
Qed.

#[global] Arguments rel_info : simpl never.
#[global] Arguments r_info_sym : simpl never.
#[global] Arguments r_info_type : simpl never.

Lemma fits_cons {P} (f : P → Z) w l (p : P) : fits ((f, w) :: l) p ↔ 0 ≤ f p < 256 ^ w ∧ fits l p.
Proof. unfold fits. by rewrite Forall_cons. Qed.

Ltac split_fits :=
  repeat match goal with
    | H : fits (_ :: _) _ |- _ => apply fits_cons in H as [? H]
    | H : _ ∧ _ |- _ => destruct H
    end.
Ltac read_fields :=
  repeat match goal with
    | |- sm_bind (sm_bind _ _) _ _ = _ =>
        eapply read_signed; [eassumption|lia| |eassumption|simpl; intros ?]; [assumption|]
    | |- sm_bind _ _ _ = _ => eapply read_bind; [eassumption|lia| |eassumption|simpl; intros ?]; [simpl in *; lia|]
    end.
Ltac format_instance :=
  intros E ? endian [] data off p rest Hd Hwf Hat; unfold encode_then in Hat;
  cbv [wf_entry fields Elf32_Phdr Elf64_Phdr Elf32_Shdr Elf64_Shdr sym32 Elf64_Sym Elf32_Rel Elf64_Rel Elf32_Rela
       Elf64_Rela Elf32_Dyn Elf64_Dyn Elf32_Chdr Elf64_Chdr take] in Hwf, Hat; simpl in Hat;
  split_fits; unfold_parsers; read_fields; destruct p; simpl in *; (apply ret_at; [|lia]).

#[export] Instance ProgramHeader_Format : Format ProgramHeader.
Proof.
  refine {| fields c := match c with ELF32 => Elf32_Phdr | ELF64 => Elf64_Phdr end;
            wf_entry c := fits match c with ELF32 => Elf32_Phdr | ELF64 => Elf64_Phdr end |}.
  - intros []; (split; [done|repeat constructor]).
  - format_instance; done.
Defined.
#[export] Instance SectionHeader_Format : Format SectionHeader.
Proof.
  refine {| fields c := match c with ELF32 => Elf32_Shdr | ELF64 => Elf64_Shdr end;
            wf_entry c := fits match c with ELF32 => Elf32_Shdr | ELF64 => Elf64_Shdr end |}.
  - intros []; (split; [done|repeat constructor]).
  - format_instance; done.
Defined.
#[export] Instance Symbol_Format : Format Symbol.
Proof.
  refine {| fields c := match c with ELF32 => sym32 | ELF64 => Elf64_Sym end;
            wf_entry c := fits match c with ELF32 => sym32 | ELF64 => Elf64_Sym end |}.
  - intros []; (split; [done|repeat constructor]).
  - format_instance; done.
Defined.
#[export] Instance CompressionHeader_Format : Format CompressionHeader.
Proof.
  refine {| fields c := match c with ELF32 => Elf32_Chdr | ELF64 => Elf64_Chdr end;
            wf_entry c := fits match c with ELF32 => Elf32_Chdr | ELF64 => Elf64_Chdr end |}.
  - intros []; (split; [done|repeat constructor]).
  - format_instance; done.
Defined.
#[export] Instance Dyn_Format : Format Dyn.
Proof.
  refine {| fields c := match c with ELF32 => Elf32_Dyn | ELF64 => Elf64_Dyn end;
            wf_entry c d := let w := match c with ELF32 => 4 | ELF64 => 8 end in
                            fits_signed w (d_tag d) ∧ 0 ≤ d_un d < 256 ^ w |}.
  - intros []; (split; [done|repeat constructor]).
  - format_instance; done.
Defined.
#[export] Instance Rel_Format : Format Rel.
Proof.
  refine {| fields c := match c with ELF32 => Elf32_Rel | ELF64 => Elf64_Rel end;
            wf_entry c r := fits match c with ELF32 => Elf32_Rel | ELF64 => Elf64_Rel end r ∧
                            0 ≤ rel_type r < match c with ELF32 => 2 ^ 8 | ELF64 => 2 ^ 32 end |}.
  - intros []; (split; [done|repeat constructor]).
  - format_instance;
      match goal with |- context [rel_info ?c ?s ?t] => destruct (r_info_parts c s t) as [-> ->] end; done.
Defined.
#[export] Instance Rela_Format : Format Rela.
Proof.
  refine {| fields c := match c with ELF32 => Elf32_Rela | ELF64 => Elf64_Rela end;
            wf_entry c r := fits (match c with ELF32 => take 2 Elf32_Rela | ELF64 => take 2 Elf64_Rela end) r ∧
                            0 ≤ rela_type r < match c with ELF32 => 2 ^ 8 | ELF64 => 2 ^ 32 end ∧
                            fits_signed (match c with ELF32 => 4 | ELF64 => 8 end) (rela_addend r) |}.
  - intros []; (split; [done|repeat constructor]).
  - format_instance;
      match goal with |- context [rel_info ?c ?s ?t] => destruct (r_info_parts c s t) as [-> ->] end; done.
Defined.

(** ** Ranges *)

Lemma le_val_range l : bytes_ok l → 0 ≤ le_val l < 256 ^ len l.
Proof.
  unfold len. induction 1 as [|b l Hb Hl IH]; simpl le_val; [done|]. cbn [length].
  rewrite Nat2Z.inj_succ, Z.pow_succ_r by lia. lia.
Qed.
Lemma be_val_range l : bytes_ok l → 0 ≤ be_val l < 256 ^ len l.
Proof.
  intros Hl. unfold be_val. replace (len l) with (len (rev l)) by (unfold len; by rewrite length_rev).
  apply le_val_range. by apply Forall_rev.
Qed.

Lemma slice_bytes data a b l : bytes_ok data → slice data a b = Some l → bytes_ok l.
Proof.
  unfold slice, bytes_ok. intros Hd Hs. case_Z; simplify_eq/=. apply Forall_take. by apply Forall_drop.
Qed.
Lemma slice_from_bytes data a l : bytes_ok data → slice_from data a = Some l → bytes_ok l.
Proof. unfold slice_from, bytes_ok. intros Hd Hs. case_Z; simplify_eq/=. by apply Forall_drop. Qed.
Lemma slice_from_len data a l : 0 ≤ a → slice_from data a = Some l → len l = len data - a ∧ a ≤ len data.
Proof. unfold slice_from, len. intros ? Hs. case_Z; simplify_eq/=. rewrite length_drop. lia. Qed.
Lemma get_bytes_ok data a b l : 0 ≤ a → slice_ok data → bytes_ok data → get_bytes data a b = Ok l →
  slice_ok l ∧ bytes_ok l.
Proof.
  unfold get_bytes, slice_ok. intros ? ? ? Hs. destruct (slice data a b) as [k|] eqn:Hk; simplify_eq/=.
  apply slice_len in Hk as Hl; [|done]. split; [lia|]. by eapply slice_bytes.
Qed.

Lemma safe_from_range {E} `{EndianParse E} (endian : E) data w off v off' :
  bytes_ok data → 0 ≤ off → safe_from w endian data off = Ret (Ok v, off') →
  0 ≤ v < 256 ^ w ∧ off' = off + w ∧ off' ≤ len data.
Proof.
  unfold safe_from, checked_add. intros Hd Hoff Hs. case_Z.
  destruct (slice data off (off + w)) as [l|] eqn:Hl; simplify_eq/=.
  apply slice_len in Hl as Hlen; [|done]. assert (len l = w) as Hw by lia.
  assert (bytes_ok l) by (by eapply slice_bytes). rewrite <-Hw. split; [|lia].
  destruct (is_little endian); [by apply le_val_range|by apply be_val_range].
Qed.

(** ** Encoding what was read *)

Lemma le_bytes_val l : bytes_ok l → le_bytes (length l) (le_val l) = l.
Proof.
  induction 1 as [|b l Hb Hl IH]; [done|]. cbn [le_val length le_bytes].
  rewrite (Z.mul_comm 256), Z.mod_add, Z.mod_small, Z.div_add, Z.div_small, Z.add_0_l, IH by lia. done.
Qed.
Lemma enc_mod {E} `{EndianParse E} (endian : E) w x y : x mod 256 ^ w = y mod 256 ^ w → 0 ≤ w → enc endian w x = enc endian w y.
Proof.
  intros Hxy Hw. rewrite <-(Z2Nat.id w Hw) in Hxy. unfold enc.
  assert (le_bytes (Z.to_nat w) x = le_bytes (Z.to_nat w) y) as ->; [|done].
  revert x y Hxy. clear Hw. induction (Z.to_nat w) as [|n IH]; intros x y Hxy; [done|]. cbn [le_bytes].
  rewrite Nat2Z.inj_succ, Z.pow_succ_r in Hxy by lia.
  rewrite !Z.rem_mul_r in Hxy by lia.
  pose proof (Z.mod_pos_bound x 256). pose proof (Z.mod_pos_bound y 256). f_equal; [lia|]. apply IH. lia.
Qed.

Lemma read_inv {E} `{EndianParse E} (endian : E) data w off v off' :
  bytes_ok data → 0 ≤ off → 0 ≤ w → safe_from w endian data off = Ret (Ok v, off') →
  0 ≤ v < 256 ^ w ∧ off' = off + w ∧ drop (Z.to_nat off) data = enc endian w v ++ drop (Z.to_nat (off + w)) data.
Proof.
  intros Hd Ho Hw Hs. pose proof (safe_from_range endian data w off v off' Hd Ho Hs) as (Hv & -> & Hle).
  split_and!; [lia..|]. unfold safe_from, checked_add in Hs. case_Z1; [|done].
  destruct (slice data off (off + w)) as [l|] eqn:Hl; [|done].
  apply slice_len in Hl as Hlen; [|done]. apply slice_bytes in Hl as Hb; [|done].
  unfold slice in Hl. case_Z. replace (off + w - off) with w in * by lia.
  rewrite Z2Nat.inj_add, <-drop_drop by lia.
  rewrite <-(take_drop (Z.to_nat w) (drop (Z.to_nat off) data)) at 1. f_equal. unfold enc.
  set (l := take (Z.to_nat w) (drop (Z.to_nat off) data)) in *.
  assert (Z.to_nat w = length l) as -> by (unfold len in Hlen; lia).
  destruct (is_little endian).
  - by rewrite le_bytes_val.
  - unfold be_val. rewrite <-length_rev. rewrite le_bytes_val by (by apply Forall_rev). by rewrite rev_involutive.
Qed.

Lemma signed_fits w v : 0 < w → 0 ≤ v < 256 ^ w →
  fits_signed w (signed w v) ∧ signed w v mod 256 ^ w = v mod 256 ^ w.
Proof.
  intros Hw Hv. assert (H256 : 256 ^ w = 2 ^ (8 * w)) by (change 256 with (2 ^ 8); by rewrite <-Z.pow_mul_r by lia).
  assert (H2 : 2 ^ (8 * w) = 2 * 2 ^ (8 * w - 1)) by (rewrite <-Z.pow_succ_r by lia; f_equal; lia).
  unfold fits_signed, signed. rewrite H256 in *. case_Z.
  - split; [lia|done].
  - split; [lia|]. rewrite <-(Z.mod_add (v - _) 1) by lia. f_equal. lia.
Qed.

Lemma r_info_join class v : 0 ≤ v →
  rel_info class (r_info_sym class v) (r_info_type class v) = v ∧
  0 ≤ r_info_type class v < match class with ELF32 => 2 ^ 8 | ELF64 => 2 ^ 32 end.
Proof.
  intros Hv. unfold rel_info, r_info_sym, r_info_type. destruct class.
  - change 0xFF with (Z.ones 8). rewrite Z.shiftr_div_pow2, Z.land_ones by lia.
    pose proof (Z.div_mod v (2 ^ 8)). pose proof (Z.mod_pos_bound v (2 ^ 8)). lia.
  - change 0xFFFFFFFF with (Z.ones 32). rewrite Z.shiftr_div_pow2, Z.land_ones by lia.
    pose proof (Z.div_mod v (2 ^ 32)). pose proof (Z.mod_pos_bound v (2 ^ 32)). lia.
Qed.

(** Turn the reads of a successful parse into the bytes that were there. *)
Ltac read_back :=
  repeat match goal with
    | Hs : safe_from ?w _ _ ?o = Ret (Ok ?v, _) |- _ =>
        apply read_inv in Hs as (? & -> & Hs); [|assumption|lia|lia]
    end.
Ltac unfold_parsers_in Hp :=
  simpl in Hp; try unfold Rel_parse_at in Hp; try unfold Rela_parse_at in Hp; try unfold Dyn_parse_at in Hp;
  try unfold parse_word_at in Hp; try unfold parse_sword_at in Hp; unfold parse_i32_at, parse_i64_at, parse_u8_at,
    parse_u16_at, parse_u32_at, parse_u64_at in Hp.
Ltac rewrite_bytes :=
  unfold encode_then; simpl; repeat match goal with Hs : drop _ _ = _ ++ _ |- _ => rewrite Hs; clear Hs end.
Ltac faithful_instance :=
  split; intros E ? endian [] data off p off' Hb Ho Hp; unfold_parsers_in Hp; inv_sm; read_back; simplify_eq/=.
Ltac solve_plain := split; [repeat (apply fits_cons; split; [simpl; assumption|]); constructor|by rewrite_bytes].

#[export] Instance ProgramHeader_faithful : FaithfulParse ProgramHeader.
Proof. faithful_instance; solve_plain. Qed.
#[export] Instance SectionHeader_faithful : FaithfulParse SectionHeader.
Proof. faithful_instance; solve_plain. Qed.
#[export] Instance Symbol_faithful : FaithfulParse Symbol.
Proof. faithful_instance; solve_plain. Qed.
#[export] Instance Dyn_faithful : FaithfulParse Dyn.
Proof.
  faithful_instance.
  all: match goal with |- context [signed ?w ?v] => destruct (signed_fits w v) as [? Hmod]; [lia|lia|] end.
  all: split; [by split|rewrite_bytes; f_equal; by apply enc_mod].
Qed.
#[export] Instance Rel_faithful : FaithfulParse Rel.
Proof.
  faithful_instance.
  all: match goal with |- context [r_info_sym ?c ?v] => destruct (r_info_join c v) as [Hj ?]; [lia|] end.
  all: split; [split; [repeat (apply fits_cons; split; [simpl; rewrite ?Hj; assumption|]); constructor|done]|].
  all: rewrite_bytes; by rewrite Hj.
Qed.
#[export] Instance Rela_faithful : FaithfulParse Rela.
Proof.
  faithful_instance.
  all: match goal with |- context [r_info_sym ?c ?v] => destruct (r_info_join c v) as [Hj ?]; [lia|] end.
  all: match goal with |- context [signed ?w ?v] => destruct (signed_fits w v) as [? Hmod]; [lia|lia|] end.
  all: split; [split; [repeat constructor; simpl; rewrite ?Hj; lia|by split]|].
  all: rewrite_bytes; rewrite Hj; do 2 f_equal; by rewrite (enc_mod _ _ _ _ Hmod) by lia.
Qed.
(** ** Tables *)

Section table_lemmas.
Context {E P : Type} `{EndianParse E, ParseAt P, !ExactParse P}.
Implicit Type t : ParsingTable E P.

Abbreviation entry_at t i p :=
  (parse_at (table_endian t) (table_class t) (table_data t) (i * size_for P (table_class t)) =
   Ret (Ok p, (i + 1) * size_for P (table_class t))).

Lemma table_len_nonneg t : 0 ≤ table_len t.
Proof.
  unfold table_len. destruct (exact_size (P := P) (table_class t)).
  pose proof (len_nonneg (table_data t)). apply Z.div_pos; lia.
Qed.

Lemma parse_entry t i : slice_ok (table_data t) → 0 ≤ i →
  (i < table_len t ∧ ∃ p, entry_at t i p) ∨
  (table_len t ≤ i ∧ ∃ e off, parse_at (P := P) (table_endian t) (table_class t) (table_data t)
                                (i * size_for P (table_class t)) = Ret (Err e, off)).
Proof.
  intros Hok Hi. pose proof (exact_size (P := P) (table_class t)) as Hs. unfold table_len.
  set (s := size_for P (table_class t)) in *.
  pose proof (exact_parse (P := P) (table_endian t) (table_class t) (table_data t) Hok (i * s)) as [Hgood Hbad];
    [lia|]. fold s in Hgood, Hbad.
  pose proof (Z.div_mod (len (table_data t)) s) as Hdiv.
  pose proof (Z.mod_pos_bound (len (table_data t)) s) as Hmod.
  destruct (Z.lt_ge_cases i (len (table_data t) / s)) as [Hlt|Hge].
  - left. split; [done|]. destruct Hgood as [p Hp]; [left; nia|]. exists p. rewrite Hp. do 2 f_equal. lia.
  - right. split; [done|]. destruct Hbad as (e & off & -> & _); [nia|]. eauto.
Qed.

Lemma iter_next_spec t i : slice_ok (table_data t) → 0 ≤ i →
  (i < table_len t ∧ ∃ p, entry_at t i p ∧
     iter_next t (i * size_for P (table_class t)) = Ret (Some p, (i + 1) * size_for P (table_class t))) ∨
  (table_len t ≤ i ∧ ∃ off, iter_next t (i * size_for P (table_class t)) = Ret (None, off)).
Proof.
  intros Hok Hi. unfold iter_next.
  destruct (table_data t) as [|b d] eqn:Hd.
  - right. unfold table_len. rewrite Hd. change (len []) with 0. rewrite Z.div_0_l; [eauto|].
    pose proof (exact_size (P := P) (table_class t)). lia.
  - rewrite <-Hd in *. destruct (parse_entry t i Hok Hi) as [(? & p & Hp)|(? & e & off & Hp)].
    + left. split; [done|]. exists p. by rewrite Hp.
    + right. split; [done|]. exists off. by rewrite Hp.
Qed.

Lemma iter_collect_spec t fuel i : slice_ok (table_data t) → 0 ≤ i ≤ table_len t →
  table_len t - i < Z.of_nat fuel →
  ∃ l, iter_collect fuel t (i * size_for P (table_class t)) = Ret l ∧ Z.of_nat (length l) = table_len t - i ∧
    ∀ j p, l !! j = Some p → entry_at t (i + Z.of_nat j) p.
Proof.
  intros Hok. revert i. induction fuel as [|fuel IH]; intros i Hi Hf; [lia|]. simpl.
  destruct (iter_next_spec t i Hok) as [(Hlt & p & Hp & Hn)|(Hge & off & Hn)]; [lia| |]; rewrite Hn; simpl.
  - destruct (IH (i + 1)) as (l & Hl & Hlen & Hent); [lia..|]. rewrite Hl. simpl.
    exists (p :: l). repeat split; [simpl; lia|]. intros [|j] q Hq; simplify_eq/=; [by rewrite Z.add_0_r|].
    replace (i + Z.of_nat (S j)) with (i + 1 + Z.of_nat j) by lia. by apply Hent.
  - exists []. repeat split; [simpl; lia|]. intros j q Hq. by rewrite lookup_nil in Hq.
Qed.

Lemma table_len_le t : table_len t ≤ len (table_data t).
Proof.
  unfold table_len. pose proof (exact_size (P := P) (table_class t)).
  pose proof (len_nonneg (table_data t)). apply Z.div_le_upper_bound; nia.
Qed.

(** A [for] loop sees each whole entry once, in order, and ends. *)
Lemma table_items_spec t : slice_ok (table_data t) →
  ∃ l, table_items t = Ret l ∧ Z.of_nat (length l) = table_len t ∧
    ∀ j p, l !! j = Some p → entry_at t (Z.of_nat j) p.
Proof.
  intros Hok. pose proof (table_len_nonneg t). pose proof (table_len_le t).
  destruct (iter_collect_spec t (S (length (table_data t))) 0 Hok) as (l & Hl & Hlen & Hent);
    [lia|unfold len in *; lia|].
  exists l. rewrite Z.mul_0_l in Hl. repeat split; [done|lia|]. intros j p Hj. by apply (Hent j).
Qed.

Lemma table_find_spec t q : slice_ok (table_data t) →
  ∃ l, table_items t = Ret l ∧ table_find q t = Ret (List.find q l).
Proof. intros Hok. destruct (table_items_spec t Hok) as (l & Hl & _). exists l. unfold table_find. by rewrite Hl. Qed.

Lemma table_get_spec t i : slice_ok (table_data t) → in_usize i →
  (i < table_len t ∧ ∃ p, entry_at t i p ∧ table_get t i = Ret (Ok p)) ∨
  (table_len t ≤ i ∧ ∃ e, table_get t i = Ret (Err e)).
Proof.
  intros Hok [Hi0 Hi]. unfold table_get. destruct (table_data t) as [|b d] eqn:Hd.
  - right. unfold table_len. rewrite Hd. change (len []) with 0. rewrite Z.div_0_l; [eauto|].
    pose proof (exact_size (P := P) (table_class t)). lia.
  - rewrite <-Hd in *. pose proof (table_len_le t) as Hle. unfold slice_ok in Hok.
    pose proof (exact_size (P := P) (table_class t)) as Hs.
    destruct (parse_entry t i Hok Hi0) as [(Hlt & p & Hp)|(Hge & e & off & Hp)].
    + left. split; [done|]. exists p. split; [done|].
      assert (i * size_for P (table_class t) ≤ len (table_data t)).
      { unfold table_len in Hlt. pose proof (Z.mul_div_le (len (table_data t)) (size_for P (table_class t))). nia. }
      unfold checked_mul. case_Z; try lia. by rewrite Hp.
    + right. split; [done|]. unfold checked_mul. case_Z; rewrite ?Hp; simpl; eauto.
Qed.

End table_lemmas.

(** ** Encoded tables *)

Section format_lemmas.
Context {E P : Type} `{EndianParse E, ParseAt P, !Format P, !ExactParse P}.

Lemma encode_then_app (endian : E) (l : c_struct P) p rest : encode_then endian l p rest = encode endian l p ++ rest.
Proof.
  unfold encode, encode_then. induction l as [|f l IH]; simpl; [done|]. by rewrite IH, app_assoc.
Qed.

Lemma len_encode (endian : E) class p : len (encode endian (fields (P := P) class) p) = size_for P class.
Proof.
  destruct (fields_sized (P := P) class) as [<- Hpos].
  induction (fields class) as [|[f w] l IH]; [done|].
  inversion_clear Hpos. unfold encode, encode_then, fields_size in *. simpl in *.
  rewrite len_app, len_enc, IH; [done|done|lia].
Qed.

Lemma len_encode_table (endian : E) class l :
  len (encode_table endian class l) = Z.of_nat (length l) * size_for P class.
Proof.
  induction l as [|p l IH]; [done|]. unfold encode_table in *. cbn [fmap list_fmap concat length].
  rewrite len_app, len_encode. change (concat (list_fmap _ _ ?f l)) with (concat (f <$> l)). rewrite IH. lia.
Qed.

Lemma encode_table_app (endian : E) class l1 l2 :
  encode_table endian class (l1 ++ l2) = encode_table endian class l1 ++ encode_table (P := P) endian class l2.
Proof. unfold encode_table. by rewrite fmap_app, concat_app. Qed.

(** The entries that were read, encoded again, are the bytes of the table. *)
Lemma items_encoded `{!FaithfulParse P} (t : ParsingTable E P) l n :
  bytes_ok (table_data t) →
  (∀ j p, l !! j = Some p → parse_at (table_endian t) (table_class t) (table_data t)
     ((n + Z.of_nat j) * size_for P (table_class t)) = Ret (Ok p, (n + Z.of_nat j + 1) * size_for P (table_class t))) →
  0 ≤ n →
  Forall (wf_entry (table_class t)) l ∧
  drop (Z.to_nat (n * size_for P (table_class t))) (table_data t) =
    encode_table (table_endian t) (table_class t) l ++
    drop (Z.to_nat ((n + Z.of_nat (length l)) * size_for P (table_class t))) (table_data t).
Proof.
  intros Hb. revert n. induction l as [|p l IH]; intros n Hl Hn.
  - split; [constructor|]. simpl. by rewrite Z.add_0_r.
  - pose proof (Hl 0%nat p eq_refl) as Hp. rewrite Z.add_0_r in Hp. pose proof (exact_size (P := P) (table_class t)).
    apply parsed_encoded in Hp as [Hwf Hd]; [|done|lia].
    destruct (IH (n + 1)) as [Hwfs Hd']; [|lia|].
    { intros j q Hq. specialize (Hl (S j) q Hq). replace (n + Z.of_nat (S j)) with (n + 1 + Z.of_nat j) in Hl by lia. done. }
    split; [by constructor|]. rewrite Hd, Hd', encode_then_app. change (p :: l) with ([p] ++ l).
    rewrite encode_table_app, <-app_assoc. unfold encode_table at 2. simpl. rewrite app_nil_r.
    do 4 f_equal. lia.
Qed.

Lemma encode_table_at (endian : E) class l i p : l !! i = Some p →
  ∃ rest, at_off (encode_table endian class l) (Z.of_nat i * size_for P class)
            (encode_then endian (fields class) p rest).
Proof.
  intros Hi. destruct (list_elem_of_split_length l i p Hi) as (l1 & l2 & -> & ->).
  exists (encode_table endian class l2). rewrite encode_then_app.
  assert (encode_table endian class (l1 ++ p :: l2) =
          encode_table endian class l1 ++ encode endian (fields class) p ++ encode_table endian class l2) as ->.
  { unfold encode_table. by rewrite fmap_app, fmap_cons, concat_app. }
  rewrite <-(len_encode_table endian class l1). split.
  - rewrite len_app. pose proof (len_nonneg (encode endian (fields class) p ++ encode_table endian class l2)).
    pose proof (len_nonneg (encode_table endian class l1)). lia.
  - unfold len. rewrite Nat2Z.id. apply drop_app_length.
Qed.

End format_lemmas.

(** ** Returning *)

Lemma returns_ret {A} (a : A) : returns (Ret a).
Proof. by exists a. Qed.
Lemma returns_bind {A B} (m : PR A) (f : A → PR B) :
  returns m → (∀ a, m = Ret (Ok a) → returns (f a)) → returns (let* x := m in f x).
Proof. intros [[a|e] Hm] Hf; rewrite Hm; simpl; [by apply Hf|apply returns_ret]. Qed.
Lemma pr_bind_ok {A B} (m : PR A) (f : A → PR B) b :
  (let* x := m in f x) = Ret (Ok b) → ∃ a, m = Ret (Ok a) ∧ f a = Ret (Ok b).
Proof. destruct m as [[a|e]|]; simpl; intros; simplify_eq; eauto. Qed.
Lemma table_get_returns {E P} `{EndianParse E, ParseAt P, !ExactParse P} (t : ParsingTable E P) i :
  slice_ok (table_data t) → in_usize i → returns (table_get t i).
Proof. intros Ht Hi. destruct (table_get_spec t i Ht Hi) as [(_ & p & _ & ->)|(_ & e & ->)]; apply returns_ret. Qed.

#[export] Hint Resolve returns_ret : kernel.

(** ** String tables *)

Lemma until_nul_app s rest : Forall (λ b, b ≠ 0) s → until_nul (s ++ 0 :: rest) = Some s.
Proof.
  induction 1 as [|b s Hb Hs IH]; simpl; [done|]. case_Z. by rewrite IH.
Qed.
Lemma until_nul_spec l s : until_nul l = Some s ↔ Forall (λ b, b ≠ 0) s ∧ ∃ rest, l = s ++ 0 :: rest.
Proof.
  split; [|intros [? [rest ->]]; by apply until_nul_app].
  revert s. induction l as [|b l IH]; intros s Hs; simplify_eq/=. case_Z.
  - split; [constructor|by exists l].
  - destruct (until_nul l) as [s'|] eqn:Hl; simplify_eq/=. destruct (IH s' eq_refl) as [? [rest ->]].
    split; [by constructor|by exists rest].
Qed.
Lemma until_nul_none l : until_nul l = None ↔ Forall (λ b, b ≠ 0) l.
Proof.
  induction l as [|b l IH]; simpl; [by split; [constructor|]|]. rewrite Forall_cons. case_Z; [naive_solver|].
  destruct (until_nul l); simpl; naive_solver.
Qed.

(** * Properties *)

(** Indexed access and iteration of a parsing table agree.  For every structure whose
    parser reads exactly [size_for] bytes and every slice: iterating over the table ends
    and yields [len()] entries, and [get(i)] returns the [i]-th of them and an error for
    every other index; neither panics nor overflows. *)
Theorem table_get_iter_agree {E P} `{EndianParse E, ParseAt P, !ExactParse P} (t : ParsingTable E P) :
  slice_ok (table_data t) →
  ∃ l, table_items t = Ret l ∧ Z.of_nat (length l) = table_len t ∧
    ∀ i, in_usize i → ∃ r, table_get t i = Ret r ∧ ∀ p, r = Ok p ↔ l !! Z.to_nat i = Some p.
Proof.
  intros Hok. destruct (table_items_spec t Hok) as (l & Hl & Hlen & Hent). exists l. repeat split; [done..|].
  intros i Hi. destruct (table_get_spec t i Hok Hi) as [(Hlt & p & Hp & Hg)|(Hge & e & Hg)]; rewrite Hg.
  - exists (Ok p). split; [done|]. destruct Hi.
    destruct (lookup_lt_is_Some_2 l (Z.to_nat i)) as [q Hq]; [lia|].
    pose proof (Hent _ _ Hq) as Hq'. rewrite Z2Nat.id in Hq' by lia. rewrite Hp in Hq'. rewrite Hq. naive_solver.
  - exists (Err e). split; [done|]. intros p. split; [done|]. intros Hp. apply lookup_lt_Some in Hp.
    destruct Hi. lia.
Qed.
Definition demo_phdr : ProgramHeader := Build_ProgramHeader 1 0x1000 0x80200000 0x80200000 0x345 0x1000 5 0x1000.
Definition demo_table : ParsingTable AnyEndian ProgramHeader :=
  Build_ParsingTable Little ELF64 (encode_table Little ELF64 [demo_phdr; demo_phdr] ++ [7; 7]).
Lemma table_get_iter_agree_witness :
  ∃ l, table_items demo_table = Ret l ∧ Z.of_nat (length l) = table_len demo_table ∧
    ∀ i, in_usize i → ∃ r, table_get demo_table i = Ret r ∧ ∀ p, r = Ok p ↔ l !! Z.to_nat i = Some p.
Proof. apply (table_get_iter_agree demo_table). vm_compute. reflexivity. Defined.


(** C31: What the parsers read is what the file says: every entry of a table of program headers,
    section headers, symbols, relocations or dynamic entries has its fields within the
    widths of the layout (32-bit fields below [2^32], the type of a relocation within its
    bits, the addend and the tag within their signed range), and laying the entries out
    again gives back the bytes of the table, but for an incomplete entry at its end. *)
Theorem table_entries_typed {E P} `{EndianParse E, ParseAt P, !ExactParse P, !Format P, !FaithfulParse P}
    (t : ParsingTable E P) :
  slice_ok (table_data t) → bytes_ok (table_data t) →
  ∃ l rest, table_items t = Ret l ∧ Forall (wf_entry (table_class t)) l ∧
    table_data t = encode_table (table_endian t) (table_class t) l ++ rest ∧ len rest < size_for P (table_class t).
Proof.
  intros Hs Hb. destruct (table_items_spec t Hs) as (l & Hl & Hlen & Hent).
  destruct (items_encoded t l 0 Hb) as [Hwf Hd]; [|lia|]; [by intros j p Hj; rewrite Z.add_0_l; apply Hent|].
  eexists l, _. split_and!; [done..| |].
  - by rewrite Z.mul_0_l in Hd.
  - rewrite Z.add_0_l, Hlen. unfold table_len. pose proof (exact_size (P := P) (table_class t)).
    pose proof (Z.mod_pos_bound (len (table_data t)) (size_for P (table_class t))).
    pose proof (Z.div_mod (len (table_data t)) (size_for P (table_class t))). unfold len in *. rewrite length_drop. lia.
Qed.
Lemma table_entries_typed_witness :
  ∃ l rest, table_items demo_table = Ret l ∧ Forall (wf_entry ELF64) l ∧
    table_data demo_table = encode_table Little ELF64 l ++ rest ∧ len rest < size_for ProgramHeader ELF64.
Proof.
  apply (table_entries_typed demo_table); [vm_compute; reflexivity|].
  vm_compute. repeat (constructor; [split; [discriminate|reflexivity]|]). constructor.
Defined.

(** [StringTable::get_raw] returns the NUL-terminated string that starts at the offset: it
    returns [s] exactly when [s] has no NUL and the table continues at the offset with [s]
    and a NUL byte; an offset past the end, or a string that runs off the end of the table,
    is an error. *)
Theorem strtab_get_raw_spec data offset : 0 ≤ offset →
  (∀ s, strtab_get_raw data offset = Ok s ↔
     offset ≤ len data ∧ Forall (λ b, b ≠ 0) s ∧ ∃ rest, drop (Z.to_nat offset) data = s ++ 0 :: rest) ∧
  (strtab_get_raw data offset = Err (StringTableMissingNul offset) ↔
     data ≠ [] ∧ offset ≤ len data ∧ Forall (λ b, b ≠ 0) (drop (Z.to_nat offset) data)) ∧
  (strtab_get_raw data offset = Err (BadOffset offset) ↔ data = [] ∨ len data < offset).
Proof.
  intros Hoff. unfold strtab_get_raw, slice_from. destruct data as [|b d] eqn:Hd.
  - rewrite drop_nil. repeat split; try naive_solver. intros (_ & _ & rest & Hr).
    by apply (f_equal length) in Hr; rewrite length_app in Hr; simpl in Hr; lia.
  - rewrite <-Hd in *. assert (data ≠ []) by (by rewrite Hd). clear Hd. case_Z; simpl.
    + pose proof (until_nul_none (drop (Z.to_nat offset) data)) as Hnone.
      pose proof (until_nul_spec (drop (Z.to_nat offset) data)) as Hspec.
      destruct (until_nul _) as [s'|] eqn:Hu; simpl.
      * destruct (Hspec s') as [Hs _]. repeat split; naive_solver lia.
      * repeat split; naive_solver lia.
    + repeat split; naive_solver lia.
Qed.
Lemma strtab_get_raw_spec_witness :
  0 ≤ 1 ∧ (strtab_get_raw [0; 0x61; 0x62; 0] 1 = Ok [0x61; 0x62] ↔
     1 ≤ len [0; 0x61; 0x62; 0] ∧ Forall (λ b, b ≠ 0) [0x61; 0x62] ∧
     ∃ rest, drop (Z.to_nat 1) [0; 0x61; 0x62; 0] = [0x61; 0x62] ++ 0 :: rest).
Proof.
  split; [lia|]. destruct (strtab_get_raw_spec [0; 0x61; 0x62; 0] 1) as [Hs _]; [lia|]. apply Hs.
Defined.

(** The C struct for a 32-bit symbol disagrees with the parser: its [st_shndx] is four
    bytes wide, which makes it 20 bytes long with padding, where the entries of a 32-bit
    symbol table have 16. *)
Lemma elf32_sym_struct_size :
  c_sizeof Elf32_Sym = 20 ∧ size_for Symbol ELF32 = 16 ∧ c_sizeof Elf64_Sym = size_for Symbol ELF64.
Proof. done. Qed.
