(* ===== verification/ElfHash.v ===== *)
(** Symbol hash tables: [modules/elf/src/hash.rs].

    [SysVHashTable] and [GnuHashTable] with [new] and [find].  The loops of [find] run
    at most once per chain entry, and their definitions recurse on the number of rounds
    left.  The theorems: [find] returns on every table that [new] accepts, whatever the
    bytes are; what it finds is the symbol of that name; and on a table whose chains
    are well formed it finds the symbol when there is one. *)

From S2P Require Import Prelude ElfParse.
From stdpp Require Import prelude list.
From Stdlib Require Import ZArith Lia.
Local Open Scope Z_scope.
Local Open Scope kernel_scope.

(** ** Integers as table entries *)

Record u32 : Type := U32 { u32_val : Z }.
Record u64 : Type := U64 { u64_val : Z }.

Definition u32_parse_at {E} `{EndianParse E} (endian : E) (class : ElfClass) (data : bytes) : SM Z ParseError u32 :=
  let! x := parse_u32_at endian data in sm_ret (U32 x).
Definition u64_parse_at {E} `{EndianParse E} (endian : E) (class : ElfClass) (data : bytes) : SM Z ParseError u64 :=
  let! x := parse_u64_at endian data in sm_ret (U64 x).
#[export] Instance u32_ParseAt : ParseAt u32 := {| parse_at E _ := u32_parse_at; size_for _ := 4 |}.
#[export] Instance u64_ParseAt : ParseAt u64 := {| parse_at E _ := u64_parse_at; size_for _ := 8 |}.

(** ** The System V table *)

Record SysVHashHeader : Type := { sysv_nbucket : Z; sysv_nchain : Z }.
Definition SysVHashHeader_parse_at {E} `{EndianParse E} (endian : E) (class : ElfClass) (data : bytes) :
    SM Z ParseError SysVHashHeader :=
  let! nbucket := parse_u32_at endian data in
  let! nchain := parse_u32_at endian data in
  sm_ret (Build_SysVHashHeader nbucket nchain).
#[export] Instance SysVHashHeader_ParseAt : ParseAt SysVHashHeader :=
  {| parse_at E _ := SysVHashHeader_parse_at; size_for _ := 8 |}.

(** 32-bit wrapping arithmetic. *)
Definition wrap32 (x : Z) : Z := x mod 2 ^ 32.

Definition sysv_hash_step (hash byte : Z) : Z :=
  let hash := wrap32 (wrap32 (hash * 16) + byte) in
  Z.lxor hash (Z.land (Z.shiftr hash 24) 0xf0).
Definition sysv_hash (name : bytes) : Z := Z.land (fold_left sysv_hash_step name 0) 0xfffffff.

Record SysVHashTable (E : Type) : Type := {
  sysv_buckets : ParsingTable E u32;
  sysv_chains : ParsingTable E u32;
}.
Arguments Build_SysVHashTable {E} _ _.
Arguments sysv_buckets {E} _.
Arguments sysv_chains {E} _.

Section hash.
Context {E : Type} `{EndianParse E}.

Definition SysVHashTable_new (endian : E) (class : ElfClass) (data : bytes) : PR (SysVHashTable E) :=
  fst <$>
  (let! hdr := SysVHashHeader_parse_at endian class data in
   let! offset := sm_get in
   let! buckets_size := sm_lift (ok_or (checked_mul 4 (sysv_nbucket hdr)) IntegerOverflow) in
   let! buckets_end := sm_lift (ok_or (checked_add offset buckets_size) IntegerOverflow) in
   let! buckets_buf := sm_lift (get_bytes data offset buckets_end) in
   let! chains_size := sm_lift (ok_or (checked_mul 4 (sysv_nchain hdr)) IntegerOverflow) in
   let! chains_end := sm_lift (ok_or (checked_add buckets_end chains_size) IntegerOverflow) in
   let! chains_buf := sm_lift (get_bytes data buckets_end chains_end) in
   sm_ret (Build_SysVHashTable (Build_ParsingTable endian class buckets_buf)
             (Build_ParsingTable endian class chains_buf))) 0.

(** The [while] loop of [find] with [n] rounds left before [i] reaches
    [chains.len()]. *)
Fixpoint sysv_walk (n : nat) (chains : ParsingTable E u32) (name : bytes) (symtab : ParsingTable E Symbol)
    (strtab : bytes) (index : Z) : PR (option (Z * Symbol)) :=
  match n with
  | O => Ret (Ok None)
  | S n =>
      if index =? 0 then Ret (Ok None)
      else
        let* symbol := table_get symtab index in
        let* sym_name := Ret (strtab_get_raw strtab (st_name symbol)) in
        if bool_decide (sym_name = name) then Ret (Ok (Some (index, symbol)))
        else
          let* next := table_get chains index in
          sysv_walk n chains name symtab strtab (u32_val next)
  end.

Definition sysv_find (t : SysVHashTable E) (name : bytes) (symtab : ParsingTable E Symbol) (strtab : bytes) :
    PR (option (Z * Symbol)) :=
  if table_is_empty (sysv_buckets t) then Ret (Ok None)
  else
    let hash := sysv_hash name in
    let* start := pr_lift (urem hash (table_len (sysv_buckets t))) in
    let* index := table_get (sysv_buckets t) start in
    sysv_walk (Z.to_nat (table_len (sysv_chains t))) (sysv_chains t) name symtab strtab (u32_val index).

End hash.

(** ** The GNU table *)

Definition gnu_hash (name : bytes) : Z :=
  fold_left (λ hash byte, wrap32 (wrap32 (hash * 33) + byte)) name 5381.

Record GnuHashHeader : Type := { gnu_nbucket : Z; table_start_idx : Z; nbloom : Z; nshift : Z }.
Definition GnuHashHeader_parse_at {E} `{EndianParse E} (endian : E) (class : ElfClass) (data : bytes) :
    SM Z ParseError GnuHashHeader :=
  let! nbucket := parse_u32_at endian data in
  let! table_start_idx := parse_u32_at endian data in
  let! nbloom := parse_u32_at endian data in
  let! nshift := parse_u32_at endian data in
  sm_ret (Build_GnuHashHeader nbucket table_start_idx nbloom nshift).
#[export] Instance GnuHashHeader_ParseAt : ParseAt GnuHashHeader :=
  {| parse_at E _ := GnuHashHeader_parse_at; size_for _ := 16 |}.

Record GnuHashTable (E : Type) : Type := {
  gnu_hdr : GnuHashHeader;
  gnu_endian : E;
  gnu_class : ElfClass;
  gnu_bloom : bytes;
  gnu_buckets : ParsingTable E u32;
  gnu_chains : ParsingTable E u32;
}.
Arguments Build_GnuHashTable {E} _ _ _ _ _ _.
Arguments gnu_hdr {E} _.
Arguments gnu_endian {E} _.
Arguments gnu_class {E} _.
Arguments gnu_bloom {E} _.
Arguments gnu_buckets {E} _.
Arguments gnu_chains {E} _.

Section gnu.
Context {E : Type} `{EndianParse E}.

Definition GnuHashTable_new (endian : E) (class : ElfClass) (data : bytes) : PR (GnuHashTable E) :=
  fst <$>
  (let! hdr := GnuHashHeader_parse_at endian class data in
   let! offset := sm_get in
   let! bloom_size :=
     sm_lift (ok_or (checked_mul (nbloom hdr) (match class with ELF32 => 4 | ELF64 => 8 end)) IntegerOverflow) in
   let! bloom_end := sm_lift (ok_or (checked_add offset bloom_size) IntegerOverflow) in
   let! bloom_buf := sm_lift (get_bytes data offset bloom_end) in
   let! buckets_size := sm_lift (ok_or (checked_mul 4 (gnu_nbucket hdr)) IntegerOverflow) in
   let! buckets_end := sm_lift (ok_or (checked_add bloom_end buckets_size) IntegerOverflow) in
   let! buckets_buf := sm_lift (get_bytes data bloom_end buckets_end) in
   let! chains_buf := sm_lift (ok_or (slice_from data buckets_end) (SliceReadError buckets_end (len data))) in
   sm_ret (Build_GnuHashTable hdr endian class bloom_buf (Build_ParsingTable endian class buckets_buf)
             (Build_ParsingTable endian class chains_buf))) 0.

(** The bloom filter's width in bits and the word the hash selects. *)
Definition bloom_word (t : GnuHashTable E) (hash : Z) : PR (Z * Z) :=
  match gnu_class t with
  | ELF32 =>
      let bloom_width := 32 in
      let* bloom_idx := pr_lift (urem (hash / bloom_width) (nbloom (gnu_hdr t))) in
      let* w := table_get (Build_ParsingTable (gnu_endian t) (gnu_class t) (gnu_bloom t) : ParsingTable E u32)
                  bloom_idx in
      Ret (Ok (bloom_width, u32_val w))
  | ELF64 =>
      let bloom_width := 64 in
      let* bloom_idx := pr_lift (urem (hash / bloom_width) (nbloom (gnu_hdr t))) in
      let* w := table_get (Build_ParsingTable (gnu_endian t) (gnu_class t) (gnu_bloom t) : ParsingTable E u64)
                  bloom_idx in
      Ret (Ok (bloom_width, u64_val w))
  end.

(** [u32::checked_shr]. *)
Definition checked_shr32 (x n : Z) : option Z := if n <? 32 then Some (Z.shiftr x n) else None.

(** The [for] loop over the chain with [n] entries left. *)
Fixpoint gnu_walk (n : nat) (t : GnuHashTable E) (hash : Z) (name : bytes) (symtab : ParsingTable E Symbol)
    (strtab : bytes) (chain_idx : Z) : PR (option (Z * Symbol)) :=
  match n with
  | O => Ret (Ok None)
  | S n =>
      let* chain_hash := table_get (gnu_chains t) chain_idx in
      let* hit :=
        if Z.lor hash 1 =? Z.lor (u32_val chain_hash) 1 then
          let* sym_idx := Ret (ok_or (checked_add chain_idx (table_start_idx (gnu_hdr t))) IntegerOverflow) in
          let* symbol := table_get symtab sym_idx in
          let* r_sym_name := Ret (strtab_get_raw strtab (st_name symbol)) in
          Ret (Ok (if bool_decide (r_sym_name = name) then Some (sym_idx, symbol) else None))
        else Ret (Ok None) in
      match hit with
      | Some r => Ret (Ok (Some r))
      | None =>
          if Z.land (u32_val chain_hash) 1 =? 0 then gnu_walk n t hash name symtab strtab (chain_idx + 1)
          else Ret (Ok None)
      end
  end.

Definition gnu_find (t : GnuHashTable E) (name : bytes) (symtab : ParsingTable E Symbol) (strtab : bytes) :
    PR (option (Z * Symbol)) :=
  if table_is_empty (gnu_buckets t) || (nbloom (gnu_hdr t) =? 0) then Ret (Ok None)
  else
    let hash := gnu_hash name in
    let* bw := bloom_word t hash in
    let '(bloom_width, filter) := bw in
    if Z.land filter (Z.shiftl 1 (hash mod bloom_width)) =? 0 then Ret (Ok None)
    else
      let* hash2 := Ret (ok_or (checked_shr32 hash (nshift (gnu_hdr t))) IntegerOverflow) in
      if Z.land filter (Z.shiftl 1 (hash2 mod bloom_width)) =? 0 then Ret (Ok None)
      else
        let start := table_start_idx (gnu_hdr t) in
        let* bucket_idx := pr_lift (urem hash (table_len (gnu_buckets t))) in
        let* bucket := table_get (gnu_buckets t) bucket_idx in
        let chain_start_idx := u32_val bucket in
        if chain_start_idx <? start then Ret (Ok None)
        else
          let chain_len := table_len (gnu_chains t) in
          gnu_walk (Z.to_nat (chain_len - (chain_start_idx - start))) t hash name symtab strtab
            (chain_start_idx - start).

End gnu.

(** ** Specification *)

(** The hash function as the System V ABI gives it, on a 32-bit [unsigned long]. *)
Definition elf_hash_step (h byte : Z) : Z :=
  let h := wrap32 (Z.shiftl h 4 + byte) in
  let g := Z.land h 0xf0000000 in
  Z.ldiff (Z.lxor h (Z.shiftr g 24)) g.
Definition elf_hash (name : bytes) : Z := fold_left elf_hash_step name 0.

(** Symbol [i] of the table is [sym] and its name is [name]. *)
Definition symbol_named {E} `{EndianParse E} (symtab : ParsingTable E Symbol) (strtab name : bytes) (i : Z)
    (sym : Symbol) : Prop :=
  table_get symtab i = Ret (Ok sym) ∧ strtab_get_raw strtab (st_name sym) = Ok name.

(** Following the chain from [i] visits the symbols of the list and then ends. *)
Inductive chain_path {E} `{EndianParse E} (chains : ParsingTable E u32) : Z → list Z → Prop :=
| chain_end : chain_path chains 0 []
| chain_next i next l :
    i ≠ 0 → table_get chains i = Ret (Ok (U32 next)) → chain_path chains next l → chain_path chains i (i :: l).

(** The symbol [s] of name [name] is entered in the GNU table: its bits are set in the
    bloom filter, and the chain of its bucket reaches its entry, which holds its hash up to
    the stop bit.  The entries before it do not stop the chain, and those of the same
    hash are of symbols of other names. *)
Record gnu_entered {E} `{EndianParse E} (t : GnuHashTable E) (symtab : ParsingTable E Symbol) (strtab name : bytes)
    (s : Z) : Prop := {
  ent_nbloom : nbloom (gnu_hdr t) ≠ 0;
  ent_nshift : nshift (gnu_hdr t) < 32;
  ent_buckets : 0 < table_len (gnu_buckets t);
  ent_bloom : ∃ width filter, bloom_word t (gnu_hash name) = Ret (Ok (width, filter)) ∧
    Z.testbit filter (gnu_hash name mod width) = true ∧
    Z.testbit filter (Z.shiftr (gnu_hash name) (nshift (gnu_hdr t)) mod width) = true;
  ent_chain : ∃ c v,
    table_get (gnu_buckets t) (gnu_hash name mod table_len (gnu_buckets t)) = Ret (Ok (U32 c)) ∧
    table_start_idx (gnu_hdr t) ≤ c ≤ s ∧ s < 2 ^ 64 ∧
    s - table_start_idx (gnu_hdr t) < table_len (gnu_chains t) ∧
    table_get (gnu_chains t) (s - table_start_idx (gnu_hdr t)) = Ret (Ok (U32 v)) ∧
    Z.lor (gnu_hash name) 1 = Z.lor v 1 ∧
    ∀ k, c ≤ k < s → ∃ u, table_get (gnu_chains t) (k - table_start_idx (gnu_hdr t)) = Ret (Ok (U32 u)) ∧
      Z.land u 1 = 0 ∧
      (Z.lor (gnu_hash name) 1 = Z.lor u 1 → ∃ sym nm, nm ≠ name ∧ symbol_named symtab strtab nm k sym);
}.

(** * Lemmas *)

#[export] Instance u32_exact : ExactParse u32.
Proof. split; [simpl; lia|]. intros E ? endian class data Hd. simpl. unfold u32_parse_at. solve_exact. Qed.
#[export] Instance u64_exact : ExactParse u64.
Proof. split; [simpl; lia|]. intros E ? endian class data Hd. simpl. unfold u64_parse_at. solve_exact. Qed.
#[export] Instance SysVHashHeader_exact : ExactParse SysVHashHeader.
Proof. split; [simpl; lia|]. intros E ? endian class data Hd. simpl. unfold SysVHashHeader_parse_at. solve_exact. Qed.
#[export] Instance GnuHashHeader_exact : ExactParse GnuHashHeader.
Proof. split; [simpl; lia|]. intros E ? endian class data Hd. simpl. unfold GnuHashHeader_parse_at. solve_exact. Qed.

(** ** The hash function *)

Lemma wrap32_add x y : wrap32 (wrap32 x + y) = wrap32 (x + y).
Proof. unfold wrap32. by rewrite Zplus_mod_idemp_l. Qed.

Lemma sysv_elf_step hash b :
  Z.land (sysv_hash_step hash b) (Z.ones 28) = elf_hash_step (Z.land hash (Z.ones 28)) b.
Proof.
  unfold sysv_hash_step, elf_hash_step. rewrite wrap32_add.
  assert (wrap32 (Z.shiftl (Z.land hash (Z.ones 28)) 4 + b) = wrap32 (hash * 16 + b)) as ->.
  { unfold wrap32. rewrite Z.shiftl_mul_pow2, Z.land_ones by lia. rewrite (Zplus_mod _ b), (Zplus_mod (hash * 16)).
    change (2 ^ 32) with (2 ^ 28 * 16). change (2 ^ 4) with 16.
    by rewrite !Z.mul_mod_distr_r, Z.mod_mod by lia. }
  set (t := wrap32 (hash * 16 + b)).
  assert (Ht : ∀ n, 32 ≤ n → Z.testbit t n = false).
  { intros n Hn. unfold t, wrap32. rewrite Z.mod_pow2_bits_high by lia. done. }
  apply Z.bits_inj'. intros n Hn.
  rewrite Z.land_spec, Z.ldiff_spec, !Z.lxor_spec, Z.land_spec, Z.shiftr_spec, Z.shiftr_spec, !Z.land_spec by lia.
  replace (Z.testbit 0xf0 n) with ((4 <=? n) && (n <? 8)) by
    (change 0xf0 with (Z.shiftl (Z.ones 4) 4); rewrite Z.shiftl_spec by lia; rewrite Z.testbit_ones by lia;
     case_Z; lia || done).
  assert (Hf : ∀ m, 0 ≤ m → Z.testbit 0xf0000000 m = (28 <=? m) && (m <? 32)).
  { intros m Hm. change 0xf0000000 with (Z.shiftl (Z.ones 4) 28). rewrite Z.shiftl_spec by lia.
    destruct (Z.lt_ge_cases m 28); [rewrite Z.testbit_neg_r by lia|rewrite Z.testbit_ones by lia]; case_Z; lia || done. }
  rewrite !Hf by lia. rewrite Z.testbit_ones by lia. specialize (Ht n).
  destruct (Z.testbit t n) eqn:Htn; [assert (n < 32) by (destruct (Z.lt_ge_cases n 32); [done|discriminate Ht; lia])|];
  case_Z; rewrite ?andb_true_r, ?andb_false_r, ?xorb_false_r; try lia; try done.
Qed.

Lemma sysv_elf_fold name : ∀ hash,
  Z.land (fold_left sysv_hash_step name hash) (Z.ones 28) =
  fold_left elf_hash_step name (Z.land hash (Z.ones 28)).
Proof. induction name as [|b name IH]; intros hash; simpl; [done|]. by rewrite IH, sysv_elf_step. Qed.

Lemma sysv_elf name : sysv_hash name = elf_hash name.
Proof. unfold sysv_hash, elf_hash. change 0xfffffff with (Z.ones 28). by rewrite sysv_elf_fold. Qed.

Lemma urem_pos x y : 0 < y → urem x y = Ret (x mod y) ∧ 0 ≤ x mod y < y.
Proof. intros. unfold urem. case_Z; [lia|]. split; [done|]. apply Z.mod_pos_bound. lia. Qed.

(** An error, or nothing found. *)
Ltac solve_err := eexists; split; [reflexivity|]; intros; discriminate.

Section find_lemmas.
Context {E : Type} `{EndianParse E}.

(** ** Entries *)

Lemma u32_entry (t : ParsingTable E u32) i x : table_ok t → in_usize i → table_get t i = Ret (Ok x) →
  0 ≤ u32_val x < 2 ^ 32 ∧ i < table_len t.
Proof.
  intros [Hs Hb] Hi Hx. destruct (table_get_spec t i Hs Hi) as [(Hlt & p & Hp & Hg)|(_ & e & Hg)];
    [|by rewrite Hg in Hx]. rewrite Hg in Hx. simplify_eq. split; [|done].
  simpl in Hp. unfold u32_parse_at, sm_bind, parse_u32_at in Hp.
  destruct (safe_from 4 _ _ _) as [[[v|e] off]|] eqn:Hsf; simplify_eq/=.
  apply safe_from_range in Hsf; [|done|destruct Hi; simpl; lia]. simpl. change (2 ^ 32) with (256 ^ 4).
  unfold sm_ret in Hp. simplify_eq/=. lia.
Qed.

Lemma u32_index (t : ParsingTable E u32) i x : table_ok t → in_usize i → table_get t i = Ret (Ok x) →
  in_usize (u32_val x).
Proof. intros Ht Hi Hx. destruct (u32_entry t i x Ht Hi Hx). unfold in_usize. lia. Qed.

Lemma bucket_get (t : ParsingTable E u32) h : table_ok t → table_is_empty t = false →
  urem h (table_len t) = Ret (h mod table_len t) ∧ in_usize (h mod table_len t).
Proof.
  intros [Hs _] He. pose proof (table_len_nonneg t). pose proof (table_len_le t). unfold slice_ok in Hs.
  unfold table_is_empty in He. case_Z. destruct (urem_pos h (table_len t)) as [-> ?]; [lia|].
  split; [done|]. unfold in_usize. lia.
Qed.

(** ** System V *)

Lemma sysv_new_spec (endian : E) class data : slice_ok data → bytes_ok data →
  ∃ r, SysVHashTable_new endian class data = Ret r ∧
    ∀ t, r = Ok t → table_ok (sysv_buckets t) ∧ table_ok (sysv_chains t).
Proof.
  intros Hs Hb. unfold SysVHashTable_new.
  destruct (exact_parse (P := SysVHashHeader) endian class data Hs 0) as [Hok Herr]; [lia|]. simpl in Hok, Herr.
  unfold sm_bind at 1.
  destruct (Z.lt_ge_cases (len data) 8) as [|Hlen].
  { destruct Herr as (e & off & -> & _); [lia|]. simpl. solve_err. }
  destruct Hok as [hdr Hhdr]; [lia|]. rewrite Hhdr. change (0 + 8) with 8.
  unfold sm_bind, sm_get, sm_lift, sm_ret. simpl.
  destruct (checked_mul 4 (sysv_nbucket hdr)) as [bs|]; simpl; [|solve_err].
  destruct (checked_add 8 bs) as [be|] eqn:Hbe; simpl; [|solve_err].
  destruct (get_bytes data 8 be) as [bb|] eqn:Hbb; simpl; [|solve_err].
  destruct (checked_mul 4 (sysv_nchain hdr)) as [cs|]; simpl; [|solve_err].
  destruct (checked_add be cs) as [ce|]; simpl; [|solve_err].
  destruct (get_bytes data be ce) as [cb|] eqn:Hcb; simpl; [|solve_err].
  eexists. split; [done|]. intros t [= <-]. simpl.
  assert (0 ≤ be).
  { unfold get_bytes, slice in Hbb. case_Z. lia. }
  split; eapply get_bytes_ok; [..|exact Hbb| | | |exact Hcb]; done || lia.
Qed.

Lemma sysv_walk_sound (chains : ParsingTable E u32) name symtab strtab n : table_ok chains → slice_ok (table_data symtab) →
  ∀ index, in_usize index →
  ∃ r, sysv_walk n chains name symtab strtab index = Ret r ∧
    ∀ i sym, r = Ok (Some (i, sym)) → symbol_named symtab strtab name i sym.
Proof.
  intros Hc Hst. induction n as [|n IH]; intros index Hi; simpl; [solve_err|].
  destruct (index =? 0); [solve_err|].
  destruct (table_get_returns symtab index Hst Hi) as [[sym|e] Hg]; rewrite Hg; simpl; [|solve_err].
  destruct (strtab_get_raw strtab (st_name sym)) as [nm|e] eqn:Hnm; simpl; [|solve_err].
  case_bool_decide as Heq.
  - subst. eexists. split; [done|]. intros i sym' [= <- <-]. by split.
  - destruct (table_get_returns chains index (proj1 Hc) Hi) as [[x|e] Hx]; rewrite Hx; simpl; [|solve_err].
    apply IH. by eapply u32_index.
Qed.

Lemma sysv_find_sound (t : SysVHashTable E) name symtab strtab :
  table_ok (sysv_buckets t) → table_ok (sysv_chains t) → slice_ok (table_data symtab) →
  ∃ r, sysv_find t name symtab strtab = Ret r ∧
    ∀ i sym, r = Ok (Some (i, sym)) → symbol_named symtab strtab name i sym.
Proof.
  intros Hb Hc Hst. unfold sysv_find. destruct (table_is_empty _) eqn:He; [solve_err|].
  destruct (bucket_get _ (sysv_hash name) Hb He) as [-> Hi]. simpl.
  destruct (table_get_returns _ _ (proj1 Hb) Hi) as [[x|e] Hx]; rewrite Hx; simpl; [|solve_err].
  apply sysv_walk_sound; [done..|]. exact (u32_index _ _ _ Hb Hi Hx).
Qed.

Lemma chain_path_det (chains : ParsingTable E u32) i l : chain_path chains i l →
  ∀ l', chain_path chains i l' → l = l'.
Proof.
  induction 1 as [|i next l Hi Hg Hp IH]; intros l' Hl'; inversion Hl' as [|? next' l'' ? Hg' Hp']; simplify_eq; try done.
  f_equal. apply IH. rewrite Hg in Hg'. by simplify_eq.
Qed.

Lemma chain_path_suffix (chains : ParsingTable E u32) i l j : chain_path chains i l → j ∈ l →
  ∃ l1 l2, l = l1 ++ l2 ∧ chain_path chains j l2 ∧ l2 ≠ [].
Proof.
  induction 1 as [|i next l Hi Hg Hp IH]; [by intros ?%not_elem_of_nil|].
  intros [->|Hj]%elem_of_cons; [exists [], (i :: l); split_and!; [done|by econstructor|done]|].
  destruct (IH Hj) as (l1 & l2 & -> & ? & ?). by exists (i :: l1), l2.
Qed.

Lemma chain_path_nodup (chains : ParsingTable E u32) i l : chain_path chains i l → NoDup l.
Proof.
  induction 1 as [|i next l Hi Hg Hp IH]; constructor; [|done]. intros Hin.
  destruct (chain_path_suffix chains next l i Hp Hin) as (l1 & l2 & Hl & Hp2 & _).
  assert (chain_path chains i (i :: l)) as Hp1 by (by econstructor).
  pose proof (chain_path_det chains i _ Hp1 _ Hp2) as Heq. apply (f_equal length) in Heq.
  apply (f_equal length) in Hl. rewrite length_app in Hl. simpl in Heq. lia.
Qed.

Lemma chain_path_range (chains : ParsingTable E u32) i l : table_ok chains → in_usize i → chain_path chains i l →
  Forall (λ j, 0 < j < table_len chains) l.
Proof.
  intros Hc Hi Hp. induction Hp as [|i next l Hn Hg Hp IH]; constructor.
  - destruct (u32_entry chains i _ Hc Hi Hg). destruct Hi. lia.
  - apply IH. by eapply (u32_index chains i (U32 next)).
Qed.

(** A chain that ends is shorter than the number of rounds. *)
Lemma chain_path_short (chains : ParsingTable E u32) i l : table_ok chains → in_usize i → chain_path chains i l →
  (length l ≤ Z.to_nat (table_len chains))%nat.
Proof.
  intros Hc Hi Hp. pose proof (chain_path_range chains i l Hc Hi Hp) as Hr.
  pose proof (chain_path_nodup chains i l Hp) as Hnd. rewrite <-(length_seq (Z.to_nat (table_len chains)) 0).
  rewrite <-(length_fmap Z.to_nat l). apply submseteq_length, NoDup_submseteq.
  - rewrite Forall_forall in Hr. apply NoDup_fmap_2_strong; [|done]. intros x y Hx Hy ?.
    pose proof (Hr x Hx). pose proof (Hr y Hy). lia.
  - intros n (j & -> & Hj)%list_elem_of_fmap. rewrite Forall_forall in Hr. specialize (Hr j Hj).
    apply elem_of_seq. lia.
Qed.

Lemma sysv_walk_chain (chains : ParsingTable E u32) name symtab strtab i l n :
  chain_path chains i l → (length l ≤ n)%nat →
  (∀ j, j ∈ l → ∃ sym nm, symbol_named symtab strtab nm j sym) →
  ∃ r, sysv_walk n chains name symtab strtab i = Ret (Ok r) ∧
    match r with
    | Some (j, sym) => j ∈ l ∧ symbol_named symtab strtab name j sym
    | None => ∀ j sym, j ∈ l → ¬ symbol_named symtab strtab name j sym
    end.
Proof.
  intros Hp. revert n. induction Hp as [|i next l Hi Hg Hp IH]; intros n Hn Hsym.
  - exists None. destruct n; (split; [done|]); intros j sym Hj; by apply not_elem_of_nil in Hj.
  - destruct n as [|n]; simpl in Hn; [lia|]. simpl. case_Z.
    destruct (Hsym i) as (sym & nm & Hsg & Hnm); [by left|]. rewrite Hsg. simpl. rewrite Hnm. simpl.
    case_bool_decide as Heq.
    + subst. exists (Some (i, sym)). split; [done|]. split; [by left|done].
    + rewrite Hg. simpl. destruct (IH n) as (r & Hr & Hspec); [lia|intros j Hj; apply Hsym; by right|].
      exists r. split; [done|]. destruct r as [[j sym']|]; [destruct Hspec; split; [by right|done]|].
      intros j sym' [->|Hj]%elem_of_cons; [|by apply Hspec]. intros [Hsg' Hnm']. congruence.
Qed.

(** ** GNU *)

Lemma gnu_hdr_range (endian : E) class data off h off' : bytes_ok data → 0 ≤ off →
  GnuHashHeader_parse_at endian class data off = Ret (Ok h, off') →
  0 ≤ gnu_nbucket h < 2 ^ 32 ∧ 0 ≤ table_start_idx h < 2 ^ 32 ∧ 0 ≤ nbloom h < 2 ^ 32 ∧ 0 ≤ nshift h < 2 ^ 32.
Proof.
  intros Hb Hoff Hp. unfold GnuHashHeader_parse_at, parse_u32_at in Hp. change (2 ^ 32) with (256 ^ 4). inv_sm.
  repeat match goal with
    | Hs : safe_from _ _ _ _ = Ret (Ok _, _) |- _ => apply safe_from_range in Hs as (? & -> & ?); [|done|lia]
    end. simpl. lia.
Qed.

Lemma gnu_new_spec (endian : E) class data : slice_ok data → bytes_ok data →
  ∃ r, GnuHashTable_new endian class data = Ret r ∧
    ∀ t, r = Ok t → slice_ok (gnu_bloom t) ∧ 0 ≤ nbloom (gnu_hdr t) < 2 ^ 32 ∧
      0 ≤ table_start_idx (gnu_hdr t) < 2 ^ 32 ∧ table_ok (gnu_buckets t) ∧ table_ok (gnu_chains t).
Proof.
  intros Hs Hb. unfold GnuHashTable_new.
  destruct (exact_parse (P := GnuHashHeader) endian class data Hs 0) as [Hok Herr]; [lia|]. simpl in Hok, Herr.
  unfold sm_bind at 1.
  destruct (Z.lt_ge_cases (len data) 16) as [|Hlen].
  { destruct Herr as (e & off & -> & _); [lia|]. simpl. solve_err. }
  destruct Hok as [hdr Hhdr]; [lia|]. rewrite Hhdr. change (0 + 16) with 16.
  apply gnu_hdr_range in Hhdr as (? & ? & ? & _); [|done|lia].
  unfold sm_bind, sm_get, sm_lift, sm_ret.
  destruct (checked_mul (nbloom hdr) _) as [ws|]; cbn [ok_or]; [|solve_err].
  destruct (checked_add 16 ws) as [we|]; cbn [ok_or]; [|solve_err].
  destruct (get_bytes data 16 we) as [wb|] eqn:Hwb; [|solve_err].
  destruct (checked_mul 4 (gnu_nbucket hdr)) as [bs|]; cbn [ok_or]; [|solve_err].
  destruct (checked_add we bs) as [be|]; cbn [ok_or]; [|solve_err].
  destruct (get_bytes data we be) as [bb|] eqn:Hbb; [|solve_err].
  destruct (slice_from data be) as [cb|] eqn:Hcb; cbn [ok_or]; [|solve_err].
  eexists. split; [done|]. intros t [= <-]. simpl.
  assert (0 ≤ we ∧ we ≤ be) by (unfold get_bytes, slice in Hwb, Hbb; case_Z; lia).
  apply get_bytes_ok in Hwb, Hbb; [|done || lia..].
  apply slice_from_len in Hcb as Hcl; [|lia]. apply slice_from_bytes in Hcb; [|done].
  split_and!; try done; try lia; try apply Hwb. split; [|done]. unfold slice_ok in *. simpl. lia.
Qed.

Lemma bloom_word_returns (t : GnuHashTable E) h : slice_ok (gnu_bloom t) → 0 < nbloom (gnu_hdr t) < 2 ^ 32 →
  returns (bloom_word t h).
Proof.
  intros Hs Hn. unfold bloom_word.
  destruct (gnu_class t);
    (match goal with |- context [urem ?x ?y] => destruct (urem_pos x y) as [-> ?]; [lia|] end); simpl;
    (apply returns_bind; [apply table_get_returns; [done|unfold in_usize; lia]|eauto with kernel]).
Qed.

Lemma gnu_walk_sound (t : GnuHashTable E) h name symtab strtab n : table_ok (gnu_chains t) →
  0 ≤ table_start_idx (gnu_hdr t) < 2 ^ 32 → slice_ok (table_data symtab) →
  ∀ idx, 0 ≤ idx → idx + Z.of_nat n ≤ table_len (gnu_chains t) →
  ∃ r, gnu_walk n t h name symtab strtab idx = Ret r ∧
    ∀ i sym, r = Ok (Some (i, sym)) → symbol_named symtab strtab name i sym.
Proof.
  intros Hc Hst Hsym. induction n as [|n IH]; intros idx Hidx Hn; cbn [gnu_walk]; [solve_err|].
  assert (Hi : in_usize idx).
  { pose proof (table_len_le (gnu_chains t)). destruct Hc as [Hc _]. unfold slice_ok, in_usize in *. lia. }
  destruct (table_get_returns _ _ (proj1 Hc) Hi) as [[x|e] Hx]; rewrite Hx; cbn [pr_bind]; [|solve_err].
  assert (Hrest : ∃ r, (if Z.land (u32_val x) 1 =? 0 then gnu_walk n t h name symtab strtab (idx + 1) else Ret (Ok None)) =
    Ret r ∧ ∀ i sym, r = Ok (Some (i, sym)) → symbol_named symtab strtab name i sym).
  { case_match; [apply IH; lia|solve_err]. }
  destruct (Z.lor h 1 =? Z.lor (u32_val x) 1); [|exact Hrest].
  rewrite checked_add_small by (unfold slice_ok, in_usize in *; pose proof (table_len_le (gnu_chains t));
    destruct Hc as [Hc _]; unfold slice_ok in Hc; lia). cbn [ok_or pr_bind].
  assert (Hi' : in_usize (idx + table_start_idx (gnu_hdr t))).
  { pose proof (table_len_le (gnu_chains t)). destruct Hc as [Hc _]. unfold slice_ok, in_usize in *. lia. }
  destruct (table_get_returns symtab _ Hsym Hi') as [[sym|e] Hg]; rewrite Hg; cbn [pr_bind]; [|solve_err].
  destruct (strtab_get_raw strtab (st_name sym)) as [nm|e] eqn:Hnm; cbn [pr_bind]; [|solve_err].
  case_bool_decide; [|exact Hrest]. subst. eexists. split; [done|]. intros i sym' [= <- <-]. by split.
Qed.

Lemma gnu_find_sound (t : GnuHashTable E) name symtab strtab :
  slice_ok (gnu_bloom t) → 0 ≤ nbloom (gnu_hdr t) < 2 ^ 32 → 0 ≤ table_start_idx (gnu_hdr t) < 2 ^ 32 →
  table_ok (gnu_buckets t) → table_ok (gnu_chains t) → slice_ok (table_data symtab) →
  ∃ r, gnu_find t name symtab strtab = Ret r ∧
    ∀ i sym, r = Ok (Some (i, sym)) → symbol_named symtab strtab name i sym.
Proof.
  intros Hbl Hnb Hst Hb Hc Hsym. unfold gnu_find. destruct (table_is_empty _) eqn:He; [solve_err|].
  destruct (Z.eqb_spec (nbloom (gnu_hdr t)) 0); cbn [orb]; [solve_err|].
  destruct (bloom_word_returns t (gnu_hash name) Hbl) as [[[w f]|e] Hw]; [lia|..]; rewrite Hw; cbn [pr_bind]; [|solve_err].
  case_match; [solve_err|]. destruct (checked_shr32 _ _); cbn [ok_or pr_bind]; [|solve_err].
  case_match; [solve_err|].
  destruct (bucket_get _ (gnu_hash name) Hb He) as [-> Hi]. cbn [pr_lift pr_bind fmap outcome_fmap].
  destruct (table_get_returns _ _ (proj1 Hb) Hi) as [[x|e] Hx]; rewrite Hx; cbn [pr_bind]; [|solve_err].
  case_Z1; [solve_err|]. pose proof (table_len_nonneg (gnu_chains t)).
  destruct (Z.lt_ge_cases (table_len (gnu_chains t)) (u32_val x - table_start_idx (gnu_hdr t))).
  - rewrite Z2Nat.inj_neg || replace (Z.to_nat _) with 0%nat by lia. simpl. solve_err.
  - apply gnu_walk_sound; try done; lia.
Qed.

Lemma gnu_walk_reach (t : GnuHashTable E) h name symtab strtab s v sym : s < 2 ^ 64 →
  table_get (gnu_chains t) (s - table_start_idx (gnu_hdr t)) = Ret (Ok (U32 v)) → Z.lor h 1 = Z.lor v 1 →
  symbol_named symtab strtab name s sym →
  ∀ d n c, s - c = Z.of_nat d → (d < n)%nat →
  (∀ k, c ≤ k < s → ∃ u, table_get (gnu_chains t) (k - table_start_idx (gnu_hdr t)) = Ret (Ok (U32 u)) ∧
     Z.land u 1 = 0 ∧ (Z.lor h 1 = Z.lor u 1 → ∃ sym nm, nm ≠ name ∧ symbol_named symtab strtab nm k sym)) →
  gnu_walk n t h name symtab strtab (c - table_start_idx (gnu_hdr t)) = Ret (Ok (Some (s, sym))).
Proof.
  intros Hs Hv Hh [Hsg Hsn]. induction d as [|d IH]; intros n c Hd Hn Hk; (destruct n as [|n]; [lia|]); cbn [gnu_walk].
  - assert (c = s) as -> by lia. rewrite Hv. cbn [pr_bind u32_val]. rewrite Hh, Z.eqb_refl.
    rewrite checked_add_small, Z.sub_add by lia. cbn [ok_or pr_bind]. rewrite Hsg. cbn [pr_bind].
    rewrite Hsn. cbn [pr_bind]. by rewrite bool_decide_eq_true_2 by done.
  - destruct (Hk c) as (u & Hu & Hu1 & Hother); [lia|]. rewrite Hu. cbn [pr_bind u32_val].
    assert (Hnext : (if Z.land u 1 =? 0 then gnu_walk n t h name symtab strtab (c - table_start_idx (gnu_hdr t) + 1)
      else Ret (Ok None)) = Ret (Ok (Some (s, sym)))).
    { rewrite Hu1. simpl. replace (c - table_start_idx (gnu_hdr t) + 1) with (c + 1 - table_start_idx (gnu_hdr t)) by lia.
      apply IH; [lia..|]. intros k ?. apply Hk. lia. }
    destruct (Z.eqb_spec (Z.lor h 1) (Z.lor u 1)) as [Heq|]; [|exact Hnext].
    destruct (Hother Heq) as (sym' & nm & Hne & Hg & Hnm).
    rewrite checked_add_small, Z.sub_add by lia. cbn [ok_or pr_bind]. rewrite Hg. cbn [pr_bind].
    rewrite Hnm. cbn [pr_bind]. rewrite bool_decide_eq_false_2 by done. exact Hnext.
Qed.

Lemma land_shiftl_1 x n : 0 ≤ n → Z.testbit x n = true → (Z.land x (Z.shiftl 1 n) =? 0) = false.
Proof.
  intros Hn Hx. apply Z.eqb_neq. intros Hl. apply (f_equal (λ y, Z.testbit y n)) in Hl.
  rewrite Z.land_spec, Z.shiftl_spec, Z.sub_diag, Z.bits_0, Hx in Hl by lia. done.
Qed.

Lemma bloom_word_width (t : GnuHashTable E) h w f : bloom_word t h = Ret (Ok (w, f)) → 0 < w.
Proof.
  unfold bloom_word. destruct (gnu_class t); intros (? & ? & (? & ? & ?)%pr_bind_ok)%pr_bind_ok; simplify_eq; lia.
Qed.

End find_lemmas.

(** * Properties *)

(** A symbol table with the symbols [ab] and [c], and hash tables for it. *)
Definition demo_strtab : bytes := [0; 0x61; 0x62; 0; 0x63; 0].
Definition demo_symtab : ParsingTable AnyEndian Symbol :=
  Build_ParsingTable Little ELF64
    (encode_table Little ELF64 [Build_Symbol 0 0 0 0 0 0; Build_Symbol 1 1 0x12 0 0x1000 8; Build_Symbol 4 1 0x12 0 0x2000 8]).
Definition words (l : list Z) : bytes := concat (enc Little 4 <$> l).
Definition demo_sysv : bytes := words [1; 3; 1; 0; 2; 0].
Definition demo_sysv_table : SysVHashTable AnyEndian :=
  Build_SysVHashTable (Build_ParsingTable Little ELF64 (words [1])) (Build_ParsingTable Little ELF64 (words [0; 2; 0])).
Definition demo_gnu_table : GnuHashTable AnyEndian :=
  Build_GnuHashTable (Build_GnuHashHeader 1 1 1 6) Little ELF64 (words [0xffffffff; 0xffffffff])
    (Build_ParsingTable Little ELF64 (words [1])) (Build_ParsingTable Little ELF64 (words [5863208; 177673])).

(** [sysv_hash] computes the hash function of the System V ABI: although it keeps the
    top nibble that the ABI's definition clears in every round, the two agree on every
    name. *)
Theorem sysv_hash_is_elf_hash name : sysv_hash name = elf_hash name.
Proof. apply sysv_elf. Qed.

(** Looking up a symbol by hash is safe on untrusted bytes: [new] returns on every slice,
    and on every table it accepts [find] returns, without a division by zero, an
    out-of-range index, an overflow or an endless chain, for every symbol and string
    table; a symbol that it finds is the entry of the symbol table at the returned
    index and has the name searched for. *)
Theorem hash_find_safe {E} `{EndianParse E} (endian : E) class data name symtab strtab :
  slice_ok data → bytes_ok data → slice_ok (table_data symtab) →
  (∃ r, SysVHashTable_new endian class data = Ret r ∧ ∀ t, r = Ok t →
     ∃ s, sysv_find t name symtab strtab = Ret s ∧
       ∀ i sym, s = Ok (Some (i, sym)) → symbol_named symtab strtab name i sym) ∧
  (∃ r, GnuHashTable_new endian class data = Ret r ∧ ∀ t, r = Ok t →
     ∃ s, gnu_find t name symtab strtab = Ret s ∧
       ∀ i sym, s = Ok (Some (i, sym)) → symbol_named symtab strtab name i sym).
Proof.
  intros Hs Hb Hsym. split.
  - destruct (sysv_new_spec endian class data Hs Hb) as (r & -> & Hr). exists r. split; [done|].
    intros t Ht. destruct (Hr t Ht). by apply sysv_find_sound.
  - destruct (gnu_new_spec endian class data Hs Hb) as (r & -> & Hr). exists r. split; [done|].
    intros t Ht. destruct (Hr t Ht) as (? & ? & ? & ? & ?). by apply gnu_find_sound.
Qed.

Lemma hash_find_safe_witness :
  ∃ r, SysVHashTable_new Little ELF64 demo_sysv = Ret r ∧ ∀ t, r = Ok t →
    ∃ s, sysv_find t [0x63] demo_symtab demo_strtab = Ret s ∧
      ∀ i sym, s = Ok (Some (i, sym)) → symbol_named demo_symtab demo_strtab [0x63] i sym.
Proof.
  apply (hash_find_safe Little ELF64 demo_sysv [0x63] demo_symtab demo_strtab).
  - vm_compute. reflexivity.
  - apply Forall_forall. intros b Hb. apply (bool_decide_unpack (0 ≤ b < 256)).
    revert b Hb. apply Forall_forall. repeat (constructor; [vm_compute; exact I|]). constructor.
  - vm_compute. reflexivity.
Defined.

(** On a System V table whose chain ends, [find] decides whether the name is in the chain
    of its bucket: when the symbols on that chain can be read, it returns one of
    them that has the name, and nothing exactly when none has it.  The bound on the
    number of rounds never cuts such a chain short. *)
Theorem sysv_find_decides {E} `{EndianParse E} (t : SysVHashTable E) name symtab strtab i l :
  table_ok (sysv_buckets t) → table_ok (sysv_chains t) → 0 < table_len (sysv_buckets t) →
  table_get (sysv_buckets t) (elf_hash name mod table_len (sysv_buckets t)) = Ret (Ok (U32 i)) →
  chain_path (sysv_chains t) i l →
  (∀ j, j ∈ l → ∃ sym nm, symbol_named symtab strtab nm j sym) →
  ∃ r, sysv_find t name symtab strtab = Ret (Ok r) ∧
    match r with
    | Some (j, sym) => j ∈ l ∧ symbol_named symtab strtab name j sym
    | None => ∀ j sym, j ∈ l → ¬ symbol_named symtab strtab name j sym
    end.
Proof.
  intros Hb Hc Hpos Hget Hp Hsym. unfold sysv_find.
  assert (He : table_is_empty (sysv_buckets t) = false) by (unfold table_is_empty; case_Z; lia || done).
  rewrite He. destruct (bucket_get _ (sysv_hash name) Hb He) as [-> Hi]. cbn [pr_lift pr_bind fmap outcome_fmap].
  rewrite sysv_elf in *. rewrite Hget. cbn [pr_bind u32_val].
  eapply sysv_walk_chain; [exact Hp| |done].
  eapply chain_path_short; [done| |done]. exact (u32_index _ _ _ Hb Hi Hget).
Qed.

Lemma sysv_find_decides_witness :
  ∃ r, sysv_find demo_sysv_table [0x63] demo_symtab demo_strtab = Ret (Ok r) ∧
    match r with
    | Some (j, sym) => j ∈ [1; 2] ∧ symbol_named demo_symtab demo_strtab [0x63] j sym
    | None => ∀ j sym, j ∈ [1; 2] → ¬ symbol_named demo_symtab demo_strtab [0x63] j sym
    end.
Proof.
  apply (sysv_find_decides demo_sysv_table [0x63] demo_symtab demo_strtab 1 [1; 2]).
  - split; [vm_compute; reflexivity|]. repeat (constructor; [vm_compute; split; [discriminate|reflexivity]|]). constructor.
  - split; [vm_compute; reflexivity|]. repeat (constructor; [vm_compute; split; [discriminate|reflexivity]|]). constructor.
  - vm_compute. reflexivity.
  - vm_compute. reflexivity.
  - eapply chain_next; [discriminate|vm_compute; reflexivity|].
    eapply chain_next; [discriminate|vm_compute; reflexivity|]. apply chain_end.
  - intros j Hj. rewrite !elem_of_cons in Hj. destruct Hj as [->|[->|Hj]]; [| |by apply not_elem_of_nil in Hj];
      (eexists _, _; split; vm_compute; reflexivity).
Defined.

(** On a GNU table [find] finds what was entered: when the symbol is in the symbol table
    and entered in the hash table, [find] returns its index and its entry. *)
Theorem gnu_find_entered {E} `{EndianParse E} (t : GnuHashTable E) name symtab strtab s sym :
  table_ok (gnu_buckets t) → gnu_entered t symtab strtab name s → symbol_named symtab strtab name s sym →
  gnu_find t name symtab strtab = Ret (Ok (Some (s, sym))).
Proof.
  intros Hb [Hnb Hns Hbk (w & f & Hbw & Hf1 & Hf2) (c & v & Hget & Hc & Hs64 & Hs & Hv & Hh & Hk)] Hnamed.
  unfold gnu_find.
  assert (He : table_is_empty (gnu_buckets t) = false) by (unfold table_is_empty; case_Z; lia || done).
  rewrite He. destruct (Z.eqb_spec (nbloom (gnu_hdr t)) 0); [done|]. cbn [orb]. rewrite Hbw. cbn [pr_bind].
  apply bloom_word_width in Hbw.
  rewrite land_shiftl_1; [|apply Z.mod_pos_bound; lia|done].
  unfold checked_shr32. destruct (Z.ltb_spec (nshift (gnu_hdr t)) 32); [|lia]. cbn [ok_or pr_bind].
  rewrite land_shiftl_1; [|apply Z.mod_pos_bound; lia|done].
  destruct (bucket_get _ (gnu_hash name) Hb He) as [-> Hi]. cbn [pr_lift pr_bind fmap outcome_fmap].
  rewrite Hget. cbn [pr_bind u32_val]. case_Z1; [lia|].
  apply (gnu_walk_reach t _ name symtab strtab s v sym Hs64 Hv Hh Hnamed (Z.to_nat (s - c))); [lia..|done].
Qed.
Lemma gnu_find_entered_witness :
  gnu_find demo_gnu_table [0x63] demo_symtab demo_strtab = Ret (Ok (Some (2, Build_Symbol 4 1 0x12 0 0x2000 8))).
Proof.
  apply (gnu_find_entered demo_gnu_table [0x63] demo_symtab demo_strtab 2).
  - split; [vm_compute; reflexivity|]. repeat (constructor; [vm_compute; split; [discriminate|reflexivity]|]). constructor.
  - split; [discriminate|vm_compute; reflexivity|vm_compute; reflexivity| |].
    + eexists _, _. split_and!; vm_compute; reflexivity.
    + exists 1, 177673. split_and!; [vm_compute; reflexivity|vm_compute; discriminate|vm_compute; discriminate|
        vm_compute; reflexivity|vm_compute; reflexivity|vm_compute; reflexivity|vm_compute; reflexivity|].
      intros k Hk. assert (k = 1) as -> by (clear -Hk; lia). exists 5863208.
      split_and!; [vm_compute; reflexivity|vm_compute; reflexivity|]. intros Hc. vm_compute in Hc. discriminate Hc.
  - split; vm_compute; reflexivity.
Defined.
