(* ===== verification/ElfNote.v ===== *)
(** ELF notes: [modules/elf/src/note.rs].

    [Note::parse_at] reads one note at the iterator's offset and moves the offset to the
    next one; [NoteIterator] calls it until it fails.  The theorems: iteration over any
    slice ends without a panic, and it gives back the notes that were laid out in the
    slice. *)

From S2P Require Import Prelude ElfParse.
From stdpp Require Import prelude list.
From Stdlib Require Import ZArith Lia.
Local Open Scope Z_scope.
Local Open Scope kernel_scope.

Definition ELF_NOTE_GNU : bytes := [0x47; 0x4e; 0x55].
Definition NT_GNU_ABI_TAG : Z := 1.
Definition NT_GNU_BUILD_ID : Z := 3.

Record NoteGnuAbiTag : Type := { os : Z; major : Z; minor : Z; subminor : Z }.
Record NoteAny : Type := { n_type : Z; name : bytes; desc : bytes }.
Inductive Note : Type :=
| GnuAbiTag (tag : NoteGnuAbiTag)
| GnuBuildId (id : bytes)
| Unknown (note : NoteAny).
Record NoteHeader : Type := { n_namesz : Z; n_descsz : Z; nhdr_type : Z }.

Section note.
Context {E : Type} `{EndianParse E}.

Definition NoteGnuAbiTag_parse_at (endian : E) (class : ElfClass) (data : bytes) : SM Z ParseError NoteGnuAbiTag :=
  let! os := parse_u32_at endian data in
  let! major := parse_u32_at endian data in
  let! minor := parse_u32_at endian data in
  let! subminor := parse_u32_at endian data in
  sm_ret (Build_NoteGnuAbiTag os major minor subminor).

Definition NoteHeader_parse_at (endian : E) (class : ElfClass) (data : bytes) : SM Z ParseError NoteHeader :=
  match class with
  | ELF32 =>
      let! n_namesz := parse_u32_at endian data in
      let! n_descsz := parse_u32_at endian data in
      let! n_type := parse_u32_at endian data in
      sm_ret (Build_NoteHeader n_namesz n_descsz n_type)
  | ELF64 =>
      let! n_namesz := parse_u64_at endian data in
      let! n_descsz := parse_u64_at endian data in
      let! n_type := parse_u64_at endian data in
      sm_ret (Build_NoteHeader n_namesz n_descsz n_type)
  end.
Definition NoteHeader_size_for (class : ElfClass) : Z := match class with ELF32 => 12 | ELF64 => 24 end.

(** [*offset = offset.checked_add(n).ok_or(IntegerOverflow)?]. *)
Definition advance (n : Z) : SM Z ParseError unit := λ offset,
  match checked_add offset n with
  | Some offset' => Ret (Ok tt, offset')
  | None => Ret (Err IntegerOverflow, offset)
  end.
(** Skip the padding up to the next multiple of [align]. *)
Definition skip_padding (align : Z) : SM Z ParseError unit := λ offset,
  match urem offset align with
  | Panic => Panic
  | Ret r => if 0 <? r then advance (align - r) offset else Ret (Ok tt, offset)
  end.

Definition Note_parse_at (endian : E) (class : ElfClass) (align : Z) (data : bytes) : SM Z ParseError Note :=
  if align =? 0 then sm_err (UnexpectedAlignment align)
  else
    let! nhdr := NoteHeader_parse_at endian ELF32 data in
    let! name_start := sm_get in
    let! name_buf_end :=
      sm_lift (ok_or (checked_add name_start (saturating_sub (n_namesz nhdr) 1)) IntegerOverflow) in
    let! name_buf := sm_lift (get_bytes data name_start name_buf_end) in
    let! name := sm_lift (from_utf8 name_buf) in
    do! advance (n_namesz nhdr) in
    do! skip_padding align in
    let! desc_start := sm_get in
    let! desc_end := sm_lift (ok_or (checked_add desc_start (n_descsz nhdr)) IntegerOverflow) in
    let! raw_desc := sm_lift (get_bytes data desc_start desc_end) in
    do! sm_put desc_end in
    do! skip_padding align in
    if bool_decide (name = ELF_NOTE_GNU) then
      if nhdr_type nhdr =? NT_GNU_ABI_TAG then λ offset,
        match NoteGnuAbiTag_parse_at endian class raw_desc 0 with
        | Ret (Ok tag, _) => Ret (Ok (GnuAbiTag tag), offset)
        | Ret (Err e, _) => Ret (Err e, offset)
        | Panic => Panic
        end
      else if nhdr_type nhdr =? NT_GNU_BUILD_ID then sm_ret (GnuBuildId raw_desc)
      else sm_ret (Unknown (Build_NoteAny (nhdr_type nhdr) name raw_desc))
    else sm_ret (Unknown (Build_NoteAny (nhdr_type nhdr) name raw_desc)).

Record NoteIterator : Type := { ni_endian : E; ni_class : ElfClass; ni_align : Z; ni_data : bytes; ni_offset : Z }.
Definition NoteIterator_new (endian : E) (class : ElfClass) (align : Z) (data : bytes) : NoteIterator :=
  Build_NoteIterator endian class align data 0.

Definition note_next (it : NoteIterator) : outcome (option Note * NoteIterator) :=
  match ni_data it with
  | [] => Ret (None, it)
  | _ =>
      r ← Note_parse_at (ni_endian it) (ni_class it) (ni_align it) (ni_data it) (ni_offset it);
      Ret (match fst r with Ok n => Some n | Err _ => None end,
           Build_NoteIterator (ni_endian it) (ni_class it) (ni_align it) (ni_data it) (snd r))
  end.
(** The notes that a [for] loop sees; running out of fuel counts as a panic. *)
Fixpoint note_collect (fuel : nat) (it : NoteIterator) : outcome (list Note) :=
  match fuel with
  | O => Panic
  | S fuel =>
      r ← note_next it;
      match fst r with
      | None => Ret []
      | Some n => rest ← note_collect fuel (snd r); Ret (n :: rest)
      end
  end.
(** A note takes twelve bytes or more. *)
Definition note_items (it : NoteIterator) : outcome (list Note) := note_collect (S (length (ni_data it))) it.

End note.
Arguments NoteIterator : clear implicits.

(** ** The layout of notes *)

Definition note_header_fields : c_struct NoteHeader := [(n_namesz, 4); (n_descsz, 4); (nhdr_type, 4)].
Definition abi_tag_fields : c_struct NoteGnuAbiTag := [(os, 4); (major, 4); (minor, 4); (subminor, 4)].

Definition note_type (n : Note) : Z :=
  match n with GnuAbiTag _ => NT_GNU_ABI_TAG | GnuBuildId _ => NT_GNU_BUILD_ID | Unknown a => n_type a end.
Definition note_name (n : Note) : bytes := match n with Unknown a => name a | _ => ELF_NOTE_GNU end.
Definition note_desc {E} `{EndianParse E} (endian : E) (n : Note) : bytes :=
  match n with GnuAbiTag t => encode endian abi_tag_fields t | GnuBuildId d => d | Unknown a => desc a end.

(** Zero bytes up to the next multiple of [align] from [off] on. *)
Definition padding (align off : Z) : bytes := replicate (Z.to_nat ((- off) mod align)) 0.

(** A note laid out at a multiple of [align]: the header, the name with its NUL, the
    padding, the descriptor, the padding. *)
Definition encode_note {E} `{EndianParse E} (endian : E) (align : Z) (n : Note) : bytes :=
  let namesz := len (note_name n) + 1 in
  let descsz := len (note_desc endian n) in
  let start := 12 + namesz + (- (12 + namesz)) mod align in
  encode endian note_header_fields (Build_NoteHeader namesz descsz (note_type n)) ++
  note_name n ++ [0] ++ padding align (12 + namesz) ++ note_desc endian n ++ padding align (start + descsz).

(** Notes the format can express; an [Unknown] one is not one of the known kinds. *)
Definition note_wf {E} `{EndianParse E} (endian : E) (n : Note) : Prop :=
  valid_utf8 (note_name n) = true ∧ len (note_name n) + 1 < 2 ^ 32 ∧ len (note_desc endian n) < 2 ^ 32 ∧
  0 ≤ note_type n < 2 ^ 32 ∧
  match n with
  | GnuAbiTag t => fits abi_tag_fields t
  | GnuBuildId _ => True
  | Unknown a => name a = ELF_NOTE_GNU → n_type a ≠ NT_GNU_ABI_TAG ∧ n_type a ≠ NT_GNU_BUILD_ID
  end.

(** * Lemmas *)

(** ** Progress *)

(** [m] returns and does not move the offset back. *)
Definition forward {A} (off : Z) (m : SM Z ParseError A) : Prop := ∃ r off', m off = Ret (r, off') ∧ off ≤ off'.

Lemma forward_ret {A} off (a : A) : forward off (sm_ret a).
Proof. repeat eexists. lia. Qed.
Lemma forward_get off : forward off sm_get.
Proof. repeat eexists. lia. Qed.
Lemma forward_lift {A} off (r : result A ParseError) : forward off (sm_lift r).
Proof. repeat eexists. lia. Qed.
Lemma forward_bind {A B} off (m : SM Z ParseError A) (f : A → SM Z ParseError B) :
  forward off m → (∀ a off', m off = Ret (Ok a, off') → off ≤ off' → forward off' (f a)) →
  forward off (let! x := m in f x).
Proof.
  intros (r & off' & Hm & Hle) Hf. unfold forward, sm_bind. rewrite Hm. destruct r as [a|e]; [|by repeat eexists].
  destruct (Hf a off' Hm Hle) as (r & off'' & -> & ?). repeat eexists. lia.
Qed.
Lemma forward_advance off n : 0 ≤ n → forward off (advance n).
Proof. intros. unfold forward, advance, checked_add. case_Z; repeat eexists; lia. Qed.
Lemma forward_skip off align : 0 < align → 0 ≤ off → forward off (skip_padding align).
Proof.
  intros Ha Ho. unfold forward, skip_padding, urem, advance, checked_add.
  pose proof (Z.mod_pos_bound off align). case_Z; first [lia|repeat eexists; lia].
Qed.

Section note_lemmas.
Context {E : Type} `{EndianParse E}.

Lemma note_header_exact (endian : E) data : slice_ok data →
  exact (len data) 12 (NoteHeader_parse_at endian ELF32 data).
Proof. intros Hd. unfold NoteHeader_parse_at. solve_exact. Qed.

Lemma abi_tag_exact (endian : E) class data : slice_ok data →
  exact (len data) 16 (NoteGnuAbiTag_parse_at endian class data).
Proof. intros Hd. unfold NoteGnuAbiTag_parse_at. solve_exact. Qed.

Lemma note_header_range (endian : E) data off h off' : bytes_ok data → 0 ≤ off →
  NoteHeader_parse_at endian ELF32 data off = Ret (Ok h, off') →
  0 ≤ n_namesz h < 2 ^ 32 ∧ 0 ≤ n_descsz h < 2 ^ 32.
Proof.
  intros Hb Hoff Hp. unfold NoteHeader_parse_at, parse_u32_at in Hp. change (2 ^ 32) with (256 ^ 4). inv_sm.
  repeat match goal with
    | Hs : safe_from _ _ _ _ = Ret (Ok _, _) |- _ => apply safe_from_range in Hs as (? & -> & ?); [|done|lia]
    end. simpl. lia.
Qed.

(** One call either fails or moves past the header it read. *)
Lemma note_parse_progress (endian : E) class align data off : slice_ok data → bytes_ok data → 0 ≤ align → 0 ≤ off →
  ∃ r off', Note_parse_at endian class align data off = Ret (r, off') ∧ off ≤ off' ∧
    ∀ n, r = Ok n → off + 12 ≤ off' ∧ off + 12 ≤ len data.
Proof.
  intros Hs Hb Ha Ho. unfold Note_parse_at. case_Z1; [by repeat eexists|]. unfold sm_bind at 1.
  destruct (note_header_exact endian data Hs off Ho) as [Hok Herr].
  destruct (Z.lt_ge_cases (len data) (off + 12)) as [Hlt|Hge].
  { destruct Herr as (e & off' & -> & ?); [lia|]. repeat eexists; done || lia. }
  destruct Hok as [h Hh]; [lia|]. rewrite Hh. apply note_header_range in Hh as [? ?]; [|done|lia].
  match goal with |- ∃ r off', ?m _ = _ ∧ _ => assert (forward (off + 12) m) as (r & off' & -> & ?) end.
  2:{ repeat eexists; lia. }
  apply forward_bind; [apply forward_get|]. intros ns o1 _ ?.
  apply forward_bind; [apply forward_lift|]. intros ne o2 _ ?.
  apply forward_bind; [apply forward_lift|]. intros nb o3 _ ?.
  apply forward_bind; [apply forward_lift|]. intros nm o4 _ ?.
  apply forward_bind; [apply forward_advance; lia|]. intros ? o5 _ ?.
  apply forward_bind; [apply forward_skip; lia|]. intros ? o6 _ ?.
  apply forward_bind; [apply forward_get|]. intros ds o7 Hds ?. unfold sm_get in Hds. simplify_eq.
  unfold sm_bind, sm_lift, sm_put.
  destruct (checked_add o7 (n_descsz h)) as [de|] eqn:Hde; simpl; [|by apply forward_lift].
  destruct (get_bytes data o7 de) as [rd|e] eqn:Hrd; [|by apply forward_lift].
  assert (de = o7 + n_descsz h) as -> by (unfold checked_add in Hde; case_match; by simplify_eq).
  destruct (forward_skip (o7 + n_descsz h) align) as (r & off' & Hsk & ?); [lia..|]. unfold forward. rewrite Hsk.
  destruct r as [?|?]; [|repeat eexists; lia].
  assert (slice_ok rd) as Hrs by (by eapply get_bytes_ok; [..|exact Hrd]; [lia|..]).
  repeat case_match; simplify_eq; try (repeat eexists; lia).
  destruct (abi_tag_exact endian class rd Hrs 0) as [Hok' Herr']; [lia|].
  destruct (Z.lt_ge_cases (len rd) 16); [destruct Herr' as (? & ? & ? & _); [lia|]|destruct Hok'; [lia|]]; congruence.
Qed.

Lemma note_collect_returns fuel (it : NoteIterator E) : slice_ok (ni_data it) → bytes_ok (ni_data it) →
  0 ≤ ni_align it → 0 ≤ ni_offset it → len (ni_data it) - ni_offset it < 12 * Z.of_nat fuel → 
  returns (note_collect (S fuel) it).
Proof.
  revert it. induction fuel as [|fuel IH]; intros it Hs Hb Ha Ho Hf; cbn [note_collect]; unfold note_next.
  all: destruct (ni_data it) as [|b d] eqn:Hd; [by eexists|]; rewrite <-Hd in *.
  all: destruct (note_parse_progress (ni_endian it) (ni_class it) (ni_align it) (ni_data it) (ni_offset it) Hs Hb Ha Ho)
    as (r & off' & -> & Hle & Hr); simpl; (destruct r as [n|e]; [|by eexists]); destruct (Hr n eq_refl); try lia.
  destruct (IH (Build_NoteIterator (ni_endian it) (ni_class it) (ni_align it) (ni_data it) off')) as [l Hl];
    simpl; [done..|lia|lia|]. cbn [note_collect] in Hl. unfold note_next in Hl. simpl in Hl.
  rewrite Hl. by eexists.
Qed.

Lemma note_items_return (it : NoteIterator E) : slice_ok (ni_data it) → bytes_ok (ni_data it) →
  0 ≤ ni_align it → 0 ≤ ni_offset it → returns (note_items it).
Proof.
  intros. unfold note_items. destruct (ni_data it) as [|b d] eqn:Hd; [|rewrite <-Hd in *].
  - cbn [note_collect]. unfold note_next. rewrite Hd. by eexists.
  - apply note_collect_returns; try done. unfold len. rewrite Hd. cbn [length]. lia.
Qed.

(** ** Reading back *)

Lemma at_off_app data off a b : at_off data off (a ++ b) →
  at_off data (off + len a) b ∧ get_bytes data off (off + len a) = Ok a ∧ off + len a ≤ len data.
Proof.
  intros [Hoff Hd]. pose proof (len_nonneg a). pose proof (len_nonneg b).
  assert (Hlen : len data = off + len a + len b).
  { apply (f_equal len) in Hd. rewrite len_app in Hd. unfold len in *. rewrite length_drop in Hd. lia. }
  split_and!; [split; [lia|]| |lia].
  - rewrite Z2Nat.inj_add, <-drop_drop, Hd by lia. unfold len. rewrite Nat2Z.id. apply drop_app_length.
  - unfold get_bytes, slice. destruct (Z.leb_spec off (off + len a)); [|lia].
    destruct (Z.leb_spec (off + len a) (len data)); [|lia]. simpl. f_equal.
    replace (off + len a - off) with (len a) by lia. rewrite Hd. unfold len. rewrite Nat2Z.id. apply take_app_length.
Qed.

Lemma len_padding align off : 0 < align → len (padding align off) = (- off) mod align.
Proof.
  intros. unfold padding, len. rewrite length_replicate, Z2Nat.id; [done|]. apply Z.mod_pos_bound. lia.
Qed.

Lemma padding_shift align k off : 0 < align → k mod align = 0 → (- (k + off)) mod align = (- off) mod align.
Proof.
  intros Ha Hk. replace (- (k + off)) with (- k + - off) by lia.
  rewrite Zplus_mod, (Z_mod_zero_opp_full k align Hk), Z.add_0_l. apply Z.mod_mod. lia.
Qed.

Lemma skip_padding_spec align off : 0 < align → 0 ≤ off → off + (- off) mod align < 2 ^ 64 →
  skip_padding align off = Ret (Ok tt, off + (- off) mod align).
Proof.
  intros Ha Ho Hb. unfold skip_padding, urem. destruct (Z.eqb_spec align 0); [lia|].
  pose proof (Z.mod_pos_bound off align Ha). destruct (Z.ltb_spec 0 (off mod align)) as [Hr|Hr].
  - rewrite (Z_mod_nz_opp_full off align) in * by lia. unfold advance. by rewrite checked_add_small by lia.
  - rewrite (Z_mod_zero_opp_full off align) by lia. by rewrite Z.add_0_r.
Qed.

Lemma aligned_next align off : 0 < align → (off + (- off) mod align) mod align = 0.
Proof.
  intros Ha. rewrite Zplus_mod_idemp_r. replace (off + - off) with 0 by lia. apply Z.mod_0_l. lia.
Qed.

Lemma read_note_header (endian : E) data off h rest : slice_ok data → fits note_header_fields h →
  at_off data off (encode endian note_header_fields h ++ rest) →
  NoteHeader_parse_at endian ELF32 data off = Ret (Ok h, off + 12) ∧ at_off data (off + 12) rest.
Proof.
  intros Hd Hf Hat. pose proof (at_off_app _ _ _ _ Hat) as (Hrest & _ & _).
  change (encode endian note_header_fields h) with (enc endian 4 (n_namesz h) ++ enc endian 4 (n_descsz h) ++
    enc endian 4 (nhdr_type h) ++ []) in Hat, Hrest.
  rewrite !len_app, !len_enc in Hrest by lia. split; [|exact Hrest].
  rewrite app_nil_r, <-!app_assoc in Hat. unfold note_header_fields in Hf. split_fits.
  unfold NoteHeader_parse_at, parse_u32_at. read_fields. destruct h; simpl in *; (apply ret_at; [done|lia]).
Qed.

Lemma read_abi_tag (endian : E) class tag : fits abi_tag_fields tag →
  ∃ off, NoteGnuAbiTag_parse_at endian class (encode endian abi_tag_fields tag) 0 = Ret (Ok tag, off).
Proof.
  intros Hf. set (d := encode endian abi_tag_fields tag).
  assert (Hat : at_off d 0 (enc endian 4 (os tag) ++ enc endian 4 (major tag) ++ enc endian 4 (minor tag) ++
    enc endian 4 (subminor tag) ++ [])) by (split; [pose proof (len_nonneg d); lia|done]).
  assert (Hd : slice_ok d).
  { unfold slice_ok, d, encode, encode_then, abi_tag_fields. simpl. rewrite !len_app, !len_enc by lia. done. }
  clearbody d. exists 16. unfold abi_tag_fields in Hf. split_fits. unfold NoteGnuAbiTag_parse_at, parse_u32_at.
  read_fields. destruct tag; simpl in *; (apply ret_at; [done|lia]).
Qed.

Lemma len_encode_note (endian : E) align n : 0 < align →
  len (encode_note endian align n) =
    let start := 12 + (len (note_name n) + 1) + (- (12 + (len (note_name n) + 1))) mod align in
    start + len (note_desc endian n) + (- (start + len (note_desc endian n))) mod align.
Proof.
  intros Ha. unfold encode_note. rewrite !len_app, !len_padding by done.
  change (len (encode endian note_header_fields _)) with (len (enc endian 4 (len (note_name n) + 1) ++
    enc endian 4 (len (note_desc endian n)) ++ enc endian 4 (note_type n) ++ [])).
  rewrite !len_app, !len_enc by lia. change (len []) with 0. change (len [0]) with 1. cbv zeta. lia.
Qed.

(** The pieces of a note in the slice, with the offsets at which they lie. *)
Lemma note_pieces (endian : E) align data off n rest : slice_ok data → 0 < align → off mod align = 0 →
  note_wf endian n → at_off data off (encode_note endian align n ++ rest) →
  let o1 := off + 12 in
  let o2 := o1 + (len (note_name n) + 1) in
  let o3 := o2 + (- o2) mod align in
  let o4 := o3 + len (note_desc endian n) in
  NoteHeader_parse_at endian ELF32 data off =
    Ret (Ok (Build_NoteHeader (len (note_name n) + 1) (len (note_desc endian n)) (note_type n)), o1) ∧
  get_bytes data o1 (o1 + len (note_name n)) = Ok (note_name n) ∧
  get_bytes data o3 o4 = Ok (note_desc endian n) ∧
  off + len (encode_note endian align n) = o4 + (- o4) mod align ∧
  o4 + (- o4) mod align ≤ len data ∧ at_off data (o4 + (- o4) mod align) rest.
Proof.
  intros Hd Ha Hoff (Hu & Hnl & Hdl & Ht & _) Hat. pose proof (len_encode_note endian align n Ha) as Hlen.
  unfold encode_note in Hat. cbv zeta in Hlen, Hat |- *. rewrite <-!app_assoc in Hat.
  apply read_note_header in Hat as [Hhdr H1]; [|done|].
  2:{ pose proof (len_nonneg (note_name n)). pose proof (len_nonneg (note_desc endian n)).
      repeat constructor; simpl; change (256 ^ 4) with (2 ^ 32); lia. }
  apply at_off_app in H1 as (H2 & Hname & _). apply at_off_app in H2 as (H3 & _ & _).
  change (len [0]) with 1 in H3. apply at_off_app in H3 as (H4 & _ & _). rewrite len_padding in H4 by done.
  replace (off + 12 + len (note_name n) + 1) with (off + 12 + (len (note_name n) + 1)) in H4 by lia.
  set (nsz := len (note_name n) + 1) in *. set (dsz := len (note_desc endian n)) in *.
  replace (off + 12 + nsz) with (off + (12 + nsz)) in * by lia.
  rewrite (padding_shift align off (12 + nsz)) by done.
  apply at_off_app in H4 as (H5 & Hdesc & _). apply at_off_app in H5 as (H6 & _ & Hle).
  rewrite len_padding in H6, Hle by done. fold dsz in H6, Hle, Hdesc.
  replace (off + (12 + nsz) + (- (12 + nsz)) mod align + dsz) with
    (off + (12 + nsz + (- (12 + nsz)) mod align + dsz)) in * by lia.
  rewrite (padding_shift align off) by done. split_and!; try done. lia.
Qed.

Lemma read_note (endian : E) class align data off n rest : slice_ok data → 0 < align → off mod align = 0 →
  note_wf endian n → at_off data off (encode_note endian align n ++ rest) →
  Note_parse_at endian class align data off = Ret (Ok n, off + len (encode_note endian align n)) ∧
  at_off data (off + len (encode_note endian align n)) rest ∧ (off + len (encode_note endian align n)) mod align = 0.
Proof.
  intros Hd Ha Hoff Hwf Hat.
  pose proof (note_pieces endian align data off n rest Hd Ha Hoff Hwf Hat) as Hp. cbv zeta in Hp.
  destruct Hat as [Hoff0 _]. set (o1 := off + 12) in *. set (o2 := o1 + (len (note_name n) + 1)) in *.
  set (o3 := o2 + (- o2) mod align) in *. set (o4 := o3 + len (note_desc endian n)) in *.
  destruct Hp as (Hhdr & Hname & Hdesc & -> & Hle & Hrest).
  split; [|split; [done|apply aligned_next; done]].
  pose proof (len_nonneg (note_name n)). pose proof (len_nonneg (note_desc endian n)).
  pose proof (Z.mod_pos_bound (- o2) align Ha). pose proof (Z.mod_pos_bound (- o4) align Ha).
  unfold slice_ok in Hd. destruct Hwf as (Hu & _ & _ & _ & Hk).
  unfold Note_parse_at, sm_bind, sm_get, sm_lift, sm_put. destruct (Z.eqb_spec align 0); [lia|]. rewrite Hhdr.
  cbn [n_namesz n_descsz nhdr_type]. unfold saturating_sub.
  destruct (Z.leb_spec 1 (len (note_name n) + 1)); [|lia].
  rewrite Z.add_simpl_r, checked_add_small by lia. cbn [ok_or]. rewrite Hname.
  unfold from_utf8. rewrite Hu. unfold advance at 1. rewrite checked_add_small by lia. fold o2.
  rewrite skip_padding_spec by lia. fold o3. rewrite checked_add_small by lia. fold o4. cbn [ok_or]. rewrite Hdesc.
  rewrite skip_padding_spec by lia. destruct n as [tag|id|a]; cbn [note_name note_type note_desc] in *.
  - rewrite bool_decide_eq_true_2, Z.eqb_refl by done. destruct (read_abi_tag endian class tag Hk) as [? ->]. done.
  - done.
  - case_bool_decide as Hg; [destruct (Hk Hg); repeat (case_Z1; [done|])|]; by destruct a.
Qed.

Lemma encode_note_long (endian : E) align n : 0 < align → 12 < len (encode_note endian align n).
Proof.
  intros Ha. rewrite len_encode_note by done. cbv zeta. pose proof (len_nonneg (note_name n)).
  pose proof (len_nonneg (note_desc endian n)).
  match goal with |- _ < _ + ?a mod _ => pose proof (Z.mod_pos_bound a align Ha) end.
  pose proof (Z.mod_pos_bound (- (12 + (len (note_name n) + 1))) align Ha). lia.
Qed.

Lemma encoded_note_nonempty (endian : E) align off n rest : 0 < align →
  at_off [] off (encode_note endian align n ++ rest) → False.
Proof.
  intros Ha [? Hd]. apply (f_equal len) in Hd. rewrite drop_nil, len_app in Hd. change (len []) with 0 in Hd.
  pose proof (encode_note_long endian align n Ha). pose proof (len_nonneg rest). lia.
Qed.

Lemma encode_notes_long (endian : E) align notes : 0 < align →
  (length notes ≤ length (concat (encode_note endian align <$> notes)))%nat.
Proof.
  intros Ha. induction notes as [|n notes IH]; [done|]. rewrite fmap_cons. cbn [concat length]. rewrite length_app.
  pose proof (encode_note_long endian align n Ha). unfold len in *. lia.
Qed.

Lemma note_collect_encoded (endian : E) class align notes : 0 < align → Forall (note_wf endian) notes →
  ∀ data off fuel, slice_ok data → off mod align = 0 → (length notes < fuel)%nat →
  at_off data off (concat (encode_note endian align <$> notes)) →
  note_collect fuel (Build_NoteIterator endian class align data off) = Ret notes.
Proof.
  intros Ha. induction 1 as [|n notes Hn Hns IH]; intros data off fuel Hd Hoff Hf Hat; (destruct fuel as [|fuel]; [lia|]).
  - cbn [note_collect]. unfold note_next. cbn [ni_data ni_endian ni_class ni_align ni_offset].
    destruct data as [|b d] eqn:Heq; [done|]. rewrite <-Heq in *.
    destruct Hat as [? Hnil]. apply (f_equal length) in Hnil. rewrite length_drop in Hnil. simpl in Hnil.
    unfold Note_parse_at. destruct (Z.eqb_spec align 0); [done|]. unfold sm_bind at 1.
    destruct (note_header_exact endian data Hd off) as [_ (e & off' & -> & _)]; [lia|unfold len in *; lia|done].
  - destruct (read_note endian class align data off n _ Hd Ha Hoff Hn Hat) as (Hp & Hrest & Hal).
    cbn [note_collect]. unfold note_next at 1. cbn [ni_data ni_endian ni_class ni_align ni_offset].
    destruct data as [|b d] eqn:Heq; [by apply encoded_note_nonempty in Hat|]. rewrite <-Heq in *. rewrite Hp. simpl.
    simpl in Hf. erewrite IH; [done|done..|lia|exact Hrest].
Qed.

End note_lemmas.

(** * Properties *)

(** Iterating over notes is safe on untrusted bytes: for every slice, class, byte order and
    alignment, zero included, a loop over a [NoteIterator] ends, without a panic, a division
    by zero or an overflow, and every note takes at least twelve bytes of the slice. *)
Theorem note_iteration_returns {E} `{EndianParse E} (endian : E) class align data :
  slice_ok data → bytes_ok data → 0 ≤ align →
  returns (note_items (NoteIterator_new endian class align data)) ∧
  ∀ off n off', 0 ≤ off → Note_parse_at endian class align data off = Ret (Ok n, off') →
    off + 12 ≤ off' ∧ off + 12 ≤ len data.
Proof.
  intros Hs Hb Ha. split; [by apply note_items_return|]. intros off n off' Ho Hp.
  destruct (note_parse_progress endian class align data off Hs Hb Ha Ho) as (r & o & Hp' & _ & Hr).
  rewrite Hp in Hp'. simplify_eq. by apply (Hr n).
Qed.
Definition demo_notes : list Note :=
  [GnuAbiTag (Build_NoteGnuAbiTag 0 2 6 32); GnuBuildId [0x14; 0x0b; 0x57]; Unknown (Build_NoteAny 5 [0x4c] [1; 2; 3; 4; 5])].
Lemma note_iteration_returns_witness :
  returns (note_items (NoteIterator_new Little ELF64 4 [4; 0; 0; 0])) ∧
  ∀ off n off', 0 ≤ off → Note_parse_at Little ELF64 4 [4; 0; 0; 0] off = Ret (Ok n, off') →
    off + 12 ≤ off' ∧ off + 12 ≤ len [4; 0; 0; 0].
Proof.
  apply (note_iteration_returns Little ELF64 4 [4; 0; 0; 0]); [vm_compute; reflexivity| |discriminate].
  repeat (constructor; [split; [discriminate|reflexivity]|]). constructor.
Defined.

(** Notes are read back: for both byte orders and every positive alignment, iterating over
    well-formed notes laid out one after the other, each with its name and descriptor
    padded to the alignment, yields exactly those notes, with the GNU ABI tags and build
    ids recognised. *)
Theorem notes_roundtrip {E} `{EndianParse E} (endian : E) class align notes :
  0 < align → Forall (note_wf endian) notes → slice_ok (concat (encode_note endian align <$> notes)) →
  note_items (NoteIterator_new endian class align (concat (encode_note endian align <$> notes))) = Ret notes.
Proof.
  intros Ha Hwf Hd. unfold note_items, NoteIterator_new. cbn [ni_data].
  pose proof (encode_notes_long endian align notes Ha).
  apply note_collect_encoded; [done..|apply Z.mod_0_l; lia|lia|].
  split; [pose proof (len_nonneg (concat (encode_note endian align <$> notes))); lia|done].
Qed.
Lemma notes_roundtrip_witness :
  note_items (NoteIterator_new Big ELF64 8 (concat (encode_note Big 8 <$> demo_notes))) = Ret demo_notes.
Proof.
  apply (notes_roundtrip Big ELF64 8 demo_notes); [reflexivity| |vm_compute; reflexivity].
  repeat constructor; try (vm_compute; discriminate); vm_compute; reflexivity.
Defined.
