(* ===== verification/ElfSymver.v ===== *)
(** GNU symbol versioning: [modules/elf/src/gnu_symver.rs].

    The sections [.gnu.version_d] and [.gnu.version_r] are linked lists of entries,
    each with a linked list of auxiliary entries; links are distances in bytes.  The
    four iterators of the source have the same fields and the same way of following a
    link, which is [ver_next] here; [SymbolVersionTable] looks versions up in them.
    The theorems: the loops end on any bytes, and a lookup returns the first entry that
    matches. *)

From S2P Require Import Prelude ElfParse.
From stdpp Require Import prelude list.
From Stdlib Require Import ZArith Lia.
Local Open Scope Z_scope.
Local Open Scope kernel_scope.

Definition VER_NDX_LOCAL : Z := 0.
Definition VER_NDX_GLOBAL : Z := 1.
Definition VER_NDX_VERSION : Z := 0x7fff.
Definition VER_NDX_HIDDEN : Z := 0x8000.
Definition VER_DEF_CURRENT : Z := 1.
Definition VER_NEED_CURRENT : Z := 1.

(** ** Entries *)

Record VersionIndex : Type := VersionIndex_ { version_index : Z }.
Definition ndx_index (v : VersionIndex) : Z := Z.land (version_index v) VER_NDX_VERSION.
Definition is_local (v : VersionIndex) : bool := ndx_index v =? VER_NDX_LOCAL.
Definition is_global (v : VersionIndex) : bool := ndx_index v =? VER_NDX_GLOBAL.
Definition is_hidden (v : VersionIndex) : bool := negb (Z.land (version_index v) VER_NDX_HIDDEN =? 0).

Record VerDef : Type := { vd_flags : Z; vd_ndx : Z; vd_cnt : Z; vd_hash : Z; vd_aux : Z; vd_next : Z }.
Record VerDefAux : Type := { vda_name : Z; vda_next : Z }.
Record VerNeed : Type := { vn_cnt : Z; vn_file : Z; vn_aux : Z; vn_next : Z }.
Record VerNeedAux : Type := { vna_hash : Z; vna_flags : Z; vna_other : Z; vna_name : Z; vna_next : Z }.

Section entries.
Context {E : Type} `{EndianParse E}.

Definition VersionIndex_parse_at (endian : E) (class : ElfClass) (data : bytes) : SM Z ParseError VersionIndex :=
  let! x := parse_u16_at endian data in sm_ret (VersionIndex_ x).

Definition VerDef_parse_at (endian : E) (class : ElfClass) (data : bytes) : SM Z ParseError VerDef :=
  let! vd_version := parse_u16_at endian data in
  if negb (vd_version =? VER_DEF_CURRENT) then sm_err (UnsupportedVersion vd_version VER_DEF_CURRENT)
  else
    let! vd_flags := parse_u16_at endian data in
    let! vd_ndx := parse_u16_at endian data in
    let! vd_cnt := parse_u16_at endian data in
    let! vd_hash := parse_u32_at endian data in
    let! vd_aux := parse_u32_at endian data in
    let! vd_next := parse_u32_at endian data in
    sm_ret (Build_VerDef vd_flags vd_ndx vd_cnt vd_hash vd_aux vd_next).

Definition VerDefAux_parse_at (endian : E) (class : ElfClass) (data : bytes) : SM Z ParseError VerDefAux :=
  let! vda_name := parse_u32_at endian data in
  let! vda_next := parse_u32_at endian data in
  sm_ret (Build_VerDefAux vda_name vda_next).

Definition VerNeed_parse_at (endian : E) (class : ElfClass) (data : bytes) : SM Z ParseError VerNeed :=
  let! vd_version := parse_u16_at endian data in
  if negb (vd_version =? VER_NEED_CURRENT) then sm_err (UnsupportedVersion vd_version VER_DEF_CURRENT)
  else
    let! vn_cnt := parse_u16_at endian data in
    let! vn_file := parse_u32_at endian data in
    let! vn_aux := parse_u32_at endian data in
    let! vn_next := parse_u32_at endian data in
    sm_ret (Build_VerNeed vn_cnt vn_file vn_aux vn_next).

Definition VerNeedAux_parse_at (endian : E) (class : ElfClass) (data : bytes) : SM Z ParseError VerNeedAux :=
  let! vna_hash := parse_u32_at endian data in
  let! vna_flags := parse_u16_at endian data in
  let! vna_other := parse_u16_at endian data in
  let! vna_name := parse_u32_at endian data in
  let! vna_next := parse_u32_at endian data in
  sm_ret (Build_VerNeedAux vna_hash vna_flags vna_other vna_name vna_next).

End entries.

#[export] Instance VersionIndex_ParseAt : ParseAt VersionIndex :=
  {| parse_at E _ := VersionIndex_parse_at; size_for _ := 2 |}.
#[export] Instance VerDef_ParseAt : ParseAt VerDef := {| parse_at E _ := VerDef_parse_at; size_for _ := 20 |}.
#[export] Instance VerDefAux_ParseAt : ParseAt VerDefAux := {| parse_at E _ := VerDefAux_parse_at; size_for _ := 8 |}.
#[export] Instance VerNeed_ParseAt : ParseAt VerNeed := {| parse_at E _ := VerNeed_parse_at; size_for _ := 16 |}.
#[export] Instance VerNeedAux_ParseAt : ParseAt VerNeedAux :=
  {| parse_at E _ := VerNeedAux_parse_at; size_for _ := 16 |}.

(** ** Iterators *)

(** [VerDefIterator], [VerDefAuxIterator], [VerNeedIterator], [VerNeedAuxIterator]. *)
Record VerIter (E : Type) : Type := {
  it_endian : E;
  it_class : ElfClass;
  it_count : Z;
  it_data : bytes;
  it_offset : Z;
}.
Arguments Build_VerIter {E} _ _ _ _ _.
Arguments it_endian {E} _.
Arguments it_class {E} _.
Arguments it_count {E} _.
Arguments it_data {E} _.
Arguments it_offset {E} _.
Definition VerIter_new {E} (endian : E) (class : ElfClass) (count starting_offset : Z) (data : bytes) : VerIter E :=
  Build_VerIter endian class count data starting_offset.

(** Follow the link [next] from [offset]; [count] is [w] bits wide. *)
Definition follow_link (w offset next count : Z) : Z * Z :=
  let '(offset, count) :=
    match checked_add offset next with Some new_off => (new_off, count) | None => (offset, 0) end in
  let count := (count - 1) mod 2 ^ w in
  let count := if (0 <? count) && (next =? 0) then 0 else count in
  (offset, count).

Section iterators.
Context {E : Type} `{EndianParse E}.

(** The body the four [next] methods share: the entry and the offset it was read at. *)
Definition ver_next {A} (w : Z) (parse : E → ElfClass → bytes → SM Z ParseError A) (next_of : A → Z)
    (it : VerIter E) : outcome (option (A * Z) * VerIter E) :=
  if bool_decide (it_data it = []) || (it_count it =? 0) then Ret (None, it)
  else
    r ← parse (it_endian it) (it_class it) (it_data it) (it_offset it);
    match fst r with
    | Err _ => Ret (None, it)
    | Ok a =>
        let '(offset, count) := follow_link w (it_offset it) (next_of a) (it_count it) in
        Ret (Some (a, it_offset it), Build_VerIter (it_endian it) (it_class it) count (it_data it) offset)
    end.

Definition VerDefAuxIterator_next (it : VerIter E) : outcome (option VerDefAux * VerIter E) :=
  r ← ver_next 16 VerDefAux_parse_at vda_next it; Ret (option_map fst (fst r), snd r).
Definition VerNeedAuxIterator_next (it : VerIter E) : outcome (option VerNeedAux * VerIter E) :=
  r ← ver_next 16 VerNeedAux_parse_at vna_next it; Ret (option_map fst (fst r), snd r).

Definition vda_iter (it : VerIter E) (e : VerDef * Z) : VerDef * VerIter E :=
  (fst e, VerIter_new (it_endian it) (it_class it) (vd_cnt (fst e)) (uadd (snd e) (vd_aux (fst e))) (it_data it)).
Definition VerDefIterator_next (it : VerIter E) : outcome (option (VerDef * VerIter E) * VerIter E) :=
  r ← ver_next 64 VerDef_parse_at vd_next it; Ret (option_map (vda_iter it) (fst r), snd r).

Definition vna_iter (it : VerIter E) (e : VerNeed * Z) : VerNeed * VerIter E :=
  (fst e, VerIter_new (it_endian it) (it_class it) (vn_cnt (fst e)) (uadd (snd e) (vn_aux (fst e))) (it_data it)).
Definition VerNeedIterator_next (it : VerIter E) : outcome (option (VerNeed * VerIter E) * VerIter E) :=
  r ← ver_next 64 VerNeed_parse_at vn_next it; Ret (option_map (vna_iter it) (fst r), snd r).

(** What a [for] loop over an iterator sees; running out of fuel counts as a panic.  A
    link that is followed again leads to a higher offset, and an entry that is read
    lies inside the slice. *)
Fixpoint ver_collect {B} (next : VerIter E → outcome (option B * VerIter E)) (fuel : nat) (it : VerIter E) :
    outcome (list B) :=
  match fuel with
  | O => Panic
  | S fuel =>
      r ← next it;
      match fst r with
      | None => Ret []
      | Some b => rest ← ver_collect next fuel (snd r); Ret (b :: rest)
      end
  end.
Definition ver_items {B} (next : VerIter E → outcome (option B * VerIter E)) (it : VerIter E) : outcome (list B) :=
  ver_collect next (S (length (it_data it))) it.

End iterators.

(** ** Looking up versions *)

Record SymbolRequirement : Type := {
  req_file : bytes; req_name : bytes; req_hash : Z; req_flags : Z; req_hidden : bool }.
(** [names] is the [SymbolNamesIterator]: the auxiliary entries and the string table. *)
Record SymbolDefinition (E : Type) : Type := {
  def_hash : Z; def_flags : Z; def_names : VerIter E * bytes; def_hidden : bool }.
Arguments Build_SymbolDefinition {E} _ _ _ _.
Arguments def_hash {E} _.
Arguments def_flags {E} _.
Arguments def_names {E} _.
Arguments def_hidden {E} _.

Record SymbolVersionTable (E : Type) : Type := {
  version_ids : ParsingTable E VersionIndex;
  verneeds : option (VerIter E * bytes);
  verdefs : option (VerIter E * bytes);
}.
Arguments Build_SymbolVersionTable {E} _ _ _.
Arguments version_ids {E} _.
Arguments verneeds {E} _.
Arguments verdefs {E} _.

Section lookup.
Context {E : Type} `{EndianParse E}.

(** [SymbolNamesIterator::next]. *)
Definition names_next (it : VerIter E * bytes) : outcome (option (result bytes ParseError) * (VerIter E * bytes)) :=
  r ← VerDefAuxIterator_next (fst it);
  Ret (option_map (λ vda, strtab_get (snd it) (vda_name vda)) (fst r), (snd r, snd it)).

(** The inner loop of [get_requirement]. *)
Fixpoint requirement_in (vn : VerNeed) (strs : bytes) (ver_ndx : VersionIndex) (vnas : list VerNeedAux) :
    result (option SymbolRequirement) ParseError :=
  match vnas with
  | [] => Ok None
  | vna :: vnas =>
      if negb (vna_other vna =? ndx_index ver_ndx) then requirement_in vn strs ver_ndx vnas
      else
        let? file := strtab_get strs (vn_file vn) in
        let? name := strtab_get strs (vna_name vna) in
        Ok (Some (Build_SymbolRequirement file name (vna_hash vna) (vna_flags vna) (is_hidden ver_ndx)))
  end.
(** The outer loop; the [return] of the inner one leaves both. *)
Fixpoint requirement_loop (strs : bytes) (ver_ndx : VersionIndex) (l : list (VerNeed * VerIter E)) :
    PR (option SymbolRequirement) :=
  match l with
  | [] => Ret (Ok None)
  | (vn, vna_iter) :: l =>
      let* vnas := pr_lift (ver_items VerNeedAuxIterator_next vna_iter) in
      match requirement_in vn strs ver_ndx vnas with
      | Ok None => requirement_loop strs ver_ndx l
      | r => Ret r
      end
  end.
Definition get_requirement (t : SymbolVersionTable E) (sym_idx : Z) : PR (option SymbolRequirement) :=
  match verneeds t with
  | None => Ret (Ok None)
  | Some (iter, strs) =>
      let* ver_ndx := table_get (version_ids t) sym_idx in
      let* l := pr_lift (ver_items VerNeedIterator_next iter) in
      requirement_loop strs ver_ndx l
  end.

Fixpoint definition_loop (strs : bytes) (ver_ndx : VersionIndex) (l : list (VerDef * VerIter E)) :
    option (SymbolDefinition E) :=
  match l with
  | [] => None
  | (vd, vda_iter) :: l =>
      if negb (vd_ndx vd =? ndx_index ver_ndx) then definition_loop strs ver_ndx l
      else Some (Build_SymbolDefinition (vd_hash vd) (vd_flags vd) (vda_iter, strs) (is_hidden ver_ndx))
  end.
Definition get_definition (t : SymbolVersionTable E) (sym_idx : Z) : PR (option (SymbolDefinition E)) :=
  match verdefs t with
  | None => Ret (Ok None)
  | Some (iter, strs) =>
      let* ver_ndx := table_get (version_ids t) sym_idx in
      let* l := pr_lift (ver_items VerDefIterator_next iter) in
      Ret (Ok (definition_loop strs ver_ndx l))
  end.

End lookup.

(** ** Specification *)

Definition iter_ok {E} (it : VerIter E) : Prop := slice_ok (it_data it) ∧ bytes_ok (it_data it) ∧ 0 ≤ it_offset it.

(** The requirements of a section in order: each auxiliary entry with its entry. *)
Definition verneed_entries {E} `{EndianParse E} (it : VerIter E) (l : list (VerNeed * VerNeedAux)) : Prop :=
  ∃ outer inner, ver_items VerNeedIterator_next it = Ret outer ∧
    Forall2 (λ o vnas, ver_items VerNeedAuxIterator_next (snd o) = Ret vnas) outer inner ∧
    l = concat (zip_with (λ o vnas, pair (fst o) <$> vnas) outer inner).

(** The requirement an entry stands for. *)
Definition requirement_of (strs : bytes) (ver_ndx : VersionIndex) (e : VerNeed * VerNeedAux) :
    result (option SymbolRequirement) ParseError :=
  let? file := strtab_get strs (vn_file (fst e)) in
  let? name := strtab_get strs (vna_name (snd e)) in
  Ok (Some (Build_SymbolRequirement file name (vna_hash (snd e)) (vna_flags (snd e)) (is_hidden ver_ndx))).

(** * Lemmas *)

#[export] Instance VersionIndex_exact : ExactParse VersionIndex.
Proof. split; [simpl; lia|]. intros E ? endian class data Hd. simpl. unfold VersionIndex_parse_at. solve_exact. Qed.

Section symver_lemmas.
Context {E : Type} `{EndianParse E}.

Lemma safe_from_step (endian : E) data w off : slice_ok data → bytes_ok data → 0 ≤ off → 0 < w ≤ 8 →
  (∃ v, safe_from w endian data off = Ret (Ok v, off + w) ∧ 0 ≤ v < 256 ^ w ∧ off + w ≤ len data) ∨
  (∃ e off', safe_from w endian data off = Ret (Err e, off')).
Proof.
  intros Hs Hb Ho Hw. destruct (exact_safe_from endian data w Hs Hw off Ho) as [Hok Herr].
  destruct (Z.lt_ge_cases (len data) (off + w)).
  - right. destruct Herr as (e & off' & -> & _); [lia|]. eauto.
  - left. destruct Hok as [v Hv]; [lia|]. exists v. split; [done|].
    destruct (safe_from_range _ _ _ _ _ _ Hb Ho Hv) as (? & _ & ?). lia.
Qed.

(** A parser of linked entries returns, and what it reads lies in the slice and has a
    link that is not negative. *)
Definition linked {A} (parse : E → ElfClass → bytes → SM Z ParseError A) (next_of : A → Z) : Prop :=
  ∀ endian class data off, slice_ok data → bytes_ok data → 0 ≤ off →
  ∃ r off', parse endian class data off = Ret (r, off') ∧
    ∀ a, r = Ok a → off < len data ∧ 0 ≤ next_of a < 2 ^ 32.

End symver_lemmas.

(** Read one more field, or fail. *)
Ltac read_field :=
  match goal with
  | |- context [sm_bind (safe_from ?w ?e ?d) ?f ?o] =>
      let v := fresh "v" in
      change (sm_bind (safe_from w e d) f o) with
        (match safe_from w e d o with Ret (Ok a, s') => f a s' | Ret (Err e, s') => Ret (Err e, s') | Panic => Panic end);
      destruct (safe_from_step e d w o) as [(v & -> & ? & ?)|(? & ? & ->)];
      [assumption|assumption|lia|lia|cbv beta|by repeat eexists]
  end.

Lemma linked_VerDefAux {E} `{EndianParse E} : linked (E := E) VerDefAux_parse_at vda_next.
Proof.
  intros endian class data off Hs Hb Ho. unfold VerDefAux_parse_at, parse_u32_at. repeat read_field.
  repeat eexists; simplify_eq/=; lia.
Qed.
Lemma linked_VerNeedAux {E} `{EndianParse E} : linked (E := E) VerNeedAux_parse_at vna_next.
Proof.
  intros endian class data off Hs Hb Ho. unfold VerNeedAux_parse_at, parse_u32_at, parse_u16_at. repeat read_field.
  repeat eexists; simplify_eq/=; lia.
Qed.
Lemma linked_VerDef {E} `{EndianParse E} : linked (E := E) VerDef_parse_at vd_next.
Proof.
  intros endian class data off Hs Hb Ho. unfold VerDef_parse_at, parse_u32_at, parse_u16_at. read_field.
  destruct (negb _); [by repeat eexists|]. repeat read_field. repeat eexists; simplify_eq/=; lia.
Qed.
Lemma linked_VerNeed {E} `{EndianParse E} : linked (E := E) VerNeed_parse_at vn_next.
Proof.
  intros endian class data off Hs Hb Ho. unfold VerNeed_parse_at, parse_u32_at, parse_u16_at. read_field.
  destruct (negb _); [by repeat eexists|]. repeat read_field. repeat eexists; simplify_eq/=; lia.
Qed.

Section collect_lemmas.
Context {E : Type} `{EndianParse E}.

(** A followed link leads on, or the iteration is over. *)
Lemma follow_link_spec w off next count off' count' : 0 ≤ w →
  0 ≤ off < 2 ^ 63 → 0 ≤ next < 2 ^ 32 → follow_link w off next count = (off', count') →
  off' = off + next ∧ (count' = 0 ∨ 0 < next).
Proof.
  intros Hw Ho Hn. unfold follow_link. rewrite checked_add_small by lia. intros [= <- <-]. split; [done|].
  destruct (Z.eqb_spec next 0) as [->|]; [|lia]. rewrite andb_true_r.
  pose proof (Z.mod_pos_bound (count - 1) (2 ^ w)).
  destruct (Z.ltb_spec 0 ((count - 1) mod 2 ^ w)); [by left|]. left. lia.
Qed.

Context {A B : Type} (w : Z) (parse : E → ElfClass → bytes → SM Z ParseError A) (next_of : A → Z)
  (g : VerIter E → A * Z → B).
Abbreviation next := (λ it, r ← ver_next w parse next_of it; Ret (option_map (g it) (fst r), snd r)).

Lemma ver_next_spec it : 0 ≤ w → linked parse next_of → iter_ok it →
  (∃ it', next it = Ret (None, it')) ∨
  (∃ a it', next it = Ret (Some (g it (a, it_offset it)), it') ∧ it_data it' = it_data it ∧ iter_ok it' ∧
     it_offset it < len (it_data it) ∧ (it_count it' = 0 ∨ it_offset it < it_offset it')).
Proof.
  intros Hw Hl (Hs & Hb & Ho). unfold ver_next. destruct (_ || _); [left; by eexists|].
  destruct (Hl (it_endian it) (it_class it) (it_data it) (it_offset it) Hs Hb Ho) as (r & off & Hp & Hr).
  rewrite Hp. simpl. destruct r as [a|e]; simpl; [|left; by eexists]. destruct (Hr a eq_refl) as [Hlt Hn]. right.
  destruct (follow_link w (it_offset it) (next_of a) (it_count it)) as [off' count'] eqn:Hf. unfold slice_ok in Hs.
  destruct (follow_link_spec w (it_offset it) (next_of a) (it_count it) off' count') as [-> Hc]; [lia..|done|]. simpl.
  eexists a, _. split; [done|]. simpl. split; [done|]. split; [|split; [done|lia]].
  unfold iter_ok, slice_ok. simpl. split_and!; lia || done.
Qed.

Lemma ver_collect_spec (Q : B → Prop) fuel it : 0 ≤ w → linked parse next_of → iter_ok it →
  (∀ it a, iter_ok it → Q (g it (a, it_offset it))) →
  0 < Z.of_nat fuel → (it_count it = 0 ∨ len (it_data it) - it_offset it < Z.of_nat fuel) →
  ∃ l, ver_collect next fuel it = Ret l ∧ Forall Q l.
Proof.
  intros Hw Hl Hok HQ. revert it Hok. induction fuel as [|fuel IH]; intros it Hok Hf0 Hf; [lia|]. cbn [ver_collect].
  destruct (ver_next_spec it Hw Hl Hok) as [[it' Hn]|(a & it' & Hn & Hd & Hok' & Hlt & Hprog)]; cbv beta in Hn;
    rewrite Hn; simpl; [by exists []|].
  destruct (decide (it_count it = 0)) as [Hz|Hz].
  { exfalso. unfold ver_next in Hn. rewrite Hz, orb_true_r in Hn. discriminate Hn. }
  destruct (IH it' Hok') as (l & Hcl & Hl'); [lia|rewrite Hd; lia|].
  cbv beta in Hcl. rewrite Hcl. simpl. eexists. split; [done|]. constructor; [by apply HQ|done].
Qed.

Lemma ver_items_spec (Q : B → Prop) it : 0 ≤ w → linked parse next_of → iter_ok it →
  (∀ it a, iter_ok it → Q (g it (a, it_offset it))) → ∃ l, ver_items next it = Ret l ∧ Forall Q l.
Proof.
  intros Hw Hl Hok HQ. apply ver_collect_spec; try done. right. destruct Hok as (_ & _ & ?). unfold len. lia.
Qed.

End collect_lemmas.

Section lookup_lemmas.
Context {E : Type} `{EndianParse E}.

Lemma vna_items_return (it : VerIter E) : iter_ok it → returns (ver_items VerNeedAuxIterator_next it).
Proof.
  intros Hok. destruct (ver_items_spec 16 VerNeedAux_parse_at vna_next (λ _, fst) (λ _, True) it) as (l & Hl & _);
    [lia|apply linked_VerNeedAux|done|done|]. by exists l.
Qed.
Lemma vda_items_return (it : VerIter E) : iter_ok it → returns (ver_items VerDefAuxIterator_next it).
Proof.
  intros Hok. destruct (ver_items_spec 16 VerDefAux_parse_at vda_next (λ _, fst) (λ _, True) it) as (l & Hl & _);
    [lia|apply linked_VerDefAux|done|done|]. by exists l.
Qed.
Lemma vn_items_return (it : VerIter E) : iter_ok it →
  ∃ l, ver_items VerNeedIterator_next it = Ret l ∧ Forall (λ e, iter_ok (snd e)) l.
Proof.
  intros Hok. apply (ver_items_spec 64 VerNeed_parse_at vn_next vna_iter); [lia|apply linked_VerNeed|done|].
  intros it' vn (? & ? & ?). unfold vna_iter, iter_ok. simpl. split_and!; [done..|]. apply wrap_range.
Qed.
Lemma vd_items_return (it : VerIter E) : iter_ok it →
  ∃ l, ver_items VerDefIterator_next it = Ret l ∧ Forall (λ e, iter_ok (snd e)) l.
Proof.
  intros Hok. apply (ver_items_spec 64 VerDef_parse_at vd_next vda_iter); [lia|apply linked_VerDef|done|].
  intros it' vn (? & ? & ?). unfold vda_iter, iter_ok. simpl. split_and!; [done..|]. apply wrap_range.
Qed.

Lemma requirement_in_find vn strs v vnas :
  requirement_in vn strs v vnas =
  match List.find (λ e, vna_other (snd e) =? ndx_index v) (pair vn <$> vnas) with
  | None => Ok None
  | Some e => requirement_of strs v e
  end.
Proof.
  induction vnas as [|vna vnas IH]; [done|]. rewrite fmap_cons. cbn [requirement_in List.find].
  destruct (vna_other _ =? _) eqn:Hv; simpl; [done|]. by rewrite IH.
Qed.

Lemma requirement_of_some strs v e r : requirement_of strs v e = Ok r → is_Some r.
Proof. unfold requirement_of. repeat case_match; intros; simplify_eq; eauto. Qed.

Lemma requirement_loop_find strs v (outer : list (VerNeed * VerIter E)) inner :
  Forall2 (λ o vnas, ver_items VerNeedAuxIterator_next (snd o) = Ret vnas) outer inner →
  requirement_loop strs v outer =
  Ret match List.find (λ e, vna_other (snd e) =? ndx_index v)
              (concat (zip_with (λ o vnas, pair (fst o) <$> vnas) outer inner)) with
      | None => Ok None
      | Some e => requirement_of strs v e
      end.
Proof.
  induction 1 as [|[vn it] vnas outer inner Hit _ IH]; [done|]. simpl in Hit. cbn [requirement_loop zip_with concat].
  rewrite Hit. simpl. rewrite requirement_in_find, find_app.
  destruct (List.find _ (pair vn <$> vnas)) as [e|]; [|done].
  destruct (requirement_of strs v e) as [r|] eqn:Hr; [|done]. by apply requirement_of_some in Hr as [? ->].
Qed.

Lemma definition_loop_find strs v (l : list (VerDef * VerIter E)) :
  definition_loop strs v l =
  (λ e, Build_SymbolDefinition (vd_hash (fst e)) (vd_flags (fst e)) (snd e, strs) (is_hidden v)) <$>
  List.find (λ e, vd_ndx (fst e) =? ndx_index v) l.
Proof.
  induction l as [|[vd it] l IH]; [done|]. cbn [definition_loop List.find fst snd]. by destruct (vd_ndx vd =? _).
Qed.

Lemma verneed_entries_exist (it : VerIter E) : iter_ok it → ∃ l, verneed_entries it l.
Proof.
  intros Hok. destruct (vn_items_return it Hok) as (outer & Ho & Hf).
  assert (∃ inner, Forall2 (λ o vnas, ver_items VerNeedAuxIterator_next (snd o) = Ret vnas) outer inner) as [inner Hi].
  { clear Ho. induction Hf as [|o outer Hoo Hf [inner Hi]]; [by exists []|].
    destruct (vna_items_return (snd o) Hoo) as [v Hv]. exists (v :: inner). by constructor. }
  eexists. exists outer, inner. by split_and!.
Qed.

End lookup_lemmas.

(** * Properties *)

(** Looking up symbol versions is safe on untrusted bytes and finds the first entry: whatever
    the sections hold, the linked lists of version requirements and definitions are walked
    to an end; [get_requirement] returns the first auxiliary entry of any requirement with
    the version index of the symbol (an error when one of its strings cannot be read),
    and nothing exactly when no entry has it; [get_definition] returns the first
    definition with the index, and its names are walked to an end. *)
Theorem symver_lookup_first {E} `{EndianParse E} (t : SymbolVersionTable E) i needs nstrs defs dstrs :
  slice_ok (table_data (version_ids t)) → in_usize i →
  verneeds t = Some (needs, nstrs) → iter_ok needs → verdefs t = Some (defs, dstrs) → iter_ok defs →
  (∃ l, verneed_entries needs l ∧
    get_requirement t i =
      let* v := table_get (version_ids t) i in
      Ret match List.find (λ e, vna_other (snd e) =? ndx_index v) l with
          | None => Ok None
          | Some e => requirement_of nstrs v e
          end) ∧
  (∃ l, ver_items VerDefIterator_next defs = Ret l ∧
    Forall (λ e, returns (ver_items VerDefAuxIterator_next (snd e))) l ∧
    get_definition t i =
      let* v := table_get (version_ids t) i in
      Ret (Ok ((λ e, Build_SymbolDefinition (vd_hash (fst e)) (vd_flags (fst e)) (snd e, dstrs) (is_hidden v)) <$>
                 List.find (λ e, vd_ndx (fst e) =? ndx_index v) l))) ∧
  returns (table_get (version_ids t) i).
Proof.
  intros Ht Hi Hn Hnok Hd Hdok. split; [|split].
  - destruct (verneed_entries_exist needs Hnok) as [l Hl]. exists l. split; [done|].
    destruct Hl as (outer & inner & Ho & Hf & ->). unfold get_requirement. rewrite Hn, Ho.
    destruct (table_get _ i) as [[v|e]|]; simpl; [|done..]. by apply requirement_loop_find.
  - destruct (vd_items_return defs Hdok) as (l & Hl & Hf). exists l. split; [done|].
    split; [eapply Forall_impl; [exact Hf|]; intros e; apply vda_items_return|]. unfold get_definition.
    rewrite Hd, Hl. destruct (table_get _ i) as [[v|e]|]; simpl; [|done..]. by rewrite definition_loop_find.
  - by apply table_get_returns.
Qed.
Definition demo_strs : bytes := [0; 0x61; 0x62; 0; 0x63; 0].
Definition demo_needs : VerIter AnyEndian :=
  let h := enc Little 2 in let w := enc Little 4 in
  VerIter_new Little ELF64 1 0 (h 1 ++ h 1 ++ w 1 ++ w 16 ++ w 0 ++ w 77 ++ h 0 ++ h 2 ++ w 4 ++ w 0).
Definition demo_defs : VerIter AnyEndian :=
  let h := enc Little 2 in let w := enc Little 4 in
  VerIter_new Little ELF64 1 0 (h 1 ++ h 0 ++ h 2 ++ h 1 ++ w 99 ++ w 20 ++ w 0 ++ w 1 ++ w 0).
Definition demo_symver : SymbolVersionTable AnyEndian :=
  Build_SymbolVersionTable (Build_ParsingTable Little ELF64 (enc Little 2 0 ++ enc Little 2 2))
    (Some (demo_needs, demo_strs)) (Some (demo_defs, demo_strs)).
Lemma symver_lookup_first_witness :
  get_requirement demo_symver 1 = Ret (Ok (Some (Build_SymbolRequirement [0x61; 0x62] [0x63] 77 0 false))) ∧
  ∃ l, verneed_entries demo_needs l ∧
    get_requirement demo_symver 1 =
      let* v := table_get (version_ids demo_symver) 1 in
      Ret match List.find (λ e, vna_other (snd e) =? ndx_index v) l with
          | None => Ok None
          | Some e => requirement_of demo_strs v e
          end.
Proof.
  split; [vm_compute; reflexivity|].
  apply (symver_lookup_first demo_symver 1 demo_needs demo_strs demo_defs demo_strs).
  - vm_compute. reflexivity.
  - split; [discriminate|reflexivity].
  - reflexivity.
  - split; [vm_compute; reflexivity|]. split; [|discriminate].
    vm_compute. repeat (constructor; [split; [discriminate|reflexivity]|]). constructor.
  - reflexivity.
  - split; [vm_compute; reflexivity|]. split; [|discriminate].
    vm_compute. repeat (constructor; [split; [discriminate|reflexivity]|]). constructor.
Defined.
