(* ===== verification/ElfBytes.v ===== *)
(** The [ElfBytes] interface: [modules/elf/src/elf_bytes.rs].

    [minimal_parse] reads the file header of a byte slice and locates the section header
    table and the program header table in it; the methods of [ElfBytes] find sections
    and segments and wrap their bytes in the tables and iterators of the other files.
    The theorems: parsing returns on any bytes, every table and every section or segment
    handed out is a part of the file, a well-formed header is read back, and
    [find_common_data] agrees with the targeted accessors where they are meant to. *)

From S2P Require Import Prelude ElfParse ElfHash ElfNote ElfSymver.
From stdpp Require Import prelude list.
From Stdlib Require Import ZArith Lia.
Local Open Scope Z_scope.
Local Open Scope kernel_scope.

Definition PN_XNUM : Z := 0xffff.
Definition SHN_XINDEX : Z := 0xffff.
Definition PT_DYNAMIC : Z := 2.
Definition PT_NOTE : Z := 4.
Definition SHT_SYMTAB : Z := 2.
Definition SHT_STRTAB : Z := 3.
Definition SHT_RELA : Z := 4.
Definition SHT_HASH : Z := 5.
Definition SHT_DYNAMIC : Z := 6.
Definition SHT_NOTE : Z := 7.
Definition SHT_NOBITS : Z := 8.
Definition SHT_REL : Z := 9.
Definition SHT_DYNSYM : Z := 11.
Definition SHT_GNU_HASH : Z := 0x6ffffff6.
Definition SHT_GNU_VERDEF : Z := 0x6ffffffd.
Definition SHT_GNU_VERNEED : Z := 0x6ffffffe.
Definition SHT_GNU_VERSYM : Z := 0x6fffffff.
Definition SHF_COMPRESSED : Z := Z.shiftl 1 11.

Record ElfBytes (E : Type) : Type := {
  ehdr : FileHeader E;
  file_data : bytes;
  shdrs : option (ParsingTable E SectionHeader);
  phdrs : option (ParsingTable E ProgramHeader);
}.
Arguments Build_ElfBytes {E} _ _ _ _.
Arguments ehdr {E} _.
Arguments file_data {E} _.
Arguments shdrs {E} _.
Arguments phdrs {E} _.

Record CommonElfData (E : Type) : Type := {
  symtab : option (ParsingTable E Symbol);
  symtab_strs : option bytes;
  dynsyms : option (ParsingTable E Symbol);
  dynsyms_strs : option bytes;
  cd_dynamic : option (ParsingTable E Dyn);
  cd_sysv_hash : option (SysVHashTable E);
  cd_gnu_hash : option (GnuHashTable E);
}.
Arguments Build_CommonElfData {E} _ _ _ _ _ _ _.
Arguments symtab {E} _.
Arguments symtab_strs {E} _.
Arguments dynsyms {E} _.
Arguments dynsyms_strs {E} _.
Arguments cd_dynamic {E} _.
Arguments cd_sysv_hash {E} _.
Arguments cd_gnu_hash {E} _.

Section elf_bytes.
Context {E : Type} `{EndianParse E}.

(** The section header at offset [shoff], as [find_shdrs] and [find_phdrs] read entry 0. *)
Definition read_shdr0 (ehdr : FileHeader E) (data : bytes) (shoff : Z) : PR SectionHeader :=
  fst <$> SectionHeader_parse_at (endianness ehdr) (class ehdr) data shoff.

(** On a 64-bit target [try_into] succeeds on every [u64] and [u32]. *)
Definition find_shdrs (ehdr : FileHeader E) (data : bytes) : PR (option (ParsingTable E SectionHeader)) :=
  if e_shoff ehdr =? 0 then Ret (Ok None)
  else
    let shoff := e_shoff ehdr in
    let* shnum :=
      if e_shnum ehdr =? 0 then
        let* shdr0 := read_shdr0 ehdr data shoff in Ret (Ok (sh_size shdr0))
      else Ret (Ok (e_shnum ehdr)) in
    let* entsize := Ret (validate_entsize SectionHeader (class ehdr) (e_shentsize ehdr)) in
    let* size := Ret (ok_or (checked_mul entsize shnum) IntegerOverflow) in
    let* end_ := Ret (ok_or (checked_add shoff size) IntegerOverflow) in
    let* buf := Ret (get_bytes data shoff end_) in
    Ret (Ok (Some (Build_ParsingTable (endianness ehdr) (class ehdr) buf))).

Definition find_phdrs (ehdr : FileHeader E) (data : bytes) : PR (option (ParsingTable E ProgramHeader)) :=
  if e_phoff ehdr =? 0 then Ret (Ok None)
  else
    let* phnum :=
      if e_phnum ehdr =? PN_XNUM then
        let* shdr0 := read_shdr0 ehdr data (e_shoff ehdr) in Ret (Ok (sh_info shdr0))
      else Ret (Ok (e_phnum ehdr)) in
    let* entsize := Ret (validate_entsize ProgramHeader (class ehdr) (e_phentsize ehdr)) in
    let phoff := e_phoff ehdr in
    let* size := Ret (ok_or (checked_mul entsize phnum) IntegerOverflow) in
    let* end_ := Ret (ok_or (checked_add phoff size) IntegerOverflow) in
    let* buf := Ret (get_bytes data phoff end_) in
    Ret (Ok (Some (Build_ParsingTable (endianness ehdr) (class ehdr) buf))).

Definition parse_elf_header (data : bytes) : PR (FileHeader E) :=
  let* ident_buf := Ret (get_bytes data 0 EI_NIDENT) in
  let* ident := parse_ident ident_buf in
  let tail_start := EI_NIDENT in
  let tail_end :=
    match snd (fst (fst ident)) with
    | ELF32 => tail_start + ELF32_EHDR_TAILSIZE
    | ELF64 => tail_start + ELF64_EHDR_TAILSIZE
    end in
  let* tail_buf := Ret (get_bytes data tail_start tail_end) in
  parse_tail ident tail_buf.

(** [minimal_parse] starts with the statements of [parse_elf_header]. *)
Definition minimal_parse (data : bytes) : PR (ElfBytes E) :=
  let* ehdr := parse_elf_header data in
  let* shdrs := find_shdrs ehdr data in
  let* phdrs := find_phdrs ehdr data in
  Ret (Ok (Build_ElfBytes ehdr data shdrs phdrs)).

Definition segments (f : ElfBytes E) : option (ParsingTable E ProgramHeader) := phdrs f.
Definition section_headers (f : ElfBytes E) : option (ParsingTable E SectionHeader) := shdrs f.

(** The bytes of a section, as [get_data_range] and [get_bytes] give them. *)
Definition section_bytes (f : ElfBytes E) (shdr : SectionHeader) : result bytes ParseError :=
  let? range := get_data_range shdr in get_bytes (file_data f) (fst range) (snd range).

Definition section_headers_with_strtab (f : ElfBytes E) :
    PR (option (ParsingTable E SectionHeader) * option bytes) :=
  match section_headers f with
  | None => Ret (Ok (None, None))
  | Some shdrs =>
      if e_shstrndx (ehdr f) =? SHN_UNDEF then Ret (Ok (Some shdrs, None))
      else
        let* shstrndx :=
          if e_shstrndx (ehdr f) =? SHN_XINDEX then
            let* shdr_0 := table_get shdrs 0 in Ret (Ok (sh_link shdr_0))
          else Ret (Ok (e_shstrndx (ehdr f))) in
        let* strtab := table_get shdrs shstrndx in
        let* strtab_buf := Ret (section_bytes f strtab) in
        Ret (Ok (Some shdrs, Some strtab_buf))
  end.

Definition section_header_by_name (f : ElfBytes E) (name : bytes) : PR (option SectionHeader) :=
  let* r := section_headers_with_strtab f in
  match r with
  | (Some shdrs, Some strtab) =>
      pr_lift (table_find (λ shdr,
        match strtab_get strtab (sh_name shdr) with
        | Ok sh_name => bool_decide (name = sh_name)
        | Err _ => false
        end) shdrs)
  | _ => Ret (Ok None)
  end.

Definition section_data (f : ElfBytes E) (shdr : SectionHeader) : PR (bytes * option CompressionHeader) :=
  if sh_type shdr =? SHT_NOBITS then Ret (Ok ([], None))
  else
    let* buf := Ret (section_bytes f shdr) in
    if Z.land (sh_flags shdr) SHF_COMPRESSED =? 0 then Ret (Ok (buf, None))
    else
      fst <$>
      (let! chdr := CompressionHeader_parse_at (endianness (ehdr f)) (class (ehdr f)) buf in
       let! offset := sm_get in
       let! compressed_buf := sm_lift (ok_or (slice_from buf offset) (SliceReadError offset (sh_size shdr))) in
       sm_ret (compressed_buf, Some chdr)) 0.

(** The type check that the [section_data_as_*] methods start with. *)
Definition expect_type (found expected : Z) : result unit ParseError :=
  if found =? expected then Ok tt else Err (UnexpectedSectionType found expected).

Definition section_data_as_strtab (f : ElfBytes E) (shdr : SectionHeader) : PR bytes :=
  let* _ := Ret (expect_type (sh_type shdr) SHT_STRTAB) in
  let* buf := section_data f shdr in
  Ret (Ok (fst buf)).
Definition section_data_as_rels (f : ElfBytes E) (shdr : SectionHeader) : PR (ParsingTable E Rel) :=
  let* _ := Ret (expect_type (sh_type shdr) SHT_REL) in
  let* buf := section_data f shdr in
  Ret (Ok (Build_ParsingTable (endianness (ehdr f)) (class (ehdr f)) (fst buf))).
Definition section_data_as_relas (f : ElfBytes E) (shdr : SectionHeader) : PR (ParsingTable E Rela) :=
  let* _ := Ret (expect_type (sh_type shdr) SHT_RELA) in
  let* buf := section_data f shdr in
  Ret (Ok (Build_ParsingTable (endianness (ehdr f)) (class (ehdr f)) (fst buf))).
Definition section_data_as_notes (f : ElfBytes E) (shdr : SectionHeader) : PR (NoteIterator E) :=
  let* _ := Ret (expect_type (sh_type shdr) SHT_NOTE) in
  let* buf := section_data f shdr in
  Ret (Ok (NoteIterator_new (endianness (ehdr f)) (class (ehdr f)) (sh_addralign shdr) (fst buf))).
Definition section_data_as_dynamic (f : ElfBytes E) (shdr : SectionHeader) : PR (ParsingTable E Dyn) :=
  let* _ := Ret (expect_type (sh_type shdr) SHT_DYNAMIC) in
  let* _ := Ret (validate_entsize Dyn (class (ehdr f)) (sh_entsize shdr)) in
  let* buf := section_data f shdr in
  Ret (Ok (Build_ParsingTable (endianness (ehdr f)) (class (ehdr f)) (fst buf))).

Definition segment_data (f : ElfBytes E) (phdr : ProgramHeader) : result bytes ParseError :=
  let? range := get_file_data_range phdr in get_bytes (file_data f) (fst range) (snd range).
Definition segment_data_as_notes (f : ElfBytes E) (phdr : ProgramHeader) : PR (NoteIterator E) :=
  let* _ := Ret (if p_type phdr =? PT_NOTE then Ok tt else Err (UnexpectedSegmentType (p_type phdr) PT_NOTE)) in
  let* buf := Ret (segment_data f phdr) in
  Ret (Ok (NoteIterator_new (endianness (ehdr f)) (class (ehdr f)) (p_align phdr) buf)).

(** The [PT_DYNAMIC] segment as a table. *)
Definition segment_dynamic (f : ElfBytes E) (phdrs : ParsingTable E ProgramHeader) : PR (option (ParsingTable E Dyn)) :=
  let* found := pr_lift (table_find (λ phdr, p_type phdr =? PT_DYNAMIC) phdrs) in
  match found with
  | None => Ret (Ok None)
  | Some phdr =>
      let* buf := Ret (segment_data f phdr) in
      Ret (Ok (Some (Build_ParsingTable (endianness (ehdr f)) (class (ehdr f)) buf)))
  end.

Definition dynamic (f : ElfBytes E) : PR (option (ParsingTable E Dyn)) :=
  match section_headers f with
  | Some shdrs =>
      let* found := pr_lift (table_find (λ shdr, sh_type shdr =? SHT_DYNAMIC) shdrs) in
      match found with
      | Some shdr => let* d := section_data_as_dynamic f shdr in Ret (Ok (Some d))
      | None => Ret (Ok None)
      end
  | None =>
      match segments f with
      | Some phdrs => segment_dynamic f phdrs
      | None => Ret (Ok None)
      end
  end.

Definition section_data_as_symbol_table (f : ElfBytes E) (shdr strtab_shdr : SectionHeader) :
    PR (ParsingTable E Symbol * bytes) :=
  let* _ := Ret (validate_entsize Symbol (class (ehdr f)) (sh_entsize shdr)) in
  let* symtab_buf := Ret (section_bytes f shdr) in
  let* strtab_buf := Ret (section_bytes f strtab_shdr) in
  Ret (Ok (Build_ParsingTable (endianness (ehdr f)) (class (ehdr f)) symtab_buf, strtab_buf)).

(** [symbol_table] and [dynamic_symbol_table] differ in the section type. *)
Definition symbol_table_of (type : Z) (f : ElfBytes E) : PR (option (ParsingTable E Symbol * bytes)) :=
  match section_headers f with
  | None => Ret (Ok None)
  | Some shdrs =>
      let* found := pr_lift (table_find (λ shdr, sh_type shdr =? type) shdrs) in
      match found with
      | None => Ret (Ok None)
      | Some symtab_shdr =>
          let* strtab_shdr := table_get shdrs (sh_link symtab_shdr) in
          let* r := section_data_as_symbol_table f symtab_shdr strtab_shdr in
          Ret (Ok (Some r))
      end
  end.
Definition symbol_table (f : ElfBytes E) : PR (option (ParsingTable E Symbol * bytes)) := symbol_table_of SHT_SYMTAB f.
Definition dynamic_symbol_table (f : ElfBytes E) : PR (option (ParsingTable E Symbol * bytes)) :=
  symbol_table_of SHT_DYNSYM f.

Definition common_default : CommonElfData E := Build_CommonElfData None None None None None None None.
Definition set_symtab (s : ParsingTable E Symbol * bytes) (c : CommonElfData E) : CommonElfData E :=
  Build_CommonElfData (Some (fst s)) (Some (snd s)) (dynsyms c) (dynsyms_strs c) (cd_dynamic c) (cd_sysv_hash c) (cd_gnu_hash c).
Definition set_dynsyms (s : ParsingTable E Symbol * bytes) (c : CommonElfData E) : CommonElfData E :=
  Build_CommonElfData (symtab c) (symtab_strs c) (Some (fst s)) (Some (snd s)) (cd_dynamic c) (cd_sysv_hash c) (cd_gnu_hash c).
Definition set_dynamic (d : option (ParsingTable E Dyn)) (c : CommonElfData E) : CommonElfData E :=
  Build_CommonElfData (symtab c) (symtab_strs c) (dynsyms c) (dynsyms_strs c) d (cd_sysv_hash c) (cd_gnu_hash c).
Definition set_sysv_hash (h : SysVHashTable E) (c : CommonElfData E) : CommonElfData E :=
  Build_CommonElfData (symtab c) (symtab_strs c) (dynsyms c) (dynsyms_strs c) (cd_dynamic c) (Some h) (cd_gnu_hash c).
Definition set_gnu_hash (h : GnuHashTable E) (c : CommonElfData E) : CommonElfData E :=
  Build_CommonElfData (symtab c) (symtab_strs c) (dynsyms c) (dynsyms_strs c) (cd_dynamic c) (cd_sysv_hash c) (Some h).

(** The body of the loop over the section headers. *)
Definition common_step (f : ElfBytes E) (shdrs : ParsingTable E SectionHeader) (result : CommonElfData E)
    (shdr : SectionHeader) : PR (CommonElfData E) :=
  if sh_type shdr =? SHT_SYMTAB then
    let* strtab_shdr := table_get shdrs (sh_link shdr) in
    let* s := section_data_as_symbol_table f shdr strtab_shdr in
    Ret (Ok (set_symtab s result))
  else if sh_type shdr =? SHT_DYNSYM then
    let* strtab_shdr := table_get shdrs (sh_link shdr) in
    let* s := section_data_as_symbol_table f shdr strtab_shdr in
    Ret (Ok (set_dynsyms s result))
  else if sh_type shdr =? SHT_DYNAMIC then
    let* d := section_data_as_dynamic f shdr in
    Ret (Ok (set_dynamic (Some d) result))
  else if sh_type shdr =? SHT_HASH then
    let* buf := Ret (section_bytes f shdr) in
    let* h := SysVHashTable_new (endianness (ehdr f)) (class (ehdr f)) buf in
    Ret (Ok (set_sysv_hash h result))
  else if sh_type shdr =? SHT_GNU_HASH then
    let* buf := Ret (section_bytes f shdr) in
    let* h := GnuHashTable_new (endianness (ehdr f)) (class (ehdr f)) buf in
    Ret (Ok (set_gnu_hash h result))
  else Ret (Ok result).
Fixpoint common_loop (f : ElfBytes E) (shdrs : ParsingTable E SectionHeader) (l : list SectionHeader)
    (result : CommonElfData E) : PR (CommonElfData E) :=
  match l with
  | [] => Ret (Ok result)
  | shdr :: l => let* result := common_step f shdrs result shdr in common_loop f shdrs l result
  end.
Definition find_common_data (f : ElfBytes E) : PR (CommonElfData E) :=
  let* result :=
    match shdrs f with
    | Some shdrs => let* l := pr_lift (table_items shdrs) in common_loop f shdrs l common_default
    | None => Ret (Ok common_default)
    end in
  match cd_dynamic result, phdrs f with
  | None, Some phdrs => let* d := segment_dynamic f phdrs in Ret (Ok (set_dynamic d result))
  | _, _ => Ret (Ok result)
  end.

(** The loop that collects the three versioning sections: it stops when it has them
    all. *)
Fixpoint version_sections (l : list SectionHeader) (versym needs defs : option SectionHeader) :
    option SectionHeader * option SectionHeader * option SectionHeader :=
  match l with
  | [] => (versym, needs, defs)
  | shdr :: l =>
      let '(versym, needs, defs) :=
        if sh_type shdr =? SHT_GNU_VERSYM then (Some shdr, needs, defs)
        else if sh_type shdr =? SHT_GNU_VERNEED then (versym, Some shdr, defs)
        else if sh_type shdr =? SHT_GNU_VERDEF then (versym, needs, Some shdr)
        else (versym, needs, defs) in
      match versym, needs, defs with
      | Some _, Some _, Some _ => (versym, needs, defs)
      | _, _, _ => version_sections l versym needs defs
      end
  end.
(** The iterator over a section of linked entries and its string table. *)
Definition version_iter (f : ElfBytes E) (shdrs : ParsingTable E SectionHeader) (o : option SectionHeader) :
    PR (option (VerIter E * bytes)) :=
  match o with
  | None => Ret (Ok None)
  | Some shdr =>
      let* buf := Ret (section_bytes f shdr) in
      let* strs_shdr := table_get shdrs (sh_link shdr) in
      let* strs_buf := Ret (section_bytes f strs_shdr) in
      Ret (Ok (Some (VerIter_new (endianness (ehdr f)) (class (ehdr f)) (sh_info shdr) 0 buf, strs_buf)))
  end.
Definition symbol_version_table (f : ElfBytes E) : PR (option (SymbolVersionTable E)) :=
  match section_headers f with
  | None => Ret (Ok None)
  | Some shdrs =>
      let* l := pr_lift (table_items shdrs) in
      let '(versym_opt, needs_opt, defs_opt) := version_sections l None None None in
      match versym_opt with
      | None => Ret (Ok None)
      | Some versym_shdr =>
          let* _ := Ret (validate_entsize VersionIndex (class (ehdr f)) (sh_entsize versym_shdr)) in
          let* versym_buf := Ret (section_bytes f versym_shdr) in
          let version_ids := Build_ParsingTable (endianness (ehdr f)) (class (ehdr f)) versym_buf in
          let* verneeds := version_iter f shdrs needs_opt in
          let* verdefs := version_iter f shdrs defs_opt in
          Ret (Ok (Some (Build_SymbolVersionTable version_ids verneeds verdefs)))
      end
  end.

End elf_bytes.

(** ** Specification *)

(** [buf] is a contiguous part of the file. *)
Definition part_of (buf data : bytes) : Prop := ∃ pre post, data = pre ++ buf ++ post.

Definition file_ok {E} (f : ElfBytes E) : Prop :=
  slice_ok (file_data f) ∧ bytes_ok (file_data f) ∧
  (∀ t, shdrs f = Some t → table_ok t) ∧ (∀ t, phdrs f = Some t → table_ok t).

(** [t] is the table of [num] entries that lies at [off] in the file. *)
Definition table_at {E P} `{ParseAt P} (h : FileHeader E) (data : bytes) (off num : Z) (t : ParsingTable E P) : Prop :=
  table_endian t = endianness h ∧ table_class t = class h ∧ off + num * size_for P (class h) ≤ len data ∧
  slice data off (off + num * size_for P (class h)) = Some (table_data t).

(** The header fields are unsigned. *)
Definition header_nonneg {E} (h : FileHeader E) : Prop :=
  0 ≤ e_phoff h < 2 ^ 64 ∧ 0 ≤ e_shoff h < 2 ^ 64 ∧ 0 ≤ e_phnum h < 2 ^ 16 ∧ 0 ≤ e_shnum h < 2 ^ 16 ∧
  0 ≤ e_shstrndx h < 2 ^ 16.

(** How many section headers and program headers the file says it has. *)
Definition shnum_of {E} `{EndianParse E} (h : FileHeader E) (data : bytes) (n : Z) : Prop :=
  if e_shnum h =? 0 then ∃ s, read_shdr0 h data (e_shoff h) = Ret (Ok s) ∧ n = sh_size s else n = e_shnum h.
Definition phnum_of {E} `{EndianParse E} (h : FileHeader E) (data : bytes) (n : Z) : Prop :=
  if e_phnum h =? PN_XNUM then ∃ s, read_shdr0 h data (e_shoff h) = Ret (Ok s) ∧ n = sh_info s else n = e_phnum h.

(** What the loop of [find_common_data] makes of a dynamic section and of a symbol table
    section. *)
Definition step_dynamic {E} `{EndianParse E} (f : ElfBytes E) (s : SectionHeader) (d : option (ParsingTable E Dyn)) : Prop :=
  (let* d := section_data_as_dynamic f s in Ret (Ok (Some d))) = Ret (Ok d).
Definition step_symbols {E} `{EndianParse E} (f : ElfBytes E) (t : ParsingTable E SectionHeader) (s : SectionHeader)
    (r : option (ParsingTable E Symbol) * option bytes) : Prop :=
  ∃ p, (let* s' := table_get t (sh_link s) in section_data_as_symbol_table f s s') = Ret (Ok p) ∧
    r = (Some (fst p), Some (snd p)).

(** The file header as it lies in the file: the identification with the data encoding
    [ei_data], and the rest in the C layout. *)
Definition ei_class (c : ElfClass) : Z := match c with ELF32 => ELFCLASS32 | ELF64 => ELFCLASS64 end.
Definition ehdr_fields {E} (c : ElfClass) : c_struct (FileHeader E) :=
  match c with ELF32 => Elf32_Ehdr_tail | ELF64 => Elf64_Ehdr_tail end.
Definition encode_ehdr {E} `{EndianParse E} (ei_data : Z) (h : FileHeader E) : bytes :=
  ELFMAGIC ++ [ei_class (class h); ei_data; EV_CURRENT; osabi h; abiversion h; 0; 0; 0; 0; 0; 0; 0] ++
  encode (endianness h) (ehdr_fields (class h)) h.

(** * Lemmas *)

Section elf_bytes_lemmas.
Context {E : Type} `{EndianParse E}.

Lemma parse_tail_spec ident data : slice_ok data → bytes_ok data →
  ∃ r, parse_tail (E := E) ident data = Ret r ∧ ∀ h, r = Ok h → header_nonneg h.
Proof.
  intros Hs Hb. destruct ident as [[[e c] os] abi]. unfold parse_tail.
  match goal with |- context [fst <$> ?m 0] =>
    assert (∃ r o, m 0 = Ret (r, o) ∧ ∀ h, r = Ok h → header_nonneg h) as (r & o & Hm & Hr) end.
  2:{ rewrite Hm. by exists r. }
  unfold parse_word_at, parse_u16_at, parse_u32_at, parse_u64_at.
  assert (H256 : 256 ^ 2 = 2 ^ 16 ∧ 256 ^ 8 = 2 ^ 64 ∧ 256 ^ 4 = 2 ^ 32) by done.
  destruct c; repeat read_field; (eexists _, _; split; [done|]); intros h [= <-];
    unfold header_nonneg; simpl; lia.
Qed.

Lemma verify_ident_returns data : 16 ≤ len data → returns (verify_ident data).
Proof.
  intros Hl. unfold verify_ident, index. destruct (Z.ltb_spec (len data) EI_CLASS); [unfold EI_CLASS in *; lia|].
  case_bool_decide; [|by eexists]. destruct (lookup_lt_is_Some_2 data (Z.to_nat EI_VERSION)) as [v ->];
    [unfold len, EI_VERSION in *; lia|]. simpl. case_match; by eexists.
Qed.

Lemma index_ok data i : 0 ≤ i < len data → ∃ v, index data i = Ret v.
Proof.
  intros. unfold index. destruct (lookup_lt_is_Some_2 data (Z.to_nat i)) as [v ->]; [unfold len in *; lia|]. by exists v.
Qed.

Lemma parse_ident_returns data : 16 ≤ len data → returns (parse_ident (E := E) data).
Proof.
  intros Hl. unfold parse_ident. apply returns_bind; [by apply verify_ident_returns|]. intros _ _.
  destruct (index_ok data EI_CLASS) as [c ->]; [unfold EI_CLASS; lia|]. simpl.
  destruct (if c =? ELFCLASS32 then _ else _) as [cl|]; simpl; [|by eexists].
  destruct (index_ok data EI_DATA) as [d ->]; [unfold EI_DATA; lia|]. simpl.
  destruct (from_ei_data d); simpl; [|by eexists].
  destruct (index_ok data EI_OSABI) as [? ->]; [unfold EI_OSABI; lia|].
  destruct (index_ok data EI_ABIVERSION) as [? ->]; [unfold EI_ABIVERSION; lia|]. by eexists.
Qed.

Lemma get_bytes_len data a b l : 0 ≤ a → get_bytes data a b = Ok l → len l = b - a ∧ a ≤ b ≤ len data ∧ slice data a b = Some l.
Proof.
  intros Ha. unfold get_bytes. destruct (slice data a b) as [k|] eqn:Hk; simpl; [|done]. intros [= <-].
  apply slice_len in Hk as (? & ? & ?); [|done]. by split_and!.
Qed.

Lemma parse_elf_header_spec data : slice_ok data → bytes_ok data →
  ∃ r, parse_elf_header (E := E) data = Ret r ∧ ∀ h, r = Ok h → header_nonneg h.
Proof.
  intros Hs Hb. unfold parse_elf_header.
  destruct (get_bytes data 0 EI_NIDENT) as [ib|] eqn:Hib; simpl; [|by eexists].
  apply get_bytes_len in Hib as (Hil & _ & _); [|done].
  destruct (parse_ident_returns ib) as [[ident|e] Hid]; [unfold EI_NIDENT in *; lia| |]; rewrite Hid; simpl; [|by eexists].
  destruct (get_bytes data EI_NIDENT _) as [tb|] eqn:Htb; simpl; [|by eexists].
  apply get_bytes_ok in Htb as [Hts Htb']; [|done..]. by apply parse_tail_spec.
Qed.

Lemma shdr_fits c s : wf_entry (P := SectionHeader) c s →
  0 ≤ sh_name s < 2 ^ 32 ∧ 0 ≤ sh_offset s ∧ 0 ≤ sh_size s < 2 ^ 64 ∧ 0 ≤ sh_link s < 2 ^ 32 ∧ 0 ≤ sh_info s < 2 ^ 32 ∧
  0 ≤ sh_addralign s.
Proof.
  change (2 ^ 32) with (256 ^ 4). change (2 ^ 64) with (256 ^ 8).
  assert (256 ^ 4 < 256 ^ 8) by done.
  destruct c; simpl; unfold Elf32_Shdr, Elf64_Shdr; intros Hf; split_fits; lia.
Qed.

Lemma phdr_fits c p : wf_entry (P := ProgramHeader) c p → 0 ≤ p_offset p ∧ 0 ≤ p_filesz p ∧ 0 ≤ p_align p.
Proof. destruct c; simpl; unfold Elf32_Phdr, Elf64_Phdr; intros Hf; split_fits; lia. Qed.

Lemma read_shdr0_spec (h : FileHeader E) data off : slice_ok data → bytes_ok data → 0 ≤ off →
  ∃ r, read_shdr0 h data off = Ret r ∧ ∀ s, r = Ok s → wf_entry (class h) s.
Proof.
  intros Hs Hb Ho. unfold read_shdr0. pose proof (exact_size (P := SectionHeader) (class h)) as Hsz.
  destruct (exact_parse (P := SectionHeader) (endianness h) (class h) data Hs off Ho) as [Hok Herr].
  destruct (Z.lt_ge_cases (len data) (off + size_for SectionHeader (class h))).
  - destruct Herr as (e & o & Hp & _); [lia|]. simpl in Hp. rewrite Hp. by eexists.
  - destruct Hok as [s Hp]; [lia|]. pose proof Hp as Hp'. apply parsed_encoded in Hp' as [Hwf _]; [|done..].
    simpl in Hp. rewrite Hp. eexists. split; [done|]. by intros s' [= <-].
Qed.

(** Reading the table of [num] entries at [off]. *)
Lemma take_table {P} `{ParseAt P, !ExactParse P} (h : FileHeader E) data off num entsize : slice_ok data → bytes_ok data →
  0 ≤ off → 0 ≤ num →
  ∃ r, (let* e := Ret (validate_entsize P (class h) entsize) in
        let* size := Ret (ok_or (checked_mul e num) IntegerOverflow) in
        let* end_ := Ret (ok_or (checked_add off size) IntegerOverflow) in
        let* buf := Ret (get_bytes data off end_) in
        Ret (Ok (Some (Build_ParsingTable (endianness h) (class h) buf : ParsingTable E P)))) = Ret r ∧
    ∀ o, r = Ok o → entsize = size_for P (class h) ∧ ∃ t, o = Some t ∧ table_at h data off num t.
Proof.
  intros Hs Hb Ho Hn. unfold validate_entsize. case_Z1; simpl; [|by eexists].
  unfold checked_mul. case_Z1; simpl; [|by eexists]. unfold checked_add. case_Z1; simpl; [|by eexists].
  destruct (get_bytes data off _) as [buf|] eqn:Hbuf; simpl; [|by eexists]. eexists. split; [done|]. intros o [= <-].
  split; [done|]. eexists. split; [done|]. subst entsize. rewrite (Z.mul_comm (size_for _ _)) in *.
  apply get_bytes_len in Hbuf as (? & ? & ?); [|done]. split_and!; [done..|lia|done].
Qed.

Lemma table_at_ok {P} `{ParseAt P} (h : FileHeader E) data off num (t : ParsingTable E P) : slice_ok data →
  bytes_ok data → 0 ≤ off → table_at h data off num t → table_ok t.
Proof.
  intros Hs Hb Ho (_ & _ & _ & Ht). apply slice_len in Ht as Hl; [|done]. apply slice_bytes in Ht; [|done].
  split; [|done]. unfold slice_ok in *. lia.
Qed.
Lemma table_at_len {P} `{ParseAt P, !ExactParse P} (h : FileHeader E) data off num (t : ParsingTable E P) :
  0 ≤ off → table_at h data off num t → table_len t = num.
Proof.
  intros Ho (_ & Hc & _ & Ht). apply slice_len in Ht as [Hl _]; [|done]. unfold table_len. rewrite Hl, Hc.
  rewrite Z.add_simpl_l, Z.div_mul; [done|]. pose proof (exact_size (P := P) (class h)). lia.
Qed.

Lemma number_spec (h : FileHeader E) data (b : bool) (get : SectionHeader → Z) d : slice_ok data → bytes_ok data →
  0 ≤ e_shoff h → (∀ c s, wf_entry (P := SectionHeader) c s → 0 ≤ get s) → 0 ≤ d →
  ∃ r, (if b then let* s := read_shdr0 h data (e_shoff h) in Ret (Ok (get s)) else Ret (Ok d)) = Ret r ∧
    ∀ n, r = Ok n → (if b then ∃ s, read_shdr0 h data (e_shoff h) = Ret (Ok s) ∧ n = get s else n = d) ∧ 0 ≤ n.
Proof.
  intros Hs Hb Ho Hget Hd. destruct b; [|eexists; split; [done|]; intros n' [= <-]; by split].
  destruct (read_shdr0_spec h data (e_shoff h) Hs Hb Ho) as (r & Hr & Hwf). rewrite Hr.
  destruct r as [s|]; simpl; [|by eexists]. eexists. split; [done|]. intros n' [= <-]. split; [by exists s|].
  eapply Hget. by apply Hwf.
Qed.

Lemma find_shdrs_spec (h : FileHeader E) data : slice_ok data → bytes_ok data → header_nonneg h →
  ∃ r, find_shdrs h data = Ret r ∧ ∀ o, r = Ok o →
    match o with
    | None => e_shoff h = 0
    | Some t => e_shoff h ≠ 0 ∧ e_shentsize h = size_for SectionHeader (class h) ∧
        ∃ n, shnum_of h data n ∧ 0 ≤ n ∧ table_at h data (e_shoff h) n t
    end.
Proof.
  intros Hs Hb (_ & Hso & _ & Hsn & _). unfold find_shdrs, shnum_of. case_Z1.
  { eexists. split; [done|]. by intros o [= <-]. }
  destruct (number_spec h data (e_shnum h =? 0) sh_size (e_shnum h) Hs Hb) as (r & -> & Hr); [lia|intros c s Hf; apply shdr_fits in Hf; lia|lia|].
  destruct r as [num|]; simpl; [|by eexists]. destruct (Hr num eq_refl) as [Hnum ?].
  destruct (take_table (P := SectionHeader) h data (e_shoff h) num (e_shentsize h) Hs Hb) as (r & Hr1 & Hr2); [lia..|].
  exists r. split; [exact Hr1|]. intros o Ho. destruct (Hr2 o Ho) as (He & t & -> & Ht). split; [done|]. split; [done|].
  exists num. split_and!; done || apply Ht.
Qed.

Lemma find_phdrs_spec (h : FileHeader E) data : slice_ok data → bytes_ok data → header_nonneg h →
  ∃ r, find_phdrs h data = Ret r ∧ ∀ o, r = Ok o →
    match o with
    | None => e_phoff h = 0
    | Some t => e_phoff h ≠ 0 ∧ e_phentsize h = size_for ProgramHeader (class h) ∧
        ∃ n, phnum_of h data n ∧ 0 ≤ n ∧ table_at h data (e_phoff h) n t
    end.
Proof.
  intros Hs Hb (Hpo & Hso & Hpn & _ & _). unfold find_phdrs, phnum_of. case_Z1.
  { eexists. split; [done|]. by intros o [= <-]. }
  destruct (number_spec h data (e_phnum h =? PN_XNUM) sh_info (e_phnum h) Hs Hb) as (r & -> & Hr); [lia|intros c s Hf; apply shdr_fits in Hf; lia|lia|].
  destruct r as [num|]; simpl; [|by eexists]. destruct (Hr num eq_refl) as [Hnum ?].
  destruct (take_table (P := ProgramHeader) h data (e_phoff h) num (e_phentsize h) Hs Hb) as (r & Hr1 & Hr2); [lia..|].
  exists r. split; [exact Hr1|]. intros o Ho. destruct (Hr2 o Ho) as (He & t & -> & Ht). split; [done|]. split; [done|].
  exists num. split_and!; done || apply Ht.
Qed.

(** ** Accessors *)

Section wf_lemmas.
Context {P : Type} `{ParseAt P, !ExactParse P, !Format P, !FaithfulParse P}.
Implicit Type t : ParsingTable E P.

Lemma wf_items t : table_ok t → ∃ l, table_items t = Ret l ∧ Forall (wf_entry (table_class t)) l.
Proof.
  intros [Hs Hb]. destruct (table_items_spec t Hs) as (l & Hl & _ & Hent). exists l. split; [done|].
  apply Forall_lookup. intros j p Hj. apply Hent, parsed_encoded in Hj as [? _]; [done..|].
  pose proof (exact_size (P := P) (table_class t)). lia.
Qed.
Lemma wf_get t i s : table_ok t → in_usize i → table_get t i = Ret (Ok s) → wf_entry (table_class t) s.
Proof.
  intros [Hs Hb] Hi Hg. destruct (table_get_spec t i Hs Hi) as [(_ & p & Hp & Hg')|(_ & e & Hg')]; [|congruence].
  rewrite Hg in Hg'. simplify_eq. apply parsed_encoded in Hp as [? _]; [done..|].
  pose proof (exact_size (P := P) (table_class t)). destruct Hi. lia.
Qed.
Lemma wf_find t q : table_ok t →
  ∃ o, table_find q t = Ret o ∧ ∀ s, o = Some s → wf_entry (table_class t) s ∧ q s = true.
Proof.
  intros Ht. destruct (wf_items t Ht) as (l & Hl & Hf). unfold table_find. rewrite Hl. simpl. eexists. split; [done|].
  intros s Hs. apply find_some in Hs as [Hin Hq]. rewrite Forall_forall in Hf. split; [|done]. apply Hf.
  by apply list_elem_of_In.
Qed.
End wf_lemmas.

Lemma section_bytes_ok (f : ElfBytes E) s buf : file_ok f → 0 ≤ sh_offset s → section_bytes f s = Ok buf →
  slice_ok buf ∧ bytes_ok buf ∧ slice (file_data f) (sh_offset s) (sh_offset s + sh_size s) = Some buf.
Proof.
  intros (Hs & Hb & _) Ho Hb'. unfold section_bytes, get_data_range in Hb'. unfold checked_add in Hb'.
  case_Z1; [|done]. simpl in Hb'. apply get_bytes_len in Hb' as Hl; [|done]. apply get_bytes_ok in Hb'; [|done..].
  destruct Hb', Hl as (_ & _ & ?). done.
Qed.

Lemma slice_part data a b l : 0 ≤ a → slice data a b = Some l → part_of l data.
Proof.
  unfold slice. intros Ha Hs. case_Z. exists (take (Z.to_nat a) data), (drop (Z.to_nat (b - a)) (drop (Z.to_nat a) data)).
  by rewrite !take_drop.
Qed.
Lemma slice_from_part data a l : slice_from data a = Some l → part_of l data.
Proof.
  unfold slice_from. intros Hs. case_Z. exists (take (Z.to_nat a) data), []. by rewrite app_nil_r, take_drop.
Qed.
Lemma part_of_trans a b c : part_of a b → part_of b c → part_of a c.
Proof. intros (p & q & ->) (p' & q' & ->). exists (p' ++ p), (q ++ q'). by rewrite <-!app_assoc. Qed.
Lemma part_of_nil c : part_of [] c.
Proof. by exists [], c. Qed.

Lemma section_data_spec (f : ElfBytes E) s : file_ok f → 0 ≤ sh_offset s →
  ∃ r, section_data f s = Ret r ∧ ∀ b, r = Ok b → part_of (fst b) (file_data f) ∧ slice_ok (fst b) ∧ bytes_ok (fst b).
Proof.
  intros Hf Ho. unfold section_data. case_Z1.
  { eexists. split; [done|]. intros b [= <-]. split; [apply part_of_nil|]. split; [done|constructor]. }
  destruct (section_bytes f s) as [buf|] eqn:Hbuf; simpl; [|by eexists].
  apply section_bytes_ok in Hbuf as (Hs & Hb & Hsl); [|done..]. apply slice_part in Hsl as Hpart; [|done].
  case_Z1; [eexists; split; [done|]; by intros b [= <-]|]. unfold sm_bind, sm_get, sm_lift, sm_ret.
  destruct (exact_parse (P := CompressionHeader) (endianness (ehdr f)) (class (ehdr f)) buf Hs 0) as [Hok Herr]; [lia|].
  pose proof (exact_size (P := CompressionHeader) (class (ehdr f))) as Hsz.
  destruct (Z.lt_ge_cases (len buf) (0 + size_for CompressionHeader (class (ehdr f)))).
  { destruct Herr as (e & o & Hp & _); [lia|]. simpl in Hp. rewrite Hp. by eexists. }
  destruct Hok as [c Hp]; [lia|]. simpl in Hp. rewrite Hp.
  destruct (slice_from buf _) as [cb|] eqn:Hcb; simpl; [|by eexists]. eexists. split; [done|]. intros b [= <-].
  simpl. pose proof (slice_from_part _ _ _ Hcb). apply slice_from_len in Hcb as Hl; [|simpl in Hsz; lia].
  apply slice_from_bytes in Hcb; [|done]. split; [by eapply part_of_trans|]. split; [|done]. unfold slice_ok in *.
  simpl in Hsz. lia.
Qed.

Lemma segment_data_part (f : ElfBytes E) p buf : file_ok f → 0 ≤ p_offset p → segment_data f p = Ok buf →
  part_of buf (file_data f) ∧ slice_ok buf ∧ bytes_ok buf.
Proof.
  intros (Hs & Hb & _) Ho Hb'. unfold segment_data, get_file_data_range, checked_add in Hb'.
  case_Z1; [|done]. simpl in Hb'. pose proof Hb' as Hl. apply get_bytes_len in Hl as (_ & _ & Hl); [|done].
  apply get_bytes_ok in Hb'; [|done..]. split; [by eapply slice_part|done].
Qed.

(** ** The accessors return *)

Lemma returns_lift {A} (m : outcome A) : returns m → returns (pr_lift m).
Proof. intros [a ->]. by eexists. Qed.
Lemma returns_pure {A} (r : result A ParseError) : returns (Ret r : PR A).
Proof. by eexists. Qed.

Lemma bind_lift {A B} (a : A) (f : A → PR B) : (let* x := pr_lift (Ret a) in f x) = f a.
Proof. done. Qed.

Lemma link_usize c s : wf_entry (P := SectionHeader) c s → in_usize (sh_link s).
Proof. intros Hw%shdr_fits. unfold in_usize. lia. Qed.
Lemma get_link (t : ParsingTable E SectionHeader) c s : table_ok t → wf_entry (P := SectionHeader) c s →
  returns (table_get t (sh_link s)).
Proof. intros Ht Hs. apply table_get_returns; [apply Ht|by eapply link_usize]. Qed.

Lemma as_dynamic_returns (f : ElfBytes E) s : file_ok f → 0 ≤ sh_offset s → returns (section_data_as_dynamic f s).
Proof.
  intros Hf Ho. unfold section_data_as_dynamic. do 2 (apply returns_bind; [apply returns_pure|intros ? _]).
  apply returns_bind; [|intros; apply returns_pure]. destruct (section_data_spec f s Hf Ho) as (r & -> & _). by eexists.
Qed.
Lemma as_symbol_table_returns (f : ElfBytes E) s s' : returns (section_data_as_symbol_table f s s').
Proof. unfold section_data_as_symbol_table. repeat (apply returns_bind; [apply returns_pure|intros ? _]). apply returns_pure. Qed.
Lemma segment_dynamic_returns (f : ElfBytes E) t : table_ok t → returns (segment_dynamic f t).
Proof.
  intros Ht. unfold segment_dynamic. destruct (wf_find t (λ p, p_type p =? PT_DYNAMIC) Ht) as (o & -> & _). rewrite bind_lift.
  destruct o; [|apply returns_pure]. apply returns_bind; [apply returns_pure|]. intros. apply returns_pure.
Qed.

Lemma with_strtab_returns (f : ElfBytes E) : file_ok f → header_nonneg (ehdr f) →
  ∃ r, section_headers_with_strtab f = Ret r ∧ ∀ t o, r = Ok (Some t, o) → table_ok t.
Proof.
  intros (_ & _ & Hsh & _) (_ & _ & _ & _ & Hn). unfold section_headers_with_strtab, section_headers.
  destruct (shdrs f) as [t|] eqn:Ht; [|eexists; split; [done|]; intros t o [= ]]. pose proof (Hsh t eq_refl) as Hok.
  case_Z1; [eexists; split; [done|]; by intros ? ? [= <- <-]|].
  assert (∃ r, (if e_shstrndx (ehdr f) =? SHN_XINDEX then let* s := table_get t 0 in Ret (Ok (sh_link s))
    else Ret (Ok (e_shstrndx (ehdr f)))) = Ret r ∧ ∀ n, r = Ok n → in_usize n) as (r & -> & Hr).
  { assert (Hu : in_usize 0) by done. case_Z1.
    - destruct (table_get_returns t 0 (proj1 Hok) Hu) as [[s|] Hg]; rewrite Hg; simpl; [|by eexists].
      eexists. split; [done|]. intros ? [= <-]. eapply link_usize. by eapply wf_get.
    - eexists. split; [done|]. intros ? [= <-]. unfold in_usize. lia. }
  destruct r as [i|]; simpl; [|by eexists].
  destruct (table_get_returns t i (proj1 Hok) (Hr i eq_refl)) as [[s|] Hg]; rewrite Hg; simpl; [|by eexists].
  destruct (section_bytes f s); simpl; [|by eexists]. eexists. split; [done|]. by intros ? ? [= <- <-].
Qed.

Lemma by_name_returns (f : ElfBytes E) name : file_ok f → header_nonneg (ehdr f) → returns (section_header_by_name f name).
Proof.
  intros Hf Hh. unfold section_header_by_name. destruct (with_strtab_returns f Hf Hh) as (r & -> & Hr).
  destruct r as [[[t|] [strs|]]|]; simpl; try apply returns_pure. apply returns_lift.
  match goal with |- returns (table_find ?q _) => destruct (wf_find t q (Hr t _ eq_refl)) as (o & -> & _) end. by eexists.
Qed.

Lemma dynamic_returns (f : ElfBytes E) : file_ok f → returns (dynamic f).
Proof.
  intros Hf. pose proof Hf as (_ & _ & Hsh & Hph). unfold dynamic, section_headers, segments.
  destruct (shdrs f) as [t|]; [|destruct (phdrs f) as [p|]; [|apply returns_pure]].
  - destruct (wf_find t (λ s, sh_type s =? SHT_DYNAMIC) (Hsh t eq_refl)) as (o & -> & Ho). rewrite bind_lift.
    destruct o as [s|]; [|apply returns_pure]. apply returns_bind; [|intros; apply returns_pure].
    destruct (Ho s eq_refl) as [Hw%shdr_fits _]. apply as_dynamic_returns; [done|lia].
  - apply segment_dynamic_returns. by apply Hph.
Qed.

Lemma symbol_table_of_returns type (f : ElfBytes E) : file_ok f → returns (symbol_table_of type f).
Proof.
  intros Hf. pose proof Hf as (_ & _ & Hsh & _). unfold symbol_table_of, section_headers.
  destruct (shdrs f) as [t|]; [|apply returns_pure].
  destruct (wf_find t (λ s, sh_type s =? type) (Hsh t eq_refl)) as (o & -> & Ho). rewrite bind_lift.
  destruct o as [s|]; [|apply returns_pure]. destruct (Ho s eq_refl) as [Hw _].
  apply returns_bind; [eapply get_link; [by apply Hsh|done]|]. intros s' _.
  apply returns_bind; [apply as_symbol_table_returns|]. intros. apply returns_pure.
Qed.

Lemma common_step_returns (f : ElfBytes E) t c s : file_ok f → table_ok t → wf_entry (table_class t) s →
  returns (common_step f t c s).
Proof.
  intros Hf Ht Hw. pose proof (shdr_fits _ _ Hw) as Hfit. unfold common_step.
  do 2 (case_match; [apply returns_bind; [by eapply get_link|]; intros s' _;
    apply returns_bind; [apply as_symbol_table_returns|]; intros; apply returns_pure|]).
  case_match; [apply returns_bind; [apply as_dynamic_returns; [done|lia]|]; intros; apply returns_pure|].
  case_match; [|case_match; [|apply returns_pure]].
  all: apply returns_bind; [apply returns_pure|]; intros buf [= Hbuf]; apply returns_bind; [|intros; apply returns_pure].
  all: apply section_bytes_ok in Hbuf as (Hs & Hb & _); [|done|lia].
  - destruct (sysv_new_spec (endianness (ehdr f)) (class (ehdr f)) buf Hs Hb) as (r & -> & _). apply returns_pure.
  - destruct (gnu_new_spec (endianness (ehdr f)) (class (ehdr f)) buf Hs Hb) as (r & -> & _). apply returns_pure.
Qed.

Lemma common_loop_returns (f : ElfBytes E) t l : file_ok f → table_ok t → Forall (wf_entry (table_class t)) l →
  ∀ c, returns (common_loop f t l c).
Proof.
  intros Hf Ht. induction 1 as [|s l Hs Hl IH]; intros c; cbn [common_loop]; [apply returns_pure|].
  apply returns_bind; [by apply common_step_returns|]. intros. apply IH.
Qed.

Lemma find_common_data_returns (f : ElfBytes E) : file_ok f → returns (find_common_data f).
Proof.
  intros Hf. pose proof Hf as (_ & _ & Hsh & Hph). unfold find_common_data. apply returns_bind.
  - destruct (shdrs f) as [t|]; [|apply returns_pure]. pose proof (Hsh t eq_refl) as Ht.
    destruct (wf_items t Ht) as (l & -> & Hl). rewrite bind_lift. by apply common_loop_returns.
  - intros c _. destruct (cd_dynamic c); [apply returns_pure|]. destruct (phdrs f) as [p|]; [|apply returns_pure].
    apply returns_bind; [apply segment_dynamic_returns; by apply Hph|]. intros. apply returns_pure.
Qed.

Lemma version_sections_wf c l : Forall (wf_entry (P := SectionHeader) c) l → ∀ a b d,
  (∀ s, a = Some s → wf_entry c s) → (∀ s, b = Some s → wf_entry c s) → (∀ s, d = Some s → wf_entry c s) →
  ∀ a' b' d', version_sections l a b d = (a', b', d') →
  (∀ s, a' = Some s → wf_entry c s) ∧ (∀ s, b' = Some s → wf_entry c s) ∧ (∀ s, d' = Some s → wf_entry c s).
Proof.
  induction 1 as [|s l Hs Hl IH]; intros a b d Ha Hb Hd a' b' d'; cbn [version_sections]; [by intros [= <- <- <-]|].
  assert (Hs' : ∀ s', Some s = Some s' → wf_entry c s') by (by intros s' [= <-]).
  destruct (sh_type s =? SHT_GNU_VERSYM); [|destruct (sh_type s =? SHT_GNU_VERNEED);
    [|destruct (sh_type s =? SHT_GNU_VERDEF)]]; intros Heq;
    repeat case_match; simplify_eq; try (by split_and!); (eapply IH; [..|exact Heq]; done).
Qed.

Lemma version_iter_spec (f : ElfBytes E) t o : file_ok f → table_ok t → (∀ s, o = Some s → wf_entry (table_class t) s) →
  ∃ r, version_iter f t o = Ret r ∧ ∀ it strs, r = Ok (Some (it, strs)) → iter_ok it.
Proof.
  intros Hf Ht Ho. destruct o as [s|]; [|eexists; split; [done|]; intros ? ? [= ]]. pose proof (Ho s eq_refl) as Hw.
  pose proof (shdr_fits _ _ Hw). unfold version_iter.
  destruct (section_bytes f s) as [buf|] eqn:Hbuf; simpl; [|by eexists].
  destruct (get_link t _ s Ht Hw) as [[s'|] ->]; simpl; [|by eexists].
  destruct (section_bytes f s') as [sb|]; simpl; [|by eexists]. eexists. split; [done|]. intros it strs [= <- <-].
  apply section_bytes_ok in Hbuf as (? & ? & _); [|done|lia]. by split_and!.
Qed.

Lemma symver_table_spec (f : ElfBytes E) : file_ok f →
  ∃ r, symbol_version_table f = Ret r ∧ ∀ v, r = Ok (Some v) → slice_ok (table_data (version_ids v)) ∧
    (∀ it strs, verneeds v = Some (it, strs) → iter_ok it) ∧ (∀ it strs, verdefs v = Some (it, strs) → iter_ok it).
Proof.
  intros Hf. pose proof Hf as (_ & _ & Hsh & _). unfold symbol_version_table, section_headers.
  destruct (shdrs f) as [t|]; [|eexists; split; [done|]; intros ? [= ]]. pose proof (Hsh t eq_refl) as Ht.
  destruct (wf_items t Ht) as (l & -> & Hl). rewrite bind_lift.
  destruct (version_sections l None None None) as [[a b] d] eqn:Hv.
  apply (version_sections_wf (table_class t)) in Hv as (Ha & Hb & Hd); [|done..].
  destruct a as [s|]; [|eexists; split; [done|]; intros ? [= ]]. pose proof (shdr_fits _ _ (Ha s eq_refl)).
  destruct (validate_entsize _ _ _); simpl; [|by eexists].
  destruct (section_bytes f s) as [buf|] eqn:Hbuf; simpl; [|by eexists].
  apply section_bytes_ok in Hbuf as (? & _ & _); [|done|lia].
  destruct (version_iter_spec f t b Hf Ht Hb) as ([n|] & -> & Hn); simpl; [|by eexists].
  destruct (version_iter_spec f t d Hf Ht Hd) as ([n'|] & -> & Hn'); simpl; [|by eexists].
  eexists. split; [done|]. intros v [= <-]. simpl. split_and!; [done|..]; intros it strs ->; [by eapply Hn|by eapply Hn'].
Qed.

(** ** One pass against targeted searches *)

Lemma find_head_filter k (l : list SectionHeader) :
  List.find (λ s, sh_type s =? k) l = head (filter (λ s, sh_type s = k) l).
Proof.
  induction l as [|s l IH]; [done|]. cbn [List.find]. rewrite filter_cons. by case_Z1; case_decide.
Qed.

(** The field of the result that sections of type [k] set holds what the last of them
    sets it to. *)
Lemma common_loop_view {V} (v : CommonElfData E → V) k (R : SectionHeader → V → Prop) (f : ElfBytes E) t :
  (∀ c s c', common_step f t c s = Ret (Ok c') → sh_type s ≠ k → v c' = v c) →
  (∀ c s c', common_step f t c s = Ret (Ok c') → sh_type s = k → R s (v c')) →
  ∀ l c c', common_loop f t l c = Ret (Ok c') →
  match last (filter (λ s, sh_type s = k) l) with Some s => R s (v c') | None => v c' = v c end.
Proof.
  intros Hother Hk. induction l as [|s l IH]; intros c c'; cbn [common_loop]; [by intros [= ->]|].
  intros (c1 & H1 & H2)%pr_bind_ok. specialize (IH c1 c' H2). rewrite filter_cons. case_decide as Hs.
  - rewrite last_cons. destruct (last (filter _ l)); [done|]. rewrite IH. by eapply Hk.
  - destruct (last (filter _ l)); [done|]. rewrite IH. by eapply Hother.
Qed.

Ltac invert_step :=
  unfold common_step; intros Hstep Htype; repeat case_match; simplify_eq;
  repeat match goal with
    | Hb : pr_bind _ _ = Ret (Ok _) |- _ => apply pr_bind_ok in Hb as (? & ? & Hb); simplify_eq
    | Hz : (_ =? _) = true |- _ => apply Z.eqb_eq in Hz
    | Hz : (_ =? _) = false |- _ => apply Z.eqb_neq in Hz
    end; try done;
  try (exfalso; unfold SHT_SYMTAB, SHT_DYNSYM, SHT_DYNAMIC, SHT_HASH, SHT_GNU_HASH in *; lia).

Lemma loop_dynamic (f : ElfBytes E) t l c c' : common_loop f t l c = Ret (Ok c') →
  match last (filter (λ s, sh_type s = SHT_DYNAMIC) l) with
  | Some s => step_dynamic f s (cd_dynamic c') | None => cd_dynamic c' = cd_dynamic c end.
Proof.
  apply common_loop_view; intros c1 s c2; invert_step. unfold step_dynamic. by match goal with Hd : section_data_as_dynamic _ _ = _ |- _ => rewrite Hd end.
Qed.
Lemma loop_symtab (f : ElfBytes E) t l c c' : common_loop f t l c = Ret (Ok c') →
  match last (filter (λ s, sh_type s = SHT_SYMTAB) l) with
  | Some s => step_symbols f t s (symtab c', symtab_strs c')
  | None => (symtab c', symtab_strs c') = (symtab c, symtab_strs c) end.
Proof.
  apply (common_loop_view (λ c, (symtab c, symtab_strs c))); intros c1 s c2; invert_step.
  eexists. split; [|done]. match goal with Hg : table_get _ _ = _ |- _ => rewrite Hg end. done.
Qed.
Lemma loop_dynsyms (f : ElfBytes E) t l c c' : common_loop f t l c = Ret (Ok c') →
  match last (filter (λ s, sh_type s = SHT_DYNSYM) l) with
  | Some s => step_symbols f t s (dynsyms c', dynsyms_strs c')
  | None => (dynsyms c', dynsyms_strs c') = (dynsyms c, dynsyms_strs c) end.
Proof.
  apply (common_loop_view (λ c, (dynsyms c, dynsyms_strs c))); intros c1 s c2; invert_step.
  eexists. split; [|done]. match goal with Hg : table_get _ _ = _ |- _ => rewrite Hg end. done.
Qed.

(** ** The header read back *)

Lemma read_tail (h : FileHeader E) : fits (ehdr_fields (class h)) h →
  parse_tail (endianness h, class h, osabi h, abiversion h) (encode (endianness h) (ehdr_fields (class h)) h) = Ret (Ok h) ∧
  len (encode (endianness h) (ehdr_fields (class h)) h) =
    match class h with ELF32 => ELF32_EHDR_TAILSIZE | ELF64 => ELF64_EHDR_TAILSIZE end.
Proof.
  intros Hf. destruct h as [c e ver os abi ty ma en pho sho fl ehs phe phn she shn shs]. cbn [class endianness osabi abiversion] in *.
  set (h := Build_FileHeader E c e ver os abi ty ma en pho sho fl ehs phe phn she shn shs) in *.
  set (d := encode e (ehdr_fields c) h).
  assert (Hlen : len d = match c with ELF32 => ELF32_EHDR_TAILSIZE | ELF64 => ELF64_EHDR_TAILSIZE end).
  { unfold d, encode, encode_then, ehdr_fields. destruct c; simpl; rewrite !len_app, !len_enc by lia; done. }
  split; [|exact Hlen].
  assert (Hat : at_off d 0 (encode_then e (ehdr_fields c) h [])) by (split; [pose proof (len_nonneg d); lia|done]).
  assert (Hd : slice_ok d) by (unfold slice_ok; rewrite Hlen; by destruct c). clearbody d. clear Hlen.
  unfold parse_tail.
  match goal with |- _ <$> ?m 0 = _ => assert (∃ o, m 0 = Ret (Ok h, o)) as [o ->]; [|done] end.
  unfold parse_word_at, parse_u16_at, parse_u32_at, parse_u64_at, encode_then, ehdr_fields in *.
  destruct c; unfold Elf32_Ehdr_tail, Elf64_Ehdr_tail in *; split_fits; simpl in *; eexists; read_fields; by apply ret_at.
Qed.

Lemma read_ident ei (h : FileHeader E) : from_ei_data ei = Ok (endianness h) →
  parse_ident (ELFMAGIC ++ [ei_class (class h); ei; EV_CURRENT; osabi h; abiversion h; 0; 0; 0; 0; 0; 0; 0]) =
  Ret (Ok (endianness h, class h, osabi h, abiversion h)).
Proof.
  intros Hei. unfold parse_ident, verify_ident. change (len _ <? EI_CLASS) with false. cbv iota.
  rewrite bool_decide_eq_true_2 by done. simpl. destruct (class h); simpl; by rewrite Hei.
Qed.

Lemma find_in_items (t : ParsingTable E SectionHeader) l k : table_items t = Ret l →
  table_find (λ s, sh_type s =? k) t = Ret (head (filter (λ s, sh_type s = k) l)).
Proof. intros Hl. unfold table_find. rewrite Hl. simpl. by rewrite find_head_filter. Qed.

Lemma symbol_table_view (f : ElfBytes E) t l k (r : option (ParsingTable E Symbol) * option bytes) :
  shdrs f = Some t → table_items t = Ret l → (length (filter (λ s, sh_type s = k) l) ≤ 1)%nat →
  match last (filter (λ s, sh_type s = k) l) with Some s => step_symbols f t s r | None => r = (None, None) end →
  symbol_table_of k f = Ret (Ok (s ← fst r; n ← snd r; Some (s, n))).
Proof.
  intros Hsh Hl Hone Hr. unfold symbol_table_of, section_headers. rewrite Hsh, (find_in_items t l k Hl), bind_lift.
  destruct (filter _ l) as [|s [|]]; simpl in Hone, Hr |- *; [by rewrite Hr| |lia].
  destruct Hr as ([tab strs] & Hp & ->). apply pr_bind_ok in Hp as (s' & Hg & Hp). rewrite Hg. cbn [pr_bind].
  by rewrite Hp.
Qed.

(** The fallback of [find_common_data] changes the dynamic table only. *)
Lemma common_fallback (f : ElfBytes E) c1 c :
  match cd_dynamic c1, phdrs f with
  | None, Some phdrs => let* d := segment_dynamic f phdrs in Ret (Ok (set_dynamic d c1))
  | _, _ => Ret (Ok c1)
  end = Ret (Ok c) →
  (symtab c, symtab_strs c) = (symtab c1, symtab_strs c1) ∧ (dynsyms c, dynsyms_strs c) = (dynsyms c1, dynsyms_strs c1) ∧
  match cd_dynamic c1, phdrs f with
  | Some d, _ => cd_dynamic c = Some d
  | None, Some p => segment_dynamic f p = Ret (Ok (cd_dynamic c))
  | None, None => cd_dynamic c = None
  end.
Proof.
  destruct (cd_dynamic c1) eqn:Hd; [by intros [= <-]|]. destruct (phdrs f) as [p|]; [|by intros [= <-]].
  intros (d & -> & [= <-])%pr_bind_ok. done.
Qed.

End elf_bytes_lemmas.

(** A file with a dynamic segment, and section headers for a null section and for the
    section names. *)
Definition demo_ehdr : FileHeader AnyEndian :=
  Build_FileHeader AnyEndian ELF64 Little 1 0 0 3 243 0x1000 64 136 0 64 56 1 64 2 1.
Definition demo_dyn_phdr : ProgramHeader := Build_ProgramHeader PT_DYNAMIC 120 0 0 16 16 6 8.
Definition demo_shdrs : list SectionHeader :=
  [Build_SectionHeader 0 0 0 0 0 0 0 0 0 0; Build_SectionHeader 0 SHT_STRTAB 0 0 264 1 0 0 1 0].
Definition demo_file : bytes :=
  encode_ehdr 1 demo_ehdr ++ encode_table Little ELF64 [demo_dyn_phdr] ++ encode_table Little ELF64 [Build_Dyn 5 77] ++
  encode_table Little ELF64 demo_shdrs ++ [0].
Definition demo_elf : ElfBytes AnyEndian :=
  Build_ElfBytes demo_ehdr demo_file
    (Some (Build_ParsingTable Little ELF64 (encode_table Little ELF64 demo_shdrs)))
    (Some (Build_ParsingTable Little ELF64 (encode_table Little ELF64 [demo_dyn_phdr]))).

Lemma demo_elf_ok : file_ok demo_elf.
Proof.
  split; [vm_compute; reflexivity|]. split.
  - vm_compute. repeat (constructor; [split; [discriminate|reflexivity]|]). constructor.
  - split; intros t [= <-]; (split; [vm_compute; reflexivity|]);
      (vm_compute; repeat (constructor; [split; [discriminate|reflexivity]|]); constructor).
Qed.

(** * Properties *)

(** Opening a file is safe on untrusted bytes: [minimal_parse] returns on every slice, and
    when it succeeds the section and program header tables are exactly the parts of the
    file that the header announces: at [e_shoff] and [e_phoff], with the number of
    entries of the header, or of section header 0 when the header's field says so; there
    is no table exactly when the offset is zero. *)
Theorem minimal_parse_locates {E} `{EndianParse E} data : slice_ok data → bytes_ok data →
  ∃ r, minimal_parse (E := E) data = Ret r ∧ ∀ f, r = Ok f →
    parse_elf_header data = Ret (Ok (ehdr f)) ∧ file_data f = data ∧ file_ok f ∧ header_nonneg (ehdr f) ∧
    match shdrs f with
    | None => e_shoff (ehdr f) = 0
    | Some t => e_shoff (ehdr f) ≠ 0 ∧ e_shentsize (ehdr f) = size_for SectionHeader (class (ehdr f)) ∧
        shnum_of (ehdr f) data (table_len t) ∧ table_at (ehdr f) data (e_shoff (ehdr f)) (table_len t) t
    end ∧
    match phdrs f with
    | None => e_phoff (ehdr f) = 0
    | Some t => e_phoff (ehdr f) ≠ 0 ∧ e_phentsize (ehdr f) = size_for ProgramHeader (class (ehdr f)) ∧
        phnum_of (ehdr f) data (table_len t) ∧ table_at (ehdr f) data (e_phoff (ehdr f)) (table_len t) t
    end.
Proof.
  intros Hs Hb. unfold minimal_parse.
  destruct (parse_elf_header_spec (E := E) data Hs Hb) as (rh & -> & Hh). destruct rh as [h|]; simpl; [|by eexists].
  pose proof (Hh h eq_refl) as Hn. pose proof Hn as (Hpo & Hso & _).
  destruct (find_shdrs_spec h data Hs Hb Hn) as (rs & -> & Hsh). destruct rs as [os|]; simpl; [|by eexists].
  destruct (find_phdrs_spec h data Hs Hb Hn) as (rp & -> & Hph). destruct rp as [op|]; simpl; [|by eexists].
  specialize (Hsh os eq_refl). specialize (Hph op eq_refl).
  eexists. split; [done|]. intros f [= <-]. simpl.
  split; [done|]. split; [done|]. split; [|split; [exact Hn|split]].
  - split; [done|]. split; [done|]. split; intros t Heq; simpl in Heq; subst.
    + destruct Hsh as (_ & _ & n & _ & _ & Ht). eapply table_at_ok; [done..| |exact Ht]. lia.
    + destruct Hph as (_ & _ & n & _ & _ & Ht). eapply table_at_ok; [done..| |exact Ht]. lia.
  - destruct os as [t|]; [|done]. destruct Hsh as (? & ? & n & ? & ? & Ht).
    rewrite (table_at_len h data (e_shoff h) n t) by (done || lia). done.
  - destruct op as [t|]; [|done]. destruct Hph as (? & ? & n & ? & ? & Ht).
    rewrite (table_at_len h data (e_phoff h) n t) by (done || lia). done.
Qed.
Lemma minimal_parse_locates_witness :
  minimal_parse demo_file = Ret (Ok demo_elf) ∧
  ∃ r, minimal_parse (E := AnyEndian) demo_file = Ret r ∧ ∀ f, r = Ok f → file_ok f.
Proof.
  split; [vm_compute; reflexivity|].
  destruct (minimal_parse_locates (E := AnyEndian) demo_file) as (r & Hr & Hf).
  - vm_compute. reflexivity.
  - vm_compute. repeat (constructor; [split; [discriminate|reflexivity]|]). constructor.
  - exists r. split; [exact Hr|]. intros f Heq. apply (Hf f Heq).
Defined.

(** The file header is read back: for every header with fields that fit the C layout of its
    class, in either byte order, the bytes of the identification and the header are parsed
    to that header, whatever follows them in the file. *)
Theorem ehdr_roundtrip {E} `{EndianParse E} ei (h : FileHeader E) rest :
  from_ei_data ei = Ok (endianness h) → fits (ehdr_fields (class h)) h →
  parse_elf_header (encode_ehdr ei h ++ rest) = Ret (Ok h).
Proof.
  intros Hei Hf. destruct (read_tail h Hf) as [Htail Hlen]. unfold parse_elf_header, encode_ehdr. rewrite !app_assoc, <-app_assoc.
  set (ident := ELFMAGIC ++ _). set (tl := encode _ _ h) in *. set (data := ident ++ tl ++ rest).
  assert (H0 : at_off data 0 (ident ++ tl ++ rest)) by (split; [pose proof (len_nonneg data); lia|done]).
  apply at_off_app in H0 as (H1 & Hg & _). change (len ident) with 16 in H1, Hg.
  apply at_off_app in H1 as (_ & Hg' & _). change (0 + 16) with EI_NIDENT in *. rewrite Hg. cbn [pr_bind].
  assert (parse_ident ident = Ret (Ok (endianness h, class h, osabi h, abiversion h))) as -> by exact (read_ident ei h Hei).
  cbn [pr_bind fst snd]. rewrite Hlen in Hg'.
  destruct (class h); rewrite Hg'; exact Htail.
Qed.
Lemma ehdr_roundtrip_witness : parse_elf_header demo_file = Ret (Ok demo_ehdr).
Proof.
  apply (ehdr_roundtrip 1 demo_ehdr).
  - vm_compute. reflexivity.
  - repeat constructor; vm_compute; discriminate || reflexivity.
Defined.

(** The accessors of an opened file are safe: on every file that [minimal_parse] accepts, each
    of them returns without a panic, for every section header with fields of the file's
    class, and the data of a section or a segment is a part of the file; the versioning
    sections it hands out are iterators the lookups accept. *)
Theorem elf_accessors_safe {E} `{EndianParse E} (f : ElfBytes E) name s p :
  file_ok f → header_nonneg (ehdr f) → wf_entry (class (ehdr f)) s → wf_entry (class (ehdr f)) p →
  returns (section_headers_with_strtab f) ∧ returns (section_header_by_name f name) ∧ returns (find_common_data f) ∧
  returns (dynamic f) ∧ returns (symbol_table f) ∧ returns (dynamic_symbol_table f) ∧
  (∃ r, section_data f s = Ret r ∧ ∀ b, r = Ok b → part_of (fst b) (file_data f)) ∧
  (∀ b, segment_data f p = Ok b → part_of b (file_data f)) ∧
  (∃ r, symbol_version_table f = Ret r ∧ ∀ v, r = Ok (Some v) → slice_ok (table_data (version_ids v)) ∧
    (∀ it strs, verneeds v = Some (it, strs) → iter_ok it) ∧ (∀ it strs, verdefs v = Some (it, strs) → iter_ok it)).
Proof.
  intros Hf Hh Hs%shdr_fits Hp%phdr_fits.
  split; [destruct (with_strtab_returns f Hf Hh) as (r & -> & _); by eexists|].
  split; [by apply by_name_returns|]. split; [by apply find_common_data_returns|]. split; [by apply dynamic_returns|].
  split; [by apply symbol_table_of_returns|]. split; [by apply symbol_table_of_returns|]. split; [|split].
  - destruct (section_data_spec f s Hf) as (r & -> & Hr); [lia|]. exists r. split; [done|]. intros b Hb. by apply Hr.
  - intros b Hb. eapply segment_data_part; [done| |done]. lia.
  - by apply symver_table_spec.
Qed.
Lemma elf_accessors_safe_witness :
  file_ok demo_elf ∧ returns (find_common_data demo_elf) ∧ returns (dynamic demo_elf).
Proof.
  pose proof demo_elf_ok as Hf.
  split; [exact Hf|].
  destruct (elf_accessors_safe demo_elf [] (Build_SectionHeader 0 0 0 0 0 0 0 0 0 0) demo_dyn_phdr Hf) as (_ & _ & Hc & Hd & _).
  - unfold header_nonneg. vm_compute. repeat split; discriminate.
  - repeat constructor; vm_compute; discriminate || reflexivity.
  - repeat constructor; vm_compute; discriminate || reflexivity.
  - split; [exact Hc|exact Hd].
Defined.

(** One pass and targeted searches agree, with one exception.  When [find_common_data]
    succeeds on a file, its symbol tables are those of [symbol_table] and
    [dynamic_symbol_table] when the file has at most one section of each type, and its
    dynamic table is that of [dynamic] when the file has one dynamic section or no
    section headers.  In a file with section headers but no dynamic section,
    [find_common_data] falls back to the [PT_DYNAMIC] segment while [dynamic] finds
    nothing. *)
Theorem common_data_agrees {E} `{EndianParse E} (f : ElfBytes E) c : file_ok f → find_common_data f = Ret (Ok c) →
  match shdrs f with
  | None => symbol_table f = Ret (Ok None) ∧ dynamic_symbol_table f = Ret (Ok None) ∧ dynamic f = Ret (Ok (cd_dynamic c))
  | Some t => ∃ l, table_items t = Ret l ∧
      let of_type k := filter (λ s, sh_type s = k) l in
      ((length (of_type SHT_SYMTAB) ≤ 1)%nat →
         symbol_table f = Ret (Ok (s ← symtab c; n ← symtab_strs c; Some (s, n)))) ∧
      ((length (of_type SHT_DYNSYM) ≤ 1)%nat →
         dynamic_symbol_table f = Ret (Ok (s ← dynsyms c; n ← dynsyms_strs c; Some (s, n)))) ∧
      (length (of_type SHT_DYNAMIC) = 1%nat → dynamic f = Ret (Ok (cd_dynamic c))) ∧
      (of_type SHT_DYNAMIC = [] → dynamic f = Ret (Ok None) ∧
         match phdrs f with Some p => segment_dynamic f p = Ret (Ok (cd_dynamic c)) | None => cd_dynamic c = None end)
  end.
Proof.
  intros Hf Hc. unfold find_common_data in Hc. apply pr_bind_ok in Hc as (c1 & Hc1 & Hc).
  apply common_fallback in Hc as (Hsym & Hdsym & Hdyn). destruct (shdrs f) as [t|] eqn:Ht.
  - pose proof Hf as (_ & _ & Hsh & _). destruct (wf_items t (Hsh t Ht)) as (l & Hl & _). exists l. split; [done|].
    rewrite Hl, bind_lift in Hc1. cbv zeta. injection Hsym as -> ->. injection Hdsym as -> ->. split; [|split; [|split]].
    + intros Hone. apply (symbol_table_view f t l SHT_SYMTAB (symtab c1, symtab_strs c1) Ht Hl Hone).
      apply (loop_symtab f t l _ c1 Hc1).
    + intros Hone. apply (symbol_table_view f t l SHT_DYNSYM (dynsyms c1, dynsyms_strs c1) Ht Hl Hone).
      apply (loop_dynsyms f t l _ c1 Hc1).
    + intros Hone. apply loop_dynamic in Hc1. unfold dynamic, section_headers.
      rewrite Ht, (find_in_items t l _ Hl), bind_lift. destruct (filter _ l) as [|s [|]]; [done| |done]. simpl in Hc1 |- *.
      unfold step_dynamic in Hc1. rewrite Hc1. apply pr_bind_ok in Hc1 as (d & _ & Hd).
      injection Hd as Hd. rewrite <-Hd in Hdyn. by rewrite Hdyn, Hd.
    + intros Hnone. apply loop_dynamic in Hc1. unfold dynamic, section_headers.
      rewrite Ht, (find_in_items t l _ Hl), bind_lift, Hnone. split; [done|]. rewrite Hnone in Hc1. simpl in Hc1.
      by rewrite Hc1 in Hdyn.
  - injection Hc1 as <-. unfold symbol_table, dynamic_symbol_table, symbol_table_of, dynamic, section_headers, segments.
    rewrite Ht. split; [done|]. split; [done|]. simpl in Hdyn. destruct (phdrs f); [done|by rewrite Hdyn].
Qed.
Definition demo_common : CommonElfData AnyEndian :=
  Build_CommonElfData None None None None
    (Some (Build_ParsingTable Little ELF64 (encode_table Little ELF64 [Build_Dyn 5 77]))) None None.
Lemma common_data_agrees_witness :
  find_common_data demo_elf = Ret (Ok demo_common) ∧ dynamic demo_elf = Ret (Ok None).
Proof.
  assert (find_common_data demo_elf = Ret (Ok demo_common)) as Hc by (vm_compute; reflexivity). split; [exact Hc|].
  pose proof demo_elf_ok as Hf.
  destruct (common_data_agrees demo_elf demo_common Hf Hc) as (l & Hl & _ & _ & _ & Hnone).
  apply Hnone. assert (table_items (Build_ParsingTable Little ELF64 (encode_table Little ELF64 demo_shdrs)) = Ret demo_shdrs)
    as Hl' by (vm_compute; reflexivity). rewrite Hl in Hl'. injection Hl' as ->. vm_compute. reflexivity.
Defined.
