(* ===== verification/SysLoader.v ===== *)
(** The program loader of [exercises/sys_map]: [src/loader.rs], and the start of the user
    process in [src/main.rs], on the address spaces of [Axmm.v] and the ELF parser of
    [ElfParse.v] and [ElfBytes.v].

    A file is used through the class [AppFile]; a read may return fewer bytes than asked
    for.  The loop that reads a segment has fuel, and [None] says that it is still
    running.  The theorems: loading comes back and every segment is in memory, its bytes
    from the file followed by zeros, whatever is loaded after it; the program headers are
    those that [ElfBytes::segments] finds; a file that ends inside a segment is read for
    ever. *)

From stdpp Require Import prelude gmap list.
From Stdlib Require Import ZArith Lia.
From S2P Require Import Prelude Axalloc Axmm AxmmProps AxmmSpace AxmmCalls ElfParse ElfBytes.
Local Open Scope Z_scope.
Local Open Scope kernel_scope.

(** [std::fs::File] and [std::io]. *)
Class AppFile (F : Type) : Type := {
  file_open : list Z → result F AxError.t;
  (** the bytes stored in a buffer of the given length *)
  file_read : Z → F → result (list Z) AxError.t * F;
  file_seek : Z → F → result Z AxError.t * F;
  file_bytes : F → list Z;
  file_pos : F → Z;
}.
Class AppFileLaws (F : Type) `{AppFile F} : Prop := {
  file_read_law n f r f' : 0 ≤ n → 0 ≤ file_pos f → file_read n f = (r, f') → file_bytes f' = file_bytes f ∧
    match r with
    | Ok bs => Z.of_nat (length bs) ≤ n ∧ bs = take (length bs) (drop (Z.to_nat (file_pos f)) (file_bytes f)) ∧ file_pos f' = file_pos f + Z.of_nat (length bs) ∧
        (0 < n → file_pos f < Z.of_nat (length (file_bytes f)) → bs ≠ [])
    | Err _ => 0 ≤ file_pos f'
    end;
  file_seek_law off f r f' : 0 ≤ off → file_seek off f = (r, f') → file_bytes f' = file_bytes f ∧
    match r with Ok _ => file_pos f' = off | Err _ => 0 ≤ file_pos f → 0 ≤ file_pos f' end;
}.

Definition ELF_HEAD_BUF_SIZE : Z := 256.
Definition USER_STACK_SIZE : Z := 0x10000.
Definition PT_LOAD : Z := 1.
Definition PT_INTERP : Z := 3.

(** The buffer after a read stored [bs] at [i]. *)
Definition fill (data : list Z) (i : Z) (bs : list Z) : list Z :=
  take (Z.to_nat i) data ++ bs ++ drop (Z.to_nat i + length bs) data.

(** Code that may still be running when the fuel is used up. *)
Definition LM (S A : Type) : Type := S → option (outcome (result A AxError.t * S)).
Definition lm_bind {S A B} (m : LM S A) (k : A → LM S B) : LM S B := λ s,
  match m s with
  | None => None
  | Some Panic => Some Panic
  | Some (Ret (Err e, s)) => Some (Ret (Err e, s))
  | Some (Ret (Ok a, s)) => k a s
  end.
Definition lm_run {S A} (m : SM S AxError.t A) : LM S A := λ s, Some (m s).
Notation "'load!' x ':=' m 'in' k" := (lm_bind m (λ x, k)) (at level 10, x name, m at level 100, k at level 200) : kernel_scope.

Section loader.
Context {B P PT MS F : Type} {pa : PageAllocator P} {cfg : MemConfig} {ma : MemoryAddr} {mf : MappingFlags}
  {ptab : PageTable PT (GlobalAllocator B P)} {mset : MemorySet MS} {heap : KernelHeap} {files : AppFile F}.
Abbreviation state := (space B P PT MS * F)%type.

Definition on_uspace {A} (m : SM (space B P PT MS) AxError.t A) : SM state AxError.t A := λ st,
  match m (fst st) with Ret (r, s) => Ret (r, (s, snd st)) | Panic => Panic end.
Definition on_file {A} (m : F → result A AxError.t * F) : SM state AxError.t A := λ st,
  let '(r, f) := m (snd st) in Ret (r, (fst st, f)).

(** [Result::unwrap]. *)
Definition unwrap_pr {A} (m : PR A) : outcome A := match m with Ret (Ok a) => Ret a | _ => Panic end.

Definition load_elf_phdrs (f : F) : outcome (result (list ProgramHeader * Z * Z * Z) AxError.t * F) :=
  match file_read ELF_HEAD_BUF_SIZE f with
  | (Err e, f) => Ret (Err e, f)
  | (Ok bs, f) =>
      match unwrap_pr (parse_elf_header (E := AnyEndian) (fill (replicate (Z.to_nat ELF_HEAD_BUF_SIZE) 0) 0 bs)) with
      | Panic => Panic
      | Ret ehdr =>
          let phnum := e_phnum ehdr in
          match validate_entsize ProgramHeader (class ehdr) (e_phentsize ehdr) with
          | Err _ => Panic
          | Ok entsize =>
              match checked_mul entsize phnum with
              | None => Panic
              | Some size =>
                  if (0 <? size) && (size <=? PAGE_SIZE_4K) && heap_room size then
                    let '(_, f) := file_seek (e_phoff ehdr) f in
                    match file_read size f with
                    | (Err e, f) => Ret (Err e, f)
                    | (Ok bs, f) =>
                        let phdrs := Build_ParsingTable (endianness ehdr) (class ehdr) (fill (replicate (Z.to_nat size) 0) 0 bs) in
                        match table_items phdrs with
                        | Panic => Panic
                        | Ret l => Ret (Ok (filter (λ ph, p_type ph = PT_LOAD ∨ p_type ph = PT_INTERP) l, e_entry ehdr, e_phoff ehdr, e_phnum ehdr), f)
                        end
                    end
                  else Panic
              end
          end
      end
  end.

(** [while index < filesz { .. }]; [data] is sliced at [filesz]. *)
Fixpoint read_into (fuel : nat) (index filesz : Z) (data : list Z) : LM state (Z * list Z) := λ st,
  match fuel with
  | O => None
  | S fuel =>
      if index <? filesz then
        if filesz <=? Z.of_nat (length data) then
          lm_bind (lm_run (on_file (file_read (filesz - index)))) (λ bs, read_into fuel (uadd index (Z.of_nat (length bs))) filesz (fill data index bs)) st
        else Some Panic
      else Some (Ret (Ok (index, data), st))
  end.

Definition segment_flags : Z := Z.lor (Z.lor (Z.lor mf_READ mf_WRITE) mf_EXECUTE) mf_USER.
Definition load_segment (fuel : nat) (phdr : ProgramHeader) : LM state unit :=
  let vaddr := align_down_4k (p_vaddr phdr) in
  let vaddr_end := align_up_4k (uadd (p_vaddr phdr) (p_memsz phdr)) in
  load! _ := lm_run (on_uspace (map_alloc vaddr (usub vaddr_end vaddr) segment_flags true)) in
  let data := replicate (Z.to_nat (p_memsz phdr)) 0 in
  load! _ := lm_run (if heap_room (p_memsz phdr) then sm_ret tt else sm_panic) in
  load! _ := lm_run (on_file (file_seek (p_offset phdr))) in
  let filesz := p_filesz phdr in
  load! r := read_into fuel 0 filesz data in
  if fst r =? filesz then lm_run (on_uspace (write (p_vaddr phdr) (snd r))) else lm_run sm_panic.
Fixpoint load_segments (fuel : nat) (phdrs : list ProgramHeader) : LM state unit :=
  match phdrs with
  | [] => lm_run (sm_ret tt)
  | phdr :: phdrs => load! _ := load_segment fuel phdr in load_segments fuel phdrs
  end.

Definition load_user_app (fuel : nat) (fname : list Z) (uspace : space B P PT MS) : option (outcome (result Z AxError.t * space B P PT MS)) :=
  match file_open fname with
  | Err e => Some (Ret (Err e, uspace))
  | Ok file =>
      match load_elf_phdrs file with
      | Panic => Some Panic
      | Ret (Err e, _) => Some (Ret (Err e, uspace))
      | Ret (Ok (phdrs, entry, _, _), file) =>
          match load_segments fuel phdrs (uspace, file) with
          | None => None
          | Some Panic => Some Panic
          | Some (Ret (Err e, st)) => Some (Ret (Err e, fst st))
          | Some (Ret (Ok _, st)) => Some (Ret (Ok entry, fst st))
          end
      end
  end.

(** [kernel_elf_parser::get_app_stack_region] for the arguments [main] passes: the bytes and the stack pointer. *)
Context (app_stack_region : Z → Z → list Z * Z).
Definition init_user_stack (populating : bool) : SM (space B P PT MS) AxError.t Z := λ s,
  let ustack_top := end_ (sp_as s) in
  let ustack_vaddr := usub ustack_top USER_STACK_SIZE in
  match map_alloc ustack_vaddr USER_STACK_SIZE (Z.lor (Z.lor mf_READ mf_WRITE) mf_USER) populating s with
  | Ret (Ok _, s) =>
      let '(stack_data, ustack_pointer) := app_stack_region ustack_vaddr USER_STACK_SIZE in
      (do! write ustack_pointer stack_data in sm_ret ustack_pointer) s
  | _ => Panic
  end.
(** [main] up to the spawning of the task: the entry point, the stack pointer and the address space. *)
Definition prepare_user_app (fuel : nat) (fname : list Z) (uspace : space B P PT MS) : option (outcome (Z * Z * space B P PT MS)) :=
  match load_user_app fuel fname uspace with
  | None => None
  | Some (Ret (Ok entry, s)) =>
      Some (match init_user_stack true s with
            | Ret (Ok ustack_top, s) => Ret (entry, ustack_top, s)
            | _ => Panic
            end)
  | Some _ => Some Panic
  end.
End loader.

(** * Properties *)

Section properties.
Context {B P PT MS F : Type} {pa : PageAllocator P} {pal : PageAllocatorLaws P} {cfg : MemConfig} {ma : MemoryAddr} {mal : MemoryAddrLaws} {mf : MappingFlags}
  {ptab : PageTable PT (GlobalAllocator B P)} {ptl : PageTableLaws B P PT} {mset : MemorySet MS} {msl : MemorySetLaws MS}
  {heap : KernelHeap} {files : AppFile F} {flaws : AppFileLaws F}.
Implicit Types (s : space B P PT MS) (f : F).
Abbreviation at_ s va := (kaddr (pt (sp_as s)) va).
Abbreviation page s b := (pt_page (pt (sp_as s)) b).
Abbreviation area_list s := (ms_areas (areas (sp_as s))).
Abbreviation zlen l := (Z.of_nat (length l)).

(** ** Memory that keeps its contents *)

(** The bytes at [va] are [data]. *)
Definition holds s (va : Z) (data : list Z) : Prop :=
  in_usize va ∧ in_usize (zlen data) ∧ in_space s va (zlen data) = true ∧ mapped_range s va (zlen data) ∧
  ∀ j, (j < length data)%nat → sp_mem s (at_ s (va + Z.of_nat j)) = default 0 (data !! j).
Lemma holds_read s va data : uspace_ok s → holds s va data → read va (replicate (length data) 0) s = Ret (Ok tt, data).
Proof.
  intros Hu (Hva & Hl & Hin & Hm & Hd). destruct (read_spec s va (replicate (length data) 0) Hu Hva) as (r & b & -> & Hlb & Hrb); [by rewrite length_replicate..|].
  rewrite length_replicate in *. destruct r as [[]|e]; [|by destruct Hrb as [_ []]]. do 2 f_equal. destruct Hrb as [_ Hrb].
  apply list_eq_same_length with (n := length data); [done|done|]. intros i x y Hi Hx Hy. rewrite Hrb in Hx by lia. injection Hx as <-. rewrite Hd by done. by rewrite Hy.
Qed.
Lemma holds_written s s' va data : uspace_ok s → in_usize va → in_usize (zlen data) → in_space s va (zlen data) = true → write va data s = Ret (Ok tt, s') →
  holds s' va data ∧ sp_as s' = sp_as s ∧ sp_alloc s' = sp_alloc s.
Proof.
  intros Hu Hva Hl Hin Hw. destruct (write_spec s va data Hu Hva Hl Hin) as (r & s2 & Hw2 & Has & Hal & _ & Hr). rewrite Hw in Hw2. injection Hw2 as <- <-.
  destruct Hr as [Hm Hb]. split; [|done]. unfold holds, in_space, mapped_range in *. by rewrite Has.
Qed.
Lemma holds_mapped s va data j : holds s va data → (j < length data)%nat → page s (page_of (va + Z.of_nat j)) ≠ None ∧ base (sp_as s) ≤ va + Z.of_nat j < end_ (sp_as s).
Proof.
  intros (_ & _ & Hin & Hm & _) Hj. split; [eapply mapped_page; [done|lia]|]. unfold in_space in Hin. apply andb_true_iff in Hin as [?%Z.leb_le ?%Z.leb_le]. lia.
Qed.
(** Writing elsewhere keeps it. *)
Lemma holds_write_other s s' va data start buf : uspace_ok s → holds s va data →
  in_usize start → in_usize (zlen buf) → in_space s start (zlen buf) = true → write start buf s = Ret (Ok tt, s') →
  (data ≠ [] → va + zlen data ≤ start ∨ start + zlen buf ≤ va) → holds s' va data.
Proof.
  intros Hu Hh Hst Hl Hin Hw Hdis. destruct (write_spec s start buf Hu Hst Hl Hin) as (r & s2 & Hw2 & Has & _ & Hout & Hr). rewrite Hw in Hw2. injection Hw2 as <- <-.
  destruct Hr as [Hmb _]. pose proof Hh as (Hva & Hld & Hin' & Hm & Hd). split_and!; [done..|unfold in_space; by rewrite Has|unfold mapped_range; by rewrite Has|].
  intros j Hj. rewrite Has. rewrite <-Hd by done. apply Hout. intros i Hi Heq. destruct (holds_mapped s va data j Hh Hj) as [Hp Hr1].
  destruct Hdis; [by destruct data; cbn in Hj; [lia|]|..]; (apply kaddr_inj in Heq; [lia|done|done| |done|by eapply mapped_page]; unfold in_space in Hin; apply andb_true_iff in Hin as [?%Z.leb_le ?%Z.leb_le]; lia).
Qed.
(** So does mapping other pages. *)
Lemma holds_map_other s s' va data start sz flags pop : uspace_ok s → holds s va data →
  in_usize start → in_usize sz → start + sz < 2 ^ 64 → map_alloc start sz flags pop s = Ret (Ok tt, s') →
  (∀ b, aligned b → page_of va ≤ b < va + zlen data → ¬ in_region start sz b) → holds s' va data.
Proof.
  intros Hu Hh Hst Hsz Hend Hm Hdis. destruct (map_alloc_spec s start sz flags pop Hu Hst Hsz Hend) as (r & s2 & Hm2 & Hu' & Hva & Hg & Hok & _).
  rewrite Hm in Hm2. injection Hm2 as <- <-. destruct (Hok eq_refl) as (Hgr & _). rewrite Hgr in Hg. destruct Hg as (ok & [[Hmb _]|[_ ?]]); [|done].
  assert (∀ b, aligned b → page_of va ≤ b < va + zlen data → page s' b = page s b) as Hpg.
  { intros b Hb Hr. apply (mb_out _ _ _ _ _ _ _ _ _ Hmb); [done|by apply Hdis]. }
  pose proof Hh as (Hv & Hld & Hin & Hmr & Hd). split_and!; [done..|unfold in_space, base, end_ in *; by rewrite Hva| |].
  - intros b Hb Hr. rewrite Hpg by done. by apply Hmr.
  - intros j Hj. rewrite <-Hd by done. destruct (holds_mapped s va data j Hh Hj) as [Hp Hr]. unfold kaddr. rewrite Hpg; [|apply page_of_aligned|].
    2: { pose proof (page_of_bounds (va + Z.of_nat j)). pose proof (page_of_bounds va). split; [|lia]. destruct (decide (page_of va ≤ page_of (va + Z.of_nat j))); [done|].
         destruct (aligned_sep (page_of va) (page_of (va + Z.of_nat j))); [apply page_of_aligned..|lia|lia|lia]. }
    destruct (page s (page_of (va + Z.of_nat j))) as [[[f fl] x]|] eqn:Hpe; [|done].
    apply (mb_mem _ _ _ _ _ _ _ _ _ Hmb f); [|by apply Z.mod_pos_bound]. destruct (uo_range s Hu) as (_ & _ & _ & Ha1 & _).
    eapply (fo_page _ _ _ (uo_frames s Hu)); [apply (page_of_aligned (va + Z.of_nat j))| |exact Hpe]. pose proof (page_of_bounds (va + Z.of_nat j)). split; [|lia].
    destruct (decide (base (sp_as s) ≤ page_of (va + Z.of_nat j))); [done|]. destruct (aligned_sep (base (sp_as s)) (page_of (va + Z.of_nat j))); [done|apply page_of_aligned|lia..].
Qed.

(** ** Reading a segment *)

(** A buffer of [n] bytes that holds the first [i] bytes of [x]. *)
Definition prefix_buf (x : list Z) (n i : nat) : list Z := take i x ++ replicate (n - i) 0.
Lemma fill_prefix x n i bs : (i ≤ length x)%nat → (i + length bs ≤ n)%nat → bs = take (length bs) (drop i x) →
  fill (prefix_buf x n i) (Z.of_nat i) bs = prefix_buf x n (i + length bs).
Proof.
  intros Hi Hn Hbs. unfold fill, prefix_buf. rewrite Nat2Z.id. rewrite take_app_le, take_take, Nat.min_id by (rewrite length_take; lia).
  rewrite drop_app_ge by (rewrite length_take; lia). rewrite length_take, Nat.min_l by done. rewrite drop_replicate, app_assoc. f_equal; [|f_equal; lia].
  rewrite Hbs at 1. rewrite <-take_take_drop. done.
Qed.
Lemma length_prefix_buf x n i : (i ≤ length x)%nat → (i ≤ n)%nat → length (prefix_buf x n i) = n.
Proof. intros Hi Hn. unfold prefix_buf. rewrite length_app, length_take, length_replicate. lia. Qed.

Lemma read_into_spec fuel s f off x (i filesz n : nat) :
  (i ≤ filesz)%nat → (filesz ≤ n)%nat → Z.of_nat n < 2 ^ 64 → 0 ≤ off → x = drop (Z.to_nat off) (file_bytes f) → (filesz ≤ length x)%nat →
  file_pos f = off + Z.of_nat i → (filesz - i < fuel)%nat →
  ∃ r f', read_into fuel (Z.of_nat i) (Z.of_nat filesz) (prefix_buf x n i) (s, f) = Some (Ret (r, (s, f'))) ∧ file_bytes f' = file_bytes f ∧ 0 ≤ file_pos f' ∧
    (∀ v, r = Ok v → v = (Z.of_nat filesz, prefix_buf x n filesz)).
Proof.
  revert i f. induction fuel as [|fuel IH]; intros i f Hi Hn Hn64 Hoff Hx Hfx Hpos Hfuel; [lia|]. cbn [read_into].
  destruct (Z.ltb_spec (Z.of_nat i) (Z.of_nat filesz)) as [Hlt|Hge].
  2: { assert (i = filesz) as -> by lia. eexists _, f. split; [done|]. split_and!; [done|lia|]. by intros v [= <-]. }
  rewrite (proj2 (Z.leb_le _ _)) by (rewrite length_prefix_buf; lia). unfold lm_bind, lm_run, on_file. cbn [fst snd].
  destruct (file_read _ f) as [r f1] eqn:Hr. assert (Hlaw := Hr). apply file_read_law in Hlaw as [Hb Hlaw]; [|lia..]. destruct r as [bs|e].
  2: { eexists _, f1. split; [done|]. by split_and!. }
  destruct Hlaw as (Hl & Hbs & Hp & Hne). assert (Z.of_nat (length x) = zlen (file_bytes f) - off) as Hlx by (rewrite Hx, length_drop in *; lia).
  assert (bs ≠ []) as Hnn by (apply Hne; lia). destruct bs as [|b0 bs0] eqn:Heq; [done|]. rewrite <-Heq in *. assert (0 < length bs)%nat by (rewrite Heq; cbn; lia).
  rewrite uadd_small by lia. rewrite <-Nat2Z.inj_add. rewrite fill_prefix; [|lia|lia|].
  2: { rewrite Hbs at 1. rewrite Hpos, Hx, drop_drop. do 2 f_equal. lia. }
  destruct (IH (i + length bs)%nat f1) as (r & f' & -> & Hb' & Hp' & Hv); [lia|lia|lia|lia|by rewrite Hb|done|lia|lia|]. eexists _, f'. split; [done|]. by rewrite Hb', Hb.
Qed.

(** ** Loading a segment *)

(** The segment is inside the file and does not reach the end of the address space, and the kernel heap has room for it. *)
Definition segment_ok (bytes : list Z) (ph : ProgramHeader) : Prop :=
  0 ≤ p_vaddr ph ∧ p_vaddr ph + p_memsz ph + (PAGE_SIZE_4K - 1) < 2 ^ 64 ∧
  0 ≤ p_offset ph ∧ 0 ≤ p_filesz ph ≤ p_memsz ph ∧ p_offset ph + p_filesz ph ≤ zlen bytes ∧ heap_room (p_memsz ph) = true.
(** What is in memory: the bytes of the file and then zeros. *)
Definition segment_image (bytes : list Z) (ph : ProgramHeader) : list Z :=
  prefix_buf (drop (Z.to_nat (p_offset ph)) bytes) (Z.to_nat (p_memsz ph)) (Z.to_nat (p_filesz ph)).
Definition segment_end (ph : ProgramHeader) : Z := (p_vaddr ph + p_memsz ph + (PAGE_SIZE_4K - 1)) / PAGE_SIZE_4K * PAGE_SIZE_4K.
Definition segment_area (ph : ProgramHeader) : MemoryArea :=
  {| area_start := page_of (p_vaddr ph); area_size := segment_end ph - page_of (p_vaddr ph); area_flags := segment_flags; area_backend := Alloc true |}.

Lemma segment_end_bounds ph : p_vaddr ph + p_memsz ph ≤ segment_end ph < p_vaddr ph + p_memsz ph + PAGE_SIZE_4K.
Proof. unfold segment_end. set (x := p_vaddr ph + p_memsz ph). pose proof (Z.div_mod (x + (PAGE_SIZE_4K - 1)) PAGE_SIZE_4K ltac:(done)). pose proof (Z.mod_pos_bound (x + (PAGE_SIZE_4K - 1)) PAGE_SIZE_4K ltac:(done)). plia. Qed.
Lemma length_segment_image bytes ph : segment_ok bytes ph → zlen (segment_image bytes ph) = p_memsz ph.
Proof. intros (? & ? & ? & ? & ? & ?). unfold segment_image. rewrite length_prefix_buf; [lia| |lia]. rewrite length_drop. lia. Qed.

(** Whatever was in memory outside the pages of an area stays. *)
Definition keeps_outside (x : MemoryArea) s s' : Prop :=
  ∀ va data, holds s va data → (∀ b, aligned b → page_of va ≤ b < va + zlen data → ¬ area_has x b) → holds s' va data.

Lemma page_of_mono a b : a ≤ b → page_of a ≤ page_of b.
Proof.
  intros Hab. pose proof (page_of_bounds a). pose proof (page_of_bounds b). destruct (decide (page_of a ≤ page_of b)); [done|].
  destruct (aligned_sep (page_of a) (page_of b)); [apply page_of_aligned..|lia|lia|lia].
Qed.
(** No page of the bytes is in the area: so neither are the bytes. *)
Lemma outside_disjoint ph va (data : list Z) : 0 < segment_end ph - page_of (p_vaddr ph) → data ≠ [] →
  (∀ b, aligned b → page_of va ≤ b < va + zlen data → ¬ area_has (segment_area ph) b) → va + zlen data ≤ p_vaddr ph ∨ p_vaddr ph + p_memsz ph ≤ va.
Proof.
  intros Hsz Hne Hout. pose proof (segment_end_bounds ph). pose proof (page_of_bounds (p_vaddr ph)). pose proof (page_of_bounds va). unfold area_has in Hout. cbn in Hout.
  destruct (decide (va + zlen data ≤ p_vaddr ph)); [by left|]. destruct (decide (p_vaddr ph + p_memsz ph ≤ va)); [by right|]. exfalso.
  destruct (decide (va ≤ p_vaddr ph)) as [Hle|Hgt].
  - apply (Hout (page_of (p_vaddr ph))); [apply page_of_aligned| |lia]. pose proof (page_of_mono _ _ Hle). lia.
  - apply (Hout (page_of va)); [apply page_of_aligned| |]; [destruct data; cbn [length] in *; [done|lia]|]. pose proof (page_of_mono (p_vaddr ph) va ltac:(lia)). lia.
Qed.

Lemma load_segment_spec fuel s f ph :
  uspace_ok s → segment_ok (file_bytes f) ph → (Z.to_nat (p_filesz ph) < fuel)%nat →
  ∃ r s' f', load_segment fuel ph (s, f) = Some (Ret (r, (s', f'))) ∧ uspace_ok s' ∧ va_range (sp_as s') = va_range (sp_as s) ∧ file_bytes f' = file_bytes f ∧
    (r = Ok tt → holds s' (p_vaddr ph) (segment_image (file_bytes f) ph) ∧ existsb (areas_overlap (segment_area ph)) (area_list s) = false ∧
       area_list s' ≡ₚ segment_area ph :: area_list s ∧ keeps_outside (segment_area ph) s s').
Proof.
  intros Hu Hseg Hfuel. pose proof (length_segment_image _ _ Hseg) as Himg. destruct Hseg as (Hv & Hend & Ho & Hfs & Hof & Hroom). pose proof (segment_end_bounds ph) as Hse. pose proof (page_of_bounds (p_vaddr ph)) as Hpb.
  pose proof (page_of_nonneg _ Hv) as Hp0. unfold load_segment. unfold align_down_4k. rewrite align_down_law by (first [by exists 12 | unfold in_usize; plia]). fold (page_of (p_vaddr ph)).
  rewrite uadd_small by plia. rewrite align_up_law by lia. fold (segment_end ph).
  assert (segment_end ph < 2 ^ 64) as Hse64.
  { unfold segment_end. pose proof (Z.mod_pos_bound (p_vaddr ph + p_memsz ph + (PAGE_SIZE_4K - 1)) PAGE_SIZE_4K ltac:(done)). pose proof (Z.div_mod (p_vaddr ph + p_memsz ph + (PAGE_SIZE_4K - 1)) PAGE_SIZE_4K ltac:(done)). lia. }
  rewrite usub_small by lia. set (start := page_of (p_vaddr ph)) in *. set (sz := segment_end ph - start).
  destruct (map_alloc_spec s start sz segment_flags true Hu) as (r & s1 & Hm & Hu1 & Hva & _ & Hok & _); [unfold in_usize; lia..|lia|].
  unfold lm_bind at 1, lm_run at 1, on_uspace at 1. cbn [fst snd]. rewrite Hm. destruct r as [[]|e]; [|eexists _, s1, f; by split_and!].
  destruct (Hok eq_refl) as (Hg & Hsz0 & Hal & Hno). destruct (good_range_spec s start sz Hu) as (Hlo & Hhi & _); [lia..|done|].
  rewrite Hroom. unfold lm_bind at 1, lm_run at 1, sm_ret at 1. unfold lm_bind at 1, lm_run at 1, on_file at 1. cbn [fst snd]. destruct (file_seek (p_offset ph) f) as [rs f1] eqn:Hs. apply file_seek_law in Hs as [Hb1 Hpos]; [|done].
  destruct rs as [v|e]; [|eexists _, s1, f1; by split_and!].
  destruct (read_into_spec fuel s1 f1 (p_offset ph) (drop (Z.to_nat (p_offset ph)) (file_bytes f1)) 0 (Z.to_nat (p_filesz ph)) (Z.to_nat (p_memsz ph))) as (r & f2 & Hri & Hb2 & _ & Hv2);
    [lia|lia|lia|done|done|rewrite length_drop, Hb1; lia|lia|lia|].
  rewrite Z2Nat.id in Hri by lia. unfold lm_bind at 1. replace (replicate _ 0) with (prefix_buf (drop (Z.to_nat (p_offset ph)) (file_bytes f1)) (Z.to_nat (p_memsz ph)) 0) by (unfold prefix_buf; rewrite take_0, Nat.sub_0_r; done).
  change (Z.of_nat 0) with 0 in Hri. rewrite Hri. destruct r as [w|e]; [|eexists _, s1, f2; split_and!; [done..|by rewrite Hb2, Hb1|done]].
  rewrite (Hv2 w eq_refl), Hb1. cbn [fst snd]. rewrite Z2Nat.id, Z.eqb_refl by lia. fold (segment_image (file_bytes f) ph). unfold lm_run, on_uspace. cbn [fst snd].
  set (img := segment_image (file_bytes f) ph) in *.
  assert (in_usize (p_vaddr ph)) as Hvi by (unfold in_usize; plia). assert (in_usize (zlen img)) as Hli by (unfold in_usize; plia).
  assert (in_space s1 (p_vaddr ph) (zlen img) = true) as Hin.
  { unfold in_space, base, end_ in *. rewrite Hva, Himg. apply andb_true_iff. rewrite !Z.leb_le. lia. }
  destruct (write_spec s1 (p_vaddr ph) img Hu1 Hvi Hli Hin) as (r & s2 & Hw & Has2 & Hal2 & _). rewrite Hw. assert (uspace_ok s2) as Hu2 by (by eapply uspace_ok_mem).
  eexists _, s2, f2. split; [done|]. split_and!; [done|by rewrite Has2|by rewrite Hb2, Hb1|]. intros ->. destruct (holds_written s1 s2 _ _ Hu1 Hvi Hli Hin Hw) as [Hh _].
  split_and!; [done|done|by rewrite Has2|]. intros va data Hd Hout. apply (holds_write_other s1 s2 va data (p_vaddr ph) img); [done| |done..|].
  - apply (holds_map_other s s1 va data start sz segment_flags true Hu Hd); [unfold in_usize; lia..|lia|exact Hm|exact Hout].
  - intros Hne. rewrite Himg. eapply outside_disjoint; [done..|]. intros b Hb Hr. apply (Hout b Hb Hr).
Qed.

(** Bytes inside an area survive a mapping that does not overlap the area. *)
Definition inside (x : MemoryArea) (va : Z) (data : list Z) : Prop := ∀ b, aligned b → page_of va ≤ b < va + zlen data → area_has x b.
Lemma inside_outside x y va data : areas_overlap x y = false → inside y va data → ∀ b, aligned b → page_of va ≤ b < va + zlen data → ¬ area_has x b.
Proof.
  intros Hno Hin b Hb Hr Hx. specialize (Hin b Hb Hr). unfold areas_overlap, area_has in *. apply andb_false_iff in Hno as [?%Z.ltb_ge|?%Z.ltb_ge]; lia.
Qed.
Lemma segment_inside bytes ph : segment_ok bytes ph → inside (segment_area ph) (p_vaddr ph) (segment_image bytes ph).
Proof. intros Hs b Hb Hr. rewrite (length_segment_image _ _ Hs) in Hr. pose proof (segment_end_bounds ph). unfold area_has. cbn. lia. Qed.

Lemma load_segments_spec fuel bytes phs s f :
  uspace_ok s → Forall (segment_ok bytes) phs → Forall (λ ph, Z.to_nat (p_filesz ph) < fuel)%nat phs → file_bytes f = bytes →
  ∃ r s' f', load_segments fuel phs (s, f) = Some (Ret (r, (s', f'))) ∧ uspace_ok s' ∧ va_range (sp_as s') = va_range (sp_as s) ∧
    (r = Ok tt → (∀ ph, ph ∈ phs → holds s' (p_vaddr ph) (segment_image bytes ph)) ∧ area_list s' ≡ₚ (segment_area <$> phs) ++ area_list s ∧
       (∀ x va data, x ∈ area_list s → inside x va data → holds s va data → holds s' va data)).
Proof.
  intros Hu Hok Hfuel Hb. revert s f Hu Hb. induction phs as [|ph phs IH]; intros s f Hu Hb; cbn [load_segments].
  { eexists _, s, f. split_and!; [done..|]. intros _. split_and!; [|done|done]. intros ph Hph. by apply elem_of_nil in Hph. }
  apply Forall_cons in Hok as [Hok1 Hok]. apply Forall_cons in Hfuel as [Hfu1 Hfuel].
  destruct (load_segment_spec fuel s f ph Hu ltac:(by rewrite Hb) Hfu1) as (r & s1 & f1 & Hl & Hu1 & Hva1 & Hb1 & Hr). unfold lm_bind at 1. rewrite Hl.
  destruct r as [[]|e]; [|by eexists _, s1, f1]. destruct (Hr eq_refl) as (Hh & Hno & Har & Hk). rewrite Hb in Hh.
  destruct (IH Hok Hfuel s1 f1 Hu1 ltac:(by rewrite Hb1)) as (r & s2 & f2 & -> & Hu2 & Hva2 & Hr2). eexists _, s2, f2. split_and!; [done..|by rewrite Hva2|]. intros Hok2.
  destruct (Hr2 Hok2) as (Hall & Har2 & Hk2). split_and!.
  - intros ph' [->|Hph]%elem_of_cons; [|by apply Hall]. apply (Hk2 (segment_area ph)); [rewrite Har; apply list_elem_of_here|by apply segment_inside|done].
  - rewrite Har2, Har. cbn. by rewrite Permutation_middle.
  - intros x va data Hx Hi Hd. apply (Hk2 x); [rewrite Har; by apply list_elem_of_further|done|]. apply Hk; [done|]. apply (inside_outside _ x); [|done].
    by apply (overlap_none _ _ Hno).
Qed.

(** loading a program comes back, with fuel for the largest segment, when its segments are inside the
    file. If it succeeds it returns the entry point, the address space is well formed, has one new area of whole pages
    for each segment, and reading any segment gives the bytes of the file followed by zeros, whatever was loaded after it. *)
Theorem load_user_app_correct fuel fname s f phs entry phoff phnum f1 :
  uspace_ok s → file_open fname = Ok f → load_elf_phdrs f = Ret (Ok (phs, entry, phoff, phnum), f1) →
  Forall (segment_ok (file_bytes f1)) phs → Forall (λ ph, Z.to_nat (p_filesz ph) < fuel)%nat phs →
  ∃ r s', load_user_app fuel fname s = Some (Ret (r, s')) ∧ uspace_ok s' ∧
    ∀ e, r = Ok e → e = entry ∧ area_list s' ≡ₚ (segment_area <$> phs) ++ area_list s ∧
      ∀ ph, ph ∈ phs → ∃ data, read (p_vaddr ph) (replicate (Z.to_nat (p_memsz ph)) 0) s' = Ret (Ok tt, data) ∧
        take (Z.to_nat (p_filesz ph)) data = take (Z.to_nat (p_filesz ph)) (drop (Z.to_nat (p_offset ph)) (file_bytes f1)) ∧
        drop (Z.to_nat (p_filesz ph)) data = replicate (Z.to_nat (p_memsz ph - p_filesz ph)) 0.
Proof.
  intros Hu Hop Hph Hok Hfuel. unfold load_user_app. rewrite Hop, Hph. destruct (load_segments_spec fuel _ phs s f1 Hu Hok Hfuel eq_refl) as (r & s' & f2 & -> & Hu' & _ & Hr).
  destruct r as [[]|e]; [|by eexists _, s']. destruct (Hr eq_refl) as (Hall & Har & _). eexists _, s'. split; [done|]. split; [done|]. intros e [= <-]. split_and!; [done..|].
  intros ph Hin. exists (segment_image (file_bytes f1) ph). pose proof (proj1 (Forall_forall _ _) Hok ph Hin) as Hs. pose proof (length_segment_image _ _ Hs) as Hl.
  destruct Hs as (_ & _ & ? & ? & ? & _). assert (length (take (Z.to_nat (p_filesz ph)) (drop (Z.to_nat (p_offset ph)) (file_bytes f1))) = Z.to_nat (p_filesz ph)) as Hlt.
  { rewrite length_take, length_drop. lia. }
  split_and!.
  - rewrite <-Hl, Nat2Z.id. by apply holds_read, Hall.
  - unfold segment_image, prefix_buf. by rewrite take_app_length'.
  - unfold segment_image, prefix_buf. rewrite drop_app_length' by done. f_equal. lia.
Qed.

(** ** The program headers *)

Lemma fill_zeros n bs : (length bs ≤ n)%nat → fill (replicate n 0) 0 bs = bs ++ replicate (n - length bs) 0.
Proof. intros Hl. unfold fill. cbn. by rewrite drop_replicate. Qed.
(** The head of a file, padded with zeros. *)
Lemma get_bytes_head data n start end_ x : 0 ≤ start → end_ ≤ Z.of_nat n → get_bytes data start end_ = Ok x →
  get_bytes (fill (replicate n 0) 0 (take n data)) start end_ = Ok x.
Proof.
  intros Hs He. rewrite fill_zeros by (rewrite length_take; lia). unfold get_bytes, slice. rewrite length_take.
  destruct (Z.leb_spec start end_), (Z.leb_spec end_ (len data)); cbn [andb ok_or]; intros [= <-]. rewrite (proj2 (Z.leb_le end_ _)); [cbn [ok_or andb]|].
  2: { unfold len. rewrite length_app, length_take, length_replicate. lia. }
  f_equal. unfold len in *.  apply list_eq. intros i.
  destruct (decide (i < Z.to_nat (end_ - start))%nat) as [Hi|Hi].
  - rewrite !lookup_take_lt, !lookup_drop by done. rewrite lookup_app_l by (rewrite length_take; lia). by rewrite lookup_take_lt by lia.
  - rewrite !lookup_take_ge; [done|lia..].
Qed.
Lemma parse_elf_header_head data n ehdr : 64 ≤ Z.of_nat n → parse_elf_header (E := AnyEndian) data = Ret (Ok ehdr) →
  parse_elf_header (E := AnyEndian) (fill (replicate n 0) 0 (take n data)) = Ret (Ok ehdr).
Proof.
  intros Hn. unfold parse_elf_header, pr_bind at 1. destruct (get_bytes data 0 EI_NIDENT) as [ib|e] eqn:Hg; [|done]. unfold pr_bind at 3.
  rewrite (get_bytes_head data n 0 EI_NIDENT ib) by (done || unfold EI_NIDENT; lia). unfold pr_bind at 1 4. destruct (parse_ident ib) as [[id|e]|]; [|done|done].
  unfold pr_bind at 1. destruct (get_bytes data EI_NIDENT _) as [tb|e] eqn:Hg2; [|done]. unfold pr_bind. erewrite get_bytes_head; [done|done| |exact Hg2].
  destruct (id.1.1.2); unfold EI_NIDENT, ELF32_EHDR_TAILSIZE, ELF64_EHDR_TAILSIZE; lia.
Qed.

(** the loader and the ELF library agree. When reads return all there is, the header of the file
    parses and [ElfBytes::segments] has a table of at most a page, [load_elf_phdrs] returns the entry point and
    exactly the entries of that table that are [PT_LOAD] or [PT_INTERP], in order. *)
Theorem loader_phdrs_agree f ehdr t :
  (∀ n f, 0 ≤ n → 0 ≤ file_pos f → ∃ f', file_read n f = (Ok (take (Z.to_nat n) (drop (Z.to_nat (file_pos f)) (file_bytes f))), f')) →
  (∀ off f, 0 ≤ off → ∃ f', file_seek off f = (Ok off, f')) →
  slice_ok (file_bytes f) → bytes_ok (file_bytes f) → file_pos f = 0 →
  parse_elf_header (file_bytes f) = Ret (Ok ehdr) → find_phdrs ehdr (file_bytes f) = Ret (Ok (Some t)) →
  e_phnum ehdr ≠ PN_XNUM → 0 < len (table_data t) ≤ PAGE_SIZE_4K → heap_room (len (table_data t)) = true →
  ∃ l f', table_items t = Ret l ∧
    load_elf_phdrs f = Ret (Ok (filter (λ ph, p_type ph = PT_LOAD ∨ p_type ph = PT_INTERP) l, e_entry ehdr, e_phoff ehdr, e_phnum ehdr), f').
Proof.
  intros Hfull Hseek Hso Hbo Hpos Hh Hf Hx Hsz Hroom. set (C := file_bytes f) in *.
  assert (header_nonneg ehdr) as Hnn by (destruct (parse_elf_header_spec C Hso Hbo) as (r & Hr & Hn); rewrite Hh in Hr; injection Hr as <-; by apply Hn).
  destruct (find_phdrs_spec ehdr C Hso Hbo Hnn) as (r & Hr & Ht). rewrite Hf in Hr. injection Hr as <-. destruct (Ht _ eq_refl) as (_ & Hes & n & Hn & Hn0 & Hte & Htc & Hle & Hsl).
  unfold phnum_of in Hn. rewrite (proj2 (Z.eqb_neq _ _)) in Hn by done. subst n. set (size := e_phnum ehdr * size_for ProgramHeader (class ehdr)) in *.
  destruct Hnn as (Hpo & _ & Hpn & _). assert (len (table_data t) = size) as Hlt by (apply slice_len in Hsl as (-> & _); lia).
  assert (table_data t = take (Z.to_nat size) (drop (Z.to_nat (e_phoff ehdr)) C)) as Htd.
  { unfold slice in Hsl. destruct (_ && _); [|done]. injection Hsl as <-. do 2 f_equal. lia. }
  assert (slice_ok (table_data t)) as Hst by (unfold slice_ok; unfold PAGE_SIZE_4K in *; lia). destruct (table_items_spec t Hst) as (l & Hl & _).
  unfold load_elf_phdrs. destruct (Hfull ELF_HEAD_BUF_SIZE f) as [f1 Hr1]; [done|lia|]. rewrite Hr1. assert (Hl1 := Hr1). apply file_read_law in Hl1 as [Hb1 _]; [|done|lia].
  rewrite Hpos, drop_0. rewrite (parse_elf_header_head C _ ehdr) by done. cbn [unwrap_pr]. unfold validate_entsize. rewrite Hes, Z.eqb_refl.
  unfold checked_mul. rewrite (Z.mul_comm (size_for _ _)). fold size. rewrite (proj2 (Z.ltb_lt size _)) by (unfold PAGE_SIZE_4K in *; lia).
  rewrite (proj2 (Z.ltb_lt 0 size)), (proj2 (Z.leb_le size _)) by lia. rewrite <-Hlt, Hroom, Hlt. cbn [andb]. destruct (Hseek (e_phoff ehdr) f1) as [f2 Hs2]; [lia|]. rewrite Hs2.
  apply file_seek_law in Hs2 as [Hb2 Hp2]; [|lia]. destruct (Hfull size f2) as [f3 ->]; [lia|lia|]. rewrite Hp2, Hb2, Hb1. fold C. rewrite <-Htd.
  rewrite fill_zeros by (unfold len in *; lia). replace (Z.to_nat size - length (table_data t))%nat with 0%nat by (unfold len in *; lia). cbn [replicate]. rewrite app_nil_r.
  rewrite <-Hte, <-Htc. replace (Build_ParsingTable (table_endian t) (table_class t) (table_data t)) with t by (by destruct t). rewrite Hl. by exists l, f3.
Qed.

(** ** A file that ends inside a segment *)

Lemma read_into_stuck fuel s f index filesz data :
  (∀ n f, ∃ bs f', file_read n f = (Ok bs, f')) → 0 ≤ index → 0 ≤ file_pos f → filesz ≤ zlen data → zlen data < 2 ^ 64 →
  index + (zlen (file_bytes f) - file_pos f) < filesz → index < filesz → read_into fuel index filesz data (s, f) = None.
Proof.
  intros Hrd. revert f index data. induction fuel as [|fuel IH]; intros f index data Hi Hp Hfd Hd Hend Hlt; [done|]. cbn [read_into].
  rewrite (proj2 (Z.ltb_lt _ _)), (proj2 (Z.leb_le _ _)) by lia. unfold lm_bind, lm_run, on_file. cbn [fst snd]. destruct (Hrd (filesz - index) f) as (bs & f' & Hr). rewrite Hr.
  apply file_read_law in Hr as (Hb & Hl & Hbs & Hp' & _); [|lia..]. apply (f_equal length) in Hbs. rewrite length_take, length_drop in Hbs.
  rewrite uadd_small by lia.
  assert (length (fill data index bs) = length data) as Hlf.
  { unfold fill. rewrite !length_app, length_take, length_drop. lia. }
  apply IH; rewrite ?Hlf, ?Hb; lia.
Qed.
(** a file that ends inside a segment hangs the loader. A read at the end of the file returns no bytes and
    no error, the index does not move, and the loop goes on: however long it runs, [load_user_app] has not come back. *)
Theorem truncated_app_never_loads fuel fname s f ph phs entry phoff phnum f1 s' :
  (∀ n f, ∃ bs f', file_read n f = (Ok bs, f')) → (∀ off f, ∃ f', file_seek off f = (Ok off, f')) →
  file_open fname = Ok f → load_elf_phdrs f = Ret (Ok (ph :: phs, entry, phoff, phnum), f1) →
  0 ≤ p_offset ph ≤ zlen (file_bytes f1) → 0 ≤ p_filesz ph ≤ p_memsz ph → p_memsz ph < 2 ^ 64 → zlen (file_bytes f1) < p_offset ph + p_filesz ph → heap_room (p_memsz ph) = true →
  map_alloc (align_down_4k (p_vaddr ph)) (usub (align_up_4k (uadd (p_vaddr ph) (p_memsz ph))) (align_down_4k (p_vaddr ph))) segment_flags true s = Ret (Ok tt, s') →
  load_user_app fuel fname s = None.
Proof.
  intros Hrd Hsk Hop Hph Ho Hfs Hms Htr Hroom Hm. unfold load_user_app. rewrite Hop, Hph. cbn [load_segments]. unfold load_segment, lm_bind at 1, lm_bind at 1, lm_run at 1, on_uspace at 1.
  cbn [fst snd]. rewrite Hm, Hroom. unfold lm_bind at 1, lm_run at 1, sm_ret at 1. unfold lm_bind at 1, lm_run at 1, on_file at 1. cbn [fst snd]. destruct (Hsk (p_offset ph) f1) as [f2 Hs2]. rewrite Hs2.
  apply file_seek_law in Hs2 as [Hb2 Hp2]; [|lia]. unfold lm_bind at 1. rewrite read_into_stuck; [done|done|lia|lia|rewrite length_replicate; lia|rewrite length_replicate; lia|rewrite Hb2; lia|lia].
Qed.

(** ** The stack *)

Section stack.
(** The stack region is laid out inside the range it is given. *)
Context (app_stack_region : Z → Z → list Z * Z)
  (stack_region_law : ∀ v data sp, app_stack_region v USER_STACK_SIZE = (data, sp) → v ≤ sp ∧ sp + zlen data ≤ v + USER_STACK_SIZE).

Lemma init_user_stack_spec s top s' : uspace_ok s → USER_STACK_SIZE ≤ end_ (sp_as s) → init_user_stack app_stack_region true s = Ret (Ok top, s') →
  let v := end_ (sp_as s) - USER_STACK_SIZE in
  uspace_ok s' ∧ top = snd (app_stack_region v USER_STACK_SIZE) ∧ holds s' top (fst (app_stack_region v USER_STACK_SIZE)) ∧
  ∀ x va data, x ∈ area_list s → inside x va data → area_start x ≤ va → va + zlen data ≤ area_start x + area_size x → holds s va data → holds s' va data.
Proof.
  intros Hu Hsz Hi v. destruct (uo_range s Hu) as (Hb0 & Hb1 & Hb2 & _). unfold USER_STACK_SIZE in Hsz. unfold init_user_stack in Hi. rewrite usub_small in Hi by (unfold USER_STACK_SIZE; lia).
  fold v in Hi. set (fl := Z.lor _ _) in Hi. assert (in_usize v ∧ v + USER_STACK_SIZE = end_ (sp_as s)) as [Hv Hve] by (unfold in_usize, v, USER_STACK_SIZE; lia).
  destruct (map_alloc_spec s v USER_STACK_SIZE fl true Hu Hv) as (r & s1 & Hm & Hu1 & Hva & _ & Hok & _); [done|lia|]. rewrite Hm in Hi. destruct r as [[]|e]; [|done].
  destruct (Hok eq_refl) as (Hg & _ & Har & Hno). destruct (good_range_spec s v USER_STACK_SIZE Hu) as (Hlo & Hhi & _); [unfold in_usize in Hv; lia|done|done|].
  destruct (app_stack_region v USER_STACK_SIZE) as [data sp] eqn:Hreg. apply stack_region_law in Hreg as [Hsp1 Hsp2]. cbn [fst snd].
  assert (in_usize sp) as Hspi by (unfold in_usize in *; lia). assert (in_usize (zlen data)) as Hdi by (unfold in_usize, USER_STACK_SIZE in *; lia).
  assert (in_space s1 sp (zlen data) = true) as Hin by (unfold in_space, base, end_ in *; rewrite Hva; apply andb_true_iff; rewrite !Z.leb_le; lia).
  unfold sm_bind in Hi. destruct (write sp data s1) as [[[[]|e] s2]|] eqn:Hw; [|done|done]. injection Hi as <- <-.
  destruct (holds_written s1 s2 sp data Hu1 Hspi Hdi Hin Hw) as (Hh & Has & Hal). split_and!; [by eapply uspace_ok_mem|done|done|].
  intros x va d Hx Hins Hx1 Hx2 Hd. pose proof (overlap_none _ _ Hno x Hx) as Hox. apply (holds_write_other s1 s2 va d sp data); [done| |done..|].
  - apply (holds_map_other s s1 va d v USER_STACK_SIZE fl true); [done|done|done|done|lia|done|]. intros b Hb Hr. exact (inside_outside _ x va d Hox Hins b Hb Hr).
  - intros _. unfold areas_overlap in Hox. cbn in Hox. apply andb_false_iff in Hox as [?%Z.ltb_ge|?%Z.ltb_ge]; lia.
Qed.

(** C7: [main] up to the spawning of the task comes back when the segments are inside the file; when it has not
    panicked the task starts at the entry point with the stack pointer of the stack region, the address space is well formed,
    the contents of the stack are at the stack pointer, and every segment of the program is still in memory. *)
Theorem user_app_prepared fuel fname s f phs entry phoff phnum f1 :
  uspace_ok s → USER_STACK_SIZE ≤ end_ (sp_as s) → file_open fname = Ok f → load_elf_phdrs f = Ret (Ok (phs, entry, phoff, phnum), f1) →
  Forall (segment_ok (file_bytes f1)) phs → Forall (λ ph, Z.to_nat (p_filesz ph) < fuel)%nat phs →
  ∃ o, prepare_user_app app_stack_region fuel fname s = Some o ∧
    ∀ e sp s', o = Ret (e, sp, s') →
      let stack := app_stack_region (end_ (sp_as s) - USER_STACK_SIZE) USER_STACK_SIZE in
      e = entry ∧ sp = snd stack ∧ uspace_ok s' ∧ read sp (replicate (length (fst stack)) 0) s' = Ret (Ok tt, fst stack) ∧
      ∀ ph, ph ∈ phs → read (p_vaddr ph) (replicate (Z.to_nat (p_memsz ph)) 0) s' = Ret (Ok tt, segment_image (file_bytes f1) ph).
Proof.
  intros Hu Hsz Hop Hph Hok Hfuel. unfold prepare_user_app, load_user_app. rewrite Hop, Hph.
  destruct (load_segments_spec fuel _ phs s f1 Hu Hok Hfuel eq_refl) as (r & s1 & f2 & Hls & Hu1 & Hva & Hr). rewrite Hls. destruct r as [[]|e]; cbn [fst snd]; [|by eexists].
  eexists. split; [done|]. intros e sp s' Ho. destruct (init_user_stack _ _ s1) as [[[top|]s2]|] eqn:Hi; [|done|done]. injection Ho as <- <- <-. destruct (Hr eq_refl) as (Hall & Har & _).
  assert (end_ (sp_as s1) = end_ (sp_as s)) as He by (unfold end_; by rewrite Hva). rewrite <-He in *.
  apply init_user_stack_spec in Hi as (Hu2 & -> & Hst & Hk); [|done|done]. split_and!; [done..|by apply holds_read|].
  intros ph Hin. pose proof (proj1 (Forall_forall _ _) Hok ph Hin) as Hs. pose proof (length_segment_image _ _ Hs) as Hl. rewrite <-Hl, Nat2Z.id. apply holds_read; [done|].
  pose proof (segment_end_bounds ph). pose proof (page_of_bounds (p_vaddr ph)). apply (Hk (segment_area ph)); [|by apply segment_inside|cbn; lia|rewrite Hl; cbn; lia|by apply Hall].
  rewrite Har. apply elem_of_app. left. by apply list_elem_of_fmap_2.
Qed.
End stack.
End properties.
