(* ===== verification/SysDemo.v ===== *)
(** The monolithic kernel of [exercises/sys_map] running: one file behind the POSIX
    calls, a program of two segments, and the theorems of [SysMap.v] and [SysLoader.v]
    applied to them on the address space of [AxmmDemo.v]. *)

From stdpp Require Import prelude gmap list.
From Stdlib Require Import ZArith Lia.
From S2P Require Import Prelude Axalloc Axmm AxmmProps AxmmSpace AxmmCalls AxmmDemo FdTable AxfsDemo SysMap ElfParse ElfBytes SysLoader.
Local Open Scope Z_scope.
Local Open Scope kernel_scope.

(** ** Calls on a file *)

(** The bytes and the position of descriptor 3. *)
Record one_file : Type := { of_bytes : list Z; of_pos : Z }.
Definition of_seek (off : Z) (f : one_file) : one_file := {| of_bytes := of_bytes f; of_pos := off |}.
Definition of_read (n : Z) (f : one_file) : list Z := take (Z.to_nat n) (drop (Z.to_nat (of_pos f)) (of_bytes f)).
#[export] Instance demo_api : PosixApi one_file demo_space_t := {|
  api_user _ u f := Ret (0, u, f);
  api_lseek fd off whence f :=
    if fd =? 3 then let pos := if whence =? SEEK_SET then off else of_pos f + off in Ret (pos, of_seek pos f) else Ret (-9, f);
  api_read fd n f := if fd =? 3 then let data := of_read n f in Ret (Z.of_nat (length data), data, of_seek (of_pos f + Z.of_nat (length data)) f) else Ret (-9, [], f);
|}.
Lemma demo_lseek_returns fd off wh (f : one_file) : ∃ r, api_lseek fd off wh f = Ret r.
Proof. cbn. destruct (fd =? 3); by eexists. Qed.
Lemma demo_read_returns fd n (f : one_file) : ∃ r, api_read fd n f = Ret r.
Proof. cbn. destruct (fd =? 3); by eexists. Qed.
Lemma demo_read_law fd n (f : one_file) r data f' : 0 ≤ n → api_read fd n f = Ret (r, data, f') → 0 ≤ r → r = Z.of_nat (length data) ∧ r ≤ n.
Proof.
  intros Hn. cbn. destruct (fd =? 3); intros [= <- <- <-] Hr; [|lia]. split; [done|]. unfold of_read. rewrite length_take. lia.
Qed.

Definition demo_process (bytes : list Z) : process region_alloc page_bump demo_pt demo_set one_file :=
  {| pr_space := demo_space 16; pr_files := {| of_bytes := bytes; of_pos := 1 |}; clear_child_tid := 0; pr_id := 5 |}.
Definition no_errno (_ : Z) : option LinuxError.t := None.


Definition wrap_args : args := {| arg0 := 2 ^ 64 - 0x1000; arg1 := 0x1000; arg2 := PROT_READ; arg3 := Z.lor MAP_ANONYMOUS MAP_FIXED; arg4 := 2 ^ 64 - 1; arg5 := 0 |}.
Lemma mmap_wrap_witness : handle_syscall (linux_try_from := no_errno) (errnos := std_errnos) wrap_args SYS_MMAP (demo_process []) = Panic.
Proof. apply (mmap_fixed_wrap_panics (errnos := std_errnos) no_errno); [by apply demo_space_ok|done|done|done|by repeat split; auto|done|done]. Defined.

(** Descriptor 4 is not open. *)
Lemma mmap_failed_witness :
  ∃ e p', sys_mmap (linux_try_from := no_errno) (errnos := std_errnos) 0 3 PROT_READ MAP_PRIVATE 4 0 (demo_process []) = Ret (- errno (AxErrno := std_errnos) e, p') ∧ length (ms_areas (areas (sp_as (pr_space p')))) = 1%nat.
Proof.
  destruct (mmap_failed_file_stays_mapped (errnos := std_errnos) no_errno (demo_process []) 0 3 PROT_READ MAP_PRIVATE 4 0 0
    (AxmmDemo.after (map_alloc 0 (page_up 3) (mapping_flags_of_prot PROT_READ) true (demo_space 16)) (demo_space 16)) (-9) {| of_bytes := []; of_pos := 1 |}) as (e & p' & Hm & _ & Hl);
    [split_and!; [done..|by right]|done|done|by apply demo_space_ok|done|done|apply AxmmDemo.after_ok; vm_compute; done|done|done|].
  exists e, p'. split; [done|]. by rewrite Hl.
Defined.

(** ** A program *)

(** Two segments of which the second crosses a page boundary. *)
Definition app_ehdr : FileHeader AnyEndian := Build_FileHeader AnyEndian ELF64 Little 1 0 0 2 243 0x1004 64 0 0 64 56 3 64 0 0.
Definition app_text : ProgramHeader := Build_ProgramHeader PT_LOAD 232 0x1000 0x1000 5 8 5 0x1000.
Definition app_data : ProgramHeader := Build_ProgramHeader PT_LOAD 237 0x2ffe 0x2ffe 4 4 6 0x1000.
Definition app_note : ProgramHeader := Build_ProgramHeader PT_NOTE 232 0 0 4 4 4 4.
Definition app_file : bytes := encode_ehdr 1 app_ehdr ++ encode_table Little ELF64 [app_note; app_text; app_data] ++ [1; 2; 3; 4; 5; 6; 7; 8; 9].
#[export] Instance demo_app_file : AppFile one_file := {|
  file_open name :=
    match name with
    | [1] => Ok {| of_bytes := app_file; of_pos := 0 |}
    | [2] => Ok {| of_bytes := take 235 app_file; of_pos := 0 |}
    | _ => Err AxError.NotFound
    end;
  file_read n f := (Ok (of_read n f), of_seek (of_pos f + Z.of_nat (length (of_read n f))) f);
  file_seek off f := (Ok off, of_seek off f);
  file_bytes := of_bytes;
  file_pos := of_pos;
|}.
#[export] Instance demo_app_file_laws : AppFileLaws one_file.
Proof.
  split.
  - intros n f r f' Hn Hp [= <- <-]. cbn. split; [done|]. unfold of_read. split_and!; [rewrite length_take; lia| |done|].
    + rewrite length_take. destruct (decide (Z.to_nat n ≤ length (drop (Z.to_nat (of_pos f)) (of_bytes f)))%nat); [by rewrite Nat.min_l|].
      rewrite Nat.min_r by lia. rewrite !take_ge by lia. done.
    + intros H1 H2 He. apply (f_equal length) in He. rewrite length_take, length_drop in He. change (length (@nil Z)) with 0%nat in He. change (file_pos f) with (of_pos f) in Hp. lia.
  - by intros off f r f' Ho [= <- <-].
Qed.

Lemma app_phdrs : load_elf_phdrs {| of_bytes := app_file; of_pos := 0 |} = Ret (Ok ([app_text; app_data], 0x1004, 64, 3), of_seek 232 {| of_bytes := app_file; of_pos := 0 |}).
Proof. vm_compute. reflexivity. Qed.
Lemma app_segments_ok : Forall (segment_ok app_file) [app_text; app_data].
Proof. repeat apply Forall_cons_2; [..|by apply Forall_nil_2]; split_and!; vm_compute; done. Qed.
Lemma app_fuel : Forall (λ ph, Z.to_nat (p_filesz ph) < 6)%nat [app_text; app_data].
Proof. repeat apply Forall_cons_2; [..|by apply Forall_nil_2]; cbn; lia. Qed.

Lemma load_app_witness : ∃ s', load_user_app 6 [1] (demo_space 16) = Some (Ret (Ok 0x1004, s')) ∧ read 0x1000 (replicate 8 0) s' = Ret (Ok tt, [1; 2; 3; 4; 5; 0; 0; 0]).
Proof.
  destruct (load_user_app_correct 6 [1] (demo_space 16) _ [app_text; app_data] 0x1004 64 3 _ ltac:(by apply demo_space_ok) eq_refl app_phdrs app_segments_ok app_fuel) as (r & s' & Hl & _ & Hr).
  assert (match load_user_app 6 [1] (demo_space 16) with Some (Ret (Ok _, _)) => true | _ => false end = true) as Hok by (vm_compute; done).
  rewrite Hl in Hok. destruct r as [e|]; [|done]. destruct (Hr e eq_refl) as (-> & _ & Hs). exists s'. split; [done|].
  destruct (Hs app_text ltac:(apply list_elem_of_here)) as (data & Hrd & Ht & Hd). cbn [p_vaddr p_memsz app_text] in Hrd. change (Z.to_nat 8) with 8%nat in Hrd. rewrite Hrd. do 2 f_equal.
  rewrite <-(take_drop 5 data). cbn [p_filesz app_text] in Ht, Hd. change (Z.to_nat 5) with 5%nat in *. rewrite Ht, Hd. vm_compute. reflexivity.
Defined.

Definition app_table : ParsingTable AnyEndian ProgramHeader := Build_ParsingTable Little ELF64 (encode_table Little ELF64 [app_note; app_text; app_data]).
Lemma app_phdrs_witness : ∃ l f', table_items app_table = Ret l ∧
  load_elf_phdrs {| of_bytes := app_file; of_pos := 0 |} = Ret (Ok (filter (λ ph, p_type ph = PT_LOAD ∨ p_type ph = PT_INTERP) l, 0x1004, 64, 3), f').
Proof.
  apply (loader_phdrs_agree {| of_bytes := app_file; of_pos := 0 |} app_ehdr app_table).
  - intros n f _ _. by eexists.
  - intros off f _. by eexists.
  - vm_compute. done.
  - vm_compute. repeat (constructor; [split; [discriminate|reflexivity]|]). constructor.
  - done.
  - vm_compute. reflexivity.
  - vm_compute. reflexivity.
  - done.
  - vm_compute. split; [done|discriminate].
  - vm_compute. done.
Defined.

(** The file that ends inside its first segment. *)
Lemma truncated_witness : load_user_app 1000 [2] (demo_space 16) = None.
Proof.
  apply (truncated_app_never_loads 1000 [2] (demo_space 16) {| of_bytes := take 235 app_file; of_pos := 0 |} app_text [app_data] 0x1004 64 3
    (of_seek 232 {| of_bytes := take 235 app_file; of_pos := 0 |}) (AxmmDemo.after (map_alloc 0x1000 0x1000 segment_flags true (demo_space 16)) (demo_space 16)));
    [intros; by eexists _, _|intros; by eexists|done|vm_compute; reflexivity|vm_compute; split; discriminate|done|done|vm_compute; done|done|].
  apply AxmmDemo.after_ok. vm_compute. done.
Defined.

(** The stack holds one word at its top. *)
Definition demo_stack (v size : Z) : list Z * Z := ([1; 0; 0; 0], v + size - 4).
Lemma prepared_witness : ∃ sp s', prepare_user_app demo_stack 6 [1] (demo_space 64) = Some (Ret (0x1004, sp, s')) ∧
  read sp (replicate 4 0) s' = Ret (Ok tt, [1; 0; 0; 0]) ∧ read 0x2ffe (replicate 4 0) s' = Ret (Ok tt, [6; 7; 8; 9]).
Proof.
  destruct (user_app_prepared demo_stack ltac:(intros v data sp [= <- <-]; unfold USER_STACK_SIZE; cbn [length]; lia) 6 [1] (demo_space 64) _ [app_text; app_data] 0x1004 64 3 _ ltac:(by apply demo_space_ok) ltac:(done) eq_refl
    app_phdrs app_segments_ok app_fuel) as (o & Hp & Hr).
  assert (match prepare_user_app demo_stack 6 [1] (demo_space 64) with Some (Ret _) => true | _ => false end = true) as Hok by (vm_compute; done).
  rewrite Hp in Hok. destruct o as [[[e sp] s']|]; [|done]. destruct (Hr e sp s' eq_refl) as (-> & -> & _ & Hst & Hs). eexists _, s'. split; [exact Hp|]. split; [exact Hst|].
  assert (segment_image app_file app_data = [6; 7; 8; 9]) as Hi by (vm_compute; reflexivity). rewrite <-Hi. apply (Hs app_data). apply list_elem_of_further, list_elem_of_here.
Defined.
