(* ===== verification/ElfStream.v ===== *)
(** The stream interface of the ELF parser: [modules/elf/src/elf_stream.rs].

    [ElfStream] reads a file through [Read + Seek], parses the header tables when it is
    opened and keeps every range it reads in a cache.  The reader is any type with the
    operations of the class [ReadSeek].  The theorems: over a reader of a fixed file,
    [ElfStream] opens the files [ElfBytes] opens, with the same headers, and its
    accessors agree with those of [ElfBytes]; over any reader, whatever it returns, the
    cache never misses and no accessor panics. *)

From S2P Require Import Prelude ElfParse ElfHash ElfNote ElfSymver ElfBytes.
From stdpp Require Import prelude gmap list.
From Stdlib Require Import ZArith Lia.
Local Open Scope Z_scope.
Local Open Scope kernel_scope.

(** ** Readers *)

(** [seek(SeekFrom::End(0))], [seek(SeekFrom::Start(p))] and [read_exact] into a buffer
    of [n] bytes; [None] is an [io::Error]. *)
Class ReadSeek (R : Type) : Type := {
  seek_end : R → option Z * R;
  seek_start : Z → R → option Z * R;
  read_exact : Z → R → option bytes * R;
}.

(** What the types say of any reader: [read_exact] fills the buffer it is given with
    bytes; the length of a stream is that of a file, an [i64]. *)
Class ReaderTypes (R : Type) `{ReadSeek R} : Prop := {
  read_fills : ∀ n r b r', 0 ≤ n → read_exact n r = (Some b, r') → len b = n ∧ bytes_ok b;
  stream_length : ∀ r n r', seek_end r = (Some n, r') → 0 ≤ n < 2 ^ 63;
}.

(** A reader of a file with the contents [data]: it can be positioned anywhere, and
    reads from its position. *)
Class ReaderOf (R : Type) `{ReadSeek R} (data : bytes) : Type := {
  reader_ok : R → Prop;
  reader_at : Z → R → Prop;
  reader_at_ok : ∀ p r, reader_at p r → reader_ok r;
  seek_end_ok : ∀ r, reader_ok r → ∃ r', seek_end r = (Some (len data), r') ∧ reader_ok r';
  seek_start_ok : ∀ p r, reader_ok r → 0 ≤ p → ∃ r', seek_start p r = (Some p, r') ∧ reader_at p r';
  read_exact_ok : ∀ p n r, reader_at p r → 0 ≤ p → 0 ≤ n → p + n ≤ len data →
    ∃ r', read_exact n r = (Some (take (Z.to_nat n) (drop (Z.to_nat p) data)), r') ∧ reader_at (p + n) r';
}.

(** ** [CachingReader] *)

Record CachingReader (R : Type) : Type := {
  cr_reader : R;
  cr_stream_len : Z;
  cr_bufs : gmap (Z * Z) bytes;
}.
Arguments Build_CachingReader {R} _ _ _.
Arguments cr_reader {R} _.
Arguments cr_stream_len {R} _.
Arguments cr_bufs {R} _.

Record ElfStream (E R : Type) : Type := {
  se_ehdr : FileHeader E;
  se_shdrs : list SectionHeader;
  se_phdrs : list ProgramHeader;
  se_reader : CachingReader R;
}.
Arguments Build_ElfStream {E R} _ _ _ _.
Arguments se_ehdr {E R} _.
Arguments se_shdrs {E R} _.
Arguments se_phdrs {E R} _.
Arguments se_reader {E R} _.

(** A computation that does not use the state. *)
Definition sm_pure {S A} (m : PR A) : SM S ParseError A := λ s,
  match m with Ret r => Ret (r, s) | Panic => Panic end.

Section caching_reader.
Context {R : Type} `{ReadSeek R}.
Abbreviation C := (SM (CachingReader R) ParseError).

Definition CachingReader_new (reader : R) : result (CachingReader R) ParseError :=
  match seek_end reader with
  | (Some stream_len, reader) => Ok (Build_CachingReader reader stream_len ∅)
  | (None, _) => Err IOError
  end.

(** [expect]: the range must have been loaded. *)
Definition cr_get_bytes (start end_ : Z) : C bytes := λ c,
  match cr_bufs c !! (start, end_) with
  | Some buf => Ret (Ok buf, c)
  | None => Panic
  end.

Definition with_reader (r : R) (c : CachingReader R) : CachingReader R :=
  Build_CachingReader r (cr_stream_len c) (cr_bufs c).
Definition range_len (start end_ : Z) : Z := if start <? end_ then end_ - start else 0.
(** [vec![0; n]] panics above [isize::MAX]. *)
Definition load_bytes (start end_ : Z) : C unit := λ c,
  match cr_bufs c !! (start, end_) with
  | Some _ => Ret (Ok tt, c)
  | None =>
      if cr_stream_len c <? end_ then Ret (Err (BadOffset end_), c)
      else
        match seek_start start (cr_reader c) with
        | (None, r) => Ret (Err IOError, with_reader r c)
        | (Some _, r) =>
            if 2 ^ 63 <=? range_len start end_ then Panic
            else
              match read_exact (range_len start end_) r with
              | (None, r) => Ret (Err IOError, with_reader r c)
              | (Some bytes, r) =>
                  Ret (Ok tt, Build_CachingReader r (cr_stream_len c) (<[(start, end_) := bytes]> (cr_bufs c)))
              end
        end
  end.
Definition read_bytes (start end_ : Z) : C bytes :=
  do! load_bytes start end_ in cr_get_bytes start end_.
Definition clear_cache (c : CachingReader R) : CachingReader R :=
  Build_CachingReader (cr_reader c) (cr_stream_len c) ∅.

(** ** Opening *)

Context {E : Type} `{EndianParse E}.

(** Entry 0 of the section header table, read from a buffer of its own. *)
Definition parse_shdr0 (ehdr : FileHeader E) (data : bytes) : C SectionHeader :=
  sm_pure (fst <$> SectionHeader_parse_at (endianness ehdr) (class ehdr) data 0).

Definition parse_section_headers (ehdr : FileHeader E) : C (list SectionHeader) :=
  if e_shoff ehdr =? 0 then sm_ret []
  else
    let! entsize := sm_lift (validate_entsize SectionHeader (class ehdr) (e_shentsize ehdr)) in
    let shoff := e_shoff ehdr in
    let! shnum :=
      if e_shnum ehdr =? 0 then
        let! end_ := sm_lift (ok_or (checked_add shoff entsize) IntegerOverflow) in
        let! data := read_bytes shoff end_ in
        let! shdr0 := parse_shdr0 ehdr data in
        sm_ret (sh_size shdr0)
      else sm_ret (e_shnum ehdr) in
    let! size := sm_lift (ok_or (checked_mul entsize shnum) IntegerOverflow) in
    let! end_ := sm_lift (ok_or (checked_add shoff size) IntegerOverflow) in
    let! buf := read_bytes shoff end_ in
    sm_pure (pr_lift (table_items (Build_ParsingTable (endianness ehdr) (class ehdr) buf))).

Definition parse_program_headers (ehdr : FileHeader E) : C (list ProgramHeader) :=
  if e_phoff ehdr =? 0 then sm_ret []
  else
    let! phnum :=
      if e_phnum ehdr =? PN_XNUM then
        let shoff := e_shoff ehdr in
        let! end_ := sm_lift (ok_or (checked_add shoff (SectionHeader_size_for (class ehdr))) IntegerOverflow) in
        let! data := read_bytes shoff end_ in
        let! shdr0 := parse_shdr0 ehdr data in
        sm_ret (sh_info shdr0)
      else sm_ret (e_phnum ehdr) in
    let! entsize := sm_lift (validate_entsize ProgramHeader (class ehdr) (e_phentsize ehdr)) in
    let phoff := e_phoff ehdr in
    let! size := sm_lift (ok_or (checked_mul entsize phnum) IntegerOverflow) in
    let! end_ := sm_lift (ok_or (checked_add phoff size) IntegerOverflow) in
    let! buf := read_bytes phoff end_ in
    sm_pure (pr_lift (table_items (Build_ParsingTable (endianness ehdr) (class ehdr) buf))).

(** The statements of [open_stream] that use the reader. *)
Definition read_headers : C (FileHeader E * list SectionHeader * list ProgramHeader) :=
  let! ident_buf := read_bytes 0 EI_NIDENT in
  let! ident := sm_pure (parse_ident ident_buf) in
  let tail_start := EI_NIDENT in
  let tail_end :=
    match snd (fst (fst ident)) with
    | ELF32 => tail_start + ELF32_EHDR_TAILSIZE
    | ELF64 => tail_start + ELF64_EHDR_TAILSIZE
    end in
  let! tail_buf := read_bytes tail_start tail_end in
  let! ehdr := sm_pure (parse_tail ident tail_buf) in
  let! shdrs := parse_section_headers ehdr in
  let! phdrs := parse_program_headers ehdr in
  sm_ret (ehdr, shdrs, phdrs).

Definition open_stream (reader : R) : PR (ElfStream E R) :=
  let* cr := Ret (CachingReader_new reader) in
  match read_headers cr with
  | Ret (Ok (ehdr, shdrs, phdrs), cr) => Ret (Ok (Build_ElfStream ehdr shdrs phdrs (clear_cache cr)))
  | Ret (Err e, _) => Ret (Err e)
  | Panic => Panic
  end.

(** ** Accessors *)

Abbreviation M := (SM (ElfStream E R) ParseError).

Definition stream_segments (f : ElfStream E R) : list ProgramHeader := se_phdrs f.
Definition stream_section_headers (f : ElfStream E R) : list SectionHeader := se_shdrs f.

(** A method call on [self.reader]. *)
Definition on_reader {A} (m : C A) : M A := λ f,
  match m (se_reader f) with
  | Ret (r, c) => Ret (r, Build_ElfStream (se_ehdr f) (se_shdrs f) (se_phdrs f) c)
  | Panic => Panic
  end.
(** [self.shdrs.get(i).ok_or(BadOffset(i))?]. *)
Definition get_shdr (f : ElfStream E R) (i : Z) : result SectionHeader ParseError :=
  ok_or (se_shdrs f !! Z.to_nat i) (BadOffset i).
(** [get_data_range] and [read_bytes] of a section and of a segment. *)
Definition read_section (shdr : SectionHeader) : M bytes :=
  let! range := sm_lift (get_data_range shdr) in on_reader (read_bytes (fst range) (snd range)).
Definition read_segment (phdr : ProgramHeader) : M bytes :=
  let! range := sm_lift (get_file_data_range phdr) in on_reader (read_bytes (fst range) (snd range)).

Definition stream_section_headers_with_strtab : M (list SectionHeader * option bytes) :=
  let! self := sm_get in
  match se_shdrs self with
  | [] => sm_ret (se_shdrs self, None)
  | shdr0 :: _ =>
      if e_shstrndx (se_ehdr self) =? SHN_UNDEF then sm_ret (se_shdrs self, None)
      else
        let shstrndx := if e_shstrndx (se_ehdr self) =? SHN_XINDEX then sh_link shdr0 else e_shstrndx (se_ehdr self) in
        let! strtab := sm_lift (get_shdr self shstrndx) in
        let! strtab_buf := read_section strtab in
        sm_ret (se_shdrs self, Some strtab_buf)
  end.

Definition stream_section_header_by_name (name : bytes) : M (option SectionHeader) :=
  let! r := stream_section_headers_with_strtab in
  match r with
  | (shdrs, Some strtab) =>
      sm_ret (List.find (λ shdr,
        match strtab_get strtab (sh_name shdr) with
        | Ok sh_name => bool_decide (name = sh_name)
        | Err _ => false
        end) shdrs)
  | _ => sm_ret None
  end.

Definition stream_section_data (shdr : SectionHeader) : M (bytes * option CompressionHeader) :=
  if sh_type shdr =? SHT_NOBITS then sm_ret ([], None)
  else
    let! self := sm_get in
    let! buf := read_section shdr in
    if Z.land (sh_flags shdr) SHF_COMPRESSED =? 0 then sm_ret (buf, None)
    else
      sm_pure (fst <$>
        (let! chdr := CompressionHeader_parse_at (endianness (se_ehdr self)) (class (se_ehdr self)) buf in
         let! offset := sm_get in
         let! compressed_buf := sm_lift (ok_or (slice_from buf offset) (SliceReadError offset (sh_size shdr))) in
         sm_ret (compressed_buf, Some chdr)) 0).

Definition stream_as_strtab (shdr : SectionHeader) : M bytes :=
  do! sm_lift (expect_type (sh_type shdr) SHT_STRTAB) in
  read_section shdr.
(** A table over the bytes of a section. *)
Definition stream_as_table {P} (type : Z) (shdr : SectionHeader) : M (ParsingTable E P) :=
  let! self := sm_get in
  do! sm_lift (expect_type (sh_type shdr) type) in
  let! buf := read_section shdr in
  sm_ret (Build_ParsingTable (endianness (se_ehdr self)) (class (se_ehdr self)) buf).
Definition stream_as_rels (shdr : SectionHeader) : M (ParsingTable E Rel) := stream_as_table SHT_REL shdr.
Definition stream_as_relas (shdr : SectionHeader) : M (ParsingTable E Rela) := stream_as_table SHT_RELA shdr.
Definition stream_as_notes (shdr : SectionHeader) : M (NoteIterator E) :=
  let! self := sm_get in
  do! sm_lift (expect_type (sh_type shdr) SHT_NOTE) in
  let! buf := read_section shdr in
  sm_ret (NoteIterator_new (endianness (se_ehdr self)) (class (se_ehdr self)) (sh_addralign shdr) buf).
Definition stream_segment_as_notes (phdr : ProgramHeader) : M (NoteIterator E) :=
  let! self := sm_get in
  do! sm_lift (if p_type phdr =? PT_NOTE then Ok tt else Err (UnexpectedSegmentType (p_type phdr) PT_NOTE)) in
  let! buf := read_segment phdr in
  sm_ret (NoteIterator_new (endianness (se_ehdr self)) (class (se_ehdr self)) (p_align phdr) buf).

(** Both ranges are loaded before either is borrowed. *)
Definition get_symbol_table_of_type (symtab_type : Z) : M (option (ParsingTable E Symbol * bytes)) :=
  let! self := sm_get in
  match se_shdrs self with
  | [] => sm_ret None
  | _ =>
      match List.find (λ shdr, sh_type shdr =? symtab_type) (se_shdrs self) with
      | None => sm_ret None
      | Some shdr =>
          let! symtab := sm_lift (get_data_range shdr) in
          do! on_reader (load_bytes (fst symtab) (snd symtab)) in
          let! strtab_shdr := sm_lift (get_shdr self (sh_link shdr)) in
          let! strtab := sm_lift (get_data_range strtab_shdr) in
          do! on_reader (load_bytes (fst strtab) (snd strtab)) in
          let! _ := sm_lift (validate_entsize Symbol (class (se_ehdr self)) (sh_entsize shdr)) in
          let! symtab_buf := on_reader (cr_get_bytes (fst symtab) (snd symtab)) in
          let! strtab_buf := on_reader (cr_get_bytes (fst strtab) (snd strtab)) in
          sm_ret (Some (Build_ParsingTable (endianness (se_ehdr self)) (class (se_ehdr self)) symtab_buf, strtab_buf))
      end
  end.
Definition stream_symbol_table : M (option (ParsingTable E Symbol * bytes)) := get_symbol_table_of_type SHT_SYMTAB.
Definition stream_dynamic_symbol_table : M (option (ParsingTable E Symbol * bytes)) := get_symbol_table_of_type SHT_DYNSYM.

Definition stream_dynamic : M (option (ParsingTable E Dyn)) :=
  let! self := sm_get in
  let table buf := Build_ParsingTable (endianness (se_ehdr self)) (class (se_ehdr self)) buf in
  match se_shdrs self, se_phdrs self with
  | _ :: _, _ =>
      match List.find (λ shdr, sh_type shdr =? SHT_DYNAMIC) (se_shdrs self) with
      | Some shdr => let! buf := read_section shdr in sm_ret (Some (table buf))
      | None => sm_ret None
      end
  | [], _ :: _ =>
      match List.find (λ phdr, p_type phdr =? PT_DYNAMIC) (se_phdrs self) with
      | Some phdr => let! buf := read_segment phdr in sm_ret (Some (table buf))
      | None => sm_ret None
      end
  | [], [] => sm_ret None
  end.

(** A section of linked entries and its string table are loaded. *)
Definition load_linked (o : option SectionHeader) : M (option (SectionHeader * SectionHeader)) :=
  let! self := sm_get in
  match o with
  | None => sm_ret None
  | Some shdr =>
      let! range := sm_lift (get_data_range shdr) in
      do! on_reader (load_bytes (fst range) (snd range)) in
      let! strs_shdr := sm_lift (get_shdr self (sh_link shdr)) in
      let! range := sm_lift (get_data_range strs_shdr) in
      do! on_reader (load_bytes (fst range) (snd range)) in
      sm_ret (Some (shdr, strs_shdr))
  end.
(** They are wrapped in an iterator and a string table. *)
Definition wrap_linked (o : option (SectionHeader * SectionHeader)) : M (option (VerIter E * bytes)) :=
  let! self := sm_get in
  match o with
  | None => sm_ret None
  | Some (shdr, strs_shdr) =>
      let! range := sm_lift (get_data_range strs_shdr) in
      let! strs_buf := on_reader (cr_get_bytes (fst range) (snd range)) in
      let! range := sm_lift (get_data_range shdr) in
      let! buf := on_reader (cr_get_bytes (fst range) (snd range)) in
      sm_ret (Some (VerIter_new (endianness (se_ehdr self)) (class (se_ehdr self)) (sh_info shdr) 0 buf, strs_buf))
  end.
Definition stream_symbol_version_table : M (option (SymbolVersionTable E)) :=
  let! self := sm_get in
  match se_shdrs self with
  | [] => sm_ret None
  | _ =>
      let '(versym_opt, needs_opt, defs_opt) := version_sections (se_shdrs self) None None None in
      match versym_opt with
      | None => sm_ret None
      | Some versym_shdr =>
          let! _ := sm_lift (validate_entsize VersionIndex (class (se_ehdr self)) (sh_entsize versym_shdr)) in
          let! versym := sm_lift (get_data_range versym_shdr) in
          do! on_reader (load_bytes (fst versym) (snd versym)) in
          let! needs_shdrs := load_linked needs_opt in
          let! defs_shdrs := load_linked defs_opt in
          let! verneeds := wrap_linked needs_shdrs in
          let! verdefs := wrap_linked defs_shdrs in
          let! versym_buf := on_reader (cr_get_bytes (fst versym) (snd versym)) in
          let version_ids := Build_ParsingTable (endianness (se_ehdr self)) (class (se_ehdr self)) versym_buf in
          sm_ret (Some (Build_SymbolVersionTable version_ids verneeds verdefs))
      end
  end.

End caching_reader.

(** * Simulation *)

(** [m], run in a state that satisfies [I], and the pure [p] both return, both with
    values related by [Q] or both with an error; the errors may differ. *)
Definition sim {S A B} (I : S → Prop) (Q : A → B → Prop) (m : SM S ParseError A) (p : PR B) : Prop :=
  ∀ s, I s → ∃ r s' r2, m s = Ret (r, s') ∧ I s' ∧ p = Ret r2 ∧
    match r, r2 with Ok a, Ok b => Q a b | Err _, Err _ => True | _, _ => False end.

Section sim.
Context {S : Type} (I : S → Prop).

Lemma sim_ret {A B} (Q : A → B → Prop) a b : Q a b → sim I Q (sm_ret a) (Ret (Ok b)).
Proof. intros HQ s Hs. by exists (Ok a), s, (Ok b). Qed.
Lemma sim_err {A B} (Q : A → B → Prop) e p : (∃ e', p = Ret (Err e')) → sim I Q (sm_err e) p.
Proof. intros [e' ->] s Hs. by exists (Err e), s, (Err e'). Qed.
Lemma sim_lift {A} (r : result A ParseError) : sim I eq (sm_lift r) (Ret r).
Proof. intros s Hs. exists r, s, r. by destruct r. Qed.
Lemma sim_pure {A} (m : PR A) : returns m → sim I eq (sm_pure m) m.
Proof. intros [r ->] s Hs. exists r, s, r. by destruct r. Qed.
Lemma sim_bind {A B A' B'} (Q : A → B → Prop) (Q' : A' → B' → Prop) m p k q :
  sim I Q m p → (∀ a b, Q a b → sim I Q' (k a) (q b)) → sim I Q' (sm_bind m k) (pr_bind p q).
Proof.
  intros Hm Hk s Hs. destruct (Hm s Hs) as (r & s1 & r2 & H1 & Hs1 & -> & Hr). unfold sm_bind. rewrite H1.
  destruct r as [a|e], r2 as [b|e2]; try done; [by apply Hk|]. by exists (Err e), s1, (Err e2).
Qed.
Lemma sim_get {A B} (Q : A → B → Prop) (k : S → SM S ParseError A) p :
  (∀ s, I s → sim I Q (k s) p) → sim I Q (sm_bind sm_get k) p.
Proof. intros Hk s Hs. exact (Hk s Hs s Hs). Qed.
Lemma sim_weaken {A B} (Q Q' : A → B → Prop) m p : (∀ a b, Q a b → Q' a b) → sim I Q m p → sim I Q' m p.
Proof.
  intros HQ Hm s Hs. destruct (Hm s Hs) as (r & s' & r2 & H1 & Hs' & Hp & Hr). exists r, s', r2. split_and!; [done..|].
  destruct r, r2; auto.
Qed.
(** The value is the one [p] returns. *)
Lemma sim_known {A} m (r : result A ParseError) : sim I eq m (Ret r) → sim I (λ a b, a = b ∧ r = Ok a) m (Ret r).
Proof.
  intros Hm s Hs. destruct (Hm s Hs) as (r1 & s' & r2 & H1 & Hs' & [= <-] & Hr). exists r1, s', r. split_and!; [done..|].
  destruct r1, r; try done. by subst.
Qed.
(** A step of [m] alone. *)
Lemma sim_step {A A' B} (Q : A' → B → Prop) (r : result A ParseError) k p :
  (∀ a, r = Ok a → sim I Q (k a) p) → (∀ e, r = Err e → ∃ e', p = Ret (Err e')) → sim I Q (sm_bind (sm_lift r) k) p.
Proof. intros Hok Herr. destruct r as [a|e]; [by apply Hok|]. intros s Hs. destruct (Herr e eq_refl) as [e' ->]. by exists (Err e), s, (Err e'). Qed.
End sim.

Lemma pr_bind_assoc {A B C} (m : PR A) (f : A → PR B) (g : B → PR C) :
  (let* y := (let* x := m in f x) in g y) = (let* x := m in let* y := f x in g y).
Proof. by destruct m as [[]|]. Qed.
Lemma pr_bind_Ok {A B} (a : A) (f : A → PR B) : (let* x := Ret (Ok a) in f x) = f a.
Proof. done. Qed.
(** A chain fails when a step fails, whatever comes before it returns. *)
Lemma pr_bind_fails {A B} (m : PR A) (f : A → PR B) :
  returns m → (∀ a, m = Ret (Ok a) → ∃ e, f a = Ret (Err e)) → ∃ e, (let* x := m in f x) = Ret (Err e).
Proof. intros [[a|e] ->] Hf; simpl; [by apply Hf|by exists e]. Qed.

Section stream_of_file.
Context {R : Type} `{ReadSeek R} (data : bytes) {rof : ReaderOf R data} {E : Type} `{EndianParse E}.
Hypothesis (Hdata : slice_ok data) (Hbytes : bytes_ok data).
Implicit Type c : CachingReader R.

Record cr_ok c : Prop := {
  co_reader : reader_ok (cr_reader c);
  co_len : cr_stream_len c = len data;
  co_bufs a b buf : cr_bufs c !! (a, b) = Some buf → slice data a b = Some buf;
}.

Lemma load_spec a b c : cr_ok c → 0 ≤ a ≤ b →
  ∃ r c', load_bytes a b c = Ret (r, c') ∧ cr_ok c' ∧ cr_bufs c ⊆ cr_bufs c' ∧
    match r with
    | Ok _ => ∃ buf, cr_bufs c' !! (a, b) = Some buf ∧ slice data a b = Some buf
    | Err _ => slice data a b = None
    end.
Proof.
  intros [Hr Hl Hbufs] Hab. unfold load_bytes. destruct (cr_bufs c !! (a, b)) as [buf|] eqn:Hc.
  { exists (Ok tt), c. split_and!; [done|by split|done|]. exists buf. split; [done|by apply Hbufs]. }
  rewrite Hl. destruct (Z.ltb_spec (len data) b).
  { eexists (Err _), c. split_and!; [done|by split|done|by apply slice_none]. }
  destruct (seek_start_ok a (cr_reader c) Hr) as (r1 & -> & Hr1); [lia|].
  assert (range_len a b = b - a) as -> by (unfold range_len; case_Z1; lia).
  unfold slice_ok in Hdata. case_Z1; [lia|].
  destruct (read_exact_ok a (b - a) r1 Hr1) as (r2 & -> & Hr2); [lia..|].
  assert (slice data a b = Some (take (Z.to_nat (b - a)) (drop (Z.to_nat a) data))) as Hs.
  { unfold slice. by rewrite (proj2 (Z.leb_le a b)), (proj2 (Z.leb_le b (len data))) by lia. }
  eexists (Ok tt), _. split; [done|]. split_and!.
  - split; [by eapply reader_at_ok|done|]. cbn. intros a' b' buf [[[= -> ->] <-]|[_ Hb]]%lookup_insert_Some; [done|by apply Hbufs].
  - by apply insert_subseteq.
  - cbn. eexists. rewrite lookup_insert_eq. by split.
Qed.

Lemma cr_get_loaded a b buf c : cr_bufs c !! (a, b) = Some buf → cr_get_bytes a b c = Ret (Ok buf, c).
Proof. intros Hb. unfold cr_get_bytes. by rewrite Hb. Qed.

Lemma sim_read_slice a b : 0 ≤ a ≤ b →
  sim cr_ok (λ x y, x = y ∧ slice data a b = Some x) (read_bytes a b) (Ret (get_bytes data a b)).
Proof.
  intros Hab c Hc. destruct (load_spec a b c Hc Hab) as (r & c' & Hl & Hc' & _ & Hr). unfold read_bytes, sm_bind. rewrite Hl.
  unfold get_bytes. destruct r as [[]|e].
  - destruct Hr as (buf & Hb & Hs). rewrite (cr_get_loaded _ _ _ _ Hb), Hs. by exists (Ok buf), c', (Ok buf).
  - rewrite Hr. by exists (Err e), c', (Err (SliceReadError a b)).
Qed.
Lemma sim_read a b : 0 ≤ a ≤ b → sim cr_ok eq (read_bytes a b) (Ret (get_bytes data a b)).
Proof. intros Hab. eapply sim_weaken; [|by apply sim_read_slice]. by intros ? ? [? _]. Qed.

(** Entry 0 of the section headers, from a buffer of its own or in place. *)
Lemma shdr0_in_place (h : FileHeader E) off buf :
  0 ≤ off → slice data off (off + size_for SectionHeader (class h)) = Some buf →
  fst <$> SectionHeader_parse_at (endianness h) (class h) buf 0 = read_shdr0 h data off.
Proof.
  intros Ho Hs. pose proof (slice_len _ _ _ _ Ho Hs) as [Hl Hle]. set (size := size_for SectionHeader (class h)) in *.
  assert (slice_ok buf) as Hbs by (unfold slice_ok in *; lia). assert (bytes_ok buf) as Hbb by (by eapply slice_bytes).
  destruct (exact_parse (P := SectionHeader) (endianness h) (class h) buf Hbs 0) as [Hok _]; [lia|]. fold size in Hok.
  destruct Hok as [s Hp]; [lia|]. pose proof Hp as Hp'. apply parsed_encoded in Hp' as [Hwf Henc]; [|done..].
  rewrite drop_0 in Henc. assert (at_off data off (encode_then (endianness h) (fields (class h)) s (drop (Z.to_nat (off + size)) data))) as Hat.
  { split; [lia|]. unfold slice in Hs. destruct ((off <=? off + size) && (off + size <=? len data)); [|done].
    rewrite encode_then_app. rewrite encode_then_app in Henc. rewrite (drop_ge buf) in Henc by (unfold len in *; lia).
    rewrite app_nil_r in Henc. rewrite <-Henc. injection Hs as <-. rewrite <-(take_drop (Z.to_nat (off + size - off)) (drop (Z.to_nat off) data)) at 1.
    f_equal. rewrite drop_drop. f_equal. lia. }
  apply parse_encoded in Hat; [|done..]. unfold read_shdr0. cbn in Hp, Hat. rewrite Hp, Hat. done.
Qed.
Lemma shdr0_missing (h : FileHeader E) off :
  0 ≤ off → len data < off + size_for SectionHeader (class h) → ∃ e, read_shdr0 h data off = Ret (Err e).
Proof.
  intros Ho Hlt. pose proof (exact_size (P := SectionHeader) (class h)).
  destruct (exact_parse (P := SectionHeader) (endianness h) (class h) data Hdata off Ho) as [_ Herr].
  destruct Herr as (e & o & Hp & _); [lia|]. unfold read_shdr0. cbn in Hp. rewrite Hp. by exists e.
Qed.

Lemma sim_shdr0 (h : FileHeader E) off entsize {A} (k : SectionHeader → A) :
  0 ≤ off → entsize = size_for SectionHeader (class h) →
  sim cr_ok eq
    (let! end_ := sm_lift (ok_or (checked_add off entsize) IntegerOverflow) in
     let! buf := read_bytes off end_ in let! shdr0 := parse_shdr0 h buf in sm_ret (k shdr0))
    (let* shdr0 := read_shdr0 h data off in Ret (Ok (k shdr0))).
Proof.
  intros Ho ->. pose proof (exact_size (P := SectionHeader) (class h)) as Hsz. unfold checked_add. unfold slice_ok in Hdata. case_Z1.
  2: { intros c Hc. destruct (shdr0_missing h off Ho) as [e He]; [lia|]. rewrite He. by eexists (Err _), _, (Err _). }
  cbn [ok_or]. intros c Hc. unfold sm_bind at 1. unfold sm_lift.
  assert (0 ≤ off ≤ off + size_for SectionHeader (class h)) as Hrange by lia.
  destruct (sim_read _ _ Hrange c Hc) as (r & c' & r2 & Hr & Hc' & [= <-] & Hag).
  unfold sm_bind at 1. rewrite Hr. unfold get_bytes in Hag. destruct (slice data off _) as [buf|] eqn:Hs; destruct r as [b|e]; try done.
  - cbn in Hag. subst b. unfold parse_shdr0. rewrite (shdr0_in_place h off buf Ho Hs).
    destruct (read_shdr0_spec h data off Hdata Hbytes Ho) as (r & -> & _). unfold sm_bind, sm_pure, sm_ret.
    destruct r as [s|e]; cbn; [by eexists (Ok _), _, (Ok _)|by eexists (Err _), _, (Err _)].
  - destruct (shdr0_missing h off Ho) as [e' He].
    { destruct (Z.lt_ge_cases (len data) (off + size_for SectionHeader (class h))) as [|Hge]; [done|].
      destruct (slice_spec data off (off + size_for SectionHeader (class h))) as (l & Hl & _); [lia..|]. cbn in Hl. congruence. }
    rewrite He. by eexists (Err _), _, (Err _).
Qed.

(** A table of [ElfBytes] and the vector [ElfStream] collects from it. *)
Definition items {P} `{ParseAt P} (o : option (ParsingTable E P)) (l : list P) : Prop :=
  match o with None => l = [] | Some t => table_items t = Ret l end.

Lemma sim_table {P} `{ParseAt P, !ExactParse P} (h : FileHeader E) off entsize num :
  0 ≤ off → 0 ≤ entsize → 0 ≤ num →
  sim cr_ok (λ l o, items o l)
    (let! size := sm_lift (ok_or (checked_mul entsize num) IntegerOverflow) in
     let! end_ := sm_lift (ok_or (checked_add off size) IntegerOverflow) in
     let! buf := read_bytes off end_ in
     sm_pure (pr_lift (table_items (Build_ParsingTable (P:=P) (endianness h) (class h) buf))))
    (let* size := Ret (ok_or (checked_mul entsize num) IntegerOverflow) in
     let* end_ := Ret (ok_or (checked_add off size) IntegerOverflow) in
     let* buf := Ret (get_bytes data off end_) in
     Ret (Ok (Some (Build_ParsingTable (endianness h) (class h) buf)))).
Proof.
  intros Ho He Hn. eapply sim_step; [|intros e ->; by eexists]. intros size Hsize. rewrite Hsize. cbn [pr_bind].
  eapply sim_step; [|intros e ->; by eexists]. intros end_ Hend. rewrite Hend. cbn [pr_bind].
  assert (off ≤ end_) as Hle.
  { unfold checked_mul, checked_add in *. repeat case_Z1; cbn in *; simplify_eq; nia. }
  intros c Hc. destruct (sim_read off end_ (conj Ho Hle) c Hc) as (r & c' & r2 & Hr & Hc' & Heq & Hag).
  injection Heq as <-. unfold sm_bind. rewrite Hr. destruct r as [buf|e], (get_bytes data off end_) as [b|e2] eqn:Hb; try done.
  - subst b. apply get_bytes_ok in Hb as [Hbs _]; [|done..].
    destruct (table_items_spec (Build_ParsingTable (P:=P) (endianness h) (class h) buf) Hbs) as (l & Hl & _).
    unfold sm_pure. rewrite Hl. by exists (Ok l), c', (Ok (Some (Build_ParsingTable (endianness h) (class h) buf))).
  - by exists (Err e), c', (Err e2).
Qed.

(** The number of entries, from the file header or from entry 0. *)
Lemma sim_number (h : FileHeader E) (b : bool) get d entsize :
  0 ≤ e_shoff h → entsize = size_for SectionHeader (class h) → (∀ cl s, wf_entry (P := SectionHeader) cl s → 0 ≤ get s) → 0 ≤ d →
  sim cr_ok (λ m n, m = n ∧ 0 ≤ m)
    (if b then
       let! end_ := sm_lift (ok_or (checked_add (e_shoff h) entsize) IntegerOverflow) in
       let! data := read_bytes (e_shoff h) end_ in let! shdr0 := parse_shdr0 h data in sm_ret (get shdr0)
     else sm_ret d)
    (if b then let* shdr0 := read_shdr0 h data (e_shoff h) in Ret (Ok (get shdr0)) else Ret (Ok d)).
Proof.
  intros Ho He Hget Hd. destruct (number_spec h data b get d Hdata Hbytes Ho Hget Hd) as (num & Hnum & Hn).
  intros c Hc. destruct b; [|by exists (Ok d), c, (Ok d)].
  destruct (sim_shdr0 h (e_shoff h) entsize get Ho He c Hc) as (r & c' & r2 & Hr & Hc' & Heq & Hag). exists r, c', r2.
  split_and!; [done..|]. rewrite Hnum in Heq. injection Heq as ->. destruct r as [a|], r2 as [a2|]; try done. subst.
  by destruct (Hn a2 eq_refl).
Qed.

Lemma sim_section_headers (h : FileHeader E) :
  header_nonneg h → sim cr_ok (λ l o, items o l) (parse_section_headers h) (find_shdrs h data).
Proof.
  intros (_ & Hso & _ & Hsn & _). unfold parse_section_headers, find_shdrs. case_Z1; [by apply sim_ret|].
  pose proof (exact_size (P := SectionHeader) (class h)) as Hsz.
  destruct (number_spec h data (e_shnum h =? 0) sh_size (e_shnum h) Hdata Hbytes) as (num & Hnum & Hn);
    [lia|intros c s Hf; apply shdr_fits in Hf; lia|lia|].
  eapply sim_step.
  2: { intros e He. rewrite Hnum. destruct num as [num|e']; [|by exists e']. cbn [pr_bind]. rewrite He. by exists e. }
  intros entsize He. rewrite He. assert (entsize = size_for SectionHeader (class h)) as Hent.
  { unfold validate_entsize in He. destruct (Z.eqb_spec (e_shentsize h) (size_for SectionHeader (class h))); by simplify_eq. }
  cbn [pr_bind]. apply (sim_bind cr_ok (λ a b, a = b ∧ 0 ≤ a)).
  - apply sim_number; [lia|done|intros c s Hf; apply shdr_fits in Hf; lia|lia].
  - intros a b [-> Hb]. apply sim_table; lia.
Qed.

Lemma sim_program_headers (h : FileHeader E) :
  header_nonneg h → sim cr_ok (λ l o, items o l) (parse_program_headers h) (find_phdrs h data).
Proof.
  intros (Hpo & Hso & Hpn & Hsn & _). unfold parse_program_headers, find_phdrs. case_Z1; [by apply sim_ret|].
  pose proof (exact_size (P := ProgramHeader) (class h)) as Hsz.
  destruct (number_spec h data (e_phnum h =? PN_XNUM) sh_info (e_phnum h) Hdata Hbytes) as (num & Hnum & Hn);
    [lia|intros c s Hf; apply shdr_fits in Hf; lia|lia|].
  apply (sim_bind cr_ok (λ a b, a = b ∧ 0 ≤ a)).
  - apply sim_number; [lia|done|intros c s Hf; apply shdr_fits in Hf; lia|lia].
  - intros a b [-> Hb]. eapply sim_step; [|intros e ->; by eexists]. intros entsize He. rewrite He. cbn [pr_bind].
    assert (entsize = size_for ProgramHeader (class h)) as Hent.
    { unfold validate_entsize in He. destruct (Z.eqb_spec (e_phentsize h) (size_for ProgramHeader (class h))); by simplify_eq. }
    apply sim_table; lia.
Qed.

(** What [ElfStream] and [ElfBytes] have in common for the same file. *)
Record same (g : ElfBytes E) (f : ElfStream E R) : Prop := {
  sa_ehdr : se_ehdr f = ehdr g;
  sa_shdrs : items (shdrs g) (se_shdrs f);
  sa_phdrs : items (phdrs g) (se_phdrs f);
  sa_reader : cr_ok (se_reader f);
}.

Lemma sim_read_headers :
  sim cr_ok (λ a g, a.1.1 = ehdr g ∧ items (shdrs g) a.1.2 ∧ items (phdrs g) a.2) read_headers (minimal_parse data).
Proof.
  unfold read_headers, minimal_parse, parse_elf_header. rewrite !pr_bind_assoc.
  eapply sim_bind; [apply sim_read_slice; by unfold EI_NIDENT|]. intros ib ? [<- Hib].
  apply slice_len in Hib as [Hil _]; [|done]. rewrite pr_bind_assoc.
  eapply sim_bind; [apply sim_pure, parse_ident_returns; unfold EI_NIDENT in *; lia|]. intros ident ? <-.
  rewrite pr_bind_assoc. eapply sim_bind; [apply sim_read_slice|].
  { unfold EI_NIDENT, ELF32_EHDR_TAILSIZE, ELF64_EHDR_TAILSIZE. destruct (snd (fst (fst ident))); lia. }
  intros tb ? [<- Htb]. assert (0 ≤ EI_NIDENT) as H0n by (unfold EI_NIDENT; lia).
  assert (slice_ok tb) as Hts by (apply slice_len in Htb; [unfold slice_ok in *; lia|done]). apply slice_bytes in Htb; [|done].
  destruct (parse_tail_spec ident tb Hts Htb) as (rh & Hrh & Hnn).
  apply (sim_bind _ (λ a b, a = b ∧ header_nonneg a)).
  { rewrite Hrh. intros c Hc. exists rh, c, rh. destruct rh; [|done]. split_and!; [done..|]. by apply Hnn. }
  intros h ? [<- Hh]. eapply sim_bind; [by apply sim_section_headers|]. intros sl so Hs.
  eapply sim_bind; [by apply sim_program_headers|]. intros pl po Hp. by apply sim_ret.
Qed.

Lemma open_same reader : reader_ok reader →
  ∃ r r2, open_stream (E:=E) reader = Ret r ∧ minimal_parse data = Ret r2 ∧
    match r, r2 with Ok f, Ok g => same g f | Err _, Err _ => True | _, _ => False end.
Proof.
  intros Hr. unfold open_stream, CachingReader_new. destruct (seek_end_ok reader Hr) as (r' & -> & Hr'). cbn [pr_bind].
  assert (cr_ok (Build_CachingReader r' (len data) ∅)) as Hc.
  { split; [done|done|]. cbn. intros a b buf. by rewrite lookup_empty. }
  destruct (sim_read_headers _ Hc) as (r & c & r2 & -> & [Hcr Hcl _] & Hp & Hag). rewrite Hp.
  destruct r as [[[h sl] pl]|e], r2 as [g|e2]; try done; [|by eexists (Err _), (Err _)].
  eexists (Ok _), (Ok g). split_and!; [done..|]. destruct Hag as (Hh & Hs & Hpp). split; [done..|].
  split; [done|done|]. cbn. intros a b buf. by rewrite lookup_empty.
Qed.

Lemma minimal_parse_ok (g : ElfBytes E) :
  minimal_parse data = Ret (Ok g) → file_data g = data ∧ file_ok g ∧ header_nonneg (ehdr g).
Proof.
  intros (h & Hh & (so & Hso & (po & Hpo & Hg)%pr_bind_ok)%pr_bind_ok)%pr_bind_ok. injection Hg as <-. cbn.
  destruct (parse_elf_header_spec (E:=E) data Hdata Hbytes) as (r & Hr & Hnn). rewrite Hh in Hr. injection Hr as <-.
  specialize (Hnn h eq_refl). pose proof Hnn as (Hpoff & Hsoff & _).
  destruct (find_shdrs_spec h data Hdata Hbytes Hnn) as (r & Hr & Hsh). rewrite Hso in Hr. injection Hr as <-.
  destruct (find_phdrs_spec h data Hdata Hbytes Hnn) as (r & Hr & Hph). rewrite Hpo in Hr. injection Hr as <-.
  split_and!; [done| |done]. split_and!; [done..| |]; cbn; intros t ->.
  - destruct (Hsh _ eq_refl) as (_ & _ & n & _ & _ & Hat). eapply table_at_ok; [..|exact Hat]; [done..|lia].
  - destruct (Hph _ eq_refl) as (_ & _ & n & _ & _ & Hat). eapply table_at_ok; [..|exact Hat]; [done..|lia].
Qed.

(** ** Accessors *)

Section accessors.
Context (g : ElfBytes E) (Hgd : file_data g = data) (Hg : file_ok g) (Hgh : header_nonneg (ehdr g)).
Abbreviation I := (same g).

Lemma sim_on_reader {A B} (Q : A → B → Prop) m p : sim cr_ok Q m p → sim I Q (on_reader m) p.
Proof.
  intros Hm f [Hh Hs Hp Hr]. destruct (Hm _ Hr) as (r & c & r2 & H1 & Hc & H2 & Hq). unfold on_reader. rewrite H1.
  eexists r, _, r2. split_and!; [done| |done..]. by split.
Qed.
Lemma sim_read_section s : 0 ≤ sh_offset s → 0 ≤ sh_size s → sim I eq (read_section s) (Ret (section_bytes g s)).
Proof.
  intros Ho Hs. unfold read_section, section_bytes, get_data_range, checked_add. rewrite Hgd.
  destruct (Z.ltb_spec (sh_offset s + sh_size s) (2 ^ 64)).
  - apply sim_on_reader, sim_read. cbn. lia.
  - intros f Hf. by eexists (Err _), f, (Err _).
Qed.
Lemma sim_read_segment ph : 0 ≤ p_offset ph → 0 ≤ p_filesz ph → sim I eq (read_segment ph) (Ret (segment_data g ph)).
Proof.
  intros Ho Hs. unfold read_segment, segment_data, get_file_data_range, checked_add. rewrite Hgd.
  destruct (Z.ltb_spec (p_offset ph + p_filesz ph) (2 ^ 64)).
  - apply sim_on_reader, sim_read. cbn. lia.
  - intros f Hf. by eexists (Err _), f, (Err _).
Qed.

Lemma items_wf {P} `{ParseAt P, !ExactParse P, !Format P, !FaithfulParse P} (t : ParsingTable E P) l :
  table_ok t → table_items t = Ret l → Forall (wf_entry (table_class t)) l.
Proof. intros Ht Hl. destruct (wf_items t Ht) as (l' & Hl' & Hf). rewrite Hl in Hl'. by injection Hl' as <-. Qed.

(** Indexing the vector is indexing the table. *)
Lemma sim_get_shdr t l i (f : ElfStream E R) :
  table_ok t → table_items t = Ret l → se_shdrs f = l → in_usize i →
  sim I (λ a b, a = b ∧ wf_entry (table_class t) a) (sm_lift (get_shdr f i)) (table_get t i).
Proof.
  intros Ht Hl Hf Hi. destruct (table_items_spec t (proj1 Ht)) as (l' & Hl' & Hlen & Hent). rewrite Hl in Hl'. injection Hl' as <-.
  unfold get_shdr. rewrite Hf. intros s Hs. pose proof Hi as [Hi0 _].
  destruct (table_get_spec t i (proj1 Ht) Hi) as [(Hlt & p & Hp & Hget)|(Hge & e & Hget)]; rewrite Hget.
  - destruct (lookup_lt_is_Some_2 l (Z.to_nat i)) as [q Hq]; [lia|]. rewrite Hq. pose proof (Hent _ _ Hq) as Hq'.
    rewrite Z2Nat.id in Hq' by lia. rewrite Hp in Hq'. simplify_eq. exists (Ok q), s, (Ok q). split_and!; [done..|].
    pose proof (items_wf t _ Ht Hl) as Hwf. rewrite Forall_forall in Hwf. apply Hwf. by eapply list_elem_of_lookup_2.
  - rewrite (lookup_ge_None_2 l) by lia. by eexists (Err _), s, (Err e).
Qed.

Lemma sim_section_data s : 0 ≤ sh_offset s → 0 ≤ sh_size s → sim I eq (stream_section_data s) (section_data g s).
Proof.
  intros Ho Hs. destruct (section_data_spec g s Hg Ho) as (r & Hr & _). revert Hr.
  unfold stream_section_data, section_data. case_Z1; [by intros _; apply sim_ret|]. intros Hr.
  apply sim_get. intros f Hf. rewrite (sa_ehdr _ _ Hf).
  eapply sim_bind; [by apply sim_known, sim_read_section|]. intros buf ? [<- Hb]. rewrite Hb in Hr. cbn [pr_bind] in Hr.
  destruct (Z.land _ _ =? 0); [by apply sim_ret|]. apply sim_pure. by eexists.
Qed.

(** The methods that take the section's bytes as they are agree when the section is not
    compressed. *)
Lemma plain_section_data s :
  sh_type s ≠ SHT_NOBITS → Z.land (sh_flags s) SHF_COMPRESSED = 0 →
  section_data g s = (let* buf := Ret (section_bytes g s) in Ret (Ok (buf, None))).
Proof. intros Ht Hc. unfold section_data. rewrite (proj2 (Z.eqb_neq _ _) Ht), Hc. done. Qed.

Ltac by_type := eapply sim_step; [|intros e He; rewrite He; by eexists]; intros [] Hty; rewrite Hty; cbn [pr_bind];
  unfold expect_type in Hty; match type of Hty with context [?a =? ?b] => destruct (Z.eqb_spec a b) as [Heqt|] end;
  [clear Hty|done].

Section plain.
Context (s : SectionHeader) (Ho : 0 ≤ sh_offset s) (Hs : 0 ≤ sh_size s) (Hplain : Z.land (sh_flags s) SHF_COMPRESSED = 0).

Lemma sim_as_strtab : sim I eq (stream_as_strtab s) (section_data_as_strtab g s).
Proof.
  unfold stream_as_strtab, section_data_as_strtab. by_type. rewrite plain_section_data by (done || by rewrite Heqt).
  intros f Hf. destruct (sim_read_section s Ho Hs f Hf) as (r & f' & r2 & H1 & Hf' & [= <-] & Hr).
  exists r, f', (section_bytes g s). split_and!; [done..| |done]. by destruct (section_bytes g s).
Qed.
Lemma sim_as_table {P} type (p : PR (ParsingTable E P)) :
  type ≠ SHT_NOBITS →
  p = (let* _ := Ret (expect_type (sh_type s) type) in let* buf := section_data g s in
       Ret (Ok (Build_ParsingTable (endianness (ehdr g)) (class (ehdr g)) (fst buf)))) →
  sim I eq (stream_as_table type s) p.
Proof.
  intros Hnb ->. unfold stream_as_table. apply sim_get. intros f Hf. rewrite (sa_ehdr _ _ Hf). by_type.
  rewrite plain_section_data by congruence. rewrite pr_bind_assoc. eapply sim_bind; [by apply sim_read_section|].
  intros b ? <-. by apply sim_ret.
Qed.
Lemma sim_as_notes : sim I eq (stream_as_notes s) (section_data_as_notes g s).
Proof.
  unfold stream_as_notes, section_data_as_notes. apply sim_get. intros f Hf. rewrite (sa_ehdr _ _ Hf). by_type.
  rewrite plain_section_data by (done || by rewrite Heqt). rewrite pr_bind_assoc. eapply sim_bind; [by apply sim_read_section|].
  intros b ? <-. by apply sim_ret.
Qed.
End plain.

Lemma sim_segment_as_notes ph : 0 ≤ p_offset ph → 0 ≤ p_filesz ph →
  sim I eq (stream_segment_as_notes ph) (segment_data_as_notes g ph).
Proof.
  intros Ho Hs. unfold stream_segment_as_notes, segment_data_as_notes. apply sim_get. intros f Hf. rewrite (sa_ehdr _ _ Hf).
  eapply sim_bind; [apply sim_lift|]. intros [] ? _. eapply sim_bind; [by apply sim_read_segment|].
  intros buf ? <-. by apply sim_ret.
Qed.

(** The section header table, when the file has one. *)
Lemma shdrs_table t f : shdrs g = Some t → I f → table_ok t ∧ table_items t = Ret (se_shdrs f) ∧ Forall (wf_entry (table_class t)) (se_shdrs f).
Proof.
  intros Ht Hf. pose proof Hg as (_ & _ & Hsh & _). specialize (Hsh t Ht). pose proof (sa_shdrs _ _ Hf) as Hi. rewrite Ht in Hi.
  split_and!; [apply Hsh..|done|by apply items_wf].
Qed.
Lemma find_wf t f q s : shdrs g = Some t → I f → List.find q (se_shdrs f) = Some s → wf_entry (table_class t) s.
Proof.
  intros Ht Hf Hs. destruct (shdrs_table t f Ht Hf) as (_ & _ & Hwf). rewrite Forall_forall in Hwf. apply Hwf.
  apply List.find_some in Hs as [Hin _]. by apply list_elem_of_In.
Qed.
Lemma find_table t f q : shdrs g = Some t → I f → table_find q t = Ret (List.find q (se_shdrs f)).
Proof. intros Ht Hf. destruct (shdrs_table t f Ht Hf) as (_ & Hi & _). unfold table_find. by rewrite Hi. Qed.

Lemma sim_with_strtab :
  (∀ t, shdrs g = Some t → table_items t ≠ Ret []) →
  sim I (λ a b, items b.1 a.1 ∧ a.2 = b.2) stream_section_headers_with_strtab (section_headers_with_strtab g).
Proof.
  intros Hne. unfold stream_section_headers_with_strtab, section_headers_with_strtab, section_headers. apply sim_get. intros f Hf.
  pose proof (sa_shdrs _ _ Hf) as Hi. destruct (shdrs g) as [t|] eqn:Ht; cbn in Hi; [|rewrite Hi; by apply sim_ret].
  destruct (shdrs_table t f Ht Hf) as (Htok & _ & Hwf). specialize (Hne t eq_refl). rewrite (sa_ehdr _ _ Hf).
  destruct (se_shdrs f) as [|s0 l] eqn:Hl; [done|]. rewrite <-Hl in *.
  destruct (e_shstrndx (ehdr g) =? SHN_UNDEF); [by apply sim_ret|].
  assert (∃ i, in_usize i ∧ (if e_shstrndx (ehdr g) =? SHN_XINDEX then sh_link s0 else e_shstrndx (ehdr g)) = i ∧
      (if e_shstrndx (ehdr g) =? SHN_XINDEX then let* s := table_get t 0 in Ret (Ok (sh_link s)) else Ret (Ok (e_shstrndx (ehdr g)))) =
      Ret (Ok i)) as (i & Hiu & -> & ->).
  { destruct (e_shstrndx (ehdr g) =? SHN_XINDEX).
    - exists (sh_link s0). rewrite Hl in Hwf. split; [eapply link_usize; by inversion Hwf|]. split; [done|].
      assert (in_usize 0) as H0u by done.
      destruct (sim_get_shdr t _ 0 f Htok Hi eq_refl H0u f Hf) as (r & f' & r2 & [= <- <-] & _ & -> & Hr).
      unfold get_shdr in Hr. rewrite Hl in Hr. cbn in Hr. destruct r2; [|done]. by destruct Hr as [<- _].
    - eexists. split_and!; [|done..]. destruct Hgh as (_ & _ & _ & _ & ?). unfold in_usize. lia. }
  rewrite pr_bind_Ok. eapply sim_bind; [by eapply sim_get_shdr|]. intros s ? [<- Hs%shdr_fits].
  eapply sim_bind; [apply sim_read_section; lia|]. intros b ? <-. by apply sim_ret.
Qed.

Lemma sim_by_name name :
  (∀ t, shdrs g = Some t → table_items t ≠ Ret []) →
  sim I eq (stream_section_header_by_name name) (section_header_by_name g name).
Proof.
  intros Hne. unfold stream_section_header_by_name, section_header_by_name. eapply sim_bind; [by apply sim_with_strtab|].
  intros [l o] [t o'] [Hi Ho]. unfold items in Hi. cbn [fst snd] in Hi, Ho. subst o'. destruct o as [strs|]; [|destruct t; by apply sim_ret].
  destruct t as [t|].
  - unfold table_find. rewrite Hi. by apply sim_ret.
  - subst l. by apply sim_ret.
Qed.

(** Ranges stay loaded. *)
Definition loaded (range : Z * Z) (buf : bytes) (f : ElfStream E R) : Prop :=
  cr_bufs (se_reader f) !! (range.1, range.2) = Some buf.
Definition keeps (f f' : ElfStream E R) : Prop :=
  se_ehdr f' = se_ehdr f ∧ se_shdrs f' = se_shdrs f ∧ cr_bufs (se_reader f) ⊆ cr_bufs (se_reader f').
Lemma loaded_keeps range buf f f' : keeps f f' → loaded range buf f → loaded range buf f'.
Proof. intros (_ & _ & Hk) Hl. by eapply lookup_weaken. Qed.
Lemma keeps_trans f1 f2 f3 : keeps f1 f2 → keeps f2 f3 → keeps f1 f3.
Proof. intros (H1 & H2 & H3) (K1 & K2 & K3). split_and!; [congruence..|by trans (cr_bufs (se_reader f2))]. Qed.
Lemma get_loaded {A} range buf (K : bytes → SM (ElfStream E R) ParseError A) f :
  loaded range buf f → (let! b := on_reader (cr_get_bytes (fst range) (snd range)) in K b) f = K buf f.
Proof.
  intros Hl. unfold sm_bind, on_reader. rewrite (cr_get_loaded _ _ _ _ Hl). by destruct f.
Qed.

(** Loading a section fails when [ElfBytes] cannot get its bytes, and otherwise they
    are in the cache from then on. *)
Lemma load_section {A} s (K : Z * Z → SM (ElfStream E R) ParseError A) f :
  I f → 0 ≤ sh_offset s → 0 ≤ sh_size s →
  let m := let! range := sm_lift (get_data_range s) in do! on_reader (load_bytes (fst range) (snd range)) in K range in
  (∃ e f' e', m f = Ret (Err e, f') ∧ I f' ∧ section_bytes g s = Err e') ∨
  (∃ range buf f', get_data_range s = Ok range ∧ section_bytes g s = Ok buf ∧ loaded range buf f' ∧ keeps f f' ∧ I f' ∧ m f = K range f').
Proof.
  intros [Hh Hsh Hph Hr] Ho Hs. unfold section_bytes. destruct (get_data_range s) as [range|e] eqn:Hrange.
  2: { left. by eexists e, f, e. }
  assert (0 ≤ range.1 ≤ range.2) as Hle.
  { unfold get_data_range, checked_add in Hrange. repeat case_match; simplify_eq/=; case_Z; lia. }
  destruct (load_spec _ _ _ Hr Hle) as (r & c' & Hl & Hc' & Hsub & Hbuf). cbn zeta. unfold sm_bind, sm_lift, on_reader. rewrite Hl, Hgd.
  unfold get_bytes. destruct r as [[]|e].
  - right. destruct Hbuf as (buf & Hb & Hsl). rewrite Hsl. exists range, buf, (Build_ElfStream (se_ehdr f) (se_shdrs f) (se_phdrs f) c'). split; [done|]. split; [done|]. split; [done|].
    split; [by split_and!|]. split; [by split|done].
  - left. rewrite Hbuf. eexists e, _, _. split_and!; [done| |done]. by split.
Qed.

(** A result of the stream beside the one of [ElfBytes]. *)
Definition ends {A} (o : outcome (result A ParseError * ElfStream E R)) (p : PR A) : Prop :=
  ∃ r f' r2, o = Ret (r, f') ∧ I f' ∧ p = Ret r2 ∧
    match r, r2 with Ok a, Ok b => a = b | Err _, Err _ => True | _, _ => False end.
Lemma ends_err {A} e f p : I f → (∃ e', p = Ret (Err e')) → ends (A:=A) (Ret (Err e, f)) p.
Proof. intros Hf [e' ->]. by exists (Err e), f, (Err e'). Qed.
Lemma ends_sim {A} (m : SM (ElfStream E R) ParseError A) p : (∀ f, I f → ends (m f) p) → sim I eq m p.
Proof. intros Hm f Hf. by apply Hm. Qed.
Lemma get_shdr_table t f i :
  shdrs g = Some t → I f → in_usize i →
  (∃ s, get_shdr f i = Ok s ∧ table_get t i = Ret (Ok s) ∧ wf_entry (table_class t) s) ∨
  (∃ e e', get_shdr f i = Err e ∧ table_get t i = Ret (Err e')).
Proof.
  intros Ht Hf Hi. destruct (shdrs_table t f Ht Hf) as (Htok & Hit & _).
  destruct (sim_get_shdr t _ i f Htok Hit eq_refl Hi f Hf) as (r & f' & r2 & Hl & _ & -> & Hr). injection Hl as Hl _.
  rewrite Hl. destruct r as [s|e], r2 as [s2|e2]; try done; [left|right; by exists e, e2]. destruct Hr as [<- Hw]. by exists s.
Qed.

Lemma sm_lift_Ok {S A B} (a : A) (K : A → SM S ParseError B) s : (let! x := sm_lift (Ok a) in K x) s = K a s.
Proof. done. Qed.
Ltac section_load s :=
  match goal with |- ends (sm_bind _ (λ range, sm_bind _ (λ _, @?K range)) ?f) _ =>
    let e := fresh "e" in let f' := fresh "f" in let range := fresh "range" in let buf := fresh "buf" in
    let Hm := fresh "Hm" in let Hf' := fresh "Hf" in let Hb := fresh "Hb" in let Hr := fresh "Hr" in
    let Hld := fresh "Hld" in let Hk := fresh "Hk" in
    destruct (load_section s K f) as [(e & f' & ? & Hm & Hf' & Hb)|(range & buf & f' & Hr & Hb & Hld & Hk & Hf' & Hm)];
    [done|lia|lia|cbv beta zeta in Hm; rewrite Hm; clear Hm..] end.

Lemma sim_symbol_table type : sim I eq (get_symbol_table_of_type type) (symbol_table_of type g).
Proof.
  apply ends_sim. intros f Hf. unfold get_symbol_table_of_type, symbol_table_of, section_headers. rewrite sm_get_bind.
  pose proof (sa_shdrs _ _ Hf) as Hi. destruct (shdrs g) as [t|] eqn:Ht; cbn [items] in Hi.
  2: { unfold items in Hi. rewrite Hi. by eexists (Ok None), f, (Ok None). }
  rewrite (find_table t f _ Ht Hf), bind_lift.
  destruct (List.find (λ s, sh_type s =? type) (se_shdrs f)) as [s|] eqn:Hfind.
  2: { destruct (se_shdrs f); by eexists (Ok None), f, (Ok None). }
  destruct (se_shdrs f) as [|s0 l] eqn:Hl; [done|]. rewrite <-Hl in *. clear s0 l Hl.
  pose proof (find_wf t f _ s Ht Hf Hfind) as Hw. pose proof (shdr_fits _ _ Hw) as Hfit.
  destruct (get_shdr_table t f (sh_link s) Ht Hf (link_usize _ _ Hw)) as [(s' & Hgs & Htg & Hw')|(e & e' & Hgs & Htg)].
  - section_load s. { apply ends_err; [done|]. rewrite Htg, pr_bind_Ok. unfold section_data_as_symbol_table. rewrite Hb. by destruct (validate_entsize _ _ _); eexists. }
    rewrite Hgs, sm_lift_Ok, Htg, pr_bind_Ok. unfold section_data_as_symbol_table. rewrite Hb, (sa_ehdr _ _ Hf).
    pose proof (shdr_fits _ _ Hw') as Hfit'. section_load s'.
    { apply ends_err; [done|]. rewrite Hb0. by destruct (validate_entsize _ _ _); eexists. }
    rewrite Hb0. destruct (validate_entsize Symbol _ _) as [n|e]; [|apply ends_err; [done|by eexists]].
    rewrite sm_lift_Ok, (get_loaded _ _ _ _ (loaded_keeps _ _ _ _ Hk0 Hld)), (get_loaded _ _ _ _ Hld0). by eexists (Ok _), _, (Ok _).
  - section_load s; (apply ends_err; [done|]) || rewrite Hgs; rewrite Htg; [by eexists|]. apply ends_err; [done|by eexists].
Qed.

(** No section is compressed, the entries of the dynamic section have their size, and a
    section header table that is there is not empty. *)
Definition plain_sections : Prop :=
  ∀ t, shdrs g = Some t → table_items t ≠ Ret [] ∧
    ∀ l s, table_items t = Ret l → s ∈ l →
      Z.land (sh_flags s) SHF_COMPRESSED = 0 ∧ (sh_type s = SHT_DYNAMIC → sh_entsize s = size_for Dyn (class (ehdr g))).

Lemma sim_dynamic_segment f t :
  phdrs g = Some t → I f →
  sim I eq (match List.find (λ phdr, p_type phdr =? PT_DYNAMIC) (se_phdrs f) with
            | Some phdr => let! buf := read_segment phdr in
                sm_ret (Some (Build_ParsingTable (endianness (ehdr g)) (class (ehdr g)) buf))
            | None => sm_ret None
            end) (segment_dynamic g t).
Proof.
  intros Ht Hf. pose proof Hg as (_ & _ & _ & Hph). pose proof (sa_phdrs _ _ Hf) as Hi. rewrite Ht in Hi. unfold items in Hi.
  unfold segment_dynamic, table_find. rewrite Hi. change (pr_lift _) with (Ret (Ok (List.find (λ ph, p_type ph =? PT_DYNAMIC) (se_phdrs f)) : result _ ParseError)).
  rewrite pr_bind_Ok. destruct (List.find _ _) as [ph|] eqn:Hfind; [|by apply sim_ret].
  pose proof (items_wf t _ (Hph t Ht) Hi) as Hwf. rewrite Forall_forall in Hwf. apply List.find_some in Hfind as [Hin _].
  apply list_elem_of_In, Hwf, phdr_fits in Hin. eapply sim_bind; [apply sim_read_segment; lia|]. intros b ? <-. by apply sim_ret.
Qed.
Lemma sim_dynamic : plain_sections → sim I eq stream_dynamic (dynamic g).
Proof.
  intros Hplain. unfold stream_dynamic, dynamic, section_headers, segments. apply sim_get. intros f Hf. rewrite (sa_ehdr _ _ Hf).
  pose proof (sa_shdrs _ _ Hf) as Hi. destruct (shdrs g) as [t|] eqn:Ht; unfold items in Hi.
  - destruct (Hplain t Ht) as [Hne Hsec]. destruct (se_shdrs f) as [|s0 l] eqn:Hl; [done|]. rewrite <-Hl in *. clear s0 l Hl.
    rewrite (find_table t f _ Ht Hf). destruct (List.find _ _) as [s|] eqn:Hfind; [|by apply sim_ret].
    pose proof (find_wf t f _ s Ht Hf Hfind) as Hfit%shdr_fits. apply List.find_some in Hfind as [Hin Hty%Z.eqb_eq].
    apply list_elem_of_In in Hin. destruct (Hsec _ s Hi Hin) as [Hc Hent]. change (pr_lift _) with (Ret (Ok (Some s) : result _ ParseError)).
    rewrite pr_bind_Ok. unfold section_data_as_dynamic, expect_type, validate_entsize.
    rewrite Hty, Z.eqb_refl, pr_bind_Ok, (Hent Hty), Z.eqb_refl, pr_bind_Ok, plain_section_data, !pr_bind_assoc by (done || by rewrite Hty).
    eapply sim_bind; [apply sim_read_section; lia|]. intros b ? <-. by apply sim_ret.
  - rewrite Hi. pose proof (sa_phdrs _ _ Hf) as Hip. destruct (phdrs g) as [pt|] eqn:Hpt; unfold items in Hip.
    + pose proof (sim_dynamic_segment f pt Hpt Hf) as Hsim. by destruct (se_phdrs f).
    + rewrite Hip. by apply sim_ret.
Qed.

Lemma keeps_refl f : keeps f f.
Proof. by split_and!. Qed.
Lemma load_linked_spec t o f :
  shdrs g = Some t → I f → (∀ s, o = Some s → wf_entry (table_class t) s) →
  (∃ e f' e', load_linked o f = Ret (Err e, f') ∧ I f' ∧ version_iter g t o = Ret (Err e')) ∨
  (∃ o' f' it, load_linked o f = Ret (Ok o', f') ∧ I f' ∧ keeps f f' ∧ version_iter g t o = Ret (Ok it) ∧
     ∀ f'', I f'' → keeps f' f'' → wrap_linked o' f'' = Ret (Ok it, f'')).
Proof.
  intros Ht Hf Ho. destruct o as [s|].
  2: { right. exists None, f, None. split_and!; [done..|]. intros. done. }
  pose proof (Ho s eq_refl) as Hw. pose proof (shdr_fits _ _ Hw) as Hfit. unfold load_linked, version_iter. rewrite sm_get_bind.
  match goal with |- context [sm_bind _ (λ range, sm_bind _ (λ _, @?K range)) f] =>
    destruct (load_section s K f) as [(e & f1 & e1 & Hm & Hf1 & Hb)|(rg & buf & f1 & Hr & Hb & Hld & Hk & Hf1 & Hm)] end; [done|lia|lia|..].
  { left. rewrite Hb. by exists e, f1, e1. }
  cbv beta zeta in Hm. rewrite Hm, Hb, pr_bind_Ok. clear Hm.
  destruct (get_shdr_table t f (sh_link s) Ht Hf (link_usize _ _ Hw)) as [(s' & Hgs & Htg & Hw')|(e & e' & Hgs & Htg)]; rewrite Hgs, Htg.
  2: { left. by eexists _, f1, _. }
  rewrite sm_lift_Ok, pr_bind_Ok. pose proof (shdr_fits _ _ Hw') as Hfit'.
  match goal with |- context [sm_bind _ (λ range, sm_bind _ (λ _, @?K range)) f1] =>
    destruct (load_section s' K f1) as [(e & f2 & e1 & Hm & Hf2 & Hb2)|(rg2 & buf2 & f2 & Hr2 & Hb2 & Hld2 & Hk2 & Hf2 & Hm)] end; [done|lia|lia|..];
    cbv beta zeta in Hm; rewrite Hm, Hb2.
  - left. by eexists _, f2, _.
  - right. rewrite pr_bind_Ok. eexists _, f2, _. split; [done|]. split; [done|]. split; [by eapply keeps_trans|]. split; [done|].
    intros f'' Hf'' Hk''. unfold wrap_linked. rewrite sm_get_bind, Hr2, sm_lift_Ok, (get_loaded _ _ _ _ (loaded_keeps _ _ _ _ Hk'' Hld2)).
    rewrite Hr, sm_lift_Ok, (get_loaded _ _ _ _ (loaded_keeps _ _ _ _ (keeps_trans _ _ _ Hk2 Hk'') Hld)).
    by rewrite (sa_ehdr _ _ Hf'').
Qed.

Lemma sim_symbol_versions : sim I eq stream_symbol_version_table (symbol_version_table g).
Proof.
  apply ends_sim. intros f Hf. unfold stream_symbol_version_table, symbol_version_table, section_headers. rewrite sm_get_bind.
  pose proof (sa_shdrs _ _ Hf) as Hi. destruct (shdrs g) as [t|] eqn:Ht; unfold items in Hi.
  2: { rewrite Hi. by eexists (Ok None), f, (Ok None). }
  rewrite Hi, bind_lift. destruct (shdrs_table t f Ht Hf) as (Htok & _ & Hwf).
  destruct (version_sections (se_shdrs f) None None None) as [[vo no] do_] eqn:Hv.
  destruct (se_shdrs f) as [|s0 l] eqn:Hl; [cbn in Hv; simplify_eq; by eexists (Ok None), f, (Ok None)|]. rewrite <-Hl in *. clear s0 l Hl.
  apply (version_sections_wf (table_class t)) in Hv as (Ha & Hn & Hd); [|done..].
  destruct vo as [s|]; [|by eexists (Ok None), f, (Ok None)]. pose proof (shdr_fits _ _ (Ha s eq_refl)) as Hfit.
  rewrite (sa_ehdr _ _ Hf). destruct (validate_entsize VersionIndex _ _) as [n|e]; [|apply ends_err; [done|by eexists]].
  rewrite sm_lift_Ok, pr_bind_Ok. section_load s; rewrite Hb; [apply ends_err; [done|by eexists]|]. rewrite pr_bind_Ok.
  unfold sm_bind at 1.
  destruct (load_linked_spec t no f0 Ht Hf0 Hn) as [(e & f1 & e1 & Hm & Hf1 & Hp)|(o1 & f1 & it1 & Hm & Hf1 & Hk1 & Hp & Hw1)]; rewrite Hm, Hp.
  { apply ends_err; [done|by eexists]. }
  rewrite pr_bind_Ok. unfold sm_bind at 1.
  destruct (load_linked_spec t do_ f1 Ht Hf1 Hd) as [(e & f2 & e1 & Hm2 & Hf2 & Hp2)|(o2 & f2 & it2 & Hm2 & Hf2 & Hk2 & Hp2 & Hw2)];
    rewrite Hm2, Hp2.
  { apply ends_err; [done|by eexists]. }
  rewrite pr_bind_Ok. unfold sm_bind at 1. rewrite (Hw1 f2 Hf2 Hk2). unfold sm_bind at 1. rewrite (Hw2 f2 Hf2 (keeps_refl _)).
  rewrite (get_loaded _ _ _ _ (loaded_keeps _ _ _ _ (keeps_trans _ _ _ Hk1 Hk2) Hld)). by eexists (Ok _), f2, (Ok _).
Qed.
End accessors.
End stream_of_file.

(** * Any reader *)

(** What every step keeps of a state. *)
Class Kept (S : Type) : Type := { kept : S → S → Prop; kept_pre :: PreOrder kept }.

(** [m] returns from every state with [I] and [P], and then [Q] holds of its value. *)
Definition safe {S A} `{Kept S} (I : S → Prop) (P : S → Prop) (m : SM S ParseError A) (Q : A → S → Prop) : Prop :=
  ∀ s, I s → P s → ∃ r s', m s = Ret (r, s') ∧ I s' ∧ kept s s' ∧ ∀ a, r = Ok a → Q a s'.

Section safe.
Context {S : Type} `{Kept S} (I : S → Prop).
Definition stable (P : S → Prop) : Prop := ∀ s s', kept s s' → P s → P s'.

Lemma safe_bind {A B} P (m : SM S ParseError A) Q (k : A → SM S ParseError B) Q' :
  stable P → safe I P m Q → (∀ a, safe I (λ s, P s ∧ Q a s) (k a) Q') → safe I P (sm_bind m k) Q'.
Proof.
  intros Hst Hm Hk s Hs HP. destruct (Hm s Hs HP) as (r & s1 & H1 & Hs1 & Hle & HQ). unfold sm_bind. rewrite H1.
  destruct r as [a|e]; [|by exists (Err e), s1].
  destruct (Hk a s1 Hs1 (conj (Hst _ _ Hle HP) (HQ a eq_refl))) as (r & s2 & H2 & Hs2 & Hle2 & HQ2).
  exists r, s2. split_and!; [done..|by trans s1|done].
Qed.
Lemma safe_ret {A} P (a : A) Q : (∀ s, I s → P s → Q a s) → safe I P (sm_ret a) Q.
Proof. intros HQ s Hs HP. exists (Ok a), s. split_and!; [done..|]. intros ? [= <-]. by apply HQ. Qed.
Lemma safe_lift {A} P (r : result A ParseError) : safe I P (sm_lift r) (λ _ _, True).
Proof. intros s Hs HP. by exists r, s. Qed.
Lemma safe_pure {A} P (m : PR A) Q : returns m → (∀ a, m = Ret (Ok a) → Q a) → safe I P (sm_pure m) (λ a _, Q a).
Proof. intros [r ->] HQ s Hs HP. exists r, s. split_and!; [done..|]. intros a ->. by apply HQ. Qed.
(** Steps that leave the state alone. *)
Lemma safe_lift_bind {A B} P (r : result A ParseError) (k : A → SM S ParseError B) Q :
  (∀ a, r = Ok a → safe I P (k a) Q) → safe I P (sm_bind (sm_lift r) k) Q.
Proof. intros Hk. destruct r as [a|e]; [by apply Hk|]. intros s Hs HP. by exists (Err e), s. Qed.
Lemma safe_pure_bind {A B} P (m : PR A) (k : A → SM S ParseError B) Q :
  returns m → (∀ a, m = Ret (Ok a) → safe I P (k a) Q) → safe I P (sm_bind (sm_pure m) k) Q.
Proof. intros [[a|e] ->] Hk; [by apply Hk|]. intros s Hs HP. by exists (Err e), s. Qed.
Lemma safe_fact {A} P (C : Prop) (m : SM S ParseError A) Q : (C → safe I P m Q) → safe I (λ s, P s ∧ C) m Q.
Proof. intros Hm s Hs [HP HC]. by apply Hm. Qed.
Lemma safe_get {A} P (k : S → SM S ParseError A) Q :
  (∀ s0, I s0 → P s0 → safe I (λ s, P s ∧ kept s0 s) (k s0) Q) → safe I P (sm_bind sm_get k) Q.
Proof. intros Hk s Hs HP. by apply (Hk s Hs HP s Hs). Qed.
Lemma safe_weaken {A} P P' (m : SM S ParseError A) Q Q' :
  (∀ s, P' s → P s) → (∀ a s, I s → Q a s → Q' a s) → safe I P m Q → safe I P' m Q'.
Proof.
  intros HP HQ Hm s Hs HP'. destruct (Hm s Hs (HP s HP')) as (r & s' & ? & ? & ? & Hr). exists r, s'. split_and!; eauto.
Qed.
Lemma stable_and P Q : stable P → stable Q → stable (λ s, P s ∧ Q s).
Proof. intros HP HQ s s' Hle [? ?]. eauto. Qed.
Lemma stable_kept s0 : stable (kept s0).
Proof. intros s s' Hle H0. by trans s. Qed.
Lemma stable_const (C : Prop) : stable (λ _, C).
Proof. by intros s s'. Qed.
End safe.
#[export] Hint Resolve stable_and stable_kept stable_const : kernel.

Section any_reader.
Context {R : Type} `{ReaderTypes R} {E : Type} `{EndianParse E}.

Record cr_safe (c : CachingReader R) : Prop := {
  cs_len : 0 ≤ cr_stream_len c < 2 ^ 63;
  cs_bufs a b buf : cr_bufs c !! (a, b) = Some buf → len buf = b - a ∧ slice_ok buf ∧ bytes_ok buf;
}.
Definition cr_le (c c' : CachingReader R) : Prop := cr_bufs c ⊆ cr_bufs c'.
Definition cr_loaded (a b : Z) (c : CachingReader R) : Prop := is_Some (cr_bufs c !! (a, b)).
Lemma cr_le_pre : PreOrder cr_le.
Proof. split; [by intros c; unfold cr_le|]. intros c1 c2 c3 Hle1 Hle2. unfold cr_le in *. by trans (cr_bufs c2). Qed.
#[export] Instance cr_kept : Kept (CachingReader R) := {| kept := cr_le; kept_pre := cr_le_pre |}.
Lemma stable_loaded a b : stable (cr_loaded a b).
Proof. intros c c' Hle [buf Hb]. exists buf. by eapply lookup_weaken. Qed.

Lemma safe_load a b P : 0 ≤ a ≤ b → safe cr_safe P (load_bytes a b) (λ _, cr_loaded a b).
Proof.
  intros Hab c Hc _. pose proof Hc as [Hlen Hbufs]. unfold load_bytes. destruct (cr_bufs c !! (a, b)) as [buf|] eqn:Hb.
  { exists (Ok tt), c. split_and!; [done..|]. intros. by exists buf. }
  assert (∀ r, cr_safe (with_reader r c) ∧ cr_le c (with_reader r c)) as Hw by (intros r; split; [by split|by unfold cr_le]).
  destruct (Z.ltb_spec (cr_stream_len c) b); [by eexists (Err _), c; split_and!|].
  destruct (seek_start a (cr_reader c)) as [[p|] r1]; [|eexists (Err _), _; split_and!; [done|apply Hw|apply Hw|done]].
  assert (range_len a b = b - a) as -> by (unfold range_len; case_Z1; lia).
  destruct (Z.leb_spec (2 ^ 63) (b - a)); [lia|].
  destruct (read_exact (b - a) r1) as [[buf|] r2] eqn:Hr; [|eexists (Err _), _; split_and!; [done|apply Hw|apply Hw|done]].
  apply read_fills in Hr as [Hl Hbo]; [|lia]. eexists (Ok tt), _. split; [done|]. split; [|split].
  - split; [done|]. cbn. intros a' b' buf' [[[= -> ->] <-]|[_ Hb']]%lookup_insert_Some; [|by apply Hbufs].
    split_and!; [done| |done]. unfold slice_ok. lia.
  - by apply insert_subseteq.
  - intros _ _. unfold cr_loaded. cbn. rewrite lookup_insert_eq. by eexists.
Qed.
Definition of_len (n : Z) (buf : bytes) : Prop := len buf = n ∧ slice_ok buf ∧ bytes_ok buf.
Lemma safe_cr_get a b P : (∀ c, P c → cr_loaded a b c) → safe cr_safe P (cr_get_bytes a b) (λ buf _, of_len (b - a) buf).
Proof.
  intros HP c Hc Hpc. destruct (HP c Hpc) as [buf Hb]. unfold cr_get_bytes. rewrite Hb. exists (Ok buf), c.
  split_and!; [done..|]. intros ? [= <-]. by apply Hc.
Qed.
Lemma safe_read a b P : stable P → 0 ≤ a ≤ b → safe cr_safe P (read_bytes a b) (λ buf _, of_len (b - a) buf).
Proof.
  intros HP Hab. eapply safe_bind; [done|by apply safe_load|]. intros []. apply safe_cr_get. tauto.
Qed.

Lemma safe_read_bind {A} a b P (k : bytes → SM (CachingReader R) ParseError A) Q :
  stable P → 0 ≤ a ≤ b → (∀ buf, of_len (b - a) buf → safe cr_safe P (k buf) Q) → safe cr_safe P (sm_bind (read_bytes a b) k) Q.
Proof. intros HP Hab Hk. eapply safe_bind; [done|by apply safe_read|]. intros buf. cbv beta. apply safe_fact, Hk. Qed.

(** *** Opening *)
Abbreviation reads m Q := (safe cr_safe (λ _, True) m (λ a _, Q a)).

Lemma safe_number (h : FileHeader E) (b : bool) get d entsize :
  0 ≤ e_shoff h → entsize = size_for SectionHeader (class h) → (∀ s, wf_entry (class h) s → 0 ≤ get s) → 0 ≤ d →
  reads (if b then
       let! end_ := sm_lift (ok_or (checked_add (e_shoff h) entsize) IntegerOverflow) in
       let! data := read_bytes (e_shoff h) end_ in let! shdr0 := parse_shdr0 h data in sm_ret (get shdr0)
     else sm_ret d) (λ n, 0 ≤ n).
Proof.
  intros Ho -> Hget Hd. destruct b; [|by apply safe_ret]. pose proof (exact_size (P := SectionHeader) (class h)) as Hsz.
  apply safe_lift_bind. intros end_ He. unfold checked_add in He. case_match; simplify_eq/=.
  apply safe_read_bind; [by apply stable_const|lia|]. intros buf (Hl & Hs & Hb).
  destruct (read_shdr0_spec h buf 0 Hs Hb) as (r & Hr & Hw); [lia|]. unfold read_shdr0 in Hr.
  apply safe_pure_bind; [by exists r|]. intros s Hrs. apply safe_ret. intros _ _ _. apply Hget, Hw. congruence.
Qed.
Lemma safe_table {P} `{ParseAt P, !ExactParse P, !Format P, !FaithfulParse P} (h : FileHeader E) off entsize num :
  0 ≤ off → 0 ≤ entsize → 0 ≤ num →
  reads (let! size := sm_lift (ok_or (checked_mul entsize num) IntegerOverflow) in
     let! end_ := sm_lift (ok_or (checked_add off size) IntegerOverflow) in
     let! buf := read_bytes off end_ in
     sm_pure (pr_lift (table_items (Build_ParsingTable (P:=P) (endianness h) (class h) buf)))) (Forall (wf_entry (class h))).
Proof.
  intros Ho He Hn. apply safe_lift_bind. intros size Hsize. apply safe_lift_bind. intros end_ Hend.
  apply safe_read_bind; [by apply stable_const| |].
  { unfold checked_mul, checked_add in *. repeat case_match; simplify_eq/=; nia. }
  intros buf (_ & Hs & Hb).
  destruct (wf_items (Build_ParsingTable (P:=P) (endianness h) (class h) buf) (conj Hs Hb)) as (l & Hl & Hwf). rewrite Hl.
  apply safe_pure; [by eexists|]. by intros l' [= <-].
Qed.

Lemma entsize_ok P `{ParseAt P} c entsize n : validate_entsize P c entsize = Ok n → n = size_for P c.
Proof. unfold validate_entsize. case_Z1; intros; by simplify_eq. Qed.
Lemma safe_section_headers (h : FileHeader E) :
  header_nonneg h → reads (parse_section_headers h) (Forall (wf_entry (class h))).
Proof.
  intros (_ & Hso & _ & Hsn & _). unfold parse_section_headers. case_Z1; [by apply safe_ret|].
  pose proof (exact_size (P := SectionHeader) (class h)) as Hsz. apply safe_lift_bind. intros entsize He%entsize_ok.
  eapply safe_bind; [by apply stable_const|apply safe_number; [lia|done|intros s Hf; apply shdr_fits in Hf; lia|lia]|].
  intros num. cbv beta. apply (safe_fact _ (λ _, True)). intros Hnum. apply safe_table; lia.
Qed.
Lemma safe_program_headers (h : FileHeader E) :
  header_nonneg h → reads (parse_program_headers h) (Forall (wf_entry (class h))).
Proof.
  intros (Hpo & Hso & Hpn & Hsn & _). unfold parse_program_headers. case_Z1; [by apply safe_ret|].
  pose proof (exact_size (P := ProgramHeader) (class h)) as Hsz.
  eapply safe_bind; [by apply stable_const|apply safe_number; [lia|done|intros s Hf; apply shdr_fits in Hf; lia|lia]|].
  intros num. cbv beta. apply (safe_fact _ (λ _, True)). intros Hnum. apply safe_lift_bind. intros entsize He%entsize_ok. apply safe_table; lia.
Qed.

Definition headers_ok (h : FileHeader E) (sl : list SectionHeader) (pl : list ProgramHeader) : Prop :=
  header_nonneg h ∧ Forall (wf_entry (class h)) sl ∧ Forall (wf_entry (class h)) pl.
Lemma safe_read_headers : reads read_headers (λ a, headers_ok a.1.1 a.1.2 a.2).
Proof.
  unfold read_headers. apply safe_read_bind; [by apply stable_const|by unfold EI_NIDENT|]. intros ib (Hil & _ & _).
  apply safe_pure_bind; [apply parse_ident_returns; unfold EI_NIDENT in *; lia|]. intros ident _.
  apply safe_read_bind; [by apply stable_const| |].
  { unfold EI_NIDENT, ELF32_EHDR_TAILSIZE, ELF64_EHDR_TAILSIZE. destruct (snd (fst (fst ident))); lia. }
  intros tb (_ & Hts & Htb). destruct (parse_tail_spec ident tb Hts Htb) as (rh & Hrh & Hnn).
  apply safe_pure_bind; [by eexists|]. intros h Hh. assert (header_nonneg h) as Hok by (apply Hnn; congruence).
  eapply safe_bind; [by apply stable_const|by apply safe_section_headers|]. intros sl. cbv beta. apply (safe_fact _ (λ _, True)). intros Hsl.
  eapply safe_bind; [by apply stable_const|by apply safe_program_headers|]. intros pl. cbv beta. apply (safe_fact _ (λ _, True)). intros Hpl.
  by apply safe_ret.
Qed.

(** *** Accessors *)
Record es_safe (f : ElfStream E R) : Prop := {
  es_headers : headers_ok (se_ehdr f) (se_shdrs f) (se_phdrs f);
  es_reader : cr_safe (se_reader f);
}.
Definition es_le (f f' : ElfStream E R) : Prop :=
  se_ehdr f' = se_ehdr f ∧ se_shdrs f' = se_shdrs f ∧ se_phdrs f' = se_phdrs f ∧ cr_le (se_reader f) (se_reader f').
Lemma es_le_pre : PreOrder es_le.
Proof.
  split; [intros f; split_and!; [done..|by unfold cr_le]|]. intros f1 f2 f3 (? & ? & ? & Hle1) (? & ? & ? & Hle2).
  split_and!; [congruence..|]. unfold cr_le in *. by etrans.
Qed.
#[export] Instance es_kept : Kept (ElfStream E R) := {| kept := es_le; kept_pre := es_le_pre |}.
Definition es_loaded (range : Z * Z) (f : ElfStream E R) : Prop := cr_loaded range.1 range.2 (se_reader f).
Lemma stable_es_loaded range : stable (es_loaded range).
Proof. intros f f' (_ & _ & _ & Hle). by apply stable_loaded. Qed.
#[local] Hint Resolve stable_es_loaded : kernel.

Lemma safe_on_reader {A} P (m : SM (CachingReader R) ParseError A) Q :
  safe cr_safe (λ _, True) m Q → safe es_safe P (on_reader m) (λ a f, Q a (se_reader f)).
Proof.
  intros Hm f [Hh Hc] _. destruct (Hm _ Hc I) as (r & c & H1' & H2' & H3' & H4'). unfold on_reader. rewrite H1'.
  eexists r, _. split_and!; [done|by split|by split_and!|done].
Qed.
Lemma range_ok s range : get_data_range s = Ok range → 0 ≤ sh_offset s → 0 ≤ sh_size s → 0 ≤ range.1 ≤ range.2.
Proof. unfold get_data_range, checked_add. intros Hr Ho Hs. repeat case_match; simplify_eq/=; lia. Qed.
Lemma safe_es_load range P : 0 ≤ range.1 ≤ range.2 → safe es_safe P (on_reader (load_bytes (fst range) (snd range))) (λ _, es_loaded range).
Proof. intros Hr. apply (safe_on_reader P _ (λ _, cr_loaded range.1 range.2)). by apply safe_load. Qed.
Lemma safe_es_get range P :
  (∀ f, P f → es_loaded range f) → safe es_safe P (on_reader (cr_get_bytes (fst range) (snd range))) (λ _ _, True).
Proof.
  intros HP f Hf HPf. destruct (HP f HPf) as [buf Hb]. unfold on_reader, cr_get_bytes. rewrite Hb. exists (Ok buf), f.
  split_and!; [by destruct f|done|reflexivity|done].
Qed.
Lemma safe_es_read a b P :
  0 ≤ a ≤ b → safe es_safe P (on_reader (read_bytes a b)) (λ buf _, slice_ok buf ∧ bytes_ok buf).
Proof.
  intros Hab. eapply safe_weaken; [by intros f Hf; exact Hf| |apply (safe_on_reader P _ (λ buf _, of_len (b - a) buf))].
  - intros buf f _ (_ & Hs & Hb). done.
  - by apply safe_read; [apply stable_const|].
Qed.
Lemma safe_read_section s P : 0 ≤ sh_offset s → 0 ≤ sh_size s → safe es_safe P (read_section s) (λ buf _, slice_ok buf ∧ bytes_ok buf).
Proof. intros Ho Hs. apply safe_lift_bind. intros range Hr. apply safe_es_read. by eapply range_ok. Qed.
Lemma safe_read_segment ph P : 0 ≤ p_offset ph → 0 ≤ p_filesz ph → safe es_safe P (read_segment ph) (λ buf _, slice_ok buf ∧ bytes_ok buf).
Proof.
  intros Ho Hs. apply safe_lift_bind. intros range Hr. apply safe_es_read.
  unfold get_file_data_range, checked_add in Hr. repeat case_match; simplify_eq/=; lia.
Qed.

(** An accessor returns, and leaves the stream usable. *)
Abbreviation accessor m := (safe es_safe (λ _, True) m (λ _ _, True)).
Ltac fields Hf := let Hh := fresh "Hh" in let Hsl := fresh "Hsl" in let Hpl := fresh "Hpl" in
  pose proof (es_headers _ Hf) as (Hh & Hsl & Hpl).

Lemma shdr_found f i s : es_safe f → get_shdr f i = Ok s → 0 ≤ sh_offset s ∧ 0 ≤ sh_size s.
Proof.
  intros Hf Hs. fields Hf. unfold get_shdr in Hs. destruct (se_shdrs f !! _) as [s'|] eqn:Hl; simplify_eq/=.
  rewrite Forall_forall in Hsl. apply list_elem_of_lookup_2, Hsl, shdr_fits in Hl. lia.
Qed.
Lemma find_fits f q s : es_safe f → List.find q (se_shdrs f) = Some s → wf_entry (class (se_ehdr f)) s ∧ 0 ≤ sh_offset s ∧ 0 ≤ sh_size s.
Proof.
  intros Hf [Hin _]%List.find_some. fields Hf. rewrite Forall_forall in Hsl. apply list_elem_of_In, Hsl in Hin.
  split; [done|]. apply shdr_fits in Hin. lia.
Qed.

Lemma safe_with_strtab : accessor stream_section_headers_with_strtab.
Proof.
  apply safe_get. intros f0 Hf0 _. destruct (se_shdrs f0) eqn:Hl; [by apply safe_ret|]. case_match; [by apply safe_ret|].
  apply safe_lift_bind. intros strtab Hs. apply shdr_found in Hs as [Ho Hz]; [|done].
  eapply safe_bind; [by eauto 12 with kernel|by apply safe_read_section|]. intros buf. by apply safe_ret.
Qed.
Lemma safe_by_name name : accessor (stream_section_header_by_name name).
Proof.
  eapply safe_bind; [apply stable_const|apply safe_with_strtab|]. intros [l [strs|]]; by apply safe_ret.
Qed.
Lemma safe_section_data s : 0 ≤ sh_offset s → 0 ≤ sh_size s → accessor (stream_section_data s).
Proof.
  intros Ho Hs. unfold stream_section_data. case_Z1; [by apply safe_ret|]. apply safe_get. intros f0 Hf0 _.
  eapply safe_bind; [by eauto 12 with kernel|by apply safe_read_section|]. intros buf. cbv beta. apply safe_fact. intros [Hsb Hbb].
  case_match; [by apply safe_ret|]. apply safe_pure; [|done].
  destruct (exact_parse (P := CompressionHeader) (endianness (se_ehdr f0)) (class (se_ehdr f0)) buf Hsb 0) as [Hok Herr]; [lia|].
  unfold returns, sm_bind, sm_get, sm_lift, sm_ret. pose proof (exact_size (P := CompressionHeader) (class (se_ehdr f0))).
  destruct (Z.lt_ge_cases (len buf) (0 + size_for CompressionHeader (class (se_ehdr f0)))).
  - destruct Herr as (e & o & Hp & _); [lia|]. cbn in Hp. rewrite Hp. by eexists.
  - destruct Hok as [c Hp]; [lia|]. cbn in Hp. rewrite Hp. by destruct (slice_from buf _); eexists.
Qed.
Lemma safe_as_bytes {A} s (K : ElfStream E R → bytes → A) type : 0 ≤ sh_offset s → 0 ≤ sh_size s →
  accessor (let! self := sm_get in do! sm_lift (expect_type (sh_type s) type) in let! buf := read_section s in sm_ret (K self buf)).
Proof.
  intros Ho Hs. apply safe_get. intros f0 Hf0 _. apply safe_lift_bind. intros [] _.
  eapply safe_bind; [by eauto 12 with kernel|by apply safe_read_section|]. intros buf. by apply safe_ret.
Qed.
Lemma safe_segment_as_notes ph : 0 ≤ p_offset ph → 0 ≤ p_filesz ph → accessor (stream_segment_as_notes ph).
Proof.
  intros Ho Hs. apply safe_get. intros f0 Hf0 _. apply safe_lift_bind. intros [] _.
  eapply safe_bind; [by eauto 12 with kernel|by apply safe_read_segment|]. intros buf. by apply safe_ret.
Qed.
Lemma safe_symbol_table type : accessor (get_symbol_table_of_type type).
Proof.
  apply safe_get. intros f0 Hf0 _. destruct (se_shdrs f0) as [|s0 l] eqn:Hl; [by apply safe_ret|]. rewrite <-Hl. clear s0 l Hl.
  destruct (List.find _ _) as [s|] eqn:Hfind; [|by apply safe_ret]. destruct (find_fits _ _ _ Hf0 Hfind) as (_ & Ho & Hz).
  apply safe_lift_bind. intros r1 Hr1. eapply safe_bind; [by eauto 12 with kernel|apply safe_es_load; by eapply range_ok|]. intros [].
  apply safe_lift_bind. intros s' Hs'. apply shdr_found in Hs' as [Ho' Hz']; [|done].
  apply safe_lift_bind. intros r2 Hr2. eapply safe_bind; [by eauto 12 with kernel|apply safe_es_load; by eapply range_ok|]. intros [].
  apply safe_lift_bind. intros n _. eapply safe_bind; [by eauto 12 with kernel|apply safe_es_get; tauto|]. intros b1.
  eapply safe_bind; [by eauto 12 with kernel|apply safe_es_get; tauto|]. intros b2. by apply safe_ret.
Qed.
Lemma safe_dynamic : accessor stream_dynamic.
Proof.
  apply safe_get. intros f0 Hf0 _. fields Hf0. destruct (se_shdrs f0) as [|s0 l] eqn:Hl; [destruct (se_phdrs f0) as [|p0 pl] eqn:Hp|].
  - by apply safe_ret.
  - rewrite <-Hp in *. destruct (List.find _ _) as [ph|] eqn:Hfind; [|by apply safe_ret]. apply List.find_some in Hfind as [Hin _].
    rewrite Forall_forall in Hpl. apply list_elem_of_In, Hpl, phdr_fits in Hin.
    eapply safe_bind; [by eauto 12 with kernel|apply safe_read_segment; lia|]. intros buf. by apply safe_ret.
  - rewrite <-Hl. destruct (List.find _ _) as [s|] eqn:Hfind; [|by apply safe_ret]. apply find_fits in Hfind as (_ & Ho & Hz); [|done].
    eapply safe_bind; [by eauto 12 with kernel|by apply safe_read_section|]. intros buf. by apply safe_ret.
Qed.

Definition linked (o : option (SectionHeader * SectionHeader)) (f : ElfStream E R) : Prop :=
  ∀ s s', o = Some (s, s') → ∃ r r', get_data_range s = Ok r ∧ es_loaded r f ∧ get_data_range s' = Ok r' ∧ es_loaded r' f.
Lemma stable_linked o : stable (linked o).
Proof.
  intros f f' Hle Hl s s' Ho. destruct (Hl s s' Ho) as (r & r' & Hr & H1' & Hr' & H2'). exists r, r'.
  split_and!; [done| |done|]; by eapply stable_es_loaded.
Qed.
#[local] Hint Resolve stable_linked : kernel.
Lemma safe_load_linked o P :
  stable P → (∀ s, o = Some s → 0 ≤ sh_offset s ∧ 0 ≤ sh_size s) → safe es_safe P (load_linked o) linked.
Proof.
  intros HP Ho. apply safe_get. intros f0 Hf0 _. destruct o as [s|]; [|by apply safe_ret]. destruct (Ho s eq_refl) as [Hos Hz].
  apply safe_lift_bind. intros r1 Hr1. eapply safe_bind; [by eauto 12 with kernel|apply safe_es_load; by eapply range_ok|]. intros [].
  apply safe_lift_bind. intros s' Hs'. apply shdr_found in Hs' as [Ho' Hz']; [|done].
  apply safe_lift_bind. intros r2 Hr2. eapply safe_bind; [by eauto 12 with kernel|apply safe_es_load; by eapply range_ok|]. intros [].
  apply safe_ret. intros f _ [[_ Hl1] Hl2] ? ? [= <- <-]. by exists r1, r2.
Qed.
Lemma safe_wrap_linked o P : stable P → (∀ f, P f → linked o f) → safe es_safe P (wrap_linked o) (λ _ _, True).
Proof.
  intros HP Hl. apply safe_get. intros f0 Hf0 HPf0. destruct o as [[s s']|]; [|by apply safe_ret].
  destruct (Hl f0 HPf0 s s' eq_refl) as (r & r' & Hr & _ & Hr' & _).
  assert (∀ f, P f → es_loaded r f ∧ es_loaded r' f) as Hboth.
  { intros f Hf. destruct (Hl f Hf s s' eq_refl) as (x & y & Hx & Hlx & Hy & Hly).
    rewrite Hr in Hx. rewrite Hr' in Hy. by simplify_eq. }
  rewrite Hr', Hr. apply safe_lift_bind. intros ? [= <-].
  eapply safe_bind; [by eauto 12 with kernel|apply safe_es_get; intros f [Hf _]; by destruct (Hboth f Hf)|]. intros b1.
  apply safe_lift_bind. intros ? [= <-].
  eapply safe_bind; [by eauto 12 with kernel|apply safe_es_get; intros f [[Hf _] _]; by destruct (Hboth f Hf)|]. intros b2. by apply safe_ret.
Qed.
Lemma safe_symbol_versions : accessor stream_symbol_version_table.
Proof.
  apply safe_get. intros f0 Hf0 _. fields Hf0. destruct (se_shdrs f0) as [|s0 l] eqn:Hl; [by apply safe_ret|]. rewrite <-Hl in *. clear s0 l Hl.
  destruct (version_sections (se_shdrs f0) None None None) as [[vo no] do_] eqn:Hv.
  apply (version_sections_wf (class (se_ehdr f0))) in Hv as (Ha & Hn & Hd); [|done..].
  destruct vo as [s|]; [|by apply safe_ret]. pose proof (shdr_fits _ _ (Ha s eq_refl)) as Hfit.
  apply safe_lift_bind. intros n _. apply safe_lift_bind. intros r1 Hr1.
  eapply safe_bind; [by eauto 12 with kernel|apply safe_es_load; eapply range_ok; [done|lia..]|]. intros [].
  eapply safe_bind; [by eauto 12 with kernel|apply safe_load_linked; [by eauto 12 with kernel|intros s' Hs'%Hn%shdr_fits; lia]|]. intros o1.
  eapply safe_bind; [by eauto 12 with kernel|apply safe_load_linked; [by eauto 12 with kernel|intros s' Hs'%Hd%shdr_fits; lia]|]. intros o2.
  eapply safe_bind; [by eauto 12 with kernel|apply safe_wrap_linked; [by eauto 12 with kernel|tauto]|]. intros it1.
  eapply safe_bind; [by eauto 12 with kernel|apply safe_wrap_linked; [by eauto 12 with kernel|tauto]|]. intros it2.
  eapply safe_bind; [by eauto 12 with kernel|apply safe_es_get; tauto|]. intros b. by apply safe_ret.
Qed.
End any_reader.

(** ** A reader of bytes in memory *)

(** [io::Cursor] over [data]: its state is the position. *)
Definition cursor (data : bytes) : ReadSeek Z := {|
  seek_end p := (Some (len data), len data);
  seek_start q p := (Some q, q);
  read_exact n p := if (0 <=? p) && (0 <=? n) && (p + n <=? len data)
                    then (Some (take (Z.to_nat n) (drop (Z.to_nat p) data)), p + n) else (None, p) |}.
Lemma cursor_types data : slice_ok data → bytes_ok data → @ReaderTypes Z (cursor data).
Proof.
  intros Hs Hb. split; cbn.
  - intros n r b r' Hn Hr. case_match eqn:Hc; simplify_eq. apply andb_true_iff in Hc as [[H1 H2]%andb_true_iff H3].
    apply Z.leb_le in H1, H2, H3. split; [unfold len in *; rewrite length_take, length_drop; lia|].
    by apply Forall_take, Forall_drop.
  - intros r n r' [= <- _]. unfold slice_ok in Hs. pose proof (len_nonneg data). lia.
Qed.
Definition cursor_of (data : bytes) : @ReaderOf Z (cursor data) data.
Proof.
  refine {| reader_ok _ := True; reader_at p r := r = p |}; cbn.
  - done.
  - intros r _. by eexists.
  - intros p r _ _. by eexists.
  - intros p n r -> Hp Hn Hle. rewrite (proj2 (Z.leb_le 0 p)), (proj2 (Z.leb_le 0 n)), (proj2 (Z.leb_le _ _) Hle) by done. by eexists.
Defined.
Lemma demo_file_ok : slice_ok demo_file ∧ bytes_ok demo_file.
Proof.
  split; [vm_compute; reflexivity|]. vm_compute. repeat (constructor; [split; [discriminate|reflexivity]|]). constructor.
Qed.

(** * Properties *)

(** Opening a stream of a file and opening its bytes are the same: [open_stream] over any
    reader of [data] and [minimal_parse data] both return, succeed on the same files, and
    then have the same file header, the section headers and program headers collected
    by the one are the entries of the tables of the other, and the stream is left with
    an empty cache of correct ranges. *)
Theorem stream_opens_same {R} `{ReadSeek R} data {rof : ReaderOf R data} {E} `{EndianParse E} reader :
  slice_ok data → bytes_ok data → reader_ok reader →
  ∃ r r2, open_stream (E:=E) reader = Ret r ∧ minimal_parse data = Ret r2 ∧
    match r, r2 with Ok f, Ok g => same data g f | Err _, Err _ => True | _, _ => False end.
Proof. intros Hd Hb Hr. by apply open_same. Qed.
Lemma stream_opens_same_witness :
  ∃ r r2, @open_stream Z (cursor demo_file) AnyEndian _ 0 = Ret r ∧ minimal_parse demo_file = Ret r2 ∧
    match r, r2 with Ok f, Ok g => @same _ _ demo_file (cursor_of demo_file) _ _ g f | Err _, Err _ => True | _, _ => False end.
Proof.
  apply (@stream_opens_same Z (cursor demo_file) demo_file (cursor_of demo_file) AnyEndian _ 0).
  - apply demo_file_ok.
  - apply demo_file_ok.
  - exact I.
Defined.


(** Streams are safe over any reader: whatever lengths, errors and bytes the reader
    returns, even different ones for the same range, [open_stream] returns, and every
    accessor of an opened stream returns and leaves it usable; in particular the cache
    never misses a range that was loaded, where [get_bytes] would panic. *)
Theorem stream_any_reader_safe {R} `{ReaderTypes R} {E} `{EndianParse E} reader name s ph :
  0 ≤ sh_offset s → 0 ≤ sh_size s → 0 ≤ p_offset ph → 0 ≤ p_filesz ph →
  let usable {A} (m : SM (ElfStream E R) ParseError A) := ∀ f, es_safe f → ∃ r f', m f = Ret (r, f') ∧ es_safe f' in
  (∃ r, open_stream (E:=E) reader = Ret r ∧ ∀ f, r = Ok f → es_safe f) ∧
  usable stream_section_headers_with_strtab ∧ usable (stream_section_header_by_name name) ∧
  usable (stream_section_data s) ∧ usable (stream_as_strtab s) ∧ usable (stream_as_rels s) ∧ usable (stream_as_relas s) ∧
  usable (stream_as_notes s) ∧ usable (stream_segment_as_notes ph) ∧ usable stream_symbol_table ∧
  usable stream_dynamic_symbol_table ∧ usable stream_dynamic ∧ usable stream_symbol_version_table.
Proof.
  intros Ho Hz Hpo Hpz usable.
  assert (∀ A (m : SM (ElfStream E R) ParseError A), safe es_safe (λ _, True) m (λ _ _, True) → usable A m) as Huse.
  { intros A m Hm f Hf. destruct (Hm f Hf I) as (r & f' & ? & ? & _). by exists r, f'. }
  split.
  { unfold open_stream, CachingReader_new. destruct (seek_end reader) as [[n|] r'] eqn:Hse; [|by eexists]. cbn [pr_bind].
    apply stream_length in Hse. destruct (safe_read_headers (Build_CachingReader r' n ∅)) as (r & c & -> & Hc & _ & Hr); [|done|].
    - split; [done|]. cbn. intros a b buf. by rewrite lookup_empty.
    - destruct r as [[[h sl] pl]|e]; [|by eexists]. eexists. split; [done|]. intros f [= <-].
      split; [by apply (Hr _ eq_refl)|]. split; [apply Hc|]. cbn. intros a b buf. by rewrite lookup_empty. }
  split_and!; apply Huse.
  - apply safe_with_strtab.
  - apply safe_by_name.
  - by apply safe_section_data.
  - unfold stream_as_strtab. apply safe_lift_bind. intros [] _. eapply safe_weaken; [by intros f Hf; exact Hf|done|by apply safe_read_section].
  - by apply safe_as_bytes.
  - by apply safe_as_bytes.
  - by apply safe_as_bytes.
  - by apply safe_segment_as_notes.
  - apply safe_symbol_table.
  - apply safe_symbol_table.
  - apply safe_dynamic.
  - apply safe_symbol_versions.
Qed.
Lemma stream_any_reader_safe_witness :
  ∃ r, @open_stream Z (cursor demo_file) AnyEndian _ 0 = Ret r ∧ ∀ f, r = Ok f → es_safe f.
Proof.
  apply (@stream_any_reader_safe Z (cursor demo_file) (cursor_types demo_file (proj1 demo_file_ok) (proj2 demo_file_ok)) AnyEndian _ 0 []
    (Build_SectionHeader 0 0 0 0 0 0 0 0 0 0) demo_dyn_phdr); cbn; lia.
Defined.
