(* ===== verification/CString.v ===== *)
(** The string functions of the C library: [ulib/axlibc/c/string.c] and [ctype.c].

    Memory is a function from addresses to bytes, and a pointer is its address.  [char]
    is unsigned, as on the default target riscv64.  A loop that ends at a byte of the
    string has fuel, and [None] says that it is still running; a loop over a count is
    structural on it.  The theorems (in [CStringProps.v]) compare every function with a
    definition on lists of bytes, on every memory in which the arguments are strings. *)

From stdpp Require Import prelude list.
From Stdlib Require Import ZArith Lia.
From S2P Require Import Prelude.
Local Open Scope Z_scope.

Definition memory : Type := Z → Z.
(** [*p = v] for an [unsigned char *]. *)
Definition store (m : memory) (p v : Z) : memory := λ q, if q =? p then v mod 256 else m q.

(** ** [ctype.h] and [ctype.c] *)

(** [((unsigned)(a) - lo) < n]. *)
Definition in_class (a lo n : Z) : bool := (a mod 2 ^ 32 - lo) mod 2 ^ 32 <? n.
Definition isalpha (a : Z) : bool := (Z.lor (a mod 2 ^ 32) 32 - 97) mod 2 ^ 32 <? 26.
Definition isdigit (a : Z) : bool := in_class a 48 10.
Definition islower (a : Z) : bool := in_class a 97 26.
Definition isupper (a : Z) : bool := in_class a 65 26.
Definition isascii (a : Z) : bool := Z.land a (Z.lnot 0x7f) =? 0.
Definition isspace (a : Z) : bool := (a =? 32) || in_class a 9 5.
Definition tolower (c : Z) : Z := if isupper c then Z.lor c 32 else c.
Definition toupper (c : Z) : Z := if islower c then Z.land c 0x5f else c.

(** ** Lengths and searches *)

(** [for (; *s; s++);]. *)
Fixpoint skip_string (fuel : nat) (m : memory) (s : Z) : option Z :=
  match fuel with
  | O => None
  | S fuel => if m s =? 0 then Some s else skip_string fuel m (s + 1)
  end.
Definition strlen (fuel : nat) (m : memory) (s : Z) : option Z := e ← skip_string fuel m s; Some (e - s).

Fixpoint memchr_loop (n : nat) (m : memory) (s c : Z) : option Z :=
  match n with
  | O => None
  | S n => if m s =? c then Some s else memchr_loop n m (s + 1) c
  end.
(** [None] is the null pointer. *)
Definition memchr (m : memory) (src c n : Z) : option Z := memchr_loop (Z.to_nat n) m src (c mod 256).
Definition strnlen (m : memory) (s n : Z) : Z := match memchr m s 0 n with Some p => p - s | None => n end.

(** [while (p( *s)) s++;]. *)
Fixpoint skip_while (p : Z → bool) (fuel : nat) (m : memory) (s : Z) : option Z :=
  match fuel with
  | O => None
  | S fuel => if p (m s) then skip_while p fuel m (s + 1) else Some s
  end.
(** [n = 10 * n - ( *s++ - '0')] on an integer of [w] bits. *)
Fixpoint digits_loop (w : Z) (fuel : nat) (m : memory) (s n : Z) : option Z :=
  match fuel with
  | O => None
  | S fuel => if isdigit (m s) then digits_loop w fuel m (s + 1) (to_signed w (10 * n - (m s - 48))) else Some n
  end.
(** [atoi] and [atoll] differ in the width. *)
Definition ato (w : Z) (fuel : nat) (m : memory) (s : Z) : option Z :=
  s ← skip_while isspace fuel m s;
  let neg := m s =? 45 in
  let s := if neg || (m s =? 43) then s + 1 else s in
  n ← digits_loop w fuel m s 0;
  Some (if neg then n else to_signed w (- n)).
Definition atoi (fuel : nat) (m : memory) (s : Z) : option Z := ato 32 fuel m s.

(** ** Filling and copying *)

Fixpoint fill_loop (n : nat) (m : memory) (s c : Z) : memory :=
  match n with
  | O => m
  | S n => fill_loop n (store m s c) (s + 1) c
  end.
Definition memset (m : memory) (dest c n : Z) : memory :=
  let s := dest in
  if n =? 0 then m
  else
    let m := store m s c in
    let m := store m (s + (n - 1)) c in
    if n <=? 2 then m
    else
      let m := store m (s + 1) c in
      let m := store m (s + 2) c in
      let m := store m (s + (n - 2)) c in
      let m := store m (s + (n - 3)) c in
      if n <=? 6 then m
      else
        let m := store m (s + 3) c in
        let m := store m (s + (n - 4)) c in
        if n <=? 8 then m
        else
          let k := Z.land (usub 0 s) 3 in
          let s := s + k in
          let n := usub n k in
          let n := Z.land n (usub 0 4) in
          fill_loop (Z.to_nat n) m s c.

(** [for (; ( *d = *s); s++, d++);]. *)
Fixpoint strcpy (fuel : nat) (m : memory) (d s : Z) : option (Z * memory) :=
  match fuel with
  | O => None
  | S fuel =>
      let m' := store m d (m s) in
      if m' d =? 0 then Some (d, m') else strcpy fuel m' (d + 1) (s + 1)
  end.
Fixpoint strncpy_loop (n : nat) (m : memory) (d s : Z) : Z * memory :=
  match n with
  | O => (d, m)
  | S n =>
      let m' := store m d (m s) in
      if m' d =? 0 then (d, m') else strncpy_loop n m' (d + 1) (s + 1)
  end.
Definition strncpy (m : memory) (d s n : Z) : Z * memory := strncpy_loop (Z.to_nat n) m d s.
Definition strcat (fuel : nat) (m : memory) (d s : Z) : option (Z * memory) :=
  l ← strlen fuel m d;
  r ← strcpy fuel m (d + l) s;
  Some (d, snd r).
(** [while (n && *s) n--, *d++ = *s++;]. *)
Fixpoint strncat_loop (n : nat) (m : memory) (d s : Z) : Z * memory :=
  match n with
  | O => (d, m)
  | S n => if m s =? 0 then (d, m) else strncat_loop n (store m d (m s)) (d + 1) (s + 1)
  end.
Definition strncat (fuel : nat) (m : memory) (d s n : Z) : option (Z * memory) :=
  l ← strlen fuel m d;
  let '(e, m) := strncat_loop (Z.to_nat n) m (d + l) s in
  Some (d, store m e 0).

Fixpoint copy_loop (n : nat) (m : memory) (d s : Z) : memory :=
  match n with
  | O => m
  | S n => copy_loop n (store m d (m s)) (d + 1) (s + 1)
  end.
Definition memcpy (m : memory) (dest src n : Z) : memory := copy_loop (Z.to_nat n) m dest src.
(** [while (n) n--, d[n] = s[n];]. *)
Fixpoint copy_back (n : nat) (m : memory) (d s : Z) : memory :=
  match n with
  | O => m
  | S n => copy_back n (store m (d + Z.of_nat n) (m (s + Z.of_nat n))) d s
  end.
Definition memmove (m : memory) (dest src n : Z) : memory :=
  if dest =? src then m
  else if usub (usub src dest) n <=? umul (usub 0 2) n then memcpy m dest src n
  else if dest <? src then copy_loop (Z.to_nat n) m dest src
  else copy_back (Z.to_nat n) m dest src.

(** ** Comparisons *)

Fixpoint strcmp (fuel : nat) (m : memory) (l r : Z) : option Z :=
  match fuel with
  | O => None
  | S fuel => if (m l =? m r) && negb (m l =? 0) then strcmp fuel m (l + 1) (r + 1) else Some (m l - m r)
  end.
(** The loop of [strncmp] and [strncasecmp]: [n] is the count after [n--]. *)
Fixpoint strncmp_loop (same : Z → Z → bool) (n : nat) (m : memory) (l r : Z) : Z * Z :=
  match n with
  | O => (l, r)
  | S n' => if negb (m l =? 0) && negb (m r =? 0) && same (m l) (m r) then strncmp_loop same n' m (l + 1) (r + 1) else (l, r)
  end.
Definition strncmp (m : memory) (l r n : Z) : Z :=
  if n =? 0 then 0 else let '(l, r) := strncmp_loop Z.eqb (Z.to_nat (n - 1)) m l r in m l - m r.
Definition strcoll (fuel : nat) (m : memory) (l r : Z) : option Z := strcmp fuel m l r.
Fixpoint memcmp_loop (n : nat) (m : memory) (l r : Z) : Z :=
  match n with
  | O => 0
  | S n => if m l =? m r then memcmp_loop n m (l + 1) (r + 1) else m l - m r
  end.
Definition memcmp (m : memory) (l r n : Z) : Z := memcmp_loop (Z.to_nat n) m l r.
Definition same_letter (a b : Z) : bool := (a =? b) || (tolower a =? tolower b).
Fixpoint strcasecmp (fuel : nat) (m : memory) (l r : Z) : option Z :=
  match fuel with
  | O => None
  | S fuel =>
      if negb (m l =? 0) && negb (m r =? 0) && same_letter (m l) (m r) then strcasecmp fuel m (l + 1) (r + 1)
      else Some (tolower (m l) - tolower (m r))
  end.
Definition strncasecmp (m : memory) (l r n : Z) : Z :=
  if n =? 0 then 0 else let '(l, r) := strncmp_loop same_letter (Z.to_nat (n - 1)) m l r in tolower (m l) - tolower (m r).

(** ** Sets of bytes *)

(** [size_t byteset[32 / sizeof(size_t)]] and [BITOP]. *)
Abbreviation byteset := (list Z) (only parsing).
Definition empty_set : byteset := replicate 4 0.
Definition bit_of (b : Z) : Z := Z.shiftl 1 (b mod 64).
Definition set_bit (b : Z) (s : byteset) : byteset := alter (λ w, Z.lor w (bit_of b)) (Z.to_nat (b / 64)) s.
Definition get_bit (b : Z) (s : byteset) : bool := negb (Z.land (default 0 (s !! Z.to_nat (b / 64))) (bit_of b) =? 0).
(** [for (; *c; c++) BITOP(byteset, *c, |=);]. *)
Fixpoint set_of (fuel : nat) (m : memory) (c : Z) (s : byteset) : option byteset :=
  match fuel with
  | O => None
  | S fuel => if m c =? 0 then Some s else set_of fuel m (c + 1) (set_bit (m c) s)
  end.
Definition strcspn (fuel : nat) (m : memory) (s1 s2 : Z) : option Z :=
  if ((m s2 =? 0) || (m (s2 + 1) =? 0)) && negb (m s1 =? m s2) then Some 0
  else
    set ← set_of fuel m s2 empty_set;
    e ← skip_while (λ b, negb (b =? 0) && negb (get_bit b set)) fuel m s1;
    Some (e - s1).
Definition strspn (fuel : nat) (m : memory) (s c : Z) : option Z :=
  if m c =? 0 then Some 0
  else if m (c + 1) =? 0 then e ← skip_while (λ b, b =? m c) fuel m s; Some (e - s)
  else
    set ← set_of fuel m c empty_set;
    e ← skip_while (λ b, negb (b =? 0) && get_bit b set) fuel m s;
    Some (e - s).
(** The inner option is the pointer. *)
Definition strpbrk (fuel : nat) (m : memory) (s b : Z) : option (option Z) :=
  n ← strcspn fuel m s b;
  Some (if m (s + n) =? 0 then None else Some (s + n)).
Definition strchrnul (fuel : nat) (m : memory) (s c : Z) : option Z :=
  let c := c mod 256 in
  if c =? 0 then l ← strlen fuel m s; Some (s + l)
  else skip_while (λ b, negb (b =? 0) && negb (b =? c)) fuel m s.
(** [c] is not converted to [char] here. *)
Definition strchr (fuel : nat) (m : memory) (s c : Z) : option (option Z) :=
  e ← skip_while (λ b, negb (b =? c) && negb (b =? 0)) fuel m s;
  Some (if m e =? c then Some e else None).
Fixpoint strrchr_loop (fuel : nat) (m : memory) (s c : Z) (found : option Z) : option (option Z) :=
  match fuel with
  | O => None
  | S fuel =>
      let found := if m s =? c then Some s else found in
      if m s =? 0 then Some found else strrchr_loop fuel m (s + 1) c found
  end.
Definition strrchr (fuel : nat) (m : memory) (s c : Z) : option (option Z) :=
  if s =? 0 then Some None else strrchr_loop fuel m s (c mod 256) None.

(** [buf] and the result; [msg] is the pointer that [strerror] returns. *)
Definition ERANGE : Z := 34.
Definition strerror_r (fuel : nat) (m : memory) (msg buf buflen : Z) : option (Z * memory) :=
  l ← strlen fuel m msg;
  if buflen <=? l then
    Some (ERANGE, if buflen =? 0 then m else store (memcpy m buf msg (buflen - 1)) (buf + (buflen - 1)) 0)
  else Some (0, memcpy m buf msg (l + 1)).
(** [malloc] gives a place and the memory after it. *)
Definition strdup (malloc : Z → memory → option (Z * memory)) (fuel : nat) (m : memory) (s : Z) : option (option Z * memory) :=
  l ← strlen fuel m s;
  Some (match malloc (uadd l 1) m with
        | None => (None, m)
        | Some (d, m) => (Some d, memcpy m d s (uadd l 1))
        end).

(** ** [strstr] *)

(** [for (..; *h && hw != nw; hw = ..)]: [next hw b] is the word after the byte [b]. *)
Fixpoint roll (next : Z → Z → Z) (nw : Z) (fuel : nat) (m : memory) (h hw : Z) : option Z :=
  match fuel with
  | O => None
  | S fuel => if negb (m h =? 0) && negb (hw =? nw) then roll next nw fuel m (h + 1) (next hw (m (h + 1))) else Some h
  end.
Definition found_at (m : memory) (h back : Z) : option Z := if m h =? 0 then None else Some (h - back).
Definition twobyte_strstr (fuel : nat) (m : memory) (h n : Z) : option (option Z) :=
  let nw := Z.lor (Z.shiftl (m n) 8) (m (n + 1)) in
  let hw := Z.lor (Z.shiftl (m h) 8) (m (h + 1)) in
  h ← roll (λ hw b, Z.lor (Z.shiftl hw 8) b mod 2 ^ 16) nw fuel m (h + 1) hw;
  Some (found_at m h 1).
Definition threebyte_strstr (fuel : nat) (m : memory) (h n : Z) : option (option Z) :=
  let word p := Z.lor (Z.lor (Z.shiftl (m p) 24) (Z.shiftl (m (p + 1)) 16)) (Z.shiftl (m (p + 2)) 8) in
  h ← roll (λ hw b, Z.shiftl (Z.lor hw b) 8 mod 2 ^ 32) (word n) fuel m (h + 2) (word h);
  Some (found_at m h 2).
Definition fourbyte_strstr (fuel : nat) (m : memory) (h n : Z) : option (option Z) :=
  let word p := Z.lor (Z.lor (Z.lor (Z.shiftl (m p) 24) (Z.shiftl (m (p + 1)) 16)) (Z.shiftl (m (p + 2)) 8)) (m (p + 3)) in
  h ← roll (λ hw b, Z.lor (Z.shiftl hw 8) b mod 2 ^ 32) (word n) fuel m (h + 3) (word h);
  Some (found_at m h 3).

(** The length of the needle, its set of bytes, and the shift table; [inl] when the
    haystack ends first.  Entries of the table that are not set are never read. *)
Fixpoint needle_loop (fuel : nat) (m : memory) (h n l : Z) (set : byteset) (shift : Z → Z) : option (unit + Z * byteset * (Z → Z)) :=
  match fuel with
  | O => None
  | S fuel =>
      let c := m (n + l) in
      if negb (c =? 0) && negb (m (h + l) =? 0) then needle_loop fuel m h n (uadd l 1) (set_bit c set) (λ b, if b =? c then uadd l 1 else shift b)
      else Some (if c =? 0 then inr (l, set, shift) else inl tt)
  end.
(** The maximal suffix for the order [gt]: the index before it, and its period. *)
Fixpoint maximal_suffix (gt : Z → Z → bool) (fuel : nat) (m : memory) (n l ip jp k p : Z) : option (Z * Z) :=
  match fuel with
  | O => None
  | S fuel =>
      if uadd jp k <? l then
        let a := m (n + uadd ip k) in
        let b := m (n + uadd jp k) in
        if a =? b then
          if k =? p then maximal_suffix gt fuel m n l ip (uadd jp p) 1 p else maximal_suffix gt fuel m n l ip jp (uadd k 1) p
        else if gt a b then maximal_suffix gt fuel m n l ip (uadd jp k) 1 (usub (uadd jp k) ip)
        else maximal_suffix gt fuel m n l jp (uadd jp 1) 1 1
      else Some (ip, p)
  end.
(** [for (k = ..; n[k] && n[k] == h[k]; k++);]. *)
Fixpoint match_right (fuel : nat) (m : memory) (n h k : Z) : option Z :=
  match fuel with
  | O => None
  | S fuel => if negb (m (n + k) =? 0) && (m (n + k) =? m (h + k)) then match_right fuel m n h (uadd k 1) else Some k
  end.
(** [for (k = ms + 1; k > mem && n[k - 1] == h[k - 1]; k--);]. *)
Fixpoint match_left (fuel : nat) (m : memory) (n h mem k : Z) : option Z :=
  match fuel with
  | O => None
  | S fuel => if (mem <? k) && (m (n + (k - 1)) =? m (h + (k - 1))) then match_left fuel m n h mem (k - 1) else Some k
  end.
(** The search loop: what stays the same, and its three variables. *)
Record needle : Type := { nd_n : Z; nd_l : Z; nd_set : byteset; nd_shift : Z → Z; nd_ms : Z; nd_p : Z; nd_mem0 : Z }.
Fixpoint search_loop (fuel : nat) (m : memory) (nd : needle) (h z mem : Z) : option (option Z) :=
  match fuel with
  | O => None
  | S fuel' =>
      let l := nd_l nd in
      let z' :=
        if usub z h <? l then
          let grow := Z.lor l 63 in
          match memchr m z 0 grow with
          | Some z2 => if usub z2 h <? l then None else Some z2
          | None => Some (z + grow)
          end
        else Some z in
      match z' with
      | None => Some None
      | Some z =>
          let last := m (h + (l - 1)) in
          if get_bit last (nd_set nd) then
            let k := usub l (nd_shift nd last) in
            if negb (k =? 0) then search_loop fuel' m nd (h + (if k <? mem then mem else k)) z 0
            else
              k ← match_right fuel m (nd_n nd) h (Z.max (uadd (nd_ms nd) 1) mem);
              if negb (m (nd_n nd + k) =? 0) then search_loop fuel' m nd (h + usub k (nd_ms nd)) z 0
              else
                k ← match_left fuel m (nd_n nd) h mem (uadd (nd_ms nd) 1);
                if k <=? mem then Some (Some h)
                else search_loop fuel' m nd (h + nd_p nd) z (nd_mem0 nd)
          else search_loop fuel' m nd (h + l) z 0
      end
  end.
Definition twoway_strstr (fuel : nat) (m : memory) (h n : Z) : option (option Z) :=
  r ← needle_loop fuel m h n 0 empty_set (λ _, 0);
  match r with
  | inl _ => Some None
  | inr (l, set, shift) =>
      r1 ← maximal_suffix Z.gtb fuel m n l (usub 0 1) 0 1 1;
      r2 ← maximal_suffix Z.ltb fuel m n l (usub 0 1) 0 1 1;
      let '(ms, p) := if uadd (fst r1) 1 <? uadd (fst r2) 1 then r2 else r1 in
      let nd p mem0 := {| nd_n := n; nd_l := l; nd_set := set; nd_shift := shift; nd_ms := ms; nd_p := p; nd_mem0 := mem0 |} in
      search_loop fuel m
        (if memcmp m n (n + p) (uadd ms 1) =? 0 then nd p (usub l p) else nd (uadd (Z.max ms (usub (usub l ms) 1)) 1) 0) h h 0
  end.
Definition strstr (fuel : nat) (m : memory) (h n : Z) : option (option Z) :=
  if m n =? 0 then Some (Some h)
  else
    o ← strchr fuel m h (m n);
    match o with
    | None => Some None
    | Some h =>
        if m (n + 1) =? 0 then Some (Some h)
        else if m (h + 1) =? 0 then Some None
        else if m (n + 2) =? 0 then twobyte_strstr fuel m h n
        else if m (h + 2) =? 0 then Some None
        else if m (n + 3) =? 0 then threebyte_strstr fuel m h n
        else if m (h + 3) =? 0 then Some None
        else if m (n + 4) =? 0 then fourbyte_strstr fuel m h n
        else twoway_strstr fuel m h n
    end.
