(* ===== verification/CStringProps.v ===== *)
(** What the functions of [CString.v] compute, compared with definitions on lists of
    bytes: lengths and searches, copying and filling, comparisons, and spans. *)

From stdpp Require Import prelude list.
From Stdlib Require Import ZArith Lia.
From S2P Require Import Prelude CString.
Local Open Scope Z_scope.

(** * Strings in memory *)

Abbreviation zlen l := (Z.of_nat (length l)).
Implicit Types (m : memory) (l : list Z).

(** The bytes [l] and a zero byte are at [s]. *)
Fixpoint string_at m (s : Z) l : Prop :=
  match l with
  | [] => m s = 0
  | b :: l => m s = b ∧ 0 < b < 256 ∧ string_at m (s + 1) l
  end.
Definition byte_memory m : Prop := ∀ p, 0 ≤ m p < 256.
(** The [n] bytes at [s]. *)
Definition bytes_at m (s : Z) (n : nat) : list Z := (λ i, m (s + Z.of_nat i)) <$> seq 0 n.

Lemma bytes_at_S m s n : bytes_at m s (S n) = m s :: bytes_at m (s + 1) n.
Proof.
  unfold bytes_at. cbn [seq fmap list_fmap]. rewrite Z.add_0_r. f_equal. rewrite <-(fmap_S_seq 0 n), <-list_fmap_compose. apply list_fmap_ext. intros j x _. cbn. f_equal. lia.
Qed.

Lemma string_at_lookup m s l i : string_at m s l → (i ≤ length l)%nat → m (s + Z.of_nat i) = default 0 (l !! i).
Proof.
  revert s i. induction l as [|b l IH]; intros s [|i] Hs Hi; cbn in *; [by rewrite Z.add_0_r|lia|rewrite Z.add_0_r; by destruct Hs as [-> _]|].
  rewrite <-(IH (s + 1)) by (by lia || apply Hs). f_equal. lia.
Qed.
Lemma string_at_end m s l : string_at m s l → m (s + zlen l) = 0.
Proof. intros Hs. rewrite (string_at_lookup m s l) by done. by rewrite lookup_ge_None_2. Qed.
Lemma string_at_app m s l1 l2 : string_at m s (l1 ++ l2) → string_at m (s + zlen l1) l2.
Proof.
  revert s. induction l1 as [|b l1 IH]; intros s Hs; [by rewrite Z.add_0_r|]. cbn in Hs. destruct Hs as (_ & _ & Hs). apply IH in Hs.
  by replace (s + zlen (b :: l1)) with (s + 1 + zlen l1) by (cbn [length]; lia).
Qed.
Lemma string_at_ext m m' s l : string_at m s l → (∀ x, s ≤ x ≤ s + zlen l → m' x = m x) → string_at m' s l.
Proof.
  revert s. induction l as [|b l IH]; intros s Hs Hm; cbn in *; [rewrite Hm by lia; done|]. destruct Hs as (Hb & Hr & Hs). split_and!; [by rewrite Hm by lia|lia|lia|].
  apply IH; [done|]. intros x Hx. apply Hm. lia.
Qed.
Lemma string_at_nonzero m s l b : string_at m s l → b ∈ l → 0 < b < 256.
Proof. revert s. induction l as [|a l IH]; intros s Hs Hb; [by apply not_elem_of_nil in Hb|]. destruct Hs as (? & ? & ?). apply elem_of_cons in Hb as [->|?]; [done|by eapply IH]. Qed.

(** ** Lengths and searches *)

(** The length of the longest prefix with [p]. *)
Fixpoint span (p : Z → bool) l : nat := match l with b :: l => if p b then S (span p l) else 0 | [] => 0 end.
Lemma span_le p l : (span p l ≤ length l)%nat.
Proof. induction l as [|b l IH]; cbn; [done|]. destruct (p b); lia. Qed.

Lemma skip_string_spec fuel m s l : string_at m s l → (length l < fuel)%nat → skip_string fuel m s = Some (s + zlen l).
Proof.
  revert s fuel. induction l as [|b l IH]; intros s [|fuel] Hs Hf; cbn in *; try lia; [rewrite Hs; f_equal; lia|]. destruct Hs as (-> & Hb & Hs).
  rewrite (proj2 (Z.eqb_neq b 0)) by lia. rewrite IH by (done || lia). f_equal. lia.
Qed.
Lemma strlen_spec fuel m s l : string_at m s l → (length l < fuel)%nat → strlen fuel m s = Some (zlen l).
Proof. intros Hs Hf. unfold strlen. rewrite (skip_string_spec fuel m s l) by done. cbn. f_equal. lia. Qed.
Lemma skip_while_spec p fuel m s l : string_at m s l → p 0 = false → (length l < fuel)%nat → skip_while p fuel m s = Some (s + Z.of_nat (span p l)).
Proof.
  intros Hs Hp. revert s fuel Hs. induction l as [|b l IH]; intros s [|fuel] Hs Hf; cbn in *; try lia; [rewrite Hs, Hp; f_equal; lia|]. destruct Hs as (-> & Hb & Hs).
  destruct (p b); [|f_equal; lia]. rewrite IH by (done || lia). f_equal. lia.
Qed.
Lemma span_ext p q l : (∀ b, b ∈ l → p b = q b) → span p l = span q l.
Proof. induction l as [|b l IH]; intros He; cbn; [done|]. rewrite (He b) by (by left). rewrite IH; [done|]. intros. apply He. by right. Qed.

(** Where [c] occurs. *)
Fixpoint occurrences (c : Z) l (i : nat) : list nat :=
  match l with b :: l => if b =? c then i :: occurrences c l (S i) else occurrences c l (S i) | [] => [] end.
Definition first_occurrence (c : Z) l : option nat := head (occurrences c l 0).
Definition last_occurrence (c : Z) l : option nat := last (occurrences c l 0).
Lemma occurrences_spec c l i j : j ∈ occurrences c l i ↔ (i ≤ j)%nat ∧ l !! (j - i)%nat = Some c.
Proof.
  revert i. induction l as [|b l IH]; intros i; cbn; [rewrite elem_of_nil; split; [done|intros [_ H]; done]|].
  destruct (Z.eqb_spec b c) as [->|Hne]; rewrite ?elem_of_cons, IH.
  - split.
    + intros [->|[? ?]]; [by rewrite Nat.sub_diag|]. replace (j - i)%nat with (S (j - S i)) by lia. split; [lia|done].
    + intros [? Hj]. destruct (decide (j = i)) as [->|]; [by left|right]. replace (j - i)%nat with (S (j - S i)) in Hj by lia. split; [lia|done].
  - split.
    + intros [? ?]. replace (j - i)%nat with (S (j - S i)) by lia. split; [lia|done].
    + intros [? Hj]. destruct (decide (j = i)) as [->|]; [rewrite Nat.sub_diag in Hj; cbn in Hj; congruence|]. replace (j - i)%nat with (S (j - S i)) in Hj by lia. split; [lia|done].
Qed.
(** The pointer to a position. *)
Definition at_position (s : Z) (o : option nat) : option Z := (λ i, s + Z.of_nat i) <$> o.

Definition differs (c b : Z) : bool := negb (b =? c).
Lemma span_lookup p l : (span p l < length l)%nat → ∃ b, l !! span p l = Some b ∧ p b = false.
Proof. induction l as [|b l IH]; cbn; [lia|]. destruct (p b) eqn:Hp; [|by exists b]. intros Hl. destruct IH as (x & ? & ?); [lia|]. by exists x. Qed.
Lemma span_app p l1 l2 : span p (l1 ++ l2) = if decide (span p l1 < length l1)%nat then span p l1 else (length l1 + span p l2)%nat.
Proof. induction l1 as [|b l1 IH]; cbn; [done|]. destruct (p b); [|done]. rewrite IH. repeat destruct (decide _); lia || done. Qed.
Lemma occurrences_head c l i : head (occurrences c l i) = if decide (span (differs c) l < length l)%nat then Some (i + span (differs c) l)%nat else None.
Proof.
  revert i. induction l as [|b l IH]; intros i; cbn; [done|]. assert (differs c b = negb (b =? c)) as -> by done. destruct (Z.eqb_spec b c) as [->|Hne]; cbn.
  - rewrite decide_True by lia. f_equal. lia.
  - rewrite IH. destruct (decide (span (differs c) l < length l)%nat); [rewrite decide_True by lia; f_equal; lia|by rewrite decide_False by lia].
Qed.
Lemma first_occurrence_spec c l i :
  first_occurrence c l = Some i ↔ l !! i = Some c ∧ ∀ j, (j < i)%nat → l !! j ≠ Some c.
Proof.
  unfold first_occurrence. rewrite occurrences_head. destruct (decide _) as [Hlt|Hge].
  - destruct (span_lookup (differs c) l Hlt) as (b & Hb & Hd). unfold differs in Hd. apply negb_false_iff, Z.eqb_eq in Hd as ->. split.
    + intros [= <-]. split; [done|]. intros j Hj. revert Hj. clear. cbn. revert j. induction l as [|b l IH]; intros j; cbn; [lia|]. unfold differs. case_Z1; cbn; [lia|].
      intros Hj. destruct j as [|j]; cbn; [congruence|]. apply IH. unfold differs. lia.
    + intros [Hi Hn]. f_equal. cbn. destruct (decide (span (differs c) l < i)%nat) as [Hl|]; [by destruct (Hn _ Hl)|].
      destruct (decide (i < span (differs c) l)%nat) as [Hl|]; [|lia]. exfalso. revert Hi Hl. clear. revert i. induction l as [|b l IH]; intros i; cbn; [lia|].
      unfold differs at 1. case_Z1; cbn; [lia|]. destruct i as [|i]; cbn; [congruence|]. intros Hi Hl. apply (IH i Hi). lia.
  - split; [done|]. intros [Hi _]. exfalso. apply Hge. clear Hge. revert i Hi. induction l as [|b l IH]; intros i Hi; cbn in *; [done|]. unfold differs at 1. case_Z1; cbn; [lia|].
    destruct i as [|i]; cbn in Hi; [congruence|]. apply IH in Hi. lia.
Qed.

Lemma last_occurrence_spec c l i :
  last_occurrence c l = Some i ↔ l !! i = Some c ∧ ∀ j, (i < j)%nat → l !! j ≠ Some c.
Proof.
  unfold last_occurrence. assert (∀ n, last (occurrences c l n) = Some (n + i)%nat ↔ l !! i = Some c ∧ ∀ j, (i < j)%nat → l !! j ≠ Some c) as Hg; [|exact (Hg 0%nat)].
  revert i. induction l as [|b l IH]; intros i n; cbn [occurrences]; [split; [done|by intros [? _]]|].
  assert (last (occurrences c l (S n)) = None ↔ ∀ j, l !! j ≠ Some c) as Hnone.
  { rewrite last_None. split.
    - intros He j Hj. assert ((S n + j)%nat ∈ occurrences c l (S n)) as Hin by (apply occurrences_spec; split; [lia|]; by replace (S n + j - S n)%nat with j by lia). rewrite He in Hin. by apply not_elem_of_nil in Hin.
    - intros Hn. destruct (occurrences c l (S n)) as [|j r] eqn:He; [done|]. assert (j ∈ occurrences c l (S n)) as Hin by (rewrite He; by left). apply occurrences_spec in Hin as [_ Hin]. by apply Hn in Hin. }
  destruct i as [|i].
  - cbn [lookup list_lookup]. assert (last (occurrences c l (S n)) ≠ Some (n + 0)%nat) as Hlow.
    { intros Hl. apply last_Some_elem_of, occurrences_spec in Hl. lia. }
    assert ((∀ j, (0 < j)%nat → (b :: l) !! j ≠ Some c) ↔ ∀ j, l !! j ≠ Some c) as Hshift.
    { split; [intros H j; exact (H (S j) ltac:(lia))|intros H [|j] Hj; [lia|exact (H j)]]. }
    rewrite Hshift, <-Hnone. destruct (Z.eqb_spec b c) as [->|Hne].
    + rewrite last_cons. destruct (last (occurrences c l (S n))) as [j|]; [|split; [done|intros _; f_equal; lia]]. split; [congruence|by intros [_ ?]].
    + split; [congruence|]. intros [[= ->] _]. done.
  - specialize (IH i (S n)). replace (n + S i)%nat with (S n + i)%nat by lia. change ((b :: l) !! S i) with (l !! i).
    assert ((∀ j, (S i < j)%nat → (b :: l) !! j ≠ Some c) ↔ ∀ j, (i < j)%nat → l !! j ≠ Some c) as ->.
    { split; [intros H j Hj; exact (H (S j) ltac:(lia))|intros H [|j] Hj; [lia|apply H; lia]]. }
    rewrite <-IH. destruct (b =? c); [|done]. rewrite last_cons. destruct (last (occurrences c l (S n))) as [j|]; [done|]. split; [intros [= ?]; lia|done].
Qed.
Lemma at_position_eq s o i : at_position s o = Some (s + Z.of_nat i) ↔ o = Some i.
Proof. unfold at_position. destruct o as [j|]; cbn; [|done]. split; [intros [= ?]; f_equal; lia|by intros [= ->]]. Qed.
Lemma span_prefix p l i b : l !! i = Some b → (i < span p l)%nat → p b = true.
Proof.
  revert i. induction l as [|a l IH]; intros i; cbn; [done|]. destruct (p a) eqn:Ha; [|lia]. destruct i as [|i]; cbn; [by intros [= ->]|]. intros Hi Hlt. apply (IH i Hi). lia.
Qed.

Lemma strchr_spec fuel m s l c : string_at m s l → (length l < fuel)%nat → strchr fuel m s c = Some (at_position s (first_occurrence c (l ++ [0]))).
Proof.
  intros Hs Hf. unfold strchr. rewrite (skip_while_spec _ fuel m s l Hs) by (done || by rewrite andb_false_r). cbn [mbind option_bind].
  rewrite (span_ext _ (differs c)).
  2: { intros b Hb. apply (string_at_nonzero _ _ _ _ Hs) in Hb. rewrite (proj2 (Z.eqb_neq b 0)) by lia. apply andb_true_r. }
  pose proof (span_le (differs c) l) as Hle. rewrite (string_at_lookup m s l) by done. unfold first_occurrence. rewrite occurrences_head, span_app, length_app. f_equal.
  destruct (decide (span (differs c) l < length l)%nat) as [Hlt|Hge].
  - destruct (span_lookup _ _ Hlt) as (b & -> & Hb). unfold differs in Hb. apply negb_false_iff, Z.eqb_eq in Hb as ->. cbn [default]. rewrite Z.eqb_refl. destruct (decide _); [done|lia].
  - assert (span (differs c) l = length l) as -> by lia. rewrite lookup_ge_None_2 by lia. cbn [default span length]. assert (differs c 0 = negb (0 =? c)) as -> by done.
    destruct (Z.eqb_spec 0 c) as [<-|Hne]; cbn [negb]; [rewrite decide_True by lia|by rewrite decide_False by lia]. cbn. f_equal. lia.
Qed.
Lemma strchrnul_spec fuel m s l c : string_at m s l → (length l < fuel)%nat → strchrnul fuel m s c = Some (s + Z.of_nat (span (differs (c mod 256)) l)).
Proof.
  intros Hs Hf. unfold strchrnul. destruct (Z.eqb_spec (c mod 256) 0) as [->|Hne].
  - rewrite (strlen_spec fuel m s l) by done. cbn. do 3 f_equal. symmetry. clear Hf. revert s Hs. induction l as [|b l IH]; intros s Hs; cbn; [done|]. destruct Hs as (_ & Hb & Hs).
    unfold differs at 1. rewrite (proj2 (Z.eqb_neq b 0)) by lia. cbn. by rewrite (IH (s + 1)).
  - rewrite (skip_while_spec _ fuel m s l) by done. do 3 f_equal. apply span_ext. intros b Hb. apply (string_at_nonzero _ _ _ _ Hs) in Hb. rewrite (proj2 (Z.eqb_neq b 0)) by lia. done.
Qed.
Lemma strrchr_loop_spec fuel m s l c found i : string_at m s l → (length l < fuel)%nat → 0 ≤ c →
  strrchr_loop fuel m s c found = Some (match last (occurrences c (l ++ [0]) i) with Some j => Some (s + Z.of_nat j - Z.of_nat i) | None => found end).
Proof.
  intros Hs Hf Hc. revert s fuel found i Hs Hf. induction l as [|b l IH]; intros s [|fuel] found i Hs Hf; cbn [length string_at strrchr_loop occurrences app] in *; try lia.
  - rewrite Hs. change (0 =? 0) with true. destruct (0 =? c); cbn; [do 2 f_equal; lia|done].
  - destruct Hs as (-> & Hb & Hs). rewrite (proj2 (Z.eqb_neq b 0)) by lia. rewrite (IH (s + 1) fuel _ (S i)) by (done || lia).
    destruct (b =? c); [rewrite last_cons|]; (destruct (last _) as [j|]; [do 2 f_equal; lia|]); [|done]. do 2 f_equal. lia.
Qed.
Lemma strrchr_spec fuel m s l c : string_at m s l → (length l < fuel)%nat → s ≠ 0 → strrchr fuel m s c = Some (at_position s (last_occurrence (c mod 256) (l ++ [0]))).
Proof.
  intros Hs Hf Hn. unfold strrchr. rewrite (proj2 (Z.eqb_neq s 0)) by done. rewrite (strrchr_loop_spec fuel m s l _ None 0) by (done || apply Z.mod_pos_bound; lia).
  unfold last_occurrence. destruct (last _); [|done]. cbn. do 2 f_equal. lia.
Qed.

Lemma memchr_loop_spec n m s c : memchr_loop n m s c = at_position s (first_occurrence c (bytes_at m s n)).
Proof.
  assert (∀ i, memchr_loop n m s c = (λ j, s + Z.of_nat j - Z.of_nat i) <$> head (occurrences c (bytes_at m s n) i)) as Hg.
  { revert s. induction n as [|n IH]; intros s i; [done|]. rewrite bytes_at_S. cbn [memchr_loop occurrences].
    destruct (m s =? c); [cbn; f_equal; lia|]. rewrite (IH (s + 1) (S i)).
    destruct (head _); [|done]. cbn. f_equal. lia. }
  rewrite (Hg 0%nat). unfold at_position, first_occurrence. destruct (head _); [|done]. cbn. f_equal. lia.
Qed.
Lemma strnlen_spec m s l n : string_at m s l → 0 ≤ n → strnlen m s n = Z.min n (zlen l).
Proof.
  intros Hs Hn. unfold strnlen, memchr. change (0 mod 256) with 0. replace n with (Z.of_nat (Z.to_nat n)) by lia. rewrite Nat2Z.id. generalize (Z.to_nat n) as k. clear n Hn.
  revert s Hs. induction l as [|b l IH]; intros s Hs [|k]; cbn in *; try lia; [rewrite Hs; cbn; lia|]. destruct Hs as (-> & Hb & Hs). rewrite (proj2 (Z.eqb_neq b 0)) by lia.
  specialize (IH _ Hs k). destruct (memchr_loop k m (s + 1) 0); lia.
Qed.

(** ** Filling and copying *)

Lemma store_at m p v : store m p v p = v mod 256.
Proof. unfold store. by rewrite Z.eqb_refl. Qed.
Lemma store_other m p v q : q ≠ p → store m p v q = m q.
Proof. intros Hq. unfold store. by rewrite (proj2 (Z.eqb_neq q p)). Qed.
Lemma store_bytes m p v : byte_memory m → byte_memory (store m p v).
Proof. intros Hm q. unfold store. destruct (q =? p); [apply Z.mod_pos_bound; lia|apply Hm]. Qed.

(** The memory after [n] bytes from [d] on have become those of [f]. *)
Definition replaced (d : Z) (n : Z) (f : Z → Z) m : memory := λ x, if (d <=? x) && (x <? d + n) then f (x - d) else m x.
Lemma replaced_cases d n f m x : replaced d n f m x = if decide (d ≤ x < d + n) then f (x - d) else m x.
Proof. unfold replaced. destruct (Z.leb_spec d x), (Z.ltb_spec x (d + n)); cbn; destruct (decide _); lia || done. Qed.

Lemma fill_loop_spec n m s c x : fill_loop n m s c x = replaced s (Z.of_nat n) (λ _, c mod 256) m x.
Proof.
  revert m s. induction n as [|n IH]; intros m s; rewrite replaced_cases.
  - destruct (decide _); [lia|done].
  - cbn [fill_loop]. rewrite IH, replaced_cases. unfold store. repeat destruct (decide _); try lia; try done; case_Z1; done || lia.
Qed.
Lemma copy_loop_spec n m d s x : byte_memory m → (d ≤ s ∨ s + Z.of_nat n ≤ d) →
  copy_loop n m d s x = replaced d (Z.of_nat n) (λ i, m (s + i)) m x.
Proof.
  revert m d s. induction n as [|n IH]; intros m d s Hm Hd; rewrite replaced_cases.
  - destruct (decide _); [lia|done].
  - cbn [copy_loop]. rewrite IH; [|by apply store_bytes|lia]. rewrite replaced_cases. destruct (decide _), (decide _); try lia.
    + rewrite store_other by lia. f_equal. lia.
    + replace x with d by lia. rewrite store_at, Z.mod_small by apply Hm. f_equal. lia.
    + apply store_other. lia.
Qed.
Lemma copy_back_spec n m d s x : byte_memory m → (s ≤ d ∨ d + Z.of_nat n ≤ s) →
  copy_back n m d s x = replaced d (Z.of_nat n) (λ i, m (s + i)) m x.
Proof.
  revert m. induction n as [|n IH]; intros m Hm Hd; rewrite replaced_cases.
  - destruct (decide _); [lia|done].
  - cbn [copy_back]. rewrite IH; [|by apply store_bytes|lia]. rewrite replaced_cases. destruct (decide _), (decide _); try lia.
    + apply store_other. lia.
    + replace x with (d + Z.of_nat n) by lia. rewrite store_at, Z.mod_small by apply Hm. f_equal. lia.
    + apply store_other. lia.
Qed.
(** The test of [memmove]: the two ranges are apart. *)
Lemma memmove_apart d s n : 0 ≤ d < 2 ^ 64 → 0 ≤ s < 2 ^ 64 → 0 < n ≤ 2 ^ 63 → d ≠ s →
  (usub (usub s d) n <=? umul (usub 0 2) n) = true → d + n ≤ s ∨ s + n ≤ d.
Proof.
  intros Hd Hs Hn Hne Hc%Z.leb_le. unfold usub, umul, wrap in Hc. change ((0 - 2) mod 2 ^ 64) with (2 ^ 64 - 2) in Hc. rewrite Zminus_mod_idemp_l in Hc.
  assert (((2 ^ 64 - 2) * n) mod 2 ^ 64 = if decide (n = 2 ^ 63) then 0 else 2 ^ 64 - 2 * n) as Hr.
  { destruct (decide _) as [->|]; [done|]. replace ((2 ^ 64 - 2) * n) with (2 ^ 64 - 2 * n + (n - 1) * 2 ^ 64) by lia. rewrite Z.mod_add by lia. apply Z.mod_small. lia. }
  rewrite Hr in Hc. destruct (decide (s - d - n < 0)) as [Hneg|Hpos].
  - destruct (decide (s - d - n < - 2 ^ 64)).
    + replace (s - d - n) with (s - d - n + 2 * 2 ^ 64 + (-2) * 2 ^ 64) in Hc by lia. rewrite Z.mod_add, Z.mod_small in Hc by lia. destruct (decide _); lia.
    + replace (s - d - n) with (s - d - n + 2 ^ 64 + (-1) * 2 ^ 64) in Hc by lia. rewrite Z.mod_add in Hc by lia.
      destruct (decide (s - d - n + 2 ^ 64 = 2 ^ 64)); [lia|]. rewrite Z.mod_small in Hc by lia. destruct (decide _); lia.
  - rewrite Z.mod_small in Hc by lia. lia.
Qed.
Lemma memmove_spec m d s n x : byte_memory m → 0 ≤ d → d + n ≤ 2 ^ 64 → 0 ≤ s → s + n ≤ 2 ^ 64 → 0 ≤ n ≤ 2 ^ 63 →
  memmove m d s n x = replaced d n (λ i, m (s + i)) m x.
Proof.
  intros Hm Hd Hdn Hs Hsn Hn. unfold memmove. destruct (Z.eqb_spec d s) as [->|Hne].
  { rewrite replaced_cases. destruct (decide _); [|done]. f_equal. lia. }
  destruct (decide (n = 0)) as [->|Hn0].
  { rewrite replaced_cases. destruct (decide _); [lia|]. change (Z.to_nat 0) with 0%nat. unfold memcpy. change (Z.to_nat 0) with 0%nat. cbn [copy_loop copy_back]. by repeat case_match. }
  replace (replaced d n) with (replaced d (Z.of_nat (Z.to_nat n))) by (by rewrite Z2Nat.id by lia).
  destruct (_ <=? _) eqn:Hc; [|destruct (Z.ltb_spec d s)].
  - apply memmove_apart in Hc; [|lia..]. apply copy_loop_spec; [done|lia].
  - apply copy_loop_spec; [done|lia].
  - apply copy_back_spec; [done|lia].
Qed.

Lemma land_3 x : 0 ≤ Z.land x 3 < 4.
Proof. change 3 with (Z.ones 2). rewrite Z.land_ones by lia. apply Z.mod_pos_bound. lia. Qed.
Lemma memset_spec m d c n x : 0 ≤ d → 0 ≤ n → d + n < 2 ^ 64 → memset m d c n x = replaced d n (λ _, c mod 256) m x.
Proof.
  intros Hd Hn Hdn. rewrite replaced_cases. unfold memset.
  assert (∀ m p v q, store m p v q = if decide (q = p) then v mod 256 else m q) as Hst.
  { intros m' p v q. destruct (decide _) as [->|]; [apply store_at|by apply store_other]. }
  destruct (Z.eqb_spec n 0) as [->|Hn0]; [destruct (decide _); [lia|done]|].
  destruct (Z.leb_spec n 2); [rewrite !Hst; repeat destruct (decide _); lia || done|].
  destruct (Z.leb_spec n 6); [rewrite !Hst; repeat destruct (decide _); lia || done|].
  destruct (Z.leb_spec n 8); [rewrite !Hst; repeat destruct (decide _); lia || done|].
  set (k := Z.land (usub 0 d) 3). pose proof (land_3 (usub 0 d)) as Hk. fold k in Hk. rewrite usub_small by lia.
  change (usub 0 4) with (unot (2 ^ 2 - 1)). rewrite unot_land by (unfold in_usize; lia). pose proof (Z.mod_pos_bound (n - k) (2 ^ 2) ltac:(lia)).
  rewrite fill_loop_spec, Z2Nat.id by lia. rewrite replaced_cases, !Hst. repeat destruct (decide _); lia || done.
Qed.

(** The string [l] at [s] does not touch the [n] bytes at [d]. *)
Definition apart (d n s : Z) l : Prop := d + n ≤ s ∨ s + zlen l < d.

Lemma strcpy_spec fuel m d s l : string_at m s l → (length l < fuel)%nat → apart d (zlen l + 1) s l →
  ∃ m', strcpy fuel m d s = Some (d + zlen l, m') ∧ string_at m' d l ∧ ∀ x, ¬ (d ≤ x ≤ d + zlen l) → m' x = m x.
Proof.
  revert fuel m d s. induction l as [|b l IH]; intros [|fuel] m d s Hs Hf Ha; cbn [length string_at strcpy] in *; try lia.
  - rewrite store_at, Hs. change (0 mod 256) with 0. eexists. split; [cbn; f_equal; f_equal; lia|]. split; [by rewrite store_at|]. intros x Hx. apply store_other. lia.
  - destruct Hs as (Hb & Hr & Hs). rewrite store_at, Hb, Z.mod_small, (proj2 (Z.eqb_neq b 0)) by lia. unfold apart in *. cbn [length] in Ha.
    destruct (IH fuel (store m d b) (d + 1) (s + 1)) as (m' & -> & Hm' & Ho); [|lia|lia|].
    { apply (string_at_ext m); [done|]. intros x Hx. apply store_other. lia. }
    exists m'. split; [f_equal; f_equal; lia|]. split.
    + split; [|done]. rewrite Ho by lia. rewrite store_at. apply Z.mod_small. lia.
    + intros x Hx. rewrite Ho by lia. apply store_other. lia.
Qed.
Lemma string_at_join m s l1 l2 : Forall (λ b, 0 < b < 256) l1 → (∀ i, (i < length l1)%nat → m (s + Z.of_nat i) = default 0 (l1 !! i)) → string_at m (s + zlen l1) l2 → string_at m s (l1 ++ l2).
Proof.
  revert s. induction l1 as [|b l1 IH]; intros s Hf Hl Hs; [by rewrite Z.add_0_r in Hs|]. apply Forall_cons in Hf as [Hb Hf]. cbn. split; [|split; [done|]].
  - specialize (Hl 0%nat ltac:(cbn; lia)). by rewrite Z.add_0_r in Hl.
  - apply IH; [done| |].
    + intros i Hi. specialize (Hl (S i) ltac:(cbn; lia)). change ((b :: l1) !! S i) with (l1 !! i) in Hl. rewrite <-Hl. f_equal. lia.
    + cbn [length] in Hs. by replace (s + 1 + zlen l1) with (s + Z.of_nat (S (length l1))) by lia.
Qed.
Lemma string_at_forall m s l : string_at m s l → Forall (λ b, 0 < b < 256) l.
Proof. intros Hs. apply Forall_forall. intros b. by eapply string_at_nonzero. Qed.

Lemma strcat_spec fuel m d s ld ls : string_at m d ld → string_at m s ls → (length ld < fuel)%nat → (length ls < fuel)%nat → apart (d + zlen ld) (zlen ls + 1) s ls →
  ∃ m', strcat fuel m d s = Some (d, m') ∧ string_at m' d (ld ++ ls) ∧ ∀ x, ¬ (d + zlen ld ≤ x ≤ d + zlen ld + zlen ls) → m' x = m x.
Proof.
  intros Hd Hs Hfd Hfs Ha. unfold strcat. rewrite (strlen_spec fuel m d ld) by done. cbn [mbind option_bind].
  destruct (strcpy_spec fuel m (d + zlen ld) s ls Hs Hfs Ha) as (m' & -> & Hm & Ho). exists m'. split; [done|]. split; [|done].
  apply string_at_join; [by eapply string_at_forall| |done]. intros i Hi. rewrite Ho by lia. apply string_at_lookup; [done|lia].
Qed.
Lemma strncat_loop_spec n m d s l : string_at m s l → apart d (zlen (take n l)) s l →
  ∃ m', strncat_loop n m d s = (d + zlen (take n l), m') ∧ (∀ i, (i < length (take n l))%nat → m' (d + Z.of_nat i) = default 0 (l !! i)) ∧
    ∀ x, ¬ (d ≤ x < d + zlen (take n l)) → m' x = m x.
Proof.
  revert m d s l. induction n as [|n IH]; intros m d s l Hs Ha; cbn [strncat_loop take].
  { rewrite take_0. exists m. cbn [length]. split; [f_equal; lia|]. split; [intros; lia|done]. }
  destruct l as [|b l]; cbn [string_at] in Hs; [rewrite Hs; exists m; cbn [length take]; split; [f_equal; lia|]; split; [intros; lia|done]|]. destruct Hs as (Hb & Hr & Hs).
  rewrite Hb, (proj2 (Z.eqb_neq b 0)) by lia. unfold apart in *. cbn [take length] in *.
  destruct (IH (store m d b) (d + 1) (s + 1) l) as (m' & -> & Hm & Ho); [|lia|].
  { apply (string_at_ext m); [done|]. intros x Hx. apply store_other. rewrite length_take in Ha. lia. }
  exists m'. split; [f_equal; lia|]. split.
  - intros [|i] Hi; cbn [lookup list_lookup default].
    + rewrite Ho by lia. change (Z.of_nat 0) with 0. rewrite Z.add_0_r, store_at. by rewrite Z.mod_small by lia.
    + rewrite <-Hm by lia. f_equal. lia.
  - intros x Hx. rewrite Ho by lia. apply store_other. lia.
Qed.
Lemma strncat_spec fuel m d s ld ls n : string_at m d ld → string_at m s ls → (length ld < fuel)%nat → 0 ≤ n → apart (d + zlen ld) (zlen ls + 1) s ls →
  let added := take (Z.to_nat n) ls in
  ∃ m', strncat fuel m d s n = Some (d, m') ∧ string_at m' d (ld ++ added) ∧ ∀ x, ¬ (d + zlen ld ≤ x ≤ d + zlen ld + zlen added) → m' x = m x.
Proof.
  intros Hd Hs Hfd Hn Ha added. unfold strncat. rewrite (strlen_spec fuel m d ld) by done. cbn [mbind option_bind].
  assert (length added ≤ length ls)%nat as Hla by (unfold added; rewrite length_take; lia).
  destruct (strncat_loop_spec (Z.to_nat n) m (d + zlen ld) s ls Hs) as (m' & -> & Hm & Ho); [unfold apart in *; fold added; lia|]. fold added in Hm, Ho |- *.
  eexists. split; [done|]. split.
  - pose proof (string_at_forall _ _ _ Hs) as Hfs. rewrite <-(app_nil_r (ld ++ added)). apply string_at_join.
    + apply Forall_app. split; [by eapply string_at_forall|by apply Forall_take].
    + intros i Hi. rewrite length_app in Hi. rewrite store_other by lia. destruct (decide (i < length ld)%nat).
      * rewrite Ho by lia. rewrite lookup_app_l by done. apply string_at_lookup; [done|lia].
      * rewrite lookup_app_r by lia. replace (d + Z.of_nat i) with (d + zlen ld + Z.of_nat (i - length ld)) by lia. rewrite Hm by lia. unfold added. rewrite lookup_take_lt; [done|].
        unfold added in Hi. rewrite length_take in Hi. lia.
    + cbn. rewrite length_app. replace (d + Z.of_nat (length ld + length added)) with (d + zlen ld + zlen added) by lia. by rewrite store_at.
  - intros x Hx. rewrite store_other by lia. apply Ho. lia.
Qed.

(** ** Comparisons *)

(** The first difference decides; the end of a string counts as zero. *)
Fixpoint compare_bytes (l r : list Z) : Z :=
  match l, r with
  | [], [] => 0
  | [], b :: _ => - b
  | a :: _, [] => a
  | a :: l, b :: r => if a =? b then compare_bytes l r else a - b
  end.
Definition before (l r : list Z) : Prop := ∃ k, take k l = take k r ∧ default 0 (l !! k) < default 0 (r !! k).
Lemma compare_bytes_spec l r : Forall (λ b, 0 < b) l → Forall (λ b, 0 < b) r →
  (compare_bytes l r = 0 ↔ l = r) ∧ (compare_bytes l r < 0 ↔ before l r) ∧ (0 < compare_bytes l r ↔ before r l).
Proof.
  revert r. induction l as [|a l IH]; intros [|b r] Hl Hr; cbn [compare_bytes].
  - split_and!; [done|split; [lia|]|split; [lia|]]; intros (k & _ & Hk); rewrite !lookup_nil in Hk; cbn in Hk; lia.
  - apply Forall_cons in Hr as [Hb Hr]. split_and!; [split; [lia|done]|split; [intros _; by exists 0%nat|lia]|split; [lia|]]. intros ([|k] & Ht & Hk); cbn in Hk; [lia|done].
  - apply Forall_cons in Hl as [Ha Hl]. split_and!; [split; [lia|done]|split; [lia|]|split; [intros _; by exists 0%nat|lia]]. intros ([|k] & Ht & Hk); cbn in Hk; [lia|done].
  - apply Forall_cons in Hl as [Ha Hl]. apply Forall_cons in Hr as [Hb Hr]. destruct (Z.eqb_spec a b) as [->|Hne].
    + destruct (IH r Hl Hr) as (H1 & H2 & H3). rewrite H1, H2, H3. assert (∀ l r, before (b :: l) (b :: r) ↔ before l r) as Hcons.
      { intros l' r'. split; [intros ([|k] & Ht & Hk); [cbn in Hk; lia|]; exists k; cbn in *; by simplify_eq|]. intros (k & Ht & Hk). exists (S k). cbn. by rewrite Ht. }
      rewrite !Hcons. split; [|done]. split; [by intros ->|by intros [=]].
    + assert (∀ a b l r, a ≠ b → before (a :: l) (b :: r) ↔ a < b) as Hc.
      { intros a' b' l' r' Hn. split; [intros ([|k] & Ht & Hk); [done|]; by cbn in Ht; simplify_eq|]. intros Hlt. by exists 0%nat. }
      rewrite !Hc by done. split_and!; [split; [lia|congruence]|lia|lia].
Qed.
Lemma compare_same_length l r : length l = length r → compare_bytes l r = 0 ↔ l = r.
Proof.
  revert r. induction l as [|a l IH]; intros [|b r] Hl; cbn in *; try done. destruct (Z.eqb_spec a b) as [->|Hne]; [|split; [lia|congruence]].
  rewrite IH by lia. split; [by intros ->|by intros [=]].
Qed.
Lemma tolower_pos b : 0 < b < 256 → 0 < tolower b.
Proof. intros Hb. unfold tolower. destruct (isupper b); [|lia]. apply Z.lt_le_trans with 32; [lia|]. rewrite Z.lor_comm. apply Z.ldiff_le; [apply Z.lor_nonneg; lia|]. apply Z.bits_inj'. intros i Hi. rewrite Z.ldiff_spec, Z.lor_spec, Z.bits_0. by destruct (Z.testbit 32 i), (Z.testbit b i). Qed.
Lemma strcmp_spec fuel m s1 s2 l1 l2 : string_at m s1 l1 → string_at m s2 l2 → (length l1 < fuel)%nat → strcmp fuel m s1 s2 = Some (compare_bytes l1 l2).
Proof.
  revert fuel s1 s2 l2. induction l1 as [|a l1 IH]; intros [|fuel] s1 s2 l2 H1 H2 Hf; cbn [length string_at strcmp] in *; try lia.
  - rewrite H1, andb_false_r. destruct l2 as [|b l2]; cbn in H2; [by rewrite H2|]. by destruct H2 as (-> & _).
  - destruct H1 as (-> & Ha & H1). rewrite (proj2 (Z.eqb_neq a 0)) by lia. rewrite andb_true_r. destruct l2 as [|b l2]; cbn [string_at] in H2.
    + rewrite H2. rewrite (proj2 (Z.eqb_neq a 0)) by lia. cbn. f_equal. lia.
    + destruct H2 as (-> & Hb & H2). cbn [compare_bytes]. destruct (a =? b); [|done]. apply IH; [done|done|lia].
Qed.
Lemma strncmp_spec m s1 s2 l1 l2 n : string_at m s1 l1 → string_at m s2 l2 → 0 ≤ n →
  strncmp m s1 s2 n = compare_bytes (take (Z.to_nat n) l1) (take (Z.to_nat n) l2).
Proof.
  intros H1 H2 Hn. unfold strncmp. destruct (Z.eqb_spec n 0) as [->|Hn0]; [done|]. replace (Z.to_nat n) with (S (Z.to_nat (n - 1))) by lia.
  generalize (Z.to_nat (n - 1)) as k. clear n Hn Hn0. intros k. revert s1 s2 l1 l2 H1 H2. induction k as [|k IH]; intros s1 s2 l1 l2 H1 H2; cbn [strncmp_loop].
  - destruct l1 as [|a l1], l2 as [|b l2]; cbn in *; [lia|..]; destruct_and?; [lia|lia|]. case_Z1; rewrite ?take_0; cbn; lia.
  - destruct l1 as [|a l1], l2 as [|b l2]; cbn [string_at] in H1, H2; [rewrite H1; cbn; lia|..]; destruct_and?; cbn [take compare_bytes].
    + rewrite H1. cbn. lia.
    + rewrite H2, andb_false_r. cbn. lia.
    + assert (m s1 = a) as -> by done. assert (m s2 = b) as -> by done. rewrite (proj2 (Z.eqb_neq a 0)), (proj2 (Z.eqb_neq b 0)) by lia. cbn [negb andb].
      destruct (a =? b); [by apply IH|]. f_equal; done.
Qed.

Lemma memcmp_spec m s1 s2 n : memcmp m s1 s2 n = compare_bytes (bytes_at m s1 (Z.to_nat n)) (bytes_at m s2 (Z.to_nat n)).
Proof.
  unfold memcmp. generalize (Z.to_nat n) as k. intros k. revert s1 s2. induction k as [|k IH]; intros s1 s2; [done|].
  rewrite !bytes_at_S. cbn [memcmp_loop compare_bytes]. by destruct (m s1 =? m s2).
Qed.

Lemma compare_first_difference m d s i r : bytes_at m d i = bytes_at m s i → m (d + Z.of_nat i) ≠ m (s + Z.of_nat i) →
  compare_bytes (bytes_at m d (i + S r)) (bytes_at m s (i + S r)) = m (d + Z.of_nat i) - m (s + Z.of_nat i).
Proof.
  revert d s. induction i as [|i IH]; intros d s He Hne.
  - cbn [plus]. rewrite !bytes_at_S. cbn [compare_bytes]. change (Z.of_nat 0) with 0 in *. rewrite !Z.add_0_r in *. by rewrite (proj2 (Z.eqb_neq _ _)) by done.
  - cbn [plus]. rewrite !bytes_at_S in *. injection He as Hh He. cbn [compare_bytes]. rewrite Hh, Z.eqb_refl.
    replace (d + Z.of_nat (S i)) with (d + 1 + Z.of_nat i) in * by lia. replace (s + Z.of_nat (S i)) with (s + 1 + Z.of_nat i) in * by lia. by apply IH.
Qed.

(** Letters of either case compare equal. *)
Lemma strcasecmp_spec fuel m s1 s2 l1 l2 : string_at m s1 l1 → string_at m s2 l2 → (length l1 < fuel)%nat →
  strcasecmp fuel m s1 s2 = Some (compare_bytes (tolower <$> l1) (tolower <$> l2)).
Proof.
  assert (∀ a b, same_letter a b = (tolower a =? tolower b)) as Hsame.
  { intros a b. unfold same_letter. destruct (Z.eqb_spec a b) as [->|]; [by rewrite Z.eqb_refl|done]. }
  revert fuel s1 s2 l2. induction l1 as [|a l1 IH]; intros [|fuel] s1 s2 l2 H1 H2 Hf; cbn [length string_at strcasecmp] in *; try lia.
  - rewrite H1. cbn [Z.eqb negb andb]. destruct l2 as [|b l2]; cbn in H2; [by rewrite H2|]. by destruct H2 as (-> & _).
  - destruct H1 as (-> & Ha & H1). rewrite (proj2 (Z.eqb_neq a 0)) by lia. cbn [negb andb]. destruct l2 as [|b l2]; cbn [string_at] in H2.
    + rewrite H2. cbn [Z.eqb negb andb fmap list_fmap compare_bytes]. change (tolower 0) with 0. f_equal. lia.
    + destruct H2 as (-> & Hb & H2). rewrite (proj2 (Z.eqb_neq b 0)) by lia. cbn [negb andb fmap list_fmap compare_bytes]. rewrite Hsame.
      destruct (_ =? _); [|done]. apply IH; [done|done|lia].
Qed.

(** ** Sets of bytes *)

Lemma get_set_bit b c set : length set = 4%nat → 0 ≤ b < 256 → 0 ≤ c < 256 → get_bit b (set_bit c set) = (b =? c) || get_bit b set.
Proof.
  intros Hl Hb Hc. unfold get_bit, set_bit, bit_of. pose proof (Z.div_mod b 64 ltac:(lia)). pose proof (Z.mod_pos_bound b 64 ltac:(lia)).
  pose proof (Z.div_mod c 64 ltac:(lia)). pose proof (Z.mod_pos_bound c 64 ltac:(lia)).
  assert (∀ w k, 0 ≤ k < 64 → (Z.land w (Z.shiftl 1 k) =? 0) = negb (Z.testbit w k)) as Hbit.
  { intros w k Hk. rewrite Z.shiftl_1_l. destruct (Z.testbit w k) eqn:Ht; cbn.
    - apply Z.eqb_neq. intros He. apply (f_equal (λ z, Z.testbit z k)) in He. rewrite Z.land_spec, Ht, Z.pow2_bits_true, Z.bits_0 in He by lia. done.
    - apply Z.eqb_eq, Z.bits_inj'. intros i Hi. rewrite Z.land_spec, Z.bits_0, Z.pow2_bits_eqb by lia. destruct (Z.eqb_spec k i) as [<-|]; [by rewrite Ht|apply andb_false_r]. }
  rewrite !Hbit, !negb_involutive by lia. destruct (decide (b / 64 = c / 64)) as [Hd|Hd].
  - rewrite Hd, list_lookup_alter_eq. assert (is_Some (set !! Z.to_nat (c / 64))) as [w Hw].
    { apply lookup_lt_is_Some. rewrite Hl. assert (c / 64 < 4) by (apply Z.div_lt_upper_bound; lia). assert (0 ≤ c / 64) by (apply Z.div_pos; lia). lia. }
    rewrite Hw. cbn [fmap option_fmap option_map default from_option id]. rewrite Z.lor_spec, Z.shiftl_1_l, Z.pow2_bits_eqb by lia.
    destruct (Z.eqb_spec b c), (Z.eqb_spec (c mod 64) (b mod 64)); try lia; by rewrite ?orb_true_r, ?orb_false_r.
  - rewrite list_lookup_alter_ne; [|intros He; apply Z2Nat.inj in He; [congruence|apply Z.div_pos; lia..]]. destruct (Z.eqb_spec b c) as [->|]; done.
Qed.
Lemma set_of_spec fuel m s l set : string_at m s l → (length l < fuel)%nat → length set = 4%nat →
  ∃ set', set_of fuel m s set = Some set' ∧ ∀ b, 0 ≤ b < 256 → get_bit b set' = bool_decide (b ∈ l) || get_bit b set.
Proof.
  revert fuel s set. induction l as [|a l IH]; intros [|fuel] s set Hs Hf Hl; cbn [length string_at set_of] in *; try lia.
  - rewrite Hs. exists set. split; [done|]. intros b Hb. by rewrite bool_decide_false by apply not_elem_of_nil.
  - destruct Hs as (-> & Ha & Hs). rewrite (proj2 (Z.eqb_neq a 0)) by lia. destruct (IH fuel (s + 1) (set_bit a set) Hs) as (set' & -> & Hg); [lia|unfold set_bit; by rewrite length_alter|].
    exists set'. split; [done|]. intros b Hb. rewrite Hg, get_set_bit by (done || lia). destruct (Z.eqb_spec b a) as [->|Hne].
    + rewrite (bool_decide_true (a ∈ a :: l)) by (by left). by rewrite orb_true_r.
    + cbn [orb]. f_equal. apply bool_decide_ext. rewrite elem_of_cons. naive_solver.
Qed.
Lemma empty_set_bits b : get_bit b empty_set = false.
Proof.
  unfold get_bit, empty_set. destruct (replicate 4 0 !! Z.to_nat (b / 64)) as [w|] eqn:Hw; cbn; [|done]. apply lookup_replicate in Hw as [-> _]. done.
Qed.

Lemma strspn_spec fuel m s c l set : string_at m s l → string_at m c set → (length l < fuel)%nat → (length set < fuel)%nat →
  strspn fuel m s c = Some (Z.of_nat (span (λ b, bool_decide (b ∈ set)) l)).
Proof.
  intros Hs Hc Hf Hfc. unfold strspn. destruct set as [|a set]; cbn [string_at] in Hc.
  { rewrite Hc. cbn. do 2 f_equal. destruct l as [|b l]; cbn; [done|]. by rewrite bool_decide_false by apply not_elem_of_nil. }
  destruct Hc as (Ha & Hra & Hc). rewrite Ha, (proj2 (Z.eqb_neq a 0)) by lia. destruct set as [|b set]; cbn [string_at] in Hc.
  - rewrite Hc. cbn [Z.eqb]. rewrite (skip_while_spec _ fuel m s l Hs) by (done || apply Z.eqb_neq; lia). cbn. f_equal. rewrite (span_ext _ (λ b, bool_decide (b ∈ [a]))); [lia|].
    intros b _. destruct (Z.eqb_spec b a) as [->|]; [by rewrite bool_decide_true by (by left)|]. rewrite bool_decide_false; [done|]. by rewrite list_elem_of_singleton.
  - destruct Hc as (Hb & Hrb & Hc). rewrite Hb, (proj2 (Z.eqb_neq b 0)) by lia.
    destruct (set_of_spec fuel m c (a :: b :: set) empty_set) as (set' & -> & Hg); [by cbn|done|done|]. cbn [mbind option_bind]. rewrite (skip_while_spec _ fuel m s l Hs) by done.
    cbn. f_equal. rewrite (span_ext _ (λ x, bool_decide (x ∈ a :: b :: set))); [lia|]. intros x Hx. apply (string_at_nonzero _ _ _ _ Hs) in Hx.
    rewrite (proj2 (Z.eqb_neq x 0)) by lia. cbn [negb andb]. rewrite Hg, empty_set_bits, orb_false_r by lia. done.
Qed.
(** [strcspn] on a set of two or more bytes, or when the string starts with the byte. *)
Lemma strcspn_spec fuel m s c l set : string_at m s l → string_at m c set → (length l < fuel)%nat → (length set < fuel)%nat →
  ((1 < length set)%nat ∨ head l = head set) → strcspn fuel m s c = Some (Z.of_nat (span (λ b, negb (bool_decide (b ∈ set))) l)).
Proof.
  intros Hs Hc Hf Hfc Hcase. unfold strcspn.
  assert (((m c =? 0) || (m (c + 1) =? 0)) && negb (m s =? m c) = false) as ->.
  { destruct Hcase as [Hl|Hh].
    - destruct set as [|a [|b set]]; cbn in Hl; [lia|lia|]. cbn in Hc. destruct Hc as (-> & ? & -> & ? & _). by rewrite !(proj2 (Z.eqb_neq _ 0)) by lia.
    - assert (m s = m c) as ->; [|by rewrite Z.eqb_refl, andb_false_r]. destruct l, set; cbn in *; simplify_eq; destruct_and?; congruence. }
  destruct (set_of_spec fuel m c set empty_set) as (set' & -> & Hg); [done|done|done|]. cbn [mbind option_bind]. rewrite (skip_while_spec _ fuel m s l Hs) by done.
  cbn. f_equal. rewrite (span_ext _ (λ x, negb (bool_decide (x ∈ set)))); [lia|]. intros x Hx. apply (string_at_nonzero _ _ _ _ Hs) in Hx.
  rewrite (proj2 (Z.eqb_neq x 0)) by lia. cbn [negb andb]. rewrite Hg, empty_set_bits, orb_false_r by lia. done.
Qed.

(** * Properties *)

(** copying and filling change exactly the destination: [memmove] gives it the bytes the source had, also when
    the two overlap, [memcpy] does so when it does not start inside the source, [memset] fills it with the byte, although it writes the ends first and the middle
    at an aligned address; [memcmp] gives the difference at the first byte where two ranges differ, and zero when they do not. *)
Theorem mem_functions_exact m d s n c x :
  byte_memory m → 0 ≤ d → d + n < 2 ^ 64 → 0 ≤ s → s + n < 2 ^ 64 → 0 ≤ n ≤ 2 ^ 63 →
  memmove m d s n x = (if decide (d ≤ x < d + n) then m (s + (x - d)) else m x) ∧
  (d ≤ s ∨ s + n ≤ d → memcpy m d s n x = if decide (d ≤ x < d + n) then m (s + (x - d)) else m x) ∧
  memset m d c n x = (if decide (d ≤ x < d + n) then c mod 256 else m x) ∧
  (memcmp m d s n = 0 ↔ bytes_at m d (Z.to_nat n) = bytes_at m s (Z.to_nat n)) ∧
  (∀ k, 0 ≤ k < n → bytes_at m d (Z.to_nat k) = bytes_at m s (Z.to_nat k) → m (d + k) ≠ m (s + k) → memcmp m d s n = m (d + k) - m (s + k)).
Proof.
  intros Hm Hd Hdn Hs Hsn Hn. split_and!.
  - rewrite memmove_spec by (done || lia). apply replaced_cases.
  - intros Ha. unfold memcpy. rewrite copy_loop_spec by (done || lia). rewrite Z2Nat.id by lia. apply replaced_cases.
  - rewrite memset_spec by lia. apply replaced_cases.
  - rewrite memcmp_spec. apply compare_same_length. unfold bytes_at. by rewrite !length_fmap.
  - intros k Hk He Hne. rewrite memcmp_spec. replace (Z.to_nat n) with (Z.to_nat k + S (Z.to_nat (n - k - 1)))%nat by lia.
    pose proof (compare_first_difference m d s (Z.to_nat k) (Z.to_nat (n - k - 1)) He) as Hc. rewrite Z2Nat.id in Hc by lia. by apply Hc.
Qed.

(** the searches in a string find what they promise, in time proportional to its length: [strlen] and [strnlen] the length,
    [strchr] the first and [strrchr] the last occurrence of a character, the end of the string counting as a zero character,
    [strchrnul] the first occurrence or the end, and [strspn] the length of the longest prefix made of characters of a set. *)
Theorem string_searches_exact fuel m s l c set p :
  string_at m s l → string_at m p set → (length l < fuel)%nat → (length set < fuel)%nat → s ≠ 0 → 0 ≤ c < 256 →
  strlen fuel m s = Some (zlen l) ∧ (∀ n, 0 ≤ n → strnlen m s n = Z.min n (zlen l)) ∧
  (∃ r, strchr fuel m s c = Some r ∧ ∀ i, r = Some (s + Z.of_nat i) ↔ (l ++ [0]) !! i = Some c ∧ ∀ j, (j < i)%nat → (l ++ [0]) !! j ≠ Some c) ∧
  (∃ r, strrchr fuel m s c = Some r ∧ ∀ i, r = Some (s + Z.of_nat i) ↔ (l ++ [0]) !! i = Some c ∧ ∀ j, (i < j)%nat → (l ++ [0]) !! j ≠ Some c) ∧
  (∃ i, strchrnul fuel m s c = Some (s + Z.of_nat i) ∧ (i ≤ length l)%nat ∧ ((i < length l)%nat → l !! i = Some c) ∧ ∀ j, (j < i)%nat → c ≠ 0 → l !! j ≠ Some c) ∧
  (∃ n, strspn fuel m s p = Some (Z.of_nat n) ∧ Forall (λ b, b ∈ set) (take n l) ∧ ∀ b, l !! n = Some b → b ∉ set).
Proof.
  intros Hs Hp Hf Hfp Hn Hc. split_and!.
  - by apply strlen_spec.
  - intros n. by apply strnlen_spec.
  - rewrite (strchr_spec fuel m s l) by done. eexists. split; [done|]. intros i. rewrite <-first_occurrence_spec. apply at_position_eq.
  - rewrite (strrchr_spec fuel m s l), Z.mod_small by (done || lia). eexists. split; [done|]. intros i. rewrite <-last_occurrence_spec. apply at_position_eq.
  - rewrite (strchrnul_spec fuel m s l), Z.mod_small by (done || lia). eexists. split; [done|]. split; [apply span_le|]. split.
    + intros Hl. destruct (span_lookup _ _ Hl) as (b & Hb & Hd). unfold differs in Hd. apply negb_false_iff, Z.eqb_eq in Hd as ->. done.
    + intros j Hj _ He. apply (span_prefix (differs c) _ j) in He; [|done]. unfold differs in He. by rewrite Z.eqb_refl in He.
  - rewrite (strspn_spec fuel m s p l set) by done. eexists. split; [done|]. split.
    + apply Forall_lookup. intros i b Hb. apply lookup_take_Some in Hb as [Hb Hi]. apply (span_prefix (λ b, bool_decide (b ∈ set)) _ i) in Hb; [|done]. by apply bool_decide_eq_true in Hb.
    + intros b Hb. destruct (span_lookup (λ b, bool_decide (b ∈ set)) l) as (b' & Hb' & Hd); [by apply lookup_lt_Some in Hb|]. rewrite Hb in Hb'. injection Hb' as <-.
      by apply bool_decide_eq_false in Hd.
Qed.

(** [strcmp] orders strings by their first difference: it is zero exactly for equal strings, negative exactly when the first
    comes before the second in the order of bytes, and positive when it comes after; [strncmp] does so for the first [n]
    characters, and [strcasecmp] for the strings with capital letters made small. *)
Theorem string_compare_exact fuel m s1 s2 l1 l2 n :
  string_at m s1 l1 → string_at m s2 l2 → (length l1 < fuel)%nat → 0 ≤ n →
  let ordered d l r := (d = 0 ↔ l = r) ∧ (d < 0 ↔ before l r) ∧ (0 < d ↔ before r l) in
  (∃ d, strcmp fuel m s1 s2 = Some d ∧ ordered d l1 l2) ∧
  ordered (strncmp m s1 s2 n) (take (Z.to_nat n) l1) (take (Z.to_nat n) l2) ∧
  (∃ d, strcasecmp fuel m s1 s2 = Some d ∧ ordered d (tolower <$> l1) (tolower <$> l2)).
Proof.
  intros H1 H2 Hf Hn ordered. assert (∀ s l, string_at m s l → Forall (λ b, 0 < b) l) as Hpos.
  { intros s l Hs. eapply Forall_impl; [by eapply string_at_forall|]. intros b Hb. cbn in *. lia. }
  split_and!.
  - eexists. split; [by eapply strcmp_spec|]. apply compare_bytes_spec; eauto.
  - rewrite (strncmp_spec m s1 s2 l1 l2 n) by done. apply compare_bytes_spec; apply Forall_take; eauto.
  - eexists. split; [by eapply strcasecmp_spec|]. apply compare_bytes_spec; apply Forall_fmap; (eapply Forall_impl; [by eapply string_at_forall|]); intros b Hb; cbn; by apply tolower_pos.
Qed.

(** [strcspn] with a set of one character is wrong: when the string does not start with the character it returns 0, although
    the character may only come later or not at all, and [strpbrk] then returns the start of the string as if its first
    character were in the set. With two or more characters it returns the length of the longest prefix without them. *)
Theorem strcspn_single_wrong fuel m s p l set :
  string_at m s l → string_at m p set → (length l < fuel)%nat → (length set < fuel)%nat →
  ((1 < length set)%nat →
   ∃ n, strcspn fuel m s p = Some (Z.of_nat n) ∧ Forall (λ b, b ∉ set) (take n l) ∧ ∀ b, l !! n = Some b → b ∈ set) ∧
  (∀ c a r, set = [c] → l = a :: r → a ≠ c → strcspn fuel m s p = Some 0 ∧ strpbrk fuel m s p = Some (Some s)).
Proof.
  intros Hs Hp Hf Hfp. split.
  - intros Hl. rewrite (strcspn_spec fuel m s p l set) by auto. eexists. split; [done|]. split.
    + apply Forall_lookup. intros i b Hb. apply lookup_take_Some in Hb as [Hb Hi]. apply (span_prefix (λ b, negb (bool_decide (b ∈ set))) _ i) in Hb; [|done].
      by apply negb_true_iff, bool_decide_eq_false in Hb.
    + intros b Hb. destruct (span_lookup (λ b, negb (bool_decide (b ∈ set))) l) as (b' & Hb' & Hd); [by apply lookup_lt_Some in Hb|]. rewrite Hb in Hb'. injection Hb' as <-.
      by apply negb_false_iff, bool_decide_eq_true in Hd.
  - intros c a r -> -> Hne. cbn [string_at] in Hs, Hp. destruct Hp as (Hc & _ & Hz). destruct Hs as (Ha & Hra & _).
    assert (strcspn fuel m s p = Some 0) as He by (unfold strcspn; rewrite Hc, Hz, Ha, (proj2 (Z.eqb_neq a c)), orb_true_r by done; done).
    split; [done|]. unfold strpbrk. rewrite He. cbn [mbind option_bind]. rewrite Z.add_0_r, Ha, (proj2 (Z.eqb_neq a 0)) by lia. done.
Qed.

(** copying a string to a place apart from it gives the string there: [strcpy] and [strcat] make a copy and an appended copy with the
    end of the string, [strncat] appends at most [n] characters and the end; nothing else changes. [strcpy]
    returns the end of the copy, not its start. *)
Theorem string_copies_exact fuel m d s ld ls n :
  string_at m d ld → string_at m s ls → (length ld < fuel)%nat → (length ls < fuel)%nat → 0 ≤ n → apart d (zlen ld + zlen ls + 1) s ls →
  (∃ m', strcpy fuel m d s = Some (d + zlen ls, m') ∧ string_at m' d ls ∧ ∀ x, ¬ (d ≤ x ≤ d + zlen ls) → m' x = m x) ∧
  (∃ m', strcat fuel m d s = Some (d, m') ∧ string_at m' d (ld ++ ls) ∧ ∀ x, ¬ (d + zlen ld ≤ x ≤ d + zlen ld + zlen ls) → m' x = m x) ∧
  (∃ m', strncat fuel m d s n = Some (d, m') ∧ string_at m' d (ld ++ take (Z.to_nat n) ls) ∧ ∀ x, ¬ (d + zlen ld ≤ x ≤ d + zlen ld + zlen ls) → m' x = m x).
Proof.
  intros Hd Hs Hfd Hfs Hn Ha. unfold apart in Ha. split_and!.
  - apply strcpy_spec; [done|done|]. unfold apart. lia.
  - apply strcat_spec; [done..|]. unfold apart. lia.
  - destruct (strncat_spec fuel m d s ld ls n) as (m' & He & Hst & Ho); [done..|unfold apart; lia|]. exists m'. split; [done|]. split; [done|]. intros x Hx. apply Ho.
    rewrite length_take. lia.
Qed.
