(* ===== verification/CTwoWay.v ===== *)
(** The combinatorics behind [twoway_strstr]: maximal suffixes of a word for two opposite
    orders, the critical factorization theorem, and the periods of the needle.

    A word is a function [x] on positions and its length [L].  The position [l] where the
    later of the two maximal suffixes starts is critical: whatever repeats locally around
    it is a period of the whole word, longer than [l] ([critical]). *)

From stdpp Require Import prelude.
From Stdlib Require Import ZArith Lia.
From S2P Require Import Prelude.

(** A strict total order on bytes. *)
Class ByteOrder (lt : Z → Z → Prop) : Prop := {
  bo_irrefl a : ¬ lt a a;
  bo_trans a b c : lt a b → lt b c → lt a c;
  bo_total a b : a ≠ b → lt a b ∨ lt b a;
}.
#[export] Instance lt_order : ByteOrder Z.lt.
Proof. split; lia. Qed.
#[export] Instance gt_order : ByteOrder (flip Z.lt).
Proof. split; unfold flip; lia. Qed.

Section words.
Context (x : nat → Z) (L : nat).

Definition has_period (q : nat) : Prop := 0 < q ∧ ∀ i, i + q < L → x i = x (i + q).
(** [q] is a period of the suffix at [s]. *)
Definition suffix_period (s q : nat) : Prop := 0 < q ∧ ∀ i, s ≤ i → i + q < L → x i = x (i + q).
(** The [s] letters from [l] on are those before [l], as far as both are in the word. *)
Definition local_period (l s : nat) : Prop := 0 < s ∧ ∀ i, l ≤ i < l + s → i < L → s ≤ i → x i = x (i - s).

Section order.
Context (lt : Z → Z → Prop) {order : ByteOrder lt}.

(** The suffixes at [a] and [b] agree on [c] letters, and then [a] has the smaller letter. *)
Definition less_at (a b c : nat) : Prop := (∀ d, d < c → x (a + d) = x (b + d)) ∧ lt (x (a + c)) (x (b + c)).
(** The suffix at [a] comes before the suffix at [b]. *)
Definition less (a b : nat) : Prop := ∃ c, (∀ d, d < c → x (a + d) = x (b + d)) ∧ b + c < L ∧ (a + c = L ∨ a + c < L ∧ lt (x (a + c)) (x (b + c))).
Definition maximal (i : nat) : Prop := i < L ∧ ∀ a, a < L → a ≠ i → less a i.

Lemma less_first a b c : less a b → (∀ d, d < c → x (a + d) = x (b + d)) → a + c < L → b + c < L → x (a + c) ≠ x (b + c) → lt (x (a + c)) (x (b + c)).
Proof.
  intros (c' & He & Hb & Hor) Hc Ha Hb' Hne. destruct (decide (c' = c)) as [->|Hcc].
  - destruct Hor as [?|[_ ?]]; [lia|done].
  - destruct (decide (c' < c)) as [Hl|Hl].
    + destruct Hor as [?|[_ Hlt]]; [lia|]. rewrite (Hc c' Hl) in Hlt. by apply bo_irrefl in Hlt.
    + destruct Hne. apply He. lia.
Qed.
Lemma less_asym a b : less a b → less b a → False.
Proof.
  intros (c & He & Hb & Hor) (c' & He' & Ha' & Hor'). destruct (decide (c = c')) as [->|Hcc].
  - destruct Hor as [?|[_ H1]]; [lia|]. destruct Hor' as [?|[_ H2]]; [lia|]. by apply (bo_irrefl (lt := lt) (x (a + c'))), (bo_trans _ (x (b + c'))).
  - destruct (decide (c < c')) as [Hl|Hl].
    + destruct Hor as [?|[_ H1]]; [lia|]. rewrite (He' c Hl) in H1. by apply bo_irrefl in H1.
    + destruct Hor' as [?|[_ H1]]; [lia|]. rewrite (He c') in H1 by lia. by apply bo_irrefl in H1.
Qed.
(** Nothing repeats inside the prefix before a maximal suffix. *)
Lemma local_period_long l s : maximal l → local_period l s → l < s.
Proof.
  intros [Hl Hmax] [Hs Hloc]. destruct (decide (l < s)) as [|Hle]; [done|exfalso]. destruct (Hmax (l - s)) as (c & He & Hc & Hor); [lia|lia|].
  destruct (decide (c < s)) as [Hcs|Hcs].
  - destruct Hor as [?|[_ Hlt]]; [lia|]. assert (x (l + c) = x (l - s + c)) as Hx by (rewrite (Hloc (l + c)) by lia; f_equal; lia). rewrite Hx in Hlt. by apply bo_irrefl in Hlt.
  - apply (less_asym l (l + s)); [|apply Hmax; lia]. exists (c - s). split_and!; [|lia|].
    + intros d Hd. specialize (He (s + d) ltac:(lia)). replace (l - s + (s + d)) with (l + d) in He by lia. rewrite He. f_equal. lia.
    + replace (l + s + (c - s)) with (l + c) by lia. replace (l + (c - s)) with (l - s + c) by lia. destruct Hor; [by left|by right].
Qed.
End order.

(** ** The critical factorization theorem *)

(** [l] is where the maximal suffix for one order starts, and the one for the other order does not
    start later. *)
Definition critical_position (l : nat) : Prop :=
  (maximal Z.lt l ∧ ∃ l', l' ≤ l ∧ maximal (flip Z.lt) l') ∨ (maximal (flip Z.lt) l ∧ ∃ l', l' ≤ l ∧ maximal Z.lt l').

Lemma critical_order lt lt' `{!ByteOrder lt, !ByteOrder lt'} l l' s :
  (∀ a b, lt a b → lt' a b → False) → maximal lt l → l' ≤ l → maximal lt' l' → local_period l s → l < s ∧ has_period s.
Proof.
  intros Hop Hmax Hle Hmax' Hloc. pose proof (local_period_long lt l s Hmax Hloc) as Hls. split; [done|]. destruct Hloc as [Hs Hloc].
  assert (∀ i, i < l → i + s < L → x i = x (i + s)) as Hleft.
  { intros i Hi His. rewrite (Hloc (i + s)) by lia. f_equal. lia. }
  split; [done|]. intros i. induction (lt_wf i) as [i _ IH]. intros His. destruct (decide (i < l)) as [|Hil]; [by apply Hleft|].
  destruct (decide (x i = x (i + s))) as [|Hne]; [done|exfalso]. destruct Hmax as [Hl Hmax]. destruct Hmax' as [Hl' Hmax'].
  assert (lt (x (i + s)) (x i)) as H1.
  { pose proof (less_first lt (l + s) l (i - l) (Hmax (l + s) ltac:(lia) ltac:(lia))) as Hf. replace (l + s + (i - l)) with (i + s) in Hf by lia. replace (l + (i - l)) with i in Hf by lia.
    apply Hf; [|lia|lia|done]. intros d Hd. symmetry. replace (l + s + d) with (l + d + s) by lia. apply IH; lia. }
  apply (Hop _ _ H1). pose proof (less_first lt' (l' + s) l' (i - l') (Hmax' (l' + s) ltac:(lia) ltac:(lia))) as Hf.
  replace (l' + s + (i - l')) with (i + s) in Hf by lia. replace (l' + (i - l')) with i in Hf by lia. apply Hf; [|lia|lia|done].
  intros d Hd. symmetry. replace (l' + s + d) with (l' + d + s) by lia. apply IH; lia.
Qed.
Lemma critical l s : critical_position l → local_period l s → l < s ∧ has_period s.
Proof.
  intros [[Hm (l' & Hl & Hm')]|[Hm (l' & Hl & Hm')]] Hloc.
  - apply (critical_order Z.lt (flip Z.lt) l l'); unfold flip; [lia|done..].
  - apply (critical_order (flip Z.lt) Z.lt l l'); unfold flip; [lia|done..].
Qed.
Lemma period_local l s : has_period s → local_period l s.
Proof. intros [Hs Hp]. split; [done|]. intros i Hi HiL Hsi. symmetry. rewrite (Hp (i - s)) by lia. f_equal. lia. Qed.

(** ** Periods *)

Lemma suffix_period_mult s q e i : suffix_period s q → s ≤ i → i + e * q < L → x i = x (i + e * q).
Proof.
  intros [_ Hp] Hs. induction e as [|e IH]; intros Hl; [f_equal; lia|]. rewrite IH by lia. rewrite Hp by lia. f_equal. lia.
Qed.
(** [p] is the smallest period of the suffix at [l]. *)
Definition smallest_period (l p : nat) : Prop := suffix_period l p ∧ l + p ≤ L ∧ ∀ q, 0 < q < p → ¬ suffix_period l q.

(** A period of the word that is not longer than the critical suffix makes the smallest period of the
    suffix a period of the word. *)
Lemma short_period l p s : critical_position l → smallest_period l p → has_period s → l + s ≤ L → has_period p.
Proof.
  intros Hc ([Hp0 Hp] & HpL & Hmin) [Hs Hper] HsL. destruct (critical l s Hc (period_local l s (conj Hs Hper))) as [Hls _].
  set (r := s mod p). assert (s = p * (s / p) + r) as Hdiv by (apply Nat.div_mod; lia). assert (r < p) as Hr by (apply Nat.mod_upper_bound; lia). set (e := s / p) in *.
  destruct (decide (r = 0)) as [Hr0|Hr0].
  - split; [done|]. intros i Hi. destruct (decide (l ≤ i)); [by apply Hp|]. rewrite (Hper i) by lia. destruct (decide (l ≤ i + p)).
    + destruct e as [|e']; [lia|]. rewrite (suffix_period_mult l p e' (i + p)); [f_equal; lia|done|done|lia].
    + rewrite (Hper (i + p)) by lia. rewrite (Hp (i + s)) by lia. f_equal. lia.
  - exfalso. destruct (critical l r Hc) as [_ [_ Hrp]].
    + split; [lia|]. intros i Hi HiL Hri. rewrite (Hper (i - r)) by lia. rewrite (suffix_period_mult l p e i); [f_equal; lia|done|lia|lia].
    + apply (Hmin r); [lia|]. split; [lia|]. intros i _. apply Hrp.
Qed.

(** ** Computing the maximal suffix *)

Section maximal_suffix.
Context (lt : Z → Z → Prop) {order : ByteOrder lt}.

(** Of the letters before [j + t], the suffix at [i] is maximal: [e] copies of a word of length [p] and its first
    [t] letters.  The word is greater than its own proper suffixes, and the suffixes that start before [i] are smaller. *)
Record suffix_inv (i j t p : nat) : Prop := {
  si_range : i < j ∧ j + t ≤ L ∧ i < L;
  si_p : 0 < p ∧ t < p;
  si_copies : ∃ e, 0 < e ∧ j = i + e * p;
  si_period a : i ≤ a → a + p < j + t → x a = x (a + p);
  si_word b : 0 < b < p → ∃ c, b + c < p ∧ less_at lt (i + b) i c;
  si_before a : a < i → ∃ c, i + c < L ∧ less_at lt a i c;
}.

Lemma si_mult i j t p e a : suffix_inv i j t p → i ≤ a → a + e * p < j + t → x a = x (a + e * p).
Proof.
  intros Hinv Ha. induction e as [|e IH]; intros Hl; [f_equal; lia|]. rewrite IH by lia. rewrite (si_period _ _ _ _ Hinv) by lia. f_equal. lia.
Qed.
(** Position [b] of the copies is position [b mod p] of the word. *)
Lemma si_mod i j t p b : suffix_inv i j t p → i + b < j + t → x (i + b) = x (i + b mod p).
Proof.
  intros Hinv Hb. destruct (si_p _ _ _ _ Hinv) as [Hp _]. pose proof (Nat.div_mod b p ltac:(lia)) as Hd. rewrite (si_mult i j t p (b / p) (i + b mod p) Hinv) by lia. f_equal. lia.
Qed.

Lemma si_start : 1 ≤ L → suffix_inv 0 1 0 1.
Proof. intros HL. split; [lia|lia|exists 1; lia|lia|lia|lia]. Qed.

Lemma si_equal i j t p : suffix_inv i j t p → j + t < L → x (i + t) = x (j + t) →
  if decide (t + 1 = p) then suffix_inv i (j + p) 0 p else suffix_inv i j (t + 1) p.
Proof.
  intros Hinv HL Heq. destruct (si_range _ _ _ _ Hinv) as (H1 & H2 & H3), (si_p _ _ _ _ Hinv) as [Hp Ht]. destruct (si_copies _ _ _ _ Hinv) as (e & He & Hj).
  assert (∀ a, i ≤ a → a + p < j + t + 1 → x a = x (a + p)) as Hper.
  { intros a Ha Hl. destruct (decide (a + p < j + t)) as [|Hge]; [by apply (si_period _ _ _ _ Hinv)|]. replace (a + p) with (j + t) by lia. rewrite <-Heq.
    destruct e as [|e]; [lia|]. symmetry. rewrite (si_mult i j t p e (i + t) Hinv); [f_equal; lia|lia|lia]. }
  destruct (decide (t + 1 = p)).
  - split; [lia|lia|exists (e + 1); lia| |apply Hinv|apply Hinv]. intros a Ha Hl. apply Hper; [done|lia].
  - split; [lia|lia|by exists e| |apply Hinv|apply Hinv]. intros a Ha Hl. apply Hper; [done|lia].
Qed.
Lemma si_greater i j t p : suffix_inv i j t p → j + t < L → lt (x (j + t)) (x (i + t)) → suffix_inv i (j + t + 1) 0 (j + t + 1 - i).
Proof.
  intros Hinv HL Hlt. destruct (si_range _ _ _ _ Hinv) as (H1 & H2 & H3), (si_p _ _ _ _ Hinv) as [Hp Ht]. destruct (si_copies _ _ _ _ Hinv) as (e & He & Hj).
  split; [lia|lia|exists 1; lia|lia| |apply Hinv]. intros b Hb. set (r := b mod p). set (q := b / p). assert (b = p * q + r) as Hd by (apply Nat.div_mod; lia). assert (r < p) as Hr by (apply Nat.mod_upper_bound; lia).
  assert (∀ d, i + b + d < j + t → r + d < p → x (i + b + d) = x (i + (r + d))) as Hcopy.
  { intros d Hl Hrd. symmetry. rewrite (si_mult i j t p q (i + (r + d)) Hinv); [f_equal; lia|lia|lia]. }
  destruct (decide (r = 0)) as [Hr0|Hr0].
  - exists (j + t - (i + b)). split; [lia|]. split.
    + intros d Hdd. replace (i + b + d) with (i + d + q * p) by lia. symmetry. apply (si_mult i j t p q (i + d) Hinv); lia.
    + replace (i + b + (j + t - (i + b))) with (j + t) by lia. assert (q ≤ e) as Hqe by nia. replace (i + (j + t - (i + b))) with (i + t + (e - q) * p) by nia.
      rewrite <-(si_mult i j t p (e - q) (i + t) Hinv); [done|lia|nia].
  - destruct (si_word _ _ _ _ Hinv r) as (c & Hrc & Hbef & Hc); [lia|]. assert (q ≤ e) as Hqe by nia.
    assert (i + b + c < j + t ∨ q = e ∧ t ≤ r + c ∧ r ≤ t) as [Hin|(-> & Htc & Hrt)] by (destruct (decide (q = e)); [|left; nia]; destruct (decide (r + c < t)); [left; nia|right; nia]).
    + exists c. split; [lia|]. split.
      * intros d Hdd. rewrite Hcopy by lia. replace (i + (r + d)) with (i + r + d) by lia. by apply Hbef.
      * rewrite Hcopy by lia. by replace (i + (r + c)) with (i + r + c) by lia.
    + exists (t - r). split; [nia|]. split.
      * intros d Hdd. rewrite Hcopy by nia. replace (i + (r + d)) with (i + r + d) by lia. apply Hbef. lia.
      * replace (i + b + (t - r)) with (j + t) by nia. destruct (decide (t = r + c)) as [->|].
        -- replace (r + c - r) with c by lia. eapply bo_trans; [exact Hlt|]. by replace (i + (r + c)) with (i + r + c) by lia.
        -- rewrite <-(Hbef (t - r)) by lia. by replace (i + r + (t - r)) with (i + t) by lia.
Qed.
Lemma si_less i j t p : suffix_inv i j t p → j + t < L → lt (x (i + t)) (x (j + t)) → suffix_inv j (j + 1) 0 1.
Proof.
  intros Hinv HL Hlt. destruct (si_range _ _ _ _ Hinv) as (H1 & H2 & H3), (si_p _ _ _ _ Hinv) as [Hp Ht]. destruct (si_copies _ _ _ _ Hinv) as (e & He & Hj).
  split; [lia|lia|exists 1; lia|lia|lia|].
  assert (∀ d, d < t → x (j + d) = x (i + d)) as Hpre.
  { intros d Hd. symmetry. rewrite (si_mult i j t p e (i + d) Hinv); [f_equal; lia|lia|lia]. }
  (* a suffix that is below the suffix at [i], or agrees with it for [t] letters, is below the one at [j] *)
  assert (∀ a c, less_at lt a i c → ∃ c', j + c' < L ∧ less_at lt a j c') as Hbelow.
  { intros a c [Hbef Hc]. destruct (decide (c < t)) as [Hct|Hct].
    - exists c. split; [lia|]. split; [intros d Hd; rewrite Hpre by lia; by apply Hbef|by rewrite Hpre].
    - exists t. split; [lia|]. split; [intros d Hd; rewrite Hpre by lia; apply Hbef; lia|]. destruct (decide (t = c)) as [<-|]; [by eapply bo_trans|]. by rewrite Hbef by lia. }
  intros a Ha. destruct (decide (a < i)) as [Hai|Hai]; [destruct (si_before _ _ _ _ Hinv a Hai) as (c & _ & Hc); by eapply Hbelow|].
  set (b := a - i). set (r := b mod p). set (q := b / p). assert (b = p * q + r) as Hd by (apply Nat.div_mod; lia). assert (r < p) as Hr by (apply Nat.mod_upper_bound; lia). assert (q < e) as Hq by nia.
  destruct (decide (r = 0)) as [Hr0|Hr0].
  - exists t. split; [lia|]. assert (∀ d, d ≤ t → x (a + d) = x (i + d)) as Hcopy.
    { intros d Hdd. symmetry. rewrite (si_mult i j t p q (i + d) Hinv); [f_equal; lia|lia|nia]. }
    split; [intros d Hdd; rewrite Hpre, Hcopy by lia; done|]. by rewrite Hcopy by lia.
  - destruct (si_word _ _ _ _ Hinv r) as (c & Hrc & Hbef & Hc); [lia|]. apply (Hbelow a c). assert (∀ d, d ≤ c → x (a + d) = x (i + r + d)) as Hcopy.
    { intros d Hdd. symmetry. rewrite (si_mult i j t p q (i + r + d) Hinv); [f_equal; lia|lia|nia]. }
    split; [intros d Hdd; rewrite Hcopy by lia; by apply Hbef|]. by rewrite Hcopy by lia.
Qed.
(** At the end of the word. *)
Lemma si_final i j t p : suffix_inv i j t p → j + t = L → maximal lt i ∧ smallest_period i p.
Proof.
  intros Hinv HL. destruct (si_range _ _ _ _ Hinv) as (H1 & H2 & H3), (si_p _ _ _ _ Hinv) as [Hp Ht]. destruct (si_copies _ _ _ _ Hinv) as (e & He & Hj).
  assert (suffix_period i p) as Hper by (split; [done|]; intros a Ha Hl; apply (si_period _ _ _ _ Hinv); lia). split.
  - split; [done|]. intros a Ha Hne. destruct (decide (a < i)) as [Hai|Hai].
    { destruct (si_before _ _ _ _ Hinv a Hai) as (c & Hc & Hbef & Hlt). exists c. split; [done|]. split; [done|]. right. split; [lia|done]. }
    set (b := a - i). set (r := b mod p). set (q := b / p). assert (b = p * q + r) as Hd by (apply Nat.div_mod; lia). assert (r < p) as Hr by (apply Nat.mod_upper_bound; lia).
    assert (∀ d, a + d < L → x (a + d) = x (i + (r + d))) as Hcopy.
    { intros d Hl. symmetry. rewrite (suffix_period_mult i p q (i + (r + d))); [f_equal; lia|done|lia|nia]. }
    destruct (decide (r = 0)) as [Hr0|Hr0].
    + exists (L - a). split; [intros d Hdd; rewrite Hcopy by lia; f_equal; lia|]. split; [lia|]. left. lia.
    + destruct (si_word _ _ _ _ Hinv r) as (c & Hrc & Hbef & Hc); [lia|]. destruct (decide (a + c < L)) as [Hin|Hout].
      * exists c. split_and!; [|lia|right; split; [done|]].
        -- intros d Hdd. rewrite Hcopy by lia. replace (i + (r + d)) with (i + r + d) by lia. by apply Hbef.
        -- rewrite Hcopy by lia. by replace (i + (r + c)) with (i + r + c) by lia.
      * exists (L - a). split_and!; [|lia|left; lia]. intros d Hdd. rewrite Hcopy by lia. replace (i + (r + d)) with (i + r + d) by lia. apply Hbef. lia.
  - split; [done|]. split; [nia|]. intros q Hq [_ Hqp]. destruct (si_word _ _ _ _ Hinv q Hq) as (c & Hqc & _ & Hc). rewrite (Hqp (i + c)) in Hc; [|lia|nia].
    replace (i + c + q) with (i + q + c) in Hc by lia. by apply bo_irrefl in Hc.
Qed.
End maximal_suffix.
End words.
