(* ===== verification/CStrstr.v ===== *)
(** [strstr] finds the first occurrence: the searches for needles of two, three and four
    bytes with a rolling word, and the two-way search for longer ones on the combinatorics
    of [CTwoWay.v]. *)

From stdpp Require Import prelude list.
From Stdlib Require Import ZArith Lia.
From S2P Require Import Prelude CString CStringProps CTwoWay.
Local Open Scope Z_scope.

Section strstr.
Context (m : memory) (h n : Z) (lh ln : list Z).
Context (Hh : string_at m h lh) (Hn : string_at m n ln).
(** No object is larger than a quarter of the addresses. *)
Context (Hsize : zlen lh < 2 ^ 62) (Hsize' : zlen ln < 2 ^ 62).
Implicit Types (a b c i j k s : nat).

Let L : nat := length ln.
Let H : nat := length lh.
(** The needle and the haystack as words. *)
Let x (i : nat) : Z := m (n + Z.of_nat i).
Let T (i : nat) : Z := m (h + Z.of_nat i).
Definition occurs (a : nat) : Prop := (a + L ≤ H)%nat ∧ ∀ i, (i < L)%nat → T (a + i) = x i.

Lemma x_lookup i : (i < L)%nat → ln !! i = Some (x i).
Proof.
  intros Hi. unfold x. rewrite (string_at_lookup m n ln) by (done || lia). destruct (lookup_lt_is_Some_2 ln i Hi) as [b Hb]. by rewrite Hb.
Qed.
Lemma x_byte i : (i < L)%nat → 0 < x i < 256.
Proof. intros Hi. eapply (string_at_nonzero m n ln); [done|]. eapply list_elem_of_lookup_2, (x_lookup i Hi). Qed.
Lemma x_end : x L = 0.
Proof. unfold x, L. by apply string_at_end. Qed.
Lemma T_byte i : (i < H)%nat → 0 < T i < 256.
Proof.
  intros Hi. destruct (lookup_lt_is_Some_2 lh i Hi) as [b Hb]. assert (T i = b) as -> by (unfold T; rewrite (string_at_lookup m h lh) by (done || unfold H in Hi; lia); by rewrite Hb).
  eapply (string_at_nonzero m h lh); [done|]. by eapply list_elem_of_lookup_2.
Qed.
Lemma T_end : T H = 0.
Proof. unfold T, H. by apply string_at_end. Qed.
Lemma T_at a i : m (h + Z.of_nat a + Z.of_nat i) = T (a + i).
Proof. unfold T. f_equal. lia. Qed.
Lemma h_add a b : h + Z.of_nat a + Z.of_nat b = h + Z.of_nat (a + b).
Proof. lia. Qed.
Lemma T_range i : (i ≤ H)%nat → 0 ≤ T i < 256.
Proof. intros Hi. destruct (decide (i = H)) as [->|]; [rewrite T_end; lia|]. pose proof (T_byte i ltac:(lia)). lia. Qed.
Lemma haystack_suffix a : (a ≤ H)%nat → string_at m (h + Z.of_nat a) (drop a lh).
Proof. intros Ha. pose proof (string_at_app m h (take a lh) (drop a lh)) as Hs. rewrite take_drop, length_take, Nat.min_l in Hs by done. by apply Hs. Qed.

(** The outcome of a search that has excluded the positions before [a]. *)
Definition finds (a : nat) (r : option (option Z)) : Prop :=
  (∃ b, (a ≤ b)%nat ∧ r = Some (Some (h + Z.of_nat b)) ∧ occurs b ∧ ∀ c, (a ≤ c < b)%nat → ¬ occurs c) ∨ (r = Some None ∧ ∀ c, (a ≤ c)%nat → ¬ occurs c).
Lemma finds_skip a b r : (a ≤ b)%nat → (∀ c, (a ≤ c < b)%nat → ¬ occurs c) → finds b r → finds a r.
Proof.
  intros Hab Hno [(b' & Hb & Hr & Ho & Hb')|[Hr Ha]].
  - left. exists b'. split_and!; [lia|done|done|]. intros c Hc. destruct (decide (c < b)%nat); [apply Hno; lia|apply Hb'; lia].
  - right. split; [done|]. intros c Hc. destruct (decide (c < b)%nat); [apply Hno; lia|apply Ha; lia].
Qed.

(** ** Short needles *)

Lemma roll_spec next nw (word : nat → Z) k a fuel : (0 < k)%nat → (∀ b, (b + k ≤ H)%nat → next (word b) (T (b + k)) = word (S b)) →
  (a + k ≤ S H)%nat → (H - a < fuel)%nat →
  ∃ b, (a ≤ b)%nat ∧ (b + k ≤ S H)%nat ∧ roll next nw fuel m (h + Z.of_nat (a + k - 1)) (word a) = Some (h + Z.of_nat (b + k - 1)) ∧
    ((b + k)%nat = S H ∨ word b = nw) ∧ ∀ c, (a ≤ c < b)%nat → word c ≠ nw.
Proof.
  intros Hk Hnext. revert a. induction fuel as [|fuel IH]; intros a Ha Hf; [lia|]. cbn [roll]. fold (T (a + k - 1)).
  destruct (decide (a + k = S H)%nat) as [He|Hne].
  { replace (a + k - 1)%nat with H by lia. rewrite T_end. exists a. cbn. split_and!; [lia|lia|do 3 f_equal; lia|by left|lia]. }
  pose proof (T_byte (a + k - 1) ltac:(lia)). rewrite (proj2 (Z.eqb_neq _ 0)) by lia. cbn [negb andb]. destruct (Z.eqb_spec (word a) nw) as [Hw|Hw]; cbn [negb].
  { exists a. split_and!; [lia|lia|done|by right|lia]. }
  replace (h + Z.of_nat (a + k - 1) + 1) with (h + Z.of_nat (S a + k - 1)) by lia. assert (m (h + Z.of_nat (S a + k - 1)) = T (a + k)) as -> by (unfold T; do 2 f_equal; lia).
  rewrite Hnext by lia. destruct (IH (S a)) as (b & Hb & Hbk & -> & Hor & Hno); [lia|lia|]. exists b. split_and!; [lia|lia|done|done|].
  intros c Hc. destruct (decide (c = a)) as [->|]; [done|apply Hno; lia].
Qed.
Lemma short_search next nw (word : nat → Z) k a fuel : (0 < k)%nat → L = k → (∀ b, (b + k ≤ H)%nat → next (word b) (T (b + k)) = word (S b)) →
  (∀ b, (b + k ≤ H)%nat → word b = nw ↔ ∀ i, (i < k)%nat → T (b + i) = x i) → (a + k ≤ S H)%nat → (H - a < fuel)%nat →
  finds a (e ← roll next nw fuel m (h + Z.of_nat (a + k - 1)) (word a); Some (found_at m e (Z.of_nat (k - 1)))).
Proof.
  intros Hk HL Hnext Hword Ha Hf. destruct (roll_spec next nw word k a fuel Hk Hnext Ha Hf) as (b & Hab & Hbk & -> & Hor & Hno). cbn [mbind option_bind]. unfold found_at. fold (T (b + k - 1)).
  assert (∀ c, (a ≤ c < b)%nat → ¬ occurs c) as Hbefore.
  { intros c Hc [Hl Hocc]. apply (Hno c Hc), Hword; [lia|]. intros i Hi. apply Hocc. lia. }
  destruct (decide (b + k = S H)%nat) as [He|Hne].
  - replace (b + k - 1)%nat with H by lia. rewrite T_end. right. split; [done|]. intros c Hc. destruct (decide (c < b)%nat); [apply Hbefore; lia|]. intros [Hl _]. lia.
  - pose proof (T_byte (b + k - 1) ltac:(lia)). rewrite (proj2 (Z.eqb_neq _ 0)) by lia. destruct Hor as [?|Hw]; [lia|]. left. exists b.
    split_and!; [done|do 2 f_equal; lia| |done]. split; [lia|]. rewrite HL. apply Hword; [lia|done].
Qed.

Lemma lor_shift (v b k : Z) : 0 ≤ v → 0 ≤ k → 0 ≤ b < 2 ^ k → Z.lor (Z.shiftl v k) b = v * 2 ^ k + b.
Proof.
  intros Hv Hk Hb. rewrite <-Z.shiftl_mul_pow2, <-Z.add_lor_land by done. assert (Z.land (Z.shiftl v k) b = 0) as ->; [|lia].
  apply Z.bits_inj'. intros i Hi. rewrite Z.land_spec, Z.bits_0. destruct (decide (i < k)); [by rewrite Z.shiftl_spec_low|].
  rewrite <-(Z.mod_small b (2 ^ k)), Z.mod_pow2_bits_high by lia. apply andb_false_r.
Qed.
Lemma shift_add (v k : Z) : 0 ≤ k → Z.shiftl v k = v * 2 ^ k.
Proof. intros Hk. by apply Z.shiftl_mul_pow2. Qed.
(** A word of two bytes, and of three and four. *)
Definition word2 (a b : Z) : Z := a * 256 + b.
Definition word3 (a b c : Z) : Z := (word2 a b * 256 + c) * 256.
Definition word4 (a b c d : Z) : Z := (word2 a b * 256 + c) * 256 + d.
Lemma word2_eq (a b : Z) : 0 ≤ a < 256 → 0 ≤ b < 256 → Z.lor (Z.shiftl a 8) b = word2 a b.
Proof. intros Ha Hb. apply (lor_shift a b 8); lia. Qed.
Lemma word3_eq (a b c : Z) : 0 ≤ a < 256 → 0 ≤ b < 256 → 0 ≤ c < 256 → Z.lor (Z.lor (Z.shiftl a 24) (Z.shiftl b 16)) (Z.shiftl c 8) = word3 a b c.
Proof.
  intros Ha Hb Hc. replace (Z.shiftl a 24) with (Z.shiftl (Z.shiftl a 8) 16) by (by rewrite Z.shiftl_shiftl). rewrite <-Z.shiftl_lor.
  replace 16 with (8 + 8) by done. rewrite <-Z.shiftl_shiftl by done. rewrite <-Z.shiftl_lor, shift_add, (word2_eq a b) by (done || lia). unfold word3, word2. rewrite (lor_shift _ c 8) by lia. lia.
Qed.
Lemma word4_eq (a b c d : Z) : 0 ≤ a < 256 → 0 ≤ b < 256 → 0 ≤ c < 256 → 0 ≤ d < 256 →
  Z.lor (Z.lor (Z.lor (Z.shiftl a 24) (Z.shiftl b 16)) (Z.shiftl c 8)) d = word4 a b c d.
Proof.
  intros Ha Hb Hc Hd. rewrite word3_eq by done. unfold word3, word4. replace ((word2 a b * 256 + c) * 256) with (Z.shiftl (word2 a b * 256 + c) 8) at 1 by (by rewrite shift_add).
  unfold word2. rewrite (lor_shift _ d 8) by lia. lia.
Qed.
Lemma drop_high (a r k : Z) : 0 < k → 0 ≤ r < k → (a * k + r) mod k = r.
Proof. intros Hk Hr. rewrite Z.add_comm, Z.mod_add by lia. by apply Z.mod_small. Qed.

Ltac needle_bytes k := let H := fresh "Hx" in
  match k with O => idtac | S ?k' => pose proof (x_byte k' ltac:(lia)) as H; needle_bytes k' end.
Lemma needle_at i : m (n + Z.of_nat i) = x i.
Proof. done. Qed.

Lemma twobyte_finds fuel : L = 2%nat → (2 ≤ H)%nat → (H < fuel)%nat → finds 0 (twobyte_strstr fuel m h n).
Proof.
  intros HL HH Hf. unfold twobyte_strstr. needle_bytes 2%nat. set (word b := word2 (T b) (T (b + 1))).
  assert (Z.lor (Z.shiftl (m n) 8) (m (n + 1)) = word2 (x 0) (x 1)) as ->.
  { change (m (n + 1)) with (x 1). replace (m n) with (x 0) by (unfold x; f_equal; lia). apply word2_eq; lia. }
  assert (Z.lor (Z.shiftl (m h) 8) (m (h + 1)) = word 0%nat) as ->.
  { change (m (h + 1)) with (T 1). replace (m h) with (T 0) by (unfold T; f_equal; lia). apply word2_eq; apply T_range; lia. }
  apply (short_search _ _ word 2 0); [lia|done| | |lia|lia].
  - intros b Hb. pose proof (T_range b ltac:(lia)). pose proof (T_range (b + 1) ltac:(lia)). pose proof (T_range (b + 2) ltac:(lia)). unfold word. rewrite (lor_shift _ _ 8) by (unfold word2; lia).
    replace (S b + 1)%nat with (b + 2)%nat by lia. replace (S b) with (b + 1)%nat by lia. unfold word2. change (2 ^ 16) with 65536. change (2 ^ 8) with 256.
    replace ((T b * 256 + T (b + 1)) * 256 + T (b + 2)) with (T b * 65536 + (T (b + 1) * 256 + T (b + 2))) by lia. apply drop_high; lia.
  - intros b Hb. pose proof (T_range b ltac:(lia)). pose proof (T_range (b + 1) ltac:(lia)). unfold word, word2. split.
    + intros He [|[|i]] Hi; [rewrite Nat.add_0_r; lia|lia|lia].
    + intros He. pose proof (He 0%nat ltac:(lia)) as Hz. pose proof (He 1%nat ltac:(lia)). rewrite Nat.add_0_r in Hz. lia.
Qed.
Lemma threebyte_finds fuel : L = 3%nat → (3 ≤ H)%nat → (H < fuel)%nat → finds 0 (threebyte_strstr fuel m h n).
Proof.
  intros HL HH Hf. unfold threebyte_strstr. needle_bytes 3%nat. set (word b := word3 (T b) (T (b + 1)) (T (b + 2))).
  assert (Z.lor (Z.lor (Z.shiftl (m n) 24) (Z.shiftl (m (n + 1)) 16)) (Z.shiftl (m (n + 2)) 8) = word3 (x 0) (x 1) (x 2)) as ->.
  { change (m (n + 1)) with (x 1). change (m (n + 2)) with (x 2). replace (m n) with (x 0) by (unfold x; f_equal; lia). apply word3_eq; lia. }
  assert (Z.lor (Z.lor (Z.shiftl (m h) 24) (Z.shiftl (m (h + 1)) 16)) (Z.shiftl (m (h + 2)) 8) = word 0%nat) as ->.
  { change (m (h + 1)) with (T 1). change (m (h + 2)) with (T 2). replace (m h) with (T 0) by (unfold T; f_equal; lia). apply word3_eq; apply T_range; lia. }
  apply (short_search _ _ word 3 0); [lia|done| | |lia|lia].
  - intros b Hb. pose proof (T_range b ltac:(lia)). pose proof (T_range (b + 1) ltac:(lia)). pose proof (T_range (b + 2) ltac:(lia)). pose proof (T_range (b + 3) ltac:(lia)).
    unfold word. replace (S b + 1)%nat with (b + 2)%nat by lia. replace (S b + 2)%nat with (b + 3)%nat by lia. replace (S b) with (b + 1)%nat by lia. unfold word3, word2.
    change 256 with (2 ^ 8) at 3. rewrite <-shift_add, (lor_shift _ _ 8), shift_add by lia. change (2 ^ 32) with 4294967296. change (2 ^ 8) with 256.
    replace ((((T b * 256 + T (b + 1)) * 256 + T (b + 2)) * 256 + T (b + 3)) * 256) with (T b * 4294967296 + ((T (b + 1) * 256 + T (b + 2)) * 256 + T (b + 3)) * 256) by lia. apply drop_high; lia.
  - intros b Hb. pose proof (T_range b ltac:(lia)). pose proof (T_range (b + 1) ltac:(lia)). pose proof (T_range (b + 2) ltac:(lia)). unfold word, word3, word2. split.
    + intros He [|[|[|i]]] Hi; [rewrite Nat.add_0_r; lia|lia|lia|lia].
    + intros He. pose proof (He 0%nat ltac:(lia)) as Hz. pose proof (He 1%nat ltac:(lia)). pose proof (He 2%nat ltac:(lia)). rewrite Nat.add_0_r in Hz. lia.
Qed.
Lemma fourbyte_finds fuel : L = 4%nat → (4 ≤ H)%nat → (H < fuel)%nat → finds 0 (fourbyte_strstr fuel m h n).
Proof.
  intros HL HH Hf. unfold fourbyte_strstr. needle_bytes 4%nat. set (word b := word4 (T b) (T (b + 1)) (T (b + 2)) (T (b + 3))).
  assert (Z.lor (Z.lor (Z.lor (Z.shiftl (m n) 24) (Z.shiftl (m (n + 1)) 16)) (Z.shiftl (m (n + 2)) 8)) (m (n + 3)) = word4 (x 0) (x 1) (x 2) (x 3)) as ->.
  { change (m (n + 1)) with (x 1). change (m (n + 2)) with (x 2). change (m (n + 3)) with (x 3). replace (m n) with (x 0) by (unfold x; f_equal; lia). apply word4_eq; lia. }
  assert (Z.lor (Z.lor (Z.lor (Z.shiftl (m h) 24) (Z.shiftl (m (h + 1)) 16)) (Z.shiftl (m (h + 2)) 8)) (m (h + 3)) = word 0%nat) as ->.
  { change (m (h + 1)) with (T 1). change (m (h + 2)) with (T 2). change (m (h + 3)) with (T 3). replace (m h) with (T 0) by (unfold T; f_equal; lia). apply word4_eq; apply T_range; lia. }
  apply (short_search _ _ word 4 0); [lia|done| | |lia|lia].
  - intros b Hb. pose proof (T_range b ltac:(lia)). pose proof (T_range (b + 1) ltac:(lia)). pose proof (T_range (b + 2) ltac:(lia)). pose proof (T_range (b + 3) ltac:(lia)). pose proof (T_range (b + 4) ltac:(lia)).
    unfold word. replace (S b + 1)%nat with (b + 2)%nat by lia. replace (S b + 2)%nat with (b + 3)%nat by lia. replace (S b + 3)%nat with (b + 4)%nat by lia. replace (S b) with (b + 1)%nat by lia. unfold word4, word2.
    rewrite (lor_shift _ _ 8) by lia. change (2 ^ 32) with 4294967296. change (2 ^ 8) with 256.
    replace ((((T b * 256 + T (b + 1)) * 256 + T (b + 2)) * 256 + T (b + 3)) * 256 + T (b + 4)) with (T b * 4294967296 + (((T (b + 1) * 256 + T (b + 2)) * 256 + T (b + 3)) * 256 + T (b + 4))) by lia. apply drop_high; lia.
  - intros b Hb. pose proof (T_range b ltac:(lia)). pose proof (T_range (b + 1) ltac:(lia)). pose proof (T_range (b + 2) ltac:(lia)). pose proof (T_range (b + 3) ltac:(lia)). unfold word, word4, word2. split.
    + intros He [|[|[|[|i]]]] Hi; [rewrite Nat.add_0_r; lia|lia|lia|lia|lia].
    + intros He. pose proof (He 0%nat ltac:(lia)) as Hz. pose proof (He 1%nat ltac:(lia)). pose proof (He 2%nat ltac:(lia)). pose proof (He 3%nat ltac:(lia)). rewrite Nat.add_0_r in Hz. lia.
Qed.

(** ** The two-way search *)

Lemma uadd_wrap (a b : Z) : uadd (wrap a) b = wrap (a + b).
Proof. unfold uadd, wrap. by rewrite Zplus_mod_idemp_l. Qed.
Lemma wrap_id (a : Z) : 0 ≤ a < 2 ^ 64 → wrap a = a.
Proof. intros Ha. by apply Z.mod_small. Qed.

(** The last index of a byte of the needle. *)
Definition last_index (b : Z) (i : nat) : Prop := (i < L)%nat ∧ x i = b ∧ ∀ j, (i < j < L)%nat → x j ≠ b.
(** What the first loop prepares, for the first [k] bytes. *)
Definition table_ok (k : nat) (set : list Z) (shift : Z → Z) : Prop :=
  length set = 4%nat ∧ (∀ b : Z, 0 ≤ b < 256 → get_bit b set = true ↔ ∃ i, (i < k)%nat ∧ x i = b) ∧
  ∀ (b : Z) i, (i < k)%nat → x i = b → ∃ j, (i ≤ j < k)%nat ∧ x j = b ∧ shift b = Z.of_nat j + 1 ∧ ∀ j', (j < j' < k)%nat → x j' ≠ b.
Lemma needle_loop_spec fuel k set shift : table_ok k set shift → (k ≤ L)%nat → (k ≤ H)%nat → (L - k < fuel)%nat →
  if decide (L ≤ H)%nat then ∃ set' shift', needle_loop fuel m h n (Z.of_nat k) set shift = Some (inr (Z.of_nat L, set', shift')) ∧ table_ok L set' shift'
  else needle_loop fuel m h n (Z.of_nat k) set shift = Some (inl tt).
Proof.
  revert k set shift. induction fuel as [|fuel IH]; intros k set shift Hok HkL HkH Hf; [lia|]. cbn [needle_loop]. rewrite needle_at. fold (T k).
  destruct (decide (k = L)) as [->|HkL'].
  { rewrite x_end. cbn [Z.eqb negb andb]. rewrite decide_True by lia. eauto. }
  pose proof (x_byte k ltac:(lia)) as Hb. rewrite (proj2 (Z.eqb_neq (x k) 0)) by lia. cbn [negb andb].
  destruct (decide (k = H)) as [->|HkH'].
  { rewrite T_end. cbn [Z.eqb negb andb]. by rewrite decide_False by lia. }
  pose proof (T_byte k ltac:(lia)). rewrite (proj2 (Z.eqb_neq (T k) 0)) by lia. cbn [negb].
  rewrite uadd_small by (unfold L in *; lia). replace (Z.of_nat k + 1) with (Z.of_nat (S k)) by lia. apply IH; [|lia|lia|lia]. destruct Hok as (Hlen & Hset & Hsh). split_and!.
  - unfold set_bit. by rewrite length_alter.
  - intros b Hbb. rewrite get_set_bit by (done || lia). rewrite orb_true_iff, Z.eqb_eq, Hset by done. split.
    + intros [->|(i & Hi & Hx)]; [exists k; split; [lia|done]|exists i; split; [lia|done]].
    + intros (i & Hi & Hx). destruct (decide (i = k)) as [->|]; [by left|right]. exists i. split; [lia|done].
  - intros b i Hi Hx. destruct (Z.eqb_spec b (x k)) as [->|Hne].
    + exists k. split_and!; [lia|lia|done|lia|]. intros j' Hj. lia.
    + destruct (Hsh b i) as (j & Hj & Hxj & Hs & Hlast); [|done|]. { destruct (decide (i = k)) as [->|]; [congruence|lia]. }
      exists j. split_and!; [lia|lia|done|done|]. intros j' Hj'. destruct (decide (j' = k)) as [->|]; [congruence|apply Hlast; lia].
Qed.
Lemma table_start : table_ok 0 empty_set (λ _, 0).
Proof. split_and!; [done| |intros; lia]. intros b _. rewrite empty_set_bits. split; [done|]. intros (i & Hi & _). lia. Qed.

Lemma maximal_suffix_spec (gt : Z → Z → bool) lt `{!ByteOrder lt} fuel i j t p :
  (∀ a b : Z, gt a b = true ↔ lt b a) → suffix_inv x L lt i j t p → (2 * L - (i + j + t) < fuel)%nat →
  ∃ i' p', maximal_suffix gt fuel m n (Z.of_nat L) (wrap (Z.of_nat i - 1)) (Z.of_nat j - 1) (Z.of_nat t + 1) (Z.of_nat p) = Some (wrap (Z.of_nat i' - 1), Z.of_nat p') ∧
    maximal x L lt i' ∧ smallest_period x L i' p'.
Proof.
  intros Hgt. revert i j t p. induction fuel as [|fuel IH]; intros i j t p Hinv Hf; [lia|]. destruct (si_range _ _ _ _ _ _ _ Hinv) as (H1 & H2 & H3), (si_p _ _ _ _ _ _ _ Hinv) as [Hp Ht].
  destruct (si_copies _ _ _ _ _ _ _ Hinv) as (e & He & Hj). assert (i + p ≤ j)%nat as Hpj by nia. cbn [maximal_suffix]. fold L in Hsize'.
  assert (uadd (Z.of_nat j - 1) (Z.of_nat t + 1) = Z.of_nat (j + t)) as Hjt by (rewrite uadd_small by lia; lia).
  assert (uadd (wrap (Z.of_nat i - 1)) (Z.of_nat t + 1) = Z.of_nat (i + t)) as Hit by (rewrite uadd_wrap, wrap_id by lia; lia).
  rewrite Hjt, Hit, !needle_at. destruct (Z.ltb_spec (Z.of_nat (j + t)) (Z.of_nat L)) as [Hlt|Hge].
  2: { destruct (si_final _ _ _ _ _ _ _ Hinv) as [Hm Hs]; [lia|]. by exists i, p. }
  destruct (Z.eqb_spec (x (i + t)) (x (j + t))) as [Heq|Hne].
  - pose proof (si_equal _ _ _ _ _ _ _ Hinv ltac:(lia) Heq) as Hstep. destruct (decide (t + 1 = p)%nat) as [Htp|Htp].
    + rewrite (proj2 (Z.eqb_eq _ _)) by lia. rewrite uadd_small by lia. replace (Z.of_nat j - 1 + Z.of_nat p) with (Z.of_nat (j + p) - 1) by lia. apply (IH i (j + p)%nat 0%nat p); [done|lia].
    + rewrite (proj2 (Z.eqb_neq _ _)) by lia. rewrite uadd_small by lia. replace (Z.of_nat t + 1 + 1) with (Z.of_nat (t + 1) + 1) by lia. apply (IH i j (t + 1)%nat p); [done|lia].
  - destruct (gt (x (i + t)) (x (j + t))) eqn:Hg.
    + apply Hgt in Hg. pose proof (si_greater _ _ _ _ _ _ _ Hinv ltac:(lia) Hg) as Hstep. replace (Z.of_nat (j + t)) with (Z.of_nat (j + t + 1) - 1) by lia.
      assert (usub (Z.of_nat (j + t + 1) - 1) (wrap (Z.of_nat i - 1)) = Z.of_nat (j + t + 1 - i)) as ->.
      { unfold usub, wrap. rewrite Zminus_mod_idemp_r, Z.mod_small by lia. lia. }
      apply (IH i (j + t + 1)%nat 0%nat (j + t + 1 - i)%nat); [done|lia].
    + assert (lt (x (i + t)) (x (j + t))) as Hl.
      { destruct (bo_total (lt := lt) _ _ Hne) as [|Hl]; [done|]. apply Hgt in Hl. congruence. }
      pose proof (si_less _ _ _ _ _ _ _ Hinv ltac:(lia) Hl) as Hstep. rewrite uadd_small by lia. replace (Z.of_nat j - 1 + 1) with (Z.of_nat (j + 1) - 1) by lia.
      rewrite <-(wrap_id (Z.of_nat j - 1)) by lia. apply (IH j (j + 1)%nat 0%nat 1%nat); [done|lia].
Qed.

Lemma memchr_zero a g : (a ≤ H)%nat → 0 ≤ g → memchr m (h + Z.of_nat a) 0 g = if Z.of_nat (H - a) <? g then Some (h + Z.of_nat H) else None.
Proof.
  intros Ha Hg. unfold memchr. change (0 mod 256) with 0. rewrite <-(Z2Nat.id g) at 2 by done. generalize (Z.to_nat g) as k. clear g Hg. intros k. revert a Ha.
  induction k as [|k IH]; intros a Ha; cbn [memchr_loop]; [rewrite (proj2 (Z.ltb_ge _ _)) by lia; done|]. fold (T a). destruct (decide (a = H)) as [->|Hne].
  - rewrite T_end, Nat.sub_diag. cbn. done.
  - pose proof (T_byte a ltac:(lia)). rewrite (proj2 (Z.eqb_neq (T a) 0)) by lia. replace (h + Z.of_nat a + 1) with (h + Z.of_nat (S a)) by lia. rewrite IH by lia.
    destruct (Z.ltb_spec (Z.of_nat (H - S a)) (Z.of_nat k)), (Z.ltb_spec (Z.of_nat (H - a)) (Z.of_nat (S k))); lia || done.
Qed.
Lemma match_right_spec fuel a k : (k ≤ L)%nat → (a + L ≤ H)%nat → (L - k < fuel)%nat →
  ∃ k', (k ≤ k' ≤ L)%nat ∧ match_right fuel m n (h + Z.of_nat a) (Z.of_nat k) = Some (Z.of_nat k') ∧ (∀ i, (k ≤ i < k')%nat → x i = T (a + i)) ∧ ((k' < L)%nat → x k' ≠ T (a + k')).
Proof.
  intros Hk Ha. revert k Hk. induction fuel as [|fuel IH]; intros k Hk Hf; [lia|]. cbn [match_right]. rewrite needle_at, T_at. destruct (decide (k = L)) as [->|Hne].
  { rewrite x_end. cbn. exists L. split_and!; [lia|lia|done|lia|lia]. }
  pose proof (x_byte k ltac:(lia)). rewrite (proj2 (Z.eqb_neq (x k) 0)) by lia. cbn [negb andb]. destruct (Z.eqb_spec (x k) (T (a + k))) as [He|Hd].
  - rewrite uadd_small by (unfold L in *; lia). replace (Z.of_nat k + 1) with (Z.of_nat (S k)) by lia. destruct (IH (S k)) as (k' & Hk' & -> & Heq & Hmis); [lia|lia|].
    exists k'. split_and!; [lia|lia|done| |done]. intros i Hi. destruct (decide (i = k)) as [->|]; [done|apply Heq; lia].
  - exists k. split_and!; [lia|lia|done|lia|done].
Qed.
Lemma match_left_spec fuel a mem k : (k < fuel)%nat →
  ∃ k', (k' ≤ k)%nat ∧ match_left fuel m n (h + Z.of_nat a) (Z.of_nat mem) (Z.of_nat k) = Some (Z.of_nat k') ∧ (∀ i, (k' ≤ i < k)%nat → x i = T (a + i)) ∧
    ((mem < k')%nat → x (k' - 1) ≠ T (a + (k' - 1))).
Proof.
  revert k. induction fuel as [|fuel IH]; intros k Hf; [lia|]. cbn [match_left]. destruct (Z.ltb_spec (Z.of_nat mem) (Z.of_nat k)) as [Hl|Hl]; cbn [andb].
  2: { exists k. split_and!; [lia|done|lia|lia]. }
  replace (Z.of_nat k - 1) with (Z.of_nat (k - 1)) by lia. rewrite needle_at, T_at. destruct (Z.eqb_spec (x (k - 1)) (T (a + (k - 1)))) as [He|Hd].
  - destruct (IH (k - 1)%nat) as (k' & Hk' & -> & Heq & Hmis); [lia|]. exists k'. split_and!; [lia|done| |done]. intros i Hi. destruct (decide (i = k - 1)%nat) as [->|]; [done|apply Heq; lia].
  - exists k. split_and!; [lia|done|lia|done].
Qed.
(** After the pointer to the known part of the haystack has moved, the window is inside it. *)
Definition known (z hh : Z) : option Z :=
  if usub z hh <? Z.of_nat L then
    match memchr m z 0 (Z.lor (Z.of_nat L) 63) with
    | Some z2 => if usub z2 hh <? Z.of_nat L then None else Some z2
    | None => Some (z + Z.lor (Z.of_nat L) 63)
    end
  else Some z.
Lemma lor_63 (l : Z) : 0 ≤ l → l ≤ Z.lor l 63.
Proof.
  intros Hl. apply Z.ldiff_le; [by apply Z.lor_nonneg|]. apply Z.bits_inj'. intros i Hi. rewrite Z.ldiff_spec, Z.lor_spec, Z.bits_0. by destruct (Z.testbit l i), (Z.testbit 63 i).
Qed.
Lemma known_spec a z : (a ≤ z ≤ H)%nat →
  match known (h + Z.of_nat z) (h + Z.of_nat a) with
  | None => (H < a + L)%nat
  | Some z' => ∃ k, z' = h + Z.of_nat k ∧ (a + L ≤ k ≤ H)%nat
  end.
Proof.
  intros Hz. pose proof (lor_63 (Z.of_nat L) ltac:(lia)) as Hg. fold H in Hsize. unfold known.
  assert (∀ b, (a ≤ b ≤ H)%nat → usub (h + Z.of_nat b) (h + Z.of_nat a) = Z.of_nat (b - a)) as Hsub.
  { intros b Hb. unfold usub. rewrite wrap_id by lia. lia. }
  rewrite Hsub by lia. destruct (Z.ltb_spec (Z.of_nat (z - a)) (Z.of_nat L)); [|exists z; split; [done|lia]]. rewrite memchr_zero by lia.
  destruct (Z.ltb_spec (Z.of_nat (H - z)) (Z.lor (Z.of_nat L) 63)).
  - rewrite Hsub by lia. destruct (Z.ltb_spec (Z.of_nat (H - a)) (Z.of_nat L)); [lia|]. exists H. split; [done|lia].
  - exists (z + Z.to_nat (Z.lor (Z.of_nat L) 63))%nat. split; lia.
Qed.

(** The tables, a critical position [l], and a shift [q] that skips nothing when the part from [l] on matches. *)
Record needle_ok (nd : needle) (l q mem0 : nat) : Prop := {
  no_n : nd_n nd = n;
  no_l : nd_l nd = Z.of_nat L;
  no_tables : table_ok L (nd_set nd) (nd_shift nd);
  no_ms : nd_ms nd = wrap (Z.of_nat l - 1);
  no_p : nd_p nd = Z.of_nat q;
  no_mem0 : nd_mem0 nd = Z.of_nat mem0;
  no_critical : critical_position x L l ∧ (l < L)%nat;
  no_shift : (0 < q ≤ L)%nat ∧ ∀ s, (0 < s < q)%nat → ¬ local_period x L l s;
  no_period : mem0 = 0%nat ∨ has_period x L q ∧ mem0 = (L - q)%nat;
}.
(** The first [mem] bytes are known to match: the part from [l] on matched one period earlier. *)
Definition mem_ok (l a mem : nat) : Prop :=
  mem = 0%nat ∨ ∃ q, has_period x L q ∧ mem = (L - q)%nat ∧ (q ≤ a)%nat ∧ ∀ i, (l ≤ i < L)%nat → T (a - q + i) = x i.

Section search.
Context (nd : needle) (l q mem0 : nat) (Hnd : needle_ok nd l q mem0).

Lemma mem_matches a mem i : mem_ok l a mem → (i < mem)%nat → T (a + i) = x i.
Proof.
  intros [->|(q' & Hp & -> & Hq & HT)] Hi; [lia|]. destruct (critical x L l q' (proj1 (no_critical _ _ _ _ Hnd)) (period_local x L l q' Hp)) as [Hl _]. destruct Hp as [_ Hp].
  rewrite (Hp i) by lia. rewrite <-(HT (i + q')%nat) by lia. f_equal. lia.
Qed.
(** An occurrence [s] further on repeats what has matched from [l] on. *)
Lemma occurrence_local a s k : (∀ i, (l ≤ i < k)%nat → x i = T (a + i)) → (0 < s)%nat → (l + s ≤ k ∨ k = L)%nat → (k ≤ L)%nat → occurs (a + s) → local_period x L l s.
Proof.
  intros Hm Hs Hk HkL [_ Hocc]. split; [done|]. intros i Hi HiL Hsi. rewrite Hm by lia. rewrite <-(Hocc (i - s)%nat) by lia. f_equal. lia.
Qed.
(** The byte under the end of the needle is not in it. *)
Lemma skip_foreign a : (a + L ≤ H)%nat → (0 < L)%nat → get_bit (T (a + (L - 1))) (nd_set nd) = false → ∀ c, (a ≤ c < a + L)%nat → ¬ occurs c.
Proof.
  intros Ha HL Hbit c Hc [_ Hocc]. pose proof (T_byte (a + (L - 1)) ltac:(lia)) as Hb. destruct (no_tables _ _ _ _ Hnd) as (_ & Hset & _).
  apply not_true_iff_false in Hbit. apply Hbit, Hset; [lia|]. exists (a + (L - 1) - c)%nat. split; [lia|]. rewrite <-Hocc by lia. f_equal. lia.
Qed.
(** The shift of the last byte, and of the part that is known to match. *)
Lemma skip_last a mem j : (a + L ≤ H)%nat → mem_ok l a mem → (j < L - 1)%nat → x j = T (a + (L - 1)) → (∀ i, (j < i < L)%nat → x i ≠ T (a + (L - 1))) →
  ∀ c, (a ≤ c < a + Nat.max (L - 1 - j) mem)%nat → ¬ occurs c.
Proof.
  intros Ha Hmem Hj Hxj Hlast c Hc Hocc. assert (∀ s, c = (a + s)%nat → (s < L)%nat → T (a + (L - 1)) = x (L - 1 - s)) as Hend.
  { intros s -> Hs. destruct Hocc as [_ Hocc]. rewrite <-(Hocc (L - 1 - s)%nat) by lia. f_equal. lia. }
  destruct (decide (c < a + (L - 1 - j))%nat) as [Hcl|Hcl].
  { apply (Hlast (L - 1 - (c - a))%nat); [lia|]. symmetry. apply Hend; lia. }
  destruct Hmem as [->|(q' & Hp & -> & Hqa & HT)]; [lia|]. set (s := (c - a)%nat). destruct (critical x L l (q' + s)%nat (proj1 (no_critical _ _ _ _ Hnd))) as [_ [_ Hps]].
  { apply (occurrence_local (a - q') (q' + s) L); [|lia|lia|lia|by replace (a - q' + (q' + s))%nat with c by lia]. intros i Hi. symmetry. by apply HT. }
  destruct Hp as [_ Hp]. apply (Hlast (L - 1)%nat); [lia|]. rewrite (Hend s) by lia. replace (L - 1 - s)%nat with (L - 1 - s - q' + q')%nat by lia. rewrite <-(Hp (L - 1 - s - q')%nat) by lia.
  rewrite (Hps (L - 1 - s - q')%nat) by lia. f_equal. lia.
Qed.
(** The shift after a mismatch from [l] on. *)
Lemma skip_mismatch a k : (l ≤ k < L)%nat → (∀ i, (l ≤ i < k)%nat → x i = T (a + i)) → x k ≠ T (a + k) → ∀ c, (a ≤ c < a + (k - l + 1))%nat → ¬ occurs c.
Proof.
  intros Hk Hm Hmis c Hc Hocc. destruct (decide (c = a)) as [->|Hca]; [destruct Hocc as [_ Hocc]; apply Hmis; symmetry; apply Hocc; lia|].
  set (s := (c - a)%nat). destruct (critical x L l s (proj1 (no_critical _ _ _ _ Hnd))) as [_ [_ Hps]].
  { apply (occurrence_local a s k); [done|lia|lia|lia|by replace (a + s)%nat with c by lia]. }
  apply Hmis. destruct Hocc as [_ Hocc]. replace k with (k - s + s)%nat at 1 by lia. rewrite <-(Hps (k - s)%nat) by lia. rewrite <-(Hocc (k - s)%nat) by lia. f_equal. lia.
Qed.
(** The shift after the part from [l] on has matched and another byte has not. *)
Lemma skip_period a : (∀ i, (l ≤ i < L)%nat → x i = T (a + i)) → ¬ occurs a → ∀ c, (a ≤ c < a + q)%nat → ¬ occurs c.
Proof.
  intros Hm Hno c Hc Hocc. destruct (decide (c = a)) as [->|Hca]; [done|]. destruct (no_shift _ _ _ _ Hnd) as [_ Hsh]. apply (Hsh (c - a)%nat); [lia|].
  apply (occurrence_local a (c - a) L); [done|lia|lia|lia|by replace (a + (c - a))%nat with c by lia].
Qed.

Lemma search_loop_step fuel a z mem : search_loop (S fuel) m nd (h + Z.of_nat a) z mem =
  match known z (h + Z.of_nat a) with
  | None => Some None
  | Some z =>
      let last := m (h + Z.of_nat a + (Z.of_nat L - 1)) in
      if get_bit last (nd_set nd) then
        let k := usub (Z.of_nat L) (nd_shift nd last) in
        if negb (k =? 0) then search_loop fuel m nd (h + Z.of_nat a + (if k <? mem then mem else k)) z 0
        else
          k ← match_right (S fuel) m n (h + Z.of_nat a) (Z.max (Z.of_nat l) mem);
          if negb (m (n + k) =? 0) then search_loop fuel m nd (h + Z.of_nat a + usub k (nd_ms nd)) z 0
          else
            k ← match_left (S fuel) m n (h + Z.of_nat a) mem (Z.of_nat l);
            if k <=? mem then Some (Some (h + Z.of_nat a))
            else search_loop fuel m nd (h + Z.of_nat a + Z.of_nat q) z (Z.of_nat mem0)
      else search_loop fuel m nd (h + Z.of_nat a + Z.of_nat L) z 0
  end.
Proof.
  destruct (no_critical _ _ _ _ Hnd) as [_ Hl]. cbn [search_loop]. rewrite (no_l _ _ _ _ Hnd), (no_n _ _ _ _ Hnd), (no_p _ _ _ _ Hnd), (no_mem0 _ _ _ _ Hnd).
  assert (uadd (nd_ms nd) 1 = Z.of_nat l) as ->; [|done]. rewrite (no_ms _ _ _ _ Hnd), uadd_wrap, wrap_id by (unfold L in *; lia). lia.
Qed.

Lemma search_loop_finds fuel a z mem : (a ≤ z ≤ H)%nat → (H - a + L + 1 < fuel)%nat → mem_ok l a mem →
  finds a (search_loop fuel m nd (h + Z.of_nat a) (h + Z.of_nat z) (Z.of_nat mem)).
Proof.
  revert a z mem. induction fuel as [|fuel IH]; intros a z mem Hz Hf Hmem; [lia|]. rewrite search_loop_step. pose proof (known_spec a z Hz) as Hk. destruct (no_critical _ _ _ _ Hnd) as [_ Hl].
  destruct (known _ _) as [z'|]; [|right; split; [done|]; intros c Hc [? _]; lia]. destruct Hk as (k & -> & Hk).
  assert (∀ b, (a < b ≤ k)%nat → (∀ c, (a ≤ c < b)%nat → ¬ occurs c) → ∀ mem', mem_ok l b mem' → finds a (search_loop fuel m nd (h + Z.of_nat b) (h + Z.of_nat k) (Z.of_nat mem'))) as Hgo.
  { intros b Hb Hno mem' Hm'. apply (finds_skip a b); [lia|done|]. apply IH; [lia|lia|done]. }
  replace (Z.of_nat L - 1) with (Z.of_nat (L - 1)) by lia. rewrite T_at. cbv zeta. pose proof (T_byte (a + (L - 1)) ltac:(lia)) as Hb.
  destruct (get_bit (T (a + (L - 1))) (nd_set nd)) eqn:Hbit.
  2: { rewrite h_add. change 0 with (Z.of_nat 0). apply Hgo; [lia|by apply skip_foreign; [lia..|]|by left]. }
  destruct (no_tables _ _ _ _ Hnd) as (_ & Hset & Hsh). apply Hset in Hbit as (i0 & Hi0 & Hx0); [|lia]. destruct (Hsh _ i0 Hi0 Hx0) as (j & Hj & Hxj & -> & Hlast).
  rewrite usub_small by (unfold L in *; lia). replace (Z.of_nat L - (Z.of_nat j + 1)) with (Z.of_nat (L - 1 - j)) by lia.
  destruct (decide (j = L - 1)%nat) as [Hje|Hje].
  2: { rewrite (proj2 (Z.eqb_neq _ 0)) by lia. cbn [negb]. assert ((if Z.of_nat (L - 1 - j) <? Z.of_nat mem then Z.of_nat mem else Z.of_nat (L - 1 - j)) = Z.of_nat (Nat.max (L - 1 - j) mem)) as -> by (case_Z1; lia).
       assert (mem ≤ L)%nat by (destruct Hmem as [->|(q' & _ & -> & _)]; lia). rewrite h_add. change 0 with (Z.of_nat 0).
       apply Hgo; [lia|apply (skip_last a mem j); [lia|done|lia|done|done]|by left]. }
  replace (L - 1 - j)%nat with 0%nat by lia. cbn [Z.of_nat Z.eqb negb]. clear j Hj Hxj Hlast Hje i0 Hi0 Hx0 Hsh Hset.
  assert (mem ≤ L)%nat as HmL by (destruct Hmem as [->|(q' & _ & -> & _)]; lia). rewrite <-Nat2Z.inj_max.
  destruct (match_right_spec (S fuel) a (Nat.max l mem)) as (kr & Hkr & -> & Heq & Hmis); [lia|lia|lia|]. cbn [mbind option_bind]. rewrite needle_at.
  assert (∀ i, (l ≤ i < kr)%nat → x i = T (a + i)) as Hright.
  { intros i Hi. destruct (decide (i < mem)%nat); [symmetry; by apply (mem_matches a mem)|apply Heq; lia]. }
  destruct (decide (kr = L)) as [->|HkL].
  2: { pose proof (x_byte kr ltac:(lia)). rewrite (proj2 (Z.eqb_neq (x kr) 0)) by lia. cbn [negb]. rewrite (no_ms _ _ _ _ Hnd).
       assert (usub (Z.of_nat kr) (wrap (Z.of_nat l - 1)) = Z.of_nat (kr - l + 1)) as -> by (unfold usub, wrap; rewrite Zminus_mod_idemp_r, Z.mod_small by (unfold L in *; lia); lia).
       rewrite h_add. change 0 with (Z.of_nat 0). apply Hgo; [lia|apply skip_mismatch; [lia|done|apply Hmis; lia]|by left]. }
  rewrite x_end. cbn [Z.eqb negb]. destruct (match_left_spec (S fuel) a mem l) as (kl & Hkl & -> & Heql & Hmisl); [lia|]. cbn [mbind option_bind].
  destruct (Z.leb_spec (Z.of_nat kl) (Z.of_nat mem)) as [Hle|Hgt].
  - left. exists a. split_and!; [lia|done| |lia]. split; [lia|]. intros i Hi. destruct (decide (i < mem)%nat); [by apply (mem_matches a mem)|]. symmetry. destruct (decide (i < l)%nat); [apply Heql; lia|apply Hright; lia].
  - destruct (no_shift _ _ _ _ Hnd) as [Hq _]. rewrite h_add. apply Hgo; [lia| |].
    + apply skip_period; [done|]. intros [_ Hocc]. apply Hmisl; [lia|]. symmetry. apply Hocc. lia.
    + destruct (no_period _ _ _ _ Hnd) as [->|[Hp ->]]; [by left|right]. exists q. split_and!; [done|done|lia|]. intros i Hi. rewrite Hright by lia. f_equal. lia.
Qed.
End search.

(** [memcmp(n, n + p, l)] tells whether the period of the right half is one of the needle. *)
Lemma prefix_period l p : (l + p ≤ L)%nat → suffix_period x L l p →
  memcmp m n (n + Z.of_nat p) (Z.of_nat l) = 0 ↔ has_period x L p.
Proof.
  intros Hlp [Hp Hsuf]. rewrite memcmp_spec, Nat2Z.id, compare_same_length by (unfold bytes_at; by rewrite !length_fmap). unfold bytes_at. split.
  - intros He. split; [done|]. intros i Hi. destruct (decide (l ≤ i)%nat); [by apply Hsuf|].
    apply (f_equal (.!! i)) in He. rewrite !list_lookup_fmap, lookup_seq_lt in He by lia. cbn in He. injection He as He. unfold x. rewrite He. f_equal. lia.
  - intros [_ Hper]. apply list_fmap_ext. intros k i Hi. apply lookup_seq in Hi as [-> Hi]. cbn. pose proof (Hper k ltac:(lia)) as He. unfold x in He. rewrite He. f_equal. lia.
Qed.
(** The shift after a full match of the right half: the period, or the longer half plus one. *)
Lemma prepared_ok set shift l p : table_ok L set shift → critical_position x L l → (l < L)%nat → smallest_period x L l p →
  if memcmp m n (n + Z.of_nat p) (Z.of_nat l) =? 0
  then needle_ok {| nd_n := n; nd_l := Z.of_nat L; nd_set := set; nd_shift := shift; nd_ms := wrap (Z.of_nat l - 1); nd_p := Z.of_nat p; nd_mem0 := Z.of_nat (L - p) |} l p (L - p)
  else (0 < l)%nat ∧ needle_ok {| nd_n := n; nd_l := Z.of_nat L; nd_set := set; nd_shift := shift; nd_ms := wrap (Z.of_nat l - 1); nd_p := Z.of_nat (Nat.max l (L - l + 1)); nd_mem0 := 0 |} l (Nat.max l (L - l + 1)) 0.
Proof.
  intros Htab Hc Hl Hs. pose proof Hs as ([Hp Hsuf] & HpL & Hmin). pose proof (prefix_period l p HpL (conj Hp Hsuf)) as Hpre. destruct (Z.eqb_spec (memcmp m n (n + Z.of_nat p) (Z.of_nat l)) 0) as [He|Hne].
  - apply Hpre in He. split; cbn; [done..| | |by right]; [done|]. split; [lia|]. intros s Hs' Hloc. destruct (critical x L l s Hc Hloc) as [_ [_ Hper]]. apply (Hmin s Hs'). split; [lia|]. intros i _ Hi. by apply Hper.
  - assert (0 < l)%nat as Hl0. { destruct l; [|lia]. destruct Hne. by rewrite memcmp_spec. }
    split; [done|]. split; cbn; [done..| | |by left]; [done|]. split; [lia|]. intros s Hs' Hloc. destruct (critical x L l s Hc Hloc) as [Hls Hper]. apply Hne, Hpre, (short_period x L l p s); [done|done|done|lia].
Qed.

Lemma twoway_finds fuel : (0 < L)%nat → (2 * L + H + 2 < fuel)%nat → finds 0 (twoway_strstr fuel m h n).
Proof.
  intros HL Hf. unfold twoway_strstr. pose proof (needle_loop_spec fuel 0 empty_set (λ _, 0) table_start ltac:(lia) ltac:(lia) ltac:(lia)) as Hnl.
  destruct (decide (L ≤ H)%nat) as [HLH|HLH].
  2: { change (Z.of_nat 0) with 0 in Hnl. rewrite Hnl. right. split; [done|]. intros c _ [? _]. lia. }
  destruct Hnl as (set & shift & Hnl & Htab). change (Z.of_nat 0) with 0 in Hnl. rewrite Hnl. cbn [mbind option_bind].
  destruct (maximal_suffix_spec Z.gtb Z.lt fuel 0 1 0 1) as (i1 & p1 & Hm1 & Hmax1 & Hper1); [intros; rewrite Z.gtb_ltb; apply Z.ltb_lt|by apply si_start|lia|].
  destruct (maximal_suffix_spec Z.ltb (flip Z.lt) fuel 0 1 0 1) as (i2 & p2 & Hm2 & Hmax2 & Hper2); [intros; apply Z.ltb_lt|by apply si_start|lia|].
  change (wrap (Z.of_nat 0 - 1)) with (usub 0 1) in Hm1, Hm2. change (Z.of_nat 1 - 1) with 0 in Hm1, Hm2. change (Z.of_nat 0 + 1) with 1 in Hm1, Hm2. change (Z.of_nat 1) with 1 in Hm1, Hm2.
  rewrite Hm1. cbn [mbind option_bind]. rewrite Hm2. cbn [mbind option_bind fst]. pose proof (proj1 Hmax1) as Hi1. pose proof (proj1 Hmax2) as Hi2. fold L in Hsize'.
  rewrite !uadd_wrap, !wrap_id by lia. replace (Z.of_nat i1 - 1 + 1) with (Z.of_nat i1) by lia. replace (Z.of_nat i2 - 1 + 1) with (Z.of_nat i2) by lia.
  assert (∃ l p, (if Z.of_nat i1 <? Z.of_nat i2 then (wrap (Z.of_nat i2 - 1), Z.of_nat p2) else (wrap (Z.of_nat i1 - 1), Z.of_nat p1)) = (wrap (Z.of_nat l - 1), Z.of_nat p) ∧
    critical_position x L l ∧ (l < L)%nat ∧ smallest_period x L l p) as (l & p & -> & Hc & Hl & Hs).
  { destruct (Z.ltb_spec (Z.of_nat i1) (Z.of_nat i2)).
    - exists i2, p2. split_and!; [done| |done|done..]. right. split; [done|]. exists i1. split; [lia|done].
    - exists i1, p1. split_and!; [done| |done|done..]. left. split; [done|]. exists i2. split; [lia|done]. }
  pose proof (prepared_ok set shift l p Htab Hc Hl Hs) as Hok. destruct Hs as ([Hp _] & HpL & _). rewrite uadd_wrap, wrap_id by lia. replace (Z.of_nat l - 1 + 1) with (Z.of_nat l) by lia.
  replace h with (h + Z.of_nat 0) at 1 2 by lia. change 0 with (Z.of_nat 0) at 3.
  destruct (memcmp m n (n + Z.of_nat p) (Z.of_nat l) =? 0).
  - rewrite usub_small by lia. rewrite <-Nat2Z.inj_sub by lia. apply (search_loop_finds _ l p (L - p)); [done|lia|lia|by left].
  - destruct Hok as [Hl0 Hok].
    assert (uadd (wrap (Z.of_nat l - 1) `max` usub (usub (Z.of_nat L) (wrap (Z.of_nat l - 1))) 1) 1 = Z.of_nat (Nat.max l (L - l + 1))) as ->.
    { rewrite wrap_id by lia. rewrite (usub_small (Z.of_nat L)) by lia. rewrite usub_small by lia. rewrite uadd_small by lia. lia. }
    apply (search_loop_finds _ l _ 0 Hok); [lia|lia|by left].
Qed.

(** A needle of [k] bytes ends at [k], and a longer one does not. *)
Lemma needle_end (z : Z) i : z = Z.of_nat i → (i ≤ L)%nat → (m (n + z) =? 0) = bool_decide (i = L).
Proof.
  intros -> Hi. rewrite needle_at. destruct (bool_decide_reflect (i = L)) as [->|Hne]; [by rewrite x_end|]. apply Z.eqb_neq. pose proof (x_byte i ltac:(lia)). lia.
Qed.
Lemma haystack_end (z : Z) i : z = Z.of_nat i → (i ≤ H)%nat → (m (h + z) =? 0) = bool_decide (i = H).
Proof.
  intros -> Hi. fold (T i). destruct (bool_decide_reflect (i = H)) as [->|Hne]; [by rewrite T_end|]. apply Z.eqb_neq. pose proof (T_byte i ltac:(lia)). lia.
Qed.
Lemma too_short a : (H < a + L)%nat → finds a (Some None).
Proof. intros Hs. right. split; [done|]. intros c Hc [? _]. lia. Qed.
Lemma finds_here a : occurs a → finds a (Some (Some (h + Z.of_nat a))).
Proof. intros Ho. left. exists a. split_and!; [lia|done|done|lia]. Qed.

(** From a position that has the first byte of the needle. *)
Lemma dispatch_finds fuel : (0 < L)%nat → (0 < H)%nat → T 0 = x 0 → (2 * L + H + 2 < fuel)%nat → finds 0 (
  if m (n + 1) =? 0 then Some (Some h)
  else if m (h + 1) =? 0 then Some None
  else if m (n + 2) =? 0 then twobyte_strstr fuel m h n
  else if m (h + 2) =? 0 then Some None
  else if m (n + 3) =? 0 then threebyte_strstr fuel m h n
  else if m (h + 3) =? 0 then Some None
  else if m (n + 4) =? 0 then fourbyte_strstr fuel m h n
  else twoway_strstr fuel m h n).
Proof.
  intros HL HH Hfirst Hf.
  rewrite (needle_end 1 1) by lia. case_bool_decide. { replace h with (h + Z.of_nat 0) by lia. apply finds_here. split; [lia|]. intros i Hi. by replace i with 0%nat by lia. }
  rewrite (haystack_end 1 1) by lia. case_bool_decide; [apply too_short; lia|].
  rewrite (needle_end 2 2) by lia. case_bool_decide; [apply twobyte_finds; lia|].
  rewrite (haystack_end 2 2) by lia. case_bool_decide; [apply too_short; lia|].
  rewrite (needle_end 3 3) by lia. case_bool_decide; [apply threebyte_finds; lia|].
  rewrite (haystack_end 3 3) by lia. case_bool_decide; [apply too_short; lia|].
  rewrite (needle_end 4 4) by lia. case_bool_decide; [apply fourbyte_finds; lia|]. apply twoway_finds; lia.
Qed.
End strstr.

(** [needle] occurs in [hay] at [a]. *)
Definition occurs_at (needle hay : list Z) (a : nat) : Prop := take (length needle) (drop a hay) = needle ∧ (a + length needle ≤ length hay)%nat.
#[export] Instance occurs_at_dec needle hay a : Decision (occurs_at needle hay a).
Proof. unfold occurs_at. apply _. Defined.

Lemma occurs_occurs_at m h n lh ln a : string_at m h lh → string_at m n ln → occurs m h n lh ln a ↔ occurs_at ln lh a.
Proof.
  intros Hh Hn. unfold occurs, occurs_at. split; intros [H1 H2]; split; try done.
  - apply list_eq. intros i. destruct (decide (i < length ln)%nat) as [Hi|Hi]; [|rewrite !lookup_ge_None_2 by (rewrite ?length_take; lia); done].
    rewrite lookup_take_lt, lookup_drop by done. rewrite (x_lookup m n lh ln Hn i Hi), <-(H2 i Hi).
    rewrite (string_at_lookup m h lh) by (done || lia). destruct (lookup_lt_is_Some_2 lh (a + i)) as [b Hb]; [lia|]. by rewrite Hb.
  - intros i Hi. pose proof (x_lookup m n lh ln Hn i Hi) as Hx. rewrite <-H1, lookup_take_lt, lookup_drop in Hx by done.
    by rewrite (string_at_lookup m h lh), Hx by (done || lia).
Qed.

(** What a search for a needle may return: a pointer to the first occurrence, or null when there is none. *)
Definition first_match (h : Z) (lh ln : list Z) (r : option Z) : Prop :=
  match r with
  | Some p => ∃ a, p = h + Z.of_nat a ∧ occurs_at ln lh a ∧ ∀ c, (c < a)%nat → ¬ occurs_at ln lh c
  | None => ∀ a, ¬ occurs_at ln lh a
  end.

Lemma occurs_at_first ln lh a b : ln !! 0%nat = Some b → occurs_at ln lh a → lh !! a = Some b.
Proof.
  intros Hb [Ht Hl]. rewrite <-Ht in Hb. apply lookup_take_Some in Hb as [Hb _]. by rewrite lookup_drop, Nat.add_0_r in Hb.
Qed.
Lemma occurs_at_suffix ln lh a c : (a ≤ length lh)%nat → occurs_at ln (drop a lh) c ↔ occurs_at ln lh (a + c).
Proof. intros Ha. unfold occurs_at. rewrite drop_drop, length_drop. split; intros [? ?]; (split; [done|lia]). Qed.

(** C15: [strstr] returns, for any two strings, and the pointer it returns is that of the first
    occurrence of the needle in the haystack, the haystack itself for the empty needle, and
    null exactly when the needle does not occur: the searches with a rolling word for needles
    of two, three and four bytes and the two-way search for the longer ones all find the first
    occurrence, so no shift they make ever skips one. *)
Theorem strstr_first fuel m h n lh ln : string_at m h lh → string_at m n ln → zlen lh < 2 ^ 62 → zlen ln < 2 ^ 62 →
  (2 * length ln + length lh + 2 < fuel)%nat →
  ∃ r, strstr fuel m h n = Some r ∧ first_match h lh ln r.
Proof.
  intros Hh Hn Hs1 Hs2 Hf. unfold strstr. destruct ln as [|b ln].
  { cbn in Hn. rewrite Hn. exists (Some h). split; [done|]. exists 0%nat. split; [lia|]. split; [|lia]. split; [done|cbn; lia]. }
  pose proof Hn as (Hb & Hb0 & _). rewrite (proj2 (Z.eqb_neq (m n) 0)) by lia. rewrite (strchr_spec fuel m h lh) by (done || lia). cbn [mbind option_bind].
  assert (∀ c, occurs_at (b :: ln) lh c → lh !! c = Some (m n)) as Hocc by (rewrite Hb; intros c; by apply occurs_at_first).
  destruct (first_occurrence (m n) (lh ++ [0])) as [a|] eqn:Hfirst; cbn [at_position fmap option_fmap option_map].
  2: { exists None. split; [done|]. intros a Ho%Hocc. unfold first_occurrence in Hfirst. apply head_None in Hfirst.
       assert (a ∈ occurrences (m n) (lh ++ [0]) 0) as Hin; [|rewrite Hfirst in Hin; by apply not_elem_of_nil in Hin]. apply occurrences_spec. split; [lia|]. rewrite Nat.sub_0_r. by apply lookup_app_l_Some. }
  apply first_occurrence_spec in Hfirst as [Ha Hbefore]. apply lookup_app_Some in Ha as [Ha|[_ Ha]]; [|apply list_lookup_singleton_Some in Ha; lia].
  pose proof (lookup_lt_Some _ _ _ Ha) as Hal. pose proof (haystack_suffix m h lh Hh a ltac:(lia)) as Hsuf.
  assert (length (drop a lh) = length lh - a)%nat as Hdl by apply length_drop.
  destruct (dispatch_finds m (h + Z.of_nat a) n (drop a lh) (b :: ln) Hsuf Hn ltac:(lia) Hs2 fuel) as [(c & _ & Hr & Ho & Hno)|[Hr Hno]];
    [cbn; lia|lia|rewrite !Z.add_0_r; by rewrite (string_at_lookup m h lh), Ha by (done || lia)|lia|..].
  all: assert (∀ c, (c < a)%nat → ¬ occurs_at (b :: ln) lh c) as Hearly
    by (intros d Hd Hod%Hocc; apply (Hbefore d Hd); by apply lookup_app_l_Some).
  - exists (Some (h + Z.of_nat a + Z.of_nat c)). split; [exact Hr|]. exists (a + c)%nat. split; [lia|]. rewrite occurs_occurs_at, occurs_at_suffix in Ho by (done || lia). split; [done|].
    intros d Hd Hod. destruct (decide (d < a)%nat); [by apply (Hearly d)|]. apply (Hno (d - a)%nat); [lia|]. rewrite occurs_occurs_at, occurs_at_suffix by (done || lia). by replace (a + (d - a))%nat with d by lia.
  - exists None. split; [exact Hr|]. intros d Hod. destruct (decide (d < a)%nat); [by apply (Hearly d)|]. apply (Hno (d - a)%nat); [lia|]. rewrite occurs_occurs_at, occurs_at_suffix by (done || lia). by replace (a + (d - a))%nat with d by lia.
Qed.
