(* ===== verification/CStdlib.v ===== *)
(** The conversions of numbers in the C library: [ulib/axlibc/c/stdlib.c] ([strtol],
    [strtoul], [strtoll], [strtoull]), and what they accept and return.

    The four functions have the same body but for the limits; [convert] is that body, with
    the largest magnitude and the value on overflow as arguments.  [s] is one past the
    character [c], as in the code. *)

From stdpp Require Import prelude list.
From Stdlib Require Import ZArith Lia.
From S2P Require Import Prelude CString CStringProps.
Local Open Scope Z_scope.

Definition EINVAL : Z := 22.
Definition LONG_MAX : Z := 2 ^ 63 - 1.
Definition LONG_MIN : Z := - 2 ^ 63.
Definition ULONG_MAX : Z := 2 ^ 64 - 1.
Definition LLONG_MAX : Z := 2 ^ 63 - 1.
Definition LLONG_MIN : Z := - 2 ^ 63.
Definition ULLONG_MAX : Z := 2 ^ 64 - 1.

(** [do { c = *s++; } while (isspace(c));]. *)
Fixpoint skip_spaces (fuel : nat) (m : memory) (s : Z) : option (Z * Z) :=
  match fuel with
  | O => None
  | S fuel => if isspace (m s) then skip_spaces fuel m (s + 1) else Some (m s, s + 1)
  end.
Definition read_sign (m : memory) (c s : Z) : bool * Z * Z :=
  if c =? 45 then (true, m s, s + 1)
  else if c =? 43 then (false, m s, s + 1)
  else (false, c, s).
(** The ["0x"] of base 16, and the base of base 0. *)
Definition read_base (m : memory) (base c s : Z) : Z * Z * Z :=
  let '(base, c, s) :=
    if ((base =? 0) || (base =? 16)) && (c =? 48) && ((m s =? 120) || (m s =? 88)) then (16, m (s + 1), s + 2) else (base, c, s) in
  let base := if base =? 0 then (if c =? 48 then 8 else 10) else base in
  (base, c, s).
(** [c -= isupper(c) ? 'A' - 10 : 'a' - 10] on an [unsigned char]. *)
Definition digit_value (c : Z) : option Z :=
  if negb (isascii c) then None
  else if isdigit c then Some ((c - 48) mod 256)
  else if isalpha c then Some ((c - (if isupper c then 65 - 10 else 97 - 10)) mod 256)
  else None.
Definition accumulate (base cutoff cutlim acc any d : Z) : Z * Z :=
  if (any <? 0) || (cutoff <? acc) || (acc =? cutoff) && (cutlim <? d) then (acc, -1) else (uadd (umul acc base) d, 1).
Fixpoint digit_loop (fuel : nat) (m : memory) (base cutoff cutlim c s acc any : Z) : option (Z * Z * Z) :=
  match fuel with
  | O => None
  | S fuel =>
      match digit_value c with
      | None => Some (acc, any, s)
      | Some d =>
          if base <=? d then Some (acc, any, s)
          else
            let '(acc, any) := accumulate base cutoff cutlim acc any d in
            digit_loop fuel m base cutoff cutlim (m s) (s + 1) acc any
      end
  end.

(** What a conversion returns, the pointer it stores through [endptr] when that is not
    null, and the error it sets. *)
Record conversion := { cv_value : Z; cv_end : Z; cv_errno : option Z }.

Definition convert (limit overflow : bool → Z) (fuel : nat) (m : memory) (nptr base : Z) : option conversion :=
  if (base <? 0) || (base =? 1) || (36 <? base) then Some {| cv_value := 0; cv_end := nptr; cv_errno := Some EINVAL |}
  else
    '(c, s) ← skip_spaces fuel m nptr;
    let '(neg, c, s) := read_sign m c s in
    let '(base, c, s) := read_base m base c s in
    let cutlim := limit neg mod base in
    let cutoff := limit neg / base in
    '(acc, any, s) ← digit_loop fuel m base cutoff cutlim c s 0 0;
    let e := if any =? 0 then nptr else s - 1 in
    Some (if any <? 0 then {| cv_value := wrap (overflow neg); cv_end := e; cv_errno := Some ERANGE |}
          else {| cv_value := if neg then wrap (- acc) else acc; cv_end := e; cv_errno := None |}).

(** The accumulator is unsigned, and [strtol] returns it as a [long]. *)
Definition as_long (r : conversion) : conversion := {| cv_value := to_signed 64 (cv_value r); cv_end := cv_end r; cv_errno := cv_errno r |}.
Definition strtol (fuel : nat) (m : memory) (nptr base : Z) : option conversion :=
  as_long <$> convert (λ neg, if neg then usub LONG_MAX (wrap (LONG_MIN + LONG_MAX)) else LONG_MAX) (λ neg, if neg then LONG_MIN else LONG_MAX) fuel m nptr base.
Definition strtoul (fuel : nat) (m : memory) (nptr base : Z) : option conversion := convert (λ _, ULONG_MAX) (λ _, ULONG_MAX) fuel m nptr base.
Definition strtoll (fuel : nat) (m : memory) (nptr base : Z) : option conversion :=
  as_long <$> convert (λ neg, if neg then usub LLONG_MAX (wrap (LLONG_MIN + LLONG_MAX)) else LLONG_MAX) (λ neg, if neg then LLONG_MIN else LLONG_MAX) fuel m nptr base.
Definition strtoull (fuel : nat) (m : memory) (nptr base : Z) : option conversion := convert (λ _, ULLONG_MAX) (λ _, ULLONG_MAX) fuel m nptr base.

Definition abs_ (w a : Z) : Z := if 0 <? a then a else to_signed w (- a).
Definition abs (a : Z) : Z := abs_ 32 a.
Definition llabs (a : Z) : Z := abs_ 64 a.

(** * What a numeral is *)

(** The value of a list of digits. *)
Definition digits_value (radix : Z) (ds : list Z) : Z := foldl (λ v d, v * radix + d) 0 ds.
Lemma digits_value_snoc radix ds d : digits_value radix (ds ++ [d]) = digits_value radix ds * radix + d.
Proof. unfold digits_value. by rewrite foldl_app. Qed.

Definition digit_in (radix b d : Z) : Prop := digit_value b = Some d ∧ d < radix.
Definition starts_hex (l : list Z) : Prop := ∃ x r, l = 48 :: x :: r ∧ (x = 120 ∨ x = 88).
(** The base a body [l] without prefix is read in, for the argument [base]. *)
Definition plain_radix (base : Z) (l : list Z) : Z := if base =? 0 then (match l with 48 :: _ => 8 | _ => 10 end) else base.

(** [spaces sign prefix digits rest] are the parts of a string as a conversion with [base]
    reads it: a sign, the prefix of base 16, and as many digits of values [ds] in the base [radix] as there are. *)
Record numeral (base : Z) (spaces sign prefix digits rest : list Z) (ds : list Z) (radix : Z) : Prop := {
  nu_base : base = 0 ∨ 2 ≤ base ≤ 36;
  nu_spaces : Forall (λ b, isspace b = true) spaces;
  nu_sign : sign = [] ∨ sign = [43] ∨ sign = [45];
  nu_prefix :
    (∃ x, prefix = [48; x] ∧ (x = 120 ∨ x = 88) ∧ (base = 0 ∨ base = 16) ∧ radix = 16) ∨
    prefix = [] ∧ radix = plain_radix base (digits ++ rest) ∧ ((base = 0 ∨ base = 16) → ¬ starts_hex (digits ++ rest));
  nu_digits : Forall2 (digit_in radix) digits ds;
  nu_rest : ∀ b r, rest = b :: r → ¬ ∃ d, digit_in radix b d;
  nu_start : sign = [] → prefix = [] → digits = [] → ∀ b r, rest = b :: r → isspace b = false ∧ b ≠ 43 ∧ b ≠ 45;
}.

(** * Characters *)

(** What holds of the 256 characters by computation. *)
Lemma all_chars (p : Z → bool) : forallb (λ n, p (Z.of_nat n)) (seq 0 256) = true → ∀ c, 0 ≤ c < 256 → p c = true.
Proof.
  intros Hall c Hc. rewrite forallb_forall in Hall. specialize (Hall (Z.to_nat c)). rewrite Z2Nat.id in Hall by lia. apply Hall, in_seq. lia.
Qed.
Definition digit_ref (c : Z) : option Z :=
  if (48 <=? c) && (c <? 58) then Some (c - 48) else if (65 <=? c) && (c <? 91) then Some (c - 55) else if (97 <=? c) && (c <? 123) then Some (c - 87) else None.
Lemma digit_value_ref c : 0 ≤ c < 256 → digit_value c = digit_ref c.
Proof.
  intros Hc. apply (bool_decide_eq_true_1 (digit_value c = digit_ref c)). revert c Hc. apply all_chars. vm_compute. done.
Qed.
Lemma digit_value_range c d : 0 ≤ c < 256 → digit_value c = Some d → (48 ≤ c < 58 ∧ d = c - 48) ∨ (65 ≤ c < 91 ∧ d = c - 55) ∨ (97 ≤ c < 123 ∧ d = c - 87).
Proof.
  intros Hc. rewrite digit_value_ref by done. unfold digit_ref. repeat case_match; intros ?; simplify_eq; lia.
Qed.
Lemma isspace_range c : 0 ≤ c < 256 → isspace c = true ↔ c = 32 ∨ 9 ≤ c < 14.
Proof.
  intros Hc. unfold isspace, in_class. rewrite orb_true_iff, Z.eqb_eq, Z.ltb_lt. rewrite (Z.mod_small c) by lia.
  destruct (decide (9 ≤ c)); [rewrite Z.mod_small by lia; lia|]. rewrite <-(Z.mod_add _ 1), Z.mod_small by lia. lia.
Qed.

(** * The loops *)

Implicit Types (m : memory) (l : list Z).

Lemma skip_spaces_spec fuel m s spaces l : string_at m s (spaces ++ l) → Forall (λ b, isspace b = true) spaces → (∀ b r, l = b :: r → isspace b = false) →
  (length spaces < fuel)%nat → skip_spaces fuel m s = Some (m (s + zlen spaces), s + zlen spaces + 1).
Proof.
  revert fuel s. induction spaces as [|b spaces IH]; intros [|fuel] s Hs Hall Hl Hf; cbn [length] in *; try lia; cbn [skip_spaces].
  - rewrite Z.add_0_r. destruct l as [|b l]; cbn in Hs; [by rewrite Hs|]. destruct Hs as (-> & _). by rewrite (Hl b l).
  - destruct Hs as (-> & _ & Hs). apply Forall_cons in Hall as [-> Hall]. rewrite (IH fuel (s + 1)) by (done || lia). f_equal. f_equal; [f_equal; lia|lia].
Qed.

Definition step_digits (base limit : Z) (ds : list Z) (r : Z * Z) : Z * Z :=
  foldl (λ r d, accumulate base (limit / base) (limit mod base) r.1 r.2 d) r ds.
Lemma digit_loop_spec fuel m p radix limit digits ds rest acc any : string_at m p (digits ++ rest) → Forall2 (digit_in radix) digits ds →
  (∀ b r, rest = b :: r → ¬ ∃ d, digit_in radix b d) → (length digits < fuel)%nat →
  digit_loop fuel m radix (limit / radix) (limit mod radix) (m p) (p + 1) acc any =
  Some (step_digits radix limit ds (acc, any), p + zlen digits + 1).
Proof.
  intros Hs Hd Hrest. revert fuel p acc any Hs. induction Hd as [|b d digits ds [Hb Hdr] Hd IH]; intros [|fuel] p acc any Hs Hf; cbn [length] in *; try lia; cbn [digit_loop].
  - rewrite Z.add_0_r. cbn in Hs. destruct rest as [|b rest]; cbn in Hs; [rewrite Hs; done|]. destruct Hs as (-> & Hb & _). destruct (digit_value b) as [d|] eqn:Hv; [|done].
    rewrite (proj2 (Z.leb_le _ _)); [done|]. destruct (decide (radix ≤ d)); [done|]. destruct (Hrest b rest); [done|]. exists d. split; [done|lia].
  - destruct Hs as (-> & _ & Hs). rewrite Hb, (proj2 (Z.leb_gt _ _)) by done. unfold step_digits. cbn [foldl fst snd].
    destruct (accumulate _ _ _ _ _ _) as [acc' any']. rewrite (IH fuel (p + 1)) by (done || lia). do 2 f_equal. lia.
Qed.

Lemma digits_value_nonneg radix ds : 0 ≤ radix → Forall (λ d, 0 ≤ d) ds → 0 ≤ digits_value radix ds.
Proof. intros Hr. induction ds as [|d ds IH] using rev_ind; [done|]. intros [Hds Hd]%Forall_app. rewrite Forall_singleton in Hd. rewrite digits_value_snoc. apply IH in Hds. apply Z.add_nonneg_nonneg; [by apply Z.mul_nonneg_nonneg|done]. Qed.
(** The accumulator has the value of the digits until it exceeds the limit. *)
Lemma step_digits_spec radix limit ds : 2 ≤ radix ≤ 36 → 0 ≤ limit < 2 ^ 64 → Forall (λ d, 0 ≤ d < radix) ds → ds ≠ [] →
  let v := digits_value radix ds in
  if limit <? v then (step_digits radix limit ds (0, 0)).2 = -1 else step_digits radix limit ds (0, 0) = (v, 1).
Proof.
  intros Hr Hlim. pose proof (Z.div_mod limit radix ltac:(lia)) as Hdiv. pose proof (Z.mod_pos_bound limit radix ltac:(lia)) as Hmod.
  induction ds as [|d ds IH] using rev_ind; [done|]. intros [Hds Hd]%Forall_app _. rewrite Forall_singleton in Hd. cbv zeta. rewrite digits_value_snoc. unfold step_digits. rewrite foldl_app. cbn [foldl].
  fold (step_digits radix limit ds (0, 0)). assert (0 ≤ digits_value radix ds) as Hv by (apply digits_value_nonneg; [lia|]; eapply Forall_impl; [done|cbn; lia]).
  assert (∀ any, 0 ≤ any → digits_value radix ds ≤ limit →
    if limit <? digits_value radix ds * radix + d then (accumulate radix (limit / radix) (limit mod radix) (digits_value radix ds) any d).2 = -1
    else accumulate radix (limit / radix) (limit mod radix) (digits_value radix ds) any d = (digits_value radix ds * radix + d, 1)) as Hstep.
  { intros any Hany Hle. unfold accumulate. rewrite (proj2 (Z.ltb_ge any 0)) by lia. cbn [orb]. destruct (Z.ltb_spec limit (digits_value radix ds * radix + d)) as [Hgt|Hok].
    - assert (((limit / radix <? digits_value radix ds) || (digits_value radix ds =? limit / radix) && (limit mod radix <? d)) = true) as ->; [|done].
      apply orb_true_iff. rewrite andb_true_iff, !Z.ltb_lt, Z.eqb_eq. nia.
    - assert (((limit / radix <? digits_value radix ds) || (digits_value radix ds =? limit / radix) && (limit mod radix <? d)) = false) as ->.
      { apply orb_false_iff. rewrite andb_false_iff, !Z.ltb_ge, Z.eqb_neq. nia. }
      unfold umul. rewrite wrap_small, uadd_small by (unfold in_usize; nia). done. }
  destruct (decide (ds = [])) as [->|Hne]; [apply (Hstep 0); cbn; lia|]. specialize (IH Hds Hne). cbv zeta in IH.
  destruct (Z.ltb_spec limit (digits_value radix ds)) as [Hgt|Hle].
  - rewrite (proj2 (Z.ltb_lt _ _)) by nia. destruct (step_digits _ _ _ _) as [acc any]. cbn in *. by rewrite IH.
  - rewrite IH. by apply Hstep.
Qed.

(** * The functions *)

Lemma digit_not_special radix b d : 0 < b < 256 → digit_in radix b d → isspace b = false ∧ b ≠ 43 ∧ b ≠ 45.
Proof.
  intros Hb [Hd _]. apply digit_value_range in Hd; [|lia]. split; [|lia]. apply not_true_iff_false. rewrite isspace_range by lia. lia.
Qed.
Lemma numeral_radix base spaces sign prefix digits rest ds radix : numeral base spaces sign prefix digits rest ds radix → 2 ≤ radix ≤ 36.
Proof.
  intros Hn. destruct (nu_base _ _ _ _ _ _ _ _ Hn) as [->|Hb], (nu_prefix _ _ _ _ _ _ _ _ Hn) as [(_ & _ & _ & _ & ->)|(_ & -> & _)]; try lia; unfold plain_radix; cbn.
  - repeat case_match; lia.
  - by rewrite (proj2 (Z.eqb_neq base 0)) by lia.
Qed.

Section numeral.
Context (base : Z) (spaces sign prefix digits rest ds : list Z) (radix : Z).
Context (Hnum : numeral base spaces sign prefix digits rest ds radix).
Context (m : memory) (s : Z) (Hs : string_at m s (spaces ++ sign ++ prefix ++ digits ++ rest)).
Let body := prefix ++ digits ++ rest.
Let p := s + zlen spaces.
Let q := p + zlen sign.

Lemma body_string : string_at m p (sign ++ body) ∧ string_at m q body ∧ string_at m (q + zlen prefix) (digits ++ rest).
Proof. assert (string_at m p (sign ++ body)) as H1 by by apply string_at_app in Hs. pose proof (string_at_app _ _ _ _ H1) as H2. split_and!; [done|done|by apply string_at_app in H2]. Qed.
Lemma body_start b r : sign = [] → body = b :: r → isspace b = false ∧ b ≠ 43 ∧ b ≠ 45.
Proof.
  intros Hsg Hb. destruct body_string as (_ & Hbody & _). unfold body in Hbody. assert (0 < b < 256) as Hbb by (eapply (string_at_nonzero _ _ _ _ Hbody); unfold body in Hb; rewrite Hb; by left).
  unfold body in Hb. destruct (nu_prefix _ _ _ _ _ _ _ _ Hnum) as [(x & Hpf & _)|(Hpf & _)]; rewrite Hpf in Hb; cbn in Hb; [injection Hb as <- _; split; [done|lia]|].
  pose proof (nu_digits _ _ _ _ _ _ _ _ Hnum) as Hd. destruct digits as [|b' digits'] eqn:Hdg; cbn in Hb; [by eapply (nu_start _ _ _ _ _ _ _ _ Hnum)|].
  apply Forall2_cons_inv_l in Hd as (d & ? & Hd & _). injection Hb as <- _. by eapply digit_not_special.
Qed.
Lemma spaces_skipped fuel : (length spaces < fuel)%nat → skip_spaces fuel m s = Some (m p, p + 1).
Proof.
  intros Hf. apply (skip_spaces_spec fuel m s spaces (sign ++ body)); [done|apply Hnum| |done]. intros b r Hb.
  destruct (nu_sign _ _ _ _ _ _ _ _ Hnum) as [Hsg|[Hsg|Hsg]]; rewrite Hsg in Hb; cbn in Hb; [|by injection Hb as <-..]. by eapply body_start.
Qed.
Lemma sign_read : read_sign m (m p) (p + 1) = (bool_decide (sign = [45]), m q, q + 1).
Proof.
  destruct body_string as (Hp & Hq & _). unfold read_sign, q. destruct (nu_sign _ _ _ _ _ _ _ _ Hnum) as [Hsg|[Hsg|Hsg]]; rewrite Hsg in Hp |- *; cbn [length app] in Hp |- *.
  - rewrite Z.add_0_r. assert (m p ≠ 43 ∧ m p ≠ 45) as [H1 H2].
    { destruct body as [|b r] eqn:Hb; cbn in Hp; [by rewrite Hp|]. destruct Hp as (-> & _). by apply (body_start b r Hsg). }
    by rewrite (proj2 (Z.eqb_neq _ 45)), (proj2 (Z.eqb_neq _ 43)) by done.
  - by destruct Hp as (-> & _).
  - by destruct Hp as (-> & _).
Qed.
Lemma base_read : read_base m base (m q) (q + 1) = (radix, m (q + zlen prefix), q + zlen prefix + 1).
Proof.
  destruct body_string as (_ & Hq & _). unfold read_base. destruct (nu_prefix _ _ _ _ _ _ _ _ Hnum) as [(x & Hpf & Hx & Hb & Hrx)|(Hpf & Hrx & Hhex)]; unfold body in Hq; rewrite Hpf in Hq |- *; rewrite Hrx; cbn [length app] in Hq |- *.
  - destruct Hq as (-> & _ & Hx1 & _). rewrite Hx1. assert (((base =? 0) || (base =? 16)) && (48 =? 48) && ((x =? 120) || (x =? 88)) = true) as ->.
    { destruct Hb as [->| ->], Hx as [->| ->]; done. } cbn. f_equal; [f_equal; f_equal; lia|lia].
  - rewrite Z.add_0_r. assert (((base =? 0) || (base =? 16)) && (m q =? 48) && ((m (q + 1) =? 120) || (m (q + 1) =? 88)) = false) as ->.
    { apply not_true_iff_false. rewrite !andb_true_iff, !orb_true_iff, !Z.eqb_eq. intros [[Hb H0] Hx]. apply Hhex; [lia|]. destruct (digits ++ rest) as [|b [|x r]]; cbn in Hq; [lia| |].
      - destruct Hq as (_ & _ & Hq). lia.
      - exists x, r. destruct Hq as (Hq & _ & Hq' & _). split; [congruence|lia]. }
    unfold plain_radix. f_equal. f_equal. destruct (base =? 0); [|done]. destruct (digits ++ rest) as [|b r]; cbn in Hq; [by rewrite Hq|]. destruct Hq as (-> & _ & _).
    destruct (Z.eqb_spec b 48) as [->|Hne]; [done|]. repeat case_match; done.
Qed.

Lemma convert_numeral limit overflow fuel : 0 ≤ limit (bool_decide (sign = [45])) < 2 ^ 64 → (length spaces + length digits < fuel)%nat →
  let neg := bool_decide (sign = [45]) in
  let v := digits_value radix ds in
  let e := s + zlen spaces + zlen sign + zlen prefix + zlen digits in
  convert limit overflow fuel m s base = Some (
    if bool_decide (digits = []) then {| cv_value := 0; cv_end := s; cv_errno := None |}
    else if limit neg <? v then {| cv_value := wrap (overflow neg); cv_end := e; cv_errno := Some ERANGE |}
    else {| cv_value := if neg then wrap (- v) else v; cv_end := e; cv_errno := None |}).
Proof.
  intros Hlim Hf neg v e. destruct body_string as (_ & _ & Hd). unfold convert. rewrite (proj2 (Z.ltb_ge base 0)), (proj2 (Z.ltb_ge 36 base)), (proj2 (Z.eqb_neq base 1)) by (destruct (nu_base _ _ _ _ _ _ _ _ Hnum); lia).
  cbn [orb]. rewrite spaces_skipped by lia. cbn [mbind option_bind]. rewrite sign_read, base_read. fold neg. pose proof (numeral_radix _ _ _ _ _ _ _ _ Hnum) as Hr. pose proof (nu_digits _ _ _ _ _ _ _ _ Hnum) as Hds.
  rewrite (digit_loop_spec fuel m (q + zlen prefix) radix (limit neg) digits ds rest) by (done || lia || apply Hnum). cbn [mbind option_bind].
  destruct (bool_decide_reflect (digits = [])) as [Hnil|Hne].
  { rewrite Hnil in Hds |- *. apply Forall2_nil_inv_l in Hds as ->. cbn. by destruct neg. }
  assert (Forall (λ d, 0 ≤ d < radix) ds) as Hbounds.
  { apply string_at_forall, Forall_app in Hd as [Hd _]. clear -Hd Hds. induction Hds as [|b d bs ds [Hb Hlt] _ IH]; [done|]. apply Forall_cons in Hd as [Hb' Hd]. constructor; [|by apply IH]. apply digit_value_range in Hb; lia. }
  pose proof (step_digits_spec radix (limit neg) ds Hr Hlim Hbounds) as Hstep. cbv zeta in Hstep. fold v in Hstep.
  assert (ds ≠ []) as Hne' by (intros Hnil; rewrite Hnil in Hds; by apply Forall2_nil_inv_r in Hds). specialize (Hstep Hne'). destruct (limit neg <? v).
  - destruct (step_digits _ _ _ _) as [acc any]. cbn in Hstep. subst any. cbn. do 2 f_equal. unfold e, q, p. lia.
  - rewrite Hstep. cbn. do 2 f_equal; unfold e, q, p; lia.
Qed.
End numeral.

Definition end_of (s : Z) (spaces sign prefix digits : list Z) : Z := s + zlen spaces + zlen sign + zlen prefix + zlen digits.
Lemma to_signed_64_small v : LONG_MIN ≤ v ≤ LONG_MAX → to_signed 64 (wrap v) = v.
Proof.
  unfold LONG_MIN, LONG_MAX, to_signed, wrap. intros Hv. rewrite Z.mod_mod by lia. destruct (decide (0 ≤ v)).
  - rewrite (Z.mod_small v) by lia. repeat case_match; lia.
  - rewrite <-(Z.mod_add v 1), Z.mod_small by lia. repeat case_match; lia.
Qed.

Definition apply_sign (neg : bool) (v : Z) : Z := if neg then - v else v.
(** The values the limits of [long] and of [unsigned long] give. *)
Lemma long_result (neg : bool) (a e : Z) : 0 ≤ a → let v := apply_sign neg a in
  as_long (if (if neg then usub LONG_MAX (wrap (LONG_MIN + LONG_MAX)) else LONG_MAX) <? a
           then {| cv_value := wrap (if neg then LONG_MIN else LONG_MAX); cv_end := e; cv_errno := Some ERANGE |}
           else {| cv_value := if neg then wrap (- a) else a; cv_end := e; cv_errno := None |}) =
  {| cv_value := Z.max LONG_MIN (Z.min LONG_MAX v); cv_end := e; cv_errno := if bool_decide (LONG_MIN ≤ v ≤ LONG_MAX) then None else Some ERANGE |}.
Proof.
  intros Ha v. change (usub LONG_MAX (wrap (LONG_MIN + LONG_MAX))) with (2 ^ 63). unfold as_long, v, apply_sign. destruct neg.
  - destruct (Z.ltb_spec (2 ^ 63) a); cbn [cv_value cv_end cv_errno]; [rewrite bool_decide_eq_false_2 by (unfold LONG_MIN; lia)|rewrite bool_decide_eq_true_2 by (unfold LONG_MIN, LONG_MAX; lia)];
      rewrite to_signed_64_small by (unfold LONG_MIN, LONG_MAX; lia); f_equal; unfold LONG_MIN, LONG_MAX; lia.
  - destruct (Z.ltb_spec LONG_MAX a); cbn [cv_value cv_end cv_errno]; [rewrite bool_decide_eq_false_2 by lia|rewrite bool_decide_eq_true_2 by (unfold LONG_MIN; lia); rewrite <-(wrap_small a) at 1 by (unfold in_usize, LONG_MAX in *; lia)];
      rewrite to_signed_64_small by (unfold LONG_MIN, LONG_MAX in *; lia); f_equal; unfold LONG_MIN, LONG_MAX in *; lia.
Qed.
Lemma ulong_result (neg : bool) (a e : Z) : 0 ≤ a → let v := apply_sign neg a in
  (if ULONG_MAX <? a then {| cv_value := wrap ULONG_MAX; cv_end := e; cv_errno := Some ERANGE |}
   else {| cv_value := if neg then wrap (- a) else a; cv_end := e; cv_errno := None |}) =
  if bool_decide (Z.abs v ≤ ULONG_MAX) then {| cv_value := v mod 2 ^ 64; cv_end := e; cv_errno := None |}
  else {| cv_value := ULONG_MAX; cv_end := e; cv_errno := Some ERANGE |}.
Proof.
  intros Ha v. unfold v, apply_sign. destruct (Z.ltb_spec ULONG_MAX a).
  - by rewrite bool_decide_eq_false_2 by (destruct neg; lia).
  - rewrite bool_decide_eq_true_2 by (destruct neg; lia). f_equal. destruct neg; [done|]. by rewrite Z.mod_small by (unfold ULONG_MAX in *; lia).
Qed.
Lemma numeral_value_nonneg base spaces sign prefix digits rest ds radix m s : numeral base spaces sign prefix digits rest ds radix →
  string_at m s (spaces ++ sign ++ prefix ++ digits ++ rest) → 0 ≤ digits_value radix ds.
Proof.
  intros Hn Hs. pose proof (numeral_radix _ _ _ _ _ _ _ _ Hn). apply digits_value_nonneg; [lia|]. pose proof (nu_digits _ _ _ _ _ _ _ _ Hn) as Hd.
  apply string_at_forall in Hs. rewrite !Forall_app in Hs. destruct Hs as (_ & _ & _ & Hs & _). clear -Hs Hd. induction Hd as [|b d bs ds [Hb _] _ IH]; [done|].
  apply Forall_cons in Hs as [Hb' Hs]. constructor; [apply digit_value_range in Hb; lia|by apply IH].
Qed.

Lemma strtol_spec base spaces sign prefix digits rest ds radix fuel m s :
  numeral base spaces sign prefix digits rest ds radix →
  string_at m s (spaces ++ sign ++ prefix ++ digits ++ rest) → (length spaces + length digits < fuel)%nat →
  let v := apply_sign (bool_decide (sign = [45])) (digits_value radix ds) in
  let e := end_of s spaces sign prefix digits in
  let long := if bool_decide (digits = []) then {| cv_value := 0; cv_end := s; cv_errno := None |}
    else {| cv_value := Z.max LONG_MIN (Z.min LONG_MAX v); cv_end := e; cv_errno := if bool_decide (LONG_MIN ≤ v ≤ LONG_MAX) then None else Some ERANGE |} in
  let ulong := if bool_decide (digits = []) then {| cv_value := 0; cv_end := s; cv_errno := None |}
    else if bool_decide (Z.abs v ≤ ULONG_MAX) then {| cv_value := v mod 2 ^ 64; cv_end := e; cv_errno := None |}
    else {| cv_value := ULONG_MAX; cv_end := e; cv_errno := Some ERANGE |} in
  strtol fuel m s base = Some long ∧ strtoll fuel m s base = Some long ∧
  strtoul fuel m s base = Some ulong ∧ strtoull fuel m s base = Some ulong.
Proof.
  intros Hn Hs Hf v e long ulong. pose proof (numeral_value_nonneg _ _ _ _ _ _ _ _ _ _ Hn Hs) as Hv.
  assert (strtol fuel m s base = Some long) as Hl.
  { unfold strtol. rewrite (convert_numeral base spaces sign prefix digits rest ds radix Hn m s Hs) by (try done; by destruct (bool_decide (sign = [45]))). cbn [fmap option_fmap option_map]. f_equal. unfold long.
    destruct (bool_decide (digits = [])); [done|]. by apply long_result. }
  assert (strtoul fuel m s base = Some ulong) as Hu; [|by split_and!].
  unfold strtoul. rewrite (convert_numeral base spaces sign prefix digits rest ds radix Hn m s Hs) by (try done; by destruct (bool_decide (sign = [45]))). f_equal. unfold ulong.
  destruct (bool_decide (digits = [])); [done|]. by apply ulong_result.
Qed.

(** a string of spaces, an optional sign, an optional prefix of base 16, digits of the base and anything after them is
    converted to the value of the digits, for every base from 2 to 36 and for base 0, and [endptr] is set to the first character after
    the digits. [strtol] and [strtoll] return the value when a [long] has it, and otherwise the nearest [long] and [ERANGE];
    [strtoul] and [strtoull] return the value modulo 2^64, or the largest [unsigned long] and [ERANGE] when the magnitude does not fit.
    A string without digits is not converted: the result is zero and [endptr] the start. *)
Theorem strtol_exact base spaces sign prefix digits rest ds radix fuel m s :
  numeral base spaces sign prefix digits rest ds radix →
  string_at m s (spaces ++ sign ++ prefix ++ digits ++ rest) → (length spaces + length digits < fuel)%nat →
  let v := apply_sign (bool_decide (sign = [45])) (digits_value radix ds) in
  let e := end_of s spaces sign prefix digits in
  let long := if bool_decide (digits = []) then {| cv_value := 0; cv_end := s; cv_errno := None |}
    else {| cv_value := Z.max LONG_MIN (Z.min LONG_MAX v); cv_end := e; cv_errno := if bool_decide (LONG_MIN ≤ v ≤ LONG_MAX) then None else Some ERANGE |} in
  let ulong := if bool_decide (digits = []) then {| cv_value := 0; cv_end := s; cv_errno := None |}
    else if bool_decide (Z.abs v ≤ ULONG_MAX) then {| cv_value := v mod 2 ^ 64; cv_end := e; cv_errno := None |}
    else {| cv_value := ULONG_MAX; cv_end := e; cv_errno := Some ERANGE |} in
  strtol fuel m s base = Some long ∧ strtoll fuel m s base = Some long ∧
  strtoul fuel m s base = Some ulong ∧ strtoull fuel m s base = Some ulong.
Proof. intros Hn Hs Hf. exact (strtol_spec base spaces sign prefix digits rest ds radix fuel m s Hn Hs Hf). Qed.
