(* ===== verification/CMalloc.v ===== *)
(** [malloc], [free], [calloc] and [realloc] of the C library over the kernel heap:
    [ulib/axlibc/src/malloc.rs] and the allocation part of [ulib/axlibc/c/stdlib.c].

    A block of the C program is a block of the byte allocator of [Axalloc.v] with 8 bytes
    in front that hold its size.  [None] stands for a run without a result: the allocator's
    loop is still running, or the code has no defined behaviour. *)

From stdpp Require Import prelude list.
From Stdlib Require Import ZArith Lia.
From S2P Require Import Prelude Bump Axalloc CString CStringProps.
Local Open Scope Z_scope.

(** ** Words in memory *)

Fixpoint load_le (n : nat) (m : memory) (p : Z) : Z :=
  match n with
  | O => 0
  | S n => m p + 256 * load_le n m (p + 1)
  end.
Fixpoint store_le (n : nat) (m : memory) (p v : Z) : memory :=
  match n with
  | O => m
  | S n => store_le n (store m p v) (p + 1) (v / 256)
  end.
(** [*(size_t * )p] and [*(size_t * )p = v]. *)
Definition load64 (m : memory) (p : Z) : Z := load_le 8 m p.
Definition store64 (m : memory) (p v : Z) : memory := store_le 8 m p v.

Lemma store_le_other n m p v x : ¬ (p ≤ x < p + Z.of_nat n) → store_le n m p v x = m x.
Proof.
  revert m p v. induction n as [|n IH]; intros m p v Hx; [done|]. cbn [store_le]. rewrite IH by lia. unfold store. by rewrite (proj2 (Z.eqb_neq x p)) by lia.
Qed.
Lemma load_le_ext n m m' p : (∀ x, p ≤ x < p + Z.of_nat n → m x = m' x) → load_le n m p = load_le n m' p.
Proof. revert p. induction n as [|n IH]; intros p He; [done|]. cbn [load_le]. rewrite He, IH by (intros; (apply He || idtac); lia). done. Qed.
Lemma load_store_le n m p v : load_le n (store_le n m p v) p = v mod 256 ^ Z.of_nat n.
Proof.
  revert m p v. induction n as [|n IH]; intros m p v; [by rewrite Z.mod_1_r|]. cbn [load_le store_le]. rewrite IH, store_le_other by lia. unfold store. rewrite Z.eqb_refl.
  rewrite Nat2Z.inj_succ, Z.pow_succ_r by lia. rewrite Z.rem_mul_r by lia. done.
Qed.
Lemma load_store64 m p v : in_usize v → load64 (store64 m p v) p = v.
Proof. intros Hv. unfold load64, store64. rewrite load_store_le. apply Z.mod_small. unfold in_usize in Hv. exact Hv. Qed.

(** ** The functions *)

Definition CTRL_BLK_SIZE : Z := 8.

Section malloc.
Context {B P : Type} `{ByteAllocator B, PageAllocator P}.

Record cheap : Type := { ch_mem : memory; ch_alloc : GlobalAllocator B P }.

(** [Layout::from_size_align(size + CTRL_BLK_SIZE, 8).unwrap()]. *)
Definition block_layout (size : Z) : outcome Layout :=
  let n := uadd size CTRL_BLK_SIZE in
  if 2 ^ 63 - 1 - (8 - 1) <? n then Panic else Ret {| layout_size := n; layout_align := 8 |}.
Definition malloc (size : Z) (s : cheap) : option (outcome (Z * cheap)) :=
  match block_layout size with
  | Panic => Some Panic
  | Ret layout =>
      r ← GlobalAlloc_alloc layout (ch_alloc s);
      Some (match r.1 with
      | Panic => Panic
      | Ret ptr =>
          if ptr =? 0 then Panic
          else Ret (ptr + CTRL_BLK_SIZE, {| ch_mem := store64 (ch_mem s) ptr size; ch_alloc := r.2 |})
      end)
  end.
Definition free (ptr : Z) (s : cheap) : outcome cheap :=
  if ptr =? 0 then Ret s
  else if ptr <=? CTRL_BLK_SIZE then Panic
  else
    let ptr := ptr - CTRL_BLK_SIZE in
    match block_layout (load64 (ch_mem s) ptr) with
    | Panic => Panic
    | Ret layout =>
        match GlobalAlloc_dealloc ptr layout (ch_alloc s) with
        | Panic => Panic
        | Ret g => Ret {| ch_mem := ch_mem s; ch_alloc := g |}
        end
    end.

Definition calloc (m n : Z) (s : cheap) : option (outcome (Z * cheap)) :=
  o ← malloc (umul m n) s;
  Some (match o with
  | Panic => Panic
  | Ret (mem, s) => Ret (mem, {| ch_mem := memset (ch_mem s) mem 0 (umul n m); ch_alloc := ch_alloc s |})
  end).
(** The index of the loop is an [int]. *)
Definition realloc (memblock size : Z) (s : cheap) : option (outcome (Z * cheap)) :=
  if memblock =? 0 then malloc size s
  else
    let o_size := load64 (ch_mem s) (memblock - 8) in
    o ← malloc size s;
    match o with
    | Panic => Some Panic
    | Ret (mem, s) =>
        let n := if o_size <? size then o_size else size in
        if 2 ^ 31 <=? n then None
        else
          Some (match free memblock {| ch_mem := copy_loop (Z.to_nat n) (ch_mem s) mem memblock; ch_alloc := ch_alloc s |} with
          | Panic => Panic
          | Ret s => Ret (mem, s)
          end)
    end.
End malloc.
Arguments cheap : clear implicits.

(** ** The blocks of a C program *)

(** The range of the byte allocator a block with its header takes. *)
Definition whole (b : Z * Z) : range := (b.1 - CTRL_BLK_SIZE, b.2 + CTRL_BLK_SIZE).

#[export] Instance whole_disjoint_sym : Symmetric (λ b1 b2, ranges_disjoint (whole b1) (whole b2)).
Proof. intros b1 b2 Hd. by symmetry. Qed.

Section malloc_proofs.
Context {B P : Type} `{ByteAllocatorLaws B, PageAllocatorLaws P}.
Implicit Types (s : cheap B P) (live : list (Z * Z)).

(** A live block of the program: its header holds its size. *)
Record block_ok (m : memory) (b : Z * Z) : Prop := {
  bo_start : CTRL_BLK_SIZE < b.1;
  bo_size : 0 ≤ b.2 ∧ b.2 + 16 ≤ 2 ^ 63;
  bo_end : b.1 + b.2 < 2 ^ 64;
  bo_header : load64 m (b.1 - CTRL_BLK_SIZE) = b.2;
}.
(** [live] are the blocks of the program, [cp] the pages and [others] the blocks of the rest of the kernel. *)
Record c_inv (cp : list (Z * Z)) (live : list (Z * Z)) s : Prop := {
  ci_heap : ga_inv {| galloc := ch_alloc s; client_pages := cp |};
  ci_bytes : byte_memory (ch_mem s);
  ci_blocks : ∃ others, balloc_blocks (balloc (ch_alloc s)) ≡ₚ (whole <$> live) ++ others;
  ci_live b : b ∈ live → block_ok (ch_mem s) b;
}.

Lemma block_bounds cp (g : GlobalAllocator B P) a n : ga_inv {| galloc := g; client_pages := cp |} → (a, n) ∈ balloc_blocks (balloc g) → 0 < n → 0 ≤ a ∧ a + n < 2 ^ 64.
Proof.
  intros Hi Hin Hn. destruct (ga_blocks _ Hi _ Hin) as (rg & Hrg & Hw). destruct (ga_pages _ Hi) as (heap & leaked & Hp & Hr). cbn in *. rewrite Hr in Hrg. apply list_elem_of_fmap in Hrg as (hb & -> & Hhb).
  assert (range_within (a, n) (palloc_arena (palloc g))) as Har.
  { intros x Hx%Hw. apply (ga_arena _ Hi hb); [|done]. cbn. rewrite Hp. set_solver. }
  pose proof (palloc_arena_law _ (ga_pok _ Hi)) as Hb. cbn in Hb. unfold usize_mod in Hb. pose proof (Har a) as Ha1. pose proof (Har (a + n - 1)) as Ha2. unfold covers in *. cbn in *. lia.
Qed.
Lemma live_disjoint cp live s : c_inv cp live s → pairwise (λ b1 b2, ranges_disjoint (whole b1) (whole b2)) live.
Proof.
  intros Hi. destruct (ci_blocks _ _ _ Hi) as (others & Hb). pose proof (pairwise_perm _ _ _ Hb (ga_blocks_disjoint _ (ci_heap _ _ _ Hi))) as Hp. apply pairwise_app_l in Hp. clear -Hp.
  induction live as [|b live IH]; [constructor|]. cbn in Hp. apply pairwise_cons in Hp as [Hp1 Hp2]. apply pairwise_cons. split; [|by apply IH]. intros b' Hb'. apply Hp1, list_elem_of_fmap. by exists b'.
Qed.
(** Memory may change outside the headers. *)
Lemma block_ok_frame m m' b : (∀ x, covers (b.1 - CTRL_BLK_SIZE, CTRL_BLK_SIZE) x → m' x = m x) → block_ok m b → block_ok m' b.
Proof.
  intros He [Hb1 Hb2 Hb3 Hb4]. split; [done..|]. rewrite <-Hb4. apply load_le_ext. intros x Hx. apply He. unfold covers. cbn. unfold CTRL_BLK_SIZE in *. lia.
Qed.
Lemma store_le_bytes n m p v : byte_memory m → byte_memory (store_le n m p v).
Proof. revert m p v. induction n as [|n IH]; intros m p v Hm; [done|]. cbn [store_le]. by apply IH, store_bytes. Qed.

Lemma block_layout_ok size : 0 ≤ size → size + 16 ≤ 2 ^ 63 → block_layout size = Ret {| layout_size := size + CTRL_BLK_SIZE; layout_align := 8 |} ∧
  layout_valid {| layout_size := size + CTRL_BLK_SIZE; layout_align := 8 |}.
Proof.
  intros Hsz Hs. unfold block_layout, CTRL_BLK_SIZE. rewrite uadd_small by lia. rewrite (proj2 (Z.ltb_ge _ _)) by lia. split; [done|]. split; [by exists 3|]. cbn. lia.
Qed.

Definition malloc_result cp live (size : Z) s (o : outcome (Z * cheap B P)) : Prop :=
  match o with
  | Panic => True
  | Ret (p, s') => c_inv cp ((p, size) :: live) s' ∧ p mod 8 = 0 ∧ (∀ b, b ∈ live → ranges_disjoint (whole b) (whole (p, size))) ∧
      ∀ x, ¬ covers (p - CTRL_BLK_SIZE, CTRL_BLK_SIZE) x → ch_mem s' x = ch_mem s x
  end.
Lemma malloc_ok cp live s size : c_inv cp live s → 0 ≤ size → size + 16 ≤ 2 ^ 63 → ∃ o, malloc size s = Some o ∧ malloc_result cp live size s o.
Proof.
  intros Hi Hsz Hs. unfold malloc. destruct (block_layout_ok size Hsz Hs) as [-> Hl]. unfold GlobalAlloc_alloc. destruct (alloc_ok _ _ cp (ci_heap _ _ _ Hi) Hl) as (r & g' & -> & Hg & Hres). cbn [mbind option_bind fst snd].
  eexists. split; [done|]. destruct r as [ptr|e]; cbn [unwrap]; [|done]. destruct (Z.eqb_spec ptr 0) as [|Hne]; [done|]. cbn [alloc_result layout_size layout_align] in Hres. destruct Hres as [Hal Hb].
  assert (0 ≤ ptr ∧ ptr + (size + CTRL_BLK_SIZE) < 2 ^ 64) as Hbounds.
  { apply (block_bounds cp g'); [done| |unfold CTRL_BLK_SIZE; lia]. rewrite Hb. by left. }
  assert (∀ b, b ∈ live → ranges_disjoint (whole b) (ptr, size + CTRL_BLK_SIZE)) as Hdis.
  { intros b Hin. pose proof (ga_blocks_disjoint _ Hg) as Hp. cbn in Hp. rewrite Hb in Hp. apply pairwise_cons in Hp as [Hp _]. symmetry. apply Hp. destruct (ci_blocks _ _ _ Hi) as (others & ->). apply elem_of_app. left. apply list_elem_of_fmap. by exists b. }
  assert (∀ x, ¬ covers (ptr, CTRL_BLK_SIZE) x → store64 (ch_mem s) ptr size x = ch_mem s x) as Hframe.
  { intros x Hx. apply store_le_other. exact Hx. }
  cbn [malloc_result ch_mem]. replace (ptr + CTRL_BLK_SIZE - CTRL_BLK_SIZE) with ptr by lia. unfold whole at 2. cbn [fst snd]. replace (ptr + CTRL_BLK_SIZE - CTRL_BLK_SIZE) with ptr by lia. split_and!.
  - split; cbn [ch_mem ch_alloc].
    + done.
    + by apply store_le_bytes, Hi.
    + destruct (ci_blocks _ _ _ Hi) as (others & Hperm). exists others. rewrite Hb, Hperm. cbn. unfold whole at 2. cbn. by replace (ptr + CTRL_BLK_SIZE - CTRL_BLK_SIZE) with ptr by lia.
    + intros b [->|Hin]%elem_of_cons.
      * split; cbn [fst snd]; [unfold CTRL_BLK_SIZE; lia|lia|lia|]. replace (ptr + CTRL_BLK_SIZE - CTRL_BLK_SIZE) with ptr by lia. apply load_store64. unfold in_usize, usize_mod. lia.
      * apply (block_ok_frame (ch_mem s)); [|by apply Hi]. intros x Hx. apply Hframe. intros Hx'. pose proof (ci_live _ _ _ Hi b Hin) as [_ Hbsz _ _].
        apply (Hdis b Hin x); unfold covers, whole, CTRL_BLK_SIZE in *; cbn in *; lia.
  - unfold CTRL_BLK_SIZE. by rewrite <-Z.add_mod_idemp_r, Z.mod_same, Z.add_0_r by lia.
  - done.
  - done.
Qed.

Lemma free_ok cp live live' s p n : c_inv cp live s → live ≡ₚ (p, n) :: live' →
  ∃ s', free p s = Ret s' ∧ c_inv cp live' s' ∧ ch_mem s' = ch_mem s.
Proof.
  intros Hi Hp. assert ((p, n) ∈ live) as Hin by (rewrite Hp; by left). destruct (ci_live _ _ _ Hi _ Hin) as [Hst [Hn Hn'] Hend Hhd]. cbn [fst snd] in *.
  destruct (ci_blocks _ _ _ Hi) as (others & Hb). unfold free. rewrite (proj2 (Z.eqb_neq p 0)), (proj2 (Z.leb_gt p CTRL_BLK_SIZE)) by (unfold CTRL_BLK_SIZE in *; lia).
  cbv zeta. rewrite Hhd. destruct (block_layout_ok n Hn Hn') as [-> Hl]. unfold GlobalAlloc_dealloc. rewrite (proj2 (Z.eqb_neq (p - CTRL_BLK_SIZE) 0)) by lia.
  assert ((p - CTRL_BLK_SIZE, n + CTRL_BLK_SIZE) ∈ balloc_blocks (balloc (ch_alloc s))) as Hblk.
  { rewrite Hb. apply elem_of_app. left. apply list_elem_of_fmap. by exists (p, n). }
  set (layout := {| layout_size := n + CTRL_BLK_SIZE; layout_align := 8 |}) in *. eexists. split; [done|]. split; [|done].
  destruct (balloc_dealloc_law (p - CTRL_BLK_SIZE) layout _ (ga_bok _ (ci_heap _ _ _ Hi)) Hblk) as (_ & _ & Hperm).
  split; cbn [ch_mem ch_alloc].
  - by apply inv_dealloc; [apply Hi|].
  - apply Hi.
  - exists others. apply (Permutation_cons_inv (a := (p - CTRL_BLK_SIZE, n + CTRL_BLK_SIZE))). change (n + CTRL_BLK_SIZE) with (layout_size layout) at 1. cbn [dealloc set_balloc balloc ch_alloc galloc] in *. rewrite <-Hperm, Hb, Hp. done.
  - intros b Hbin. apply Hi. rewrite Hp. by right.
Qed.

(** Changes of memory outside the headers, such as the program's own writes to its blocks. *)
Lemma c_inv_mem cp live s m' : c_inv cp live s → byte_memory m' → (∀ b x, b ∈ live → covers (b.1 - CTRL_BLK_SIZE, CTRL_BLK_SIZE) x → m' x = ch_mem s x) →
  c_inv cp live {| ch_mem := m'; ch_alloc := ch_alloc s |}.
Proof.
  intros Hi Hm He. split; cbn [ch_mem ch_alloc]; [apply Hi|done|apply Hi|]. intros b Hin. apply (block_ok_frame (ch_mem s)); [|by apply Hi]. intros x. by apply He.
Qed.
(** The bytes of a block are outside all headers. *)
Lemma payload_not_header cp live s b b' x : c_inv cp live s → b ∈ live → b' ∈ live → covers b x → covers (b'.1 - CTRL_BLK_SIZE, CTRL_BLK_SIZE) x → False.
Proof.
  intros Hi Hb Hb' Hx Hx'. destruct (decide (b = b')) as [->|Hne]; [unfold covers in *; cbn in *; lia|].
  pose proof (ci_live _ _ _ Hi b' Hb') as [_ [Hsz _] _ _]. pose proof (live_disjoint _ _ _ Hi) as Hd.
  apply list_elem_of_split in Hb as (l1 & l2 & ->). rewrite <-(Permutation_middle l1 l2 b) in Hb'. apply elem_of_cons in Hb' as [->|Hb']; [done|].
  assert (pairwise (λ b1 b2, ranges_disjoint (whole b1) (whole b2)) (b :: l1 ++ l2)) as Hd'.
  { by apply (pairwise_perm _ (l1 ++ b :: l2)); [rewrite Permutation_middle|]. }
  apply pairwise_cons in Hd' as [Hd' _]. apply (Hd' b' Hb' x); unfold covers, whole, CTRL_BLK_SIZE in *; cbn in *; lia.
Qed.
Lemma payload_change cp live s b m' : c_inv cp live s → b ∈ live → byte_memory m' → (∀ x, ¬ covers b x → m' x = ch_mem s x) → c_inv cp live {| ch_mem := m'; ch_alloc := ch_alloc s |}.
Proof.
  intros Hi Hb Hm He. apply c_inv_mem; [done|done|]. intros b' x Hb' Hx. apply He. intros Hx'. by apply (payload_not_header cp live s b b' x).
Qed.

Definition same_payload (b : Z * Z) (m m' : memory) : Prop := ∀ x, covers b x → m' x = m x.
Lemma malloc_payloads cp live size s p s' b : c_inv cp live s → malloc_result cp live size s (Ret (p, s')) → 0 ≤ size → b ∈ live → same_payload b (ch_mem s) (ch_mem s').
Proof.
  intros Hi (_ & _ & Hdis & Hmem) Hs Hb x Hx. apply Hmem. intros Hx'. pose proof (ci_live _ _ _ Hi b Hb) as [_ [Hsz _] _ _].
  apply (Hdis b Hb x); unfold covers, whole, CTRL_BLK_SIZE in *; cbn in *; lia.
Qed.

Lemma calloc_ok cp live s m n : c_inv cp live s → 0 ≤ m → 0 ≤ n → m * n + 16 ≤ 2 ^ 63 → ∃ o, calloc m n s = Some o ∧
  match o with
  | Panic => True
  | Ret (p, s') => c_inv cp ((p, m * n) :: live) s' ∧ (∀ b, b ∈ live → same_payload b (ch_mem s) (ch_mem s')) ∧ ∀ x, covers (p, m * n) x → ch_mem s' x = 0
  end.
Proof.
  intros Hi Hm Hn Hmn. unfold calloc. assert (umul m n = m * n) as -> by (apply wrap_small; unfold in_usize; nia). assert (umul n m = m * n) as -> by (unfold umul; rewrite Z.mul_comm; apply wrap_small; unfold in_usize; nia).
  destruct (malloc_ok cp live s (m * n) Hi ltac:(nia) Hmn) as (o & -> & Ho). cbn [mbind option_bind]. eexists. split; [done|]. destruct o as [[p s']|]; [|done].
  pose proof Ho as (Hi' & _ & Hdis & _). assert ((p, m * n) ∈ (p, m * n) :: live) as Hin by by left. pose proof (ci_live _ _ _ Hi' _ Hin) as [Hst Hsz Hend _]. cbn [fst snd] in *.
  assert (∀ x, memset (ch_mem s') p 0 (m * n) x = if decide (covers (p, m * n) x) then 0 else ch_mem s' x) as Hset.
  { intros x. rewrite memset_spec by (unfold CTRL_BLK_SIZE in *; lia). apply replaced_cases. }
  split_and!.
  - apply (payload_change cp _ s' (p, m * n)); [done|done| |].
    + intros x. rewrite Hset. destruct (decide _); [lia|]. apply Hi'.
    + intros x Hx. rewrite Hset. by rewrite decide_False.
  - intros b Hb x Hx. cbn [ch_mem]. rewrite Hset, decide_False; [apply (malloc_payloads cp live (m * n) s p s' b Hi Ho); [lia|done|done]|]. intros Hx'. pose proof (ci_live _ _ _ Hi b Hb) as [_ [Hbs _] _ _].
    apply (Hdis b Hb x); unfold covers, whole, CTRL_BLK_SIZE in *; cbn in *; lia.
  - intros x Hx. cbn [ch_mem]. rewrite Hset. by rewrite decide_True.
Qed.

(** The part of the old block that fits is in the new one; the old block is gone. *)
Lemma realloc_ok cp live live' s p n size : c_inv cp live s → live ≡ₚ (p, n) :: live' → 0 ≤ size → size + 16 ≤ 2 ^ 63 → Z.min n size < 2 ^ 31 →
  ∃ o, realloc p size s = Some o ∧
  match o with
  | Panic => True
  | Ret (q, s') => c_inv cp ((q, size) :: live') s' ∧ (∀ b, b ∈ live' → same_payload b (ch_mem s) (ch_mem s')) ∧ ∀ i, 0 ≤ i < Z.min n size → ch_mem s' (q + i) = ch_mem s (p + i)
  end.
Proof.
  intros Hi Hp Hs Hs' Hmin. assert ((p, n) ∈ live) as Hin by (rewrite Hp; by left). pose proof (ci_live _ _ _ Hi _ Hin) as [Hst [Hn Hn'] Hend Hhd]. cbn [fst snd] in *.
  unfold realloc. rewrite (proj2 (Z.eqb_neq p 0)) by (unfold CTRL_BLK_SIZE in *; lia). cbv zeta. change (p - 8) with (p - CTRL_BLK_SIZE). rewrite Hhd.
  destruct (malloc_ok cp live s size Hi Hs Hs') as (o & -> & Ho). cbn [mbind option_bind]. destruct o as [[q s1]|]; [|by eexists]. assert ((if n <? size then n else size) = Z.min n size) as -> by (case_Z1; lia).
  rewrite (proj2 (Z.leb_gt _ _)) by done. pose proof Ho as (Hi1 & _ & Hdis & _). assert ((q, size) ∈ (q, size) :: live) as Hq by by left.
  assert (∀ b, b ∈ live → ranges_disjoint b (q, size)) as Hdis'.
  { intros b Hb x Hx Hx'. pose proof (ci_live _ _ _ Hi b Hb) as [_ [Hbs _] _ _]. apply (Hdis b Hb x); unfold covers, whole, CTRL_BLK_SIZE in *; cbn in *; lia. }
  assert (Z.min n size = 0 ∨ q ≤ p ∨ p + Z.min n size ≤ q) as Hapart.
  { destruct (decide (Z.min n size = 0)); [by left|]. destruct (decide (q ≤ p)); [auto|]. destruct (decide (p + Z.min n size ≤ q)); [auto|]. destruct (Hdis' (p, n) Hin q); unfold covers; cbn; lia. }
  set (m' := copy_loop (Z.to_nat (Z.min n size)) (ch_mem s1) q p).
  assert (∀ x, m' x = if decide (q ≤ x < q + Z.min n size) then ch_mem s1 (p + (x - q)) else ch_mem s1 x) as Hm'.
  { intros x. unfold m'. destruct Hapart as [->|Hapart]; [cbn; rewrite decide_False by lia; done|]. rewrite copy_loop_spec, Z2Nat.id by (apply Hi1 || lia). apply replaced_cases. }
  assert (c_inv cp ((q, size) :: live) {| ch_mem := m'; ch_alloc := ch_alloc s1 |}) as Hi2.
  { apply (payload_change cp _ s1 (q, size)); [done|done| |].
    - intros x. rewrite Hm'. destruct (decide _); apply Hi1.
    - intros x Hx. rewrite Hm', decide_False; [done|]. unfold covers in Hx. cbn in Hx. lia. }
  destruct (free_ok cp ((q, size) :: live) ((q, size) :: live') _ p n Hi2) as (s' & -> & Hi3 & Hmem); [rewrite Hp; by apply Permutation_swap|]. eexists. split; [done|]. split_and!; [done|..].
  - intros b Hb x Hx. assert (b ∈ live) as Hbl by (rewrite Hp; by right). rewrite Hmem. cbn [ch_mem]. rewrite Hm', decide_False; [by apply (malloc_payloads cp live size s q s1 b Hi Ho)|].
    intros Hx'. apply (Hdis' b Hbl x Hx). unfold covers. cbn. lia.
  - intros i Hii. rewrite Hmem. cbn [ch_mem]. rewrite Hm', decide_True by lia. replace (q + i - q) with i by lia. apply (malloc_payloads cp live size s q s1 (p, n) Hi Ho Hs Hin). unfold covers. cbn. lia.
Qed.

(** ** Programs *)

(** What a C program does with its blocks. *)
Inductive c_step : list (Z * Z) * cheap B P → list (Z * Z) * cheap B P → Prop :=
| cs_malloc live s size p s' : 0 ≤ size → size + 16 ≤ 2 ^ 63 → malloc size s = Some (Ret (p, s')) → c_step (live, s) ((p, size) :: live, s')
| cs_calloc live s m n p s' : 0 ≤ m → 0 ≤ n → m * n + 16 ≤ 2 ^ 63 → calloc m n s = Some (Ret (p, s')) → c_step (live, s) ((p, m * n) :: live, s')
| cs_realloc live live' s p n size q s' : live ≡ₚ (p, n) :: live' → 0 ≤ size → size + 16 ≤ 2 ^ 63 → Z.min n size < 2 ^ 31 → realloc p size s = Some (Ret (q, s')) → c_step (live, s) ((q, size) :: live', s')
| cs_free live live' s p n s' : live ≡ₚ (p, n) :: live' → free p s = Ret s' → c_step (live, s) (live', s')
| cs_write live s b x v : b ∈ live → covers b x → c_step (live, s) (live, {| ch_mem := store (ch_mem s) x v; ch_alloc := ch_alloc s |}).

Lemma c_step_inv cp st st' : c_step st st' → c_inv cp st.1 st.2 → c_inv cp st'.1 st'.2.
Proof.
  intros Hst Hi. destruct Hst; cbn [fst snd] in *.
  - destruct (malloc_ok cp live s size) as (o & Ho & Hr); [done..|]. simplify_eq. apply Hr.
  - destruct (calloc_ok cp live s m n) as (o & Ho & Hr); [done..|]. simplify_eq. apply Hr.
  - destruct (realloc_ok cp live live' s p n size) as (o & Ho & Hr); [done..|]. simplify_eq. apply Hr.
  - destruct (free_ok cp live live' s p n) as (o & Ho & Hr & _); [done..|]. by assert (s' = o) as -> by congruence.
  - apply (payload_change cp live s b); [done|done|by apply store_bytes, Hi|]. intros y Hy. apply store_other. intros ->. done.
Qed.

Lemma c_reachable_inv cp live0 s0 live s : rtc c_step (live0, s0) (live, s) → c_inv cp live0 s0 → c_inv cp live s.
Proof.
  remember (live0, s0) as st0 eqn:E0. remember (live, s) as st eqn:E. intros Hst Hi. assert (c_inv cp st.1 st.2) as Hr; [|by subst st].
  replace live0 with st0.1 in Hi by by subst. replace s0 with st0.2 in Hi by by subst. clear -Hst Hi H0 H2. induction Hst as [|st1 st2 st3 Hs _ IH]; [done|]. by apply IH, (c_step_inv cp st1).
Qed.


(** Sizes are added and multiplied without a check: [malloc] of a size near 2^64 allocates a block of less than 8
    bytes whose header claims the size, and [calloc] of [m * n] wraps. *)
Theorem malloc_size_wraps size : 2 ^ 64 - 8 ≤ size < 2 ^ 64 → block_layout size = Ret {| layout_size := size + 8 - 2 ^ 64; layout_align := 8 |}.
Proof.
  intros Hs. unfold block_layout, CTRL_BLK_SIZE. assert (uadd size 8 = size + 8 - 2 ^ 64) as ->; [|by rewrite (proj2 (Z.ltb_ge _ _)) by lia].
  unfold uadd, wrap. rewrite <-(Z.mod_add _ (-1)), Z.mod_small by lia. lia.
Qed.
End malloc_proofs.
