(* ===== verification/CTime.v ===== *)
(** Broken-down time in the C library: [ulib/axlibc/c/time.c] ([__secs_to_tm], [gmtime_r],
    [localtime_r]) and [ulib/axlibc/src/mktime.rs] ([mktime]), against the calendar.

    C's [/] and [%] round towards zero ([Z.quot], [Z.rem]).  The loops of [mktime] over the
    years have fuel; [None] says that they are still running. *)

From stdpp Require Import prelude list.
From Stdlib Require Import ZArith Lia.
From S2P Require Import Prelude.
Local Open Scope Z_scope.

Record tm : Type := {
  tm_sec : Z; tm_min : Z; tm_hour : Z; tm_mday : Z; tm_mon : Z; tm_year : Z; tm_wday : Z; tm_yday : Z;
}.

Definition INT_MAX : Z := 2 ^ 31 - 1.
Definition INT_MIN : Z := - 2 ^ 31.
Definition LEAPOCH : Z := 946684800 + 86400 * (31 + 29).
Definition DAYS_PER_400Y : Z := 365 * 400 + 97.
Definition DAYS_PER_100Y : Z := 365 * 100 + 24.
Definition DAYS_PER_4Y : Z := 365 * 4 + 1.
(** From March on. *)
Definition days_in_month : list Z := [31; 30; 31; 30; 31; 31; 30; 31; 30; 31; 31; 29].

(** [for (months = 0; days_in_month[months] <= remdays; months++) remdays -= days_in_month[months];]. *)
Fixpoint month_loop (table : list Z) (months remdays : Z) : Z * Z :=
  match table with
  | [] => (months, remdays)
  | d :: table => if d <=? remdays then month_loop table (months + 1) (remdays - d) else (months, remdays)
  end.

(** [x / d] and [x % d], made to round down. *)
Definition floor_parts (x d : Z) : Z * Z :=
  let q := Z.quot x d in
  let r := Z.rem x d in
  if r <? 0 then (q - 1, r + d) else (q, r).
(** A quotient of days by a cycle, whose last cycle is longer. *)
Definition cycles (remdays per last : Z) : Z * Z :=
  let c := Z.quot remdays per in
  let c := if c =? last then c - 1 else c in
  (c, remdays - c * per).

Definition __secs_to_tm (t : Z) : option tm :=
  if (t <? INT_MIN * 31622400) || (INT_MAX * 31622400 <? t) then None
  else
    let secs := t - LEAPOCH in
    let '(days, remsecs) := floor_parts secs 86400 in
    let wday := Z.rem (3 + days) 7 in
    let wday := if wday <? 0 then wday + 7 else wday in
    let '(qc_cycles, remdays) := floor_parts days DAYS_PER_400Y in
    let '(c_cycles, remdays) := cycles remdays DAYS_PER_100Y 4 in
    let '(q_cycles, remdays) := cycles remdays DAYS_PER_4Y 25 in
    let '(remyears, remdays) := cycles remdays 365 4 in
    let leap := if (remyears =? 0) && (negb (q_cycles =? 0) || (c_cycles =? 0)) then 1 else 0 in
    let yday := remdays + 31 + 28 + leap in
    let yday := if 365 + leap <=? yday then yday - (365 + leap) else yday in
    let years := remyears + 4 * q_cycles + 100 * c_cycles + 400 * qc_cycles in
    let '(months, remdays) := month_loop days_in_month 0 remdays in
    let '(months, years) := if 10 <=? months then (months - 12, years + 1) else (months, years) in
    if (INT_MAX <? years + 100) || (years + 100 <? INT_MIN) then None
    else
      Some {| tm_year := years + 100; tm_mon := months + 2; tm_mday := remdays + 1; tm_wday := wday; tm_yday := yday;
              tm_hour := Z.quot remsecs 3600; tm_min := Z.rem (Z.quot remsecs 60) 60; tm_sec := Z.rem remsecs 60 |}.

(** [None]: the null pointer, with [errno] set to [EOVERFLOW].  Time zones are always UTC. *)
Definition gmtime_r (t : Z) : option tm := __secs_to_tm t.
Definition localtime_r (t : Z) : option tm :=
  if (t <? INT_MIN * 31622400) || (INT_MAX * 31622400 <? t) then None else __secs_to_tm t.

(** ** [mktime] *)

Definition MONTH_DAYS (leap : bool) : list Z := [31; if leap then 29 else 28; 31; 30; 31; 30; 31; 31; 30; 31; 30; 31].
Definition leap_year (year : Z) : bool := (Z.rem year 4 =? 0) && (negb (Z.rem year 100 =? 0) || (Z.rem year 400 =? 0)).
(** [MONTH_DAYS[leap][month as usize]]; an index out of range panics. *)
Definition month_days (leap : bool) (month : Z) : outcome Z :=
  if (month <? 0) then Panic else match MONTH_DAYS leap !! Z.to_nat month with Some d => Ret d | None => Panic end.
Definition year_days (year : Z) : Z := if leap_year year then 366 else 365.

Fixpoint years_up (fuel : nat) (year day : Z) : option Z :=
  if year <? 1969 then
    match fuel with
    | O => None
    | S fuel => years_up fuel (year + 1) (day + year_days (year + 1))
    end
  else Some day.
Fixpoint years_down (fuel : nat) (year day : Z) : option Z :=
  if 1970 <? year then
    match fuel with
    | O => None
    | S fuel => years_down fuel (year - 1) (day + year_days (year - 1))
    end
  else Some day.
Fixpoint months_up (fuel : nat) (leap : bool) (month day : Z) : option (outcome Z) :=
  if month <? 11 then
    match fuel with
    | O => None
    | S fuel =>
        match month_days leap (month + 1) with
        | Ret d => months_up fuel leap (month + 1) (day + d)
        | Panic => Some Panic
        end
    end
  else Some (Ret day).
Fixpoint months_down (fuel : nat) (leap : bool) (month day : Z) : option (outcome Z) :=
  if 0 <? month then
    match fuel with
    | O => None
    | S fuel =>
        match month_days leap (month - 1) with
        | Ret d => months_down fuel leap (month - 1) (day + d)
        | Panic => Some Panic
        end
    end
  else Some (Ret day).

Definition mktime (fuel : nat) (t : tm) : option (outcome Z) :=
  let year := to_signed 32 (tm_year t + 1900) in
  let month := tm_mon t in
  let day := tm_mday t - 1 in
  let leap := leap_year year in
  let secs := tm_hour t * (60 * 60) + tm_min t * 60 + tm_sec t in
  if year <? 1970 then
    match month_days leap month with
    | Panic => Some Panic
    | Ret d =>
        day ← years_up fuel year (d - day);
        o ← months_up fuel leap month day;
        Some (match o with Panic => Panic | Ret day => Ret (- (day * (60 * 60 * 24) - secs)) end)
    end
  else
    day ← years_down fuel year day;
    o ← months_down fuel leap month day;
    Some (match o with Panic => Panic | Ret day => Ret (day * (60 * 60 * 24) + secs) end).

(** * The calendar *)

Definition is_leap (y : Z) : bool := (y mod 4 =? 0) && (negb (y mod 100 =? 0) || (y mod 400 =? 0)).
Definition month_length (y mon : Z) : Z := default 0 ([31; if is_leap y then 29 else 28; 31; 30; 31; 30; 31; 31; 30; 31; 30; 31] !! Z.to_nat mon).
(** The days of the year [y] before its month [mon]. *)
Definition before_month (y mon : Z) : Z := foldr Z.add 0 (month_length y <$> seqZ 0 mon).
(** The number of leap years up to [y]. *)
Definition leaps (y : Z) : Z := y / 4 - y / 100 + y / 400.
(** Days from 1 January 1970 to the first day of [y]. *)
Definition before_year (y : Z) : Z := 365 * (y - 1970) + leaps (y - 1) - leaps 1969.
Definition day_number (y mon mday : Z) : Z := before_year y + before_month y mon + (mday - 1).

Record valid_tm (t : tm) : Prop := {
  vt_sec : 0 ≤ tm_sec t < 60;
  vt_min : 0 ≤ tm_min t < 60;
  vt_hour : 0 ≤ tm_hour t < 24;
  vt_mon : 0 ≤ tm_mon t < 12;
  vt_mday : 1 ≤ tm_mday t ≤ month_length (tm_year t + 1900) (tm_mon t);
  vt_yday : tm_yday t = before_month (tm_year t + 1900) (tm_mon t) + tm_mday t - 1;
  vt_wday : tm_wday t = (4 + day_number (tm_year t + 1900) (tm_mon t) (tm_mday t)) mod 7;
}.
(** The second the fields name. *)
Definition seconds (t : tm) : Z := 86400 * day_number (tm_year t + 1900) (tm_mon t) (tm_mday t) + 3600 * tm_hour t + 60 * tm_min t + tm_sec t.

(** ** Years and months *)

Ltac div_lia := Z.to_euclidean_division_equations; lia.

Lemma leap_year_ref y : leap_year y = is_leap y.
Proof.
  unfold leap_year, is_leap. assert (∀ d, 0 < d → (Z.rem y d =? 0) = (y mod d =? 0)) as Hd; [|by rewrite !Hd].
  intros d Hd. apply eq_iff_eq_true. rewrite !Z.eqb_eq. rewrite Z.rem_divide, Z.mod_divide by lia. done.
Qed.
Lemma is_leap_spec y : is_leap y = true ↔ y mod 4 = 0 ∧ (y mod 100 ≠ 0 ∨ y mod 400 = 0).
Proof. unfold is_leap. by rewrite andb_true_iff, orb_true_iff, negb_true_iff, Z.eqb_neq, !Z.eqb_eq. Qed.
Definition year_length (y : Z) : Z := if is_leap y then 366 else 365.
Lemma year_days_ref y : year_days y = year_length y.
Proof. unfold year_days, year_length. by rewrite leap_year_ref. Qed.
Lemma leaps_succ y : leaps y = leaps (y - 1) + if is_leap y then 1 else 0.
Proof. pose proof (is_leap_spec y) as Hl. unfold leaps. destruct (is_leap y); [destruct (proj1 Hl eq_refl)|assert (¬ (y mod 4 = 0 ∧ (y mod 100 ≠ 0 ∨ y mod 400 = 0))) by (by intros ?%Hl)]; clear Hl; div_lia. Qed.
Lemma before_year_succ y : before_year (y + 1) = before_year y + year_length y.
Proof. unfold before_year, year_length. replace (y + 1 - 1) with y by lia. rewrite (leaps_succ y). destruct (is_leap y); lia. Qed.

Lemma month_days_ref y mon : 0 ≤ mon < 12 → month_days (leap_year y) mon = Ret (month_length y mon).
Proof.
  intros Hm. unfold month_days, month_length. rewrite (proj2 (Z.ltb_ge mon 0)), leap_year_ref by lia. unfold MONTH_DAYS.
  destruct (lookup_lt_is_Some_2 [31; if is_leap y then 29 else 28; 31; 30; 31; 30; 31; 31; 30; 31; 30; 31] (Z.to_nat mon)) as [d Hd]; [cbn; lia|]. by rewrite Hd.
Qed.
Lemma before_month_succ y mon : 0 ≤ mon → before_month y (mon + 1) = before_month y mon + month_length y mon.
Proof.
  intros Hm. unfold before_month. rewrite seqZ_app by lia. rewrite fmap_app. change (seqZ (0 + mon) 1) with [0 + mon]. cbn [fmap list_fmap]. generalize (month_length y <$> seqZ 0 mon) as l. intros l. rewrite Z.add_0_l.
  induction l as [|d l IH]; cbn; [lia|]. rewrite IH. lia.
Qed.
Lemma before_month_12 y : before_month y 12 = year_length y.
Proof. unfold before_month, month_length, year_length. change (seqZ 0 12) with [0; 1; 2; 3; 4; 5; 6; 7; 8; 9; 10; 11]. cbn. by destruct (is_leap y). Qed.

(** ** [mktime] *)

Lemma years_down_spec fuel year day : 1970 ≤ year → year - 1970 ≤ Z.of_nat fuel → years_down fuel year day = Some (day + before_year year).
Proof.
  revert year day. induction fuel as [|fuel IH]; intros year day Hy Hf; cbn [years_down]; destruct (Z.ltb_spec 1970 year) as [Hgt|Hle]; [lia| | |].
  1, 3: replace year with 1970 by lia; change (before_year 1970) with 0; f_equal; lia.
  rewrite IH by lia. pose proof (before_year_succ (year - 1)) as Hs. replace (year - 1 + 1) with year in Hs by lia. rewrite year_days_ref, Hs. f_equal. lia.
Qed.
Lemma years_up_spec fuel year day : year ≤ 1969 → 1969 - year ≤ Z.of_nat fuel → years_up fuel year day = Some (day - before_year (year + 1)).
Proof.
  revert year day. induction fuel as [|fuel IH]; intros year day Hy Hf; cbn [years_up]; destruct (Z.ltb_spec year 1969) as [Hlt|Hge]; [lia| | |].
  1, 3: replace year with 1969 by lia; change (before_year (1969 + 1)) with 0; f_equal; lia.
  rewrite IH by lia. rewrite (before_year_succ (year + 1)), year_days_ref. f_equal. lia.
Qed.
Lemma months_down_spec fuel y mon day : 0 ≤ mon < 12 → mon ≤ Z.of_nat fuel → months_down fuel (leap_year y) mon day = Some (Ret (day + before_month y mon)).
Proof.
  revert mon day. induction fuel as [|fuel IH]; intros mon day Hm Hf; cbn [months_down]; destruct (Z.ltb_spec 0 mon) as [Hgt|Hle]; [lia| | |].
  1, 3: replace mon with 0 by lia; change (before_month y 0) with 0; do 2 f_equal; lia.
  rewrite month_days_ref by lia. rewrite IH by lia. pose proof (before_month_succ y (mon - 1) ltac:(lia)) as Hs. replace (mon - 1 + 1) with mon in Hs by lia. rewrite Hs. do 2 f_equal. lia.
Qed.
Lemma months_up_spec fuel y mon day : 0 ≤ mon < 12 → 11 - mon ≤ Z.of_nat fuel → months_up fuel (leap_year y) mon day = Some (Ret (day + (year_length y - before_month y (mon + 1)))).
Proof.
  revert mon day. induction fuel as [|fuel IH]; intros mon day Hm Hf; cbn [months_up]; destruct (Z.ltb_spec mon 11) as [Hlt|Hge]; [lia| | |].
  1, 3: replace mon with 11 by lia; change (11 + 1) with 12; rewrite before_month_12; do 2 f_equal; lia.
  rewrite month_days_ref by lia. rewrite IH by lia. rewrite (before_month_succ y (mon + 1)) by lia. do 2 f_equal. lia.
Qed.

(** [mktime] gives the second the fields name, whatever the day, hour, minute and second are. *)
Lemma mktime_spec fuel t : INT_MIN ≤ tm_year t + 1900 ≤ INT_MAX → 0 ≤ tm_mon t < 12 → Z.abs (tm_year t - 70) + 12 < Z.of_nat fuel → mktime fuel t = Some (Ret (seconds t)).
Proof.
  intros Hy Hm Hf. unfold mktime, seconds, day_number. assert (to_signed 32 (tm_year t + 1900) = tm_year t + 1900) as ->.
  { unfold to_signed, INT_MIN, INT_MAX in *. destruct (decide (0 ≤ tm_year t + 1900)); [rewrite Z.mod_small by lia|rewrite <-(Z.mod_add _ 1), Z.mod_small by lia]; repeat case_match; lia. }
  set (y := tm_year t + 1900) in *. destruct (Z.ltb_spec y 1970).
  - rewrite month_days_ref by done. rewrite years_up_spec by lia. cbn [mbind option_bind]. rewrite months_up_spec by lia. cbn [mbind option_bind]. do 2 f_equal.
    rewrite before_year_succ, before_month_succ by lia. lia.
  - rewrite years_down_spec by lia. cbn [mbind option_bind]. rewrite months_down_spec by lia. cbn [mbind option_bind]. do 2 f_equal. lia.
Qed.

(** ** [__secs_to_tm] *)

Lemma floor_parts_spec x d : 0 < d → floor_parts x d = (x / d, x mod d).
Proof.
  intros Hd. unfold floor_parts. pose proof (Z.quot_rem' x d) as Hqr. pose proof (Z.rem_bound_abs x d ltac:(lia)). destruct (Z.ltb_spec (Z.rem x d) 0); f_equal.
  - apply (Z.div_unique _ _ _ (Z.rem x d + d)); lia.
  - apply (Z.mod_unique _ _ (Z.quot x d - 1)); lia.
  - apply (Z.div_unique _ _ _ (Z.rem x d)); lia.
  - apply (Z.mod_unique _ _ (Z.quot x d)); lia.
Qed.
Lemma cycles_spec r per last : 0 ≤ r → 0 < per → 0 < last → r < (last + 1) * per →
  ∃ c r', cycles r per last = (c, r') ∧ r = c * per + r' ∧ 0 ≤ c < last ∧ 0 ≤ r' ∧ (r' < per ∨ c = last - 1 ∧ r = r' + (last - 1) * per).
Proof.
  intros Hr Hp Hl Hb. unfold cycles. rewrite Z.quot_div_nonneg by lia. pose proof (Z.div_mod r per ltac:(lia)). pose proof (Z.mod_pos_bound r per Hp). assert (0 ≤ r / per ≤ last) by nia.
  destruct (Z.eqb_spec (r / per) last); eexists _, _; (split; [done|]); nia.
Qed.

(** A day of the 400 years from March 2000 on, in centuries, groups of four years, years, and days from March. *)
Record march_day (c q y d r : Z) : Prop := {
  md_c : 0 ≤ c < 4;
  md_q : 0 ≤ q < 25;
  md_y : 0 ≤ y < 4;
  md_d : 0 ≤ d ≤ 365;
  md_sum : r = c * DAYS_PER_100Y + q * DAYS_PER_4Y + y * 365 + d;
  md_last : d = 365 → y = 3 ∧ (q = 24 → c = 3);
}.
Lemma cycles_march r : 0 ≤ r < DAYS_PER_400Y → ∃ c r1 q r2 y d,
  cycles r DAYS_PER_100Y 4 = (c, r1) ∧ cycles r1 DAYS_PER_4Y 25 = (q, r2) ∧ cycles r2 365 4 = (y, d) ∧ march_day c q y d r.
Proof.
  unfold DAYS_PER_400Y, DAYS_PER_100Y, DAYS_PER_4Y. intros Hr. destruct (cycles_spec r (365 * 100 + 24) 4) as (c & r1 & Hc & ? & ? & ? & ?); [lia..|].
  destruct (cycles_spec r1 (365 * 4 + 1) 25) as (q & r2 & Hq & ? & ? & ? & ?); [lia..|]. destruct (cycles_spec r2 365 4) as (y & d & Hy & ? & ? & ? & ?); [lia..|].
  exists c, r1, q, r2, y, d. split_and!; [done..|]. split; unfold DAYS_PER_100Y, DAYS_PER_4Y; lia.
Qed.

Section march.
Context (k c q y d r : Z) (Hmd : march_day c q y d r).
Let Y := 2000 + 400 * k + 100 * c + 4 * q + y.

Lemma march_leap : is_leap Y = (y =? 0) && (negb (q =? 0) || (c =? 0)).
Proof.
  destruct Hmd. apply eq_iff_eq_true. rewrite is_leap_spec, andb_true_iff, orb_true_iff, negb_true_iff, Z.eqb_neq, !Z.eqb_eq. unfold Y. div_lia.
Qed.
Lemma march_last : d = 365 → is_leap (Y + 1) = true.
Proof. intros Hd. destruct Hmd. destruct md_last0 as [? ?]; [done|]. apply is_leap_spec. unfold Y. div_lia. Qed.
Lemma march_start : before_year Y = 11017 + 146097 * k + 36524 * c + 1461 * q + 365 * y - 59 - if is_leap Y then 1 else 0.
Proof. destruct Hmd. pose proof (leaps_succ Y) as Hl. unfold before_year. change (leaps 1969) with 477. assert (leaps Y = 485 + 97 * k + 24 * c + q) as Hly by (clear Hl; unfold leaps, Y; div_lia). lia. Qed.
End march.

(** The table of months from March on agrees with the one from January on. *)
Lemma before_month_table y mon : 0 ≤ mon < 12 → before_month y mon = default 0 ((λ n, n + if (1 <? mon) && is_leap y then 1 else 0) <$> [0; 31; 59; 90; 120; 151; 181; 212; 243; 273; 304; 334] !! Z.to_nat mon).
Proof.
  intros Hm. assert (mon = 0 ∨ mon = 1 ∨ mon = 2 ∨ mon = 3 ∨ mon = 4 ∨ mon = 5 ∨ mon = 6 ∨ mon = 7 ∨ mon = 8 ∨ mon = 9 ∨ mon = 10 ∨ mon = 11) as Hc by lia.
  unfold before_month, month_length. destruct_or? Hc; subst mon; (match goal with |- context [seqZ 0 ?n] => let l := eval vm_compute in (seqZ 0 n) in change (seqZ 0 n) with l end); cbn; destruct (is_leap y); done.
Qed.
Lemma month_loop_march Y d : 0 ≤ d ≤ 365 → (d = 365 → is_leap (Y + 1) = true) → ∃ i rem, month_loop days_in_month 0 d = (i, rem) ∧ 0 ≤ rem ∧
  if 10 <=? i then 306 ≤ d ∧ 0 ≤ i - 10 < 2 ∧ rem < month_length (Y + 1) (i - 10) ∧ before_month (Y + 1) (i - 10) + rem = d - 306
  else d < 306 ∧ 0 ≤ i + 2 < 12 ∧ rem < month_length Y (i + 2) ∧ before_month Y (i + 2) + rem = 59 + (if is_leap Y then 1 else 0) + d.
Proof.
  intros Hd Hlast. unfold days_in_month. cbn [month_loop].
  repeat match goal with |- ∃ _ _, (if ?a <=? ?b then _ else _) = _ ∧ _ => destruct (Z.leb_spec a b) end; [lia|..].
  all: eexists _, _; (split; [reflexivity|]); (split; [lia|]).
  all: match goal with |- context [10 <=? ?e] => let v := eval vm_compute in e in change e with v end; cbn [Z.leb Z.compare Pos.compare Pos.compare_cont].
  all: match goal with |- context [before_month _ ?e] => let v := eval vm_compute in e in change e with v end.
  all: rewrite before_month_table by lia; (split; [lia|]); (split; [lia|]); unfold month_length; (repeat match goal with |- context [Z.to_nat ?e] => let v := eval vm_compute in (Z.to_nat e) in change (Z.to_nat e) with v end); cbn -[Z.add Z.sub].
  all: try (destruct (is_leap Y); lia). all: destruct (is_leap (Y + 1)) eqn:Hl; try lia.
Qed.

Lemma wday_spec days : (let w := Z.rem (3 + days) 7 in if w <? 0 then w + 7 else w) = (3 + days) mod 7.
Proof.
  pose proof (floor_parts_spec (3 + days) 7 ltac:(lia)) as Hf. unfold floor_parts in Hf. cbv zeta. by destruct (Z.rem (3 + days) 7 <? 0); injection Hf as _ <-.
Qed.

(** The second [t] is in a year an [int] holds, counted from 1900. *)
Definition year_in_range (t : Z) : Prop := 86400 * before_year (INT_MIN + 1900) ≤ t < 86400 * before_year (INT_MAX + 1901).

Lemma before_year_mono y y' : y ≤ y' → before_year y ≤ before_year y'.
Proof.
  intros Hy. replace y' with (y + Z.of_nat (Z.to_nat (y' - y))) by lia. induction (Z.to_nat (y' - y)) as [|n IH]; [rewrite Z.add_0_r; lia|].
  replace (y + Z.of_nat (S n)) with (y + Z.of_nat n + 1) by lia. rewrite before_year_succ. unfold year_length. destruct (is_leap _); lia.
Qed.
(** The days of a date are inside its year. *)
Lemma day_in_year y mon mday : 0 ≤ mon < 12 → 1 ≤ mday ≤ month_length y mon → before_year y ≤ day_number y mon mday < before_year (y + 1).
Proof.
  intros Hm Hd. unfold day_number. rewrite before_year_succ. unfold year_length. rewrite before_month_table by done. revert Hd. unfold month_length.
  assert (mon = 0 ∨ mon = 1 ∨ mon = 2 ∨ mon = 3 ∨ mon = 4 ∨ mon = 5 ∨ mon = 6 ∨ mon = 7 ∨ mon = 8 ∨ mon = 9 ∨ mon = 10 ∨ mon = 11) as Hc by lia.
  destruct_or? Hc; subst mon; (repeat match goal with |- context [Z.to_nat ?e] => let v := eval vm_compute in (Z.to_nat e) in change (Z.to_nat e) with v end); cbn -[Z.add Z.sub]; destruct (is_leap y); lia.
Qed.

(** The date of day [r] of the cycle [k] of 400 years that starts in March 2000. *)
Lemma civil_spec k r : 0 ≤ r < DAYS_PER_400Y → ∃ c r1 q r2 y d i rem,
  cycles r DAYS_PER_100Y 4 = (c, r1) ∧ cycles r1 DAYS_PER_4Y 25 = (q, r2) ∧ cycles r2 365 4 = (y, d) ∧ month_loop days_in_month 0 d = (i, rem) ∧
  let leap := if (y =? 0) && (negb (q =? 0) || (c =? 0)) then 1 else 0 in
  let years := y + 4 * q + 100 * c + 400 * k in
  let year := 2000 + (if 10 <=? i then years + 1 else years) in
  let mon := if 10 <=? i then i - 10 else i + 2 in
  0 ≤ mon < 12 ∧ 0 ≤ rem < month_length year mon ∧ day_number year mon (rem + 1) = 11017 + DAYS_PER_400Y * k + r ∧
  (if 365 + leap <=? d + 31 + 28 + leap then d + 31 + 28 + leap - (365 + leap) else d + 31 + 28 + leap) = before_month year mon + rem.
Proof.
  intros Hr. destruct (cycles_march r Hr) as (c & r1 & q & r2 & y & d & Hc & Hq & Hy & Hmd). set (Y := 2000 + 400 * k + 100 * c + 4 * q + y).
  destruct (month_loop_march Y d (md_d _ _ _ _ _ Hmd) (march_last k c q y d r Hmd)) as (i & rem & Hi & Hrem & Hmon). exists c, r1, q, r2, y, d, i, rem. split_and!; [done..|]. cbv zeta.
  pose proof (march_leap k c q y d r Hmd) as Hleap. pose proof (march_start k c q y d r Hmd) as Hstart. fold Y in Hleap, Hstart. rewrite <-Hleap.
  destruct Hmd as [? ? ? ? Hsum _]. unfold DAYS_PER_400Y, DAYS_PER_100Y, DAYS_PER_4Y in *. destruct (10 <=? i).
  - replace (2000 + (y + 4 * q + 100 * c + 400 * k + 1)) with (Y + 1) by (unfold Y; lia). destruct Hmon as (? & ? & Hlen & Hbm).
    split_and!; [lia|lia|lia|lia| |destruct (is_leap Y); case_Z1; lia]. unfold day_number. rewrite before_year_succ. unfold year_length. destruct (is_leap Y); lia.
  - replace (2000 + (y + 4 * q + 100 * c + 400 * k)) with Y by (unfold Y; lia). destruct Hmon as (? & ? & Hlen & Hbm). split_and!; [lia|lia|lia|lia| |].
    + unfold day_number. lia.
    + destruct (is_leap Y); case_Z1; lia.
Qed.

(** [__secs_to_tm] gives the date and time of the second. *)
Lemma secs_to_tm_core t : (t <? INT_MIN * 31622400) || (INT_MAX * 31622400 <? t) = false →
  ∃ r, valid_tm r ∧ seconds r = t ∧ __secs_to_tm t = if (INT_MAX <? tm_year r) || (tm_year r <? INT_MIN) then None else Some r.
Proof.
  intros Hr. unfold __secs_to_tm. rewrite Hr. clear Hr.
  rewrite floor_parts_spec by lia. set (days := (t - LEAPOCH) / 86400). set (remsecs := (t - LEAPOCH) mod 86400). rewrite floor_parts_spec by done. rewrite wday_spec. set (k := days / DAYS_PER_400Y).
  assert (t - LEAPOCH = 86400 * days + remsecs) as Hsecs by (apply Z.div_mod; lia). assert (0 ≤ remsecs < 86400) as Hrs by (apply Z.mod_pos_bound; lia).
  assert (days = DAYS_PER_400Y * k + days mod DAYS_PER_400Y) as Hdays by (apply Z.div_mod; done).
  destruct (civil_spec k (days mod DAYS_PER_400Y)) as (c & r1 & q & r2 & y & d & i & rem & -> & -> & -> & -> & Hcivil); [by apply Z.mod_pos_bound|]. cbv zeta in Hcivil.
  set (leap := if (y =? 0) && _ then 1 else 0) in *. set (years := y + 4 * q + 100 * c + 400 * k) in *. set (mon := if 10 <=? i then i - 10 else i + 2) in *.
  set (yr := if 10 <=? i then years + 1 else years) in *.
  assert ((if 10 <=? i then (i - 12, years + 1) else (i, years)) = (mon - 2, yr)) as ->. { unfold mon, yr. destruct (10 <=? i); f_equal; lia. }
  destruct Hcivil as (Hmon & Hrem & Hday & Hyd).
  assert (t = 86400 * (11017 + days) + remsecs) as Ht by (unfold LEAPOCH in Hsecs; lia).
  rewrite !Z.quot_div_nonneg, !Z.rem_mod_nonneg by (try apply Z.div_pos; lia). replace (mon - 2 + 2) with mon by lia. assert (yr + 100 + 1900 = 2000 + yr) as Hy by lia.
  match goal with |- context [Some ?r] => exists r end. cbn [tm_year]. split_and!; [split; cbn [tm_sec tm_min tm_hour tm_mon tm_mday tm_year tm_yday tm_wday]| |done].
  1-3: clear -Hrs; div_lia.
  - done.
  - rewrite Hy. lia.
  - rewrite Hy, Hyd. lia.
  - rewrite Hy, Hday. rewrite <-Z.add_assoc, <-Hdays. replace (4 + (11017 + days)) with (3 + days + 1574 * 7) by lia. by rewrite Z.mod_add.
  - unfold seconds. cbn [tm_sec tm_min tm_hour tm_mon tm_mday tm_year]. rewrite Hy, Hday. clear -Ht Hrs Hdays. div_lia.
Qed.

Lemma valid_day_in_year r : valid_tm r → let y := tm_year r + 1900 in before_year y ≤ seconds r / 86400 < before_year (y + 1) ∧ seconds r / 86400 = day_number y (tm_mon r) (tm_mday r).
Proof.
  intros Hv. cbv zeta. assert (seconds r / 86400 = day_number (tm_year r + 1900) (tm_mon r) (tm_mday r)) as ->; [|split; [apply day_in_year; apply Hv|done]].
  symmetry. apply (Z.div_unique _ _ _ (3600 * tm_hour r + 60 * tm_min r + tm_sec r)); [|unfold seconds; lia]. destruct Hv. lia.
Qed.
Lemma year_range_valid r : valid_tm r → year_in_range (seconds r) ↔ INT_MIN ≤ tm_year r ≤ INT_MAX.
Proof.
  intros Hv. destruct (valid_day_in_year r Hv) as [Hin _]. unfold year_in_range. pose proof (Z.div_mod (seconds r) 86400 ltac:(lia)). pose proof (Z.mod_pos_bound (seconds r) 86400 ltac:(lia)). split.
  - intros Hr. split.
    + destruct (decide (INT_MIN ≤ tm_year r)); [done|]. pose proof (before_year_mono (tm_year r + 1900 + 1) (INT_MIN + 1900) ltac:(lia)). lia.
    + destruct (decide (tm_year r ≤ INT_MAX)); [done|]. pose proof (before_year_mono (INT_MAX + 1901) (tm_year r + 1900) ltac:(lia)). lia.
  - intros [Hlo Hhi]. pose proof (before_year_mono (INT_MIN + 1900) (tm_year r + 1900) ltac:(lia)). pose proof (before_year_mono (tm_year r + 1900 + 1) (INT_MAX + 1901) ltac:(lia)). lia.
Qed.

(** Two valid dates and times of the same second are the same. *)
Lemma before_month_mono y mon mon' : 0 ≤ mon → mon < mon' → mon' < 12 → before_month y mon + month_length y mon ≤ before_month y mon'.
Proof.
  intros H0 Hlt H12. rewrite <-before_month_succ by lia. assert (∀ n : nat, mon + 1 + Z.of_nat n < 12 → before_month y (mon + 1) ≤ before_month y (mon + 1 + Z.of_nat n)) as Hg.
  { intros n. induction n as [|n IH]; intros Hn; [rewrite Z.add_0_r; lia|]. replace (mon + 1 + Z.of_nat (S n)) with (mon + 1 + Z.of_nat n + 1) by lia. rewrite (before_month_succ y (mon + 1 + Z.of_nat n)) by lia.
    assert (0 ≤ month_length y (mon + 1 + Z.of_nat n)); [|specialize (IH ltac:(lia)); lia]. generalize (mon + 1 + Z.of_nat n) as z. intros z. unfold month_length.
    destruct (_ !! _) as [v|] eqn:Hv; [|done]. cbn. apply list_elem_of_lookup_2 in Hv. repeat (apply elem_of_cons in Hv as [->|Hv]; [destruct (is_leap y); lia|]). by apply not_elem_of_nil in Hv. }
  specialize (Hg (Z.to_nat (mon' - mon - 1))). replace (mon + 1 + Z.of_nat (Z.to_nat (mon' - mon - 1))) with mon' in Hg by lia. by apply Hg.
Qed.
Lemma seconds_inj r r' : valid_tm r → valid_tm r' → seconds r = seconds r' → r = r'.
Proof.
  intros Hv Hv' Hs. destruct (valid_day_in_year r Hv) as [Hin Hd], (valid_day_in_year r' Hv') as [Hin' Hd']. rewrite Hs in Hin, Hd.
  assert (tm_year r = tm_year r') as Hy.
  { destruct (decide (tm_year r < tm_year r')); [pose proof (before_year_mono (tm_year r + 1900 + 1) (tm_year r' + 1900) ltac:(lia)); lia|].
    destruct (decide (tm_year r' < tm_year r)); [pose proof (before_year_mono (tm_year r' + 1900 + 1) (tm_year r + 1900) ltac:(lia)); lia|lia]. }
  rewrite Hy in Hd. rewrite Hd' in Hd. unfold day_number in Hd. pose proof (vt_mday _ Hv) as Hm. pose proof (vt_mday _ Hv') as Hm'. rewrite Hy in Hm. pose proof (vt_mon _ Hv). pose proof (vt_mon _ Hv').
  assert (tm_mon r = tm_mon r') as Hmon.
  { destruct (decide (tm_mon r < tm_mon r')) as [Hl|]; [pose proof (before_month_mono (tm_year r' + 1900) (tm_mon r) (tm_mon r') ltac:(lia) Hl ltac:(lia)); lia|].
    destruct (decide (tm_mon r' < tm_mon r)) as [Hl|]; [pose proof (before_month_mono (tm_year r' + 1900) (tm_mon r') (tm_mon r) ltac:(lia) Hl ltac:(lia)); lia|lia]. }
  rewrite Hmon in Hd. assert (tm_mday r = tm_mday r') as Hday by lia. unfold seconds in Hs. rewrite Hy, Hmon, Hday in Hs. destruct Hv, Hv'. rewrite Hy, Hmon, Hday in *.
  destruct r, r'; cbn in *; subst. f_equal; lia.
Qed.

(** C35: time conversion is exact. For every second whose year an [int] holds, [gmtime_r] and [localtime_r] give the date and time of that second in the
    Gregorian calendar, with the day of the week and of the year, and for every other second they fail. [mktime] is their inverse: it gives back the second for every date it can add 1900 to
    the year of, before or after 1970, and for every valid date and time, [gmtime_r] of what [mktime] returns gives the same fields. *)
Theorem time_conversions_exact fuel t r :
  (year_in_range t → ∃ r, gmtime_r t = Some r ∧ localtime_r t = Some r ∧ valid_tm r ∧ seconds r = t ∧
     (tm_year r + 1900 ≤ INT_MAX → Z.abs (tm_year r - 70) + 12 < Z.of_nat fuel → mktime fuel r = Some (Ret t))) ∧
  (¬ year_in_range t → gmtime_r t = None ∧ localtime_r t = None) ∧
  (valid_tm r → INT_MIN ≤ tm_year r → tm_year r + 1900 ≤ INT_MAX → Z.abs (tm_year r - 70) + 12 < Z.of_nat fuel →
     mktime fuel r = Some (Ret (seconds r)) ∧ gmtime_r (seconds r) = Some r).
Proof.
  assert (∀ t, year_in_range t → (t <? INT_MIN * 31622400) || (INT_MAX * 31622400 <? t) = false) as Hfirst.
  { intros u Hr. unfold year_in_range in Hr. change (before_year (INT_MIN + 1900)) with (-784352321872) in Hr. change (before_year (INT_MAX + 1901)) with 784352270737 in Hr.
    unfold INT_MIN, INT_MAX. apply orb_false_iff. rewrite !Z.ltb_ge. lia. }
  assert (∀ t, year_in_range t → ∃ r, __secs_to_tm t = Some r ∧ valid_tm r ∧ seconds r = t ∧ INT_MIN ≤ tm_year r ≤ INT_MAX) as Hok.
  { intros u Hu. destruct (secs_to_tm_core u (Hfirst u Hu)) as (r' & Hv & Hs & He). exists r'. rewrite <-Hs in Hu. apply (year_range_valid r' Hv) in Hu as Hy.
    rewrite (proj2 (Z.ltb_ge _ _)), (proj2 (Z.ltb_ge _ _)) in He by lia. done. }
  split_and!.
  - intros Ht. destruct (Hok t Ht) as (r' & He & Hv & Hs & Hy). exists r'. unfold gmtime_r, localtime_r. rewrite (Hfirst t Ht). split_and!; [done..|]. intros Hmax Hf. rewrite <-Hs. apply mktime_spec; [|apply Hv|done]. unfold INT_MIN in *. lia.
  - intros Ht. unfold gmtime_r, localtime_r. destruct ((t <? INT_MIN * 31622400) || (INT_MAX * 31622400 <? t)) eqn:Hc; [split; [|done]; unfold __secs_to_tm; by rewrite Hc|].
    destruct (secs_to_tm_core t Hc) as (r' & Hv & Hs & He). rewrite <-Hs, (year_range_valid r' Hv) in Ht. assert ((INT_MAX <? tm_year r') || (tm_year r' <? INT_MIN) = true) as Hyr; [|by rewrite Hyr in He].
    apply orb_true_iff. rewrite !Z.ltb_lt. lia.
  - intros Hv Hlo Hhi Hf. split; [apply mktime_spec; [unfold INT_MIN in *; lia|apply Hv|done]|]. assert (year_in_range (seconds r)) as Hr by (apply (year_range_valid r Hv); lia).
    destruct (Hok _ Hr) as (r' & He & Hv' & Hs & _). unfold gmtime_r. rewrite He. f_equal. by apply seconds_inj.
Qed.
