(* ===== verification/CPrintf.v ===== *)
(** Formatted output in the C library: [ulib/axlibc/c/printf.c], in the configuration without
    floating point.

    Output goes through a gadget: to a buffer, or to a function that gets each character.
    The format and the strings it prints do not overlap the buffer ([restrict] in
    [stdio.h]), so they are read in the memory [src] at the time of the call; the state has the memory that is written.
    The arguments have the type they were passed with, and reading one with another type or
    one too many has no defined result: [None], like a loop that is still running. *)

From stdpp Require Import prelude list.
From Stdlib Require Import ZArith Lia.
From S2P Require Import Prelude CString CMalloc.
Local Open Scope Z_scope.

(** ** Flags *)

Definition FLAGS_ZEROPAD : Z := 2 ^ 0.
Definition FLAGS_LEFT : Z := 2 ^ 1.
Definition FLAGS_PLUS : Z := 2 ^ 2.
Definition FLAGS_SPACE : Z := 2 ^ 3.
Definition FLAGS_HASH : Z := 2 ^ 4.
Definition FLAGS_UPPERCASE : Z := 2 ^ 5.
Definition FLAGS_CHAR : Z := 2 ^ 6.
Definition FLAGS_SHORT : Z := 2 ^ 7.
Definition FLAGS_LONG : Z := 2 ^ 9.
Definition FLAGS_LONG_LONG : Z := 2 ^ 10.
Definition FLAGS_PRECISION : Z := 2 ^ 11.
Definition FLAGS_POINTER : Z := 2 ^ 13.
Definition FLAGS_SIGNED : Z := 2 ^ 14.
(** [flags & f], [flags |= f] and [flags &= ~f]. *)
Definition has (flags f : Z) : bool := negb (Z.land flags f =? 0).
Definition set_flag (flags f : Z) : Z := Z.lor flags f.
Definition clear_flag (flags f : Z) : Z := Z.ldiff flags f.

Definition PRINTF_INTEGER_BUFFER_SIZE : Z := 32.
Definition PRINTF_MAX_POSSIBLE_BUFFER_SIZE : Z := 2 ^ 31 - 1.
(** [printf_size_t] is [unsigned int]. *)
Definition size32 (x : Z) : Z := x mod 2 ^ 32.

(** ** The gadget *)

(** [g_function] says whether there is a function; a null [g_buffer] is 0. *)
Record output_gadget := { g_function : bool; g_buffer : Z; g_pos : Z; g_max_chars : Z }.
Inductive arg := AInt (v : Z) | ALong (v : Z) | APtr (p : Z).
(** [o_out] are the characters the function got. *)
Record output := { o_gadget : output_gadget; o_mem : memory; o_out : list Z }.

Definition set_pos (pos : Z) (g : output_gadget) : output_gadget :=
  {| g_function := g_function g; g_buffer := g_buffer g; g_pos := pos; g_max_chars := g_max_chars g |}.
Definition putchar_via_gadget (c : Z) (o : output) : output :=
  let g := o_gadget o in
  let write_pos := g_pos g in
  let g := set_pos (size32 (write_pos + 1)) g in
  if g_max_chars g <=? write_pos then {| o_gadget := g; o_mem := o_mem o; o_out := o_out o |}
  else if g_function g then {| o_gadget := g; o_mem := o_mem o; o_out := o_out o ++ [c mod 256] |}
  else {| o_gadget := g; o_mem := store (o_mem o) (g_buffer g + write_pos) c; o_out := o_out o |}.
Definition append_termination_with_gadget (o : output) : output :=
  let g := o_gadget o in
  if g_function g || (g_max_chars g =? 0) then o
  else if g_buffer g =? 0 then o
  else
    let null_char_pos := if g_pos g <? g_max_chars g then g_pos g else g_max_chars g - 1 in
    {| o_gadget := g; o_mem := store (o_mem o) (g_buffer g + null_char_pos) 0; o_out := o_out o |}.
Definition discarding_gadget : output_gadget := {| g_function := false; g_buffer := 0; g_pos := 0; g_max_chars := 0 |}.
Definition buffer_gadget (buffer buffer_size : Z) : output_gadget :=
  let usable_buffer_size := if PRINTF_MAX_POSSIBLE_BUFFER_SIZE <? buffer_size then PRINTF_MAX_POSSIBLE_BUFFER_SIZE else buffer_size in
  if buffer =? 0 then discarding_gadget
  else {| g_function := false; g_buffer := buffer; g_pos := 0; g_max_chars := usable_buffer_size |}.
Definition function_gadget : output_gadget := {| g_function := true; g_buffer := 0; g_pos := 0; g_max_chars := PRINTF_MAX_POSSIBLE_BUFFER_SIZE |}.

(** [n] times the character [c], and the characters of a list. *)
Fixpoint put_repeat (n : nat) (c : Z) (o : output) : output :=
  match n with
  | O => o
  | S n => put_repeat n c (putchar_via_gadget c o)
  end.
Definition put_list (l : list Z) (o : output) : output := foldl (λ o c, putchar_via_gadget c o) o l.

(** ** Helpers *)

(** [for (s = str; *s && maxsize--; ++s);] from [s]. *)
Fixpoint strnlen_loop (fuel : nat) (src : memory) (s maxsize : Z) : option Z :=
  match fuel with
  | O => None
  | S fuel => if (src s =? 0) || (maxsize =? 0) then Some s else strnlen_loop fuel src (s + 1) (maxsize - 1)
  end.
Definition strnlen_s_ (fuel : nat) (src : memory) (str maxsize : Z) : option Z := s ← strnlen_loop fuel src str maxsize; Some (size32 (s - str)).
Definition is_digit_ (ch : Z) : bool := (48 <=? ch) && (ch <=? 57).
Fixpoint atou_loop (fuel : nat) (src : memory) (str i : Z) : option (Z * Z) :=
  match fuel with
  | O => None
  | S fuel => if is_digit_ (src str) then atou_loop fuel src (str + 1) (size32 (i * 10 + (src str - 48))) else Some (i, str)
  end.
Definition atou_ (fuel : nat) (src : memory) (str : Z) : option (Z * Z) := atou_loop fuel src str 0.

(** [while (output->pos - start_pos < width) putchar_via_gadget(output, ' ');]; there are at most [width] rounds. *)
Fixpoint pad_until (fuel : nat) (start_pos width : Z) (o : output) : output :=
  match fuel with
  | O => o
  | S fuel => if size32 (g_pos (o_gadget o) - start_pos) <? width then pad_until fuel start_pos width (putchar_via_gadget 32 o) else o
  end.
(** [buf] are the first [len] characters of the buffer. *)
Definition out_rev_ (buf : list Z) (width flags : Z) (o : output) : output :=
  let start_pos := g_pos (o_gadget o) in
  let len := Z.of_nat (length buf) in
  let o := if negb (has flags FLAGS_LEFT) && negb (has flags FLAGS_ZEROPAD) then put_repeat (Z.to_nat (width - len)) 32 o else o in
  let o := put_list (reverse buf) o in
  if has flags FLAGS_LEFT then pad_until (Z.to_nat width) start_pos width o else o.

(** ** Integers *)

(** [while (len < target && len < PRINTF_INTEGER_BUFFER_SIZE) buf[len++] = '0';]. *)
Definition pad_zeros (target : Z) (buf : list Z) : list Z :=
  buf ++ replicate (Z.to_nat (Z.min target PRINTF_INTEGER_BUFFER_SIZE - Z.of_nat (length buf))) 48.
(** [if (len < PRINTF_INTEGER_BUFFER_SIZE) buf[len++] = c;]. *)
Definition push_char (c : Z) (buf : list Z) : list Z := if Z.of_nat (length buf) <? PRINTF_INTEGER_BUFFER_SIZE then buf ++ [c] else buf.

(** The prefix of the alternative format. *)
Definition hash_prefix (unpadded_len base precision width flags : Z) (buf : list Z) : list Z :=
  let len := Z.of_nat (length buf) in
  let len :=
    if negb (has flags FLAGS_PRECISION) && negb (len =? 0) && ((len =? precision) || (len =? width)) then
      let len := if unpadded_len <? len then len - 1 else len in
      if negb (len =? 0) && ((base =? 16) || (base =? 2)) && (unpadded_len <? len) then len - 1 else len
    else len in
  let buf := take (Z.to_nat len) buf in
  let fits := Z.of_nat (length buf) <? PRINTF_INTEGER_BUFFER_SIZE in
  let buf :=
    if (base =? 16) && negb (has flags FLAGS_UPPERCASE) && fits then buf ++ [120]
    else if (base =? 16) && has flags FLAGS_UPPERCASE && fits then buf ++ [88]
    else if (base =? 2) && fits then buf ++ [98]
    else buf in
  push_char 48 buf.
Definition sign_char (negative : bool) (flags : Z) (buf : list Z) : list Z :=
  if Z.of_nat (length buf) <? PRINTF_INTEGER_BUFFER_SIZE then
    if negative then buf ++ [45] else if has flags FLAGS_PLUS then buf ++ [43] else if has flags FLAGS_SPACE then buf ++ [32] else buf
  else buf.
Definition print_integer_finalization (buf : list Z) (negative : bool) (base precision width flags : Z) (o : output) : output :=
  let unpadded_len := Z.of_nat (length buf) in
  let '(buf, width) :=
    if negb (has flags FLAGS_LEFT) then
      let width := if negb (width =? 0) && has flags FLAGS_ZEROPAD && (negative || has flags (Z.lor FLAGS_PLUS FLAGS_SPACE)) then width - 1 else width in
      (if has flags FLAGS_ZEROPAD then pad_zeros width buf else buf, width)
    else (buf, width) in
  let buf := pad_zeros precision buf in
  let flags := if (base =? 8) && (unpadded_len <? Z.of_nat (length buf)) then clear_flag flags FLAGS_HASH else flags in
  let buf := if has flags (Z.lor FLAGS_HASH FLAGS_POINTER) then hash_prefix unpadded_len base precision width flags buf else buf in
  let buf := sign_char negative flags buf in
  out_rev_ buf width flags o.

Definition digit_char (digit flags : Z) : Z := if digit <? 10 then 48 + digit else (if has flags FLAGS_UPPERCASE then 65 else 97) + digit - 10.
(** [do { ... value /= base; } while (value && len < PRINTF_INTEGER_BUFFER_SIZE);] with room for [n] characters. *)
Fixpoint digits_rev (n : nat) (value base flags : Z) : list Z :=
  match n with
  | O => []
  | S n => digit_char (value mod base) flags :: (if value / base =? 0 then [] else digits_rev n (value / base) base flags)
  end.
Definition print_integer (value : Z) (negative : bool) (base precision width flags : Z) (o : output) : output :=
  let '(buf, flags) :=
    if value =? 0 then
      if negb (has flags FLAGS_PRECISION) then ([48], clear_flag flags FLAGS_HASH)
      else ([], if base =? 16 then clear_flag flags FLAGS_HASH else flags)
    else (digits_rev (Z.to_nat PRINTF_INTEGER_BUFFER_SIZE) value base flags, flags) in
  print_integer_finalization buf negative base precision width flags o.

(** ** Arguments *)

Definition va_int (args : list arg) : option (Z * list arg) := match args with AInt v :: args => Some (to_signed 32 v, args) | _ => None end.
Definition va_uint (args : list arg) : option (Z * list arg) := match args with AInt v :: args => Some (v mod 2 ^ 32, args) | _ => None end.
Definition va_long (args : list arg) : option (Z * list arg) := match args with ALong v :: args => Some (to_signed 64 v, args) | _ => None end.
Definition va_ulong (args : list arg) : option (Z * list arg) := match args with ALong v :: args => Some (v mod 2 ^ 64, args) | _ => None end.
Definition va_ptr (args : list arg) : option (Z * list arg) := match args with APtr p :: args => Some (p, args) | _ => None end.

(** ** The format *)

(** What a part of a conversion does: return from the loop at the end of the format
    ([ADVANCE_IN_FORMAT_STRING]), or go on. *)
Inductive step (A : Type) := Return | Go (a : A).
Arguments Return {A}.
Arguments Go {A} a.
Definition step_bind {A B} (x : option (step A)) (f : A → option (step B)) : option (step B) :=
  match x with None => None | Some Return => Some Return | Some (Go a) => f a end.
Notation "'let?' x := e 'in' k" := (step_bind e (λ x, k)) (at level 10, x pattern, e at level 100, k at level 200).
Definition advance (src : memory) (format : Z) : option (step Z) := Some (if src (format + 1) =? 0 then Return else Go (format + 1)).

Definition flag_of (c : Z) : option Z :=
  if c =? 48 then Some FLAGS_ZEROPAD else if c =? 45 then Some FLAGS_LEFT else if c =? 43 then Some FLAGS_PLUS
  else if c =? 32 then Some FLAGS_SPACE else if c =? 35 then Some FLAGS_HASH else None.
Fixpoint parse_flags (fuel : nat) (src : memory) (format flags : Z) : option (Z * Z) :=
  match fuel with
  | O => None
  | S fuel =>
      match flag_of (src format) with
      | Some f => parse_flags fuel src (format + 1) (set_flag flags f)
      | None => Some (flags, format)
      end
  end.

(** Where a conversion stands: the format, the flags, the width, the precision and the arguments left. *)
Record conv := { c_format : Z; c_flags : Z; c_width : Z; c_precision : Z; c_args : list arg }.

Definition parse_width (fuel : nat) (src : memory) (format flags : Z) (args : list arg) : option (step conv) :=
  let go format flags width args := {| c_format := format; c_flags := flags; c_width := width; c_precision := 0; c_args := args |} in
  if is_digit_ (src format) then
    '(width, format) ← atou_ fuel src format;
    Some (Go (go format flags width args))
  else if src format =? 42 then
    '(w, args) ← va_int args;
    let '(flags, width) := if w <? 0 then (set_flag flags FLAGS_LEFT, size32 (- w)) else (flags, size32 w) in
    let? format := advance src format in
    Some (Go (go format flags width args))
  else Some (Go (go format flags 0 args)).
Definition parse_precision (fuel : nat) (src : memory) (c : conv) : option (step conv) :=
  let go format flags precision args := {| c_format := format; c_flags := flags; c_width := c_width c; c_precision := precision; c_args := args |} in
  if src (c_format c) =? 46 then
    let flags := set_flag (c_flags c) FLAGS_PRECISION in
    let? format := advance src (c_format c) in
    if is_digit_ (src format) then
      '(precision, format) ← atou_ fuel src format;
      Some (Go (go format flags precision (c_args c)))
    else if src format =? 42 then
      '(p, args) ← va_int (c_args c);
      let precision := if 0 <? p then size32 p else 0 in
      let? format := advance src format in
      Some (Go (go format flags precision args))
    else Some (Go (go format flags 0 (c_args c)))
  else Some (Go c).
Definition with_flag (f : Z) (format : Z) (c : conv) : conv :=
  {| c_format := format; c_flags := set_flag (c_flags c) f; c_width := c_width c; c_precision := c_precision c; c_args := c_args c |}.
(** [long] and [long long] have the width of [ptrdiff_t], [intmax_t] and [size_t]. *)
Definition parse_length (src : memory) (c : conv) : option (step conv) :=
  let ch := src (c_format c) in
  let doubled once twice :=
    let? format := advance src (c_format c) in
    let c := with_flag once format c in
    if src format =? ch then
      let? format := advance src format in
      Some (Go (with_flag twice format c))
    else Some (Go c) in
  if ch =? 108 then doubled FLAGS_LONG FLAGS_LONG_LONG
  else if ch =? 104 then doubled FLAGS_SHORT FLAGS_CHAR
  else if (ch =? 116) || (ch =? 106) || (ch =? 122) then
    let? format := advance src (c_format c) in
    Some (Go (with_flag FLAGS_LONG format c))
  else Some (Go c).

(** [ABS_FOR_PRINTING]. *)
Definition abs_for_printing (v : Z) : Z := wrap (if 0 <? v then v else to_signed 64 (- v)).
Definition convert_integer (spec : Z) (c : conv) (o : output) : option (output * list arg) :=
  let flags := c_flags c in
  let flags := if (spec =? 100) || (spec =? 105) then set_flag flags FLAGS_SIGNED else flags in
  let '(base, flags) :=
    if (spec =? 120) || (spec =? 88) then (16, flags)
    else if spec =? 111 then (8, flags)
    else if spec =? 98 then (2, flags)
    else (10, clear_flag flags FLAGS_HASH) in
  let flags := if spec =? 88 then set_flag flags FLAGS_UPPERCASE else flags in
  let flags := if has flags FLAGS_PRECISION then clear_flag flags FLAGS_ZEROPAD else flags in
  let print value negative flags := print_integer value negative base (c_precision c) (c_width c) flags o in
  if has flags FLAGS_SIGNED then
    if has flags FLAGS_LONG_LONG || has flags FLAGS_LONG then
      '(v, args) ← va_long (c_args c);
      Some (print (abs_for_printing v) (v <? 0) flags, args)
    else
      '(v, args) ← va_int (c_args c);
      let v := if has flags FLAGS_CHAR then to_signed 8 v else if has flags FLAGS_SHORT then to_signed 16 v else v in
      Some (print (abs_for_printing v) (v <? 0) flags, args)
  else
    let flags := clear_flag flags (Z.lor FLAGS_PLUS FLAGS_SPACE) in
    if has flags FLAGS_LONG_LONG || has flags FLAGS_LONG then
      '(v, args) ← va_ulong (c_args c);
      Some (print v false flags, args)
    else
      '(v, args) ← va_uint (c_args c);
      let v := if has flags FLAGS_CHAR then v mod 2 ^ 8 else if has flags FLAGS_SHORT then v mod 2 ^ 16 else v in
      Some (print v false flags, args).
Definition convert_char (c : conv) (o : output) : option (output * list arg) :=
  let pad o := put_repeat (Z.to_nat (c_width c - 1)) 32 o in
  let o := if negb (has (c_flags c) FLAGS_LEFT) then pad o else o in
  '(v, args) ← va_int (c_args c);
  let o := putchar_via_gadget v o in
  Some (if has (c_flags c) FLAGS_LEFT then pad o else o, args).
(** [while (( *p != 0) && (!(flags & FLAGS_PRECISION) || precision)) { putchar_via_gadget(output, *(p++)); --precision; }]. *)
Fixpoint string_loop (fuel : nat) (src : memory) (p precision flags : Z) (o : output) : option output :=
  match fuel with
  | O => None
  | S fuel =>
      if negb (src p =? 0) && (negb (has flags FLAGS_PRECISION) || negb (precision =? 0)) then
        string_loop fuel src (p + 1) (size32 (precision - 1)) flags (putchar_via_gadget (src p) o)
      else Some o
  end.
Definition convert_string (fuel : nat) (src : memory) (c : conv) (o : output) : option (output * list arg) :=
  let flags := c_flags c in
  '(p, args) ← va_ptr (c_args c);
  if p =? 0 then Some (out_rev_ [41; 108; 108; 117; 110; 40] (c_width c) flags o, args)
  else
    l ← strnlen_s_ fuel src p (if c_precision c =? 0 then PRINTF_MAX_POSSIBLE_BUFFER_SIZE else c_precision c);
    let l := if has flags FLAGS_PRECISION then (if l <? c_precision c then l else c_precision c) else l in
    let pad o := put_repeat (Z.to_nat (c_width c - l)) 32 o in
    let o := if negb (has flags FLAGS_LEFT) then pad o else o in
    o ← string_loop fuel src p (c_precision c) flags o;
    Some (if has flags FLAGS_LEFT then pad o else o, args).
Definition convert_pointer (c : conv) (o : output) : option (output * list arg) :=
  let width := 8 * 2 + 2 in
  let flags := set_flag (c_flags c) (Z.lor FLAGS_ZEROPAD FLAGS_POINTER) in
  '(p, args) ← va_ptr (c_args c);
  Some (if p =? 0 then out_rev_ [41; 108; 105; 110; 40] width flags o else print_integer p false 16 (c_precision c) width flags o, args).
(** [%n] stores the number of characters so far. *)
Definition convert_writeback (c : conv) (o : output) : option (output * list arg) :=
  '(p, args) ← va_ptr (c_args c);
  let flags := c_flags c in
  let n := if has flags FLAGS_CHAR then 1%nat else if has flags FLAGS_SHORT then 2%nat else if has flags FLAGS_LONG then 8%nat else if has flags FLAGS_LONG_LONG then 8%nat else 4%nat in
  Some ({| o_gadget := o_gadget o; o_mem := store_le n (o_mem o) p (g_pos (o_gadget o)); o_out := o_out o |}, args).

Definition is_integer_spec (ch : Z) : bool := existsb (Z.eqb ch) [100; 105; 117; 120; 88; 111; 98].
Definition convert_spec (fuel : nat) (src : memory) (c : conv) (o : output) : option (output * list arg) :=
  let ch := src (c_format c) in
  if is_integer_spec ch then convert_integer ch c o
  else if ch =? 99 then convert_char c o
  else if ch =? 115 then convert_string fuel src c o
  else if ch =? 112 then convert_pointer c o
  else if ch =? 37 then Some (putchar_via_gadget 37 o, c_args c)
  else if ch =? 110 then convert_writeback c o
  else Some (putchar_via_gadget ch o, c_args c).

(** Everything of a conversion up to its specifier. *)
Definition parse_conversion (fuel : nat) (src : memory) (format : Z) (args : list arg) : option (step conv) :=
  let? format := advance src format in
  '(flags, format) ← parse_flags fuel src format 0;
  let? c := parse_width fuel src format flags args in
  let? c := parse_precision fuel src c in
  parse_length src c.
Fixpoint format_string_loop (fuel : nat) (src : memory) (format : Z) (args : list arg) (o : output) : option output :=
  match fuel with
  | O => None
  | S fuel =>
      if src format =? 0 then Some o
      else if negb (src format =? 37) then format_string_loop fuel src (format + 1) args (putchar_via_gadget (src format) o)
      else
        r ← parse_conversion fuel src format args;
        match r with
        | Return => Some o
        | Go c =>
            '(o, args) ← convert_spec fuel src c o;
            format_string_loop fuel src (c_format c + 1) args o
        end
  end.

(** ** The functions of the library *)

Definition vsnprintf_impl (fuel : nat) (src : memory) (g : output_gadget) (format : Z) (args : list arg) : option (Z * output) :=
  o ← format_string_loop fuel src format args {| o_gadget := g; o_mem := src; o_out := [] |};
  let o := append_termination_with_gadget o in
  Some (to_signed 32 (g_pos (o_gadget o)), o).
Definition vsnprintf_ (fuel : nat) (m : memory) (s n format : Z) (args : list arg) : option (Z * output) := vsnprintf_impl fuel m (buffer_gadget s n) format args.
Definition vsprintf_ (fuel : nat) (m : memory) (s format : Z) (args : list arg) : option (Z * output) := vsnprintf_ fuel m s PRINTF_MAX_POSSIBLE_BUFFER_SIZE format args.
Definition vfctprintf (fuel : nat) (m : memory) (format : Z) (args : list arg) : option (Z * output) := vsnprintf_impl fuel m function_gadget format args.
