(* ===== verification/CPrintfProps.v ===== *)
(** What formatted output writes: [snprintf] writes what the format gives, cut to the
    buffer, and the integers it prints are read back by [strtol] and [strtoul]. *)

From stdpp Require Import prelude list.
From Stdlib Require Import ZArith Lia.
From S2P Require Import Prelude CString CStringProps CStdlib CMalloc CPrintf.
Local Open Scope Z_scope.

Implicit Types (src m : memory) (o : output) (args : list arg).

(** * Truncation *)

Section truncation.
Context (s n : Z).
Context (Hn : 0 ≤ n ≤ PRINTF_MAX_POSSIBLE_BUFFER_SIZE).

(** [o1] gives its characters to a function, and [o2] puts them in a buffer of [n] bytes at [s]: the buffer has as many
    of the characters as fit, and nothing else differs. *)
Record sim (o1 o2 : output) : Prop := {
  sim_1 : g_function (o_gadget o1) = true ∧ g_max_chars (o_gadget o1) = PRINTF_MAX_POSSIBLE_BUFFER_SIZE;
  sim_2 : g_function (o_gadget o2) = false ∧ g_max_chars (o_gadget o2) = n ∧ g_buffer (o_gadget o2) = s;
  sim_pos : g_pos (o_gadget o1) = g_pos (o_gadget o2);
  sim_mem : zlen (o_out o1) < PRINTF_MAX_POSSIBLE_BUFFER_SIZE → g_pos (o_gadget o1) = zlen (o_out o1) ∧
    ∀ x, o_mem o2 x = if decide (s ≤ x < s + Z.min (zlen (o_out o1)) n) then default 0 (o_out o1 !! Z.to_nat (x - s)) else o_mem o1 x;
}.

Lemma sim_put c o1 o2 : sim o1 o2 → sim (putchar_via_gadget c o1) (putchar_via_gadget c o2).
Proof.
  intros [[Hf1 Hm1] (Hf2 & Hm2 & Hb2) Hpos Hmem]. unfold putchar_via_gadget. rewrite <-Hpos. cbn [set_pos g_max_chars g_function g_buffer]. rewrite Hf1, Hm1, Hf2, Hm2, Hb2.
  unfold PRINTF_MAX_POSSIBLE_BUFFER_SIZE in *. destruct (Z.leb_spec (2 ^ 31 - 1) (g_pos (o_gadget o1))) as [Hge|Hlt].
  { rewrite (proj2 (Z.leb_le _ _)) by lia. split; cbn; [by rewrite Hm1|done|done|]. intros Hl. destruct (Hmem Hl) as [Hp _]. unfold PRINTF_MAX_POSSIBLE_BUFFER_SIZE in Hl. lia. }
  assert (∀ m', zlen (o_out o1 ++ [c mod 256]) < 2 ^ 31 - 1 →
    (∀ x, zlen (o_out o1) < 2 ^ 31 - 1 → g_pos (o_gadget o1) = zlen (o_out o1) → m' x = if n <=? g_pos (o_gadget o1) then o_mem o2 x else store (o_mem o2) (s + g_pos (o_gadget o1)) c x) →
    size32 (g_pos (o_gadget o1) + 1) = zlen (o_out o1 ++ [c mod 256]) ∧
    ∀ x, m' x = if decide (s ≤ x < s + Z.min (zlen (o_out o1 ++ [c mod 256])) n) then default 0 ((o_out o1 ++ [c mod 256]) !! Z.to_nat (x - s)) else o_mem o1 x) as Hstep.
  { intros m' Hl Hm'. rewrite length_app in Hl |- *. cbn [length] in *. destruct Hmem as [Hp Hmem]; [lia|]. split; [rewrite Hp; unfold size32; rewrite Z.mod_small by lia; lia|]. intros x. rewrite Hm' by lia. rewrite Hp in *.
    destruct (Z.leb_spec n (zlen (o_out o1))).
    - rewrite Hmem, !Z.min_r by lia. destruct (decide _); [|done]. by rewrite lookup_app_l by lia.
    - unfold store. destruct (Z.eqb_spec x (s + zlen (o_out o1))) as [->|Hne].
      + rewrite decide_True by lia. replace (s + zlen (o_out o1) - s) with (zlen (o_out o1)) by lia. by rewrite Nat2Z.id, lookup_app_r, Nat.sub_diag by lia.
      + rewrite Hmem. destruct (decide (s ≤ x < s + _ `min` n)); [rewrite decide_True by lia; by rewrite lookup_app_l by lia|by rewrite decide_False by lia]. }
  destruct (n <=? g_pos (o_gadget o1)) eqn:Hc; (split; cbn; [by rewrite Hf1, Hm1|by rewrite Hf2, Hm2, Hb2|done|]); intros Hl; apply Hstep; [done| |done|]; intros x _ _; done.
Qed.

Lemma sim_repeat k c o1 o2 : sim o1 o2 → sim (put_repeat k c o1) (put_repeat k c o2).
Proof. revert o1 o2. induction k as [|k IH]; intros o1 o2 Hs; [done|]. by apply IH, sim_put. Qed.
Lemma sim_list l o1 o2 : sim o1 o2 → sim (put_list l o1) (put_list l o2).
Proof. revert o1 o2. induction l as [|c l IH]; intros o1 o2 Hs; [done|]. by apply IH, sim_put. Qed.
Lemma sim_pad_until k start width o1 o2 : sim o1 o2 → sim (pad_until k start width o1) (pad_until k start width o2).
Proof.
  revert o1 o2. induction k as [|k IH]; intros o1 o2 Hs; [done|]. cbn [pad_until]. rewrite (sim_pos _ _ Hs). destruct (_ <? _); [|done]. by apply IH, sim_put.
Qed.
Lemma sim_out_rev buf width flags o1 o2 : sim o1 o2 → sim (out_rev_ buf width flags o1) (out_rev_ buf width flags o2).
Proof.
  intros Hs. unfold out_rev_. rewrite (sim_pos _ _ Hs). destruct (_ && _), (has flags FLAGS_LEFT); repeat first [apply sim_pad_until|apply sim_list|apply sim_repeat]; done.
Qed.
Lemma sim_integer value negative base precision width flags o1 o2 : sim o1 o2 → sim (print_integer value negative base precision width flags o1) (print_integer value negative base precision width flags o2).
Proof.
  intros Hs. unfold print_integer. destruct (if value =? 0 then _ else _) as [buf fl]. unfold print_integer_finalization. destruct (if negb _ then _ else _) as [buf' w]. by apply sim_out_rev.
Qed.

(** What is written through a pointer for [%n] does not overlap the buffer. *)
Definition ptr_apart (a : arg) : Prop := match a with APtr p => p + 8 ≤ s ∨ s + n ≤ p | _ => True end.
Definition sim_result (r1 r2 : option (output * list arg)) : Prop :=
  match r1, r2 with
  | Some (o1, args1), Some (o2, args2) => sim o1 o2 ∧ args1 = args2 ∧ Forall ptr_apart args1
  | None, None => True
  | _, _ => False
  end.

Lemma sim_store k p v o1 o2 : (k ≤ 8)%nat → ptr_apart (APtr p) → sim o1 o2 →
  sim {| o_gadget := o_gadget o1; o_mem := store_le k (o_mem o1) p v; o_out := o_out o1 |} {| o_gadget := o_gadget o2; o_mem := store_le k (o_mem o2) p v; o_out := o_out o2 |}.
Proof.
  intros Hk Hp [H1 H2 Hpos Hmem]. split; cbn [o_gadget o_mem o_out]; [done..|]. intros Hl. destruct (Hmem Hl) as [Hps Hm]. split; [done|]. intros x. cbn in Hp.
  assert (∀ m1 m2 k p v, (∀ x, ¬ (s ≤ x < s + Z.min (zlen (o_out o1)) n) → m1 x = m2 x) → (∀ x, ¬ (s ≤ x < s + Z.min (zlen (o_out o1)) n) → store_le k m1 p v x = store_le k m2 p v x)) as Hext.
  { clear. intros m1 m2 k. revert m1 m2. induction k as [|k IH]; intros m1 m2 p v He x Hx; cbn [store_le]; [by apply He|]. apply IH; [|done]. intros y Hy. unfold store. destruct (_ =? _); [done|by apply He]. }
  destruct (decide (s ≤ x < s + Z.min (zlen (o_out o1)) n)) as [Hin|Hout].
  - rewrite store_le_other by lia. rewrite Hm. by rewrite decide_True.
  - apply Hext; [|done]. intros y Hy. rewrite Hm. by rewrite decide_False.
Qed.

Lemma va_apart {A} (va : list arg → option (A * list arg)) args : (∀ args, va args = None ∨ ∃ a rest v, args = a :: rest ∧ va args = Some (v, rest)) → Forall ptr_apart args →
  va args = None ∨ ∃ v rest, va args = Some (v, rest) ∧ Forall ptr_apart rest.
Proof. intros Hva Ha. destruct (Hva args) as [?|(a & rest & v & -> & Hv)]; [by left|right]. apply Forall_cons in Ha as [_ Ha]. eauto. Qed.
Lemma va_int_tail args : va_int args = None ∨ ∃ a rest v, args = a :: rest ∧ va_int args = Some (v, rest).
Proof. destruct args as [|[v|v|p] rest]; cbn; eauto 10. Qed.
Lemma va_uint_tail args : va_uint args = None ∨ ∃ a rest v, args = a :: rest ∧ va_uint args = Some (v, rest).
Proof. destruct args as [|[v|v|p] rest]; cbn; eauto 10. Qed.
Lemma va_long_tail args : va_long args = None ∨ ∃ a rest v, args = a :: rest ∧ va_long args = Some (v, rest).
Proof. destruct args as [|[v|v|p] rest]; cbn; eauto 10. Qed.
Lemma va_ulong_tail args : va_ulong args = None ∨ ∃ a rest v, args = a :: rest ∧ va_ulong args = Some (v, rest).
Proof. destruct args as [|[v|v|p] rest]; cbn; eauto 10. Qed.
Lemma va_ptr_apart args : Forall ptr_apart args → va_ptr args = None ∨ ∃ p rest, va_ptr args = Some (p, rest) ∧ ptr_apart (APtr p) ∧ Forall ptr_apart rest.
Proof. intros Ha. destruct args as [|[v|v|p] rest]; cbn; eauto. apply Forall_cons in Ha as [Hp Ha]. right. eauto. Qed.

Ltac sim_va lem Ha := destruct (va_apart _ _ lem Ha) as [->|(v & rest & -> & Hrest)]; cbn [mbind option_bind sim_result]; [done|].

Lemma sim_convert_integer spec c o1 o2 : sim o1 o2 → Forall ptr_apart (c_args c) → sim_result (convert_integer spec c o1) (convert_integer spec c o2).
Proof.
  intros Hs Ha. unfold convert_integer. destruct (if (spec =? 120) || (spec =? 88) then _ else _) as [base fl]. set (f2 := if has _ FLAGS_PRECISION then _ else _). clearbody f2.
  destruct (has f2 FLAGS_SIGNED); destruct (_ || _); [sim_va va_long_tail Ha|sim_va va_int_tail Ha|sim_va va_ulong_tail Ha|sim_va va_uint_tail Ha]; (split; [by apply sim_integer|done]).
Qed.
Lemma sim_convert_char c o1 o2 : sim o1 o2 → Forall ptr_apart (c_args c) → sim_result (convert_char c o1) (convert_char c o2).
Proof.
  intros Hs Ha. unfold convert_char. sim_va va_int_tail Ha. split; [|done]. destruct (has (c_flags c) FLAGS_LEFT); cbn [negb]; [by apply sim_repeat, sim_put|by apply sim_put, sim_repeat].
Qed.
Lemma sim_string_loop fuel src p precision flags o1 o2 : sim o1 o2 →
  match string_loop fuel src p precision flags o1, string_loop fuel src p precision flags o2 with Some o1, Some o2 => sim o1 o2 | None, None => True | _, _ => False end.
Proof.
  revert p precision o1 o2. induction fuel as [|fuel IH]; intros p precision o1 o2 Hs; cbn [string_loop]; [done|]. destruct (_ && _); [|done]. by apply IH, sim_put.
Qed.
Lemma sim_convert_string fuel src c o1 o2 : sim o1 o2 → Forall ptr_apart (c_args c) → sim_result (convert_string fuel src c o1) (convert_string fuel src c o2).
Proof.
  intros Hs Ha. unfold convert_string. destruct (va_ptr_apart _ Ha) as [->|(p & rest & -> & _ & Hrest)]; [done|]. cbn [mbind option_bind]. destruct (p =? 0); [split; [by apply sim_out_rev|done]|].
  destruct (strnlen_s_ _ _ _ _) as [l|]; [|done]. cbn [mbind option_bind]. set (pad := put_repeat _ _). assert (∀ o1 o2, sim o1 o2 → sim (pad o1) (pad o2)) as Hpad by (intros; by apply sim_repeat).
  set (p1 := if negb _ then pad o1 else o1). set (p2 := if negb _ then pad o2 else o2). assert (sim p1 p2) as Hp by (unfold p1, p2; destruct (negb _); auto).
  pose proof (sim_string_loop fuel src p (c_precision c) (c_flags c) _ _ Hp) as Hl. destruct (string_loop _ _ _ _ _ p1), (string_loop _ _ _ _ _ p2); try done. cbn [mbind option_bind sim_result]. split; [|done]. destruct (has (c_flags c) FLAGS_LEFT); [by apply Hpad|done].
Qed.
Lemma sim_convert_spec fuel src c o1 o2 : sim o1 o2 → Forall ptr_apart (c_args c) → sim_result (convert_spec fuel src c o1) (convert_spec fuel src c o2).
Proof.
  intros Hs Ha. unfold convert_spec. destruct (is_integer_spec _); [by apply sim_convert_integer|]. destruct (_ =? 99); [by apply sim_convert_char|]. destruct (_ =? 115); [by apply sim_convert_string|].
  destruct (_ =? 112). { unfold convert_pointer. destruct (va_ptr_apart _ Ha) as [->|(p & rest & -> & _ & Hrest)]; [done|]. cbn. split; [|done]. destruct (p =? 0); [by apply sim_out_rev|by apply sim_integer]. }
  destruct (_ =? 37); [split; [by apply sim_put|done]|]. destruct (_ =? 110); [|split; [by apply sim_put|done]].
  unfold convert_writeback. destruct (va_ptr_apart _ Ha) as [->|(p & rest & -> & Hp & Hrest)]; [done|]. cbn [mbind option_bind sim_result]. rewrite (sim_pos _ _ Hs). split; [|done]. apply sim_store; [|done|done]. repeat case_match; lia.
Qed.

(** Reading a conversion only takes arguments away. *)
Lemma step_bind_go {A B} (x : option (step A)) (f : A → option (step B)) b : step_bind x f = Some (Go b) → ∃ a, x = Some (Go a) ∧ f a = Some (Go b).
Proof. destruct x as [[|a]|]; cbn; [done| |done]. eauto. Qed.
Lemma parse_width_apart fuel src format flags args c : Forall ptr_apart args → parse_width fuel src format flags args = Some (Go c) → Forall ptr_apart (c_args c).
Proof.
  intros Ha. unfold parse_width. destruct (is_digit_ _); [destruct (atou_ _ _ _) as [[w f]|]; cbn; [by intros [= <-]|done]|]. destruct (_ =? 42); [|by intros [= <-]].
  destruct (va_apart _ _ va_int_tail Ha) as [->|(v & rest & -> & Hrest)]; cbn [mbind option_bind]; [done|]. destruct (if v <? 0 then _ else _) as [fl w]. intros (f & _ & [= <-])%step_bind_go. done.
Qed.
Lemma parse_precision_apart fuel src c c' : Forall ptr_apart (c_args c) → parse_precision fuel src c = Some (Go c') → Forall ptr_apart (c_args c').
Proof.
  intros Ha. unfold parse_precision. destruct (_ =? 46); [|by intros [= <-]]. intros (f & _ & He)%step_bind_go. revert He. destruct (is_digit_ _); [destruct (atou_ _ _ _) as [[w f']|]; cbn; [by intros [= <-]|done]|].
  destruct (_ =? 42); [|by intros [= <-]]. destruct (va_apart _ _ va_int_tail Ha) as [->|(v & rest & -> & Hrest)]; cbn [mbind option_bind]; [done|]. intros (f' & _ & [= <-])%step_bind_go. done.
Qed.
Lemma parse_length_args src c c' : parse_length src c = Some (Go c') → c_args c' = c_args c.
Proof.
  unfold parse_length.
  destruct (_ =? 108); [intros (f & Hf & He)%step_bind_go|destruct (_ =? 104); [intros (f & Hf & He)%step_bind_go|]].
  1, 2: destruct (src f =? _); [apply step_bind_go in He as (f' & _ & [= <-])|injection He as <-]; done.
  destruct (_ || _); [intros (f & _ & [= <-])%step_bind_go; done|by intros [= <-]].
Qed.
Lemma parse_apart fuel src format args c : Forall ptr_apart args → parse_conversion fuel src format args = Some (Go c) → Forall ptr_apart (c_args c).
Proof.
  intros Ha. unfold parse_conversion. intros (f & _ & He)%step_bind_go. destruct (parse_flags _ _ _ _) as [[fl f']|]; [|done]. cbn [mbind option_bind] in He.
  apply step_bind_go in He as (c1 & H1 & (c2 & H2 & H3)%step_bind_go). apply parse_width_apart in H1; [|done]. apply parse_precision_apart in H2; [|done]. by rewrite (parse_length_args _ _ _ H3).
Qed.

Lemma sim_format fuel src format args o1 o2 : sim o1 o2 → Forall ptr_apart args →
  match format_string_loop fuel src format args o1, format_string_loop fuel src format args o2 with Some o1, Some o2 => sim o1 o2 | None, None => True | _, _ => False end.
Proof.
  revert format args o1 o2. induction fuel as [|fuel IH]; intros format args o1 o2 Hs Ha; cbn [format_string_loop]; [done|]. destruct (src format =? 0); [done|].
  destruct (negb _); [by apply IH; [apply sim_put|]|]. destruct (parse_conversion _ _ _ _) as [[|c]|] eqn:Hp; cbn [mbind option_bind]; [done| |done].
  apply parse_apart in Hp; [|done]. pose proof (sim_convert_spec fuel src c o1 o2 Hs Hp) as Hc. destruct (convert_spec _ _ _ o1) as [[o1' a1]|], (convert_spec _ _ _ o2) as [[o2' a2]|]; try done.
  destruct Hc as (Hs' & -> & Ha'). cbn [mbind option_bind]. by apply IH.
Qed.
End truncation.

(** The size [vsnprintf] uses, and the run with a function and the one with a buffer side by side. *)
Definition usable (s n : Z) : Z := if s =? 0 then 0 else Z.min n PRINTF_MAX_POSSIBLE_BUFFER_SIZE.
Lemma sim_start m s n : 0 ≤ n → sim s (usable s n) {| o_gadget := function_gadget; o_mem := m; o_out := [] |} {| o_gadget := buffer_gadget s n; o_mem := m; o_out := [] |}.
Proof.
  intros Hn. unfold buffer_gadget, usable. split; cbn [o_gadget o_mem o_out length].
  - done.
  - destruct (Z.eqb_spec s 0) as [->|]; [done|]. cbn. split_and!; [done| |done]. destruct (Z.ltb_spec PRINTF_MAX_POSSIBLE_BUFFER_SIZE n); lia.
  - by destruct (s =? 0).
  - intros _. split; [done|]. intros x. rewrite decide_False; [done|]. destruct (s =? 0); unfold PRINTF_MAX_POSSIBLE_BUFFER_SIZE; lia.
Qed.
Lemma termination_mem s n o1 o2 x : sim s n o1 o2 → 0 ≤ n → zlen (o_out o1) < PRINTF_MAX_POSSIBLE_BUFFER_SIZE → (s = 0 → n = 0) →
  o_mem (append_termination_with_gadget o2) x =
  (let k := Z.min (zlen (o_out o1)) (n - 1) in
   if decide (0 < n ∧ s ≤ x ≤ s + k) then (if decide (x = s + k) then 0 else default 0 (o_out o1 !! Z.to_nat (x - s))) else o_mem o1 x).
Proof.
  intros [_ (Hf & Hm & Hb) Hpos Hmem] Hn Hl Hs0. destruct (Hmem Hl) as [Hp Hx]. unfold append_termination_with_gadget. rewrite Hf, Hm, Hb. cbn [orb]. destruct (Z.eqb_spec n 0) as [->|Hn0].
  { rewrite Hx, !decide_False by lia. done. }
  rewrite (proj2 (Z.eqb_neq s 0)) by lia. cbn [o_mem]. rewrite <-Hpos, Hp. assert ((if zlen (o_out o1) <? n then zlen (o_out o1) else n - 1) = Z.min (zlen (o_out o1)) (n - 1)) as -> by (case_Z1; lia).
  set (k := Z.min (zlen (o_out o1)) (n - 1)). cbv zeta. unfold store. destruct (Z.eqb_spec x (s + k)) as [->|Hne]; [by rewrite !decide_True by lia|]. rewrite Hx, (decide_False (P := x = s + k)) by done.
  destruct (decide (s ≤ x < s + _)); [rewrite decide_True by lia; done|rewrite decide_False by lia; done].
Qed.
Lemma termination_pos o : g_pos (o_gadget (append_termination_with_gadget o)) = g_pos (o_gadget o).
Proof. unfold append_termination_with_gadget. by destruct (_ || _); [|destruct (_ =? 0)]. Qed.

Lemma snprintf_spec fuel m s n fmt args r o1 :
  vfctprintf fuel m fmt args = Some (r, o1) → zlen (o_out o1) < PRINTF_MAX_POSSIBLE_BUFFER_SIZE → 0 ≤ n → Forall (ptr_apart s (usable s n)) args →
  let text := o_out o1 in
  let k := Z.min (zlen text) (usable s n - 1) in
  r = zlen text ∧ ∃ o2, vsnprintf_ fuel m s n fmt args = Some (zlen text, o2) ∧
  ∀ x, o_mem o2 x = if decide (0 < usable s n ∧ s ≤ x ≤ s + k) then (if decide (x = s + k) then 0 else default 0 (text !! Z.to_nat (x - s))) else o_mem o1 x.
Proof.
  intros Hv Hl Hn Ha text k. unfold vfctprintf, vsnprintf_, vsnprintf_impl in *.
  assert (0 ≤ usable s n ≤ PRINTF_MAX_POSSIBLE_BUFFER_SIZE) as Hu by (unfold usable, PRINTF_MAX_POSSIBLE_BUFFER_SIZE; destruct (s =? 0); lia).
  pose proof (sim_format s (usable s n) Hu fuel m fmt args _ _ (sim_start m s n Hn) Ha) as Hs.
  destruct (format_string_loop fuel m fmt args {| o_gadget := function_gadget; o_mem := m; o_out := [] |}) as [p1|]; [|done]. destruct (format_string_loop fuel m fmt args {| o_gadget := buffer_gadget s n; o_mem := m; o_out := [] |}) as [p2|]; [|done]. cbn [mbind option_bind] in *.
  assert (append_termination_with_gadget p1 = p1) as Ht by (unfold append_termination_with_gadget; by rewrite (proj1 (sim_1 _ _ _ _ Hs))). rewrite Ht in Hv. simplify_eq.
  destruct (sim_mem _ _ _ _ Hs Hl) as [Hp _]. fold text in Hp. assert (to_signed 32 (zlen text) = zlen text) as Hr.
  { unfold PRINTF_MAX_POSSIBLE_BUFFER_SIZE in Hl. unfold to_signed, text. rewrite Z.mod_small by lia. case_match; lia. }
  rewrite Hp. split; [done|]. eexists. rewrite termination_pos, <-(sim_pos _ _ _ _ Hs), Hp, Hr. split; [done|]. intros x. apply (termination_mem s (usable s n) o1 p2); [done|lia|done|]. intros ->. done.
Qed.


(** * Integers *)

(** Output to a function, with room for [k] more characters. *)
Record to_function (k : Z) (o : output) : Prop := {
  tf_gadget : o_gadget o = {| g_function := true; g_buffer := 0; g_pos := zlen (o_out o); g_max_chars := PRINTF_MAX_POSSIBLE_BUFFER_SIZE |};
  tf_room : 0 ≤ k ∧ zlen (o_out o) + k ≤ PRINTF_MAX_POSSIBLE_BUFFER_SIZE;
}.
(** [o'] is [o] after it got the characters [l]. *)
Definition got (l : list Z) (o o' : output) : Prop := o' = {| o_gadget := set_pos (zlen (o_out o ++ l)) (o_gadget o); o_mem := o_mem o; o_out := o_out o ++ l |}.

Lemma got_room l k o o' : to_function k o → got l o o' → zlen l ≤ k → to_function (k - zlen l) o'.
Proof. intros [Hg Hr] -> Hl. split; cbn [o_gadget o_out]; [by rewrite Hg|]. rewrite length_app. lia. Qed.
Lemma got_nil k o : to_function k o → got [] o o.
Proof. intros [Hg _]. unfold got. rewrite app_nil_r, Hg. cbn. destruct o; cbn in *. by rewrite Hg. Qed.
Lemma got_app l1 l2 k o o1 o2 : to_function k o → got l1 o o1 → got l2 o1 o2 → got (l1 ++ l2) o o2.
Proof. intros _ -> ->. unfold got. cbn [o_gadget o_out o_mem set_pos g_function g_buffer g_max_chars]. by rewrite app_assoc. Qed.

Lemma put_got k c o : to_function k o → 1 ≤ k → 0 ≤ c < 256 → got [c] o (putchar_via_gadget c o).
Proof.
  intros [Hg Hr] Hk Hc. unfold PRINTF_MAX_POSSIBLE_BUFFER_SIZE in *. unfold putchar_via_gadget, got. rewrite Hg. cbn [g_pos g_max_chars g_function set_pos g_buffer]. rewrite (proj2 (Z.leb_gt _ _)) by (unfold PRINTF_MAX_POSSIBLE_BUFFER_SIZE; lia).
  rewrite Z.mod_small by done. f_equal. unfold set_pos. cbn. f_equal. unfold size32. rewrite Z.mod_small by lia. rewrite length_app. cbn [length]. lia.
Qed.
Lemma put_list_got l k o : to_function k o → zlen l ≤ k → Forall (λ c, 0 ≤ c < 256) l → got l o (put_list l o).
Proof.
  revert k o. induction l as [|c l IH]; intros k o Ho Hl Hc; [by eapply got_nil|]. apply Forall_cons in Hc as [Hc Hcs]. cbn [length] in Hl.
  pose proof (put_got k c o Ho ltac:(lia) Hc) as Hp. change (c :: l) with ([c] ++ l). eapply got_app; [done..|]. apply (IH (k - 1)); [|lia|done]. by apply (got_room [c] k o _ Ho Hp); cbn; lia.
Qed.
Lemma put_repeat_list n c o : put_repeat n c o = put_list (replicate n c) o.
Proof. revert o. induction n as [|n IH]; intros o; [done|]. cbn. by rewrite IH. Qed.
Lemma pad_until_got fuel k start width o : to_function k o → start ≤ zlen (o_out o) → 0 ≤ start → 0 ≤ width → width - (zlen (o_out o) - start) ≤ k → width - (zlen (o_out o) - start) ≤ Z.of_nat fuel →
  got (replicate (Z.to_nat (width - (zlen (o_out o) - start))) 32) o (pad_until fuel start width o).
Proof.
  revert k o. induction fuel as [|fuel IH]; intros k o Ho Hst Hst0 Hw Hk Hf; cbn [pad_until].
  - replace (Z.to_nat _) with 0%nat by lia. by eapply got_nil.
  - rewrite (tf_gadget _ _ Ho). cbn [g_pos]. pose proof (tf_room _ _ Ho) as Hr. unfold PRINTF_MAX_POSSIBLE_BUFFER_SIZE in Hr.
    unfold size32. rewrite Z.mod_small by lia. destruct (Z.ltb_spec (zlen (o_out o) - start) width) as [Hlt|Hge].
    + pose proof (put_got k 32 o Ho ltac:(lia) ltac:(lia)) as Hp. set (o' := putchar_via_gadget 32 o) in *.
      assert (zlen (o_out o') = zlen (o_out o) + 1) as Hl by (rewrite Hp; cbn [o_out]; rewrite length_app; cbn; lia).
      replace (Z.to_nat (width - (zlen (o_out o) - start))) with (S (Z.to_nat (width - (zlen (o_out o') - start)))) by lia. cbn [replicate]. change (32 :: ?l) with ([32] ++ l). eapply got_app; [done..|].
      apply (IH (k - 1)); [apply (got_room [32] k o _ Ho Hp); cbn; lia|lia..].
    + replace (Z.to_nat _) with 0%nat by lia. by eapply got_nil.
Qed.

(** A text in a field of [width]: at the left, or at the right unless zeros have filled it. *)
Definition field (flags width : Z) (text : list Z) : list Z :=
  let pad := replicate (Z.to_nat (width - zlen text)) 32 in
  if has flags FLAGS_LEFT then text ++ pad else if has flags FLAGS_ZEROPAD then text else pad ++ text.
Lemma out_rev_got buf width flags k o : to_function k o → 0 ≤ width → Z.max width (zlen buf) ≤ k → Forall (λ c, 0 ≤ c < 256) buf → got (field flags width (reverse buf)) o (out_rev_ buf width flags o).
Proof.
  intros Ho Hw Hk Hb. unfold out_rev_, field. rewrite length_reverse. assert (Forall (λ c, 0 ≤ c < 256) (reverse buf)) as Hrev by by apply Forall_reverse.
  assert (∀ n, Forall (λ c, 0 ≤ c < 256) (replicate n 32)) as Hsp by (intros; apply Forall_replicate; lia).
  pose proof (tf_room _ _ Ho) as Hroom. rewrite (tf_gadget _ _ Ho) at 1. cbn [g_pos]. destruct (has flags FLAGS_LEFT); cbn [negb andb].
  - pose proof (put_list_got (reverse buf) k o Ho ltac:(rewrite length_reverse; lia) Hrev) as Hp. set (o1 := put_list (reverse buf) o) in *. eapply got_app; [done..|].
    assert (zlen (o_out o1) = zlen (o_out o) + zlen buf) as Hl by (rewrite Hp; cbn [o_out]; rewrite length_app, length_reverse; lia).
    replace (width - zlen buf) with (width - (zlen (o_out o1) - zlen (o_out o))) by lia. apply (pad_until_got _ (k - zlen buf)); try lia.
    replace (zlen buf) with (zlen (reverse buf)) by by rewrite length_reverse. apply (got_room _ k o); [done|done|rewrite length_reverse; lia].
  - destruct (has flags FLAGS_ZEROPAD); cbn [negb andb]; [apply (put_list_got _ k); [done|rewrite length_reverse; lia|done]|]. rewrite put_repeat_list.
    pose proof (put_list_got (replicate (Z.to_nat (width - zlen buf)) 32) k o Ho ltac:(rewrite length_replicate; lia) (Hsp _)) as Hp. eapply got_app; [done..|].
    apply (put_list_got _ (k - zlen (replicate (Z.to_nat (width - zlen buf)) 32))); [by apply (got_room _ k o); [..|rewrite length_replicate; lia]|rewrite length_reverse, length_replicate; lia|done].
Qed.

(** ** Digits *)

Fixpoint digits_of (n : nat) (value base : Z) : list Z :=
  match n with
  | O => []
  | S n => value mod base :: (if value / base =? 0 then [] else digits_of n (value / base) base)
  end.
Lemma digit_char_in base d flags : 2 ≤ base ≤ 16 → 0 ≤ d < base → digit_in base (digit_char d flags) d ∧ 48 ≤ digit_char d flags < 103.
Proof.
  intros Hb Hd. assert (48 ≤ digit_char d flags < 103) as Hr by (unfold digit_char; case_Z1; destruct (has flags FLAGS_UPPERCASE); lia). split; [|done]. split; [|lia]. rewrite digit_value_ref by lia. clear Hr. unfold digit_ref, digit_char.
  destruct (Z.ltb_spec d 10); [|destruct (has flags FLAGS_UPPERCASE)]; repeat case_match; f_equal; lia.
Qed.
Lemma digits_rev_spec n value base flags : 2 ≤ base ≤ 16 → 0 ≤ value < base ^ Z.of_nat n → (0 < n)%nat →
  Forall2 (digit_in base) (reverse (digits_rev n value base flags)) (reverse (digits_of n value base)) ∧ digits_value base (reverse (digits_of n value base)) = value ∧
  Forall (λ c, 48 ≤ c < 103) (digits_rev n value base flags) ∧ (1 ≤ length (digits_rev n value base flags) ≤ n)%nat.
Proof.
  intros Hb. revert value. induction n as [|n IH]; intros value Hv Hn; [lia|]. cbn [digits_rev digits_of]. rewrite !reverse_cons. pose proof (Z.mod_pos_bound value base ltac:(lia)) as Hm. pose proof (Z.div_mod value base ltac:(lia)) as Hdm.
  destruct (digit_char_in base (value mod base) flags Hb Hm) as [Hin Hr]. rewrite digits_value_snoc. destruct (Z.eqb_spec (value / base) 0) as [Hz|Hz].
  - split_and!; [constructor; [done|constructor]|cbn; lia|constructor; [done|constructor]|cbn; lia..].
  - assert (0 ≤ value / base) by (apply Z.div_pos; lia). assert (value / base < base ^ Z.of_nat n) as Hlt by (apply Z.div_lt_upper_bound; [lia|]; rewrite <-Z.pow_succ_r, <-Nat2Z.inj_succ by lia; apply Hv).
    assert (0 < n)%nat as Hn' by (destruct n; [cbn in Hlt; lia|lia]). destruct (IH (value / base)) as (H1 & H2 & H3 & H4); [lia|done|]. split_and!; [apply Forall2_app; [done|constructor; [done|constructor]]|lia|by constructor|cbn; lia..].
Qed.
Lemma digits_rev_more n n' value base flags : 2 ≤ base → 0 ≤ value < base ^ Z.of_nat n → (0 < n ≤ n')%nat → digits_rev n' value base flags = digits_rev n value base flags.
Proof.
  intros Hb. revert n' value. induction n as [|n IH]; intros [|n'] value Hv Hn; try lia. cbn [digits_rev]. f_equal. destruct (Z.eqb_spec (value / base) 0) as [|Hz]; [done|].
  assert (value / base < base ^ Z.of_nat n) as Hlt by (apply Z.div_lt_upper_bound; [lia|]; rewrite <-Z.pow_succ_r, <-Nat2Z.inj_succ by lia; apply Hv).
  assert (0 ≤ value / base) by (apply Z.div_pos; lia). apply IH; [lia|]. destruct n; [cbn in Hlt; lia|lia].
Qed.

Definition sign_text (negative : bool) (flags : Z) : list Z := if negative then [45] else if has flags FLAGS_PLUS then [43] else if has flags FLAGS_SPACE then [32] else [].
(** The digits of a number, the most significant first. *)
Definition digits_text (value base flags : Z) : list Z := reverse (digits_rev 22 value base flags).
(** A number in its field, with zeros between the sign and the digits for the flag 0. *)
Definition integer_text (value : Z) (negative : bool) (base width flags : Z) : list Z :=
  let sign := sign_text negative flags in
  let digits := digits_text value base flags in
  let zeros := if has flags FLAGS_LEFT then [] else if has flags FLAGS_ZEROPAD then replicate (Z.to_nat (width - zlen sign - zlen digits)) 48 else [] in
  field flags width (sign ++ zeros ++ digits).

Lemma has_or flags f g : has flags (Z.lor f g) = has flags f || has flags g.
Proof.
  unfold has. rewrite Z.land_lor_distr_r. rewrite <-negb_andb. f_equal. apply eq_iff_eq_true. rewrite andb_true_iff, !Z.eqb_eq, Z.lor_eq_0_iff. done.
Qed.
Lemma has_clear flags f g : has flags f = false → has (clear_flag flags f) g = has flags g.
Proof.
  unfold has, clear_flag. intros Hf%negb_false_iff%Z.eqb_eq. assert (Z.ldiff flags f = flags) as ->; [|done]. apply Z.bits_inj'. intros i Hi. rewrite Z.ldiff_spec. apply (f_equal (λ z, Z.testbit z i)) in Hf. rewrite Z.land_spec, Z.bits_0 in Hf.
  destruct (Z.testbit flags i), (Z.testbit f i); done.
Qed.
Lemma clear_id flags f : has flags f = false → clear_flag flags f = flags.
Proof.
  unfold has, clear_flag. intros Hf%negb_false_iff%Z.eqb_eq. apply Z.bits_inj'. intros i Hi. rewrite Z.ldiff_spec. apply (f_equal (λ z, Z.testbit z i)) in Hf. rewrite Z.land_spec, Z.bits_0 in Hf. destruct (Z.testbit flags i), (Z.testbit f i); done.
Qed.

Section integer.
Context (value : Z) (negative : bool) (base width flags : Z).
Context (Hbase : 2 ≤ base ≤ 16) (Hvalue : 0 ≤ value < base ^ 22) (Hwidth : 0 ≤ width).
Context (Hhash : has flags FLAGS_HASH = false) (Hptr : has flags FLAGS_POINTER = false) (Hprec : has flags FLAGS_PRECISION = false).
Context (Hzero : has flags FLAGS_LEFT = false → has flags FLAGS_ZEROPAD = true → width ≤ 32).
Let buf := digits_rev 22 value base flags.

Lemma buf_ok : Forall (λ c, 48 ≤ c < 103) buf ∧ (1 ≤ length buf ≤ 22)%nat.
Proof. destruct (digits_rev_spec 22 value base flags Hbase Hvalue ltac:(lia)) as (_ & _ & H1 & H2). done. Qed.
Lemma print_integer_digits o : print_integer value negative base 0 width flags o = print_integer_finalization buf negative base 0 width flags o.
Proof.
  unfold print_integer. rewrite Hprec. cbn [negb]. destruct (Z.eqb_spec value 0) as [->|Hne].
  - unfold buf. rewrite clear_id by done. cbn [digits_rev]. rewrite Z.mod_0_l, Z.div_0_l by lia. done.
  - unfold buf. change (Z.to_nat PRINTF_INTEGER_BUFFER_SIZE) with 32%nat. by rewrite (digits_rev_more 22 32 value base flags ltac:(lia) Hvalue ltac:(lia)).
Qed.
Lemma sign_char_text b : (length b + length (sign_text negative flags) ≤ 32)%nat → sign_char negative flags b = b ++ reverse (sign_text negative flags).
Proof.
  unfold sign_char, sign_text, PRINTF_INTEGER_BUFFER_SIZE. intros Hl. destruct negative; cbn [length] in Hl; [by rewrite (proj2 (Z.ltb_lt _ _)) by lia|].
  destruct (has flags FLAGS_PLUS); cbn [length] in Hl; [by rewrite (proj2 (Z.ltb_lt _ _)) by lia|]. destruct (has flags FLAGS_SPACE); cbn [length] in Hl; [by rewrite (proj2 (Z.ltb_lt _ _)) by lia|].
  rewrite app_nil_r. by destruct (_ <? _).
Qed.
Lemma pad_zeros_0 b : pad_zeros 0 b = b.
Proof. unfold pad_zeros. replace (Z.to_nat _) with 0%nat by (unfold PRINTF_INTEGER_BUFFER_SIZE; lia). apply app_nil_r. Qed.
(** The flags that add a prefix are not set, whatever the padding was. *)
Lemma no_prefix (b : bool) : let fl := if b then clear_flag flags FLAGS_HASH else flags in fl = flags ∧ has fl (Z.lor FLAGS_HASH FLAGS_POINTER) = false.
Proof. cbv zeta. rewrite clear_id by done. assert ((if b then flags else flags) = flags) as -> by by destruct b. by rewrite has_or, Hhash, Hptr. Qed.
Let sign := sign_text negative flags.
Let zeros := if has flags FLAGS_LEFT then [] else if has flags FLAGS_ZEROPAD then replicate (Z.to_nat (width - zlen sign - zlen buf)) 48 else [].
Lemma sign_short : zlen sign ≤ 1.
Proof. unfold sign, sign_text. repeat case_match; cbn; lia. Qed.
Lemma zero_width : (if negb (width =? 0) && has flags FLAGS_ZEROPAD && (negative || has flags (Z.lor FLAGS_PLUS FLAGS_SPACE)) then width - 1 else width) =
  if has flags FLAGS_ZEROPAD && negb (width =? 0) then width - zlen sign else width.
Proof.
  rewrite has_or. unfold sign, sign_text. destruct (Z.eqb_spec width 0); cbn; [by rewrite andb_false_r|]. rewrite andb_true_r. destruct (has flags FLAGS_ZEROPAD); cbn; [|done]. repeat case_match; cbn; lia || done.
Qed.
Lemma finalization_out o : ∃ w, print_integer_finalization buf negative base 0 width flags o = out_rev_ (buf ++ zeros ++ reverse sign) w flags o ∧ 0 ≤ w ≤ width ∧
  (has flags FLAGS_LEFT = true ∨ has flags FLAGS_ZEROPAD = false → w = width).
Proof.
  destruct buf_ok as [_ Hlen]. pose proof sign_short as Hs. unfold print_integer_finalization. rewrite zero_width. unfold zeros in *. destruct (has flags FLAGS_LEFT) eqn:Hleft; cbn [negb].
  - exists width. rewrite pad_zeros_0. destruct (no_prefix ((base =? 8) && (zlen buf <? zlen buf))) as [-> ->]. rewrite sign_char_text by (unfold sign in Hs; lia). split; [done|]. lia.
  - destruct (has flags FLAGS_ZEROPAD) eqn:Hz; cbn [andb].
    + specialize (Hzero eq_refl eq_refl). set (w := if negb (width =? 0) then width - zlen sign else width).
      assert (pad_zeros w buf = buf ++ replicate (Z.to_nat (width - zlen sign - zlen buf)) 48) as Hpad.
      { unfold pad_zeros. do 2 f_equal. unfold w, PRINTF_INTEGER_BUFFER_SIZE. destruct (Z.eqb_spec width 0); cbn [negb]; lia. }
      exists w. rewrite Hpad, pad_zeros_0. destruct (no_prefix ((base =? 8) && (zlen buf <? zlen (buf ++ replicate (Z.to_nat (width - zlen sign - zlen buf)) 48)))) as [-> ->].
      rewrite sign_char_text by (rewrite length_app, length_replicate; fold sign; lia). rewrite <-app_assoc. split; [done|]. unfold w. destruct (Z.eqb_spec width 0); cbn [negb]; (split; [lia|]); intros [?|?]; done || lia.
    + exists width. rewrite pad_zeros_0. destruct (no_prefix ((base =? 8) && (zlen buf <? zlen buf))) as [-> ->]. rewrite sign_char_text by (unfold sign in Hs; lia). split; [done|]. lia.
Qed.
Lemma print_integer_got k o : to_function k o → Z.max width 32 ≤ k → got (integer_text value negative base width flags) o (print_integer value negative base 0 width flags o).
Proof.
  intros Ho Hk. rewrite print_integer_digits. destruct buf_ok as [Hch Hlen]. pose proof sign_short as Hs. destruct (finalization_out o) as (w & -> & Hw & Hww).
  assert (Forall (λ c, 0 ≤ c < 256) (buf ++ zeros ++ reverse sign)) as Hall.
  { apply Forall_app; split; [eapply Forall_impl; [done|intros c Hc; cbn in Hc; lia]|]. apply Forall_app; split; [unfold zeros; repeat case_match; (apply Forall_nil || apply Forall_replicate); lia || done|]. unfold sign, sign_text. repeat case_match; cbn; repeat constructor; lia. }
  assert (zlen (buf ++ zeros ++ reverse sign) ≤ 32) as Hl.
  { rewrite !length_app, length_reverse. unfold zeros. destruct (has flags FLAGS_LEFT) eqn:Hleft; cbn [length]; [lia|]. destruct (has flags FLAGS_ZEROPAD) eqn:Hz; cbn [length]; [|lia]. rewrite length_replicate. specialize (Hzero eq_refl eq_refl). lia. }
  pose proof (out_rev_got (buf ++ zeros ++ reverse sign) w flags k o Ho (proj1 Hw) ltac:(lia) Hall) as Hgot. rewrite !reverse_app, reverse_involutive, <-app_assoc in Hgot. unfold integer_text. fold sign. unfold digits_text. fold buf. rewrite length_reverse. fold zeros.
  assert (reverse zeros = zeros) as Hrz by (unfold zeros; repeat case_match; [done| |done]; apply reverse_replicate). rewrite Hrz in Hgot. revert Hgot. unfold field.
  destruct (has flags FLAGS_LEFT) eqn:El; [by rewrite (Hww (or_introl eq_refl))|]. destruct (has flags FLAGS_ZEROPAD) eqn:Ez; [done|]. by rewrite (Hww (or_intror eq_refl)).
Qed.
End integer.

(** ** Directives for integers *)

Definition flags_of (fs : list Z) (flags : Z) : Z := foldl (λ fl c, match flag_of c with Some f => set_flag fl f | None => fl end) flags fs.
Definition width_of (ws : list Z) (i : Z) : Z := foldl (λ i c, size32 (i * 10 + (c - 48))) i ws.
Lemma parse_flags_spec fuel m f fs rest flags : string_at m f (fs ++ rest) → Forall (λ c, flag_of c ≠ None) fs → (∀ b r, rest = b :: r → flag_of b = None) → (length fs < fuel)%nat →
  parse_flags fuel m f flags = Some (flags_of fs flags, f + zlen fs).
Proof.
  revert fuel f flags. induction fs as [|c fs IH]; intros [|fuel] f flags Hs Hfs Hrest Hf; cbn [length] in *; try lia; cbn [parse_flags].
  - rewrite Z.add_0_r. destruct rest as [|b rest]; cbn in Hs; [by rewrite Hs|]. destruct Hs as (-> & _). by rewrite (Hrest b rest).
  - destruct Hs as (-> & _ & Hs). apply Forall_cons in Hfs as [Hc Hfs]. destruct (flag_of c) as [g|] eqn:Hg; [|done]. rewrite (IH fuel (f + 1)) by (done || lia). unfold flags_of. cbn [foldl]. rewrite Hg. do 2 f_equal. lia.
Qed.
Lemma atou_spec fuel m f ws rest i : string_at m f (ws ++ rest) → Forall (λ c, is_digit_ c = true) ws → (∀ b r, rest = b :: r → is_digit_ b = false) → (length ws < fuel)%nat →
  atou_loop fuel m f i = Some (width_of ws i, f + zlen ws).
Proof.
  revert fuel f i. induction ws as [|c ws IH]; intros [|fuel] f i Hs Hws Hrest Hf; cbn [length] in *; try lia; cbn [atou_loop].
  - rewrite Z.add_0_r. destruct rest as [|b rest]; cbn in Hs; [by rewrite Hs|]. destruct Hs as (-> & _). by rewrite (Hrest b rest).
  - destruct Hs as (-> & _ & Hs). apply Forall_cons in Hws as [-> Hws]. rewrite (IH fuel (f + 1)) by (done || lia). do 2 f_equal. lia.
Qed.

(** Flag characters, and a width without leading zeros, which would be flags. *)
Record directive (fs ws : list Z) : Prop := {
  di_flags : Forall (λ c, flag_of c ≠ None) fs;
  di_width : Forall (λ c, is_digit_ c = true) ws;
  di_start : ∀ b r, ws = b :: r → b ≠ 48;
}.
Lemma digit_not_flag c : is_digit_ c = true → c ≠ 48 → flag_of c = None.
Proof. unfold is_digit_, flag_of. intros Hd Hc. repeat case_match; try done; lia. Qed.

(** A conversion with the length [l] and the specifier [ch], read up to the specifier. *)
Lemma parse_directive fuel m fmt fs ws ch rest args : directive fs ws → string_at m fmt (37 :: fs ++ ws ++ 108 :: ch :: rest) → ch ≠ 108 → (length fs + length ws < fuel)%nat →
  parse_conversion fuel m fmt args = Some (Go {| c_format := fmt + (2 + zlen fs + zlen ws); c_flags := set_flag (flags_of fs 0) FLAGS_LONG; c_width := width_of ws 0; c_precision := 0; c_args := args |}).
Proof.
  intros [Hfs Hws Hw0] Hs Hch Hf. pose proof Hs as (_ & _ & Hs1). pose proof (string_at_app _ _ _ _ Hs1) as Hs2. pose proof (string_at_app _ _ _ _ Hs2) as Hs3. destruct Hs3 as (Hl & _ & Hc & Hcb & _).
  unfold parse_conversion, advance. assert (m (fmt + 1) ≠ 0) as H1. { pose proof (string_at_forall _ _ _ Hs1) as Hall. destruct (fs ++ ws ++ 108 :: ch :: rest) as [|b r] eqn:He; [by destruct fs, ws|]. destruct Hs1 as (-> & Hb & _). lia. }
  rewrite (proj2 (Z.eqb_neq _ 0)) by done. cbn [step_bind]. rewrite (parse_flags_spec fuel m (fmt + 1) fs (ws ++ 108 :: ch :: rest)); [|done|done| |lia].
  2: { intros b r He. destruct ws as [|w ws]; cbn in He; simplify_eq; [done|]. apply Forall_cons in Hws as [Hd _]. apply digit_not_flag; [done|by eapply Hw0]. }
  cbn [mbind option_bind]. set (p := fmt + 1 + zlen fs) in *. assert (parse_width fuel m p (flags_of fs 0) args = Some (Go {| c_format := p + zlen ws; c_flags := flags_of fs 0; c_width := width_of ws 0; c_precision := 0; c_args := args |})) as ->.
  { unfold parse_width. destruct ws as [|w ws'] eqn:Hwe.
    - cbn [app length] in *. rewrite Z.add_0_r in *. rewrite Hl. done.
    - assert (m p = w) as -> by apply Hs2. rewrite <-Hwe in *. rewrite Hwe in Hws at 1. rewrite (proj1 (proj1 (Forall_cons _ _ _) Hws)). unfold atou_. rewrite (atou_spec fuel m p ws (108 :: ch :: rest)); [done|done|by rewrite Hwe| |lia]. intros b r He. by simplify_eq. }
  cbn [step_bind]. unfold parse_precision. cbn [c_format]. rewrite Hl. cbn [Z.eqb Pos.eqb step_bind]. unfold parse_length. cbn [c_format]. rewrite Hl. cbn [Z.eqb Pos.eqb]. unfold advance. rewrite Hc, (proj2 (Z.eqb_neq ch 0)) by lia. cbn [step_bind].
  rewrite Hc, (proj2 (Z.eqb_neq ch 108)) by done. unfold with_flag. cbn [c_flags c_width c_precision c_args]. do 3 f_equal. unfold p. lia.
Qed.

(** *** Flags *)

Lemma has_set fl f g : has (set_flag fl f) g = has fl g || has f g.
Proof.
  unfold has, set_flag. rewrite Z.land_lor_distr_l, <-negb_andb. f_equal. apply eq_iff_eq_true. rewrite andb_true_iff, !Z.eqb_eq, Z.lor_eq_0_iff. done.
Qed.
Lemma has_clear_other fl f g : Z.land f g = 0 → has (clear_flag fl f) g = has fl g.
Proof.
  intros Hd. unfold has, clear_flag. do 2 f_equal. apply Z.bits_inj'. intros i Hi. rewrite !Z.land_spec, Z.ldiff_spec. apply (f_equal (λ z, Z.testbit z i)) in Hd. rewrite Z.land_spec, Z.bits_0 in Hd.
  destruct (Z.testbit fl i), (Z.testbit f i), (Z.testbit g i); done.
Qed.
Lemma has_clear_same fl f g : Z.land g f = g → has (clear_flag fl f) g = false.
Proof.
  intros Hd. unfold has, clear_flag. apply negb_false_iff, Z.eqb_eq, Z.bits_inj'. intros i Hi. rewrite Z.land_spec, Z.ldiff_spec, Z.bits_0. apply (f_equal (λ z, Z.testbit z i)) in Hd. rewrite Z.land_spec in Hd.
  destruct (Z.testbit fl i), (Z.testbit f i), (Z.testbit g i); done.
Qed.
Lemma flags_of_other fs fl g : (∀ c f, c ∈ fs → flag_of c = Some f → has f g = false) → has fl g = false → has (flags_of fs fl) g = false.
Proof.
  revert fl. induction fs as [|c fs IH]; intros fl Hall Hfl; [done|]. unfold flags_of. cbn [foldl]. apply IH; [intros c' f' Hc'; apply Hall; by right|].
  destruct (flag_of c) as [f|] eqn:Hf; [|done]. rewrite has_set, Hfl. apply (Hall c f); [by left|done].
Qed.
Lemma flags_of_high fs g : 2 ^ 5 ≤ g → Z.land g 31 = 0 → has (flags_of fs 0) g = false.
Proof.
  intros _ Hg. apply flags_of_other; [|done]. intros c f _ Hf. assert (Z.land f 31 = f) as H31 by (unfold flag_of in Hf; repeat case_match; simplify_eq; done).
  unfold has. apply negb_false_iff, Z.eqb_eq. rewrite <-H31, <-Z.land_assoc, (Z.land_comm 31), Hg. apply Z.land_0_r.
Qed.
Lemma flags_of_no_hash fs : 35 ∉ fs → has (flags_of fs 0) FLAGS_HASH = false.
Proof.
  intros Hn. apply flags_of_other; [|done]. intros c f Hc Hf. unfold flag_of in Hf. destruct (c =? 48); [by simplify_eq|]. destruct (c =? 45); [by simplify_eq|]. destruct (c =? 43); [by simplify_eq|]. destruct (c =? 32); [by simplify_eq|].
  destruct (Z.eqb_spec c 35) as [->|]; done.
Qed.
Ltac const_flags := repeat match goal with |- context [has ?a ?b] => is_const a; is_const b; let v := eval vm_compute in (has a b) in change (has a b) with v end.
Ltac flag_facts := repeat first [rewrite has_set | rewrite has_clear_other by done | rewrite has_clear_same by done | rewrite flags_of_high by done].

(** The text only depends on the flags for padding, signs and capital letters. *)
Lemma digits_rev_ext n value base fl fl' : has fl FLAGS_UPPERCASE = has fl' FLAGS_UPPERCASE → digits_rev n value base fl = digits_rev n value base fl'.
Proof. intros Hu. revert value. induction n as [|n IH]; intros value; [done|]. cbn [digits_rev]. rewrite IH. unfold digit_char. by rewrite Hu. Qed.
Lemma integer_text_ext value negative base width fl fl' : (∀ f, f ∈ [FLAGS_LEFT; FLAGS_ZEROPAD; FLAGS_PLUS; FLAGS_SPACE; FLAGS_UPPERCASE] → has fl f = has fl' f) →
  integer_text value negative base width fl = integer_text value negative base width fl'.
Proof.
  intros He. unfold integer_text, field, digits_text, sign_text. rewrite (digits_rev_ext 22 value base fl fl') by (apply He; set_solver). rewrite !(He FLAGS_LEFT), !(He FLAGS_ZEROPAD), !(He FLAGS_PLUS), !(He FLAGS_SPACE) by set_solver. done.
Qed.

(** The base of a specifier, and the flags that matter for it. *)
Definition spec_base (ch : Z) : option Z := if (ch =? 100) || (ch =? 105) || (ch =? 117) then Some 10 else if (ch =? 120) || (ch =? 88) then Some 16 else if ch =? 111 then Some 8 else None.
Definition spec_signed (ch : Z) : bool := (ch =? 100) || (ch =? 105).
Definition spec_flags (ch flags : Z) : Z :=
  let flags := if ch =? 88 then set_flag flags FLAGS_UPPERCASE else flags in if spec_signed ch then flags else clear_flag flags (Z.lor FLAGS_PLUS FLAGS_SPACE).
(** What [%...l] with the specifier [ch] prints for the argument [v]. *)
Definition long_text (fs ws : list Z) (ch base v : Z) : list Z :=
  let v := if spec_signed ch then to_signed 64 v else v mod 2 ^ 64 in
  integer_text (Z.abs v) (v <? 0) base (width_of ws 0) (spec_flags ch (flags_of fs 0)).

Lemma abs_for_printing_spec v : - 2 ^ 63 ≤ v < 2 ^ 63 → abs_for_printing v = Z.abs v.
Proof.
  intros Hv. unfold abs_for_printing. destruct (Z.ltb_spec 0 v); [rewrite wrap_small by (unfold in_usize; lia); lia|]. destruct (decide (v = - 2 ^ 63)) as [->|Hne]; [done|].
  unfold to_signed. rewrite Z.mod_small by lia. case_match; [|lia]. rewrite wrap_small by (unfold in_usize; lia). lia.
Qed.
Lemma to_signed_64_range v : - 2 ^ 63 ≤ to_signed 64 v < 2 ^ 63.
Proof. unfold to_signed. pose proof (Z.mod_pos_bound v (2 ^ 64) ltac:(lia)). case_match; lia. Qed.
Lemma width_of_range ws i : 0 ≤ i < 2 ^ 32 → 0 ≤ width_of ws i < 2 ^ 32.
Proof. revert i. induction ws as [|c ws IH]; intros i Hi; [done|]. apply IH. unfold size32. apply Z.mod_pos_bound. lia. Qed.

Section long.
Context (fs ws : list Z) (ch base : Z) (k : Z) (o : output).
Let F := flags_of fs 0.
Let width := width_of ws 0.
Context (Hzero : has F FLAGS_LEFT = false → has F FLAGS_ZEROPAD = true → width ≤ 32).
Context (Ho : to_function k o) (Hk : Z.max width 32 ≤ k).

(** Printing with flags that agree with those of the directive where it matters. *)
Lemma print_long value negative fl : 2 ≤ base ≤ 16 → 0 ≤ value < base ^ 22 → (∀ f, f ∈ [FLAGS_LEFT; FLAGS_ZEROPAD; FLAGS_PLUS; FLAGS_SPACE; FLAGS_UPPERCASE] → has fl f = has (spec_flags ch F) f) →
  has fl FLAGS_HASH = false → has fl FLAGS_POINTER = false → has fl FLAGS_PRECISION = false →
  got (integer_text value negative base width (spec_flags ch F)) o (print_integer value negative base 0 width fl o).
Proof.
  intros Hb Hv He H1 H2 H3. rewrite <-(integer_text_ext value negative base width fl (spec_flags ch F) He). pose proof (width_of_range ws 0 ltac:(lia)) as Hw. fold width in Hw.
  assert (∀ f, f = FLAGS_LEFT ∨ f = FLAGS_ZEROPAD → has (spec_flags ch F) f = has F f) as Hsp.
  { intros f Hf. unfold spec_flags. destruct (ch =? 88), (spec_signed ch); destruct Hf as [->| ->]; flag_facts; rewrite ?orb_false_r; done. }
  apply (print_integer_got value negative base width fl Hb Hv) with k; [lia|done|done|done| |done|done]. rewrite !He, !Hsp by (set_solver || auto). done.
Qed.

End long.

Lemma convert_integer_got fs ws ch base v args k o format : let F := flags_of fs 0 in let width := width_of ws 0 in
  spec_base ch = Some base → 35 ∉ fs → (has F FLAGS_LEFT = false → has F FLAGS_ZEROPAD = true → width ≤ 32) → to_function k o → Z.max width 32 ≤ k →
  ∃ o', convert_integer ch {| c_format := format; c_flags := set_flag F FLAGS_LONG; c_width := width; c_precision := 0; c_args := ALong v :: args |} o = Some (o', args) ∧ got (long_text fs ws ch base v) o o'.
Proof.
  intros F width Hbase Hhash Hzero Ho Hk. pose proof (flags_of_no_hash fs Hhash) as HF. fold F in HF. assert (∀ g, 2 ^ 5 ≤ g → Z.land g 31 = 0 → has F g = false) as Hhigh by apply flags_of_high.
  pose proof (to_signed_64_range v) as Hsv. pose proof (Z.mod_pos_bound v (2 ^ 64) ltac:(lia)) as Huv. unfold convert_integer, long_text. cbn [c_flags c_width c_precision c_args].
  assert (ch = 100 ∧ base = 10 ∨ ch = 105 ∧ base = 10 ∨ ch = 117 ∧ base = 10 ∨ ch = 120 ∧ base = 16 ∨ ch = 88 ∧ base = 16 ∨ ch = 111 ∧ base = 8) as Hch.
  { revert Hbase. unfold spec_base. destruct (Z.eqb_spec ch 100), (Z.eqb_spec ch 105), (Z.eqb_spec ch 117), (Z.eqb_spec ch 120), (Z.eqb_spec ch 88), (Z.eqb_spec ch 111); cbn; intros; simplify_eq; tauto. }
  destruct_or! Hch; destruct Hch as [-> ->]; cbn [Z.eqb Pos.eqb orb spec_signed].
  all: repeat (progress (flag_facts; const_flags; rewrite ?Hhigh by done; cbn [orb])); cbn [va_long va_ulong mbind option_bind].
  all: eexists; (split; [reflexivity|]); fold F width; rewrite ?abs_for_printing_spec by lia; rewrite ?(Z.abs_eq (v mod 2 ^ 64)), ?(proj2 (Z.ltb_ge (v mod 2 ^ 64) 0)) by lia.
  all: apply (print_long fs ws _ _ k o Hzero Ho Hk); [lia|lia| | | |].
  all: try (intros f Hf; repeat (apply elem_of_cons in Hf as [->|Hf]; [unfold spec_flags; cbn [Z.eqb Pos.eqb spec_signed orb]; fold F; flag_facts; const_flags; rewrite ?orb_false_r, ?Hhigh by done; done|]); by apply not_elem_of_nil in Hf).
  all: flag_facts; const_flags; rewrite ?HF, ?Hhigh by done; done.
Qed.

(** *** Numbers printed and read back *)

Lemma digits_value_zeros radix n ds : digits_value radix (replicate n 0 ++ ds) = digits_value radix ds.
Proof. unfold digits_value. rewrite foldl_app. f_equal. induction n as [|n IH]; [done|]. exact IH. Qed.
Lemma replicate_digits base n : 2 ≤ base → Forall2 (digit_in base) (replicate n 48) (replicate n 0).
Proof. intros Hb. induction n as [|n IH]; [constructor|]. constructor; [|done]. split; [done|lia]. Qed.

(** Digits of a base up to 16 with spaces after them do not look like the prefix of base 16. *)
Lemma no_hex base digits rest ds x r : base ≤ 16 → Forall2 (digit_in base) digits ds → digits ≠ [] → Forall (λ b, b = 32) rest → digits ++ rest = 48 :: x :: r → x = 120 ∨ x = 88 → False.
Proof.
  intros Hb Hall Hne Hrs He Hx. destruct Hall as [|b d l ds _ Hall]; [done|]. destruct Hall as [|b' d' l ds [Hd Hlt] _]; cbn in He.
  - destruct rest as [|b' rest]; simplify_eq. apply Forall_cons in Hrs as [-> _]. lia.
  - simplify_eq. destruct Hx as [->| ->]; vm_compute in Hd; simplify_eq; lia.
Qed.
(** An integer in its field is a numeral, whatever the flags are. *)
Lemma integer_text_numeral value negative base width fl : base = 8 ∨ base = 10 ∨ base = 16 → 0 ≤ value < base ^ 22 → ∃ spaces sign digits rest ds,
  integer_text value negative base width fl = spaces ++ sign ++ [] ++ digits ++ rest ∧ numeral base spaces sign [] digits rest ds base ∧
  digits ≠ [] ∧ digits_value base ds = value ∧ bool_decide (sign = [45]) = negative.
Proof.
  intros Hb Hv. assert (2 ≤ base ≤ 16) as Hb' by lia. destruct (digits_rev_spec 22 value base fl Hb' Hv ltac:(lia)) as (Hds & Hval & _ & Hlen). fold (digits_text value base fl) in Hds. set (digits := digits_text value base fl) in *. set (ds := reverse (digits_of 22 value base)) in *.
  assert (digits ≠ []) as Hne by (unfold digits, digits_text; intros He; apply (f_equal length) in He; rewrite length_reverse in He; cbn [length] in He; lia).
  assert (∀ spaces sign n rest, Forall (λ b, b = 32) spaces → sign = [] ∨ sign = [43] ∨ sign = [45] → Forall (λ b, b = 32) rest → numeral base spaces sign [] (replicate n 48 ++ digits) rest (replicate n 0 ++ ds) base) as Hnum.
  { intros spaces sign n rest Hsp Hsg Hrs. assert (Forall2 (digit_in base) (replicate n 48 ++ digits) (replicate n 0 ++ ds)) as Hall by (apply Forall2_app; [apply replicate_digits; lia|done]).
    assert (∀ b r, rest = b :: r → ¬ ∃ d, digit_in base b d) as Hrd by (intros b r ->; apply Forall_cons in Hrs as [-> _]; intros (d & Hd & _); done). split.
    - lia.
    - eapply Forall_impl; [done|]. by intros b ->.
    - done.
    - right. split_and!; [done|by unfold plain_radix; rewrite (proj2 (Z.eqb_neq base 0)) by lia|]. intros _ (x & r & He & Hx). apply (no_hex base (replicate n 48 ++ digits) rest (replicate n 0 ++ ds) x r); [lia|done|by intros [_ ?]%app_nil|done..].
    - done.
    - done.
    - intros _ _ He. by apply app_nil in He as [_ He]. }
  unfold integer_text, field. fold digits. set (pad := replicate (Z.to_nat (width - _)) 32). assert (Forall (λ b, b = 32) pad) as Hpad by by apply Forall_replicate.
  set (lead := if negative then [] else if has fl FLAGS_PLUS then [] else if has fl FLAGS_SPACE then [32] else @nil Z). set (sg := if negative then [45] else if has fl FLAGS_PLUS then [43] else @nil Z).
  assert (sign_text negative fl = lead ++ sg) as -> by (unfold sign_text, lead, sg; by repeat case_match). assert (Forall (λ b, b = 32) lead) as Hlead by (unfold lead; repeat case_match; repeat constructor).
  assert (sg = [] ∨ sg = [43] ∨ sg = [45]) as Hsg by (unfold sg; repeat case_match; auto). assert (bool_decide (sg = [45]) = negative) as Hneg by (unfold sg; by repeat case_match).
  destruct (has fl FLAGS_LEFT); [|destruct (has fl FLAGS_ZEROPAD)].
  - exists lead, sg, digits, pad, ds. split_and!; [by rewrite <-!app_assoc|by apply (Hnum lead sg 0%nat pad)|done..].
  - eexists lead, sg, (replicate _ 48 ++ digits), [], (replicate _ 0 ++ ds). split_and!; [rewrite <-!app_assoc, app_nil_r; reflexivity|by apply Hnum|by intros [? ?]%app_nil|by rewrite digits_value_zeros|done].
  - exists (pad ++ lead), sg, digits, [], ds. split_and!; [by rewrite <-!app_assoc, app_nil_r|apply (Hnum (pad ++ lead) sg 0%nat []); [by apply Forall_app|done|constructor]|done..].
Qed.

Lemma spec_is_integer ch base : spec_base ch = Some base → is_integer_spec ch = true ∧ ch ≠ 108 ∧ (base = 8 ∨ base = 10 ∨ base = 16).
Proof.
  unfold spec_base, is_integer_spec. cbn [existsb]. destruct (Z.eqb_spec ch 100), (Z.eqb_spec ch 105), (Z.eqb_spec ch 117), (Z.eqb_spec ch 120), (Z.eqb_spec ch 88), (Z.eqb_spec ch 111);
    cbn; intros; simplify_eq; (split; [done|]); (split; [lia|]); auto.
Qed.

Lemma bases_big base : base = 8 ∨ base = 10 ∨ base = 16 → 2 ^ 64 ≤ base ^ 22.
Proof. intros [->|[->| ->]]; apply Z.leb_le; vm_compute; reflexivity. Qed.

(** A directive of a format with the length [l]: its flags, its width and its specifier, not too wide when zeros fill it. *)
Record long_directive (fs ws : list Z) (ch base : Z) : Prop := {
  ld_directive : directive fs ws;
  ld_base : spec_base ch = Some base;
  ld_hash : 35 ∉ fs;
  ld_zero : has (flags_of fs 0) FLAGS_LEFT = false → has (flags_of fs 0) FLAGS_ZEROPAD = true → width_of ws 0 ≤ 32;
}.
Lemma directive_got fuel m fmt fs ws ch base rest v args k o :
  long_directive fs ws ch base → string_at m fmt (37 :: fs ++ ws ++ 108 :: ch :: rest) → (length fs + length ws < fuel)%nat → to_function k o → Z.max (width_of ws 0) 32 ≤ k →
  ∃ o', format_string_loop (S fuel) m fmt (ALong v :: args) o = format_string_loop fuel m (fmt + (3 + zlen fs + zlen ws)) args o' ∧ got (long_text fs ws ch base v) o o'.
Proof.
  intros [Hd Hb Hh Hz] Hs Hf Ho Hk. destruct (spec_is_integer ch base Hb) as (Hint & H108 & _). destruct (convert_integer_got fs ws ch base v args k o (fmt + (2 + zlen fs + zlen ws)) Hb Hh Hz Ho Hk) as (o' & Hc & Hgot). exists o'. split; [|done].
  cbn [format_string_loop]. assert (m fmt = 37) as -> by apply Hs. cbn [Z.eqb Pos.eqb negb]. rewrite (parse_directive fuel m fmt fs ws ch rest) by done. cbn [mbind option_bind]. unfold convert_spec. cbn [c_format].
  assert (m (fmt + (2 + zlen fs + zlen ws)) = ch) as ->.
  { destruct Hs as (_ & _ & Hs). apply string_at_app, string_at_app in Hs as (_ & _ & Hs & _). rewrite <-Hs. f_equal. lia. }
  rewrite Hint, Hc. cbn [mbind option_bind]. f_equal. lia.
Qed.

(** a directive for a [long] prints its number: the optional flags, the width, [l] and one of [d], [i], [u], [x], [X] and [o], anywhere in a format, give the sign, the digits
    of the value in base 10, 16 or 8, and the padding the flags ask for: spaces before, spaces after for the flag [-], and zeros between the sign and the digits for the flag [0]. *)
Theorem printf_long_exact fuel m fmt fs ws ch base rest v args k o :
  long_directive fs ws ch base → string_at m fmt (37 :: fs ++ ws ++ 108 :: ch :: rest) → (length fs + length ws < fuel)%nat → to_function k o → Z.max (width_of ws 0) 32 ≤ k →
  ∃ o', format_string_loop (S fuel) m fmt (ALong v :: args) o = format_string_loop fuel m (fmt + (3 + zlen fs + zlen ws)) args o' ∧
    o_out o' = o_out o ++ long_text fs ws ch base v ∧ o_mem o' = o_mem o.
Proof.
  intros Hd Hs Hf Ho Hk. destruct (directive_got fuel m fmt fs ws ch base rest v args k o Hd Hs Hf Ho Hk) as (o' & He & ->). by eexists.
Qed.

Lemma function_start m k : 0 ≤ k ≤ PRINTF_MAX_POSSIBLE_BUFFER_SIZE → to_function k {| o_gadget := function_gadget; o_mem := m; o_out := [] |}.
Proof. intros Hk. split; [done|]. cbn. lia. Qed.
Lemma long_text_numeral fs ws ch base v : spec_base ch = Some base → let v' := if spec_signed ch then to_signed 64 v else v mod 2 ^ 64 in ∃ spaces sign digits rest ds,
  long_text fs ws ch base v = spaces ++ sign ++ [] ++ digits ++ rest ∧ numeral base spaces sign [] digits rest ds base ∧
  digits ≠ [] ∧ apply_sign (bool_decide (sign = [45])) (digits_value base ds) = v'.
Proof.
  intros Hb v'. destruct (spec_is_integer ch base Hb) as (_ & _ & Hbase). assert (- 2 ^ 63 ≤ v' < 2 ^ 64) as Hv'.
  { unfold v'. pose proof (to_signed_64_range v). pose proof (Z.mod_pos_bound v (2 ^ 64) ltac:(lia)). destruct (spec_signed ch); lia. }
  assert (2 ^ 64 ≤ base ^ 22) as Hbig by (by apply bases_big). unfold long_text. fold v'.
  destruct (integer_text_numeral (Z.abs v') (v' <? 0) base (width_of ws 0) (spec_flags ch (flags_of fs 0)) Hbase ltac:(lia)) as (spaces & sign & digits & rest & ds & He & Hn & Hne & Hval & Hneg).
  exists spaces, sign, digits, rest, ds. split_and!; [done..|]. rewrite Hneg, Hval. unfold apply_sign. case_Z1; lia.
Qed.
(** The characters of a number: spaces, signs, zeros and digits. *)
Lemma integer_text_bytes value negative base width fl : 2 ≤ base ≤ 16 → 0 ≤ value < base ^ 22 → Forall (λ c, 0 < c < 256) (integer_text value negative base width fl) ∧ zlen (integer_text value negative base width fl) ≤ Z.max width 0 + 32.
Proof.
  intros Hb Hv. destruct (digits_rev_spec 22 value base fl Hb Hv ltac:(lia)) as (_ & _ & Hch & Hlen).
  assert (Forall (λ c, 0 < c < 256) (digits_text value base fl)) as H1 by (apply Forall_reverse; eapply Forall_impl; [done|]; intros c Hc; cbn in Hc; lia). assert (length (digits_text value base fl) ≤ 22)%nat as H2 by (unfold digits_text; rewrite length_reverse; lia).
  assert (Forall (λ c, 0 < c < 256) (sign_text negative fl) ∧ (length (sign_text negative fl) ≤ 1)%nat) as [H3 H4] by (unfold sign_text; repeat case_match; cbn; (split; [repeat constructor; lia|lia])).
  assert (∀ n c, 0 < c < 256 → Forall (λ c, 0 < c < 256) (replicate n c)) as Hrep by (intros; by apply Forall_replicate).
  unfold integer_text, field. destruct (has fl FLAGS_LEFT); [|destruct (has fl FLAGS_ZEROPAD)]; (split; [rewrite !Forall_app; auto with lia|rewrite ?length_app, ?length_replicate; cbn [length]; lia]).
Qed.

(** The format that is one directive, and what it gives a function. *)
Lemma vfctprintf_long fuel m fmt fs ws ch base v :
  long_directive fs ws ch base → string_at m fmt (37 :: fs ++ ws ++ [108; ch]) → (length fs + length ws + 1 < fuel)%nat → width_of ws 0 < 2 ^ 30 →
  let text := long_text fs ws ch base v in
  zlen text < PRINTF_MAX_POSSIBLE_BUFFER_SIZE ∧ Forall (λ c, 0 < c < 256) text ∧
  ∃ r o, vfctprintf fuel m fmt [ALong v] = Some (r, o) ∧ o_out o = text ∧ o_mem o = m.
Proof.
  intros Hd Hs Hf Hw text. destruct (spec_is_integer ch base (ld_base _ _ _ _ Hd)) as (_ & _ & Hbase). pose proof (width_of_range ws 0 ltac:(lia)) as Hw0.
  destruct (integer_text_bytes (Z.abs (if spec_signed ch then to_signed 64 v else v mod 2 ^ 64)) ((if spec_signed ch then to_signed 64 v else v mod 2 ^ 64) <? 0) base (width_of ws 0) (spec_flags ch (flags_of fs 0))) as [Hb Hl]; [lia| |].
  { pose proof (to_signed_64_range v). pose proof (Z.mod_pos_bound v (2 ^ 64) ltac:(lia)). assert (2 ^ 64 ≤ base ^ 22) by (by apply bases_big). destruct (spec_signed ch); lia. }
  split; [unfold PRINTF_MAX_POSSIBLE_BUFFER_SIZE; fold (long_text fs ws ch base v) in Hl; fold text in Hl; lia|]. split; [done|]. destruct fuel as [|fuel]; [lia|].
  destruct (directive_got fuel m fmt fs ws ch base [] v [] (2 ^ 30 + 32) {| o_gadget := function_gadget; o_mem := m; o_out := [] |} Hd Hs ltac:(lia)) as (o' & He & Hgot); [apply function_start; unfold PRINTF_MAX_POSSIBLE_BUFFER_SIZE; lia|lia|].
  unfold vfctprintf, vsnprintf_impl. rewrite He. destruct fuel as [|fuel]; [lia|]. cbn [format_string_loop].
  assert (m (fmt + (3 + zlen fs + zlen ws)) = 0) as ->. { destruct Hs as (_ & _ & Hs). apply string_at_app, string_at_app in Hs as (_ & _ & _ & _ & Hs). cbn in Hs. rewrite <-Hs. f_equal. lia. }
  cbn [Z.eqb mbind option_bind]. eexists _, _. split; [done|]. assert (append_termination_with_gadget o' = o') as -> by (rewrite Hgot; done). rewrite Hgot. done.
Qed.

Lemma string_from_bytes m s l : (∀ i, (i < length l)%nat → m (s + Z.of_nat i) = default 0 (l !! i)) → m (s + zlen l) = 0 → Forall (λ c, 0 < c < 256) l → string_at m s l.
Proof.
  revert s. induction l as [|b l IH]; intros s Hi He Hb; cbn [length] in *; [by rewrite Z.add_0_r in He|]. apply Forall_cons in Hb as [Hb Hbs]. cbn [string_at]. split; [|split; [done|]].
  - specialize (Hi 0%nat ltac:(lia)). by rewrite Z.add_0_r in Hi.
  - apply IH; [|rewrite <-He; f_equal; lia|done]. intros i Hl. specialize (Hi (S i) ltac:(lia)). change ((b :: l) !! S i) with (l !! i) in Hi. rewrite <-Hi. f_equal. lia.
Qed.

