(* ===== verification/CDemo.v ===== *)
(** Concrete memories, strings, formats and heaps at which the theorems about the C library
    apply, and runs of its functions on inputs at the edge of what they handle. *)

From stdpp Require Import prelude list.
From Stdlib Require Import ZArith Lia.
From S2P Require Import Prelude Bump Axalloc CString CStringProps CTwoWay CStrstr CStdlib CMalloc CTime CPrintf CPrintfProps.
Local Open Scope Z_scope.

(** The memory with lists of bytes at addresses, and zero elsewhere. *)
Definition place (segments : list (Z * list Z)) : memory := λ p,
  foldr (λ seg r, if (seg.1 <=? p) && (p <? seg.1 + zlen seg.2) then default 0 (seg.2 !! Z.to_nat (p - seg.1)) else r) 0 segments.
Ltac here := cbn [string_at]; repeat split; vm_compute; reflexivity.

Lemma mem_functions_exact_witness : let m : memory := λ p, p mod 256 in memmove m 1003 1000 20 1010 = m 1007 ∧ memset m 1003 65 20 1022 = 65.
Proof.
  assert (byte_memory (λ p, p mod 256)) as Hm by (intros p; apply Z.mod_pos_bound; lia).
  destruct (mem_functions_exact (λ p, p mod 256) 1003 1000 20 65 1010 Hm) as (H1 & _); [lia..|]. destruct (mem_functions_exact (λ p, p mod 256) 1003 1000 20 65 1022 Hm) as (_ & _ & H2 & _); [lia..|]. split; [exact H1|exact H2].
Defined.

(** "hello", "lhe" and "Help". *)
Definition words : memory := place [(100, [104; 101; 108; 108; 111; 0]); (200, [108; 104; 101; 0]); (300, [72; 101; 108; 112; 0])].
Lemma string_searches_exact_witness : strlen 9 words 100 = Some 5 ∧ ∃ n, strspn 9 words 100 200 = Some (Z.of_nat n) ∧ Forall (λ b, b ∈ [108; 104; 101]) (take n [104; 101; 108; 108; 111]).
Proof.
  destruct (string_searches_exact 9 words 100 [104; 101; 108; 108; 111] 108 [108; 104; 101] 200) as (H1 & _ & _ & _ & _ & n & H2 & H3 & _); [here|here|cbn; lia|cbn; lia|lia|lia|].
  split; [exact H1|]. exists n. split; [exact H2|exact H3].
Defined.
Lemma string_compare_exact_witness : ∃ d, strcasecmp 9 words 100 300 = Some d ∧ (d < 0 ↔ before [104; 101; 108; 108; 111] [104; 101; 108; 112]).
Proof.
  destruct (string_compare_exact 9 words 100 300 [104; 101; 108; 108; 111] [72; 101; 108; 112] 3) as (_ & _ & d & H1 & _ & H2 & _); [here|here|cbn; lia|lia|]. exists d. split; [exact H1|exact H2].
Defined.
Lemma strcspn_single_wrong_witness : let m := place [(100, [104; 101; 108; 108; 111; 0]); (200, [108; 0])] in strcspn 9 m 100 200 = Some 0 ∧ strpbrk 9 m 100 200 = Some (Some 100).
Proof.
  destruct (strcspn_single_wrong 9 (place [(100, [104; 101; 108; 108; 111; 0]); (200, [108; 0])]) 100 200 [104; 101; 108; 108; 111] [108]) as [_ H]; [here|here|cbn; lia|cbn; lia|].
  apply (H 108 104 [101; 108; 108; 111]); done.
Defined.
Lemma string_copies_exact_witness : ∃ m', strcat 9 words 100 300 = Some (100, m') ∧ string_at m' 100 [104; 101; 108; 108; 111; 72; 101; 108; 112].
Proof.
  destruct (string_copies_exact 9 words 100 300 [104; 101; 108; 108; 111] [72; 101; 108; 112] 2) as (_ & (m' & H1 & H2 & _) & _); [here|here|cbn; lia|cbn; lia|lia|unfold apart; cbn; lia|].
  exists m'. split; [exact H1|exact H2].
Defined.
(** A needle for the two-way search, "abaab", in "abbabaabab". *)
Lemma strstr_first_witness : ∃ r, strstr 40 (place [(100, [97; 98; 98; 97; 98; 97; 97; 98; 97; 98; 0]); (200, [97; 98; 97; 97; 98; 0])]) 100 200 = Some r ∧ first_match 100 [97; 98; 98; 97; 98; 97; 97; 98; 97; 98] [97; 98; 97; 97; 98] r.
Proof.
  apply (strstr_first 40 (place [(100, [97; 98; 98; 97; 98; 97; 97; 98; 97; 98; 0]); (200, [97; 98; 97; 97; 98; 0])]) 100 200); [here|here|cbn; lia|cbn; lia|cbn; lia].
Defined.

(** " -0x7Fz" in base 0. *)
Lemma hex_numeral : numeral 0 [32] [45] [48; 120] [55; 70] [122] [7; 15] 16.
Proof.
  split.
  - by left.
  - by repeat constructor.
  - auto.
  - left. exists 120. auto.
  - repeat constructor; vm_compute; reflexivity.
  - intros b r [= <- <-] (d & Hd & Hlt). vm_compute in Hd. injection Hd as <-. lia.
  - done.
Qed.
Lemma strtol_exact_witness : strtol 9 (place [(100, [32; 45; 48; 120; 55; 70; 122; 0])]) 100 0 = Some {| cv_value := -127; cv_end := 106; cv_errno := None |}.
Proof.
  destruct (strtol_exact 0 [32] [45] [48; 120] [55; 70] [122] [7; 15] 16 9 (place [(100, [32; 45; 48; 120; 55; 70; 122; 0])]) 100 hex_numeral) as (H & _); [here|cbn; lia|]. exact H.
Defined.
(** ["0x"] without digits: the result is zero, and [endptr] is the start, not the [x]. *)
Example strtol_bare_prefix : strtol 9 (place [(100, [48; 120; 122; 0])]) 100 16 = Some {| cv_value := 0; cv_end := 100; cv_errno := None |}.
Proof. vm_compute. reflexivity. Qed.

(** ** The heap *)

Abbreviation c_heap := (cheap region_alloc page_bump).
Definition heap0 : c_heap := {| ch_mem := λ _, 0; ch_alloc := run_init |}.
Definition run_malloc (size : Z) (s : c_heap) : Z * c_heap := match malloc size s with Some (Ret r) => r | _ => (0, s) end.
Definition block1 : Z := (run_malloc 100 heap0).1.
Definition heap1 : c_heap := (run_malloc 100 heap0).2.
Lemma heap1_step : c_step ([], heap0) ([(block1, 100)], heap1).
Proof. apply cs_malloc; [lia|lia|]. reflexivity. Qed.

(** ** Formatted output *)

Definition text_of (l : list Z) (args : list arg) : option (list Z) := r ← vfctprintf 50 (place [(100, l)]) 100 args; Some (o_out r.2).
(** "%+08ld" *)
Definition fmt1 : list Z := [37; 43; 48; 56; 108; 100].
Lemma fmt1_directive : long_directive [43; 48] [56] 100 10.
Proof.
  split; [|done| |].
  - split; [by repeat constructor|by repeat constructor|]. intros b r [= <- <-]. done.
  - intros H. repeat (apply elem_of_cons in H as [H|H]; [done|]). by apply not_elem_of_nil in H.
  - intros _ _. vm_compute. discriminate.
Qed.
Lemma printf_long_exact_witness : ∃ o', format_string_loop 11 (place [(100, fmt1)]) 100 [ALong (-42)] {| o_gadget := function_gadget; o_mem := λ _, 0; o_out := [] |} =
    format_string_loop 10 (place [(100, fmt1)]) 106 [] o' ∧ o_out o' = [45; 48; 48; 48; 48; 48; 52; 50].
Proof.
  destruct (printf_long_exact 10 (place [(100, fmt1)]) 100 [43; 48] [56] 100 10 [] (-42) [] 50 {| o_gadget := function_gadget; o_mem := λ _, 0; o_out := [] |} fmt1_directive) as (o' & H1 & H2 & _).
  - here.
  - cbn. lia.
  - split; [done|]. cbn. unfold PRINTF_MAX_POSSIBLE_BUFFER_SIZE. lia.
  - vm_compute. discriminate.
  - exists o'. split; [exact H1|exact H2].
Defined.

(** The buffer for digits has 32 bytes: "%b" prints the low 32 bits of a [long], and "%033ld" has no room for the sign. *)
Example printf_binary_cut : text_of [37; 108; 98] [ALong (2 ^ 40 + 5)] = text_of [37; 48; 51; 50; 98] [AInt 5].
Proof. vm_compute. reflexivity. Qed.
Example printf_sign_lost : text_of [37; 48; 51; 51; 108; 100] [ALong (-5)] = text_of [37; 48; 51; 50; 108; 100] [ALong 5].
Proof. vm_compute. reflexivity. Qed.
(** A format that ends in the width of a directive is read past its end: the bytes after "%5" are printed. *)
Example printf_reads_past_end : text_of [37; 53; 0; 115; 101; 99; 114; 101; 116] [] = Some [0; 115; 101; 99; 114; 101; 116].
Proof. vm_compute. reflexivity. Qed.
