(* ===== verification/CStdio.v ===== *)
(** Streams of the C library: [ulib/axlibc/c/stdio.c] on the descriptor table of [FdTable.v],
    with the wrappers of the system calls ([src/io.rs], [src/utils.rs]), the error texts
    ([src/errno.rs]) and the formatter of [CPrintf.v].

    A [FILE] is a descriptor and a buffer for output.  Where C has no defined behaviour, a
    store outside the buffer, a division by zero, the result is [Panic]; a loop that is still
    running after its fuel is [None].  The theorems: buffered output arrives in order and
    complete at a file that takes what it is given; [fread] and [fwrite] transfer everything;
    on a descriptor that fails they never return. *)

From stdpp Require Import prelude list gmap.
From Stdlib Require Import ZArith Lia.
From S2P Require Import Prelude FdTable CString CStringProps CPrintf.
Local Open Scope Z_scope.
Local Open Scope kernel_scope.

Definition FILE_BUF_SIZE : Z := 1024.
Record FILE : Type := { fd : Z; buffer_len : Z; buf : list Z }.
Definition std_FILE (n : Z) : FILE := {| fd := n; buffer_len := 0; buf := replicate 1024 0 |}.

(** The descriptors with their files, and [errno]. *)
Record cstate (P : Type) : Type := { cs_posix : P; cs_errno : Z }.
Arguments cs_posix {P} _.
Arguments cs_errno {P} _.
Arguments Build_cstate {P} _ _.

(** [e] of [utils.rs] on the result of a system call, which it gets as a [c_int]. *)
Definition e {P} (ret : Z) (s : cstate P) : outcome (Z * cstate P) :=
  let ret := to_signed 32 ret in
  if ret <? 0 then Ret (-1, {| cs_posix := cs_posix s; cs_errno := to_signed 32 (Z.abs ret) |}) else Ret (ret, s).

(** The bytes [m[p]], ..., [m[p + n - 1]], and storing bytes from [p] on. *)
Definition bytes_at (m : memory) (p n : Z) : list Z := (λ i, m (p + i)) <$> seqZ 0 n.
Definition put_bytes (m : memory) (p : Z) (l : list Z) : memory := λ q,
  if p <=? q then default (m q) (l !! Z.to_nat (q - p)) else m q.

Section stdio.
Context {Fl W : Type} {errnos : AxErrno} {table : FlattenObjects Fl} {flike : FileLike Fl W}.
Abbreviation st := (cstate (posix Fl W)).

(** ** System calls *)

Definition read (fd ptr count : Z) (s : st) : outcome (Z * list Z * st) :=
  match sys_read fd (if ptr =? 0 then None else Some tt) count (cs_posix s) with
  | Ret (r, data, p) => '(r, s) ← e r {| cs_posix := p; cs_errno := cs_errno s |}; Ret (r, data, s)
  | Panic => Panic
  end.
Definition write (fd : Z) (src : option (list Z)) (s : st) : outcome (Z * st) :=
  match sys_write fd src (cs_posix s) with
  | Ret (r, p) => e r {| cs_posix := p; cs_errno := cs_errno s |}
  | Panic => Panic
  end.
Definition close (fd : Z) (s : st) : outcome (Z * st) :=
  match sys_close fd (cs_posix s) with
  | Ret (r, p) => e r {| cs_posix := p; cs_errno := cs_errno s |}
  | Panic => Panic
  end.

(** ** Buffered output *)

Definition __write_buffer (f : FILE) (s : st) : outcome (Z * st) :=
  if buffer_len f =? 0 then Ret (0, s)
  else if FILE_BUF_SIZE <? buffer_len f then Panic
  else '(r, s) ← write (fd f) (Some (take (Z.to_nat (buffer_len f)) (buf f))) s; Ret (to_signed 32 r, s).
Definition __clear_buffer (f : FILE) : FILE := {| fd := fd f; buffer_len := 0; buf := buf f |}.
Definition __fflush (f : FILE) (s : st) : outcome (Z * FILE * st) :=
  '(r, s) ← __write_buffer f s;
  Ret (if 0 <=? r then 0 else r, __clear_buffer f, s).
Definition fflush := __fflush.

(** [f->buf[f->buffer_len++] = c]; [buffer_len] is a [uint16_t]. *)
Definition buf_push (c : Z) (f : FILE) : outcome FILE :=
  if buffer_len f <? FILE_BUF_SIZE then
    Ret {| fd := fd f; buffer_len := (buffer_len f + 1) mod 2 ^ 16; buf := <[Z.to_nat (buffer_len f) := c]> (buf f) |}
  else Panic.

Fixpoint out_loop (l : list Z) (ret : Z) (f : FILE) (s : st) : outcome (Z * FILE * st) :=
  match l with
  | [] => Ret (ret, f, s)
  | c :: l =>
      f ← buf_push c f;
      if (buffer_len f =? FILE_BUF_SIZE) || (c =? 10) then
        '(r, s) ← __write_buffer f s;
        let f := __clear_buffer f in
        if r <? 0 then Ret (r, f, s)
        else if r <? buffer_len f then Ret (to_signed 32 (ret + r), f, s)
        else out_loop l (to_signed 32 (ret + r)) f s
      else out_loop l ret f s
  end.
Definition out (f : FILE) (l : list Z) (s : st) : outcome (Z * FILE * st) := out_loop l 0 f s.

Definition do_putc (c : Z) (f : FILE) (s : st) : outcome (Z * FILE * st) := out f [c mod 256] s.
Definition fputc := do_putc.

(** The characters of the formatter, one call of [__out_wrapper] each. *)
Fixpoint out_wrapper (l : list Z) (f : FILE) (s : st) : outcome (FILE * st) :=
  match l with
  | [] => Ret (f, s)
  | c :: l => '(_, f, s) ← out f [c] s; out_wrapper l f s
  end.
Definition vfprintf (fuel : nat) (m : memory) (f : FILE) (fmt : Z) (ap : list arg) (s : st) : option (outcome (Z * FILE * st)) :=
  '(ret, o) ← vfctprintf fuel m fmt ap;
  Some ('(f, s) ← out_wrapper (o_out o) f s; Ret (ret, f, s)).

(** The lock is held during both writes. *)
Definition puts (fuel : nat) (m : memory) (str : Z) (s : st) : option (outcome (Z * st)) :=
  l ← strlen fuel m str;
  Some ('(r, s) ← write 1 (if str =? 0 then None else Some (bytes_at m str l)) s;
        '(_, s) ← write 1 (Some [10]) s;
        Ret (to_signed 32 r, s)).

(** [perror] on [stderr]; [msg] and [errstr] are the characters of the two strings. *)
Definition perror (msg : option (list Z)) (errstr : list Z) (stderr : FILE) (s : st) : outcome (FILE * st) :=
  '(stderr, s) ← match msg with
                 | Some ((_ :: _) as msg) => '(_, f, s) ← out stderr msg s; '(_, f, s) ← out f [58; 32] s; Ret (f, s)
                 | _ => Ret (stderr, s)
                 end;
  '(_, f, s) ← out stderr errstr s;
  '(_, f, s) ← out f [10] s;
  Ret (f, s).

(** ** Unbuffered input and output *)

(** At most [n - 1] characters. *)
Fixpoint fgets_loop (rounds : nat) (fd : Z) (m : memory) (str cnt : Z) (s : st) : outcome (memory * Z * st) :=
  match rounds with
  | O => Ret (m, cnt, s)
  | S rounds =>
      '(r, data, s) ← read fd 1 1 s;
      if 0 <? r then
        let c := default 0 (head data) in
        if c =? 10 then Ret (m, cnt, s)
        else fgets_loop rounds fd (store m (str + cnt) c) str (cnt + 1) s
      else Ret (m, cnt, s)
  end.
(** [None] is the null pointer. *)
Definition fgets (m : memory) (str n : Z) (f : FILE) (s : st) : outcome (option Z * memory * st) :=
  if n =? 0 then Ret (None, m, s)
  else if n =? 1 then Ret (Some str, store m str 0, s)
  else
    '(m, cnt, s) ← fgets_loop (Z.to_nat (n - 1)) (fd f) m str 0 s;
    Ret (Some str, store m (str + cnt) 0, s).

(** [size_t] is unsigned: the test [len < 0] is never true, and [-1] is [2 ^ 64 - 1]. *)
Fixpoint fread_loop (fuel : nat) (fd destv total read_len : Z) (m : memory) (s : st) : option (outcome (Z * memory * st)) :=
  match fuel with
  | O => None
  | S fuel =>
      match read fd (wrap (destv + read_len)) (wrap (total - read_len)) s with
      | Panic => Some Panic
      | Ret (r, data, s) =>
          let len := wrap r in
          let m := put_bytes m (wrap (destv + read_len)) data in
          if len <? 0 then Some (Ret (read_len, m, s))
          else
            let read_len := wrap (read_len + len) in
            if 0 <? len then fread_loop fuel fd destv total read_len m s else Some (Ret (read_len, m, s))
      end
  end.
(** [done == size * nmemb ? nmemb : done / size]. *)
Definition items (len size nmemb : Z) : outcome Z :=
  if len =? wrap (size * nmemb) then Ret nmemb else if size =? 0 then Panic else Ret (len / size).
Definition fread (fuel : nat) (m : memory) (destv size nmemb : Z) (f : FILE) (s : st) : option (outcome (Z * memory * st)) :=
  x ← fread_loop fuel (fd f) destv (wrap (size * nmemb)) 0 m s;
  Some ('(read_len, m, s) ← x; n ← items read_len size nmemb; Ret (n, m, s)).

Fixpoint fwrite_loop (fuel : nat) (fd src total write_len : Z) (m : memory) (s : st) : option (outcome (Z * st)) :=
  match fuel with
  | O => None
  | S fuel =>
      let p := wrap (src + write_len) in
      match write fd (if p =? 0 then None else Some (bytes_at m p (wrap (total - write_len)))) s with
      | Panic => Some Panic
      | Ret (r, s) =>
          let len := wrap r in
          if len <? 0 then Some (Ret (write_len, s))
          else
            let write_len := wrap (write_len + len) in
            if 0 <? len then fwrite_loop fuel fd src total write_len m s else Some (Ret (write_len, s))
      end
  end.
Definition fwrite (fuel : nat) (m : memory) (src size nmemb : Z) (f : FILE) (s : st) : option (outcome (Z * st)) :=
  x ← fwrite_loop fuel (fd f) src (wrap (size * nmemb)) 0 m s;
  Some ('(write_len, s) ← x; n ← items write_len size nmemb; Ret (n, s)).
Definition fputs (fuel : nat) (m : memory) (str : Z) (f : FILE) (s : st) : option (outcome (Z * st)) :=
  l ← strlen fuel m str;
  x ← fwrite fuel m str 1 l f s;
  Some ('(n, s) ← x; Ret ((if n =? l then 1 else 0) - 1, s)).

Definition fclose (f : FILE) (s : st) : outcome (Z * st) := close (fd f) s.
Definition fileno (f : FILE) : Z := fd f.

End stdio.

(** ** Lemmas *)

Section properties.
Context {Fl W : Type} {errnos : AxErrno} {table : FlattenObjects Fl} {flike : FileLike Fl W}.
Context {elaws : AxErrnoLaws} {tlaws : FlattenLaws AX_FILE_LIMIT}.
Abbreviation st := (cstate (posix Fl W)).
Implicit Types (s : st) (f : FILE) (m : memory).

Definition file_at s (n : Z) : option Fl := fd_map (cs_posix s) n.
Definition world s : W := px_world (cs_posix s).
Definition with_world (w : W) s : st := {| cs_posix := set_world w (cs_posix s); cs_errno := cs_errno s |}.

Lemma to_signed_small r : - 2 ^ 31 ≤ r < 2 ^ 31 → to_signed 32 r = r.
Proof.
  intros Hr. unfold to_signed. change (2 ^ (32 - 1)) with (2 ^ 31). destruct (decide (0 ≤ r)).
  - rewrite Z.mod_small by lia. rewrite (proj2 (Z.ltb_lt _ _)); lia.
  - rewrite <-(Z.mod_unique r (2 ^ 32) (-1) (r + 2 ^ 32)) by lia. rewrite (proj2 (Z.ltb_ge _ _)); lia.
Qed.
Lemma e_ok {P} r (s : cstate P) : 0 ≤ r < 2 ^ 31 → e r s = Ret (r, s).
Proof. intros Hr. unfold e. rewrite to_signed_small by lia. by rewrite (proj2 (Z.ltb_ge _ _)) by lia. Qed.
Lemma e_err {P} err (s : cstate P) : e (- errno err) s = Ret (-1, {| cs_posix := cs_posix s; cs_errno := errno err |}).
Proof.
  pose proof (errno_range err). unfold e. rewrite to_signed_small by lia. rewrite (proj2 (Z.ltb_lt _ _)) by lia. rewrite to_signed_small by lia. do 3 f_equal. lia.
Qed.

Lemma write_ok n s g l k w : is_int n → file_at s n = Some g → fl_write g l (world s) = Ret (Ok k, w) → 0 ≤ k < 2 ^ 31 →
  write n (Some l) s = Ret (k, with_world w s).
Proof.
  intros Hn Hg Hw Hk. unfold write, sys_write, syscall_body, sm_bind. rewrite get_file_like_eq by done. unfold file_at in Hg. rewrite Hg. cbn.
  unfold on_world. unfold world in Hw. rewrite Hw. cbn. by rewrite e_ok.
Qed.
Lemma read_ok n ptr k s g data w : is_int n → file_at s n = Some g → ptr ≠ 0 → fl_read g k (world s) = Ret (Ok data, w) → Z.of_nat (length data) < 2 ^ 31 →
  read n ptr k s = Ret (Z.of_nat (length data), data, with_world w s).
Proof.
  intros Hn Hg Hp Hw Hk. unfold read, sys_read, sm_bind. rewrite (proj2 (Z.eqb_neq _ _)) by done. rewrite get_file_like_eq by done. unfold file_at in Hg. rewrite Hg. cbn.
  unfold on_world. unfold world in Hw. rewrite Hw. rewrite e_ok by lia. done.
Qed.

(** *** Buffered output *)

Definition pending f : list Z := take (Z.to_nat (buffer_len f)) (buf f).
Definition buf_wf f : Prop := length (buf f) = 1024%nat ∧ 0 ≤ buffer_len f < FILE_BUF_SIZE.

(** The file takes what it is given, a buffer at a time; [content] is what it got. *)
Definition takes_all (g : Fl) (content : W → list Z) : Prop := ∀ l w, (length l ≤ 1024)%nat →
  ∃ w', fl_write g l w = Ret (Ok (Z.of_nat (length l)), w') ∧ content w' = content w ++ l.

Lemma buf_push_spec c f : buf_wf f → ∃ f', buf_push c f = Ret f' ∧ fd f' = fd f ∧ buffer_len f' = buffer_len f + 1 ∧ length (buf f') = 1024%nat ∧ pending f' = pending f ++ [c].
Proof.
  intros [Hl Hb]. unfold buf_push, FILE_BUF_SIZE in *. rewrite (proj2 (Z.ltb_lt _ _)) by lia. eexists. split; [reflexivity|]. cbn. rewrite Z.mod_small by lia.
  split; [done|]. split; [done|]. rewrite length_insert. split; [done|]. unfold pending. cbn. rewrite Z2Nat.inj_add by lia. rewrite Nat.add_1_r.
  rewrite (take_S_r _ _ c); [by rewrite take_insert_ge by lia|]. apply list_lookup_insert_eq. lia.
Qed.

Section sink.
Context (g : Fl) (content : W → list Z) (Hg : takes_all g content).

Record stream_ok f s : Prop := {
  so_buf : buf_wf f;
  so_fd : is_int (fd f);
  so_file : file_at s (fd f) = Some g;
  so_line : 10 ∉ pending f;
}.
(** What the file has and what it will get. *)
Definition text_of f s : list Z := content (world s) ++ pending f.

Lemma write_buffer_spec f s : length (buf f) = 1024%nat → 0 ≤ buffer_len f ≤ FILE_BUF_SIZE → is_int (fd f) → file_at s (fd f) = Some g →
  ∃ w, __write_buffer f s = Ret (buffer_len f, with_world w s) ∧ content w = text_of f s.
Proof.
  intros Hl Hb Hi Hf. unfold __write_buffer, FILE_BUF_SIZE, text_of, pending in *. destruct (Z.eqb_spec (buffer_len f) 0) as [E|E].
  - exists (world s). rewrite E. cbn. rewrite app_nil_r. split; [|done]. destruct s as [[]]. done.
  - rewrite (proj2 (Z.ltb_ge _ _)) by lia. destruct (Hg (take (Z.to_nat (buffer_len f)) (buf f)) (world s)) as (w & Hw & Hc); [rewrite length_take; lia|].
    rewrite length_take_le in Hw by lia. rewrite Z2Nat.id in Hw by lia. exists w. rewrite (write_ok _ _ _ _ _ _ Hi Hf Hw) by lia. cbn. rewrite to_signed_small by lia. done.
Qed.

Lemma cleared_ok f s w : stream_ok f s → stream_ok (__clear_buffer f) (with_world w s).
Proof. intros [[H1 H2] H3 H4 H5]. split; [split; [done|unfold FILE_BUF_SIZE; cbn; lia]|done|done|apply not_elem_of_nil]. Qed.

Definition same_table s s' : Prop := FD_TABLE (cs_posix s') = FD_TABLE (cs_posix s) ∧ cs_errno s' = cs_errno s.

Lemma out_loop_spec l ret f s : stream_ok f s → ∃ ret' f' s', out_loop l ret f s = Ret (ret', f', s') ∧ stream_ok f' s' ∧ fd f' = fd f ∧ same_table s s' ∧ text_of f' s' = text_of f s ++ l.
Proof.
  revert ret f s. induction l as [|c l IH]; intros ret f s Hs; cbn.
  - exists ret, f, s. rewrite app_nil_r. done.
  - destruct (buf_push_spec c f) as (f1 & -> & Hfd & Hbl & Hlen & Hpend); [apply Hs|]. cbn. destruct (so_buf _ _ Hs) as [_ Hb]. unfold FILE_BUF_SIZE in *.
    destruct ((buffer_len f1 =? 1024) || (c =? 10)) eqn:Ec.
    + destruct (write_buffer_spec f1 s) as (w & -> & Hw); [done|unfold FILE_BUF_SIZE; lia|rewrite Hfd; apply Hs|rewrite Hfd; apply Hs|]. cbn.
      rewrite (proj2 (Z.ltb_ge _ _)) by lia.
      destruct (IH (to_signed 32 (ret + buffer_len f1)) (__clear_buffer f1) (with_world w s)) as (r' & f' & s' & E & H1 & H2 & H3 & H4).
      { destruct Hs as [Hs1 Hs2 Hs3 Hs4]. split; [split; [done|unfold FILE_BUF_SIZE; cbn; lia]|cbn; by rewrite Hfd|cbn; by rewrite Hfd|apply not_elem_of_nil]. }
      exists r', f', s'. split; [exact E|]. split; [done|]. split; [by rewrite H2|]. split; [exact H3|]. rewrite H4. unfold text_of at 1. cbn. rewrite app_nil_r.
      change (content w ++ l = text_of f s ++ c :: l). rewrite Hw. unfold text_of. rewrite Hpend. by rewrite <-!app_assoc.
    + apply orb_false_iff in Ec as [E1%Z.eqb_neq E2%Z.eqb_neq]. destruct (IH ret f1 s) as (r' & f' & s' & E & H1 & H2 & H3 & H4).
      { destruct Hs as [Hs1 Hs2 Hs3 Hs4]. split; [split; [done|unfold FILE_BUF_SIZE; lia]|by rewrite Hfd|by rewrite Hfd|]. rewrite Hpend. intros [Hin|Hin%list_elem_of_singleton]%elem_of_app; congruence. }
      exists r', f', s'. split; [exact E|]. split; [done|]. split; [by rewrite H2|]. split; [exact H3|]. rewrite H4. unfold text_of. rewrite Hpend. by rewrite <-!app_assoc.
Qed.

Lemma out_wrapper_spec l f s : stream_ok f s → ∃ f' s', out_wrapper l f s = Ret (f', s') ∧ stream_ok f' s' ∧ fd f' = fd f ∧ same_table s s' ∧ text_of f' s' = text_of f s ++ l.
Proof.
  revert f s. induction l as [|c l IH]; intros f s Hs; cbn [out_wrapper].
  - exists f, s. rewrite app_nil_r. done.
  - unfold out. destruct (out_loop_spec [c] 0 f s Hs) as (r1 & f1 & s1 & -> & H1 & H2 & [H3 H3'] & H4). cbn.
    destruct (IH f1 s1 H1) as (f' & s' & -> & I1 & I2 & [I3 I3'] & I4). exists f', s'. split; [done|]. split; [done|]. split; [congruence|]. split; [split; congruence|].
    by rewrite I4, H4, <-app_assoc.
Qed.
Lemma fflush_spec f s : stream_ok f s → ∃ w, fflush f s = Ret (0, __clear_buffer f, with_world w s) ∧ content w = text_of f s.
Proof.
  intros Hs. destruct Hs as [[Hl Hb] Hi Hf _]. destruct (write_buffer_spec f s Hl ltac:(unfold FILE_BUF_SIZE in *; lia) Hi Hf) as (w & E & Hw). exists w. split; [|done].
  unfold fflush, __fflush. rewrite E. cbn. by rewrite (proj2 (Z.leb_le _ _)) by lia.
Qed.
End sink.

(** Calls on one stream, and the text each adds to it. *)
Inductive stream_call : Type :=
| Fputc (c : Z)
| Fprintf (fuel : nat) (m : memory) (fmt : Z) (ap : list arg)
| Fflush.
Definition run_stream (c : stream_call) f s : option (outcome (Z * FILE * st)) :=
  match c with
  | Fputc c => Some (fputc c f s)
  | Fprintf fuel m fmt ap => vfprintf fuel m f fmt ap s
  | Fflush => Some (fflush f s)
  end.
Fixpoint run_streams (l : list stream_call) f s : option (outcome (FILE * st)) :=
  match l with
  | [] => Some (Ret (f, s))
  | c :: l => x ← run_stream c f s; match x with Ret (_, f, s) => run_streams l f s | Panic => Some Panic end
  end.
Definition call_text (c : stream_call) : option (list Z) :=
  match c with
  | Fputc c => Some [c mod 256]
  | Fprintf fuel m fmt ap => '(_, o) ← vfctprintf fuel m fmt ap; Some (o_out o)
  | Fflush => Some []
  end.

Lemma run_stream_spec g content c f s txt : takes_all g content → stream_ok g f s → call_text c = Some txt →
  ∃ r f' s', run_stream c f s = Some (Ret (r, f', s')) ∧ stream_ok g f' s' ∧ fd f' = fd f ∧ same_table s s' ∧ text_of content f' s' = text_of content f s ++ txt.
Proof.
  intros Hg Hs Ht. destruct c as [c|fuel m fmt ap|]; cbn in Ht.
  - injection Ht as <-. destruct (out_loop_spec g content Hg [c mod 256] 0 f s Hs) as (r & f' & s' & E & H). exists r, f', s'. split; [|exact H]. unfold run_stream, fputc, do_putc, out. by rewrite E.
  - cbn. unfold vfprintf. destruct (vfctprintf fuel m fmt ap) as [[ret o]|]; [|done]. cbn in *. injection Ht as <-.
    destruct (out_wrapper_spec g content Hg (o_out o) f s Hs) as (f' & s' & E & H). exists ret, f', s'. split; [|exact H]. by rewrite E.
  - injection Ht as <-. destruct (fflush_spec g content Hg f s Hs) as (w & E & Hw). exists 0, (__clear_buffer f), (with_world w s). split; [unfold run_stream; by rewrite E|].
    split; [by apply cleared_ok|]. split; [done|]. split; [done|]. rewrite app_nil_r. unfold text_of at 1. cbn. rewrite app_nil_r. exact Hw.
Qed.


(** *** Blocks *)

(** The file has the bytes [left] to read and gives at least one while there are any and there
    is room; it takes at least one byte of what it is given. *)
Definition gives (g : Fl) (left : W → list Z) : Prop := ∀ n w, 0 ≤ n → ∃ data w', fl_read g n w = Ret (Ok data, w') ∧
  left w = data ++ left w' ∧ Z.of_nat (length data) ≤ n ∧ (data = [] → n = 0 ∨ left w = []).
Definition takes_some (g : Fl) (content : W → list Z) : Prop := ∀ l w, ∃ n w', fl_write g l w = Ret (Ok n, w') ∧
  0 ≤ n ≤ Z.of_nat (length l) ∧ content w' = content w ++ take (Z.to_nat n) l ∧ (n = 0 → l = []).

Lemma put_bytes_app m p l1 l2 q : put_bytes (put_bytes m p l1) (p + Z.of_nat (length l1)) l2 q = put_bytes m p (l1 ++ l2) q.
Proof.
  unfold put_bytes. destruct (Z.leb_spec p q); destruct (Z.leb_spec (p + Z.of_nat (length l1)) q); try lia; try done.
  - rewrite lookup_app_r by lia. rewrite (lookup_ge_None_2 l1) by lia. cbn. do 2 f_equal. lia.
  - by rewrite lookup_app_l by lia.
Qed.
Lemma put_bytes_ext m m' p l q : (∀ q, m q = m' q) → put_bytes m p l q = put_bytes m' p l q.
Proof. intros H. unfold put_bytes. by rewrite H. Qed.
Lemma put_bytes_nil m p q : put_bytes m p [] q = m q.
Proof. unfold put_bytes. by destruct (_ <=? _). Qed.
Lemma bytes_at_length m p n : length (bytes_at m p n) = Z.to_nat n.
Proof. unfold bytes_at. by rewrite length_fmap, length_seqZ. Qed.
Lemma bytes_at_drop m p n k : 0 ≤ k ≤ n → bytes_at m p n = take (Z.to_nat k) (bytes_at m p n) ++ bytes_at m (p + k) (n - k).
Proof.
  intros Hk. rewrite <-(take_drop (Z.to_nat k) (bytes_at m p n)) at 1. f_equal. unfold bytes_at. rewrite <-fmap_drop.
  replace (drop (Z.to_nat k) (seqZ 0 n)) with (seqZ k (n - k)).
  - apply list_eq. intros i. rewrite !list_lookup_fmap. destruct (decide (Z.of_nat i < n - k)).
    + rewrite !lookup_seqZ_lt by lia. cbn. do 2 f_equal. lia.
    + by rewrite !lookup_seqZ_ge by lia.
  - apply list_eq. intros i. rewrite lookup_drop. destruct (decide (Z.of_nat i < n - k)).
    + rewrite !lookup_seqZ_lt by lia. f_equal. lia.
    + by rewrite !lookup_seqZ_ge by lia.
Qed.

Section blocks.
Context (g : Fl) (n : Z) (Hn : is_int n).

Lemma fread_loop_spec left fuel destv total read_len m s : gives g left → file_at s n = Some g →
  0 ≤ read_len ≤ total → total < 2 ^ 31 → 0 < destv → destv + total < 2 ^ 64 → total - read_len < Z.of_nat fuel →
  let data := take (Z.to_nat (total - read_len)) (left (world s)) in
  ∃ m' w, fread_loop fuel n destv total read_len m s = Some (Ret (read_len + Z.of_nat (length data), m', with_world w s)) ∧
    left (world s) = data ++ left w ∧ ∀ q, m' q = put_bytes m (destv + read_len) data q.
Proof.
  intros Hg. revert read_len m s. induction fuel as [|fuel IH]; intros read_len m s Hf Hr Ht Hd Hd' Hfuel data; [lia|].
  destruct (Hg (total - read_len) (world s)) as (d & w & Er & Hl & Hle & Hnil); [lia|]. cbn [fread_loop]. rewrite (wrap_small (destv + read_len)), (wrap_small (total - read_len)) by (unfold in_usize; lia).
  rewrite (read_ok n (destv + read_len) (total - read_len) s g d w) by first [done|lia]. rewrite (wrap_small (Z.of_nat (length d))) by (unfold in_usize; lia). cbv zeta.
  rewrite (proj2 (Z.ltb_ge _ 0)) by lia. rewrite (wrap_small (read_len + _)) by (unfold in_usize; lia). destruct (Z.ltb_spec 0 (Z.of_nat (length d))) as [Hpos|Hz].
  - destruct (IH (read_len + Z.of_nat (length d)) (put_bytes m (destv + read_len) d) (with_world w s) Hf ltac:(lia) Ht Hd Hd' ltac:(lia)) as (m' & w' & E & Hl' & Hm).
    assert (data = d ++ take (Z.to_nat (total - (read_len + Z.of_nat (length d)))) (left w)) as Edata.
    { unfold data. rewrite Hl, take_app, (take_ge d) by lia. do 2 f_equal. lia. }
    exists m', w'. rewrite E, Edata, length_app. split; [by rewrite Nat2Z.inj_add, Z.add_assoc|]. rewrite <-app_assoc. split; [rewrite Hl; f_equal; exact Hl'|]. intros q. rewrite Hm.
    rewrite Z.add_assoc. apply put_bytes_app.
  - assert (d = []) as -> by (by apply length_zero_iff_nil; lia). assert (data = []) as ->.
    { unfold data. destruct (Hnil eq_refl) as [H0| ->]; [by rewrite H0|by rewrite take_nil]. }
    exists (put_bytes m (destv + read_len) []), w. cbn. split; [done|]. split; [done|]. done.
Qed.
Lemma fwrite_loop_spec content fuel src total write_len m s : takes_some g content → file_at s n = Some g →
  0 ≤ write_len ≤ total → total < 2 ^ 31 → 0 < src → src + total < 2 ^ 64 → total - write_len < Z.of_nat fuel →
  ∃ w, fwrite_loop fuel n src total write_len m s = Some (Ret (total, with_world w s)) ∧ content w = content (world s) ++ bytes_at m (src + write_len) (total - write_len).
Proof.
  intros Hg. revert write_len s. induction fuel as [|fuel IH]; intros write_len s Hf Hr Ht Hd Hd' Hfuel; [lia|]. cbn [fwrite_loop]. rewrite (wrap_small (src + write_len)), (wrap_small (total - write_len)) by (unfold in_usize; lia).
  cbv zeta. rewrite (proj2 (Z.eqb_neq _ 0)) by lia. destruct (Hg (bytes_at m (src + write_len) (total - write_len)) (world s)) as (k & w & Ew & Hk & Hc & H0). rewrite bytes_at_length in Hk.
  rewrite (write_ok _ _ _ _ _ _ Hn Hf Ew) by lia. rewrite (wrap_small k) by (unfold in_usize; lia). rewrite (proj2 (Z.ltb_ge k 0)) by lia. rewrite (wrap_small (write_len + k)) by (unfold in_usize; lia).
  destruct (Z.ltb_spec 0 k).
  - destruct (IH (write_len + k) (with_world w s) Hf ltac:(lia) Ht Hd Hd' ltac:(lia)) as (w' & E & Hc'). exists w'. split; [exact E|]. rewrite Hc'. cbn. rewrite Hc, <-app_assoc. f_equal.
    etrans; [|symmetry; apply (bytes_at_drop _ _ _ k); lia]. f_equal. f_equal; lia.
  - assert (k = 0) as -> by lia. specialize (H0 eq_refl). assert (total = write_len) as -> by (apply (f_equal length) in H0; rewrite bytes_at_length in H0; cbn in H0; lia).
    exists w. rewrite Z.add_0_r, Z.sub_diag. split; [done|]. rewrite Hc. done.
Qed.

(** What [file_at s n] does with every call. *)
Definition read_fails s : Prop := match file_at s n with Some g => ∀ k w, ∃ err w', fl_read g k w = Ret (Err err, w') | None => True end.
Definition write_fails s : Prop := match file_at s n with Some g => ∀ l w, ∃ err w', fl_write g l w = Ret (Err err, w') | None => True end.
Lemma read_failed s ptr k : read_fails s → ∃ w err, read n ptr k s = Ret (-1, [], {| cs_posix := set_world w (cs_posix s); cs_errno := err |}).
Proof.
  intros H. unfold read, sys_read, read_fails, file_at in *. destruct (Z.eqb_spec ptr 0).
  - cbn. rewrite e_err. cbn. exists (world s), (errno LinuxError.EFAULT). by destruct s as [[]].
  - unfold sm_bind. rewrite get_file_like_eq by done. destruct (fd_map _ n) as [g'|]; cbn.
    + unfold on_world. destruct (H k (px_world (cs_posix s))) as (err & w & ->). rewrite e_err. by exists w, (errno err).
    + rewrite e_err. exists (world s), (errno LinuxError.EBADF). by destruct s as [[]].
Qed.
Lemma write_failed s l : write_fails s → ∃ w err, write n l s = Ret (-1, {| cs_posix := set_world w (cs_posix s); cs_errno := err |}).
Proof.
  intros H. unfold write, sys_write, syscall_body, write_fails, file_at in *. destruct l as [l|].
  - unfold sm_bind. rewrite get_file_like_eq by done. destruct (fd_map _ n) as [g'|]; cbn.
    + unfold on_world. destruct (H l (px_world (cs_posix s))) as (err & w & ->). cbn. rewrite e_err. by exists w, (errno err).
    + rewrite e_err. exists (world s), (errno LinuxError.EBADF). by destruct s as [[]].
  - cbn. rewrite e_err. exists (world s), (errno LinuxError.EFAULT). by destruct s as [[]].
Qed.
Lemma fread_loop_hangs fuel destv total read_len m s : read_fails s → fread_loop fuel n destv total read_len m s = None.
Proof.
  revert read_len m s. induction fuel as [|fuel IH]; intros read_len m s H; [done|]. cbn [fread_loop]. destruct (read_failed s (wrap (destv + read_len)) (wrap (total - read_len)) H) as (w & err & ->).
  change (wrap (-1)) with (2 ^ 64 - 1). cbv zeta. change (2 ^ 64 - 1 <? 0) with false. change (0 <? 2 ^ 64 - 1) with true. cbv iota. by apply IH.
Qed.
Lemma fwrite_loop_hangs fuel src total write_len m s : write_fails s → fwrite_loop fuel n src total write_len m s = None.
Proof.
  revert write_len s. induction fuel as [|fuel IH]; intros write_len s H; [done|]. cbn [fwrite_loop]. cbv zeta. edestruct (write_failed s) as (w & err & ->); [exact H|].
  change (wrap (-1)) with (2 ^ 64 - 1). change (2 ^ 64 - 1 <? 0) with false. change (0 <? 2 ^ 64 - 1) with true. cbv iota. by apply IH.
Qed.
End blocks.

(** The next line, without the newline and of at most [k] characters, and what follows it. *)
Fixpoint line (k : nat) (l : list Z) : list Z * list Z :=
  match k, l with
  | S k, c :: l => if c =? 10 then ([], l) else let '(a, r) := line k l in (c :: a, r)
  | _, _ => ([], l)
  end.
Lemma put_bytes_one m p c q : 0 ≤ c < 256 → store m p c q = put_bytes m p [c] q.
Proof.
  intros Hc. unfold store, put_bytes. rewrite Z.mod_small by lia. destruct (Z.eqb_spec q p) as [Hq|Hq]; destruct (Z.leb_spec p q); try lia; try done.
  - by rewrite Hq, Z.sub_diag.
  - by rewrite lookup_ge_None_2 by (cbn; lia).
Qed.
Lemma fgets_loop_spec g n left rounds m str cnt s : is_int n → gives g left → file_at s n = Some g → Forall (λ c, 0 ≤ c < 256) (left (world s)) →
  let '(l, rest) := line rounds (left (world s)) in
  ∃ m' w, fgets_loop rounds n m str cnt s = Ret (m', cnt + Z.of_nat (length l), with_world w s) ∧ left w = rest ∧ ∀ q, m' q = put_bytes m (str + cnt) l q.
Proof.
  intros Hn Hg. assert (∀ s, with_world (world s) s = s) as Hsame by (intros [[]]; done).
  revert m cnt s. induction rounds as [|rounds IH]; intros m cnt s Hf Hb; cbn [line fgets_loop].
  - exists m, (world s). rewrite Hsame, Z.add_0_r. split; [done|]. split; [done|]. intros q. by rewrite put_bytes_nil.
  - destruct (Hg 1 (world s)) as (d & w & Er & Hl & Hle & Hnil); [lia|]. rewrite (read_ok n 1 1 s g d w) by first [done|lia]. cbn [mbind outcome_bind]. rewrite Hl in Hb |- *.
    destruct d as [|c [|c2 d]]; cbn in Hle; [|clear Hle|lia].
    + destruct (Hnil eq_refl) as [|H0]; [lia|]. rewrite Hl in H0. cbn in H0 |- *. rewrite H0. exists m, w. split; [by rewrite Z.add_0_r|]. split; [done|]. intros q. by rewrite put_bytes_nil.
    + apply Forall_cons in Hb as [Hc Hb]. cbn. destruct (Z.eqb_spec c 10).
      * exists m, w. split; [by rewrite Z.add_0_r|]. split; [done|]. intros q. by rewrite put_bytes_nil.
      * specialize (IH (store m (str + cnt) c) (cnt + 1) (with_world w s) Hf Hb). cbn in IH. destruct (line rounds (left w)) as [l rest]. destruct IH as (m' & w' & E & Hw & Hm).
        exists m', w'. rewrite E. split; [do 2 f_equal; cbn [length]; f_equal; lia|]. split; [done|]. intros q. rewrite Hm, (put_bytes_ext _ (put_bytes m (str + cnt) [c])) by (intros; by apply put_bytes_one).
        rewrite Z.add_assoc. apply (put_bytes_app m (str + cnt) [c] l q).
Qed.

(** Blocks and lines are transferred completely.  On a file that gives at least a byte while
    it has any, [fread] returns with the next [size * nmemb] bytes of the file, or all it has, at
    [p] and with the number of whole items; [fgets] returns with the next line, cut to [k - 1]
    characters and without its newline, as a string at [p], and it never returns a null pointer,
    also at the end of the file.  On a file that takes at least a byte of what it is given,
    [fwrite] returns with all bytes delivered.  The fuel is one round for each byte and one more. *)
Theorem block_io_exact g left content f m p size nmemb k fuel s :
  is_int (fd f) → file_at s (fd f) = Some g → 0 < size → 0 ≤ nmemb → size * nmemb < 2 ^ 31 → 0 < p → p + size * nmemb < 2 ^ 64 → size * nmemb < Z.of_nat fuel →
  (gives g left → let data := take (Z.to_nat (size * nmemb)) (left (world s)) in ∃ m' w,
     fread fuel m p size nmemb f s = Some (Ret (Z.of_nat (length data) / size, m', with_world w s)) ∧ left (world s) = data ++ left w ∧ ∀ q, m' q = put_bytes m p data q) ∧
  (gives g left → 1 < k → Forall (λ c, 0 ≤ c < 256) (left (world s)) → let '(l, rest) := line (Z.to_nat (k - 1)) (left (world s)) in ∃ m' w,
     fgets m p k f s = Ret (Some p, m', with_world w s) ∧ left w = rest ∧ ∀ q, m' q = put_bytes m p (l ++ [0]) q) ∧
  (takes_some g content → ∃ w, fwrite fuel m p size nmemb f s = Some (Ret (nmemb, with_world w s)) ∧ content w = content (world s) ++ bytes_at m p (size * nmemb)).
Proof.
  intros Hi Hf Hs Hn Ht Hp Hp' Hfuel. assert (0 ≤ size * nmemb) as H0 by nia. split_and!.
  - intros Hg data. unfold fread. rewrite (wrap_small (size * nmemb)) by (unfold in_usize; lia).
    destruct (fread_loop_spec g (fd f) Hi left fuel p (size * nmemb) 0 m s Hg Hf) as (m' & w & E & Hl & Hm); try lia. rewrite Z.sub_0_r in E, Hl, Hm. rewrite Z.add_0_l in E. fold data in E, Hl, Hm.
    rewrite E. cbn [mbind option_bind outcome_bind]. exists m', w. split; [|split; [done|intros q; by rewrite Hm, Z.add_0_r]]. unfold items. rewrite (wrap_small (size * nmemb)) by (unfold in_usize; lia).
    destruct (Z.eqb_spec (Z.of_nat (length data)) (size * nmemb)) as [->|]; [|by rewrite (proj2 (Z.eqb_neq size 0)) by lia]. rewrite Z.mul_comm, Z.div_mul by lia. done.
  - intros Hg Hk Hb. pose proof (fgets_loop_spec g (fd f) left (Z.to_nat (k - 1)) m p 0 s Hi Hg Hf Hb) as H. destruct (line _ _) as [l rest]. destruct H as (m' & w & E & Hw & Hm).
    unfold fgets. rewrite (proj2 (Z.eqb_neq k 0)), (proj2 (Z.eqb_neq k 1)) by lia. rewrite E. cbn [mbind outcome_bind]. exists (store m' (p + (0 + Z.of_nat (length l))) 0), w. split; [done|]. split; [done|].
    intros q. rewrite put_bytes_one, Z.add_0_l by lia. rewrite (put_bytes_ext m' (put_bytes m p l)) by (intros; by rewrite Hm, Z.add_0_r). apply put_bytes_app.
  - intros Hg. unfold fwrite. rewrite (wrap_small (size * nmemb)) by (unfold in_usize; lia).
    destruct (fwrite_loop_spec g (fd f) Hi content fuel p (size * nmemb) 0 m s Hg Hf) as (w & E & Hc); try lia. rewrite E. exists w. cbn [mbind option_bind outcome_bind].
    unfold items. rewrite (wrap_small (size * nmemb)) by (unfold in_usize; lia). rewrite Z.eqb_refl. split; [done|]. by rewrite Hc, Z.add_0_r, Z.sub_0_r.
Qed.

(** C40: [fread], [fwrite] and [fputs] never return when the descriptor fails: it is not open, or
    its file answers every call with an error.  The code tests an unsigned length for being
    negative where it means to end the loop. *)
Theorem io_errors_hang f m p size nmemb fuel s : is_int (fd f) →
  (read_fails (fd f) s → fread fuel m p size nmemb f s = None) ∧
  (write_fails (fd f) s → fwrite fuel m p size nmemb f s = None ∧ fputs fuel m p f s = None).
Proof.
  intros Hi. split.
  - intros H. unfold fread. by rewrite fread_loop_hangs.
  - intros H. split; [unfold fwrite; by rewrite fwrite_loop_hangs|]. unfold fputs. destruct (strlen fuel m p); [|done]. cbn. unfold fwrite. by rewrite fwrite_loop_hangs.
Qed.

End properties.
