(* ===== verification/CFopen.v ===== *)
(** Opening streams in the C library ([fopen] of [ulib/axlibc/c/stdio.c] with [open] of
    [c/fcntl.c] and [ax_open] of [src/fs.rs]) on the system calls of [PosixFs.v], and the error
    texts of [src/errno.rs].

    The memory of a new [FILE] comes from [malloc] and has what was in it before.  The theorems:
    the mode gives the options the C standard asks for; the first character put to a new stream
    goes where the uninitialised length says; an error text keeps the end of a longer one before
    it. *)

From stdpp Require Import prelude list gmap.
From Stdlib Require Import ZArith Lia.
From S2P Require Import Prelude Vfs Root Fops FdTable PosixFs CString CStdio.
Local Open Scope Z_scope.
Local Open Scope kernel_scope.

(** [fcntl.h] and [errno.h]. *)
Definition O_RDWR : Z := 2.
Definition O_CLOEXEC : Z := 524288.
Definition EINVAL : Z := 22.

(** Strings are their characters, without the terminator; [*mode] of an empty one is 0. *)
Definition first_char (mode : list Z) : Z := default 0 (head mode).
Definition has_char (c : Z) (mode : list Z) : bool := bool_decide (c ∈ mode ++ [0]).

Definition __fmodeflags (mode : list Z) : Z :=
  let c := first_char mode in
  let flags := if has_char 43 mode then O_RDWR else if c =? 114 then O_RDONLY else O_WRONLY in
  let flags := if has_char 120 mode then Z.lor flags O_EXCL else flags in
  let flags := if has_char 101 mode then Z.lor flags O_CLOEXEC else flags in
  let flags := if negb (c =? 114) then Z.lor flags O_CREAT else flags in
  let flags := if c =? 119 then Z.lor flags O_TRUNC else flags in
  if c =? 97 then Z.lor flags O_APPEND else flags.

(** [strerror]: the buffer of 256 bytes and the text of an error of the crate [axerrno]. *)
Definition Success : list Z := [83; 117; 99; 99; 101; 115; 115].
Definition Unknown_error : list Z := [85; 110; 107; 110; 111; 119; 110; 32; 101; 114; 114; 111; 114].
Definition strerror (as_str : Z → option (list Z)) (code : Z) (strerror_buf : list Z) : outcome (list Z) :=
  let err_str := if code =? 0 then Success else default Unknown_error (as_str code) in
  if (256 <? length err_str)%nat then Panic
  else Ret (err_str ++ drop (length err_str) strerror_buf).

Section fopen.
Context {N F St : Type} {perms : VfsNodePerm} {nops : VfsNodeOps N St} {vops : VfsOps F N St} {pops : PathOps}
  {caps : CapAccess} {errnos : AxErrno} {tcode : VfsTypeCode}.
Context {O WO : Type} {other : FileLike O WO} {table : FlattenObjects (FileObj O)}.
Abbreviation st := (cstate (posix (FileObj O) (kernel N F St WO))).

(** [open] passes the mode on only with [O_CREAT] or [O_TMPFILE]; [ax_open] does not use it. *)
Definition c_open (filename : option cstr) (flags mode : Z) (s : st) : outcome (Z * st) :=
  match sys_open filename flags mode (cs_posix s) with
  | Ret (r, p) => e r {| cs_posix := p; cs_errno := cs_errno s |}
  | Panic => Panic
  end.

(** [block] is what [malloc] returned: a null pointer or memory with some contents.  On failure
    the block is not given back. *)
Definition fopen (filename : option cstr) (mode : list Z) (block : option FILE) (s : st) : outcome (option FILE * st) :=
  if negb (has_char (first_char mode) [114; 119; 97]) then Ret (None, {| cs_posix := cs_posix s; cs_errno := EINVAL |})
  else
    let flags := __fmodeflags mode in
    '(fd, s) ← c_open filename flags (if Z.land flags O_CREAT =? 0 then 0 else 438) s;
    if fd <? 0 then Ret (None, s)
    else match block with
         | None => Panic
         | Some f => Ret (Some {| fd := fd; buffer_len := buffer_len f; buf := buf f |}, s)
         end.

(** A file that was opened has the contents of the block as its buffer: with a length that is
    not below the size of the buffer the first [fputc] stores outside it.  The C standard asks
    for a stream with an empty buffer. *)
Theorem fopen_uninitialised filename mode garbage f s s' c : fopen filename mode (Some garbage) s = Ret (Some f, s') →
  buffer_len f = buffer_len garbage ∧ (FILE_BUF_SIZE ≤ buffer_len garbage → fputc c f s' = Panic).
Proof.
  unfold fopen. destruct (negb _); [done|]. destruct (c_open _ _ _ s) as [[n s1]|]; [|done]. cbn. destruct (n <? 0); [done|]. intros [= <- <-]. split; [done|].
  intros Hb. unfold fputc, do_putc, out. cbn. unfold buf_push. cbn. by rewrite (proj2 (Z.ltb_ge _ _)).
Qed.
End fopen.

(** The options of a mode that starts with [r], [w] or [a] are those of the C standard: [+] adds
    the other direction, [w] creates and cuts, [a] creates and appends.  The [x] for a file
    that must be new has no effect. *)
Theorem fopen_modes c rest : c ∈ [114; 119; 97] →
  let plus := has_char 43 (c :: rest) in
  flags_to_options (__fmodeflags (c :: rest)) =
    {| oo_read := plus || (c =? 114); oo_write := plus || negb (c =? 114); oo_append := c =? 97; oo_truncate := c =? 119;
       oo_create := negb (c =? 114); oo_create_new := false; oo_custom_flags := oo_custom_flags OpenOptions_new; oo_mode := oo_mode OpenOptions_new |}.
Proof.
  intros Hc plus. unfold __fmodeflags. fold plus. cbn [first_char head default from_option id]. generalize (has_char 120 (c :: rest)), (has_char 101 (c :: rest)). intros x y.
  apply list_elem_of_In in Hc as [<-|[<-|[<-|[]]]]; destruct plus, x, y; reflexivity.
Qed.

(** An empty mode is accepted, since [strchr] finds the terminator: the file is created and
    opened for writing. *)
Theorem fopen_empty_mode :
  has_char (first_char []) [114; 119; 97] = true ∧ flags_to_options (__fmodeflags []) = set_create true (set_write true OpenOptions_new).
Proof. split; reflexivity. Qed.

(** The characters up to the terminator. *)
Fixpoint c_str (l : list Z) : list Z :=
  match l with
  | [] => []
  | c :: l => if c =? 0 then [] else c :: c_str l
  end.
(** The text of an error is followed by what a longer text before it has left in the buffer. *)
Theorem strerror_stale as_str code strerror_buf b : strerror as_str code strerror_buf = Ret b → (∀ t, as_str code = Some t → 0 ∉ t) →
  let text := if code =? 0 then Success else default Unknown_error (as_str code) in
  c_str b = text ++ c_str (drop (length text) strerror_buf).
Proof.
  intros E Ht. unfold strerror in E. cbv zeta in *. set (text := if code =? 0 then _ else _) in *. destruct (256 <? length text)%nat; [done|]. injection E as <-.
  assert (0 ∉ text) as H0.
  { unfold text. destruct (code =? 0); [by apply (bool_decide_unpack _)|]. destruct (as_str code); [by apply Ht|by apply (bool_decide_unpack _)]. }
  generalize (drop (length text) strerror_buf). intros tl. clearbody text. induction text as [|c text IH]; [done|]. apply not_elem_of_cons in H0 as [Hc H0]. cbn.
  rewrite (proj2 (Z.eqb_neq c 0)) by done. by rewrite IH.
Qed.
