(* ===== verification/CStdioDemo.v ===== *)
(** Streams of the C library at work: the theorems of [CStdio.v] and [CFopen.v] on a terminal and
    on files of the RAM filesystem, and runs that show where the streams differ from the C
    standard. *)

From stdpp Require Import prelude list gmap.
From Stdlib Require Import ZArith Lia.
From S2P Require Import Prelude FdTable PosixFs AxfsDemo CString CPrintf CStdio CFopen.
Local Open Scope Z_scope.
Local Open Scope kernel_scope.

(** A terminal (descriptors 0 to 2), what is typed and what is printed; and a file that fails
    (descriptor 3). *)
Record tty : Type := { typed : list Z; printed : list Z }.
Definition tty_like : FileLike bool tty := {|
  fl_read (f : bool) n w := if f then Ret (Ok (take (Z.to_nat n) (typed w)), {| typed := drop (Z.to_nat n) (typed w); printed := printed w |}) else Ret (Err LinuxError.EPERM, w);
  fl_write (f : bool) l w := if f then Ret (Ok (Z.of_nat (length l)), {| typed := typed w; printed := printed w ++ l |}) else Ret (Err LinuxError.EPERM, w);
  fl_stat _ w := Ret (Ok stat_default, w); fl_poll _ w := Ret (Ok {| poll_readable := true; poll_writable := true |}, w);
  fl_set_nonblocking _ _ w := Ret (Ok tt, w); fl_clone _ w := w; fl_drop _ w := w |}.
#[local] Existing Instances tty_like std_errnos std_errnos_laws std_table std_table_laws.

Definition terminal : cstate (posix bool tty) :=
  {| cs_posix := {| FD_TABLE := (<[0 := true]> (<[1 := true]> (<[2 := true]> (<[3 := false]> ∅))) : gmap Z bool); px_world := {| typed := [104; 105; 10; 120]; printed := [] |} |}; cs_errno := 0 |}.

Lemma tty_takes_all : takes_all (Fl := bool) true printed.
Proof. intros l w _. by eexists. Qed.
Lemma tty_takes_some : takes_some (Fl := bool) true printed.
Proof. intros l w. eexists _, _. split; [reflexivity|]. split; [lia|]. split; [by rewrite Nat2Z.id, firstn_all|]. intros H. apply length_zero_iff_nil. lia. Qed.
Lemma tty_gives : gives (Fl := bool) true typed.
Proof.
  intros n w Hn. eexists _, _. split; [reflexivity|]. cbn. split; [by rewrite take_drop|]. split; [rewrite length_take; lia|]. intros [H|H]%take_nil_inv; [left; lia|by right].
Qed.
Lemma terminal_stdout : stream_ok true (std_FILE 1) terminal.
Proof. split; [split; [reflexivity|unfold FILE_BUF_SIZE; cbn; lia]|unfold is_int; cbn; lia|reflexivity|apply not_elem_of_nil]. Qed.

(** Memory with the strings [hi %d] at 64 and [b] at 80. *)
Definition demo_mem : memory := λ p, default 0 (([104; 105; 32; 37; 100] ++ replicate 11 0 ++ [98]) !! Z.to_nat (p - 64)).
Definition demo_calls : list stream_call := [Fputc 65; Fprintf 100 demo_mem 64 [AInt 42]; Fputc 10; Fputc 66].
Definition demo_texts : list (list Z) := [[65]; [104; 105; 32; 52; 50]; [10]; [66]].


Lemma block_io_exact_witness : ∃ m w, fread 10 demo_mem 200 1 3 (std_FILE 0) terminal = Some (Ret (3, m, with_world w terminal)) ∧ typed w = [120] ∧ m 201 = 105.
Proof.
  destruct (block_io_exact true typed printed (std_FILE 0) demo_mem 200 1 3 3 10 terminal) as (H & _); [unfold is_int; cbn; lia|reflexivity|lia|lia|lia|lia|lia|lia|].
  destruct (H tty_gives) as (m & w & E & Hl & Hm). exists m, w. split; [exact E|]. split; [|by rewrite Hm].
  change ([104; 105; 10; 120] = [104; 105; 10] ++ typed w) in Hl. apply (app_inv_head [104; 105; 10]). symmetry. exact Hl.
Defined.

Lemma io_errors_hang_witness : fread 1000 demo_mem 200 1 3 (std_FILE 3) terminal = None ∧ fputs 1000 demo_mem 64 (std_FILE 7) terminal = None.
Proof.
  split.
  - apply (io_errors_hang (std_FILE 3) demo_mem 200 1 3 1000 terminal); [unfold is_int; cbn; lia|]. change (∀ (k : Z) (w : tty), ∃ err w', fl_read false k w = Ret (Err err, w')). intros k w. by eexists _, _.
  - apply (io_errors_hang (std_FILE 7) demo_mem 64 1 3 1000 terminal); [unfold is_int; cbn; lia|exact I].
Defined.

(** [fputc('a', stdout); fputs("b", stdout); fflush(stdout);] prints [ba]: [fputs] does not use
    the buffer. *)
Example fputs_overtakes :
  match fputc 97 (std_FILE 1) terminal with
  | Ret (_, f, s) => match fputs 10 demo_mem 80 f s with
                     | Some (Ret (0, s)) => match fflush f s with Ret (0, _, s) => printed (world s) | _ => [] end
                     | _ => []
                     end
  | _ => []
  end = [98; 97].
Proof. vm_compute. reflexivity. Qed.

(** The end of the file and an empty line look the same to the caller of [fgets]. *)
Definition typing (l : list Z) : cstate (posix bool tty) := with_world {| typed := l; printed := [] |} terminal.
Example fgets_hides_end :
  (λ x, (x.1.1, bytes_at x.1.2 200 3)) <$> fgets demo_mem 200 10 (std_FILE 0) (typing []) = (λ x, (x.1.1, bytes_at x.1.2 200 3)) <$> fgets demo_mem 200 10 (std_FILE 0) (typing [10]).
Proof. vm_compute. reflexivity. Qed.

(** [strerror] after a longer text: [Success] is followed by the end of [Unknown error]. *)
Example strerror_mixes : (strerror (λ _, None) 99 (replicate 256 0) ≫= strerror (λ _, None) 0) ≫= (λ b, Ret (c_str b)) = Ret (Success ++ [32; 101; 114; 114; 111; 114]).
Proof. vm_compute. reflexivity. Qed.
