(* ===== verification/Riscv.v ===== *)
(** The RISC-V machine of the assembly code: registers, control and status registers, memory
    and the instructions that the kernel's assembly uses ([guest.S], [trap.S], the naked
    functions of [context.rs] and [setjmp.rs]).

    Memory is a map from addresses to the doublewords at them; a load or store at an address
    that is not a multiple of 8 has no result.  A control register keeps what is written to
    it: the code here only writes back values it has read from the same register, and
    constants that set defined fields.  The code is run symbolically: [sexec] computes what
    it does for all values at once, [sexec_sound] shows that the machine does the same. *)

From stdpp Require Import prelude list.
From Stdlib Require Import ZArith Lia.
From S2P Require Import Prelude.
Local Open Scope Z_scope.

(** ** Registers *)

Inductive GprIndex : Type :=
  | Zero | RA | SP | GP | TP | T0 | T1 | T2 | S0 | S1
  | A0 | A1 | A2 | A3 | A4 | A5 | A6 | A7
  | S2 | S3 | S4 | S5 | S6 | S7 | S8 | S9 | S10 | S11 | T3 | T4 | T5 | T6.
#[export] Instance GprIndex_eq_dec : EqDecision GprIndex.
Proof. solve_decision. Defined.
(** [index as usize]. *)
Definition gpr_index (r : GprIndex) : nat :=
  match r with
  | Zero => 0 | RA => 1 | SP => 2 | GP => 3 | TP => 4 | T0 => 5 | T1 => 6 | T2 => 7 | S0 => 8 | S1 => 9
  | A0 => 10 | A1 => 11 | A2 => 12 | A3 => 13 | A4 => 14 | A5 => 15 | A6 => 16 | A7 => 17
  | S2 => 18 | S3 => 19 | S4 => 20 | S5 => 21 | S6 => 22 | S7 => 23 | S8 => 24 | S9 => 25 | S10 => 26 | S11 => 27
  | T3 => 28 | T4 => 29 | T5 => 30 | T6 => 31
  end%nat.
Definition from_raw (raw : Z) : option GprIndex :=
  match raw with
  | 0 => Some Zero | 1 => Some RA | 2 => Some SP | 3 => Some GP | 4 => Some TP | 5 => Some T0 | 6 => Some T1 | 7 => Some T2
  | 8 => Some S0 | 9 => Some S1 | 10 => Some A0 | 11 => Some A1 | 12 => Some A2 | 13 => Some A3 | 14 => Some A4 | 15 => Some A5
  | 16 => Some A6 | 17 => Some A7 | 18 => Some S2 | 19 => Some S3 | 20 => Some S4 | 21 => Some S5 | 22 => Some S6 | 23 => Some S7
  | 24 => Some S8 | 25 => Some S9 | 26 => Some S10 | 27 => Some S11 | 28 => Some T3 | 29 => Some T4 | 30 => Some T5 | 31 => Some T6
  | _ => None
  end.
Inductive csr : Type :=
  | Sstatus | Sie | Stvec | Scounteren | Sscratch | Sepc | Scause | Stval | Satp
  | Hstatus | Hedeleg | Hideleg | Hcounteren | Hvip | Hgatp | Htval | Htinst.
#[export] Instance csr_eq_dec : EqDecision csr.
Proof. solve_decision. Defined.

Record hart : Type := { gpr : GprIndex → Z; csrs : csr → Z; mem : Z → Z }.
Definition upd {K} `{EqDecision K} (k : K) (v : Z) (f : K → Z) : K → Z := λ j, if decide (j = k) then v else f j.
(** [x0] reads as zero and ignores what is written to it. *)
Definition rget (m : hart) (r : GprIndex) : Z := if decide (r = Zero) then 0 else gpr m r.
Definition rset (r : GprIndex) (v : Z) (m : hart) : hart :=
  {| gpr := if decide (r = Zero) then gpr m else upd r v (gpr m); csrs := csrs m; mem := mem m |}.
Definition cset (c : csr) (v : Z) (m : hart) : hart := {| gpr := gpr m; csrs := upd c v (csrs m); mem := mem m |}.
Definition mset (a v : Z) (m : hart) : hart := {| gpr := gpr m; csrs := csrs m; mem := upd a v (mem m) |}.

(** ** Instructions *)

Inductive instr : Type :=
  | Sd (rs : GprIndex) (off : Z) (base : GprIndex)
  | Ld (rd : GprIndex) (off : Z) (base : GprIndex)
  | Csrrw (rd : GprIndex) (c : csr) (rs : GprIndex)
  | Csrr (rd : GprIndex) (c : csr)
  | Csrw (c : csr) (rs : GprIndex)
  | Mv (rd rs : GprIndex)
  | Li (rd : GprIndex) (imm : Z)
  | Addi (rd rs : GprIndex) (imm : Z)
  | Add (rd rs1 rs2 : GprIndex)
  | Seqz (rd rs : GprIndex).
Definition step (i : instr) (m : hart) : option hart :=
  match i with
  | Sd rs off base => let a := uadd (rget m base) off in if a mod 8 =? 0 then Some (mset a (rget m rs) m) else None
  | Ld rd off base => let a := uadd (rget m base) off in if a mod 8 =? 0 then Some (rset rd (mem m a) m) else None
  | Csrrw rd c rs => Some (rset rd (csrs m c) (cset c (rget m rs) m))
  | Csrr rd c => Some (rset rd (csrs m c) m)
  | Csrw c rs => Some (cset c (rget m rs) m)
  | Mv rd rs => Some (rset rd (rget m rs) m)
  | Li rd imm => Some (rset rd imm m)
  | Addi rd rs imm => Some (rset rd (uadd (rget m rs) imm) m)
  | Add rd rs1 rs2 => Some (rset rd (uadd (rget m rs1) (rget m rs2)) m)
  | Seqz rd rs => Some (rset rd (if rget m rs =? 0 then 1 else 0) m)
  end.
Fixpoint exec (code : list instr) (m : hart) : option hart :=
  match code with
  | [] => Some m
  | i :: code => match step i m with Some m => exec code m | None => None end
  end.

Lemma exec_app c1 c2 m : exec (c1 ++ c2) m = match exec c1 m with Some m => exec c2 m | None => None end.
Proof. revert m. induction c1 as [|i c1 IH]; intros m; [done|]. cbn. destruct (step i m); [apply IH|done]. Qed.
Lemma upd_eq {K} `{EqDecision K} (k : K) v f : upd k v f k = v.
Proof. unfold upd. by rewrite decide_True. Qed.
Lemma upd_ne {K} `{EqDecision K} (k j : K) v f : j ≠ k → upd k v f j = f j.
Proof. intros H. unfold upd. by rewrite decide_False. Qed.
Lemma rget_rset r s v m : rget (rset r v m) s = if decide (s = r ∧ r ≠ Zero) then v else rget m s.
Proof.
  unfold rget, rset. cbn. destruct (decide (r = Zero)) as [->|Hr]; [rewrite (decide_False (P := s = Zero ∧ _)); tauto|].
  destruct (decide (s = r)) as [->|Hne]; [by rewrite decide_False, upd_eq, decide_True by done|]. rewrite upd_ne by done. by rewrite (decide_False (P := s = r ∧ _)) by tauto.
Qed.

(** ** Symbolic execution

    The code works on a few records in memory, the frames, whose sizes are known: their
    addresses are in registers, and every access is at a fixed offset from one of them.  Its
    result is computed once for all values: as an expression over the registers, control
    registers and memory at its start. *)

Inductive sval : Type :=
  | VReg (r : GprIndex) | VCsr (c : csr) | VSlot (b : nat) (k : Z) | VPtr (b : nat) (k : Z) | VConst (z : Z)
  | VAdd (x y : sval) | VSeqz (x : sval).
#[export] Instance sval_eq_dec : EqDecision sval.
Proof. solve_decision. Defined.
Record sstate : Type := { s_reg : GprIndex → sval; s_csr : csr → sval; s_mem : nat → Z → sval }.
Definition supd {K} `{EqDecision K} (k : K) (v : sval) (f : K → sval) : K → sval := λ j, if decide (j = k) then v else f j.
Definition s_rset (r : GprIndex) (v : sval) (s : sstate) : sstate :=
  {| s_reg := if decide (r = Zero) then s_reg s else supd r v (s_reg s); s_csr := s_csr s; s_mem := s_mem s |}.
Definition s_cset (c : csr) (v : sval) (s : sstate) : sstate := {| s_reg := s_reg s; s_csr := supd c v (s_csr s); s_mem := s_mem s |}.
Definition s_mset (b : nat) (k : Z) (v : sval) (s : sstate) : sstate :=
  {| s_reg := s_reg s; s_csr := s_csr s; s_mem := λ c j, if decide (c = b ∧ j = k) then v else s_mem s c j |}.
(** The state at the start, with the pointers to the frames in these places. *)
Definition sinit (regs : list (GprIndex * sval)) (cs : list (csr * sval)) : sstate :=
  {| s_reg := λ r, if decide (r = Zero) then VConst 0 else default (VReg r) (snd <$> List.find (λ x, bool_decide (x.1 = r)) regs);
     s_csr := λ c, default (VCsr c) (snd <$> List.find (λ x, bool_decide (x.1 = c)) cs);
     s_mem := VSlot |}.

Section symbolic.
Context (sizes : list Z).
Definition fsize (b : nat) : Z := default 0 (sizes !! b).
Definition offset_in (n k : Z) : bool := (k mod 8 =? 0) && (0 <=? k) && (k + 8 <=? n).
Definition splus (v : sval) (imm : Z) : sval :=
  match v with VPtr b k => if (0 <=? k + imm) && (k + imm <=? fsize b) && bool_decide (is_Some (sizes !! b)) then VPtr b (k + imm) else VAdd v (VConst imm) | _ => VAdd v (VConst imm) end.
Definition sstep (i : instr) (s : sstate) : option sstate :=
  match i with
  | Sd rs off base => match s_reg s base with VPtr b k => if offset_in (fsize b) (k + off) then Some (s_mset b (k + off) (s_reg s rs) s) else None | _ => None end
  | Ld rd off base => match s_reg s base with VPtr b k => if offset_in (fsize b) (k + off) then Some (s_rset rd (s_mem s b (k + off)) s) else None | _ => None end
  | Csrrw rd c rs => Some (s_rset rd (s_csr s c) (s_cset c (s_reg s rs) s))
  | Csrr rd c => Some (s_rset rd (s_csr s c) s)
  | Csrw c rs => Some (s_cset c (s_reg s rs) s)
  | Mv rd rs => Some (s_rset rd (s_reg s rs) s)
  | Li rd imm => Some (s_rset rd (VConst imm) s)
  | Addi rd rs imm => Some (s_rset rd (splus (s_reg s rs) imm) s)
  | Add rd rs1 rs2 => Some (s_rset rd (VAdd (s_reg s rs1) (s_reg s rs2)) s)
  | Seqz rd rs => Some (s_rset rd (VSeqz (s_reg s rs)) s)
  end.
Fixpoint sexec (code : list instr) (s : sstate) : option sstate :=
  match code with [] => Some s | i :: code => match sstep i s with Some s => sexec code s | None => None end end.

Definition is_ok_code (code : list instr) (regs : list (GprIndex * sval)) (cs : list (csr * sval)) : bool :=
  match sexec code (sinit regs cs) with Some _ => true | None => false end.
Definition sresult (code : list instr) (regs : list (GprIndex * sval)) (cs : list (csr * sval)) : sstate := default (sinit regs cs) (sexec code (sinit regs cs)).

(** Frames that lie in memory, aligned and apart from each other. *)
Definition frame_ok (p n : Z) : Prop := p mod 8 = 0 ∧ 0 ≤ p ∧ 0 ≤ n ∧ p + n < 2 ^ 64.
Definition apart (p n q m : Z) : Prop := p + n ≤ q ∨ q + m ≤ p.
Definition frames_ok (ptr : nat → Z) : Prop :=
  (∀ b, is_Some (sizes !! b) → frame_ok (ptr b) (fsize b)) ∧ (∀ b c, is_Some (sizes !! b) → is_Some (sizes !! c) → b ≠ c → apart (ptr b) (fsize b) (ptr c) (fsize c)).

Context (m0 : hart) (ptr : nat → Z).
Fixpoint den (v : sval) : Z :=
  match v with
  | VReg r => rget m0 r
  | VCsr c => csrs m0 c
  | VSlot b k => mem m0 (ptr b + k)
  | VPtr b k => ptr b + k
  | VConst z => z
  | VAdd x y => uadd (den x) (den y)
  | VSeqz x => if den x =? 0 then 1 else 0
  end.
Record models (s : sstate) (m : hart) : Prop := {
  md_reg r : rget m r = den (s_reg s r);
  md_csr c : csrs m c = den (s_csr s c);
  md_mem b k : 0 ≤ k < fsize b → mem m (ptr b + k) = den (s_mem s b k);
  md_out a : (∀ b, is_Some (sizes !! b) → a < ptr b ∨ ptr b + fsize b ≤ a) → mem m a = mem m0 a;
}.

Lemma offset_frame b k : offset_in (fsize b) k = true → is_Some (sizes !! b) ∧ 0 ≤ k ∧ k + 8 ≤ fsize b ∧ k mod 8 = 0.
Proof.
  intros [[Hk%Z.eqb_eq H1]%andb_true_iff H2]%andb_true_iff. split; [|lia]. unfold fsize in H2. destruct (sizes !! b); [by eexists|cbn in H2; lia].
Qed.
Lemma frame_some b k : 0 ≤ k < fsize b → is_Some (sizes !! b).
Proof. unfold fsize. destruct (sizes !! b); [by eexists|cbn; lia]. Qed.
Lemma slot_access b k : frames_ok ptr → offset_in (fsize b) k = true → wrap (ptr b + k) = ptr b + k ∧ ((ptr b + k) mod 8 =? 0) = true.
Proof.
  intros [Hf _] Hk. apply offset_frame in Hk as (Hb & H0 & Hn & Hm). destruct (Hf b Hb) as (Hp & Hp0 & _ & Hp1). split.
  - apply wrap_small. unfold in_usize. lia.
  - apply Z.eqb_eq. rewrite Z.add_mod, Hp, Hm by lia. done.
Qed.
Lemma models_rset s m r v x : models s m → x = den v → models (s_rset r v s) (rset r x m).
Proof.
  intros [A B C D] ->. split; [|done..]. intros q. rewrite rget_rset. unfold s_rset, supd. cbn. destruct (decide (r = Zero)) as [->|Hr]; [by rewrite decide_False by tauto|].
  destruct (decide (q = r)) as [->|Hne]; [by rewrite decide_True|]. by rewrite decide_False by tauto.
Qed.
Lemma models_cset s m c v x : models s m → x = den v → models (s_cset c v s) (cset c x m).
Proof. intros [A B C D] ->. split; [exact A| |done..]. intros q. cbn. unfold upd, supd. by destruct (decide (q = c)). Qed.
Lemma models_mset s m b k v x : frames_ok ptr → offset_in (fsize b) k = true → models s m → x = den v → models (s_mset b k v s) (mset (ptr b + k) x m).
Proof.
  intros [_ Hap] Hk [A B C D] ->. pose proof (offset_frame b k Hk) as (Hb & H0 & Hn & _). split; [exact A|exact B| |].
  - intros c j Hj. pose proof (frame_some c j Hj) as Hc. cbn. unfold upd. destruct (decide (c = b)) as [->|Hne].
    + destruct (decide (j = k)) as [->|Hjk]; [by rewrite !decide_True|]. rewrite !decide_False by lia. by apply C.
    + pose proof (Hap c b Hc Hb Hne) as Ha. unfold apart in Ha. rewrite decide_False by lia. rewrite decide_False by tauto. by apply C.
  - intros a Ha. cbn. rewrite upd_ne; [by apply D|]. specialize (Ha b Hb). lia.
Qed.
Lemma splus_den v imm : frames_ok ptr → uadd (den v) imm = den (splus v imm).
Proof.
  intros [Hf _]. destruct v as [| | |b k| | |]; [done..| |done|done|done]. cbn. destruct (_ && _) eqn:E; [|done]. apply andb_true_iff in E as [[E1 E2]%andb_true_iff Hb%bool_decide_eq_true].
  destruct (Hf b Hb) as (_ & Hp0 & _ & Hp1). unfold uadd. cbn. rewrite wrap_small; [lia|]. unfold in_usize. lia.
Qed.
Lemma sstep_sound i s m s' : frames_ok ptr → models s m → sstep i s = Some s' → ∃ m', step i m = Some m' ∧ models s' m'.
Proof.
  intros Hf Hm E. pose proof (md_reg s m Hm) as Hr. destruct i; cbn [sstep] in E; cbn [step]; cbv zeta.
  - destruct (s_reg s base) as [| | |b k| | |] eqn:Eb; try done. destruct (offset_in _ _) eqn:Ho; [|done]. simplify_eq. rewrite (Hr base), Eb. cbn [den].
    destruct (slot_access b (k + off) Hf Ho) as [Ew Hal]. unfold uadd. rewrite <- Z.add_assoc, Ew, Hal. eexists. split; [done|]. by apply models_mset.
  - destruct (s_reg s base) as [| | |b k| | |] eqn:Eb; try done. destruct (offset_in _ _) eqn:Ho; [|done]. simplify_eq. rewrite (Hr base), Eb. cbn [den].
    destruct (slot_access b (k + off) Hf Ho) as [Ew Hal]. unfold uadd. rewrite <- Z.add_assoc, Ew, Hal. eexists. split; [done|]. apply models_rset; [done|]. apply Hm. apply offset_frame in Ho. lia.
  - simplify_eq. eexists. split; [done|]. apply models_rset; [by apply models_cset|apply Hm].
  - simplify_eq. eexists. split; [done|]. apply models_rset; [done|apply Hm].
  - simplify_eq. eexists. split; [done|]. by apply models_cset.
  - simplify_eq. eexists. split; [done|]. by apply models_rset.
  - simplify_eq. eexists. split; [done|]. by apply models_rset.
  - simplify_eq. eexists. split; [done|]. apply models_rset; [done|]. rewrite Hr. by apply splus_den.
  - simplify_eq. eexists. split; [done|]. apply models_rset; [done|]. by rewrite !Hr.
  - simplify_eq. eexists. split; [done|]. apply models_rset; [done|]. by rewrite Hr.
Qed.
(** What the symbolic execution computes is what the machine does. *)
Lemma sexec_sound code : ∀ s m s', frames_ok ptr → models s m → sexec code s = Some s' → ∃ m', exec code m = Some m' ∧ models s' m'.
Proof.
  induction code as [|i code IH]; intros s m s' Hf Hm E; cbn in E |- *; [simplify_eq; by exists m|]. destruct (sstep i s) as [s1|] eqn:E1; [|done].
  destruct (sstep_sound i s m s1 Hf Hm E1) as (m1 & -> & Hm1). by eapply IH.
Qed.
Lemma sinit_models regs cs : Forall (λ x, rget m0 x.1 = den x.2) regs → Forall (λ x, csrs m0 x.1 = den x.2) cs → models (sinit regs cs) m0.
Proof.
  intros Hr Hc. split; [| |done|done].
  - intros r. cbn. destruct (decide (r = Zero)) as [->|]; [done|]. destruct (List.find _ regs) as [x|] eqn:E; [|done].
    apply List.find_some in E as [Hin <-%bool_decide_eq_true]. rewrite Forall_forall in Hr. by apply Hr, list_elem_of_In.
  - intros c. cbn. destruct (List.find _ cs) as [x|] eqn:E; [|done]. apply List.find_some in E as [Hin <-%bool_decide_eq_true]. rewrite Forall_forall in Hc. by apply Hc, list_elem_of_In.
Qed.
(** The form in which it is used: the result of the code for every start that has the
    pointers where [regs] and [cs] say. *)
Lemma code_runs code regs cs : frames_ok ptr → Forall (λ x, rget m0 x.1 = den x.2) regs → Forall (λ x, csrs m0 x.1 = den x.2) cs →
  is_ok_code code regs cs = true → ∃ m', exec code m0 = Some m' ∧ models (sresult code regs cs) m'.
Proof.
  intros Hf Hr Hc Hok. unfold is_ok_code in Hok. unfold sresult. destruct (sexec code (sinit regs cs)) as [s'|] eqn:E; [|done].
  eapply sexec_sound; [done|by apply sinit_models|done].
Qed.
End symbolic.

Definition all_regs : list GprIndex :=
  [RA; SP; GP; TP; T0; T1; T2; S0; S1; A0; A1; A2; A3; A4; A5; A6; A7; S2; S3; S4; S5; S6; S7; S8; S9; S10; S11; T3; T4; T5; T6].
Lemma all_regs_elem r : r ≠ Zero → r ∈ all_regs.
Proof. intros Hr. destruct r; [done|apply (bool_decide_unpack _); vm_compute; exact I..]. Qed.
Lemma from_raw_index r : from_raw (Z.of_nat (gpr_index r)) = Some r.
Proof. by destruct r. Qed.
