(* ===== verification/RiscvContext.v ===== *)
(** The switch from one task to another ([axhal/src/arch/riscv/context.rs]) and the non-local
    jumps of the C library ([axlibc/src/setjmp.rs], the RISC-V code without floating point).

    A [TaskContext] is fifteen or sixteen doublewords in memory.  [switch_to] saves the
    callee-saved registers of the caller in one and loads them from another; the function
    returns to the address in [ra], which is the task's own: execution goes on in the other
    task. *)

From stdpp Require Import prelude list.
From Stdlib Require Import ZArith Lia.
From S2P Require Import Prelude Riscv.
Local Open Scope Z_scope.

(** ** [TaskContext] *)

Record TaskContext : Type := {
  cx_ra : Z; cx_sp : Z; cx_s0 : Z; cx_s1 : Z; cx_s2 : Z; cx_s3 : Z; cx_s4 : Z; cx_s5 : Z; cx_s6 : Z; cx_s7 : Z;
  cx_s8 : Z; cx_s9 : Z; cx_s10 : Z; cx_s11 : Z; cx_tp : Z; cx_satp : Z;
}.
(** The fields in their order ([repr(C)]). *)
Definition ctx_words (c : TaskContext) : list Z :=
  [cx_ra c; cx_sp c; cx_s0 c; cx_s1 c; cx_s2 c; cx_s3 c; cx_s4 c; cx_s5 c; cx_s6 c; cx_s7 c; cx_s8 c; cx_s9 c; cx_s10 c; cx_s11 c; cx_tp c; cx_satp c].
Definition CTX_SIZE : Z := 128.
Definition OFF_tp : Z := 112.
Definition OFF_satp : Z := 120.
Definition context_new (kernel_root : Z) : TaskContext :=
  {| cx_ra := 0; cx_sp := 0; cx_s0 := 0; cx_s1 := 0; cx_s2 := 0; cx_s3 := 0; cx_s4 := 0; cx_s5 := 0; cx_s6 := 0; cx_s7 := 0;
     cx_s8 := 0; cx_s9 := 0; cx_s10 := 0; cx_s11 := 0; cx_tp := 0; cx_satp := kernel_root |}.
Definition context_init (entry kstack_top tls_area : Z) (c : TaskContext) : TaskContext :=
  {| cx_ra := entry; cx_sp := kstack_top; cx_s0 := cx_s0 c; cx_s1 := cx_s1 c; cx_s2 := cx_s2 c; cx_s3 := cx_s3 c; cx_s4 := cx_s4 c; cx_s5 := cx_s5 c;
     cx_s6 := cx_s6 c; cx_s7 := cx_s7 c; cx_s8 := cx_s8 c; cx_s9 := cx_s9 c; cx_s10 := cx_s10 c; cx_s11 := cx_s11 c; cx_tp := tls_area; cx_satp := cx_satp c |}.
Definition set_page_table_root (satp : Z) (c : TaskContext) : TaskContext :=
  {| cx_ra := cx_ra c; cx_sp := cx_sp c; cx_s0 := cx_s0 c; cx_s1 := cx_s1 c; cx_s2 := cx_s2 c; cx_s3 := cx_s3 c; cx_s4 := cx_s4 c; cx_s5 := cx_s5 c;
     cx_s6 := cx_s6 c; cx_s7 := cx_s7 c; cx_s8 := cx_s8 c; cx_s9 := cx_s9 c; cx_s10 := cx_s10 c; cx_s11 := cx_s11 c; cx_tp := cx_tp c; cx_satp := satp |}.
(** The record at an address. *)
Definition words_at (m : hart) (p : Z) (ws : list Z) : Prop := ∀ i w, ws !! i = Some w → mem m (p + 8 * Z.of_nat i) = w.
Definition ctx_at (m : hart) (p : Z) (c : TaskContext) : Prop := words_at m p (ctx_words c).

(** ** [switch_to] *)

(** [STR rs, base, off] and [LDR rd, base, off]. *)
Definition STR (rs base : GprIndex) (off : Z) : instr := Sd rs (off * 8) base.
Definition LDR (rd base : GprIndex) (off : Z) : instr := Ld rd (off * 8) base.
Definition context_switch : list instr :=
  [STR RA A0 0; STR SP A0 1; STR S0 A0 2; STR S1 A0 3; STR S2 A0 4; STR S3 A0 5; STR S4 A0 6; STR S5 A0 7; STR S6 A0 8; STR S7 A0 9;
   STR S8 A0 10; STR S9 A0 11; STR S10 A0 12; STR S11 A0 13;
   LDR S11 A1 13; LDR S10 A1 12; LDR S9 A1 11; LDR S8 A1 10; LDR S7 A1 9; LDR S6 A1 8; LDR S5 A1 7; LDR S4 A1 6; LDR S3 A1 5; LDR S2 A1 4;
   LDR S1 A1 3; LDR S0 A1 2; LDR SP A1 1; LDR RA A1 0].

(** [satp::read().ppn() << 12]. *)
Definition read_page_table_root (m : hart) : Z := Z.shiftl (Z.land (csrs m Satp) (2 ^ 44 - 1)) 12.
(** [satp::set(Sv39, 0, ppn)]. *)
Definition write_page_table_root (root : Z) (m : hart) : hart :=
  if read_page_table_root m =? root then m else cset Satp (Z.lor (Z.shiftl 8 60) (Z.shiftr root 12)) m.
Definition read_thread_pointer (m : hart) : Z := rget m TP.
Definition write_thread_pointer (tp : Z) (m : hart) : hart := rset TP tp m.

(** With the features [tls] and [uspace] on or off; the caller passes the contexts in [a0]
    and [a1]. *)
Definition switch_to (tls uspace : bool) (self next : Z) (m : hart) : option hart :=
  let m := if tls then write_thread_pointer (mem m (next + OFF_tp)) (mset (self + OFF_tp) (read_thread_pointer m) m) else m in
  let m := if uspace && negb (mem m (self + OFF_satp) =? mem m (next + OFF_satp)) then write_page_table_root (mem m (next + OFF_satp)) m else m in
  exec context_switch (rset A1 next (rset A0 self m)).

(** ** [setjmp] and [longjmp] *)

Definition setjmp : list instr :=
  [Sd S0 0 A0; Sd S1 8 A0; Sd S2 16 A0; Sd S3 24 A0; Sd S4 32 A0; Sd S5 40 A0; Sd S6 48 A0; Sd S7 56 A0; Sd S8 64 A0; Sd S9 72 A0;
   Sd S10 80 A0; Sd S11 88 A0; Sd SP 96 A0; Sd RA 104 A0; Li A0 0].
Definition longjmp : list instr :=
  [Ld S0 0 A0; Ld S1 8 A0; Ld S2 16 A0; Ld S3 24 A0; Ld S4 32 A0; Ld S5 40 A0; Ld S6 48 A0; Ld S7 56 A0; Ld S8 64 A0; Ld S9 72 A0;
   Ld S10 80 A0; Ld S11 88 A0; Ld SP 96 A0; Ld RA 104 A0; Seqz A0 A1; Add A0 A0 A1].
(** [__jb] has 26 words. *)
Definition JMP_BUF_SIZE : Z := 208.

(** ** What the caller of a function may rely on *)

Definition callee_saved : list GprIndex := [SP; S0; S1; S2; S3; S4; S5; S6; S7; S8; S9; S10; S11].
(** The place where execution goes on, and the registers kept for it. *)
Definition same_caller (m m' : hart) : Prop := rget m' RA = rget m RA ∧ ∀ r, r ∈ callee_saved → rget m' r = rget m r.

Lemma two_frames p q n k : frame_ok p n → frame_ok q k → apart p n q k → frames_ok [n; k] (λ b, match b with O => p | _ => q end).
Proof.
  intros Hp Hq Ha. split.
  - intros [|[|b]] [x Hx]; [exact Hp|exact Hq|done].
  - intros [|[|b]] [|[|c]] [x Hx] [y Hy] Hne; try done. cbn. unfold apart in *. lia.
Qed.
Lemma one_frame p n : frame_ok p n → frames_ok [n] (λ _, p).
Proof. intros Hp. split; [intros [|b] [x Hx]; [exact Hp|done]|]. intros [|b] [|c] [x Hx] [y Hy] Hne; done. Qed.

(** ** Task switches *)

Definition ctx_regs : list GprIndex := [RA; SP; S0; S1; S2; S3; S4; S5; S6; S7; S8; S9; S10; S11].
Lemma context_switch_exact p q m : frame_ok p CTX_SIZE → frame_ok q CTX_SIZE → apart p CTX_SIZE q CTX_SIZE → rget m A0 = p → rget m A1 = q →
  ∃ m', exec context_switch m = Some m' ∧ (∀ c, csrs m' c = csrs m c) ∧
    (∀ i r, ctx_regs !! i = Some r → rget m' r = mem m (q + 8 * Z.of_nat i) ∧ mem m' (p + 8 * Z.of_nat i) = rget m r) ∧
    (∀ r, r ∉ ctx_regs → rget m' r = rget m r) ∧ mem m' (p + OFF_tp) = mem m (p + OFF_tp) ∧ mem m' (p + OFF_satp) = mem m (p + OFF_satp) ∧
    (∀ a, a < p ∨ p + CTX_SIZE ≤ a → mem m' a = mem m a).
Proof.
  intros Hp Hq Ha H0 H1. set (ptr := λ b, match b with O => p | _ => q end). pose proof (two_frames p q _ _ Hp Hq Ha) as Hf. fold ptr in Hf.
  destruct (code_runs [CTX_SIZE; CTX_SIZE] m ptr context_switch [(A0, VPtr 0 0); (A1, VPtr 1 0)] [] Hf) as (m' & E & [Hr Hc Hm Hout]);
    [repeat constructor; cbn; unfold ptr; lia|constructor|vm_compute; reflexivity|].
  exists m'. split; [exact E|]. split; [intros c; rewrite Hc; by destruct c|]. split.
  { intros i r Hi. split.
    - rewrite Hr. do 14 (destruct i as [|i]; [cbn in Hi; injection Hi as <-; vm_compute; reflexivity|]). done.
    - do 14 (destruct i as [|i]; [cbn in Hi; injection Hi as <-; etrans; [apply (Hm 0%nat); unfold CTX_SIZE; cbn; lia|vm_compute; reflexivity]|]). done. }
  split.
  { intros r Hn. rewrite Hr. destruct r; try (vm_compute; reflexivity); try (exfalso; apply Hn; apply (bool_decide_unpack _); vm_compute; exact I); change (p + 0 = rget m A0) || change (q + 0 = rget m A1); lia. }
  split; [etrans; [apply (Hm 0%nat OFF_tp); vm_compute; done|vm_compute; reflexivity]|]. split; [etrans; [apply (Hm 0%nat OFF_satp); vm_compute; done|vm_compute; reflexivity]|].
  intros a Ho. destruct (decide (q ≤ a < q + CTX_SIZE)) as [Hin|Hin].
  - replace a with (q + (a - q)) by lia. etrans; [apply (Hm 1%nat); unfold CTX_SIZE in *; cbn; lia|]. generalize (a - q). intros k. vm_compute. reflexivity.
  - apply Hout. intros [|[|b]] [x Hx]; cbn; [lia|unfold CTX_SIZE in *; lia|done].
Qed.

Record switched (tls uspace : bool) (p q : Z) (m m' : hart) : Prop := {
  sw_regs i r : ctx_regs !! i = Some r → rget m' r = mem m (q + 8 * Z.of_nat i) ∧ mem m' (p + 8 * Z.of_nat i) = rget m r;
  sw_tp : rget m' TP = if tls then mem m (q + OFF_tp) else rget m TP;
  sw_saved_tp : mem m' (p + OFF_tp) = if tls then rget m TP else mem m (p + OFF_tp);
  sw_root_slot : mem m' (p + OFF_satp) = mem m (p + OFF_satp);
  sw_satp : csrs m' Satp = if uspace && negb (mem m (p + OFF_satp) =? mem m (q + OFF_satp)) then csrs (write_page_table_root (mem m (q + OFF_satp)) m) Satp else csrs m Satp;
  sw_outside a : a < p ∨ p + CTX_SIZE ≤ a → mem m' a = mem m a;
}.
Lemma write_root_parts root m : gpr (write_page_table_root root m) = gpr m ∧ mem (write_page_table_root root m) = mem m.
Proof. unfold write_page_table_root. by destruct (_ =? _). Qed.
Lemma switch_to_exact tls uspace p q m : frame_ok p CTX_SIZE → frame_ok q CTX_SIZE → apart p CTX_SIZE q CTX_SIZE →
  ∃ m', switch_to tls uspace p q m = Some m' ∧ switched tls uspace p q m m'.
Proof.
  intros Hp Hq Ha. unfold switch_to. cbv zeta. set (m1 := if tls then _ else m).
  assert (∀ r, r ≠ TP → rget m1 r = rget m r) as Hr1 by (intros r Hne; unfold m1; destruct tls; [unfold write_thread_pointer; rewrite rget_rset, decide_False by tauto|]; done).
  assert (∀ a, a ≠ p + OFF_tp → mem m1 a = mem m a) as Hm1 by (intros a Hne; unfold m1; destruct tls; [cbn; by apply upd_ne|done]).
  assert (mem m1 (p + OFF_tp) = (if tls then rget m TP else mem m (p + OFF_tp)) ∧ rget m1 TP = (if tls then mem m (q + OFF_tp) else rget m TP) ∧ csrs m1 = csrs m) as (Hs1 & Ht1 & Hc1).
  { unfold m1. destruct tls; [|done]. cbn. split; [apply upd_eq|done]. }
  assert (mem m1 (p + OFF_satp) = mem m (p + OFF_satp) ∧ mem m1 (q + OFF_satp) = mem m (q + OFF_satp)) as [Hsp Hsq].
  { unfold apart, CTX_SIZE, OFF_satp, OFF_tp in *. split; apply Hm1; unfold OFF_tp; lia. }
  set (m2 := if uspace && _ then _ else m1). assert (gpr m2 = gpr m1 ∧ mem m2 = mem m1) as [Hg2 Hm2] by (unfold m2; destruct (uspace && _); [apply write_root_parts|done]).
  assert (csrs m2 Satp = if uspace && negb (mem m (p + OFF_satp) =? mem m (q + OFF_satp)) then csrs (write_page_table_root (mem m (q + OFF_satp)) m) Satp else csrs m Satp) as Hc2.
  { unfold m2. rewrite Hsp, Hsq. clearbody m1. clear m2 Hg2 Hm2. destruct (uspace && _); [|by rewrite Hc1]. unfold write_page_table_root, read_page_table_root. rewrite Hc1. destruct (_ =? _); [by rewrite Hc1|]. cbn. by rewrite !upd_eq. }
  set (m3 := rset A1 q (rset A0 p m2)). assert (∀ r, r ≠ A0 → r ≠ A1 → rget m3 r = rget m1 r) as Hr3.
  { intros r N0 N1. unfold m3. rewrite !rget_rset, !decide_False by tauto. unfold rget. by rewrite Hg2. }
  destruct (context_switch_exact p q m3 Hp Hq Ha) as (m' & E & Hc & Hregs & Hother & Htp & Hsatp & Hout); [unfold m3; rewrite !rget_rset; reflexivity..|].
  exists m'. split; [exact E|]. assert (∀ a, mem m3 a = mem m1 a) as Hm3 by (intros a; cbn; by rewrite Hm2). split.
  - intros i r Hi. destruct (Hregs i r Hi) as [-> ->]. rewrite Hm3. assert (r ≠ A0 ∧ r ≠ A1 ∧ r ≠ TP) as (N0 & N1 & N2).
    { do 14 (destruct i as [|i]; [cbn in Hi; injection Hi as <-; done|]). done. }
    rewrite Hr3, Hr1 by done. split; [|done]. assert (Z.of_nat i < 14) as Hlt by (apply lookup_lt_Some in Hi; cbn in Hi; lia). apply Hm1. unfold OFF_tp, apart, CTX_SIZE in *. lia.
  - rewrite Hother by (by apply (bool_decide_unpack _)). by rewrite Hr3.
  - by rewrite Htp, Hm3.
  - by rewrite Hsatp, Hm3.
  - rewrite Hc. exact Hc2.
  - intros a Hao. rewrite Hout, Hm3 by done. apply Hm1. unfold OFF_tp, CTX_SIZE in *. lia.
Qed.

(** A page table root is a page's address. *)
Definition is_root (r : Z) : Prop := 0 ≤ r < 2 ^ 56 ∧ r mod 4096 = 0.
Lemma root_written root m : is_root root → read_page_table_root (write_page_table_root root m) = root.
Proof.
  intros [Hr Ha]. unfold write_page_table_root. destruct (Z.eqb_spec (read_page_table_root m) root) as [E|_]; [done|]. unfold read_page_table_root. cbn. rewrite upd_eq.
  rewrite Z.land_lor_distr_l. change (Z.land (Z.shiftl 8 60) (2 ^ 44 - 1)) with 0. rewrite Z.lor_0_l. change (2 ^ 44 - 1) with (Z.ones 44).
  rewrite Z.land_ones, Z.shiftl_mul_pow2, Z.shiftr_div_pow2 by lia. change (2 ^ 12) with 4096. rewrite Z.mod_small; [|split; [apply Z.div_pos; lia|apply Z.div_lt_upper_bound; lia]].
  pose proof (Z.div_mod root 4096 ltac:(lia)). lia.
Qed.

(** C14: A task that is switched away from is resumed where it was: when another task later
    switches to it, and its saved context is as it was left, it goes on at its own return
    address with its stack pointer and callee-saved registers, its thread pointer and its page
    table, whatever happened to memory and registers in between; and a switch changes no
    memory but the context of the task it leaves. *)
Theorem context_switch_resumes tls uspace p q r m :
  frame_ok p CTX_SIZE → frame_ok q CTX_SIZE → frame_ok r CTX_SIZE → apart p CTX_SIZE q CTX_SIZE → apart r CTX_SIZE p CTX_SIZE →
  ∃ m1, switch_to tls uspace p q m = Some m1 ∧ (∀ a, a < p ∨ p + CTX_SIZE ≤ a → mem m1 a = mem m a) ∧
    (∀ c, ctx_at m q c → rget m1 RA = cx_ra c ∧ rget m1 SP = cx_sp c ∧ (tls = true → rget m1 TP = cx_tp c)) ∧
    ∀ m2, (∀ k, 0 ≤ k < CTX_SIZE → mem m2 (p + k) = mem m1 (p + k)) → ∃ m3, switch_to tls uspace r p m2 = Some m3 ∧ same_caller m m3 ∧
      (tls = true → rget m3 TP = rget m TP) ∧
      (uspace = true → is_root (mem m (p + OFF_satp)) → read_page_table_root m = mem m (p + OFF_satp) → read_page_table_root m2 = mem m2 (r + OFF_satp) →
        read_page_table_root m3 = read_page_table_root m).
Proof.
  intros Hp Hq Hr Hpq Hrp. destruct (switch_to_exact tls uspace p q m Hp Hq Hpq) as (m1 & E1 & W1). exists m1. split; [exact E1|]. split; [apply W1|]. split.
  { intros c Hc. pose proof (sw_regs _ _ _ _ _ _ W1) as Hregs. split; [|split].
    - rewrite (proj1 (Hregs 0%nat RA eq_refl)). by apply (Hc 0%nat).
    - rewrite (proj1 (Hregs 1%nat SP eq_refl)). by apply (Hc 1%nat).
    - intros ->. rewrite (sw_tp _ _ _ _ _ _ W1). by apply (Hc 14%nat). }
  intros m2 Hkeep. destruct (switch_to_exact tls uspace r p m2 Hr Hp Hrp) as (m3 & E3 & W3). exists m3. split; [exact E3|].
  assert (∀ i x, ctx_regs !! i = Some x → rget m3 x = rget m x) as Hback.
  { intros i x Hi. rewrite (proj1 (sw_regs _ _ _ _ _ _ W3 i x Hi)), Hkeep; [by apply (sw_regs _ _ _ _ _ _ W1)|]. apply lookup_lt_Some in Hi. cbn in Hi. unfold CTX_SIZE. lia. }
  split; [split; [by apply (Hback 0%nat)|]|].
  { intros x Hx. assert (x ∈ ctx_regs) as [i Hi]%list_elem_of_lookup by (unfold ctx_regs; by right). by apply (Hback i). }
  split.
  - intros ->. rewrite (sw_tp _ _ _ _ _ _ W3), Hkeep by (vm_compute; done). apply (sw_saved_tp _ _ _ _ _ _ W1).
  - intros -> Hroot Hm H2. assert (mem m2 (p + OFF_satp) = mem m (p + OFF_satp)) as Es by (rewrite Hkeep by (vm_compute; done); apply (sw_root_slot _ _ _ _ _ _ W1)).
    pose proof (sw_satp _ _ _ _ _ _ W3) as Hs. cbn [andb] in Hs. rewrite Es in Hs. unfold read_page_table_root at 1. rewrite Hs.
    destruct (Z.eqb_spec (mem m2 (r + OFF_satp)) (mem m (p + OFF_satp))) as [Eq|Hne]; cbn [negb]; [by fold (read_page_table_root m2); congruence|].
    fold (read_page_table_root (write_page_table_root (mem m (p + OFF_satp)) m2)). rewrite root_written by done. congruence.
Qed.

Definition loaded (r : GprIndex) : option Z :=
  match r with
  | S0 => Some 0 | S1 => Some 8 | S2 => Some 16 | S3 => Some 24 | S4 => Some 32 | S5 => Some 40 | S6 => Some 48 | S7 => Some 56 | S8 => Some 64 | S9 => Some 72
  | S10 => Some 80 | S11 => Some 88 | SP => Some 96 | RA => Some 104 | _ => None
  end.
(** After [setjmp] has returned 0, [longjmp] with the same buffer returns from [setjmp] a
    second time, at the same place, with the same stack pointer and callee-saved registers,
    and with the given value, or 1 for 0; neither changes memory outside the buffer. *)
Theorem setjmp_longjmp p m : frame_ok p JMP_BUF_SIZE → rget m A0 = p →
  ∃ m1, exec setjmp m = Some m1 ∧ same_caller m m1 ∧ rget m1 A0 = 0 ∧ (∀ a, a < p ∨ p + JMP_BUF_SIZE ≤ a → mem m1 a = mem m a) ∧
    ∀ m2 v, (∀ k, 0 ≤ k < JMP_BUF_SIZE → mem m2 (p + k) = mem m1 (p + k)) → rget m2 A0 = p → rget m2 A1 = v → in_usize v →
      ∃ m3, exec longjmp m2 = Some m3 ∧ same_caller m m3 ∧ rget m3 A0 = (if v =? 0 then 1 else v) ∧ ∀ a, mem m3 a = mem m2 a.
Proof.
  intros Hp H0. pose proof (one_frame p _ Hp) as Hf.
  destruct (code_runs [JMP_BUF_SIZE] m (λ _, p) setjmp [(A0, VPtr 0 0)] [] Hf) as (m1 & E1 & [Hr1 Hc1 Hm1 Ho1]); [repeat constructor; cbn; lia|constructor|vm_compute; reflexivity|].
  exists m1. split; [exact E1|]. split; [split; [rewrite Hr1; vm_compute; reflexivity|]|].
  { intros r Hr. rewrite Hr1. destruct r; try (vm_compute; reflexivity); exfalso; revert Hr; apply (bool_decide_unpack _); vm_compute; exact I. }
  split; [rewrite Hr1; vm_compute; reflexivity|]. split; [intros a Ha; apply Ho1; intros [|b] [x Hx]; [exact Ha|done]|].
  intros m2 v Hkeep H2 Hv Hin.
  destruct (code_runs [JMP_BUF_SIZE] m2 (λ _, p) longjmp [(A0, VPtr 0 0)] [] Hf) as (m3 & E3 & [Hr3 Hc3 Hm3 Ho3]); [repeat constructor; cbn; lia|constructor|vm_compute; reflexivity|].
  exists m3. split; [exact E3|].
  assert (∀ r k, loaded r = Some k → rget m3 r = rget m r) as Hback.
  { intros r k Hk. rewrite Hr3. destruct r; cbn in Hk; try done; injection Hk as <-; (etrans; [apply (Hkeep _); unfold JMP_BUF_SIZE; lia|]; etrans; [apply (Hm1 0%nat); cbn; unfold JMP_BUF_SIZE; lia|vm_compute; reflexivity]). }
  split; [split; [by apply (Hback RA 104)|]|].
  { intros r Hr. destruct r; try (by eapply Hback); exfalso; revert Hr; apply (bool_decide_unpack _); vm_compute; exact I. }
  split.
  - rewrite Hr3. change (uadd (if rget m2 A1 =? 0 then 1 else 0) (rget m2 A1) = (if v =? 0 then 1 else v)). rewrite Hv. destruct (Z.eqb_spec v 0) as [->|Hn]; [done|]. unfold uadd. by apply wrap_small.
  - intros a. destruct (decide (p ≤ a < p + JMP_BUF_SIZE)) as [Ha|Ha]; [|apply Ho3; intros [|b] [x Hx]; [cbn; lia|done]].
    replace a with (p + (a - p)) by lia. etrans; [apply (Hm3 0%nat); cbn; lia|]. generalize (a - p). intros k. vm_compute. reflexivity.
Qed.
