(* ===== verification/RiscvTrap.v ===== *)
(** Traps of the RISC-V kernel: the entry and exit code ([axhal/src/arch/riscv/trap.S] with the
    macros of [macros.rs]), the handler it calls ([trap.rs]) and the way into user mode
    ([UspaceContext] of [context.rs]).

    The frame of a trap, 33 doublewords, is on the kernel stack.  While a user program runs,
    [sscratch] has the top of its kernel stack, and the places of [gp] and [tp] in the frame
    below it have the kernel's values of these registers; in the kernel [sscratch] is zero.
    The handler is a Rust function: it gets the frame in [a0], and by the calling convention
    it leaves [sp], [gp] and [tp] as they are. *)

From stdpp Require Import prelude list.
From Stdlib Require Import ZArith Lia.
From S2P Require Import Prelude Axmm Riscv RiscvContext.
Local Open Scope Z_scope.

(** ** [TrapFrame] *)

(** [GeneralRegisters] has a field for every register but [x0]. *)
Record TrapFrame : Type := { tf_regs : GprIndex → Z; tf_sepc : Z; tf_sstatus : Z }.
Definition trapframe_size : Z := 264.
(** The place of a register: [ra], [x1], is the first one. *)
Definition tf_slot (r : GprIndex) : Z := 8 * (Z.of_nat (gpr_index r) - 1).
Definition OFF_sepc : Z := 248.
Definition OFF_sstatus : Z := 256.
Definition tf_at (m : hart) (p : Z) (tf : TrapFrame) : Prop :=
  (∀ r, r ≠ Zero → mem m (p + tf_slot r) = tf_regs tf r) ∧ mem m (p + OFF_sepc) = tf_sepc tf ∧ mem m (p + OFF_sstatus) = tf_sstatus tf.
Definition arg0 (tf : TrapFrame) : Z := tf_regs tf A0.
Definition arg1 (tf : TrapFrame) : Z := tf_regs tf A1.
Definition arg2 (tf : TrapFrame) : Z := tf_regs tf A2.
Definition arg3 (tf : TrapFrame) : Z := tf_regs tf A3.
Definition arg4 (tf : TrapFrame) : Z := tf_regs tf A4.
Definition arg5 (tf : TrapFrame) : Z := tf_regs tf A5.
Definition set_a0 (v : Z) (tf : TrapFrame) : TrapFrame := {| tf_regs := upd A0 v (tf_regs tf); tf_sepc := tf_sepc tf; tf_sstatus := tf_sstatus tf |}.
Definition set_sepc (pc : Z) (tf : TrapFrame) : TrapFrame := {| tf_regs := tf_regs tf; tf_sepc := pc; tf_sstatus := tf_sstatus tf |}.

(** ** Entry and exit *)

Definition PUSH_POP_GENERAL_REGS (op : GprIndex → GprIndex → Z → instr) : list instr :=
  [op RA SP 0; op T0 SP 4; op T1 SP 5; op T2 SP 6; op S0 SP 7; op S1 SP 8; op A0 SP 9; op A1 SP 10; op A2 SP 11; op A3 SP 12; op A4 SP 13;
   op A5 SP 14; op A6 SP 15; op A7 SP 16; op S2 SP 17; op S3 SP 18; op S4 SP 19; op S5 SP 20; op S6 SP 21; op S7 SP 22; op S8 SP 23; op S9 SP 24;
   op S10 SP 25; op S11 SP 26; op T3 SP 27; op T4 SP 28; op T5 SP 29; op T6 SP 30].
Definition SAVE_REGS (from_user : bool) : list instr :=
  [Addi SP SP (- trapframe_size)] ++ PUSH_POP_GENERAL_REGS STR ++
  [Csrr T0 Sepc; Csrr T1 Sstatus; Csrrw T2 Sscratch Zero; STR T0 SP 31; STR T1 SP 32; STR T2 SP 1] ++
  (if from_user then [LDR T0 SP 2; LDR T1 SP 3; STR GP SP 2; STR TP SP 3; Mv GP T0; Mv TP T1] else []).
Definition RESTORE_REGS (from_user : bool) : list instr :=
  (if from_user then
     [LDR T1 SP 2; LDR T0 SP 3; STR GP SP 2; STR TP SP 3; Mv GP T1; Mv TP T0; Addi T0 SP trapframe_size; Csrw Sscratch T0]
   else []) ++
  [LDR T0 SP 31; LDR T1 SP 32; Csrw Sepc T0; Csrw Sstatus T1] ++ PUSH_POP_GENERAL_REGS LDR ++ [LDR SP SP 1].
(** [trap_vector_base] up to the call of the handler; [bnez] looks at the old [sscratch]. *)
Definition trap_entry (m : hart) : option (bool * hart) :=
  match step (Csrrw SP Sscratch SP) m with
  | None => None
  | Some m =>
      if rget m SP =? 0 then pair false <$> exec ([Csrr SP Sscratch] ++ SAVE_REGS false ++ [Mv A0 SP; Li A1 0]) m
      else pair true <$> exec (SAVE_REGS true ++ [Mv A0 SP; Li A1 1]) m
  end.
(** From the return of the handler to [sret]. *)
Definition trap_exit (from_user : bool) (m : hart) : option hart := exec (RESTORE_REGS from_user) m.

(** ** The handler *)

Inductive Trap : Type := UserEnvCall | LoadPageFault | StorePageFault | InstructionPageFault | Breakpoint | Interrupt | OtherException.
Section handler.
Context {W : Type} `{!MappingFlags}.
(** The handlers that the other modules register. *)
Context (IRQ : list (Z → W → outcome (bool * W))) (PAGE_FAULT : list (Z → Z → bool → W → outcome (bool * W))) (SYSCALL : list (TrapFrame → Z → W → outcome (Z * W))).

Definition handle_trap {H} (handlers : list H) (call : H → W → outcome (bool * W)) (w : W) : outcome (bool * W) :=
  match handlers with f :: _ => call f w | [] => Ret (false, w) end.
Definition handle_syscall (tf : TrapFrame) (syscall_num : Z) (w : W) : outcome (Z * W) :=
  match SYSCALL with f :: _ => f tf syscall_num w | [] => Panic end.
Definition handle_page_fault (stval : Z) (tf : TrapFrame) (access_flags : Z) (is_user : bool) (w : W) : outcome (TrapFrame * W) :=
  let access_flags := if is_user then Z.lor access_flags mf_USER else access_flags in
  match handle_trap PAGE_FAULT (λ f, f stval access_flags is_user) w with
  | Ret (true, w) => Ret (tf, w)
  | Ret (false, _) | Panic => Panic
  end.
Definition riscv_trap_handler (cause : Trap) (scause stval : Z) (tf : TrapFrame) (from_user : bool) (w : W) : outcome (TrapFrame * W) :=
  match cause with
  | UserEnvCall =>
      match handle_syscall tf (tf_regs tf A7) w with
      | Ret (r, w) => Ret (set_sepc (uadd (tf_sepc tf) 4) (set_a0 (wrap r) tf), w)
      | Panic => Panic
      end
  | LoadPageFault => handle_page_fault stval tf mf_READ from_user w
  | StorePageFault => handle_page_fault stval tf mf_WRITE from_user w
  | InstructionPageFault => handle_page_fault stval tf mf_EXECUTE from_user w
  | Breakpoint => Ret (set_sepc (uadd (tf_sepc tf) 2) tf, w)
  | Interrupt => match handle_trap IRQ (λ f, f scause) w with Ret (_, w) => Ret (tf, w) | Panic => Panic end
  | OtherException => Panic
  end.
End handler.

(** ** User mode *)

Definition uspace_new (entry ustack_top : Z) : TrapFrame :=
  {| tf_regs := upd SP ustack_top (λ _, 0); tf_sepc := entry; tf_sstatus := Z.lor (Z.shiftl 1 5) (Z.shiftl 1 18) |}.
Definition get_ip (c : TrapFrame) : Z := tf_sepc c.
Definition get_sp (c : TrapFrame) : Z := tf_regs c SP.
Definition set_ip (pc : Z) (c : TrapFrame) : TrapFrame := set_sepc pc c.
Definition set_sp (sp : Z) (c : TrapFrame) : TrapFrame := {| tf_regs := upd SP sp (tf_regs c); tf_sepc := tf_sepc c; tf_sstatus := tf_sstatus c |}.
Definition set_retval (a0 : Z) (c : TrapFrame) : TrapFrame := set_a0 a0 c.
Definition SIE_BIT : Z := 2.
Definition disable_irqs (m : hart) : hart := cset Sstatus (Z.ldiff (csrs m Sstatus) SIE_BIT) m.
(** [{tf}] and [{kernel_trap_addr}] are in registers of the compiler's choice. *)
Definition enter_code (tf kernel_trap_addr : GprIndex) : list instr :=
  [Mv SP tf; STR GP kernel_trap_addr 2; LDR GP SP 2; STR TP kernel_trap_addr 3; LDR TP SP 3; LDR T0 SP 32; Csrw Sstatus T0] ++
  PUSH_POP_GENERAL_REGS LDR ++ [LDR SP SP 1].
Definition enter_uspace (tf kernel_trap_addr : GprIndex) (self kstack_top : Z) (m : hart) : option hart :=
  let m := cset Sepc (mem m (self + OFF_sepc)) (cset Sscratch kstack_top (disable_irqs m)) in
  exec (enter_code tf kernel_trap_addr) (rset kernel_trap_addr (usub kstack_top trapframe_size) (rset tf self m)).

(** ** What the code does *)

Definition frame_of (m : hart) : TrapFrame := {| tf_regs := rget m; tf_sepc := csrs m Sepc; tf_sstatus := csrs m Sstatus |}.
Definition outside (p n a : Z) : Prop := a < p ∨ p + n ≤ a.
(** A user program runs, on the kernel stack that ends at [top]. *)
Record user_ready (top gp tp : Z) (m : hart) : Prop := {
  ur_scratch : csrs m Sscratch = top;
  ur_frame : frame_ok (top - trapframe_size) trapframe_size;
  ur_gp : mem m (top - trapframe_size + tf_slot GP) = gp;
  ur_tp : mem m (top - trapframe_size + tf_slot TP) = tp;
}.
(** The handler has been called, and returns: its frame is at [p]. *)
Record in_handler (p gp tp : Z) (tf : TrapFrame) (m : hart) : Prop := {
  ih_frame : frame_ok p trapframe_size;
  ih_sp : rget m SP = p;
  ih_gp : rget m GP = gp;
  ih_tp : rget m TP = tp;
  ih_tf : tf_at m p tf;
}.
Record resumed (tf : TrapFrame) (m : hart) : Prop := {
  rs_regs r : r ≠ Zero → rget m r = tf_regs tf r;
  rs_sepc : csrs m Sepc = tf_sepc tf;
  rs_sstatus : csrs m Sstatus = tf_sstatus tf;
}.

Lemma slot_in r : r ≠ Zero → 0 ≤ tf_slot r < trapframe_size.
Proof. intros Hr. by destruct r; [done|vm_compute; done..]. Qed.
Ltac slot_value Hm := etrans; [apply (Hm 0%nat); vm_compute; done|vm_compute; reflexivity].

Lemma user_entry top gp tp m : user_ready top gp tp m →
  ∃ m1, trap_entry m = Some (true, m1) ∧ in_handler (top - trapframe_size) gp tp (frame_of m) m1 ∧ rget m1 A0 = top - trapframe_size ∧ rget m1 A1 = 1 ∧
    csrs m1 Sscratch = 0 ∧ ∀ a, outside (top - trapframe_size) trapframe_size a → mem m1 a = mem m a.
Proof.
  intros [Hs Hf Hg Ht]. set (p := top - trapframe_size) in *. pose proof (one_frame p _ Hf) as Hfs.
  destruct (code_runs [trapframe_size] m (λ _, p) ([Csrrw SP Sscratch SP] ++ SAVE_REGS true ++ [Mv A0 SP; Li A1 1]) [] [(Sscratch, VPtr 0 trapframe_size)] Hfs) as (m1 & E & [Hr Hc Hm Ho]);
    [constructor|repeat constructor; cbn; unfold p; lia|vm_compute; reflexivity|].
  exists m1. split.
  { unfold trap_entry. cbn [app exec] in E. destruct (step (Csrrw SP Sscratch SP) m) as [m'|] eqn:Es; [|done]. cbn [step] in Es. injection Es as <-.
    rewrite rget_rset, decide_True by done. destruct Hf as (_ & H0 & _). rewrite (proj2 (Z.eqb_neq (csrs m Sscratch) 0)) by (unfold p, trapframe_size in H0; lia). by rewrite E. }
  split; [split|].
  - exact Hf.
  - rewrite Hr. change (p + 0 = p). lia.
  - rewrite Hr, <- Hg. vm_compute. reflexivity.
  - rewrite Hr, <- Ht. vm_compute. reflexivity.
  - split; [|split; slot_value Hm]. intros r Hn. etrans; [apply (Hm 0%nat); by apply slot_in|]. destruct r; try done; vm_compute; reflexivity.
  - split; [rewrite Hr; change (p + 0 = p); lia|]. split; [rewrite Hr; vm_compute; reflexivity|]. split; [rewrite Hc; vm_compute; reflexivity|].
    intros a Ha. apply Ho. intros [|b] [x Hx]; [exact Ha|done].
Qed.

Lemma user_exit top gp tp tf m : in_handler (top - trapframe_size) gp tp tf m →
  ∃ m', trap_exit true m = Some m' ∧ resumed tf m' ∧ user_ready top gp tp m' ∧ ∀ a, outside (top - trapframe_size) trapframe_size a → mem m' a = mem m a.
Proof.
  intros [Hf Hs Hg Ht (Htf & Hpc & Hst)]. set (p := top - trapframe_size) in *. pose proof (one_frame p _ Hf) as Hfs.
  destruct (code_runs [trapframe_size] m (λ _, p) (RESTORE_REGS true) [(SP, VPtr 0 0)] [] Hfs) as (m' & E & [Hr Hc Hm Ho]); [repeat constructor; cbn; lia|constructor|vm_compute; reflexivity|].
  exists m'. split; [exact E|]. split; [split|split; [split|]].
  - intros r Hn. rewrite Hr, <- Htf by done. destruct r; try done; vm_compute; reflexivity.
  - rewrite Hc, <- Hpc. vm_compute. reflexivity.
  - rewrite Hc, <- Hst. vm_compute. reflexivity.
  - rewrite Hc. change (p + trapframe_size = top). unfold p. lia.
  - exact Hf.
  - rewrite <- Hg. slot_value Hm.
  - rewrite <- Ht. slot_value Hm.
  - intros a Ha. apply Ho. intros [|b] [x Hx]; [exact Ha|done].
Qed.
(** In the kernel, [gp] and [tp] stay in their registers. *)
Lemma kernel_entry m : csrs m Sscratch = 0 → frame_ok (rget m SP - trapframe_size) trapframe_size →
  ∃ m1, trap_entry m = Some (false, m1) ∧ rget m1 SP = rget m SP - trapframe_size ∧ rget m1 A0 = rget m1 SP ∧ rget m1 A1 = 0 ∧ rget m1 GP = rget m GP ∧ rget m1 TP = rget m TP ∧ csrs m1 Sscratch = 0 ∧
    (∀ r, r ∉ [Zero; GP; TP] → mem m1 (rget m1 SP + tf_slot r) = rget m r) ∧ mem m1 (rget m1 SP + OFF_sepc) = csrs m Sepc ∧ mem m1 (rget m1 SP + OFF_sstatus) = csrs m Sstatus ∧
    ∀ a, outside (rget m1 SP) trapframe_size a → mem m1 a = mem m a.
Proof.
  intros Hs Hf. set (p := rget m SP - trapframe_size) in *. pose proof (one_frame p _ Hf) as Hfs.
  destruct (code_runs [trapframe_size] m (λ _, p) ([Csrrw SP Sscratch SP; Csrr SP Sscratch] ++ SAVE_REGS false ++ [Mv A0 SP; Li A1 0]) [(SP, VPtr 0 trapframe_size)] [(Sscratch, VConst 0)] Hfs) as (m1 & E & [Hr Hc Hm Ho]);
    [repeat constructor; cbn; unfold p; lia|repeat constructor; done|vm_compute; reflexivity|].
  exists m1. assert (rget m1 SP = p) as Hsp by (rewrite Hr; change (p + 0 = p); lia). rewrite Hsp. split.
  { unfold trap_entry. cbn [app exec] in E. destruct (step (Csrrw SP Sscratch SP) m) as [m'|] eqn:Es; [|done]. cbn [step] in Es. injection Es as <-.
    rewrite rget_rset, decide_True by done. rewrite (proj2 (Z.eqb_eq (csrs m Sscratch) 0)) by done. cbn [app exec]. by rewrite E. }
  split; [done|]. split; [rewrite Hr; change (p + 0 = p); lia|]. do 3 (split; [rewrite Hr; vm_compute; reflexivity|]). split; [rewrite Hc; vm_compute; reflexivity|]. split.
  { intros r Hn. apply not_elem_of_cons in Hn as [Hz Hn]. etrans; [apply (Hm 0%nat); by apply slot_in|].
    destruct r; try done; try (vm_compute; reflexivity); try (exfalso; apply Hn; apply (bool_decide_unpack _); vm_compute; exact I). change (p + trapframe_size = rget m SP). unfold p. lia. }
  split; [slot_value Hm|]. split; [slot_value Hm|]. intros a Ha. apply Ho. intros [|b] [x Hx]; [exact Ha|done].
Qed.
Lemma kernel_exit p tf m : frame_ok p trapframe_size → rget m SP = p → (∀ r, r ∉ [Zero; GP; TP] → mem m (p + tf_slot r) = tf_regs tf r) →
  mem m (p + OFF_sepc) = tf_sepc tf → mem m (p + OFF_sstatus) = tf_sstatus tf →
  ∃ m', trap_exit false m = Some m' ∧ (∀ r, r ∉ [Zero; GP; TP] → rget m' r = tf_regs tf r) ∧ rget m' GP = rget m GP ∧ rget m' TP = rget m TP ∧
    csrs m' Sepc = tf_sepc tf ∧ csrs m' Sstatus = tf_sstatus tf ∧ csrs m' Sscratch = csrs m Sscratch ∧ ∀ a, outside p trapframe_size a → mem m' a = mem m a.
Proof.
  intros Hf Hs Htf Hpc Hst. pose proof (one_frame p _ Hf) as Hfs.
  destruct (code_runs [trapframe_size] m (λ _, p) (RESTORE_REGS false) [(SP, VPtr 0 0)] [] Hfs) as (m' & E & [Hr Hc Hm Ho]); [repeat constructor; cbn; lia|constructor|vm_compute; reflexivity|].
  exists m'. split; [exact E|]. split.
  { intros r Hn. rewrite Hr, <- Htf by done. destruct r; try (vm_compute; reflexivity); exfalso; apply Hn; apply (bool_decide_unpack _); vm_compute; exact I. }
  do 2 (split; [rewrite Hr; vm_compute; reflexivity|]). split; [rewrite Hc, <- Hpc; vm_compute; reflexivity|]. split; [rewrite Hc, <- Hst; vm_compute; reflexivity|].
  split; [rewrite Hc; vm_compute; reflexivity|]. intros a Ha. apply Ho. intros [|b] [x Hx]; [exact Ha|done].
Qed.

(** The result of [enter_uspace], for any registers that the compiler may choose. *)
Definition free_regs : list GprIndex := filter (λ r, r ∉ [SP; GP; TP]) all_regs.
Definition enter_check (tf kta : GprIndex) : bool :=
  let regs := [(tf, VPtr 0 0); (kta, VPtr 1 0)] in
  let sizes := [trapframe_size; trapframe_size] in
  let s := sresult sizes (enter_code tf kta) regs [] in
  is_ok_code sizes (enter_code tf kta) regs [] && forallb (λ r, bool_decide (s_reg s r = VSlot 0 (tf_slot r))) all_regs &&
  bool_decide (s_csr s Sstatus = VSlot 0 OFF_sstatus) && bool_decide (s_csr s Sepc = VCsr Sepc) && bool_decide (s_csr s Sscratch = VCsr Sscratch) &&
  bool_decide (s_mem s 1 (tf_slot GP) = VReg GP) && bool_decide (s_mem s 1 (tf_slot TP) = VReg TP).
Lemma enter_checked : forallb (λ tf, forallb (λ kta, bool_decide (tf = kta) || enter_check tf kta) free_regs) free_regs = true.
Proof. vm_compute. reflexivity. Qed.
Lemma enter_uspace_exact tf kta self top c m : tf ∈ free_regs → kta ∈ free_regs → tf ≠ kta →
  frame_ok self trapframe_size → frame_ok (top - trapframe_size) trapframe_size → apart self trapframe_size (top - trapframe_size) trapframe_size → tf_at m self c →
  ∃ m', enter_uspace tf kta self top m = Some m' ∧ resumed c m' ∧ user_ready top (rget m GP) (rget m TP) m' ∧
    ∀ a, outside self trapframe_size a → outside (top - trapframe_size) trapframe_size a → mem m' a = mem m a.
Proof.
  intros H1 H2 Hne Hp Hq Ha (Hregs & Hpc & Hst). set (q := top - trapframe_size) in *. pose proof (two_frames self q _ _ Hp Hq Ha) as Hf. set (ptr := λ b : nat, match b with O => self | _ => q end) in Hf.
  pose proof enter_checked as Hck. rewrite forallb_forall in Hck. specialize (Hck tf (proj1 (list_elem_of_In _ _) H1)). rewrite forallb_forall in Hck. specialize (Hck kta (proj1 (list_elem_of_In _ _) H2)).
  rewrite bool_decide_eq_false_2 in Hck by done. cbn [orb] in Hck. unfold enter_check in Hck. cbv zeta in Hck. rewrite !andb_true_iff in Hck. destruct Hck as ((((((Hok & Hr) & Hc1) & Hc2) & Hc3) & Hm1) & Hm2).
  apply bool_decide_eq_true in Hc1, Hc2, Hc3, Hm1, Hm2. rewrite forallb_forall in Hr.
  assert (∀ x, x ∈ free_regs → x ≠ Zero ∧ x ≠ GP ∧ x ≠ TP) as Hfree by (intros x [Hx Hin]%list_elem_of_filter; destruct x; try done; exfalso; revert Hin Hx; apply (bool_decide_unpack _); vm_compute; exact I).
  unfold enter_uspace. cbv zeta. set (m1 := cset Sepc _ _). set (m2 := rset kta _ _).
  assert (usub top trapframe_size = q) as Eq by (unfold usub; fold q; apply wrap_small; unfold in_usize; destruct Hq as (_ & ? & ? & ?); lia).
  assert (∀ x, x ≠ tf → x ≠ kta → rget m2 x = rget m x) as Hr2 by (intros x N1 N2; unfold m2; rewrite !rget_rset, !decide_False by tauto; done).
  destruct (Hfree tf H1) as (Z1 & G1 & T1'). destruct (Hfree kta H2) as (Z2 & G2 & T2').
  destruct (code_runs [trapframe_size; trapframe_size] m2 ptr (enter_code tf kta) [(tf, VPtr 0 0); (kta, VPtr 1 0)] [] Hf) as (m' & E & [Ar Ac Am Ao]); [|constructor|exact Hok|].
  { unfold m2. repeat constructor; cbn; rewrite !rget_rset; [rewrite decide_False, decide_True by tauto; lia|rewrite decide_True, Eq by tauto; lia]. }
  exists m'. split; [exact E|]. split; [split|split; [split|]].
  - intros r Hn. rewrite Ar, <- Hregs by done. specialize (Hr r (proj1 (list_elem_of_In _ _) (all_regs_elem r Hn))). apply bool_decide_eq_true in Hr. by rewrite Hr.
  - rewrite Ac, Hc2. cbn. by rewrite <- Hpc.
  - rewrite Ac, Hc1. cbn. by rewrite <- Hst.
  - rewrite Ac, Hc3. reflexivity.
  - exact Hq.
  - etrans; [apply (Am 1%nat (tf_slot GP)); vm_compute; done|]. rewrite Hm1. cbn. by apply Hr2.
  - etrans; [apply (Am 1%nat (tf_slot TP)); vm_compute; done|]. rewrite Hm2. cbn. by apply Hr2.
  - intros a O1 O2. etrans; [apply Ao; intros [|[|b]] [x Hx]; [exact O1|exact O2|done]|]. done.
Qed.

(** ** The life of a user program *)

Section life.
Context {W : Type} `{!MappingFlags}.
Context (IRQ : list (Z → W → outcome (bool * W))) (PAGE_FAULT : list (Z → Z → bool → W → outcome (bool * W))) (SYSCALL : list (TrapFrame → Z → W → outcome (Z * W))).
Abbreviation handler := (riscv_trap_handler IRQ PAGE_FAULT SYSCALL).

(** User code cannot write [sscratch] or the kernel's memory; everything else may change,
    and the trap stores its cause. *)
Record user_runs (top : Z) (m m' : hart) : Prop := {
  us_scratch : csrs m' Sscratch = csrs m Sscratch;
  us_frame k : 0 ≤ k < trapframe_size → mem m' (top - trapframe_size + k) = mem m (top - trapframe_size + k);
}.
(** The compiled handler: it gets the frame in [a0], leaves its result there, and keeps [sp],
    [gp] and [tp]. *)
Record handler_runs (cause : Trap) (scause stval : Z) (tf : TrapFrame) (m1 m2 : hart) (w : W) (tf' : TrapFrame) (w' : W) : Prop := {
  hr_ret : handler cause scause stval tf (negb (rget m1 A1 =? 0)) w = Ret (tf', w');
  hr_frame : tf_at m2 (rget m1 A0) tf';
  hr_sp : rget m2 SP = rget m1 SP;
  hr_gp : rget m2 GP = rget m1 GP;
  hr_tp : rget m2 TP = rget m1 TP;
}.
Inductive user_life (top gp tp : Z) : hart → W → Prop :=
  | life_enter tf kta self c m m' w :
      tf ∈ free_regs → kta ∈ free_regs → tf ≠ kta → frame_ok self trapframe_size → frame_ok (top - trapframe_size) trapframe_size →
      apart self trapframe_size (top - trapframe_size) trapframe_size → tf_at m self c → rget m GP = gp → rget m TP = tp →
      enter_uspace tf kta self top m = Some m' → user_life top gp tp m' w
  | life_user m m' w : user_life top gp tp m w → user_runs top m m' → user_life top gp tp m' w
  | life_trap m w cause scause stval m1 m2 m3 tf' w' :
      user_life top gp tp m w → trap_entry m = Some (true, m1) → handler_runs cause scause stval (frame_of m) m1 m2 w tf' w' →
      trap_exit true m2 = Some m3 → user_life top gp tp m3 w'.

Lemma handled top gp tp m m1 m2 cause scause stval w tf' w' : in_handler (top - trapframe_size) gp tp (frame_of m) m1 → rget m1 A0 = top - trapframe_size →
  handler_runs cause scause stval (frame_of m) m1 m2 w tf' w' → in_handler (top - trapframe_size) gp tp tf' m2.
Proof. intros [F S G T _] Ha [_ Hf Hs Hg Ht]. split; [done|congruence..|]. by rewrite <- Ha. Qed.
Lemma life_ready top gp tp m w : user_life top gp tp m w → user_ready top gp tp m.
Proof.
  induction 1 as [tf kta self c m m' w H1 H2 Hne Hp Hq Ha Htf <- <- E|m m' w _ [Hs Hf Hg Ht] [Us Uf]|m w cause scause stval m1 m2 m3 tf' w' _ IH E1 Hh E3].
  - destruct (enter_uspace_exact tf kta self top c m H1 H2 Hne Hp Hq Ha Htf) as (m2 & E2 & _ & Hr & _). congruence.
  - split; [congruence|done| |]; [rewrite Uf by (vm_compute; done); done..].
  - destruct (user_entry top gp tp m IH) as (m1' & E & Hin & Ha0 & Ha1 & _). rewrite E1 in E. simplify_eq.
    destruct (user_exit top gp tp tf' m2) as (m3' & E' & _ & Hr & _); [by eapply handled|]. congruence.
Qed.

(** C10: From the moment a task enters user mode, whatever its program does and however often
    it traps: every trap reaches the handler on the task's own kernel stack, with the
    kernel's [gp] and [tp], [sscratch] cleared, the flag for user mode set and the frame
    holding every register of the program, its program counter and status; no other memory is
    changed; and when the handler returns, the program goes on with the registers of the frame
    as the handler left it.  After a system call these are the program's own but for [a0],
    which has the result, and the program counter is behind the [ecall]. *)
Theorem user_traps_exact top gp tp m w : user_life top gp tp m w →
  ∃ m1, trap_entry m = Some (true, m1) ∧ in_handler (top - trapframe_size) gp tp (frame_of m) m1 ∧ rget m1 A0 = top - trapframe_size ∧ rget m1 A1 = 1 ∧ csrs m1 Sscratch = 0 ∧
    (∀ a, outside (top - trapframe_size) trapframe_size a → mem m1 a = mem m a) ∧
    ∀ cause scause stval m2 tf' w', handler_runs cause scause stval (frame_of m) m1 m2 w tf' w' →
      ∃ m3, trap_exit true m2 = Some m3 ∧ resumed tf' m3 ∧ (∀ a, outside (top - trapframe_size) trapframe_size a → mem m3 a = mem m2 a) ∧
        (cause = UserEnvCall → (∀ r, r ≠ A0 → rget m3 r = rget m r) ∧ csrs m3 Sepc = uadd (csrs m Sepc) 4 ∧ csrs m3 Sstatus = csrs m Sstatus ∧
           ∃ f rest v, SYSCALL = f :: rest ∧ f (frame_of m) (rget m A7) w = Ret (v, w') ∧ rget m3 A0 = wrap v).
Proof.
  intros Hl. destruct (user_entry top gp tp m (life_ready _ _ _ _ _ Hl)) as (m1 & E1 & Hin & Ha0 & Ha1 & Hs & Ho). exists m1. do 6 (split; [done|]).
  intros cause scause stval m2 tf' w' Hh. destruct (user_exit top gp tp tf' m2) as (m3 & E3 & Hres & _ & Ho3); [by eapply handled|]. exists m3. do 3 (split; [done|]).
  intros ->. pose proof (hr_ret _ _ _ _ _ _ _ _ _ Hh) as Hret. cbn in Hret. unfold handle_syscall in Hret. destruct SYSCALL as [|f rest]; [done|]. destruct (f (frame_of m) (rget m A7) w) as [[v w1]|] eqn:Ef; [|done]. simplify_eq.
  destruct Hres as [Hr Hpc Hst]. split; [|split; [exact Hpc|split; [exact Hst|]]].
  - intros r Hne. destruct (decide (r = Zero)) as [->|Hz]; [done|]. rewrite Hr by done. cbn. by apply upd_ne.
  - exists f, rest, v. split; [done|]. split; [done|]. rewrite Hr by done. cbn. apply upd_eq.
Qed.
End life.
