(* ===== verification/Vcpu.v ===== *)
(** The switch between the hypervisor and a guest: the register state of a virtual CPU
    ([riscv_vcpu/src/vcpu.rs], [regs.rs]) and the assembly code that saves and loads it
    ([guest.S]; the same file is in [exercises/simple_hv] and [tour/h_1_0]).

    [enter_guest] and [leave_guest] are the two halves of the code, as what they do to the
    record; the theorem is that the machine code does this, and that a guest, which cannot
    reach the record or the hypervisor's control registers, returns to the caller of
    [_run_guest] with its registers as they were. *)

From stdpp Require Import prelude list.
From Stdlib Require Import ZArith Lia.
From S2P Require Import Prelude Riscv RiscvContext.
Local Open Scope Z_scope.

(** ** The registers of a virtual CPU *)

(** [GeneralPurposeRegisters], an array with a place for every register, [x0] included. *)
Definition GeneralPurposeRegisters : Type := GprIndex → Z.
Definition reg (g : GeneralPurposeRegisters) (r : GprIndex) : Z := g r.
Definition set_reg (r : GprIndex) (v : Z) (g : GeneralPurposeRegisters) : GeneralPurposeRegisters := if decide (r = Zero) then g else upd r v g.
Definition a_regs (g : GeneralPurposeRegisters) : list Z := map g [A0; A1; A2; A3; A4; A5; A6; A7].

Record HypervisorCpuState : Type := { h_gprs : GeneralPurposeRegisters; h_sstatus : Z; h_scounteren : Z; h_stvec : Z; h_sscratch : Z }.
Record GuestCpuState : Type := { g_gprs : GeneralPurposeRegisters; g_sstatus : Z; g_hstatus : Z; g_scounteren : Z; g_sepc : Z }.
Record GuestVsCsrs : Type := {
  htimedelta : Z; vsstatus : Z; vsie : Z; vstvec : Z; vsscratch : Z; vsepc : Z; vscause : Z; vstval : Z; vsatp : Z; vstimecmp : Z }.
Record GuestVirtualHsCsrs : Type := { v_hie : Z; v_hgeie : Z; v_hgatp : Z }.
Record VmCpuTrapState : Type := { t_scause : Z; t_stval : Z; t_htval : Z; t_htinst : Z }.
Record VmCpuRegisters : Type := {
  hyp_regs : HypervisorCpuState; guest_regs : GuestCpuState; vs_csrs : GuestVsCsrs; virtual_hs_csrs : GuestVirtualHsCsrs; trap_csrs : VmCpuTrapState }.

(** The record in memory ([repr(C)]). *)
Definition gprs_words (g : GeneralPurposeRegisters) : list Z := map g (Zero :: all_regs).
Definition vm_words (v : VmCpuRegisters) : list Z :=
  let h := hyp_regs v in let g := guest_regs v in let s := vs_csrs v in let x := virtual_hs_csrs v in let t := trap_csrs v in
  gprs_words (h_gprs h) ++ [h_sstatus h; h_scounteren h; h_stvec h; h_sscratch h] ++
  gprs_words (g_gprs g) ++ [g_sstatus g; g_hstatus g; g_scounteren g; g_sepc g] ++
  [htimedelta s; vsstatus s; vsie s; vstvec s; vsscratch s; vsepc s; vscause s; vstval s; vsatp s; vstimecmp s] ++
  [v_hie x; v_hgeie x; v_hgatp x] ++ [t_scause t; t_stval t; t_htval t; t_htinst t].
Definition VM_SIZE : Z := 712.
(** [offset_of!] of the two states and of their fields. *)
Definition OFF_hyp_regs : Z := 0.
Definition OFF_guest_regs : Z := 288.
Definition hyp_gpr_offset (r : GprIndex) : Z := OFF_hyp_regs + 0 + Z.of_nat (gpr_index r) * 8.
Definition guest_gpr_offset (r : GprIndex) : Z := OFF_guest_regs + 0 + Z.of_nat (gpr_index r) * 8.
Definition hyp_sstatus : Z := OFF_hyp_regs + 256.
Definition hyp_scounteren : Z := OFF_hyp_regs + 264.
Definition hyp_stvec : Z := OFF_hyp_regs + 272.
Definition hyp_sscratch : Z := OFF_hyp_regs + 280.
Definition guest_sstatus : Z := OFF_guest_regs + 256.
Definition guest_hstatus : Z := OFF_guest_regs + 264.
Definition guest_scounteren : Z := OFF_guest_regs + 272.
Definition guest_sepc : Z := OFF_guest_regs + 280.

(** ** [guest.S] *)

(** [_run_guest] up to [sret]; [guest_exit] is the address of the label [_guest_exit]. *)
Definition run_guest_code (guest_exit : Z) : list instr :=
  [Sd RA (hyp_gpr_offset RA) A0; Sd GP (hyp_gpr_offset GP) A0; Sd TP (hyp_gpr_offset TP) A0; Sd S0 (hyp_gpr_offset S0) A0;
   Sd S1 (hyp_gpr_offset S1) A0; Sd A1 (hyp_gpr_offset A1) A0; Sd A2 (hyp_gpr_offset A2) A0; Sd A3 (hyp_gpr_offset A3) A0;
   Sd A4 (hyp_gpr_offset A4) A0; Sd A5 (hyp_gpr_offset A5) A0; Sd A6 (hyp_gpr_offset A6) A0; Sd A7 (hyp_gpr_offset A7) A0;
   Sd S2 (hyp_gpr_offset S2) A0; Sd S3 (hyp_gpr_offset S3) A0; Sd S4 (hyp_gpr_offset S4) A0; Sd S5 (hyp_gpr_offset S5) A0;
   Sd S6 (hyp_gpr_offset S6) A0; Sd S7 (hyp_gpr_offset S7) A0; Sd S8 (hyp_gpr_offset S8) A0; Sd S9 (hyp_gpr_offset S9) A0;
   Sd S10 (hyp_gpr_offset S10) A0; Sd S11 (hyp_gpr_offset S11) A0; Sd SP (hyp_gpr_offset SP) A0; Ld T1 guest_sstatus A0; Csrrw T1 Sstatus T1;
   Sd T1 hyp_sstatus A0; Ld T1 guest_hstatus A0; Csrrw T1 Hstatus T1; Ld T1 guest_scounteren A0; Csrrw T1 Scounteren T1; Sd T1 hyp_scounteren A0;
   Ld T1 guest_sepc A0; Csrw Sepc T1; Li T1 guest_exit; Csrrw T1 Stvec T1; Sd T1 hyp_stvec A0; Csrrw T1 Sscratch A0; Sd T1 hyp_sscratch A0;
   Ld RA (guest_gpr_offset RA) A0; Ld GP (guest_gpr_offset GP) A0; Ld TP (guest_gpr_offset TP) A0; Ld S0 (guest_gpr_offset S0) A0;
   Ld S1 (guest_gpr_offset S1) A0; Ld A1 (guest_gpr_offset A1) A0; Ld A2 (guest_gpr_offset A2) A0; Ld A3 (guest_gpr_offset A3) A0;
   Ld A4 (guest_gpr_offset A4) A0; Ld A5 (guest_gpr_offset A5) A0; Ld A6 (guest_gpr_offset A6) A0; Ld A7 (guest_gpr_offset A7) A0;
   Ld S2 (guest_gpr_offset S2) A0; Ld S3 (guest_gpr_offset S3) A0; Ld S4 (guest_gpr_offset S4) A0; Ld S5 (guest_gpr_offset S5) A0;
   Ld S6 (guest_gpr_offset S6) A0; Ld S7 (guest_gpr_offset S7) A0; Ld S8 (guest_gpr_offset S8) A0; Ld S9 (guest_gpr_offset S9) A0;
   Ld S10 (guest_gpr_offset S10) A0; Ld S11 (guest_gpr_offset S11) A0; Ld T0 (guest_gpr_offset T0) A0; Ld T1 (guest_gpr_offset T1) A0;
   Ld T2 (guest_gpr_offset T2) A0; Ld T3 (guest_gpr_offset T3) A0; Ld T4 (guest_gpr_offset T4) A0; Ld T5 (guest_gpr_offset T5) A0;
   Ld T6 (guest_gpr_offset T6) A0; Ld SP (guest_gpr_offset SP) A0; Ld A0 (guest_gpr_offset A0) A0].
(** [_guest_exit] up to [ret]. *)
Definition guest_exit_code : list instr :=
  [Csrrw A0 Sscratch A0; Sd RA (guest_gpr_offset RA) A0; Sd GP (guest_gpr_offset GP) A0; Sd TP (guest_gpr_offset TP) A0;
   Sd S0 (guest_gpr_offset S0) A0; Sd S1 (guest_gpr_offset S1) A0; Sd A1 (guest_gpr_offset A1) A0; Sd A2 (guest_gpr_offset A2) A0;
   Sd A3 (guest_gpr_offset A3) A0; Sd A4 (guest_gpr_offset A4) A0; Sd A5 (guest_gpr_offset A5) A0; Sd A6 (guest_gpr_offset A6) A0;
   Sd A7 (guest_gpr_offset A7) A0; Sd S2 (guest_gpr_offset S2) A0; Sd S3 (guest_gpr_offset S3) A0; Sd S4 (guest_gpr_offset S4) A0;
   Sd S5 (guest_gpr_offset S5) A0; Sd S6 (guest_gpr_offset S6) A0; Sd S7 (guest_gpr_offset S7) A0; Sd S8 (guest_gpr_offset S8) A0;
   Sd S9 (guest_gpr_offset S9) A0; Sd S10 (guest_gpr_offset S10) A0; Sd S11 (guest_gpr_offset S11) A0; Sd T0 (guest_gpr_offset T0) A0;
   Sd T1 (guest_gpr_offset T1) A0; Sd T2 (guest_gpr_offset T2) A0; Sd T3 (guest_gpr_offset T3) A0; Sd T4 (guest_gpr_offset T4) A0;
   Sd T5 (guest_gpr_offset T5) A0; Sd T6 (guest_gpr_offset T6) A0; Sd SP (guest_gpr_offset SP) A0; Csrr T0 Sscratch; Sd T0 (guest_gpr_offset A0) A0;
   Ld T1 hyp_sstatus A0; Csrrw T1 Sstatus T1; Sd T1 guest_sstatus A0; Csrr T1 Hstatus; Sd T1 guest_hstatus A0; Ld T1 hyp_scounteren A0;
   Csrrw T1 Scounteren T1; Sd T1 guest_scounteren A0; Ld T1 hyp_stvec A0; Csrw Stvec T1; Ld T1 hyp_sscratch A0; Csrw Sscratch T1; Csrr T1 Sepc;
   Sd T1 guest_sepc A0; Ld RA (hyp_gpr_offset RA) A0; Ld GP (hyp_gpr_offset GP) A0; Ld TP (hyp_gpr_offset TP) A0; Ld S0 (hyp_gpr_offset S0) A0;
   Ld S1 (hyp_gpr_offset S1) A0; Ld A1 (hyp_gpr_offset A1) A0; Ld A2 (hyp_gpr_offset A2) A0; Ld A3 (hyp_gpr_offset A3) A0;
   Ld A4 (hyp_gpr_offset A4) A0; Ld A5 (hyp_gpr_offset A5) A0; Ld A6 (hyp_gpr_offset A6) A0; Ld A7 (hyp_gpr_offset A7) A0;
   Ld S2 (hyp_gpr_offset S2) A0; Ld S3 (hyp_gpr_offset S3) A0; Ld S4 (hyp_gpr_offset S4) A0; Ld S5 (hyp_gpr_offset S5) A0;
   Ld S6 (hyp_gpr_offset S6) A0; Ld S7 (hyp_gpr_offset S7) A0; Ld S8 (hyp_gpr_offset S8) A0; Ld S9 (hyp_gpr_offset S9) A0;
   Ld S10 (hyp_gpr_offset S10) A0; Ld S11 (hyp_gpr_offset S11) A0; Ld SP (hyp_gpr_offset SP) A0].

(** ** What it does to the record *)

(** The registers of the hypervisor that are saved: all but [a0] and the temporaries. *)
Definition host_regs : list GprIndex := [RA; SP; GP; TP; S0; S1; A1; A2; A3; A4; A5; A6; A7; S2; S3; S4; S5; S6; S7; S8; S9; S10; S11].
Definition store_regs (rs : list GprIndex) (m : hart) (g : GeneralPurposeRegisters) : GeneralPurposeRegisters := λ r, if decide (r ∈ rs) then rget m r else g r.
Definition enter_guest (m : hart) (v : VmCpuRegisters) : VmCpuRegisters :=
  {| hyp_regs := {| h_gprs := store_regs host_regs m (h_gprs (hyp_regs v)); h_sstatus := csrs m Sstatus; h_scounteren := csrs m Scounteren; h_stvec := csrs m Stvec; h_sscratch := csrs m Sscratch |};
     guest_regs := guest_regs v; vs_csrs := vs_csrs v; virtual_hs_csrs := virtual_hs_csrs v; trap_csrs := trap_csrs v |}.
Definition leave_guest (m : hart) (v : VmCpuRegisters) : VmCpuRegisters :=
  {| hyp_regs := hyp_regs v;
     guest_regs := {| g_gprs := store_regs all_regs m (g_gprs (guest_regs v)); g_sstatus := csrs m Sstatus; g_hstatus := csrs m Hstatus; g_scounteren := csrs m Scounteren; g_sepc := csrs m Sepc |};
     vs_csrs := vs_csrs v; virtual_hs_csrs := virtual_hs_csrs v; trap_csrs := trap_csrs v |}.
Definition regs_at (m : hart) (p : Z) (v : VmCpuRegisters) : Prop := words_at m p (vm_words v).

Lemma reg_slot m p v r : regs_at m p v → mem m (p + hyp_gpr_offset r) = h_gprs (hyp_regs v) r ∧ mem m (p + guest_gpr_offset r) = g_gprs (guest_regs v) r.
Proof.
  intros Hv. split; [pose proof (Hv (gpr_index r)) as H|pose proof (Hv (36 + gpr_index r)%nat) as H]; destruct r; specialize (H _ eq_refl); exact H.
Qed.
Lemma csr_slot m p v : regs_at m p v →
  mem m (p + hyp_sstatus) = h_sstatus (hyp_regs v) ∧ mem m (p + hyp_scounteren) = h_scounteren (hyp_regs v) ∧ mem m (p + hyp_stvec) = h_stvec (hyp_regs v) ∧ mem m (p + hyp_sscratch) = h_sscratch (hyp_regs v) ∧
  mem m (p + guest_sstatus) = g_sstatus (guest_regs v) ∧ mem m (p + guest_hstatus) = g_hstatus (guest_regs v) ∧ mem m (p + guest_scounteren) = g_scounteren (guest_regs v) ∧ mem m (p + guest_sepc) = g_sepc (guest_regs v).
Proof. intros Hv. split_and!; [apply (Hv 32%nat)|apply (Hv 33%nat)|apply (Hv 34%nat)|apply (Hv 35%nat)|apply (Hv 68%nat)|apply (Hv 69%nat)|apply (Hv 70%nat)|apply (Hv 71%nat)]; reflexivity. Qed.

(** ** What the machine does *)

(** A slot of the record after the code: a register, or what was there. *)
Ltac record_slot Hm Hv :=
  match goal with
  | Hi : vm_words _ !! ?k = Some _ |- _ =>
      injection Hi as <-; etrans; [apply (Hm 0%nat); vm_compute; done|]; first [vm_compute; reflexivity|refine (eq_trans _ (Hv k _ eq_refl)); vm_compute; reflexivity]
  end.

Record entered (guest_exit p : Z) (v : VmCpuRegisters) (m m' : hart) : Prop := {
  en_regs r : r ≠ Zero → rget m' r = g_gprs (guest_regs v) r;
  en_sstatus : csrs m' Sstatus = g_sstatus (guest_regs v);
  en_hstatus : csrs m' Hstatus = g_hstatus (guest_regs v);
  en_scounteren : csrs m' Scounteren = g_scounteren (guest_regs v);
  en_sepc : csrs m' Sepc = g_sepc (guest_regs v);
  en_stvec : csrs m' Stvec = guest_exit;
  en_sscratch : csrs m' Sscratch = p;
  en_csrs c : c ∉ [Sstatus; Hstatus; Scounteren; Sepc; Stvec; Sscratch] → csrs m' c = csrs m c;
  en_record : regs_at m' p (enter_guest m v);
  en_memory a : a < p ∨ p + VM_SIZE ≤ a → mem m' a = mem m a;
}.
Lemma run_guest_exact ge p v m : frame_ok p VM_SIZE → rget m A0 = p → regs_at m p v → ∃ m', exec (run_guest_code ge) m = Some m' ∧ entered ge p v m m'.
Proof.
  intros Hf Ha Hv. pose proof (one_frame p _ Hf) as Hfs.
  destruct (code_runs [VM_SIZE] m (λ _, p) (run_guest_code ge) [(A0, VPtr 0 0)] [] Hfs) as (m' & E & [Hr Hc Hm Ho]); [repeat constructor; cbn; lia|constructor|vm_compute; reflexivity|].
  exists m'. split; [exact E|]. destruct (csr_slot m p v Hv) as (_ & _ & _ & _ & G1 & G2 & G3 & G4). split.
  - intros r Hn. rewrite Hr, <- (proj2 (reg_slot m p v r Hv)). destruct r; try done; vm_compute; reflexivity.
  - rewrite Hc, <- G1. vm_compute. reflexivity.
  - rewrite Hc, <- G2. vm_compute. reflexivity.
  - rewrite Hc, <- G3. vm_compute. reflexivity.
  - rewrite Hc, <- G4. vm_compute. reflexivity.
  - rewrite Hc. vm_compute. reflexivity.
  - rewrite Hc. change (p + 0 = p). lia.
  - intros c Hn. rewrite Hc. destruct c; try (vm_compute; reflexivity); exfalso; apply Hn; apply (bool_decide_unpack _); vm_compute; exact I.
  - intros i w Hi. do 89 (destruct i as [|i]; [record_slot Hm Hv|]). done.
  - intros a Hout. apply Ho. intros [|b] [x Hx]; [exact Hout|done].
Qed.

Record left (p : Z) (v : VmCpuRegisters) (m m' : hart) : Prop := {
  lv_regs r : r ∈ host_regs → rget m' r = h_gprs (hyp_regs v) r;
  lv_a0 : rget m' A0 = p;
  lv_sstatus : csrs m' Sstatus = h_sstatus (hyp_regs v);
  lv_scounteren : csrs m' Scounteren = h_scounteren (hyp_regs v);
  lv_stvec : csrs m' Stvec = h_stvec (hyp_regs v);
  lv_sscratch : csrs m' Sscratch = h_sscratch (hyp_regs v);
  lv_csrs c : c ∉ [Sstatus; Scounteren; Stvec; Sscratch] → csrs m' c = csrs m c;
  lv_record : regs_at m' p (leave_guest m v);
  lv_memory a : a < p ∨ p + VM_SIZE ≤ a → mem m' a = mem m a;
}.
Lemma guest_exit_exact p v m : frame_ok p VM_SIZE → csrs m Sscratch = p → regs_at m p v → ∃ m', exec guest_exit_code m = Some m' ∧ left p v m m'.
Proof.
  intros Hf Ha Hv. pose proof (one_frame p _ Hf) as Hfs.
  destruct (code_runs [VM_SIZE] m (λ _, p) guest_exit_code [] [(Sscratch, VPtr 0 0)] Hfs) as (m' & E & [Hr Hc Hm Ho]); [constructor|repeat constructor; cbn; lia|vm_compute; reflexivity|].
  exists m'. split; [exact E|]. destruct (csr_slot m p v Hv) as (G1 & G2 & G3 & G4 & _). split.
  - intros r Hn. rewrite Hr, <- (proj1 (reg_slot m p v r Hv)). destruct r; try (vm_compute; reflexivity); exfalso; revert Hn; apply (bool_decide_unpack _); vm_compute; exact I.
  - rewrite Hr. change (p + 0 = p). lia.
  - rewrite Hc, <- G1. vm_compute. reflexivity.
  - rewrite Hc, <- G2. vm_compute. reflexivity.
  - rewrite Hc, <- G3. vm_compute. reflexivity.
  - rewrite Hc, <- G4. vm_compute. reflexivity.
  - intros c Hn. rewrite Hc. destruct c; try (vm_compute; reflexivity); exfalso; apply Hn; apply (bool_decide_unpack _); vm_compute; exact I.
  - intros i w Hi. do 89 (destruct i as [|i]; [record_slot Hm Hv|]). done.
  - intros a Hout. apply Ho. intros [|b] [x Hx]; [exact Hout|done].
Qed.

(** A guest runs in VS mode: its [sscratch] and [stvec] are other registers, and the record is
    not in the memory it is given.  Everything else may have changed when it traps. *)
Record guest_runs (p : Z) (m m' : hart) : Prop := {
  gs_scratch : csrs m' Sscratch = csrs m Sscratch;
  gs_record k : 0 ≤ k < VM_SIZE → mem m' (p + k) = mem m (p + k);
}.

(** C11: [_run_guest] with the registers of a virtual CPU enters the guest with all 31
    registers, status and program counter of the record.  Whatever the guest does, the trap
    that ends its run returns to the caller of [_run_guest] with the stack pointer and all
    registers the caller may rely on, the status, the trap vector and [sscratch] of the
    hypervisor as they were, and the record has every register and the program counter of the
    guest at the trap; nothing else in memory is changed by the switch. *)
Theorem guest_switch_exact guest_exit p v m : frame_ok p VM_SIZE → rget m A0 = p → regs_at m p v →
  ∃ m1, exec (run_guest_code guest_exit) m = Some m1 ∧ entered guest_exit p v m m1 ∧
    ∀ m2, guest_runs p m1 m2 → ∃ m3, exec guest_exit_code m2 = Some m3 ∧ same_caller m m3 ∧ (∀ r, r ∈ host_regs → rget m3 r = rget m r) ∧ rget m3 A0 = p ∧
      (∀ c, c ∈ [Sstatus; Scounteren; Stvec; Sscratch] → csrs m3 c = csrs m c) ∧ csrs m3 Hstatus = csrs m2 Hstatus ∧
      regs_at m3 p (leave_guest m2 (enter_guest m v)) ∧ ∀ a, a < p ∨ p + VM_SIZE ≤ a → mem m3 a = mem m2 a.
Proof.
  intros Hf Ha Hv. destruct (run_guest_exact guest_exit p v m Hf Ha Hv) as (m1 & E1 & H1). exists m1. split; [exact E1|]. split; [exact H1|]. intros m2 [Gs Gr].
  assert (regs_at m2 p (enter_guest m v)) as Hv2.
  { intros i w Hi. rewrite Gr; [by apply (en_record _ _ _ _ _ H1)|]. assert (i < 89)%nat as Hlt by (apply lookup_lt_Some in Hi; exact Hi). unfold VM_SIZE. lia. }
  destruct (guest_exit_exact p (enter_guest m v) m2 Hf) as (m3 & E3 & L); [by rewrite Gs, (en_sscratch _ _ _ _ _ H1)|exact Hv2|]. exists m3. split; [exact E3|].
  assert (∀ r, r ∈ host_regs → rget m3 r = rget m r) as Hback.
  { intros r Hr. rewrite (lv_regs _ _ _ _ L r Hr). cbn. unfold store_regs. by rewrite decide_True. }
  split; [split; [by apply Hback, (bool_decide_unpack _)|]|].
  { intros r Hr. apply Hback. destruct r; try (apply (bool_decide_unpack _); vm_compute; exact I); exfalso; revert Hr; apply (bool_decide_unpack _); vm_compute; exact I. }
  split; [exact Hback|]. split; [apply L|]. split.
  { intros c Hc. destruct c; try (exfalso; revert Hc; apply (bool_decide_unpack _); vm_compute; exact I); apply L. }
  split; [apply (lv_csrs _ _ _ _ L); by apply (bool_decide_unpack _)|]. split; [apply L|]. apply (lv_memory _ _ _ _ L).
Qed.
