(* ===== verification/VcpuExit.v ===== *)
(** The virtual CPU of [riscv_vcpu]: the calls of a guest to its firmware ([sbi/]), the exits
    from a guest and what the hypervisor does about them ([vcpu.rs]), and the control
    registers it sets up ([csrs.rs], [lib.rs]).

    The firmware of the machine ([sbi_rt]), the numbers of its specification ([sbi_spec]) and
    the decoding of [scause] ([riscv]) are parameters.  A call of [system_reset] normally does
    not come back; where it does, the code goes on. *)

From stdpp Require Import prelude list.
From Stdlib Require Import ZArith Lia.
From S2P Require Import Prelude Riscv Vcpu.
Local Open Scope Z_scope.
Local Open Scope kernel_scope.

(** ** SBI messages *)

Class SbiSpec : Type := {
  EID_BASE : Z; LEGACY_SET_TIMER : Z; LEGACY_CONSOLE_PUTCHAR : Z; LEGACY_CONSOLE_GETCHAR : Z; LEGACY_SHUTDOWN : Z;
  EID_TIME : Z; EID_SRST : Z; EID_RFNC : Z; EID_PMU : Z; REMOTE_FENCE_I : Z; REMOTE_SFENCE_VMA : Z;
}.
Inductive BaseFunction : Type :=
  | GetSepcificationVersion | GetImplementationID | GetImplementationVersion | ProbeSbiExtension (e : Z)
  | GetMachineVendorID | GetMachineArchitectureID | GetMachineImplementationID.
Inductive ResetType : Type := Shutdown | ColdReset | WarmReset.
Inductive ResetReason : Type := NoReason | SystemFailure.
Inductive ResetFunction : Type := Reset (reset_type : ResetType) (reason : ResetReason).
Inductive RemoteFenceFunction : Type :=
  | FenceI (hart_mask hart_mask_base : Z)
  | RemoteSFenceVMA (hart_mask hart_mask_base start_addr size : Z).
Inductive PmuFunction : Type := GetNumCounters | GetCounterInfo (i : Z) | StopCounter (counter_index counter_mask stop_flags : Z).
Inductive DebugConsoleFunction : Type := PutString (len addr : Z).
Inductive SbiMessage : Type :=
  | Base (f : BaseFunction) | GetChar | PutChar (c : Z) | SetTimer (t : Z) | DebugConsole (f : DebugConsoleFunction)
  | ResetMsg (f : ResetFunction) | RemoteFence (f : RemoteFenceFunction) | PMU (f : PmuFunction).

(** [args] are the eight argument registers. *)
Definition arg (args : list Z) (i : nat) : Z := nth i args 0.
Definition base_from_regs (args : list Z) : result BaseFunction AxError.t :=
  match arg args 6 with
  | 0 => Ok GetSepcificationVersion
  | 1 => Ok GetImplementationID
  | 2 => Ok GetImplementationVersion
  | 3 => Ok (ProbeSbiExtension (arg args 0))
  | 4 => Ok GetMachineVendorID
  | 5 => Ok GetMachineArchitectureID
  | 6 => Ok GetMachineImplementationID
  | _ => Err AxError.NotFound
  end.
Definition reset_type_from_reg (a0 : Z) : result ResetType AxError.t :=
  match a0 with 0 => Ok Shutdown | 1 => Ok ColdReset | 2 => Ok WarmReset | _ => Err AxError.InvalidInput end.
Definition reset_reason_from_reg (a1 : Z) : result ResetReason AxError.t :=
  match a1 with 0 => Ok NoReason | 1 => Ok SystemFailure | _ => Err AxError.InvalidInput end.
Definition reset_from_regs (args : list Z) : result ResetFunction AxError.t :=
  match arg args 6 with
  | 0 =>
      match reset_type_from_reg (arg args 0) with
      | Err e => Err e
      | Ok t => match reset_reason_from_reg (arg args 1) with Err e => Err e | Ok r => Ok (Reset t r) end
      end
  | _ => Err AxError.InvalidInput
  end.
Definition reset_shutdown : ResetFunction := Reset Shutdown NoReason.
Definition rfnc_from_args `{SbiSpec} (args : list Z) : outcome RemoteFenceFunction :=
  if arg args 6 =? REMOTE_FENCE_I then Ret (FenceI (arg args 0) (arg args 1))
  else if arg args 6 =? REMOTE_SFENCE_VMA then Ret (RemoteSFenceVMA (arg args 0) (arg args 1) (arg args 2) (arg args 3))
  else Panic.
Definition pmu_from_regs (args : list Z) : outcome PmuFunction :=
  match arg args 6 with
  | 0 => Ret GetNumCounters
  | 1 => Ret (GetCounterInfo (arg args 0))
  | 4 => Ret (StopCounter (arg args 0) (arg args 1) (arg args 2))
  | _ => Panic
  end.
Definition map_ok {A B E} (f : A → B) (r : result A E) : result B E := match r with Ok a => Ok (f a) | Err e => Err e end.
Definition from_regs `{SbiSpec} (args : list Z) : outcome (result SbiMessage AxError.t) :=
  let eid := arg args 7 in
  if eid =? EID_BASE then Ret (map_ok Base (base_from_regs args))
  else if eid =? LEGACY_CONSOLE_PUTCHAR then Ret (Ok (PutChar (arg args 0)))
  else if eid =? LEGACY_CONSOLE_GETCHAR then Ret (Ok GetChar)
  else if eid =? LEGACY_SET_TIMER then Ret (Ok (SetTimer (arg args 0)))
  else if eid =? LEGACY_SHUTDOWN then Ret (Ok (ResetMsg reset_shutdown))
  else if eid =? EID_TIME then Ret (Ok (SetTimer (arg args 0)))
  else if eid =? EID_SRST then Ret (map_ok ResetMsg (reset_from_regs args))
  else if eid =? EID_RFNC then match rfnc_from_args args with Ret f => Ret (Ok (RemoteFence f)) | Panic => Panic end
  else if eid =? EID_PMU then match pmu_from_regs args with Ret f => Ret (Ok (PMU f)) | Panic => Panic end
  else Ret (Err AxError.NotFound).

(** ** Control registers *)

Definition write_value (c : csr) (v : Z) (m : hart) : hart := cset c v m.
Definition read_and_set_bits (c : csr) (bitmask : Z) (m : hart) : Z * hart := (csrs m c, cset c (Z.lor (csrs m c) bitmask) m).
Definition read_and_clear_bits (c : csr) (bitmask : Z) (m : hart) : Z * hart := (csrs m c, cset c (Z.ldiff (csrs m c) bitmask) m).
Module interrupt.
Definition SUPERVISOR_SOFT : Z := Z.shiftl 1 1.
Definition VIRTUAL_SUPERVISOR_SOFT : Z := Z.shiftl 1 2.
Definition SUPERVISOR_TIMER : Z := Z.shiftl 1 5.
Definition VIRTUAL_SUPERVISOR_TIMER : Z := Z.shiftl 1 6.
Definition SUPERVISOR_EXTERNAL : Z := Z.shiftl 1 9.
Definition VIRTUAL_SUPERVISOR_EXTERNAL : Z := Z.shiftl 1 10.
End interrupt.
Module exception.
Definition INST_ADDR_MISALIGN : Z := Z.shiftl 1 0.
Definition ILLEGAL_INST : Z := Z.shiftl 1 2.
Definition BREAKPOINT : Z := Z.shiftl 1 3.
Definition ENV_CALL_FROM_U_OR_VU : Z := Z.shiftl 1 8.
Definition INST_PAGE_FAULT : Z := Z.shiftl 1 12.
Definition LOAD_PAGE_FAULT : Z := Z.shiftl 1 13.
Definition STORE_PAGE_FAULT : Z := Z.shiftl 1 15.
End exception.
Definition or_all (l : list Z) : Z := foldl Z.lor 0 l.
Definition setup_csrs (m : hart) : hart :=
  let m := write_value Hedeleg (or_all [exception.INST_ADDR_MISALIGN; exception.BREAKPOINT; exception.ENV_CALL_FROM_U_OR_VU; exception.INST_PAGE_FAULT;
                                        exception.LOAD_PAGE_FAULT; exception.STORE_PAGE_FAULT; exception.ILLEGAL_INST]) m in
  let vs := or_all [interrupt.VIRTUAL_SUPERVISOR_TIMER; interrupt.VIRTUAL_SUPERVISOR_EXTERNAL; interrupt.VIRTUAL_SUPERVISOR_SOFT] in
  let m := write_value Hideleg vs m in
  let m := snd (read_and_clear_bits Hvip vs m) in
  let m := write_value Hcounteren 0xffffffff m in
  write_value Sie (or_all [interrupt.SUPERVISOR_EXTERNAL; interrupt.SUPERVISOR_SOFT; interrupt.SUPERVISOR_TIMER]) m.

(** ** The virtual CPU *)

Inductive AccessWidth : Type := Byte | Word | Dword | Qword.
Inductive AxVCpuExitReason : Type :=
  | Hypercall (nr : Z) (args : list Z)
  | MmioRead (addr : Z) (width : AccessWidth) (reg : Z) (reg_width : AccessWidth)
  | MmioWrite (addr : Z) (width : AccessWidth) (data : Z)
  | IoRead (port : Z) (width : AccessWidth)
  | IoWrite (port : Z) (width : AccessWidth) (data : Z)
  | ExternalInterrupt (vector : Z)
  | NestedPageFault (addr access_flags : Z)
  | Halt | CpuDown | SystemDown | Nothing
  | FailEntry (hardware_entry_failure_reason : Z).
(** [scause::Trap], as far as it is told apart. *)
Inductive HTrap : Type :=
  | VirtualSupervisorEnvCall | IllegalInstruction | LoadGuestPageFault | StoreGuestPageFault | SupervisorTimer | SupervisorExternal | OtherTrap.
Class ScauseDecode : Type := { cause_of : Z → HTrap }.

(** The firmware of the machine, with a state of its own; a pair is an error code and a value. *)
Class SbiRt (F : Type) : Type := {
  console_getchar : F → Z * F;
  console_putchar : Z → F → F;
  set_timer : Z → F → F;
  system_reset : F → F;
  get_spec_version : F → (Z * Z) * F;
  get_sbi_impl_id : F → Z * F;
  get_sbi_impl_version : F → Z * F;
  probe_extension : Z → F → Z * F;
  get_mvendorid : F → Z * F;
  get_marchid : F → Z * F;
  get_mimpid : F → Z * F;
  remote_fence_i : Z → Z → F → (Z * Z) * F;
  remote_sfence_vma : Z → Z → Z → Z → F → (Z * Z) * F;
  pmu_num_counters : F → Z * F;
  pmu_counter_get_info : Z → F → (Z * Z) * F;
  pmu_counter_stop : Z → Z → Z → F → (Z * Z) * F;
}.

Definition gprs_default : GeneralPurposeRegisters := λ _, 0.
Definition regs_default : VmCpuRegisters :=
  {| hyp_regs := {| h_gprs := gprs_default; h_sstatus := 0; h_scounteren := 0; h_stvec := 0; h_sscratch := 0 |};
     guest_regs := {| g_gprs := gprs_default; g_sstatus := 0; g_hstatus := 0; g_scounteren := 0; g_sepc := 0 |};
     vs_csrs := {| htimedelta := 0; vsstatus := 0; vsie := 0; vstvec := 0; vsscratch := 0; vsepc := 0; vscause := 0; vstval := 0; vsatp := 0; vstimecmp := 0 |};
     virtual_hs_csrs := {| v_hie := 0; v_hgeie := 0; v_hgatp := 0 |};
     trap_csrs := {| t_scause := 0; t_stval := 0; t_htval := 0; t_htinst := 0 |} |}.
Definition with_guest (g : GuestCpuState) (v : VmCpuRegisters) : VmCpuRegisters :=
  {| hyp_regs := hyp_regs v; guest_regs := g; vs_csrs := vs_csrs v; virtual_hs_csrs := virtual_hs_csrs v; trap_csrs := trap_csrs v |}.
Definition with_hs (x : GuestVirtualHsCsrs) (v : VmCpuRegisters) : VmCpuRegisters :=
  {| hyp_regs := hyp_regs v; guest_regs := guest_regs v; vs_csrs := vs_csrs v; virtual_hs_csrs := x; trap_csrs := trap_csrs v |}.
Definition with_trap (t : VmCpuTrapState) (v : VmCpuRegisters) : VmCpuRegisters :=
  {| hyp_regs := hyp_regs v; guest_regs := guest_regs v; vs_csrs := vs_csrs v; virtual_hs_csrs := virtual_hs_csrs v; trap_csrs := t |}.
Definition guest_set_gpr (r : GprIndex) (x : Z) (g : GuestCpuState) : GuestCpuState :=
  {| g_gprs := set_reg r x (g_gprs g); g_sstatus := g_sstatus g; g_hstatus := g_hstatus g; g_scounteren := g_scounteren g; g_sepc := g_sepc g |}.
Definition guest_set_sepc (pc : Z) (g : GuestCpuState) : GuestCpuState :=
  {| g_gprs := g_gprs g; g_sstatus := g_sstatus g; g_hstatus := g_hstatus g; g_scounteren := g_scounteren g; g_sepc := pc |}.

Section vcpu.
Context {spec : SbiSpec} {decode : ScauseDecode} {F : Type} {firmware : SbiRt F}.
Record vmm : Type := { vc_regs : VmCpuRegisters; vc_hart : hart; vc_fw : F }.
Implicit Type s : vmm.
Definition set_regs (v : VmCpuRegisters) s : vmm := {| vc_regs := v; vc_hart := vc_hart s; vc_fw := vc_fw s |}.
Definition set_hart (m : hart) s : vmm := {| vc_regs := vc_regs s; vc_hart := m; vc_fw := vc_fw s |}.
Definition set_fw (f : F) s : vmm := {| vc_regs := vc_regs s; vc_hart := vc_hart s; vc_fw := f |}.
(** A call of the firmware that gives a value. *)
Definition fw_call {A} (f : F → A * F) (k : A → vmm → vmm) s : vmm := let (a, fw) := f (vc_fw s) in k a (set_fw fw s).

Definition set_entry (entry : Z) s : vmm := set_regs (with_guest (guest_set_sepc entry (guest_regs (vc_regs s))) (vc_regs s)) s.
Definition set_ept_root (ept_root : Z) s : vmm :=
  let x := virtual_hs_csrs (vc_regs s) in
  let hgatp := Z.lor (Z.shiftl 8 60) (Z.shiftr ept_root 12) in
  let s := set_regs (with_hs {| v_hie := v_hie x; v_hgeie := v_hgeie x; v_hgatp := hgatp |} (vc_regs s)) s in
  set_hart (write_value Hgatp hgatp (vc_hart s)) s.
Definition vcpu_init (m : hart) (fw : F) : vmm :=
  let hstatus := Z.lor (Z.lor (csrs m Hstatus) (Z.shiftl 1 7)) (Z.shiftl 1 8) in
  let m := write_value Hstatus hstatus m in
  let sstatus := Z.lor (csrs m Sstatus) (Z.shiftl 1 8) in
  let m := snd (read_and_clear_bits Sie interrupt.SUPERVISOR_TIMER m) in
  let g := guest_regs regs_default in
  {| vc_regs := with_guest {| g_gprs := g_gprs g; g_sstatus := sstatus; g_hstatus := hstatus; g_scounteren := g_scounteren g; g_sepc := g_sepc g |} regs_default;
     vc_hart := m; vc_fw := fw |}.
Definition get_gpr (r : GprIndex) s : Z := reg (g_gprs (guest_regs (vc_regs s))) r.
Definition set_gpr_from_gpr_index (r : GprIndex) (x : Z) s : vmm := set_regs (with_guest (guest_set_gpr r x (guest_regs (vc_regs s))) (vc_regs s)) s.
Definition advance_pc (instr_len : Z) s : vmm :=
  set_regs (with_guest (guest_set_sepc (uadd (g_sepc (guest_regs (vc_regs s))) instr_len) (guest_regs (vc_regs s))) (vc_regs s)) s.

Definition handle_base_function (base : BaseFunction) s : vmm :=
  let a1 := set_gpr_from_gpr_index A1 in
  set_gpr_from_gpr_index A0 0
    match base with
    | GetSepcificationVersion => fw_call get_spec_version (λ v, a1 (Z.lor (wrap (Z.shiftl v.1 24)) v.2)) s
    | GetImplementationID => fw_call get_sbi_impl_id a1 s
    | GetImplementationVersion => fw_call get_sbi_impl_version a1 s
    | ProbeSbiExtension extension => fw_call (probe_extension extension) a1 s
    | GetMachineVendorID => fw_call get_mvendorid a1 s
    | GetMachineArchitectureID => fw_call get_marchid a1 s
    | GetMachineImplementationID => fw_call get_mimpid a1 s
    end.
Definition set_sbi_ret (r : Z * Z) s : vmm := set_gpr_from_gpr_index A1 r.2 (set_gpr_from_gpr_index A0 r.1 s).
Definition handle_rfnc_function (rfnc : RemoteFenceFunction) s : vmm :=
  let s := set_gpr_from_gpr_index A0 0 s in
  match rfnc with
  | FenceI hart_mask hart_mask_base => fw_call (remote_fence_i hart_mask hart_mask_base) set_sbi_ret s
  | RemoteSFenceVMA hart_mask hart_mask_base start_addr size => fw_call (remote_sfence_vma hart_mask hart_mask_base start_addr size) set_sbi_ret s
  end.
Definition handle_pmu_function (pmu : PmuFunction) s : vmm :=
  let s := set_gpr_from_gpr_index A0 0 s in
  match pmu with
  | GetNumCounters => fw_call pmu_num_counters (set_gpr_from_gpr_index A1) s
  | GetCounterInfo counter_index => fw_call (pmu_counter_get_info counter_index) set_sbi_ret s
  | StopCounter counter_index counter_mask stop_flags => fw_call (pmu_counter_stop counter_index counter_mask stop_flags) set_sbi_ret s
  end.
Definition handle_sbi (msg : SbiMessage) s : outcome vmm :=
  match msg with
  | Base base => Ret (handle_base_function base s)
  | GetChar => Ret (fw_call console_getchar (set_gpr_from_gpr_index A0) s)
  | PutChar c => Ret (set_fw (console_putchar c (vc_fw s)) s)
  | SetTimer timer =>
      let s := set_fw (set_timer timer (vc_fw s)) s in
      let m := snd (read_and_clear_bits Hvip interrupt.VIRTUAL_SUPERVISOR_TIMER (vc_hart s)) in
      Ret (set_hart (snd (read_and_set_bits Sie interrupt.SUPERVISOR_TIMER m)) s)
  | ResetMsg _ => Ret (set_fw (system_reset (vc_fw s)) s)
  | RemoteFence rfnc => Ret (handle_rfnc_function rfnc s)
  | PMU pmu => Ret (handle_pmu_function pmu s)
  | DebugConsole _ => Panic
  end.
Definition read_trap_csrs (m : hart) : VmCpuTrapState := {| t_scause := csrs m Scause; t_stval := csrs m Stval; t_htval := csrs m Htval; t_htinst := csrs m Htinst |}.
Definition vmexit_handler s : outcome (AxVCpuExitReason * vmm) :=
  let s := set_regs (with_trap (read_trap_csrs (vc_hart s)) (vc_regs s)) s in
  match cause_of (csrs (vc_hart s) Scause) with
  | VirtualSupervisorEnvCall =>
      match from_regs (a_regs (g_gprs (guest_regs (vc_regs s)))) with
      | Ret (Ok msg) => match handle_sbi msg s with Ret s => Ret (Nothing, advance_pc 4 s) | Panic => Panic end
      | Ret (Err _) | Panic => Panic
      end
  | SupervisorTimer =>
      let m := snd (read_and_set_bits Hvip interrupt.VIRTUAL_SUPERVISOR_TIMER (vc_hart s)) in
      Ret (Nothing, set_hart (snd (read_and_clear_bits Sie interrupt.SUPERVISOR_TIMER m)) s)
  | SupervisorExternal => Ret (ExternalInterrupt 0, s)
  | LoadGuestPageFault | StoreGuestPageFault =>
      let t := trap_csrs (vc_regs s) in
      Ret (NestedPageFault (Z.lor (wrap (Z.shiftl (t_htval t) 2)) (Z.land (t_stval t) 3)) 0, s)
  | IllegalInstruction | OtherTrap => Panic
  end.
(** [run]: the guest runs until it traps; [guest] is what it and the machine do, from the
    state in which it is entered.  [load_guest] and [load_host] are the states of the machine
    after the two halves of the switch; what is in its memory does not matter here. *)
Definition load_guest (guest_exit p : Z) (v : VmCpuRegisters) (m : hart) : hart :=
  let g := guest_regs v in
  {| gpr := g_gprs g;
     csrs := λ c, match c with Sstatus => g_sstatus g | Hstatus => g_hstatus g | Scounteren => g_scounteren g | Sepc => g_sepc g | Stvec => guest_exit | Sscratch => p | c => csrs m c end;
     mem := mem m |}.
Definition load_host (p : Z) (v : VmCpuRegisters) (m : hart) : hart :=
  let h := hyp_regs v in
  {| gpr := λ r, if decide (r ∈ host_regs) then h_gprs h r else if decide (r = A0) then p else gpr m r;
     csrs := λ c, match c with Sstatus => h_sstatus h | Scounteren => h_scounteren h | Stvec => h_stvec h | Sscratch => h_sscratch h | c => csrs m c end;
     mem := mem m |}.
Definition run (guest_exit p : Z) (guest : hart → hart) s : outcome (AxVCpuExitReason * vmm) :=
  let v := enter_guest (vc_hart s) (vc_regs s) in
  let m := guest (load_guest guest_exit p v (vc_hart s)) in
  let v := leave_guest m v in
  vmexit_handler (set_hart (load_host p v m) (set_regs v s)).
End vcpu.
Arguments vmm : clear implicits.

(** ** Properties *)

Section properties.
Context {spec : SbiSpec} {decode : ScauseDecode} {F : Type} {firmware : SbiRt F}.
Implicit Type s : vmm F.

(** The two halves of the switch on the machine are the ones of [run]. *)
Lemma load_guest_entered ge p v m m1 : entered ge p v m m1 → (∀ r, rget m1 r = rget (load_guest ge p (enter_guest m v) m) r) ∧ ∀ c, csrs m1 c = csrs (load_guest ge p (enter_guest m v) m) c.
Proof.
  intros H. split.
  - intros r. destruct (decide (r = Zero)) as [->|Hr]; [done|]. rewrite (en_regs _ _ _ _ _ H r Hr). unfold rget. by rewrite decide_False.
  - intros c. destruct c; cbn; first [apply (en_csrs _ _ _ _ _ H); apply (bool_decide_unpack _); vm_compute; exact I|apply H].
Qed.
Lemma load_host_left p v m m3 : left p v m m3 →
  (∀ r, r ∈ A0 :: host_regs → rget m3 r = rget (load_host p (leave_guest m v) m) r) ∧ ∀ c, csrs m3 c = csrs (load_host p (leave_guest m v) m) c.
Proof.
  intros H. split.
  - intros r Hr. unfold rget at 2. cbn. destruct (decide (r = Zero)) as [->|Hz]; [done|]. apply elem_of_cons in Hr as [->|Hr]; [apply (lv_a0 _ _ _ _ H)|]. rewrite decide_True by done. by apply H.
  - intros c. destruct c; cbn; first [apply (lv_csrs _ _ _ _ H); apply (bool_decide_unpack _); vm_compute; exact I|apply H].
Qed.

(** What the guest finds in [a0] and [a1] after a call. *)
Definition sbi_answer (msg : SbiMessage) (fw : F) (a0 a1 : Z) : Z * Z :=
  match msg with
  | Base f =>
      (0, match f with
          | GetSepcificationVersion => let v := fst (get_spec_version fw) in Z.lor (wrap (Z.shiftl v.1 24)) v.2
          | GetImplementationID => fst (get_sbi_impl_id fw)
          | GetImplementationVersion => fst (get_sbi_impl_version fw)
          | ProbeSbiExtension e => fst (probe_extension e fw)
          | GetMachineVendorID => fst (get_mvendorid fw)
          | GetMachineArchitectureID => fst (get_marchid fw)
          | GetMachineImplementationID => fst (get_mimpid fw)
          end)
  | GetChar => (fst (console_getchar fw), a1)
  | PutChar _ | SetTimer _ | ResetMsg _ | DebugConsole _ => (a0, a1)
  | RemoteFence (FenceI h b) => fst (remote_fence_i h b fw)
  | RemoteFence (RemoteSFenceVMA h b a n) => fst (remote_sfence_vma h b a n fw)
  | PMU GetNumCounters => (0, fst (pmu_num_counters fw))
  | PMU (GetCounterInfo i) => fst (pmu_counter_get_info i fw)
  | PMU (StopCounter i k f) => fst (pmu_counter_stop i k f fw)
  end.
Definition is_set_timer (msg : SbiMessage) : bool := match msg with SetTimer _ => true | _ => false end.
(** Calls of a guest that the decoder knows; it panics itself on some others. *)
Definition decoded s : option SbiMessage := match from_regs (a_regs (g_gprs (guest_regs (vc_regs s)))) with Ret (Ok msg) => Some msg | _ => None end.
Definition armed (m : hart) : bool := Z.testbit (csrs m Sie) 5.
Definition pending (m : hart) : bool := Z.testbit (csrs m Hvip) 6.

Lemma from_regs_no_console args f : from_regs args ≠ Ret (Ok (DebugConsole f)).
Proof.
  unfold from_regs. cbv zeta. repeat (destruct (_ =? _)); try done; [by destruct (base_from_regs args)|by destruct (reset_from_regs args)|by destruct (rfnc_from_args args)|by destruct (pmu_from_regs args)].
Qed.
Lemma set_gpr_regs r x s : r ≠ Zero → ∀ q, get_gpr q (set_gpr_from_gpr_index r x s) = if decide (q = r) then x else get_gpr q s.
Proof. intros Hr q. unfold get_gpr, set_gpr_from_gpr_index, reg. cbn. unfold set_reg, upd. by rewrite (decide_False (P := r = Zero)). Qed.

(** Everything but the two registers of an answer. *)
Record same_guest s s' : Prop := {
  sg_gprs r : r ∉ [A0; A1] → get_gpr r s' = get_gpr r s;
  sg_csrs : g_sstatus (guest_regs (vc_regs s')) = g_sstatus (guest_regs (vc_regs s)) ∧ g_hstatus (guest_regs (vc_regs s')) = g_hstatus (guest_regs (vc_regs s)) ∧
    g_scounteren (guest_regs (vc_regs s')) = g_scounteren (guest_regs (vc_regs s));
  sg_sepc : g_sepc (guest_regs (vc_regs s')) = g_sepc (guest_regs (vc_regs s));
  sg_rest : hyp_regs (vc_regs s') = hyp_regs (vc_regs s) ∧ vs_csrs (vc_regs s') = vs_csrs (vc_regs s) ∧ virtual_hs_csrs (vc_regs s') = virtual_hs_csrs (vc_regs s);
}.
Lemma same_guest_refl s : same_guest s s.
Proof. by split. Qed.
Lemma same_guest_set s0 s r x : same_guest s0 s → r ∈ [A0; A1] → same_guest s0 (set_gpr_from_gpr_index r x s).
Proof.
  intros [A B C D] Hr. split; [|done..]. intros q Hq. rewrite set_gpr_regs; [|intros ->; revert Hr; apply (bool_decide_unpack _); vm_compute; exact I]. rewrite decide_False by congruence. by apply A.
Qed.
Lemma same_guest_fw s0 s f : same_guest s0 s → same_guest s0 (set_fw f s).
Proof. intros [A B C D]. by split. Qed.
Lemma in_a0 : A0 ∈ [A0; A1]. Proof. by left. Qed.
Lemma in_a1 : A1 ∈ [A0; A1]. Proof. by right; left. Qed.
#[local] Hint Resolve same_guest_refl same_guest_set same_guest_fw in_a0 in_a1 : core.

Definition answered (msg : SbiMessage) s s' : Prop := same_guest s s' ∧ (get_gpr A0 s', get_gpr A1 s') = sbi_answer msg (vc_fw s) (get_gpr A0 s) (get_gpr A1 s).
Lemma handle_base_answer f s : answered (Base f) s (handle_base_function f s) ∧ vc_hart (handle_base_function f s) = vc_hart s.
Proof.
  unfold handle_base_function. destruct f; cbv zeta; unfold fw_call;
    match goal with |- context [let (_, _) := ?e in _] => destruct e as [v fw] eqn:E end; (split; [split; [by auto|]|done]); unfold sbi_answer; rewrite E; reflexivity.
Qed.
Lemma set_sbi_ret_answer s s0 r : same_guest s0 s → same_guest s0 (set_sbi_ret r s) ∧ (get_gpr A0 (set_sbi_ret r s), get_gpr A1 (set_sbi_ret r s)) = r.
Proof. intros H. split; [unfold set_sbi_ret; by auto|]. by destruct r. Qed.
Lemma handle_rfnc_answer f s : answered (RemoteFence f) s (handle_rfnc_function f s) ∧ vc_hart (handle_rfnc_function f s) = vc_hart s.
Proof.
  unfold handle_rfnc_function. destruct f; cbv zeta; unfold fw_call;
    match goal with |- context [let (_, _) := ?e in _] => destruct e as [v fw] eqn:E end; (split; [|done]); unfold answered, sbi_answer; cbn in E; rewrite E; apply set_sbi_ret_answer; by auto.
Qed.
Lemma handle_pmu_answer f s : answered (PMU f) s (handle_pmu_function f s) ∧ vc_hart (handle_pmu_function f s) = vc_hart s.
Proof.
  unfold handle_pmu_function. destruct f; cbv zeta; unfold fw_call;
    match goal with |- context [let (_, _) := ?e in _] => destruct e as [v fw] eqn:E end; (split; [|done]); unfold answered, sbi_answer; cbn in E; rewrite E;
    [split; [by auto|done]|apply set_sbi_ret_answer; by auto..].
Qed.
Definition timer_set (m : hart) : hart := snd (read_and_set_bits Sie interrupt.SUPERVISOR_TIMER (snd (read_and_clear_bits Hvip interrupt.VIRTUAL_SUPERVISOR_TIMER m))).
Lemma timer_set_bits m : pending (timer_set m) = false ∧ armed (timer_set m) = true.
Proof.
  split; [change (Z.testbit (Z.ldiff (csrs m Hvip) interrupt.VIRTUAL_SUPERVISOR_TIMER) 6 = false); rewrite Z.ldiff_spec; apply andb_false_r|].
  change (Z.testbit (Z.lor (csrs m Sie) interrupt.SUPERVISOR_TIMER) 5 = true). rewrite Z.lor_spec. apply orb_true_r.
Qed.
Lemma handle_sbi_answer msg s : (∀ f, msg ≠ DebugConsole f) → ∃ s', handle_sbi msg s = Ret s' ∧ answered msg s s' ∧ vc_hart s' = if is_set_timer msg then timer_set (vc_hart s) else vc_hart s.
Proof.
  intros Hno. destruct msg as [f| |c|t|f|f|f|f]; cbn [handle_sbi is_set_timer]; [..|by destruct (Hno f)| | |]; eexists; (split; [done|]).
  - apply handle_base_answer.
  - unfold fw_call. destruct (console_getchar (vc_fw s)) as [c fw] eqn:E. split; [split; [by auto|]|done]. unfold sbi_answer. rewrite E. reflexivity.
  - split; [split; [by auto|done]|done].
  - split; [split; [by split|done]|done].
  - split; [split; [by auto|done]|done].
  - apply handle_rfnc_answer.
  - apply handle_pmu_answer.
Qed.


(** ** Timer interrupts *)

(** What the hardware guarantees of a guest's run: it does not change the hypervisor's
    interrupt enables or its own timer bit, and the host's timer interrupts only while it is
    enabled. *)
Definition timer_lawful (guest : hart → hart) : Prop := ∀ m,
  csrs (guest m) Sie = csrs m Sie ∧ pending (guest m) = pending m ∧ (cause_of (csrs (guest m) Scause) = SupervisorTimer → armed m = true).
(** The state in which a run of the guest ends. *)
Definition at_exit (guest_exit p : Z) (guest : hart → hart) s : vmm F :=
  let v := enter_guest (vc_hart s) (vc_regs s) in let m := guest (load_guest guest_exit p v (vc_hart s)) in
  set_hart (load_host p (leave_guest m v) m) (set_regs (leave_guest m v) s).
Definition sets_timer s : bool :=
  match cause_of (csrs (vc_hart s) Scause) with VirtualSupervisorEnvCall => match decoded s with Some msg => is_set_timer msg | None => false end | _ => false end.
Definition is_timer_irq s : bool := match cause_of (csrs (vc_hart s) Scause) with SupervisorTimer => true | _ => false end.
(** The life of a virtual CPU, with the number of times its guest has set the timer and has
    been given a timer interrupt. *)
Inductive vcpu_life : vmm F → nat → nat → Prop :=
  | vl_init m fw : vcpu_life (vcpu_init (setup_csrs m) fw) 0 0
  | vl_entry s k n entry : vcpu_life s k n → vcpu_life (set_entry entry s) k n
  | vl_root s k n root : vcpu_life s k n → vcpu_life (set_ept_root root s) k n
  | vl_run s k n guest_exit p guest reason s' : vcpu_life s k n → timer_lawful guest → run guest_exit p guest s = Ret (reason, s') →
      vcpu_life s' (k + Nat.b2n (sets_timer (at_exit guest_exit p guest s))) (n + Nat.b2n (is_timer_irq (at_exit guest_exit p guest s))).

Definition timer_fired (m : hart) : hart := snd (read_and_clear_bits Sie interrupt.SUPERVISOR_TIMER (snd (read_and_set_bits Hvip interrupt.VIRTUAL_SUPERVISOR_TIMER m))).
Lemma timer_fired_bits m : pending (timer_fired m) = true ∧ armed (timer_fired m) = false.
Proof.
  split; [change (Z.testbit (Z.lor (csrs m Hvip) interrupt.VIRTUAL_SUPERVISOR_TIMER) 6 = true); rewrite Z.lor_spec; apply orb_true_r|].
  change (Z.testbit (Z.ldiff (csrs m Sie) interrupt.SUPERVISOR_TIMER) 5 = false). rewrite Z.ldiff_spec. apply andb_false_r.
Qed.
Lemma exit_hart s reason s' : vmexit_handler s = Ret (reason, s') →
  vc_hart s' = if sets_timer s then timer_set (vc_hart s) else if is_timer_irq s then timer_fired (vc_hart s) else vc_hart s.
Proof.
  intros E. unfold sets_timer, is_timer_irq. destruct (cause_of (csrs (vc_hart s) Scause)) eqn:Hc.
  - unfold vmexit_handler, decoded in *. cbv zeta in E. cbn [vc_hart set_regs] in E. rewrite Hc in E. cbn [vc_regs guest_regs with_trap set_regs] in E.
    destruct (from_regs _) as [[msg|e]|] eqn:Ed; [|done..]. match type of E with context [handle_sbi msg ?x] => set (s1 := x) in * end.
    destruct (handle_sbi_answer msg s1) as (s2 & E2 & _ & Hh); [intros f ->; by eapply from_regs_no_console|]. rewrite E2 in E. simplify_eq. exact Hh.
  - unfold vmexit_handler in E. cbv zeta in E. cbn [vc_hart set_regs] in E. by rewrite Hc in E.
  - unfold vmexit_handler in E. cbv zeta in E. cbn [vc_hart set_regs] in E. rewrite Hc in E. by simplify_eq.
  - unfold vmexit_handler in E. cbv zeta in E. cbn [vc_hart set_regs] in E. rewrite Hc in E. by simplify_eq.
  - unfold vmexit_handler in E. cbv zeta in E. cbn [vc_hart set_regs] in E. rewrite Hc in E. by simplify_eq.
  - unfold vmexit_handler in E. cbv zeta in E. cbn [vc_hart set_regs] in E. rewrite Hc in E. by simplify_eq.
  - unfold vmexit_handler in E. cbv zeta in E. cbn [vc_hart set_regs] in E. by rewrite Hc in E.
Qed.

(** A guest is given a timer interrupt at most once for each time it sets its timer:
    counting one that is still to come while the host's timer interrupt is enabled, there are
    never more interrupts than settings; and the guest's interrupt is never pending while the
    host's timer is enabled for it. *)
Theorem timer_injection s k n : vcpu_life s k n → (n + Nat.b2n (armed (vc_hart s)) ≤ k)%nat ∧ (armed (vc_hart s) = true → pending (vc_hart s) = false).
Proof.
  induction 1 as [m fw|s k n e _ IH|s k n root _ IH|s k n ge p guest reason s' _ [IH1 IH2] Hg E]; [|exact IH|exact IH|].
  - assert (armed (vc_hart (vcpu_init (setup_csrs m) fw)) = false) as ->; [|done].
    change (Z.testbit (Z.ldiff (csrs (setup_csrs m) Sie) interrupt.SUPERVISOR_TIMER) 5 = false). rewrite Z.ldiff_spec. apply andb_false_r.
  - pose proof (exit_hart _ _ _ E) as Hh. fold (at_exit ge p guest s) in Hh. set (x := at_exit ge p guest s) in *.
    destruct (Hg (load_guest ge p (enter_guest (vc_hart s) (vc_regs s)) (vc_hart s))) as (G1 & G2 & G3).
    assert (armed (vc_hart x) = armed (vc_hart s)) as Ea by (unfold armed; exact (f_equal (λ z, Z.testbit z 5) G1)). assert (pending (vc_hart x) = pending (vc_hart s)) as Ep by exact G2.
    assert (is_timer_irq x = true → armed (vc_hart s) = true) as Ht by (unfold is_timer_irq; intros Hi; apply G3; by destruct (cause_of (csrs (vc_hart x) Scause)) eqn:Hx).
    rewrite Hh. destruct (sets_timer x) eqn:Es.
    + destruct (timer_set_bits (vc_hart x)) as [-> ->]. assert (is_timer_irq x = false) as -> by (unfold sets_timer, is_timer_irq in *; by destruct (cause_of _)). cbn. split; [destruct (armed (vc_hart s)); cbn in IH1; lia|done].
    + destruct (is_timer_irq x) eqn:Ei.
      * destruct (timer_fired_bits (vc_hart x)) as [-> ->]. rewrite (Ht eq_refl) in IH1. cbn in *. split; [lia|done].
      * rewrite Ea, Ep. cbn [Nat.b2n]. rewrite !Nat.add_0_r. by split.
Qed.

Lemma lor_low x y : 0 ≤ y < 4 → Z.lor (x * 4) y = x * 4 + y.
Proof.
  intros Hy. assert (Z.land (x * 4) y = 0) as H0; [|pose proof (Z.add_lor_land (x * 4) y); lia].
  change 4 with (2 ^ 2). rewrite <- Z.shiftl_mul_pow2 by lia. apply Z.bits_inj'. intros i Hi. rewrite Z.land_spec, Z.bits_0, Z.shiftl_spec by lia.
  destruct (decide (i < 2)); [by rewrite (Z.testbit_neg_r x (i - 2)) by lia|]. rewrite (Z.bits_above_log2 y i); [apply andb_false_r|lia|].
  destruct (decide (y = 0)) as [->|Hn]; [cbn; lia|]. apply Z.log2_lt_pow2; [lia|]. pose proof (Z.pow_le_mono_r 2 2 i). lia.
Qed.
(** A fault in the second stage gives the guest physical address that was accessed. *)
Theorem nested_fault_exact s gpa : cause_of (csrs (vc_hart s) Scause) = LoadGuestPageFault ∨ cause_of (csrs (vc_hart s) Scause) = StoreGuestPageFault →
  in_usize gpa → csrs (vc_hart s) Htval = gpa / 4 → csrs (vc_hart s) Stval mod 4 = gpa mod 4 →
  ∃ s', vmexit_handler s = Ret (NestedPageFault gpa 0, s') ∧ guest_regs (vc_regs s') = guest_regs (vc_regs s) ∧ vc_hart s' = vc_hart s.
Proof.
  intros Hc Hin Hh Hs. unfold vmexit_handler. cbv zeta. cbn [vc_hart set_regs]. set (s1 := set_regs _ s).
  assert (Z.lor (wrap (Z.shiftl (t_htval (trap_csrs (vc_regs s1))) 2)) (Z.land (t_stval (trap_csrs (vc_regs s1))) 3) = gpa) as Ea.
  { cbn. rewrite Hh. change 3 with (Z.ones 2). rewrite Z.land_ones, Z.shiftl_mul_pow2 by lia. change (2 ^ 2) with 4. rewrite Hs.
    pose proof (Z.div_mod gpa 4 ltac:(lia)) as Hd. pose proof (Z.mod_pos_bound gpa 4 ltac:(lia)) as Hb. unfold in_usize in Hin. rewrite wrap_small by (unfold in_usize; lia).
    rewrite lor_low by lia. lia. }
  destruct Hc as [-> | ->]; rewrite Ea; (eexists; split; [done|]; done).
Qed.
End properties.
