(* ===== verification/SimpleHv.v ===== *)
(** A hypervisor for one small guest ([exercises/simple_hv]): loading the image, the exits of
    the guest [payload/skernel2], and the main program; and the devices that [tour/h_4_0]
    passes through to its guest ([vmdev.rs]).

    The guest's physical memory is the address space of [Axmm.v].  The guest runs on a machine
    that fetches and decodes the few instructions it needs from that memory: a machine mode
    register cannot be read in a guest, the attempt traps with the instruction in [stval].  What
    the machine does on any other instruction is left open ([None]).  The file system gives the
    bytes of the image; the copy of the image reads past the end of a buffer on the stack, and
    [stack] is what is there. *)

From stdpp Require Import prelude gmap list.
From Stdlib Require Import ZArith Lia.
From S2P Require Import Prelude Axalloc Axmm AxmmProps AxmmSpace AxmmCalls Riscv Vcpu VcpuExit.
Local Open Scope Z_scope.
Local Open Scope kernel_scope.

Definition VM_ENTRY : Z := 0x80200000.

(** ** Exits of the guest ([main.rs]) *)

Definition guest_write (r : GprIndex) (x : Z) (ctx : VmCpuRegisters) : VmCpuRegisters := with_guest (guest_set_gpr r x (guest_regs ctx)) ctx.
Definition guest_skip (n : Z) (ctx : VmCpuRegisters) : VmCpuRegisters := with_guest (guest_set_sepc (uadd (g_sepc (guest_regs ctx)) n) (guest_regs ctx)) ctx.
Definition handle_privileged_instruction (inst : Z) (ctx : VmCpuRegisters) : bool * VmCpuRegisters :=
  if inst =? 0xf14025f3 then (true, guest_skip 4 (guest_write A1 0x1234 ctx))
  else if inst =? 0xf1402573 then (true, guest_skip 4 (guest_write A0 0 ctx))
  else (false, ctx).

Section exits.
Context {spec : SbiSpec} {decode : ScauseDecode}.
Definition hv_vmexit_handler (m : hart) (ctx : VmCpuRegisters) : outcome (bool * VmCpuRegisters) :=
  match cause_of (csrs m Scause) with
  | VirtualSupervisorEnvCall =>
      match from_regs (a_regs (g_gprs (guest_regs ctx))) with
      | Ret (Ok (ResetMsg _)) =>
          let a0 := reg (g_gprs (guest_regs ctx)) A0 in
          let a1 := reg (g_gprs (guest_regs ctx)) A1 in
          if negb (a0 =? 0x6688) then Panic else if negb (a1 =? 0x1234) then Panic else Ret (true, ctx)
      | _ => Panic
      end
  | IllegalInstruction => match handle_privileged_instruction (csrs m Stval) ctx with (true, ctx) => Ret (false, ctx) | (false, _) => Panic end
  | _ => Panic
  end.
Definition prepare_guest_context (m : hart) (ctx : VmCpuRegisters) : hart * VmCpuRegisters :=
  let hstatus := Z.lor (Z.lor (csrs m Hstatus) (Z.shiftl 1 7)) (Z.shiftl 1 8) in
  let m := write_value Hstatus hstatus m in
  let g := guest_regs ctx in
  (m, with_guest {| g_gprs := g_gprs g; g_sstatus := Z.lor (csrs m Sstatus) (Z.shiftl 1 8); g_hstatus := hstatus; g_scounteren := g_scounteren g; g_sepc := VM_ENTRY |} ctx).
Definition prepare_vm_pgtable (ept_root : Z) (m : hart) : hart := write_value Hgatp (Z.lor (Z.shiftl 8 60) (Z.shiftr ept_root 12)) m.
(** One run of the guest, until it traps. *)
Definition run_guest (guest_exit p : Z) (guest : hart → option hart) (m : hart) (ctx : VmCpuRegisters) : outcome (option (bool * hart * VmCpuRegisters)) :=
  let v := enter_guest m ctx in
  match guest (load_guest guest_exit p v m) with
  | None => Ret None
  | Some g =>
      let ctx := leave_guest g v in
      let m := load_host p ctx g in
      match hv_vmexit_handler m ctx with Ret (b, ctx) => Ret (Some (b, m, ctx)) | Panic => Panic end
  end.
(** [while !run_guest(&mut ctx) {}]. *)
Fixpoint run_guest_loop (fuel : nat) (guest_exit p : Z) (guest : hart → option hart) (m : hart) (ctx : VmCpuRegisters) : outcome (option (hart * VmCpuRegisters)) :=
  match fuel with
  | O => Ret None
  | S fuel =>
      match run_guest guest_exit p guest m ctx with
      | Panic => Panic
      | Ret None => Ret None
      | Ret (Some (true, m, ctx)) => Ret (Some (m, ctx))
      | Ret (Some (false, m, ctx)) => run_guest_loop fuel guest_exit p guest m ctx
      end
  end.
End exits.

(** ** The instructions of the guest *)

Inductive ginstr : Type := GCsrr (rd : GprIndex) (csr : Z) | GLd (rd rs : GprIndex) (imm : Z) | GLi (rd : GprIndex) (imm : Z) | GEcall.
Definition field (w lo n : Z) : Z := Z.land (Z.shiftr w lo) (Z.ones n).
Definition sext (n x : Z) : Z := if Z.testbit x (n - 1) then wrap (x - 2 ^ n) else x.
(** The instruction and its length; [li] also in its compressed form. *)
Definition decode_instr (w : Z) : option (ginstr * Z) :=
  if field w 0 2 =? 3 then
    rd ← from_raw (field w 7 5); rs ← from_raw (field w 15 5);
    if w =? 0x73 then Some (GEcall, 4)
    else if (field w 0 7 =? 0x73) && (field w 12 3 =? 2) && (field w 15 5 =? 0) then Some (GCsrr rd (field w 20 12), 4)
    else if (field w 0 7 =? 0x03) && (field w 12 3 =? 3) then Some (GLd rd rs (sext 12 (field w 20 12)), 4)
    else if (field w 0 7 =? 0x13) && (field w 12 3 =? 0) && (field w 15 5 =? 0) then Some (GLi rd (sext 12 (field w 20 12)), 4)
    else None
  else if (field w 0 2 =? 1) && (field w 13 3 =? 2) then
    rd ← from_raw (field w 7 5); Some (GLi rd (sext 6 (Z.lor (Z.shiftl (field w 12 1) 5) (field w 2 5))), 2)
  else None.
(** [payload/skernel2/src/main.rs]: [csrr a1, mhartid; ld a0, 64(zero); li a7, 8; ecall], with
    and without the compressed form. *)
Definition skernel2 (compressed : bool) : list Z :=
  [0xf3; 0x25; 0x40; 0xf1; 0x03; 0x35; 0x00; 0x04] ++ (if compressed then [0xa1; 0x48] else [0x93; 0x08; 0x80; 0x00]) ++ [0x73; 0x00; 0x00; 0x00].

(** ** Loading the image ([loader.rs]) *)

Definition or_flags (l : list Z) : Z := foldl Z.lor 0 l.
(** A little-endian doubleword. *)
Definition le_bytes (x : Z) : list Z := (λ i, x / 256 ^ Z.of_nat i mod 256) <$> seq 0 8.
Definition le_value (bs : list Z) : Z := foldr (λ b acc, b + 256 * acc) 0 bs.
Definition load_file (file : result (list Z) AxError.t) : result (list Z) AxError.t :=
  map_ok (λ bytes, take 64 bytes ++ replicate (64 - length bytes) 0) file.

Section loader.
Context {B P PT MS : Type} {pa : PageAllocator P} {cfg : MemConfig} {ma : MemoryAddr} {mf : MappingFlags}.
Context {ptab : PageTable PT (GlobalAllocator B P)} {mset : MemorySet MS}.
Abbreviation space := (space B P PT MS).
Abbreviation M := (SM space AxError.t).
Definition unwrap_res {A} (m : M A) : M A := λ s, match m s with Ret (Ok a, s) => Ret (Ok a, s) | _ => Panic end.
Definition query_paddr (va : Z) : M Z := λ s, match pt_query (pt (sp_as s)) va with Ok (paddr, _, _) => Ret (Ok paddr, s) | Err _ => Panic end.
Definition set_mem (m : memory) (s : space) : space := {| sp_as := sp_as s; sp_mem := m; sp_alloc := sp_alloc s |}.
Definition poke (addr : Z) (bs : list Z) : M unit := sm_modify (λ s, set_mem (mem_write (sp_mem s) addr bs) s).
Definition load_vm_image (file : result (list Z) AxError.t) (stack : list Z) : M unit :=
  let! buf := sm_lift (load_file file) in
  do! unwrap_res (map_alloc VM_ENTRY PAGE_SIZE_4K (or_flags [mf_READ; mf_WRITE; mf_EXECUTE; mf_USER]) true) in
  let! paddr := query_paddr VM_ENTRY in
  do! poke (phys_to_virt paddr) (take (Z.to_nat PAGE_SIZE_4K) (buf ++ stack)) in
  do! unwrap_res (map_alloc 0 PAGE_SIZE_4K (or_flags [mf_READ; mf_WRITE; mf_USER]) true) in
  let! paddr_zero := query_paddr 0 in
  do! poke (phys_to_virt paddr_zero + 0x40) (le_bytes 0x6688) in
  poke (phys_to_virt paddr_zero + 0x48) (le_bytes 0x1234).

(** ** The machine of the guest *)

(** Where the byte at a guest physical address is, for an access that needs these flags. *)
Definition guest_translate (s : space) (need gpa : Z) : option Z :=
  match pt_query (pt (sp_as s)) gpa with
  | Ok (paddr, flags, _) => if Z.land flags need =? need then Some (phys_to_virt paddr) else None
  | Err _ => None
  end.
Definition guest_read (s : space) (need gpa : Z) (n : nat) : option Z := (λ a, le_value (mem_read (sp_mem s) a n)) <$> guest_translate s need gpa.
(** An instruction of two or four bytes. *)
Definition guest_fetch (s : space) (pc : Z) : option Z :=
  let need := Z.lor mf_EXECUTE mf_USER in
  match guest_read s need pc 2 with
  | None => None
  | Some lo => if lo mod 4 =? 3 then (λ hi, lo + 65536 * hi) <$> guest_read s need (pc + 2) 2 else Some lo
  end.

Context {spec : SbiSpec} {decode : ScauseDecode}.
Definition CAUSE_ILLEGAL : Z := 2.
Definition CAUSE_VS_ECALL : Z := 10.
Definition CAUSE_FETCH_GUEST_FAULT : Z := 20.
Definition CAUSE_LOAD_GUEST_FAULT : Z := 21.
(** A trap with this code and value at this instruction. *)
Definition guest_trap (code stval pc : Z) (m : hart) : hart := cset Scause code (cset Stval stval (cset Sepc pc m)).
Fixpoint guest_run (fuel : nat) (s : space) (pc : Z) (m : hart) : option hart :=
  match fuel with
  | O => None
  | S fuel =>
      match guest_fetch s pc with
      | None => Some (guest_trap CAUSE_FETCH_GUEST_FAULT pc pc m)
      | Some w =>
          match decode_instr w with
          | None => None
          | Some (GCsrr rd c, _) => if Z.land (Z.shiftr c 8) 3 =? 3 then Some (guest_trap CAUSE_ILLEGAL w pc m) else None
          | Some (GLi rd imm, len) => guest_run fuel s (pc + len) (rset rd imm m)
          | Some (GLd rd rs imm, len) =>
              let a := uadd (rget m rs) imm in
              if a mod 8 =? 0
              then match guest_read s (Z.lor mf_READ mf_USER) a 8 with
                   | None => Some (guest_trap CAUSE_LOAD_GUEST_FAULT a pc m)
                   | Some v => guest_run fuel s (pc + len) (rset rd v m)
                   end
              else None
          | Some (GEcall, _) => Some (guest_trap CAUSE_VS_ECALL 0 pc m)
          end
      end
  end.

(** [main], up to its [exit(0)], whose code it gives; [None] when the fuel is used up. *)
Definition simple_hv_main (fuel : nat) (kernel : AddrSpace PT MS) (mem : memory) (g : GlobalAllocator B P) (file : result (list Z) AxError.t) (stack : list Z)
    (guest_exit p : Z) (guest : space → hart → option hart) (m : hart) : outcome (option Z) :=
  match new_user_aspace kernel g with
  | Ret (Ok a, g) =>
      match load_vm_image file stack {| sp_as := a; sp_mem := mem; sp_alloc := g |} with
      | Ret (Ok _, s) =>
          let (m, ctx) := prepare_guest_context m regs_default in
          let m := prepare_vm_pgtable (page_table_root (sp_as s)) m in
          match run_guest_loop fuel guest_exit p (guest s) m ctx with
          | Ret (Some _) => Ret (Some 0)
          | Ret None => Ret None
          | Panic => Panic
          end
      | _ => Panic
      end
  | _ => Panic
  end.
End loader.

(** ** Devices of a guest ([tour/h_4_0/src/vmdev.rs]) *)

Record VmDev : Type := { vd_start : Z; vd_size : Z }.
Definition check_addr (d : VmDev) (addr : Z) : bool := (vd_start d <=? addr) && (addr <? uadd (vd_start d) (vd_size d)).
Definition add_dev (addr size : Z) (devices : list VmDev) : list VmDev := devices ++ [{| vd_start := addr; vd_size := size |}].
Definition find_dev (addr : Z) (devices : list VmDev) : option VmDev := List.find (λ d, check_addr d addr) devices.
Definition handle_mmio {B P PT MS} {pa : PageAllocator P} {ma : MemoryAddr} {mf : MappingFlags} {ptab : PageTable PT (GlobalAllocator B P)} (flags addr : Z) :
    SM (space B P PT MS) AxError.t unit := map_linear addr addr 4096 flags.

(** ** Properties *)

(** The codes of the RISC-V privileged and supervisor binary interface specifications. *)
Class ScauseLaws `{ScauseDecode} : Prop := {
  cause_illegal : cause_of 2 = IllegalInstruction;
  cause_vs_ecall : cause_of 10 = VirtualSupervisorEnvCall;
}.
Class SbiSpecLaws `{SbiSpec} : Prop := {
  sbi_legacy : LEGACY_SET_TIMER = 0 ∧ LEGACY_CONSOLE_PUTCHAR = 1 ∧ LEGACY_CONSOLE_GETCHAR = 2 ∧ LEGACY_SHUTDOWN = 8;
  sbi_base : EID_BASE = 0x10;
}.

Lemma or_flags_has l f : f ∈ l → Z.land (or_flags l) f = f.
Proof.
  unfold or_flags. intros Hf. assert (∀ l a, Z.land a f = f → Z.land (foldl Z.lor a l) f = f) as Hk.
  { clear. intros l. induction l as [|x l IH]; intros a Ha; [done|]. cbn. apply IH. rewrite Z.land_lor_distr_l, Ha. apply Z.bits_inj'. intros i _.
    rewrite Z.lor_spec, Z.land_spec. destruct (Z.testbit x i), (Z.testbit f i); done. }
  generalize 0. revert Hf. induction l as [|x l IH]; intros Hf a; [by apply elem_of_nil in Hf|]. cbn.
  apply elem_of_cons in Hf as [->|Hf]; [|by apply IH]. apply Hk. rewrite Z.land_lor_distr_l, Z.land_diag. apply Z.bits_inj'. intros i _.
  rewrite Z.lor_spec, Z.land_spec. destruct (Z.testbit a i), (Z.testbit x i); done.
Qed.
Lemma or_flags_has2 l f g : f ∈ l → g ∈ l → Z.land (or_flags l) (Z.lor f g) = Z.lor f g.
Proof. intros Hf Hg. by rewrite Z.land_lor_distr_r, !or_flags_has. Qed.
Lemma or_flags_nonzero l f : f ∈ l → f ≠ 0 → or_flags l ≠ 0.
Proof. intros Hf Hn H0. apply or_flags_has in Hf. rewrite H0 in Hf. by rewrite Z.land_0_l in Hf. Qed.

Section properties.
Context {B P PT MS : Type} {pa : PageAllocator P} {pal : PageAllocatorLaws P} {cfg : MemConfig} {ma : MemoryAddr} {mal : MemoryAddrLaws} {mf : MappingFlags}.
Context {ptab : PageTable PT (GlobalAllocator B P)} {ptl : PageTableLaws B P PT} {mset : MemorySet MS} {msl : MemorySetLaws MS}.
Context {spec : SbiSpec} {decode : ScauseDecode} {spl : SbiSpecLaws} {scl : ScauseLaws}.
Implicit Types (s : space B P PT MS).
Abbreviation page s b := (pt_page (pt (sp_as s)) b).

Lemma hv_space_mem m s : uspace_ok s → uspace_ok (set_mem m s).
Proof. intros [[F1 F2 F3] Hr Ha Hd Hrd]. by split; [split|..]. Qed.

(** One page, mapped where there was none. *)
Lemma map_page_ok s start flags s' :
  uspace_ok s → in_usize start → start + PAGE_SIZE_4K < 2 ^ 64 → page s start = None → flags ≠ 0 → unwrap_res (map_alloc start PAGE_SIZE_4K flags true) s = Ret (Ok tt, s') →
  uspace_ok s' ∧ aligned start ∧ base (sp_as s') ≤ start < end_ (sp_as s') ∧ va_range (sp_as s') = va_range (sp_as s) ∧ (page s' start = None ∨ ∃ f, page s' start = Some (f, flags, Size4K)) ∧
  (∀ b, aligned b → b ≠ start → page s' b = page s b) ∧ keeps_mem (sp_paging s) (sp_paging s').
Proof.
  intros Hu Hst Hend Hnone Hfl. unfold unwrap_res. destruct (map_alloc_spec s start PAGE_SIZE_4K flags true Hu Hst) as (r & s1 & -> & Hu1 & Hva & Hg & Hok & _); [done|done|].
  destruct r as [[]|e]; [|done]. intros [= <-]. destruct (Hok eq_refl) as (Hgr & _). rewrite Hgr in Hg. destruct Hg as (ok & [[Hm _]|[_ ?]]); [|done].
  apply good_range_spec in Hgr as (Hlo & Hhi & Hal & _); [|done|unfold in_usize in *; lia|done].
  split; [done|]. split; [done|]. split; [unfold base, end_ in *; rewrite Hva; unfold PAGE_SIZE_4K in *; lia|]. split; [done|]. split; [|split; [|apply Hm]].
  - pose proof (mb_in _ _ _ _ _ _ _ _ _ Hm start Hal) as [Hsame|(_ & f & Hf & _)]; [unfold in_region, PAGE_SIZE_4K; lia|left; cbn in Hsame; by rewrite Hsame|right].
    exists f. cbn in Hf. rewrite Hf. unfold entry. by rewrite (proj2 (Z.eqb_neq _ _)).
  - intros b Hb Hne. apply (mb_out _ _ _ _ _ _ _ _ _ Hm b Hb). unfold in_region. destruct (aligned_sep b start); [done..|lia|lia].
Qed.
Lemma query_paddr_ok s va x s' : in_usize va → query_paddr va s = Ret (Ok x, s') → s' = s ∧ ∃ f fl sz, page s (page_of va) = Some (f, fl, sz) ∧ x = f + va mod PAGE_SIZE_4K.
Proof.
  intros Hva. unfold query_paddr. pose proof (pt_query_law (pt (sp_as s)) va Hva) as Hq. destruct (page s (page_of va)) as [[[f fl] sz]|]; [|by destruct Hq as [e ->]].
  rewrite Hq. intros [= <- <-]. split; [done|]. by exists f, fl, sz.
Qed.
(** The frame of a page of the space, in the linear mapping. *)
Lemma frame_at s b f fl sz i : uspace_ok s → aligned b → base (sp_as s) ≤ b < end_ (sp_as s) → page s b = Some (f, fl, sz) → 0 ≤ i < PAGE_SIZE_4K →
  owned (sp_alloc s) f ∧ phys_to_virt (f + i) = f + PHYS_VIRT_OFFSET + i.
Proof.
  intros Hu Hb Hr Hp Hi. destruct (fo_page _ _ _ (uo_frames s Hu) b f fl sz Hb Hr Hp) as [_ Ho]. split; [done|].
  pose proof (fo_alloc _ _ _ (uo_frames s Hu)) as Ha. cbn in Ha. pose proof (owned_direct _ _ Ha Ho). destruct Ha as (_ & Hd & _). destruct Ho as (Hf & _).
  rewrite <-(owned_phys_to_virt (sp_alloc s) f i); [|apply (fo_alloc _ _ _ (uo_frames s Hu))|apply (fo_page _ _ _ (uo_frames s Hu) b f fl sz Hb Hr Hp)|done].
  rewrite uadd_small by lia. done.
Qed.

Abbreviation code_flags := (or_flags [mf_READ; mf_WRITE; mf_EXECUTE; mf_USER]).
Abbreviation data_flags := (or_flags [mf_READ; mf_WRITE; mf_USER]).
(** A page of the guest with these bytes at its start. *)
Definition guest_page s (b flags : Z) (bytes : Z → option Z) : Prop :=
  ∃ f, page s b = Some (f, flags, Size4K) ∧ (∀ i, 0 ≤ i < PAGE_SIZE_4K → phys_to_virt (f + i) = f + PHYS_VIRT_OFFSET + i) ∧
    ∀ i x, 0 ≤ i < PAGE_SIZE_4K → bytes i = Some x → sp_mem s (f + PHYS_VIRT_OFFSET + i) = x.
Definition bytes_at (off : Z) (bs : list Z) : Z → option Z := λ i, if off <=? i then bs !! Z.to_nat (i - off) else None.
(** What the loader leaves: the image, and the word that the guest reads. *)
Record loaded (img : list Z) s : Prop := {
  ld_ok : uspace_ok s;
  ld_code : guest_page s VM_ENTRY code_flags (bytes_at 0 img);
  ld_data : guest_page s 0 data_flags (bytes_at 0x40 (le_bytes 0x6688 ++ le_bytes 0x1234));
}.
Lemma mem_write_lookup m addr bs i x : bs !! i = Some x → mem_write m addr bs (addr + Z.of_nat i) = x.
Proof. intros Hi. rewrite mem_write_in; [by rewrite Hi|by apply lookup_lt_Some in Hi]. Qed.
(** A page is mapped and its frame looked up. *)
Record fresh_page s start flags f s' : Prop := {
  fp_ok : uspace_ok s';
  fp_aligned : aligned start;
  fp_in : base (sp_as s') ≤ start < end_ (sp_as s');
  fp_range : va_range (sp_as s') = va_range (sp_as s);
  fp_page : page s' start = Some (f, flags, Size4K);
  fp_other b : aligned b → b ≠ start → page s' b = page s b;
  fp_mem : keeps_mem (sp_paging s) (sp_paging s');
}.
Lemma map_and_query {A} s start flags (k : Z → SM (space B P PT MS) AxError.t A) r s' :
  uspace_ok s → in_usize start → start + PAGE_SIZE_4K < 2 ^ 64 → page s start = None → flags ≠ 0 →
  (do! unwrap_res (map_alloc start PAGE_SIZE_4K flags true) in let! paddr := query_paddr start in k paddr) s = Ret (r, s') →
  ∃ f s1, fresh_page s start flags f s1 ∧ k f s1 = Ret (r, s').
Proof.
  intros Hu Hst Hend Hn Hfl. unfold sm_bind. destruct (unwrap_res _ s) as [[[[]|e] s1]|] eqn:E; [|by unfold unwrap_res in E; destruct (map_alloc _ _ _ _ s) as [[[]]|]|done].
  apply map_page_ok in E as (Hu1 & Ha & Hr & Hv & Hp & Ho & Hk); [|done..].
  destruct (query_paddr start s1) as [[[x1|e] s1']|] eqn:Q; [|by unfold query_paddr in Q; destruct (pt_query _ _) as [[[]]|]|done].
  apply query_paddr_ok in Q as (-> & f1 & fl & z & Hq & ->); [|done]. rewrite page_of_id in Hq by done. destruct Hp as [Hp|[f Hp]]; [by rewrite Hp in Hq|].
  rewrite Hp in Hq. injection Hq as <- <- <-. rewrite Ha, Z.add_0_r. intros E. by exists f, s1.
Qed.
Lemma image_loaded bytes stack s r s' : mf_READ ≠ 0 → uspace_ok s → page s VM_ENTRY = None → page s 0 = None →
  load_vm_image (Ok bytes) stack s = Ret (r, s') →
  ∃ buf, load_file (Ok bytes) = Ok buf ∧ r = Ok tt ∧ loaded (take (Z.to_nat PAGE_SIZE_4K) (buf ++ stack)) s'.
Proof.
  intros Hr0 Hu Hn1 Hn0. unfold load_vm_image, sm_lift. unfold sm_bind at 1. cbn [load_file map_ok]. set (buf := take 64 bytes ++ _). set (img := take _ (buf ++ stack)).
  intros (f & s1 & [Hu1 Ha1 Hr1 Hv1 Hp1 Ho1 _] & E)%map_and_query; [|done|done|done|done|by eapply or_flags_nonzero; [left|]]. revert E.
  unfold sm_bind at 1. unfold poke at 1, sm_modify. set (m2 := mem_write _ _ img). set (s2 := set_mem m2 s1). assert (uspace_ok s2) as Hu2 by (by apply hv_space_mem).
  intros (f0 & s3 & [Hu3 Ha3 Hr3 Hv3 Hp3 Ho3 Hk3] & E)%map_and_query; [|done|done|done|cbn; by rewrite Ho1|by eapply or_flags_nonzero; [left|]]. revert E. unfold sm_bind.
  unfold poke, sm_modify. cbn [set_mem sp_mem sp_as sp_alloc]. intros [= <- <-]. exists buf. split; [done|]. split; [done|].
  assert (page s3 VM_ENTRY = Some (f, code_flags, Size4K)) as Hp31 by (rewrite Ho3; done).
  assert (base (sp_as s3) ≤ VM_ENTRY < end_ (sp_as s3)) as Hr31 by (unfold base, end_ in *; rewrite Hv3; exact Hr1).
  pose proof (λ i, frame_at s3 _ _ _ _ i Hu3 Ha1 Hr31 Hp31) as Hf1. pose proof (λ i, frame_at s3 _ _ _ _ i Hu3 Ha3 Hr3 Hp3) as Hf0.
  assert (f ≠ f0) as Hne by (intros <-; by pose proof (fo_inj _ _ _ (uo_frames s3 Hu3) _ _ _ _ _ _ _ Ha1 Ha3 Hr31 Hr3 Hp31 Hp3)).
  assert (f + PAGE_SIZE_4K ≤ f0 ∨ f0 + PAGE_SIZE_4K ≤ f) as Hsep by (apply aligned_sep; [apply (Hf1 0); done|apply (Hf0 0); done|done]).
  destruct (Hf0 0) as [_ E0]; [done|]. rewrite !Z.add_0_r in E0. rewrite E0.
  split; [by do 2 apply hv_space_mem| |].
  - exists f. split; [done|]. split; [intros i Hi; by apply Hf1|]. intros i x Hi. unfold bytes_at. rewrite (proj2 (Z.leb_le _ _)) by lia. rewrite Z.sub_0_r. intros Hx.
    cbn. rewrite !mem_write_out by (cbn; unfold PAGE_SIZE_4K in *; lia).
    destruct (frame_at s1 _ _ _ _ i Hu1 Ha1 Hr1 Hp1 Hi) as [Ho _]. etrans; [apply (Hk3 f i Ho Hi)|]. cbn. unfold m2.
    destruct (frame_at s1 _ _ _ _ 0 Hu1 Ha1 Hr1 Hp1) as [_ E1]; [done|]. rewrite !Z.add_0_r in E1. rewrite E1. replace i with (Z.of_nat (Z.to_nat i)) at 1 by lia. by apply mem_write_lookup.
  - exists f0. split; [done|]. split; [intros i Hi; by apply Hf0|]. intros i x Hi. unfold bytes_at. destruct (Z.leb_spec 0x40 i); [|done]. cbn [set_mem sp_mem].
    destruct (decide (i < 0x48)) as [Hlt|].
    + rewrite lookup_app_l by (cbn; lia). intros Hx. rewrite mem_write_out by lia. replace (f0 + PHYS_VIRT_OFFSET + i) with (f0 + PHYS_VIRT_OFFSET + 0x40 + Z.of_nat (Z.to_nat (i - 0x40))) by lia.
      by apply mem_write_lookup.
    + rewrite lookup_app_r by (cbn; lia). intros Hx. replace (f0 + PHYS_VIRT_OFFSET + i) with (f0 + PHYS_VIRT_OFFSET + 0x48 + Z.of_nat (Z.to_nat (i - 0x40) - 8)) by lia.
      by apply mem_write_lookup.
Qed.

(** ** The guest runs the image *)

Lemma guest_page_read s b flags bytes need i l : guest_page s b flags bytes → aligned b → in_usize (b + i) → 0 ≤ i → i + Z.of_nat (length l) ≤ PAGE_SIZE_4K → l ≠ [] →
  Z.land flags need = need → (∀ j x, l !! j = Some x → bytes (i + Z.of_nat j) = Some x) → guest_read s need (b + i) (length l) = Some (le_value l).
Proof.
  intros (f & Hp & Hpv & Hb) Hal Hus Hi Hle Hl Hfl Hx. assert (0 < Z.of_nat (length l)) by (destruct l; [done|cbn; lia]).
  unfold guest_read, guest_translate. pose proof (pt_query_law (pt (sp_as s)) (b + i) Hus) as Hq. assert (page_of (b + i) = b) as Epo by (apply page_of_in; [done|lia]).
  rewrite Epo, Hp in Hq. rewrite Hq, Hfl, Z.eqb_refl. cbn. do 2 f_equal. replace ((b + i) mod PAGE_SIZE_4K) with i by (unfold page_of in Epo; lia). rewrite Hpv by lia.
  apply list_eq. intros j. unfold mem_read. rewrite list_lookup_fmap. destruct (decide (j < length l)%nat) as [Hj|Hj].
  - rewrite lookup_seq_lt by done. cbn. destruct (lookup_lt_is_Some_2 l j Hj) as [x Ex]. rewrite Ex. f_equal. rewrite <-Z.add_assoc. apply Hb; [lia|by apply Hx].
  - rewrite lookup_seq_ge by lia. cbn. symmetry. apply lookup_ge_None. lia.
Qed.
(** The half word at an offset of the image. *)
Lemma image_half compressed img s (i : nat) x y : loaded img s → skernel2 compressed `prefix_of` img → skernel2 compressed !! i = Some x → skernel2 compressed !! S i = Some y →
  guest_read s (Z.lor mf_EXECUTE mf_USER) (VM_ENTRY + Z.of_nat i) 2 = Some (le_value [x; y]).
Proof.
  intros Hl [rest ->] Hx Hy. pose proof (lookup_lt_Some _ _ _ Hy) as Hlt. assert (length (skernel2 compressed) ≤ 16)%nat as Hlen by (destruct compressed; cbn; lia).
  eapply (guest_page_read s VM_ENTRY _ _ _ (Z.of_nat i) [x; y]); [apply Hl|done|unfold in_usize, VM_ENTRY; lia|lia|cbn; unfold PAGE_SIZE_4K; lia|done| |].
  - apply or_flags_has2; [by do 2 right; left|by do 3 right; left].
  - intros j z Hj. unfold bytes_at. rewrite (proj2 (Z.leb_le _ _)) by lia. replace (Z.to_nat (Z.of_nat i + Z.of_nat j - 0)) with (i + j)%nat by lia.
    apply lookup_app_l_Some. destruct j as [|[|j]]; [injection Hj as <-; by rewrite Nat.add_0_r|injection Hj as <-; by replace (i + 1)%nat with (S i) by lia|done].
Qed.
Lemma image_data img s : loaded img s → guest_read s (Z.lor mf_READ mf_USER) 64 8 = Some 0x6688.
Proof.
  intros Hl. change 64 with (0 + 64). erewrite (guest_page_read s 0 data_flags _ _ 64 (le_bytes 0x6688)); [done|apply Hl|done|done|done|done|done| |].
  - apply or_flags_has2; [by left|by do 2 right; left].
  - intros j x Hj. unfold bytes_at. rewrite (proj2 (Z.leb_le _ _)) by lia. replace (Z.to_nat (64 + Z.of_nat j - 64)) with j by lia. by apply lookup_app_l_Some.
Qed.
(** The instruction at an offset of the image. *)
Definition skernel2_at (compressed : bool) (i : nat) : option Z :=
  match skernel2 compressed !! i, skernel2 compressed !! S i with
  | Some x, Some y =>
      let lo := le_value [x; y] in
      if lo mod 4 =? 3
      then match skernel2 compressed !! S (S i), skernel2 compressed !! S (S (S i)) with Some z, Some t => Some (lo + 65536 * le_value [z; t]) | _, _ => None end
      else Some lo
  | _, _ => None
  end.
Lemma image_fetch compressed img s (i : nat) w : loaded img s → skernel2 compressed `prefix_of` img → skernel2_at compressed i = Some w → guest_fetch s (VM_ENTRY + Z.of_nat i) = Some w.
Proof.
  intros Hl Hi. unfold skernel2_at, guest_fetch. destruct (skernel2 compressed !! i) as [x|] eqn:Hx; [|done]. destruct (skernel2 compressed !! S i) as [y|] eqn:Hy; [|done].
  rewrite (image_half compressed img s i x y) by done. cbv zeta. destruct (_ =? 3); [|done].
  destruct (skernel2 compressed !! S (S i)) as [z|] eqn:Hz; [|done]. destruct (skernel2 compressed !! S (S (S i))) as [t|] eqn:Ht; [|done].
  replace (VM_ENTRY + Z.of_nat i + 2) with (VM_ENTRY + Z.of_nat (S (S i))) by lia. rewrite (image_half compressed img s (S (S i)) z t) by done. done.
Qed.
Lemma first_run compressed img s n m : loaded img s → skernel2 compressed `prefix_of` img →
  guest_run (S n) s VM_ENTRY m = Some (guest_trap CAUSE_ILLEGAL 0xf14025f3 VM_ENTRY m).
Proof. intros Hl Hi. cbn [guest_run]. change VM_ENTRY with (VM_ENTRY + Z.of_nat 0) at 1. by rewrite (image_fetch compressed img s 0 0xf14025f3) by (done || by destruct compressed). Qed.
Lemma second_run compressed img s n m : loaded img s → skernel2 compressed `prefix_of` img →
  ∃ pc, guest_run (S (S (S n))) s (VM_ENTRY + 4) m = Some (guest_trap CAUSE_VS_ECALL 0 pc (rset A7 8 (rset A0 0x6688 m))).
Proof.
  intros Hl Hi. cbn [guest_run]. change (VM_ENTRY + 4) with (VM_ENTRY + Z.of_nat 4). rewrite (image_fetch compressed img s 4 0x04003503) by (done || by destruct compressed).
  change (decode_instr 0x04003503) with (Some (GLd A0 Zero 64, 4)). cbv iota. change (rget m Zero) with 0. change (uadd 0 64) with 64. change (64 mod 8 =? 0) with true. cbv iota zeta.
  rewrite (image_data img s Hl). change (VM_ENTRY + Z.of_nat 4 + 4) with (VM_ENTRY + Z.of_nat 8). destruct compressed.
  - rewrite (image_fetch true img s 8 0x48a1) by done. change (decode_instr 0x48a1) with (Some (GLi A7 8, 2)). cbv iota.
    change (VM_ENTRY + Z.of_nat 8 + 2) with (VM_ENTRY + Z.of_nat 10). rewrite (image_fetch true img s 10 0x73) by done. by eexists.
  - rewrite (image_fetch false img s 8 0x00800893) by done. change (decode_instr 0x00800893) with (Some (GLi A7 8, 4)). cbv iota.
    change (VM_ENTRY + Z.of_nat 8 + 4) with (VM_ENTRY + Z.of_nat 12). rewrite (image_fetch false img s 12 0x73) by done. by eexists.
Qed.

(** ** The two exits *)

Lemma left_reg m v r : r ≠ Zero → g_gprs (guest_regs (leave_guest m v)) r = rget m r.
Proof. intros Hr. cbn. unfold store_regs. rewrite decide_True; [done|]. destruct r; [done|..]; apply (bool_decide_unpack _); vm_compute; exact I. Qed.
Lemma first_exit ge p guest m ctx g : guest (load_guest ge p (enter_guest m ctx) m) = Some (guest_trap CAUSE_ILLEGAL 0xf14025f3 VM_ENTRY g) →
  ∃ m' ctx', run_guest ge p guest m ctx = Ret (Some (false, m', ctx')) ∧ g_sepc (guest_regs ctx') = VM_ENTRY + 4 ∧ reg (g_gprs (guest_regs ctx')) A1 = 0x1234.
Proof. intros E. unfold run_guest. rewrite E. unfold hv_vmexit_handler. cbn [load_host csrs guest_trap cset]. unfold upd. cbn. rewrite cause_illegal. by do 2 eexists. Qed.
Lemma second_exit ge p guest m ctx g pc : guest (load_guest ge p (enter_guest m ctx) m) = Some (guest_trap CAUSE_VS_ECALL 0 pc (rset A7 8 (rset A0 0x6688 g))) → rget g A1 = 0x1234 →
  ∃ m' ctx', run_guest ge p guest m ctx = Ret (Some (true, m', ctx')).
Proof.
  intros E H1. unfold run_guest. rewrite E. unfold hv_vmexit_handler. set (g' := guest_trap _ _ _ _). set (v := leave_guest g' _).
  assert (cause_of (csrs (load_host p v g') Scause) = VirtualSupervisorEnvCall) as -> by exact cause_vs_ecall.
  assert (reg (g_gprs (guest_regs v)) A7 = 8) as E7 by (unfold v, reg; by rewrite left_reg).
  assert (reg (g_gprs (guest_regs v)) A0 = 0x6688) as E0 by (unfold v, reg; by rewrite left_reg).
  assert (reg (g_gprs (guest_regs v)) A1 = 0x1234) as E1 by (unfold v, reg; rewrite left_reg by done; exact H1).
  assert (from_regs (a_regs (g_gprs (guest_regs v))) = Ret (Ok (ResetMsg reset_shutdown))) as ->.
  { unfold from_regs. change (arg (a_regs _) 7) with (reg (g_gprs (guest_regs v)) A7). rewrite E7. destruct sbi_legacy as (-> & -> & -> & ->). by rewrite sbi_base. }
  cbv zeta. rewrite E0, E1. by do 2 eexists.
Qed.
(** The pages of a new user address space are free. *)
Lemma fresh_user_page kernel g (a : AddrSpace PT MS) g' b : USER_ASPACE_SIZE + 2 ^ 39 ≤ base kernel → base kernel ≤ end_ kernel →
  new_user_aspace kernel g = Ret (Ok a, g') → aligned b → 0 ≤ b < USER_ASPACE_SIZE → pt_page (pt a) b = None.
Proof.
  intros Hkb Hke. unfold new_user_aspace, new_empty. rewrite from_start_size_law by done. change (USER_ASPACE_BASE + USER_ASPACE_SIZE <? 2 ^ 64) with true. cbv iota.
  destruct (pt_try_new g) as [[p|e] g1] eqn:Hn; [|done]. destruct (pt_new_law g _ g1 Hn) as [Hg Hp]. unfold copy_mappings_from. cbn [va_range areas pt].
  destruct (range_overlaps _ _); [done|]. intros [= <- <-] Hb Hr. cbn [pt]. assert (0 ≤ aspace_size kernel) as Hsz by (unfold aspace_size; rewrite range_size_law by done; unfold base, end_ in *; lia).
  destruct (pt_copy_law (pt kernel) (base kernel) (aspace_size kernel) p b) as [_ Ho]; [unfold USER_ASPACE_SIZE in *; lia|done|done|]. rewrite Ho by lia. apply Hp.
Qed.

(** C12: The hypervisor runs its guest to the end.  Whenever the memory for the guest could be
    had, so that the loader came back, and the file starts with the machine code of the guest,
    in either form of its third instruction: the guest leaves twice, once for the register it
    cannot read, which is emulated, and once to shut down; both assertions on its registers
    hold, and the program exits with 0, whatever is on the stack after the buffer of the file. *)
Theorem simple_hv_exits kernel mem g a g' compressed bytes stack r s ge p m n :
  mf_READ ≠ 0 → alloc_ok g → USER_ASPACE_SIZE + 2 ^ 39 ≤ base kernel → base kernel ≤ end_ kernel → new_user_aspace kernel g = Ret (Ok a, g') →
  load_vm_image (Ok bytes) stack {| sp_as := a; sp_mem := mem; sp_alloc := g' |} = Ret (r, s) → skernel2 compressed `prefix_of` bytes →
  let main fuel := simple_hv_main fuel kernel mem g (Ok bytes) stack ge p (λ s m, guest_run (3 + n) s (csrs m Sepc) m) m in
  main 1%nat = Ret None ∧ ∀ fuel, main (2 + fuel)%nat = Ret (Some 0).
Proof.
  intros Hr0 Hok Hkb Hke Hnew Hld Hpre. destruct (new_user_aspace_ok kernel g a g' mem Hok Hkb Hke Hnew) as [Hu _].
  assert (∀ b, aligned b → 0 ≤ b < USER_ASPACE_SIZE → pt_page (pt a) b = None) as Hfree by (intros b; by apply (fresh_user_page kernel g a g')).
  pose proof Hld as Hld'. apply image_loaded in Hld as (buf & Hbuf & -> & Hl); [|done|done|by apply Hfree..]. set (img := take _ _) in Hl.
  assert (skernel2 compressed `prefix_of` img) as Hi.
  { injection Hbuf as <-. destruct Hpre as [rest ->]. destruct compressed; cbn [skernel2 app]; unfold img; rewrite <-?app_assoc; eexists; cbn; reflexivity. }
  intros main. unfold main, simple_hv_main. rewrite Hnew, Hld'. set (guest := λ m, guest_run _ s _ m). destruct (prepare_guest_context m regs_default) as [m1 ctx1] eqn:Ep.
  set (m2 := prepare_vm_pgtable _ m1). assert (g_sepc (guest_regs ctx1) = VM_ENTRY) as Epc by (by injection Ep as _ <-).
  destruct (first_exit ge p guest m2 ctx1 (load_guest ge p (enter_guest m2 ctx1) m2)) as (m3 & ctx3 & E1 & Epc3 & Ea1).
  { unfold guest. change (csrs (load_guest _ _ _ _) Sepc) with (g_sepc (guest_regs ctx1)). rewrite Epc. by apply (first_run compressed img). }
  destruct (second_run compressed img s n (load_guest ge p (enter_guest m3 ctx3) m3) Hl Hi) as [pc E2].
  destruct (second_exit ge p guest m3 ctx3 (load_guest ge p (enter_guest m3 ctx3) m3) pc) as (m4 & ctx4 & E3); [|done|].
  { unfold guest. change (csrs (load_guest _ _ _ _) Sepc) with (g_sepc (guest_regs ctx3)). rewrite Epc3. exact E2. }
  split; [|intros fuel]; cbn [run_guest_loop Nat.add]; rewrite E1; [done|]. by rewrite E3.
Qed.

(** A device access passed through: a fault at the start of a page maps the page at its own
    address, and nothing else; a fault elsewhere in a page of a device is refused. *)
Lemma find_dev_has addr devices d : find_dev addr devices = Some d → d ∈ devices ∧ check_addr d addr = true.
Proof. intros H. apply List.find_some in H as [Hin Hc]. split; [by apply list_elem_of_In|done]. Qed.
Theorem mmio_passthrough flags addr s : in_usize addr → addr + 4096 < 2 ^ 64 →
  (∀ s', handle_mmio flags addr s = Ret (Ok tt, s') → aligned addr ∧ page s addr = None ∧ page s' addr = entry addr flags Size4K ∧ ∀ b, aligned b → b ≠ addr → page s' b = page s b) ∧
  (addr mod 4096 ≠ 0 → handle_mmio flags addr s = Ret (Err AxError.InvalidInput, s)).
Proof.
  intros Hu Hend. split.
  - intros s' (Ha & _ & _ & Hout & Hin)%map_linear_ok; [|done..|lia]. split; [done|]. destruct (Hin addr Ha) as [Hn He]; [unfold in_region; lia|].
    rewrite Z.sub_diag, Z.add_0_r in He. split_and!; [done..|]. intros b Hb Hne. apply Hout; [done|]. unfold in_region. destruct (aligned_sep b addr); [done..|unfold PAGE_SIZE_4K in *; lia|unfold PAGE_SIZE_4K in *; lia].
  - intros Hm. unfold handle_mmio, map_linear, sm_bind. rewrite check_range_eq by done. destruct (in_space s addr 4096); [|done].
    rewrite is_aligned_law by done. by rewrite (proj2 (Z.eqb_neq _ _)).
Qed.
End properties.
