(* ===== verification/RiscvDemo.v ===== *)
(** The theorems on the RISC-V code, applied to a machine: a task switch, a jump, a system
    call, the switch to a guest, two calls of a guest, and the run of [simple_hv]. *)

From stdpp Require Import prelude gmap list.
From Stdlib Require Import ZArith Lia.
From S2P Require Import Prelude Axalloc Axmm AxmmProps AxmmSpace AxmmCalls AxmmDemo.
From S2P Require Import Riscv RiscvContext RiscvTrap Vcpu VcpuExit SimpleHv.
Local Open Scope Z_scope.

(** A machine whose memory has its own addresses in it. *)
Definition demo_hart (a0 : Z) : hart := {| gpr r := if decide (r = A0) then a0 else 0x100 + Z.of_nat (gpr_index r); csrs _ := 0; mem a := a |}.
Lemma demo_frame p n : p mod 8 = 0 → 0 ≤ p < 0x100000 → 0 ≤ n < 0x1000 → Riscv.frame_ok p n.
Proof. intros. unfold Riscv.frame_ok. lia. Qed.

(** A task at [0x1000] hands over to the one at [0x2000], and the one at [0x3000] hands back. *)
Lemma context_switch_resumes_witness : ∃ m1, switch_to true true 0x1000 0x2000 (demo_hart 0) = Some m1 ∧
  ∃ m3, switch_to true true 0x3000 0x1000 m1 = Some m3 ∧ same_caller (demo_hart 0) m3.
Proof.
  destruct (context_switch_resumes true true 0x1000 0x2000 0x3000 (demo_hart 0)) as (m1 & E1 & _ & _ & H); [by apply demo_frame|by apply demo_frame|by apply demo_frame|by left|by right|].
  exists m1. split; [exact E1|]. destruct (H m1 (λ k _, eq_refl)) as (m3 & E3 & Hs & _). exists m3. split; [exact E3|exact Hs].
Defined.
(** [longjmp(buf, 0)] right after [setjmp]. *)
Lemma setjmp_longjmp_witness : ∃ m1, exec setjmp (demo_hart 0x1000) = Some m1 ∧
  ∃ m3, exec longjmp (rset A1 0 (rset A0 0x1000 m1)) = Some m3 ∧ same_caller (demo_hart 0x1000) m3 ∧ rget m3 A0 = 1.
Proof.
  destruct (setjmp_longjmp 0x1000 (demo_hart 0x1000)) as (m1 & E1 & _ & _ & _ & H); [by apply demo_frame|reflexivity|].
  exists m1. split; [exact E1|]. destruct (H (rset A1 0 (rset A0 0x1000 m1)) 0) as (m3 & E3 & Hs & Hv & _); [reflexivity|reflexivity|reflexivity|split; [apply Z.le_refl|reflexivity]|].
  exists m3. split; [exact E3|]. split; [exact Hs|exact Hv].
Defined.

(** A task that enters user mode with the frame at [0x2000], and traps. *)
Definition demo_syscall : list (TrapFrame → Z → unit → outcome (Z * unit)) := [λ _ id _, Ret (id, tt)].
Definition demo_tf : TrapFrame := {| tf_regs r := 0x2000 + tf_slot r; tf_sepc := 0x2000 + OFF_sepc; tf_sstatus := 0x2000 + OFF_sstatus |}.
Lemma demo_tf_at : tf_at (demo_hart 0) 0x2000 demo_tf.
Proof. split; [intros r _; reflexivity|split; reflexivity]. Qed.
Lemma demo_free : T0 ∈ free_regs ∧ T1 ∈ free_regs.
Proof. split; apply (bool_decide_unpack _); vm_compute; exact I. Qed.
Lemma user_traps_exact_witness : ∃ m m1, enter_uspace T0 T1 0x2000 0x4000 (demo_hart 0) = Some m ∧ trap_entry m = Some (true, m1) ∧ rget m1 A0 = 0x4000 - trapframe_size ∧ rget m1 A1 = 1.
Proof.
  assert (Riscv.frame_ok 0x2000 trapframe_size ∧ Riscv.frame_ok (0x4000 - trapframe_size) trapframe_size) as [F1 F2] by (split; by apply demo_frame).
  assert (apart 0x2000 trapframe_size (0x4000 - trapframe_size) trapframe_size) as Ha by (by left).
  destruct (enter_uspace_exact T0 T1 0x2000 0x4000 demo_tf (demo_hart 0)) as (m & E & _); [apply demo_free|apply demo_free|discriminate|exact F1|exact F2|exact Ha|exact demo_tf_at|].
  destruct (user_traps_exact [] [] demo_syscall 0x4000 (rget (demo_hart 0) GP) (rget (demo_hart 0) TP) m tt) as (m1 & E1 & _ & H0 & H1 & _).
  - apply (life_enter [] [] demo_syscall 0x4000 _ _ T0 T1 0x2000 demo_tf (demo_hart 0) m tt);
      [apply demo_free|apply demo_free|discriminate|exact F1|exact F2|exact Ha|exact demo_tf_at|reflexivity|reflexivity|exact E].
  - exists m, m1. split; [exact E|]. split; [exact E1|]. split; [exact H0|exact H1].
Defined.

(** The record of a virtual CPU at [0x1000]. *)
Definition demo_words (v : VmCpuRegisters) : hart :=
  {| gpr := gpr (demo_hart 0x1000); csrs _ := 0; mem a := default 0 (vm_words v !! Z.to_nat ((a - 0x1000) / 8)) |}.
Lemma demo_record v : regs_at (demo_words v) 0x1000 v.
Proof. intros i w Hi. cbn [demo_words mem]. replace (0x1000 + 8 * Z.of_nat i - 0x1000) with (Z.of_nat i * 8) by lia. by rewrite Z.div_mul, Nat2Z.id, Hi by done. Qed.
Lemma guest_switch_exact_witness : ∃ m1, exec (run_guest_code 0x8000) (demo_words regs_default) = Some m1 ∧
  ∃ m3, exec guest_exit_code (rset A0 7 m1) = Some m3 ∧ same_caller (demo_words regs_default) m3.
Proof.
  destruct (guest_switch_exact 0x8000 0x1000 regs_default (demo_words regs_default)) as (m1 & E1 & _ & H); [by apply demo_frame|done|apply demo_record|].
  exists m1. split; [exact E1|]. destruct (H (rset A0 7 m1)) as (m3 & E3 & Hs & _); [by split|]. exists m3. split; [exact E3|exact Hs].
Defined.

(** ** A firmware, and a guest that uses its timer *)

#[export] Instance demo_sbi : SbiSpec := {|
  EID_BASE := 0x10; LEGACY_SET_TIMER := 0; LEGACY_CONSOLE_PUTCHAR := 1; LEGACY_CONSOLE_GETCHAR := 2; LEGACY_SHUTDOWN := 8;
  EID_TIME := 0x54494d45; EID_SRST := 0x53525354; EID_RFNC := 0x52464e43; EID_PMU := 0x504d55; REMOTE_FENCE_I := 0; REMOTE_SFENCE_VMA := 1 |}.
#[export] Instance demo_sbi_laws : SbiSpecLaws.
Proof. by split. Qed.
Definition TIMER_CAUSE : Z := 2 ^ 63 + 5.
#[export] Instance demo_scause : ScauseDecode := {|
  cause_of c := if c =? 10 then VirtualSupervisorEnvCall else if c =? 2 then IllegalInstruction else if c =? 21 then LoadGuestPageFault
                else if c =? 23 then StoreGuestPageFault else if c =? TIMER_CAUSE then SupervisorTimer else if c =? 2 ^ 63 + 9 then SupervisorExternal else OtherTrap |}.
#[export] Instance demo_scause_laws : ScauseLaws.
Proof. by split. Qed.
(** The firmware keeps the time of the last timer. *)
#[export] Instance demo_firmware : SbiRt Z := {|
  console_getchar f := (0, f); console_putchar _ f := f; set_timer t _ := t; system_reset f := f;
  get_spec_version f := ((2, 0), f); get_sbi_impl_id f := (1, f); get_sbi_impl_version f := (1, f); probe_extension _ f := (1, f);
  get_mvendorid f := (0, f); get_marchid f := (0, f); get_mimpid f := (0, f);
  remote_fence_i _ _ f := ((0, 0), f); remote_sfence_vma _ _ _ _ f := ((0, 0), f);
  pmu_num_counters f := (0, f); pmu_counter_get_info _ f := ((0, 0), f); pmu_counter_stop _ _ _ f := ((0, 0), f) |}.

(** A guest that sets the timer, and one that is interrupted by it. *)
Definition timer_guest (m : hart) : hart := cset Scause 10 (rset A7 0 (rset A0 1000 m)).
Definition waiting_guest (m : hart) : hart := cset Scause (if armed m then TIMER_CAUSE else 2) m.
Definition demo_vcpu : vmm Z := vcpu_init (setup_csrs (demo_hart 0)) 0.
Definition after_run (guest : hart → hart) (s : vmm Z) : vmm Z := match run 0x8000 0x1000 guest s with Ret (_, s) => s | Panic => s end.
Definition goes_on (guest : hart → hart) (s : vmm Z) : bool := match run 0x8000 0x1000 guest s with Ret (Nothing, _) => true | _ => false end.
Lemma after_run_eq guest s : goes_on guest s = true → run 0x8000 0x1000 guest s = Ret (Nothing, after_run guest s).
Proof. unfold goes_on, after_run. destruct (run _ _ guest s) as [[[] s']|]; done. Qed.
Lemma timer_injection_witness : pending (vc_hart (after_run waiting_guest (after_run timer_guest demo_vcpu))) = true ∧
  (1 + Nat.b2n (armed (vc_hart (after_run waiting_guest (after_run timer_guest demo_vcpu)))) ≤ 1)%nat.
Proof.
  split; [vm_compute; reflexivity|]. apply (timer_injection (after_run waiting_guest (after_run timer_guest demo_vcpu)) 1 1).
  assert (vcpu_life (after_run timer_guest demo_vcpu) 1 0) as H1.
  { pose proof (vl_run demo_vcpu 0 0 0x8000 0x1000 timer_guest Nothing (after_run timer_guest demo_vcpu) (vl_init _ _)) as H.
    assert (sets_timer (at_exit 0x8000 0x1000 timer_guest demo_vcpu) = true) as E1 by (vm_compute; reflexivity).
    assert (is_timer_irq (at_exit 0x8000 0x1000 timer_guest demo_vcpu) = false) as E2 by (vm_compute; reflexivity).
    rewrite E1, E2 in H. apply H; [by intros m|apply after_run_eq; vm_compute; reflexivity]. }
  pose proof (vl_run _ 1 0 0x8000 0x1000 waiting_guest Nothing (after_run waiting_guest (after_run timer_guest demo_vcpu)) H1) as H.
  assert (sets_timer (at_exit 0x8000 0x1000 waiting_guest (after_run timer_guest demo_vcpu)) = false) as E1 by (vm_compute; reflexivity).
  assert (is_timer_irq (at_exit 0x8000 0x1000 waiting_guest (after_run timer_guest demo_vcpu)) = true) as E2 by (vm_compute; reflexivity).
  rewrite E1, E2 in H. apply H; [|apply after_run_eq; vm_compute; reflexivity].
  intros m. split; [done|]. split; [done|]. unfold waiting_guest. cbn [cset csrs]. rewrite upd_eq. by destruct (armed m).
Defined.

(** ** [simple_hv] on 64 pages of memory *)

Definition demo_stack : list Z := replicate 4032 0xee.
Lemma simple_hv_exits_witness :
  simple_hv_main 2 demo_kernel (λ _, 0xcc) (demo_alloc 64) (Ok (skernel2 true)) demo_stack 0x8000 0x1000 (λ s m, guest_run 3 s (csrs m Sepc) m) (demo_hart 0) = Ret (Some 0).
Proof.
  assert (match load_vm_image (Ok (skernel2 true)) demo_stack (demo_space 64) with Ret _ => true | Panic => false end = true) as Hret by (vm_compute; reflexivity).
  destruct (load_vm_image (Ok (skernel2 true)) demo_stack (demo_space 64)) as [[r s]|] eqn:E; [clear Hret|discriminate Hret].
  apply (simple_hv_exits demo_kernel (λ _, 0xcc) (demo_alloc 64) (fst (demo_user 64)) (snd (demo_user 64)) true (skernel2 true) demo_stack r s 0x8000 0x1000 (demo_hart 0) 0)
    with (fuel := 0%nat); [done|by apply demo_alloc_ok|done|done|apply demo_user_eq|exact E|done].
Defined.
