(* ===== verification/Dma.v ===== *)
(** Coherent memory for devices ([modules/axdma]): a byte allocator of its own for small
    requests, fed with pages of the global allocator, and whole pages for large ones; the
    pages are made uncached in the kernel's page table.

    The state has the kernel's address space with the global allocator ([Axmm.v],
    [Axalloc.v]).  The lock of the allocator is held during a call; between two calls the rest
    of the kernel uses its own pages as it likes. *)

From stdpp Require Import prelude gmap list.
From Stdlib Require Import ZArith Lia.
From S2P Require Import Prelude Bump Axalloc Axmm AxmmProps AxmmSpace.
Local Open Scope Z_scope.
Local Open Scope kernel_scope.

(** [axconfig::PHYS_BUS_OFFSET]. *)
Class BusConfig : Type := { PHYS_BUS_OFFSET : Z }.

Section dma.
Context {D B P PT MS : Type} {ba : ByteAllocator D} {pa : PageAllocator P} {cfg : MemConfig} {bus : BusConfig} {ma : MemoryAddr} {mf : MappingFlags}.
Context {ptab : PageTable PT (GlobalAllocator B P)}.

Record DMAInfo : Type := { cpu_addr : Z; bus_addr : Z }.
Definition phys_to_bus (paddr : Z) : Z := uadd paddr PHYS_BUS_OFFSET.
Definition virt_to_bus (addr : Z) : Z := phys_to_bus (virt_to_phys addr).
Definition layout_pages (layout : Layout) : Z := align_up_4k (layout_size layout) / PAGE_SIZE_4K.

(** The allocator, and the address space of the kernel with the global allocator. *)
Record dma : Type := { d_alloc : D; d_space : space B P PT MS }.
Abbreviation M := (SM dma AllocError).
Definition global (s : dma) : GlobalAllocator B P := sp_alloc (d_space s).
Definition set_global (g : GlobalAllocator B P) (s : dma) : dma :=
  {| d_alloc := d_alloc s; d_space := {| sp_as := sp_as (d_space s); sp_mem := sp_mem (d_space s); sp_alloc := g |} |}.
Definition set_dalloc (b : D) (s : dma) : dma := {| d_alloc := b; d_space := d_space s |}.
Definition global_alloc_pages (n align : Z) : M Z := λ s, let (r, g) := alloc_pages n align (global s) in Ret (r, set_global g s).
Definition DMA_FLAGS : Z := Z.lor (Z.lor mf_READ mf_WRITE) mf_UNCACHED.
Definition NORMAL_FLAGS : Z := Z.lor mf_READ mf_WRITE.

Definition update_flags (vaddr num_pages flags : Z) : M unit := λ s,
  match protect vaddr (umul num_pages PAGE_SIZE_4K) flags (d_space s) with
  | Ret (r, sp) => Ret (map_err (λ _, NoMemory) r, {| d_alloc := d_alloc s; d_space := sp |})
  | Panic => Panic
  end.
(** [self.alloc.alloc(layout)], as an option. *)
Definition try_alloc (layout : Layout) : M (option DMAInfo) := λ s,
  match balloc_alloc layout (d_alloc s) with
  | (Ok data, b) => Ret (Ok (Some {| cpu_addr := data; bus_addr := virt_to_bus data |}), set_dalloc b s)
  | (Err _, b) => Ret (Ok None, set_dalloc b s)
  end.
Definition expand : M unit :=
  let! num_pages := λ s, Ret (Ok (Z.min 4 (available_pages (global s))), s) in
  let! vaddr := global_alloc_pages num_pages PAGE_SIZE_4K in
  do! update_flags vaddr num_pages DMA_FLAGS in
  λ s, let (r, b) := balloc_add_memory vaddr (umul num_pages PAGE_SIZE_4K) (d_alloc s) in Ret (r, set_dalloc b s).
(** The loop runs at most twice: [is_expanded]. *)
Definition alloc_coherent_bytes (layout : Layout) : M DMAInfo :=
  let! first := try_alloc layout in
  match first with
  | Some d => sm_ret d
  | None =>
      do! expand in
      let! second := try_alloc layout in
      match second with Some d => sm_ret d | None => sm_err NoMemory end
  end.
Definition alloc_coherent_pages (layout : Layout) : M DMAInfo :=
  let num_pages := layout_pages layout in
  let! vaddr := global_alloc_pages num_pages (Z.max PAGE_SIZE_4K (layout_align layout)) in
  do! update_flags vaddr num_pages DMA_FLAGS in
  sm_ret {| cpu_addr := vaddr; bus_addr := virt_to_bus vaddr |}.
Definition alloc_coherent (layout : Layout) : M DMAInfo :=
  if PAGE_SIZE_4K <=? layout_size layout then alloc_coherent_pages layout else alloc_coherent_bytes layout.
(** The result of [update_flags] is dropped. *)
Definition dealloc_coherent (d : DMAInfo) (layout : Layout) (s : dma) : outcome dma :=
  if PAGE_SIZE_4K <=? layout_size layout then
    let num_pages := layout_pages layout in
    match update_flags (cpu_addr d) num_pages NORMAL_FLAGS (set_global (dealloc_pages (cpu_addr d) num_pages (global s)) s) with
    | Ret (_, s) => Ret s
    | Panic => Panic
    end
  else Ret (set_dalloc (balloc_dealloc (cpu_addr d) layout (d_alloc s)) s).
End dma.
Arguments dma : clear implicits.

(** ** The memory given out *)

(** What the allocators do with nothing: a new byte allocator is empty, and no pages are a
    request that is refused. *)
Class DmaLaws (D P : Type) `{ByteAllocator D, PageAllocator P} : Prop := {
  balloc_new_law : balloc_ok balloc_new ∧ balloc_regions balloc_new = [] ∧ balloc_blocks balloc_new = [];
  palloc_zero_law al p : ∃ e, palloc_alloc_pages 0 al p = (Err e, p);
  palloc_available_law p : palloc_ok p → 0 ≤ palloc_available_pages p;
}.

Section safety.
Context {D B P PT MS : Type} {ba : ByteAllocator D} {bal : ByteAllocatorLaws D} {pa : PageAllocator P} {pal : PageAllocatorLaws P} {dml : DmaLaws D P}.
Context {cfg : MemConfig} {bus : BusConfig} {ma : MemoryAddr} {mal : MemoryAddrLaws} {mf : MappingFlags}.
Context {ptab : PageTable PT (GlobalAllocator B P)} {ptl : PageTableLaws B P PT}.
Context (Hread : mf_READ ≠ 0).
Implicit Types (s : dma D B P PT MS) (out : list (DMAInfo * Layout)).
Abbreviation page s b := (pt_page (pt (sp_as (d_space s))) b).
Abbreviation blocks s := (palloc_blocks (palloc (global s))).
Abbreviation arena s := (palloc_arena (palloc (global s))).
Abbreviation separate := (λ b1 b2, ranges_disjoint (page_range b1) (page_range b2)).

(** The global allocator's memory is in the kernel's address space, at its place in the
    linear mapping. *)
Record kernel_ok s : Prop := {
  ko_palloc : palloc_ok (palloc (global s));
  ko_range : base (sp_as (d_space s)) ≤ (arena s).1 ∧ (arena s).1 + (arena s).2 ≤ end_ (sp_as (d_space s));
  ko_pages b : aligned b → covers (arena s) b → ∃ fl, page s b = Some (virt_to_phys b, fl, Size4K);
  ko_blocks : pairwise separate (blocks s);
  ko_within b : b ∈ blocks s → range_within (page_range b) (arena s);
}.
Definition is_big (x : DMAInfo * Layout) : bool := PAGE_SIZE_4K <=? layout_size x.2.
Definition given (x : DMAInfo * Layout) : range := (cpu_addr x.1, layout_size x.2).
Definition big_blocks out : list (Z * Z) := omap (λ x, if is_big x then Some (cpu_addr x.1, layout_pages x.2) else None) out.
Definition small_blocks out : list range := omap (λ x, if is_big x then None else Some (given x)) out.
Definition coherent s (b : Z) : Prop := page s b = Some (virt_to_phys b, DMA_FLAGS, Size4K).
(** A block of pages that devices may use. *)
Definition dma_block s (blk : Z * Z) : Prop := aligned blk.1 ∧ 0 < blk.2 ∧ ∀ b, aligned b → covers (page_range blk) b → coherent s b.

(** [extra] are pages that a call has got but not yet used, [heap] the ones of the byte
    allocator. *)
Record core s (extra heap : list (Z * Z)) out : Prop := {
  co_kernel : kernel_ok s;
  co_balloc : balloc_ok (d_alloc s);
  co_own : ∃ rest, blocks s ≡ₚ extra ++ (big_blocks out ++ heap) ++ rest;
  co_regions : balloc_regions (d_alloc s) ≡ₚ page_range <$> heap;
  co_dma blk : blk ∈ big_blocks out ++ heap → dma_block s blk;
  co_small : balloc_blocks (d_alloc s) ≡ₚ small_blocks out;
  co_within bl : bl ∈ balloc_blocks (d_alloc s) → ∃ rg, rg ∈ balloc_regions (d_alloc s) ∧ range_within bl rg;
  co_out x : x ∈ out → layout_valid x.2 ∧ bus_addr x.1 = virt_to_bus (cpu_addr x.1) ∧ cpu_addr x.1 mod layout_align x.2 = 0;
  co_pair : pairwise (λ x y, ranges_disjoint (given x) (given y)) out;
}.
#[local] Instance given_sym : Symmetric (λ x y, ranges_disjoint (given x) (given y)).
Proof. intros x y H. by symmetry. Qed.

Lemma flags_nonzero : DMA_FLAGS ≠ 0 ∧ NORMAL_FLAGS ≠ 0.
Proof. unfold DMA_FLAGS, NORMAL_FLAGS. rewrite !Z.lor_eq_0_iff. tauto. Qed.
Lemma layout_pages_spec l : layout_valid l → PAGE_SIZE_4K ≤ layout_size l → 0 < layout_pages l ∧ layout_size l ≤ layout_pages l * PAGE_SIZE.
Proof.
  intros (Hp & Hs & Hle) Hbig. assert (0 < layout_align l) as Hal by (destruct Hp as (k & Hk & ->); apply Z.pow_pos_nonneg; lia).
  unfold layout_pages. rewrite align_up_law by (unfold PAGE_SIZE_4K in *; lia). rewrite Z.div_mul by done. unfold PAGE_SIZE_4K, PAGE_SIZE in *.
  pose proof (Z.div_mod (layout_size l + (4096 - 1)) 4096 ltac:(done)). pose proof (Z.mod_pos_bound (layout_size l + (4096 - 1)) 4096 ltac:(done)). lia.
Qed.

(** ** Pages and their flags *)

Lemma update_flags_ok s a n flags : kernel_ok s → aligned a → 0 < n → range_within (page_range (a, n)) (arena s) → flags ≠ 0 →
  ∃ r s', update_flags a n flags s = Ret (r, s') ∧ d_alloc s' = d_alloc s ∧ global s' = global s ∧ kernel_ok s' ∧
    (∀ b, aligned b → ¬ covers (page_range (a, n)) b → page s' b = page s b) ∧
    (r = Ok tt → ∀ b, aligned b → covers (page_range (a, n)) b → page s' b = Some (virt_to_phys b, flags, Size4K)).
Proof.
  intros [Kp Kr Kg Kb Kw] Ha Hn Hw Hf. pose proof (palloc_arena_law _ Kp) as [Ha1 Ha2]. unfold usize_mod in Ha2.
  assert (covers (arena s) a ∧ covers (arena s) (a + n * PAGE_SIZE - 1)) as [Hc1 Hc2] by (split; apply Hw; unfold covers, page_range, PAGE_SIZE; cbn; lia).
  unfold covers in Hc1, Hc2. unfold PAGE_SIZE in *. assert (umul n PAGE_SIZE_4K = n * 4096) as Em by (unfold umul, PAGE_SIZE_4K; apply wrap_small; unfold in_usize; lia).
  unfold update_flags. rewrite Em. unfold protect. rewrite checked by (unfold in_usize; lia).
  assert (good_range (d_space s) a (n * 4096) = true) as ->.
  { unfold good_range, in_space. rewrite !andb_true_iff, !Z.leb_le, !Z.eqb_eq. unfold aligned in Ha. split; [lia|]. split; [done|]. by apply Z.mod_mul. }
  unfold on_pt. destruct (pt_protect_region a (n * 4096) flags (pt (sp_as (d_space s)))) as [r p] eqn:Hp.
  assert (∀ b, aligned b → in_region a (n * 4096) b → ∃ fl, page s b = Some (virt_to_phys b, fl, Size4K)) as Hin by (intros b Hb Hir; apply Kg; [done|unfold covers, in_region in *; lia]).
  apply pt_protect_region_law in Hp as (_ & Hout & Hch); [|done|by apply Z.mod_mul|lia|intros b f fl z Hb Hir Hpg; destruct (Hin b Hb Hir) as [fl' E]; congruence].
  assert (∀ b, aligned b → in_region a (n * 4096) b → pt_page p b = Some (virt_to_phys b, flags, Size4K) ∨ r ≠ Ok tt ∧ pt_page p b = page s b) as Hnew.
  { intros b Hb Hir. destruct (Hin b Hb Hir) as [fl E]. destruct (Hch b Hb Hir) as [H|H]; [left|by right]. rewrite H, E. unfold entry. by rewrite (proj2 (Z.eqb_neq _ _)). }
  eexists _, _. split; [done|]. split; [done|]. split; [done|]. split; [|split].
  - split; [done|done| |done|done]. intros b Hb Hc. cbn. destruct (decide (in_region a (n * 4096) b)) as [Hir|Hnr]; [|rewrite Hout by done; by apply Kg].
    destruct (Hnew b Hb Hir) as [->|[_ ->]]; [by eexists|by apply Kg].
  - intros b Hb Hc. cbn. apply Hout; [done|]. exact Hc.
  - intros Hr b Hb Hc. cbn. destruct (Hnew b Hb Hc) as [H|[Hne _]]; [done|]. destruct r as [[]|]; done.
Qed.

(** ** Steps of a call *)

Lemma core_extra s extra heap out : core s extra heap out → core s [] heap out.
Proof.
  intros [H1 H2 (rest & Hr) H4 H5 H6 H7 H8 H9]. split; try done. exists (extra ++ rest). rewrite Hr, app_nil_l. apply Permutation_app_swap_app.
Qed.
(** Other blocks of the page allocator do not meet the ones of this allocator. *)
Lemma extra_separate s a n heap out blk : core s [(a, n)] heap out → blk ∈ big_blocks out ++ heap → ranges_disjoint (page_range blk) (page_range (a, n)).
Proof.
  intros H Hb. destruct (co_own _ _ _ _ H) as [rest Hr]. pose proof (pairwise_perm _ _ _ Hr (ko_blocks _ (co_kernel _ _ _ _ H))) as Hp. rewrite app_assoc in Hp.
  apply pairwise_app_l in Hp. symmetry. apply (pairwise_app_cross _ _ _ (a, n) blk Hp); [by left|done].
Qed.
(** A change of the page table or of the allocator elsewhere. *)
Lemma core_change s s' extra extra' heap out rest : core s extra heap out → kernel_ok s' → d_alloc s' = d_alloc s → blocks s' ≡ₚ extra' ++ (big_blocks out ++ heap) ++ rest →
  (∀ blk b, blk ∈ big_blocks out ++ heap → aligned b → covers (page_range blk) b → page s' b = page s b) → core s' extra' heap out.
Proof.
  intros [H1 H2 H3 H4 H5 H6 H7 H8 H9] Hk Hd Hb Hp. split; rewrite ?Hd; try done; [by exists rest|].
  intros blk Hin. destruct (H5 blk Hin) as (Ha & Hn & Hc). split; [done|]. split; [done|]. intros b Hal Hcov. unfold coherent. rewrite (Hp blk b) by done. by apply Hc.
Qed.
Lemma core_alloc_pages s heap out n al r g : core s [] heap out → 0 < n → al mod PAGE_SIZE_4K = 0 → 0 < al → alloc_pages n al (global s) = (r, g) →
  match r with
  | Ok a => core (set_global g s) [(a, n)] heap out ∧ aligned a ∧ a mod al = 0
  | Err _ => core (set_global g s) [] heap out
  end.
Proof.
  intros H Hn Hal Hal0. unfold alloc_pages. destruct (palloc_alloc_pages n al (palloc (global s))) as [r0 p'] eqn:Ea. intros [= <- <-].
  destruct (co_kernel _ _ _ _ H) as [Kp Kr Kg Kb Kw]. destruct (palloc_alloc_law _ _ _ _ _ Kp Hn Ea) as (Hok & Har & Hres). destruct (co_own _ _ _ _ H) as [rest Hrest].
  destruct r0 as [a|e].
  - destruct Hres as (Hb & Hmod & _ & Hw & Hd). split; [|split; [|done]].
    + apply (core_change s _ [] [(a, n)] heap out rest); [done| |done|cbn; by rewrite Hb, Hrest|done].
      split; [done|cbn; by rewrite Har|cbn; by rewrite Har| |].
      * cbn. rewrite Hb. apply pairwise_cons. split; [|done]. intros y Hy. symmetry. by apply Hd.
      * cbn. intros b. rewrite Hb, Har. intros [->|Hb']%elem_of_cons; [done|by apply Kw].
    + apply Z.mod_divide in Hal; [|done]. apply Z.mod_divide in Hmod; [|lia]. unfold aligned. apply Z.mod_divide; [done|]. by etrans.
  - apply (core_change s _ [] [] heap out rest); [done| |done|cbn; by rewrite Hres, Hrest|done].
    split; [done|cbn; by rewrite Har|cbn; by rewrite Har|cbn; by rewrite Hres|cbn; by rewrite Hres, Har].
Qed.
Lemma core_flags s heap out a n : core s [(a, n)] heap out → aligned a → 0 < n →
  ∃ r s', update_flags a n DMA_FLAGS s = Ret (r, s') ∧ core s' [(a, n)] heap out ∧ (r = Ok tt → dma_block s' (a, n)).
Proof.
  intros H Ha Hn. pose proof (co_kernel _ _ _ _ H) as K. destruct (co_own _ _ _ _ H) as [rest Hrest].
  assert ((a, n) ∈ blocks s) as Hin by (rewrite Hrest; by left).
  destruct (update_flags_ok s a n DMA_FLAGS K Ha Hn (ko_within _ K _ Hin) (proj1 flags_nonzero)) as (r & s' & E & Hd & Hg & K' & Hout & Hok).
  exists r, s'. split; [exact E|]. split; [|intros Hr; split; [done|split; [done|by apply Hok]]].
  apply (core_change s s' [(a, n)] [(a, n)] heap out rest); [done..|by rewrite Hg|]. intros blk b Hb Hal Hc. apply Hout; [done|].
  intros Hc'. by apply (extra_separate s a n heap out blk H Hb b).
Qed.
Lemma core_add s heap out a n r b : core s [(a, n)] heap out → dma_block s (a, n) → balloc_add_memory a (umul n PAGE_SIZE_4K) (d_alloc s) = (r, b) →
  ∃ heap', core (set_dalloc b s) [] heap' out.
Proof.
  intros H Hblk Ha. pose proof (co_kernel _ _ _ _ H) as K. destruct (co_own _ _ _ _ H) as [rest Hrest]. pose proof (λ blk, extra_separate s a n heap out blk H) as Hsep.
  assert (umul n PAGE_SIZE_4K = n * PAGE_SIZE) as Em.
  { assert ((a, n) ∈ blocks s) as Hin by (rewrite Hrest; by left). pose proof (palloc_arena_law _ (ko_palloc _ K)) as [Ha1 Ha2]. destruct Hblk as (_ & Hn & _). cbn in Hn.
    destruct (ko_within _ K _ Hin a); [unfold covers, page_range, PAGE_SIZE; cbn; lia|]. destruct (ko_within _ K _ Hin (a + n * PAGE_SIZE - 1)); [unfold covers, page_range, PAGE_SIZE; cbn; lia|].
    unfold umul, PAGE_SIZE_4K, PAGE_SIZE, usize_mod in *. apply wrap_small. unfold in_usize. lia. }
  rewrite Em in Ha. destruct H as [_ H2 _ H4 H5 H6 H7 H8 H9].
  apply balloc_add_law in Ha as (Hok & Hbl & Hrg); [|done|].
  2: { intros rg. rewrite H4. intros (blk & -> & Hin)%list_elem_of_fmap. apply (Hsep blk). apply elem_of_app. by right. }
  exists ((if is_ok r then [(a, n)] else []) ++ heap). split; cbn [set_dalloc d_alloc].
  - by destruct K.
  - done.
  - exists ((if is_ok r then [] else [(a, n)]) ++ rest). cbn. rewrite Hrest. destruct (is_ok r); cbn; [rewrite <-Permutation_middle; cbn; by rewrite <-?app_assoc|].
    rewrite <-Permutation_middle. done.
  - rewrite Hrg, H4. by destruct (is_ok r).
  - intros blk. rewrite !elem_of_app. intros [Hb|[Hb|Hb]]; [apply H5, elem_of_app; by left| |apply H5, elem_of_app; by right].
    destruct (is_ok r); [apply list_elem_of_singleton in Hb as ->; exact Hblk|by apply elem_of_nil in Hb].
  - by rewrite Hbl.
  - intros bl. rewrite Hbl, Hrg. intros Hin. destruct (H7 bl Hin) as (rg & Hr & Hw). exists rg. split; [apply elem_of_app; by right|done].
  - done.
  - done.
Qed.

(** Memory that is already given out is in blocks of this allocator. *)
Lemma given_in s extra heap out x : core s extra heap out → x ∈ out → ∃ blk, blk ∈ big_blocks out ++ heap ∧ range_within (given x) (page_range blk).
Proof.
  intros H Hx. destruct (co_out _ _ _ _ H x Hx) as (Hv & _). destruct (is_big x) eqn:Hb.
  - exists (cpu_addr x.1, layout_pages x.2). split.
    + apply elem_of_app. left. apply list_elem_of_omap. exists x. by rewrite Hb.
    + apply Z.leb_le in Hb. destruct (layout_pages_spec _ Hv Hb) as [_ Hle]. intros y. unfold covers, given, page_range. cbn. lia.
  - assert (given x ∈ balloc_blocks (d_alloc s)) as Hin by (rewrite (co_small _ _ _ _ H); apply list_elem_of_omap; exists x; by rewrite Hb).
    destruct (co_within _ _ _ _ H _ Hin) as (rg & Hr & Hw). rewrite (co_regions _ _ _ _ H) in Hr. apply list_elem_of_fmap in Hr as (blk & -> & Hblk).
    exists blk. split; [apply elem_of_app; by right|done].
Qed.
Lemma core_try s heap out layout : core s [] heap out → layout_valid layout → layout_size layout < PAGE_SIZE_4K →
  ∃ o s', try_alloc layout s = Ret (Ok o, s') ∧ match o with Some d => core s' [] heap ((d, layout) :: out) | None => core s' [] heap out end.
Proof.
  intros H Hv Hsm. unfold try_alloc. destruct (balloc_alloc layout (d_alloc s)) as [r b] eqn:Ea. assert (is_big ({| cpu_addr := 0; bus_addr := 0 |}, layout) = false) as Hbig by (by apply Z.leb_gt).
  pose proof (balloc_alloc_law _ _ _ _ (co_balloc _ _ _ _ H) Ea) as (Hok & Hrg & Hres). destruct r as [p|e].
  - destruct Hres as (Hbl & Hal & (rg & Hin & Hw) & Hd). eexists _, _. split; [done|]. cbn beta iota. set (d := {| cpu_addr := p; bus_addr := _ |}).
    assert (is_big (d, layout) = false) as Hd0 by exact Hbig.
    assert (∀ y, y ∈ out → ranges_disjoint (given (d, layout)) (given y)) as Hnew.
    { intros y Hy. destruct (is_big y) eqn:Hby.
      - rewrite (co_regions _ _ _ _ H) in Hin. apply list_elem_of_fmap in Hin as (blk & -> & Hblk).
        assert ((cpu_addr y.1, layout_pages y.2) ∈ big_blocks out) as Hyb by (apply list_elem_of_omap; exists y; by rewrite Hby).
        destruct (co_out _ _ _ _ H y Hy) as (Hvy & _). apply Z.leb_le in Hby. destruct (layout_pages_spec _ Hvy Hby) as [_ Hle].
        destruct (co_own _ _ _ _ H) as [rest Hrest]. pose proof (pairwise_perm _ _ _ Hrest (ko_blocks _ (co_kernel _ _ _ _ H))) as Hp. rewrite app_nil_l in Hp. apply pairwise_app_l in Hp.
        intros z Hz1 Hz2. apply (pairwise_app_cross _ _ _ _ _ Hp Hyb Hblk z); [|by apply Hw]. unfold covers, given, page_range in *. cbn in *. lia.
      - intros z Hz1 Hz2. apply (Hd (given y)) with z; [|done|done]. rewrite (co_small _ _ _ _ H). apply list_elem_of_omap. exists y. by rewrite Hby. }
    destruct H as [H1 H2 H3 H4 H5 H6 H7 H8 H9].
    assert (big_blocks ((d, layout) :: out) = big_blocks out) as Eb by (unfold big_blocks; cbn [omap list_omap]; by rewrite Hd0).
    assert (small_blocks ((d, layout) :: out) = given (d, layout) :: small_blocks out) as Es by (unfold small_blocks; cbn [omap list_omap]; by rewrite Hd0).
    split; cbn [set_dalloc d_alloc]; rewrite ?Eb, ?Es, ?Hrg, ?Hbl; try done; [by destruct H1|by rewrite H6| | |apply pairwise_cons; by split].
    + intros bl [->|Hb]%elem_of_cons; [by exists rg|by apply H7].
    + intros x [->|Hx]%elem_of_cons; [done|by apply H8].
  - eexists _, _. split; [done|]. cbn beta iota. destruct H as [H1 H2 H3 H4 H5 H6 H7 H8 H9]. split; cbn [set_dalloc d_alloc]; rewrite ?Hrg, ?Hres; try done. by destruct H1.
Qed.

Lemma core_given_pages s heap out layout a : core s [(a, layout_pages layout)] heap out → dma_block s (a, layout_pages layout) → layout_valid layout → PAGE_SIZE_4K ≤ layout_size layout →
  a mod layout_align layout = 0 → core s [] heap (({| cpu_addr := a; bus_addr := virt_to_bus a |}, layout) :: out).
Proof.
  intros H Hblk Hv Hbig Hal. set (d := {| cpu_addr := a; bus_addr := _ |}). assert (is_big (d, layout) = true) as Hd by (by apply Z.leb_le). destruct (layout_pages_spec _ Hv Hbig) as [_ Hle].
  assert (∀ y, y ∈ out → ranges_disjoint (given (d, layout)) (given y)) as Hnew.
  { intros y Hy. destruct (given_in _ _ _ _ y H Hy) as (blk & Hb & Hw). pose proof (extra_separate s a _ heap out blk H Hb) as Hsep. intros z Hz1 Hz2. apply (Hsep z); [by apply Hw|].
    unfold covers, given, page_range in *. cbn in *. lia. }
  destruct H as [H1 H2 (rest & Hr) H4 H5 H6 H7 H8 H9].
  assert (big_blocks ((d, layout) :: out) = (a, layout_pages layout) :: big_blocks out) as Eb by (unfold big_blocks; cbn [omap list_omap]; by rewrite Hd).
  assert (small_blocks ((d, layout) :: out) = small_blocks out) as Es by (unfold small_blocks; cbn [omap list_omap]; by rewrite Hd).
  split; rewrite ?Eb, ?Es; try done; [by exists rest| | |apply pairwise_cons; by split].
  - intros blk [->|Hb]%elem_of_cons; [done|by apply H5].
  - intros x [->|Hx]%elem_of_cons; [done|by apply H8].
Qed.

(** ** Calls *)

Lemma expand_ok s heap out : core s [] heap out → ∃ r s' heap', expand s = Ret (r, s') ∧ core s' [] heap' out.
Proof.
  intros H. unfold expand, sm_bind. set (n := Z.min 4 _). unfold global_alloc_pages. destruct (alloc_pages n PAGE_SIZE_4K (global s)) as [r g] eqn:Ea.
  pose proof (palloc_available_law _ (ko_palloc _ (co_kernel _ _ _ _ H))) as Hav. destruct (decide (n = 0)) as [Hz|Hz].
  { unfold alloc_pages in Ea. rewrite Hz in Ea. destruct (palloc_zero_law PAGE_SIZE_4K (palloc (global s))) as [e Ee]. rewrite Ee in Ea. injection Ea as <- <-.
    eexists _, _, heap. split; [done|]. destruct H as [[Kp Kr Kg Kb Kw] H2 H3 H4 H5 H6 H7 H8 H9]. by split. }
  assert (0 < n) as Hn by (unfold n, available_pages in *; lia). pose proof (core_alloc_pages s heap out n PAGE_SIZE_4K r g H Hn eq_refl eq_refl Ea) as Hc.
  destruct r as [a|e]; [|by eexists _, _, heap]. destruct Hc as (Hc & Ha & _). cbn beta iota.
  destruct (core_flags _ _ _ _ _ Hc Ha Hn) as (r1 & s1 & E1 & H1 & Hb1). rewrite E1. cbn beta iota.
  destruct r1 as [[]|e]; [|eexists _, _, heap; split; [done|by eapply core_extra]].
  destruct (balloc_add_memory a (umul n PAGE_SIZE_4K) (d_alloc s1)) as [r2 b] eqn:E2. destruct (core_add s1 heap out a n r2 b H1 (Hb1 eq_refl) E2) as [heap' H2]. by eexists _, _, heap'.
Qed.
Lemma alloc_coherent_ok s heap out layout : core s [] heap out → layout_valid layout →
  ∃ r s' heap', alloc_coherent layout s = Ret (r, s') ∧ core s' [] heap' (match r with Ok d => [(d, layout)] | Err _ => [] end ++ out).
Proof.
  intros H Hv. unfold alloc_coherent. destruct (Z.leb_spec PAGE_SIZE_4K (layout_size layout)) as [Hbig|Hsm].
  - destruct (layout_pages_spec _ Hv Hbig) as [Hn _]. unfold alloc_coherent_pages, sm_bind, global_alloc_pages. destruct Hv as ((k & Hk & Ek) & Hv2) eqn:EHv.
    assert (Z.max PAGE_SIZE_4K (layout_align layout) = 2 ^ Z.max 12 k) as Emax.
    { rewrite Ek. change PAGE_SIZE_4K with (2 ^ 12). destruct (Z.max_spec 12 k) as [[? ->]|[? ->]]; [apply Z.max_r|apply Z.max_l]; apply Z.pow_le_mono_r; lia. }
    assert (2 ^ Z.max 12 k mod PAGE_SIZE_4K = 0) as Hmod by (replace (Z.max 12 k) with (Z.max 12 k - 12 + 12) by lia; rewrite Z.pow_add_r by lia; by apply Z.mod_mul).
    destruct (alloc_pages (layout_pages layout) (Z.max PAGE_SIZE_4K (layout_align layout)) (global s)) as [r g] eqn:Ea. rewrite Emax in Ea.
    pose proof (core_alloc_pages s heap out _ _ r g H Hn Hmod ltac:(apply Z.pow_pos_nonneg; lia) Ea) as Hc. destruct r as [a|e]; [|by eexists _, _, heap]. destruct Hc as (Hc & Ha & Hal).
    destruct (core_flags _ _ _ _ _ Hc Ha Hn) as (r1 & s1 & E1 & H1 & Hb1). cbn beta iota. rewrite E1. destruct r1 as [[]|e]; [|eexists _, _, heap; split; [done|by eapply core_extra]].
    eexists _, _, heap. split; [done|]. apply core_given_pages; [done|by apply Hb1|done|done|]. rewrite Ek.
    apply Z.mod_divide in Hal; [|apply Z.pow_nonzero; lia]. apply Z.mod_divide; [apply Z.pow_nonzero; lia|]. etrans; [|exact Hal]. exists (2 ^ (Z.max 12 k - k)). rewrite <-Z.pow_add_r by lia. f_equal. lia.
  - unfold alloc_coherent_bytes, sm_bind. destruct (core_try s heap out layout H Hv Hsm) as (o & s1 & -> & H1). destruct o as [d|]; [by eexists _, _, heap|].
    destruct (expand_ok s1 heap out H1) as (r & s2 & heap2 & -> & H2). destruct r as [[]|e]; [|by eexists _, _, heap2].
    destruct (core_try s2 heap2 out layout H2 Hv Hsm) as (o & s3 & -> & H3). destruct o as [d|]; by eexists _, _, heap2.
Qed.
Lemma core_perm s heap out out' : out ≡ₚ out' → core s [] heap out → core s [] heap out'.
Proof.
  intros Hp [H1 H2 (rest & Hr) H4 H5 H6 H7 H8 H9]. assert (big_blocks out ≡ₚ big_blocks out') as Hb by (unfold big_blocks; by rewrite Hp).
  split; try done; [exists rest; by rewrite <-Hb|intros blk; rewrite <-Hb; apply H5|unfold small_blocks; by rewrite <-Hp|intros x; rewrite <-Hp; apply H8|by apply (pairwise_perm _ out)].
Qed.
Lemma dealloc_coherent_ok s heap out d layout : core s [] heap ((d, layout) :: out) → ∃ s', dealloc_coherent d layout s = Ret s' ∧ core s' [] heap out.
Proof.
  intros H. destruct (co_out _ _ _ _ H (d, layout)) as (Hv & _ & _); [by left|]. cbn in Hv. unfold dealloc_coherent. destruct (is_big (d, layout)) eqn:Hd; unfold is_big in Hd; cbn [snd] in Hd; rewrite Hd.
  - set (a := cpu_addr d). set (n := layout_pages layout). apply Z.leb_le in Hd as Hbig. destruct (layout_pages_spec _ Hv Hbig) as [Hn _].
    assert (big_blocks ((d, layout) :: out) = (a, n) :: big_blocks out) as Eb by (unfold big_blocks; cbn [omap list_omap]; unfold is_big at 1; cbn [snd]; by rewrite Hd).
    assert (small_blocks ((d, layout) :: out) = small_blocks out) as Es by (unfold small_blocks; cbn [omap list_omap]; unfold is_big at 1; cbn [snd]; by rewrite Hd).
    destruct H as [[Kp Kr Kg Kb Kw] H2 (rest & Hr) H4 H5 H6 H7 H8 H9]. rewrite Eb in *. rewrite Es in *. cbn [app] in Hr. destruct (H5 (a, n)) as (Ha & _ & _); [by left|]. cbn in Ha.
    assert ((a, n) ∈ blocks s) as Hin by (rewrite Hr; by left). destruct (palloc_dealloc_law a n _ Kp Hin) as (Hok & Har & Hp). set (p' := palloc_dealloc_pages a n (palloc (global s))) in *.
    assert (palloc_blocks p' ≡ₚ (big_blocks out ++ heap) ++ rest) as Hr' by (eapply Permutation_cons_inv; rewrite <-Hp; exact Hr).
    apply (pairwise_perm _ _ _ Hp) in Kb. apply (pairwise_cons _ (a, n)) in Kb as [Ksep Kb]. set (s1 := set_global _ s).
    assert (kernel_ok s1) as K1.
    { change (kernel_ok (set_global (set_palloc p' (global s)) s)). split; [done|cbn; by rewrite Har|cbn; by rewrite Har|done|]. cbn. intros b Hb. rewrite Har. apply Kw. rewrite Hp. by right. }
    destruct (update_flags_ok s1 a n NORMAL_FLAGS K1 Ha Hn) as (r & s2 & -> & Hd2 & Hg2 & K2 & Hout & _); [change (arena s1) with (palloc_arena p'); rewrite Har; by apply Kw|apply flags_nonzero|].
    exists s2. split; [done|].
    assert (core s1 [] heap out) as H1 by (split; try done; [by exists rest|intros blk Hb; apply H5, elem_of_cons; by right|intros x Hx; apply H8, elem_of_cons; by right|by destruct (proj1 (pairwise_cons _ _ _) H9)]).
    apply (core_change s1 s2 [] [] heap out rest); [done..|rewrite Hg2; exact Hr'|]. intros blk b Hb Hal Hc. apply Hout; [done|]. intros Hc'.
    apply (Ksep blk) with b; [|done|done]. rewrite Hr'. apply elem_of_app. by left.
  - assert (big_blocks ((d, layout) :: out) = big_blocks out) as Eb by (unfold big_blocks; cbn [omap list_omap]; unfold is_big at 1; cbn [snd]; by rewrite Hd).
    assert (small_blocks ((d, layout) :: out) = given (d, layout) :: small_blocks out) as Es by (unfold small_blocks; cbn [omap list_omap]; unfold is_big at 1; cbn [snd]; by rewrite Hd).
    eexists. split; [done|]. destruct H as [H1 H2 H3 H4 H5 H6 H7 H8 H9]. rewrite Eb in *. rewrite Es in *.
    destruct (balloc_dealloc_law (cpu_addr d) layout (d_alloc s) H2) as (Hok & Hrg & Hb); [rewrite H6; by left|].
    split; cbn [set_dalloc d_alloc]; rewrite ?Hrg; try done; [by destruct H1|eapply Permutation_cons_inv; rewrite <-Hb; exact H6| |intros x Hx; apply H8; by right|by destruct (proj1 (pairwise_cons _ _ _) H9)].
    intros bl Hbl. apply H7. rewrite Hb. by right.
Qed.

(** Blocks that are uncached and in use. *)
Definition dma_owns s (own : list (Z * Z)) : Prop := ∃ rest, blocks s ≡ₚ own ++ rest ∧ ∀ blk, blk ∈ own → dma_block s blk.
(** The calls, with the memory that is given out; between two calls the rest of the kernel
    allocates, frees and maps, but leaves the uncached pages alone. *)
Inductive dma_life : dma D B P PT MS → list (DMAInfo * Layout) → Prop :=
  | dl_init s : kernel_ok s → d_alloc s = balloc_new → dma_life s []
  | dl_alloc s out layout r s' : dma_life s out → layout_valid layout → alloc_coherent layout s = Ret (r, s') →
      dma_life s' (match r with Ok d => [(d, layout)] | Err _ => [] end ++ out)
  | dl_dealloc s out d layout out' s' : dma_life s out → out ≡ₚ (d, layout) :: out' → dealloc_coherent d layout s = Ret s' → dma_life s' out'
  | dl_other s out s' : dma_life s out → d_alloc s' = d_alloc s → kernel_ok s' → (∀ own, dma_owns s own → dma_owns s' own) → dma_life s' out.
Lemma life_core s out : dma_life s out → ∃ heap, core s [] heap out.
Proof.
  induction 1 as [s Hk Hd|s out layout r s' _ [heap IH] Hv E|s out d layout out' s' _ [heap IH] Hp E|s out s' _ [heap IH] Hd Hk Hown].
  - exists []. destruct (balloc_new_law (D := D) (P := P)) as (Hok & Hr & Hb). split; rewrite ?Hd, ?Hr, ?Hb; try done; [by exists (blocks s)|by intros blk ?%elem_of_nil|by intros bl ?%elem_of_nil|by intros x ?%elem_of_nil|constructor].
  - destruct (alloc_coherent_ok s heap out layout IH Hv) as (r' & s1 & heap' & E' & H'). rewrite E in E'. injection E' as <- <-. by exists heap'.
  - destruct (dealloc_coherent_ok s heap out' d layout) as (s1 & E' & H'); [by apply (core_perm s heap out)|]. rewrite E in E'. injection E' as <-. by exists heap.
  - exists heap. destruct IH as [H1 H2 (rest & Hr) H4 H5 H6 H7 H8 H9]. destruct (Hown (big_blocks out ++ heap)) as (rest' & Hr' & Hb'); [by exists rest|].
    split; rewrite ?Hd; try done. by exists rest'.
Qed.

(** C21: Coherent memory is exclusive, uncached and where the device looks for it.  After any
    calls of [alloc_coherent] and [dealloc_coherent], the blocks given out do not overlap; each
    has the alignment that was asked for and the bus address of its physical memory, and each
    of its pages is in the kernel's page table at its place in the linear mapping with the
    flags for device memory.  The next call of [alloc_coherent] returns, and so does giving
    back any of the blocks. *)
Theorem coherent_memory_safe s out : dma_life s out →
  pairwise (λ x y, ranges_disjoint (given x) (given y)) out ∧
  (∀ d layout, (d, layout) ∈ out → cpu_addr d mod layout_align layout = 0 ∧ bus_addr d = virt_to_bus (cpu_addr d) ∧
     (∀ x, cpu_addr d ≤ x < cpu_addr d + layout_size layout → page s (page_of x) = Some (virt_to_phys (page_of x), DMA_FLAGS, Size4K)) ∧
     ∃ s', dealloc_coherent d layout s = Ret s') ∧
  ∀ layout, layout_valid layout → ∃ r s', alloc_coherent layout s = Ret (r, s').
Proof.
  intros [heap H]%life_core. split; [apply H|]. split.
  - intros d layout Hin. destruct (co_out _ _ _ _ H _ Hin) as (Hv & Hbus & Hal). split; [exact Hal|]. split; [exact Hbus|]. split.
    + intros x Hx. destruct (given_in _ _ _ _ _ H Hin) as ([a n] & Hb & Hw). destruct (co_dma _ _ _ _ H _ Hb) as (Ha & Hn & Hc). apply Hc; [apply page_of_aligned|].
      destruct (Hw x Hx) as [H1 H2]. pose proof (page_of_bounds x). unfold covers, page_range in *. cbn in *. split; [|lia].
      destruct (decide (a ≤ page_of x)); [done|]. destruct (aligned_sep a (page_of x)); [done|apply page_of_aligned|lia|lia|lia].
    + apply elem_of_Permutation in Hin as [out' Hp]. destruct (dealloc_coherent_ok s heap out' d layout) as (s' & E & _); [by apply (core_perm s heap out)|]. by exists s'.
  - intros layout Hv. destruct (alloc_coherent_ok s heap out layout H Hv) as (r & s' & _ & E & _). by exists r, s'.
Qed.
End safety.
