(* ===== verification/DmaDemo.v ===== *)
(** Coherent memory on the platform of [AxmmDemo.v]: a byte allocator that starts without
    memory, and a small and a large request. *)

From stdpp Require Import prelude gmap list.
From Stdlib Require Import ZArith Lia.
From S2P Require Import Prelude Bump Axalloc Axmm AxmmProps AxmmSpace AxmmCalls AxmmDemo Dma.
Local Open Scope Z_scope.

(** The byte allocator of [Axalloc.v], or one that has no memory yet. *)
Definition lazy_alloc : Type := option region_alloc.
#[export] Instance lazy_byte_allocator : ByteAllocator lazy_alloc := {|
  balloc_new := None;
  balloc_init start size _ := Some (balloc_init start size balloc_new);
  balloc_add_memory start size b :=
    match b with
    | Some b => let (r, b) := balloc_add_memory start size b in (r, Some b)
    | None => (Ok tt, Some (balloc_init start size balloc_new))
    end;
  balloc_alloc layout b := match b with Some b => let (r, b) := balloc_alloc layout b in (r, Some b) | None => (Err NoMemory, None) end;
  balloc_dealloc p layout b := balloc_dealloc p layout <$> b;
  balloc_total_bytes b := match b with Some b => balloc_total_bytes b | None => 0 end;
  balloc_used_bytes b := match b with Some b => balloc_used_bytes b | None => 0 end;
  balloc_available_bytes b := match b with Some b => balloc_available_bytes b | None => 0 end;
  balloc_ok b := match b with Some b => balloc_ok b | None => True end;
  balloc_regions b := match b with Some b => balloc_regions b | None => [] end;
  balloc_blocks b := match b with Some b => balloc_blocks b | None => [] end;
|}.
#[export] Instance lazy_byte_allocator_laws : ByteAllocatorLaws lazy_alloc.
Proof.
  split.
  - intros start size b. apply (balloc_init_law (B := region_alloc)).
  - intros start size [b|] r b' Hok Hd; cbn [balloc_add_memory lazy_byte_allocator].
    + destruct (balloc_add_memory start size b) as [r0 b0] eqn:E. intros [= <- <-]. by apply (balloc_add_law (B := region_alloc)) in E.
    + intros [= <- <-]. split; [|done]. exists start, size, []. split_and!; [done|cbn; lia|done|by intros bl ?%elem_of_nil|by intros rg ?%elem_of_nil].
  - intros layout [b|] r b' Hok; cbn [balloc_alloc lazy_byte_allocator]; [|by intros [= <- <-]].
    destruct (balloc_alloc layout b) as [r0 b0] eqn:E. intros [= <- <-]. by apply (balloc_alloc_law (B := region_alloc)) in E.
  - intros p layout [b|] Hok Hin; [by apply (balloc_dealloc_law (B := region_alloc))|by apply elem_of_nil in Hin].
  - intros [b|]; [apply (balloc_total_law (B := region_alloc))|done].
Qed.
#[export] Instance demo_dma_laws : DmaLaws lazy_alloc page_bump.
Proof.
  split; [done| |].
  - intros al p. exists NoMemory. cbn. unfold pb_alloc_pages. by rewrite andb_false_r.
  - intros p (_ & _ & _ & H & _). cbn. apply Z.div_pos; [lia|done].
Qed.
#[export] Instance demo_bus : BusConfig := {| PHYS_BUS_OFFSET := 0 |}.

(** The kernel's address space maps 64 pages. *)
Abbreviation dma_t := (dma lazy_alloc region_alloc page_bump demo_pt demo_set).
Definition ARENA : Z := 0x80000000 + PHYS_VIRT_OFFSET.
Definition demo_linear : demo_pt := λ b, if in_regionb ARENA (64 * PAGE_SIZE_4K) b then Some (virt_to_phys b, 3) else None.
Definition demo_dma : dma_t :=
  {| d_alloc := balloc_new;
     d_space := {| sp_as := {| va_range := va_range demo_kernel; areas := []; pt := demo_linear |}; sp_mem := λ _, 0; sp_alloc := demo_alloc 64 |} |}.
Lemma demo_dma_ok : Dma.kernel_ok demo_dma.
Proof.
  split.
  - apply (demo_alloc_ok 64). done.
  - done.
  - intros b _ Hc. exists 3. cbn [d_space demo_dma sp_as pt]. unfold demo_linear. cbn. pose proof (in_regionb_spec ARENA (64 * PAGE_SIZE_4K) b) as Hs. by destruct (in_regionb _ _ b).
  - constructor.
  - intros b Hb. by apply elem_of_nil in Hb.
Qed.
Definition small_layout : Layout := {| layout_size := 100; layout_align := 8 |}.
Definition large_layout : Layout := {| layout_size := 10000; layout_align := 64 |}.
Lemma demo_layouts : layout_valid small_layout ∧ layout_valid large_layout.
Proof. split; (split; [|by cbn]); [by exists 3|by exists 6]. Qed.
Definition given_addr (layout : Layout) (s : dma_t) : Z := match alloc_coherent layout s with Ret (Ok d, _) => cpu_addr d | _ => 0 end.
Definition after_alloc (layout : Layout) (s : dma_t) : dma_t := match alloc_coherent layout s with Ret (_, s) => s | Panic => s end.
Definition is_given (layout : Layout) (s : dma_t) : bool := match alloc_coherent layout s with Ret (Ok d, _) => bus_addr d =? virt_to_bus (cpu_addr d) | _ => false end.
Lemma after_alloc_eq layout s : is_given layout s = true →
  alloc_coherent layout s = Ret (Ok {| cpu_addr := given_addr layout s; bus_addr := virt_to_bus (given_addr layout s) |}, after_alloc layout s).
Proof.
  unfold is_given, given_addr, after_alloc. destruct (alloc_coherent layout s) as [[[[c b]|e] s']|]; [|done..]. cbn [bus_addr cpu_addr]. intros ->%Z.eqb_eq. done.
Qed.

(** The large block of three pages is behind the four pages of the byte allocator, uncached. *)
Lemma coherent_memory_safe_witness :
  let s1 := after_alloc small_layout demo_dma in let s2 := after_alloc large_layout s1 in
  given_addr small_layout demo_dma = ARENA ∧ given_addr large_layout s1 = ARENA + 4 * PAGE_SIZE_4K ∧
  pt_page (G := GlobalAllocator region_alloc page_bump) (pt (sp_as (d_space s2))) (page_of (ARENA + 4 * PAGE_SIZE_4K)) = Some (virt_to_phys (page_of (ARENA + 4 * PAGE_SIZE_4K)), DMA_FLAGS, Size4K).
Proof.
  intros s1 s2. assert (given_addr small_layout demo_dma = ARENA) as E1 by (vm_compute; reflexivity).
  assert (given_addr large_layout s1 = ARENA + 4 * PAGE_SIZE_4K) as E2 by (vm_compute; reflexivity). split; [exact E1|]. split; [exact E2|].
  pose proof (after_alloc_eq small_layout demo_dma ltac:(vm_compute; reflexivity)) as A1. fold s1 in A1.
  pose proof (after_alloc_eq large_layout s1 ltac:(vm_compute; reflexivity)) as A2. fold s2 in A2.
  assert (mf_READ ≠ 0) as Hr by discriminate.
  pose proof (dl_alloc demo_dma [] small_layout _ s1 (dl_init demo_dma demo_dma_ok eq_refl) (proj1 demo_layouts) A1) as L1.
  pose proof (dl_alloc s1 _ large_layout _ s2 L1 (proj2 demo_layouts) A2) as L2.
  destruct (coherent_memory_safe Hr s2 _ L2) as (_ & H & _). rewrite E2 in H.
  destruct (H _ large_layout (list_elem_of_here _ _)) as (_ & _ & Hp & _). apply Hp. cbn [cpu_addr layout_size large_layout]. split; [apply Z.le_refl|reflexivity].
Defined.
