(* ===== verification/Pthread.v ===== *)
(** POSIX threads ([arceos_posix_api/src/imp/pthread/mod.rs]): the table of threads, creation,
    exit and join, as steps of threads that interleave.

    The tasks are the ones of [axtask]: [spawn] gives a new one, which may run at once, and
    [join] waits until a task has exited; here a task is whether it has exited and the packet
    its closure holds.  Addresses of boxes and packets are any that are not in use.  The table
    is a [lazy_static]: the first thread that touches it fills it. *)

From stdpp Require Import prelude gmap list.
From Stdlib Require Import ZArith Lia.
From S2P Require Import Prelude.
Local Open Scope Z_scope.

(** [inner] is the id of the task, [retval] the packet. *)
Record Pthread : Type := { inner : Z; retval : Z }.
Record task : Type := { t_exited : bool; t_packet : Z }.
Record threads : Type := {
  table : option (gmap Z Z);
  boxes : gmap Z Pthread;
  packets : gmap Z Z;
  tasks : gmap Z task;
}.
Definition set_table t s : threads := {| table := t; boxes := boxes s; packets := packets s; tasks := tasks s |}.
Definition set_boxes b s : threads := {| table := table s; boxes := b; packets := packets s; tasks := tasks s |}.
Definition set_packet p v s : threads := {| table := table s; boxes := boxes s; packets := <[p := v]> (packets s); tasks := tasks s |}.
Definition set_task t x s : threads := {| table := table s; boxes := boxes s; packets := packets s; tasks := <[t := x]> (tasks s) |}.

(** [TID_TO_PTHREAD]: the first use registers the current task, with a packet of its own;
    [ptr] and [pk] are the new box and packet. *)
Definition force_table (me ptr pk : Z) (s : threads) : threads :=
  match table s with
  | Some _ => s
  | None => set_table (Some {[ me := ptr ]}) (set_boxes (<[ptr := {| inner := me; retval := pk |}]> (boxes s)) (set_packet pk 0 s))
  end.
Definition lookup_table (tid : Z) (s : threads) : option Z := t ← table s; t !! tid.
Definition update_table (f : gmap Z Z → gmap Z Z) (s : threads) : threads := set_table (f <$> table s) s.
(** A null pointer is 0. *)
Definition current_ptr (me : Z) (s : threads) : Z := default 0 (lookup_table me s).
Definition current (me : Z) (s : threads) : option Pthread := if current_ptr me s =? 0 then None else boxes s !! current_ptr me s.
Definition sys_pthread_self (me : Z) (s : threads) : outcome Z := match current me s with Some _ => Ret (current_ptr me s) | None => Panic end.

(** [Pthread::create] up to the return of [spawn], and the rest of it. *)
Definition create_spawn (tid pk : Z) (s : threads) : Pthread * threads :=
  ({| inner := tid; retval := pk |}, set_task tid {| t_exited := false; t_packet := pk |} (set_packet pk 0 s)).
Definition create_insert (th : Pthread) (ptr : Z) (s : threads) : threads := update_table (<[inner th := ptr]>) (set_boxes (<[ptr := th]> (boxes s)) s).
(** [axtask::exit]. *)
Definition task_exit (me : Z) (s : threads) : threads :=
  match tasks s !! me with Some t => set_task me {| t_exited := true; t_packet := t_packet t |} s | None => s end.
Definition exit_current (me v : Z) (s : threads) : outcome threads :=
  match current me s with Some th => Ret (task_exit me (set_packet (retval th) v s)) | None => Panic end.
(** The end of the closure [main] of a new thread, whose routine has returned [v]. *)
Definition closure_end (me v : Z) (s : threads) : threads :=
  match tasks s !! me with Some t => task_exit me (set_packet (t_packet t) v s) | None => s end.
(** [Pthread::join] up to the wait, and after it. *)
Definition join_start (me ptr : Z) (s : threads) : option (result Pthread LinuxError.t) :=
  if ptr =? current_ptr me s then Some (Err LinuxError.EDEADLK) else Ok <$> boxes s !! ptr.
Definition join_finish (ptr : Z) (th : Pthread) (s : threads) : Z * threads :=
  (default 0 (packets s !! retval th), set_boxes (delete ptr (boxes s)) (update_table (delete (inner th)) s)).

(** ** Threads that interleave *)

(** [creating] are the threads whose creation is between [spawn] and the insertion, [joining]
    the ones another thread waits for; [handed] is the value a thread has ended with. *)
Record machine : Type := { mt : threads; creating : list Pthread; joining : gmap Z Pthread; handed : gmap Z Z }.
Definition has_exited (tid : Z) (s : threads) : Prop := ∃ x, tasks s !! tid = Some x ∧ t_exited x = true.
Definition alive (tid : Z) (s : threads) : Prop := ∃ x, tasks s !! tid = Some x ∧ t_exited x = false.

(** The calls of a program that joins a thread at most once. *)
Inductive pstep (main : Z) : machine → machine → Prop :=
  | ps_spawn m me tid pk th s' : alive me (mt m) → tasks (mt m) !! tid = None → packets (mt m) !! pk = None → create_spawn tid pk (mt m) = (th, s') →
      pstep main m {| mt := s'; creating := th :: creating m; joining := joining m; handed := handed m |}
  | ps_insert m th rest ptr : creating m ≡ₚ th :: rest → ptr ≠ 0 → boxes (mt m) !! ptr = None →
      pstep main m {| mt := create_insert th ptr (mt m); creating := rest; joining := joining m; handed := handed m |}
  | ps_exit m me v s' : alive me (mt m) → exit_current me v (mt m) = Ret s' →
      pstep main m {| mt := s'; creating := creating m; joining := joining m; handed := <[me := v]> (handed m) |}
  | ps_return m me v : alive me (mt m) → me ≠ main →
      pstep main m {| mt := closure_end me v (mt m); creating := creating m; joining := joining m; handed := <[me := v]> (handed m) |}
  | ps_join m me ptr th : alive me (mt m) → joining m !! ptr = None → join_start me ptr (mt m) = Some (Ok th) →
      pstep main m {| mt := mt m; creating := creating m; joining := <[ptr := th]> (joining m); handed := handed m |}
  | ps_joined m ptr th v s' : joining m !! ptr = Some th → has_exited (inner th) (mt m) → join_finish ptr th (mt m) = (v, s') →
      pstep main m {| mt := s'; creating := creating m; joining := delete ptr (joining m); handed := handed m |}.
(** The main thread has used the table before it creates a thread. *)
Definition started (main ptr pk : Z) : machine :=
  {| mt := force_table main ptr pk {| table := None; boxes := ∅; packets := ∅; tasks := {[ main := {| t_exited := false; t_packet := pk |} ]} |};
     creating := []; joining := ∅; handed := ∅ |}.

Definition known (th : Pthread) (m : machine) : Prop := (∃ ptr, boxes (mt m) !! ptr = Some th) ∨ th ∈ creating m.
Record pinv (m : machine) : Prop := {
  pi_table : table (mt m) ≠ None;
  pi_entry tid ptr : lookup_table tid (mt m) = Some ptr → ptr ≠ 0 ∧ ∃ th, boxes (mt m) !! ptr = Some th ∧ inner th = tid;
  pi_known th : known th m → ∃ x, tasks (mt m) !! inner th = Some x ∧ t_packet x = retval th;
  pi_packets a b x y : tasks (mt m) !! a = Some x → tasks (mt m) !! b = Some y → t_packet x = t_packet y → a = b;
  pi_used tid x : tasks (mt m) !! tid = Some x → is_Some (packets (mt m) !! t_packet x);
  pi_handed tid x : tasks (mt m) !! tid = Some x → t_exited x = true → ∃ v, handed m !! tid = Some v ∧ packets (mt m) !! t_packet x = Some v;
  pi_joining ptr th : joining m !! ptr = Some th → boxes (mt m) !! ptr = Some th;
  pi_creating th : th ∈ creating m → lookup_table (inner th) (mt m) = None;
  pi_nodup : NoDup (inner <$> creating m);
}.

Lemma lookup_update f tid s : lookup_table tid (update_table f s) = match table s with Some t => f t !! tid | None => None end.
Proof. unfold lookup_table, update_table, set_table. cbn. by destruct (table s). Qed.
Lemma current_entry me s th : current me s = Some th → lookup_table me s = Some (current_ptr me s) ∧ boxes s !! current_ptr me s = Some th.
Proof. unfold current, current_ptr. destruct (lookup_table me s) as [p|] eqn:E; cbn; [|done]. by destruct (p =? 0). Qed.

Lemma started_inv main ptr pk : ptr ≠ 0 → pinv (started main ptr pk).
Proof.
  intros Hp. split; cbn; try done.
  - intros tid p. rewrite lookup_singleton_Some. intros [<- <-]. split; [done|]. eexists. by rewrite lookup_insert_eq.
  - intros th [[p Hb]|Hn%elem_of_nil]; [|done]. cbn in Hb. apply lookup_insert_Some in Hb as [[_ <-]|[_ Hn]]; [|by rewrite lookup_empty in Hn]. eexists. by rewrite lookup_singleton_eq.
  - intros a b x y [<- <-]%lookup_singleton_Some [<- <-]%lookup_singleton_Some. done.
  - intros tid x [<- <-]%lookup_singleton_Some. cbn. by rewrite lookup_insert_eq.
  - intros tid x [<- <-]%lookup_singleton_Some. done.
  - by intros th ?%elem_of_nil.
  - constructor.
Qed.
Lemma end_inv m me x v : pinv m → tasks (mt m) !! me = Some x →
  pinv {| mt := task_exit me (set_packet (t_packet x) v (mt m)); creating := creating m; joining := joining m; handed := <[me := v]> (handed m) |}.
Proof.
  intros [I1 I2 I3 I4 I5 I6 I7 I8 I9] Hx. unfold task_exit. cbn [tasks set_packet]. rewrite Hx. set (x' := {| t_exited := true; t_packet := t_packet x |}).
  assert (∀ a y, <[me := x']> (tasks (mt m)) !! a = Some y → ∃ z, tasks (mt m) !! a = Some z ∧ t_packet z = t_packet y ∧ (a ≠ me → z = y)) as Hold.
  { intros a y [[<- <-]|[Hne Hy]]%lookup_insert_Some; [by exists x|by exists y]. }
  split; cbn [mt creating joining handed set_task set_packet table boxes packets tasks]; try done.
  - intros th Hk. destruct (I3 th Hk) as (y & Hy & Hp). destruct (decide (inner th = me)) as [E|Hne]; [|exists y; by rewrite lookup_insert_ne].
    exists x'. rewrite E, lookup_insert_eq. split; [done|]. rewrite E in Hy. by simplify_eq.
  - intros a b y z (y0 & Hy & Ey & _)%Hold (z0 & Hz & Ez & _)%Hold Heq. apply (I4 a b y0 z0); [done..|congruence].
  - intros tid y (y0 & Hy & <- & _)%Hold. destruct (decide (t_packet y0 = t_packet x)) as [->|Hne]; [by rewrite lookup_insert_eq|]. rewrite lookup_insert_ne by done. by apply (I5 tid).
  - intros tid y Hy He. destruct (decide (tid = me)) as [->|Hne].
    + rewrite lookup_insert_eq in Hy. injection Hy as <-. exists v. by rewrite !lookup_insert_eq.
    + rewrite lookup_insert_ne in Hy by done. rewrite !lookup_insert_ne; [by apply I6|intros Hp; by destruct Hne; apply (I4 tid me y x)|done].
Qed.
Lemma spawn_inv m tid pk th s' : pinv m → tasks (mt m) !! tid = None → packets (mt m) !! pk = None → create_spawn tid pk (mt m) = (th, s') →
  pinv {| mt := s'; creating := th :: creating m; joining := joining m; handed := handed m |}.
Proof.
  intros [I1 I2 I3 I4 I5 I6 I7 I8 I9] Ht Hp [= <- <-]. set (x := {| t_exited := false; t_packet := pk |}).
  assert (∀ a y, tasks (mt m) !! a = Some y → t_packet y ≠ pk) as Hpk by (intros a y Hy E; destruct (I5 a y Hy) as [v Hv]; congruence).
  assert (∀ th, known th m → inner th ≠ tid) as Hin by (intros th Hk E; destruct (I3 th Hk) as (y & Hy & _); congruence).
  split; cbn [mt creating joining handed set_task set_packet table boxes packets tasks]; try done.
  - intros th [Hk|[->|Hk]%elem_of_cons]; [|exists x; by rewrite lookup_insert_eq|]; (destruct (I3 th) as (y & Hy & Ey); [first [left; exact Hk|right; exact Hk]|]); exists y;
      (rewrite lookup_insert_ne; [done|]); intros E; rewrite <-E in Hy; congruence.
  - intros a b y z [[<- <-]|[Ha Hy]]%lookup_insert_Some [[<- <-]|[Hb Hz]]%lookup_insert_Some Heq; [done| | |by apply (I4 a b y z)]; cbn in Heq; exfalso; [by apply (Hpk b z)|by apply (Hpk a y)].
  - intros a y [[<- <-]|[Ha Hy]]%lookup_insert_Some; [cbn; by rewrite lookup_insert_eq|]. rewrite lookup_insert_ne; [by apply (I5 a)|]. intros E. by apply (Hpk a y).
  - intros a y [[<- <-]|[Ha Hy]]%lookup_insert_Some He; [done|]. destruct (I6 a y Hy He) as (v & Hv & Hpv). exists v. split; [done|]. rewrite lookup_insert_ne; [done|]. intros E. by apply (Hpk a y).
  - intros th [->|Hc]%elem_of_cons; [|by apply I8]. cbn. change (lookup_table tid (mt m) = None). destruct (lookup_table tid (mt m)) as [p|] eqn:E; [|done].
    destruct (I2 _ _ E) as (_ & th & Hb & Hi). exfalso. apply (Hin th); [left; by exists p|done].
  - rewrite fmap_cons. apply NoDup_cons. split; [|done]. intros (th & E & Hc)%list_elem_of_fmap. cbn in E. apply (Hin th); [by right|done].
Qed.
Lemma insert_inv m th rest ptr : pinv m → creating m ≡ₚ th :: rest → ptr ≠ 0 → boxes (mt m) !! ptr = None →
  pinv {| mt := create_insert th ptr (mt m); creating := rest; joining := joining m; handed := handed m |}.
Proof.
  intros [I1 I2 I3 I4 I5 I6 I7 I8 I9] Hc Hp Hb. destruct (table (mt m)) as [t|] eqn:Et; [|done]. assert (th ∈ creating m) as Hth by (rewrite Hc; by left).
  assert (∀ a, lookup_table a (create_insert th ptr (mt m)) = <[inner th := ptr]> t !! a) as Hl by (intros a; unfold create_insert; rewrite lookup_update; cbn [set_boxes table]; by rewrite Et).
  assert (∀ a, lookup_table a (mt m) = t !! a) as Hl0 by (intros a; unfold lookup_table; by rewrite Et).
  rewrite Hc, fmap_cons in I9. apply NoDup_cons in I9 as [Hni Hnd].
  split; cbn [mt creating joining handed]; try done.
  - unfold create_insert, update_table. cbn. by rewrite Et.
  - intros tid p. rewrite Hl. cbn [create_insert update_table set_table set_boxes boxes]. intros [[<- <-]|[Hne Hp']]%lookup_insert_Some; [split; [done|]; exists th; by rewrite lookup_insert_eq|].
    rewrite <-Hl0 in Hp'. destruct (I2 _ _ Hp') as (Hp0 & th' & Hb' & Hi). split; [done|]. exists th'. rewrite lookup_insert_ne; [done|]. congruence.
  - intros th' Hk. apply I3. destruct Hk as [[p Hb']|Hk]; [|right; rewrite Hc; by right]. cbn in Hb'. apply lookup_insert_Some in Hb' as [[_ <-]|[_ Hb']]; [by right|left; by exists p].
  - intros p th' Hj. cbn. rewrite lookup_insert_ne; [by apply I7|]. intros <-. apply I7 in Hj. congruence.
  - intros th' Hr. rewrite Hl, lookup_insert_ne; [rewrite <-Hl0; apply I8; rewrite Hc; by right|]. intros E. apply Hni. rewrite E. by apply list_elem_of_fmap_2.
Qed.
Lemma joined_inv m ptr th v s' : pinv m → joining m !! ptr = Some th → join_finish ptr th (mt m) = (v, s') →
  pinv {| mt := s'; creating := creating m; joining := delete ptr (joining m); handed := handed m |}.
Proof.
  intros [I1 I2 I3 I4 I5 I6 I7 I8 I9] Hj [= <- <-]. destruct (table (mt m)) as [t|] eqn:Et; [|done]. pose proof (I7 _ _ Hj) as Hb.
  set (s' := set_boxes _ _). assert (∀ a, lookup_table a s' = delete (inner th) t !! a) as Hl by (intros a; change (lookup_table a s') with (lookup_table a (update_table (delete (inner th)) (mt m))); rewrite lookup_update; by rewrite Et).
  assert (∀ a, lookup_table a (mt m) = t !! a) as Hl0 by (intros a; unfold lookup_table; by rewrite Et).
  split; cbn [mt creating joining handed]; try done.
  - unfold s'. cbn. by rewrite Et.
  - intros tid p. rewrite Hl. intros [Hne Hp]%lookup_delete_Some. rewrite <-Hl0 in Hp. destruct (I2 _ _ Hp) as (Hp0 & th' & Hb' & Hi). split; [done|]. exists th'. split; [|done].
    unfold s'. cbn. rewrite lookup_delete_ne; [done|]. intros <-. rewrite Hb in Hb'. by simplify_eq.
  - intros th' [[p Hp]|Hk]; apply I3; [|by right]. cbn in Hp. apply lookup_delete_Some in Hp as [_ Hp]. left. by exists p.
  - intros p th' [Hne Hp]%lookup_delete_Some. unfold s'. cbn. rewrite lookup_delete_ne by done. by apply I7.
  - intros th' Hc. rewrite Hl. apply lookup_delete_None. right. rewrite <-Hl0. by apply I8.
Qed.
Lemma pstep_inv main m m' : pstep main m m' → pinv m → pinv m'.
Proof.
  destruct 1 as [m me tid pk th s' _ Ht Hp E|m th rest ptr Hc Hp Hb|m me v s' [x [Hx _]] E|m me v [x [Hx _]] _|m me ptr th _ Hj E|m ptr th v s' Hj _ E]; intros I.
  - by apply (spawn_inv m tid pk).
  - by apply insert_inv.
  - unfold exit_current in E. destruct (current me (mt m)) as [th|] eqn:Ec; [|done]. injection E as <-. apply current_entry in Ec as [El Eb].
    destruct (pi_entry _ I _ _ El) as (_ & th' & Eb' & Ei). rewrite Eb in Eb'. injection Eb' as <-. destruct (pi_known _ I th) as (y & Hy & Ep); [left; by eexists|]. rewrite Ei, Hx in Hy. injection Hy as <-.
    rewrite <-Ep. by apply end_inv.
  - unfold closure_end. rewrite Hx. by apply end_inv.
  - unfold join_start in E. destruct (_ =? _); [done|]. destruct (boxes (mt m) !! ptr) as [th'|] eqn:Eb; [|done]. injection E as <-.
    destruct I as [I1 I2 I3 I4 I5 I6 I7 I8 I9]. split; try done. cbn [joining]. intros p th'' [[<- <-]|[_ Hp]]%lookup_insert_Some; [done|by apply I7].
  - by apply (joined_inv m ptr th v).
Qed.


(** When nothing has used the table before the first thread is created, the new thread can be
    the one that fills it: it registers itself with another packet, its [pthread_exit] stores
    42 there, and the join gives a null pointer; the main thread is not registered at all. *)
Theorem pthread_exit_lost :
  let s0 := {| table := None; boxes := ∅; packets := ∅; tasks := {[ 1 := {| t_exited := false; t_packet := 200 |} ]} |} in
  let '(th, s1) := create_spawn 2 201 s0 in
  let s2 := force_table 2 100 202 s1 in
  ∃ s3, exit_current 2 42 s2 = Ret s3 ∧ let s4 := create_insert th 101 s3 in
    has_exited 2 s4 ∧ join_start 1 101 s4 = Some (Ok th) ∧ fst (join_finish 101 th s4) = 0 ∧ sys_pthread_self 1 s4 = Panic.
Proof. cbn. eexists. split; [reflexivity|]. split; [by eexists|]. split; [reflexivity|]. split; reflexivity. Qed.
