(* ===== verification/KernelGuard.v ===== *)
(** Guards of critical sections ([crates/kernel_guard]), on RISC-V: the interrupt enable bit of
    [sstatus] and the counter of the scheduler that keeps a task from being preempted.

    The counter belongs to the scheduler, which implements [KernelGuardIf]; when it falls to
    zero the scheduler may run other tasks before it comes back. *)

From stdpp Require Import prelude list.
From Stdlib Require Import ZArith Lia.
From S2P Require Import Prelude.
Local Open Scope Z_scope.

Class KernelGuardIf (W : Type) : Type := { enable_preempt : W → W; disable_preempt : W → W; preempt_count : W → Z }.
Class KernelGuardLaws (W : Type) `{KernelGuardIf W} : Prop := {
  disable_law w : preempt_count (disable_preempt w) = preempt_count w + 1;
  enable_law w : 0 < preempt_count w → preempt_count (enable_preempt w) = preempt_count w - 1;
}.

Section guards.
Context {W : Type} `{KernelGuardIf W}.
Record cpu : Type := { sstatus : Z; kernel : W }.

(** [arch/riscv.rs] *)
Definition SIE_BIT : Z := Z.shiftl 1 1.
Definition local_irq_save_and_disable (c : cpu) : Z * cpu := (Z.land (sstatus c) SIE_BIT, {| sstatus := Z.ldiff (sstatus c) SIE_BIT; kernel := kernel c |}).
Definition local_irq_restore (flags : Z) (c : cpu) : cpu := {| sstatus := Z.lor (sstatus c) flags; kernel := kernel c |}.
Definition on_kernel (f : W → W) (c : cpu) : cpu := {| sstatus := sstatus c; kernel := f (kernel c) |}.

(** [lib.rs]; [preempt] is the feature. *)
Record BaseGuard : Type := { State : Type; acquire : cpu → State * cpu; release : State → cpu → cpu }.
Definition NoOp : BaseGuard := {| State := unit; acquire c := (tt, c); release _ c := c |}.
Definition IrqSave : BaseGuard := {| State := Z; acquire := local_irq_save_and_disable; release := local_irq_restore |}.
Definition NoPreempt (preempt : bool) : BaseGuard :=
  {| State := unit;
     acquire c := (tt, if preempt then on_kernel disable_preempt c else c);
     release _ c := if preempt then on_kernel enable_preempt c else c |}.
Definition NoPreemptIrqSave (preempt : bool) : BaseGuard :=
  {| State := Z;
     acquire c := local_irq_save_and_disable (if preempt then on_kernel disable_preempt c else c);
     release flags c := let c := local_irq_restore flags c in if preempt then on_kernel enable_preempt c else c |}.

(** [let _guard = G::new(); body]: the guard is dropped at the end of its scope. *)
Definition with_guard (g : BaseGuard) (body : cpu → cpu) (c : cpu) : cpu :=
  let (st, c) := acquire g c in release g st (body c).
Definition nested (gs : list BaseGuard) (body : cpu → cpu) : cpu → cpu := foldr with_guard body gs.

(** The guards are taken from the outermost to the innermost. *)
Definition entered (gs : list BaseGuard) (c : cpu) : cpu := foldl (λ c g, (acquire g c).2) c gs.

Definition irqs_enabled (c : cpu) : bool := Z.testbit (sstatus c) 1.
Definition stops_irqs (preempt : bool) (g : BaseGuard) : Prop := g = IrqSave ∨ g = NoPreemptIrqSave preempt.
Definition stops_preempt (preempt : bool) (g : BaseGuard) : Prop := preempt = true ∧ (g = NoPreempt preempt ∨ g = NoPreemptIrqSave preempt).
Definition a_guard (preempt : bool) (g : BaseGuard) : Prop := g = NoOp ∨ g = IrqSave ∨ g = NoPreempt preempt ∨ g = NoPreemptIrqSave preempt.
End guards.
Arguments cpu : clear implicits.
Arguments BaseGuard : clear implicits.

Section laws.
Context {W : Type} `{KernelGuardLaws W} (preempt : bool).
Implicit Types (c : cpu W) (g : BaseGuard W).
Abbreviation count c := (preempt_count (kernel c)).
(** A body that gives back the interrupt state and the counter it found. *)
Definition balanced (body : cpu W → cpu W) : Prop := ∀ c, 0 ≤ count c → irqs_enabled (body c) = irqs_enabled c ∧ count (body c) = count c.

Lemma irqs_saved c : let (flags, c') := local_irq_save_and_disable c in
  irqs_enabled c' = false ∧ kernel c' = kernel c ∧ ∀ d : cpu W, irqs_enabled d = false → irqs_enabled (local_irq_restore flags d) = irqs_enabled c ∧ kernel (local_irq_restore flags d) = kernel d.
Proof.
  unfold irqs_enabled, local_irq_save_and_disable, local_irq_restore. cbn [sstatus kernel]. split; [rewrite Z.ldiff_spec; apply andb_false_r|]. split; [done|]. intros d Hd. split; [|done].
  rewrite Z.lor_spec, Z.land_spec, Hd. apply andb_true_r.
Qed.
Lemma with_guard_balanced g body : a_guard preempt g → balanced body → balanced (with_guard g body).
Proof.
  intros Hg Hb c Hc. destruct Hg as [->|[->|[->| ->]]].
  - by apply Hb.
  - pose proof (irqs_saved c) as Hs. unfold with_guard, IrqSave. cbn [acquire release]. destruct (local_irq_save_and_disable c) as [flags c1]. destruct Hs as (H1 & H2 & H3).
    destruct (Hb c1) as [B1 B2]; [by rewrite H2|]. rewrite H1 in B1. destruct (H3 (body c1) B1) as [-> ->]. by rewrite B2, H2.
  - unfold with_guard, NoPreempt. cbn [acquire release]. destruct preempt; [|by apply Hb]. destruct (Hb (on_kernel disable_preempt c)) as [B1 B2]; cbn in *; rewrite disable_law in *; [lia|].
    split; [by rewrite <-B1|]. rewrite enable_law by lia. lia.
  - unfold with_guard, NoPreemptIrqSave. cbn [acquire release]. set (c0 := if preempt then _ else c). pose proof (irqs_saved c0) as Hs. destruct (local_irq_save_and_disable c0) as [flags c1]. destruct Hs as (H1 & H2 & H3).
    assert (count c0 = count c + (if preempt then 1 else 0) ∧ irqs_enabled c0 = irqs_enabled c) as [Hc0 Hi0] by (unfold c0; destruct preempt; cbn; rewrite ?disable_law; split; done || lia).
    destruct (Hb c1) as [B1 B2]; [rewrite H2; destruct preempt; lia|]. rewrite H1 in B1. destruct (H3 (body c1) B1) as [R1 R2]. rewrite H2 in B2.
    destruct preempt; [|by rewrite R1, R2, B2, Hi0, Hc0, Z.add_0_r]. split.
    + change (irqs_enabled (local_irq_restore flags (body c1)) = irqs_enabled c). by rewrite R1.
    + change (preempt_count (enable_preempt (kernel (local_irq_restore flags (body c1)))) = count c). rewrite R2, enable_law; lia.
Qed.

(** The state in which the innermost body runs. *)
Lemma nested_entered gs body c : ∃ sts : list (cpu W → cpu W), nested gs body c = foldr (λ r d, r d) (body (entered gs c)) sts ∧
  Forall2 (λ r g, ∃ d, r = release g (acquire g d).1) sts gs.
Proof.
  revert c. induction gs as [|g gs IH]; intros c; [by exists []|]. destruct (IH (acquire g c).2) as (sts & E & Hf). exists (release g (acquire g c).1 :: sts).
  split; [|constructor; [by exists c|done]]. cbn [nested foldr entered foldl]. unfold with_guard. destruct (acquire g c) as [st c1]. cbn [fst snd] in *. f_equal. exact E.
Qed.
Lemma acquire_keeps g c : a_guard preempt g → count c ≤ count (acquire g c).2 ∧ (irqs_enabled c = false → irqs_enabled (acquire g c).2 = false) ∧
  (stops_irqs preempt g → irqs_enabled (acquire g c).2 = false) ∧ (stops_preempt preempt g → count (acquire g c).2 = count c + 1).
Proof.
  intros Hg. split; [|split; [|split]].
  - destruct Hg as [->|[->|[->| ->]]]; cbn; [done|done|..]; destruct preempt; cbn; rewrite ?disable_law; lia.
  - intros Hi. destruct Hg as [->|[->|[->| ->]]]; [done| |by cbn; destruct preempt|]; apply (irqs_saved _).
  - intros [->| ->]; apply (irqs_saved _).
  - intros [Hp [->| ->]]; cbn; rewrite Hp; cbn; apply disable_law.
Qed.
Lemma entered_keeps gs c : Forall (a_guard preempt) gs → count c ≤ count (entered gs c) ∧ (irqs_enabled c = false → irqs_enabled (entered gs c) = false).
Proof.
  intros Hg. revert c. induction Hg as [|g gs Hg _ IH]; intros c; [done|]. cbn [entered foldl]. destruct (acquire_keeps g c Hg) as (K1 & K2 & _). destruct (IH (acquire g c).2) as [I1 I2].
  split; [unfold entered in I1; lia|]. intros Hi. by apply I2, K2.
Qed.
Lemma entered_split gs g c : Forall (a_guard preempt) gs → g ∈ gs → ∃ d gs', count c ≤ count d ∧ Forall (a_guard preempt) gs' ∧ a_guard preempt g ∧ entered gs c = entered gs' (acquire g d).2.
Proof.
  intros Hg (l1 & l2 & ->)%list_elem_of_split. apply Forall_app in Hg as [H1 [Hg H2]%Forall_cons]. exists (entered l1 c), l2. split; [by apply entered_keeps|]. split; [done|]. split; [done|].
  unfold entered. by rewrite foldl_app.
Qed.

(** Guards protect the section they enclose and leave nothing behind.  However guards of
    the four kinds are nested, the innermost section runs with interrupts disabled when one of
    them is an interrupt guard and with the task not preemptible when one of them is a
    preemption guard; and when the section gives back the interrupt state and the counter it
    found, so do all guards together. *)
Theorem guards_protect gs body c : Forall (a_guard preempt) gs → balanced body → 0 ≤ count c →
  (∀ g, g ∈ gs → stops_irqs preempt g → irqs_enabled (entered gs c) = false) ∧
  (∀ g, g ∈ gs → stops_preempt preempt g → 0 < count (entered gs c)) ∧
  irqs_enabled (nested gs body c) = irqs_enabled c ∧ count (nested gs body c) = count c.
Proof.
  intros Hg Hb Hc. split; [|split].
  - intros g Hin Hs. destruct (entered_split gs g c Hg Hin) as (d & gs' & Hd & Hgs' & Hag & ->). apply (entered_keeps gs' _ Hgs'). by apply (acquire_keeps g d Hag).
  - intros g Hin Hs. destruct (entered_split gs g c Hg Hin) as (d & gs' & Hd & Hgs' & Hag & ->). destruct (entered_keeps gs' (acquire g d).2 Hgs') as [Hk _].
    destruct (acquire_keeps g d Hag) as (_ & _ & _ & K). specialize (K Hs). lia.
  - assert (balanced (nested gs body)) as Hn by (clear Hc; induction Hg as [|h gs Hh _ IH]; [exact Hb|exact (with_guard_balanced h (nested gs body) Hh IH)]). by apply Hn.
Qed.
End laws.

(** A counter as the scheduler. *)
#[export] Instance counter_guard : KernelGuardIf Z := {| enable_preempt w := w - 1; disable_preempt w := w + 1; preempt_count w := w |}.
#[export] Instance counter_guard_laws : KernelGuardLaws Z.
Proof. by split. Qed.
Definition demo_cpu : cpu Z := {| sstatus := 2; kernel := 0 |}.
Lemma guards_protect_witness :
  irqs_enabled (entered [NoPreempt true; NoPreemptIrqSave true; IrqSave] demo_cpu) = false ∧ irqs_enabled (nested [NoPreempt true; NoPreemptIrqSave true; IrqSave] id demo_cpu) = true.
Proof.
  destruct (guards_protect true [NoPreempt true; NoPreemptIrqSave true; IrqSave] id demo_cpu) as (H1 & _ & H2 & _).
  - constructor; [by right; right; left|]. constructor; [by right; right; right|]. constructor; [by right; left|]. constructor.
  - intros c _. split; reflexivity.
  - reflexivity.
  - split; [|exact H2]. apply (H1 IrqSave); [do 2 right; left|left; reflexivity].
Defined.

(** Guards that are dropped out of order do not nest: with the outer one gone first, interrupts
    are enabled while the inner one is alive. *)
Example guards_out_of_order :
  let (outer, c1) := local_irq_save_and_disable demo_cpu in
  let (_, c2) := local_irq_save_and_disable c1 in
  irqs_enabled c2 = false ∧ irqs_enabled (local_irq_restore outer c2) = true.
Proof. done. Qed.
